(* ===== verification/_CoqProject ===== *)
-Q . S2P
Prelude.v
Text.v
Core.v
FormatBase.v
TwoBit.v
TQ2.v
TQ1.v
Q2.v
Rows.v
I2S.v
TB1.v
LeCursor.v
Corpus.v
F32.v
Sparse.v
EntropyBase.v
Rans.v
HuffmanTree.v
HuffmanCode.v
Huffman.v
Transport.v
TransportWrite.v
TransportSeek.v
Schema.v
PerTile.v
Uniform.v
Spec.v
Budget.v
Admission.v
Evidence.v
EvidenceLog.v
AdditiveView.v
Basis.v
AdditiveOps.v
Prefix.v
JointCode.v
JointLengths.v
JointWords.v
JointStream.v
ByteMap.v
Outcome.v
Gguf.v
GgufRead.v
GgufWrite.v
GgufStream.v
TensorPlan.v
Upload.v
UploadSafe.v
UploadExact.v
UploadStream.v
Tokenizer.v
Sse.v
Respond.v
Chat.v
Deadline.v
TeacherCache.v
FloatOrder.v
Plane.v
Allocate.v
JointBundle.v
JointBundleRows.v
JointBundleFile.v
JointBundleSafe.v
FloatExact.v
Reference.v
CpuKernels.v
CpuExact.v
CpuBackend.v
CpuGrad.v
CpuGradExact.v
