(* ===== verification/Prelude.v ===== *)
(** * Tritium: a verification library for its formats, additive tensors and control state

    Tritium is a Rust workspace that stores, serves and trains ternary neural networks.
    Weights are trits packed in block formats, optionally as several additive planes with
    a scale law; files are entropy-coded and indexed; a runtime admits tensor uploads
    against budgets; a server authenticates and rate-limits callers and answers chat
    requests whole or as event streams; a CPU backend multiplies activations by packed
    trits with whatever vector instructions the host has; a quantizer expands weights into
    ternary planes and spends a bit budget on them; a recorder keeps hash-chained evidence logs. This
    library models those parts from the sources under src/crates and proves the properties
    their callers rely on.

    ** Conventions (this file)

    A fallible function returns [res E A]: [Ok], [Err] (the source's error type), [Panic]
    (index out of range, arithmetic overflow, failed expect) or [NoFuel] (a bounded model
    of a loop ran out). [usize] is 64 bits wide. Unsigned integers are [Z] with their
    bounds as predicates; checked, saturating and wrapping arithmetic is written out, and
    plain [+], [*] and [-] of the source are the overflow-checked [add_usize], [mul_usize]
    and [sub_usize], so that a proof of [Ok] also excludes a wrap-around in release
    builds. Slices are lists with [idx], [upd], [slice], [sub], [splice]; loops are
    [for_range], [for_each] and [for_enum] with invariant rules. The rest of the file has
    the lemmas on lists, bytes, sums and powers of two the components share, the tactics
    ([bind_inv], [zl], [zlia], [wrote_loop]) and the rewriting database [zlen].

    ** Files and what they model

    - Text: Rust strings as UTF-8 bytes, their boundaries, slices and search.
    - Core: tritium-core trit.rs, shape.rs, error.rs.
    - FormatBase, TwoBit, TQ2, TQ1, Q2, Rows: the block codecs tq2.rs, tq1.rs, q2_0.rs and
      the row codecs of rows.rs, written once over the class [BlockCodec].
    - I2S: i2s.rs and i2s_int8.rs. TB1: tb1.rs. LeCursor, Corpus: le_cursor.rs, tqbin.rs,
      tqidx.rs. F32: binary32 and binary16 values. Sparse: sparse.rs. TeacherCache:
      teacher_cache.rs and topk_teacher_cache.rs.
    - EntropyBase, Rans, HuffmanTree, HuffmanCode, Huffman, Transport, TransportWrite,
      TransportSeek: entropy_transport.rs. The codecs, the writer and in-memory reader,
      and the file-backed reader over a class of Read + Seek sources.
    - JointCode (definitions), JointLengths, JointWords, JointStream: salt_joint_code.rs,
      the joint-symbol code of SALT planes. JointBundle (definitions), JointBundleRows
      (one tensor out and back), JointBundleFile (the whole file) and JointBundleSafe
      (untrusted files): salt_joint_bundle.rs.
    - FloatOrder: the order of rounded sums and products, on Stdlib's [spec_float];
      FloatExact: sums that round to themselves. Reference: the product and convolution of
      tritium-core reference.rs. CpuKernels (definitions), CpuExact (theorems): tritium-cpu
      kernel.rs and simd/avx512.rs, neon.rs, lut.rs, a register as the list of its lanes,
      the detected host features and the order in which the pool runs the chunks as
      arguments. CpuBackend: upload and product of packed weights of tritium-cpu lib.rs.
      CpuGrad (definitions), CpuGradExact (theorems): their gradients, over decoded trits
      and over packed bytes.
    - Plane:
      tritium-quantize plane.rs and the AbsMean scale of tritium-core scale.rs. Allocate:
      tritium-quantize allocate.rs.
    - ByteMap: [BTreeMap<String, V>] as a sorted association list. Outcome: postconditions
      of fallible code ([yields]) and their rules. Gguf (definitions), GgufRead, GgufWrite:
      gguf.rs and gguf_write.rs; GgufStream: the streaming writer of gguf_write.rs over a
      class of Write destinations.
    - Schema: the additive layout of tritium-schema lib.rs. PerTile: tritium-core
      per_tile.rs. Uniform, AdditiveView, Basis, AdditiveOps, Prefix: tritium-core
      additive.rs (plans and cursors, decoded views, input-axis bases, gather and matrix
      product, the logical prefix test).
    - Budget: tritium-runtime tensor_budget.rs, threads as an interleaving step relation.
    - Admission: tritium-serve admission.rs, the clock as an argument.
    - Evidence (definitions) and EvidenceLog (theorems): tritium-evidence lib.rs.
    - Spec: errors, capabilities, policy and plans of tritium-spec lib.rs, tensor_plan.rs,
      tensor_stream.rs and tritium-schema lib.rs. TensorPlan: upload metadata of
      tensor_plan.rs and tensor views of tritium-spec lib.rs.
    - Upload (definitions), UploadSafe (a program logic for them), UploadExact and
      UploadStream (theorems): tritium-runtime tensor_upload.rs and tensor_stream_upload.rs,
      which compose Budget, Evidence and TensorPlan with classes of backends, of stream
      sources and of what other threads do to the budgets.
    - Tokenizer: the trait of tritium-nn tokenizer.rs as a class, and tritium-serve
      tokenizer_passthrough.rs. Sse: tritium-serve sse.rs with the messages of dto.rs.
      Respond: the buffered and the streaming body and the log-probabilities of router.rs.
      Chat: templates, validation and queueing of router.rs, up to the choice of a body.
      Deadline: the event receiver, watchdog and disconnect guard of router.rs, as a step
      relation over their atomic accesses, lock and cancellations.

    ** What the theorems show

    - Formats: blocks, rows, corpora, sparse planes and containers round trip; decoders
      accept exactly the well-formed inputs and return on all others, without panic; the
      load-time conversions keep every weight; a window of a teacher cache decodes
      exactly when it is an encoding.
    - Entropy transport: both codecs invert and their encoders are total; a length table
      is accepted exactly under Kraft's inequality; every range of a written file reads
      back; the file-backed reader refines the in-memory one request by request.
    - GGUF: the reader returns on every byte string, and what it accepts is well typed and
      in bounds; it inverts the writer; a finished stream wrote what the buffer writer
      returns, whatever the chunking, and a refused chunk changes nothing.
    - Joint code: folding planes into symbols is a bijection; for every frequency table
      the length-limited code is built, its lengths determine it, and streams and single
      blocks decode to what was encoded. Bundles of such tensors read back byte for byte,
      and a bundle from anywhere opens or is refused, without panic, and tiles its file.
    - Planes: the allocator with its heap is the one that scans every group, a greedy run
      within the budget that leaves no affordable gain; its curves are the errors of the
      expansions, which are prefix stable.
    - CPU products: the reference is the float product by trits, and its convolution the
      product over the unrolled input; the vector kernels, the integer kernels they give
      way to and every order of the row chunks return the reference's floats bit for bit,
      on every host; so does the product of an uploaded packed matrix, but for an empty
      contraction, on which it panics; and the upload's scan finds the first row the
      decoder refuses. The lookup tables agree on integers.
      Gradients of packed weights are, entry by entry, the sums over the matrix, fused
      where the host fuses, whether the trits are decoded first or read in place.
    - Additive tensors: validation is exact; the compact index builds, its cursors
      enumerate exactly the active tiles and tile the payload; the uniform layout is the
      compact one with full counts, for the geometry and for every float the decoder,
      the gather and the product return; the bases invert in exact arithmetic; the prefix
      test decides the prefix relation.
    - Control state: no interleaving overcommits a budget, and a reservation left to
      itself ends with the ledger's answer after at most one retry that is not spurious;
      the rate limiter respects its bound and its announced wait; recorded logs verify as
      far as their payloads survive their JSON text, and the run root does not depend on
      how spans interleave.
    - Uploads: whatever backend, source and other threads do, a failed upload records
      nothing and has dropped every reservation and buffer, a successful one keeps exactly
      the declared payload and one event; alone, a failed upload and a dropped handle
      restore the budgets; the checked source passes exactly the honest streams, and a
      successful streamed upload fed the backend's own session every declared byte; metadata prepared from a
      layout agrees with the decoded view.
    - Chat: a queued job respects every limit, a request changes the server only by
      the job it queues or the rejection it counts, and a full queue is answered by 429; the stop matcher agrees with a search
      of the whole text for every cut into pieces; over a tokenizer whose text only grows
      a completion is the decoded text up to the first stop sequence; a request is
      answered alike whole and as a stream; no interleaving counts two outcomes of a
      stream. A tokenizer that refuses incomplete characters makes the detokenizer
      repeat itself, and a lost last event is answered as a clean stop.

    ** Fuel and bounds

    Each loop without a structural bound carries fuel, and the theorems prove that the
    fuel the definitions give is enough: 5 rounds for the rANS encoder and 4 for the
    decoder (a 32-bit state sheds or gains a byte per round), 4 for the TB1 alignment, the
    heap size for Huffman merges, the node count for depth assignment, the remaining bits
    plus one per symbol, the remaining tiles plus one for a cursor, log2 of the block plus
    one for Hadamard passes; for the joint code the live symbols for merges, the nodes for
    a depth walk, 15 rounds per symbol for lengthening (each adds a bit to one length)
    and 3 bytes for a flush (at most 22 bits are pending); for GGUF 9 levels of values (the
    code stops at 8), the bytes of a chunked write, the remaining padding plus one and the
    tensors plus one; for the allocator the planes still to give plus one, and the heap
    size plus one for each pop. A reservation loop inside an upload takes its fuel as an argument: one
    round suffices when no other thread interferes. The ancestor walk of the evidence verifier takes its fuel as
    an argument: three more than the spans suffice without a cycle, and none suffices on
    some cycles ([verify_diverges_on_lasso]). Transport inputs are bounded by 2^36 bytes
    and codec inputs by 2^50, far above the 32-bit chunk lengths of the format; joint
    bundles by 2^50 weights for the writer and 2^60 bytes for the reader; slices of
    bytes are bounded by [isize_max] as Rust guarantees. The allocator's theorems are
    about inputs whose steps evaluate to gains that can be ranked ([ordinary], decidable):
    negative zeros and NaNs are ordered by [total_cmp] and not by [<].

    ** Parameters

    BLAKE3, JSON parsing and canonical printing, the allocator's answer, the file system,
    backends, stream sources, tokenizers and Unicode case mapping are arguments of the definitions; the theorems name what they assume of them.

    ** Not modelled

    Safetensors, SALT v1 and v2 and typed model packages, the schema documents and the
    orchestration journal: file formats and JSON documents over the codecs here, left
    out for their size. The batching worker, the server's HTTP layers, JSON text and
    histograms: glue over the model runner and external libraries. Dense floating-point
    operations, the packed additive executors, GPU kernels, training,
    interop layers, bindings, command line and scripts: numerical, foreign or glue. A
    backend that visits a source from inside a visitor of it is outside the upload model.
    Allocation does not fail: a [Vec::with_capacity] whose size overflows the address
    space or that the allocator refuses aborts the code and not the model. A NaN is one value: payloads and signs of NaNs are not distinguished. Timing (the
    constant-time comparison is modelled by its result) and memory orderings weaker than
    sequential consistency are outside the model; the budget's counter is a single atomic
    location, for which they do not matter. *)

From Stdlib Require Import ZArith Lia List Bool.
From stdpp Require Import base list numbers.

Declare Scope rust_scope.
Delimit Scope rust_scope with rust.

#[local] Open Scope Z_scope.

(** * Outcomes of Rust code

    [Ok] and [Err] are the two constructors of [Result]; [Panic] is an unwinding
    (index out of bounds, arithmetic overflow under overflow checks, a failed
    [expect]); [NoFuel] marks a [while] loop whose modelled fuel ran out. A
    theorem that a function returns [Ok] excludes the last three. *)
Inductive res (E A : Type) : Type :=
| Ok (a : A)
| Err (e : E)
| Panic
| NoFuel.
Arguments Ok {E A} a.
Arguments Err {E A} e.
Arguments Panic {E A}.
Arguments NoFuel {E A}.

Definition bind {E A B} (m : res E A) (k : A -> res E B) : res E B :=
  match m with
  | Ok a => k a
  | Err e => Err e
  | Panic => Panic
  | NoFuel => NoFuel
  end.
Arguments bind {E A B} !m k /.

Notation "'let*' x ':=' c 'in' k" := (bind c (fun x => k))
  (at level 10, x pattern, c at level 100, k at level 200,
   format "'[v' 'let*'  x  ':='  c  'in' '/' k ']'") : rust_scope.
#[global] Open Scope rust_scope.

(** The [?] operator at a [From] conversion between error types. *)
Definition map_err {E F A} (f : E -> F) (m : res E A) : res F A :=
  match m with
  | Ok a => Ok a
  | Err e => Err (f e)
  | Panic => Panic
  | NoFuel => NoFuel
  end.
Arguments map_err {E F A} f !m /.

(** [Option::ok_or]. *)
Definition ok_or {E A} (o : option A) (e : E) : res E A :=
  match o with Some a => Ok a | None => Err e end.
Arguments ok_or {E A} !o e /.

(** [Option::unwrap] and [Option::expect]. *)
Definition unwrap {E A} (o : option A) : res E A :=
  match o with Some a => Ok a | None => Panic end.
Arguments unwrap {E A} !o /.

(** A guard with an early return. *)
Definition ensure {E} (b : bool) (e : E) : res E unit :=
  if b then Ok tt else Err e.

(** The outcome is a value of [Result], never a panic or an exhausted loop. *)
Definition returns {E A} (m : res E A) : Prop :=
  match m with Ok _ | Err _ => True | Panic | NoFuel => False end.

Lemma bind_Ok_inv {E A B} (m : res E A) (k : A -> res E B) b :
  bind m k = Ok b -> exists a, m = Ok a /\ k a = Ok b.
Proof. destruct m; simpl; intros H; try discriminate. eauto. Qed.

Lemma Ok_inj {E A} (a b : A) : Ok (E := E) a = Ok b -> a = b.
Proof. by intros [= ->]. Qed.

Lemma bind_assoc {E A B C} (m : res E A) (f : A -> res E B) (g : B -> res E C) :
  bind (bind m f) g = bind m (fun a => bind (f a) g).
Proof. by destruct m. Qed.

Lemma returns_bind {E A B} (m : res E A) (k : A -> res E B) :
  returns m -> (forall a, m = Ok a -> returns (k a)) -> returns (bind m k).
Proof. destruct m; simpl; intros Hm Hk; try done. by apply Hk. Qed.

Lemma returns_map_err {E F A} (f : E -> F) (m : res E A) :
  returns m -> returns (map_err f m).
Proof. by destruct m. Qed.

Lemma map_err_Ok_inv {E F A} (f : E -> F) (m : res E A) a :
  map_err f m = Ok a -> m = Ok a.
Proof. destruct m; simpl; congruence. Qed.

(** Case analysis on the next step of a monadic definition. *)
Ltac bind_inv H :=
  let x := fresh "v" in let Hx := fresh "Hv" in
  apply bind_Ok_inv in H; destruct H as (x & Hx & H).

(** * Machine integers

    A [w]-bit unsigned integer is a [Z] in [0, 2^w); [usize] is 64 bits wide. *)
Definition u8_max : Z := 255.
Definition u16_max : Z := 65535.
Definition u32_max : Z := 4294967295.
Definition u64_max : Z := 18446744073709551615.
Definition usize_max : Z := 18446744073709551615.
(** No slice or vector is longer than [isize::MAX] bytes. *)
Definition isize_max : Z := 9223372036854775807.

Definition is_u8 (b : Z) : Prop := 0 <= b < 256.
Definition is_u16 (b : Z) : Prop := 0 <= b < 65536.
Definition is_u32 (b : Z) : Prop := 0 <= b < 4294967296.
Definition is_u64 (b : Z) : Prop := 0 <= b < 18446744073709551616.
Abbreviation is_usize := is_u64.
Abbreviation bytes_ok := (Forall is_u8).

(** [checked_add], [checked_mul] and [checked_sub] on [u64] and [usize]. *)
Definition checked_add (a b : Z) : option Z :=
  if a + b <=? usize_max then Some (a + b) else None.
Definition checked_mul (a b : Z) : option Z :=
  if a * b <=? usize_max then Some (a * b) else None.
Definition checked_sub (a b : Z) : option Z :=
  if b <=? a then Some (a - b) else None.

(** The unchecked operators at [usize]: overflow is a panic. *)
Definition add_usize {E} (a b : Z) : res E Z := unwrap (checked_add a b).
Definition mul_usize {E} (a b : Z) : res E Z := unwrap (checked_mul a b).
Definition sub_usize {E} (a b : Z) : res E Z := unwrap (checked_sub a b).

Definition saturating_add (a b : Z) : Z := Z.min (a + b) usize_max.
Definition saturating_mul (a b : Z) : Z := Z.min (a * b) usize_max.
Definition saturating_sub (a b : Z) : Z := Z.max (a - b) 0.

(** [usize::div_ceil]. *)
Definition div_ceil (a b : Z) : Z := (a + (b - 1)) / b.

(** [usize::is_multiple_of]. *)
Definition is_multiple_of (a b : Z) : bool :=
  if b =? 0 then a =? 0 else a mod b =? 0.

(** * Lists as slices *)
Definition zlen {A} (l : list A) : Z := Z.of_nat (length l).

(** [l\[i\]]. *)
Definition idx {E A} (l : list A) (i : Z) : res E A :=
  if 0 <=? i then unwrap (l !! Z.to_nat i) else Panic.

(** [l\[i\] = x]. *)
Definition upd {E A} (l : list A) (i : Z) (x : A) : res E (list A) :=
  if (0 <=? i) && (i <? zlen l) then Ok (<[Z.to_nat i := x]> l) else Panic.

(** The pure content of [l\[a..b\]]. *)
Definition sub {A} (l : list A) (a b : Z) : list A :=
  take (Z.to_nat (b - a)) (drop (Z.to_nat a) l).

Definition in_slice {A} (l : list A) (a b : Z) : bool :=
  (0 <=? a) && (a <=? b) && (b <=? zlen l).

(** [&l\[a..b\]] and [l.get(a..b)]. *)
Definition slice {E A} (l : list A) (a b : Z) : res E (list A) :=
  if in_slice l a b then Ok (sub l a b) else Panic.
Definition get_slice {A} (l : list A) (a b : Z) : option (list A) :=
  if in_slice l a b then Some (sub l a b) else None.

(** The buffer after [l\[a..a + src.len()\].copy_from_slice(src)]. *)
Definition splice {A} (l : list A) (a : Z) (src : list A) : list A :=
  take (Z.to_nat a) l ++ src ++ drop (Z.to_nat (a + zlen src)) l.
Definition write_slice {E A} (l : list A) (a : Z) (src : list A) : res E (list A) :=
  if in_slice l a (a + zlen src) then Ok (splice l a src) else Panic.

(** The list [f 0, ..., f (n - 1)]. *)
Definition tabulate {A} (n : Z) (f : Z -> A) : list A := f <$> seqZ 0 n.

(** [vec!\[x; n\]]. *)
Definition vec {A} (x : A) (n : Z) : list A := replicate (Z.to_nat n) x.

(** * Loops *)

(** [for i in i..i+n { s = body(i, s) }]. *)
Fixpoint for_n {E S} (n : nat) (i : Z) (body : Z -> S -> res E S) (s : S) : res E S :=
  match n with
  | O => Ok s
  | Datatypes.S n' => let* s' := body i s in for_n n' (i + 1) body s'
  end.

(** [for i in lo..hi]. *)
Definition for_range {E S} (lo hi : Z) (body : Z -> S -> res E S) (s : S) : res E S :=
  for_n (Z.to_nat (hi - lo)) lo body s.

(** [for x in l], and [for (i, x) in l.iter().enumerate()] from index [i]. *)
Fixpoint for_each {E A S} (l : list A) (body : A -> S -> res E S) (s : S) : res E S :=
  match l with
  | [] => Ok s
  | x :: l' => let* s' := body x s in for_each l' body s'
  end.
Fixpoint for_enum {E A S} (i : Z) (l : list A) (body : Z -> A -> S -> res E S) (s : S)
  : res E S :=
  match l with
  | [] => Ok s
  | x :: l' => let* s' := body i x s in for_enum (i + 1) l' body s'
  end.

(** * Invariant rules for loops *)

(** Total correctness: an invariant that every iteration re-establishes holds
    at the end, and the loop returns. *)
Lemma for_n_inv {E S} (I : Z -> S -> Prop) (body : Z -> S -> res E S) n : forall lo s,
  I lo s ->
  (forall i s, lo <= i < lo + Z.of_nat n -> I i s ->
     exists s', body i s = Ok s' /\ I (i + 1) s') ->
  exists s', for_n n lo body s = Ok s' /\ I (lo + Z.of_nat n) s'.
Proof.
  induction n as [|n IH]; intros lo s H0 Hstep.
  - exists s. split; [done|]. by replace (lo + Z.of_nat 0) with lo by lia.
  - destruct (Hstep lo s) as (s1 & Hb & H1); [lia|done|].
    simpl. rewrite Hb. simpl.
    destruct (IH (lo + 1) s1) as (s2 & Hl & H2); [done| |].
    + intros i s' Hi. apply Hstep. lia.
    + exists s2. split; [done|].
      by replace (lo + Z.of_nat (Datatypes.S n)) with (lo + 1 + Z.of_nat n) by lia.
Qed.

Lemma for_range_inv {E S} (I : Z -> S -> Prop) (body : Z -> S -> res E S) lo hi s :
  lo <= hi ->
  I lo s ->
  (forall i s, lo <= i < hi -> I i s -> exists s', body i s = Ok s' /\ I (i + 1) s') ->
  exists s', for_range lo hi body s = Ok s' /\ I hi s'.
Proof.
  intros Hle H0 Hstep. unfold for_range.
  destruct (for_n_inv I body (Z.to_nat (hi - lo)) lo s) as (s' & Hl & H1); [done| |].
  - intros i s1 Hi. apply Hstep. lia.
  - exists s'. split; [done|]. by replace hi with (lo + Z.of_nat (Z.to_nat (hi - lo))) by lia.
Qed.

(** Partial correctness: what holds of a loop that returned. *)
Lemma for_n_Ok_inv {E S} (I : Z -> S -> Prop) (body : Z -> S -> res E S) n : forall lo s s',
  for_n n lo body s = Ok s' ->
  I lo s ->
  (forall i s s', lo <= i < lo + Z.of_nat n -> I i s -> body i s = Ok s' -> I (i + 1) s') ->
  I (lo + Z.of_nat n) s'.
Proof.
  induction n as [|n IH]; intros lo s s' Hl H0 Hstep; simpl in Hl.
  - injection Hl as <-. by replace (lo + Z.of_nat 0) with lo by lia.
  - bind_inv Hl.
    replace (lo + Z.of_nat (Datatypes.S n)) with (lo + 1 + Z.of_nat n) by lia.
    eapply IH; [done| |].
    + eapply Hstep; eauto. lia.
    + intros i s1 s2 Hi. apply Hstep. lia.
Qed.

Lemma for_range_Ok_inv {E S} (I : Z -> S -> Prop) (body : Z -> S -> res E S) lo hi s s' :
  lo <= hi ->
  for_range lo hi body s = Ok s' ->
  I lo s ->
  (forall i s s', lo <= i < hi -> I i s -> body i s = Ok s' -> I (i + 1) s') ->
  I hi s'.
Proof.
  intros Hle Hl H0 Hstep.
  replace hi with (lo + Z.of_nat (Z.to_nat (hi - lo))) by lia.
  eapply for_n_Ok_inv; eauto. intros i s1 s2 Hi. apply Hstep. lia.
Qed.

(** Safety: a loop whose body returns under the invariant returns. *)
Lemma for_n_returns {E S} (I : Z -> S -> Prop) (body : Z -> S -> res E S) n : forall lo s,
  I lo s ->
  (forall i s, lo <= i < lo + Z.of_nat n -> I i s ->
     returns (body i s) /\ forall s', body i s = Ok s' -> I (i + 1) s') ->
  returns (for_n n lo body s).
Proof.
  induction n as [|n IH]; intros lo s H0 Hstep; simpl; [done|].
  destruct (Hstep lo s) as [Hr Hn]; [lia|done|].
  apply returns_bind; [done|]. intros s1 Hs1. apply IH; [by apply Hn|].
  intros i s2 Hi. apply Hstep. lia.
Qed.

Lemma for_range_returns {E S} (I : Z -> S -> Prop) (body : Z -> S -> res E S) lo hi s :
  lo <= hi ->
  I lo s ->
  (forall i s, lo <= i < hi -> I i s ->
     returns (body i s) /\ forall s', body i s = Ok s' -> I (i + 1) s') ->
  returns (for_range lo hi body s).
Proof.
  intros Hle H0 Hstep. unfold for_range. apply (for_n_returns I); [done|].
  intros i s1 Hi. apply Hstep. lia.
Qed.

Lemma for_n_ext {E S} (f g : Z -> S -> res E S) n : forall lo s,
  (forall i s, lo <= i < lo + Z.of_nat n -> f i s = g i s) -> for_n n lo f s = for_n n lo g s.
Proof.
  induction n as [|n IH]; intros lo s H; [done|]. simpl. rewrite H by lia.
  destruct (g lo s); simpl; try done. apply IH. intros i s1 Hi. apply H. lia.
Qed.

Lemma for_range_ext {E S} (f g : Z -> S -> res E S) lo hi s :
  (forall i s, lo <= i < hi -> f i s = g i s) -> for_range lo hi f s = for_range lo hi g s.
Proof. intros H. apply for_n_ext. intros i s1 Hi. apply H. lia. Qed.

Lemma for_each_app {E A S} (l k : list A) (body : A -> S -> res E S) : forall s,
  for_each (l ++ k) body s = let* s' := for_each l body s in for_each k body s'.
Proof.
  induction l as [|x l IH]; intros s; [done|]. simpl. rewrite bind_assoc.
  destruct (body x s); simpl; [apply IH|done..].
Qed.

(** The element loops, with the elements already consumed as the index. *)
Lemma for_each_inv {E A S} (I : list A -> S -> Prop) (body : A -> S -> res E S) l : forall s,
  I [] s ->
  (forall pre x post s, l = pre ++ x :: post -> I pre s ->
     exists s', body x s = Ok s' /\ I (pre ++ [x]) s') ->
  exists s', for_each l body s = Ok s' /\ I l s'.
Proof.
  revert I. induction l as [|x l IH]; intros I s H0 Hstep; simpl; [eauto|].
  destruct (Hstep [] x l s) as (s1 & Hb & H1); [done..|]. rewrite Hb. simpl.
  apply (IH (fun pre s => I (x :: pre) s)); [done|].
  intros pre y post s2 -> Hp. apply (Hstep (x :: pre) y post); done.
Qed.

Lemma for_enum_inv {E A S} (I : Z -> S -> Prop) (body : Z -> A -> S -> res E S) l : forall lo s,
  I lo s ->
  (forall i x s, lo <= i -> l !! Z.to_nat (i - lo) = Some x -> I i s ->
     exists s', body i x s = Ok s' /\ I (i + 1) s') ->
  exists s', for_enum lo l body s = Ok s' /\ I (lo + zlen l) s'.
Proof.
  induction l as [|x l IH]; intros lo s H0 Hstep; simpl.
  - exists s. split; [done|]. by replace (lo + zlen []) with lo by (unfold zlen; simpl; lia).
  - destruct (Hstep lo x s) as (s1 & Hb & H1); [lia| |done|].
    { by replace (Z.to_nat (lo - lo)) with 0%nat by lia. }
    rewrite Hb. simpl. destruct (IH (lo + 1) s1) as (s2 & Hl & H2); [done| |].
    + intros i y s' Hi Hy. apply Hstep; [lia|].
      replace (Z.to_nat (i - lo)) with (Datatypes.S (Z.to_nat (i - (lo + 1)))) by lia. done.
    + exists s2. split; [done|].
      by replace (lo + zlen (x :: l)) with (lo + 1 + zlen l) by (unfold zlen; simpl; lia).
Qed.

(** A loop that fails with [e] at the first index that is not [ok]. *)
Lemma for_enum_err {E A S} (I : Z -> S -> Prop) (ok : Z -> bool) (e : E)
    (body : Z -> A -> S -> res E S) l : forall lo s,
  I lo s ->
  (forall i x s, lo <= i -> l !! Z.to_nat (i - lo) = Some x -> I i s ->
     if ok i then exists s', body i x s = Ok s' /\ I (i + 1) s' else body i x s = Err e) ->
  if forallb ok (seqZ lo (zlen l)) then exists s', for_enum lo l body s = Ok s' /\ I (lo + zlen l) s'
  else for_enum lo l body s = Err e.
Proof.
  induction l as [|x l IH]; intros lo s H0 Hstep.
  - simpl. exists s. split; [done|]. by replace (lo + zlen []) with lo by (unfold zlen; simpl; lia).
  - replace (zlen (x :: l)) with (Z.succ (zlen l)) by (unfold zlen; simpl; lia).
    rewrite seqZ_cons by (unfold zlen; lia). rewrite Z.pred_succ. cbn [forallb for_enum].
    pose proof (Hstep lo x s ltac:(lia) ltac:(by rewrite Z.sub_diag) H0) as H1.
    destruct (ok lo); cbn [andb]; [|by rewrite H1]. destruct H1 as (s1 & -> & H1). cbn [bind].
    specialize (IH (lo + 1) s1 H1). replace (lo + Z.succ (zlen l)) with (lo + 1 + zlen l) by lia.
    rewrite <- Z.add_1_r. apply IH. intros i y s' Hi Hy. apply Hstep; [lia|].
    by replace (Z.to_nat (i - lo)) with (Datatypes.S (Z.to_nat (i - (lo + 1)))) by lia.
Qed.

(** Unfold a loop with constant bounds. *)
Ltac unroll_loop :=
  unfold for_range; simpl for_n;
  change (0 + 1) with 1; change (1 + 1) with 2; change (2 + 1) with 3; change (3 + 1) with 4.

(** * Slices *)
Create HintDb rust.
Create Rewrite HintDb zlen.

Lemma zlen_nonneg {A} (l : list A) : 0 <= zlen l.
Proof. unfold zlen. lia. Qed.
#[export] Hint Resolve zlen_nonneg : rust.

Lemma zlen_nil {A} : zlen (@nil A) = 0.
Proof. done. Qed.
Lemma zlen_cons {A} (x : A) l : zlen (x :: l) = 1 + zlen l.
Proof. unfold zlen. simpl. lia. Qed.
Lemma zlen_app {A} (l k : list A) : zlen (l ++ k) = zlen l + zlen k.
Proof. unfold zlen. rewrite length_app. lia. Qed.
Lemma zlen_insert {A} (l : list A) i x : zlen (<[i := x]> l) = zlen l.
Proof. unfold zlen. by rewrite length_insert. Qed.
Lemma zlen_fmap {A B} (f : A -> B) l : zlen (f <$> l) = zlen l.
Proof. unfold zlen. by rewrite length_fmap. Qed.
Lemma zlen_vec {A} (x : A) n : zlen (vec x n) = Z.max 0 n.
Proof. unfold zlen, vec. rewrite length_replicate. lia. Qed.
Lemma zlen_tabulate {A} n (f : Z -> A) : zlen (tabulate n f) = Z.max 0 n.
Proof. unfold tabulate. rewrite zlen_fmap. unfold zlen. rewrite length_seqZ. lia. Qed.
Lemma zlen_sub {A} (l : list A) a b :
  0 <= a -> a <= b -> b <= zlen l -> zlen (sub l a b) = b - a.
Proof. unfold zlen, sub. intros. rewrite length_take, length_drop. lia. Qed.
Lemma zlen_splice {A} (l : list A) a src :
  0 <= a -> a + zlen src <= zlen l -> zlen (splice l a src) = zlen l.
Proof.
  unfold splice. intros Ha Hb. rewrite !zlen_app. unfold zlen in *.
  rewrite length_take, length_drop. lia.
Qed.
Lemma zlen_rev {A} (l : list A) : zlen (rev l) = zlen l.
Proof. unfold zlen. by rewrite length_rev. Qed.
#[export] Hint Rewrite @zlen_nil @zlen_cons @zlen_app @zlen_insert @zlen_fmap @zlen_vec
  @zlen_tabulate @zlen_rev : zlen.

(** [zl] normalises lengths and calls [lia]. *)
Ltac zl := autorewrite with zlen in *; unfold zlen in *; simpl length in *; lia.
Ltac zlia := autorewrite with zlen in *; lia.

Lemma idx_Ok {E A} (l : list A) i x :
  0 <= i -> l !! Z.to_nat i = Some x -> idx (E := E) l i = Ok x.
Proof. intros Hi Hx. unfold idx. rewrite (proj2 (Z.leb_le _ _) Hi), Hx. done. Qed.

Lemma lookup_Z {A} (l : list A) i :
  0 <= i < zlen l -> exists x, l !! Z.to_nat i = Some x.
Proof. intros Hi. apply lookup_lt_is_Some. unfold zlen in Hi. lia. Qed.

Lemma lookup_Z_lt {A} (l : list A) i x :
  0 <= i -> l !! Z.to_nat i = Some x -> i < zlen l.
Proof. intros Hi Hx. apply lookup_lt_Some in Hx. unfold zlen. lia. Qed.

Lemma idx_in {E A} (l : list A) i :
  0 <= i < zlen l -> exists x, idx (E := E) l i = Ok x /\ l !! Z.to_nat i = Some x.
Proof.
  intros Hi. destruct (lookup_Z l i Hi) as [x Hx]. exists x. split; [|done].
  apply idx_Ok; [lia|done].
Qed.

Lemma idx_Ok_inv {E A} (l : list A) i x :
  idx (E := E) l i = Ok x -> 0 <= i < zlen l /\ l !! Z.to_nat i = Some x.
Proof.
  unfold idx. destruct (Z.leb_spec 0 i) as [Hi|]; [|done].
  destruct (l !! Z.to_nat i) eqn:Hl; simpl; [|done]. intros [= ->].
  split; [|done]. split; [done|]. by eapply lookup_Z_lt.
Qed.

Lemma upd_Ok {E A} (l : list A) i x :
  0 <= i < zlen l -> upd (E := E) l i x = Ok (<[Z.to_nat i := x]> l).
Proof.
  intros [H0 H1]. unfold upd.
  by rewrite (proj2 (Z.leb_le _ _) H0), (proj2 (Z.ltb_lt _ _) H1).
Qed.

Lemma upd_Ok_inv {E A} (l : list A) i x l' :
  upd (E := E) l i x = Ok l' -> 0 <= i < zlen l /\ l' = <[Z.to_nat i := x]> l.
Proof.
  unfold upd. destruct (Z.leb_spec 0 i), (Z.ltb_spec i (zlen l)); simpl; try done.
  intros [= <-]. done.
Qed.

Lemma lookup_upd {A} (l : list A) i j x :
  0 <= i < zlen l -> 0 <= j ->
  <[Z.to_nat i := x]> l !! Z.to_nat j = if i =? j then Some x else l !! Z.to_nat j.
Proof.
  intros Hi Hj. destruct (Z.eqb_spec i j) as [->|Hne].
  - apply list_lookup_insert_eq. unfold zlen in Hi. lia.
  - apply list_lookup_insert_ne. lia.
Qed.

Lemma in_slice_true {A} (l : list A) a b :
  0 <= a -> a <= b -> b <= zlen l -> in_slice l a b = true.
Proof. unfold in_slice. lia. Qed.

Lemma slice_Ok {E A} (l : list A) a b :
  0 <= a -> a <= b -> b <= zlen l -> slice (E := E) l a b = Ok (sub l a b).
Proof. intros. unfold slice. by rewrite in_slice_true. Qed.

Lemma slice_Ok_inv {E A} (l : list A) a b r :
  slice (E := E) l a b = Ok r -> (0 <= a /\ a <= b /\ b <= zlen l) /\ r = sub l a b.
Proof.
  unfold slice. destruct (in_slice l a b) eqn:Hs; [|done].
  intros [= <-]. unfold in_slice in Hs. split; [lia|done].
Qed.

Lemma write_slice_Ok {E A} (l : list A) a src :
  0 <= a -> a + zlen src <= zlen l -> write_slice (E := E) l a src = Ok (splice l a src).
Proof.
  intros. unfold write_slice. rewrite in_slice_true; [done|lia| |lia].
  pose proof (zlen_nonneg src). lia.
Qed.

Lemma lookup_sub {A} (l : list A) a b i :
  0 <= a -> 0 <= i < b - a -> sub l a b !! Z.to_nat i = l !! Z.to_nat (a + i).
Proof.
  intros Ha Hi. unfold sub. rewrite lookup_take_lt by lia. rewrite lookup_drop.
  f_equal. lia.
Qed.

Lemma sub_full {A} (l : list A) : sub l 0 (zlen l) = l.
Proof. unfold sub, zlen. rewrite drop_0. apply take_ge. lia. Qed.

Lemma sub_empty {A} (l : list A) a : sub l a a = [].
Proof. unfold sub. by rewrite Z.sub_diag. Qed.

Lemma sub_app_l {A} (l k : list A) : sub (l ++ k) 0 (zlen l) = l.
Proof.
  unfold sub, zlen. rewrite drop_0.
  replace (Z.to_nat (Z.of_nat (length l) - 0)) with (length l) by lia. apply take_app_length.
Qed.

Lemma sub_app_r {A} (l k : list A) b :
  b = zlen l + zlen k -> sub (l ++ k) (zlen l) b = k.
Proof.
  intros ->. unfold sub, zlen.
  rewrite Nat2Z.id, drop_app_length. apply take_ge. lia.
Qed.

Lemma sub_sub {A} (l : list A) a b c d :
  0 <= a -> 0 <= c -> d <= b - a -> sub (sub l a b) c d = sub l (a + c) (a + d).
Proof.
  intros. unfold sub. rewrite skipn_firstn_comm, drop_drop, take_take. f_equal; [lia|].
  f_equal. lia.
Qed.

Lemma sub_join {A} (l : list A) a b c :
  0 <= a -> a <= b -> b <= c -> sub l a b ++ sub l b c = sub l a c.
Proof.
  intros Ha Hb Hc. unfold sub.
  replace (Z.to_nat b) with (Z.to_nat a + Z.to_nat (b - a))%nat by lia.
  replace (Z.to_nat (c - a)) with (Z.to_nat (b - a) + Z.to_nat (c - b))%nat by lia.
  rewrite <- drop_drop. by rewrite take_take_drop.
Qed.

(** The middle of three appended lists. *)
Lemma sub_mid {A} (x y z : list A) a b :
  a = zlen x -> b = zlen x + zlen y -> sub (x ++ y ++ z) a b = y.
Proof.
  intros -> ->. unfold sub, zlen. rewrite Nat2Z.id, drop_app_length.
  replace (Z.to_nat _) with (length y) by lia. apply take_app_length.
Qed.

(** Fields of a concatenation: skip what precedes, then take the head. *)
Lemma sub_skip {A} (x l : list A) a b :
  zlen x <= a -> sub (x ++ l) a b = sub l (a - zlen x) (b - zlen x).
Proof.
  intros Ha. unfold sub, zlen in *. rewrite drop_app_ge by lia. f_equal; [lia|]. f_equal. lia.
Qed.

Lemma sub_head {A} (x l : list A) n : n = zlen x -> sub (x ++ l) 0 n = x.
Proof. intros ->. apply sub_app_l. Qed.

Lemma sub_app_low {A} (l k : list A) a b : 0 <= a -> b <= zlen l -> sub (l ++ k) a b = sub l a b.
Proof.
  intros Ha Hb. destruct (Z.le_gt_cases b a) as [Hle|Hgt].
  - unfold sub. by replace (Z.to_nat (b - a)) with 0%nat by lia.
  - unfold sub. unfold zlen in Hb. rewrite drop_app_le by lia. rewrite take_app_le; [done|]. rewrite length_drop. lia.
Qed.

Lemma sub_2 {A} (l : list A) a x y :
  0 <= a -> l !! Z.to_nat a = Some x -> l !! Z.to_nat (a + 1) = Some y ->
  sub l a (a + 2) = [x; y].
Proof.
  intros Ha Hx Hy. unfold sub. replace (Z.to_nat (a + 2 - a)) with 2%nat by lia.
  apply take_drop_middle in Hx as Hm. rewrite <- Hm.
  assert (Hl : length (take (Z.to_nat a) l) = Z.to_nat a)
    by (rewrite length_take; apply lookup_lt_Some in Hx; lia).
  rewrite <- Hl at 1. rewrite drop_app_length. simpl. f_equal.
  replace (Z.to_nat (a + 1)) with (S (Z.to_nat a)) in Hy by lia.
  apply drop_S in Hy. rewrite Hy. done.
Qed.

Lemma lookup_splice {A} (l src : list A) a j :
  0 <= a -> a + zlen src <= zlen l -> 0 <= j ->
  splice l a src !! Z.to_nat j =
    if (a <=? j) && (j <? a + zlen src) then src !! Z.to_nat (j - a) else l !! Z.to_nat j.
Proof.
  intros Ha Hb Hj. unfold splice, zlen in *.
  assert (Ht : length (take (Z.to_nat a) l) = Z.to_nat a) by (rewrite length_take; lia).
  destruct (Z.leb_spec a j), (Z.ltb_spec j (a + Z.of_nat (length src))); simpl.
  - rewrite lookup_app_r by lia. rewrite Ht, lookup_app_l by lia. f_equal. lia.
  - rewrite lookup_app_r by lia. rewrite Ht, lookup_app_r by lia.
    rewrite lookup_drop. f_equal. lia.
  - rewrite lookup_app_l by lia. rewrite lookup_take_lt by lia. done.
  - lia.
Qed.

Lemma list_eq_Z {A} (l k : list A) :
  zlen l = zlen k ->
  (forall i, 0 <= i < zlen l -> l !! Z.to_nat i = k !! Z.to_nat i) -> l = k.
Proof.
  intros Hlen H. apply list_eq. intros i. unfold zlen in *.
  destruct (decide (i < length l)%nat) as [Hi|Hi].
  - replace i with (Z.to_nat (Z.of_nat i)) by lia. apply H. lia.
  - rewrite !lookup_ge_None_2 by lia. done.
Qed.

Lemma lookup_tabulate {A} n (f : Z -> A) i :
  0 <= i < n -> tabulate n f !! Z.to_nat i = Some (f i).
Proof.
  intros Hi. unfold tabulate. rewrite list_lookup_fmap, lookup_seqZ_lt by lia.
  simpl. f_equal. f_equal. lia.
Qed.

Lemma lookup_vec {A} (x : A) n i : 0 <= i < n -> vec x n !! Z.to_nat i = Some x.
Proof. intros Hi. unfold vec. apply lookup_replicate_2. lia. Qed.

Lemma tabulate_lookup {A} (l : list A) n f :
  0 <= n -> zlen l = n -> (forall i, 0 <= i < n -> l !! Z.to_nat i = Some (f i)) ->
  l = tabulate n f.
Proof.
  intros H0 Hlen Hl. apply list_eq_Z; [zlia|].
  intros i Hi. rewrite Hl by lia. by rewrite lookup_tabulate by lia.
Qed.

Lemma tabulate_ext {A} n (f g : Z -> A) :
  (forall i, 0 <= i < n -> f i = g i) -> tabulate n f = tabulate n g.
Proof.
  intros H. unfold tabulate. apply list_fmap_ext. intros i x Hx.
  apply lookup_seqZ in Hx as [-> ?]. apply H. lia.
Qed.

Lemma sub_splice_before {A} (l src : list A) a c d :
  0 <= c -> c <= d -> d <= a -> a + zlen src <= zlen l -> sub (splice l a src) c d = sub l c d.
Proof.
  intros. pose proof (zlen_nonneg src). apply list_eq_Z.
  { rewrite !zlen_sub; rewrite ?zlen_splice; lia. }
  rewrite zlen_sub by (rewrite ?zlen_splice; lia). intros i Hi.
  rewrite !lookup_sub by lia. rewrite lookup_splice by lia.
  by replace ((a <=? c + i) && _) with false by lia.
Qed.

Lemma sub_splice_same {A} (l src : list A) a d :
  0 <= a -> d = a + zlen src -> d <= zlen l -> sub (splice l a src) a d = src.
Proof.
  intros Ha -> Hd. pose proof (zlen_nonneg src). apply list_eq_Z.
  { rewrite zlen_sub; rewrite ?zlen_splice; lia. }
  rewrite zlen_sub by (rewrite ?zlen_splice; lia). intros i Hi.
  rewrite lookup_sub by lia. rewrite lookup_splice by lia.
  replace ((a <=? a + i) && _) with true by lia. f_equal. lia.
Qed.

(** * Buffers filled by loops

    [wrote D g l l']: buffer [l'] is [l] with position [j] set to [g j] at every
    [j] of [D]. The pack and unpack loops establish it one write at a time. *)
Definition wrote {A} (D : Z -> bool) (g : Z -> A) (l l' : list A) : Prop :=
  zlen l' = zlen l /\
  forall j, 0 <= j < zlen l ->
    l' !! Z.to_nat j = if D j then Some (g j) else l !! Z.to_nat j.

Definition interval (a b j : Z) : bool := (a <=? j) && (j <? b).

Lemma wrote_nothing {A} D (g : Z -> A) l :
  (forall j, 0 <= j < zlen l -> D j = false) -> wrote D g l l.
Proof. intros HD. split; [done|]. intros j Hj. by rewrite HD. Qed.

Lemma wrote_ext {A} D D' (g : Z -> A) l l' :
  wrote D g l l' -> (forall j, 0 <= j < zlen l -> D j = D' j) -> wrote D' g l l'.
Proof. intros [Hl H] HD. split; [done|]. intros j Hj. rewrite <- HD by done. by apply H. Qed.

Lemma wrote_trans {A} D1 D2 D (g : Z -> A) l l1 l2 :
  wrote D1 g l l1 -> wrote D2 g l1 l2 ->
  (forall j, 0 <= j < zlen l -> D j = D1 j || D2 j) ->
  wrote D g l l2.
Proof.
  intros [Hl1 H1] [Hl2 H2] HD. split; [congruence|]. intros j Hj.
  rewrite HD, H2, H1 by (rewrite ?Hl1; done). by destruct (D1 j), (D2 j).
Qed.

Lemma wrote_upd {A} (g : Z -> A) l i :
  0 <= i < zlen l -> wrote (interval i (i + 1)) g l (<[Z.to_nat i := g i]> l).
Proof.
  intros Hi. split; [apply zlen_insert|]. intros j Hj. rewrite lookup_upd by lia.
  unfold interval. destruct (Z.eqb_spec i j) as [->|Hne].
  - by replace (_ && _) with true by lia.
  - by replace (_ && _) with false by lia.
Qed.

Lemma wrote_splice {A} (g : Z -> A) l src a :
  0 <= a -> a + zlen src <= zlen l ->
  (forall i, 0 <= i < zlen src -> src !! Z.to_nat i = Some (g (a + i))) ->
  wrote (interval a (a + zlen src)) g l (splice l a src).
Proof.
  intros Ha Hb Hs. split; [by apply zlen_splice|]. intros j Hj.
  rewrite lookup_splice by lia. unfold interval.
  destruct (Z.leb_spec a j), (Z.ltb_spec j (a + zlen src)); simpl; try done.
  rewrite Hs by lia. do 2 f_equal. lia.
Qed.

Lemma wrote_full {A} D (g : Z -> A) l l' n :
  wrote D g l l' -> zlen l = n -> (forall j, 0 <= j < n -> D j = true) ->
  l' = tabulate n g.
Proof.
  intros [Hl H] Hn HD. pose proof (zlen_nonneg l).
  apply tabulate_lookup; [lia|lia|]. intros i Hi. by rewrite H, HD by lia.
Qed.

(** Discharge the first premise of a hypothesis. *)
Ltac discharge H :=
  match type of H with
  | ?P -> _ => let HP := fresh "HP" in assert (HP : P); [|specialize (H HP); clear HP]
  end.

(** A loop whose [i]-th iteration fills the [i]-th stretch of [s] cells from
    [a], or stops with error [e] when the test [ok i] fails. *)
Lemma for_n_wrote_err {E A} (g : Z -> A) (ok : Z -> bool) (e : E)
    (body : Z -> list A -> res E (list A)) n s : forall lo a l,
  0 <= s ->
  (forall i l1, lo <= i < lo + Z.of_nat n -> zlen l1 = zlen l ->
     if ok i
     then exists l2, body i l1 = Ok l2 /\
       wrote (interval (a + (i - lo) * s) (a + (i - lo + 1) * s)) g l1 l2
     else body i l1 = Err e) ->
  if forallb ok (seqZ lo (Z.of_nat n))
  then exists l', for_n n lo body l = Ok l' /\ wrote (interval a (a + Z.of_nat n * s)) g l l'
  else for_n n lo body l = Err e.
Proof.
  induction n as [|n IH]; intros lo a l Hs Hstep; simpl.
  { exists l. split; [done|]. apply wrote_nothing. intros j _. unfold interval.
    change (Z.of_nat 0) with 0. lia. }

  rewrite seqZ_cons by lia. simpl.
  pose proof (Hstep lo l ltac:(lia) eq_refl) as H0.
  destruct (ok lo); simpl; [|by rewrite H0].
  destruct H0 as (l1 & Hb & Hw1). rewrite Hb. simpl.
  specialize (IH (lo + 1) (a + s) l1 Hs).
  replace (Z.pred (Z.of_nat (S n))) with (Z.of_nat n) by lia.
  change (Z.succ lo) with (lo + 1).
  assert (Hl1 : zlen l1 = zlen l) by apply Hw1.
  destruct (forallb ok (seqZ (lo + 1) (Z.of_nat n))).
  - destruct IH as (l' & Hl' & Hw).
    + intros i l2 Hi Hl2. specialize (Hstep i l2 ltac:(lia) ltac:(congruence)).
      destruct (ok i); [|done]. destruct Hstep as (l3 & H3 & Hw3). exists l3. split; [done|].
      by replace (a + s + (i - (lo + 1)) * s) with (a + (i - lo) * s) by ring;
        replace (a + s + (i - (lo + 1) + 1) * s) with (a + (i - lo + 1) * s) by ring.
    + exists l'. split; [done|]. eapply wrote_trans; [exact Hw1|exact Hw|].
      intros j _. unfold interval. rewrite Z.sub_diag, Z.mul_0_l.
      assert (0 <= Z.of_nat n * s) by nia.
      replace (Z.of_nat (S n) * s) with (Z.of_nat n * s + s) by lia. lia.
  - apply IH. intros i l2 Hi Hl2. specialize (Hstep i l2 ltac:(lia) ltac:(congruence)).
    destruct (ok i); [|done]. destruct Hstep as (l3 & H3 & Hw3). exists l3. split; [done|].
    by replace (a + s + (i - (lo + 1)) * s) with (a + (i - lo) * s) by ring;
      replace (a + s + (i - (lo + 1) + 1) * s) with (a + (i - lo + 1) * s) by ring.
Qed.

Lemma for_range_wrote_err {E A} (g : Z -> A) (ok : Z -> bool) (e : E)
    (body : Z -> list A -> res E (list A)) lo hi a b s l :
  lo <= hi -> 0 <= s -> b = a + (hi - lo) * s ->
  (forall i l1, lo <= i < hi -> zlen l1 = zlen l ->
     if ok i
     then exists l2, body i l1 = Ok l2 /\
       wrote (interval (a + (i - lo) * s) (a + (i - lo + 1) * s)) g l1 l2
     else body i l1 = Err e) ->
  if forallb ok (seqZ lo (hi - lo))
  then exists l', for_range lo hi body l = Ok l' /\ wrote (interval a b) g l l'
  else for_range lo hi body l = Err e.
Proof.
  intros Hle Hs -> Hstep. unfold for_range.
  pose proof (for_n_wrote_err g ok e body (Z.to_nat (hi - lo)) s lo a l Hs) as H.
  rewrite Z2Nat.id in H by lia. apply H. intros i l1 Hi. apply Hstep. lia.
Qed.

(** The general case: iteration [i] fills the cells of [D i], in any layout. *)
Lemma for_n_wrote_set {E A} (D : Z -> Z -> bool) (g : Z -> A) (ok : Z -> bool) (e : E)
    (body : Z -> list A -> res E (list A)) n : forall lo l,
  (forall i l1, lo <= i < lo + Z.of_nat n -> zlen l1 = zlen l ->
     if ok i then exists l2, body i l1 = Ok l2 /\ wrote (D i) g l1 l2 else body i l1 = Err e) ->
  if forallb ok (seqZ lo (Z.of_nat n))
  then exists l', for_n n lo body l = Ok l' /\
    wrote (fun j => existsb (fun i => D i j) (seqZ lo (Z.of_nat n))) g l l'
  else for_n n lo body l = Err e.
Proof.
  induction n as [|n IH]; intros lo l Hstep; [by exists l|].
  rewrite seqZ_cons by lia. simpl.
  pose proof (Hstep lo l ltac:(lia) eq_refl) as H0.
  destruct (ok lo); simpl; [|by rewrite H0].
  destruct H0 as (l1 & Hb & Hw1). rewrite Hb. simpl.
  replace (Z.pred (Z.of_nat (S n))) with (Z.of_nat n) by lia. change (Z.succ lo) with (lo + 1).
  assert (Hl1 : zlen l1 = zlen l) by apply Hw1.
  specialize (IH (lo + 1) l1). discharge IH.
  { intros i l2 Hi Hl2. apply Hstep; [lia|congruence]. }
  destruct (forallb ok (seqZ (lo + 1) (Z.of_nat n))); [|done].
  destruct IH as (l' & Hl' & Hw). exists l'. split; [done|].
  eapply wrote_trans; [exact Hw1|exact Hw|done].
Qed.

Lemma for_range_wrote_set {E A} (D : Z -> Z -> bool) (g : Z -> A) (ok : Z -> bool) (e : E)
    (body : Z -> list A -> res E (list A)) lo hi l :
  lo <= hi ->
  (forall i l1, lo <= i < hi -> zlen l1 = zlen l ->
     if ok i then exists l2, body i l1 = Ok l2 /\ wrote (D i) g l1 l2 else body i l1 = Err e) ->
  if forallb ok (seqZ lo (hi - lo))
  then exists l', for_range lo hi body l = Ok l' /\
    wrote (fun j => existsb (fun i => D i j) (seqZ lo (hi - lo))) g l l'
  else for_range lo hi body l = Err e.
Proof.
  intros Hle Hstep. unfold for_range.
  pose proof (for_n_wrote_set D g ok e body (Z.to_nat (hi - lo)) lo l) as H.
  rewrite Z2Nat.id in H by lia. apply H. intros i l1 Hi. apply Hstep. lia.
Qed.

Lemma existsb_seqZ (f : Z -> bool) lo n :
  existsb f (seqZ lo n) = true <-> exists i, lo <= i < lo + n /\ f i = true.
Proof.
  rewrite existsb_exists. split; intros (i & Hi & Hf); exists i; (split; [|done]).
  - apply list_elem_of_In, elem_of_seqZ in Hi. lia.
  - apply list_elem_of_In, elem_of_seqZ. lia.
Qed.

(** An enumerating loop is an index loop over the slice. *)
Lemma for_enum_range {E A S} (body : Z -> A -> S -> res E S) l : forall lo s,
  for_enum lo l body s =
  for_range lo (lo + zlen l) (fun i s => let* x := idx l (i - lo) in body i x s) s.
Proof.
  induction l as [|x l IH]; intros lo s; unfold for_range.
  - rewrite zlen_nil, Z.add_0_r, Z.sub_diag. done.
  - replace (Z.to_nat (lo + zlen (x :: l) - lo)) with (Datatypes.S (Z.to_nat (lo + 1 + zlen l - (lo + 1))))
      by (rewrite zlen_cons; pose proof (zlen_nonneg l); lia).
    simpl. rewrite Z.sub_diag. unfold idx at 1. simpl.
    destruct (body lo x s) as [s'|e| |]; simpl; try done.
    rewrite IH. unfold for_range. apply for_n_ext. intros i s1 Hi.
    unfold idx. replace (0 <=? i - (lo + 1)) with true by lia.
    replace (0 <=? i - lo) with true by lia.
    by replace (Z.to_nat (i - lo)) with (Datatypes.S (Z.to_nat (i - (lo + 1)))) by lia.
Qed.

(** A loop whose [i]-th iteration fills the [i]-th stretch of [s] cells from [a]. *)
Lemma for_range_wrote {E A} (g : Z -> A) (body : Z -> list A -> res E (list A)) lo hi a b s l :
  lo <= hi -> 0 <= s -> b = a + (hi - lo) * s ->
  (forall i l1, lo <= i < hi -> zlen l1 = zlen l ->
     exists l2, body i l1 = Ok l2 /\
       wrote (interval (a + (i - lo) * s) (a + (i - lo + 1) * s)) g l1 l2) ->
  exists l', for_range lo hi body l = Ok l' /\ wrote (interval a b) g l l'.
Proof.
  intros Hle Hs -> Hstep.
  apply (for_range_inv (fun i l1 => wrote (interval a (a + (i - lo) * s)) g l l1)); [done| |].
  - apply wrote_nothing. intros j _. unfold interval. lia.
  - intros i l1 Hi Hw. destruct (Hstep i l1) as (l2 & Hb & Hw2); [done|apply Hw|].
    exists l2. split; [done|]. eapply wrote_trans; [exact Hw|exact Hw2|].
    intros j _. unfold interval. assert (0 <= (i - lo) * s) by nia.
    replace ((i + 1 - lo) * s) with ((i - lo) * s + s) by ring.
    replace ((i - lo + 1) * s) with ((i - lo) * s + s) by ring. lia.
Qed.

(** The innermost case: one cell per iteration. *)
Lemma for_range_wrote_1 {E A} (g : Z -> A) (body : Z -> list A -> res E (list A)) lo hi a b l :
  lo <= hi -> 0 <= a -> b = a + (hi - lo) -> b <= zlen l ->
  (forall i l1, lo <= i < hi -> zlen l1 = zlen l ->
     body i l1 = upd l1 (a + (i - lo)) (g (a + (i - lo)))) ->
  exists l', for_range lo hi body l = Ok l' /\ wrote (interval a b) g l l'.
Proof.
  intros Hle Ha -> Hb Hstep.
  apply (for_range_wrote _ _ _ _ _ _ 1); [done|lia|lia|].
  intros i l1 Hi Hlen. rewrite Hstep by done. rewrite upd_Ok by lia.
  eexists. split; [done|]. rewrite !Z.mul_1_r.
  replace (a + (i - lo + 1)) with (a + (i - lo) + 1) by lia.
  apply wrote_upd. lia.
Qed.

Lemma for_range_wrote_err_1 {E A} (g : Z -> A) (ok : Z -> bool) (e : E)
    (body : Z -> list A -> res E (list A)) lo hi a b l :
  lo <= hi -> 0 <= a -> b = a + (hi - lo) -> b <= zlen l ->
  (forall i l1, lo <= i < hi -> zlen l1 = zlen l ->
     body i l1 = if ok i then upd l1 (a + (i - lo)) (g (a + (i - lo))) else Err e) ->
  if forallb ok (seqZ lo (hi - lo))
  then exists l', for_range lo hi body l = Ok l' /\ wrote (interval a b) g l l'
  else for_range lo hi body l = Err e.
Proof.
  intros Hle Ha -> Hb Hstep.
  apply (for_range_wrote_err _ _ _ _ _ _ _ _ 1); [done|lia|lia|].
  intros i l1 Hi Hlen. specialize (Hstep i l1 Hi Hlen). destruct (ok i); [|done].
  rewrite Hstep, upd_Ok by lia.
  eexists. split; [done|]. rewrite !Z.mul_1_r.
  replace (a + (i - lo + 1)) with (a + (i - lo) + 1) by lia.
  apply wrote_upd. lia.
Qed.

(** Step over the next loop of the goal, whose cells [a, b) are filled with [g]
    in stretches of [s]; the loop body's obligation comes first. *)
Ltac wrote_loop g a b s :=
  match goal with
  | |- context [for_range ?lo ?hi ?body ?l] =>
      let l' := fresh "l" in let Hl := fresh "Hl" in let Hw := fresh "Hw" in
      destruct (for_range_wrote g body lo hi a b s l) as (l' & Hl & Hw);
      [lia|lia|lia| |rewrite Hl; cbn [bind]]
  end.

(** * Little-endian integers *)
Fixpoint to_le (n : nat) (v : Z) : list Z :=
  match n with
  | O => []
  | S n' => v mod 256 :: to_le n' (v / 256)
  end.

Fixpoint from_le (l : list Z) : Z :=
  match l with
  | [] => 0
  | b :: l' => b + 256 * from_le l'
  end.

Lemma length_to_le n : forall v, length (to_le n v) = n.
Proof. induction n; simpl; intros; auto. Qed.

Lemma zlen_to_le n v : zlen (to_le n v) = Z.of_nat n.
Proof. unfold zlen. by rewrite length_to_le. Qed.
Lemma zlen_to_le2 v : zlen (to_le 2 v) = 2.
Proof. done. Qed.
Lemma zlen_to_le4 v : zlen (to_le 4 v) = 4.
Proof. done. Qed.
Lemma zlen_to_le8 v : zlen (to_le 8 v) = 8.
Proof. done. Qed.
#[export] Hint Rewrite zlen_to_le2 zlen_to_le4 zlen_to_le8 : zlen.

Lemma to_le_bytes n : forall v, bytes_ok (to_le n v).
Proof.
  induction n; simpl; intros; constructor; [|done].
  apply Z.mod_pos_bound. lia.
Qed.

Lemma from_le_bound l : bytes_ok l -> 0 <= from_le l < 256 ^ zlen l.
Proof.
  induction 1 as [|b l Hb Hl IH]; [by simpl|].
  rewrite zlen_cons, Z.pow_add_r by (pose proof (zlen_nonneg l); lia).
  simpl from_le. unfold is_u8 in Hb. lia.
Qed.

Lemma from_to_le n : forall v, 0 <= v < 256 ^ Z.of_nat n -> from_le (to_le n v) = v.
Proof.
  induction n as [|n IH]; intros v Hv; simpl to_le; simpl from_le.
  - simpl in Hv. lia.
  - rewrite Nat2Z.inj_succ, Z.pow_succ_r in Hv by lia.
    rewrite IH; [pose proof (Z.div_mod v 256); lia|].
    split; [apply Z.div_pos; lia|]. apply Z.div_lt_upper_bound; lia.
Qed.

Lemma to_from_le l : bytes_ok l -> to_le (length l) (from_le l) = l.
Proof.
  induction 1 as [|b l Hb Hl IH]; [done|]. simpl. unfold is_u8 in Hb.
  replace (b + 256 * from_le l) with (from_le l * 256 + b) by lia.
  rewrite Z.add_mod, Z.mod_mul, Z.add_0_l, Z.mod_mod, Z.mod_small by lia.
  rewrite Z.div_add_l, Z.div_small, Z.add_0_r by lia. by rewrite IH.
Qed.

Lemma from_le_app l k : from_le (l ++ k) = from_le l + 256 ^ zlen l * from_le k.
Proof.
  induction l as [|b l IH].
  - change (zlen (@nil Z)) with 0. rewrite Z.pow_0_r. simpl app. simpl from_le. lia.
  - rewrite zlen_cons, Z.pow_add_r by (pose proof (zlen_nonneg l); lia).
    simpl app. simpl from_le. rewrite IH. lia.
Qed.

(** * Generic arithmetic *)
Lemma div_ceil_bounds a b : 0 < b -> b * (div_ceil a b - 1) < a <= b * div_ceil a b.
Proof.
  intros Hb. unfold div_ceil.
  pose proof (Z.div_mod (a + (b - 1)) b) as Hd.
  pose proof (Z.mod_pos_bound (a + (b - 1)) b). lia.
Qed.

Lemma div_ceil_nonneg a b : 0 <= a -> 0 < b -> 0 <= div_ceil a b.
Proof. intros. unfold div_ceil. apply Z.div_pos; lia. Qed.
#[export] Hint Resolve div_ceil_nonneg : rust.

Lemma div_ceil_exact q b : 0 < b -> div_ceil (b * q) b = q.
Proof.
  intros Hb. unfold div_ceil. rewrite Z.mul_comm, Z.add_comm, Z.div_add by lia.
  rewrite Z.div_small by lia. lia.
Qed.

(** The [i]-th of [n] cells laid out in rows of [w]: row and column. *)
Lemma div_mod_row w r c : 0 < w -> 0 <= c < w -> (w * r + c) / w = r /\ (w * r + c) mod w = c.
Proof.
  intros Hw Hc. rewrite Z.mul_comm. split.
  - rewrite Z.div_add_l, Z.div_small by lia. lia.
  - rewrite Z.add_comm, Z.mod_add, Z.mod_small by lia. done.
Qed.

Lemma Forall_lookup_Z {A} (P : A -> Prop) l i x :
  Forall P l -> l !! Z.to_nat i = Some x -> P x.
Proof. intros H Hx. by apply (Forall_lookup_1 _ _ _ _ H Hx). Qed.

Lemma forallb_seqZ (f : Z -> bool) lo n :
  forallb f (seqZ lo n) = true <-> forall i, lo <= i < lo + n -> f i = true.
Proof.
  rewrite forallb_forall. split; intros H i Hi.
  - apply H. apply list_elem_of_In, elem_of_seqZ. lia.
  - apply H. apply list_elem_of_In, elem_of_seqZ in Hi. lia.
Qed.

Lemma forallb_seqZ_false (f : Z -> bool) lo n :
  forallb f (seqZ lo n) = false <-> exists i, lo <= i < lo + n /\ f i = false.
Proof.
  split.
  - intros H. destruct (existsb (fun i => negb (f i)) (seqZ lo n)) eqn:Hx.
    + apply existsb_exists in Hx as (i & Hi & Hf). exists i.
      apply list_elem_of_In, elem_of_seqZ in Hi. split; [lia|]. by destruct (f i).
    + enough (forallb f (seqZ lo n) = true) by congruence. apply forallb_forall.
      intros i Hi. destruct (f i) eqn:Hf; [done|].
      enough (existsb (fun i => negb (f i)) (seqZ lo n) = true) by congruence.
      apply existsb_exists. exists i. by rewrite Hf.
  - intros (i & Hi & Hf). destruct (forallb f (seqZ lo n)) eqn:Ha; [|done].
    rewrite forallb_seqZ in Ha. rewrite Ha in Hf by done. done.
Qed.

(** A test over rows of [b] cells is the test row by row. *)
Lemma forallb_seqZ_rows (f : Z -> bool) a b :
  0 <= a -> 0 < b ->
  forallb (fun i => forallb (fun j => f (i * b + j)) (seqZ 0 b)) (seqZ 0 a) =
  forallb f (seqZ 0 (a * b)).
Proof.
  intros Ha Hb. apply eq_true_iff_eq. rewrite !forallb_seqZ. split.
  - intros H i Hi. specialize (H (i / b)). rewrite forallb_seqZ in H.
    specialize (H ltac:(split; [apply Z.div_pos; lia|apply Z.div_lt_upper_bound; lia])
      (i mod b) ltac:(apply Z.mod_pos_bound; lia)).
    rewrite <- H. f_equal. rewrite (Z.div_mod i b) at 1 by lia. lia.
  - intros H i Hi. rewrite forallb_seqZ. intros j Hj. apply H. nia.
Qed.

Lemma forallb_ext_Z (f g : Z -> bool) lo n :
  (forall i, lo <= i < lo + n -> f i = g i) -> forallb f (seqZ lo n) = forallb g (seqZ lo n).
Proof.
  intros H. apply eq_true_iff_eq. rewrite !forallb_seqZ.
  split; intros Hf i Hi; [rewrite <- H|rewrite H]; auto.
Qed.

(** * Concatenations of equal-width blocks *)
Definition blocks {A} (n : Z) (f : Z -> list A) : list A := concat (f <$> seqZ 0 n).

Lemma blocks_S {A} (n : Z) (f : Z -> list A) : 0 <= n -> blocks (n + 1) f = blocks n f ++ f n.
Proof.
  intros Hn. unfold blocks. rewrite seqZ_app by lia. rewrite fmap_app, concat_app.
  f_equal. simpl. rewrite app_nil_r. f_equal; lia.
Qed.

Lemma zlen_blocks {A} n (f : Z -> list A) w :
  0 <= n -> (forall i, 0 <= i < n -> zlen (f i) = w) -> zlen (blocks n f) = n * w.
Proof.
  intros Hn. revert n Hn.
  apply (natlike_ind (fun n => (forall i, 0 <= i < n -> zlen (f i) = w) -> zlen (blocks n f) = n * w)).
  - intros _. done.
  - intros n Hn IH Hf. change (Z.succ n) with (n + 1). rewrite blocks_S by done.
    rewrite zlen_app, IH, Hf; [lia|lia|]. intros i Hi. apply Hf. lia.
Qed.

(** The cells of a buffer made of [n] blocks of width [w]. *)
Lemma blocks_eq {A} (l : list A) n w f :
  0 <= n -> 0 <= w -> zlen l = n * w ->
  (forall i, 0 <= i < n -> sub l (i * w) ((i + 1) * w) = f i) -> l = blocks n f.
Proof.
  intros Hn Hw Hl Hf.
  assert (Hpre : forall m, 0 <= m -> m <= n -> sub l 0 (m * w) = blocks m f).
  { apply (natlike_ind (fun m => m <= n -> sub l 0 (m * w) = blocks m f)).
    - intros _. rewrite Z.mul_0_l. apply sub_empty.
    - intros m Hm IH Hle. change (Z.succ m) with (m + 1). rewrite blocks_S by done.
      rewrite <- IH by lia. rewrite <- Hf by lia.
      assert (0 <= m * w) by nia.
      assert (Hd : (m + 1) * w = m * w + w) by ring.
      unfold sub. rewrite drop_0, !Z.sub_0_r, Hd.
      replace (Z.to_nat (m * w + w)) with (Z.to_nat (m * w) + Z.to_nat w)%nat by lia.
      replace (Z.to_nat (m * w + w - m * w)) with (Z.to_nat w) by lia.
      by rewrite take_take_drop. }
  rewrite <- (Hpre n) by lia. rewrite <- Hl. symmetry. apply sub_full.
Qed.

Lemma sub_blocks {A} n (f : Z -> list A) w i :
  0 <= i < n -> (forall i, 0 <= i < n -> zlen (f i) = w) ->
  sub (blocks n f) (i * w) ((i + 1) * w) = f i.
Proof.
  intros Hi Hf.
  assert (Hw : 0 <= w) by (rewrite <- (Hf i Hi); apply zlen_nonneg).
  assert (Hsp : blocks n f = blocks i f ++ f i ++ concat (f <$> seqZ (i + 1) (n - i - 1))).
  { unfold blocks at 1. replace n with (i + (1 + (n - i - 1))) at 1 by lia.
    rewrite seqZ_app by lia. rewrite fmap_app, concat_app. f_equal.
    rewrite seqZ_app by lia. rewrite fmap_app, concat_app. f_equal.
    simpl. rewrite app_nil_r. f_equal; lia. }
  assert (Hl : zlen (blocks i f) = i * w) by (apply zlen_blocks; [lia|intros; apply Hf; lia]).
  rewrite Hsp. unfold sub.
  replace (Z.to_nat (i * w)) with (length (blocks i f)) by (unfold zlen in Hl; lia).
  rewrite drop_app_length.
  replace (Z.to_nat ((i + 1) * w - i * w)) with (length (f i))
    by (pose proof (Hf i Hi) as Hz; unfold zlen in Hz; lia).
  apply take_app_length.
Qed.

Lemma bytes_ok_tabulate n (f : Z -> Z) :
  (forall i, 0 <= i < n -> is_u8 (f i)) -> bytes_ok (tabulate n f).
Proof.
  intros H. unfold tabulate. apply Forall_fmap, Forall_forall. intros i Hi.
  apply list_elem_of_In, elem_of_seqZ in Hi. apply H. lia.
Qed.

Lemma bytes_ok_sub l a b : bytes_ok l -> bytes_ok (sub l a b).
Proof. intros H. unfold sub. by apply Forall_take, Forall_drop. Qed.
#[export] Hint Resolve bytes_ok_sub to_le_bytes : rust.

(** Bytes given literally, checked by computation. *)
Lemma bytes_ok_check l : forallb (fun b => (0 <=? b) && (b <? 256)) l = true -> bytes_ok l.
Proof.
  intros H. apply Forall_forall. intros b Hb. rewrite forallb_forall in H.
  specialize (H b Hb). unfold is_u8. lia.
Qed.

Lemma bytes_ok_app l k : bytes_ok l -> bytes_ok k -> bytes_ok (l ++ k).
Proof. intros. by apply Forall_app. Qed.

(** Split an append and settle the literal and little-endian parts. *)
Ltac bytes_tac :=
  repeat apply bytes_ok_app; try assumption;
  first [apply to_le_bytes | apply bytes_ok_check; reflexivity | idtac].

Lemma tabulate_S {A} n (f : Z -> A) : 0 <= n -> tabulate (n + 1) f = tabulate n f ++ [f n].
Proof. intros Hn. unfold tabulate. by rewrite seqZ_app, fmap_app by lia. Qed.

(** * Powers of two *)

(** [is_power_of_two] of the unsigned integers. *)
Definition is_power_of_two (n : Z) : bool := (0 <? n) && (Z.land n (n - 1) =? 0).

Lemma power_of_two_log n : is_power_of_two n = true -> n = 2 ^ Z.log2 n.
Proof.
  unfold is_power_of_two. rewrite andb_true_iff. intros [Hn Hl]. apply Z.ltb_lt in Hn. apply Z.eqb_eq in Hl.
  destruct (Z.log2_spec n Hn) as [Hlo Hhi]. destruct (Z.eq_dec n (2 ^ Z.log2 n)) as [|Hne]; [done|]. exfalso.
  pose proof (Z.log2_nonneg n). assert (Hlog : Z.log2 (n - 1) = Z.log2 n) by (apply Z.log2_unique; lia).
  assert (H1 : Z.testbit n (Z.log2 n) = true) by (by apply Z.bit_log2).
  assert (H2 : Z.testbit (n - 1) (Z.log2 n) = true) by (rewrite <- Hlog; apply Z.bit_log2; pose proof (Z.pow_pos_nonneg 2 (Z.log2 n)); lia).
  apply (f_equal (fun x => Z.testbit x (Z.log2 n))) in Hl. rewrite Z.land_spec, H1, H2, Z.bits_0 in Hl. done.
Qed.

Lemma power_of_two_pow k : 0 <= k -> is_power_of_two (2 ^ k) = true.
Proof.
  intros Hk. unfold is_power_of_two. pose proof (Z.pow_pos_nonneg 2 k ltac:(lia) Hk) as Hp.
  replace (0 <? 2 ^ k) with true by lia. cbn [andb]. apply Z.eqb_eq.
  replace (2 ^ k - 1) with (Z.ones k) by (rewrite Z.ones_equiv; lia).
  rewrite Z.land_ones by done. apply Z.mod_same. lia.
Qed.

(** * Sums *)
Definition zsum (l : list Z) : Z := foldr Z.add 0 l.

Lemma zsum_app l k : zsum (l ++ k) = zsum l + zsum k.
Proof. induction l as [|x l IH]; simpl; lia. Qed.

Lemma zsum_nonneg l : Forall (fun x => 0 <= x) l -> 0 <= zsum l.
Proof. induction 1; simpl; lia. Qed.

Lemma zsum_vec0 n : zsum (vec 0 n) = 0.
Proof. unfold vec. induction (Z.to_nat n); simpl; lia. Qed.

Lemma zsum_insert l i x y :
  l !! i = Some y -> zsum (<[i := x]> l) = zsum l - y + x.
Proof.
  revert i. induction l as [|z l IH]; intros [|i] H; simplify_eq/=; [lia|].
  rewrite (IH _ H). lia.
Qed.

Lemma zsum_Permutation l k : Permutation l k -> zsum l = zsum k.
Proof. induction 1; simpl; lia. Qed.

Lemma zsum_take_S l i x :
  l !! Z.to_nat i = Some x -> 0 <= i -> zsum (take (Z.to_nat (i + 1)) l) = zsum (take (Z.to_nat i) l) + x.
Proof.
  intros Hx Hi. replace (Z.to_nat (i + 1)) with (S (Z.to_nat i)) by lia.
  rewrite (take_S_r _ _ _ Hx), zsum_app. simpl. lia.
Qed.

Lemma zsum_take_le l i j :
  Forall (fun x => 0 <= x) l -> (i <= j)%nat -> zsum (take i l) <= zsum (take j l).
Proof.
  intros Hl Hij. replace (take i l) with (take i (take j l)) by (rewrite take_take; f_equal; lia).
  rewrite <- (take_drop i (take j l)) at 2. rewrite zsum_app.
  enough (0 <= zsum (drop i (take j l))) by lia. apply zsum_nonneg. by apply Forall_drop, Forall_take.
Qed.

Lemma zsum_lookup_le l i x :
  Forall (fun x => 0 <= x) l -> l !! i = Some x -> 0 <= x <= zsum l.
Proof.
  intros Hl Hx. pose proof (Forall_lookup_1 _ _ _ _ Hl Hx) as H0. simpl in H0. split; [done|].
  rewrite <- (take_drop i l). rewrite zsum_app, (drop_S _ _ _ Hx). simpl.
  pose proof (zsum_nonneg (take i l) ltac:(by apply Forall_take)).
  pose proof (zsum_nonneg (drop (S i) l) ltac:(by apply Forall_drop)). lia.
Qed.

(** [f 0 + ... + f (n - 1)]. *)
Definition sumZ (n : Z) (f : Z -> Z) : Z := zsum (f <$> seqZ 0 n).

Lemma sumZ_0 f : sumZ 0 f = 0.
Proof. done. Qed.

Lemma sumZ_S n f : 0 <= n -> sumZ (n + 1) f = sumZ n f + f n.
Proof. intros Hn. unfold sumZ. rewrite seqZ_app, fmap_app, zsum_app by lia. rewrite Z.add_0_l. unfold seqZ. simpl. rewrite Z.add_0_l. lia. Qed.

Lemma sumZ_ind (P : Z -> Prop) :
  P 0 -> (forall n, 0 <= n -> P n -> P (n + 1)) -> forall n, 0 <= n -> P n.
Proof.
  intros H0 HS n Hn. apply (natlike_ind P); [done| |done].
  intros x Hx Hp. rewrite <- Z.add_1_r. by apply HS.
Qed.

Lemma sumZ_ext n f g : (forall i, 0 <= i < n -> f i = g i) -> sumZ n f = sumZ n g.
Proof.
  intros H. unfold sumZ. f_equal. apply list_fmap_ext. intros k i Hi.
  apply lookup_seqZ in Hi as [-> Hk]. apply H. lia.
Qed.

Lemma sumZ_const n c : 0 <= n -> sumZ n (fun _ => c) = n * c.
Proof. intros Hn. revert n Hn. apply sumZ_ind; [done|]. intros n Hn IH. rewrite sumZ_S by done. lia. Qed.

Lemma sumZ_zero n f : 0 <= n -> (forall i, 0 <= i < n -> f i = 0) -> sumZ n f = 0.
Proof. intros Hn H. rewrite (sumZ_ext n f (fun _ => 0)), sumZ_const by done. lia. Qed.

Lemma sumZ_add n f g : 0 <= n -> sumZ n (fun i => f i + g i) = sumZ n f + sumZ n g.
Proof. intros Hn. revert n Hn. apply sumZ_ind; [done|]. intros n Hn IH. rewrite !sumZ_S by done. lia. Qed.

Lemma sumZ_mul n c f : 0 <= n -> sumZ n (fun i => c * f i) = c * sumZ n f.
Proof. intros Hn. revert n Hn. apply sumZ_ind; [rewrite !sumZ_0; lia|]. intros n Hn IH. rewrite !sumZ_S by done. lia. Qed.

Lemma sumZ_mono n f g : 0 <= n -> (forall i, 0 <= i < n -> f i <= g i) -> sumZ n f <= sumZ n g.
Proof.
  intros Hn. revert n Hn. apply (sumZ_ind (fun n => (forall i, 0 <= i < n -> f i <= g i) -> _)); [done|].
  intros n Hn IH H. rewrite !sumZ_S by done. pose proof (H n ltac:(lia)). enough (sumZ n f <= sumZ n g) by lia.
  apply IH. intros i Hi. apply H. lia.
Qed.

Lemma sumZ_nonneg n f : 0 <= n -> (forall i, 0 <= i < n -> 0 <= f i) -> 0 <= sumZ n f.
Proof. intros Hn H. rewrite <- (sumZ_zero n (fun _ => 0)) by done. by apply sumZ_mono. Qed.

Lemma sumZ_prefix n m f : 0 <= n <= m -> (forall i, n <= i < m -> 0 <= f i) -> sumZ n f <= sumZ m f.
Proof.
  intros [Hn Hm] H. unfold sumZ. replace m with (n + (m - n)) by lia.
  rewrite seqZ_app, fmap_app, zsum_app by lia. enough (0 <= zsum (f <$> seqZ (0 + n) (m - n))) by lia.
  apply zsum_nonneg, Forall_fmap, Forall_forall. intros i Hi.
  apply list_elem_of_In, elem_of_seqZ in Hi. apply H. lia.
Qed.

Lemma sumZ_swap n m (f : Z -> Z -> Z) :
  0 <= n -> 0 <= m -> sumZ n (fun i => sumZ m (f i)) = sumZ m (fun j => sumZ n (fun i => f i j)).
Proof.
  intros Hn Hm. revert n Hn. apply sumZ_ind.
  - rewrite sumZ_0. symmetry. by apply sumZ_zero.
  - intros n Hn IH. rewrite sumZ_S, IH by done. rewrite <- sumZ_add by done.
    apply sumZ_ext. intros j _. by rewrite sumZ_S.
Qed.

(** A sum over a row-major array is a sum of row sums. *)
Lemma sumZ_rows n w f : 0 <= n -> 0 <= w -> sumZ (n * w) f = sumZ n (fun r => sumZ w (fun t => f (r * w + t))).
Proof.
  intros Hn Hw. revert n Hn. apply sumZ_ind; [done|]. intros n Hn IH. rewrite sumZ_S, <- IH by done.
  replace ((n + 1) * w) with (n * w + w) by lia. unfold sumZ at 1.
  rewrite seqZ_app, fmap_app, zsum_app by nia. f_equal. unfold sumZ. f_equal.
  replace (0 + n * w) with (n * w + 0) by lia. by rewrite <- fmap_add_seqZ, <- list_fmap_compose.
Qed.

(** The number of [i < n] below [c], weighted. *)
Lemma sumZ_below n c w : 0 <= c <= n -> sumZ n (fun i => if i <? c then w else 0) = w * c.
Proof.
  intros [Hc Hn]. replace n with (c + (n - c)) by lia. assert (Hd : 0 <= n - c) by lia.
  revert Hd. generalize (n - c). apply sumZ_ind.
  - rewrite Z.add_0_r, (sumZ_ext c _ (fun _ => w)), sumZ_const; [lia|done|].
    intros i Hi. by replace (_ <? _) with true by lia.
  - intros d Hd IH. rewrite Z.add_assoc, sumZ_S, IH by lia. replace (_ <? _) with false; lia.
Qed.

Lemma for_enum_Ok_inv {E A S} (I : Z -> S -> Prop) (body : Z -> A -> S -> res E S) l : forall lo s s',
  for_enum lo l body s = Ok s' ->
  I lo s ->
  (forall i x s s', lo <= i -> l !! Z.to_nat (i - lo) = Some x -> I i s -> body i x s = Ok s' -> I (i + 1) s') ->
  I (lo + zlen l) s'.
Proof.
  induction l as [|x l IH]; intros lo s s' Hl H0 Hstep; simpl in Hl.
  - injection Hl as <-. by rewrite Z.add_0_r.
  - bind_inv Hl. replace (lo + zlen (x :: l)) with (lo + 1 + zlen l) by (unfold zlen; simpl; lia).
    eapply IH; [done| |].
    + eapply Hstep; [|by rewrite Z.sub_diag|done|done]. lia.
    + intros i y s1 s2 Hi Hy. apply Hstep; [lia|].
      by replace (Z.to_nat (i - lo)) with (Datatypes.S (Z.to_nat (i - (lo + 1)))) by lia.
Qed.

Lemma for_enum_returns {E A S} (I : Z -> S -> Prop) (body : Z -> A -> S -> res E S) l : forall lo s,
  I lo s ->
  (forall i x s, lo <= i -> l !! Z.to_nat (i - lo) = Some x -> I i s ->
     returns (body i x s) /\ forall s', body i x s = Ok s' -> I (i + 1) s') ->
  returns (for_enum lo l body s).
Proof.
  induction l as [|x l IH]; intros lo s H0 Hstep; simpl; [done|].
  destruct (Hstep lo x s) as [Hr Hn]; [lia|by rewrite Z.sub_diag|done|].
  apply returns_bind; [done|]. intros s1 Hs1. apply IH; [by apply Hn|].
  intros i y s2 Hi Hy. apply Hstep; [lia|].
  by replace (Z.to_nat (i - lo)) with (Datatypes.S (Z.to_nat (i - (lo + 1)))) by lia.
Qed.

(** The arithmetic operators inside their range. *)
Lemma add_usize_Ok {E} a b : a + b <= usize_max -> add_usize (E := E) a b = Ok (a + b).
Proof. intros H. unfold add_usize, checked_add. by replace (_ <=? _) with true by lia. Qed.
Lemma mul_usize_Ok {E} a b : a * b <= usize_max -> mul_usize (E := E) a b = Ok (a * b).
Proof. intros H. unfold mul_usize, checked_mul. by replace (_ <=? _) with true by lia. Qed.
Lemma sub_usize_Ok {E} a b : b <= a -> sub_usize (E := E) a b = Ok (a - b).
Proof. intros H. unfold sub_usize, checked_sub. by replace (_ <=? _) with true by lia. Qed.
Lemma add_usize_inv {E} a b c : add_usize (E := E) a b = Ok c -> c = a + b.
Proof. unfold add_usize, checked_add. destruct (_ <=? _); [|done]. simpl. congruence. Qed.
Lemma mul_usize_inv {E} a b c : mul_usize (E := E) a b = Ok c -> c = a * b.
Proof. unfold mul_usize, checked_mul. destruct (_ <=? _); [|done]. simpl. congruence. Qed.
Lemma checked_add_inv a b c : checked_add a b = Some c -> c = a + b /\ a + b <= usize_max.
Proof. unfold checked_add. destruct (Z.leb_spec (a + b) usize_max); [|done]. by intros [= <-]. Qed.
Lemma checked_mul_inv a b c : checked_mul a b = Some c -> c = a * b /\ a * b <= usize_max.
Proof. unfold checked_mul. destruct (Z.leb_spec (a * b) usize_max); [|done]. by intros [= <-]. Qed.
Lemma ok_or_inv {E A} (o : option A) (e : E) a : ok_or o e = Ok a -> o = Some a.
Proof. destruct o; simpl; [|done]. by intros [= ->]. Qed.
Lemma returns_ok_or {E A} (o : option A) (e : E) : returns (ok_or o e).
Proof. by destruct o. Qed.
