(* ===== verification/Text.v ===== *)
(** * Strings

    A [String] or [&str] is the list of its UTF-8 bytes: validity, character boundaries,
    slices that panic off a boundary, substring search, whitespace and decimal numbers, as
    the standard library defines them. *)

From Stdlib Require Import ZArith Lia Bool String.
From stdpp Require Import base list numbers sets.
From S2P Require Import Prelude.

#[local] Open Scope Z_scope.

(** The bytes of a string literal. *)
Definition utf8 (s : String.string) : list Z := (fun c => Z.of_nat (Ascii.nat_of_ascii c)) <$> String.list_ascii_of_string s.

(** * Definitions *)

(** [core::str::from_utf8]: the standard table of well-formed byte sequences. *)
Definition in_range (lo hi b : Z) : bool := (lo <=? b) && (b <=? hi).
Definition utf8_cont (b : Z) : bool := in_range 0x80 0xbf b.
Definition utf8_second3 (b0 b1 : Z) : bool :=
  if b0 =? 0xe0 then in_range 0xa0 0xbf b1
  else if b0 =? 0xed then in_range 0x80 0x9f b1
  else utf8_cont b1.
Definition utf8_second4 (b0 b1 : Z) : bool :=
  if b0 =? 0xf0 then in_range 0x90 0xbf b1
  else if b0 =? 0xf4 then in_range 0x80 0x8f b1
  else utf8_cont b1.

Fixpoint utf8_valid (l : list Z) : bool :=
  match l with
  | [] => true
  | b0 :: l1 =>
      if b0 <? 0x80 then utf8_valid l1 else
      match l1 with
      | [] => false
      | b1 :: l2 =>
          if in_range 0xc2 0xdf b0 then utf8_cont b1 && utf8_valid l2 else
          match l2 with
          | [] => false
          | b2 :: l3 =>
              if in_range 0xe0 0xef b0
              then utf8_second3 b0 b1 && utf8_cont b2 && utf8_valid l3 else
              match l3 with
              | [] => false
              | b3 :: l4 =>
                  in_range 0xf0 0xf4 b0 && utf8_second4 b0 b1 && utf8_cont b2 &&
                  utf8_cont b3 && utf8_valid l4
              end
          end
      end
  end.

(** [str::is_char_boundary]. *)
Definition is_char_boundary (s : list Z) (i : Z) : bool :=
  (i =? 0) || (i =? zlen s) ||
  ((0 <=? i) && match s !! Z.to_nat i with Some b => negb (utf8_cont b) | None => false end).

(** [&s[a..b]]. *)
Definition str_slice {E} (s : list Z) (a b : Z) : res E (list Z) :=
  if is_char_boundary s a && is_char_boundary s b then slice s a b else Panic.

(** [str::find] with a string pattern: the byte index of the first match. *)
Fixpoint starts_with (needle s : list Z) : bool :=
  match needle, s with
  | [], _ => true
  | _ :: _, [] => false
  | x :: needle, y :: s => (x =? y) && starts_with needle s
  end.

Fixpoint str_find (s needle : list Z) : option Z :=
  if starts_with needle s then Some 0
  else match s with
       | [] => None
       | _ :: s => Z.succ <$> str_find s needle
       end.

(** [Iterator::min] and [Iterator::max] of numbers. *)
Definition iter_min (l : list Z) : option Z :=
  match l with [] => None | x :: l => Some (foldl Z.min x l) end.
Definition iter_max (l : list Z) : option Z :=
  match l with [] => None | x :: l => Some (foldl Z.max x l) end.

(** * UTF-8 *)

Lemma utf8_head b l : utf8_valid (b :: l) = true -> utf8_cont b = false.
Proof.
  cbn [utf8_valid]. unfold utf8_cont, in_range. destruct (b <? 0x80) eqn:?; [intros; lia|].
  destruct l as [|? [|? [|? ?]]]; repeat case_match; intros; lia.
Qed.

(** A non-empty valid string is a character, of which every byte but the first is a
    continuation, and a valid rest; only this matters to what follows. *)
Lemma utf8_char l : utf8_valid l = true -> l <> [] ->
  exists b cs r, l = b :: cs ++ r /\ utf8_cont b = false /\ Forall (fun c => utf8_cont c = true) cs /\
    utf8_valid r = true /\ forall u, utf8_valid (b :: cs ++ u) = utf8_valid u.
Proof.
  destruct l as [|b l1]; [done|]. intros Hv _. pose proof (utf8_head _ _ Hv) as Hb.
  assert (H3 : forall x y, utf8_second3 x y = true -> utf8_cont y = true).
  { intros x y. unfold utf8_second3, utf8_cont, in_range. repeat case_match; lia. }
  assert (H4 : forall x y, utf8_second4 x y = true -> utf8_cont y = true).
  { intros x y. unfold utf8_second4, utf8_cont, in_range. repeat case_match; lia. }
  cbn [utf8_valid] in Hv. destruct (b <? 0x80) eqn:E0.
  { exists b, [], l1. repeat split; [done|constructor|done|]. intros u. cbn [app utf8_valid]. by rewrite E0. }
  destruct l1 as [|b1 l2]; [done|]. destruct (in_range 0xc2 0xdf b) eqn:E1.
  { apply andb_prop in Hv as [Hc Hv]. exists b, [b1], l2. repeat split; [done|by repeat constructor|done|].
    intros u. cbn [app utf8_valid]. by rewrite E0, E1, Hc. }
  destruct l2 as [|b2 l3]; [done|]. destruct (in_range 0xe0 0xef b) eqn:E2.
  { apply andb_prop in Hv as [[Hs Hc]%andb_prop Hv]. exists b, [b1; b2], l3.
    repeat split; [done|by repeat constructor; eauto|done|]. intros u. cbn [app utf8_valid]. by rewrite E0, E1, E2, Hs, Hc. }
  destruct l3 as [|b3 l4]; [done|].
  apply andb_prop in Hv as [[[[Hr Hs]%andb_prop Hc]%andb_prop Hd]%andb_prop Hv].
  exists b, [b1; b2; b3], l4. repeat split; [done|by repeat constructor; eauto|done|].
  intros u. cbn [app utf8_valid]. by rewrite E0, E1, E2, Hr, Hs, Hc, Hd.
Qed.

(** Induction on the characters of a valid string. *)
Lemma utf8_ind (P : list Z -> Prop) :
  P [] ->
  (forall b cs r, utf8_cont b = false -> Forall (fun c => utf8_cont c = true) cs -> utf8_valid r = true ->
     (forall u, utf8_valid (b :: cs ++ u) = utf8_valid u) -> P r -> P (b :: cs ++ r)) ->
  forall l, utf8_valid l = true -> P l.
Proof.
  intros H0 HS l. induction l as [l IH] using (induction_ltof1 _ (@length Z)). intros Hv.
  destruct (decide (l = [])) as [->|Hne]; [done|].
  destruct (utf8_char l Hv Hne) as (b & cs & r & -> & Hb & Hcs & Hr & Hu).
  apply HS; [done..|]. apply IH; [|done]. unfold ltof. cbn [length]. rewrite length_app. lia.
Qed.

Lemma utf8_valid_app s u : utf8_valid s = true -> utf8_valid (s ++ u) = utf8_valid u.
Proof.
  revert s. apply utf8_ind; [done|]. intros b cs r _ _ _ Hu IH. change ((b :: cs ++ r) ++ u) with (b :: (cs ++ r) ++ u).
  by rewrite <- (assoc_L (++)), Hu.
Qed.

Lemma boundary_0 s : is_char_boundary s 0 = true.
Proof. done. Qed.

Lemma boundary_len s : is_char_boundary s (zlen s) = true.
Proof. unfold is_char_boundary. by rewrite Z.eqb_refl, orb_true_r. Qed.

Lemma boundary_range s i : is_char_boundary s i = true -> 0 <= i <= zlen s.
Proof.
  unfold is_char_boundary. pose proof (zlen_nonneg s) as H0s. intros H. destruct (i =? 0) eqn:?; [lia|].
  destruct (i =? zlen s) eqn:?; [lia|]. cbn [orb] in H. apply andb_prop in H as [H0 H].
  destruct (s !! Z.to_nat i) eqn:Hl; [|done]. apply lookup_lt_Some in Hl. unfold zlen in *. lia.
Qed.

(** The end of a valid prefix is a boundary. *)
Lemma boundary_app s u : utf8_valid u = true -> is_char_boundary (s ++ u) (zlen s) = true.
Proof.
  intros Hv. destruct u as [|b u].
  { rewrite app_nil_r. apply boundary_len. }
  unfold is_char_boundary. pose proof (zlen_nonneg s). replace (0 <=? zlen s) with true by lia.
  replace (Z.to_nat (zlen s)) with (length s) by (unfold zlen; lia).
  rewrite list_lookup_middle, (utf8_head _ _ Hv) by done. by rewrite !orb_true_r.
Qed.

Lemma utf8_app s u : utf8_valid s = true -> utf8_valid u = true -> utf8_valid (s ++ u) = true.
Proof. intros Hs Hu. by rewrite utf8_valid_app. Qed.

(** Both sides of a boundary are strings. *)
Lemma utf8_split s : utf8_valid s = true -> forall i, is_char_boundary s i = true ->
  utf8_valid (sub s 0 i) = true /\ utf8_valid (sub s i (zlen s)) = true.
Proof.
  revert s. apply (utf8_ind (fun s => forall i, is_char_boundary s i = true -> _ /\ _)).
  { intros i Hi%boundary_range. assert (i = 0) as -> by (unfold zlen in Hi; simpl in Hi; lia). done. }
  intros b cs r Hb Hcs Hr Hu IH i Hi. pose proof (boundary_range _ _ Hi) as Hrange.
  destruct (decide (i = 0)) as [->|Hi0].
  { rewrite sub_empty, sub_full, Hu. done. }
  set (c := b :: cs). replace (b :: cs ++ r) with (c ++ r) in * by done.
  assert (Hc : utf8_valid c = true) by (specialize (Hu []); rewrite app_nil_r in Hu; exact Hu).
  destruct (decide (i < zlen c)) as [Hlt|Hge].
  - exfalso. unfold is_char_boundary in Hi. pose proof (zlen_nonneg r). rewrite zlen_app in Hi.
    replace (i =? 0) with false in Hi by lia. replace (i =? zlen c + zlen r) with false in Hi by lia.
    apply andb_prop in Hi as [_ Hi]. rewrite lookup_app_l in Hi by (unfold zlen in *; lia).
    destruct (Z.to_nat i) as [|j] eqn:Hj; [lia|]. unfold c in Hi.
    change ((b :: cs) !! S j) with (cs !! j) in Hi. destruct (cs !! j) eqn:Hl; [|discriminate Hi].
    rewrite (Forall_lookup_1 _ _ _ _ Hcs Hl) in Hi. discriminate Hi.
  - rewrite zlen_app in Hrange. specialize (IH (i - zlen c)).
    assert (Hb' : is_char_boundary r (i - zlen c) = true).
    { unfold is_char_boundary in Hi |- *. rewrite zlen_app in Hi. replace (i =? 0) with false in Hi by lia.
      replace (i =? zlen c + zlen r) with (i - zlen c =? zlen r) in Hi by lia.
      rewrite lookup_app_r in Hi by (unfold zlen in *; lia).
      replace (Z.to_nat i - length c)%nat with (Z.to_nat (i - zlen c)) in Hi by (unfold zlen in *; lia).
      destruct (i - zlen c =? 0) eqn:?; [done|]. replace (0 <=? i) with (0 <=? i - zlen c) in Hi by lia. done. }
    destruct (IH Hb') as [H1 H2]. pose proof (zlen_nonneg c).
    assert (sub (c ++ r) 0 i = c ++ sub r 0 (i - zlen c)) as ->.
    { rewrite <- (sub_join (c ++ r) 0 (zlen c) i), sub_app_l, sub_skip, Z.sub_diag by lia. done. }
    assert (sub (c ++ r) i (zlen (c ++ r)) = sub r (i - zlen c) (zlen r)) as ->.
    { rewrite sub_skip, zlen_app by lia. f_equal. lia. }
    split; [by apply utf8_app|done].
Qed.

Lemma str_slice_Ok {E} s a b : is_char_boundary s a = true -> is_char_boundary s b = true -> a <= b ->
  str_slice (E := E) s a b = Ok (sub s a b).
Proof.
  intros Ha Hb Hle. unfold str_slice. rewrite Ha, Hb. apply boundary_range in Ha, Hb.
  cbn [andb]. apply slice_Ok; lia.
Qed.

(** * Search *)

Lemma starts_with_spec needle : forall s, starts_with needle s = true <-> exists r, s = needle ++ r.
Proof.
  induction needle as [|x needle IH]; intros s; [split; [by exists s|done]|].
  destruct s as [|y s]; cbn [starts_with]; [split; [done|by intros [? ?]]|].
  rewrite andb_true_iff, IH, Z.eqb_eq. split.
  - intros [-> [r ->]]. by exists r.
  - intros [r [= -> ->]]. split; [done|by exists r].
Qed.

(** [needle] occurs in [s] at byte [p]. *)
Definition occurs (needle s : list Z) (p : Z) : Prop := exists a r, s = a ++ needle ++ r /\ zlen a = p.

Lemma occurs_cons needle y s p : occurs needle (y :: s) p <->
  (p = 0 /\ starts_with needle (y :: s) = true) \/ occurs needle s (p - 1).
Proof.
  rewrite starts_with_spec. split.
  - intros ([|x a] & r & Heq & Hp); [left; split; [zl|by exists r]|].
    right. injection Heq as -> ->. exists a, r. split; [done|zl].
  - intros [[-> [r ->]]|(a & r & -> & Hp)]; [by exists [], r|]. exists (y :: a), r. split; [done|zl].
Qed.

Lemma occurs_len needle s p : occurs needle s p -> 0 <= p /\ p + zlen needle <= zlen s.
Proof. intros (a & r & -> & <-). pose proof (zlen_nonneg a). pose proof (zlen_nonneg r). split; zlia. Qed.

(** The answer of a search is the least position of an occurrence. *)
Lemma str_find_spec needle s :
  match str_find s needle with
  | Some p => occurs needle s p /\ forall q, occurs needle s q -> p <= q
  | None => forall q, ~ occurs needle s q
  end.
Proof.
  induction s as [|y s IH]; cbn [str_find].
  - destruct (starts_with needle []) eqn:Hs.
    + apply starts_with_spec in Hs as [r Hr]. split; [by exists [], r|by intros q [? _]%occurs_len].
    + intros q ([|] & r & Heq & _); [|done]. assert (starts_with needle [] = true); [|congruence].
      apply starts_with_spec. by exists r.
  - destruct (starts_with needle (y :: s)) eqn:Hs.
    + split; [apply occurs_cons; by left|by intros q [? _]%occurs_len].
    + destruct (str_find s needle) as [p|]; cbn [fmap option_fmap option_map].
      * destruct IH as [Ho Hmin]. split.
        -- apply occurs_cons. right. by replace (Z.succ p - 1) with p by lia.
        -- intros q [[_ ?]|Hq%Hmin]%occurs_cons; [congruence|lia].
      * intros q [[_ ?]|Hq]%occurs_cons; [congruence|by eapply IH].
Qed.

Lemma iter_min_spec l :
  match iter_min l with Some m => m ∈ l /\ Forall (fun x => m <= x) l | None => l = [] end.
Proof.
  destruct l as [|x l]; cbn [iter_min]; [done|]. revert x.
  induction l as [|y l IH]; intros x; cbn [foldl]; [split; [set_solver|by repeat constructor; lia]|].
  destruct (IH (Z.min x y)) as [Hin Hall]. apply list.Forall_cons in Hall as [Hle Hall]. split.
  - apply elem_of_cons in Hin as [->|Hin]; [|set_solver].
    destruct (Z.min_spec x y) as [[_ ->]|[_ ->]]; set_solver.
  - repeat (constructor; [lia|]). done.
Qed.

Lemma iter_max_ge l x : x ∈ l -> x <= default 0 (iter_max l).
Proof.
  destruct l as [|y l]; cbn [iter_max default]; [set_solver|].
  assert (H : forall m, m <= foldl Z.max m l /\ Forall (fun z => z <= foldl Z.max m l) l).
  { induction l as [|z l IH]; intros m; cbn [foldl]; [split; [lia|constructor]|].
    destruct (IH (Z.max m z)) as [H1 H2]. split; [lia|]. constructor; [lia|done]. }
  intros [->|Hin]%elem_of_cons; [apply H|]. by apply (proj1 (list.Forall_forall _ _) (proj2 (H y))).
Qed.

(** Occurrences in a longer text that are not in the shorter one end past it. *)
Lemma occurs_app needle s u p : occurs needle (s ++ u) p -> p + zlen needle <= zlen s -> occurs needle s p.
Proof.
  intros (a & r & Heq & Hp) Hle. exists a, (sub s (zlen a + zlen needle) (zlen s)). split; [|done].
  pose proof (zlen_nonneg a). pose proof (zlen_nonneg needle).
  assert (Hs : s = sub (s ++ u) 0 (zlen s)) by (by rewrite sub_app_l).
  rewrite <- (sub_full s) at 1. rewrite <- (sub_join s 0 (zlen a + zlen needle) (zlen s)) by lia.
  rewrite (assoc_L (++)). f_equal. rewrite <- (sub_app_low s u) by lia. rewrite Heq, (assoc_L (++)). by apply sub_head; zlia.
Qed.

Lemma occurs_app_l needle s u p : occurs needle s p -> occurs needle (s ++ u) p.
Proof. intros (a & r & -> & Hp). exists a, (r ++ u). by rewrite <- !(assoc_L (++)). Qed.

Lemma occurs_skip needle s u p : occurs needle (s ++ u) (zlen s + p) -> 0 <= p -> occurs needle u p.
Proof.
  intros (a & r & Heq & Hp) H0. pose proof (zlen_nonneg s).
  assert (Ha : a = s ++ sub a (zlen s) (zlen a)).
  { rewrite <- (sub_full a) at 1. rewrite <- (sub_join a 0 (zlen s) (zlen a)) by lia. f_equal.
    rewrite <- (sub_app_low a (needle ++ r)), <- Heq by lia. by rewrite sub_app_l. }
  exists (sub a (zlen s) (zlen a)), r. split; [|rewrite zlen_sub; lia].
  rewrite Ha in Heq at 1. rewrite <- (assoc_L (++)) in Heq. by apply app_inv_head in Heq.
Qed.

Lemma occurs_shift needle s u p : occurs needle u p -> occurs needle (s ++ u) (zlen s + p).
Proof. intros (a & r & -> & <-). exists (s ++ a), r. rewrite zlen_app. by rewrite <- (assoc_L (++)). Qed.

(** A string occurs at character boundaries only. *)
Lemma occurs_boundary needle s p : utf8_valid needle = true -> needle <> [] -> occurs needle s p ->
  is_char_boundary s p = true.
Proof.
  intros Hv Hne (a & r & -> & <-). unfold is_char_boundary. pose proof (zlen_nonneg a).
  destruct needle as [|b needle]; [done|]. cbn [app]. replace (0 <=? zlen a) with true by lia.
  replace (Z.to_nat (zlen a)) with (length a) by (unfold zlen; lia).
  rewrite list_lookup_middle, (utf8_head _ _ Hv) by done. by rewrite !orb_true_r.
Qed.
