(* ===== verification/Core.v ===== *)
(** * tritium-core: the ternary scalar and GEMM geometry

    [Trit] (crates/tritium-core/src/trit.rs) is a newtype over [i8] whose field
    is private and whose constructors only ever store -1, 0 or 1; it is modelled
    as the three-element type, with [get] the field. [TritError] is error.rs,
    [GemmShape] and [ConvShape] are shape.rs. *)

From S2P Require Import Prelude.
From Stdlib Require Import ZArith Lia.
From stdpp Require Import base list numbers.

#[local] Open Scope Z_scope.

Inductive TritError : Type :=
| OutOfRange (v : Z)
| ShapeMismatch (expected got : Z).

Inductive Trit : Type := NEG | ZERO | POS.

#[export] Instance Trit_eq_dec : EqDecision Trit.
Proof. solve_decision. Defined.

Definition get (t : Trit) : Z :=
  match t with NEG => -1 | ZERO => 0 | POS => 1 end.

Definition from_i8 (v : Z) : res TritError Trit :=
  if v =? -1 then Ok NEG
  else if v =? 0 then Ok ZERO
  else if v =? 1 then Ok POS
  else Err (OutOfRange v).

Definition from_sign (v : Z) : Trit :=
  if 0 <? v then POS else if v <? 0 then NEG else ZERO.

Definition is_zero (t : Trit) : bool := get t =? 0.

Lemma get_range t : -1 <= get t <= 1.
Proof. destruct t; simpl; lia. Qed.

Lemma get_inj t u : get t = get u -> t = u.
Proof. by destruct t, u. Qed.

Lemma from_i8_get t : from_i8 (get t) = Ok t.
Proof. by destruct t. Qed.

Lemma from_i8_Ok_inv v t : from_i8 v = Ok t -> get t = v.
Proof.
  unfold from_i8. destruct (Z.eqb_spec v (-1)); [by intros [= <-]|].
  destruct (Z.eqb_spec v 0); [by intros [= <-]|].
  destruct (Z.eqb_spec v 1); [by intros [= <-]|]. done.
Qed.

Lemma from_i8_returns v : returns (from_i8 v).
Proof. unfold from_i8. by repeat case_match. Qed.

Lemma from_i8_in v : -1 <= v <= 1 -> exists t, from_i8 v = Ok t /\ get t = v.
Proof.
  intros Hv. assert (v = -1 \/ v = 0 \/ v = 1) as [-> | [-> | ->]] by lia.
  - by exists NEG.
  - by exists ZERO.
  - by exists POS.
Qed.

Lemma from_i8_out v : v < -1 \/ 1 < v -> from_i8 v = Err (OutOfRange v).
Proof.
  intros Hv. unfold from_i8.
  destruct (Z.eqb_spec v (-1)); [lia|]. destruct (Z.eqb_spec v 0); [lia|].
  destruct (Z.eqb_spec v 1); [lia|done].
Qed.

(** The sign collapse agrees with the validating constructor on its range. *)
Lemma from_sign_get t : from_sign (get t) = t.
Proof. by destruct t. Qed.

(** * Geometry *)
Record GemmShape := mkGemmShape { gm : Z; gn : Z; gk : Z }.

Definition macs {E} (s : GemmShape) : res E Z :=
  let* mn := mul_usize (gm s) (gn s) in mul_usize mn (gk s).

Definition gemm_buffers_fit {E} (s : GemmShape) (act_len weight_len out_len : Z) : res E bool :=
  let* mk := mul_usize (gm s) (gk s) in
  if negb (act_len =? mk) then Ok false else
  let* nk := mul_usize (gn s) (gk s) in
  if negb (weight_len =? nk) then Ok false else
  let* mn := mul_usize (gm s) (gn s) in
  Ok (out_len =? mn).

Record ConvShape := mkConvShape {
  batch : Z; c_in : Z; c_out : Z; l_in : Z; ksize : Z;
  stride : Z; dilation : Z; pad_left : Z; pad_right : Z; groups : Z
}.

Definition l_out {E} (s : ConvShape) : res E Z :=
  if (ksize s =? 0) || (stride s =? 0) then Ok 0 else
  let* d := mul_usize (dilation s) (ksize s - 1) in
  let* eff := add_usize d 1 in
  let* p := add_usize (l_in s) (pad_left s) in
  let* padded := add_usize p (pad_right s) in
  if padded <? eff then Ok 0 else
  add_usize ((padded - eff) / stride s) 1.

(** [a / b] on [usize]: a zero divisor panics. *)
Definition div_usize {E} (a b : Z) : res E Z := if b =? 0 then Panic else Ok (a / b).

Definition c_in_pg {E} (s : ConvShape) : res E Z := div_usize (c_in s) (groups s).
Definition n_g {E} (s : ConvShape) : res E Z := div_usize (c_out s) (groups s).
Definition k_g {E} (s : ConvShape) : res E Z :=
  let* c := c_in_pg s in mul_usize c (ksize s).

(** The conjunction short-circuits, so a later product is only formed when the
    earlier tests hold. *)
Definition conv_buffers_fit {E} (s : ConvShape) (x_len weight_len scale_len out_len : Z)
  : res E bool :=
  if (groups s =? 0) || (ksize s =? 0) || (stride s =? 0) || (dilation s =? 0) ||
     negb (is_multiple_of (c_in s) (groups s)) || negb (is_multiple_of (c_out s) (groups s))
  then Ok false else
  let* lo := l_out s in
  if negb (0 <? lo) then Ok false else
  let* bc := mul_usize (batch s) (c_in s) in
  let* x := mul_usize bc (l_in s) in
  if negb (x_len =? x) then Ok false else
  let* kg := k_g s in
  let* w := mul_usize (c_out s) kg in
  if negb (weight_len =? w) then Ok false else
  if negb (scale_len =? c_out s) then Ok false else
  let* bo := mul_usize (batch s) (c_out s) in
  let* o := mul_usize bo lo in
  Ok (out_len =? o).

(** The position in the padded input of tap [j] of output [t]. *)
Definition conv_tap (s : ConvShape) (t j : Z) : Z := t * stride s + j * dilation s.

(** An output position has all its taps inside the padded input exactly when it
    is below [l_out]. *)
Lemma l_out_taps (s : ConvShape) n t :
  0 < ksize s -> 0 < stride s -> 0 <= dilation s ->
  l_out (E := TritError) s = Ok n -> 0 <= t ->
  (t < n <-> forall j, 0 <= j < ksize s -> conv_tap s t j < l_in s + pad_left s + pad_right s).
Proof.
  intros Hk Hs Hd Hl Ht. unfold l_out in Hl.
  replace ((ksize s =? 0) || (stride s =? 0)) with false in Hl by lia.
  unfold mul_usize, add_usize, checked_mul, checked_add in Hl.
  destruct (_ <=? _) in Hl; [|done]. cbn [bind unwrap] in Hl.
  destruct (_ <=? _) in Hl; [|done]. cbn [bind unwrap] in Hl.
  destruct (_ <=? _) in Hl; [|done]. cbn [bind unwrap] in Hl.
  destruct (_ <=? _) in Hl; [|done]. cbn [bind unwrap] in Hl.
  set (padded := l_in s + pad_left s + pad_right s) in *.
  set (eff := dilation s * (ksize s - 1) + 1) in *.
  assert (Hlast : (forall j, 0 <= j < ksize s -> conv_tap s t j < padded) <->
                  t * stride s <= padded - eff).
  { unfold conv_tap, eff. split.
    - intros H. specialize (H (ksize s - 1) ltac:(lia)). lia.
    - intros H j Hj. assert (j * dilation s <= (ksize s - 1) * dilation s) by nia. lia. }
  rewrite Hlast. destruct (Z.ltb_spec padded eff).
  - injection Hl as <-. nia.
  - destruct (_ <=? _) in Hl; [|done]. injection Hl as <-.
    assert (t < (padded - eff) / stride s + 1 <-> t <= (padded - eff) / stride s) as -> by lia.
    split; intros H1.
    + pose proof (Z.mul_div_le (padded - eff) (stride s) Hs). nia.
    + apply Z.div_le_lower_bound; lia.
Qed.

(** * Properties *)

(** When [l_out] returns, output position [t] is below it exactly when every
    tap of the dilated kernel placed at [t] lies inside the padded input, so the
    length is the largest one no convolution kernel overruns. *)
Theorem l_out_exact (s : ConvShape) n t :
  0 < ksize s -> 0 < stride s -> 0 <= dilation s ->
  l_out (E := TritError) s = Ok n -> 0 <= t ->
  (t < n <-> forall j, 0 <= j < ksize s -> conv_tap s t j < l_in s + pad_left s + pad_right s).
Proof. apply l_out_taps. Qed.

Lemma l_out_exact_witness :
  let s := mkConvShape 1 1 1 10 3 2 2 1 1 1 in
  l_out (E := TritError) s = Ok 4 /\
  (3 < 4 <-> forall j, 0 <= j < ksize s -> conv_tap s 3 j < l_in s + pad_left s + pad_right s).
Proof.
  split; [reflexivity|].
  apply (l_out_exact (mkConvShape 1 1 1 10 3 2 2 1 1 1) 4 3); simpl; lia || reflexivity.
Defined.
