(* ===== verification/FormatBase.v ===== *)
(** * tritium-format: errors, block constants and scale bytes

    [FormatError] is the enum of crates/tritium-format/src/lib.rs, strings as their
    bytes, without its two wrappers [Gguf] and [SafeTensors] of the container
    readers' own errors, which no function modelled here raises. An [f16] is opaque to the codecs, which only
    move its 16 bits: it is modelled by those bits. *)

From S2P Require Import Prelude Core.
From Stdlib Require Import ZArith Lia.
From stdpp Require Import base list numbers.

#[local] Open Scope Z_scope.

Inductive FormatError : Type :=
| WrongTritCount (expected got : Z)
| WrongBlockLen (expected got : Z)
| DecodedOutOfRange (v : Z)
| InvalidI2sCode (c : Z)
| SaltBadMagic
| SaltInvalidTensorName
| SaltDuplicateTensor (name : list Z)
| SaltLengthOverflow (len : Z)
| UnsupportedSaltVersion (v : Z)
| SaltTooManyPlanes (t : Z)
| SaltRowTooLong (k : Z)
| SaltInvalidPlaneTag (tag : Z)
| SaltSparseBasePlane
| InvalidSparseDensity
| SaltNonCanonicalSparseIndices
| SaltNonZeroPadding
| SaltInvalidScale (bits : Z)
| SaltGgufBadFormat
| TqBadMagic
| UnsupportedTqVersion (v : Z)
| TqZeroSeqLen
| TqNameTooLong (n : Z)
| TqBadName
| TeacherCacheBadMagic
| UnsupportedTeacherCacheVersion (version : Z)
| TeacherCacheInvalidShape
| InvalidTrainingSalt (reason : list Z).

(** [impl From<TritError> for FormatError]. *)
Definition from_trit_error (e : TritError) : FormatError :=
  match e with
  | OutOfRange v => DecodedOutOfRange v
  | ShapeMismatch _ _ => DecodedOutOfRange (-2147483648)
  end.

(** [Trit::from_i8(v)?] inside a function that returns [FormatError]. *)
Definition trit_of (v : Z) : res FormatError Trit := map_err from_trit_error (from_i8 v).

Lemma trit_of_get t : trit_of (get t) = Ok t.
Proof. unfold trit_of. by rewrite from_i8_get. Qed.

Lemma trit_of_Ok_inv v t : trit_of v = Ok t -> get t = v.
Proof. intros H. apply from_i8_Ok_inv. by apply map_err_Ok_inv in H. Qed.

Lemma trit_of_returns v : returns (trit_of v).
Proof. apply returns_map_err, from_i8_returns. Qed.

Lemma trit_of_in v : -1 <= v <= 1 -> exists t, trit_of v = Ok t /\ get t = v.
Proof.
  intros Hv. destruct (from_i8_in v Hv) as (t & Ht & Hg). exists t.
  unfold trit_of. by rewrite Ht.
Qed.

Definition QK_K : Z := 256.
Definition TQ2_0_BLOCK_BYTES : Z := QK_K / 4 + 2.
Definition TQ1_0_BLOCK_BYTES : Z := (QK_K - 4 * QK_K / 64) / 5 + QK_K / 64 + 2.

(** Little-endian scale in the last two bytes of a block. *)
Definition read_scale (block : list Z) : res FormatError Z :=
  let n := zlen block in
  let* lo := idx block (n - 2) in
  let* hi := idx block (n - 1) in
  Ok (from_le [lo; hi]).

Definition write_scale (scale : Z) (out : list Z) : res FormatError (list Z) :=
  write_slice out (zlen out - 2) (to_le 2 scale).

Lemma read_scale_sub block n :
  0 <= n -> zlen block = n + 2 -> read_scale block = Ok (from_le (sub block n (n + 2))).
Proof.
  intros H0 Hn. unfold read_scale. rewrite Hn.
  replace (n + 2 - 2) with n by lia. replace (n + 2 - 1) with (n + 1) by lia.
  destruct (idx_in (E := FormatError) block n) as (x & -> & Hx); [lia|].
  destruct (idx_in (E := FormatError) block (n + 1)) as (y & -> & Hy); [lia|].
  cbn [bind]. by rewrite (sub_2 block n x y).
Qed.

(** A block is its body and the bytes of its scale. *)
Lemma block_split block n :
  0 <= n -> zlen block = n + 2 -> bytes_ok block ->
  block = sub block 0 n ++ to_le 2 (from_le (sub block n (n + 2))).
Proof.
  intros H0 Hn Hb. pose proof (bytes_ok_sub block n (n + 2) Hb) as Ht.
  assert (Hl : length (sub block n (n + 2)) = 2%nat).
  { pose proof (zlen_sub block n (n + 2)) as Hs. unfold zlen in *. lia. }
  rewrite <- Hl. rewrite to_from_le by done. unfold sub. rewrite drop_0.
  rewrite (take_ge (drop _ _)) by (rewrite length_drop; unfold zlen in *; lia).
  rewrite Z.sub_0_r. by rewrite take_drop.
Qed.

Lemma scale_u16 block n :
  0 <= n -> n + 2 <= zlen block -> bytes_ok block -> is_u16 (from_le (sub block n (n + 2))).
Proof.
  intros H0 Hn Hb. pose proof (from_le_bound _ (bytes_ok_sub block n (n + 2) Hb)) as H.
  rewrite zlen_sub in H by lia. replace (n + 2 - n) with 2 in H by lia.
  change (256 ^ 2) with 65536 in H. exact H.
Qed.

Lemma read_scale_app body scale :
  is_u16 scale -> read_scale (body ++ to_le 2 scale) = Ok scale.
Proof.
  intros Hs. pose proof (zlen_nonneg body). rewrite (read_scale_sub _ (zlen body)) by zlia.
  rewrite sub_app_r by zlia. rewrite from_to_le; [done|]. unfold is_u16 in Hs. lia.
Qed.

Lemma write_scale_Ok scale out n :
  zlen out = n + 2 -> 0 <= n ->
  write_scale scale out = Ok (sub out 0 n ++ to_le 2 scale).
Proof.
  intros Hn H0. unfold write_scale. rewrite write_slice_Ok by zlia.
  f_equal. unfold splice, sub. rewrite drop_0. f_equal; [f_equal; lia|].
  rewrite drop_ge; [apply app_nil_r|]. autorewrite with zlen. unfold zlen in *. lia.
Qed.
