(* ===== verification/TwoBit.v ===== *)
(** * Two-bit ternary codes

    TQ2_0, Q2_0, I2_S and the IMMA layout all store [code = trit + 1] in the
    four bit pairs of a byte. This file has what they share: the byte built from
    four trits, reading a pair back, and its converse. *)

From S2P Require Import Prelude Core FormatBase.
From Stdlib Require Import ZArith Lia Bool.
From stdpp Require Import base list numbers.

#[local] Open Scope Z_scope.

(** [x << n] at width 8. *)
Definition shl8 (x n : Z) : Z := Z.shiftl x n mod 256.

(** [(byte >> (2 * slot)) & 3]. *)
Definition pair2 (byte slot : Z) : Z := Z.land (Z.shiftr byte (2 * slot)) 3.

Definition code (t : Trit) : Z := get t + 1.

(** The byte holding four trits, first trit in the low pair. *)
Definition quad (t0 t1 t2 t3 : Trit) : Z :=
  code t0 + 4 * code t1 + 16 * code t2 + 64 * code t3.

(** The trit of a two-bit code; the reserved code 3 has none and reads as zero. *)
Definition trit_of_code (q : Z) : Trit := from_sign (q - 1).

Lemma quad_u8 t0 t1 t2 t3 : is_u8 (quad t0 t1 t2 t3).
Proof. destruct t0, t1, t2, t3; unfold is_u8; vm_compute; split; congruence. Qed.

Lemma pair2_quad t0 t1 t2 t3 :
  pair2 (quad t0 t1 t2 t3) 0 = code t0 /\ pair2 (quad t0 t1 t2 t3) 1 = code t1 /\
  pair2 (quad t0 t1 t2 t3) 2 = code t2 /\ pair2 (quad t0 t1 t2 t3) 3 = code t3.
Proof. destruct t0, t1, t2, t3; vm_compute; done. Qed.

Lemma pair2_range b s : 0 <= pair2 b s < 4.
Proof.
  unfold pair2. change 3 with (Z.ones 2). rewrite Z.land_ones by lia.
  apply Z.mod_pos_bound. lia.
Qed.

Lemma pair2_div b s : 0 <= s -> pair2 b s = (b / 4 ^ s) mod 4.
Proof.
  intros Hs. unfold pair2. change 3 with (Z.ones 2). rewrite Z.land_ones by lia.
  rewrite Z.shiftr_div_pow2 by lia. f_equal. f_equal.
  rewrite Z.pow_mul_r by lia. done.
Qed.

(** A byte is its four pairs. *)
Lemma byte_pairs b :
  is_u8 b -> b = pair2 b 0 + 4 * pair2 b 1 + 16 * pair2 b 2 + 64 * pair2 b 3.
Proof.
  intros Hb. unfold is_u8 in Hb. rewrite !pair2_div by lia.
  change (4 ^ 0) with 1. change (4 ^ 1) with 4. change (4 ^ 2) with 16.
  change (4 ^ 3) with 64. rewrite Z.div_1_r. Z.div_mod_to_equations. lia.
Qed.

Lemma code_trit_of_code q : 0 <= q <= 2 -> code (trit_of_code q) = q.
Proof. intros Hq. assert (q = 0 \/ q = 1 \/ q = 2) as [-> | [-> | ->]] by lia; done. Qed.

Lemma trit_of_code_code t : trit_of_code (code t) = t.
Proof. by destruct t. Qed.

Lemma quad_of_pairs b :
  is_u8 b -> pair2 b 0 <> 3 -> pair2 b 1 <> 3 -> pair2 b 2 <> 3 -> pair2 b 3 <> 3 ->
  quad (trit_of_code (pair2 b 0)) (trit_of_code (pair2 b 1))
       (trit_of_code (pair2 b 2)) (trit_of_code (pair2 b 3)) = b.
Proof.
  intros Hb H0 H1 H2 H3. unfold quad.
  pose proof (pair2_range b 0); pose proof (pair2_range b 1);
  pose proof (pair2_range b 2); pose proof (pair2_range b 3).
  rewrite !code_trit_of_code by lia. symmetry. by apply byte_pairs.
Qed.

(** What [Trit::from_i8(code as i8 - 1)?] yields for a two-bit code. *)
Lemma trit_of_pair q :
  0 <= q < 4 ->
  trit_of (q - 1) = if q =? 3 then Err (DecodedOutOfRange 2) else Ok (trit_of_code q).
Proof.
  intros Hq. assert (q = 0 \/ q = 1 \/ q = 2 \/ q = 3) as [-> | [-> | [-> | ->]]] by lia; done.
Qed.

(** The trit at a position of a row, with zero past its end. *)
Definition tget (trits : list Trit) (i : Z) : Trit := default ZERO (trits !! Z.to_nat i).

Lemma idx_tget {E} (trits : list Trit) i :
  0 <= i < zlen trits -> idx (E := E) trits i = Ok (tget trits i).
Proof.
  intros Hi. destruct (lookup_Z trits i Hi) as [t Ht]. unfold tget. rewrite Ht.
  apply idx_Ok; [lia|done].
Qed.

Lemma tabulate_tget trits n : zlen trits = n -> tabulate n (tget trits) = trits.
Proof.
  intros Hn. pose proof (zlen_nonneg trits). symmetry.
  apply tabulate_lookup; [lia|done|]. intros i Hi. unfold tget.
  by destruct (lookup_Z trits i ltac:(lia)) as [t ->].
Qed.

(** The byte at a position of a buffer, with zero past its end. *)
Definition bget (b : list Z) (i : Z) : Z := default 0 (b !! Z.to_nat i).

Lemma idx_bget {E} (b : list Z) i :
  0 <= i < zlen b -> idx (E := E) b i = Ok (bget b i).
Proof.
  intros Hi. destruct (lookup_Z b i Hi) as [t Ht]. unfold bget. rewrite Ht.
  apply idx_Ok; [lia|done].
Qed.

Lemma bget_u8 b i : bytes_ok b -> is_u8 (bget b i).
Proof.
  intros Hb. unfold bget. destruct (b !! Z.to_nat i) eqn:H; simpl; [|unfold is_u8; lia].
  by eapply Forall_lookup_Z.
Qed.

Lemma bget_tabulate n f i : 0 <= i < n -> bget (tabulate n f) i = f i.
Proof. intros Hi. unfold bget. by rewrite lookup_tabulate. Qed.

Lemma bget_app_l b c i : 0 <= i < zlen b -> bget (b ++ c) i = bget b i.
Proof. intros Hi. unfold bget. rewrite lookup_app_l by (unfold zlen in Hi; lia). done. Qed.

Lemma tabulate_bget b n : zlen b = n -> tabulate n (bget b) = b.
Proof.
  intros Hn. pose proof (zlen_nonneg b). symmetry.
  apply tabulate_lookup; [lia|done|]. intros i Hi. unfold bget.
  by destruct (lookup_Z b i ltac:(lia)) as [t ->].
Qed.

Lemma bget_upd b i j x :
  0 <= i < zlen b -> 0 <= j -> bget (<[Z.to_nat i := x]> b) j = if i =? j then x else bget b j.
Proof. intros Hi Hj. unfold bget. rewrite lookup_upd by done. by destruct (i =? j). Qed.

Lemma bget_sub b x y j :
  0 <= x -> 0 <= j < y - x -> bget (sub b x y) j = bget b (x + j).
Proof. intros. unfold bget. by rewrite lookup_sub. Qed.

Lemma bget_splice b src a j :
  0 <= a -> a + zlen src <= zlen b -> 0 <= j ->
  bget (splice b a src) j =
    if (a <=? j) && (j <? a + zlen src) then bget src (j - a) else bget b j.
Proof. intros. unfold bget. rewrite lookup_splice by done. by destruct (_ && _). Qed.

Lemma tget_splice trits src a j :
  0 <= a -> a + zlen src <= zlen trits -> 0 <= j ->
  tget (splice trits a src) j =
    if (a <=? j) && (j <? a + zlen src) then tget src (j - a) else tget trits j.
Proof. intros. unfold tget. rewrite lookup_splice by done. by destruct (_ && _). Qed.

Lemma tget_sub trits a b j :
  0 <= a -> 0 <= j < b - a -> tget (sub trits a b) j = tget trits (a + j).
Proof. intros. unfold tget. by rewrite lookup_sub. Qed.

Lemma tget_tabulate n f i : 0 <= i < n -> tget (tabulate n f) i = f i.
Proof. intros Hi. unfold tget. by rewrite lookup_tabulate. Qed.

Lemma tget_past trits i : zlen trits <= i -> tget trits i = ZERO.
Proof.
  intros Hi. unfold tget. rewrite lookup_ge_None_2; [done|]. unfold zlen in Hi. lia.
Qed.

Lemma trits_eq (l k : list Trit) :
  zlen l = zlen k -> (forall i, 0 <= i < zlen l -> tget l i = tget k i) -> l = k.
Proof.
  intros Hl H. rewrite <- (tabulate_tget l (zlen l)), <- (tabulate_tget k (zlen l)) by done.
  apply tabulate_ext. intros i Hi. by apply H.
Qed.

Lemma bytes_eq (l k : list Z) :
  zlen l = zlen k -> (forall i, 0 <= i < zlen l -> bget l i = bget k i) -> l = k.
Proof.
  intros Hl H. rewrite <- (tabulate_bget l (zlen l)), <- (tabulate_bget k (zlen l)) by done.
  apply tabulate_ext. intros i Hi. by apply H.
Qed.

(** Four bytes read one by one are the little-endian value of the slice. *)
Lemma le4_bytes {E A} payload q (k : Z -> res E A) :
  0 <= q -> q + 4 <= zlen payload ->
  (let* b0 := idx payload q in
   let* b1 := idx payload (q + 1) in
   let* b2 := idx payload (q + 2) in
   let* b3 := idx payload (q + 3) in
   k (from_le [b0; b1; b2; b3])) = k (from_le (sub payload q (q + 4))).
Proof.
  intros Hq Hl. rewrite !idx_bget by lia. cbn [bind]. do 2 f_equal.
  apply bytes_eq; [rewrite zlen_sub by lia; unfold zlen; simpl; lia|].
  intros i Hi. unfold zlen in Hi; simpl in Hi. rewrite bget_sub by lia.
  assert (i = 0 \/ i = 1 \/ i = 2 \/ i = 3) as [-> | [-> | [-> | ->]]] by lia;
    rewrite ?Z.add_0_r; done.
Qed.

Lemma sub_1 (b : list Z) i : 0 <= i < zlen b -> sub b i (i + 1) = [bget b i].
Proof.
  intros Hi. destruct (lookup_Z b i Hi) as [x Hx]. unfold sub, bget. rewrite Hx.
  replace (Z.to_nat (i + 1 - i)) with 1%nat by lia. by rewrite (drop_S _ _ _ Hx).
Qed.

Lemma to_le_sub (b : list Z) (n : nat) i :
  0 <= i -> i + Z.of_nat n <= zlen b -> bytes_ok b ->
  to_le n (from_le (sub b i (i + Z.of_nat n))) = sub b i (i + Z.of_nat n).
Proof.
  intros Hi Hl Hb. pose proof (zlen_sub b i (i + Z.of_nat n) Hi ltac:(lia) Hl) as Hz.
  replace n with (length (sub b i (i + Z.of_nat n))) at 1 by (unfold zlen in Hz; lia).
  apply to_from_le. by apply bytes_ok_sub.
Qed.

(** * Arrays of fixed-width integers *)

(** [l.as_chunks::<n>().0]. *)
Definition as_chunks {A} (n : Z) (l : list A) : list (list A) :=
  tabulate (zlen l / n) (fun i => sub l (i * n) ((i + 1) * n)).

(** Chunking a concatenation of equal-width encodings. *)
Lemma zlen_concat_le (n : nat) l : zlen (concat (to_le n <$> l)) = Z.of_nat n * zlen l.
Proof.
  induction l as [|x l IH]; [by rewrite Z.mul_0_r|].
  change (concat (to_le n <$> x :: l)) with (to_le n x ++ concat (to_le n <$> l)).
  rewrite zlen_app, IH, zlen_cons, zlen_to_le. lia.
Qed.

Lemma concat_blocks {A} (l : list (list A)) : concat l = blocks (zlen l) (fun i => default [] (l !! Z.to_nat i)).
Proof.
  unfold blocks. f_equal. apply list_eq_Z.
  - rewrite zlen_fmap. unfold zlen at 2. rewrite length_seqZ. unfold zlen. lia.
  - intros i Hi. destruct (lookup_Z l i Hi) as [x Hx]. rewrite Hx, list_lookup_fmap, lookup_seqZ_lt by lia.
    simpl. by rewrite Z.add_0_l, Z2Nat.id, Hx by lia.
Qed.

Lemma chunks_concat (n : nat) (l : list Z) :
  (0 < n)%nat -> as_chunks (Z.of_nat n) (concat (to_le n <$> l)) = to_le n <$> l.
Proof.
  intros Hn. unfold as_chunks. rewrite zlen_concat_le.
  rewrite (Z.mul_comm (Z.of_nat n)), Z.div_mul by lia. symmetry.
  apply tabulate_lookup; [auto with rust|by rewrite zlen_fmap|]. intros i Hi.
  destruct (lookup_Z l i Hi) as [x Hx].
  assert (Hget : forall j, 0 <= j < zlen (to_le n <$> l) ->
    zlen (default [] ((to_le n <$> l) !! Z.to_nat j)) = Z.of_nat n).
  { intros j Hj. rewrite zlen_fmap in Hj. destruct (lookup_Z l j Hj) as [y Hy].
    rewrite list_lookup_fmap, Hy. simpl. apply zlen_to_le. }
  rewrite concat_blocks. rewrite (sub_blocks _ _ (Z.of_nat n)); [|by rewrite zlen_fmap|done].
  by rewrite list_lookup_fmap, Hx.
Qed.

Lemma decode_chunks (n : nat) l :
  (0 < n)%nat -> Forall (fun v => 0 <= v < 256 ^ Z.of_nat n) l ->
  from_le <$> as_chunks (Z.of_nat n) (concat (to_le n <$> l)) = l.
Proof.
  intros Hn Hl. rewrite chunks_concat by done. rewrite <- list_fmap_compose.
  rewrite <- (list_fmap_id l) at 2. apply list_fmap_ext. intros i x Hx. simpl.
  apply from_to_le. by eapply Forall_lookup_1 in Hl.
Qed.

(** Element [i] of an encoded array. *)
Lemma sub_concat_le (n : nat) (l rest : list Z) i :
  0 <= i < zlen l ->
  sub (concat (to_le n <$> l) ++ rest) (i * Z.of_nat n) ((i + 1) * Z.of_nat n) = to_le n (bget l i).
Proof.
  intros Hi. destruct (lookup_Z l i Hi) as [x Hx]. unfold bget. rewrite Hx. simpl.
  assert (Hs : forall j, 0 <= j < zlen (to_le n <$> l) ->
    zlen (default [] ((to_le n <$> l) !! Z.to_nat j)) = Z.of_nat n).
  { intros j Hj. rewrite zlen_fmap in Hj. destruct (lookup_Z l j Hj) as [y Hy].
    rewrite list_lookup_fmap, Hy. simpl. apply zlen_to_le. }
  pose proof (zlen_concat_le n l) as Hl.
  transitivity (sub (concat (to_le n <$> l)) (i * Z.of_nat n) ((i + 1) * Z.of_nat n)).
  - apply list_eq_Z.
    + rewrite !zlen_sub; rewrite ?zlen_app; pose proof (zlen_nonneg rest); nia.
    + rewrite zlen_sub by (rewrite ?zlen_app; pose proof (zlen_nonneg rest); nia). intros j Hj.
      rewrite !lookup_sub by nia. apply lookup_app_l. unfold zlen in *. nia.
  - rewrite concat_blocks. rewrite (sub_blocks _ _ (Z.of_nat n)) by (done || by rewrite zlen_fmap).
    by rewrite list_lookup_fmap, Hx.
Qed.
