(* ===== verification/TQ2.v ===== *)
(** * TQ2_0 blocks and zero bitmaps (crates/tritium-format/src/tq2.rs) *)

From S2P Require Import Prelude Core FormatBase TwoBit.
From Stdlib Require Import ZArith Lia Bool.
From stdpp Require Import base list numbers.

#[local] Open Scope Z_scope.

Definition TQ2_QS_BYTES : Z := QK_K / 4.

Definition pack_tq2_0_block (trits : list Trit) (scale : Z) (out : list Z)
  : res FormatError (list Z) :=
  if negb (zlen trits =? QK_K) then Err (WrongTritCount QK_K (zlen trits)) else
  if negb (zlen out =? TQ2_0_BLOCK_BYTES)
  then Err (WrongBlockLen TQ2_0_BLOCK_BYTES (zlen out)) else
  let* out := for_range 0 2 (fun c out =>
    for_range 0 32 (fun m out =>
      let* q := for_range 0 4 (fun n q =>
        let* t := idx trits (c * 128 + n * 32 + m) in
        let xi := get t + 1 in
        Ok (Z.lor q (shl8 (Z.land xi 3) (2 * n)))) 0 in
      upd out (c * 32 + m) q) out) out in
  write_scale scale out.

Definition unpack_tq2_0_block (block : list Z) (trits_out : list Trit)
  : res FormatError (list Trit * Z) :=
  if negb (zlen block =? TQ2_0_BLOCK_BYTES)
  then Err (WrongBlockLen TQ2_0_BLOCK_BYTES (zlen block)) else
  if negb (zlen trits_out =? QK_K)
  then Err (WrongTritCount QK_K (zlen trits_out)) else
  let* qs := slice block 0 TQ2_QS_BYTES in
  let* trits_out := for_range 0 2 (fun c out =>
    for_range 0 4 (fun l out =>
      for_range 0 32 (fun m out =>
        let* b := idx qs (c * 32 + m) in
        let q := Z.land (Z.shiftr b (2 * l)) 3 in
        let* t := trit_of (q - 1) in
        upd out (c * 128 + l * 32 + m) t) out) out) trits_out in
  let* scale := read_scale block in
  Ok (trits_out, scale).

Definition ZERO_BLOCK_BYTE : Z := 0x55.

Definition compute_zero_bitmap (packed_row : list Z) (k : Z) : res FormatError (list Z) :=
  let nb := div_ceil k QK_K in
  let need := saturating_mul nb TQ2_0_BLOCK_BYTES in
  if zlen packed_row <? need then Err (WrongBlockLen need (zlen packed_row)) else
  let words := div_ceil nb 32 in
  for_range 0 nb (fun block_idx bitmap =>
    let offset := block_idx * TQ2_0_BLOCK_BYTES in
    let* qs := slice packed_row offset (offset + TQ2_QS_BYTES) in
    if forallb (fun b => b =? ZERO_BLOCK_BYTE) qs then
      let* w := idx bitmap (block_idx / 32) in
      upd bitmap (block_idx / 32) (Z.lor w (Z.shiftl 1 (block_idx mod 32)))
    else Ok bitmap) (vec 0 words).

Definition compute_zero_bitmaps (packed : list Z) (n k row_bytes : Z)
  : res FormatError (list Z) :=
  let nb := div_ceil k QK_K in
  let words_per_row := div_ceil nb 32 in
  if nb =? 0 then Ok [] else
  let min_row := saturating_mul nb TQ2_0_BLOCK_BYTES in
  if row_bytes <? min_row then Err (WrongBlockLen min_row row_bytes) else
  let need := saturating_mul n row_bytes in
  if zlen packed <? need then Err (WrongBlockLen need (zlen packed)) else
  let* total := mul_usize n words_per_row in
  for_range 0 n (fun ni bitmaps =>
    let row_start := ni * row_bytes in
    let row_end := row_start + row_bytes in
    let* row := slice packed row_start row_end in
    let* row_bitmap := compute_zero_bitmap row k in
    write_slice bitmaps (ni * words_per_row) row_bitmap) (vec 0 total).

(** * Layout of a packed block *)

(** Byte [j] of the quants: chunk [j / 32], lane [j mod 32]. *)
Definition tq2_byte (trits : list Trit) (j : Z) : Z :=
  let base := j / 32 * 128 + j mod 32 in
  quad (tget trits base) (tget trits (base + 32))
       (tget trits (base + 64)) (tget trits (base + 96)).

(** Trit [i] comes from byte [tq2_pos i] at bit pair [tq2_slot i]. *)
Definition tq2_pos (i : Z) : Z := i / 128 * 32 + i mod 32.
Definition tq2_slot (i : Z) : Z := i mod 128 / 32.
Definition tq2_pair (block : list Z) (i : Z) : Z := pair2 (bget block (tq2_pos i)) (tq2_slot i).

(** The packed form of 256 trits and a scale. *)
Definition tq2_block (trits : list Trit) (scale : Z) : list Z :=
  tabulate 64 (tq2_byte trits) ++ to_le 2 scale.

(** No bit pair of the quants is the reserved code 3. *)
Definition tq2_valid (block : list Z) : bool :=
  forallb (fun i => negb (tq2_pair block i =? 3)) (seqZ 0 256).

Lemma shl8_code t n : 0 <= n <= 3 -> shl8 (Z.land (get t + 1) 3) (2 * n) = code t * 4 ^ n.
Proof.
  intros Hn. assert (n = 0 \/ n = 1 \/ n = 2 \/ n = 3) as [-> | [-> | [-> | ->]]] by lia;
  by destruct t.
Qed.

Lemma pack_tq2_quad trits c m :
  zlen trits = 256 -> 0 <= c < 2 -> 0 <= m < 32 ->
  for_range (E := FormatError) 0 4 (fun n q =>
    let* t := idx trits (c * 128 + n * 32 + m) in
    let xi := get t + 1 in
    Ok (Z.lor q (shl8 (Z.land xi 3) (2 * n)))) 0 = Ok (tq2_byte trits (c * 32 + m)).
Proof.
  intros Hl Hc Hm. unroll_loop.
  rewrite !idx_tget by lia. simpl bind. unfold tq2_byte.
  replace (c * 32 + m) with (32 * c + m) by lia.
  destruct (div_mod_row 32 c m) as [-> ->]; [lia|lia|].
  replace (c * 128 + 1 * 32 + m) with (c * 128 + m + 32) by lia.
  replace (c * 128 + 2 * 32 + m) with (c * 128 + m + 64) by lia.
  replace (c * 128 + 3 * 32 + m) with (c * 128 + m + 96) by lia.
  replace (c * 128 + 0 * 32 + m) with (c * 128 + m) by lia.
  f_equal.
  destruct (tget trits (c * 128 + m)), (tget trits (c * 128 + m + 32)),
    (tget trits (c * 128 + m + 64)), (tget trits (c * 128 + m + 96)); reflexivity.
Qed.

(** * Packing *)
Lemma pack_tq2_0_block_spec trits scale out :
  zlen trits = QK_K -> zlen out = TQ2_0_BLOCK_BYTES ->
  pack_tq2_0_block trits scale out = Ok (tq2_block trits scale).
Proof.
  unfold QK_K. intros Ht Ho. change TQ2_0_BLOCK_BYTES with 66 in *.
  unfold pack_tq2_0_block. rewrite Ht, Ho. cbn [negb Z.eqb Pos.eqb].
  wrote_loop (tq2_byte trits) 0 64 32.
  { intros c l1 Hc Hl1. apply for_range_wrote_1; [lia|lia|lia|lia|].
    intros m l3 Hm Hl3. rewrite pack_tq2_quad by lia. cbn [bind]. f_equal; [lia|].
    f_equal. lia. }
  destruct Hw as [Hlen Hw]. rewrite (write_scale_Ok _ _ 64) by lia.
  unfold tq2_block. do 2 f_equal. apply tabulate_lookup; [lia|rewrite zlen_sub; lia|].
  intros i Hi. rewrite lookup_sub by lia. rewrite Hw by lia. unfold interval.
  by replace (_ && _) with true by lia.
Qed.

(** * Unpacking *)
Definition tq2_trit (block : list Z) (i : Z) : Trit := trit_of_code (tq2_pair block i).

Lemma tq2_index c l m :
  0 <= c < 2 -> 0 <= l < 4 -> 0 <= m < 32 ->
  tq2_pos (c * 128 + l * 32 + m) = c * 32 + m /\ tq2_slot (c * 128 + l * 32 + m) = l.
Proof. intros. unfold tq2_pos, tq2_slot. split; Z.div_mod_to_equations; lia. Qed.

Lemma tq2_decompose i :
  0 <= i < 256 ->
  exists c l m, i = c * 128 + l * 32 + m /\ 0 <= c < 2 /\ 0 <= l < 4 /\ 0 <= m < 32.
Proof.
  intros Hi. exists (i / 128), (i mod 128 / 32), (i mod 32).
  Z.div_mod_to_equations; lia.
Qed.

Definition tq2_code_ok (block : list Z) (i : Z) : bool := negb (tq2_pair block i =? 3).

(** The body of the unpack loops, one trit at a time. *)
Lemma unpack_tq2_cell block c l m out :
  zlen block = 66 -> 0 <= c < 2 -> 0 <= l < 4 -> 0 <= m < 32 ->
  (let* b := idx (sub block 0 64) (c * 32 + m) in
   let q := Z.land (Z.shiftr b (2 * l)) 3 in
   let* t := trit_of (q - 1) in
   upd out (c * 128 + l * 32 + m) t) =
  if tq2_code_ok block (c * 128 + (l * 32 + m))
  then upd out (c * 128 + l * 32 + (m - 0)) (tq2_trit block (c * 128 + l * 32 + (m - 0)))
  else Err (DecodedOutOfRange 2).
Proof.
  intros Hb Hc Hl Hm. rewrite idx_bget by (rewrite zlen_sub; lia). cbn [bind].
  replace (bget (sub block 0 64) (c * 32 + m)) with (bget block (c * 32 + m))
    by (unfold bget; by rewrite lookup_sub by lia).
  rewrite Z.sub_0_r, Z.add_assoc. unfold tq2_trit, tq2_code_ok, tq2_pair.
  destruct (tq2_index c l m) as [-> ->]; [done..|].
  change (Z.land (Z.shiftr (bget block (c * 32 + m)) (2 * l)) 3)
    with (pair2 (bget block (c * 32 + m)) l).
  rewrite trit_of_pair by apply pair2_range. by destruct (_ =? 3).
Qed.

Lemma unpack_tq2_0_block_spec block buf :
  zlen block = TQ2_0_BLOCK_BYTES -> zlen buf = QK_K ->
  unpack_tq2_0_block block buf =
    if tq2_valid block
    then Ok (tabulate 256 (tq2_trit block), from_le (sub block 64 66))
    else Err (DecodedOutOfRange 2).
Proof.
  unfold QK_K. intros Hb Ht. change TQ2_0_BLOCK_BYTES with 66 in *.
  unfold unpack_tq2_0_block. rewrite Hb, Ht. cbn [negb Z.eqb Pos.eqb].
  change TQ2_QS_BYTES with 64. rewrite slice_Ok by lia. cbn [bind].
  rewrite (read_scale_sub block 64) by lia.
  match goal with |- context [for_range 0 2 ?body ?l] =>
    pose proof (for_range_wrote_err (tq2_trit block)
      (fun c => forallb (fun r => tq2_code_ok block (c * 128 + r)) (seqZ 0 (4 * 32)))
      (DecodedOutOfRange 2) body 0 2 0 256 128 l ltac:(lia) ltac:(lia) ltac:(lia)) as H
  end.
  discharge H.
  { intros c l1 Hc Hl1. rewrite <- (forallb_seqZ_rows (fun r => tq2_code_ok block (c * 128 + r)) 4 32) by lia.
    apply (for_range_wrote_err _ (fun l => forallb (fun m => tq2_code_ok block (c * 128 + (l * 32 + m)))
      (seqZ 0 32)) _ _ 0 4 _ _ 32); [lia|lia|lia|].
    intros l l2 Hl Hl2.
    apply (for_range_wrote_err_1 _ (fun m => tq2_code_ok block (c * 128 + (l * 32 + m))) _ _ 0 32);
      [lia|lia|lia|lia|].
    intros m l3 Hm Hl3. rewrite unpack_tq2_cell by lia.
    by replace (0 + (c - 0) * 128 + (l - 0) * 32 + (m - 0)) with (c * 128 + l * 32 + (m - 0)) by lia. }
  change (seqZ 0 (2 - 0)) with (seqZ 0 2) in H. change (4 * 32) with 128 in H.
  rewrite (forallb_seqZ_rows (tq2_code_ok block) 2 128) in H by lia.
  change (forallb (tq2_code_ok block) (seqZ 0 (2 * 128))) with (tq2_valid block) in H.
  destruct (tq2_valid block); [|by rewrite H].
  destruct H as (l & -> & Hw). cbn [bind]. do 2 f_equal. eapply wrote_full; [done|done|].
  intros j Hj. unfold interval. lia.
Qed.

(** * Round trips *)
Lemma tq2_pair_block trits scale i :
  0 <= i < 256 -> tq2_pair (tq2_block trits scale) i = code (tget trits i).
Proof.
  intros Hi. unfold tq2_pair, tq2_block.
  destruct (tq2_decompose i Hi) as (c & l & m & -> & Hc & Hl & Hm). destruct (tq2_index c l m) as [-> ->]; [done..|].
  rewrite bget_app_l by (autorewrite with zlen; lia). rewrite bget_tabulate by lia.
  unfold tq2_byte. replace (c * 32 + m) with (32 * c + m) by lia.
  destruct (div_mod_row 32 c m) as [-> ->]; [lia|lia|].
  edestruct pair2_quad as (H0 & H1 & H2 & H3).
  assert (l = 0 \/ l = 1 \/ l = 2 \/ l = 3) as [E | [E | [E | E]]] by lia; rewrite E;
    [rewrite H0|rewrite H1|rewrite H2|rewrite H3]; do 2 f_equal; lia.
Qed.

Lemma tq2_valid_block trits scale : tq2_valid (tq2_block trits scale) = true.
Proof.
  apply forallb_seqZ. intros i Hi. rewrite tq2_pair_block by lia.
  by destruct (tget trits i).
Qed.

Lemma zlen_tq2_block trits scale : zlen (tq2_block trits scale) = TQ2_0_BLOCK_BYTES.
Proof. unfold tq2_block. autorewrite with zlen. done. Qed.

Lemma tq2_block_bytes trits scale : bytes_ok (tq2_block trits scale).
Proof.
  apply Forall_app. split; [|apply to_le_bytes].
  apply bytes_ok_tabulate. intros i Hi. apply quad_u8.
Qed.

Lemma unpack_tq2_block trits scale buf :
  zlen trits = QK_K -> zlen buf = QK_K -> is_u16 scale ->
  unpack_tq2_0_block (tq2_block trits scale) buf = Ok (trits, scale).
Proof.
  intros Ht Hbuf Hs. rewrite unpack_tq2_0_block_spec by (done || apply zlen_tq2_block).
  rewrite tq2_valid_block. do 2 f_equal.
  - rewrite <- (tabulate_tget trits 256) by done. apply tabulate_ext. intros i Hi.
    unfold tq2_trit. rewrite tq2_pair_block by lia. rewrite (tabulate_tget trits 256) by done.
    apply trit_of_code_code.
  - unfold tq2_block.
    assert (H64 : zlen (tabulate 64 (tq2_byte trits)) = 64) by zlia.
    rewrite <- H64 at 1. rewrite sub_app_r by (autorewrite with zlen; lia).
    apply from_to_le. unfold is_u16 in Hs. lia.
Qed.

(** Unpacking loses nothing: a block that decodes is the packing of what it
    decodes to. *)
Lemma tq2_block_canonical block :
  zlen block = TQ2_0_BLOCK_BYTES -> bytes_ok block -> tq2_valid block = true ->
  tq2_block (tabulate 256 (tq2_trit block)) (from_le (sub block 64 66)) = block.
Proof.
  intros Hb Hu Hv. change TQ2_0_BLOCK_BYTES with 66 in *. unfold tq2_block.
  rewrite (block_split block 64) at 3 by (done || lia). f_equal.
  symmetry. apply tabulate_lookup; [lia|rewrite zlen_sub; lia|].
  intros j Hj. rewrite lookup_sub by lia. rewrite Z.add_0_l.
  destruct (lookup_Z block j) as [b Hbj]; [lia|]. rewrite Hbj. f_equal.
  assert (Hbg : bget block j = b) by (unfold bget; by rewrite Hbj).
  assert (Hb8 : is_u8 b) by (by eapply Forall_lookup_Z).
  unfold tq2_valid in Hv. rewrite forallb_seqZ in Hv.
  assert (Hp : forall l i, 0 <= l < 4 -> i = j / 32 * 128 + j mod 32 + 32 * l ->
    tget (tabulate 256 (tq2_trit block)) i = trit_of_code (pair2 b l) /\ pair2 b l <> 3).
  { intros l i Hl Hil.
    assert (Hi : 0 <= i < 256) by (rewrite Hil; Z.div_mod_to_equations; lia).
    destruct (tq2_index (j / 32) l (j mod 32)) as [Hpos Hslot];
      [Z.div_mod_to_equations; lia|lia|Z.div_mod_to_equations; lia|].
    assert (Hij : j / 32 * 128 + l * 32 + j mod 32 = i) by lia.
    rewrite Hij in *. assert (Hpair : tq2_pair block i = pair2 b l).
    { unfold tq2_pair. rewrite Hpos, Hslot.
      replace (j / 32 * 32 + j mod 32) with j by (Z.div_mod_to_equations; lia). by rewrite Hbg. }
    specialize (Hv i ltac:(lia)). rewrite Hpair in Hv. split; [|lia].
    unfold tget. rewrite lookup_tabulate by lia. simpl. unfold tq2_trit. by rewrite Hpair. }
  unfold tq2_byte. set (base := j / 32 * 128 + j mod 32) in *.
  destruct (Hp 0 base) as [-> N0]; [lia|lia|]. destruct (Hp 1 (base + 32)) as [-> N1]; [lia|lia|].
  destruct (Hp 2 (base + 64)) as [-> N2]; [lia|lia|].
  destruct (Hp 3 (base + 96)) as [-> N3]; [lia|lia|]. symmetry. by apply quad_of_pairs.
Qed.

(** * Zero bitmaps *)

(** Block [bi] of a packed row has all its quant bytes equal to [0x55]. *)
Definition zero_block (row : list Z) (bi : Z) : bool :=
  forallb (fun b => b =? ZERO_BLOCK_BYTE)
    (sub row (bi * TQ2_0_BLOCK_BYTES) (bi * TQ2_0_BLOCK_BYTES + TQ2_QS_BYTES)).

(** Bit [j] of a bitmap stored in 32-bit words. *)
Definition bitmap_bit (bitmap : list Z) (j : Z) : bool :=
  Z.testbit (bget bitmap (j / 32)) (j mod 32).

(** The words [bm] have exactly the bits [f j] for [j < n]. *)
Definition is_bitmap (bm : list Z) (words n : Z) (f : Z -> bool) : Prop :=
  zlen bm = words /\
  forall w b, 0 <= w < words -> 0 <= b ->
    Z.testbit (bget bm w) b = (b <? 32) && (32 * w + b <? n) && f (32 * w + b).

Lemma is_bitmap_bit bm words n f j :
  is_bitmap bm words n f -> n <= 32 * words -> 0 <= j < n -> bitmap_bit bm j = f j.
Proof.
  intros [_ H] Hw Hj. unfold bitmap_bit.
  rewrite H by (Z.div_mod_to_equations; lia).
  replace (32 * (j / 32) + j mod 32) with j by (Z.div_mod_to_equations; lia).
  assert (Hm : j mod 32 < 32) by (apply Z.mod_pos_bound; lia).
  replace (j mod 32 <? 32) with true by lia. replace (j <? n) with true by lia. done.
Qed.

Lemma is_bitmap_step bm words i f :
  is_bitmap bm words i f -> 0 <= i < 32 * words ->
  exists bm',
    (if f i then
       let* w := idx bm (i / 32) in
       upd (E := FormatError) bm (i / 32) (Z.lor w (Z.shiftl 1 (i mod 32)))
     else Ok bm) = Ok bm' /\ is_bitmap bm' words (i + 1) f.
Proof.
  intros [Hl Hb] Hi.
  assert (Hq : 0 <= i / 32 < words /\ 0 <= i mod 32 < 32) by (Z.div_mod_to_equations; lia).
  assert (Hi' : i = 32 * (i / 32) + i mod 32) by (Z.div_mod_to_equations; lia).
  destruct (f i) eqn:Hf.
  - rewrite idx_bget by lia. cbn [bind]. rewrite upd_Ok by lia. eexists. split; [done|].
    split; [by rewrite zlen_insert|]. intros w b Hw Hb0. rewrite bget_upd by lia.
    destruct (Z.eqb_spec (i / 32) w) as [<-|Hne].
    + rewrite Z.lor_spec, Hb by lia. rewrite Z.shiftl_spec by lia.
      destruct (Z.eqb_spec b (i mod 32)) as [->|Hnb].
      * rewrite Z.sub_diag, <- Hi', Hf. change (Z.testbit 1 0) with true. lia.
      * replace (Z.testbit 1 (b - i mod 32)) with false.
        2:{ symmetry. destruct (Z.ltb_spec b (i mod 32)); [by rewrite Z.testbit_neg_r by lia|].
            apply (Z.bits_above_log2 1); simpl; lia. }
        rewrite orb_false_r. f_equal. lia.
    + rewrite Hb by lia. destruct (Z.ltb_spec b 32); [|done]. simpl. f_equal. lia.
  - exists bm. split; [done|]. split; [done|]. intros w b Hw Hb0. rewrite Hb by lia.
    destruct (Z.eqb_spec (32 * w + b) i) as [->|Hne].
    + rewrite Hf. by rewrite !andb_false_r.
    + f_equal. f_equal. lia.
Qed.

Lemma is_bitmap_vec words f : 0 <= words -> is_bitmap (vec 0 words) words 0 f.
Proof.
  intros Hw. split; [zlia|]. intros w b Hw' Hb. unfold bget.
  rewrite lookup_vec by lia. simpl. rewrite Z.bits_0.
  replace (32 * w + b <? 0) with false by lia. by rewrite andb_false_r.
Qed.

Lemma blocks_need nb : 0 <= nb -> 0 <= saturating_mul nb TQ2_0_BLOCK_BYTES <= nb * TQ2_0_BLOCK_BYTES.
Proof. intros H. change TQ2_0_BLOCK_BYTES with 66. unfold saturating_mul, usize_max. lia. Qed.

Lemma compute_zero_bitmap_spec row k :
  0 <= k -> zlen row < usize_max -> div_ceil k QK_K * TQ2_0_BLOCK_BYTES <= zlen row ->
  exists bm, compute_zero_bitmap row k = Ok bm /\
    is_bitmap bm (div_ceil (div_ceil k QK_K) 32) (div_ceil k QK_K) (zero_block row).
Proof.
  intros Hk Hu Hrow. unfold compute_zero_bitmap. set (nb := div_ceil k QK_K) in *.
  assert (Hnb : 0 <= nb) by (apply div_ceil_nonneg; [done|unfold QK_K; lia]).
  pose proof (blocks_need nb Hnb) as Hneed.
  replace (zlen row <? _) with false by lia.
  pose proof (div_ceil_bounds nb 32 ltac:(lia)) as Hw.
  apply (for_range_inv (fun i bm => is_bitmap bm (div_ceil nb 32) i (zero_block row))); [done| |].
  - apply is_bitmap_vec. apply div_ceil_nonneg; lia.
  - intros i bm Hi Hbm. change TQ2_0_BLOCK_BYTES with 66 in *. change TQ2_QS_BYTES with 64 in *.
    rewrite slice_Ok by lia. cbn [bind]. apply (is_bitmap_step bm _ i (zero_block row)); [done|lia].
Qed.

Lemma compute_zero_bitmap_short row k :
  0 <= k -> zlen row < usize_max -> zlen row < div_ceil k QK_K * TQ2_0_BLOCK_BYTES ->
  compute_zero_bitmap row k =
    Err (WrongBlockLen (saturating_mul (div_ceil k QK_K) TQ2_0_BLOCK_BYTES) (zlen row)).
Proof.
  intros Hk Hu Hrow. unfold compute_zero_bitmap.
  replace (zlen row <? _) with true; [done|].
  unfold saturating_mul. lia.
Qed.

(** The bitmap of the row that starts at byte [off] of a packed matrix. *)
Lemma zero_block_sub packed off len bi :
  0 <= off -> 0 <= bi -> bi * TQ2_0_BLOCK_BYTES + TQ2_QS_BYTES <= len ->
  zero_block (sub packed off (off + len)) bi =
  forallb (fun b => b =? ZERO_BLOCK_BYTE)
    (sub packed (off + bi * TQ2_0_BLOCK_BYTES) (off + bi * TQ2_0_BLOCK_BYTES + TQ2_QS_BYTES)).
Proof.
  intros. change TQ2_0_BLOCK_BYTES with 66 in *. change TQ2_QS_BYTES with 64 in *.
  unfold zero_block. change TQ2_0_BLOCK_BYTES with 66. change TQ2_QS_BYTES with 64.
  rewrite sub_sub by lia. by rewrite Z.add_assoc.
Qed.

(** The rows of the result laid out so far: row [r] is a bitmap of its blocks. *)
Definition rows_done (packed : list Z) (words nb row_bytes ni : Z) (out : list Z) : Prop :=
  forall r, 0 <= r < ni ->
    is_bitmap (sub out (r * words) ((r + 1) * words)) words nb
      (zero_block (sub packed (r * row_bytes) (r * row_bytes + row_bytes))).

Lemma compute_zero_bitmaps_spec packed n k row_bytes :
  0 <= n -> 0 < k -> zlen packed < usize_max ->
  div_ceil k QK_K * TQ2_0_BLOCK_BYTES <= row_bytes -> n * row_bytes <= zlen packed ->
  exists out, compute_zero_bitmaps packed n k row_bytes = Ok out /\
    zlen out = n * div_ceil (div_ceil k QK_K) 32 /\
    rows_done packed (div_ceil (div_ceil k QK_K) 32) (div_ceil k QK_K) row_bytes n out.
Proof.
  intros Hn Hk Hu Hrow Hp. unfold compute_zero_bitmaps.
  set (nb := div_ceil k QK_K) in *. set (words := div_ceil nb 32).
  pose proof (div_ceil_bounds k QK_K ltac:(unfold QK_K; lia)) as Hb. fold nb in Hb.
  unfold QK_K in Hb. pose proof (div_ceil_bounds nb 32 ltac:(lia)) as Hw. fold words in Hw.
  pose proof (blocks_need nb ltac:(lia)) as Hneed.
  change TQ2_0_BLOCK_BYTES with 66 in *.
  replace (nb =? 0) with false by lia. replace (row_bytes <? _) with false by lia.
  replace (zlen packed <? saturating_mul n row_bytes) with false
    by (unfold saturating_mul; lia).
  assert (Hwr : 0 <= words <= row_bytes) by lia.
  assert (Htot : 0 <= n * words <= zlen packed).
  { pose proof (Z.mul_le_mono_nonneg_l words row_bytes n). nia. }
  unfold mul_usize, checked_mul. replace (n * words <=? usize_max) with true by lia. cbn [bind unwrap].
  destruct (for_range_inv (E := FormatError)
    (fun ni out => zlen out = n * words /\ rows_done packed words nb row_bytes ni out)
    (fun ni bitmaps =>
       let* row := slice packed (ni * row_bytes) (ni * row_bytes + row_bytes) in
       let* row_bitmap := compute_zero_bitmap row k in
       write_slice bitmaps (ni * words) row_bitmap) 0 n (vec 0 (n * words)))
    as (out & Hout & Hlen & Hd); [lia| | |].
  - split; [autorewrite with zlen; lia|]. intros r Hr. lia.
  - intros i out Hi [Hlen Hd]. rewrite slice_Ok by nia. cbn [bind].
    destruct (compute_zero_bitmap_spec (sub packed (i * row_bytes) (i * row_bytes + row_bytes)) k)
      as (bm & -> & Hbm); [lia|rewrite zlen_sub; nia|rewrite zlen_sub by nia; fold nb; 
      change TQ2_0_BLOCK_BYTES with 66; lia|].
    cbn [bind]. fold nb words in Hbm. assert (Hbl : zlen bm = words) by apply Hbm.
    rewrite write_slice_Ok by nia. eexists. split; [done|].
    split; [rewrite zlen_splice; nia|]. intros r Hr.
    destruct (Z.eqb_spec r i) as [->|Hne].
    + rewrite sub_splice_same by nia. done.
    + rewrite sub_splice_before by nia. apply Hd. lia.
  - exists out. split; [exact Hout|]. done.
Qed.

(** * What a set bit of the bitmap means *)

Lemma zero_byte_pairs b :
  is_u8 b ->
  (b = ZERO_BLOCK_BYTE <-> forall s, 0 <= s < 4 -> pair2 b s = 1).
Proof.
  intros Hb. split.
  - intros -> s Hs. assert (s = 0 \/ s = 1 \/ s = 2 \/ s = 3) as [-> | [-> | [-> | ->]]] by lia; done.
  - intros H. rewrite (byte_pairs b Hb), !H by lia. done.
Qed.

Lemma zero_quants_pairs block :
  zlen block = TQ2_0_BLOCK_BYTES -> bytes_ok block ->
  (zero_block block 0 = true <-> forall i, 0 <= i < 256 -> tq2_pair block i = 1).
Proof.
  intros Hb Hu. change TQ2_0_BLOCK_BYTES with 66 in *. unfold zero_block.
  change (0 * TQ2_0_BLOCK_BYTES) with 0. change (0 + TQ2_QS_BYTES) with 64.
  assert (Hq : forallb (fun b => b =? ZERO_BLOCK_BYTE) (sub block 0 64) = true <->
    forall j, 0 <= j < 64 -> bget block j = ZERO_BLOCK_BYTE).
  { rewrite forallb_forall. split.
    - intros H j Hj. destruct (lookup_Z block j) as [x Hx]; [lia|]. unfold bget. rewrite Hx.
      simpl. apply Z.eqb_eq, H, list_elem_of_In, list_elem_of_lookup. exists (Z.to_nat j).
      rewrite lookup_sub by lia. done.
    - intros H x Hx. apply list_elem_of_In, list_elem_of_lookup in Hx as [n Hn].
      pose proof (lookup_lt_Some _ _ _ Hn) as Hlt.
      assert (Hz : zlen (sub block 0 64) = 64) by (rewrite zlen_sub; lia).
      replace n with (Z.to_nat (Z.of_nat n)) in Hn by lia. unfold zlen in Hz.
      rewrite lookup_sub in Hn by lia. specialize (H (Z.of_nat n) ltac:(lia)).
      unfold bget in H. rewrite Z.add_0_l in Hn. rewrite Hn in H. simpl in H. lia. }
  rewrite Hq. split.
  - intros H i Hi. destruct (tq2_decompose i Hi) as (c & l & m & -> & Hc & Hl & Hm).
    unfold tq2_pair. destruct (tq2_index c l m) as [-> ->]; [done..|].
    apply zero_byte_pairs; [by apply bget_u8|apply H; lia|done].
  - intros H j Hj. apply zero_byte_pairs; [by apply bget_u8|]. intros s Hs.
    destruct (tq2_index (j / 32) s (j mod 32)) as [Hp Hsl];
      [Z.div_mod_to_equations; lia|lia|Z.div_mod_to_equations; lia|].
    rewrite <- (H (j / 32 * 128 + s * 32 + j mod 32)) by (Z.div_mod_to_equations; lia).
    unfold tq2_pair. rewrite Hp, Hsl. do 2 f_equal. Z.div_mod_to_equations; lia.
Qed.

(** Block [bi] of a packed row is flagged exactly when it decodes to zero trits only. *)
Lemma zero_block_iff row bi buf :
  0 <= bi -> (bi + 1) * TQ2_0_BLOCK_BYTES <= zlen row -> bytes_ok row -> zlen buf = QK_K ->
  zero_block row bi = true <->
  exists scale,
    unpack_tq2_0_block (sub row (bi * TQ2_0_BLOCK_BYTES) ((bi + 1) * TQ2_0_BLOCK_BYTES)) buf =
    Ok (vec ZERO QK_K, scale).
Proof.
  intros Hbi Hrow Hu Hbuf.
  set (blk := sub row (bi * TQ2_0_BLOCK_BYTES) ((bi + 1) * TQ2_0_BLOCK_BYTES)).
  assert (Hz : zero_block row bi = zero_block blk 0).
  { unfold zero_block, blk. change TQ2_0_BLOCK_BYTES with 66 in *. change TQ2_QS_BYTES with 64.
    rewrite sub_sub by lia. f_equal. f_equal; lia. }
  assert (Hb : zlen blk = TQ2_0_BLOCK_BYTES)
    by (unfold blk; change TQ2_0_BLOCK_BYTES with 66 in *; rewrite zlen_sub; lia).
  assert (Hub : bytes_ok blk) by (by apply bytes_ok_sub).
  rewrite Hz. clearbody blk. clear Hz Hrow Hu. rewrite zero_quants_pairs by done.
  rewrite unpack_tq2_0_block_spec by done. split.
  - intros H. replace (tq2_valid blk) with true.
    2:{ symmetry. apply forallb_seqZ. intros i Hi. by rewrite (H i) by lia. }
    eexists. do 2 f_equal. symmetry. apply tabulate_lookup; [lia|done|].
    intros i Hi. rewrite lookup_vec by (unfold QK_K; lia). unfold tq2_trit. by rewrite H by lia.
  - intros [scale H] i Hi. destruct (tq2_valid blk) eqn:Hv; [|done].
    apply (f_equal (fun r => match r with Ok (l, _) => l | _ => [] end)) in H.
    unfold tq2_valid in Hv. rewrite forallb_seqZ in Hv. specialize (Hv i ltac:(lia)).
    assert (Ht : tq2_trit blk i = ZERO).
    { apply (f_equal (fun l => l !! Z.to_nat i)) in H.
      rewrite lookup_tabulate, lookup_vec in H by (unfold QK_K; lia). congruence. }
    unfold tq2_trit in Ht. pose proof (pair2_range (bget blk (tq2_pos i)) (tq2_slot i)) as Hr.
    fold (tq2_pair blk i) in Hr.
    assert (tq2_pair blk i = 0 \/ tq2_pair blk i = 1 \/ tq2_pair blk i = 2 \/ tq2_pair blk i = 3)
      as [E | [E | [E | E]]] by lia; rewrite E in *; done.
Qed.

(** * Properties *)

(** Decoding a 66-byte TQ2_0 block into a 256-trit buffer is exact. It fails
    with [DecodedOutOfRange 2], the error of the reserved code, precisely when some
    bit pair of the quants is 3; otherwise it yields 256 trits and a 16-bit scale
    which pack back to the very same bytes, whatever buffer they are packed into. *)
Theorem tq2_unpack_exact block buf :
  zlen block = TQ2_0_BLOCK_BYTES -> bytes_ok block -> zlen buf = QK_K ->
  if tq2_valid block then
    exists trits scale,
      unpack_tq2_0_block block buf = Ok (trits, scale) /\ zlen trits = QK_K /\ is_u16 scale /\
      forall out, zlen out = TQ2_0_BLOCK_BYTES -> pack_tq2_0_block trits scale out = Ok block
  else
    unpack_tq2_0_block block buf = Err (DecodedOutOfRange 2) /\
    exists i, 0 <= i < QK_K /\ tq2_pair block i = 3.
Proof.
  intros Hb Hu Hbuf. rewrite unpack_tq2_0_block_spec by done.
  destruct (tq2_valid block) eqn:Hv.
  - do 2 eexists. split; [done|]. split; [by autorewrite with zlen|].
    split; [apply scale_u16; [lia|rewrite Hb; by vm_compute|done]|].
    intros out Ho. rewrite pack_tq2_0_block_spec by (done || by autorewrite with zlen).
    by rewrite tq2_block_canonical.
  - split; [done|]. apply forallb_seqZ_false in Hv as (i & Hi & Hp). exists i.
    unfold QK_K. split; [lia|]. by destruct (Z.eqb_spec (tq2_pair block i) 3).
Qed.

Lemma tq2_unpack_exact_witness :
  unpack_tq2_0_block (vec 0x55 66) (vec ZERO 256) = Ok (vec ZERO 256, 0x5555) /\
  exists trits scale,
    unpack_tq2_0_block (vec 0x55 66) (vec ZERO 256) = Ok (trits, scale) /\
    zlen trits = QK_K /\ is_u16 scale /\
    forall out, zlen out = TQ2_0_BLOCK_BYTES ->
      pack_tq2_0_block trits scale out = Ok (vec 0x55 66).
Proof.
  split; [by vm_compute|].
  apply (tq2_unpack_exact (vec 0x55 66) (vec ZERO 256)).
  - reflexivity.
  - apply Forall_replicate. unfold is_u8. lia.
  - reflexivity.
Defined.

(** [compute_zero_bitmaps] never panics on a packed matrix whose rows are long
    enough, and bit [bi] of row [r]'s words is set exactly when block [bi] of row
    [r] decodes to 256 zero trits; the bits past the last block are clear. *)
Theorem zero_bitmaps_correct packed n k row_bytes buf :
  0 <= n -> 0 < k -> zlen packed < usize_max -> bytes_ok packed -> zlen buf = QK_K ->
  div_ceil k QK_K * TQ2_0_BLOCK_BYTES <= row_bytes -> n * row_bytes <= zlen packed ->
  let nb := div_ceil k QK_K in
  let words := div_ceil nb 32 in
  exists out, compute_zero_bitmaps packed n k row_bytes = Ok out /\ zlen out = n * words /\
    forall r, 0 <= r < n ->
      let row := sub packed (r * row_bytes) (r * row_bytes + row_bytes) in
      let bm := sub out (r * words) ((r + 1) * words) in
      (forall bi, 0 <= bi < nb ->
         bitmap_bit bm bi = true <->
         exists scale, unpack_tq2_0_block
           (sub row (bi * TQ2_0_BLOCK_BYTES) ((bi + 1) * TQ2_0_BLOCK_BYTES)) buf
           = Ok (vec ZERO QK_K, scale)) /\
      (forall bi, nb <= bi < 32 * words -> bitmap_bit bm bi = false).
Proof.
  intros Hn Hk Hu Hby Hbuf Hrow Hp nb words.
  destruct (compute_zero_bitmaps_spec packed n k row_bytes) as (out & Hout & Hlen & Hd); [done..|].
  exists out. split; [done|]. split; [done|]. intros r Hr row bm.
  specialize (Hd r Hr). fold nb words row bm in Hd.
  assert (Hnb : 0 <= nb) by (apply div_ceil_nonneg; [lia|done]).
  pose proof (div_ceil_bounds nb 32 ltac:(lia)) as Hw. fold words in Hw.
  change TQ2_0_BLOCK_BYTES with 66 in *.
  assert (Hrl : zlen row = row_bytes) by (unfold row; rewrite zlen_sub; nia).
  split; intros bi Hbi.
  - rewrite (is_bitmap_bit bm words nb (zero_block row)) by (done || lia).
    apply zero_block_iff; [lia|change TQ2_0_BLOCK_BYTES with 66; fold nb in Hrow; nia| |done].
    by apply bytes_ok_sub.
  - destruct Hd as [_ Hb]. unfold bitmap_bit. rewrite Hb by (Z.div_mod_to_equations; lia).
    replace (32 * (bi / 32) + bi mod 32 <? nb) with false by (Z.div_mod_to_equations; lia).
    by rewrite andb_false_r.
Qed.

Lemma zero_bitmaps_correct_witness :
  compute_zero_bitmaps (vec 0x55 66 ++ vec 0 66) 2 256 66 = Ok [1; 0] /\
  exists out, compute_zero_bitmaps (vec 0x55 66 ++ vec 0 66) 2 256 66 = Ok out /\ zlen out = 2 * 1.
Proof.
  split; [by vm_compute|].
  destruct (zero_bitmaps_correct (vec 0x55 66 ++ vec 0 66) 2 256 66 (vec ZERO QK_K))
    as (out & Hout & Hlen & _); [lia|lia|by vm_compute| |by vm_compute|by vm_compute|by vm_compute|].
  - apply Forall_app. split; apply Forall_replicate; unfold is_u8; lia.
  - exists out. split; [exact Hout|exact Hlen].
Defined.
