(* ===== verification/TQ1.v ===== *)
(** * TQ1_0 blocks: five trits per byte in base 3 (crates/tritium-format/src/tq1.rs) *)

From S2P Require Import Prelude Core FormatBase TwoBit.
From Stdlib Require Import ZArith Lia Bool.
From stdpp Require Import base list numbers.

#[local] Open Scope Z_scope.

Definition TQ1_QS_BYTES : Z := (QK_K - 4 * QK_K / 64) / 5.
Definition TQ1_QH_BYTES : Z := QK_K / 64.
Definition POW3 : list Z := [1; 3; 9; 27; 81; 243].

(** [(acc * 256).div_ceil(243) as u8], with [acc : u16]. *)
Definition tq1_encode (acc : Z) : Z := div_ceil (acc * 256) 243 mod 256.

(** [byte.wrapping_mul(POW3\[n\])], then the top trit of the product. *)
Definition tq1_decode {E} (byte n : Z) : res E Z :=
  let* p := idx POW3 n in
  let q := (byte * p) mod 256 in
  Ok (Z.shiftr (q * 3) 8 - 1).

(** [let xi = |i| (trits\[i\].get() + 1) as u16]. *)
Definition tq1_xi (trits : list Trit) (i : Z) : res FormatError Z :=
  let* t := idx trits i in Ok (get t + 1).

Definition pack_tq1_0_block (trits : list Trit) (scale : Z) (out : list Z)
  : res FormatError (list Z) :=
  if negb (zlen trits =? QK_K) then Err (WrongTritCount QK_K (zlen trits)) else
  if negb (zlen out =? TQ1_0_BLOCK_BYTES)
  then Err (WrongBlockLen TQ1_0_BLOCK_BYTES (zlen out)) else
  let* out := for_range 0 32 (fun m out =>
    let* acc := for_range 0 5 (fun n acc =>
      let* x := tq1_xi trits (m + n * 32) in Ok (acc * 3 + x)) 0 in
    upd out m (tq1_encode acc)) out in
  let* out := for_range 0 16 (fun m out =>
    let* acc := for_range 0 5 (fun n acc =>
      let* x := tq1_xi trits (160 + m + n * 16) in Ok (acc * 3 + x)) 0 in
    upd out (32 + m) (tq1_encode acc)) out in
  let* out := for_range 0 4 (fun j out =>
    let* acc := for_range 0 4 (fun m acc =>
      let* x := tq1_xi trits (240 + j + m * 4) in Ok (acc * 3 + x)) 0 in
    let acc := acc * 3 in
    upd out (TQ1_QS_BYTES + j) (tq1_encode acc)) out in
  write_scale scale out.

Definition unpack_tq1_0_block (block : list Z) (trits_out : list Trit)
  : res FormatError (list Trit * Z) :=
  if negb (zlen block =? TQ1_0_BLOCK_BYTES)
  then Err (WrongBlockLen TQ1_0_BLOCK_BYTES (zlen block)) else
  if negb (zlen trits_out =? QK_K) then Err (WrongTritCount QK_K (zlen trits_out)) else
  let* qs := slice block 0 TQ1_QS_BYTES in
  let* qh := slice block TQ1_QS_BYTES (TQ1_QS_BYTES + TQ1_QH_BYTES) in
  let* out := for_range 0 5 (fun n out => for_range 0 32 (fun m out =>
    let* b := idx qs m in
    let* v := tq1_decode b n in
    let* t := trit_of v in
    upd out (n * 32 + m) t) out) trits_out in
  let* out := for_range 0 5 (fun n out => for_range 0 16 (fun m out =>
    let* b := idx qs (32 + m) in
    let* v := tq1_decode b n in
    let* t := trit_of v in
    upd out (160 + n * 16 + m) t) out) out in
  let* out := for_range 0 4 (fun n out => for_range 0 4 (fun j out =>
    let* b := idx qh j in
    let* v := tq1_decode b n in
    let* t := trit_of v in
    upd out (240 + n * 4 + j) t) out) out in
  let* scale := read_scale block in
  Ok (out, scale).

(** * Layout *)
Definition acc5 (trits : list Trit) (base stride : Z) : Z :=
  (((code (tget trits base) * 3 + code (tget trits (base + stride))) * 3
     + code (tget trits (base + 2 * stride))) * 3
     + code (tget trits (base + 3 * stride))) * 3 + code (tget trits (base + 4 * stride)).

Definition acc4 (trits : list Trit) (base stride : Z) : Z :=
  ((code (tget trits base) * 3 + code (tget trits (base + stride))) * 3
     + code (tget trits (base + 2 * stride))) * 3 + code (tget trits (base + 3 * stride)).

Definition tq1_byte (trits : list Trit) (j : Z) : Z :=
  if j <? 32 then tq1_encode (acc5 trits j 32)
  else if j <? 48 then tq1_encode (acc5 trits (160 + (j - 32)) 16)
  else tq1_encode (acc4 trits (240 + (j - 48)) 4 * 3).

Definition tq1_block (trits : list Trit) (scale : Z) : list Z :=
  tabulate 52 (tq1_byte trits) ++ to_le 2 scale.

(** Byte and digit that hold trit [i]. *)
Definition tq1_pos (i : Z) : Z :=
  if i <? 160 then i mod 32 else if i <? 240 then 32 + (i - 160) mod 16
  else 48 + (i - 240) mod 4.
Definition tq1_digit (i : Z) : Z :=
  if i <? 160 then i / 32 else if i <? 240 then (i - 160) / 16 else (i - 240) / 4.

(** The pure part of [tq1_decode], as a trit. *)
Definition tq1_trit_of (byte n : Z) : Trit :=
  from_sign (Z.shiftr ((byte * default 0 (POW3 !! Z.to_nat n)) mod 256 * 3) 8 - 1).
Definition tq1_trit (block : list Z) (i : Z) : Trit :=
  tq1_trit_of (bget block (tq1_pos i)) (tq1_digit i).

Lemma tq1_encode_u8 acc : is_u8 (tq1_encode acc).
Proof. apply Z.mod_pos_bound. lia. Qed.

(** Every byte decodes to a trit, at every digit: decoding is total. *)
Lemma tq1_decode_total byte n :
  0 <= n < 5 ->
  (let* v := tq1_decode byte n in trit_of v) = Ok (tq1_trit_of byte n).
Proof.
  intros Hn. unfold tq1_decode, tq1_trit_of.
  destruct (idx_in (E := FormatError) POW3 n) as (p & -> & ->); [vm_compute zlen; lia|].
  cbn [bind]. change (default 0 (Some p)) with p. set (q := (byte * p) mod 256).
  assert (Hq : 0 <= q < 256) by (apply Z.mod_pos_bound; lia).
  assert (Hv : 0 <= Z.shiftr (q * 3) 8 <= 2).
  { rewrite Z.shiftr_div_pow2 by lia. change (2 ^ 8) with 256.
    split; [apply Z.div_pos; lia|]. apply Z.lt_succ_r, Z.div_lt_upper_bound; lia. }
  set (v := Z.shiftr (q * 3) 8 - 1).
  destruct (trit_of_in v) as (t & -> & <-); [lia|]. by rewrite from_sign_get.
Qed.

(** Base-3 digits survive the ceiling division and the wrapping product. *)
Lemma tq1_digits5 t0 t1 t2 t3 t4 :
  let b := tq1_encode ((((code t0 * 3 + code t1) * 3 + code t2) * 3 + code t3) * 3 + code t4) in
  tq1_trit_of b 0 = t0 /\ tq1_trit_of b 1 = t1 /\ tq1_trit_of b 2 = t2 /\
  tq1_trit_of b 3 = t3 /\ tq1_trit_of b 4 = t4.
Proof. destruct t0, t1, t2, t3, t4; vm_compute; done. Qed.

Lemma tq1_digits4 t0 t1 t2 t3 :
  let b := tq1_encode ((((code t0 * 3 + code t1) * 3 + code t2) * 3 + code t3) * 3) in
  tq1_trit_of b 0 = t0 /\ tq1_trit_of b 1 = t1 /\ tq1_trit_of b 2 = t2 /\ tq1_trit_of b 3 = t3.
Proof. destruct t0, t1, t2, t3; vm_compute; done. Qed.

Lemma tq1_acc5 trits (f : Z -> Z) base stride :
  (forall n, 0 <= n < 5 -> f n = base + n * stride /\ 0 <= f n < zlen trits) ->
  for_range (E := FormatError) 0 5 (fun n acc =>
    let* x := tq1_xi trits (f n) in Ok (acc * 3 + x)) 0 = Ok (acc5 trits base stride).
Proof.
  intros Hf. unroll_loop. unfold tq1_xi, acc5.
  destruct (Hf 0) as [E0 R0]; [lia|]. destruct (Hf 1) as [E1 R1]; [lia|].
  destruct (Hf 2) as [E2 R2]; [lia|]. destruct (Hf 3) as [E3 R3]; [lia|].
  destruct (Hf 4) as [E4 R4]; [lia|].
  rewrite !idx_tget by done. cbn [bind].
  rewrite E0, E1, E2, E3, E4. unfold code. rewrite Z.mul_0_l, Z.add_0_l, Z.mul_1_l, Z.add_0_r.
  done.
Qed.

Lemma tq1_acc4 trits (f : Z -> Z) base stride :
  (forall n, 0 <= n < 4 -> f n = base + n * stride /\ 0 <= f n < zlen trits) ->
  for_range (E := FormatError) 0 4 (fun n acc =>
    let* x := tq1_xi trits (f n) in Ok (acc * 3 + x)) 0 = Ok (acc4 trits base stride).
Proof.
  intros Hf. unroll_loop. unfold tq1_xi, acc4.
  destruct (Hf 0) as [E0 R0]; [lia|]. destruct (Hf 1) as [E1 R1]; [lia|].
  destruct (Hf 2) as [E2 R2]; [lia|]. destruct (Hf 3) as [E3 R3]; [lia|].
  rewrite !idx_tget by done. cbn [bind].
  rewrite E0, E1, E2, E3. unfold code. rewrite Z.mul_0_l, Z.add_0_l, Z.mul_1_l, Z.add_0_r.
  done.
Qed.

Lemma pack_tq1_block trits scale out :
  zlen trits = QK_K -> zlen out = TQ1_0_BLOCK_BYTES ->
  pack_tq1_0_block trits scale out = Ok (tq1_block trits scale).
Proof.
  unfold QK_K. intros Ht Ho. change TQ1_0_BLOCK_BYTES with 54 in *.
  unfold pack_tq1_0_block. rewrite Ht, Ho. cbn [negb Z.eqb Pos.eqb].
  change TQ1_QS_BYTES with 48.
  wrote_loop (tq1_byte trits) 0 32 1.
  { intros m l1 Hm Hl1. rewrite (tq1_acc5 trits (fun n => m + n * 32) m 32) by lia.
    cbn [bind]. rewrite upd_Ok by lia. eexists. split; [done|].
    replace (tq1_encode _) with (tq1_byte trits m)
      by (unfold tq1_byte; by replace (m <? 32) with true by lia).
    eapply wrote_ext; [apply wrote_upd; lia|]. intros j _. unfold interval. lia. }
  destruct Hw as [Hlen Hw].
  wrote_loop (tq1_byte trits) 32 48 1.
  { intros m l1 Hm Hl1. rewrite (tq1_acc5 trits (fun n => 160 + m + n * 16) (160 + m) 16) by lia.
    cbn [bind]. rewrite upd_Ok by lia. eexists. split; [done|].
    replace (tq1_encode _) with (tq1_byte trits (32 + m)).
    2:{ unfold tq1_byte. replace (32 + m <? 32) with false by lia.
        replace (32 + m <? 48) with true by lia. do 2 f_equal. lia. }
    eapply wrote_ext; [apply wrote_upd; lia|]. intros j _. unfold interval. lia. }
  destruct Hw0 as [Hlen0 Hw0].
  wrote_loop (tq1_byte trits) 48 52 1.
  { intros m l1 Hm Hl1. rewrite (tq1_acc4 trits (fun n => 240 + m + n * 4) (240 + m) 4) by lia.
    cbn [bind]. rewrite upd_Ok by lia. eexists. split; [done|].
    replace (tq1_encode _) with (tq1_byte trits (48 + m)).
    2:{ unfold tq1_byte. replace (48 + m <? 32) with false by lia.
        replace (48 + m <? 48) with false by lia. do 3 f_equal. lia. }
    eapply wrote_ext; [apply wrote_upd; lia|]. intros j _. unfold interval. lia. }
  destruct Hw1 as [Hlen1 Hw1].
  rewrite (write_scale_Ok _ _ 52) by lia. unfold tq1_block. do 2 f_equal.
  apply tabulate_lookup; [lia|rewrite zlen_sub; lia|].
  intros i Hi. rewrite lookup_sub by lia. rewrite Hw1, Hw0, Hw by lia. unfold interval.
  by repeat case_match; try lia.
Qed.

(** One cell of the three unpack loops, whose byte comes from slice [qs]. *)
Lemma unpack_tq1_cell block qs m n i pos out :
  0 <= n < 5 -> 0 <= m < zlen qs -> bget qs m = bget block pos ->
  tq1_pos i = pos -> tq1_digit i = n -> 0 <= i < zlen out ->
  exists out',
    (let* b := idx qs m in
     let* v := tq1_decode b n in
     let* t := trit_of v in
     upd out i t) = Ok out' /\ wrote (interval i (i + 1)) (tq1_trit block) out out'.
Proof.
  intros Hn Hm Hb Hp Hd Hi. rewrite idx_bget by done. cbn [bind].
  pose proof (tq1_decode_total (bget qs m) n Hn) as Ht.
  destruct (tq1_decode (E := FormatError) (bget qs m) n) as [v| | |]; try discriminate.
  cbn [bind] in Ht |- *. rewrite Ht. cbn [bind]. rewrite upd_Ok by done.
  eexists. split; [done|].
  replace (tq1_trit_of (bget qs m) n) with (tq1_trit block i)
    by (unfold tq1_trit; by rewrite Hp, Hd, Hb).
  by apply wrote_upd.
Qed.

Lemma unpack_tq1_spec block buf :
  zlen block = TQ1_0_BLOCK_BYTES -> zlen buf = QK_K ->
  unpack_tq1_0_block block buf = Ok (tabulate 256 (tq1_trit block), from_le (sub block 52 54)).
Proof.
  unfold QK_K. intros Hb Ht. change TQ1_0_BLOCK_BYTES with 54 in *.
  unfold unpack_tq1_0_block. rewrite Hb, Ht. cbn [negb Z.eqb Pos.eqb].
  change TQ1_QS_BYTES with 48. change TQ1_QH_BYTES with 4.
  rewrite !slice_Ok by lia. cbn [bind].
  assert (Hqs : forall j, 0 <= j < 48 -> bget (sub block 0 48) j = bget block j)
    by (intros j Hj; unfold bget; by rewrite lookup_sub by lia).
  assert (Hqh : forall j, 0 <= j < 4 -> bget (sub block 48 (48 + 4)) j = bget block (48 + j))
    by (intros j Hj; unfold bget; by rewrite lookup_sub by lia).
  wrote_loop (tq1_trit block) 0 160 32.
  { intros n l1 Hn Hl1. apply (for_range_wrote _ _ _ _ _ _ 1); [lia..|].
    intros m l2 Hm Hl2. 
    destruct (unpack_tq1_cell block (sub block 0 48) m n (n * 32 + m) m l2)
      as (l3 & -> & Hw); [lia|rewrite zlen_sub; lia|apply Hqs; lia| | |lia|].
    - unfold tq1_pos. replace (_ <? 160) with true by lia.
      replace (n * 32 + m) with (32 * n + m) by lia. by apply div_mod_row.
    - unfold tq1_digit. replace (_ <? 160) with true by lia.
      replace (n * 32 + m) with (32 * n + m) by lia. by apply div_mod_row.
    - exists l3. split; [done|]. eapply wrote_ext; [done|]. intros j _. unfold interval. lia. }
  destruct Hw as [Hlen Hw].
  wrote_loop (tq1_trit block) 160 240 16.
  { intros n l1 Hn Hl1. apply (for_range_wrote _ _ _ _ _ _ 1); [lia..|].
    intros m l2 Hm Hl2.
    destruct (unpack_tq1_cell block (sub block 0 48) (32 + m) n (160 + n * 16 + m) (32 + m) l2)
      as (l3 & -> & Hw3); [lia|rewrite zlen_sub; lia|apply Hqs; lia| | |lia|].
    - unfold tq1_pos. replace (_ <? 160) with false by lia. replace (_ <? 240) with true by lia.
      replace (160 + n * 16 + m - 160) with (16 * n + m) by lia. f_equal. by apply div_mod_row.
    - unfold tq1_digit. replace (_ <? 160) with false by lia. replace (_ <? 240) with true by lia.
      replace (160 + n * 16 + m - 160) with (16 * n + m) by lia. by apply div_mod_row.
    - exists l3. split; [done|]. eapply wrote_ext; [done|]. intros j _. unfold interval. lia. }
  destruct Hw0 as [Hlen0 Hw0].
  wrote_loop (tq1_trit block) 240 256 4.
  { intros n l1 Hn Hl1. apply (for_range_wrote _ _ _ _ _ _ 1); [lia..|].
    intros m l2 Hm Hl2.
    destruct (unpack_tq1_cell block (sub block 48 (48 + 4)) m n (240 + n * 4 + m) (48 + m) l2)
      as (l3 & -> & Hw3); [lia|rewrite zlen_sub; lia|apply Hqh; lia| | |lia|].
    - unfold tq1_pos. replace (_ <? 160) with false by lia. replace (_ <? 240) with false by lia.
      replace (240 + n * 4 + m - 240) with (4 * n + m) by lia. f_equal. by apply div_mod_row.
    - unfold tq1_digit. replace (_ <? 160) with false by lia. replace (_ <? 240) with false by lia.
      replace (240 + n * 4 + m - 240) with (4 * n + m) by lia. by apply div_mod_row.
    - exists l3. split; [done|]. eapply wrote_ext; [done|]. intros j _. unfold interval. lia. }
  destruct Hw1 as [Hlen1 Hw1].
  rewrite (read_scale_sub block 52) by lia. cbn [bind]. do 2 f_equal.
  apply tabulate_lookup; [lia|lia|]. intros i Hi. rewrite Hw1, Hw0, Hw by lia. unfold interval.
  by repeat case_match; try lia.
Qed.

Lemma zlen_tq1_block trits scale : zlen (tq1_block trits scale) = TQ1_0_BLOCK_BYTES.
Proof. unfold tq1_block. autorewrite with zlen. done. Qed.

Lemma tq1_block_bytes trits scale : bytes_ok (tq1_block trits scale).
Proof.
  apply Forall_app. split; [|apply to_le_bytes]. apply bytes_ok_tabulate.
  intros i Hi. unfold tq1_byte. repeat case_match; apply tq1_encode_u8.
Qed.

Lemma tq1_trit_block trits scale i :
  0 <= i < 256 -> tq1_trit (tq1_block trits scale) i = tget trits i.
Proof.
  intros Hi. unfold tq1_trit, tq1_block.
  rewrite bget_app_l by
    (autorewrite with zlen; unfold tq1_pos; repeat case_match; Z.div_mod_to_equations; lia).
  rewrite bget_tabulate
    by (unfold tq1_pos; repeat case_match; Z.div_mod_to_equations; lia).
  unfold tq1_pos, tq1_digit, tq1_byte, acc5, acc4.
  destruct (Z.ltb_spec i 160); [|destruct (Z.ltb_spec i 240)].
  - set (b := i mod 32). set (d := i / 32).
    assert (Hbd : i = b + d * 32 /\ 0 <= b < 32 /\ 0 <= d < 5)
      by (unfold b, d; Z.div_mod_to_equations; lia).
    destruct Hbd as (Hid & Hb & Hd). replace (b <? 32) with true by lia.
    edestruct tq1_digits5 as (D0 & D1 & D2 & D3 & D4).
    assert (d = 0 \/ d = 1 \/ d = 2 \/ d = 3 \/ d = 4) as [E | [E | [E | [E | E]]]] by lia;
      rewrite E; [rewrite D0|rewrite D1|rewrite D2|rewrite D3|rewrite D4]; f_equal; lia.
  - set (b := (i - 160) mod 16). set (d := (i - 160) / 16).
    assert (Hbd : i = 160 + b + d * 16 /\ 0 <= b < 16 /\ 0 <= d < 5)
      by (unfold b, d; Z.div_mod_to_equations; lia).
    destruct Hbd as (Hid & Hb & Hd). replace (32 + b <? 32) with false by lia.
    replace (32 + b <? 48) with true by lia.
    edestruct tq1_digits5 as (D0 & D1 & D2 & D3 & D4).
    assert (d = 0 \/ d = 1 \/ d = 2 \/ d = 3 \/ d = 4) as [E | [E | [E | [E | E]]]] by lia;
      rewrite E; [rewrite D0|rewrite D1|rewrite D2|rewrite D3|rewrite D4]; f_equal; lia.
  - set (b := (i - 240) mod 4). set (d := (i - 240) / 4).
    assert (Hbd : i = 240 + b + d * 4 /\ 0 <= b < 4 /\ 0 <= d < 4)
      by (unfold b, d; Z.div_mod_to_equations; lia).
    destruct Hbd as (Hid & Hb & Hd). replace (48 + b <? 32) with false by lia.
    replace (48 + b <? 48) with false by lia.
    edestruct tq1_digits4 as (D0 & D1 & D2 & D3).
    assert (d = 0 \/ d = 1 \/ d = 2 \/ d = 3) as [E | [E | [E | E]]] by lia;
      rewrite E; [rewrite D0|rewrite D1|rewrite D2|rewrite D3]; f_equal; lia.
Qed.

Lemma unpack_tq1_block trits scale buf :
  zlen trits = QK_K -> zlen buf = QK_K -> is_u16 scale ->
  unpack_tq1_0_block (tq1_block trits scale) buf = Ok (trits, scale).
Proof.
  intros Ht Hbuf Hs. rewrite unpack_tq1_spec by (done || apply zlen_tq1_block).
  do 2 f_equal.
  - rewrite <- (tabulate_tget trits 256) at 2 by done. apply tabulate_ext. intros i Hi.
    by apply tq1_trit_block.
  - unfold tq1_block.
    assert (H52 : zlen (tabulate 52 (tq1_byte trits)) = 52) by zlia.
    rewrite <- H52 at 1. rewrite sub_app_r by (autorewrite with zlen; lia).
    apply from_to_le. unfold is_u16 in Hs. lia.
Qed.

(** * Properties *)

(** Decoding a TQ1_0 block is total: every 54-byte block, whatever its
    contents, decodes without error to 256 trits and the scale of its last two
    bytes, because the base-3 digit extraction cannot leave [-1, 1]. *)
Theorem tq1_unpack_total block buf :
  zlen block = TQ1_0_BLOCK_BYTES -> zlen buf = QK_K ->
  exists trits, zlen trits = QK_K /\
    unpack_tq1_0_block block buf = Ok (trits, from_le (sub block 52 54)).
Proof.
  intros Hb Hbuf. eexists. split; [|by apply unpack_tq1_spec]. by autorewrite with zlen.
Qed.

Lemma tq1_unpack_total_witness :
  exists trits, zlen trits = QK_K /\
    unpack_tq1_0_block (vec 0xff 54) (vec ZERO 256) = Ok (trits, 0xffff).
Proof. apply (tq1_unpack_total (vec 0xff 54) (vec ZERO 256)); reflexivity. Defined.
