(* ===== verification/Q2.v ===== *)
(** * Q2_0 blocks: scale first, then 64 two-bit codes (crates/tritium-format/src/q2_0.rs) *)

From S2P Require Import Prelude Core FormatBase TwoBit.
From Stdlib Require Import ZArith Lia Bool.
From stdpp Require Import base list numbers.

#[local] Open Scope Z_scope.

Definition Q2_0_GROUP_SIZE : Z := 64.
Definition Q2_0_BLOCK_BYTES : Z := 2 + Q2_0_GROUP_SIZE / 4.

Definition q2_0_num_blocks (k : Z) : Z := div_ceil k Q2_0_GROUP_SIZE.

(** The loop zips the quant bytes with the 4-trit chunks of [trits]. *)
Definition pack_q2_0_block (trits : list Trit) (scale : Z) (out : list Z)
  : res FormatError (list Z) :=
  if negb (zlen trits =? Q2_0_GROUP_SIZE)
  then Err (WrongTritCount Q2_0_GROUP_SIZE (zlen trits)) else
  if negb (zlen out =? Q2_0_BLOCK_BYTES)
  then Err (WrongBlockLen Q2_0_BLOCK_BYTES (zlen out)) else
  let* out := write_slice out 0 (to_le 2 scale) in
  for_range 0 (Z.min (zlen out - 2) (zlen trits / 4)) (fun j out =>
    let* q := for_range 0 4 (fun slot q =>
      let* trit := idx trits (4 * j + slot) in
      let code := get trit + 1 in
      Ok (Z.lor q (shl8 code (2 * slot)))) 0 in
    upd out (2 + j) q) out.

Definition unpack_q2_0_block (block : list Z) (trits_out : list Trit)
  : res FormatError (list Trit * Z) :=
  if negb (zlen block =? Q2_0_BLOCK_BYTES)
  then Err (WrongBlockLen Q2_0_BLOCK_BYTES (zlen block)) else
  if negb (zlen trits_out =? Q2_0_GROUP_SIZE)
  then Err (WrongTritCount Q2_0_GROUP_SIZE (zlen trits_out)) else
  let* qs := slice block 2 (zlen block) in
  let* trits_out := for_range 0 (Z.min (zlen qs) (zlen trits_out / 4)) (fun j out =>
    let* byte := idx qs j in
    for_range 0 4 (fun slot out =>
      let q := Z.land (Z.shiftr byte (2 * slot)) 3 in
      let* t := trit_of (q - 1) in
      upd out (4 * j + slot) t) out) trits_out in
  let* lo := idx block 0 in
  let* hi := idx block 1 in
  Ok (trits_out, from_le [lo; hi]).

(** * Layout *)
Definition q2_byte (trits : list Trit) (j : Z) : Z :=
  quad (tget trits (4 * j)) (tget trits (4 * j + 1)) (tget trits (4 * j + 2)) (tget trits (4 * j + 3)).

Definition q2_block (trits : list Trit) (scale : Z) : list Z :=
  to_le 2 scale ++ tabulate 16 (q2_byte trits).

Definition q2_pair (block : list Z) (i : Z) : Z := pair2 (bget block (2 + i / 4)) (i mod 4).
Definition q2_code_ok (block : list Z) (i : Z) : bool := negb (q2_pair block i =? 3).
Definition q2_valid (block : list Z) : bool := forallb (q2_code_ok block) (seqZ 0 64).
Definition q2_trit (block : list Z) (i : Z) : Trit := trit_of_code (q2_pair block i).

Lemma pack_q2_quad trits j :
  zlen trits = 64 -> 0 <= j < 16 ->
  for_range (E := FormatError) 0 4 (fun slot q =>
    let* trit := idx trits (4 * j + slot) in
    let code := get trit + 1 in
    Ok (Z.lor q (shl8 code (2 * slot)))) 0 = Ok (q2_byte trits j).
Proof.
  intros Hl Hj. unroll_loop. rewrite !idx_tget by lia. cbn [bind]. unfold q2_byte.
  rewrite Z.add_0_r. f_equal.
  destruct (tget trits (4 * j)), (tget trits (4 * j + 1)),
    (tget trits (4 * j + 2)), (tget trits (4 * j + 3)); reflexivity.
Qed.

Lemma pack_q2_spec trits scale out :
  zlen trits = Q2_0_GROUP_SIZE -> zlen out = Q2_0_BLOCK_BYTES ->
  pack_q2_0_block trits scale out = Ok (q2_block trits scale).
Proof.
  intros Ht Ho. change Q2_0_BLOCK_BYTES with 18 in *. unfold Q2_0_GROUP_SIZE in *.
  unfold pack_q2_0_block. change Q2_0_BLOCK_BYTES with 18. unfold Q2_0_GROUP_SIZE.
  rewrite Ht, Ho. cbn [negb Z.eqb Pos.eqb].
  rewrite write_slice_Ok by (autorewrite with zlen; lia). cbn [bind].
  assert (Hs : zlen (splice out 0 (to_le 2 scale)) = 18)
    by (rewrite zlen_splice; autorewrite with zlen; lia).
  rewrite Hs. change (Z.min (18 - 2) (64 / 4)) with 16.
  match goal with |- for_range 0 16 ?body ?l = _ =>
    destruct (for_range_wrote_1 (fun i => q2_byte trits (i - 2)) body 0 16 2 18 l)
      as (l' & -> & Hlen & Hw); [lia|lia|lia|lia| |] end.
  { intros j l1 Hj Hl1. rewrite pack_q2_quad by lia. cbn [bind]. f_equal; [lia|].
    f_equal. lia. }
  f_equal. apply list_eq_Z; [unfold q2_block; autorewrite with zlen; lia|].
  rewrite Hlen, Hs. intros i Hi. rewrite Hw by lia. unfold interval, q2_block.
  destruct (Z.leb_spec 2 i).
  - replace (i <? 18) with true by lia. cbn [andb].
    rewrite lookup_app_r by (rewrite length_to_le; lia). rewrite length_to_le.
    replace (Z.to_nat i - 2)%nat with (Z.to_nat (i - 2)) by lia.
    by rewrite lookup_tabulate by lia.
  - cbn [andb]. rewrite lookup_splice by (autorewrite with zlen; lia).
    rewrite zlen_to_le2. replace ((0 <=? i) && (i <? 0 + 2)) with true by lia.
    rewrite lookup_app_l by (rewrite length_to_le; lia). f_equal. lia.
Qed.

Lemma unpack_q2_cell block j slot out :
  zlen block = 18 -> 0 <= j < 16 -> 0 <= slot < 4 ->
  (let q := Z.land (Z.shiftr (bget (sub block 2 18) j) (2 * slot)) 3 in
   let* t := trit_of (q - 1) in upd out (4 * j + slot) t) =
  if q2_code_ok block (j * 4 + slot)
  then upd out (4 * j + (slot - 0)) (q2_trit block (4 * j + (slot - 0)))
  else Err (DecodedOutOfRange 2).
Proof.
  intros Hb Hj Hs. rewrite Z.sub_0_r. unfold q2_trit, q2_code_ok, q2_pair.
  replace (j * 4) with (4 * j) by lia. destruct (div_mod_row 4 j slot) as [-> ->]; [lia|lia|].
  replace (bget (sub block 2 18) j) with (bget block (2 + j))
    by (unfold bget; by rewrite lookup_sub by lia).
  change (Z.land (Z.shiftr (bget block (2 + j)) (2 * slot)) 3) with (pair2 (bget block (2 + j)) slot).
  cbv zeta. rewrite trit_of_pair by apply pair2_range. by destruct (_ =? 3).
Qed.

Lemma unpack_q2_spec block buf :
  zlen block = Q2_0_BLOCK_BYTES -> zlen buf = Q2_0_GROUP_SIZE ->
  unpack_q2_0_block block buf =
    if q2_valid block then Ok (tabulate 64 (q2_trit block), from_le (sub block 0 2))
    else Err (DecodedOutOfRange 2).
Proof.
  intros Hb Ht. change Q2_0_BLOCK_BYTES with 18 in *. unfold Q2_0_GROUP_SIZE in *.
  unfold unpack_q2_0_block. change Q2_0_BLOCK_BYTES with 18. unfold Q2_0_GROUP_SIZE.
  rewrite Hb, Ht. cbn [negb Z.eqb Pos.eqb]. rewrite slice_Ok by lia. cbn [bind].
  rewrite zlen_sub by lia. change (Z.min (18 - 2) (64 / 4)) with 16.
  destruct (idx_in (E := FormatError) block 0) as (x & -> & Hx); [lia|].
  destruct (idx_in (E := FormatError) block 1) as (y & -> & Hy); [lia|].
  match goal with |- context [for_range 0 16 ?body ?l] =>
    pose proof (for_range_wrote_err (q2_trit block)
      (fun j => forallb (fun s => q2_code_ok block (j * 4 + s)) (seqZ 0 4))
      (DecodedOutOfRange 2) body 0 16 0 64 4 l ltac:(lia) ltac:(lia) ltac:(lia)) as H
  end.
  discharge H.
  { intros j l1 Hj Hl1. rewrite idx_bget by (rewrite zlen_sub; lia). cbn [bind].
    apply (for_range_wrote_err_1 _ (fun s => q2_code_ok block (j * 4 + s)) _ _ 0 4);
      [lia|lia|lia|lia|].
    intros s l2 Hs Hl2. rewrite unpack_q2_cell by lia.
    by replace (0 + (j - 0) * 4 + (s - 0)) with (4 * j + (s - 0)) by lia. }
  change (seqZ 0 (16 - 0)) with (seqZ 0 16) in H.
  rewrite (forallb_seqZ_rows (q2_code_ok block) 16 4) in H by lia.
  change (16 * 4) with 64 in H. fold (q2_valid block) in H.
  destruct (q2_valid block); [|by rewrite H].
  destruct H as (l & -> & Hw). cbn [bind]. rewrite <- (sub_2 block 0 x y) by done.
  do 2 f_equal. eapply wrote_full; [done|done|]. intros i Hi. unfold interval. lia.
Qed.

Lemma zlen_q2_block trits scale : zlen (q2_block trits scale) = Q2_0_BLOCK_BYTES.
Proof. unfold q2_block. autorewrite with zlen. done. Qed.

Lemma q2_pair_block trits scale i :
  0 <= i < 64 -> q2_pair (q2_block trits scale) i = code (tget trits i).
Proof.
  intros Hi. unfold q2_pair, q2_block.
  assert (Hq : 0 <= i / 4 < 16 /\ 0 <= i mod 4 < 4 /\ i = 4 * (i / 4) + i mod 4)
    by (Z.div_mod_to_equations; lia).
  set (b := i / 4) in *. set (s := i mod 4) in *. destruct Hq as (Hb & Hs & Hid).
  replace (bget _ (2 + b)) with (q2_byte trits b).
  2:{ unfold bget. rewrite lookup_app_r by (rewrite length_to_le; lia). rewrite length_to_le.
      replace (Z.to_nat (2 + b) - 2)%nat with (Z.to_nat b) by lia.
      by rewrite lookup_tabulate by lia. }
  unfold q2_byte. edestruct pair2_quad as (D0 & D1 & D2 & D3).
  assert (s = 0 \/ s = 1 \/ s = 2 \/ s = 3) as [E | [E | [E | E]]] by lia;
    rewrite E; [rewrite D0|rewrite D1|rewrite D2|rewrite D3]; do 2 f_equal; lia.
Qed.

Lemma unpack_q2_block trits scale buf :
  zlen trits = Q2_0_GROUP_SIZE -> zlen buf = Q2_0_GROUP_SIZE -> is_u16 scale ->
  unpack_q2_0_block (q2_block trits scale) buf = Ok (trits, scale).
Proof.
  intros Ht Hbuf Hs. rewrite unpack_q2_spec by (done || apply zlen_q2_block).
  replace (q2_valid _) with true.
  2:{ symmetry. apply forallb_seqZ. intros i Hi. unfold q2_code_ok.
      rewrite q2_pair_block by lia. by destruct (tget trits i). }
  do 2 f_equal.
  - rewrite <- (tabulate_tget trits 64) at 2 by done. apply tabulate_ext. intros i Hi.
    unfold q2_trit. rewrite q2_pair_block by lia. apply trit_of_code_code.
  - unfold q2_block. change 2 with (zlen (to_le 2 scale)) at 1.
    rewrite sub_app_l. apply from_to_le. unfold is_u16 in Hs. lia.
Qed.

Lemma q2_block_canonical block :
  zlen block = Q2_0_BLOCK_BYTES -> bytes_ok block -> q2_valid block = true ->
  q2_block (tabulate 64 (q2_trit block)) (from_le (sub block 0 2)) = block.
Proof.
  intros Hb Hu Hv. change Q2_0_BLOCK_BYTES with 18 in *. unfold q2_block.
  assert (Hsplit : block = sub block 0 2 ++ sub block 2 18).
  { unfold sub. rewrite drop_0, (take_ge (drop _ _)) by (rewrite length_drop; unfold zlen in *; lia).
    by rewrite take_drop. }
  assert (H2 : length (sub block 0 2) = 2%nat)
    by (pose proof (zlen_sub block 0 2); unfold zlen in *; lia).
  rewrite Hsplit at 3. f_equal.
  - rewrite <- H2 at 1. apply to_from_le. by apply bytes_ok_sub.
  - symmetry. apply tabulate_lookup; [lia|rewrite zlen_sub; lia|].
    intros j Hj. rewrite lookup_sub by lia.
    destruct (lookup_Z block (2 + j)) as [b Hbj]; [lia|]. rewrite Hbj. f_equal.
    assert (Hb8 : is_u8 b) by (by eapply Forall_lookup_Z).
    unfold q2_valid in Hv. rewrite forallb_seqZ in Hv.
    assert (Hp : forall s i, 0 <= s < 4 -> i = 4 * j + s ->
      tget (tabulate 64 (q2_trit block)) i = trit_of_code (pair2 b s) /\ pair2 b s <> 3).
    { intros s i Hs ->. specialize (Hv (4 * j + s) ltac:(lia)). unfold q2_code_ok in Hv.
      unfold tget. rewrite lookup_tabulate by lia. simpl. unfold q2_trit.
      assert (Hpair : q2_pair block (4 * j + s) = pair2 b s).
      { unfold q2_pair. destruct (div_mod_row 4 j s) as [-> ->]; [lia|lia|].
        unfold bget. by rewrite Hbj. }
      rewrite Hpair in *. split; [done|lia]. }
    unfold q2_byte.
    destruct (Hp 0 (4 * j)) as [-> N0]; [lia|lia|]. destruct (Hp 1 (4 * j + 1)) as [-> N1]; [lia|lia|].
    destruct (Hp 2 (4 * j + 2)) as [-> N2]; [lia|lia|].
    destruct (Hp 3 (4 * j + 3)) as [-> N3]; [lia|lia|]. symmetry. by apply quad_of_pairs.
Qed.
