(* ===== verification/Rows.v ===== *)
(** * Rows of blocks (crates/tritium-format/src/rows.rs and the row half of q2_0.rs)

    A row of [K] trits is packed block by block, the last block padded with
    zero trits. The three row codecs of the source have one body each, differing
    only in the block functions they call; the bodies are written once here over
    a [BlockCodec], the promise a block format makes to its row wrapper, and
    instantiated at TQ2_0, TQ1_0 and Q2_0. *)

From S2P Require Import Prelude Core FormatBase TwoBit TQ2 TQ1 Q2.
From Stdlib Require Import ZArith Lia Bool.
From stdpp Require Import base list numbers.

#[local] Open Scope Z_scope.

Definition num_blocks (k : Z) : Z := div_ceil k QK_K.

(** A block format: its two functions, the pure encoder they implement, and the
    laws the row wrappers rely on. *)
Class BlockCodec := {
  bc_elems : Z;
  bc_bytes : Z;
  bc_pack : list Trit -> Z -> list Z -> res FormatError (list Z);
  bc_unpack : list Z -> list Trit -> res FormatError (list Trit * Z);
  bc_enc : list Trit -> Z -> list Z;
  bc_sizes : 0 < bc_bytes <= bc_elems /\ bc_elems <= 256;
  bc_pack_enc : forall trits scale out,
    zlen trits = bc_elems -> zlen out = bc_bytes -> bc_pack trits scale out = Ok (bc_enc trits scale);
  bc_enc_len : forall trits scale, zlen (bc_enc trits scale) = bc_bytes;
  bc_unpack_enc : forall trits scale buf,
    zlen trits = bc_elems -> zlen buf = bc_elems -> is_u16 scale ->
    bc_unpack (bc_enc trits scale) buf = Ok (trits, scale);
  bc_unpack_safe : forall block buf,
    zlen block = bc_bytes -> zlen buf = bc_elems -> returns (bc_unpack block buf);
  bc_unpack_len : forall block buf trits scale,
    zlen block = bc_bytes -> zlen buf = bc_elems ->
    bc_unpack block buf = Ok (trits, scale) -> zlen trits = bc_elems
}.

(** A format in which every accepted block is the encoding of what it decodes to. *)
Class CanonicalCodec (C : BlockCodec) := {
  bc_canonical : forall block buf trits scale,
    zlen block = bc_bytes -> zlen buf = bc_elems -> bytes_ok block ->
    bc_unpack block buf = Ok (trits, scale) -> bc_enc trits scale = block /\ is_u16 scale
}.

Section rows.
Context (C : BlockCodec).

Definition check_row (k : Z) (scales : list Z) (out_len : Z) : res FormatError Z :=
  let nb := div_ceil k bc_elems in
  if negb (zlen scales =? nb) then Err (WrongBlockLen nb (zlen scales)) else
  let* expected := mul_usize nb bc_bytes in
  if negb (out_len =? expected) then Err (WrongBlockLen expected out_len) else
  Ok nb.

(** The scratch block and the output after block [i] of a pack. *)
Definition pack_row_step (trits : list Trit) (i : Z) (scale : Z) (st : list Trit * list Z)
  : res FormatError (list Trit * list Z) :=
  let '(block, out) := st in
  let k := zlen trits in
  let start := i * bc_elems in
  let end_ := Z.min (start + bc_elems) k in
  let* n := sub_usize end_ start in
  let* src := slice trits start end_ in
  let* block := write_slice block 0 src in
  let* block := write_slice block n (vec ZERO (bc_elems - n)) in
  let bo := i * bc_bytes in
  let* cell := slice out bo (bo + bc_bytes) in
  let* cell := bc_pack block scale cell in
  let* out := write_slice out bo cell in
  Ok (block, out).

Definition pack_row (trits : list Trit) (scales out : list Z) : res FormatError (list Z) :=
  let k := zlen trits in
  let* _ := check_row k scales (zlen out) in
  let* st := for_enum 0 scales (pack_row_step trits) (vec ZERO bc_elems, out) in
  Ok (snd st).

Definition unpack_row_step (packed : list Z) (k : Z) (i : Z)
    (st : list Trit * list Trit * list Z) : res FormatError (list Trit * list Trit * list Z) :=
  let '(block, trits_out, scales_out) := st in
  let bo := i * bc_bytes in
  let* cell := slice packed bo (bo + bc_bytes) in
  let* (block, scale) := bc_unpack cell block in
  let* scales_out := upd scales_out i scale in
  let start := i * bc_elems in
  let end_ := Z.min (start + bc_elems) k in
  let* n := sub_usize end_ start in
  let* src := slice block 0 n in
  let* trits_out := write_slice trits_out start src in
  Ok (block, trits_out, scales_out).

Definition unpack_row (packed : list Z) (trits_out : list Trit) (scales_out : list Z)
  : res FormatError (list Trit * list Z) :=
  let k := zlen trits_out in
  let* _ := check_row k scales_out (zlen packed) in
  let* st := for_range 0 (zlen scales_out) (unpack_row_step packed k)
    (vec ZERO bc_elems, trits_out, scales_out) in
  let '(_, trits_out, scales_out) := st in
  Ok (trits_out, scales_out).

(** * The packed form of a row *)

(** Block [i] of a row: its trits, with zeros past the end. *)
Definition row_block (trits : list Trit) (i : Z) : list Trit :=
  tabulate bc_elems (fun j => tget trits (i * bc_elems + j)).

(** The concatenated encodings of the blocks. *)
Definition enc_row (trits : list Trit) (scales : list Z) : list Z :=
  blocks (zlen scales) (fun i => bc_enc (row_block trits i) (bget scales i)).

Lemma zlen_row_block trits i : zlen (row_block trits i) = bc_elems.
Proof. unfold row_block. autorewrite with zlen. pose proof bc_sizes. lia. Qed.

Lemma zlen_enc_row trits scales : zlen (enc_row trits scales) = zlen scales * bc_bytes.
Proof. apply zlen_blocks; [auto with rust|]. intros i Hi. apply bc_enc_len. Qed.

Lemma check_row_Ok k scales len :
  0 <= k <= isize_max -> zlen scales = div_ceil k bc_elems -> len = zlen scales * bc_bytes ->
  check_row k scales len = Ok (zlen scales).
Proof.
  intros Hk Hs ->. unfold check_row. rewrite <- Hs, Z.eqb_refl. cbn [negb].
  destruct (@bc_sizes C) as [Hb He]. pose proof (div_ceil_bounds k (@bc_elems C) ltac:(lia)) as Hd.
  rewrite <- Hs in Hd. pose proof (zlen_nonneg scales).
  assert (zlen scales * bc_bytes <= k + bc_elems) by nia.
  unfold mul_usize, checked_mul, usize_max. unfold isize_max in *.
  replace (_ <=? _) with true by lia. cbn [bind unwrap]. by rewrite Z.eqb_refl.
Qed.

(** Row, block and cell indices of a row of [k] trits. *)
Lemma row_bounds k i nb :
  0 <= k -> nb = div_ceil k bc_elems -> 0 <= i < nb ->
  0 <= i * bc_elems < k /\ i * bc_elems < Z.min (i * bc_elems + bc_elems) k <= k.
Proof.
  intros Hk -> Hi. destruct (@bc_sizes C) as [Hb He].
  pose proof (div_ceil_bounds k (@bc_elems C) ltac:(lia)) as Hd. nia.
Qed.

Lemma pack_row_step_Ok trits i scale block out nb :
  nb = div_ceil (zlen trits) bc_elems -> 0 <= i < nb ->
  zlen block = bc_elems -> zlen out = nb * bc_bytes ->
  pack_row_step trits i scale (block, out) =
    Ok (row_block trits i, splice out (i * bc_bytes) (bc_enc (row_block trits i) scale)).
Proof.
  intros Hnb Hi Hblk Hout. destruct (@bc_sizes C) as [Hb He].
  destruct (row_bounds (zlen trits) i nb) as [H0 H1]; [auto with rust|done|done|].
  unfold pack_row_step. set (e := Z.min (i * bc_elems + bc_elems) (zlen trits)) in *.
  unfold sub_usize, checked_sub. replace (i * bc_elems <=? e) with true by lia. cbn [bind unwrap].
  rewrite slice_Ok by lia. cbn [bind].
  assert (Hsrc : zlen (sub trits (i * bc_elems) e) = e - i * bc_elems) by (rewrite zlen_sub; lia).
  rewrite write_slice_Ok by lia. cbn [bind].
  rewrite write_slice_Ok by (rewrite ?zlen_splice; autorewrite with zlen; lia). cbn [bind].
  match goal with |- context [bc_pack ?b scale] => assert (Hbl : b = row_block trits i) end.
  { apply list_eq_Z; [rewrite zlen_row_block, !zlen_splice; autorewrite with zlen;
      rewrite ?zlen_splice; lia|].
    rewrite !zlen_splice; autorewrite with zlen; rewrite ?zlen_splice; try lia.
    intros j Hj. unfold row_block. rewrite lookup_tabulate by lia.
    rewrite lookup_splice by (rewrite ?zlen_splice; autorewrite with zlen; lia).
    autorewrite with zlen. rewrite Hblk in Hj. unfold tget.
    destruct (Z.leb_spec (e - i * bc_elems) j).
    - replace (j <? _) with true by lia. cbn [andb]. rewrite lookup_vec by lia.
      rewrite lookup_ge_None_2; [done|]. unfold zlen in *. lia.
    - cbn [andb]. rewrite lookup_splice by lia. rewrite Hsrc.
      replace ((0 <=? j) && (j <? 0 + (e - i * bc_elems))) with true by lia.
      rewrite lookup_sub by lia. rewrite Z.sub_0_r.
      by destruct (lookup_Z trits (i * bc_elems + j)) as [t ->]; [lia|]. }
  rewrite Hbl. rewrite slice_Ok by nia. cbn [bind].
  rewrite bc_pack_enc by (rewrite ?zlen_row_block, ?zlen_sub; nia). cbn [bind].
  rewrite write_slice_Ok by (rewrite ?bc_enc_len; nia). done.
Qed.

Lemma pack_row_Ok trits scales out :
  zlen trits <= isize_max -> zlen scales = div_ceil (zlen trits) bc_elems ->
  zlen out = zlen scales * bc_bytes ->
  pack_row trits scales out = Ok (enc_row trits scales).
Proof.
  intros Hk Hs Ho. destruct (@bc_sizes C) as [Hb He]. unfold pack_row.
  rewrite check_row_Ok by (auto using zlen_nonneg). cbn [bind].
  set (enc := fun i => bc_enc (row_block trits i) (bget scales i)).
  destruct (for_enum_inv
    (fun i st => zlen (fst st) = bc_elems /\ zlen (snd st) = zlen scales * bc_bytes /\
       forall r, 0 <= r < i -> sub (snd st) (r * bc_bytes) ((r + 1) * bc_bytes) = enc r)
    (pack_row_step trits) scales 0 (vec ZERO bc_elems, out)) as ([blk o] & -> & _ & Ho' & Henc).
  - simpl. split; [autorewrite with zlen; lia|]. split; [done|]. intros r Hr. lia.
  - intros i s [blk o] Hi Hsi (Hblk & Ho' & Henc). simpl in Hblk, Ho', Henc.
    rewrite Z.sub_0_r in Hsi. pose proof (lookup_Z_lt scales i s Hi Hsi) as Hlt.
    rewrite (pack_row_step_Ok trits i s blk o (zlen scales)) by (done || lia).
    eexists. split; [done|]. simpl.
    split; [apply zlen_row_block|]. split; [rewrite zlen_splice; rewrite ?bc_enc_len; nia|].
    intros r Hr. assert (Hlen : zlen (bc_enc (row_block trits i) s) = bc_bytes) by apply bc_enc_len.
    destruct (Z.eqb_spec r i) as [->|Hne].
    + rewrite sub_splice_same by nia. unfold enc, bget. by rewrite Hsi.
    + rewrite sub_splice_before by nia. apply Henc. lia.
  - cbn [bind snd]. f_equal. rewrite Z.add_0_l in Henc.
    apply (blocks_eq o (zlen scales) bc_bytes enc); [auto with rust|lia|done|done].
Qed.

(** One step of an unpack whose block decodes. *)
Lemma unpack_row_step_Ok packed k i block trits scales nb blk scale :
  0 <= k -> nb = div_ceil k bc_elems -> 0 <= i < nb ->
  zlen packed = nb * bc_bytes -> zlen trits = k -> zlen scales = nb -> zlen blk = bc_elems ->
  bc_unpack (sub packed (i * bc_bytes) ((i + 1) * bc_bytes)) block = Ok (blk, scale) ->
  unpack_row_step packed k i (block, trits, scales) =
    Ok (blk, splice trits (i * bc_elems)
               (sub blk 0 (Z.min (i * bc_elems + bc_elems) k - i * bc_elems)),
        <[Z.to_nat i := scale]> scales).
Proof.
  intros Hk Hnb Hi Hp Ht Hs Hblk Hun. destruct (@bc_sizes C) as [Hb He].
  destruct (row_bounds k i nb) as [H0 H1]; [done..|].
  unfold unpack_row_step. rewrite slice_Ok by nia. cbn [bind].
  replace (i * bc_bytes + bc_bytes) with ((i + 1) * bc_bytes) by lia.
  rewrite Hun. cbn [bind]. rewrite upd_Ok by lia. cbn [bind].
  set (e := Z.min (i * bc_elems + bc_elems) k) in *.
  unfold sub_usize, checked_sub. replace (i * bc_elems <=? e) with true by lia. cbn [bind unwrap].
  rewrite slice_Ok by lia. cbn [bind].
  rewrite write_slice_Ok by (rewrite ?zlen_sub; lia). done.
Qed.

Lemma unpack_row_Ok trits scales tbuf sbuf :
  zlen trits <= isize_max -> zlen scales = div_ceil (zlen trits) bc_elems ->
  Forall is_u16 scales -> zlen tbuf = zlen trits -> zlen sbuf = zlen scales ->
  unpack_row (enc_row trits scales) tbuf sbuf = Ok (trits, scales).
Proof.
  intros Hk Hs Hu Ht Hsb. destruct (@bc_sizes C) as [Hb He]. unfold unpack_row.
  pose proof (zlen_nonneg trits) as Hk0.
  rewrite check_row_Ok by (rewrite ?Ht, ?Hsb, ?zlen_enc_row; lia). cbn [bind]. rewrite Ht.
  destruct (for_range_inv
    (fun i st => let '(blk, t, s) := st in
       zlen blk = bc_elems /\ zlen t = zlen trits /\ zlen s = zlen scales /\
       (forall j, 0 <= j < i * bc_elems -> j < zlen trits -> tget t j = tget trits j) /\
       forall r, 0 <= r < i -> bget s r = bget scales r)
    (unpack_row_step (enc_row trits scales) (zlen trits)) 0 (zlen sbuf)
    (vec ZERO bc_elems, tbuf, sbuf)) as ([[blk t] s] & Hl & Hblk & Htl & Hsl & Htr & Hsr).
  - auto with rust.
  - split; [autorewrite with zlen; lia|]. split; [done|]. split; [done|].
    split; intros; lia.
  - intros i [[blk t] s] Hi (Hblk & Htl & Hsl & Htr & Hsr).
    destruct (row_bounds (zlen trits) i (zlen scales)) as [H0 H1]; [done|done|lia|].
    rewrite (unpack_row_step_Ok _ _ i blk t s (zlen scales) (row_block trits i) (bget scales i));
      try done; try lia; [|apply zlen_enc_row|apply zlen_row_block|].
    2:{ unfold enc_row. rewrite sub_blocks by (lia || (intros; apply bc_enc_len)).
        apply bc_unpack_enc; [apply zlen_row_block|done|].
        unfold bget. destruct (lookup_Z scales i ltac:(lia)) as [x Hx]. rewrite Hx. simpl.
        by eapply Forall_lookup_Z. }
    eexists. split; [done|].
    set (n := Z.min (i * bc_elems + bc_elems) (zlen trits) - i * bc_elems) in *.
    assert (Hn : 0 < n <= bc_elems /\ i * bc_elems + n <= zlen trits) by lia.
    assert (Hsub : zlen (sub (row_block trits i) 0 n) = n)
      by (rewrite zlen_sub; rewrite ?zlen_row_block; lia).
    split; [apply zlen_row_block|]. split; [rewrite zlen_splice; lia|].
    split; [by rewrite zlen_insert|]. split.
    + intros j Hj Hjk. rewrite tget_splice by lia. rewrite Hsub.
      destruct (Z.leb_spec (i * bc_elems) j).
      * replace (j <? _) with true by lia. cbn [andb]. rewrite tget_sub by lia.
        unfold row_block. rewrite tget_tabulate by lia. f_equal. lia.
      * cbn [andb]. apply Htr; lia.
    + intros r Hr. rewrite bget_upd by lia. destruct (Z.eqb_spec i r) as [->|Hne]; [done|].
      apply Hsr. lia.
  - rewrite Hl. cbn [bind]. do 2 f_equal.
    + apply trits_eq; [done|]. intros j Hj.
      pose proof (div_ceil_bounds (zlen trits) (@bc_elems C) ltac:(lia)). apply Htr; nia.
    + apply bytes_eq; [done|]. intros r Hr. apply Hsr. lia.
Qed.

(** * Unpacking untrusted bytes *)

Lemma check_row_returns k scales len :
  0 <= k <= isize_max -> returns (check_row k scales len).
Proof.
  intros Hk. unfold check_row. destruct (@bc_sizes C) as [Hb He].
  destruct (negb _); [done|].
  pose proof (div_ceil_bounds k (@bc_elems C) ltac:(lia)) as Hd.
  assert (0 <= div_ceil k bc_elems * bc_bytes <= k + bc_elems) by nia.
  unfold mul_usize, checked_mul, usize_max. unfold isize_max in *.
  replace (_ <=? _) with true by lia. cbn [bind unwrap]. by destruct (negb _).
Qed.

Lemma check_row_Ok_inv k scales len nb :
  check_row k scales len = Ok nb ->
  nb = div_ceil k bc_elems /\ zlen scales = nb /\ len = nb * bc_bytes.
Proof.
  unfold check_row. destruct (Z.eqb_spec (zlen scales) (div_ceil k bc_elems)); [|done].
  cbn [negb]. unfold mul_usize, checked_mul. destruct (_ <=? _); cbn [bind unwrap]; [|done].
  destruct (Z.eqb_spec len (div_ceil k bc_elems * bc_bytes)); [|done].
  cbn [negb]. intros [= <-]. done.
Qed.

(** What a row unpack has done to its buffers after [i] blocks. *)
Definition row_decoded (packed : list Z) (i : Z) (ts : list Trit) (ss : list Z) : Prop :=
  forall r, 0 <= r < i -> exists blk buf,
    zlen buf = bc_elems /\
    bc_unpack (sub packed (r * bc_bytes) ((r + 1) * bc_bytes)) buf = Ok (blk, bget ss r) /\
    forall j, 0 <= j < bc_elems -> r * bc_elems + j < zlen ts ->
      tget ts (r * bc_elems + j) = tget blk j.

Lemma unpack_row_inv packed ts ss :
  zlen ts <= isize_max ->
  let nb := div_ceil (zlen ts) bc_elems in
  zlen ss = nb -> zlen packed = nb * bc_bytes ->
  returns (unpack_row packed ts ss) /\
  forall ts' ss', unpack_row packed ts ss = Ok (ts', ss') ->
    zlen ts' = zlen ts /\ zlen ss' = nb /\ row_decoded packed nb ts' ss'.
Proof.
  intros Hk nb Hs Hp. destruct (@bc_sizes C) as [Hb He].
  pose proof (zlen_nonneg ts) as Hk0. unfold unpack_row.
  rewrite check_row_Ok by (rewrite ?Hs; fold nb; lia). cbn [bind].
  set (I := fun i (st : list Trit * list Trit * list Z) => let '(blk, t, s) := st in
       zlen blk = bc_elems /\ zlen t = zlen ts /\ zlen s = nb /\ row_decoded packed i t s).
  assert (Hinit : I 0 (vec ZERO bc_elems, ts, ss)).
  { split; [autorewrite with zlen; lia|]. repeat split; try done. intros r Hr. lia. }
  assert (Hstep : forall i st, 0 <= i < zlen ss -> I i st ->
    returns (unpack_row_step packed (zlen ts) i st) /\
    forall st', unpack_row_step packed (zlen ts) i st = Ok st' -> I (i + 1) st').
  { intros i [[blk t] s] Hi (Hblk & Ht & Hsl & Hd). rewrite Hs in Hi.
    destruct (row_bounds (zlen ts) i nb) as [H0 H1]; [done..|].
    assert (Hcell : zlen (sub packed (i * bc_bytes) ((i + 1) * bc_bytes)) = bc_bytes)
      by (rewrite zlen_sub; nia).
    pose proof (bc_unpack_safe _ blk Hcell Hblk) as Hret.
    destruct (bc_unpack (sub packed (i * bc_bytes) ((i + 1) * bc_bytes)) blk)
      as [[blk' sc]|e| |] eqn:Hun; try done.
    - pose proof (bc_unpack_len _ _ _ _ Hcell Hblk Hun) as Hbl.
      rewrite (unpack_row_step_Ok packed (zlen ts) i blk t s nb blk' sc) by done.
      split; [done|]. intros st' [= <-].
      set (n := Z.min (i * bc_elems + bc_elems) (zlen ts) - i * bc_elems) in *.
      assert (Hn : 0 < n <= bc_elems /\ i * bc_elems + n <= zlen ts) by lia.
      assert (Hsub : zlen (sub blk' 0 n) = n) by (rewrite zlen_sub; lia).
      assert (Hts : zlen (splice t (i * bc_elems) (sub blk' 0 n)) = zlen ts)
        by (rewrite zlen_splice; lia).
      split; [done|]. split; [done|]. split; [by rewrite zlen_insert|].
      intros r Hr. destruct (Z.eqb_spec r i) as [->|Hne].
      + exists blk', blk. split; [done|]. rewrite bget_upd by lia. rewrite Z.eqb_refl.
        split; [done|]. rewrite Hts. intros j Hj Hjk.
        rewrite tget_splice by lia. rewrite Hsub.
        replace ((_ <=? _) && _) with true by lia. rewrite tget_sub by lia. f_equal. lia.
      + destruct (Hd r) as (b & buf & Hbuf & Hub & Hag); [lia|].
        exists b, buf. split; [done|]. rewrite bget_upd by lia.
        replace (i =? r) with false by lia. split; [done|]. rewrite Hts. intros j Hj Hjk.
        rewrite tget_splice by nia. replace ((_ <=? _) && _) with false by nia.
        apply Hag; [done|lia].
    - assert (Hst : unpack_row_step packed (zlen ts) i (blk, t, s) = Err e).
      { unfold unpack_row_step. rewrite slice_Ok by nia. cbn [bind].
        replace (i * bc_bytes + bc_bytes) with ((i + 1) * bc_bytes) by lia. by rewrite Hun. }
      rewrite Hst. split; [done|]. intros st'. done. }
  split.
  - apply returns_bind; [|by intros [[? ?] ?]].
    apply (for_range_returns I); [auto with rust|done|done].
  - intros ts' ss' H. bind_inv H. destruct v as [[blk t] s]. injection H as <- <-.
    pose proof (for_range_Ok_inv I _ 0 (zlen ss) _ _ (zlen_nonneg ss) Hv Hinit) as HI.
    destruct HI as (_ & Ht & Hsl & Hd).
    + intros i st st' Hi HIi Hst. by apply (Hstep i st Hi HIi).
    + rewrite Hs in Hd. done.
Qed.

Lemma unpack_row_returns packed ts ss :
  zlen ts <= isize_max -> returns (unpack_row packed ts ss).
Proof.
  intros Hk. pose proof (zlen_nonneg ts).
  pose proof (check_row_returns (zlen ts) ss (zlen packed) ltac:(lia)) as Hr.
  destruct (check_row (zlen ts) ss (zlen packed)) as [nb|e| |] eqn:Hc; try done.
  - apply check_row_Ok_inv in Hc as (Hnb & Hs & Hp). subst nb.
    by apply unpack_row_inv; [|congruence|congruence].
  - unfold unpack_row. by rewrite Hc.
Qed.

End rows.

(** * The three row formats *)

Lemma tq2_unpack_cases block buf :
  zlen block = TQ2_0_BLOCK_BYTES -> zlen buf = QK_K ->
  returns (unpack_tq2_0_block block buf) /\
  forall trits scale, unpack_tq2_0_block block buf = Ok (trits, scale) ->
    zlen trits = QK_K /\ tq2_valid block = true /\
    trits = tabulate 256 (tq2_trit block) /\ scale = from_le (sub block 64 66).
Proof.
  intros Hb Hbuf. rewrite unpack_tq2_0_block_spec by done. destruct (tq2_valid block); [|done].
  split; [done|]. intros trits scale [= <- <-]. split; [by autorewrite with zlen|done].
Qed.

Lemma q2_unpack_cases block buf :
  zlen block = Q2_0_BLOCK_BYTES -> zlen buf = Q2_0_GROUP_SIZE ->
  returns (unpack_q2_0_block block buf) /\
  forall trits scale, unpack_q2_0_block block buf = Ok (trits, scale) ->
    zlen trits = Q2_0_GROUP_SIZE /\ q2_valid block = true /\
    trits = tabulate 64 (q2_trit block) /\ scale = from_le (sub block 0 2).
Proof.
  intros Hb Hbuf. rewrite unpack_q2_spec by done. destruct (q2_valid block); [|done].
  split; [done|]. intros trits scale [= <- <-]. split; [by autorewrite with zlen|done].
Qed.

#[refine, export] Instance TQ2_codec : BlockCodec := {
  bc_elems := QK_K; bc_bytes := TQ2_0_BLOCK_BYTES;
  bc_pack := pack_tq2_0_block; bc_unpack := unpack_tq2_0_block; bc_enc := tq2_block
}.
Proof.
  - by vm_compute.
  - apply pack_tq2_0_block_spec.
  - apply zlen_tq2_block.
  - apply unpack_tq2_block.
  - intros. by apply tq2_unpack_cases.
  - intros block buf trits scale Hb Hbuf H. by apply (tq2_unpack_cases block buf Hb Hbuf) in H as [? _].
Defined.

#[refine, export] Instance TQ1_codec : BlockCodec := {
  bc_elems := QK_K; bc_bytes := TQ1_0_BLOCK_BYTES;
  bc_pack := pack_tq1_0_block; bc_unpack := unpack_tq1_0_block; bc_enc := tq1_block
}.
Proof.
  - by vm_compute.
  - apply pack_tq1_block.
  - apply zlen_tq1_block.
  - apply unpack_tq1_block.
  - intros. by rewrite unpack_tq1_spec.
  - intros block buf trits scale Hb Hbuf. rewrite unpack_tq1_spec by done.
    intros [= <- _]. by autorewrite with zlen.
Defined.

#[refine, export] Instance Q2_codec : BlockCodec := {
  bc_elems := Q2_0_GROUP_SIZE; bc_bytes := Q2_0_BLOCK_BYTES;
  bc_pack := pack_q2_0_block; bc_unpack := unpack_q2_0_block; bc_enc := q2_block
}.
Proof.
  - by vm_compute.
  - apply pack_q2_spec.
  - apply zlen_q2_block.
  - apply unpack_q2_block.
  - intros. by apply q2_unpack_cases.
  - intros block buf trits scale Hb Hbuf H. by apply (q2_unpack_cases block buf Hb Hbuf) in H as [? _].
Defined.

#[export] Instance TQ2_canonical : CanonicalCodec TQ2_codec.
Proof.
  constructor. intros block buf trits scale Hb Hbuf Hu H.
  apply (tq2_unpack_cases block buf Hb Hbuf) in H as (_ & Hv & -> & ->).
  split; [by apply tq2_block_canonical|]. change TQ2_0_BLOCK_BYTES with 66 in Hb.
  apply (scale_u16 block 64); simpl in *; [lia|simpl in Hb; rewrite Hb; vm_compute; congruence|done].
Qed.

#[export] Instance Q2_canonical : CanonicalCodec Q2_codec.
Proof.
  constructor. intros block buf trits scale Hb Hbuf Hu H.
  apply (q2_unpack_cases block buf Hb Hbuf) in H as (_ & Hv & -> & ->).
  split; [by apply q2_block_canonical|].
  apply (scale_u16 block 0); [lia|simpl in Hb; rewrite Hb; vm_compute; congruence|done].
Qed.

Definition pack_tq2_0_row (trits : list Trit) (scales out : list Z) : res FormatError (list Z) :=
  pack_row TQ2_codec trits scales out.
Definition unpack_tq2_0_row (packed : list Z) (trits_out : list Trit) (scales_out : list Z)
  : res FormatError (list Trit * list Z) :=
  unpack_row TQ2_codec packed trits_out scales_out.
Definition pack_tq1_0_row (trits : list Trit) (scales out : list Z) : res FormatError (list Z) :=
  pack_row TQ1_codec trits scales out.
Definition unpack_tq1_0_row (packed : list Z) (trits_out : list Trit) (scales_out : list Z)
  : res FormatError (list Trit * list Z) :=
  unpack_row TQ1_codec packed trits_out scales_out.
Definition pack_q2_0_row (trits : list Trit) (scales out : list Z) : res FormatError (list Z) :=
  pack_row Q2_codec trits scales out.
Definition unpack_q2_0_row (packed : list Z) (trits_out : list Trit) (scales_out : list Z)
  : res FormatError (list Trit * list Z) :=
  unpack_row Q2_codec packed trits_out scales_out.

(** Packing then unpacking a row, for any block format. *)
Lemma row_roundtrip (C : BlockCodec) trits scales out tbuf sbuf :
  zlen trits <= isize_max -> zlen scales = div_ceil (zlen trits) bc_elems ->
  zlen out = zlen scales * bc_bytes -> Forall is_u16 scales ->
  zlen tbuf = zlen trits -> zlen sbuf = zlen scales ->
  exists packed, pack_row C trits scales out = Ok packed /\ zlen packed = zlen out /\
    unpack_row C packed tbuf sbuf = Ok (trits, scales).
Proof.
  intros Hk Hs Ho Hu Ht Hsb. exists (enc_row C trits scales).
  split; [by apply pack_row_Ok|]. split; [rewrite zlen_enc_row; lia|by apply unpack_row_Ok].
Qed.

(** * Rows that unpack are the packing of what they unpack to *)

Section canonical_rows.
Context (C : BlockCodec) {HC : CanonicalCodec C}.

(** Every decodable block of the row has only zero trits past the row's end. *)
Definition zero_padded (packed : list Z) (k : Z) : Prop :=
  forall r buf blk scale j,
    zlen buf = bc_elems ->
    bc_unpack (sub packed (r * bc_bytes) ((r + 1) * bc_bytes)) buf = Ok (blk, scale) ->
    0 <= r < div_ceil k bc_elems -> 0 <= j < bc_elems -> k <= r * bc_elems + j ->
    tget blk j = ZERO.

Lemma unpack_row_canonical packed tbuf sbuf trits scales :
  zlen tbuf <= isize_max -> bytes_ok packed -> zero_padded packed (zlen tbuf) ->
  unpack_row C packed tbuf sbuf = Ok (trits, scales) ->
  zlen trits = zlen tbuf /\ zlen scales = div_ceil (zlen tbuf) bc_elems /\
  Forall is_u16 scales /\ enc_row C trits scales = packed.
Proof.
  intros Hk Hu Hz Hun. destruct (@bc_sizes C) as [Hb He]. pose proof (zlen_nonneg tbuf) as Hk0.
  assert (Hc : exists nb, check_row C (zlen tbuf) sbuf (zlen packed) = Ok nb).
  { unfold unpack_row in Hun. bind_inv Hun. eauto. }
  destruct Hc as (nb & Hc). apply check_row_Ok_inv in Hc as (Hnb & Hs & Hp).
  destruct (unpack_row_inv C packed tbuf sbuf Hk ltac:(congruence) ltac:(congruence)) as [_ Hinv].
  destruct (Hinv _ _ Hun) as (Ht & Hsc & Hd). rewrite <- Hnb in Hsc, Hd.
  pose proof (div_ceil_nonneg (zlen tbuf) (@bc_elems C) Hk0 ltac:(lia)) as Hnb0. rewrite <- Hnb in Hnb0.
  assert (Hcell : forall r, 0 <= r < nb ->
    bc_enc (row_block C trits r) (bget scales r) = sub packed (r * bc_bytes) ((r + 1) * bc_bytes) /\
    is_u16 (bget scales r)).
  { intros r Hr. destruct (Hd r Hr) as (blk & buf & Hbuf & Hub & Hag).
    assert (Hcl : zlen (sub packed (r * bc_bytes) ((r + 1) * bc_bytes)) = bc_bytes)
      by (rewrite zlen_sub; nia).
    pose proof (bc_unpack_len _ _ _ _ Hcl Hbuf Hub) as Hbl.
    assert (Hblk : row_block C trits r = blk).
    { apply trits_eq; [by rewrite zlen_row_block|]. rewrite zlen_row_block. intros j Hj.
      unfold row_block. rewrite tget_tabulate by done.
      destruct (Z.ltb_spec (r * bc_elems + j) (zlen trits)); [by apply Hag|].
      rewrite tget_past by done. symmetry. apply (Hz r buf blk (bget scales r) j); try done; lia. }
    rewrite Hblk. apply (bc_canonical _ buf blk (bget scales r)); try done. by apply bytes_ok_sub. }
  split; [done|]. split; [congruence|]. split.
  - apply Forall_lookup_2. intros i x Hx. pose proof (lookup_lt_Some _ _ _ Hx) as Hlt.
    destruct (Hcell (Z.of_nat i)) as [_ H]; [unfold zlen in *; lia|].
    unfold bget in H. rewrite Nat2Z.id, Hx in H. done.
  - unfold enc_row. rewrite Hsc. symmetry.
    apply (blocks_eq packed nb bc_bytes); [lia|lia|done|]. intros r Hr. symmetry. by apply Hcell.
Qed.
End canonical_rows.

(** * Properties *)

(** A row of any length [K] packs to [ceil(K/256)] TQ2_0 blocks and unpacks to
    the same [K] trits and the same block scales: the zero padding of the final
    block is written on pack and dropped on unpack. *)
Theorem tq2_row_roundtrip trits scales out tbuf sbuf :
  zlen trits <= isize_max -> zlen scales = num_blocks (zlen trits) ->
  zlen out = zlen scales * TQ2_0_BLOCK_BYTES -> Forall is_u16 scales ->
  zlen tbuf = zlen trits -> zlen sbuf = zlen scales ->
  exists packed, pack_tq2_0_row trits scales out = Ok packed /\ zlen packed = zlen out /\
    unpack_tq2_0_row packed tbuf sbuf = Ok (trits, scales).
Proof. apply (row_roundtrip TQ2_codec). Qed.

Lemma tq2_row_roundtrip_witness :
  exists packed, pack_tq2_0_row (vec POS 300) [1; 2] (vec 0 132) = Ok packed /\
    zlen packed = zlen (vec 0 132) /\
    unpack_tq2_0_row packed (vec ZERO 300) [0; 0] = Ok (vec POS 300, [1; 2]).
Proof.
  apply (tq2_row_roundtrip (vec POS 300) [1; 2] (vec 0 132) (vec ZERO 300) [0; 0]);
    try (by vm_compute). repeat constructor; unfold is_u16; lia.
Defined.

(** The same for the base-3 TQ1_0 rows: packing and unpacking a row of any
    length returns its trits and scales. *)
Theorem tq1_row_roundtrip trits scales out tbuf sbuf :
  zlen trits <= isize_max -> zlen scales = num_blocks (zlen trits) ->
  zlen out = zlen scales * TQ1_0_BLOCK_BYTES -> Forall is_u16 scales ->
  zlen tbuf = zlen trits -> zlen sbuf = zlen scales ->
  exists packed, pack_tq1_0_row trits scales out = Ok packed /\ zlen packed = zlen out /\
    unpack_tq1_0_row packed tbuf sbuf = Ok (trits, scales).
Proof. apply (row_roundtrip TQ1_codec). Qed.

Lemma tq1_row_roundtrip_witness :
  exists packed, pack_tq1_0_row (vec NEG 257) [7; 9] (vec 0 108) = Ok packed /\
    zlen packed = zlen (vec 0 108) /\
    unpack_tq1_0_row packed (vec ZERO 257) [0; 0] = Ok (vec NEG 257, [7; 9]).
Proof.
  apply (tq1_row_roundtrip (vec NEG 257) [7; 9] (vec 0 108) (vec ZERO 257) [0; 0]);
    try (by vm_compute). repeat constructor; unfold is_u16; lia.
Defined.

(** The same for Q2_0 rows, whose blocks are 64 trits and carry their scale first. *)
Theorem q2_row_roundtrip trits scales out tbuf sbuf :
  zlen trits <= isize_max -> zlen scales = q2_0_num_blocks (zlen trits) ->
  zlen out = zlen scales * Q2_0_BLOCK_BYTES -> Forall is_u16 scales ->
  zlen tbuf = zlen trits -> zlen sbuf = zlen scales ->
  exists packed, pack_q2_0_row trits scales out = Ok packed /\ zlen packed = zlen out /\
    unpack_q2_0_row packed tbuf sbuf = Ok (trits, scales).
Proof. apply (row_roundtrip Q2_codec). Qed.

Lemma q2_row_roundtrip_witness :
  exists packed, pack_q2_0_row [NEG; POS; ZERO] [15360] (vec 0 18) = Ok packed /\
    zlen packed = zlen (vec 0 18) /\
    unpack_q2_0_row packed (vec ZERO 3) [0] = Ok ([NEG; POS; ZERO], [15360]).
Proof.
  apply (q2_row_roundtrip [NEG; POS; ZERO] [15360] (vec 0 18) (vec ZERO 3) [0]);
    try (by vm_compute). repeat constructor; unfold is_u16; lia.
Defined.

(** Unpacking untrusted rows is safe: for every byte string and every pair of
    output buffers, of matching lengths or not, the three row decoders return a
    value or a [FormatError]; no index leaves its slice and no length computation
    overflows. *)
Theorem row_unpack_never_panics packed tbuf sbuf :
  zlen tbuf <= isize_max ->
  returns (unpack_tq2_0_row packed tbuf sbuf) /\
  returns (unpack_tq1_0_row packed tbuf sbuf) /\
  returns (unpack_q2_0_row packed tbuf sbuf).
Proof. intros Hk. split; [|split]; by apply unpack_row_returns. Qed.

Lemma row_unpack_never_panics_witness :
  returns (unpack_tq2_0_row (vec 255 66) (vec ZERO 256) [0]) /\
  returns (unpack_tq1_0_row (vec 255 66) (vec ZERO 256) [0]) /\
  returns (unpack_q2_0_row (vec 255 66) (vec ZERO 256) [0]).
Proof. apply (row_unpack_never_panics (vec 255 66) (vec ZERO 256) [0]). by vm_compute. Defined.
