(* ===== verification/I2S.v ===== *)
(** * I2_S tensors and their load-time conversions

    crates/tritium-format/src/i2s.rs (the BitNet 2-bit layout: 32-byte blocks of
    128 codes, high bit pair first, one trailing [f32] scale) and i2s_int8.rs (the
    conversions to TQ2_0 and to the IMMA tile interleave). The scale's 32 bits are
    opaque to all of it. *)

From S2P Require Import Prelude Core FormatBase TwoBit TQ2 Rows.
From Stdlib Require Import ZArith Lia Bool.
From stdpp Require Import base list numbers.

#[local] Open Scope Z_scope.

Definition I2S_BLOCK_ELEMS : Z := 128.
Definition I2S_BLOCK_BYTES : Z := I2S_BLOCK_ELEMS / 4.
Definition I2S_SCALE_BYTES : Z := 4.

Definition code_to_trit (code : Z) : res FormatError Trit :=
  if code =? 0 then Ok NEG
  else if code =? 1 then Ok ZERO
  else if code =? 2 then Ok POS
  else Err (InvalidI2sCode code).

Definition unpack_i2s_block (block : list Z) (trits_out : list Trit)
  : res FormatError (list Trit) :=
  if negb (zlen block =? I2S_BLOCK_BYTES)
  then Err (WrongBlockLen I2S_BLOCK_BYTES (zlen block)) else
  if negb (zlen trits_out =? I2S_BLOCK_ELEMS)
  then Err (WrongTritCount I2S_BLOCK_ELEMS (zlen trits_out)) else
  for_enum 0 block (fun gp byte out =>
    for_range 0 4 (fun group out =>
      let shift := 6 - 2 * group in
      let code := Z.land (Z.shiftr byte shift) 3 in
      let* t := code_to_trit code in
      upd out (group * 32 + gp) t) out) trits_out.

(** The loop zips the 32-byte chunks of the quants with the 128-trit chunks of
    the output. *)
Definition unpack_i2s_tensor (payload : list Z) (n_elements : Z) (trits_out : list Trit)
  : res FormatError (list Trit * Z) :=
  if negb (zlen trits_out =? n_elements) || negb (is_multiple_of n_elements I2S_BLOCK_ELEMS)
  then Err (WrongTritCount n_elements (zlen trits_out)) else
  let n_quant_bytes := n_elements / 4 in
  let* need := add_usize n_quant_bytes I2S_SCALE_BYTES in
  if zlen payload <? need then Err (WrongBlockLen need (zlen payload)) else
  let* quants := slice payload 0 n_quant_bytes in
  let* trits_out := for_range 0 (Z.min (zlen quants / I2S_BLOCK_BYTES)
                                       (zlen trits_out / I2S_BLOCK_ELEMS)) (fun b out =>
    let* block := slice quants (b * I2S_BLOCK_BYTES) ((b + 1) * I2S_BLOCK_BYTES) in
    let* chunk := slice out (b * I2S_BLOCK_ELEMS) ((b + 1) * I2S_BLOCK_ELEMS) in
    let* chunk := unpack_i2s_block block chunk in
    write_slice out (b * I2S_BLOCK_ELEMS) chunk) trits_out in
  let* b0 := idx payload n_quant_bytes in
  let* b1 := idx payload (n_quant_bytes + 1) in
  let* b2 := idx payload (n_quant_bytes + 2) in
  let* b3 := idx payload (n_quant_bytes + 3) in
  Ok (trits_out, from_le [b0; b1; b2; b3]).

Definition IMMA_N : Z := 8.
Definition IMMA_K : Z := 32.
Definition IMMA_WTILE_BYTES : Z := IMMA_N * IMMA_K / 4.

(** [f16::ONE]. *)
Definition F16_ONE : Z := 0x3c00.

Definition convert_i2s_to_tq2_0 (payload : list Z) (shape : GemmShape)
  : res FormatError (list Z * Z) :=
  let n := gn shape in
  let k := gk shape in
  let* n_elements := mul_usize n k in
  let* (trits, scale) := unpack_i2s_tensor payload n_elements (vec ZERO n_elements) in
  let nb := num_blocks k in
  let* row_bytes := mul_usize nb TQ2_0_BLOCK_BYTES in
  let unit := vec F16_ONE nb in
  let* total := mul_usize n row_bytes in
  let* packed := for_range 0 n (fun ni packed =>
    let* row := slice trits (ni * k) (ni * k + k) in
    let* out := slice packed (ni * row_bytes) ((ni + 1) * row_bytes) in
    let* out := pack_tq2_0_row row unit out in
    write_slice packed (ni * row_bytes) out) (vec 0 total) in
  Ok (packed, scale).

Record I2sInt8Weights := mkI2sInt8Weights {
  iw_bytes : list Z; iw_scale : Z; iw_n : Z; iw_k : Z
}.

Definition num_ktiles (w : I2sInt8Weights) : Z := div_ceil (iw_k w) IMMA_K.
Definition num_ntiles (w : I2sInt8Weights) : Z := div_ceil (iw_n w) IMMA_N.

(** [bytes\[byte\] &= !(0b11 << (2 * slot)); bytes\[byte\] |= code << (2 * slot)]. *)
Definition set_pair {E} (bytes : list Z) (byte slot code : Z) : res E (list Z) :=
  let* b := idx bytes byte in
  let b := Z.land b (255 - shl8 3 (2 * slot)) in
  upd bytes byte (Z.lor b (shl8 code (2 * slot))).

Definition convert_i2s_to_int8 (payload : list Z) (shape : GemmShape)
  : res FormatError I2sInt8Weights :=
  let n := gn shape in
  let k := gk shape in
  let* n_elements := mul_usize n k in
  let* (trits, scale) := unpack_i2s_tensor payload n_elements (vec ZERO n_elements) in
  let num_ntiles := div_ceil n IMMA_N in
  let num_ktiles := div_ceil k IMMA_K in
  let* tiles := mul_usize num_ntiles num_ktiles in
  let* total := mul_usize tiles IMMA_WTILE_BYTES in
  let* bytes := for_range 0 num_ntiles (fun nt bytes =>
    for_range 0 num_ktiles (fun kt bytes =>
      let tile_byte0 := (nt * num_ktiles + kt) * IMMA_WTILE_BYTES in
      for_range 0 IMMA_N (fun n_in bytes =>
        let gn := nt * IMMA_N + n_in in
        if n <=? gn then Ok bytes else
        for_range 0 IMMA_K (fun k_in bytes =>
          let gk := kt * IMMA_K + k_in in
          if k <=? gk then Ok bytes else
          let elem := n_in * IMMA_K + k_in in
          let byte := tile_byte0 + elem / 4 in
          let slot := elem mod 4 in
          let* t := idx trits (gn * k + gk) in
          let code := get t + 1 in
          set_pair bytes byte slot code) bytes) bytes) bytes) (vec 0x55 total) in
  Ok (mkI2sInt8Weights bytes scale n k).

(** * Layout of the quants *)

(** Element [i] is in byte [i2s_pos i], at bit pair [i2s_slot i]. *)
Definition i2s_pos (i : Z) : Z := i / 128 * 32 + i mod 32.
Definition i2s_slot (i : Z) : Z := 3 - i mod 128 / 32.
Definition i2s_pair (quants : list Z) (i : Z) : Z := pair2 (bget quants (i2s_pos i)) (i2s_slot i).
Definition i2s_trit (quants : list Z) (i : Z) : Trit := trit_of_code (i2s_pair quants i).
Definition i2s_code_ok (quants : list Z) (i : Z) : bool := negb (i2s_pair quants i =? 3).
(** None of the first [n] codes is the reserved one. *)
Definition i2s_valid (quants : list Z) (n : Z) : bool := forallb (i2s_code_ok quants) (seqZ 0 n).

Lemma code_to_trit_pair q :
  0 <= q < 4 ->
  code_to_trit q = if q =? 3 then Err (InvalidI2sCode 3) else Ok (trit_of_code q).
Proof.
  intros Hq. assert (q = 0 \/ q = 1 \/ q = 2 \/ q = 3) as [-> | [-> | [-> | ->]]] by lia; done.
Qed.

Lemma i2s_index gp group :
  0 <= gp < 32 -> 0 <= group < 4 ->
  i2s_pos (group * 32 + gp) = gp /\ i2s_slot (group * 32 + gp) = 3 - group.
Proof. intros. unfold i2s_pos, i2s_slot. split; Z.div_mod_to_equations; lia. Qed.

Lemma unpack_i2s_cell block gp group out :
  zlen block = 32 -> zlen out = 128 -> 0 <= gp < 32 -> 0 <= group < 4 ->
  let i := group * 32 + gp in
  if i2s_code_ok block i then
    exists out',
      (let shift := 6 - 2 * group in
       let code := Z.land (Z.shiftr (bget block gp) shift) 3 in
       let* t := code_to_trit code in upd out i t) = Ok out' /\
      wrote (interval i (i + 1)) (i2s_trit block) out out'
  else
    (let shift := 6 - 2 * group in
     let code := Z.land (Z.shiftr (bget block gp) shift) 3 in
     let* t := code_to_trit code in upd out i t) = Err (InvalidI2sCode 3).
Proof.
  intros Hb Ho Hgp Hg i. cbv zeta. unfold i2s_code_ok, i2s_pair.
  destruct (i2s_index gp group) as [Hp Hs]; [done..|]. fold i in Hp, Hs. rewrite Hp, Hs.
  replace (6 - 2 * group) with (2 * (3 - group)) by lia.
  fold (pair2 (bget block gp) (3 - group)). rewrite code_to_trit_pair by apply pair2_range.
  destruct (Z.eqb_spec (pair2 (bget block gp) (3 - group)) 3) as [E|E]; [done|]. cbn [negb bind].
  rewrite upd_Ok by lia. eexists. split; [done|].
  replace (trit_of_code (pair2 (bget block gp) (3 - group))) with (i2s_trit block i)
    by (unfold i2s_trit, i2s_pair; by rewrite Hp, Hs).
  apply wrote_upd. lia.
Qed.

Lemma unpack_i2s_block_spec block out :
  zlen block = I2S_BLOCK_BYTES -> zlen out = I2S_BLOCK_ELEMS ->
  unpack_i2s_block block out =
    if i2s_valid block 128 then Ok (tabulate 128 (i2s_trit block)) else Err (InvalidI2sCode 3).
Proof.
  intros Hb Ho. unfold unpack_i2s_block. rewrite Hb, Ho, !Z.eqb_refl. cbn [negb].
  change I2S_BLOCK_BYTES with 32 in *. unfold I2S_BLOCK_ELEMS in Ho.
  rewrite for_enum_range, Hb. change (0 + 32) with 32.
  match goal with |- for_range 0 32 ?body ?l = _ =>
    pose proof (for_range_wrote_set
      (fun gp j => existsb (fun g => interval (g * 32 + gp) (g * 32 + gp + 1) j) (seqZ 0 (4 - 0)))
      (i2s_trit block) (fun gp => forallb (fun g => i2s_code_ok block (g * 32 + gp)) (seqZ 0 (4 - 0)))
      (InvalidI2sCode 3) body 0 32 l ltac:(lia)) as H
  end.
  discharge H.
  { intros gp l1 Hgp Hl1. replace (gp - 0) with gp by lia. rewrite idx_bget by lia. cbn [bind].
    apply (for_range_wrote_set (fun g => interval (g * 32 + gp) (g * 32 + gp + 1))
      (i2s_trit block) (fun g => i2s_code_ok block (g * 32 + gp)) (InvalidI2sCode 3) _ 0 4 l1); [lia|].
    intros g l2 Hg Hl2. apply unpack_i2s_cell; lia. }
  assert (Hv : forallb (fun gp => forallb (fun g => i2s_code_ok block (g * 32 + gp)) (seqZ 0 (4 - 0)))
    (seqZ 0 (32 - 0)) = i2s_valid block 128).
  { apply eq_true_iff_eq. unfold i2s_valid. rewrite !forallb_seqZ. split.
    - intros H1 i Hi. specialize (H1 (i mod 32) ltac:(Z.div_mod_to_equations; lia)).
      rewrite forallb_seqZ in H1. specialize (H1 (i / 32) ltac:(Z.div_mod_to_equations; lia)).
      rewrite <- H1. f_equal. Z.div_mod_to_equations; lia.
    - intros H1 gp Hgp. rewrite forallb_seqZ. intros g Hg. apply H1. lia. }
  rewrite Hv in H. destruct (i2s_valid block 128); [|done].
  destruct H as (l & -> & Hw). f_equal. eapply wrote_full; [done|done|].
  intros j Hj. apply existsb_seqZ. exists (j mod 32). split; [Z.div_mod_to_equations; lia|].
  apply existsb_seqZ. exists (j / 32). split; [Z.div_mod_to_equations; lia|].
  unfold interval. Z.div_mod_to_equations; lia.
Qed.

(** A block of the quants reads the same codes as the tensor at its offset. *)
Lemma i2s_pair_block payload n b j :
  0 <= b -> (b + 1) * 32 <= n -> 0 <= j < 128 ->
  i2s_pair (sub (sub payload 0 n) (b * 32) ((b + 1) * 32)) j = i2s_pair payload (b * 128 + j).
Proof.
  intros Hb Hn Hj. unfold i2s_pair. rewrite sub_sub by lia. rewrite !Z.add_0_l.
  assert (Hp : i2s_pos (b * 128 + j) = b * 32 + i2s_pos j /\ 0 <= i2s_pos j < 32 /\
    i2s_slot (b * 128 + j) = i2s_slot j)
    by (unfold i2s_pos, i2s_slot; Z.div_mod_to_equations; lia).
  destruct Hp as (-> & Hp & ->). f_equal. by rewrite bget_sub by lia.
Qed.

Lemma unpack_i2s_tensor_spec payload n out :
  zlen out = n -> n mod 128 = 0 -> n <= isize_max -> n / 4 + 4 <= zlen payload ->
  unpack_i2s_tensor payload n out =
    if i2s_valid payload n
    then Ok (tabulate n (i2s_trit payload), from_le (sub payload (n / 4) (n / 4 + 4)))
    else Err (InvalidI2sCode 3).
Proof.
  intros Ho Hm Hmax Hp. pose proof (zlen_nonneg out) as Hn0. rewrite Ho in Hn0.
  unfold unpack_i2s_tensor. rewrite Ho, Z.eqb_refl. cbn [negb orb].
  unfold is_multiple_of. change (I2S_BLOCK_ELEMS =? 0) with false. cbv iota.
  change I2S_BLOCK_ELEMS with 128. rewrite Hm. cbn [negb Z.eqb].
  assert (Hq : 0 <= n / 4 /\ n / 4 = n / 128 * 32 /\ n = n / 128 * 128)
    by (Z.div_mod_to_equations; lia).
  unfold add_usize, checked_add, I2S_SCALE_BYTES, usize_max. unfold isize_max in Hmax.
  replace (_ <=? _) with true by lia. cbn [bind unwrap].
  replace (zlen payload <? n / 4 + 4) with false by lia.
  rewrite slice_Ok by lia. cbn [bind]. rewrite zlen_sub by lia. rewrite Z.sub_0_r.
  change I2S_BLOCK_BYTES with 32.
  rewrite Z.div_div by lia. change (4 * 32) with 128. rewrite Z.min_id.
  match goal with |- context [for_range 0 (n / 128) ?body ?l] =>
    pose proof (for_range_wrote_err (i2s_trit payload)
      (fun b => forallb (fun j => i2s_code_ok payload (b * 128 + j)) (seqZ 0 128))
      (InvalidI2sCode 3) body 0 (n / 128) 0 n 128 l ltac:(lia) ltac:(lia) ltac:(lia)) as H
  end.
  discharge H.
  { intros b l1 Hb Hl1. rewrite slice_Ok by (rewrite ?zlen_sub; lia). cbn [bind].
    rewrite slice_Ok by lia. cbn [bind].
    rewrite unpack_i2s_block_spec by (change I2S_BLOCK_BYTES with 32; unfold I2S_BLOCK_ELEMS;
      rewrite ?zlen_sub; rewrite ?zlen_sub; lia).
    assert (Hv : i2s_valid (sub (sub payload 0 (n / 4)) (b * 32) ((b + 1) * 32)) 128 =
      forallb (fun j => i2s_code_ok payload (b * 128 + j)) (seqZ 0 128)).
    { apply forallb_ext_Z. intros j Hj. unfold i2s_code_ok. by rewrite i2s_pair_block by lia. }
    rewrite <- Hv. destruct (i2s_valid _ 128); [|done]. cbn [bind].
    rewrite write_slice_Ok by (autorewrite with zlen; lia). eexists. split; [done|].
    replace (0 + (b - 0 + 1) * 128) with (b * 128 + zlen (tabulate 128
      (i2s_trit (sub (sub payload 0 (n / 4)) (b * 32) ((b + 1) * 32)))))
      by (autorewrite with zlen; lia).
    replace (0 + (b - 0) * 128) with (b * 128) by lia.
    apply wrote_splice; autorewrite with zlen; [lia|lia|]. intros i Hi.
    rewrite lookup_tabulate by lia. f_equal. unfold i2s_trit. by rewrite i2s_pair_block by lia. }
  rewrite Z.sub_0_r, (forallb_seqZ_rows (i2s_code_ok payload)) in H by lia.
  replace (n / 128 * 128) with n in H by lia. fold (i2s_valid payload n) in H.
  destruct (i2s_valid payload n); [|by rewrite H].
  destruct H as (l & -> & Hw). cbn [bind].
  rewrite <- (wrote_full _ _ _ _ n Hw Ho) by (intros j Hj; unfold interval; lia).
  by rewrite (le4_bytes payload (n / 4) (fun x => Ok (l, x))) by lia.
Qed.

(** * Conversion to TQ2_0 *)

Lemma row_bytes_bound k : 0 <= k -> 0 <= num_blocks k /\ num_blocks k * 66 <= k + 255.
Proof.
  intros Hk. unfold num_blocks. pose proof (div_ceil_bounds k QK_K ltac:(unfold QK_K; lia)) as H.
  unfold QK_K in *. lia.
Qed.

Lemma convert_bytes_bound n k :
  0 <= n -> 0 <= k -> n * k * 66 <= isize_max -> 0 <= n * (num_blocks k * 66) <= isize_max.
Proof.
  intros Hn Hk Hb. destruct (row_bytes_bound k Hk) as [H0 H1].
  assert (num_blocks k <= k).
  { unfold num_blocks. pose proof (div_ceil_bounds k QK_K ltac:(unfold QK_K; lia)) as H.
    unfold QK_K in *. lia. }
  split; [nia|]. assert (n * num_blocks k <= n * k) by nia. lia.
Qed.

Lemma convert_i2s_to_tq2_0_spec payload shape :
  let n := gn shape in
  let k := gk shape in
  let rb := num_blocks k * TQ2_0_BLOCK_BYTES in
  0 <= n -> 0 <= k <= isize_max -> n * k * 66 <= isize_max -> (n * k) mod 128 = 0 ->
  n * k / 4 + 4 <= zlen payload -> i2s_valid payload (n * k) = true ->
  exists packed,
    convert_i2s_to_tq2_0 payload shape =
      Ok (packed, from_le (sub payload (n * k / 4) (n * k / 4 + 4))) /\
    zlen packed = n * rb /\
    forall ni, 0 <= ni < n ->
      sub packed (ni * rb) ((ni + 1) * rb) =
      enc_row TQ2_codec (sub (tabulate (n * k) (i2s_trit payload)) (ni * k) (ni * k + k))
        (vec F16_ONE (num_blocks k)).
Proof.
  intros n k rb Hn Hk Hb Hm Hp Hv. unfold convert_i2s_to_tq2_0. fold n k.
  pose proof (convert_bytes_bound n k Hn ltac:(lia) Hb) as Hcb.
  destruct (row_bytes_bound k ltac:(lia)) as [Hnb Hrb].
  change TQ2_0_BLOCK_BYTES with 66 in *. unfold isize_max in *.
  assert (Hnk : 0 <= n * k) by nia.
  unfold mul_usize, checked_mul, usize_max.
  replace (n * k <=? _) with true by lia. cbn [bind unwrap].
  rewrite unpack_i2s_tensor_spec by (autorewrite with zlen; unfold isize_max; lia).
  rewrite Hv. cbn [bind]. replace (num_blocks k * 66 <=? _) with true by lia. cbn [bind unwrap].
  fold rb. replace (n * rb <=? _) with true by lia. cbn [bind unwrap].
  set (trits := tabulate (n * k) (i2s_trit payload)).
  assert (Ht : zlen trits = n * k) by (unfold trits; autorewrite with zlen; lia).
  set (unit := vec F16_ONE (num_blocks k)).
  assert (Hu : zlen unit = num_blocks k) by (unfold unit; autorewrite with zlen; lia).
  match goal with |- context [for_range 0 n ?body ?l] =>
    destruct (for_range_inv (fun i p => zlen p = n * rb /\ forall r, 0 <= r < i ->
      sub p (r * rb) ((r + 1) * rb) = enc_row TQ2_codec (sub trits (r * k) (r * k + k)) unit)
      body 0 n l Hn) as (packed & -> & Hlen & Hrows)
  end.
  - split; [autorewrite with zlen; lia|]. intros r Hr. lia.
  - intros i p Hi [Hlen Hrows].
    assert (Hrow : zlen (sub trits (i * k) (i * k + k)) = k) by (rewrite zlen_sub; nia).
    rewrite slice_Ok by nia. cbn [bind]. rewrite slice_Ok by nia. cbn [bind].
    assert (Hout : zlen (sub p (i * rb) ((i + 1) * rb)) = rb) by (rewrite zlen_sub; nia).
    assert (Henc : zlen (enc_row TQ2_codec (sub trits (i * k) (i * k + k)) unit) = rb)
      by (rewrite zlen_enc_row, Hu; done).
    unfold pack_tq2_0_row. rewrite pack_row_Ok
      by (rewrite ?Hrow, ?Hu, ?Hout; unfold isize_max; done || lia). cbn [bind].
    rewrite write_slice_Ok by nia. eexists. split; [done|].
    split; [rewrite zlen_splice; nia|]. intros r Hr.
    destruct (Z.eqb_spec r i) as [->|Hne].
    + by rewrite sub_splice_same by nia.
    + rewrite sub_splice_before by nia. apply Hrows. lia.
  - cbn [bind]. exists packed. done.
Qed.

(** * Conversion to the IMMA tile interleave *)

(** The two-bit code at position [ci] of a packed buffer, low pair first. *)
Definition code_at (bytes : list Z) (ci : Z) : Z := pair2 (bget bytes (ci / 4)) (ci mod 4).

(** Position of element [(r, c)] of an [N, K] matrix with [kt] tiles per row of tiles. *)
Definition imma_index (kt r c : Z) : Z :=
  (r / 8 * kt + c / 32) * 256 + r mod 8 * 32 + c mod 32.

(** The code the layout has at position [ci]: [trit + 1], or 1 in the padding. *)
Definition imma_code (trits : list Trit) (n k kt ci : Z) : Z :=
  let r := ci / 256 / kt * 8 + ci mod 256 / 32 in
  let c := (ci / 256) mod kt * 32 + ci mod 32 in
  if (r <? n) && (c <? k) then code (tget trits (r * k + c)) else 1.

Definition set_pair_byte (b slot c : Z) : Z :=
  Z.lor (Z.land b (255 - shl8 3 (2 * slot))) (shl8 c (2 * slot)).

Lemma set_pair_byte_check :
  forallb (fun b => forallb (fun slot => forallb (fun c =>
    let b' := set_pair_byte b slot c in
    (0 <=? b') && (b' <? 256) &&
    forallb (fun s => pair2 b' s =? (if s =? slot then c else pair2 b s)) (seqZ 0 4))
    (seqZ 0 4)) (seqZ 0 4)) (seqZ 0 256) = true.
Proof. by vm_compute. Qed.

Lemma set_pair_byte_ok b slot c :
  is_u8 b -> 0 <= slot < 4 -> 0 <= c < 4 ->
  is_u8 (set_pair_byte b slot c) /\
  forall s, 0 <= s < 4 -> pair2 (set_pair_byte b slot c) s = if s =? slot then c else pair2 b s.
Proof.
  intros Hb Hs Hc. pose proof set_pair_byte_check as H. unfold is_u8 in *.
  rewrite forallb_seqZ in H. specialize (H b ltac:(lia)).
  rewrite forallb_seqZ in H. specialize (H slot ltac:(lia)).
  rewrite forallb_seqZ in H. specialize (H c ltac:(lia)). cbv zeta in H.
  apply andb_true_iff in H as [H1 H]. split; [lia|]. intros s Hs'.
  rewrite forallb_seqZ in H. specialize (H s ltac:(lia)). lia.
Qed.

(** After the positions below [F] have been visited. *)
Definition imma_done (trits : list Trit) (n k kt total F : Z) (bytes : list Z) : Prop :=
  zlen bytes = total /\ bytes_ok bytes /\
  forall ci, 0 <= ci < 4 * total ->
    code_at bytes ci = if ci <? F then imma_code trits n k kt ci else 1.

Lemma imma_done_skip trits n k kt total F m bytes :
  imma_done trits n k kt total F bytes -> 0 <= m ->
  (forall ci, F <= ci < F + m -> imma_code trits n k kt ci = 1) ->
  imma_done trits n k kt total (F + m) bytes.
Proof.
  intros (Hl & Hb & H) Hm Hs. split; [done|]. split; [done|]. intros ci Hci.
  rewrite H by done. destruct (Z.ltb_spec ci F), (Z.ltb_spec ci (F + m)); try done; try lia.
  symmetry. apply Hs. lia.
Qed.

Lemma imma_code_range trits n k kt ci : 0 <= imma_code trits n k kt ci < 4.
Proof. unfold imma_code. destruct (_ && _); [|lia]. unfold code. pose proof (get_range (tget trits
  ((ci / 256 / kt * 8 + ci mod 256 / 32) * k + ((ci / 256) mod kt * 32 + ci mod 32)))). lia. Qed.

Lemma imma_done_set trits n k kt total F bytes :
  imma_done trits n k kt total F bytes -> 0 <= F < 4 * total ->
  exists bytes',
    set_pair (E := FormatError) bytes (F / 4) (F mod 4) (imma_code trits n k kt F) = Ok bytes' /\
    imma_done trits n k kt total (F + 1) bytes'.
Proof.
  intros (Hl & Hb & H) HF. unfold set_pair.
  assert (Hq : 0 <= F / 4 < total /\ 0 <= F mod 4 < 4) by (Z.div_mod_to_equations; lia).
  rewrite idx_bget by lia. cbn [bind]. rewrite upd_Ok by lia. eexists. split; [done|].
  fold (set_pair_byte (bget bytes (F / 4)) (F mod 4) (imma_code trits n k kt F)).
  destruct (set_pair_byte_ok (bget bytes (F / 4)) (F mod 4) (imma_code trits n k kt F))
    as [H8 Hpair]; [by apply bget_u8|lia|apply imma_code_range|].
  split; [by rewrite zlen_insert|]. split; [by apply Forall_insert|].
  intros ci Hci. unfold code_at.
  assert (Hc : 0 <= ci / 4 < total /\ 0 <= ci mod 4 < 4) by (Z.div_mod_to_equations; lia).
  rewrite bget_upd by lia. destruct (Z.eqb_spec (F / 4) (ci / 4)) as [E|E].
  - rewrite Hpair by lia. destruct (Z.eqb_spec (ci mod 4) (F mod 4)) as [E1|E1].
    + assert (ci = F) as -> by (Z.div_mod_to_equations; lia).
      by replace (F <? F + 1) with true by lia.
    + rewrite E. fold (code_at bytes ci). rewrite H by done.
      assert (ci <> F) by congruence. by replace (ci <? F + 1) with (ci <? F) by lia.
  - fold (code_at bytes ci). rewrite H by done.
    assert (ci <> F) by congruence. by replace (ci <? F + 1) with (ci <? F) by lia.
Qed.

(** The matrix position of a tile position. *)
Lemma imma_code_tile trits n k KT nt kt n_in k_in :
  0 <= nt -> 0 <= kt < KT -> 0 <= n_in < 8 -> 0 <= k_in < 32 ->
  imma_code trits n k KT ((nt * KT + kt) * 256 + (n_in * 32 + k_in)) =
    if (nt * 8 + n_in <? n) && (kt * 32 + k_in <? k)
    then code (tget trits ((nt * 8 + n_in) * k + (kt * 32 + k_in))) else 1.
Proof.
  intros Hnt Hkt Hn Hk. unfold imma_code.
  set (ci := (nt * KT + kt) * 256 + (n_in * 32 + k_in)).
  assert (H1 : ci / 256 = KT * nt + kt /\ ci mod 256 / 32 = n_in /\ ci mod 32 = k_in)
    by (unfold ci; Z.div_mod_to_equations; lia).
  destruct H1 as (-> & -> & ->). destruct (div_mod_row KT nt kt) as [-> ->]; [lia|lia|]. done.
Qed.

(** One row of a tile. *)
Lemma convert_int8_row trits n k KT total nt kt n_in bytes :
  zlen trits = n * k -> 0 <= nt -> 0 <= kt < KT -> 0 <= n_in < 8 ->
  (nt * KT + kt + 1) * 64 <= total ->
  let F := (nt * KT + kt) * 256 + n_in * 32 in
  imma_done trits n k KT total F bytes ->
  exists bytes',
    (let gn := nt * IMMA_N + n_in in
     if n <=? gn then Ok bytes else
     for_range 0 IMMA_K (fun k_in bytes =>
       let gk := kt * IMMA_K + k_in in
       if k <=? gk then Ok bytes else
       let elem := n_in * IMMA_K + k_in in
       let byte := (nt * KT + kt) * IMMA_WTILE_BYTES + elem / 4 in
       let slot := elem mod 4 in
       let* t := idx trits (gn * k + gk) in
       let code := get t + 1 in
       set_pair (E := FormatError) bytes byte slot code) bytes) = Ok bytes' /\
    imma_done trits n k KT total (F + 32) bytes'.
Proof.
  intros Ht Hnt Hkt Hn Htot F HI. cbv zeta. change IMMA_N with 8. change IMMA_K with 32.
  change IMMA_WTILE_BYTES with 64.
  assert (Hcell : forall k_in, 0 <= k_in < 32 -> imma_code trits n k KT (F + k_in) =
    if (nt * 8 + n_in <? n) && (kt * 32 + k_in <? k)
    then code (tget trits ((nt * 8 + n_in) * k + (kt * 32 + k_in))) else 1).
  { intros k_in Hk. unfold F. rewrite <- Z.add_assoc. by apply imma_code_tile. }
  destruct (Z.leb_spec n (nt * 8 + n_in)) as [Hge|Hlt].
  { exists bytes. split; [done|]. apply imma_done_skip; [done|lia|]. intros ci Hci.
    replace ci with (F + (ci - F)) by lia. rewrite Hcell by lia.
    by replace (nt * 8 + n_in <? n) with false by lia. }
  apply (for_range_inv (fun i b => imma_done trits n k KT total (F + i) b)); [lia| |].
  { by rewrite Z.add_0_r. }
  intros i b Hi HIb. specialize (Hcell i Hi).
  replace (nt * 8 + n_in <? n) with true in Hcell by lia. cbn [andb] in Hcell.
  replace (F + (i + 1)) with (F + i + 1) by lia. destruct (Z.leb_spec k (kt * 32 + i)) as [Hgk|Hgk].
  - exists b. split; [done|]. apply imma_done_skip; [done|lia|]. intros ci Hci.
    assert (ci = F + i) as -> by lia. rewrite Hcell.
    by replace (kt * 32 + i <? k) with false by lia.
  - replace (kt * 32 + i <? k) with true in Hcell by lia.
    rewrite idx_tget by (rewrite Ht; nia). cbn [bind].
    fold (code (tget trits ((nt * 8 + n_in) * k + (kt * 32 + i)))). rewrite <- Hcell.
    assert (Hq : (F + i) / 4 = (nt * KT + kt) * 64 + (n_in * 32 + i) / 4 /\
      (F + i) mod 4 = (n_in * 32 + i) mod 4)
      by (unfold F; clear - Hi Hn; Z.div_mod_to_equations; lia).
    destruct Hq as [<- <-]. apply imma_done_set; [done|]. unfold F. nia.
Qed.

Lemma convert_i2s_to_int8_spec payload shape :
  let n := gn shape in
  let k := gk shape in
  let KT := div_ceil k IMMA_K in
  let total := div_ceil n IMMA_N * KT * IMMA_WTILE_BYTES in
  0 <= n -> 0 <= k -> n * k <= isize_max -> total <= isize_max -> (n * k) mod 128 = 0 ->
  n * k / 4 + 4 <= zlen payload -> i2s_valid payload (n * k) = true ->
  exists bytes,
    convert_i2s_to_int8 payload shape =
      Ok (mkI2sInt8Weights bytes (from_le (sub payload (n * k / 4) (n * k / 4 + 4))) n k) /\
    imma_done (tabulate (n * k) (i2s_trit payload)) n k KT total (4 * total) bytes.
Proof.
  intros n k KT total Hn Hk Hb Htot Hm Hp Hv. unfold convert_i2s_to_int8. fold n k KT.
  assert (HKT : 0 <= KT) by (apply div_ceil_nonneg; [lia|by unfold IMMA_K]).
  assert (HNT : 0 <= div_ceil n IMMA_N) by (apply div_ceil_nonneg; [lia|by unfold IMMA_N]).
  set (NT := div_ceil n IMMA_N) in *. change IMMA_WTILE_BYTES with 64 in *.
  assert (Hnk : 0 <= n * k) by nia. assert (Htl : 0 <= NT * KT) by nia.
  unfold isize_max in *. unfold mul_usize, checked_mul, usize_max.
  replace (n * k <=? _) with true by lia. cbn [bind unwrap].
  rewrite unpack_i2s_tensor_spec by (autorewrite with zlen; unfold isize_max; lia).
  rewrite Hv. cbn [bind]. replace (NT * KT <=? _) with true by lia. cbn [bind unwrap].
  fold total. replace (total <=? _) with true by lia. cbn [bind unwrap].
  set (trits := tabulate (n * k) (i2s_trit payload)).
  assert (Ht : zlen trits = n * k) by (unfold trits; autorewrite with zlen; lia).
  match goal with |- context [for_range 0 NT ?body ?l] =>
    destruct (for_range_inv (fun i b => imma_done trits n k KT total (i * KT * 256) b)
      body 0 NT l HNT) as (bytes & -> & Hd)
  end.
  - split; [autorewrite with zlen; lia|].
    split; [apply Forall_replicate; unfold is_u8; lia|]. intros ci Hci.
    replace (ci <? 0 * KT * 256) with false by lia. unfold code_at, bget.
    rewrite lookup_vec by (Z.div_mod_to_equations; lia). simpl.
    apply zero_byte_pairs; [by vm_compute|done|Z.div_mod_to_equations; lia].
  - intros nt b Hnt HIb.
    replace ((nt + 1) * KT * 256) with ((nt * KT + KT) * 256) by ring.
    apply (for_range_inv (fun i b => imma_done trits n k KT total ((nt * KT + i) * 256) b));
      [done|by replace ((nt * KT + 0) * 256) with (nt * KT * 256) by ring|]. intros kt b1 Hkt HIb1.
    replace ((nt * KT + (kt + 1)) * 256) with ((nt * KT + kt) * 256 + 8 * 32) by ring.
    apply (for_range_inv
      (fun i b => imma_done trits n k KT total ((nt * KT + kt) * 256 + i * 32) b));
      [done|by rewrite Z.mul_0_l, (Z.add_0_r (_ * 256))|]. intros n_in b2 Hn_in HIb2.
    replace ((nt * KT + kt) * 256 + (n_in + 1) * 32)
      with ((nt * KT + kt) * 256 + n_in * 32 + 32) by ring.
    apply convert_int8_row; try done; try lia; nia.
  - cbn [bind]. exists bytes. split; [done|].
    by replace (4 * total) with (NT * KT * 256) by (unfold total; ring).
Qed.

(** * Properties *)

(** Decoding an I2_S tensor is exact. With enough payload bytes and a length
    that is a multiple of 128, it fails with [InvalidI2sCode 3] precisely when one
    of the codes is the reserved [0b11]; otherwise element [i] is the trit of the
    bit pair at byte [i/128*32 + i mod 32], group [i mod 128 / 32] counted from the
    high pair, and the scale is the four bytes after the quants. *)
Theorem i2s_tensor_exact payload n out :
  zlen out = n -> n mod 128 = 0 -> n <= isize_max -> n / 4 + 4 <= zlen payload ->
  unpack_i2s_tensor payload n out =
    if i2s_valid payload n
    then Ok (tabulate n (i2s_trit payload), from_le (sub payload (n / 4) (n / 4 + 4)))
    else Err (InvalidI2sCode 3).
Proof. apply unpack_i2s_tensor_spec. Qed.

Lemma i2s_tensor_exact_witness :
  unpack_i2s_tensor (vec 0x1b 31 ++ [0x18; 0; 0; 0x80; 0x3f]) 128 (vec ZERO 128) =
    Err (InvalidI2sCode 3) /\
  unpack_i2s_tensor (vec 0x18 32 ++ [0; 0; 0x80; 0x3f]) 128 (vec ZERO 128) =
    Ok (tabulate 128 (i2s_trit (vec 0x18 32 ++ [0; 0; 0x80; 0x3f])), 0x3f800000).
Proof.
  split.
  - apply (i2s_tensor_exact (vec 0x1b 31 ++ [0x18; 0; 0; 0x80; 0x3f]) 128 (vec ZERO 128)); by vm_compute.
  - apply (i2s_tensor_exact (vec 0x18 32 ++ [0; 0; 0x80; 0x3f]) 128 (vec ZERO 128)); by vm_compute.
Defined.

(** Converting an I2_S tensor to TQ2_0 at load loses nothing: every row of
    the result unpacks with the TQ2_0 decoder to the trits the I2_S decoder reads
    for that row, under unit block scales, and the tensor scale is returned. *)
Theorem i2s_to_tq2_faithful payload shape tbuf sbuf :
  let n := gn shape in
  let k := gk shape in
  let rb := num_blocks k * TQ2_0_BLOCK_BYTES in
  0 <= n -> 0 <= k <= isize_max -> n * k * 66 <= isize_max -> (n * k) mod 128 = 0 ->
  n * k / 4 + 4 <= zlen payload -> i2s_valid payload (n * k) = true ->
  zlen tbuf = k -> zlen sbuf = num_blocks k ->
  exists packed trits scale,
    unpack_i2s_tensor payload (n * k) (vec ZERO (n * k)) = Ok (trits, scale) /\
    convert_i2s_to_tq2_0 payload shape = Ok (packed, scale) /\
    forall ni, 0 <= ni < n ->
      unpack_tq2_0_row (sub packed (ni * rb) ((ni + 1) * rb)) tbuf sbuf =
      Ok (sub trits (ni * k) (ni * k + k), vec F16_ONE (num_blocks k)).
Proof.
  intros n k rb Hn Hk Hb Hm Hp Hv Ht Hs.
  destruct (convert_i2s_to_tq2_0_spec payload shape) as (packed & Hc & Hlen & Hrows); try done.
  exists packed, (tabulate (n * k) (i2s_trit payload)), (from_le (sub payload (n * k / 4) (n * k / 4 + 4))).
  assert (Hnk : 0 <= n * k) by nia. unfold isize_max in *.
  rewrite unpack_i2s_tensor_spec by (autorewrite with zlen; unfold isize_max; lia).
  rewrite Hv. split; [done|]. split; [done|]. intros ni Hni.
  fold n k rb in Hrows. rewrite Hrows by done.
  destruct (row_bytes_bound k ltac:(lia)) as [Hnb _].
  assert (Hz : zlen (sub (tabulate (n * k) (i2s_trit payload)) (ni * k) (ni * k + k)) = k)
    by (rewrite zlen_sub; autorewrite with zlen; nia).
  apply unpack_row_Ok; rewrite ?Hz; autorewrite with zlen; try (unfold isize_max; lia).
  - change (num_blocks k = div_ceil k QK_K) || (rewrite Z.max_r by lia; done).
  - apply Forall_replicate. by vm_compute.
Qed.

Lemma i2s_to_tq2_faithful_witness :
  let payload := vec 0x18 32 ++ [0; 0; 0x80; 0x3f] in
  exists packed trits scale,
    unpack_i2s_tensor payload 128 (vec ZERO 128) = Ok (trits, scale) /\
    convert_i2s_to_tq2_0 payload (mkGemmShape 1 2 64) = Ok (packed, scale) /\
    forall ni, 0 <= ni < 2 ->
      unpack_tq2_0_row (sub packed (ni * 66) ((ni + 1) * 66)) (vec ZERO 64) [0] =
      Ok (sub trits (ni * 64) (ni * 64 + 64), vec F16_ONE 1).
Proof.
  apply (i2s_to_tq2_faithful (vec 0x18 32 ++ [0; 0; 0x80; 0x3f]) (mkGemmShape 1 2 64) (vec ZERO 64) [0]);
    by vm_compute.
Defined.

(** The IMMA tile interleave is the matrix: element [(r, c)] of the decoded
    [N, K] weights is stored, as [trit + 1], at tile [(r/8, c/32)], row [r mod 8],
    column [c mod 32], and every padding position holds the code of trit zero. *)
Theorem i2s_to_int8_faithful payload shape :
  let n := gn shape in
  let k := gk shape in
  let total := div_ceil n IMMA_N * div_ceil k IMMA_K * IMMA_WTILE_BYTES in
  0 <= n -> 0 <= k -> n * k <= isize_max -> total <= isize_max -> (n * k) mod 128 = 0 ->
  n * k / 4 + 4 <= zlen payload -> i2s_valid payload (n * k) = true ->
  exists w trits scale,
    unpack_i2s_tensor payload (n * k) (vec ZERO (n * k)) = Ok (trits, scale) /\
    convert_i2s_to_int8 payload shape = Ok w /\
    zlen (iw_bytes w) = total /\ iw_scale w = scale /\ iw_n w = n /\ iw_k w = k /\
    (forall r c, 0 <= r < n -> 0 <= c < k ->
       code_at (iw_bytes w) (imma_index (num_ktiles w) r c) = get (tget trits (r * k + c)) + 1) /\
    (forall ci, 0 <= ci < 4 * total ->
       n <= ci / 256 / num_ktiles w * 8 + ci mod 256 / 32 \/
       k <= (ci / 256) mod num_ktiles w * 32 + ci mod 32 -> code_at (iw_bytes w) ci = 1).
Proof.
  intros n k total Hn Hk Hb Htot Hm Hp Hv.
  destruct (convert_i2s_to_int8_spec payload shape) as (bytes & Hc & Hd); try done.
  fold n k in Hc, Hd. fold total in Hd. destruct Hd as (Hlen & _ & Hcode).
  assert (Hnk : 0 <= n * k) by nia. unfold isize_max in *.
  do 3 eexists. split; [|split; [exact Hc|]].
  { rewrite unpack_i2s_tensor_spec by (autorewrite with zlen; unfold isize_max; lia).
    by rewrite Hv. }
  unfold num_ktiles. simpl. split; [done|]. do 3 (split; [done|]).
  change IMMA_K with 32 in *. change IMMA_N with 8 in *. change IMMA_WTILE_BYTES with 64 in *.
  set (KT := div_ceil k 32) in *. set (NT := div_ceil n 8) in *. split.
  - intros r c Hr Hcc. unfold imma_index.
    pose proof (div_ceil_bounds k 32 ltac:(lia)) as HK. fold KT in HK.
    pose proof (div_ceil_bounds n 8 ltac:(lia)) as HN. fold NT in HN.
    assert (Hrc : 0 <= r / 8 < NT /\ 0 <= c / 32 < KT /\ 0 <= r mod 8 < 8 /\ 0 <= c mod 32 < 32)
      by (Z.div_mod_to_equations; lia).
    assert (Htile : 0 <= r / 8 * KT + c / 32 < NT * KT) by nia.
    rewrite <- Z.add_assoc, Hcode by (unfold total; nia).
    replace (_ <? _) with true by (unfold total; nia).
    rewrite imma_code_tile by lia.
    replace (r / 8 * 8 + r mod 8) with r by (Z.div_mod_to_equations; lia).
    replace (c / 32 * 32 + c mod 32) with c by (Z.div_mod_to_equations; lia).
    by replace ((r <? n) && (c <? k)) with true by lia.
  - intros ci Hci Hpad. rewrite Hcode by done. replace (ci <? 4 * total) with true by lia.
    unfold imma_code. by replace (_ && _) with false by lia.
Qed.

Lemma i2s_to_int8_faithful_witness :
  let payload := vec 0x18 32 ++ [0; 0; 0x80; 0x3f] in
  exists w trits scale,
    unpack_i2s_tensor payload 128 (vec ZERO 128) = Ok (trits, scale) /\
    convert_i2s_to_int8 payload (mkGemmShape 1 2 64) = Ok w /\ zlen (iw_bytes w) = 128.
Proof.
  destruct (i2s_to_int8_faithful (vec 0x18 32 ++ [0; 0; 0x80; 0x3f]) (mkGemmShape 1 2 64))
    as (w & trits & scale & H1 & H2 & H3 & _); [by vm_compute..|].
  exists w, trits, scale. split; [exact H1|]. split; [exact H2|exact H3].
Defined.
