(* ===== verification/TB1.v ===== *)
(** * TB1 rows: presence planes and a sign stream (crates/tritium-format/src/tb1.rs)

    A row stores one presence bit per trit, in 32-byte planes per 256 trits, then
    one sign bit per nonzero trit, padded to four bytes. *)

From S2P Require Import Prelude Core FormatBase TwoBit.
From Stdlib Require Import ZArith Lia Bool.
From stdpp Require Import base list numbers.

#[local] Open Scope Z_scope.

Definition TB1_PRESENCE_BYTES : Z := QK_K / 8.

Definition tb1_row_bytes (k nnz : Z) : Z :=
  div_ceil k QK_K * TB1_PRESENCE_BYTES + div_ceil (div_ceil nnz 8) 4 * 4.

(** [*signs.last_mut().expect("pushed") |= bits]. *)
Definition or_last {E} (signs : list Z) (bits : Z) : res E (list Z) :=
  let* b := idx signs (zlen signs - 1) in
  upd signs (zlen signs - 1) (Z.lor b bits).

Definition pack_tb1_step (i : Z) (t : Trit) (st : list Z * list Z * Z)
  : res FormatError (list Z * list Z * Z) :=
  let '(presence, signs, sign_bit) := st in
  let v := get t in
  if negb (v =? 0) then
    let* p := idx presence (i / 8) in
    let* presence := upd presence (i / 8) (Z.lor p (Z.shiftl 1 (i mod 8))) in
    let signs := if is_multiple_of sign_bit 8 then signs ++ [0] else signs in
    let* signs := if 0 <? v then or_last signs (Z.shiftl 1 (sign_bit mod 8)) else Ok signs in
    Ok (presence, signs, sign_bit + 1)
  else Ok st.

(** [while !out.len().is_multiple_of(4) { out.push(0) }]. *)
Fixpoint pad_to_4 {E} (fuel : nat) (out : list Z) : res E (list Z) :=
  match fuel with
  | O => NoFuel
  | S fuel => if is_multiple_of (zlen out) 4 then Ok out else pad_to_4 fuel (out ++ [0])
  end.

Definition pack_tb1_row (trits : list Trit) : res FormatError (list Z) :=
  let k := zlen trits in
  let nb := div_ceil k QK_K in
  let* pres := mul_usize nb TB1_PRESENCE_BYTES in
  let* st := for_enum 0 trits pack_tb1_step (vec 0 pres, [], 0) in
  let '(presence, signs, _) := st in
  pad_to_4 4 (presence ++ signs).

(** One trit of the output; the state is the buffer and the sign cursor. *)
Definition unpack_tb1_step (packed presence signs : list Z) (pres_bytes : Z) (i : Z)
    (st : list Trit * Z) : res FormatError (list Trit * Z) :=
  let '(out, sign_bit) := st in
  let* p := idx presence (i / 8) in
  if negb (Z.land p (Z.shiftl 1 (i mod 8)) =? 0) then
    let* byte := ok_or (signs !! Z.to_nat (sign_bit / 8))
      (WrongBlockLen (pres_bytes + sign_bit / 8 + 1) (zlen packed)) in
    let pos := negb (Z.land byte (Z.shiftl 1 (sign_bit mod 8)) =? 0) in
    let* t := match from_i8 (if pos then 1 else -1) with Ok t => Ok t | _ => Panic end in
    let* out := upd out i t in
    Ok (out, sign_bit + 1)
  else
    let* out := upd out i ZERO in
    Ok (out, sign_bit).

Definition unpack_tb1_row (packed : list Z) (trits_out : list Trit) : res FormatError (list Trit) :=
  let k := zlen trits_out in
  let nb := div_ceil k QK_K in
  let* pres_bytes := mul_usize nb TB1_PRESENCE_BYTES in
  if zlen packed <? pres_bytes then Err (WrongBlockLen pres_bytes (zlen packed)) else
  let* presence := slice packed 0 pres_bytes in
  let* signs := slice packed pres_bytes (zlen packed) in
  let* st := for_range 0 k (unpack_tb1_step packed presence signs pres_bytes) (trits_out, 0) in
  Ok (fst st).

(** * Bits of a byte buffer *)
Definition bit_at (bytes : list Z) (j : Z) : bool := Z.testbit (bget bytes (j / 8)) (j mod 8).

Lemma land_bit b m : 0 <= m -> negb (Z.land b (Z.shiftl 1 m) =? 0) = Z.testbit b m.
Proof.
  intros Hm. destruct (Z.testbit b m) eqn:Hb.
  - destruct (Z.eqb_spec (Z.land b (Z.shiftl 1 m)) 0) as [E|]; [|done].
    apply (f_equal (fun x => Z.testbit x m)) in E.
    rewrite Z.land_spec, Hb, Z.shiftl_spec, Z.sub_diag, Z.bits_0 in E by lia. done.
  - replace (Z.land b (Z.shiftl 1 m)) with 0; [done|]. symmetry. apply Z.bits_inj'. intros n Hn.
    rewrite Z.land_spec, Z.shiftl_spec, Z.bits_0 by lia.
    destruct (Z.eqb_spec n m) as [->|Hne]; [by rewrite Hb|].
    replace (Z.testbit 1 (n - m)) with false; [by rewrite andb_false_r|].
    symmetry. destruct (Z.ltb_spec n m); [by rewrite Z.testbit_neg_r by lia|].
    apply (Z.bits_above_log2 1); simpl; lia.
Qed.

Lemma testbit_lor_bit b m n :
  0 <= m -> 0 <= n -> Z.testbit (Z.lor b (Z.shiftl 1 m)) n = (n =? m) || Z.testbit b n.
Proof.
  intros Hm Hn. rewrite Z.lor_spec, Z.shiftl_spec by lia.
  destruct (Z.eqb_spec n m) as [->|Hne].
  - rewrite Z.sub_diag. change (Z.testbit 1 0) with true. by rewrite orb_true_r.
  - replace (Z.testbit 1 (n - m)) with false; [by rewrite orb_false_r|].
    symmetry. destruct (Z.ltb_spec n m); [by rewrite Z.testbit_neg_r by lia|].
    apply (Z.bits_above_log2 1); simpl; lia.
Qed.

Lemma lor_bit_u8 b m : is_u8 b -> 0 <= m < 8 -> is_u8 (Z.lor b (Z.shiftl 1 m)).
Proof.
  intros Hb Hm. unfold is_u8 in *. rewrite Z.shiftl_1_l.
  assert (0 <= 2 ^ m) by (apply Z.pow_nonneg; lia).
  split; [apply Z.lor_nonneg; lia|]. change 256 with (2 ^ 8).
  destruct (Z.eqb_spec (Z.lor b (2 ^ m)) 0) as [->|Hne]; [done|].
  apply Z.log2_lt_pow2; [apply Z.le_neq; split; [apply Z.lor_nonneg; lia|done]|].
  rewrite Z.log2_lor by lia. rewrite Z.log2_pow2 by lia.
  destruct (Z.eqb_spec b 0) as [->|Hb0]; [simpl; lia|].
  assert (Z.log2 b < 8) by (apply Z.log2_lt_pow2; lia). lia.
Qed.

(** Setting bit [j] of a buffer. *)
Lemma bit_at_set bytes j n :
  0 <= j < 8 * zlen bytes -> 0 <= n ->
  bit_at (<[Z.to_nat (j / 8) := Z.lor (bget bytes (j / 8)) (Z.shiftl 1 (j mod 8))]> bytes) n =
  (n =? j) || bit_at bytes n.
Proof.
  intros Hj Hn. unfold bit_at.
  assert (Hd : 0 <= j / 8 < zlen bytes /\ 0 <= j mod 8 < 8 /\ 0 <= n / 8 /\ 0 <= n mod 8 < 8)
    by (Z.div_mod_to_equations; lia).
  rewrite bget_upd by lia. destruct (Z.eqb_spec (j / 8) (n / 8)) as [E|E].
  - rewrite testbit_lor_bit by lia. rewrite E. f_equal.
    destruct (Z.eqb_spec (n mod 8) (j mod 8)), (Z.eqb_spec n j); try done;
      exfalso; Z.div_mod_to_equations; lia.
  - destruct (Z.eqb_spec n j) as [->|]; [done|]. done.
Qed.

(** * Ranks *)

(** Number of nonzero trits among the first [i]. *)
Definition rank (trits : list Trit) (i : Z) : Z :=
  zlen (filter (fun t => t <> ZERO) (take (Z.to_nat i) trits)).

Definition nnz (trits : list Trit) : Z := zlen (filter (fun t => t <> ZERO) trits).

Lemma rank_0 trits : rank trits 0 = 0.
Proof. done. Qed.

Lemma rank_all trits i : zlen trits <= i -> rank trits i = nnz trits.
Proof. intros Hi. unfold rank, nnz. rewrite take_ge; [done|]. unfold zlen in Hi. lia. Qed.

Lemma rank_S trits i :
  0 <= i < zlen trits ->
  rank trits (i + 1) = rank trits i + if is_zero (tget trits i) then 0 else 1.
Proof.
  intros Hi. destruct (lookup_Z trits i Hi) as [t Ht]. unfold rank, tget. rewrite Ht.
  replace (Z.to_nat (i + 1)) with (S (Z.to_nat i)) by lia.
  rewrite (take_S_r _ _ _ Ht), list.filter_app, zlen_app. f_equal.
  rewrite list.filter_cons. by destruct t.
Qed.

Lemma rank_nonneg trits i : 0 <= rank trits i.
Proof. apply zlen_nonneg. Qed.

Lemma rank_mono trits i j : 0 <= i <= j -> j <= zlen trits -> rank trits i <= rank trits j.
Proof.
  intros Hi Hj. replace j with (i + Z.of_nat (Z.to_nat (j - i))) by lia.
  assert (Hb : i + Z.of_nat (Z.to_nat (j - i)) <= zlen trits) by lia.
  induction (Z.to_nat (j - i)) as [|n IH].
  - rewrite Z.add_0_r. lia.
  - rewrite Nat2Z.inj_succ in *. replace (i + Z.succ (Z.of_nat n)) with (i + Z.of_nat n + 1) by lia.
    rewrite rank_S by lia. specialize (IH ltac:(lia)). destruct (is_zero _); lia.
Qed.

(** * Packing *)

(** The packer's state after [i] trits. *)
Record tb1_packed (trits : list Trit) (pres i : Z) (st : list Z * list Z * Z) : Prop := {
  tp_plen : zlen st.1.1 = pres;
  tp_pbytes : bytes_ok st.1.1;
  tp_slen : zlen st.1.2 = div_ceil st.2 8;
  tp_sbytes : bytes_ok st.1.2;
  tp_rank : st.2 = rank trits i;
  tp_presence : forall j, 0 <= j < 8 * pres ->
    bit_at st.1.1 j = (j <? i) && negb (is_zero (tget trits j));
  tp_sign : forall j, 0 <= j < i -> tget trits j <> ZERO ->
    bit_at st.1.2 (rank trits j) = (0 <? get (tget trits j));
  tp_fresh : forall s, st.2 <= s -> bit_at st.1.2 s = false
}.

Lemma bget_past b i : zlen b <= i -> bget b i = 0.
Proof.
  intros Hi. unfold bget. rewrite lookup_ge_None_2; [done|]. unfold zlen in Hi. lia.
Qed.

Lemma bit_at_snoc0 b j : 0 <= j -> bit_at (b ++ [0]) j = bit_at b j.
Proof.
  intros Hj. unfold bit_at. assert (0 <= j / 8) by (Z.div_mod_to_equations; lia).
  destruct (Z.ltb_spec (j / 8) (zlen b)) as [H1|H1].
  - by rewrite bget_app_l by lia.
  - rewrite (bget_past b) by lia. destruct (Z.eqb_spec (j / 8) (zlen b)) as [E|E].
    + unfold bget. rewrite lookup_app_r by (unfold zlen in *; lia).
      by replace (Z.to_nat (j / 8) - length b)%nat with 0%nat by (unfold zlen in *; lia).
    + by rewrite bget_past by (autorewrite with zlen; lia).
Qed.

(** The sign buffer once room for bit [sb] has been made. *)
Lemma sign_room signs sb :
  0 <= sb -> zlen signs = div_ceil sb 8 -> bytes_ok signs ->
  let signs' := if is_multiple_of sb 8 then signs ++ [0] else signs in
  zlen signs' = sb / 8 + 1 /\ bytes_ok signs' /\ zlen signs' = div_ceil (sb + 1) 8 /\
  forall j, 0 <= j -> bit_at signs' j = bit_at signs j.
Proof.
  intros Hsb Hl Hb signs'. unfold signs', is_multiple_of. change (8 =? 0) with false. cbv iota.
  destruct (Z.eqb_spec (sb mod 8) 0) as [E|E].
  - unfold div_ceil in *. split; [autorewrite with zlen; Z.div_mod_to_equations; lia|].
    split; [apply Forall_app; split; [done|by repeat constructor]|].
    split; [autorewrite with zlen; Z.div_mod_to_equations; lia|].
    intros j Hj. by apply bit_at_snoc0.
  - unfold div_ceil in *. split; [Z.div_mod_to_equations; lia|]. split; [done|].
    split; [Z.div_mod_to_equations; lia|done].
Qed.

Lemma or_last_bit signs sb :
  0 <= sb -> zlen signs = sb / 8 + 1 -> bytes_ok signs ->
  exists signs', or_last (E := FormatError) signs (Z.shiftl 1 (sb mod 8)) = Ok signs' /\
    zlen signs' = zlen signs /\ bytes_ok signs' /\
    forall j, 0 <= j -> bit_at signs' j = (j =? sb) || bit_at signs j.
Proof.
  intros Hsb Hl Hb. unfold or_last.
  assert (Hd : 0 <= sb / 8 /\ 0 <= sb mod 8 < 8) by (Z.div_mod_to_equations; lia).
  replace (zlen signs - 1) with (sb / 8) by lia. rewrite idx_bget by lia. cbn [bind].
  rewrite upd_Ok by lia. eexists. split; [done|]. split; [apply zlen_insert|].
  split; [apply Forall_insert; [done|]; apply lor_bit_u8; [by apply bget_u8|lia]|].
  intros j Hj. apply bit_at_set; [Z.div_mod_to_equations; lia|done].
Qed.

Lemma pack_tb1_step_ok trits pres i t st :
  0 <= i -> trits !! Z.to_nat i = Some t -> zlen trits <= 8 * pres ->
  tb1_packed trits pres i st ->
  exists st', pack_tb1_step i t st = Ok st' /\ tb1_packed trits pres (i + 1) st'.
Proof.
  intros Hi Ht Hp HI. destruct st as [[presence signs] sb].
  destruct HI as [Hpl Hpb Hsl Hsb Hr Hpr Hsg Hfr]. simpl in *.
  assert (Htg : tget trits i = t) by (unfold tget; by rewrite Ht).
  pose proof (lookup_Z_lt trits i t Hi Ht) as Hlt. pose proof (rank_nonneg trits i) as Hr0.
  pose proof (rank_S trits i ltac:(lia)) as HrS. rewrite Htg in HrS.
  unfold pack_tb1_step. destruct (Z.eqb_spec (get t) 0) as [Hz|Hz]; cbn [negb].
  { assert (t = ZERO) as -> by (by apply get_inj). exists (presence, signs, sb). split; [done|].
    constructor; simpl; try done; [rewrite HrS; simpl; lia| |].
    - intros j Hj. rewrite Hpr by done. destruct (Z.eqb_spec j i) as [->|Hne].
      + rewrite Htg. by rewrite !andb_false_r.
      + f_equal. lia.
    - intros j Hj Hnz. destruct (Z.eqb_spec j i) as [->|Hne]; [by rewrite Htg in Hnz|].
      apply Hsg; [lia|done]. }
  assert (Hnz : is_zero t = false) by (unfold is_zero; lia). rewrite Hnz in HrS.
  assert (Hd : 0 <= i / 8 < pres /\ 0 <= i mod 8 < 8) by (Z.div_mod_to_equations; lia).
  rewrite idx_bget by lia. cbn [bind]. rewrite upd_Ok by lia. cbn [bind].
  destruct (sign_room signs sb ltac:(lia) Hsl Hsb) as (Hl1 & Hb1 & Hl2 & Hbit).
  set (signs1 := if is_multiple_of sb 8 then signs ++ [0] else signs) in *.
  assert (Hs : exists signs2,
    (if 0 <? get t then or_last signs1 (Z.shiftl 1 (sb mod 8)) else Ok signs1) =
      Ok (E := FormatError) signs2 /\ zlen signs2 = zlen signs1 /\ bytes_ok signs2 /\
    forall j, 0 <= j -> bit_at signs2 j = (0 <? get t) && (j =? sb) || bit_at signs1 j).
  { destruct (0 <? get t); [|by exists signs1]. apply or_last_bit; [lia|done|done]. }
  destruct Hs as (signs2 & -> & Hl3 & Hb3 & Hbit2). cbn [bind].
  eexists. split; [done|]. constructor; simpl.
  - by rewrite zlen_insert.
  - apply Forall_insert; [done|]. apply lor_bit_u8; [by apply bget_u8|lia].
  - lia.
  - done.
  - lia.
  - intros j Hj. rewrite bit_at_set by lia. rewrite Hpr by done.
    destruct (Z.eqb_spec j i) as [->|Hne].
    + rewrite Htg, Hnz. lia.
    + cbn [orb]. f_equal. lia.
  - intros j Hj Hnzj. pose proof (rank_nonneg trits j). rewrite Hbit2, Hbit by lia.
    destruct (Z.eqb_spec j i) as [->|Hne].
    + rewrite Htg, <- Hr, Z.eqb_refl, andb_true_r. rewrite (Hfr sb) by lia. by rewrite orb_false_r.
    + pose proof (rank_mono trits (j + 1) i ltac:(lia) ltac:(lia)) as Hm.
      rewrite rank_S in Hm by lia.
      assert (Hzj : is_zero (tget trits j) = false) by (by destruct (tget trits j)).
      rewrite Hzj in Hm. replace (rank trits j =? sb) with false by lia.
      rewrite andb_false_r. cbn [orb]. apply Hsg; [lia|done].
  - intros s Hs'. rewrite Hbit2, Hbit by lia. rewrite Hfr by lia.
    replace (s =? sb) with false by lia. by rewrite andb_false_r.
Qed.

Lemma pad_to_4_ok (out : list Z) :
  exists pad, pad_to_4 (E := FormatError) 4 out = Ok (out ++ vec 0 pad) /\
    0 <= pad < 4 /\ (zlen out + pad) mod 4 = 0.
Proof.
  pose proof (Z.mod_pos_bound (zlen out) 4 ltac:(lia)) as Hm.
  set (pad := (4 - zlen out mod 4) mod 4).
  assert (Hp : 0 <= pad < 4 /\ (zlen out + pad) mod 4 = 0)
    by (unfold pad; clear; Z.div_mod_to_equations; lia).
  exists pad. split; [|done].
  assert (Hgen : forall n fuel o, (n < fuel)%nat -> (n < 4)%nat ->
    (zlen o + Z.of_nat n) mod 4 = 0 -> pad_to_4 (E := FormatError) fuel o = Ok (o ++ vec 0 (Z.of_nat n))).
  { induction n as [|n IH]; intros [|fuel] o Hf Hn Ho; try lia; simpl; unfold is_multiple_of;
      change (4 =? 0) with false; cbv iota.
    - replace (zlen o mod 4 =? 0) with true by (clear - Ho; Z.div_mod_to_equations; lia).
      by rewrite app_nil_r.
    - replace (zlen o mod 4 =? 0) with false by (clear - Ho Hn; Z.div_mod_to_equations; lia).
      rewrite IH; [|lia|lia|].
      + rewrite <- app_assoc. unfold vec. rewrite !Nat2Z.id. done.
      + rewrite <- Ho. f_equal. autorewrite with zlen. lia. }
  clearbody pad. rewrite <- (Z2Nat.id pad) by lia.
  apply Hgen; [lia|lia|]. rewrite Z2Nat.id by lia. apply Hp.
Qed.

Definition pres_bytes_of (k : Z) : Z := div_ceil k QK_K * TB1_PRESENCE_BYTES.

Lemma pres_bytes_bound k :
  0 <= k -> 0 <= pres_bytes_of k /\ k <= 8 * pres_bytes_of k /\ 8 * pres_bytes_of k < k + 256 /\
  pres_bytes_of k mod 4 = 0.
Proof.
  intros Hk. unfold pres_bytes_of. pose proof (div_ceil_bounds k QK_K ltac:(unfold QK_K; lia)) as H.
  change TB1_PRESENCE_BYTES with 32. unfold QK_K in *. Z.div_mod_to_equations; lia.
Qed.

Lemma pack_tb1_row_ok trits :
  zlen trits <= isize_max ->
  exists presence signs pad, pack_tb1_row trits = Ok (presence ++ signs ++ vec 0 pad) /\
    0 <= pad < 4 /\ (zlen presence + (zlen signs + pad)) mod 4 = 0 /\
    tb1_packed trits (pres_bytes_of (zlen trits)) (zlen trits) (presence, signs, nnz trits).
Proof.
  intros Hk. pose proof (zlen_nonneg trits) as Hk0.
  destruct (pres_bytes_bound (zlen trits) Hk0) as (H0 & H1 & H2 & _).
  unfold pack_tb1_row. fold (pres_bytes_of (zlen trits)).
  unfold mul_usize, checked_mul, usize_max. fold (pres_bytes_of (zlen trits)).
  unfold isize_max in Hk. replace (_ <=? _) with true by lia. cbn [bind unwrap].
  destruct (for_enum_inv (tb1_packed trits (pres_bytes_of (zlen trits))) pack_tb1_step trits 0
    (vec 0 (pres_bytes_of (zlen trits)), [], 0)) as ([[presence signs] sb] & -> & HI).
  - constructor; simpl; try done.
    + autorewrite with zlen. lia.
    + apply Forall_replicate. unfold is_u8. lia.
    + intros j Hj. replace (j <? 0) with false by lia. unfold bit_at, bget.
      rewrite lookup_vec by (Z.div_mod_to_equations; lia). apply Z.bits_0.
    + intros j Hj. lia.
    + intros s Hs. unfold bit_at. rewrite bget_past by (rewrite zlen_nil; Z.div_mod_to_equations; lia).
      apply Z.bits_0.
  - intros i t st Hi Ht HI. rewrite Z.sub_0_r in Ht.
    by apply pack_tb1_step_ok.
  - cbn [bind]. destruct (pad_to_4_ok (presence ++ signs)) as (pad & -> & Hp & Hm).
    exists presence, signs, pad. rewrite <- app_assoc. split; [done|]. split; [done|].
    rewrite zlen_app in Hm. split; [rewrite <- Hm; f_equal; lia|].
    assert (Hsb : sb = nnz trits).
    { pose proof (tp_rank _ _ _ _ HI) as Hr. simpl in Hr.
      rewrite rank_all in Hr by (autorewrite with zlen in *; lia). done. }
    rewrite <- Hsb. exact HI.
Qed.

(** * Unpacking *)

Lemma unpack_tb1_packed trits pres presence signs rest packed i out :
  tb1_packed trits pres (zlen trits) (presence, signs, nnz trits) ->
  zlen trits <= 8 * pres -> 0 <= i < zlen trits -> zlen out = zlen trits ->
  unpack_tb1_step packed presence (signs ++ rest) pres i (out, rank trits i) =
  Ok (<[Z.to_nat i := tget trits i]> out, rank trits (i + 1)).
Proof.
  intros [Hpl Hpb Hsl Hsb Hr Hpr Hsg Hfr] Hk Hi Ho. simpl in *. unfold unpack_tb1_step.
  assert (Hd : 0 <= i / 8 < pres /\ 0 <= i mod 8) by (Z.div_mod_to_equations; lia).
  rewrite idx_bget by lia. cbn [bind]. rewrite land_bit by lia.
  fold (bit_at presence i). rewrite Hpr by lia. replace (i <? zlen trits) with true by lia.
  pose proof (rank_S trits i Hi) as HrS. cbn [andb]. rewrite upd_Ok by lia.
  destruct (is_zero (tget trits i)) eqn:Hz; cbn [negb].
  { assert (tget trits i = ZERO) as -> by (by destruct (tget trits i)). cbn [bind].
    rewrite HrS, Z.add_0_r. done. }
  assert (Hnz : tget trits i <> ZERO) by (by destruct (tget trits i)).
  pose proof (rank_nonneg trits i) as H0.
  pose proof (rank_mono trits (i + 1) (zlen trits) ltac:(lia) ltac:(lia)) as Hm.
  rewrite (rank_all trits (zlen trits)) in Hm by lia.
  assert (Hs : 0 <= rank trits i / 8 < zlen signs /\ 0 <= rank trits i mod 8)
    by (rewrite Hsl; unfold div_ceil; Z.div_mod_to_equations; lia).
  assert (Hbyte : (signs ++ rest) !! Z.to_nat (rank trits i / 8) = Some (bget signs (rank trits i / 8))).
  { rewrite lookup_app_l by (unfold zlen in Hs; lia). unfold bget.
    by destruct (lookup_Z signs (rank trits i / 8)) as [x ->]; [lia|]. }
  rewrite Hbyte. cbn [ok_or bind]. rewrite land_bit by lia. fold (bit_at signs (rank trits i)).
  rewrite Hsg by (done || lia). rewrite HrS. destruct (tget trits i); [|done|]; cbn [get Z.ltb Z.compare from_i8 Z.eqb Pos.eqb bind];
    by rewrite upd_Ok by lia.
Qed.

Lemma unpack_tb1_row_ok trits presence signs rest buf :
  zlen trits <= isize_max ->
  tb1_packed trits (pres_bytes_of (zlen trits)) (zlen trits) (presence, signs, nnz trits) ->
  zlen buf = zlen trits ->
  unpack_tb1_row (presence ++ signs ++ rest) buf = Ok trits.
Proof.
  intros Hk HI Hb. pose proof (zlen_nonneg trits) as Hk0.
  destruct (pres_bytes_bound (zlen trits) Hk0) as (H0 & H1 & H2 & _).
  unfold unpack_tb1_row. rewrite Hb.
  unfold mul_usize, checked_mul, usize_max. fold (pres_bytes_of (zlen trits)).
  unfold isize_max in Hk. replace (_ <=? _) with true by lia. cbn [bind unwrap].
  set (pres := pres_bytes_of (zlen trits)) in *.
  assert (Hpl : zlen presence = pres) by apply HI.
  set (packed := presence ++ signs ++ rest).
  assert (Hlen : zlen packed = pres + zlen (signs ++ rest)) by (unfold packed; rewrite zlen_app; lia).
  pose proof (zlen_nonneg (signs ++ rest)). replace (zlen packed <? pres) with false by lia.
  rewrite slice_Ok by lia. cbn [bind]. rewrite slice_Ok by lia. cbn [bind].
  replace (sub packed 0 pres) with presence by (rewrite <- Hpl; symmetry; apply sub_app_l).
  replace (sub packed pres (zlen packed)) with (signs ++ rest)
    by (rewrite <- Hpl; symmetry; apply sub_app_r; rewrite <- zlen_app; done).
  destruct (for_range_inv (fun i st => zlen (fst st) = zlen trits /\ snd st = rank trits i /\
      forall j, 0 <= j < i -> tget (fst st) j = tget trits j)
    (unpack_tb1_step packed presence (signs ++ rest) pres) 0 (zlen trits) (buf, 0))
    as ([out sb] & -> & Ho & _ & Htr); [lia| | |].
  - split; [done|]. split; [done|]. intros j Hj. lia.
  - intros i [out sb] Hi (Ho & Hsb & Htr). simpl in Ho, Hsb, Htr. subst sb.
    rewrite (unpack_tb1_packed trits pres) by (done || lia). eexists. split; [done|].
    split; [cbn [fst]; by rewrite zlen_insert|]. split; [done|]. intros j Hj. simpl.
    unfold tget at 1. rewrite lookup_upd by lia. destruct (Z.eqb_spec i j) as [->|Hne]; [done|].
    apply Htr. lia.
  - cbn [bind fst]. f_equal. apply trits_eq; [done|]. simpl in *. intros i Hi. apply Htr. lia.
Qed.

Lemma unpack_tb1_row_returns packed buf :
  zlen buf <= isize_max -> returns (unpack_tb1_row packed buf).
Proof.
  intros Hk. pose proof (zlen_nonneg buf) as Hk0.
  destruct (pres_bytes_bound (zlen buf) Hk0) as (H0 & H1 & H2 & _).
  unfold unpack_tb1_row, mul_usize, checked_mul, usize_max. fold (pres_bytes_of (zlen buf)).
  unfold isize_max in Hk. replace (_ <=? _) with true by lia. cbn [bind unwrap].
  set (pres := pres_bytes_of (zlen buf)) in *.
  destruct (Z.ltb_spec (zlen packed) pres); [done|].
  rewrite !slice_Ok by lia. cbn [bind]. apply returns_bind; [|done].
  apply (for_range_returns (fun i st => zlen (fst st) = zlen buf)); [lia|done|].
  intros i [out sb] Hi Ho. simpl in Ho. unfold unpack_tb1_step.
  rewrite idx_bget by (rewrite zlen_sub by lia; Z.div_mod_to_equations; lia). cbn [bind].
  destruct (negb _).
  - destruct (sub packed pres (zlen packed) !! Z.to_nat (sb / 8)) as [byte|]; [|done].
    cbn [ok_or bind]. destruct (negb _); simpl; rewrite upd_Ok by lia; simpl;
      (split; [done|]); intros st' [= <-]; cbn [fst]; by rewrite zlen_insert.
  - rewrite upd_Ok by lia. simpl. split; [done|]. intros st' [= <-]. cbn [fst]; by rewrite zlen_insert.
Qed.

(** * Properties *)

(** A TB1 row of any length unpacks to the trits it was packed from, also
    when bytes of the next row or slack follow it; and it occupies exactly
    [tb1_row_bytes k nnz] bytes for [nnz] nonzero trits. *)
Theorem tb1_row_roundtrip trits rest buf :
  zlen trits <= isize_max -> zlen buf = zlen trits ->
  exists packed, pack_tb1_row trits = Ok packed /\
    zlen packed = tb1_row_bytes (zlen trits) (nnz trits) /\
    unpack_tb1_row (packed ++ rest) buf = Ok trits.
Proof.
  intros Hk Hb. destruct (pack_tb1_row_ok trits Hk) as (presence & signs & pad & Hp & Hpad & Hm & HI).
  eexists. split; [exact Hp|]. split.
  - autorewrite with zlen. pose proof (tp_plen _ _ _ _ HI) as Hpl. pose proof (tp_slen _ _ _ _ HI) as Hsl.
    simpl in Hpl, Hsl. destruct (pres_bytes_bound (zlen trits) ltac:(auto with rust)) as (_ & _ & _ & H4).
    rewrite Hsl, Hpl in *. unfold tb1_row_bytes. fold (pres_bytes_of (zlen trits)).
    set (q := div_ceil (nnz trits) 8) in *. set (p := pres_bytes_of (zlen trits)) in *.
    unfold div_ceil. clear - Hm H4 Hpad. Z.div_mod_to_equations; lia.
  - rewrite <- !app_assoc. by apply unpack_tb1_row_ok.
Qed.

Lemma tb1_row_roundtrip_witness :
  exists packed, pack_tb1_row [NEG; ZERO; POS] = Ok packed /\
    zlen packed = tb1_row_bytes 3 2 /\
    unpack_tb1_row (packed ++ [255; 255]) [ZERO; ZERO; ZERO] = Ok [NEG; ZERO; POS].
Proof.
  apply (tb1_row_roundtrip [NEG; ZERO; POS] [255; 255] [ZERO; ZERO; ZERO]); by vm_compute.
Defined.

(** Unpacking arbitrary bytes as a TB1 row never panics: a sign stream
    shorter than the presence bits imply is an error, and no index is out of range. *)
Theorem tb1_unpack_never_panics packed buf :
  zlen buf <= isize_max -> returns (unpack_tb1_row packed buf).
Proof. apply unpack_tb1_row_returns. Qed.

Lemma tb1_unpack_never_panics_witness :
  unpack_tb1_row (vec 255 32) (vec ZERO 9) = Err (WrongBlockLen 33 32) /\
  returns (unpack_tb1_row (vec 255 32) (vec ZERO 9)).
Proof.
  split; [by vm_compute|]. apply (tb1_unpack_never_panics (vec 255 32) (vec ZERO 9)). by vm_compute.
Defined.
