(* ===== verification/LeCursor.v ===== *)
(** * The bounds-checked little-endian cursor (crates/tritium-format/src/le_cursor.rs)

    The cursor is a value threaded through the reads; the parsers built on it are
    in Corpus.v. *)

From S2P Require Import Prelude Core FormatBase TwoBit.
From Stdlib Require Import ZArith Lia Bool.
From stdpp Require Import base list numbers.

#[local] Open Scope Z_scope.

Record LeCursor := mkLeCursor { lc_b : list Z; lc_o : Z }.

Definition lc_new (b : list Z) : LeCursor := mkLeCursor b 0.

Definition lc_remaining {E} (c : LeCursor) : res E Z := sub_usize (zlen (lc_b c)) (lc_o c).

Definition lc_take (c : LeCursor) (n : Z) : res FormatError (list Z * LeCursor) :=
  match checked_add (lc_o c) n with
  | None => let* r := lc_remaining c in Err (WrongBlockLen n r)
  | Some end_ =>
      if zlen (lc_b c) <? end_ then let* r := lc_remaining c in Err (WrongBlockLen n r) else
      let* s := slice (lc_b c) (lc_o c) end_ in
      Ok (s, mkLeCursor (lc_b c) end_)
  end.

Definition lc_u8 (c : LeCursor) : res FormatError (Z * LeCursor) :=
  let* (s, c) := lc_take c 1 in
  let* x := idx s 0 in
  Ok (x, c).

Definition lc_u16 (c : LeCursor) : res FormatError (Z * LeCursor) :=
  let* (s, c) := lc_take c 2 in
  let* b0 := idx s 0 in
  let* b1 := idx s 1 in
  Ok (from_le [b0; b1], c).

Definition lc_u32 (c : LeCursor) : res FormatError (Z * LeCursor) :=
  let* (s, c) := lc_take c 4 in
  let* b0 := idx s 0 in
  let* b1 := idx s 1 in
  let* b2 := idx s 2 in
  let* b3 := idx s 3 in
  Ok (from_le [b0; b1; b2; b3], c).

(** [s.try_into().expect(...)] panics unless the slice has eight bytes. *)
Definition lc_u64 (c : LeCursor) : res FormatError (Z * LeCursor) :=
  let* (s, c) := lc_take c 8 in
  if zlen s =? 8 then Ok (from_le s, c) else Panic.

(** * The cursor invariant *)

(** The offset never leaves the buffer, and the buffer is addressable. *)
Definition lc_ok (c : LeCursor) : Prop :=
  0 <= lc_o c <= zlen (lc_b c) /\ zlen (lc_b c) <= isize_max /\ bytes_ok (lc_b c).

Lemma lc_new_ok b : zlen b <= isize_max -> bytes_ok b -> lc_ok (lc_new b).
Proof. intros Hb Hu. pose proof (zlen_nonneg b). split; simpl; [lia|done]. Qed.

Lemma lc_remaining_ok {E} c : lc_ok c -> lc_remaining (E := E) c = Ok (zlen (lc_b c) - lc_o c).
Proof.
  intros [Ho _]. unfold lc_remaining, sub_usize, checked_sub.
  by replace (lc_o c <=? zlen (lc_b c)) with true by lia.
Qed.

(** [take] returns the next [n] bytes when they are there and an error, with the
    number of bytes left, when they are not. *)
Lemma lc_take_spec c n :
  lc_ok c -> is_usize n ->
  lc_take c n =
    if n <=? zlen (lc_b c) - lc_o c
    then Ok (sub (lc_b c) (lc_o c) (lc_o c + n), mkLeCursor (lc_b c) (lc_o c + n))
    else Err (WrongBlockLen n (zlen (lc_b c) - lc_o c)).
Proof.
  intros Hc Hn. pose proof Hc as [Ho [Hm _]]. unfold lc_take, checked_add, usize_max.
  unfold isize_max, is_usize in *. rewrite (lc_remaining_ok c Hc).
  destruct (Z.leb_spec n (zlen (lc_b c) - lc_o c)).
  - replace (_ <=? _) with true by lia. replace (_ <? _) with false by lia.
    rewrite slice_Ok by lia. done.
  - destruct (_ <=? _); [|done]. by replace (_ <? _) with true by lia.
Qed.

Lemma lc_take_inv c n s c' :
  lc_ok c -> is_usize n -> lc_take c n = Ok (s, c') ->
  lc_ok c' /\ zlen s = n /\ bytes_ok s /\ lc_b c' = lc_b c /\ lc_o c' = lc_o c + n.
Proof.
  intros Hc Hn. rewrite lc_take_spec by done. destruct (Z.leb_spec n (zlen (lc_b c) - lc_o c)); [|done].
  intros [= <- <-]. destruct Hc as [Ho [Hm Hu]]. unfold is_usize in Hn.
  split; [split; simpl; [lia|done]|]. split; [rewrite zlen_sub; lia|].
  split; [by apply bytes_ok_sub|done].
Qed.

(** Every fixed-width read is a [take] and a little-endian decode. *)
Definition lc_int (n : Z) (c : LeCursor) : res FormatError (Z * LeCursor) :=
  let* (s, c') := lc_take c n in Ok (from_le s, c').

Ltac fixed_width Hc n :=
  unfold lc_int;
  match goal with |- context [lc_take ?c _] =>
    destruct (lc_take c n) as [[s c']|e| |] eqn:Ht; try done;
    destruct (lc_take_inv c n s c' Hc ltac:(unfold is_usize; lia) Ht) as (_ & Hl & _);
    unfold zlen in Hl; do 9 (try (destruct s as [|? s]; simpl in Hl; try lia)); try done
  end.

Lemma lc_u8_int c : lc_ok c -> lc_u8 c = lc_int 1 c.
Proof. intros Hc. unfold lc_u8. fixed_width Hc 1. simpl. by rewrite Z.add_0_r. Qed.
Lemma lc_u16_int c : lc_ok c -> lc_u16 c = lc_int 2 c.
Proof. intros Hc. unfold lc_u16. fixed_width Hc 2. Qed.
Lemma lc_u32_int c : lc_ok c -> lc_u32 c = lc_int 4 c.
Proof. intros Hc. unfold lc_u32. fixed_width Hc 4. Qed.
Lemma lc_u64_int c : lc_ok c -> lc_u64 c = lc_int 8 c.
Proof. intros Hc. unfold lc_u64. fixed_width Hc 8. Qed.

Lemma lc_int_inv n c x c' :
  lc_ok c -> 0 <= n <= 8 -> lc_int n c = Ok (x, c') ->
  lc_ok c' /\ 0 <= x < 256 ^ n /\ lc_b c' = lc_b c /\ lc_o c' = lc_o c + n.
Proof.
  intros Hc Hn H. unfold lc_int in H. bind_inv H. destruct v as [s c1]. injection H as <- <-.
  destruct (lc_take_inv c n s c1 Hc ltac:(unfold is_usize; lia) Hv) as (Hc1 & Hl & Hu & Hb & Ho).
  pose proof (from_le_bound s Hu) as Hx. rewrite Hl in Hx. done.
Qed.

Lemma lc_take_returns c n : lc_ok c -> is_usize n -> returns (lc_take c n).
Proof. intros Hc Hn. rewrite lc_take_spec by done. by destruct (_ <=? _). Qed.

Lemma lc_int_returns n c : lc_ok c -> 0 <= n <= 8 -> returns (lc_int n c).
Proof.
  intros Hc Hn. apply returns_bind; [apply lc_take_returns; [done|unfold is_usize; lia]|].
  by intros [s c'] _.
Qed.

(** * Reading what was written

    The cursor that has consumed [pre] of [pre ++ rest]. *)
Definition lc_at (pre rest : list Z) : LeCursor := mkLeCursor (pre ++ rest) (zlen pre).

Lemma lc_at_start b : lc_new b = lc_at [] b.
Proof. done. Qed.

Lemma lc_at_ok pre rest :
  zlen (pre ++ rest) <= isize_max -> bytes_ok (pre ++ rest) -> lc_ok (lc_at pre rest).
Proof.
  intros Hl Hu. split; [|done]. simpl. rewrite zlen_app.
  pose proof (zlen_nonneg pre). pose proof (zlen_nonneg rest). lia.
Qed.

Lemma lc_take_at pre x rest n :
  lc_ok (lc_at pre (x ++ rest)) -> n = zlen x ->
  lc_take (lc_at pre (x ++ rest)) n = Ok (x, lc_at (pre ++ x) rest).
Proof.
  intros Hc ->. pose proof (zlen_nonneg x). pose proof (zlen_nonneg rest). pose proof (zlen_nonneg pre).
  rewrite lc_take_spec; [|done|].
  - simpl. rewrite !zlen_app. replace (_ <=? _) with true by lia. unfold lc_at.
    rewrite zlen_app, <- app_assoc. do 2 f_equal. unfold sub.
    replace (Z.to_nat (zlen pre)) with (length pre) by (unfold zlen; lia).
    rewrite drop_app_length.
    replace (Z.to_nat (zlen pre + zlen x - zlen pre)) with (length x) by (unfold zlen; lia).
    apply take_app_length.
  - destruct Hc as [_ [Hm _]]. simpl in Hm. rewrite !zlen_app in Hm. unfold isize_max in Hm.
    unfold is_usize. lia.
Qed.

Lemma lc_int_at pre rest (n : nat) v :
  lc_ok (lc_at pre (to_le n v ++ rest)) -> 0 <= v < 256 ^ Z.of_nat n ->
  lc_int (Z.of_nat n) (lc_at pre (to_le n v ++ rest)) = Ok (v, lc_at (pre ++ to_le n v) rest).
Proof.
  intros Hc Hv. unfold lc_int. rewrite lc_take_at by (done || by rewrite zlen_to_le). cbn [bind].
  by rewrite from_to_le.
Qed.

Lemma lc_remaining_at {E} pre rest : lc_remaining (E := E) (lc_at pre rest) = Ok (zlen rest).
Proof.
  unfold lc_remaining, sub_usize, checked_sub, lc_at. cbn [lc_b lc_o]. rewrite zlen_app.
  pose proof (zlen_nonneg rest). replace (_ <=? _) with true by lia. simpl. f_equal. lia.
Qed.

Lemma lc_at_next pre x rest : lc_ok (lc_at pre (x ++ rest)) -> lc_ok (lc_at (pre ++ x) rest).
Proof.
  intros [Ho [Hm Hu]]. apply lc_at_ok; rewrite <- app_assoc; done.
Qed.

(** * What a successful read says about the bytes *)

Lemma lc_take_back pre rest n s c' :
  lc_ok (lc_at pre rest) -> is_usize n -> lc_take (lc_at pre rest) n = Ok (s, c') ->
  exists rest', rest = s ++ rest' /\ c' = lc_at (pre ++ s) rest' /\ zlen s = n /\ bytes_ok s.
Proof.
  intros Hc Hn H. destruct (lc_take_inv _ _ _ _ Hc Hn H) as (_ & Hl & Hu & _).
  rewrite lc_take_spec in H by done. simpl in H. unfold is_usize in Hn.
  pose proof (zlen_nonneg pre). destruct (Z.leb_spec n (zlen (pre ++ rest) - zlen pre)) as [Hle|]; [|done].
  rewrite zlen_app in Hle. injection H as Hs Hc'.
  assert (Hs' : s = take (Z.to_nat n) rest).
  { rewrite <- Hs. unfold sub. replace (Z.to_nat (zlen pre)) with (length pre) by (unfold zlen; lia).
    rewrite drop_app_length. f_equal. lia. }
  clear Hs. exists (drop (Z.to_nat n) rest). rewrite Hs'. rewrite take_drop. split; [done|].
  split; [|rewrite <- Hs'; done]. unfold lc_at. rewrite <- app_assoc, take_drop.
  rewrite <- Hc', zlen_app, <- Hs', Hl. done.
Qed.

Lemma lc_int_back pre rest (n : nat) x c' :
  lc_ok (lc_at pre rest) -> (n <= 8)%nat -> lc_int (Z.of_nat n) (lc_at pre rest) = Ok (x, c') ->
  exists rest', rest = to_le n x ++ rest' /\ c' = lc_at (pre ++ to_le n x) rest' /\
    0 <= x < 256 ^ Z.of_nat n.
Proof.
  intros Hc Hn H. unfold lc_int in H. bind_inv H. destruct v as [s c1]. injection H as <- <-.
  destruct (lc_take_back pre rest (Z.of_nat n) s c1 Hc ltac:(unfold is_usize; lia) Hv)
    as (rest' & -> & -> & Hl & Hu).
  assert (Hsn : length s = n) by (unfold zlen in Hl; lia).
  exists rest'. rewrite <- Hsn at 1 2. rewrite to_from_le by done. split; [done|]. split; [done|].
  rewrite <- Hl. by apply from_le_bound.
Qed.

(** The four widths at a known position, forwards and backwards. *)
Lemma lc_u8_at pre rest v :
  lc_ok (lc_at pre (to_le 1 v ++ rest)) -> is_u8 v ->
  lc_u8 (lc_at pre (to_le 1 v ++ rest)) = Ok (v, lc_at (pre ++ to_le 1 v) rest).
Proof. intros Hc Hv. rewrite lc_u8_int by done. by apply (lc_int_at pre rest 1). Qed.
Lemma lc_u8_back pre rest x c' :
  lc_ok (lc_at pre rest) -> lc_u8 (lc_at pre rest) = Ok (x, c') ->
  exists rest', rest = to_le 1 x ++ rest' /\ c' = lc_at (pre ++ to_le 1 x) rest' /\ is_u8 x.
Proof. intros Hc. rewrite lc_u8_int by done. apply (lc_int_back pre rest 1); [done|lia]. Qed.
Lemma lc_u16_at pre rest v :
  lc_ok (lc_at pre (to_le 2 v ++ rest)) -> is_u16 v ->
  lc_u16 (lc_at pre (to_le 2 v ++ rest)) = Ok (v, lc_at (pre ++ to_le 2 v) rest).
Proof. intros Hc Hv. rewrite lc_u16_int by done. by apply (lc_int_at pre rest 2). Qed.
Lemma lc_u16_back pre rest x c' :
  lc_ok (lc_at pre rest) -> lc_u16 (lc_at pre rest) = Ok (x, c') ->
  exists rest', rest = to_le 2 x ++ rest' /\ c' = lc_at (pre ++ to_le 2 x) rest' /\ is_u16 x.
Proof. intros Hc. rewrite lc_u16_int by done. apply (lc_int_back pre rest 2); [done|lia]. Qed.
Lemma lc_u32_at pre rest v :
  lc_ok (lc_at pre (to_le 4 v ++ rest)) -> is_u32 v ->
  lc_u32 (lc_at pre (to_le 4 v ++ rest)) = Ok (v, lc_at (pre ++ to_le 4 v) rest).
Proof. intros Hc Hv. rewrite lc_u32_int by done. by apply (lc_int_at pre rest 4). Qed.
Lemma lc_u32_back pre rest x c' :
  lc_ok (lc_at pre rest) -> lc_u32 (lc_at pre rest) = Ok (x, c') ->
  exists rest', rest = to_le 4 x ++ rest' /\ c' = lc_at (pre ++ to_le 4 x) rest' /\ is_u32 x.
Proof. intros Hc. rewrite lc_u32_int by done. apply (lc_int_back pre rest 4); [done|lia]. Qed.
Lemma lc_u64_at pre rest v :
  lc_ok (lc_at pre (to_le 8 v ++ rest)) -> is_u64 v ->
  lc_u64 (lc_at pre (to_le 8 v ++ rest)) = Ok (v, lc_at (pre ++ to_le 8 v) rest).
Proof. intros Hc Hv. rewrite lc_u64_int by done. by apply (lc_int_at pre rest 8). Qed.
Lemma lc_u64_back pre rest x c' :
  lc_ok (lc_at pre rest) -> lc_u64 (lc_at pre rest) = Ok (x, c') ->
  exists rest', rest = to_le 8 x ++ rest' /\ c' = lc_at (pre ++ to_le 8 x) rest' /\ is_u64 x.
Proof. intros Hc. rewrite lc_u64_int by done. apply (lc_int_back pre rest 8); [done|lia]. Qed.

(** Safety and the invariant, for the parsers that only need those. *)
Definition lc_safe {A} (m : res FormatError (A * LeCursor)) : Prop :=
  returns m /\ forall x c', m = Ok (x, c') -> lc_ok c'.

Lemma lc_take_safe c n : lc_ok c -> is_usize n -> lc_safe (lc_take c n).
Proof.
  intros Hc Hn. split; [by apply lc_take_returns|]. intros s c' H.
  by apply (lc_take_inv c n s c' Hc Hn).
Qed.
Lemma lc_int_safe n c : lc_ok c -> 0 <= n <= 8 -> lc_safe (lc_int n c).
Proof.
  intros Hc Hn. split; [by apply lc_int_returns|]. intros s c' H.
  by apply (lc_int_inv n c s c' Hc Hn).
Qed.

(** Sequencing safe reads. *)
Lemma lc_safe_bind {A B} (m : res FormatError (A * LeCursor)) (k : A * LeCursor -> res FormatError B) :
  lc_safe m -> (forall x c, m = Ok (x, c) -> lc_ok c -> returns (k (x, c))) -> returns (bind m k).
Proof.
  intros [Hr Hok] Hk. apply returns_bind; [done|]. intros [x c] Hm. apply Hk; [done|by eapply Hok].
Qed.

(** * Loops of reads *)

Section read_loop.
Context {T : Type} (enc : T -> list Z)
  (step : Z -> LeCursor * list T -> res FormatError (LeCursor * list T)).

(** The loop inverts the concatenated encodings of its items. *)
Lemma read_loop_at (items : list T) : forall pre rest acc lo,
  (forall x pre rest acc i, x ∈ items -> lc_ok (lc_at pre (enc x ++ rest)) ->
     step i (lc_at pre (enc x ++ rest), acc) = Ok (lc_at (pre ++ enc x) rest, acc ++ [x])) ->
  lc_ok (lc_at pre (concat (enc <$> items) ++ rest)) ->
  for_n (length items) lo step (lc_at pre (concat (enc <$> items) ++ rest), acc) =
  Ok (lc_at (pre ++ concat (enc <$> items)) rest, acc ++ items).
Proof.
  induction items as [|x items IH]; intros pre rest acc lo Hstep Hc; simpl.
  { by rewrite !app_nil_r. }
  simpl in Hc. rewrite <- app_assoc in Hc |- *.
  rewrite Hstep by (done || apply list_elem_of_here). cbn [bind].
  rewrite IH; [by rewrite <- !app_assoc| |by apply lc_at_next].
  intros y p r a i Hy. apply Hstep. by apply list_elem_of_further.
Qed.

(** What a loop that succeeded has read. *)
Lemma read_loop_back (P : T -> Prop) n : forall pre rest acc lo c' acc',
  (forall i pre rest acc c' acc', lc_ok (lc_at pre rest) ->
     step i (lc_at pre rest, acc) = Ok (c', acc') ->
     exists x rest', P x /\ rest = enc x ++ rest' /\ c' = lc_at (pre ++ enc x) rest' /\
       acc' = acc ++ [x]) ->
  lc_ok (lc_at pre rest) ->
  for_n n lo step (lc_at pre rest, acc) = Ok (c', acc') ->
  exists items rest', length items = n /\ Forall P items /\
    rest = concat (enc <$> items) ++ rest' /\
    c' = lc_at (pre ++ concat (enc <$> items)) rest' /\ acc' = acc ++ items.
Proof.
  induction n as [|n IH]; intros pre rest acc lo c' acc' Hstep Hc H; simpl in H.
  { injection H as <- <-. exists [], rest. by rewrite !app_nil_r. }
  bind_inv H. destruct v as [c1 acc1].
  destruct (Hstep _ _ _ _ _ _ Hc Hv) as (x & rest1 & Hx & -> & -> & ->).
  destruct (IH _ _ _ _ _ _ Hstep (lc_at_next _ _ _ Hc) H) as (items & rest' & Hn & HP & -> & -> & ->).
  exists (x :: items), rest'. simpl. rewrite <- !app_assoc. split; [lia|].
  split; [by constructor|done].
Qed.

(** A loop of safe reads is safe. *)
Lemma read_loop_returns n : forall c acc lo,
  (forall i c acc, lc_ok c -> returns (step i (c, acc)) /\
     forall c' acc', step i (c, acc) = Ok (c', acc') -> lc_ok c') ->
  lc_ok c -> returns (for_n n lo step (c, acc)).
Proof.
  induction n as [|n IH]; intros c acc lo Hstep Hc; [done|]. simpl.
  destruct (Hstep lo c acc Hc) as [Hr Hok]. apply returns_bind; [done|].
  intros [c' acc'] Hs. apply IH; [done|]. by eapply Hok.
Qed.
End read_loop.
