(* ===== verification/Corpus.v ===== *)
(** * Tokenised corpora: .tqbin shards and .tqidx manifests

    crates/tritium-format/src/tqbin.rs and tqidx.rs. A [String] or [&str] is its
    bytes, as in Text. *)

From S2P Require Import Prelude Text Core FormatBase TwoBit LeCursor.
From Stdlib Require Import ZArith Lia Bool.
From stdpp Require Import base list numbers.

#[local] Open Scope Z_scope.

(** b"TQBN" and b"TQIX". *)
Definition TQBIN_MAGIC : list Z := [0x54; 0x51; 0x42; 0x4e].
Definition TQBIN_VERSION : Z := 1.
Definition TQIDX_MAGIC : list Z := [0x54; 0x51; 0x49; 0x58].
Definition TQIDX_VERSION : Z := 1.

Definition write_tqbin (tokens : list Z) : list Z :=
  TQBIN_MAGIC ++ [TQBIN_VERSION] ++ [0; 0; 0] ++ to_le 8 (zlen tokens) ++
  concat (to_le 4 <$> tokens).

Definition read_token (_ : Z) (st : LeCursor * list Z) : res FormatError (LeCursor * list Z) :=
  let '(c, tokens) := st in
  let* (t, c) := lc_u32 c in
  Ok (c, tokens ++ [t]).

Definition read_tqbin (bytes : list Z) : res FormatError (list Z) :=
  let c := lc_new bytes in
  let* (magic, c) := lc_take c 4 in
  if negb (bool_decide (magic = TQBIN_MAGIC)) then Err TqBadMagic else
  let* (version, c) := lc_u8 c in
  if negb (version =? TQBIN_VERSION) then Err (UnsupportedTqVersion version) else
  let* (_, c) := lc_take c 3 in
  let* (n_tokens, c) := lc_u64 c in
  let* remaining := lc_remaining c in
  let* need := ok_or (checked_mul n_tokens 4) (WrongBlockLen usize_max remaining) in
  if remaining <? need then Err (WrongBlockLen need remaining) else
  let* st := for_range 0 n_tokens read_token (c, []) in
  Ok (snd st).

(** ** Manifests *)
Record ShardEntry := mkShard { sh_name : list Z; sh_n_tokens : Z }.
Record TqIndex := mkTqIndex { ti_seq_len : Z; ti_shards : list ShardEntry }.

Definition n_samples (ix : TqIndex) : Z :=
  if ti_seq_len ix =? 0 then 0 else
  let sl := ti_seq_len ix in
  foldl saturating_add 0 ((fun s => sh_n_tokens s / sl) <$> ti_shards ix).

Definition shard_bytes (s : ShardEntry) : list Z :=
  to_le 2 (zlen (sh_name s)) ++ sh_name s ++ to_le 8 (sh_n_tokens s).

Definition write_tqidx (seq_len : Z) (shards : list ShardEntry) : res FormatError (list Z) :=
  if seq_len =? 0 then Err TqZeroSeqLen else
  let* _ := for_each shards (fun s _ =>
    if u16_max <? zlen (sh_name s) then Err (TqNameTooLong (zlen (sh_name s))) else Ok tt) tt in
  let out := TQIDX_MAGIC ++ [TQIDX_VERSION] ++ [0] ++ to_le 4 seq_len ++ to_le 4 (zlen shards) in
  for_each shards (fun s out => Ok (out ++ shard_bytes s)) out.

Definition read_shard (_ : Z) (st : LeCursor * list ShardEntry)
  : res FormatError (LeCursor * list ShardEntry) :=
  let '(c, shards) := st in
  let* (name_len, c) := lc_u16 c in
  let* (name, c) := lc_take c name_len in
  let* _ := ensure (utf8_valid name) TqBadName in
  let* (n_tokens, c) := lc_u64 c in
  Ok (c, shards ++ [mkShard name n_tokens]).

Definition read_tqidx (bytes : list Z) : res FormatError TqIndex :=
  let c := lc_new bytes in
  let* (magic, c) := lc_take c 4 in
  if negb (bool_decide (magic = TQIDX_MAGIC)) then Err TqBadMagic else
  let* (version, c) := lc_u8 c in
  if negb (version =? TQIDX_VERSION) then Err (UnsupportedTqVersion version) else
  let* (_, c) := lc_u8 c in
  let* (seq_len, c) := lc_u32 c in
  if seq_len =? 0 then Err TqZeroSeqLen else
  let* (shard_count, c) := lc_u32 c in
  let* _ := lc_remaining c in
  let* st := for_range 0 shard_count read_shard (c, []) in
  Ok (mkTqIndex seq_len (snd st)).

(** * Proofs *)

Lemma read_token_at tokens pre rest acc lo :
  Forall is_u32 tokens ->
  lc_ok (lc_at pre (concat (to_le 4 <$> tokens) ++ rest)) ->
  for_n (length tokens) lo read_token (lc_at pre (concat (to_le 4 <$> tokens) ++ rest), acc) =
  Ok (lc_at (pre ++ concat (to_le 4 <$> tokens)) rest, acc ++ tokens).
Proof.
  intros Hu Hc. apply read_loop_at; [|done]. intros x p r a i Hx Hcx. unfold read_token.
  rewrite Forall_forall in Hu. rewrite lc_u32_at; [done|done|].
  by apply Hu, list_elem_of_In.
Qed.

Lemma zlen_concat_le4 (tokens : list Z) : zlen (concat (to_le 4 <$> tokens)) = 4 * zlen tokens.
Proof.
  induction tokens as [|t l IH]; [done|].
  change (concat (to_le 4 <$> t :: l)) with (to_le 4 t ++ concat (to_le 4 <$> l)).
  rewrite zlen_app, IH, zlen_cons, zlen_to_le4. lia.
Qed.

Lemma write_tqbin_len tokens : zlen (write_tqbin tokens) = 16 + 4 * zlen tokens.
Proof.
  unfold write_tqbin. rewrite !zlen_app, zlen_concat_le4, zlen_to_le8. unfold zlen at 1 2 3. simpl. lia.
Qed.

Lemma concat_bytes {T} (enc : T -> list Z) l :
  (forall x, x ∈ l -> bytes_ok (enc x)) -> bytes_ok (concat (enc <$> l)).
Proof.
  induction l as [|x l IH]; intros H; [constructor|]. simpl. apply Forall_app. split.
  - apply H, list_elem_of_here.
  - apply IH. intros y Hy. apply H. by apply list_elem_of_further.
Qed.

Lemma read_write_tqbin tokens rest :
  Forall is_u32 tokens -> bytes_ok rest -> zlen (write_tqbin tokens ++ rest) <= isize_max ->
  read_tqbin (write_tqbin tokens ++ rest) = Ok tokens.
Proof.
  intros Hu Hr Hl. pose proof (zlen_nonneg tokens) as Ht. pose proof (zlen_nonneg rest) as Hr0.
  rewrite zlen_app, write_tqbin_len in Hl. unfold isize_max in Hl.
  assert (Hc : lc_ok (lc_new (write_tqbin tokens ++ rest))).
  { apply lc_new_ok; [rewrite zlen_app, write_tqbin_len; unfold isize_max; lia|].
    unfold write_tqbin. bytes_tac. apply concat_bytes. intros x _. apply to_le_bytes. }
  unfold read_tqbin. rewrite lc_at_start in *. revert Hc. unfold write_tqbin. rewrite <- !app_assoc.
  intros Hc. rewrite lc_take_at by done. cbn [bind].
  rewrite bool_decide_true by done. cbn [negb].
  apply lc_at_next in Hc. change [TQBIN_VERSION] with (to_le 1 1) in *.
  rewrite lc_u8_at by done. cbn [bind]. rewrite Z.eqb_refl. cbn [negb].
  apply lc_at_next in Hc. rewrite lc_take_at by done. cbn [bind].
  apply lc_at_next in Hc. rewrite lc_u64_at by (done || (unfold is_u64; lia)).
  cbn [bind]. apply lc_at_next in Hc. rewrite lc_remaining_at. cbn [bind].
  unfold checked_mul, usize_max. replace (_ <=? _) with true by lia. cbn [ok_or bind].
  rewrite zlen_app, zlen_concat_le4. replace (_ <? _) with false by lia.
  unfold for_range. replace (Z.to_nat (zlen tokens - 0)) with (length tokens) by (unfold zlen; lia).
  rewrite read_token_at by done. done.
Qed.

(** Walk a successful parse backwards over one [take] or fixed-width read. *)
Ltac back_take H Hc :=
  let Hs := fresh "Hs" in
  apply bind_Ok_inv in H as ([? ?] & Hs & H);
  apply (lc_take_back _ _ _ _ _ Hc) in Hs as (? & -> & -> & ? & ?);
    [apply lc_at_next in Hc|unfold is_usize; try lia].
Ltac back_int lem H Hc :=
  let Hs := fresh "Hs" in
  apply bind_Ok_inv in H as ([? ?] & Hs & H);
  apply (lem _ _ _ _ Hc) in Hs as (? & -> & -> & ?); apply lc_at_next in Hc.

Lemma read_token_back i pre rest acc c' acc' :
  lc_ok (lc_at pre rest) -> read_token i (lc_at pre rest, acc) = Ok (c', acc') ->
  exists x rest', is_u32 x /\ rest = to_le 4 x ++ rest' /\ c' = lc_at (pre ++ to_le 4 x) rest' /\
    acc' = acc ++ [x].
Proof.
  intros Hc H. unfold read_token in H. apply bind_Ok_inv in H as ([x c1] & Hs & H).
  apply (lc_u32_back _ _ _ _ Hc) in Hs as (rest' & -> & -> & Hx).
  exists x, rest'. split; [done|]. split; [done|]. split; congruence.
Qed.

Lemma read_tqbin_back bytes tokens :
  zlen bytes <= isize_max -> bytes_ok bytes -> read_tqbin bytes = Ok tokens ->
  exists reserved rest, zlen reserved = 3 /\ Forall is_u32 tokens /\
    bytes = TQBIN_MAGIC ++ [TQBIN_VERSION] ++ reserved ++ to_le 8 (zlen tokens) ++
            concat (to_le 4 <$> tokens) ++ rest.
Proof.
  intros Hl Hu H. pose proof (lc_new_ok bytes Hl Hu) as Hc. unfold read_tqbin in H.
  rewrite lc_at_start in *. back_take H Hc. case_bool_decide as Hm; [|done]. cbn [negb] in H. subst l.
  back_int lc_u8_back H Hc. destruct (Z.eqb_spec z TQBIN_VERSION) as [->|]; [|done]. cbn [negb] in H.
  back_take H Hc. back_int lc_u64_back H Hc. rewrite lc_remaining_at in H. cbn [bind] in H.
  bind_inv H. destruct (_ <? v); [done|]. bind_inv H. destruct v0 as [c' tk]. injection H as ->.
  unfold for_range in Hv0.
  destruct (read_loop_back (to_le 4) read_token is_u32 _ _ _ _ _ _ _ read_token_back Hc Hv0)
    as (items & rest & Hn & HP & -> & -> & ->).
  exists l, rest. split; [done|]. split; [done|].
  assert (Hz : zlen ([] ++ items) = z) by (unfold zlen, is_u64 in *; simpl; lia).
  rewrite Hz. done.
Qed.

Lemma read_token_safe i c acc :
  lc_ok c -> returns (read_token i (c, acc)) /\
  forall c' acc', read_token i (c, acc) = Ok (c', acc') -> lc_ok c'.
Proof.
  intros Hc. unfold read_token. rewrite lc_u32_int by done.
  destruct (lc_int_safe 4 c Hc ltac:(lia)) as [Hr Hok]. split.
  - apply returns_bind; [done|]. by intros [? ?].
  - intros c' acc' H. bind_inv H. destruct v as [x c1]. injection H as <- <-. by eapply Hok.
Qed.

Lemma read_tqbin_returns bytes :
  zlen bytes <= isize_max -> bytes_ok bytes -> returns (read_tqbin bytes).
Proof.
  intros Hl Hu. pose proof (lc_new_ok bytes Hl Hu) as Hc. unfold read_tqbin.
  apply lc_safe_bind; [by apply lc_take_safe|]. intros m c1 _ Hc1. case_bool_decide; [|done]. cbn [negb].
  rewrite lc_u8_int by done. apply lc_safe_bind; [apply lc_int_safe; [done|lia]|].
  intros v c2 _ Hc2. destruct (v =? TQBIN_VERSION); [|done]. cbn [negb].
  apply lc_safe_bind; [by apply lc_take_safe|]. intros r c3 _ Hc3.
  rewrite lc_u64_int by done. apply lc_safe_bind; [apply lc_int_safe; [done|lia]|].
  intros n c4 _ Hc4. rewrite lc_remaining_ok by done. cbn [bind].
  destruct (checked_mul n 4); [|done]. cbn [ok_or bind]. destruct (_ <? _); [done|].
  apply returns_bind; [|done]. apply read_loop_returns; [|done]. intros. by apply read_token_safe.
Qed.

(** ** Manifests *)

(** What a writer is given: names that are strings, counts that are [u64]. *)
Definition shard_ok (s : ShardEntry) : Prop :=
  utf8_valid (sh_name s) = true /\ bytes_ok (sh_name s) /\ is_u64 (sh_n_tokens s).

Lemma read_shard_at s pre rest acc i :
  shard_ok s -> zlen (sh_name s) <= u16_max -> lc_ok (lc_at pre (shard_bytes s ++ rest)) ->
  read_shard i (lc_at pre (shard_bytes s ++ rest), acc) =
  Ok (lc_at (pre ++ shard_bytes s) rest, acc ++ [s]).
Proof.
  intros (Hv & Hb & Hn) Hl Hc. pose proof (zlen_nonneg (sh_name s)). unfold u16_max in Hl.
  unfold shard_bytes in *. rewrite <- !app_assoc in *. unfold read_shard.
  rewrite lc_u16_at by (done || (unfold is_u16; lia)). cbn [bind]. apply lc_at_next in Hc.
  rewrite lc_take_at by done. cbn [bind]. rewrite Hv. cbn [ensure bind]. apply lc_at_next in Hc.
  rewrite lc_u64_at by done. cbn [bind]. rewrite <- !app_assoc. by destruct s.
Qed.

Lemma for_each_append {E A} (f : A -> list Z) (l : list A) : forall out,
  for_each (E := E) l (fun x out => Ok (out ++ f x)) out = Ok (out ++ concat (f <$> l)).
Proof.
  induction l as [|x l IH]; intros out; simpl; [by rewrite app_nil_r|].
  by rewrite IH, <- app_assoc.
Qed.

Lemma for_each_check {E A} (p : A -> bool) (e : A -> E) (l : list A) :
  Forall (fun x => p x = false) l ->
  for_each l (fun x _ => if p x then Err (e x) else Ok tt) tt = Ok tt.
Proof. induction 1 as [|x l Hx Hl IH]; simpl; [done|]. by rewrite Hx. Qed.

Lemma write_tqidx_Ok seq_len shards :
  seq_len <> 0 -> Forall (fun s => zlen (sh_name s) <= u16_max) shards ->
  write_tqidx seq_len shards =
    Ok (TQIDX_MAGIC ++ [TQIDX_VERSION] ++ [0] ++ to_le 4 seq_len ++ to_le 4 (zlen shards) ++
        concat (shard_bytes <$> shards)).
Proof.
  intros Hs Hn. unfold write_tqidx. replace (seq_len =? 0) with false by lia.
  rewrite for_each_check.
  - cbn [bind]. rewrite for_each_append. by rewrite <- !app_assoc.
  - eapply Forall_impl; [|exact Hn]. intros s Hl. simpl in *. lia.
Qed.

Lemma read_write_tqidx seq_len shards rest bytes :
  write_tqidx seq_len shards = Ok bytes -> is_u32 seq_len -> zlen shards <= u32_max ->
  Forall shard_ok shards -> bytes_ok rest -> zlen (bytes ++ rest) <= isize_max ->
  read_tqidx (bytes ++ rest) = Ok (mkTqIndex seq_len shards).
Proof.
  intros Hw Hsl Hcount Hok Hr Hl. pose proof (zlen_nonneg shards) as Hs0. unfold u32_max in Hcount.
  assert (Hpre : seq_len <> 0 /\ Forall (fun s => zlen (sh_name s) <= u16_max) shards).
  { unfold write_tqidx in Hw. destruct (Z.eqb_spec seq_len 0); [done|]. split; [done|].
    bind_inv Hw. clear - Hv. destruct v. revert Hv. induction shards as [|s l IH]; intros Hv; [constructor|].
    simpl in Hv. destruct (Z.ltb_spec u16_max (zlen (sh_name s))); [done|].
    constructor; [lia|]. by apply IH. }
  destruct Hpre as [Hne Hnames]. rewrite write_tqidx_Ok in Hw by done. apply Ok_inj in Hw as <-.
  assert (Hc : lc_ok (lc_new ((TQIDX_MAGIC ++ [TQIDX_VERSION] ++ [0] ++ to_le 4 seq_len ++
    to_le 4 (zlen shards) ++ concat (shard_bytes <$> shards)) ++ rest))).
  { apply lc_new_ok; [done|]. bytes_tac. apply concat_bytes. intros s Hs. unfold shard_bytes.
    apply list_elem_of_In in Hs. rewrite Forall_forall in Hok. destruct (Hok s Hs) as (_ & Hb & _). bytes_tac. }
  unfold read_tqidx. rewrite lc_at_start in *. revert Hc. rewrite <- !app_assoc. intros Hc.
  rewrite lc_take_at by done. cbn [bind]. rewrite bool_decide_true by done. cbn [negb].
  apply lc_at_next in Hc. change [TQIDX_VERSION] with (to_le 1 1) in *. change [0] with (to_le 1 0) in *.
  rewrite lc_u8_at by done. cbn [bind]. rewrite Z.eqb_refl. cbn [negb]. apply lc_at_next in Hc.
  rewrite lc_u8_at by done. cbn [bind]. apply lc_at_next in Hc.
  rewrite lc_u32_at by done. cbn [bind]. replace (seq_len =? 0) with false by lia. apply lc_at_next in Hc.
  rewrite lc_u32_at by (done || (unfold is_u32; lia)). cbn [bind]. apply lc_at_next in Hc.
  rewrite lc_remaining_at. cbn [bind]. unfold for_range.
  replace (Z.to_nat (zlen shards - 0)) with (length shards) by (unfold zlen; lia).
  rewrite (read_loop_at shard_bytes); [done| |done]. intros s p r a i Hs Hcs. apply list_elem_of_In in Hs.
  rewrite Forall_forall in Hok, Hnames. apply read_shard_at; [by apply Hok|by apply Hnames|done].
Qed.

Lemma read_shard_safe i c acc :
  lc_ok c -> returns (read_shard i (c, acc)) /\
  forall c' acc', read_shard i (c, acc) = Ok (c', acc') ->
    lc_ok c' /\ exists s, acc' = acc ++ [s] /\ shard_ok s.
Proof.
  intros Hc. unfold read_shard. rewrite lc_u16_int by done.
  destruct (lc_int 2 c) as [[n c1]|e| |] eqn:H1;
    [|by split|by destruct (lc_int_safe 2 c Hc ltac:(lia)) as [Hr _]; rewrite H1 in Hr..].
  destruct (lc_int_inv 2 c n c1 Hc ltac:(lia) H1) as (Hc1 & Hn & _). cbn [bind].
  assert (Hnu : is_usize n) by (unfold is_usize; change (256 ^ 2) with 65536 in Hn; lia).
  destruct (lc_take c1 n) as [[name c2]|e| |] eqn:H2;
    [|by split|by pose proof (lc_take_returns c1 n Hc1 Hnu) as Hr; rewrite H2 in Hr..].
  destruct (lc_take_inv c1 n name c2 Hc1 Hnu H2) as (Hc2 & _ & Hb & _). cbn [bind].
  destruct (utf8_valid name) eqn:Hv; cbn [ensure bind]; [|done]. rewrite lc_u64_int by done.
  destruct (lc_int 8 c2) as [[t c3]|e| |] eqn:H3;
    [|by split|by destruct (lc_int_safe 8 c2 Hc2 ltac:(lia)) as [Hr _]; rewrite H3 in Hr..].
  destruct (lc_int_inv 8 c2 t c3 Hc2 ltac:(lia) H3) as (Hc3 & Ht & _). split; [done|].
  intros c' acc' [= <- <-]. split; [done|]. eexists. split; [done|]. split; [done|]. split; [done|exact Ht].
Qed.

Lemma read_shards_Ok n : forall c acc lo c' acc',
  lc_ok c -> Forall shard_ok acc -> for_n n lo read_shard (c, acc) = Ok (c', acc') ->
  Forall shard_ok acc' /\ length acc' = (length acc + n)%nat.
Proof.
  induction n as [|n IH]; intros c acc lo c' acc' Hc Ha H; simpl in H.
  - injection H as <- <-. split; [done|lia].
  - bind_inv H. destruct v as [c1 acc1]. destruct (read_shard_safe lo c acc Hc) as [_ Hs].
    destruct (Hs _ _ Hv) as (Hc1 & s & -> & Hok).
    destruct (IH c1 (acc ++ [s]) (lo + 1) c' acc' Hc1) as [H1 H2]; [|done|].
    + apply Forall_app. split; [done|by constructor].
    + split; [done|]. rewrite H2, length_app. simpl. lia.
Qed.

Lemma read_tqidx_spec bytes :
  zlen bytes <= isize_max -> bytes_ok bytes ->
  returns (read_tqidx bytes) /\
  forall ix, read_tqidx bytes = Ok ix ->
    0 < ti_seq_len ix < 4294967296 /\ Forall shard_ok (ti_shards ix).
Proof.
  intros Hl Hu. pose proof (lc_new_ok bytes Hl Hu) as Hc. unfold read_tqidx.
  split.
  - apply lc_safe_bind; [by apply lc_take_safe|]. intros m c1 _ Hc1. destruct (negb _); [done|].
    rewrite lc_u8_int by done. apply lc_safe_bind; [apply lc_int_safe; [done|lia]|].
    intros v c2 _ Hc2. destruct (v =? TQIDX_VERSION); [|done]. cbn [negb].
    rewrite lc_u8_int by done. apply lc_safe_bind; [apply lc_int_safe; [done|lia]|].
    intros r c3 _ Hc3. rewrite lc_u32_int by done. apply lc_safe_bind; [apply lc_int_safe; [done|lia]|].
    intros sl c4 _ Hc4. destruct (sl =? 0); [done|].
    rewrite lc_u32_int by done. apply lc_safe_bind; [apply lc_int_safe; [done|lia]|].
    intros n c5 _ Hc5. rewrite lc_remaining_ok by done. cbn [bind].
    apply returns_bind; [|done]. apply read_loop_returns; [|done]. intros i c acc Hc'.
    destruct (read_shard_safe i c acc Hc') as [Hr Hs]. split; [done|].
    intros c' acc' H. by destruct (Hs _ _ H).
  - intros ix H. rewrite lc_at_start in *.
    back_take H Hc. destruct (negb _); [done|]. back_int lc_u8_back H Hc. destruct (negb _); [done|].
    back_int lc_u8_back H Hc. back_int lc_u32_back H Hc.
    destruct (Z.eqb_spec z1 0); [done|]. back_int lc_u32_back H Hc.
    rewrite lc_remaining_at in H. cbn [bind] in H. bind_inv H. destruct v as [c' sh].
    injection H as <-. simpl. unfold is_u32 in *. split; [lia|].
    by destruct (read_shards_Ok _ _ _ _ _ _ Hc ltac:(constructor) Hv) as [? _].
Qed.

(** ** Sample counts *)
Definition window_sum (sl : Z) (shards : list ShardEntry) : Z :=
  foldr (fun s acc => sh_n_tokens s / sl + acc) 0 shards.

Lemma n_samples_sum ix :
  0 < ti_seq_len ix -> Forall (fun s => 0 <= sh_n_tokens s) (ti_shards ix) ->
  n_samples ix = Z.min (window_sum (ti_seq_len ix) (ti_shards ix)) usize_max.
Proof.
  intros Hs Hn. unfold n_samples. replace (ti_seq_len ix =? 0) with false by lia.
  set (sl := ti_seq_len ix) in *.
  assert (Hgen : forall l acc, Forall (fun s => 0 <= sh_n_tokens s) l -> 0 <= acc <= usize_max ->
    foldl saturating_add acc ((fun s => sh_n_tokens s / sl) <$> l) =
    Z.min (acc + window_sum sl l) usize_max).
  { induction l as [|s l IH]; intros acc Hl Ha; simpl; [lia|]. inversion Hl; subst.
    assert (0 <= sh_n_tokens s / sl) by (apply Z.div_pos; lia).
    rewrite IH; [|done|unfold saturating_add; lia]. unfold saturating_add.
    assert (0 <= window_sum sl l).
    { clear - H2 Hs. induction H2; simpl; [lia|].
      assert (0 <= sh_n_tokens x / sl) by (apply Z.div_pos; lia). lia. }
    lia. }
  rewrite Hgen; [by rewrite Z.add_0_l|done|unfold usize_max; lia].
Qed.

(** * Properties *)

(** A shard read back is the token stream written, whatever follows it in the
    buffer; and conversely every buffer [read_tqbin] accepts is such a shard, up to
    its three reserved bytes and the bytes after the declared tokens. *)
Theorem tqbin_exact :
  (forall tokens rest, Forall is_u32 tokens -> bytes_ok rest ->
     zlen (write_tqbin tokens ++ rest) <= isize_max ->
     read_tqbin (write_tqbin tokens ++ rest) = Ok tokens) /\
  (forall bytes tokens, zlen bytes <= isize_max -> bytes_ok bytes ->
     read_tqbin bytes = Ok tokens ->
     exists reserved rest, zlen reserved = 3 /\ Forall is_u32 tokens /\
       bytes = TQBIN_MAGIC ++ [TQBIN_VERSION] ++ reserved ++ to_le 8 (zlen tokens) ++
               concat (to_le 4 <$> tokens) ++ rest).
Proof. split; [apply read_write_tqbin|apply read_tqbin_back]. Qed.

Lemma tqbin_exact_witness :
  read_tqbin (write_tqbin [1; 65536; 4294967295] ++ [7]) = Ok [1; 65536; 4294967295] /\
  exists reserved rest, zlen reserved = 3 /\ Forall is_u32 [5] /\
    write_tqbin [5] = TQBIN_MAGIC ++ [TQBIN_VERSION] ++ reserved ++ to_le 8 1 ++
                      concat (to_le 4 <$> [5]) ++ rest.
Proof.
  split.
  - apply (proj1 tqbin_exact [1; 65536; 4294967295] [7]).
    + repeat constructor; unfold is_u32; lia.
    + by apply bytes_ok_check.
    + by vm_compute.
  - apply (proj2 tqbin_exact (write_tqbin [5]) [5]).
    + by vm_compute.
    + by apply bytes_ok_check.
    + by vm_compute.
Defined.

(** A manifest read back is the manifest written: the window length, and
    every shard's name and token count in order. *)
Theorem tqidx_roundtrip seq_len shards rest bytes :
  write_tqidx seq_len shards = Ok bytes -> is_u32 seq_len -> zlen shards <= u32_max ->
  Forall shard_ok shards -> bytes_ok rest -> zlen (bytes ++ rest) <= isize_max ->
  read_tqidx (bytes ++ rest) = Ok (mkTqIndex seq_len shards).
Proof. apply read_write_tqidx. Qed.

Lemma tqidx_roundtrip_witness :
  let shards := [mkShard [0x61; 0xc3; 0xa9] 100; mkShard [] 7] in
  exists bytes, write_tqidx 16 shards = Ok bytes /\
    read_tqidx (bytes ++ []) = Ok (mkTqIndex 16 shards).
Proof.
  eexists. split; [reflexivity|].
  apply (tqidx_roundtrip 16 [mkShard [0x61; 0xc3; 0xa9] 100; mkShard [] 7] []).
  - reflexivity.
  - unfold is_u32. lia.
  - by vm_compute.
  - repeat constructor; try (unfold is_u64; simpl; lia); by apply bytes_ok_check.
  - constructor.
  - by vm_compute.
Defined.

(** Parsing untrusted corpus files never panics; and an accepted manifest has
    a nonzero window length, UTF-8 names, and a sample count equal to the sum of
    its shards' whole windows, clamped at [usize::MAX]. *)
Theorem corpus_parsers_safe bytes :
  zlen bytes <= isize_max -> bytes_ok bytes ->
  returns (read_tqbin bytes) /\ returns (read_tqidx bytes) /\
  forall ix, read_tqidx bytes = Ok ix ->
    0 < ti_seq_len ix /\ Forall (fun s => utf8_valid (sh_name s) = true) (ti_shards ix) /\
    n_samples ix = Z.min (window_sum (ti_seq_len ix) (ti_shards ix)) usize_max.
Proof.
  intros Hl Hu. split; [by apply read_tqbin_returns|].
  destruct (read_tqidx_spec bytes Hl Hu) as [Hr Hok]. split; [done|].
  intros ix Hix. destruct (Hok ix Hix) as [Hs Hsh]. split; [lia|]. split.
  - eapply Forall_impl; [|exact Hsh]. by intros s (? & _).
  - apply n_samples_sum; [lia|]. eapply Forall_impl; [|exact Hsh].
    intros s (_ & _ & Hn). unfold is_u64 in Hn. simpl. lia.
Qed.

Lemma corpus_parsers_safe_witness :
  let bytes := TQIDX_MAGIC ++ [1; 0] ++ to_le 4 16 ++ to_le 4 1 ++ shard_bytes (mkShard [0x61] 40) in
  read_tqidx bytes = Ok (mkTqIndex 16 [mkShard [0x61] 40]) /\
  (returns (read_tqbin bytes) /\ returns (read_tqidx bytes)) /\
  n_samples (mkTqIndex 16 [mkShard [0x61] 40]) = Z.min (window_sum 16 [mkShard [0x61] 40]) usize_max.
Proof.
  destruct (corpus_parsers_safe
    (TQIDX_MAGIC ++ [1; 0] ++ to_le 4 16 ++ to_le 4 1 ++ shard_bytes (mkShard [0x61] 40)))
    as (H1 & H2 & H3); [by vm_compute|by apply bytes_ok_check|].
  split; [by vm_compute|]. split; [exact (conj H1 H2)|].
  apply (H3 (mkTqIndex 16 [mkShard [0x61] 40])). by vm_compute.
Defined.
