(* ===== verification/F32.v ===== *)
(** * binary32 and binary16 values

    An [f32] is a [spec_float] at precision 24 and exponent bound 128, the
    executable IEEE 754 operations with round to nearest even. All NaNs are one
    value. Conversions from integers and from the bits of an [f16] or [f32] follow
    Rust's [as] casts, [f16::to_f32] and [from_bits]. *)

From S2P Require Import Prelude.
From Stdlib Require Import ZArith Lia Bool Floats.SpecFloat.
From stdpp Require Import base list numbers.

#[local] Open Scope Z_scope.

Abbreviation f32 := spec_float.

Definition f32_prec : Z := 24.
Definition f32_emax : Z := 128.

Definition f32_add (x y : f32) : f32 := SFadd f32_prec f32_emax x y.
Definition f32_sub (x y : f32) : f32 := SFsub f32_prec f32_emax x y.
Definition f32_mul (x y : f32) : f32 := SFmul f32_prec f32_emax x y.
Definition f32_div (x y : f32) : f32 := SFdiv f32_prec f32_emax x y.
Definition f32_ltb (x y : f32) : bool := SFltb x y.
Definition f32_leb (x y : f32) : bool := SFleb x y.
Definition f32_eqb (x y : f32) : bool := SFeqb x y.
Definition f32_zero : f32 := S754_zero false.

(** [n as f32]. *)
Definition f32_of_Z (n : Z) : f32 := binary_normalize f32_prec f32_emax n 0 false.

Definition is_finite (x : f32) : bool :=
  match x with S754_finite _ _ _ | S754_zero _ => true | _ => false end.

(** [f16::to_f32] of the value with these 16 bits; every case is exact. *)
Definition f16_to_f32 (bits : Z) : f32 :=
  let s := Z.testbit bits 15 in
  let e := Z.land (Z.shiftr bits 10) 31 in
  let m := Z.land bits 1023 in
  let sm v := if s then - v else v in
  if e =? 31 then (if m =? 0 then S754_infinity s else S754_nan)
  else if e =? 0 then binary_normalize f32_prec f32_emax (sm m) (-24) s
  else binary_normalize f32_prec f32_emax (sm (1024 + m)) (e - 25) s.

(** [f32::from_bits]. *)
Definition f32_from_bits (bits : Z) : f32 :=
  let s := Z.testbit bits 31 in
  let e := Z.land (Z.shiftr bits 23) 255 in
  let m := Z.land bits 8388607 in
  let sm v := if s then - v else v in
  if e =? 255 then (if m =? 0 then S754_infinity s else S754_nan)
  else if e =? 0 then binary_normalize f32_prec f32_emax (sm m) (-149) s
  else binary_normalize f32_prec f32_emax (sm (8388608 + m)) (e - 150) s.

(** Comparison is a strict order on the finite values: at most one of [x < y],
    [y < x] holds, and a NaN is below nothing. *)
Lemma f32_ltb_nan_r x : f32_ltb x S754_nan = false.
Proof. by destruct x. Qed.
Lemma f32_ltb_nan_l x : f32_ltb S754_nan x = false.
Proof. done. Qed.
