(* ===== verification/Sparse.v ===== *)
(** * Sparse residual planes (crates/tritium-format/src/sparse.rs)

    A TQ2_0 plane stored as its nonzero trits only: the conversion from and to the
    dense bytes, the density switch, the side-car container and its borrowed view. *)

From S2P Require Import Prelude Core FormatBase TwoBit TQ2 Rows F32.
From Stdlib Require Import ZArith Lia Bool Floats.SpecFloat.
From stdpp Require Import base list numbers.

#[local] Open Scope Z_scope.

(** b"TSSP". *)
Definition SPARSE_MAGIC : list Z := [0x54; 0x53; 0x53; 0x50].
Definition SPARSE_VERSION : Z := 1.
Definition SPARSE_HEADER_BYTES : Z := 4 + 1 + 1 + 4 + 4.
Definition SIGN_BIT : Z := 2147483648.

Record SparsePlane := mkSparsePlane {
  sp_k : Z; sp_scales : list Z; sp_idx : list Z; sp_sign : list Z
}.

Definition sp_nnz (p : SparsePlane) : Z := zlen (sp_idx p).

Definition density (p : SparsePlane) : f32 :=
  if sp_k p =? 0 then f32_zero else f32_div (f32_of_Z (sp_nnz p)) (f32_of_Z (sp_k p)).

(** [v as i32] of a [u32]. *)
Definition as_i32 (v : Z) : Z := if v <? 2147483648 then v else v - 4294967296.

(** ** The borrowed view *)
Record SparsePlaneRef := mkSparseRef { sr_k : Z; sr_scales : list Z; sr_entries : list Z }.

Definition header_u32 {E} (bytes : list Z) (o : Z) : res E Z :=
  let* b0 := idx bytes o in
  let* b1 := idx bytes (o + 1) in
  let* b2 := idx bytes (o + 2) in
  let* b3 := idx bytes (o + 3) in
  Ok (from_le [b0; b1; b2; b3]).

(** [encoded & !SIGN_BIT] and [encoded & SIGN_BIT != 0]. *)
Definition entry_column (encoded : Z) : Z := Z.land encoded 2147483647.
Definition entry_neg (encoded : Z) : bool := negb (Z.land encoded SIGN_BIT =? 0).

Definition parse_entry (k : Z) (encoded : Z) (previous : option Z) : res FormatError (option Z) :=
  let column := entry_column encoded in
  if k <=? column then Err (DecodedOutOfRange (as_i32 column)) else
  if match previous with Some value => column <=? value | None => false end
  then Err SaltNonCanonicalSparseIndices else
  Ok (Some column).

Definition parse (bytes : list Z) : res FormatError SparsePlaneRef :=
  if zlen bytes <? SPARSE_HEADER_BYTES
  then Err (WrongBlockLen SPARSE_HEADER_BYTES (zlen bytes)) else
  let* magic := slice bytes 0 4 in
  if negb (bool_decide (magic = SPARSE_MAGIC)) then Err SaltBadMagic else
  let* version := idx bytes 4 in
  if negb (version =? SPARSE_VERSION) then Err (UnsupportedSaltVersion version) else
  let* k := header_u32 bytes 6 in
  if SIGN_BIT <=? k then Err (SaltRowTooLong k) else
  let* nnz := header_u32 bytes 10 in
  let too_long := WrongBlockLen usize_max (zlen bytes) in
  let* scale_bytes := ok_or (checked_mul (num_blocks k) 2) too_long in
  let* entry_bytes := ok_or (checked_mul nnz 4) too_long in
  let* entries_start := ok_or (checked_add SPARSE_HEADER_BYTES scale_bytes) too_long in
  let* required := ok_or (checked_add entries_start entry_bytes) too_long in
  if negb (zlen bytes =? required) then Err (WrongBlockLen required (zlen bytes)) else
  let* scales := slice bytes SPARSE_HEADER_BYTES entries_start in
  let* entries := slice bytes entries_start (zlen bytes) in
  let* _ := for_each (from_le <$> as_chunks 4 entries) (parse_entry k) None in
  Ok (mkSparseRef k scales entries).

Definition from_validated {E} (bytes : list Z) : res E SparsePlaneRef :=
  let* h := slice bytes 6 10 in
  let k := from_le h in
  let scale_bytes := num_blocks k * 2 in
  let entries_start := SPARSE_HEADER_BYTES + scale_bytes in
  let* scales := slice bytes SPARSE_HEADER_BYTES entries_start in
  let* entries := slice bytes entries_start (zlen bytes) in
  Ok (mkSparseRef k scales entries).

Definition scale_count (r : SparsePlaneRef) : Z := zlen (sr_scales r) / 2.
Definition entry_count (r : SparsePlaneRef) : Z := zlen (sr_entries r) / 4.
Definition ref_scales (r : SparsePlaneRef) : list Z := from_le <$> as_chunks 2 (sr_scales r).
Definition encoded_entries (r : SparsePlaneRef) : list Z := from_le <$> as_chunks 4 (sr_entries r).

Definition to_owned (r : SparsePlaneRef) : SparsePlane :=
  mkSparsePlane (sr_k r) (ref_scales r)
    (entry_column <$> encoded_entries r)
    ((fun e => if entry_neg e then -1 else 1) <$> encoded_entries r).

(** ** Dense planes *)
Definition validate_zero_padding (packed : list Z) (k : Z) : res FormatError unit :=
  let used_in_last_block := k mod QK_K in
  if used_in_last_block =? 0 then Ok tt else
  let last_block_offset := (num_blocks k - 1) * TQ2_0_BLOCK_BYTES in
  let* block := slice packed last_block_offset (last_block_offset + TQ2_0_BLOCK_BYTES) in
  let* (trits, _) := unpack_tq2_0_block block (vec ZERO QK_K) in
  let* tail := slice trits used_in_last_block (zlen trits) in
  if existsb (fun t => negb (bool_decide (t = ZERO))) tail then Err SaltNonZeroPadding else Ok tt.

Definition push_nonzero (c : Z) (t : Trit) (st : list Z * list Z) : res FormatError (list Z * list Z) :=
  let '(idx, sign) := st in
  let v := get t in
  if negb (v =? 0) then Ok (idx ++ [c], sign ++ [v]) else Ok st.

Definition sparse_from_tq2_0 (packed : list Z) (k : Z) : res FormatError SparsePlane :=
  if SIGN_BIT <=? k then Err (SaltRowTooLong k) else
  let nb := num_blocks k in
  let* (trits, scales) := unpack_tq2_0_row packed (vec ZERO k) (vec 0 nb) in
  let* _ := validate_zero_padding packed k in
  let* (idx, sign) := for_enum 0 trits push_nonzero ([], []) in
  Ok (mkSparsePlane k scales idx sign).

(** [plane.idx.windows(2).any(|pair| pair\[0\] >= pair\[1\])]. *)
Fixpoint not_increasing (l : list Z) : bool :=
  match l with
  | x :: (y :: _) as l' => (y <=? x) || not_increasing l'
  | _ => false
  end.

Definition check_entry (k : Z) (e : Z * Z) (_ : unit) : res FormatError unit :=
  let '(column, sign) := e in
  if k <=? column then Err (DecodedOutOfRange (as_i32 column)) else
  if negb ((sign =? -1) || (sign =? 1)) then Err (DecodedOutOfRange sign) else
  Ok tt.

Definition validate_sparse_plane (p : SparsePlane) : res FormatError Z :=
  if SIGN_BIT <=? sp_k p then Err (SaltRowTooLong (sp_k p)) else
  let nb := num_blocks (sp_k p) in
  if negb (zlen (sp_scales p) =? nb) then Err (WrongBlockLen nb (zlen (sp_scales p))) else
  if negb (zlen (sp_idx p) =? zlen (sp_sign p))
  then Err (WrongBlockLen (zlen (sp_idx p)) (zlen (sp_sign p))) else
  if not_increasing (sp_idx p) then Err SaltNonCanonicalSparseIndices else
  let* _ := for_each (zip (sp_idx p) (sp_sign p)) (check_entry (sp_k p)) tt in
  Ok nb.

Definition scatter (k : Z) (e : Z * Z) (trits : list Trit) : res FormatError (list Trit) :=
  let '(c, s) := e in
  if k <=? c then Err (WrongBlockLen k c) else
  let* t := trit_of s in
  upd trits c t.

Definition sparse_to_tq2_0 (p : SparsePlane) : res FormatError (list Z) :=
  let* nb := validate_sparse_plane p in
  let* trits := for_each (zip (sp_idx p) (sp_sign p)) (scatter (sp_k p)) (vec ZERO (sp_k p)) in
  let* n := mul_usize nb TQ2_0_BLOCK_BYTES in
  pack_tq2_0_row trits (sp_scales p) (vec 0 n).

Definition dequant_sparse_plane {E} (p : SparsePlane) : res E (list f32) :=
  for_each (zip (sp_idx p) (sp_sign p)) (fun e acc =>
    let '(c, s) := e in
    if c <? sp_k p then
      let* sc := idx (sp_scales p) (c / QK_K) in
      upd acc c (f32_mul (f16_to_f32 sc) (f32_of_Z s))
    else Ok acc) (vec f32_zero (sp_k p)).

Definition sparse_dot (act : list f32) (p : SparsePlane) : res FormatError f32 :=
  if zlen act <? sp_k p then Err (WrongBlockLen (sp_k p) (zlen act)) else
  for_each (zip (sp_idx p) (sp_sign p)) (fun e acc =>
    let '(c, s) := e in
    if sp_k p <=? c then Err (WrongBlockLen (sp_k p) c) else
    let* a := idx act c in
    let* sc := idx (sp_scales p) (c / QK_K) in
    Ok (f32_add acc (f32_mul (f32_mul a (f16_to_f32 sc)) (f32_of_Z s)))) f32_zero.

(** ** The density switch *)
Inductive PlaneRepr : Type :=
| Dense (bytes : list Z)
| Sparse (p : SparsePlane).

Definition choose_plane_repr (packed : list Z) (k : Z) (max_density : f32)
  : res FormatError PlaneRepr :=
  match sparse_from_tq2_0 packed k with
  | Ok sparse =>
      if f32_ltb (density sparse) max_density then Ok (Sparse sparse) else Ok (Dense packed)
  | Err SaltNonZeroPadding => Ok (Dense packed)
  | Err error => Err error
  | Panic => Panic
  | NoFuel => NoFuel
  end.

Definition expand_plane_repr (r : PlaneRepr) : res FormatError (list Z) :=
  match r with
  | Dense bytes => Ok bytes
  | Sparse p => sparse_to_tq2_0 p
  end.

(** ** The side-car container *)
Definition pack_entry (k : Z) (e : Z * Z) (out : list Z) : res FormatError (list Z) :=
  let '(c, s) := e in
  if k <=? c then Err (DecodedOutOfRange (as_i32 c)) else
  let* enc :=
    if s =? 1 then Ok c
    else if s =? -1 then Ok (Z.lor c SIGN_BIT)
    else Err (DecodedOutOfRange s) in
  Ok (out ++ to_le 4 enc).

Definition pack_sparse_plane (p : SparsePlane) : res FormatError (list Z) :=
  if SIGN_BIT <=? sp_k p then Err (SaltRowTooLong (sp_k p)) else
  let* _ := validate_sparse_plane p in
  let out := SPARSE_MAGIC ++ [SPARSE_VERSION] ++ [0] ++
             to_le 4 (sp_k p) ++ to_le 4 (zlen (sp_idx p)) in
  let* out := for_each (sp_scales p) (fun s out => Ok (out ++ to_le 2 s)) out in
  for_each (zip (sp_idx p) (sp_sign p)) (pack_entry (sp_k p)) out.

Definition unpack_sparse_plane (bytes : list Z) : res FormatError SparsePlane :=
  let* r := parse bytes in
  Ok (to_owned r).

(** * Dense to sparse *)

Lemma num_blocks_last k :
  0 <= k -> k mod 256 <> 0 -> num_blocks k = k / 256 + 1.
Proof. intros Hk Hm. unfold num_blocks, div_ceil, QK_K. Z.div_mod_to_equations; lia. Qed.

Lemma validate_zero_padding_ok packed k :
  0 <= k -> zlen packed = num_blocks k * TQ2_0_BLOCK_BYTES ->
  returns (validate_zero_padding packed k) /\
  (validate_zero_padding packed k = Ok tt -> zero_padded TQ2_codec packed k).
Proof.
  intros Hk Hp. unfold validate_zero_padding. change (k mod QK_K) with (k mod 256).
  destruct (Z.eqb_spec (k mod 256) 0) as [Hm|Hm].
  { split; [done|]. intros _ r buf blk scale j _ _ Hr Hj Hpad. simpl in Hr, Hj, Hpad.
    exfalso. revert Hr Hj Hpad. unfold div_ceil, QK_K. clear - Hm. Z.div_mod_to_equations; lia. }
  change TQ2_0_BLOCK_BYTES with 66 in *. rewrite (num_blocks_last k) in * by done.
  replace (k / 256 + 1 - 1) with (k / 256) by lia.
  assert (Hq : 0 <= k / 256 /\ 0 < k mod 256 < 256) by (Z.div_mod_to_equations; lia).
  rewrite slice_Ok by lia. cbn [bind].
  assert (Hb : zlen (sub packed (k / 256 * 66) (k / 256 * 66 + 66)) = TQ2_0_BLOCK_BYTES)
    by (rewrite zlen_sub by lia; change TQ2_0_BLOCK_BYTES with 66; lia).
  rewrite unpack_tq2_0_block_spec by (done || by vm_compute).
  destruct (tq2_valid _) eqn:Hv; [|by split]. cbn [bind].
  set (trits := tabulate 256 (tq2_trit (sub packed (k / 256 * 66) (k / 256 * 66 + 66)))).
  assert (Htl : zlen trits = 256) by (unfold trits; autorewrite with zlen; lia).
  rewrite Htl, slice_Ok by lia. cbn [bind].
  destruct (existsb _ _) eqn:Hex; [by split|]. split; [done|].
  intros _ r buf blk scale j Hbuf Hun Hr Hj Hpad. simpl in Hbuf, Hun, Hr, Hj, Hpad.
  assert (Hrj : r = k / 256 /\ k mod 256 <= j).
  { revert Hr Hj Hpad. unfold div_ceil, QK_K. clear - Hm Hk. Z.div_mod_to_equations; lia. }
  destruct Hrj as [-> Hjm]. change TQ2_0_BLOCK_BYTES with 66 in Hun.
  replace ((k / 256 + 1) * 66) with (k / 256 * 66 + 66) in Hun by lia.
  rewrite unpack_tq2_0_block_spec in Hun by done. rewrite Hv in Hun.
  apply Ok_inj in Hun. apply (f_equal fst) in Hun. cbn [fst] in Hun. fold trits in Hun. rewrite <- Hun.
  unfold QK_K in Hj. apply not_true_iff_false in Hex. destruct (decide (tget trits j = ZERO)); [done|].
  exfalso. apply Hex. apply existsb_exists. exists (tget trits j). split; [|by rewrite bool_decide_false].
  apply list_elem_of_In, list_elem_of_lookup. exists (Z.to_nat (j - k mod 256)).
  rewrite lookup_sub by lia. replace (k mod 256 + (j - k mod 256)) with j by lia.
  unfold tget. by destruct (lookup_Z trits j) as [t ->]; [lia|].
Qed.

(** The nonzero trits from position [i] on, with their columns. *)
Fixpoint nz_from (i : Z) (trits : list Trit) : list (Z * Z) :=
  match trits with
  | [] => []
  | t :: l => if is_zero t then nz_from (i + 1) l else (i, get t) :: nz_from (i + 1) l
  end.

Lemma push_nonzero_all trits : forall i idx sign,
  for_enum i trits push_nonzero (idx, sign) =
  Ok (idx ++ (nz_from i trits).*1, sign ++ (nz_from i trits).*2).
Proof.
  induction trits as [|t l IH]; intros i idx sign; simpl; [by rewrite !app_nil_r|].
  unfold is_zero. destruct (get t =? 0); simpl; rewrite IH; [done|].
  by rewrite <- !app_assoc.
Qed.

Lemma zip_fst_snd {A B} (l : list (A * B)) : zip l.*1 l.*2 = l.
Proof. induction l as [|[a b] l IH]; [done|]. simpl. f_equal. apply IH. Qed.

Lemma nz_from_bounds trits : forall i e,
  e ∈ nz_from i trits -> i <= fst e < i + zlen trits /\ (snd e = -1 \/ snd e = 1).
Proof.
  induction trits as [|t l IH]; intros i e He; simpl in He; [by apply not_elem_of_nil in He|].
  rewrite zlen_cons. pose proof (zlen_nonneg l).
  assert (Htl : e ∈ nz_from (i + 1) l -> i <= fst e < i + (1 + zlen l) /\ (snd e = -1 \/ snd e = 1)).
  { intros H1. apply IH in H1 as [? ?]. split; [lia|done]. }
  destruct (is_zero t) eqn:Hz; [by apply Htl|].
  apply elem_of_cons in He as [->|He]; [|by apply Htl]. simpl. split; [lia|].
  destruct t; [by left|done|by right].
Qed.

Lemma not_increasing_cons x l :
  not_increasing l = false -> (forall y, y ∈ l -> x < y) -> not_increasing (x :: l) = false.
Proof.
  intros Hl Hx. destruct l as [|y l]; [done|]. simpl in *. rewrite Hl.
  specialize (Hx y ltac:(apply list_elem_of_here)). replace (y <=? x) with false by lia. done.
Qed.

Lemma nz_from_increasing trits : forall i, not_increasing (nz_from i trits).*1 = false.
Proof.
  induction trits as [|t l IH]; intros i; simpl; [done|].
  destruct (is_zero t); [apply IH|]. simpl. apply not_increasing_cons; [apply IH|].
  intros y Hy. apply list_elem_of_fmap in Hy as (e & -> & He). apply nz_from_bounds in He. lia.
Qed.

Lemma check_entries_ok k l :
  (forall e, e ∈ l -> fst e < k /\ (snd e = -1 \/ snd e = 1)) ->
  for_each l (check_entry k) tt = Ok tt.
Proof.
  induction l as [|[c s] l IH]; intros H; simpl; [done|].
  destruct (H (c, s) ltac:(apply list_elem_of_here)) as [Hc Hs]. simpl in Hc, Hs.
  replace (k <=? c) with false by lia.
  replace (negb _) with false by (destruct Hs as [-> | ->]; done). cbn [bind].
  apply IH. intros e He. apply H. by apply list_elem_of_further.
Qed.

(** Scattering the nonzeros of a row over zeros rebuilds the row. *)
Lemma scatter_row k trits : forall i pre,
  zlen pre = i -> i + zlen trits <= k ->
  for_each (nz_from i trits) (scatter k) (pre ++ vec ZERO (zlen trits)) = Ok (pre ++ trits).
Proof.
  induction trits as [|t l IH]; intros i pre Hi Hk; simpl; [done|].
  rewrite zlen_cons in *. pose proof (zlen_nonneg l). pose proof (zlen_nonneg pre).
  assert (Hv : vec ZERO (1 + zlen l) = ZERO :: vec ZERO (zlen l)).
  { unfold vec. by replace (Z.to_nat (1 + zlen l)) with (S (Z.to_nat (zlen l))) by lia. }
  rewrite Hv. specialize (IH (i + 1) (pre ++ [t])). rewrite <- !app_assoc in IH. simpl in IH.
  destruct (is_zero t) eqn:Hz.
  - assert (t = ZERO) as -> by (by destruct t). apply IH; [autorewrite with zlen; lia|lia].
  - simpl. replace (k <=? i) with false by lia. rewrite trit_of_get. cbn [bind].
    rewrite upd_Ok by (autorewrite with zlen; lia). cbn [bind].
    replace (Z.to_nat i) with (length pre + 0)%nat by (unfold zlen in Hi; lia).
    rewrite insert_app_r. simpl. apply IH; [autorewrite with zlen; lia|lia].
Qed.

Lemma unpack_tq2_0_row_returns packed ts ss :
  zlen ts <= isize_max -> returns (unpack_tq2_0_row packed ts ss).
Proof. apply unpack_row_returns. Qed.

(** What [sparse_from_tq2_0] returns, and that its bytes are those of the row. *)
Lemma sparse_from_inv packed k p :
  0 <= k -> bytes_ok packed -> sparse_from_tq2_0 packed k = Ok p ->
  exists trits, zlen trits = k /\ sp_k p = k /\ k < SIGN_BIT /\
    zlen (sp_scales p) = num_blocks k /\ Forall is_u16 (sp_scales p) /\
    sp_idx p = (nz_from 0 trits).*1 /\ sp_sign p = (nz_from 0 trits).*2 /\
    unpack_tq2_0_row packed (vec ZERO k) (vec 0 (num_blocks k)) = Ok (trits, sp_scales p) /\
    enc_row TQ2_codec trits (sp_scales p) = packed.
Proof.
  intros Hk Hu H. unfold sparse_from_tq2_0 in H. destruct (Z.leb_spec SIGN_BIT k); [done|].
  bind_inv H. destruct v as [trits scales]. bind_inv H. destruct v.
  rewrite push_nonzero_all in H. cbn [bind app] in H. injection H as <-. simpl.
  assert (Hl : zlen packed = num_blocks k * TQ2_0_BLOCK_BYTES).
  { unfold unpack_tq2_0_row, unpack_row in Hv. bind_inv Hv.
    apply check_row_Ok_inv in Hv1 as (-> & _ & ->). autorewrite with zlen. rewrite Z.max_r by lia. done. }
  destruct (validate_zero_padding_ok packed k Hk Hl) as [_ Hz]. specialize (Hz Hv0).
  unfold SIGN_BIT in *. assert (Hvk : zlen (vec ZERO k) = k) by (autorewrite with zlen; lia).
  destruct (unpack_row_canonical TQ2_codec packed (vec ZERO k) (vec 0 (num_blocks k)) trits scales)
    as (Ht & Hs & Hsu & He); rewrite ?Hvk in *; try done; [unfold isize_max; lia|].
  exists trits. done.
Qed.

Lemma validate_sparse_from p trits :
  sp_k p = zlen trits -> zlen trits < SIGN_BIT -> zlen (sp_scales p) = num_blocks (zlen trits) ->
  sp_idx p = (nz_from 0 trits).*1 -> sp_sign p = (nz_from 0 trits).*2 ->
  validate_sparse_plane p = Ok (num_blocks (zlen trits)).
Proof.
  intros Hk Hb Hs Hi Hsg. unfold validate_sparse_plane. rewrite Hk, Hs, Hi, Hsg, !zlen_fmap, !Z.eqb_refl.
  replace (SIGN_BIT <=? zlen trits) with false by lia. cbn [negb]. rewrite nz_from_increasing.
  rewrite zip_fst_snd, check_entries_ok; [done|].
  intros e He. apply nz_from_bounds in He. split; [lia|apply He].
Qed.

Lemma sparse_to_from packed k p :
  0 <= k -> bytes_ok packed -> sparse_from_tq2_0 packed k = Ok p -> sparse_to_tq2_0 p = Ok packed.
Proof.
  intros Hk Hu H.
  destruct (sparse_from_inv packed k p Hk Hu H) as (trits & Ht & Hpk & Hb & Hs & Hsu & Hi & Hsg & _ & He).
  assert (Hnb : 0 <= num_blocks k /\ num_blocks k * 66 <= k + 255).
  { unfold num_blocks, div_ceil, QK_K. Z.div_mod_to_equations; lia. }
  unfold sparse_to_tq2_0. rewrite (validate_sparse_from p trits) by congruence. cbn [bind].
  rewrite Hi, Hsg, zip_fst_snd, Hpk.
  pose proof (scatter_row k trits 0 []) as Hsc. simpl in Hsc. rewrite Ht in Hsc.
  rewrite Hsc by (done || lia). cbn [bind]. rewrite Ht.
  unfold mul_usize, checked_mul, usize_max, SIGN_BIT in *. change TQ2_0_BLOCK_BYTES with 66.
  replace (_ <=? _) with true by lia. cbn [bind unwrap]. unfold pack_tq2_0_row.
  rewrite pack_row_Ok; [by rewrite He|unfold isize_max; lia|by rewrite Ht|].
  simpl. autorewrite with zlen. rewrite Hs. change TQ2_0_BLOCK_BYTES with 66. lia.
Qed.

Lemma sparse_from_returns packed k : 0 <= k -> returns (sparse_from_tq2_0 packed k).
Proof.
  intros Hk. unfold sparse_from_tq2_0. destruct (Z.leb_spec SIGN_BIT k); [done|]. unfold SIGN_BIT in *.
  apply returns_bind.
  { apply unpack_tq2_0_row_returns. autorewrite with zlen. unfold isize_max. lia. }
  intros [trits scales] Hun. apply returns_bind.
  - assert (Hl : zlen packed = num_blocks k * TQ2_0_BLOCK_BYTES).
    { unfold unpack_tq2_0_row, unpack_row in Hun. bind_inv Hun.
      apply check_row_Ok_inv in Hv as (-> & _ & ->). autorewrite with zlen.
      by rewrite (Z.max_r 0 k) by lia. }
    by destruct (validate_zero_padding_ok packed k Hk Hl).
  - intros [] _. by rewrite push_nonzero_all.
Qed.

(** * The side-car container *)

Definition encode_entry (e : Z * Z) : Z := if snd e =? 1 then fst e else fst e + SIGN_BIT.

Lemma lor_sign c : 0 <= c < SIGN_BIT -> Z.lor c SIGN_BIT = c + SIGN_BIT.
Proof.
  intros Hc. assert (Hl : Z.land c SIGN_BIT = 0).
  { change SIGN_BIT with (Z.shiftl 1 31). apply Z.bits_inj'. intros n Hn.
    rewrite Z.land_spec, Z.shiftl_spec, Z.bits_0 by lia.
    destruct (Z.eqb_spec n 31) as [->|Hne].
    - replace (Z.testbit c 31) with false; [done|]. symmetry.
      destruct (Z.eqb_spec c 0) as [->|]; [apply Z.bits_0|].
      apply Z.bits_above_log2; [lia|]. apply Z.log2_lt_pow2; [lia|]. unfold SIGN_BIT in Hc. lia.
    - replace (Z.testbit 1 (n - 31)) with false; [by rewrite andb_false_r|]. symmetry.
      destruct (Z.ltb_spec n 31); [by rewrite Z.testbit_neg_r by lia|].
      apply (Z.bits_above_log2 1); simpl; lia. }
  rewrite Z.add_nocarry_lxor by done. by rewrite Z.lxor_lor.
Qed.

Lemma entry_column_mod e : entry_column e = e mod SIGN_BIT.
Proof. unfold entry_column. change 2147483647 with (Z.ones 31). by rewrite Z.land_ones by lia. Qed.

Lemma entry_neg_spec e : 0 <= e < 4294967296 -> entry_neg e = (SIGN_BIT <=? e).
Proof.
  intros He. unfold entry_neg.
  assert (Hd : e = e mod SIGN_BIT + SIGN_BIT * (e / SIGN_BIT)) by (Z.div_mod_to_equations; lia).
  assert (Hq : e / SIGN_BIT = 0 \/ e / SIGN_BIT = 1)
    by (unfold SIGN_BIT; Z.div_mod_to_equations; lia).
  assert (Hm : 0 <= e mod SIGN_BIT < SIGN_BIT) by (apply Z.mod_pos_bound; by vm_compute).
  assert (Hand : forall c, 0 <= c < SIGN_BIT -> Z.land c SIGN_BIT = 0).
  { intros c Hc. pose proof (lor_sign c Hc) as Hl.
    pose proof (Z.add_lor_land c SIGN_BIT) as Ha. lia. }
  destruct Hq as [Hq|Hq]; rewrite Hq in Hd.
  - rewrite Hand by lia. simpl. lia.
  - rewrite Hd, Z.mul_1_r, <- lor_sign by done. rewrite Z.land_lor_distr_l, Hand by done.
    rewrite Z.lor_0_l, Z.land_diag. rewrite lor_sign by done. unfold SIGN_BIT in *. simpl. lia.
Qed.

Lemma encode_entry_decode c s :
  0 <= c < SIGN_BIT -> s = -1 \/ s = 1 ->
  is_u32 (encode_entry (c, s)) /\ entry_column (encode_entry (c, s)) = c /\
  (if entry_neg (encode_entry (c, s)) then -1 else 1) = s.
Proof.
  intros Hc Hs. unfold encode_entry. simpl.
  assert (Hr : is_u32 (if s =? 1 then c else c + SIGN_BIT))
    by (unfold is_u32, SIGN_BIT in *; destruct (s =? 1); lia).
  split; [done|]. rewrite entry_column_mod, entry_neg_spec by done.
  destruct Hs as [-> | ->]; simpl.
  - replace (SIGN_BIT <=? c + SIGN_BIT) with true by lia. split; [|done].
    rewrite <- (Z.mul_1_l SIGN_BIT) at 1. rewrite Z.mod_add by (by vm_compute). by apply Z.mod_small.
  - replace (SIGN_BIT <=? c) with false by lia. split; [by apply Z.mod_small|done].
Qed.

Lemma pack_entries_ok k l : forall out,
  k <= SIGN_BIT -> (forall e, e ∈ l -> 0 <= fst e < k /\ (snd e = -1 \/ snd e = 1)) ->
  for_each l (pack_entry k) out = Ok (out ++ concat ((to_le 4 ∘ encode_entry) <$> l)).
Proof.
  induction l as [|[c s] l IH]; intros out Hk H; simpl; [by rewrite app_nil_r|].
  destruct (H (c, s) ltac:(apply list_elem_of_here)) as [Hc Hs]. simpl in Hc, Hs.
  replace (k <=? c) with false by lia.
  assert (He : (if s =? 1 then Ok c else if s =? -1 then Ok (Z.lor c SIGN_BIT)
    else Err (DecodedOutOfRange s)) = Ok (E := FormatError) (encode_entry (c, s))).
  { unfold encode_entry. destruct Hs as [-> | ->]; simpl; [|done]. by rewrite lor_sign by lia. }
  rewrite He. cbn [bind]. rewrite IH; [by rewrite <- app_assoc|done|].
  intros e Hin. apply H. by apply list_elem_of_further.
Qed.

(** The checks of [parse] on the entries of a canonical plane. *)
Lemma parse_entries_ok k l : forall prev,
  k <= SIGN_BIT -> not_increasing l.*1 = false ->
  (forall e, e ∈ l -> 0 <= fst e < k /\ (snd e = -1 \/ snd e = 1)) ->
  match prev, l with Some v, e :: _ => v < fst e | _, _ => True end ->
  exists last, for_each (encode_entry <$> l) (parse_entry k) prev = Ok last.
Proof.
  induction l as [|[c s] l IH]; intros prev Hk Hi H Hp; simpl; [eauto|].
  destruct (H (c, s) ltac:(apply list_elem_of_here)) as [Hc Hs]. simpl in Hc, Hs.
  destruct (encode_entry_decode c s ltac:(lia) Hs) as (_ & Hcol & _).
  unfold parse_entry at 1. rewrite Hcol. replace (k <=? c) with false by lia.
  replace (match prev with Some value => c <=? value | None => false end) with false
    by (destruct prev; simpl in Hp; lia).
  cbn [bind]. apply IH; [done| | |].
  - destruct l as [|[c1 s1] l]; [done|]. simpl in *. by apply orb_false_iff in Hi as [_ Hi].
  - intros e He. apply H. by apply list_elem_of_further.
  - destruct l as [|[c1 s1] l]; [done|]. simpl in *. apply orb_false_iff in Hi as [Hi _]. lia.
Qed.

Lemma increasing_len l : forall lo k,
  not_increasing l = false -> (forall x, x ∈ l -> lo <= x < k) -> lo <= k -> zlen l <= k - lo.
Proof.
  induction l as [|x l IH]; intros lo k Hi H Hlk; [rewrite zlen_nil; lia|]. rewrite zlen_cons.
  pose proof (H x ltac:(apply list_elem_of_here)) as Hx.
  enough (zlen l <= k - (x + 1)) by lia. apply IH; [| |lia].
  - destruct l; [done|]. simpl in Hi. by apply orb_false_iff in Hi as [_ Hi].
  - assert (Hgt : forall l y0, not_increasing (y0 :: l) = false -> forall y, y ∈ l -> y0 < y).
    { clear. induction l as [|y1 l IH]; intros y0 Hi y Hy; [by apply not_elem_of_nil in Hy|].
      simpl in Hi. apply orb_false_iff in Hi as [H1 H2]. apply elem_of_cons in Hy as [->|Hy]; [lia|].
      specialize (IH y1 H2 y Hy). lia. }
    intros y Hy. specialize (Hgt l x Hi y Hy).
    specialize (H y ltac:(by apply list_elem_of_further)). lia.
Qed.

(** A plane the validator accepts. *)
Definition plane_ok (p : SparsePlane) : Prop :=
  sp_k p < SIGN_BIT /\ zlen (sp_scales p) = num_blocks (sp_k p) /\
  zlen (sp_idx p) = zlen (sp_sign p) /\ not_increasing (sp_idx p) = false /\
  forall e, e ∈ zip (sp_idx p) (sp_sign p) -> fst e < sp_k p /\ (snd e = -1 \/ snd e = 1).

Lemma check_entries_inv k l :
  for_each l (check_entry k) tt = Ok tt ->
  forall e, e ∈ l -> fst e < k /\ (snd e = -1 \/ snd e = 1).
Proof.
  induction l as [|[c s] l IH]; intros H e He; [by apply not_elem_of_nil in He|].
  simpl in H. destruct (Z.leb_spec k c); [done|].
  destruct (Z.eqb_spec s (-1)), (Z.eqb_spec s 1); try done; cbn in H;
    (apply elem_of_cons in He as [->|He]; [simpl; lia|by apply IH]).
Qed.

Lemma validate_sparse_plane_iff p :
  (validate_sparse_plane p = Ok (num_blocks (sp_k p)) <-> plane_ok p) /\
  returns (validate_sparse_plane p) /\
  forall n, validate_sparse_plane p = Ok n -> n = num_blocks (sp_k p).
Proof.
  unfold validate_sparse_plane, plane_ok.
  destruct (Z.leb_spec SIGN_BIT (sp_k p)); [split; [split; [done|lia]|done]|].
  destruct (Z.eqb_spec (zlen (sp_scales p)) (num_blocks (sp_k p))); [|by repeat split; try tauto].
  destruct (Z.eqb_spec (zlen (sp_idx p)) (zlen (sp_sign p))); [|by repeat split; try tauto].
  destruct (not_increasing (sp_idx p)) eqn:Hi; [split; [split; [done|by intros (_ & _ & _ & ? & _)]|done]|]. cbn [negb].
  destruct (for_each (zip (sp_idx p) (sp_sign p)) (check_entry (sp_k p)) tt) as [[]|e'| |] eqn:Hc; cbn [bind].
  - split; [|split; [done|by intros n [= <-]]]. split; [|done]. intros _.
    repeat split; try done; by apply (check_entries_inv _ _ Hc).
  - split; [|done]. split; [done|]. intros (_ & _ & _ & _ & Hall). by rewrite check_entries_ok in Hc.
  - exfalso. revert Hc. generalize (zip (sp_idx p) (sp_sign p)). clear.
    induction l as [|[c s] l IH]; simpl; [done|]. destruct (_ <=? _); [done|]. by destruct (negb _).
  - exfalso. revert Hc. generalize (zip (sp_idx p) (sp_sign p)). clear.
    induction l as [|[c s] l IH]; simpl; [done|]. destruct (_ <=? _); [done|]. by destruct (negb _).
Qed.

(** The container bytes of a plane, with a free pad byte. *)
Definition plane_bytes (pad : Z) (p : SparsePlane) : list Z :=
  SPARSE_MAGIC ++ [SPARSE_VERSION] ++ [pad] ++ to_le 4 (sp_k p) ++ to_le 4 (zlen (sp_idx p)) ++
  concat (to_le 2 <$> sp_scales p) ++
  concat (to_le 4 <$> (encode_entry <$> zip (sp_idx p) (sp_sign p))).

(** A plane whose fields have their Rust types. *)
Definition plane_typed (p : SparsePlane) : Prop :=
  0 <= sp_k p /\ Forall is_u16 (sp_scales p) /\ Forall (fun c => 0 <= c) (sp_idx p).

Lemma for_each_append_le {E} (n : nat) (l : list Z) : forall out,
  for_each (E := E) l (fun x out => Ok (out ++ to_le n x)) out = Ok (out ++ concat (to_le n <$> l)).
Proof.
  induction l as [|x l IH]; intros out; simpl; [by rewrite app_nil_r|]. by rewrite IH, <- app_assoc.
Qed.

Lemma zip_lower (l k : list Z) e :
  Forall (fun c => 0 <= c) l -> e ∈ zip l k -> 0 <= fst e.
Proof.
  intros Hl. revert k. induction Hl as [|x l Hx Hl IH]; intros [|y k] He; simpl in He;
    try (by apply not_elem_of_nil in He).
  apply elem_of_cons in He as [->|He]; [done|by eapply IH].
Qed.

Lemma zip_fst (l k : list Z) : zlen l = zlen k -> (zip l k).*1 = l.
Proof.
  revert k. induction l as [|x l IH]; intros [|y k] H; try done; unfold zlen in H; simpl in H; try lia.
  simpl. f_equal. apply IH. unfold zlen. lia.
Qed.
Lemma zip_snd (l k : list Z) : zlen l = zlen k -> (zip l k).*2 = k.
Proof.
  revert k. induction l as [|x l IH]; intros [|y k] H; try done; unfold zlen in H; simpl in H; try lia.
  simpl. f_equal. apply IH. unfold zlen. lia.
Qed.

Lemma plane_entries p :
  plane_ok p -> plane_typed p ->
  forall e, e ∈ zip (sp_idx p) (sp_sign p) ->
    0 <= fst e < sp_k p /\ (snd e = -1 \/ snd e = 1).
Proof.
  intros (_ & _ & _ & _ & He) (_ & _ & Hc) e Hin. destruct (He e Hin) as [H1 H2].
  pose proof (zip_lower _ _ _ Hc Hin). split; [lia|done].
Qed.

Lemma pack_sparse_plane_ok p :
  plane_ok p -> plane_typed p -> pack_sparse_plane p = Ok (plane_bytes 0 p).
Proof.
  intros Hp Ht. destruct (validate_sparse_plane_iff p) as [Hv _]. apply Hv in Hp as Hv'.
  unfold pack_sparse_plane. rewrite Hv'. pose proof Hp as (Hk & _).
  replace (SIGN_BIT <=? sp_k p) with false by lia. cbn [bind]. rewrite for_each_append_le. cbn [bind].
  rewrite pack_entries_ok; [|lia|by apply plane_entries].
  unfold plane_bytes. by rewrite list_fmap_compose, <- !app_assoc.
Qed.

Lemma plane_nnz p : plane_ok p -> plane_typed p -> 0 <= zlen (sp_idx p) <= sp_k p.
Proof.
  intros (Hk & _ & Hl & Hi & He) (Hk0 & _ & Hc). split; [auto with rust|].
  rewrite <- (Z.sub_0_r (sp_k p)). apply increasing_len; [done| |done].
  intros x Hx. apply list_elem_of_In in Hx. rewrite Forall_forall in Hc. split; [by apply Hc|].
  apply list_elem_of_In in Hx. rewrite <- (zip_fst _ _ Hl) in Hx.
  apply list_elem_of_fmap in Hx as (e & -> & Hin). by apply He.
Qed.

Lemma zlen_plane_bytes pad p :
  zlen (plane_bytes pad p) =
    14 + 2 * zlen (sp_scales p) + 4 * zlen (zip (sp_idx p) (sp_sign p)).
Proof.
  unfold plane_bytes. rewrite !zlen_app, !zlen_concat_le, !zlen_to_le4, zlen_fmap.
  change (zlen SPARSE_MAGIC) with 4. change (zlen [SPARSE_VERSION]) with 1. change (zlen [pad]) with 1. lia.
Qed.

Lemma header_u32_spec {E} bytes o :
  0 <= o -> o + 4 <= zlen bytes -> header_u32 (E := E) bytes o = Ok (from_le (sub bytes o (o + 4))).
Proof. intros. unfold header_u32. by apply (le4_bytes bytes o (fun x => Ok x)). Qed.

(** The fields of a container, by offset. *)
Lemma plane_bytes_fields pad p :
  let bytes := plane_bytes pad p in
  let start := 14 + 2 * zlen (sp_scales p) in
  sub bytes 0 4 = SPARSE_MAGIC /\ idx (E := FormatError) bytes 4 = Ok SPARSE_VERSION /\
  sub bytes 6 10 = to_le 4 (sp_k p) /\ sub bytes 10 14 = to_le 4 (zlen (sp_idx p)) /\
  sub bytes 14 start = concat (to_le 2 <$> sp_scales p) /\
  sub bytes start (zlen bytes) =
    concat (to_le 4 <$> (encode_entry <$> zip (sp_idx p) (sp_sign p))).
Proof.
  intros bytes start. unfold bytes.
  split; [done|]. split; [done|]. split; [|split; [|split]].
  - unfold plane_bytes. rewrite (app_assoc [SPARSE_VERSION]), (app_assoc SPARSE_MAGIC). by apply sub_mid.
  - unfold plane_bytes.
    rewrite (app_assoc [pad]), (app_assoc [SPARSE_VERSION]), (app_assoc SPARSE_MAGIC). by apply sub_mid.
  - unfold plane_bytes.
    rewrite (app_assoc (to_le 4 _)), (app_assoc [pad]), (app_assoc [SPARSE_VERSION]), (app_assoc SPARSE_MAGIC).
    set (h := SPARSE_MAGIC ++ _). apply sub_mid; [done|]. rewrite zlen_concat_le.
    change (zlen h) with 14. unfold start. lia.
  - rewrite zlen_plane_bytes. unfold plane_bytes.
    rewrite (app_assoc (to_le 4 _)), (app_assoc [pad]), (app_assoc [SPARSE_VERSION]), (app_assoc SPARSE_MAGIC).
    set (h := SPARSE_MAGIC ++ _). rewrite app_assoc.
    assert (Hh : zlen (h ++ concat (to_le 2 <$> sp_scales p)) = start).
    { rewrite zlen_app, zlen_concat_le. change (zlen h) with 14. unfold start. lia. }
    rewrite <- Hh. apply sub_app_r. rewrite Hh, zlen_concat_le, zlen_fmap. unfold start. lia.
Qed.

Lemma parse_plane_bytes pad p :
  plane_ok p -> plane_typed p ->
  parse (plane_bytes pad p) = Ok (mkSparseRef (sp_k p) (concat (to_le 2 <$> sp_scales p))
    (concat (to_le 4 <$> (encode_entry <$> zip (sp_idx p) (sp_sign p))))).
Proof.
  intros Hp Ht. pose proof (plane_nnz p Hp Ht) as Hn. pose proof (plane_entries p Hp Ht) as He.
  pose proof Hp as (Hk & Hs & Hl & Hi & _). pose proof Ht as (Hk0 & Hsu & _).
  pose proof (zlen_plane_bytes pad p) as Hlen. unfold SIGN_BIT in Hk.
  assert (Hz : zlen (zip (sp_idx p) (sp_sign p)) = zlen (sp_idx p))
    by (rewrite <- (zip_fst _ _ Hl) at 2; by rewrite zlen_fmap).
  destruct (plane_bytes_fields pad p) as (Hmag & Hver & Hkb & Hnb & Hsb & Heb).
  rewrite Hz, Hs in Hlen. rewrite Hs in Hsb, Heb.
  assert (Hb : 0 <= num_blocks (sp_k p) <= sp_k p)
    by (unfold num_blocks, div_ceil, QK_K; Z.div_mod_to_equations; lia).
  set (bytes := plane_bytes pad p) in *. clearbody bytes.
  unfold parse. change SPARSE_HEADER_BYTES with 14. replace (zlen bytes <? 14) with false by lia.
  rewrite slice_Ok, Hmag by lia. cbn [bind]. rewrite bool_decide_true by done. cbn [negb].
  rewrite Hver. cbn [bind]. rewrite Z.eqb_refl. cbn [negb].
  rewrite !header_u32_spec by lia. change (6 + 4) with 10. change (10 + 4) with 14. rewrite Hkb, Hnb.
  rewrite !from_to_le by (change (256 ^ Z.of_nat 4) with 4294967296; lia). cbn [bind].
  unfold SIGN_BIT. replace (2147483648 <=? sp_k p) with false by lia.
  unfold checked_mul, checked_add, usize_max.
  replace (num_blocks (sp_k p) * 2 <=? _) with true by lia. cbn [ok_or bind].
  replace (zlen (sp_idx p) * 4 <=? _) with true by lia. cbn [ok_or bind].
  replace (14 + num_blocks (sp_k p) * 2 <=? _) with true by lia. cbn [ok_or bind].
  replace (_ <=? _) with true by lia. cbn [ok_or bind].
  replace (zlen bytes =? _) with true by lia. cbn [negb].
  rewrite !slice_Ok by lia. cbn [bind]. rewrite (Z.mul_comm _ 2), Hsb, Heb.
  rewrite (decode_chunks 4); [|lia|].
  - destruct (parse_entries_ok (sp_k p) (zip (sp_idx p) (sp_sign p)) None) as [last ->];
      [unfold SIGN_BIT; lia|by rewrite zip_fst|done|done|done].
  - apply Forall_fmap, Forall_forall. intros [c s] Hin. apply list_elem_of_In in Hin.
    destruct (He _ Hin) as [Hc Hsg]. simpl in *.
    destruct (encode_entry_decode c s) as (Hr & _); [unfold SIGN_BIT; lia|done|exact Hr].
Qed.

Lemma unpack_plane_bytes pad p :
  plane_ok p -> plane_typed p -> unpack_sparse_plane (plane_bytes pad p) = Ok p.
Proof.
  intros Hp Ht. unfold unpack_sparse_plane. rewrite parse_plane_bytes by done. cbn [bind]. f_equal.
  pose proof (plane_entries p Hp Ht) as He. pose proof Hp as (Hk & _ & Hl & _). destruct Ht as (_ & Hsu & _).
  assert (Henc : Forall (fun v => 0 <= v < 256 ^ Z.of_nat 4) (encode_entry <$> zip (sp_idx p) (sp_sign p))).
  { apply Forall_fmap, Forall_forall. intros [c s] Hin. apply list_elem_of_In in Hin.
    destruct (He _ Hin) as [Hc Hsg]. simpl in *.
    destruct (encode_entry_decode c s) as (Hr & _); [lia|done|exact Hr]. }
  unfold to_owned, ref_scales, encoded_entries. simpl sr_k. simpl sr_scales. simpl sr_entries.
  rewrite (decode_chunks 2), (decode_chunks 4) by (done || lia).
  destruct p as [k scales idx sign]. simpl in *. f_equal.
  - rewrite <- list_fmap_compose, <- (zip_fst idx sign) at 1 by done.
    transitivity (zip idx sign).*1; [|by apply zip_fst].
    rewrite zip_fst by done. rewrite <- (zip_fst idx sign) at 2 by done.
    apply list_fmap_ext. intros i [c s] Hx. apply list_elem_of_lookup_2 in Hx.
    destruct (He _ Hx) as [Hc Hsg]. simpl in *. apply encode_entry_decode; [lia|done].
  - rewrite <- list_fmap_compose. rewrite <- (zip_snd idx sign) at 2 by done.
    apply list_fmap_ext. intros i [c s] Hx. apply list_elem_of_lookup_2 in Hx.
    destruct (He _ Hx) as [Hc Hsg]. simpl in *. apply encode_entry_decode; [lia|done].
Qed.

(** * What the parser accepts *)

Lemma recode_chunks (n : nat) m l :
  (0 < n)%nat -> 0 <= m -> bytes_ok l -> zlen l = m * Z.of_nat n ->
  concat (to_le n <$> (from_le <$> as_chunks (Z.of_nat n) l)) = l.
Proof.
  intros Hn Hm Hb Hl. unfold as_chunks. rewrite Hl, Z.div_mul by lia.
  rewrite <- list_fmap_compose. unfold tabulate. rewrite <- list_fmap_compose.
  fold (blocks m ((to_le n ∘ from_le) ∘ (fun i => sub l (i * Z.of_nat n) ((i + 1) * Z.of_nat n)))).
  symmetry. apply (blocks_eq l m (Z.of_nat n)); [done|lia|done|]. intros i Hi. simpl.
  set (c := sub l (i * Z.of_nat n) ((i + 1) * Z.of_nat n)).
  assert (Hc : zlen c = Z.of_nat n) by (unfold c; rewrite zlen_sub; nia).
  replace n with (length c) by (unfold zlen in Hc; lia). symmetry. apply to_from_le.
  by apply bytes_ok_sub.
Qed.

Lemma decoded_chunks_bound (n : nat) m l :
  (0 < n)%nat -> 0 <= m -> bytes_ok l -> zlen l = m * Z.of_nat n ->
  zlen (from_le <$> as_chunks (Z.of_nat n) l) = m /\
  Forall (fun v => 0 <= v < 256 ^ Z.of_nat n) (from_le <$> as_chunks (Z.of_nat n) l).
Proof.
  intros Hn Hm Hb Hl. unfold as_chunks. rewrite Hl, Z.div_mul by lia. split.
  - autorewrite with zlen. lia.
  - unfold tabulate. rewrite <- list_fmap_compose. apply Forall_fmap, Forall_forall.
    intros i Hi. apply list_elem_of_In, elem_of_seqZ in Hi. simpl.
    assert (Hc : zlen (sub l (i * Z.of_nat n) ((i + 1) * Z.of_nat n)) = Z.of_nat n)
      by (rewrite zlen_sub; nia).
    pose proof (from_le_bound _ (bytes_ok_sub l (i * Z.of_nat n) ((i + 1) * Z.of_nat n) Hb)) as Hv.
    rewrite Hc in Hv. exact Hv.
Qed.

Lemma parse_entries_inv k l : forall prev last,
  for_each l (parse_entry k) prev = Ok last ->
  (forall e, e ∈ l -> entry_column e < k) /\ not_increasing (entry_column <$> l) = false /\
  match prev, l with Some v, e :: _ => v < entry_column e | _, _ => True end.
Proof.
  induction l as [|e l IH]; intros prev last H; simpl in *.
  { split; [intros e He; by apply not_elem_of_nil in He|]. split; [done|by destruct prev]. }
  bind_inv H. unfold parse_entry in Hv. destruct (Z.leb_spec k (entry_column e)); [done|].
  destruct (match prev with Some value => entry_column e <=? value | None => false end) eqn:Hp; [done|].
  injection Hv as <-. destruct (IH _ _ H) as (Hc & Hi & Hn). split; [|split].
  - intros x Hx. apply elem_of_cons in Hx as [->|Hx]; [done|by apply Hc].
  - destruct l as [|e1 l]; [done|]. simpl in *. rewrite Hi. replace (_ <=? _) with false by lia. done.
  - destruct prev; [lia|done].
Qed.

Lemma encode_decode_entry e :
  0 <= e < 4294967296 -> encode_entry (entry_column e, if entry_neg e then -1 else 1) = e.
Proof.
  intros He. unfold encode_entry. simpl. rewrite entry_column_mod, entry_neg_spec by done.
  unfold SIGN_BIT. destruct (Z.leb_spec 2147483648 e); simpl; Z.div_mod_to_equations; lia.
Qed.

Lemma zip_fmap2 {A} (f g : A -> Z) (l : list A) : zip (f <$> l) (g <$> l) = (fun x => (f x, g x)) <$> l.
Proof. induction l as [|x l IH]; [done|]. simpl. f_equal. apply IH. Qed.

Lemma parse_inv bytes r :
  zlen bytes <= isize_max -> bytes_ok bytes -> parse bytes = Ok r ->
  exists pad p, bytes = plane_bytes pad p /\ to_owned r = p /\ plane_ok p /\ plane_typed p.
Proof.
  intros Hmax Hu H. unfold parse in H. change SPARSE_HEADER_BYTES with 14 in H.
  destruct (Z.ltb_spec (zlen bytes) 14); [done|]. rewrite slice_Ok in H by lia. cbn [bind] in H.
  case_bool_decide as Hmag; [|done]. cbn [negb] in H.
  rewrite idx_bget in H by lia. cbn [bind] in H.
  destruct (Z.eqb_spec (bget bytes 4) SPARSE_VERSION) as [Hver|]; [|done]. cbn [negb] in H.
  rewrite !header_u32_spec in H by lia. change (6 + 4) with 10 in H. change (10 + 4) with 14 in H.
  cbn [bind] in H. set (k := from_le (sub bytes 6 10)) in *. set (nnz := from_le (sub bytes 10 14)) in *.
  destruct (Z.leb_spec SIGN_BIT k) as [|Hk]; [done|].
  assert (Hk0 : 0 <= k) by (apply from_le_bound; by apply bytes_ok_sub).
  assert (Hn0 : 0 <= nnz) by (apply from_le_bound; by apply bytes_ok_sub).
  assert (Hnb : 0 <= num_blocks k) by (apply div_ceil_nonneg; [done|by vm_compute]).
  unfold checked_mul, checked_add in H.
  destruct (_ <=? _) in H; [|done]. cbn [ok_or bind] in H. destruct (_ <=? _) in H; [|done].
  cbn [ok_or bind] in H. destruct (_ <=? _) in H; [|done]. cbn [ok_or bind] in H.
  destruct (_ <=? _) in H; [|done]. cbn [ok_or bind] in H.
  destruct (Z.eqb_spec (zlen bytes) (14 + num_blocks k * 2 + nnz * 4)) as [Hlen|]; [|done]. cbn [negb] in H.
  rewrite !slice_Ok in H by lia. cbn [bind] in H. bind_inv H. injection H as <-.
  set (S := sub bytes 14 (14 + num_blocks k * 2)) in *.
  set (En := sub bytes (14 + num_blocks k * 2) (zlen bytes)) in *.
  assert (HS : zlen S = num_blocks k * Z.of_nat 2) by (unfold S; rewrite zlen_sub; lia).
  assert (HE : zlen En = nnz * Z.of_nat 4) by (unfold En; rewrite zlen_sub; lia).
  assert (HuS : bytes_ok S) by (by apply bytes_ok_sub).
  assert (HuE : bytes_ok En) by (by apply bytes_ok_sub).
  destruct (decoded_chunks_bound 2 (num_blocks k) S) as [HlS HbS]; [lia|lia|done|done|].
  destruct (decoded_chunks_bound 4 nnz En) as [HlE HbE]; [lia|lia|done|done|].
  destruct (parse_entries_inv _ _ _ _ Hv) as (Hcol & Hinc & _).
  set (es := from_le <$> as_chunks 4 En) in *. change (Z.of_nat 4) with 4 in HlE, HbE.
  change (Z.of_nat 2) with 2 in HlS, HbS. fold es in HlE, HbE. rewrite Forall_forall in HbE.
  assert (Hes : encode_entry <$> zip (entry_column <$> es) ((fun e => if entry_neg e then -1 else 1) <$> es) = es).
  { rewrite zip_fmap2, <- list_fmap_compose. rewrite <- (list_fmap_id es) at 2. apply list_fmap_ext.
    intros i e Hi. simpl. apply encode_decode_entry. apply (HbE e), list_elem_of_In.
    by eapply list_elem_of_lookup_2. }
  exists (bget bytes 5). eexists. split; [|split; [reflexivity|split]].
  - unfold plane_bytes, to_owned, ref_scales, encoded_entries. cbn [sp_k sp_scales sp_idx sp_sign sr_k sr_scales sr_entries].
    fold es. rewrite Hes. unfold es. rewrite (recode_chunks 2 (num_blocks k)), (recode_chunks 4 nnz) by (done || lia).
    rewrite zlen_fmap. fold es. rewrite HlE. unfold k at 1, nnz at 1.
    pose proof (to_le_sub bytes 4 6 ltac:(lia) ltac:(lia) Hu) as H6.
    pose proof (to_le_sub bytes 4 10 ltac:(lia) ltac:(lia) Hu) as H10.
    change (6 + Z.of_nat 4) with 10 in H6. change (10 + Z.of_nat 4) with 14 in H10. rewrite H6, H10.
    rewrite <- Hmag, <- Hver. rewrite <- (sub_1 bytes 4), <- (sub_1 bytes 5) by lia.
    change (4 + 1) with 5. change (5 + 1) with 6.
    unfold S, En. rewrite !sub_join by lia. by rewrite sub_full.
  - unfold plane_ok, to_owned, ref_scales, encoded_entries. cbn [sp_k sp_scales sp_idx sp_sign sr_k sr_scales sr_entries].
    fold es. rewrite !zlen_fmap. split; [done|]. split; [by rewrite <- HlS, zlen_fmap|]. split; [done|].
    split; [done|]. rewrite zip_fmap2. intros e He. apply list_elem_of_fmap in He as (x & -> & Hx).
    simpl. split; [by apply Hcol|]. destruct (entry_neg x); [by left|by right].
  - unfold plane_typed, to_owned, ref_scales, encoded_entries. cbn [sp_k sp_scales sp_idx sp_sign sr_k sr_scales sr_entries].
    fold es. split; [done|]. split; [exact HbS|]. apply Forall_fmap, Forall_forall. intros e He. simpl.
    rewrite entry_column_mod. apply Z.mod_pos_bound. by vm_compute.
Qed.

Lemma parse_returns bytes : zlen bytes <= isize_max -> bytes_ok bytes -> returns (parse bytes).
Proof.
  intros Hmax Hu. unfold parse. change SPARSE_HEADER_BYTES with 14.
  destruct (Z.ltb_spec (zlen bytes) 14); [done|]. rewrite slice_Ok by lia. cbn [bind].
  case_bool_decide; [|done]. cbn [negb]. rewrite idx_bget by lia. cbn [bind].
  destruct (_ =? SPARSE_VERSION); [|done]. cbn [negb]. rewrite !header_u32_spec by lia. cbn [bind].
  destruct (_ <=? _) eqn:Hk; [done|]. destruct (checked_mul _ 2) as [sb|] eqn:Hsb; [|done]. cbn [ok_or bind].
  destruct (checked_mul _ 4) as [eb|] eqn:Heb; [|done]. cbn [ok_or bind].
  destruct (checked_add 14 sb) as [st|] eqn:Hst; [|done]. cbn [ok_or bind].
  destruct (checked_add st eb) as [rq|] eqn:Hrq; [|done]. cbn [ok_or bind].
  destruct (Z.eqb_spec (zlen bytes) rq) as [Hrq'|]; [|done]. cbn [negb].
  unfold checked_mul, checked_add in *. repeat (destruct (_ <=? usize_max) in *; try done). simplify_eq.
  pose proof (from_le_bound _ (bytes_ok_sub bytes 6 (6 + 4) Hu)) as Hk0.
  pose proof (from_le_bound _ (bytes_ok_sub bytes 10 (10 + 4) Hu)) as Hn0.
  pose proof (div_ceil_nonneg (from_le (sub bytes 6 (6 + 4))) QK_K ltac:(lia) ltac:(by vm_compute)) as Hnb.
  fold (num_blocks (from_le (sub bytes 6 (6 + 4)))) in Hnb.
  rewrite !slice_Ok by lia. cbn [bind]. apply returns_bind; [|done].
  generalize (@None Z). induction (from_le <$> _) as [|e l IH]; intros prev; [done|]. simpl.
  apply returns_bind; [|intros; apply IH]. unfold parse_entry.
  destruct (from_le (sub bytes 6 (6 + 4)) <=? entry_column e); [done|].
  destruct prev as [v|]; [|done]. by destruct (_ <=? v).
Qed.

(** * Sparse to dense *)

Lemma nz_from_surj n : forall i entries,
  not_increasing entries.*1 = false ->
  (forall e, e ∈ entries -> i <= fst e < i + Z.of_nat n /\ (snd e = -1 \/ snd e = 1)) ->
  exists l, zlen l = Z.of_nat n /\ nz_from i l = entries.
Proof.
  induction n as [|n IH]; intros i entries Hi He.
  { exists []. split; [done|]. destruct entries as [|e es]; [done|].
    destruct (He e ltac:(apply list_elem_of_here)). lia. }
  destruct entries as [|[c s] es].
  { destruct (IH (i + 1) []) as (l & Hl & Hnz); [done|intros e H; by apply not_elem_of_nil in H|].
    exists (ZERO :: l). split; [rewrite zlen_cons; lia|done]. }
  destruct (He (c, s) ltac:(apply list_elem_of_here)) as [Hc Hs]. simpl in Hc, Hs.
  assert (Htl : not_increasing es.*1 = false /\ forall e, e ∈ es -> c < fst e).
  { simpl in Hi. clear - Hi. revert c Hi. induction es as [|[c1 s1] es IH]; intros c Hi.
    - split; [done|]. intros e H. by apply not_elem_of_nil in H.
    - simpl in *. apply orb_false_iff in Hi as [H1 H2]. split; [done|].
      destruct (IH c1 H2) as [_ IH2]. intros e H. apply elem_of_cons in H as [->|H]; [simpl; lia|].
      specialize (IH2 e H). lia. }
  destruct Htl as [Hi' Hgt]. destruct (Z.eqb_spec c i) as [->|Hne].
  - destruct (IH (i + 1) es) as (l & Hl & Hnz); [done| |].
    { intros e H. specialize (Hgt e H). destruct (He e ltac:(by apply list_elem_of_further)).
      split; [lia|done]. }
    exists ((if s =? 1 then POS else NEG) :: l). split; [rewrite zlen_cons; lia|].
    simpl. destruct Hs as [-> | ->]; simpl; by rewrite Hnz.
  - destruct (IH (i + 1) ((c, s) :: es)) as (l & Hl & Hnz); [done| |].
    { intros e H. apply elem_of_cons in H as [->|H]; [simpl; split; [lia|done]|].
      specialize (Hgt e H). destruct (He e ltac:(by apply list_elem_of_further)). split; [lia|done]. }
    exists (ZERO :: l). split; [rewrite zlen_cons; lia|done].
Qed.

Lemma validate_enc_row trits scales :
  zlen scales = num_blocks (zlen trits) -> Forall is_u16 scales ->
  validate_zero_padding (enc_row TQ2_codec trits scales) (zlen trits) = Ok tt.
Proof.
  intros Hs Hu. set (k := zlen trits) in *. pose proof (zlen_nonneg trits) as Hk. fold k in Hk.
  unfold validate_zero_padding. change (k mod QK_K) with (k mod 256).
  destruct (Z.eqb_spec (k mod 256) 0) as [|Hm]; [done|].
  assert (Hq : 0 <= k / 256 /\ 0 < k mod 256 < 256) by (Z.div_mod_to_equations; lia).
  rewrite num_blocks_last in * by done. replace (k / 256 + 1 - 1) with (k / 256) by lia.
  change TQ2_0_BLOCK_BYTES with 66. pose proof (zlen_enc_row TQ2_codec trits scales) as Hl.
  change (@bc_bytes TQ2_codec) with 66 in Hl. rewrite slice_Ok by lia. cbn [bind].
  unfold enc_row. replace (k / 256 * 66 + 66) with ((k / 256 + 1) * 66) by lia.
  rewrite (sub_blocks _ _ 66) by (lia || (intros; apply zlen_tq2_block)).
  change (@bc_enc TQ2_codec) with tq2_block.
  assert (Hsc : is_u16 (bget scales (k / 256))).
  { unfold bget. destruct (lookup_Z scales (k / 256)) as [x Hx]; [lia|]. rewrite Hx. by eapply Forall_lookup_Z. }
  pose proof (zlen_row_block TQ2_codec trits (k / 256)) as Hrb.
  rewrite unpack_tq2_block by (done || by vm_compute). cbn [bind]. rewrite Hrb.
  change (@bc_elems TQ2_codec) with 256 in *. rewrite slice_Ok by lia. cbn [bind].
  destruct (existsb _ _) eqn:Hex; [|done]. exfalso. apply existsb_exists in Hex as (t & Ht & Hnz).
  apply list_elem_of_In, list_elem_of_lookup in Ht as [n Hn].
  replace n with (Z.to_nat (Z.of_nat n)) in Hn by lia. pose proof (lookup_Z_lt _ (Z.of_nat n) _ ltac:(lia) Hn) as Hlt.
  rewrite zlen_sub in Hlt by lia. rewrite lookup_sub in Hn by lia. unfold row_block in Hn.
  change (@bc_elems TQ2_codec) with 256 in Hn. rewrite lookup_tabulate in Hn by lia.
  injection Hn as <-. rewrite tget_past in Hnz; [by rewrite bool_decide_true in Hnz|].
  change (zlen trits) with k. Z.div_mod_to_equations; lia.
Qed.

Lemma sparse_plane_dense p :
  plane_ok p -> plane_typed p ->
  exists trits, zlen trits = sp_k p /\ nz_from 0 trits = zip (sp_idx p) (sp_sign p) /\
    sparse_to_tq2_0 p = Ok (enc_row TQ2_codec trits (sp_scales p)) /\
    sparse_from_tq2_0 (enc_row TQ2_codec trits (sp_scales p)) (sp_k p) = Ok p.
Proof.
  intros Hp Ht. pose proof (plane_entries p Hp Ht) as He. pose proof Hp as (Hk & Hs & Hl & Hi & _).
  pose proof Ht as (Hk0 & Hsu & _).
  destruct (nz_from_surj (Z.to_nat (sp_k p)) 0 (zip (sp_idx p) (sp_sign p))) as (trits & Htl & Hnz).
  { by rewrite zip_fst. }
  { intros e H. specialize (He e H). split; [lia|apply He]. }
  rewrite Z2Nat.id in Htl by done. exists trits. split; [done|]. split; [done|].
  assert (Hnb : 0 <= num_blocks (sp_k p) /\ num_blocks (sp_k p) * 66 <= sp_k p + 255).
  { unfold num_blocks, div_ceil, QK_K. Z.div_mod_to_equations; lia. }
  unfold SIGN_BIT in Hk. split.
  - unfold sparse_to_tq2_0. rewrite (proj2 (proj1 (validate_sparse_plane_iff p)) Hp). cbn [bind].
    rewrite <- Hnz. pose proof (scatter_row (sp_k p) trits 0 []) as Hsc. simpl in Hsc. rewrite Htl in Hsc.
    rewrite Hsc by (done || lia). cbn [bind].
    unfold mul_usize, checked_mul, usize_max. change TQ2_0_BLOCK_BYTES with 66.
    replace (_ <=? _) with true by lia. cbn [bind unwrap]. unfold pack_tq2_0_row.
    apply pack_row_Ok; [unfold isize_max; lia|by rewrite Htl|].
    autorewrite with zlen. rewrite Hs. change (@bc_bytes TQ2_codec) with 66. lia.
  - unfold sparse_from_tq2_0. unfold SIGN_BIT. replace (_ <=? sp_k p) with false by lia.
    unfold unpack_tq2_0_row. rewrite unpack_row_Ok; try (rewrite ?Htl; autorewrite with zlen; done || (unfold isize_max; lia)).
    cbn [bind]. rewrite <- Htl at 1. rewrite validate_enc_row by (done || by rewrite Htl). cbn [bind].
    rewrite push_nonzero_all, Hnz. cbn [bind app]. rewrite zip_fst, zip_snd by done. by destruct p.
Qed.

(** * Properties *)

(** The density switch loses nothing: whatever threshold is given, the
    representation [choose_plane_repr] picks for a TQ2_0 plane expands back to the
    very same bytes, on both sides of the switch. *)
Theorem plane_switch_lossless packed k max_density r :
  0 <= k -> bytes_ok packed -> choose_plane_repr packed k max_density = Ok r ->
  expand_plane_repr r = Ok packed.
Proof.
  intros Hk Hu H. unfold choose_plane_repr in H.
  destruct (sparse_from_tq2_0 packed k) as [p|e| |] eqn:Hf; try done.
  - destruct (f32_ltb _ _); injection H as <-; simpl; [by eapply sparse_to_from|done].
  - destruct e; try done. by injection H as <-.
Qed.

Lemma plane_switch_lossless_witness :
  let packed := vec 0x55 63 ++ [0x95] ++ [0; 0x3c] in
  let p := mkSparsePlane 256 [0x3c00] [255] [1] in
  choose_plane_repr packed 256 (f32_of_Z 1) = Ok (Sparse p) /\
  expand_plane_repr (Sparse p) = Ok packed.
Proof.
  split; [by vm_compute|].
  apply (plane_switch_lossless (vec 0x55 63 ++ [0x95] ++ [0; 0x3c]) 256 (f32_of_Z 1)).
  - lia.
  - by apply bytes_ok_check.
  - by vm_compute.
Defined.

(** Sparse planes and canonically padded dense planes are in bijection: a
    valid plane expands to dense bytes from which [sparse_from_tq2_0] recovers it,
    and a dense plane it accepts is rebuilt byte for byte by [sparse_to_tq2_0]. *)
Theorem sparse_dense_inverse :
  (forall p, plane_ok p -> plane_typed p -> exists dense,
     sparse_to_tq2_0 p = Ok dense /\ sparse_from_tq2_0 dense (sp_k p) = Ok p) /\
  (forall packed k p, 0 <= k -> bytes_ok packed ->
     sparse_from_tq2_0 packed k = Ok p -> sparse_to_tq2_0 p = Ok packed).
Proof.
  split; [|apply sparse_to_from]. intros p Hp Ht.
  destruct (sparse_plane_dense p Hp Ht) as (trits & _ & _ & H1 & H2). eauto.
Qed.

Lemma sparse_dense_inverse_witness :
  let p := mkSparsePlane 300 [1; 2] [0; 299] [1; -1] in
  (exists dense, sparse_to_tq2_0 p = Ok dense /\ sparse_from_tq2_0 dense 300 = Ok p) /\
  sparse_to_tq2_0 (mkSparsePlane 256 [0x3c00] [255] [1]) = Ok (vec 0x55 63 ++ [0x95] ++ [0; 0x3c]).
Proof.
  split.
  - apply (proj1 sparse_dense_inverse (mkSparsePlane 300 [1; 2] [0; 299] [1; -1])).
    + apply validate_sparse_plane_iff. by vm_compute.
    + split; [by vm_compute|]. split; repeat constructor; by vm_compute.
  - apply (proj2 sparse_dense_inverse (vec 0x55 63 ++ [0x95] ++ [0; 0x3c]) 256).
    + lia.
    + by apply bytes_ok_check.
    + by vm_compute.
Defined.

(** C27: the side-car container is exact and safe: parsing what was packed gives
    the plane back; a buffer the parser accepts is, up to its ignored pad byte, the
    packing of the valid plane it returns; and no input makes the parser panic. *)
Theorem sparse_container_exact :
  (forall p bytes, plane_typed p -> pack_sparse_plane p = Ok bytes ->
     unpack_sparse_plane bytes = Ok p) /\
  (forall bytes p, zlen bytes <= isize_max -> bytes_ok bytes -> unpack_sparse_plane bytes = Ok p ->
     plane_ok p /\ exists pad, bytes = plane_bytes pad p /\ pack_sparse_plane p = Ok (plane_bytes 0 p)) /\
  (forall bytes, zlen bytes <= isize_max -> bytes_ok bytes -> returns (unpack_sparse_plane bytes)).
Proof.
  split; [|split].
  - intros p bytes Ht H. assert (Hp : plane_ok p).
    { destruct (validate_sparse_plane_iff p) as (Hv & _ & Hn). apply Hv. unfold pack_sparse_plane in H.
      destruct (_ <=? _); [done|]. bind_inv H. by rewrite <- (Hn v Hv0). }
    rewrite pack_sparse_plane_ok in H by done. apply Ok_inj in H as <-. by apply unpack_plane_bytes.
  - intros bytes p Hl Hu H. unfold unpack_sparse_plane in H. bind_inv H. apply Ok_inj in H as <-.
    destruct (parse_inv bytes v Hl Hu Hv) as (pad & p & Hb & <- & Hp & Ht). split; [done|].
    exists pad. split; [done|]. by apply pack_sparse_plane_ok.
  - intros bytes Hl Hu. apply returns_bind; [by apply parse_returns|done].
Qed.

Lemma sparse_container_exact_witness :
  let p := mkSparsePlane 300 [1; 2] [0; 299] [1; -1] in
  unpack_sparse_plane (plane_bytes 0 p) = Ok p /\
  plane_ok (mkSparsePlane 0 [] [] []) /\
  returns (unpack_sparse_plane [1; 2; 3]).
Proof.
  split; [|split].
  - apply (proj1 sparse_container_exact (mkSparsePlane 300 [1; 2] [0; 299] [1; -1])).
    + split; [by vm_compute|]. split; repeat constructor; by vm_compute.
    + by vm_compute.
  - apply (proj1 (proj2 sparse_container_exact) (plane_bytes 9 (mkSparsePlane 0 [] [] []))).
    + by vm_compute.
    + by apply bytes_ok_check.
    + by vm_compute.
  - apply (proj2 (proj2 sparse_container_exact) [1; 2; 3]); [by vm_compute|by apply bytes_ok_check].
Defined.

(** An infinite activation at a pruned column: the sparse contraction skips it, while the
    product with the zero weight of the dense row is not a number. *)
Example sparse_dot_skips_infinity :
  sparse_dot [S754_infinity false] (mkSparsePlane 1 [0x3c00] [] []) = Ok f32_zero /\
  f32_add f32_zero (f32_mul (S754_infinity false) f32_zero) = S754_nan.
Proof. split; by vm_compute. Qed.
