(* ===== verification/EntropyBase.v ===== *)
(** * Entropy transport: errors, 32-bit arithmetic and byte counts

    The shared part of crates/tritium-format/src/entropy_transport.rs. *)

From S2P Require Import Prelude Core FormatBase TwoBit.
From Stdlib Require Import ZArith Lia Bool.
From stdpp Require Import base list numbers.

#[local] Open Scope Z_scope.

Inductive EntropyTransportError : Type :=
| BadMagic
| UnsupportedVersion (v : Z)
| NonZeroReserved
| InvalidChunkSize (n : Z)
| LengthOverflow
| Truncated
| NonCanonicalIndex
| UnknownMode (m : Z)
| InvalidHuffmanTable
| InvalidHuffmanStream
| InvalidRansTable
| InvalidRansStream
| DecodedLengthMismatch
| DigestMismatch
| ChunkOutOfRange (i : Z)
| RangeOutOfRange.

Abbreviation eres := (res EntropyTransportError).

(** The operators of [u32]; an overflow of [+], [-] or [*] is a panic, a left
    shift drops the bits it moves out. *)
Definition checked_add32 (a b : Z) : option Z := if a + b <=? u32_max then Some (a + b) else None.
Definition checked_mul32 (a b : Z) : option Z := if a * b <=? u32_max then Some (a * b) else None.
Definition add_u32 {E} (a b : Z) : res E Z := unwrap (checked_add32 a b).
Definition mul_u32 {E} (a b : Z) : res E Z := unwrap (checked_mul32 a b).
Definition sub_u32 {E} (a b : Z) : res E Z := unwrap (checked_sub a b).
Definition shl32 (a n : Z) : Z := Z.shiftl a n mod 4294967296.
(** [/] and [%] on any unsigned width: a zero divisor panics. *)
Definition div_int {E} (a b : Z) : res E Z := if b =? 0 then Panic else Ok (a / b).
Definition rem_int {E} (a b : Z) : res E Z := if b =? 0 then Panic else Ok (a mod b).

(** * What the transport asks of a chunk codec *)

(** The encoder is total and the decoder its inverse; on any payload the decoder
    returns, and what it returns has the declared length. *)
Class EntropyCodec (encode : list Z -> eres (list Z)) (decode : list Z -> Z -> eres (list Z)) : Prop := {
  codec_inverse : forall bytes, bytes_ok bytes -> 0 < zlen bytes <= 2 ^ 50 ->
    exists payload, encode bytes = Ok payload /\ bytes_ok payload /\ decode payload (zlen bytes) = Ok bytes;
  codec_safe : forall payload n, bytes_ok payload -> 0 <= n -> returns (decode payload n);
  codec_len : forall payload n out, 0 <= n -> decode payload n = Ok out -> zlen out = n }.

(** * Byte counts *)

Definition occurrences (s : Z) (bytes : list Z) : Z := zlen (filter (fun b => b = s) bytes).

Lemma occurrences_app s l k : occurrences s (l ++ k) = occurrences s l + occurrences s k.
Proof. unfold occurrences. by rewrite list.filter_app, zlen_app. Qed.

Lemma occurrences_one s b : occurrences s [b] = if b =? s then 1 else 0.
Proof.
  unfold occurrences. rewrite list.filter_cons. destruct (Z.eqb_spec b s) as [->|Hne].
  - by rewrite decide_True.
  - by rewrite decide_False.
Qed.

Lemma occurrences_pos b bytes : b ∈ bytes -> occurrences b bytes <> 0.
Proof.
  intros Hb. unfold occurrences.
  assert (Hin : b ∈ filter (fun x => x = b) bytes) by (apply list_elem_of_filter; by split).
  destruct (filter (fun x => x = b) bytes) as [|x l]; [by apply not_elem_of_nil in Hin|].
  rewrite zlen_cons. pose proof (zlen_nonneg l). lia.
Qed.

(** Counting, with any body that increments its byte's counter: entry [s] is the
    number of occurrences, and the counts sum to the length. *)
Lemma count_loop {E} (body : Z -> list Z -> res E (list Z)) bytes :
  (forall b counts, 0 <= b < zlen counts -> 0 <= bget counts b < isize_max ->
     body b counts = Ok (<[Z.to_nat b := bget counts b + 1]> counts)) ->
  bytes_ok bytes -> zlen bytes <= isize_max ->
  exists counts, for_each bytes body (vec 0 256) = Ok counts /\ zlen counts = 256 /\
    Forall (fun c => 0 <= c) counts /\ zsum counts = zlen bytes /\
    forall s, 0 <= s < 256 -> bget counts s = occurrences s bytes.
Proof.
  intros Hbody Hu Hl. destruct (for_each_inv (fun pre counts => zlen counts = 256 /\
      Forall (fun c => 0 <= c) counts /\ zsum counts = zlen pre /\
      forall s, 0 <= s < 256 -> bget counts s = occurrences s pre) body bytes (vec 0 256))
    as (counts & H & HI); [| |by exists counts].
  - split; [autorewrite with zlen; lia|]. split; [apply Forall_replicate; lia|].
    split; [apply zsum_vec0|]. intros s Hs. unfold bget. by rewrite lookup_vec by lia.
  - intros pre b post counts -> (Hc & Hn & Hsum & Hocc).
    apply Forall_app in Hu as [_ Hu]. apply list.Forall_cons in Hu as [Hb _]. unfold is_u8 in Hb.
    rewrite zlen_app, zlen_cons in Hl. pose proof (zlen_nonneg pre). pose proof (zlen_nonneg post).
    destruct (lookup_Z counts b ltac:(lia)) as [x Hx].
    assert (Hbx : bget counts b = x) by (unfold bget; by rewrite Hx).
    destruct (zsum_lookup_le counts _ x Hn Hx) as [Hx0 Hxs].
    rewrite Hbody by lia. eexists. split; [done|].
    split; [by rewrite zlen_insert|]. split; [apply Forall_insert; [done|simpl; lia]|].
    split; [rewrite (zsum_insert _ _ _ x Hx), zlen_app, zlen_cons, zlen_nil, Hbx; lia|].
    intros s Hs. rewrite occurrences_app, occurrences_one. rewrite bget_upd by lia.
    destruct (Z.eqb_spec b s) as [->|Hne]; [rewrite <- Hocc by lia; lia|rewrite Hocc by lia; lia].
Qed.

