(* ===== verification/Rans.v ===== *)
(** * Byte rANS (encode_rans, normalized_frequencies and decode_rans of
    crates/tritium-format/src/entropy_transport.rs)

    The coder keeps a 32-bit state; symbol frequencies are normalised to 4096. *)

From S2P Require Import Prelude Core FormatBase TwoBit EntropyBase.
From Stdlib Require Import ZArith Lia Bool.
From stdpp Require Import base list numbers sorting.

#[local] Open Scope Z_scope.

Definition RANS_SCALE_BITS : Z := 12.
Definition RANS_TOTAL : Z := Z.shiftl 1 RANS_SCALE_BITS.
Definition RANS_LOWER_BOUND : Z := Z.shiftl 1 23.
Definition RANS_MODEL_BYTES : Z := 256 * 2.

Definition count_byte (byte : Z) (counts : list Z) : eres (list Z) :=
  let* c := idx counts byte in
  let* c := ok_or (checked_add c 1) LengthOverflow in
  upd counts byte c.

(** One symbol of the first pass: its floor share, and its remainder. *)
Definition freq_share (available length symbol count : Z) (st : list Z * list (Z * Z) * Z)
  : eres (list Z * list (Z * Z) * Z) :=
  let '(frequencies, remainders, assigned) := st in
  if count =? 0 then Ok st else
  let* scaled := ok_or (checked_mul available count) LengthOverflow in
  let* share := div_int scaled length in
  let* remainder := rem_int scaled length in
  let* _ := ensure (1 + share <=? u16_max) InvalidRansTable in
  let* frequencies := upd frequencies symbol (1 + share) in
  let* assigned := add_usize assigned share in
  Ok (frequencies, remainders ++ [(remainder, symbol)], assigned).

(** Largest remainder first, then smallest symbol. *)
Definition rem_le (l r : Z * Z) : Prop := fst r < fst l \/ (fst l = fst r /\ snd l <= snd r).
#[export] Instance rem_le_dec l r : Decision (rem_le l r).
Proof. unfold rem_le. apply _. Defined.

Definition freq_bump (e : Z * Z) (frequencies : list Z) : eres (list Z) :=
  let* f := idx frequencies (snd e) in
  let* _ := ensure (f + 1 <=? u16_max) InvalidRansTable in
  upd frequencies (snd e) (f + 1).

Definition normalized_frequencies (bytes : list Z) : eres (list Z) :=
  let* counts := for_each bytes count_byte (vec 0 256) in
  let present := zlen (filter (fun c => c <> 0) counts) in
  if (present =? 0) || (RANS_TOTAL <? present) then Err InvalidRansTable else
  let* available := sub_usize RANS_TOTAL present in
  let length := zlen bytes in
  let* st := for_enum 0 counts (freq_share available length) (vec 0 256, [], present) in
  let '(frequencies, remainders, assigned) := st in
  let remainders := merge_sort rem_le remainders in
  let* remaining := sub_usize RANS_TOTAL assigned in
  for_each (take (Z.to_nat remaining) remainders) freq_bump frequencies.

(** ** Encoder *)
Definition cum_step (symbol frequency : Z) (st : list Z * Z) : eres (list Z * Z) :=
  let '(cumulative, total) := st in
  let* cumulative := upd cumulative symbol total in
  let* total := ok_or (checked_add32 total frequency) LengthOverflow in
  Ok (cumulative, total).

(** [while state >= maximum { renormalized.push(state as u8); state >>= 8 }]. *)
Fixpoint enc_renorm (fuel : nat) (maximum state : Z) (out : list Z) : eres (Z * list Z) :=
  match fuel with
  | O => NoFuel
  | S fuel =>
      if maximum <=? state
      then enc_renorm fuel maximum (Z.shiftr state 8) (out ++ [state mod 256])
      else Ok (state, out)
  end.

Definition enc_symbol (frequencies cumulative : list Z) (byte : Z) (st : Z * list Z)
  : eres (Z * list Z) :=
  let '(state, renormalized) := st in
  let* frequency := idx frequencies byte in
  let* maximum := ok_or (checked_mul32 (shl32 (Z.shiftr RANS_LOWER_BOUND RANS_SCALE_BITS) 8) frequency)
                        LengthOverflow in
  let* (state, renormalized) := enc_renorm 5 maximum state renormalized in
  let* q := div_int state frequency in
  let* r := rem_int state frequency in
  let* c := idx cumulative byte in
  let* s := add_u32 (shl32 q RANS_SCALE_BITS) r in
  let* state := add_u32 s c in
  Ok (state, renormalized).

Definition encode_rans (bytes : list Z) : eres (list Z) :=
  let* frequencies := normalized_frequencies bytes in
  let* (cumulative, total) := for_enum 0 frequencies cum_step (vec 0 256, 0) in
  if negb (total =? RANS_TOTAL) then Err InvalidRansTable else
  let* (state, renormalized) :=
    for_each (rev bytes) (enc_symbol frequencies cumulative) (RANS_LOWER_BOUND, []) in
  Ok (concat (to_le 2 <$> frequencies) ++ to_le 4 state ++ rev renormalized).

(** ** Decoder *)
Definition dec_table_step (payload : list Z) (symbol : Z) (st : list Z * list Z * list Z * Z)
  : eres (list Z * list Z * list Z * Z) :=
  let '(frequencies, cumulative, lookup, total) := st in
  let offset := symbol * 2 in
  let* b0 := idx payload offset in
  let* b1 := idx payload (offset + 1) in
  let frequency := from_le [b0; b1] in
  let* frequencies := upd frequencies symbol frequency in
  let* cumulative := upd cumulative symbol total in
  let* end_ := ok_or (checked_add32 total frequency) InvalidRansTable in
  if RANS_TOTAL <? end_ then Err InvalidRansTable else
  let* lookup := for_range total end_ (fun slot lookup => upd lookup slot symbol) lookup in
  Ok (frequencies, cumulative, lookup, end_).

(** [while state < RANS_LOWER_BOUND { ... }]: [checked_shl(8)] never fails. *)
Fixpoint dec_renorm (fuel : nat) (stream : list Z) (cursor state : Z) : eres (Z * Z) :=
  match fuel with
  | O => NoFuel
  | S fuel =>
      if state <? RANS_LOWER_BOUND then
        let* byte := ok_or (stream !! Z.to_nat cursor) InvalidRansStream in
        dec_renorm fuel stream (cursor + 1) (Z.lor (shl32 state 8) byte)
      else Ok (cursor, state)
  end.

Definition dec_symbol (frequencies cumulative lookup stream : list Z) (_ : Z)
    (st : Z * Z * list Z) : eres (Z * Z * list Z) :=
  let '(state, cursor, decoded) := st in
  let slot := Z.land state (RANS_TOTAL - 1) in
  let* symbol := idx lookup slot in
  let* frequency := idx frequencies symbol in
  if frequency =? 0 then Err InvalidRansStream else
  let* p := mul_u32 frequency (Z.shiftr state RANS_SCALE_BITS) in
  let* p := add_u32 p slot in
  let* c := idx cumulative symbol in
  let* state := sub_u32 p c in
  let* (cursor, state) := dec_renorm 4 stream cursor state in
  Ok (state, cursor, decoded ++ [symbol mod 256]).

Definition decode_rans (payload : list Z) (expected_len : Z) : eres (list Z) :=
  let state_offset := RANS_MODEL_BYTES in
  let stream_offset := state_offset + 4 in
  if zlen payload <? stream_offset then Err InvalidRansStream else
  let* tables := for_range 0 256 (dec_table_step payload)
    (vec 0 256, vec 0 256, vec u16_max RANS_TOTAL, 0) in
  let '(frequencies, cumulative, lookup, total) := tables in
  if negb (total =? RANS_TOTAL) || existsb (fun s => s =? u16_max) lookup
  then Err InvalidRansTable else
  let* state_bytes := slice payload state_offset stream_offset in
  let state := from_le state_bytes in
  if state <? RANS_LOWER_BOUND then Err InvalidRansStream else
  let* stream := slice payload stream_offset (zlen payload) in
  let* st := for_range 0 expected_len (dec_symbol frequencies cumulative lookup stream) (state, 0, []) in
  let '(state, cursor, decoded) := st in
  if negb (cursor =? zlen stream) || negb (state =? RANS_LOWER_BOUND)
  then Err InvalidRansStream else
  Ok decoded.

Example rans_small :
  (let* p := encode_rans [1; 2; 1; 1; 200; 1] in decode_rans p 6) = Ok [1; 2; 1; 1; 200; 1].
Proof. by vm_compute. Qed.

(** * Frequency tables *)

(** A table of 256 frequencies that add up to [RANS_TOTAL]. *)
Definition freq_ok (fs : list Z) : Prop :=
  zlen fs = 256 /\ Forall (fun f => 0 <= f) fs /\ zsum fs = 4096.

Definition cum (fs : list Z) (s : Z) : Z := zsum (take (Z.to_nat s) fs).

Lemma cum_0 fs : cum fs 0 = 0.
Proof. done. Qed.

Lemma cum_S fs s : 0 <= s < zlen fs -> cum fs (s + 1) = cum fs s + bget fs s.
Proof.
  intros Hs. unfold cum, bget. destruct (lookup_Z fs s Hs) as [x Hx]. rewrite Hx.
  apply zsum_take_S; [done|lia].
Qed.

Lemma cum_nonneg fs s : Forall (fun f => 0 <= f) fs -> 0 <= cum fs s.
Proof. intros H. apply zsum_nonneg. by apply Forall_take. Qed.

Lemma cum_full fs s : zlen fs <= s -> cum fs s = zsum fs.
Proof. intros Hs. unfold cum. rewrite take_ge; [done|]. unfold zlen in Hs. lia. Qed.

Lemma cum_le fs s t : Forall (fun f => 0 <= f) fs -> 0 <= s <= t -> cum fs s <= cum fs t.
Proof. intros H Hst. apply zsum_take_le; [done|lia]. Qed.

Lemma freq_bounds fs s :
  freq_ok fs -> 0 <= s < 256 -> 0 <= bget fs s /\ 0 <= cum fs s /\ cum fs s + bget fs s <= 4096.
Proof.
  intros (Hl & Hn & Hsum) Hs. pose proof (cum_nonneg fs s Hn). rewrite <- cum_S by lia.
  pose proof (cum_le fs (s + 1) 256 Hn ltac:(lia)) as Hle. rewrite (cum_full fs 256) in Hle by lia.
  split; [|lia]. unfold bget. destruct (lookup_Z fs s ltac:(lia)) as [x Hx]. rewrite Hx.
  by eapply Forall_lookup_Z in Hn.
Qed.

Lemma cum_loop fs :
  freq_ok fs ->
  for_enum 0 fs cum_step (vec 0 256, 0) = Ok (tabulate 256 (cum fs), RANS_TOTAL).
Proof.
  intros Hf. pose proof Hf as (Hl & Hn & Hsum).
  destruct (for_enum_inv (fun i st => zlen (fst st) = 256 /\ snd st = cum fs i /\
      forall j, 0 <= j < i -> j < 256 -> fst st !! Z.to_nat j = Some (cum fs j)) cum_step fs 0 (vec 0 256, 0))
    as ([cu total] & -> & Hcl & Htot & Hcu).
  - split; [cbn [fst]; autorewrite with zlen; lia|]. split; [done|]. intros j Hj. lia.
  - intros i f [cu total] Hi Hfi (Hcl & Htot & Hcu). simpl in *. rewrite Z.sub_0_r in Hfi.
    pose proof (lookup_Z_lt fs i f Hi Hfi) as Hlt. subst total.
    destruct (freq_bounds fs i Hf ltac:(lia)) as (H0 & H1 & H2).
    assert (Hb : bget fs i = f) by (unfold bget; by rewrite Hfi).
    rewrite upd_Ok by lia. cbn [bind]. unfold checked_add32, u32_max.
    replace (_ <=? _) with true by lia. cbn [ok_or bind]. eexists. split; [done|]. simpl.
    split; [by rewrite zlen_insert|]. split; [rewrite cum_S by lia; lia|].
    intros j Hj Hj2. rewrite lookup_upd by lia. destruct (Z.eqb_spec i j) as [->|]; [done|].
    apply Hcu; lia.
  - simpl in *. f_equal. f_equal.
    + apply tabulate_lookup; [lia|done|]. intros i Hi. apply Hcu; lia.
    + rewrite Htot, cum_full by lia. rewrite Hsum. done.
Qed.

(** * The decoder's tables *)

(** The frequencies stored in the first 512 bytes. *)
Definition stored_freqs (payload : list Z) : list Z :=
  tabulate 256 (fun s => from_le (sub payload (s * 2) (s * 2 + 2))).

(** The lookup sends every slot below [total] to the symbol whose interval it is in. *)
Definition lookup_ok (fs lk : list Z) (total : Z) : Prop :=
  zlen lk = 4096 /\
  forall slot, 0 <= slot < total -> exists s, lk !! Z.to_nat slot = Some s /\ 0 <= s < 256 /\
    cum fs s <= slot < cum fs s + bget fs s.

Definition dec_tables_at (fs : list Z) (i : Z) (st : list Z * list Z * list Z * Z) : Prop :=
  let '(fr, cu, lk, total) := st in
  zlen fr = 256 /\ zlen cu = 256 /\ total = cum fs i /\ total <= 4096 /\ lookup_ok fs lk total /\
  forall j, 0 <= j < i -> fr !! Z.to_nat j = Some (bget fs j) /\ cu !! Z.to_nat j = Some (cum fs j).

Lemma stored_freq payload s :
  512 <= zlen payload -> 0 <= s < 256 ->
  (let* b0 := idx payload (s * 2) in
   let* b1 := idx (E := EntropyTransportError) payload (s * 2 + 1) in
   Ok (from_le [b0; b1])) = Ok (bget (stored_freqs payload) s).
Proof.
  intros Hl Hs. destruct (idx_in (E := EntropyTransportError) payload (s * 2)) as (x & -> & Hx); [lia|].
  destruct (idx_in (E := EntropyTransportError) payload (s * 2 + 1)) as (y & -> & Hy); [lia|].
  cbn [bind]. unfold stored_freqs. rewrite bget_tabulate by lia. by rewrite (sub_2 payload _ x y) by (done || lia).
Qed.

Lemma stored_freqs_ok payload :
  512 <= zlen payload -> bytes_ok payload ->
  zlen (stored_freqs payload) = 256 /\ Forall (fun f => 0 <= f <= u16_max) (stored_freqs payload).
Proof.
  intros Hl Hu. split; [unfold stored_freqs; autorewrite with zlen; lia|].
  unfold stored_freqs, tabulate. apply Forall_fmap, Forall_forall. intros s Hs.
  apply elem_of_seqZ in Hs. simpl.
  pose proof (from_le_bound _ (bytes_ok_sub payload (s * 2) (s * 2 + 2) Hu)) as H.
  rewrite zlen_sub in H by lia. replace (s * 2 + 2 - s * 2) with 2 in H by lia.
  change (256 ^ 2) with 65536 in H. unfold u16_max. lia.
Qed.

Lemma dec_table_step_spec payload i st :
  512 <= zlen payload -> bytes_ok payload -> 0 <= i < 256 ->
  let fs := stored_freqs payload in
  dec_tables_at fs i st ->
  if cum fs (i + 1) <=? 4096
  then exists st', dec_table_step payload i st = Ok st' /\ dec_tables_at fs (i + 1) st'
  else dec_table_step payload i st = Err InvalidRansTable.
Proof.
  intros Hl Hu Hi fs HI. destruct st as [[[fr cu] lk] total].
  destruct HI as (Hfr & Hcu & Htot & Htb & Hlk & Hent).
  destruct (stored_freqs_ok payload Hl Hu) as [Hfl Hfb]. fold fs in Hfl, Hfb.
  assert (Hf : 0 <= bget fs i <= u16_max).
  { unfold bget. destruct (lookup_Z fs i ltac:(lia)) as [x Hx]. rewrite Hx. by eapply Forall_lookup_Z in Hfb. }
  assert (Hn : Forall (fun f => 0 <= f) fs) by (eapply Forall_impl; [exact Hfb|]; intros x Hx; simpl in Hx; lia).
  pose proof (cum_nonneg fs i Hn) as Hc0. rewrite cum_S by lia.
  unfold dec_table_step. pose proof (stored_freq payload i Hl Hi) as Hsf.
  bind_inv Hsf. bind_inv Hsf. rewrite Hv. cbn [bind]. rewrite Hv0. cbn [bind].
  apply Ok_inj in Hsf. rewrite Hsf. fold fs.
  rewrite !upd_Ok by lia. cbn [bind]. unfold checked_add32, u32_max. unfold u16_max in Hf.
  replace (total + bget fs i <=? 4294967295) with true by lia. cbn [ok_or bind].
  change RANS_TOTAL with 4096. subst total.
  destruct (Z.leb_spec (cum fs i + bget fs i) 4096) as [Hle|Hgt].
  2:{ by replace (4096 <? _) with true by lia. }
  replace (4096 <? _) with false by lia. destruct Hlk as [Hlkl Hlk].
  destruct (for_range_wrote_1 (E := EntropyTransportError) (fun _ => i) (fun slot lookup => upd lookup slot i)
    (cum fs i) (cum fs i + bget fs i) (cum fs i) (cum fs i + bget fs i) lk) as (lk' & -> & Hw);
    [lia|lia|lia|lia|intros j l1 Hj Hl1; f_equal; lia|].
  cbn [bind]. destruct Hw as [Hlk'l Hw]. eexists. split; [done|].
  split; [by rewrite zlen_insert|]. split; [by rewrite zlen_insert|].
  split; [by rewrite cum_S by lia|]. split; [lia|]. split.
  - split; [lia|]. intros slot Hslot. rewrite Hw by lia. unfold interval.
    destruct (Z.leb_spec (cum fs i) slot).
    + replace (slot <? _) with true by lia. cbn [andb]. exists i. split; [done|]. lia.
    + cbn [andb]. apply Hlk. lia.
  - intros j Hj. rewrite !lookup_upd by lia. destruct (Z.eqb_spec i j) as [->|]; [done|].
    apply Hent. lia.
Qed.

Lemma dec_tables_start fs :
  dec_tables_at fs 0 (vec 0 256, vec 0 256, vec u16_max RANS_TOTAL, 0).
Proof.
  change RANS_TOTAL with 4096. split; [autorewrite with zlen; lia|]. split; [autorewrite with zlen; lia|].
  split; [done|]. split; [lia|]. split; [|intros; lia].
  split; [autorewrite with zlen; lia|]. intros slot Hs. lia.
Qed.

(** A normalised table in the payload is rebuilt exactly. *)
Lemma dec_tables_ok payload :
  512 <= zlen payload -> bytes_ok payload -> zsum (stored_freqs payload) = 4096 ->
  let fs := stored_freqs payload in
  exists lk,
    for_range 0 256 (dec_table_step payload) (vec 0 256, vec 0 256, vec u16_max RANS_TOTAL, 0) =
      Ok (fs, tabulate 256 (cum fs), lk, 4096) /\ lookup_ok fs lk 4096.
Proof.
  intros Hl Hu Hsum fs. destruct (stored_freqs_ok payload Hl Hu) as [Hfl Hfb]. fold fs in Hfl, Hfb, Hsum.
  assert (Hn : Forall (fun f => 0 <= f) fs) by (eapply Forall_impl; [exact Hfb|]; intros x Hx; simpl in Hx; lia).
  destruct (for_range_inv (dec_tables_at fs) (dec_table_step payload) 0 256
    (vec 0 256, vec 0 256, vec u16_max RANS_TOTAL, 0) ltac:(lia) (dec_tables_start fs))
    as ([[[fr cu] lk] total] & -> & Hfr & Hcu & Htot & _ & Hlk & Hent).
  - intros i st Hi HI. pose proof (dec_table_step_spec payload i st Hl Hu Hi HI) as H. fold fs in H.
    pose proof (cum_le fs (i + 1) 256 Hn ltac:(lia)) as Hc. rewrite (cum_full fs 256) in Hc by lia.
    replace (cum fs (i + 1) <=? 4096) with true in H by lia. done.
  - rewrite cum_full in Htot by lia. subst total. rewrite Hsum in *. exists lk. split; [|done].
    do 4 f_equal.
    + apply bytes_eq; [lia|]. intros j Hj. unfold bget at 1. destruct (Hent j ltac:(lia)) as [-> _]. done.
    + apply tabulate_lookup; [lia|done|]. intros j Hj. by apply Hent.
Qed.

Lemma lookup_no_gap fs lk : lookup_ok fs lk 4096 -> existsb (fun s => s =? u16_max) lk = false.
Proof.
  intros [Hl Hlk]. apply not_true_iff_false. intros H. apply existsb_exists in H as (s & Hs & He).
  apply list_elem_of_In, list_elem_of_lookup in Hs as [n Hn].
  pose proof (lookup_lt_Some _ _ _ Hn) as Hlt. unfold zlen in Hl.
  destruct (Hlk (Z.of_nat n) ltac:(lia)) as (s' & Hs' & Hr & _). rewrite Nat2Z.id in Hs'.
  unfold u16_max in He. simplify_eq. lia.
Qed.

(** * One symbol *)

(** The stream holds the bytes [bs] from position [cursor] on. *)
Definition stream_at (stream : list Z) (cursor : Z) (bs : list Z) : Prop :=
  0 <= cursor /\ exists post, drop (Z.to_nat cursor) stream = bs ++ post.

Lemma stream_at_cons stream cursor b bs :
  stream_at stream cursor (b :: bs) ->
  stream !! Z.to_nat cursor = Some b /\ stream_at stream (cursor + 1) bs.
Proof.
  intros [Hc [post Hd]]. split.
  - rewrite <- (Nat.add_0_r (Z.to_nat cursor)), <- lookup_drop, Hd. done.
  - split; [lia|]. exists post. replace (Z.to_nat (cursor + 1)) with (Z.to_nat cursor + 1)%nat by lia.
    by rewrite <- drop_drop, Hd.
Qed.

Lemma shift_in x b : 0 <= x < 2 ^ 24 -> is_u8 b -> Z.lor (shl32 x 8) b = x * 256 + b.
Proof.
  intros Hx Hb. unfold shl32, is_u8 in *. rewrite Z.shiftl_mul_pow2 by lia. change (2 ^ 8) with 256.
  rewrite Z.mod_small by lia.
  assert (Hland : Z.land (x * 256) b = 0).
  { change 256 with (2 ^ 8). rewrite <- Z.shiftl_mul_pow2 by lia. apply Z.bits_inj'. intros n Hn.
    rewrite Z.land_spec, Z.bits_0. destruct (Z.ltb_spec n 8).
    - by rewrite Z.shiftl_spec_low by lia.
    - replace (Z.testbit b n) with false; [by rewrite andb_false_r|]. symmetry.
      destruct (Z.eqb_spec b 0) as [->|]; [apply Z.bits_0|].
      apply Z.bits_above_log2; [lia|]. apply Z.lt_le_trans with 8; [|done].
      apply Z.log2_lt_pow2; lia. }
  rewrite <- Z.lxor_lor by done. symmetry. by apply Z.add_nocarry_lxor.
Qed.

(** The encoder's renormalisation, and the decoder undoing it byte by byte. *)
Lemma renorm_inverse f x out :
  1 <= f <= 4096 -> 2 ^ 23 <= x < 2 ^ 31 ->
  exists x' pushed,
    enc_renorm 5 (f * 2 ^ 19) x out = Ok (x', out ++ pushed) /\ bytes_ok pushed /\
    f * 2 ^ 11 <= x' < f * 2 ^ 19 /\
    forall stream cursor, stream_at stream cursor (rev pushed) ->
      dec_renorm 4 stream cursor x' = Ok (cursor + zlen pushed, x).
Proof.
  intros Hf Hx. assert (Hb : forall y, is_u8 (y mod 256)) by (intros y; apply Z.mod_pos_bound; lia).
  assert (Hdiv : forall y, y = y / 256 * 256 + y mod 256) by (intros y; pose proof (Z.div_mod y 256); lia).
  change (2 ^ 23) with 8388608 in *. change (2 ^ 31) with 2147483648 in *.
  change (2 ^ 19) with 524288. change (2 ^ 11) with 2048. simpl enc_renorm.
  rewrite !Z.shiftr_div_pow2 by lia. change (2 ^ 8) with 256.
  change RANS_LOWER_BOUND with 8388608 in *.
  destruct (Z.leb_spec (f * 524288) x) as [H1|H1].
  2:{ exists x, []. rewrite app_nil_r. split; [done|]. split; [done|]. split; [lia|].
      intros stream cursor _. simpl. change RANS_LOWER_BOUND with 8388608.
      replace (x <? 8388608) with false by lia. by rewrite Z.add_0_r. }
  destruct (Z.leb_spec (f * 524288) (x / 256)) as [H2|H2].
  - assert (H3 : x / 256 / 256 < f * 524288) by (Z.div_mod_to_equations; lia).
    replace (f * 524288 <=? x / 256 / 256) with false by lia.
    exists (x / 256 / 256), [x mod 256; (x / 256) mod 256]. rewrite <- app_assoc. split; [done|].
    split; [constructor; [apply Hb|]; constructor; [apply Hb|constructor]|].
    split; [Z.div_mod_to_equations; lia|].
    intros stream cursor Hs. simpl in Hs. apply stream_at_cons in Hs as [Hs1 Hs].
    apply stream_at_cons in Hs as [Hs2 _]. simpl. change RANS_LOWER_BOUND with 8388608.
    replace (x / 256 / 256 <? 8388608) with true by (Z.div_mod_to_equations; lia).
    rewrite Hs1. cbn [ok_or bind]. rewrite shift_in by (done || (Z.div_mod_to_equations; lia)).
    rewrite <- Hdiv. replace (x / 256 <? 8388608) with true by (Z.div_mod_to_equations; lia).
    rewrite Hs2. cbn [ok_or bind]. rewrite shift_in by (done || (Z.div_mod_to_equations; lia)).
    rewrite <- Hdiv. replace (x <? 8388608) with false by lia. do 2 f_equal.
    unfold zlen. simpl. lia.
  - exists (x / 256), [x mod 256]. split; [done|]. split; [constructor; [apply Hb|constructor]|].
    split; [Z.div_mod_to_equations; lia|].
    intros stream cursor Hs. simpl in Hs. apply stream_at_cons in Hs as [Hs1 _].
    simpl. change RANS_LOWER_BOUND with 8388608.
    replace (x / 256 <? 8388608) with true by (Z.div_mod_to_equations; lia).
    rewrite Hs1. cbn [ok_or bind]. rewrite shift_in by (done || (Z.div_mod_to_equations; lia)).
    rewrite <- Hdiv. by replace (x <? 8388608) with false by lia.
Qed.

(** The state transition and its inverse, for a symbol of frequency [f] at [c]. *)
Lemma state_inverse f c x :
  1 <= f -> 0 <= c -> c + f <= 4096 -> f * 2 ^ 11 <= x < f * 2 ^ 19 ->
  let y := (x / f) * 4096 + x mod f + c in
  2 ^ 23 <= y < 2 ^ 31 /\ y mod 4096 = x mod f + c /\ y / 4096 = x / f /\
  c <= y mod 4096 < c + f /\ f * (y / 4096) + y mod 4096 - c = x.
Proof.
  intros Hf Hc Hcf Hx y.
  assert (Hm : 0 <= x mod f < f) by (apply Z.mod_pos_bound; lia).
  assert (Hq : 2 ^ 11 <= x / f < 2 ^ 19).
  { split; [apply Z.div_le_lower_bound; lia|apply Z.div_lt_upper_bound; lia]. }
  change (2 ^ 23) with 8388608. change (2 ^ 31) with 2147483648.
  change (2 ^ 11) with 2048 in Hq. change (2 ^ 19) with 524288 in Hq.
  assert (Hy : y = 4096 * (x / f) + (x mod f + c)) by (unfold y; lia).
  destruct (div_mod_row 4096 (x / f) (x mod f + c)) as [Hd Hmod]; [lia|lia|].
  rewrite <- Hy in Hd, Hmod. rewrite Hd, Hmod. split; [lia|]. split; [done|]. split; [done|].
  split; [lia|]. pose proof (Z.div_mod x f). lia.
Qed.

(** A slot belongs to one symbol only. *)
Lemma slot_unique fs s t slot :
  freq_ok fs -> 0 <= s < 256 -> 0 <= t < 256 ->
  cum fs s <= slot < cum fs s + bget fs s -> cum fs t <= slot < cum fs t + bget fs t -> s = t.
Proof.
  intros (Hl & Hn & _) Hs Ht H1 H2. destruct (Z.lt_trichotomy s t) as [H|[H|H]]; [|done|].
  - pose proof (cum_le fs (s + 1) t Hn ltac:(lia)) as Hc. rewrite cum_S in Hc by lia. lia.
  - pose proof (cum_le fs (t + 1) s Hn ltac:(lia)) as Hc. rewrite cum_S in Hc by lia. lia.
Qed.

Section coder.
Context (fs lk : list Z) (Hfs : freq_ok fs) (Hlk : lookup_ok fs lk 4096).

Lemma symbol_inverse b x out :
  0 <= b < 256 -> 1 <= bget fs b -> 2 ^ 23 <= x < 2 ^ 31 ->
  exists y pushed,
    enc_symbol fs (tabulate 256 (cum fs)) b (x, out) = Ok (y, out ++ pushed) /\
    bytes_ok pushed /\ 2 ^ 23 <= y < 2 ^ 31 /\
    forall stream cursor dec i, stream_at stream cursor (rev pushed) ->
      dec_symbol fs (tabulate 256 (cum fs)) lk stream i (y, cursor, dec) =
      Ok (x, cursor + zlen pushed, dec ++ [b]).
Proof.
  intros Hb Hf Hx. pose proof (freq_bounds fs b Hfs Hb) as (_ & Hc & Hcf).
  pose proof Hfs as (Hfl & _). set (f := bget fs b) in *. set (c := cum fs b) in *.
  destruct (renorm_inverse f x out ltac:(lia) Hx) as (x' & pushed & Henc & Hpb & Hx' & Hdec).
  destruct (state_inverse f c x' Hf Hc ltac:(lia) Hx') as (Hy & Hym & Hyd & Hslot & Hinv).
  set (y := x' / f * 4096 + x' mod f + c) in *.
  change (2 ^ 19) with 524288 in *. change (2 ^ 11) with 2048 in *.
  change (2 ^ 23) with 8388608 in *. change (2 ^ 31) with 2147483648 in *.
  assert (Hq : 0 <= x' / f < 524288 /\ 0 <= x' mod f < f).
  { split; [split; [apply Z.div_pos; lia|apply Z.div_lt_upper_bound; lia]|apply Z.mod_pos_bound; lia]. }
  exists y, pushed. split; [|split; [done|split; [done|]]].
  - unfold enc_symbol. rewrite idx_bget by lia. fold f. cbn [bind].
    change (shl32 (Z.shiftr RANS_LOWER_BOUND RANS_SCALE_BITS) 8) with 524288.
    unfold checked_mul32, u32_max. replace (524288 * f <=? _) with true by lia. cbn [ok_or bind].
    rewrite (Z.mul_comm 524288), Henc. cbn [bind].
    unfold div_int, rem_int. replace (f =? 0) with false by lia. cbn [bind].
    rewrite idx_bget by (autorewrite with zlen; lia). rewrite bget_tabulate by lia. fold c. cbn [bind].
    unfold shl32. rewrite Z.shiftl_mul_pow2 by (by vm_compute). change (2 ^ RANS_SCALE_BITS) with 4096.
    rewrite Z.mod_small by lia. unfold add_u32, checked_add32, u32_max.
    replace (x' / f * 4096 + x' mod f <=? _) with true by lia. cbn [bind unwrap].
    fold y. replace (y <=? _) with true by lia. done.
  - intros stream cursor dec i Hs. unfold dec_symbol.
    change (RANS_TOTAL - 1) with (Z.ones 12). rewrite Z.land_ones by lia. change (2 ^ 12) with 4096.
    assert (Hym0 : 0 <= y mod 4096 < 4096) by (apply Z.mod_pos_bound; lia).
    destruct (proj2 Hlk (y mod 4096) Hym0) as (s & Hs1 & Hs2 & Hs3).
    assert (s = b) as -> by (eapply (slot_unique fs); [done|done|done|exact Hs3|exact Hslot]).
    rewrite (idx_Ok lk _ b) by (done || lia). cbn [bind]. rewrite idx_bget by lia. fold f. cbn [bind].
    replace (f =? 0) with false by lia. rewrite Z.shiftr_div_pow2 by (by vm_compute).
    change (2 ^ RANS_SCALE_BITS) with 4096.
    unfold mul_u32, checked_mul32, add_u32, checked_add32, u32_max.
    assert (Hfq : f * (y / 4096) <= x') by lia.
    replace (f * (y / 4096) <=? _) with true by lia. cbn [bind unwrap].
    replace (_ <=? _) with true by lia. cbn [bind unwrap].
    rewrite idx_bget by (autorewrite with zlen; lia). rewrite bget_tabulate by lia. fold c. cbn [bind].
    unfold sub_u32, checked_sub. replace (c <=? _) with true by lia. cbn [bind unwrap].
    rewrite Hinv. rewrite (Hdec stream cursor Hs). cbn [bind]. by rewrite Z.mod_small by lia.
Qed.

(** The whole stream: decoding runs the encoder backwards. *)
Lemma stream_inverse bytes :
  Forall (fun b => 0 <= b < 256 /\ 1 <= bget fs b) bytes ->
  exists x out,
    for_each (rev bytes) (enc_symbol fs (tabulate 256 (cum fs))) (RANS_LOWER_BOUND, []) = Ok (x, out) /\
    2 ^ 23 <= x < 2 ^ 31 /\ bytes_ok out /\
    forall pre dec lo,
      for_n (length bytes) lo (dec_symbol fs (tabulate 256 (cum fs)) lk (pre ++ rev out))
        (x, zlen pre, dec) = Ok (RANS_LOWER_BOUND, zlen pre + zlen out, dec ++ bytes).
Proof.
  induction 1 as [|b bytes [Hb Hf] Hl IH].
  - exists RANS_LOWER_BOUND, []. split; [done|]. split; [by vm_compute|]. split; [constructor|].
    intros pre dec lo. simpl. by rewrite Z.add_0_r, app_nil_r.
  - destruct IH as (x & out & Henc & Hx & Hob & Hdec).
    destruct (symbol_inverse b x out Hb Hf Hx) as (y & pushed & Hs & Hpb & Hy & Hd).
    exists y, (out ++ pushed). split; [|split; [done|split; [by apply bytes_ok_app|]]].
    + simpl rev. rewrite for_each_app, Henc. cbn [bind for_each]. by rewrite Hs.
    + intros pre dec lo. cbn [length for_n]. rewrite Hd.
      2:{ split; [auto with rust|]. exists (rev out). rewrite rev_app_distr.
          unfold zlen. by rewrite Nat2Z.id, drop_app_length. }
      cbn [bind]. rewrite rev_app_distr, app_assoc.
      replace (zlen pre + zlen pushed) with (zlen (pre ++ rev pushed)) by (autorewrite with zlen; lia).
      rewrite Hdec, <- app_assoc. do 3 f_equal. autorewrite with zlen. lia.
Qed.
End coder.

(** * Normalisation *)

Lemma count_byte_step b counts :
  0 <= b < zlen counts -> 0 <= bget counts b < isize_max ->
  count_byte b counts = Ok (<[Z.to_nat b := bget counts b + 1]> counts).
Proof.
  intros Hb Hc. unfold count_byte, checked_add. rewrite idx_bget by done. cbn [bind].
  unfold isize_max, usize_max in *. replace (_ <=? _) with true by lia. cbn [ok_or bind]. by apply upd_Ok.
Qed.

Definition nonzero_count (l : list Z) : Z := zlen (filter (fun c => c <> 0) l).

Lemma nonzero_count_snoc l c : nonzero_count (l ++ [c]) = nonzero_count l + if c =? 0 then 0 else 1.
Proof.
  unfold nonzero_count. rewrite list.filter_app, zlen_app, list.filter_cons. f_equal.
  destruct (Z.eqb_spec c 0) as [->|Hne]; [by rewrite decide_False by lia|by rewrite decide_True].
Qed.

Lemma nonzero_count_le l : 0 <= nonzero_count l <= zlen l.
Proof.
  unfold nonzero_count. split; [auto with rust|]. unfold zlen.
  pose proof (length_filter (fun c => c <> 0) l). lia.
Qed.

Lemma nonzero_count_pos l : Forall (fun c => 0 <= c) l -> 0 < zsum l -> 0 < nonzero_count l.
Proof.
  unfold nonzero_count. induction 1 as [|x l Hx Hl IH]; simpl zsum; intros Hs; [simpl in Hs; lia|].
  rewrite list.filter_cons. destruct (decide (x <> 0)) as [Hne|He].
  - rewrite zlen_cons. pose proof (zlen_nonneg (filter (fun c => c <> 0) l)). lia.
  - apply IH. assert (x = 0) by lia. lia.
Qed.

(** The state of the share loop after the first [i] counts. *)
Record shares (counts : list Z) (avail len present i : Z) (st : list Z * list (Z * Z) * Z) : Prop := {
  sh_len : zlen st.1.1 = 256;
  sh_nonneg : Forall (fun f => 0 <= f) st.1.1;
  sh_zero : forall j, i <= j < 256 -> bget st.1.1 j = 0;
  sh_pos : forall j, 0 <= j < i -> bget counts j <> 0 -> 1 <= bget st.1.1 j;
  sh_sum : zsum st.1.1 = (st.2 - present) + nonzero_count (take (Z.to_nat i) counts);
  sh_rem : len * (st.2 - present) + zsum (st.1.2).*1 = avail * zsum (take (Z.to_nat i) counts);
  sh_count : zlen st.1.2 = nonzero_count (take (Z.to_nat i) counts);
  sh_entries : Forall (fun e => 0 <= fst e < len /\ 0 <= snd e < 256) st.1.2;
  sh_assigned : present <= st.2
}.

Lemma freq_share_step counts avail len present i c st :
  zlen counts = 256 -> Forall (fun c => 0 <= c) counts -> zsum counts = len -> 0 < len <= 2 ^ 50 ->
  0 <= present -> 0 <= avail <= 4096 - present -> 0 <= i -> counts !! Z.to_nat i = Some c ->
  shares counts avail len present i st ->
  exists st', freq_share avail len i c st = Ok st' /\ shares counts avail len present (i + 1) st'.
Proof.
  intros Hcl Hcn Hsum Hlen Hp Ha Hi Hc HI. destruct st as [[fr rem] asg].
  destruct HI as [H1 H2 H3 H4 H5 H6 H7 H8 H9]. simpl in *.
  pose proof (lookup_Z_lt counts i c Hi Hc) as Hlt.
  destruct (zsum_lookup_le counts _ c Hcn Hc) as [Hc0 Hcs]. rewrite Hsum in Hcs.
  assert (Htk : take (Z.to_nat (i + 1)) counts = take (Z.to_nat i) counts ++ [c]).
  { replace (Z.to_nat (i + 1)) with (S (Z.to_nat i)) by lia. by apply take_S_r. }
  assert (Hbc : bget counts i = c) by (unfold bget; by rewrite Hc).
  unfold freq_share. destruct (Z.eqb_spec c 0) as [->|Hne].
  { eexists. split; [done|]. constructor; simpl; try done.
    - intros j Hj. apply H3. lia.
    - intros j Hj Hnz. destruct (Z.eqb_spec j i) as [->|]; [congruence|]. apply H4; [lia|done].
    - rewrite Htk, nonzero_count_snoc. simpl. lia.
    - rewrite Htk, zsum_app. simpl. lia.
    - rewrite Htk, nonzero_count_snoc. simpl. lia. }
  change (2 ^ 50) with 1125899906842624 in Hlen.
  assert (Hac : 0 <= avail * c <= 4096 * 1125899906842624) by nia.
  unfold checked_mul, usize_max. replace (avail * c <=? _) with true by lia. cbn [ok_or bind].
  unfold div_int, rem_int. replace (len =? 0) with false by lia. cbn [bind].
  assert (Hsh : 0 <= avail * c / len <= avail).
  { split; [apply Z.div_pos; lia|]. apply Z.div_le_upper_bound; [lia|]. nia. }
  assert (Hr : 0 <= (avail * c) mod len < len) by (apply Z.mod_pos_bound; lia).
  unfold u16_max. replace (1 + avail * c / len <=? 65535) with true by lia. cbn [ensure bind].
  rewrite upd_Ok by lia. cbn [bind].
  assert (Hab : asg <= present + avail).
  { assert (Hz : 0 <= zsum rem.*1).
    { apply zsum_nonneg, Forall_fmap. eapply Forall_impl; [exact H8|]. intros e He. simpl in *. lia. }
    assert (Hts : zsum (take (Z.to_nat i) counts) <= len).
    { rewrite <- Hsum. rewrite <- (take_drop (Z.to_nat i) counts) at 2. rewrite zsum_app.
      pose proof (zsum_nonneg (drop (Z.to_nat i) counts) ltac:(by apply Forall_drop)). lia. }
    nia. }
  unfold add_usize, checked_add, usize_max. replace (asg + _ <=? _) with true by lia. cbn [bind unwrap].
  destruct (lookup_Z fr i ltac:(lia)) as [y Hy].
  assert (Hy0 : y = 0) by (specialize (H3 i ltac:(lia)); unfold bget in H3; rewrite Hy in H3; done).
  eexists. split; [done|]. constructor; simpl.
  - by rewrite zlen_insert.
  - apply Forall_insert; [done|]. lia.
  - intros j Hj. rewrite bget_upd by lia. replace (i =? j) with false by lia. apply H3. lia.
  - intros j Hj Hnz. rewrite bget_upd by lia. destruct (Z.eqb_spec i j); [lia|]. apply H4; [lia|done].
  - rewrite (zsum_insert _ _ _ y Hy), Htk, nonzero_count_snoc. replace (c =? 0) with false by lia. lia.
  - rewrite fmap_app, zsum_app, Htk, zsum_app. simpl.
    pose proof (Z.div_mod (avail * c) len ltac:(lia)) as Hdm. lia.
  - rewrite zlen_app, Htk, nonzero_count_snoc. replace (c =? 0) with false by lia.
    rewrite H7. done.
  - apply Forall_app. split; [done|]. constructor; [simpl; lia|constructor].
  - lia.
Qed.

(** Rounding up the symbols with the largest remainders. *)
Lemma freq_bump_all es : forall fr,
  zlen fr = 256 -> Forall (fun f => 0 <= f) fr -> zsum fr + zlen es <= 4096 ->
  Forall (fun e : Z * Z => 0 <= snd e < 256) es ->
  exists fr', for_each es freq_bump fr = Ok fr' /\ zlen fr' = 256 /\
    Forall (fun f => 0 <= f) fr' /\ zsum fr' = zsum fr + zlen es /\
    forall j, 0 <= j < 256 -> bget fr j <= bget fr' j.
Proof.
  induction es as [|e es IH]; intros fr Hl Hn Hs He.
  { exists fr. repeat split; try done; rewrite ?zlen_nil; lia. }
  apply Forall_cons in He as [He Hes]. rewrite zlen_cons in Hs. pose proof (zlen_nonneg es).
  cbn [for_each]. unfold freq_bump at 1. rewrite idx_bget by lia. cbn [bind].
  destruct (lookup_Z fr (snd e) ltac:(lia)) as [x Hx].
  assert (Hbx : bget fr (snd e) = x) by (unfold bget; by rewrite Hx).
  destruct (zsum_lookup_le fr _ x Hn Hx) as [Hx0 Hxs]. rewrite Hbx.
  unfold u16_max. replace (x + 1 <=? 65535) with true by lia. cbn [ensure bind].
  rewrite upd_Ok by lia. cbn [bind].
  destruct (IH (<[Z.to_nat (snd e) := x + 1]> fr)) as (fr' & H1 & H2 & H3 & H4 & H5).
  - by rewrite zlen_insert.
  - apply Forall_insert; [done|]. lia.
  - rewrite (zsum_insert _ _ _ x Hx). lia.
  - done.
  - exists fr'. split; [done|]. split; [done|]. split; [done|].
    split; [rewrite H4, (zsum_insert _ _ _ x Hx), zlen_cons; lia|].
    intros j Hj. specialize (H5 j Hj). rewrite bget_upd in H5 by lia.
    destruct (Z.eqb_spec (snd e) j) as [Hj1|Hj1]; [rewrite <- Hj1 in *; lia|lia].
Qed.

Lemma zsum_bound (l : list Z) m : Forall (fun x => 0 <= x < m) l -> zsum l <= (m - 1) * zlen l.
Proof.
  induction 1 as [|x l Hx Hl IH]; simpl; [unfold zlen; simpl; lia|]. rewrite zlen_cons. lia.
Qed.

(** The normalised table of a nonempty input sums to 4096, and every byte that
    occurs has a nonzero frequency. *)
Lemma normalized_frequencies_ok bytes :
  bytes_ok bytes -> 0 < zlen bytes <= 2 ^ 50 ->
  exists fs, normalized_frequencies bytes = Ok fs /\ freq_ok fs /\
    Forall (fun b => 0 <= b < 256 /\ 1 <= bget fs b) bytes.
Proof.
  intros Hu Hl. unfold normalized_frequencies.
  destruct (count_loop count_byte bytes count_byte_step Hu) as (counts & -> & Hcl & Hcn & Hcs & Hocc);
    [change (2 ^ 50) with 1125899906842624 in Hl; unfold isize_max; lia|]. cbn [bind].
  fold (nonzero_count counts). set (present := nonzero_count counts).
  pose proof (nonzero_count_le counts) as Hpl. pose proof (nonzero_count_pos counts Hcn ltac:(lia)) as Hpp.
  fold present in Hpl, Hpp. rewrite Hcl in Hpl. change RANS_TOTAL with 4096.
  replace ((present =? 0) || (4096 <? present)) with false by lia.
  unfold sub_usize, checked_sub. replace (present <=? 4096) with true by lia. cbn [bind unwrap].
  set (avail := 4096 - present).
  destruct (for_enum_inv (shares counts avail (zlen bytes) present) (freq_share avail (zlen bytes)) counts 0
    (vec 0 256, [], present)) as ([[fr rem] asg] & -> & HI).
  - constructor; cbn [fst snd].
    + by autorewrite with zlen.
    + apply Forall_replicate. lia.
    + intros j Hj. unfold bget. by rewrite lookup_vec by lia.
    + intros j Hj. lia.
    + rewrite zsum_vec0, Z.sub_diag. done.
    + rewrite Z.sub_diag. simpl. lia.
    + done.
    + constructor.
    + lia.
  - intros i c st Hi Hc HI. rewrite Z.sub_0_r in Hc.
    apply freq_share_step; try done; unfold avail; lia.
  - destruct HI as [H1 H2 H3 H4 H5 H6 H7 H8 H9]. cbn [bind]. simpl in *. rewrite Hcl in *.
    rewrite take_ge in H5, H6, H7 by (unfold zlen in Hcl; lia). fold present in H5, H7. rewrite Hcs in H6.
    assert (Hb : zsum rem.*1 <= (zlen bytes - 1) * zlen rem.*1).
    { apply zsum_bound, Forall_fmap. eapply Forall_impl; [exact H8|]. intros e He. simpl in *. lia. }
    assert (Hz : 0 <= zsum rem.*1).
    { apply zsum_nonneg, Forall_fmap. eapply Forall_impl; [exact H8|]. intros e He. simpl in *. lia. }
    rewrite zlen_fmap, H7 in Hb.
    assert (Hasg : 0 <= 4096 - asg < present) by (unfold avail in *; nia).
    replace (asg <=? 4096) with true by lia. cbn [bind unwrap].
    set (es := take (Z.to_nat (4096 - asg)) (merge_sort rem_le rem)).
    pose proof (merge_sort_Permutation rem_le rem) as Hperm.
    assert (Hel : zlen es = 4096 - asg).
    { unfold es, zlen. rewrite length_take, Hperm. unfold zlen in H7. lia. }
    destruct (freq_bump_all es fr) as (fs & -> & Hfl & Hfn & Hfs & Hfm); [done|done|lia| |].
    { unfold es. apply Forall_take. rewrite Hperm. eapply Forall_impl; [exact H8|]. by intros e [_ He]. }
    exists fs. split; [done|]. split; [split; [done|split; [done|lia]]|].
    apply Forall_forall. intros b Hbin. rewrite Forall_forall in Hu. specialize (Hu b Hbin).
    unfold is_u8 in Hu. split; [done|]. specialize (Hfm b Hu). specialize (H4 b ltac:(lia)).
    enough (bget counts b <> 0) by (specialize (H4 H); lia). rewrite Hocc by done.
    by apply occurrences_pos.
Qed.

(** * Round trip *)

Lemma stored_freqs_encoded fs rest :
  freq_ok fs -> stored_freqs (concat (to_le 2 <$> fs) ++ rest) = fs.
Proof.
  intros Hf. pose proof Hf as (Hl & _). unfold stored_freqs.
  transitivity (tabulate 256 (bget fs)); [|by apply tabulate_bget]. apply tabulate_ext. intros i Hi.
  replace (i * 2 + 2) with ((i + 1) * 2) by lia. rewrite (sub_concat_le 2) by lia.
  destruct (freq_bounds fs i Hf Hi) as (H0 & H1 & H2). apply from_to_le. lia.
Qed.

Lemma rans_inverse bytes :
  bytes_ok bytes -> 0 < zlen bytes <= 2 ^ 50 ->
  exists payload, encode_rans bytes = Ok payload /\ bytes_ok payload /\
    decode_rans payload (zlen bytes) = Ok bytes.
Proof.
  intros Hu Hl. destruct (normalized_frequencies_ok bytes Hu Hl) as (fs & Hnf & Hfs & Hsym).
  pose proof Hfs as (Hfl & _ & Hsum).
  assert (Hlk : exists lk, lookup_ok fs lk 4096 /\ forall rest, bytes_ok rest ->
    for_range 0 256 (dec_table_step (concat (to_le 2 <$> fs) ++ rest))
      (vec 0 256, vec 0 256, vec u16_max RANS_TOTAL, 0) = Ok (fs, tabulate 256 (cum fs), lk, 4096)).
  { assert (Hpay : forall rest, bytes_ok rest -> 512 <= zlen (concat (to_le 2 <$> fs) ++ rest) /\
      bytes_ok (concat (to_le 2 <$> fs) ++ rest)).
    { intros rest Hr. rewrite zlen_app, zlen_concat_le, Hfl. pose proof (zlen_nonneg rest). split; [lia|].
      apply bytes_ok_app; [|done]. clear. induction fs; [constructor|]. by apply bytes_ok_app; [apply to_le_bytes|]. }
    destruct (Hpay [] ltac:(constructor)) as [H1 H2].
    destruct (dec_tables_ok (concat (to_le 2 <$> fs) ++ []) H1 H2) as (lk & Hlk & Hok);
      [by rewrite stored_freqs_encoded|].
    rewrite stored_freqs_encoded in Hlk, Hok by done. exists lk. split; [done|]. intros rest Hr.
    rewrite <- Hlk. apply for_range_ext. intros i [[[fr cu] lk0] tot] Hi. unfold dec_table_step.
    destruct (Hpay rest Hr) as [H3 _].
    assert (Hidx : forall o, 0 <= o < 512 ->
      idx (E := EntropyTransportError) (concat (to_le 2 <$> fs) ++ rest) o =
      idx (concat (to_le 2 <$> fs) ++ []) o).
    { intros o Ho. unfold idx. replace (0 <=? o) with true by lia.
      pose proof (zlen_concat_le 2 fs) as Hz. rewrite Hfl in Hz. unfold zlen in Hz.
      rewrite !lookup_app_l by lia. done. }
    by rewrite !Hidx by lia. }
  destruct Hlk as (lk & Hlk & Htab).
  destruct (stream_inverse fs lk Hfs Hlk bytes Hsym) as (x & out & Henc & Hx & Hob & Hdec).
  set (payload := concat (to_le 2 <$> fs) ++ to_le 4 x ++ rev out).
  assert (Hrest : bytes_ok (to_le 4 x ++ rev out)).
  { apply bytes_ok_app; [apply to_le_bytes|]. by apply Forall_rev. }
  exists payload. split; [|split].
  - unfold encode_rans. rewrite Hnf. cbn [bind]. rewrite cum_loop by done. cbn [bind].
    rewrite Z.eqb_refl. cbn [negb]. rewrite Henc. done.
  - unfold payload. apply bytes_ok_app; [|done]. clear. induction fs; [constructor|].
    by apply bytes_ok_app; [apply to_le_bytes|].
  - assert (Hm : zlen (concat (to_le 2 <$> fs)) = 512) by (rewrite zlen_concat_le, Hfl; lia).
    assert (Hpl : zlen payload = 516 + zlen out) by (unfold payload; autorewrite with zlen; lia).
    pose proof (zlen_nonneg out) as Hout. unfold decode_rans. change (RANS_MODEL_BYTES + 4) with 516.
    replace (zlen payload <? 516) with false by lia. unfold payload at 1. rewrite Htab by done. cbn [bind].
    rewrite Z.eqb_refl, (lookup_no_gap fs) by done. cbn [negb orb].
    rewrite !slice_Ok by (change RANS_MODEL_BYTES with 512; lia). cbn [bind].
    change RANS_MODEL_BYTES with 512.
    replace (sub payload 512 516) with (to_le 4 x)
      by (symmetry; unfold payload; apply sub_mid; [lia|rewrite Hm, zlen_to_le4; lia]).
    change (2 ^ 23) with 8388608 in Hx. change (2 ^ 31) with 2147483648 in Hx.
    rewrite from_to_le by (change (256 ^ Z.of_nat 4) with 4294967296; lia).
    change RANS_LOWER_BOUND with 8388608 in *. replace (x <? 8388608) with false by lia.
    replace (sub payload 516 (zlen payload)) with (rev out).
    2:{ symmetry. unfold payload. rewrite app_assoc. set (h := concat (to_le 2 <$> fs) ++ to_le 4 x).
        assert (Hh : zlen h = 516) by (unfold h; rewrite zlen_app, Hm, zlen_to_le4; lia).
        rewrite <- Hh at 1. apply sub_app_r. by rewrite zlen_app. }
    specialize (Hdec [] [] 0). cbn [app] in Hdec. change (zlen []) with 0 in Hdec.
    unfold for_range. replace (Z.to_nat (zlen bytes - 0)) with (length bytes) by (unfold zlen; lia).
    rewrite Hdec. cbn [bind]. rewrite zlen_rev, Z.add_0_l, !Z.eqb_refl. done.
Qed.

(** * Untrusted payloads *)

Lemma dec_renorm_S fuel stream cursor state :
  dec_renorm (S fuel) stream cursor state =
  if state <? 8388608 then
    let* byte := ok_or (stream !! Z.to_nat cursor) InvalidRansStream in
    dec_renorm fuel stream (cursor + 1) (Z.lor (shl32 state 8) byte)
  else Ok (cursor, state).
Proof. done. Qed.

Lemma dec_renorm_returns stream cursor s :
  bytes_ok stream -> 2 ^ 11 <= s < 2 ^ 32 -> 0 <= cursor ->
  returns (dec_renorm 4 stream cursor s) /\
  forall c' s', dec_renorm 4 stream cursor s = Ok (c', s') -> 2 ^ 23 <= s' < 2 ^ 32 /\ 0 <= c'.
Proof.
  intros Hu Hs Hc. change (2 ^ 11) with 2048 in Hs. change (2 ^ 32) with 4294967296 in *.
  change (2 ^ 23) with 8388608.
  assert (Hstep : forall (n : nat) c t, 0 <= c -> 2048 <= t < 4294967296 ->
    (8388608 <= t * 256 ^ Z.of_nat n) ->
    returns (dec_renorm (S n) stream c t) /\
    forall c' s', dec_renorm (S n) stream c t = Ok (c', s') -> 8388608 <= s' < 4294967296 /\ 0 <= c').
  { induction n as [|n IH]; intros c t Hc0 Ht Hb; rewrite dec_renorm_S.
    - rewrite Z.mul_1_r in Hb. replace (t <? 8388608) with false by lia.
      split; [done|]. intros c' s' [= <- <-]. lia.
    - destruct (Z.ltb_spec t 8388608) as [Hlt|]; [|split; [done|intros c' s' [= <- <-]; lia]].
      destruct (stream !! Z.to_nat c) as [b|] eqn:Hbc; [|done]. cbn [ok_or bind].
      pose proof (Forall_lookup_1 _ _ _ _ Hu Hbc) as Hb8. unfold is_u8 in Hb8.
      rewrite shift_in by (unfold is_u8; lia).
      apply IH; [lia|lia|].
      rewrite Nat2Z.inj_succ, Z.pow_succ_r in Hb by lia. nia. }
  apply (Hstep 3%nat); [done|lia|]. change (256 ^ Z.of_nat 3) with 16777216. lia.
Qed.

Lemma dec_symbol_returns fs lk stream i state cursor dec :
  freq_ok fs -> lookup_ok fs lk 4096 -> bytes_ok stream ->
  2 ^ 23 <= state < 2 ^ 32 -> 0 <= cursor ->
  returns (dec_symbol fs (tabulate 256 (cum fs)) lk stream i (state, cursor, dec)) /\
  forall s' c' d', dec_symbol fs (tabulate 256 (cum fs)) lk stream i (state, cursor, dec) = Ok (s', c', d') ->
    2 ^ 23 <= s' < 2 ^ 32 /\ 0 <= c'.
Proof.
  intros Hfs Hlk Hu Hst Hc. pose proof Hfs as (Hfl & _). unfold dec_symbol.
  change (RANS_TOTAL - 1) with (Z.ones 12). rewrite Z.land_ones by lia. change (2 ^ 12) with 4096.
  assert (Hm : 0 <= state mod 4096 < 4096) by (apply Z.mod_pos_bound; lia).
  destruct (proj2 Hlk _ Hm) as (s & Hs1 & Hs2 & Hs3). rewrite (idx_Ok lk _ s) by (done || lia). cbn [bind].
  destruct (freq_bounds fs s Hfs Hs2) as (H0 & H1 & H2).
  rewrite idx_bget by lia. cbn [bind]. replace (bget fs s =? 0) with false by lia.
  rewrite Z.shiftr_div_pow2 by (by vm_compute). change (2 ^ RANS_SCALE_BITS) with 4096.
  change (2 ^ 23) with 8388608 in *. change (2 ^ 32) with 4294967296 in *.
  assert (Hq : 2048 <= state / 4096 < 1048576) by (Z.div_mod_to_equations; lia).
  assert (Hp : 2048 <= bget fs s * (state / 4096) <= 4096 * 1048575) by nia.
  unfold mul_u32, checked_mul32, add_u32, checked_add32, sub_u32, checked_sub, u32_max.
  replace (bget fs s * (state / 4096) <=? _) with true by lia. cbn [bind unwrap].
  replace (_ <=? 4294967295) with true by lia. cbn [bind unwrap].
  rewrite idx_bget by (autorewrite with zlen; lia). rewrite bget_tabulate by lia. cbn [bind].
  replace (cum fs s <=? _) with true by lia. cbn [bind unwrap].
  destruct (dec_renorm_returns stream cursor (bget fs s * (state / 4096) + state mod 4096 - cum fs s) Hu) as [Hr Hok];
    [change (2 ^ 11) with 2048; change (2 ^ 32) with 4294967296; lia|done|].
  split.
  - apply returns_bind; [done|]. by intros [c' s'].
  - intros s' c' d' H. bind_inv H. destruct v as [c1 s1]. injection H as <- <- <-. by apply Hok.
Qed.

Lemma decode_rans_returns payload n : bytes_ok payload -> 0 <= n -> returns (decode_rans payload n).
Proof.
  intros Hu Hn. unfold decode_rans. change (RANS_MODEL_BYTES + 4) with 516. change RANS_MODEL_BYTES with 512.
  destruct (Z.ltb_spec (zlen payload) 516); [done|].
  destruct (stored_freqs_ok payload ltac:(lia) Hu) as [Hfl Hfb].
  assert (Hnn : Forall (fun f => 0 <= f) (stored_freqs payload))
    by (eapply Forall_impl; [exact Hfb|]; intros x Hx; simpl in *; lia).
  destruct (Z.eqb_spec (zsum (stored_freqs payload)) 4096) as [Hs|Hs].
  - destruct (dec_tables_ok payload ltac:(lia) Hu Hs) as (lk & -> & Hlk). cbn [bind].
    change (4096 =? RANS_TOTAL) with true. rewrite (lookup_no_gap _ _ Hlk). cbn [negb orb].
    rewrite !slice_Ok by lia. cbn [bind]. change RANS_LOWER_BOUND with 8388608.
    destruct (Z.ltb_spec (from_le (sub payload 512 516)) 8388608); [done|].
    pose proof (from_le_bound _ (bytes_ok_sub payload 512 516 Hu)) as Hst.
    rewrite zlen_sub in Hst by lia. change (256 ^ (516 - 512)) with 4294967296 in Hst.
    assert (Hfs : freq_ok (stored_freqs payload)) by done.
    apply returns_bind.
    + apply (for_range_returns (fun _ st => 2 ^ 23 <= st.1.1 < 2 ^ 32 /\ 0 <= st.1.2)); [lia| |].
      * cbn [fst snd]. change (2 ^ 23) with 8388608. change (2 ^ 32) with 4294967296. lia.
      * intros i [[s c] d] Hi [Hs1 Hc1]. cbn [fst snd] in *.
        destruct (dec_symbol_returns (stored_freqs payload) lk (sub payload 516 (zlen payload)) i s c d)
          as [Hr Hok]; try done; [by apply bytes_ok_sub|]. split; [done|].
        intros [[s' c'] d'] H1. cbn [fst snd]. by eapply Hok.
    + intros [[s c] d] _. by destruct (_ || _).
  - assert (Hr : returns (for_range 0 256 (dec_table_step payload) (vec 0 256, vec 0 256, vec u16_max RANS_TOTAL, 0))
      /\ forall st, for_range 0 256 (dec_table_step payload) (vec 0 256, vec 0 256, vec u16_max RANS_TOTAL, 0)
           = Ok st -> dec_tables_at (stored_freqs payload) 256 st).
    { assert (Hstep : forall i st, 0 <= i < 256 -> dec_tables_at (stored_freqs payload) i st ->
        returns (dec_table_step payload i st) /\
        forall st', dec_table_step payload i st = Ok st' -> dec_tables_at (stored_freqs payload) (i + 1) st').
      { intros i st Hi HI. pose proof (dec_table_step_spec payload i st ltac:(lia) Hu Hi HI) as H1.
        cbv zeta in H1. destruct (_ <=? _).
        - destruct H1 as (st1 & -> & HI1). split; [done|]. by intros st' [= <-].
        - rewrite H1. split; [done|]. by intros st'. }
      split.
      - apply (for_range_returns (dec_tables_at (stored_freqs payload))); [lia|apply dec_tables_start|done].
      - intros st H1. eapply (for_range_Ok_inv (dec_tables_at (stored_freqs payload))); [|exact H1|apply dec_tables_start|];
          [lia|]. intros i s s' Hi HI Hst. by apply (Hstep i s Hi HI). }
    destruct Hr as [Hr Hok]. apply returns_bind; [done|]. intros [[[fr cu] lk] tot] H1.
    destruct (Hok _ H1) as (_ & _ & Htot & _). rewrite cum_full in Htot by lia.
    change RANS_TOTAL with 4096. replace (tot =? 4096) with false by lia. done.
Qed.

Lemma decode_rans_len payload n out : 0 <= n -> decode_rans payload n = Ok out -> zlen out = n.
Proof.
  intros Hn. unfold decode_rans. destruct (_ <? _); [done|]. intros H. bind_inv H. destruct v as [[[fr cu] lk] tot].
  destruct (_ || _); [done|]. bind_inv H. destruct (_ <? _); [done|]. bind_inv H. bind_inv H.
  destruct v1 as [[s c] d]. destruct (_ || _); [done|]. apply Ok_inj in H as <-.
  apply (for_range_Ok_inv (fun i st => zlen st.2 = i) _ _ _ _ _ Hn Hv2); [done|].
  intros i [[s1 c1] d1] [[s2 c2] d2] Hi HI Hst. simpl in *. unfold dec_symbol in Hst.
  bind_inv Hst. bind_inv Hst. destruct (_ =? _); [done|]. repeat bind_inv Hst. match type of Hst with (let (_, _) := ?v in _) = _ => destruct v as [c3 s3] end.
  injection Hst as <- <- <-. rewrite zlen_app. change (zlen [_]) with 1. lia.
Qed.

#[export] Instance rans_codec : EntropyCodec encode_rans decode_rans.
Proof. split; [exact rans_inverse|exact decode_rans_returns|exact decode_rans_len]. Qed.

(** * Properties *)

(** C17: rANS is lossless and its encoder total: every nonempty byte string up to
    [2^50] bytes is encoded, the 32-bit state never overflows and the frequencies
    always normalise to 4096, and decoding the payload returns the bytes. *)
Theorem rans_roundtrip bytes :
  bytes_ok bytes -> 0 < zlen bytes <= 2 ^ 50 ->
  exists payload, encode_rans bytes = Ok payload /\ decode_rans payload (zlen bytes) = Ok bytes.
Proof.
  intros Hu Hl. destruct (rans_inverse bytes Hu Hl) as (payload & H1 & _ & H2). eauto.
Qed.

Lemma rans_roundtrip_witness :
  exists payload, encode_rans [1; 2; 1; 1; 200; 1] = Ok payload /\
    decode_rans payload 6 = Ok [1; 2; 1; 1; 200; 1].
Proof. apply (rans_roundtrip [1; 2; 1; 1; 200; 1]); [by apply bytes_ok_check|by vm_compute]. Defined.

(** Decoding an untrusted rANS payload for any declared [u32] length never panics:
    malformed tables, states and streams are errors, the [u32] arithmetic of the
    state cannot overflow, and the renormalisation loop ends within three reads. *)
Theorem rans_decode_safe payload n :
  bytes_ok payload -> is_u32 n -> returns (decode_rans payload n).
Proof. intros Hu [Hn _]. by apply decode_rans_returns. Qed.

Lemma rans_decode_safe_witness :
  decode_rans (vec 0 600) 3 = Err InvalidRansTable /\ returns (decode_rans (vec 0 600) 3).
Proof.
  split; [by vm_compute|]. apply (rans_decode_safe (vec 0 600) 3); [by apply bytes_ok_check|split; lia].
Defined.
