(* ===== verification/HuffmanTree.v ===== *)
(** * Huffman code lengths (huffman_lengths and assign_lengths of
    crates/tritium-format/src/entropy_transport.rs)

    The arena of nodes, the heap that merges the two least frequent trees, and
    the depths the final tree assigns.  The result always satisfies Kraft's
    inequality, so that the canonical code exists. *)

From S2P Require Import Prelude Core FormatBase TwoBit EntropyBase.
From Stdlib Require Import ZArith Lia Bool Sorting.Permutation.
From stdpp Require Import base list numbers sorting.

#[local] Open Scope Z_scope.

Record Node : Type := MkNode {
  nd_frequency : Z;
  nd_min_symbol : Z;
  nd_symbol : option Z;
  nd_children : option (Z * Z) }.

Record HeapNode : Type := MkHeapNode {
  hn_frequency : Z;
  hn_min_symbol : Z;
  hn_index : Z }.

(** [Ord for HeapNode]: reversed, so that the greatest node of the max-heap is
    the least frequent one. *)
Definition then_with (c d : comparison) : comparison := match c with Eq => d | _ => c end.
Definition hn_cmp (self other : HeapNode) : comparison :=
  then_with (hn_frequency other ?= hn_frequency self)
    (then_with (hn_min_symbol other ?= hn_min_symbol self) (hn_index other ?= hn_index self)).

(** [BinaryHeap]: [pop] removes the greatest element. *)
Definition heap_push (heap : list HeapNode) (x : HeapNode) : list HeapNode := x :: heap.
Fixpoint heap_pop (heap : list HeapNode) : option (HeapNode * list HeapNode) :=
  match heap with
  | [] => None
  | x :: heap' =>
      match heap_pop heap' with
      | None => Some (x, [])
      | Some (y, rest) => match hn_cmp y x with Gt => Some (y, x :: rest) | _ => Some (x, y :: rest) end
      end
  end.

Definition count_symbol (byte : Z) (frequencies : list Z) : eres (list Z) :=
  let* c := idx frequencies byte in
  let* c := add_usize c 1 in
  upd frequencies byte c.

Definition leaf_step (symbol frequency : Z) (st : list Node * list HeapNode)
  : eres (list Node * list HeapNode) :=
  let '(nodes, heap) := st in
  if frequency =? 0 then Ok st else
  let index := zlen nodes in
  Ok (nodes ++ [MkNode frequency symbol (Some symbol) None],
      heap_push heap (MkHeapNode frequency symbol index)).

(** [while heap.len() > 1]. *)
Fixpoint merge_loop (fuel : nat) (nodes : list Node) (heap : list HeapNode)
  : eres (list Node * list HeapNode) :=
  match fuel with
  | O => NoFuel
  | S fuel =>
      if 1 <? zlen heap then
        let* (lhs, heap) := unwrap (heap_pop heap) in
        let* (rhs, heap) := unwrap (heap_pop heap) in
        let index := zlen nodes in
        let* frequency := ok_or (checked_add (hn_frequency lhs) (hn_frequency rhs)) LengthOverflow in
        let min_symbol := Z.min (hn_min_symbol lhs) (hn_min_symbol rhs) in
        merge_loop fuel
          (nodes ++ [MkNode frequency min_symbol None (Some (hn_index lhs, hn_index rhs))])
          (heap_push heap (MkHeapNode frequency min_symbol index))
      else Ok (nodes, heap)
  end.

Fixpoint assign_lengths (fuel : nat) (nodes : list Node) (index depth : Z) (lengths : list Z)
  : eres (list Z) :=
  match fuel with
  | O => NoFuel
  | S fuel =>
      let* node := ok_or (nodes !! Z.to_nat index) InvalidHuffmanTable in
      match nd_symbol node, nd_children node with
      | Some symbol, _ =>
          let* _ := ensure (Z.max depth 1 <=? u8_max) InvalidHuffmanTable in
          upd lengths symbol (Z.max depth 1)
      | None, Some (lhs, rhs) =>
          let* depth := add_usize depth 1 in
          let* lengths := assign_lengths fuel nodes lhs depth lengths in
          assign_lengths fuel nodes rhs depth lengths
      | None, None => Err InvalidHuffmanTable
      end
  end.

Definition huffman_lengths (bytes : list Z) : eres (list Z) :=
  let* frequencies := for_each bytes count_symbol (vec 0 256) in
  let* (nodes, heap) := for_enum 0 frequencies leaf_step ([], []) in
  if zlen heap =? 0 then Err InvalidHuffmanTable else
  if zlen heap =? 1 then
    let* (top, _) := unwrap (heap_pop heap) in
    let* node := idx nodes (hn_index top) in
    let* symbol := unwrap (nd_symbol node) in
    upd (vec 0 256) symbol 1
  else
    let* (nodes, heap) := merge_loop (length heap) nodes heap in
    let* (top, _) := unwrap (heap_pop heap) in
    assign_lengths (length nodes) nodes (hn_index top) 0 (vec 0 256).

(** * The forest behind the arena *)

Inductive tree : Type := Leaf (s : Z) | Fork (l r : tree).

Fixpoint leaves (t : tree) : list Z :=
  match t with Leaf s => [s] | Fork l r => leaves l ++ leaves r end.
Fixpoint height (t : tree) : Z :=
  match t with Leaf _ => 0 | Fork l r => 1 + Z.max (height l) (height r) end.

(** Node [i] of the arena is the root of [t]; children precede parents. *)
Inductive denotes (nodes : list Node) : Z -> tree -> Prop :=
| denotes_leaf i f m s c :
    0 <= i -> nodes !! Z.to_nat i = Some (MkNode f m (Some s) c) -> denotes nodes i (Leaf s)
| denotes_fork i f m l r tl tr :
    nodes !! Z.to_nat i = Some (MkNode f m None (Some (l, r))) -> 0 <= l < i -> 0 <= r < i ->
    denotes nodes l tl -> denotes nodes r tr -> denotes nodes i (Fork tl tr).

Lemma denotes_app nodes more i t : denotes nodes i t -> denotes (nodes ++ more) i t.
Proof.
  induction 1; [eapply denotes_leaf|eapply denotes_fork]; eauto using lookup_app_l_Some.
Qed.

Lemma denotes_height nodes i t : denotes nodes i t -> 0 <= height t <= i /\ i < zlen nodes.
Proof.
  induction 1 as [i f m s c Hi Hn|i f m l r tl tr Hn Hl Hr H1 IH1 H2 IH2]; simpl;
    apply lookup_lt_Some in Hn; unfold zlen in *; lia.
Qed.

Lemma height_nonneg t : 0 <= height t.
Proof. induction t; simpl; lia. Qed.

Lemma height_leaves t : height t + 1 <= zlen (leaves t).
Proof.
  induction t as [s|l IHl r IHr]; simpl; [by unfold zlen|]. rewrite zlen_app.
  pose proof (height_nonneg l). pose proof (height_nonneg r). lia.
Qed.

Lemma heap_pop_perm heap : heap <> [] ->
  exists x rest, heap_pop heap = Some (x, rest) /\ Permutation heap (x :: rest).
Proof.
  induction heap as [|x heap IH]; [done|]. intros _. simpl. destruct heap as [|y heap]; [by exists x, []|].
  destruct IH as (z & rest & -> & Hp); [done|]. destruct (hn_cmp z x); [exists x, (z :: rest)..|exists z, (x :: rest)];
    (split; [done|]); rewrite Hp; try done. apply perm_swap.
Qed.

(** * The table *)

(** Kraft's sum of a length table, in units of [2^-255]. *)
Definition kraft_term (len : Z) : Z := if len =? 0 then 0 else 2 ^ (255 - len).
Definition kraft (lengths : list Z) : Z := zsum (kraft_term <$> lengths).

Lemma kraft_insert lengths s len :
  0 <= s < zlen lengths -> bget lengths s = 0 ->
  kraft (<[Z.to_nat s := len]> lengths) = kraft lengths + kraft_term len.
Proof.
  intros Hs H0. unfold kraft. rewrite list_fmap_insert.
  rewrite (zsum_insert _ _ _ 0); [lia|]. rewrite list_lookup_fmap.
  destruct (lookup_Z lengths s Hs) as [x Hx]. unfold bget in H0. rewrite Hx in *. simpl in *. by subst.
Qed.

Definition table_ok (lengths : list Z) : Prop :=
  zlen lengths = 256 /\ Forall (fun l => 0 <= l <= 255) lengths.

Lemma table_upd lengths s len :
  table_ok lengths -> 0 <= len <= 255 -> table_ok (<[Z.to_nat s := len]> lengths).
Proof. intros [Hl Hf] Hlen. split; [by rewrite zlen_insert|]. by apply Forall_insert. Qed.

(** A tree whose root is at depth [d] takes [2^-d] of Kraft's sum. *)
Lemma assign_lengths_ok nodes t : forall fuel i d lengths,
  denotes nodes i t -> 1 <= d \/ (d = 0 /\ 0 < height t) -> d + height t <= 255 -> height t < Z.of_nat fuel ->
  NoDup (leaves t) -> table_ok lengths ->
  (forall s, s ∈ leaves t -> 0 <= s < 256 /\ bget lengths s = 0) ->
  exists lengths', assign_lengths fuel nodes i d lengths = Ok lengths' /\ table_ok lengths' /\
    kraft lengths' = kraft lengths + 2 ^ (255 - d) /\
    (forall s, 0 <= s -> s ∉ leaves t -> bget lengths' s = bget lengths s) /\
    (forall s, s ∈ leaves t -> 1 <= bget lengths' s).
Proof.
  induction t as [s|tl IHl tr IHr]; intros fuel i d lengths Hd Hd1 Hh Hfuel Hnd Ht Hs;
    (destruct fuel as [|fuel]; [match type of Hfuel with height ?t < _ => pose proof (height_nonneg t) end; lia|]); simpl assign_lengths.
  - inversion Hd as [? f m ? c Hi Hn|]; subst. rewrite Hn. cbn [ok_or bind nd_symbol]. simpl height in *. replace (Z.max d 1) with d by lia.
    unfold u8_max, ensure. replace (d <=? 255) with true by lia. cbn [bind].
    destruct (Hs s) as [Hs1 Hs2]; [by left|]. pose proof Ht as [Hl _].
    rewrite upd_Ok by lia. eexists. split; [done|]. split; [apply table_upd; [done|lia]|].
    split; [rewrite kraft_insert by (done || lia); unfold kraft_term; replace (d =? 0) with false by lia; lia|].
    split; intros u Hu.
    + intros Hnot. rewrite bget_upd by lia. destruct (Z.eqb_spec s u) as [->|]; [|done]. destruct Hnot. by left.
    + apply list_elem_of_singleton in Hu as ->. rewrite bget_upd by lia. rewrite Z.eqb_refl. lia.
  - inversion Hd as [|? f m l r ? ? Hn Hl Hr Htl Htr]; subst. rewrite Hn. cbn [ok_or bind nd_symbol nd_children]. simpl height in *.
    unfold add_usize, checked_add, usize_max. pose proof (height_nonneg tl). pose proof (height_nonneg tr).
    replace (d + 1 <=? _) with true by lia. cbn [unwrap bind].
    simpl leaves in *. apply NoDup_app in Hnd as (Hnl & Hdis & Hnr).
    destruct (IHl fuel l (d + 1) lengths) as (m1 & -> & Ht1 & Hk1 & Hs1 & Hp1); try done; try lia.
    { intros u Hu. apply Hs, elem_of_app. by left. }
    cbn [bind]. destruct (IHr fuel r (d + 1) m1) as (m2 & -> & Ht2 & Hk2 & Hs2 & Hp2); try done; try lia.
    { intros u Hu. destruct (Hs u) as [Hu1 Hu2]; [apply elem_of_app; by right|]. split; [done|].
      rewrite Hs1; [done|lia|]. intros Hul. by apply (Hdis u). }
    exists m2. split; [done|]. split; [done|]. split.
    { rewrite Hk2, Hk1. replace (255 - d) with (Z.succ (255 - (d + 1))) by lia. rewrite Z.pow_succ_r by lia. lia. }
    split; intros u Hu.
    + intros Hnot. rewrite not_elem_of_app in Hnot. rewrite Hs2 by tauto. apply Hs1; tauto.
    + apply elem_of_app in Hu as [Hu|Hu]; [|by apply Hp2]. destruct (Hs u) as [Hu1 _]; [apply elem_of_app; by left|].
      rewrite Hs2; [by apply Hp1|lia|]. by apply Hdis.
Qed.

(** * The merge loop *)

Definition forest (nodes : list Node) (heap : list HeapNode) (ts : list tree) : Prop :=
  Forall2 (fun h t => denotes nodes (hn_index h) t) heap ts.
Definition symbols (ts : list tree) : list Z := concat (leaves <$> ts).
Definition weight (heap : list HeapNode) : Z := zsum (hn_frequency <$> heap).
Definition weights_ok (heap : list HeapNode) : Prop := Forall (fun h => 0 <= hn_frequency h) heap.

Lemma forest_app nodes more heap ts : forest nodes heap ts -> forest (nodes ++ more) heap ts.
Proof. intros H. eapply Forall2_impl; [exact H|]. intros h t. apply denotes_app. Qed.

Lemma symbols_perm ts us : Permutation ts us -> Permutation (symbols ts) (symbols us).
Proof. intros H. unfold symbols. by rewrite H. Qed.

Lemma weight_cons h heap : weight (h :: heap) = hn_frequency h + weight heap.
Proof. done. Qed.

Lemma weight_nonneg heap : weights_ok heap -> 0 <= weight heap.
Proof. intros H. apply zsum_nonneg, Forall_fmap. eapply Forall_impl; [exact H|]. done. Qed.

Lemma pop_forest nodes heap ts :
  heap <> [] -> forest nodes heap ts -> weights_ok heap ->
  exists x rest t us, heap_pop heap = Some (x, rest) /\ length heap = S (length rest) /\
    denotes nodes (hn_index x) t /\ forest nodes rest us /\ Permutation ts (t :: us) /\
    0 <= hn_frequency x /\ weights_ok rest /\ weight heap = hn_frequency x + weight rest.
Proof.
  intros Hne Hf Hw. destruct (heap_pop_perm heap Hne) as (x & rest & Hpop & Hp).
  destruct (Permutation.Permutation_Forall2 Hp Hf) as (vs & Hpv & Hfv).
  inversion Hfv as [|? t ? us Hd Hr]; subst. exists x, rest, t, us. split; [done|].
  split; [by rewrite Hp|]. split; [done|]. split; [done|]. split; [done|].
  unfold weights_ok in *. rewrite Hp in Hw. apply Forall_cons in Hw as [H0 H1]. split; [done|]. split; [done|].
  unfold weight. by rewrite (zsum_Permutation _ _ (fmap_Permutation hn_frequency _ _ Hp)).
Qed.

Lemma merge_loop_ok : forall fuel nodes heap ts,
  heap <> [] -> (length heap <= fuel)%nat -> forest nodes heap ts -> weights_ok heap ->
  weight heap <= isize_max ->
  exists nodes' top t, merge_loop fuel nodes heap = Ok (nodes', [top]) /\
    denotes nodes' (hn_index top) t /\ Permutation (leaves t) (symbols ts) /\
    ((1 < length heap)%nat -> 0 < height t).
Proof.
  induction fuel as [|fuel IH]; intros nodes heap ts Hne Hlen Hf Hw Hsum;
    [destruct heap; [done|simpl in Hlen; lia]|].
  simpl merge_loop. destruct (Z.ltb_spec 1 (zlen heap)) as [Hgt|Hle].
  - destruct (pop_forest nodes heap ts) as (x & h1 & tx & us & -> & Hl1 & Hdx & Hf1 & Hp1 & Hx0 & Hw1 & Hs1); try done.
    cbn [unwrap bind]. destruct (pop_forest nodes h1 us) as (y & h2 & ty & vs & -> & Hl2 & Hdy & Hf2 & Hp2 & Hy0 & Hw2 & Hs2);
      try done; [intros ->; unfold zlen in Hgt; simpl in Hl1; lia|].
    cbn [unwrap bind]. pose proof (weight_nonneg h2 Hw2) as Hn2. unfold checked_add, usize_max.
    unfold isize_max in *. replace (_ <=? _) with true by lia. cbn [ok_or bind].
    destruct (denotes_height _ _ _ Hdx) as [Hx1 Hx2]. destruct (denotes_height _ _ _ Hdy) as [Hy1 Hy2].
    edestruct (IH (nodes ++ [MkNode (hn_frequency x + hn_frequency y) (Z.min (hn_min_symbol x) (hn_min_symbol y)) None
        (Some (hn_index x, hn_index y))])
      (MkHeapNode (hn_frequency x + hn_frequency y) (Z.min (hn_min_symbol x) (hn_min_symbol y)) (zlen nodes) :: h2)
      (Fork tx ty :: vs)) as (nodes' & top & t & Hm & Hd & Hp & Hh); [done|simpl; lia| | | |].
    + constructor; [|by apply forest_app]. simpl hn_index. eapply (denotes_fork _ _ _ _ (hn_index x) (hn_index y)); [|lia|lia|by apply denotes_app..].
      rewrite lookup_app_r by (unfold zlen; lia). by replace (Z.to_nat (zlen nodes) - length nodes)%nat with 0%nat by (unfold zlen; lia).
    + constructor; [simpl; lia|done].
    + rewrite weight_cons. simpl hn_frequency. lia.
    + exists nodes', top, t. split; [exact Hm|]. split; [done|]. split; [rewrite Hp|].
      * rewrite (symbols_perm _ _ Hp1). unfold symbols in *. simpl. rewrite Hp2. simpl. by rewrite app_assoc.
      * intros _. destruct t; [|pose proof (height_nonneg t1); pose proof (height_nonneg t2); simpl; lia].
        assert (Hl : length (leaves tx ++ leaves ty) = (length (leaves tx) + length (leaves ty))%nat) by apply length_app.
        apply Permutation_length in Hp. unfold symbols in Hp. simpl in Hp. rewrite !length_app in Hp.
        pose proof (height_leaves tx). pose proof (height_leaves ty). unfold zlen in *. lia.
  - destruct heap as [|x [|y heap]]; [done| |unfold zlen in Hle; simpl in Hle; lia].
    inversion Hf as [|? t ? us Hd Hr]; subst. inversion Hr; subst. exists nodes, x, t. split; [done|]. split; [done|].
    unfold symbols. simpl. rewrite app_nil_r. split; [done|lia].
Qed.

(** * The leaves *)

Definition leaf_inv (frequencies : list Z) (i : Z) (st : list Node * list HeapNode) : Prop :=
  let '(nodes, heap) := st in
  exists ts, forest nodes heap ts /\ weights_ok heap /\ NoDup (symbols ts) /\
    (forall s, s ∈ symbols ts <-> 0 <= s < i /\ bget frequencies s <> 0) /\
    weight heap = zsum (take (Z.to_nat i) frequencies) /\ Forall (fun t => exists s, t = Leaf s) ts.

Lemma leaf_loop frequencies :
  Forall (fun f => 0 <= f) frequencies ->
  exists st, for_enum 0 frequencies leaf_step ([], []) = Ok st /\ leaf_inv frequencies (zlen frequencies) st.
Proof.
  intros Hnn. apply (for_enum_inv (leaf_inv frequencies) leaf_step frequencies 0 ([], [])).
  { exists []. split; [constructor|]. split; [constructor|]. split; [constructor|]. split; [|split; [done|constructor]].
    intros s. split; [intros Hs; by apply not_elem_of_nil in Hs|lia]. }
  intros i f [nodes heap] Hi Hf (ts & Hfo & Hw & Hnd & Hin & Hsum & Hlf). rewrite Z.sub_0_r in Hf.
  pose proof (Forall_lookup_1 _ _ _ _ Hnn Hf) as Hf0. simpl in Hf0.
  assert (Hb : bget frequencies i = f) by (unfold bget; by rewrite Hf).
  unfold leaf_step. destruct (Z.eqb_spec f 0) as [He|Hne]; eexists; (split; [done|]).
  - exists ts. do 3 (split; [done|]). split; [|split; [rewrite (zsum_take_S _ _ f) by done; lia|done]].
    intros s. rewrite Hin. split; intros [H1 H2]; (split; [|done]); [lia|]. destruct (decide (s = i)) as [->|]; [lia|lia].
  - exists (Leaf i :: ts). split; [constructor; [|by apply forest_app]|].
    { simpl hn_index. eapply denotes_leaf; [auto with rust|]. rewrite lookup_app_r by (unfold zlen; lia).
      by replace (Z.to_nat (zlen nodes) - length nodes)%nat with 0%nat by (unfold zlen; lia). }
    split; [constructor; done|]. unfold symbols in *. simpl. split; [constructor; [rewrite Hin; lia|done]|].
    split; [|split; [|constructor; eauto]].
    + intros s. rewrite elem_of_cons, Hin. split; [intros [->|]; lia|]. intros [H1 H2].
      destruct (decide (s = i)); [by left|right; lia].
    + rewrite (zsum_take_S _ _ f) by done. unfold heap_push. rewrite weight_cons. simpl hn_frequency. lia.
Qed.

Lemma NoDup_bound (l : list Z) n :
  0 <= n -> NoDup l -> (forall s, s ∈ l -> 0 <= s < n) -> zlen l <= n.
Proof.
  intros Hn Hnd Hin. assert (Hsub : l ⊆+ seqZ 0 n).
  { apply NoDup_submseteq; [done|]. intros s Hs. apply elem_of_seqZ. apply Hin in Hs. lia. }
  apply submseteq_length in Hsub. rewrite length_seqZ in Hsub. unfold zlen. lia.
Qed.

Lemma count_symbol_step b counts :
  0 <= b < zlen counts -> 0 <= bget counts b < isize_max ->
  count_symbol b counts = Ok (<[Z.to_nat b := bget counts b + 1]> counts).
Proof.
  intros Hb Hc. unfold count_symbol, add_usize, checked_add. rewrite idx_bget by done. cbn [bind].
  unfold isize_max, usize_max in *. replace (_ <=? _) with true by lia. cbn [unwrap bind]. by apply upd_Ok.
Qed.

Lemma table_zeros : table_ok (vec 0 256) /\ kraft (vec 0 256) = 0 /\ forall s, bget (vec 0 256) s = 0.
Proof.
  split; [split; [done|apply Forall_replicate; lia]|]. split; [by vm_compute|]. intros s. unfold bget, vec.
  destruct (replicate _ _ !! _) eqn:He; [|done]. by apply lookup_replicate in He as [-> _].
Qed.

(** The encoder's table: every byte of the input has a length between 1 and 255,
    and Kraft's sum is at most one. *)
Lemma huffman_lengths_ok bytes :
  bytes_ok bytes -> 0 < zlen bytes <= isize_max ->
  exists lengths, huffman_lengths bytes = Ok lengths /\ table_ok lengths /\
    0 < kraft lengths <= 2 ^ 255 /\ Forall (fun b => 1 <= bget lengths b) bytes.
Proof.
  intros Hu [Hl0 Hl1].
  destruct (count_loop count_symbol bytes count_symbol_step Hu Hl1) as (fr & Hfr & Hfl & Hnn & Hsum & Hocc).
  destruct (leaf_loop fr Hnn) as ([nodes heap] & Hlv & ts & Hfo & Hw & Hnd & Hin & Hwt & Hlf).
  rewrite Hfl in Hin, Hwt. rewrite take_ge, Hsum in Hwt by (unfold zlen in Hfl; lia).
  unfold huffman_lengths. rewrite Hfr. cbn [bind]. rewrite Hlv. cbn [bind].
  assert (Hne : heap <> []) by (intros ->; unfold weight in Hwt; simpl in Hwt; lia).
  assert (Hbytes : forall lengths, (forall s, s ∈ symbols ts -> 1 <= bget lengths s) ->
    Forall (fun b => 1 <= bget lengths b) bytes).
  { intros lengths Hs. apply Forall_forall. intros b Hb. apply Hs, Hin. rewrite Forall_forall in Hu.
    specialize (Hu b Hb). unfold is_u8 in Hu. split; [done|]. rewrite Hocc by done. by apply occurrences_pos. }
  destruct table_zeros as (Hz1 & Hz2 & Hz3).
  replace (zlen heap =? 0) with false by (destruct heap; [done|]; rewrite zlen_cons; pose proof (zlen_nonneg heap); lia).
  destruct (Z.eqb_spec (zlen heap) 1) as [H1|H1].
  - destruct heap as [|x [|y heap]]; [done| |rewrite !zlen_cons in H1; pose proof (zlen_nonneg heap); lia].
    inversion Hfo as [|? t ? us Hd Hr]; subst. inversion Hr; subst.
    apply Forall_cons in Hlf as [[s ->] _]. cbn [heap_pop unwrap bind].
    inversion Hd as [? f m ? c Hi Hn|]; subst. rewrite (idx_Ok _ _ _ Hi Hn). cbn [bind nd_symbol unwrap].
    destruct (Hin s) as [Hs _]. destruct Hs as [Hs _]; [by left|].
    rewrite upd_Ok by (rewrite zlen_vec; lia). eexists. split; [done|]. split; [apply table_upd; [done|lia]|].
    rewrite kraft_insert, Hz2 by (rewrite ?zlen_vec; done || lia). split; [by vm_compute|]. apply Hbytes.
    intros u Hu1. apply list_elem_of_singleton in Hu1 as ->. rewrite bget_upd by (rewrite ?zlen_vec; lia).
    by rewrite Z.eqb_refl.
  - destruct (merge_loop_ok (length heap) nodes heap ts) as (nodes' & top & t & -> & Hd & Hp & Hh); try done; [lia|].
    cbn [heap_pop unwrap bind]. destruct (denotes_height _ _ _ Hd) as [Hh1 Hh2].
    assert (Hn256 : zlen (leaves t) <= 256).
    { apply NoDup_bound; [lia|by rewrite Hp|]. intros s Hs. rewrite Hp in Hs. by apply Hin in Hs as [? _]. }
    pose proof (height_leaves t).
    assert (Hgt : (1 < length heap)%nat) by (destruct heap as [|? [|? ?]]; [done|done|simpl; lia]).
    destruct (assign_lengths_ok nodes' t (length nodes') (hn_index top) 0 (vec 0 256))
      as (lengths & -> & Ht & Hk & _ & Hpos); try done.
    + right. auto.
    + lia.
    + unfold zlen in Hh2. lia.
    + by rewrite Hp.
    + intros s Hs. rewrite Hp in Hs. apply Hin in Hs as [? _]. split; [done|apply Hz3].
    + exists lengths. split; [done|]. split; [done|]. rewrite Hk, Hz2. split; [by vm_compute|].
      apply Hbytes. intros s Hs. apply Hpos. by rewrite Hp.
Qed.
