(* ===== verification/HuffmanCode.v ===== *)
(** * Canonical Huffman codes (canonical_codes, increment_bits and build_trie of
    crates/tritium-format/src/entropy_transport.rs)

    A length table is turned into codes by counting in binary, shortest codes
    first.  The table is accepted exactly when it satisfies Kraft's inequality,
    and the codes are then prefix-free. *)

From S2P Require Import Prelude Core FormatBase TwoBit EntropyBase HuffmanTree.
From Stdlib Require Import ZArith Lia Bool.
From stdpp Require Import base list numbers sorting.

#[local] Open Scope Z_scope.

(** [struct Code]: its bits, most significant first. *)
Record Code : Type := MkCode { bits : list Z }.

(** The carry loop over [bits.iter_mut().rev()]. *)
Fixpoint increment_rev (l : list Z) : bool * list Z :=
  match l with
  | [] => (false, [])
  | b :: l =>
      if b =? 0 then (true, 1 :: l)
      else let '(done, l) := increment_rev l in (done, 0 :: l)
  end.
Definition increment_bits (bits : list Z) : bool * list Z :=
  let '(done, l) := increment_rev (rev bits) in (done, rev l).

(** [Vec::resize(n, 0)]. *)
Definition resize (l : list Z) (n : Z) : list Z :=
  take (Z.to_nat n) l ++ vec 0 (n - zlen l).

(** The order of [(u8, u8)]. *)
Definition pair_le (l r : Z * Z) : Prop := fst l < fst r \/ (fst l = fst r /\ snd l <= snd r).
#[export] Instance pair_le_dec l r : Decision (pair_le l r).
Proof. unfold pair_le. apply _. Defined.

Definition code_order (lengths : list Z) : list (Z * Z) :=
  filter (fun e => fst e <> 0) (zip lengths (seqZ 0 (zlen lengths))).

Definition code_step (position : Z) (e : Z * Z) (st : list Code * list Z * Z)
  : eres (list Code * list Z * Z) :=
  let '(codes, current, previous_len) := st in
  let '(len, symbol) := e in
  let* current :=
    if negb (position =? 0) then
      let '(ok, current) := increment_bits current in
      if negb ok then Err InvalidHuffmanTable else
      if len <? previous_len then Err InvalidHuffmanTable else
      Ok (resize current len)
    else Ok current in
  let* codes := upd codes symbol (MkCode current) in
  Ok (codes, current, len).

Definition canonical_codes (lengths : list Z) : eres (list Code) :=
  let order := code_order lengths in
  if zlen order =? 0 then Err InvalidHuffmanTable else
  let order := merge_sort pair_le order in
  let codes := tabulate 256 (fun _ => MkCode []) in
  let* first := idx order 0 in
  let* (st, _) := for_enum 0 order code_step (codes, vec 0 (fst first), fst first) in
  Ok (fst st).

Definition is_some {A} (o : option A) : bool := match o with Some _ => true | None => false end.

Record TrieNode : Type := MkTrieNode {
  children : list Z;
  symbol : option Z }.

Definition empty_node : TrieNode := MkTrieNode [-1; -1] None.

(** One bit of a code of [n] bits. *)
Definition trie_bit (n sym position bit : Z) (st : list TrieNode * Z) : eres (list TrieNode * Z) :=
  let '(trie, node) := st in
  let* here := idx trie node in
  if is_some (symbol here) then Err InvalidHuffmanTable else
  if 1 <? bit then Err InvalidHuffmanTable else
  let* child := idx (children here) bit in
  let* (trie, node) :=
    if child <? 0 then
      let next := zlen trie in
      let* _ := ensure (next <=? 2147483647) LengthOverflow in
      let* kids := upd (children here) bit next in
      let* trie := upd trie node (MkTrieNode kids (symbol here)) in
      Ok (trie ++ [empty_node], next)
    else Ok (trie, child) in
  if position + 1 =? n then
    let* here := idx trie node in
    if is_some (symbol here) || negb (bool_decide (children here = [-1; -1]))
    then Err InvalidHuffmanTable
    else
      let* trie := upd trie node (MkTrieNode (children here) (Some sym)) in
      Ok (trie, node)
  else Ok (trie, node).

Definition trie_code (sym : Z) (code : Code) (trie : list TrieNode) : eres (list TrieNode) :=
  if zlen (bits code) =? 0 then Ok trie else
  let* (trie, _) := for_enum 0 (bits code) (trie_bit (zlen (bits code)) sym) (trie, 0) in
  Ok trie.

Definition build_trie (codes : list Code) : eres (list TrieNode) :=
  for_enum 0 codes trie_code [empty_node].

(** * Bit strings as numbers *)

Definition is_bit (b : Z) : Prop := b = 0 \/ b = 1.
Definition bval (l : list Z) : Z := foldl (fun v b => 2 * v + b) 0 l.

Lemma bval_snoc l b : bval (l ++ [b]) = 2 * bval l + b.
Proof. unfold bval. by rewrite foldl_app. Qed.

Lemma bval_bound l : Forall is_bit l -> 0 <= bval l < 2 ^ zlen l.
Proof.
  induction l as [|b l IH] using rev_ind; intros Hl; [done|].
  apply Forall_app in Hl as [Hl Hb]. apply Forall_inv in Hb. specialize (IH Hl).
  rewrite bval_snoc, zlen_app. change (zlen [b]) with 1. rewrite Z.pow_add_r by auto with rust lia.
  destruct Hb as [-> | ->]; lia.
Qed.

Lemma bval_zeros l n : 0 <= n -> bval (l ++ vec 0 n) = bval l * 2 ^ n.
Proof.
  intros Hn. revert n Hn. apply natlike_ind; [by rewrite app_nil_r; lia|].
  intros n Hn IH. replace (vec 0 (Z.succ n)) with (vec 0 n ++ [0]).
  - rewrite app_assoc, bval_snoc, IH, Z.pow_succ_r by done. lia.
  - unfold vec. replace (Z.to_nat (Z.succ n)) with (Z.to_nat n + 1)%nat by lia. by rewrite replicate_add.
Qed.

Lemma bval_take l k : Forall is_bit l -> 0 <= k <= zlen l -> bval (take (Z.to_nat k) l) = bval l / 2 ^ (zlen l - k).
Proof.
  induction l as [|b l IH] using rev_ind; intros Hl Hk.
  - rewrite take_nil. by rewrite Z.div_0_l by (apply Z.pow_nonzero; lia).
  - apply Forall_app in Hl as [Hl Hb]. apply Forall_inv in Hb. rewrite zlen_app in *. change (zlen [b]) with 1 in *.
    destruct (Z.eq_dec k (zlen l + 1)) as [->|Hne].
    + rewrite take_ge by (rewrite length_app; unfold zlen; simpl; lia). by rewrite Z.sub_diag, Z.div_1_r.
    + rewrite take_app_le by (unfold zlen in *; lia). rewrite IH by (done || lia). rewrite bval_snoc.
      replace (zlen l + 1 - k) with (Z.succ (zlen l - k)) by lia. rewrite Z.pow_succ_r by lia.
      rewrite <- Z.div_div by (try apply Z.pow_pos_nonneg; lia). f_equal. destruct Hb as [-> | ->]; Z.div_mod_to_equations; lia.
Qed.

Lemma bval_inj l k : Forall is_bit l -> Forall is_bit k -> zlen l = zlen k -> bval l = bval k -> l = k.
Proof.
  revert k. induction l as [|b l IH] using rev_ind; intros k Hl Hk Hlen Hv.
  - destruct k; [done|]. rewrite zlen_cons in Hlen. pose proof (zlen_nonneg k). change (zlen []) with 0 in Hlen. lia.
  - destruct k as [|c k _] using rev_ind; [rewrite zlen_app in Hlen; change (zlen []) with 0 in Hlen;
      change (zlen [b]) with 1 in Hlen; pose proof (zlen_nonneg l); lia|].
    apply Forall_app in Hl as [Hl Hb]. apply Forall_inv in Hb.
    apply Forall_app in Hk as [Hk Hc]. apply Forall_inv in Hc.
    rewrite !zlen_app in Hlen. change (zlen [b]) with 1 in Hlen. change (zlen [c]) with 1 in Hlen.
    rewrite !bval_snoc in Hv. assert (b = c) as -> by (destruct Hb, Hc; subst; lia).
    rewrite (IH k); try done; lia.
Qed.

(** The binary counter. *)
Lemma increment_bits_spec l :
  Forall is_bit l ->
  let '(ok, l') := increment_bits l in
  Forall is_bit l' /\ zlen l' = zlen l /\ ok = negb (bval l + 1 =? 2 ^ zlen l) /\
  (ok = true -> bval l' = bval l + 1).
Proof.
  unfold increment_bits. induction l as [|b l IH] using rev_ind; intros Hl.
  - cbn. split; [done|]. split; [done|]. split; [done|]. discriminate.
  - apply Forall_app in Hl as [Hl Hb]. apply Forall_inv in Hb. specialize (IH Hl).
    rewrite rev_app_distr. simpl rev. cbn [app increment_rev].
    rewrite bval_snoc, zlen_app. change (zlen [b]) with 1. pose proof (bval_bound l Hl) as Hv.
    rewrite Z.pow_add_r by auto with rust lia. change (2 ^ 1) with 2.
    destruct (Z.eqb_spec b 0) as [->|Hne].
    + cbn [rev]. rewrite rev_involutive. split; [apply Forall_app; split; [done|]; apply Forall_singleton; by right|].
      rewrite zlen_app. change (zlen [1]) with 1. split; [done|]. split; [symmetry; apply negb_true_iff; lia|].
      intros _. rewrite bval_snoc. lia.
    + destruct Hb as [->| ->]; [done|]. destruct (increment_rev (rev l)) as [ok l'].
      destruct IH as (H1 & H2 & H3 & H4). cbn [rev].
      split; [apply Forall_app; split; [done|]; apply Forall_singleton; by left|].
      rewrite zlen_app. change (zlen [0]) with 1. split; [lia|]. split; [rewrite H3; f_equal; lia|].
      intros Hok. rewrite bval_snoc, H4 by done. lia.
Qed.

(** * The canonical code of a sorted order *)

Lemma pow_split p q : 0 <= p <= q -> 2 ^ q = 2 ^ (q - p) * 2 ^ p.
Proof. intros H. rewrite <- Z.pow_add_r by lia. f_equal. lia. Qed.

Section canonical.
Variable ord : list (Z * Z).
Hypothesis ord_ok : Forall (fun e => 1 <= fst e <= 255 /\ 0 <= snd e < 256) ord.
Hypothesis ord_nodup : NoDup (snd <$> ord).
Hypothesis ord_sorted : forall i j e f, (i < j)%nat -> ord !! i = Some e -> ord !! j = Some f -> fst e <= fst f.

(** Kraft's sum of the first [i] codes. *)
Definition K (i : Z) : Z := zsum ((fun e => 2 ^ (255 - fst e)) <$> take (Z.to_nat i) ord).

Lemma K_S i len s : 0 <= i -> ord !! Z.to_nat i = Some (len, s) -> K (i + 1) = K i + 2 ^ (255 - len).
Proof.
  intros Hi He. unfold K. replace (Z.to_nat (i + 1)) with (S (Z.to_nat i)) by lia.
  rewrite (take_S_r _ _ _ He), fmap_app, zsum_app. simpl. lia.
Qed.

Lemma K_mono i j : 0 <= i <= j -> K i <= K j.
Proof.
  intros Hij. unfold K. rewrite !fmap_take. apply zsum_take_le; [|lia].
  apply Forall_fmap. eapply Forall_impl; [exact ord_ok|]. intros e He. simpl. apply Z.pow_nonneg. lia.
Qed.

(** What code [j] is: its value in units of [2^-255] is Kraft's sum before it. *)
Definition code_at (codes : list Code) (j : Z) : Prop :=
  forall len s, ord !! Z.to_nat j = Some (len, s) ->
  exists c, codes !! Z.to_nat s = Some (MkCode c) /\ zlen c = len /\ Forall is_bit c /\
    bval c * 2 ^ (255 - len) = K j.

Definition code_inv (i : Z) (st : list Code * list Z * Z) : Prop :=
  let '(codes, current, prev) := st in
  zlen codes = 256 /\ (forall j, 0 <= j < i -> code_at codes j) /\
  (forall s, 0 <= s < 256 -> s ∉ (snd <$> take (Z.to_nat i) ord) -> codes !! Z.to_nat s = Some (MkCode [])) /\
  zlen current = prev /\ Forall is_bit current /\
  (i = 0 -> forall len s, ord !! 0%nat = Some (len, s) -> current = vec 0 len) /\
  (0 < i -> K i <= 2 ^ 255 /\ exists s, ord !! Z.to_nat (i - 1) = Some (prev, s) /\
     bval current * 2 ^ (255 - prev) = K (i - 1)).

(** Recording the code computed at position [i]. *)
Lemma code_record i len s codes current prev current' :
  0 <= i -> ord !! Z.to_nat i = Some (len, s) -> code_inv i (codes, current, prev) ->
  zlen current' = len -> Forall is_bit current' -> bval current' * 2 ^ (255 - len) = K i ->
  K (i + 1) <= 2 ^ 255 /\
  exists st', (let* codes := upd codes s (MkCode current') in Ok (codes, current', len)) = (Ok st' : eres _) /\
    code_inv (i + 1) st'.
Proof.
  intros Hi He (Hl & Hat & Hno & _) Hl' Hb' Hv'.
  pose proof (Forall_lookup_1 _ _ _ _ ord_ok He) as [Hlen Hs]. simpl in Hlen, Hs.
  assert (HK : K (i + 1) <= 2 ^ 255).
  { rewrite (K_S i len s) by done. rewrite <- Hv'. pose proof (bval_bound _ Hb') as Hb2. rewrite Hl' in Hb2.
    rewrite (pow_split len 255) by lia. pose proof (Z.pow_pos_nonneg 2 (255 - len) ltac:(lia) ltac:(lia)). nia. }
  split; [done|]. rewrite upd_Ok by lia. eexists. split; [done|]. split; [by rewrite zlen_insert|].
  split; [|split; [|split; [done|split; [done|split; [lia|]]]]].
  - intros j Hj len1 s1 He1. destruct (Z.eq_dec j i) as [->|Hne].
    + rewrite He in He1. injection He1 as <- <-. exists current'. rewrite list_lookup_insert_eq by (unfold zlen in Hl; lia). done.
    + destruct (Hat j ltac:(lia) len1 s1 He1) as (c & Hc & Hrest). exists c. split; [|done].
      rewrite list_lookup_insert_ne; [done|]. intros Heq.
      pose proof (Forall_lookup_1 _ _ _ _ ord_ok He1) as [_ Hs1]. simpl in Hs1.
      assert (Hsnd : (snd <$> ord) !! Z.to_nat j = (snd <$> ord) !! Z.to_nat i).
      { rewrite !list_lookup_fmap, He, He1. simpl. f_equal. lia. }
      assert (Hin : (snd <$> ord) !! Z.to_nat i = Some s) by (by rewrite list_lookup_fmap, He).
      rewrite Hin in Hsnd. pose proof (NoDup_lookup _ _ _ _ ord_nodup Hsnd Hin). lia.
  - intros u Hu Hnot. replace (Z.to_nat (i + 1)) with (S (Z.to_nat i)) in Hnot by lia.
    rewrite (take_S_r _ _ _ He), fmap_app, not_elem_of_app in Hnot. simpl in Hnot. destruct Hnot as [Hn1 Hn2].
    rewrite not_elem_of_cons in Hn2. destruct Hn2 as [Hn2 _].
    rewrite list_lookup_insert_ne by lia. by apply Hno.
  - intros _. split; [done|]. exists s. rewrite Z.add_simpl_r. split; [done|]. done.
Qed.

Lemma code_step_ok i len s st :
  0 <= i -> ord !! Z.to_nat i = Some (len, s) -> code_inv i st ->
  if K (i + 1) <=? 2 ^ 255 then exists st', code_step i (len, s) st = Ok st' /\ code_inv (i + 1) st'
  else code_step i (len, s) st = Err InvalidHuffmanTable.
Proof.
  intros Hi He HI. destruct st as [[codes current] prev]. unfold code_step.
  pose proof (Forall_lookup_1 _ _ _ _ ord_ok He) as [Hlen Hs]. simpl in Hlen, Hs.
  pose proof HI as (Hl & Hat & Hno & Hcl & Hcb & H0 & H1).
  destruct (Z.eqb_spec i 0) as [->|Hne]; cbn [negb bind].
  - rewrite (H0 ltac:(done) len s He) in *.
    destruct (code_record 0 len s codes (vec 0 len) prev (vec 0 len)) as [HK Hrec]; try done.
    + rewrite zlen_vec. lia.
    + pose proof (bval_zeros [] len ltac:(lia)) as Hz. cbn [app] in Hz. by rewrite Hz.
    + apply Z.leb_le in HK as ->. exact Hrec.
  - destruct (H1 ltac:(lia)) as [HKi (s0 & He0 & Hv)].
    pose proof (Forall_lookup_1 _ _ _ _ ord_ok He0) as [Hprev _]. simpl in Hprev.
    assert (Hle : prev <= len) by (apply (ord_sorted (Z.to_nat (i - 1)) (Z.to_nat i) (prev, s0) (len, s)); done || lia).
    pose proof (K_S (i - 1) prev s0 ltac:(lia) He0) as HKS. rewrite Z.sub_add in HKS.
    pose proof (increment_bits_spec current Hcb) as Hinc.
    destruct (increment_bits current) as [ok current1]. destruct Hinc as (Hb1 & Hl1 & Hok & Hv1).
    rewrite Hok. rewrite Hcl. pose proof (Z.pow_pos_nonneg 2 (255 - prev) ltac:(lia) ltac:(lia)) as Hpp.
    destruct (Z.eqb_spec (bval current + 1) (2 ^ prev)) as [Hfull|Hroom]; cbn [negb bind].
    + replace (K (i + 1) <=? 2 ^ 255) with false; [done|]. symmetry. apply Z.leb_gt.
      rewrite (K_S i len s) by done. rewrite HKS, <- Hv. rewrite (pow_split prev 255) by lia.
      pose proof (Z.pow_pos_nonneg 2 (255 - len) ltac:(lia) ltac:(lia)). nia.
    + replace (len <? prev) with false by lia. cbn [bind].
      assert (Hres : resize current1 len = current1 ++ vec 0 (len - prev)).
      { unfold resize. rewrite take_ge by (unfold zlen in *; lia). do 2 f_equal. lia. }
      destruct (code_record i len s codes current prev (resize current1 len)) as [HK Hrec]; try done.
      * rewrite Hres, zlen_app, zlen_vec. lia.
      * rewrite Hres. apply Forall_app. split; [done|]. apply Forall_replicate. by left.
      * assert (Hokt : ok = true) by (rewrite Hok, Hcl; by apply negb_true_iff, Z.eqb_neq).
        rewrite Hres, bval_zeros, (Hv1 Hokt), HKS, <- Hv by lia.
        rewrite <- Z.mul_assoc, <- Z.pow_add_r by lia. replace (len - prev + (255 - len)) with (255 - prev) by lia. lia.
      * apply Z.leb_le in HK as ->. exact Hrec.
Qed.

Lemma forallb_K n : 0 < n -> forallb (fun i => K (i + 1) <=? 2 ^ 255) (seqZ 0 n) = (K n <=? 2 ^ 255).
Proof.
  intros Hn. destruct (Z.leb_spec (K n) (2 ^ 255)) as [Hle|Hgt].
  - apply forallb_seqZ. intros i Hi. apply Z.leb_le. etrans; [apply (K_mono (i + 1) n)|]; [lia|done].
  - apply forallb_seqZ_false. exists (n - 1). split; [lia|]. rewrite Z.sub_add. apply Z.leb_gt. lia.
Qed.

Lemma code_loop_ok len0 s0 :
  ord !! 0%nat = Some (len0, s0) ->
  if K (zlen ord) <=? 2 ^ 255 then
    exists st, for_enum 0 ord code_step (tabulate 256 (fun _ => MkCode []), vec 0 len0, len0) = Ok st /\
      code_inv (zlen ord) st
  else for_enum 0 ord code_step (tabulate 256 (fun _ => MkCode []), vec 0 len0, len0) = Err InvalidHuffmanTable.
Proof.
  intros H0. assert (Hpos : 0 < zlen ord) by (apply lookup_lt_Some in H0; unfold zlen; lia).
  pose proof (Forall_lookup_1 _ _ _ _ ord_ok H0) as [Hlen0 _]. simpl in Hlen0.
  rewrite <- (forallb_K (zlen ord)) by done. apply (for_enum_err code_inv _ InvalidHuffmanTable code_step ord 0).
  - split; [done|]. split; [lia|]. split; [intros s Hs _; by rewrite lookup_tabulate by lia|].
    split; [rewrite zlen_vec; lia|]. split; [apply Forall_replicate; by left|]. split; [|lia].
    intros _ len s He. rewrite H0 in He. by injection He as <- <-.
  - intros i [len s] st Hi He HI. rewrite Z.sub_0_r in He. by apply code_step_ok.
Qed.

Definition prefix_free (codes : list Code) : Prop :=
  forall s t c d, s <> t -> codes !! s = Some (MkCode c) -> codes !! t = Some (MkCode d) ->
    c <> [] -> d <> [] -> ~ prefix c d.

Lemma code_positions codes i j len1 s1 c len2 s2 d :
  0 <= i -> 0 <= j -> i <> j -> code_at codes i -> code_at codes j ->
  ord !! Z.to_nat i = Some (len1, s1) -> ord !! Z.to_nat j = Some (len2, s2) ->
  codes !! Z.to_nat s1 = Some (MkCode c) -> codes !! Z.to_nat s2 = Some (MkCode d) -> ~ prefix c d.
Proof.
  intros Hi Hj Hne Hci Hcj He1 He2 Hc Hd [rest ->].
  destruct (Hci _ _ He1) as (c' & Hc' & Hl1 & Hb1 & Hv1). rewrite Hc in Hc'. injection Hc' as <-.
  destruct (Hcj _ _ He2) as (d' & Hd' & Hl2 & Hb2 & Hv2). rewrite Hd in Hd'. injection Hd' as <-.
  pose proof (Forall_lookup_1 _ _ _ _ ord_ok He1) as [Hlen1 _]. pose proof (Forall_lookup_1 _ _ _ _ ord_ok He2) as [Hlen2 _].
  simpl in Hlen1, Hlen2. rewrite zlen_app in Hl2. pose proof (zlen_nonneg rest) as Hrest.
  pose proof (bval_take (c ++ rest) len1 Hb2 ltac:(rewrite zlen_app; lia)) as Ht.
  replace (take (Z.to_nat len1) (c ++ rest)) with c in Ht
    by (symmetry; rewrite <- Hl1; unfold zlen; by rewrite Nat2Z.id, take_app_length).
  rewrite zlen_app, Hl2 in Ht. set (v := bval (c ++ rest)) in *.
  assert (Hp : 2 ^ (255 - len1) = 2 ^ (255 - len2) * 2 ^ (len2 - len1)) by (rewrite <- Z.pow_add_r by lia; f_equal; lia).
  pose proof (Z.pow_pos_nonneg 2 (255 - len2) ltac:(lia) ltac:(lia)) as Hp2.
  pose proof (Z.pow_pos_nonneg 2 (len2 - len1) ltac:(lia) ltac:(lia)) as Hp1.
  assert (Hvb : bval c * 2 ^ (len2 - len1) <= v < (bval c + 1) * 2 ^ (len2 - len1)).
  { rewrite Ht. set (w := 2 ^ (len2 - len1)) in *. pose proof (Z.div_mod v w ltac:(lia)).
    pose proof (Z.mod_pos_bound v w Hp1). nia. }
  destruct (Z.lt_total i j) as [Hij|[|Hij]]; [|done|].
  - pose proof (K_S i len1 s1 Hi He1) as HS. pose proof (K_mono (i + 1) j ltac:(lia)). nia.
  - pose proof (K_S j len2 s2 Hj He2) as HS. pose proof (K_mono (j + 1) i ltac:(lia)).
    assert (len2 <= len1) by (apply (ord_sorted (Z.to_nat j) (Z.to_nat i) (len2, s2) (len1, s1)); done || lia).
    replace len1 with len2 in * by lia. rewrite Z.sub_diag in *. change (2 ^ 0) with 1 in *. nia.
Qed.

Lemma codes_prefix_free codes current prev : code_inv (zlen ord) (codes, current, prev) -> prefix_free codes.
Proof.
  intros (Hl & Hat & Hno & _) s t c d Hst Hc Hd Hc0 Hd0.
  assert (Hpos : forall u e, codes !! u = Some (MkCode e) -> e <> [] ->
    exists i len, 0 <= i < zlen ord /\ ord !! Z.to_nat i = Some (len, Z.of_nat u)).
  { intros u e Hu He0. pose proof (lookup_lt_Some _ _ _ Hu) as Hlt. unfold zlen in Hl.
    destruct (decide (Z.of_nat u ∈ (snd <$> ord))) as [Hin|Hnin].
    - apply list_elem_of_fmap in Hin as ([len u'] & Heq & Hin). simpl in Heq. subst u'.
      apply list_elem_of_lookup in Hin as [i Hi]. exists (Z.of_nat i), len. rewrite Nat2Z.id. split; [|done].
      apply lookup_lt_Some in Hi. unfold zlen. lia.
    - specialize (Hno (Z.of_nat u) ltac:(lia)). rewrite take_ge in Hno by (unfold zlen; lia).
      specialize (Hno Hnin). rewrite Nat2Z.id, Hu in Hno. congruence. }
  destruct (Hpos s c Hc Hc0) as (i & len1 & Hi & He1). destruct (Hpos t d Hd Hd0) as (j & len2 & Hj & He2).
  eapply (code_positions codes i j); try done; rewrite ?Nat2Z.id; try done; [lia|lia| |apply Hat; lia|apply Hat; lia].
  intros ->. rewrite He1 in He2. injection He2. lia.
Qed.
End canonical.

(** * Length tables *)

#[export] Instance pair_le_total : Total pair_le.
Proof. intros [a b] [c d]. unfold pair_le. simpl. lia. Qed.
#[export] Instance pair_le_trans : Transitive pair_le.
Proof. intros [a b] [c d] [e f]. unfold pair_le. simpl. lia. Qed.

Lemma StronglySorted_lookup {A} (R : relation A) l : StronglySorted R l ->
  forall i j x y, (i < j)%nat -> l !! i = Some x -> l !! j = Some y -> R x y.
Proof.
  induction 1 as [|a l Hs IH Ha]; intros [|i] [|j] x y Hij Hx Hy; try done; try lia; simpl in *.
  - injection Hx as ->. rewrite Forall_forall in Ha. apply Ha. by eapply list_elem_of_lookup_2.
  - apply (IH i j); [lia|done..].
Qed.

Definition pairs (k : Z) (lengths : list Z) : list (Z * Z) :=
  filter (fun e => fst e <> 0) (zip lengths (seqZ k (zlen lengths))).

Lemma pairs_cons k len l :
  pairs k (len :: l) = (if len =? 0 then [] else [(len, k)]) ++ pairs (Z.succ k) l.
Proof.
  unfold pairs. rewrite zlen_cons, seqZ_cons by (pose proof (zlen_nonneg l); lia).
  replace (Z.pred (1 + zlen l)) with (zlen l) by lia. cbn [zip zip_with]. rewrite list.filter_cons.
  destruct (Z.eqb_spec len 0) as [->|Hne]; [by rewrite decide_False by (simpl; lia)|by rewrite decide_True].
Qed.

Lemma pairs_elem lengths : forall k len s,
  (len, s) ∈ pairs k lengths <-> k <= s /\ lengths !! Z.to_nat (s - k) = Some len /\ len <> 0.
Proof.
  induction lengths as [|l0 l IH]; intros k len s.
  - split; [intros H; by apply not_elem_of_nil in H|]. intros (_ & H & _). done.
  - rewrite pairs_cons, elem_of_app, IH. split.
    + intros [H|(H1 & H2 & H3)].
      * destruct (Z.eqb_spec l0 0); [by apply not_elem_of_nil in H|]. apply list_elem_of_singleton in H.
        injection H as -> ->. rewrite Z.sub_diag. split; [lia|done].
      * split; [lia|]. replace (Z.to_nat (s - k)) with (S (Z.to_nat (s - Z.succ k))) by lia. done.
    + intros (H1 & H2 & H3). destruct (Z.eq_dec s k) as [->|Hne].
      * rewrite Z.sub_diag in H2. injection H2 as ->. left. replace (len =? 0) with false by lia. by left.
      * right. split; [lia|]. replace (Z.to_nat (s - k)) with (S (Z.to_nat (s - Z.succ k))) in H2 by lia. done.
Qed.

Lemma pairs_nodup lengths : forall k, NoDup (snd <$> pairs k lengths).
Proof.
  induction lengths as [|l0 l IH]; intros k; [constructor|]. rewrite pairs_cons.
  destruct (Z.eqb_spec l0 0); [apply IH|]. cbn [app]. rewrite fmap_cons. constructor; [|apply IH].
  intros ([len s] & Heq & Hin)%list_elem_of_fmap. simpl in Heq. subst s. apply pairs_elem in Hin. lia.
Qed.

Lemma pairs_kraft lengths : forall k, zsum ((fun e => 2 ^ (255 - fst e)) <$> pairs k lengths) = kraft lengths.
Proof.
  unfold kraft. induction lengths as [|l0 l IH]; intros k; [done|]. rewrite pairs_cons, fmap_app, zsum_app, IH.
  rewrite fmap_cons. cbn [zsum foldr]. unfold kraft_term at 2. fold (zsum (kraft_term <$> l)).
  destruct (l0 =? 0); simpl; lia.
Qed.

(** The sorted order of a table. *)
Lemma sorted_order_ok lengths (ord := merge_sort pair_le (pairs 0 lengths)) :
  table_ok lengths ->
  Forall (fun e => 1 <= fst e <= 255 /\ 0 <= snd e < 256) ord /\ NoDup (snd <$> ord) /\
  (forall i j e f, (i < j)%nat -> ord !! i = Some e -> ord !! j = Some f -> fst e <= fst f) /\
  K ord (zlen ord) = kraft lengths /\ zlen (pairs 0 lengths) = zlen ord.
Proof.
  intros [Hl Hf].
  assert (Hperm : Permutation ord (pairs 0 lengths)) by apply merge_sort_Permutation.
  split; [|split; [|split; [|split]]].
  - rewrite Hperm. apply Forall_forall. intros [len s] Hin. apply pairs_elem in Hin as (H1 & H2 & H3).
    rewrite Z.sub_0_r in H2. pose proof (lookup_Z_lt _ _ _ H1 H2).
    apply (Forall_lookup_1 _ _ _ _ Hf) in H2. simpl in *. lia.
  - rewrite Hperm. apply pairs_nodup.
  - intros i j e f Hij He Hf'. assert (pair_le e f) as [|[]]; [|lia..].
    eapply (StronglySorted_lookup pair_le ord); eauto. apply (StronglySorted_merge_sort _).
  - unfold K. rewrite take_ge by (unfold zlen; lia). rewrite <- (pairs_kraft lengths 0).
    apply zsum_Permutation. by rewrite Hperm.
  - unfold zlen. by rewrite Hperm.
Qed.

(** [canonical_codes] on any table: it accepts exactly the nonempty tables
    within Kraft's inequality; the codes have the declared lengths and none is a
    prefix of another. *)
Lemma canonical_codes_spec lengths :
  table_ok lengths ->
  if (0 <? kraft lengths) && (kraft lengths <=? 2 ^ 255) then
    exists codes, canonical_codes lengths = Ok codes /\ zlen codes = 256 /\ prefix_free codes /\
      forall s, 0 <= s < 256 -> exists c, codes !! Z.to_nat s = Some (MkCode c) /\
        zlen c = bget lengths s /\ Forall is_bit c
  else canonical_codes lengths = Err InvalidHuffmanTable.
Proof.
  intros Ht. pose proof Ht as [Hl Hf]. unfold canonical_codes. change (code_order lengths) with (pairs 0 lengths).
  destruct (sorted_order_ok lengths Ht) as (Hok & Hnd & Hsort & HK & Hlen).
  pose proof (merge_sort_Permutation pair_le (pairs 0 lengths)) as Hperm.
  set (ord := merge_sort pair_le (pairs 0 lengths)) in *. rewrite Hlen.
  destruct ord as [|[len0 s0] ord'] eqn:Hord.
  { rewrite <- HK. done. }
  rewrite <- Hord in *. assert (He0 : ord !! 0%nat = Some (len0, s0)) by (by rewrite Hord).
  assert (Hpos : 0 < zlen ord) by (rewrite Hord, zlen_cons; pose proof (zlen_nonneg ord'); lia).
  replace (zlen ord =? 0) with false by lia. rewrite (idx_Ok ord 0 (len0, s0)) by done. cbn [bind fst].
  assert (HK0 : 0 < kraft lengths).
  { rewrite <- HK. pose proof (K_S ord 0 len0 s0 ltac:(lia) He0) as HS. change (K ord 0) with 0 in HS.
    pose proof (K_mono ord Hok (0 + 1) (zlen ord) ltac:(lia)). apply (Forall_lookup_1 _ _ _ _ Hok) in He0 as [? _]. simpl in *.
    pose proof (Z.pow_pos_nonneg 2 (255 - len0) ltac:(lia) ltac:(lia)). lia. }
  replace (0 <? kraft lengths) with true by lia. cbn [andb]. rewrite <- HK.
  pose proof (code_loop_ok ord Hok Hnd Hsort len0 s0 He0) as Hloop.
  destruct (K ord (zlen ord) <=? 2 ^ 255); [|by rewrite Hloop].
  destruct Hloop as ([[codes current] prev] & -> & HI). cbn [bind fst]. exists codes. split; [done|].
  pose proof HI as (Hcl & Hat & Hno & _). split; [done|]. split; [by eapply codes_prefix_free|].
  intros s Hs. destruct (lookup_Z lengths s ltac:(lia)) as [len Hlen1].
  assert (Hb : bget lengths s = len) by (unfold bget; by rewrite Hlen1).
  destruct (decide (len = 0)) as [->|Hne].
  - exists []. split; [|split; [by rewrite Hb|constructor]]. apply Hno; [done|].
    rewrite take_ge by (unfold zlen; lia). rewrite Hperm.
    intros ([len s'] & Heq & Hin)%list_elem_of_fmap. simpl in Heq. subst s'.
    apply pairs_elem in Hin as (_ & H2 & H3). rewrite Z.sub_0_r in H2. congruence.
  - assert (Hin : (len, s) ∈ ord) by (rewrite Hperm; apply pairs_elem; rewrite Z.sub_0_r; split; [lia|done]).
    apply list_elem_of_lookup in Hin as [i Hi]. pose proof (lookup_lt_Some _ _ _ Hi).
    destruct (Hat (Z.of_nat i) ltac:(unfold zlen; lia) len s) as (c & Hc & Hcl1 & Hcb & _); [by rewrite Nat2Z.id|].
    exists c. by rewrite Hb.
Qed.

(** * The decoding trie *)

(** The path from the root to every node, the inserted codes, and the part of
    the current code already walked. *)
Definition link (paths : list (list Z)) (p : list Z) (bit a : Z) : Prop :=
  (a = -1 /\ p ++ [bit] ∉ paths) \/ (0 <= a /\ paths !! Z.to_nat a = Some (p ++ [bit])).

Definition node_ok (ins : list (Z * list Z)) (paths : list (list Z)) (p : list Z) (node : TrieNode) : Prop :=
  length (children node) = 2%nat /\
  (forall bit, is_bit bit -> exists a, children node !! Z.to_nat bit = Some a /\ link paths p bit a) /\
  (forall s, symbol node = Some s <-> (s, p) ∈ ins).

Record trie_inv (cur : list Z) (ins : list (Z * list Z)) (paths : list (list Z)) (trie : list TrieNode) : Prop := {
  ti_nodes : Forall2 (node_ok ins paths) paths trie;
  ti_root : paths !! 0%nat = Some [];
  ti_nodup : NoDup paths;
  ti_closed : forall p b, p ++ [b] ∈ paths -> p ∈ paths;
  ti_ins : forall s c, (s, c) ∈ ins -> c ∈ paths;
  ti_prefix : forall p, p ∈ paths -> prefix p cur \/ exists s c, (s, c) ∈ ins /\ prefix p c }.

Lemma ti_length cur ins paths trie : trie_inv cur ins paths trie -> zlen trie = zlen paths.
Proof. intros H. unfold zlen. by rewrite (Forall2_length _ _ _ (ti_nodes _ _ _ _ H)). Qed.

Lemma trie_inv_start : trie_inv [] [] [[]] [empty_node].
Proof.
  split; try done.
  - constructor; [|constructor]. split; [done|]. split.
    + intros bit Hb. exists (-1). split; [by destruct Hb as [-> | ->]|]. left. split; [done|].
      intros Hin. apply list_elem_of_singleton in Hin. by destruct bit.
    + intros s. split; [done|]. intros Hin. by apply not_elem_of_nil in Hin.
  - constructor; [apply not_elem_of_nil|constructor].
  - intros p b Hin. apply list_elem_of_singleton in Hin. by destruct p.
  - intros s c Hin. by apply not_elem_of_nil in Hin.
  - intros p Hin. apply list_elem_of_singleton in Hin as ->. by left.
Qed.

(** Following a child link that exists. *)
Lemma trie_follow cur ins paths trie p bit a :
  trie_inv cur ins paths trie -> 0 <= a -> paths !! Z.to_nat a = Some (p ++ [bit]) ->
  prefix cur p -> trie_inv (p ++ [bit]) ins paths trie.
Proof.
  intros [H1 H2 H3 H4 H5 H6] Ha Hp Hcur. split; try done. intros q Hq.
  destruct (H6 q Hq) as [Hpre|?]; [|by right]. left. etrans; [exact Hpre|]. etrans; [exact Hcur|]. by exists [bit].
Qed.

Lemma snoc_inj (p q : list Z) a b : p ++ [a] = q ++ [b] -> p = q /\ a = b.
Proof. intros H. apply app_inj_tail in H. done. Qed.

Lemma link_grow paths new p b a : link paths p b a -> p ++ [b] <> new -> link (paths ++ [new]) p b a.
Proof.
  intros [[-> Hn]|[Ha Hl]] Hne; [left|right; split; [done|by apply lookup_app_l_Some]].
  split; [done|]. rewrite not_elem_of_app. split; [done|]. by intros Heq%list_elem_of_singleton.
Qed.

(** Growing a new leaf below node [n], whose path is [p]. *)
Lemma trie_grow ins paths trie p n here bit kids :
  trie_inv p ins paths trie -> paths !! n = Some p -> trie !! n = Some here -> is_bit bit ->
  p ++ [bit] ∉ paths -> kids = <[Z.to_nat bit := zlen trie]> (children here) ->
  trie_inv (p ++ [bit]) ins (paths ++ [p ++ [bit]])
    (<[n := MkTrieNode kids (symbol here)]> trie ++ [empty_node]).
Proof.
  intros HI Hp Hh Hbit Hnew Hk. pose proof (ti_length _ _ _ _ HI) as Hlen. destruct HI as [H1 H2 H3 H4 H5 H6].
  assert (Hpin : p ∈ paths) by (by eapply list_elem_of_lookup_2).
  split.
  - apply Forall2_app; [|constructor; [|constructor]].
    + apply Forall2_same_length_lookup. split; [rewrite length_insert; by apply (Forall2_length _ _ _ H1)|].
      intros m q node Hq Hnode. destruct (decide (m = n)) as [->|Hne].
      * rewrite list_lookup_insert_eq in Hnode by (by eapply lookup_lt_Some). injection Hnode as <-.
        rewrite Hp in Hq. injection Hq as <-. destruct (Forall2_lookup_lr _ _ _ _ _ _ H1 Hp Hh) as (Hc2 & Hcl & Hsym).
        split; [simpl; rewrite Hk; by rewrite length_insert|]. split; [|done].
        intros b Hb. simpl. rewrite Hk. destruct (decide (b = bit)) as [->|Hnb].
        -- exists (zlen trie). rewrite list_lookup_insert_eq by (rewrite Hc2; destruct Hbit as [->| ->]; simpl; lia).
           split; [done|]. right. split; [auto with rust|]. rewrite Hlen, lookup_app_r by (unfold zlen; lia).
           by replace (Z.to_nat (zlen paths) - length paths)%nat with 0%nat by (unfold zlen; lia).
        -- destruct (Hcl b Hb) as (a & Ha & Hl). exists a. rewrite list_lookup_insert_ne
             by (destruct Hb as [->| ->], Hbit as [->| ->]; simpl; lia || done).
           split; [done|]. apply link_grow; [done|]. by intros [_ ?]%snoc_inj.
      * rewrite list_lookup_insert_ne in Hnode by done.
        destruct (Forall2_lookup_lr _ _ _ _ _ _ H1 Hq Hnode) as (Hc2 & Hcl & Hsym). split; [done|]. split; [|done].
        intros b Hb. destruct (Hcl b Hb) as (a & Ha & Hl). exists a. split; [done|].
        apply link_grow; [done|]. intros [-> _]%snoc_inj. apply Hne. by eapply NoDup_lookup.
    + split; [done|]. split.
      * intros b Hb. exists (-1). split; [by destruct Hb as [-> | ->]|]. left. split; [done|].
        rewrite not_elem_of_app. split; [intros Hin; apply Hnew; by eapply H4|].
        intros Heq%list_elem_of_singleton. apply (f_equal length) in Heq. rewrite !length_app in Heq. simpl in Heq. lia.
      * intros s. split; [done|]. intros Hin. destruct Hnew. by eapply H5.
  - by apply lookup_app_l_Some.
  - apply NoDup_app. split; [done|]. split; [|apply NoDup_singleton]. intros q Hq Heq%list_elem_of_singleton. by subst.
  - intros q b Hin. apply elem_of_app in Hin as [Hin|Heq%list_elem_of_singleton]; apply elem_of_app; left; [by eapply H4|].
    by apply snoc_inj in Heq as [-> _].
  - intros s c Hin. apply elem_of_app. left. by eapply H5.
  - intros q Hin. apply elem_of_app in Hin as [Hin| ->%list_elem_of_singleton]; [|by left].
    destruct (H6 q Hin) as [Hpre|?]; [|by right]. left. etrans; [exact Hpre|]. by exists [bit].
Qed.

Lemma trie_mark s c ins paths trie n here :
  trie_inv c ins paths trie -> paths !! n = Some c -> trie !! n = Some here -> symbol here = None ->
  trie_inv [] ((s, c) :: ins) paths (<[n := MkTrieNode (children here) (Some s)]> trie).
Proof.
  intros [H1 H2 H3 H4 H5 H6] Hp Hh Hnone. split; try done.
  - apply Forall2_same_length_lookup. split; [rewrite length_insert; by apply (Forall2_length _ _ _ H1)|].
    intros m q node Hq Hnode. destruct (decide (m = n)) as [->|Hne].
    + rewrite list_lookup_insert_eq in Hnode by (by eapply lookup_lt_Some). injection Hnode as <-.
      rewrite Hp in Hq. injection Hq as <-. destruct (Forall2_lookup_lr _ _ _ _ _ _ H1 Hp Hh) as (Hc2 & Hcl & Hsym).
      split; [done|]. split; [done|]. intros u. simpl. rewrite elem_of_cons. split; [intros [= ->]; by left|].
      intros [[= ->]|Hin]; [done|]. apply Hsym in Hin. congruence.
    + rewrite list_lookup_insert_ne in Hnode by done.
      destruct (Forall2_lookup_lr _ _ _ _ _ _ H1 Hq Hnode) as (Hc2 & Hcl & Hsym). split; [done|]. split; [done|].
      intros u. rewrite elem_of_cons, Hsym. split; [by right|]. intros [[= -> ->]|]; [|done].
      destruct Hne. by eapply NoDup_lookup.
  - intros u d. rewrite elem_of_cons. intros [[= -> ->]|Hin]; [by eapply list_elem_of_lookup_2|by eapply H5].
  - intros q Hq. right. destruct (H6 q Hq) as [Hpre|(u & d & Hin & Hpre)]; [exists s, c|exists u, d];
      rewrite elem_of_cons; auto.
Qed.

Section insert.
Variables (s : Z) (c : list Z) (ins : list (Z * list Z)).
Hypothesis c_bits : Forall is_bit c.
Hypothesis c_free : forall s' c', (s', c') ∈ ins -> ~ prefix c' c /\ ~ prefix c c'.

Lemma symbol_none paths trie i n here :
  trie_inv (take (Z.to_nat i) c) ins paths trie -> paths !! n = Some (take (Z.to_nat i) c) ->
  trie !! n = Some here -> symbol here = None.
Proof.
  intros HI Hp Hh. destruct (Forall2_lookup_lr _ _ _ _ _ _ (ti_nodes _ _ _ _ HI) Hp Hh) as (_ & _ & Hsym).
  destruct (symbol here) as [u|] eqn:Hu; [|done]. destruct (c_free _ _ (proj1 (Hsym u) eq_refl)) as [Hf _].
  destruct Hf. apply prefix_take.
Qed.

(** The node reached by the whole code has no children yet. *)
Lemma children_none paths trie n here :
  trie_inv c ins paths trie -> paths !! n = Some c -> trie !! n = Some here -> children here = [-1; -1].
Proof.
  intros HI Hp Hh. destruct (Forall2_lookup_lr _ _ _ _ _ _ (ti_nodes _ _ _ _ HI) Hp Hh) as (Hc2 & Hcl & _).
  assert (Hneg : forall b, is_bit b -> children here !! Z.to_nat b = Some (-1)).
  { intros b Hb. destruct (Hcl b Hb) as (a & Ha & [[-> _]|[_ Hl]]); [done|]. exfalso.
    apply list_elem_of_lookup_2 in Hl. destruct (ti_prefix _ _ _ _ HI _ Hl) as [Hpre|(u & d & Hin & Hpre)].
    - apply prefix_length in Hpre. rewrite length_app in Hpre. simpl in Hpre. lia.
    - destruct (c_free u d Hin) as [_ Hf]. apply Hf. etrans; [|exact Hpre]. by exists [b]. }
  pose proof (Hneg 0 (or_introl eq_refl)) as Hn0. pose proof (Hneg 1 (or_intror eq_refl)) as Hn1.
  destruct (children here) as [|x [|y [|]]]; try done. simpl in *. congruence.
Qed.

Definition insert_inv (size i : Z) (st : list TrieNode * Z) : Prop :=
  let '(trie, node) := st in
  0 <= node /\ zlen trie <= size + i /\
  exists paths, paths !! Z.to_nat node = Some (take (Z.to_nat i) c) /\
    (i < zlen c -> trie_inv (take (Z.to_nat i) c) ins paths trie) /\
    (i = zlen c -> trie_inv [] ((s, c) :: ins) paths trie).

(** The last bit marks the node; the others leave the trie as it is. *)
Lemma trie_finish size i trie node paths :
  0 <= i < zlen c -> 0 <= node -> zlen trie <= size + (i + 1) ->
  paths !! Z.to_nat node = Some (take (Z.to_nat (i + 1)) c) ->
  trie_inv (take (Z.to_nat (i + 1)) c) ins paths trie ->
  exists st, (if i + 1 =? zlen c then
      let* here := idx trie node in
      if is_some (symbol here) || negb (bool_decide (children here = [-1; -1])) then Err InvalidHuffmanTable
      else let* trie := upd trie node (MkTrieNode (children here) (Some s)) in Ok (trie, node)
    else Ok (trie, node)) = Ok st /\ insert_inv size (i + 1) st.
Proof.
  intros Hi Hn Hsz Hp HI. destruct (Z.eqb_spec (i + 1) (zlen c)) as [He|Hne].
  - destruct (Forall2_lookup_l _ _ _ _ _ (ti_nodes _ _ _ _ HI) Hp) as (here & Hh & _).
    rewrite (idx_Ok trie node here) by (done || lia). cbn [bind].
    rewrite (symbol_none _ _ _ _ _ HI Hp Hh). cbn [is_some orb].
    assert (Htk : take (Z.to_nat (i + 1)) c = c) by (rewrite He; unfold zlen; rewrite Nat2Z.id; by apply take_ge).
    pose proof Hp as Hp'. rewrite Htk in Hp', HI. rewrite (children_none _ _ _ _ HI Hp' Hh).
    rewrite bool_decide_true by done. cbn [negb]. rewrite upd_Ok by (split; [done|]; apply lookup_lt_Some in Hh; unfold zlen; lia).
    cbn [bind]. eexists. split; [done|]. split; [done|]. split; [rewrite zlen_insert; lia|].
    exists paths. split; [done|]. split; [lia|]. intros _. rewrite <- (children_none _ _ _ _ HI Hp' Hh).
    apply (trie_mark s c ins paths trie _ here); try done. rewrite <- Htk in HI. by eapply symbol_none.
  - eexists. split; [done|]. split; [done|]. split; [lia|]. exists paths. split; [done|]. split; [done|lia].
Qed.

Lemma trie_bit_ok size i bit st :
  0 <= i -> c !! Z.to_nat i = Some bit -> size + zlen c <= 2147483647 -> insert_inv size i st ->
  exists st', trie_bit (zlen c) s i bit st = Ok st' /\ insert_inv size (i + 1) st'.
Proof.
  intros Hi Hb Hsz. destruct st as [trie node]. intros (Hn & Hl & paths & Hp & HI & _).
  pose proof (lookup_Z_lt _ _ _ Hi Hb) as Hic. specialize (HI ltac:(lia)).
  pose proof (Forall_lookup_1 _ _ _ _ c_bits Hb) as Hbit.
  destruct (Forall2_lookup_l _ _ _ _ _ (ti_nodes _ _ _ _ HI) Hp) as (here & Hh & Hc2 & Hcl & _).
  unfold trie_bit. rewrite (idx_Ok trie node here) by (done || lia). cbn [bind].
  rewrite (symbol_none _ _ _ _ _ HI Hp Hh). cbn [is_some].
  replace (1 <? bit) with false by (destruct Hbit; lia). destruct (Hcl bit Hbit) as (a & Ha & Hlink).
  rewrite (idx_Ok (children here) bit a) by (done || (destruct Hbit; lia)). cbn [bind].
  assert (Htk : take (Z.to_nat (i + 1)) c = take (Z.to_nat i) c ++ [bit])
    by (replace (Z.to_nat (i + 1)) with (S (Z.to_nat i)) by lia; by apply take_S_r).
  destruct Hlink as [[-> Hnew]|[Ha0 Hlk]].
  - change (-1 <? 0) with true. cbn iota. unfold ensure. replace (zlen trie <=? 2147483647) with true by lia. cbn [bind].
    rewrite upd_Ok by (unfold zlen; rewrite Hc2; destruct Hbit; lia). cbn [bind].
    rewrite upd_Ok by (split; [done|]; apply lookup_lt_Some in Hh; unfold zlen; lia). cbn [bind].
    assert (Hsym := symbol_none _ _ _ _ _ HI Hp Hh). rewrite <- Hsym.
    apply (trie_finish size i _ _ (paths ++ [take (Z.to_nat i) c ++ [bit]])); [lia|auto with rust| | |].
    + rewrite zlen_app, zlen_insert. change (zlen [empty_node]) with 1. lia.
    + rewrite Htk, (ti_length _ _ _ _ HI), lookup_app_r by (unfold zlen; lia).
      by replace (Z.to_nat (zlen paths) - length paths)%nat with 0%nat by (unfold zlen; lia).
    + rewrite Htk. by apply trie_grow.
  - replace (a <? 0) with false by lia. cbn [bind]. apply (trie_finish size i _ _ paths); try done; [lia|by rewrite Htk|].
    rewrite Htk. by eapply trie_follow.
Qed.

Lemma trie_code_ok paths trie :
  c <> [] -> trie_inv [] ins paths trie -> zlen trie + zlen c <= 2147483647 ->
  exists paths' trie', trie_code s (MkCode c) trie = Ok trie' /\ trie_inv [] ((s, c) :: ins) paths' trie' /\
    zlen trie' <= zlen trie + zlen c.
Proof.
  intros Hne HI Hsz. unfold trie_code. simpl bits.
  assert (Hpos : 0 < zlen c) by (destruct c; [done|rewrite zlen_cons; pose proof (zlen_nonneg l); lia]).
  replace (zlen c =? 0) with false by lia.
  destruct (for_enum_inv (insert_inv (zlen trie)) (trie_bit (zlen c) s) c 0 (trie, 0)) as ([trie' node] & -> & Hfin).
  - split; [done|]. split; [lia|]. exists paths. split; [apply (ti_root _ _ _ _ HI)|]. split; [done|lia].
  - intros i bit st Hi Hb HIi. rewrite Z.sub_0_r in Hb. by apply trie_bit_ok.
  - cbn [bind]. destruct Hfin as (_ & Hz & paths' & _ & _ & HI'). exists paths', trie'. split; [done|]. split; [by apply HI'|lia].
Qed.
End insert.

(** What [build_trie] returns: a trie whose marked paths are exactly the codes. *)
Definition trie_of (codes : list Code) (paths : list (list Z)) (trie : list TrieNode) : Prop :=
  exists ins, trie_inv [] ins paths trie /\
    forall s c, (s, c) ∈ ins <-> 0 <= s /\ codes !! Z.to_nat s = Some (MkCode c) /\ c <> [].

Lemma build_trie_ok codes :
  zlen codes = 256 -> Forall (fun code => Forall is_bit (bits code) /\ zlen (bits code) <= 255) codes ->
  prefix_free codes -> exists paths trie, build_trie codes = Ok trie /\ trie_of codes paths trie.
Proof.
  intros Hl Hb Hpf.
  destruct (for_enum_inv (fun i trie => zlen trie <= 1 + 255 * i /\ exists paths ins, trie_inv [] ins paths trie /\
      forall s c, (s, c) ∈ ins <-> 0 <= s < i /\ codes !! Z.to_nat s = Some (MkCode c) /\ c <> [])
    trie_code codes 0 [empty_node]) as (trie & Hbt & _ & paths & ins & HI & Hins).
  - split; [done|]. exists [[]], []. split; [apply trie_inv_start|]. intros s c.
    split; [intros Hin; by apply not_elem_of_nil in Hin|lia].
  - intros i [c] trie Hi Hc (Hz & paths & ins & HI & Hins). rewrite Z.sub_0_r in Hc.
    pose proof (lookup_Z_lt _ _ _ Hi Hc) as Hic. pose proof (Forall_lookup_1 _ _ _ _ Hb Hc) as [Hcb Hcl]. simpl in Hcb, Hcl.
    destruct (decide (c = [])) as [->|Hne].
    + exists trie. split; [done|]. split; [lia|]. exists paths, ins. split; [done|]. intros s d. rewrite Hins.
      split; intros (H1 & H2 & H3); (split; [|done]); [lia|]. destruct (Z.eq_dec s i) as [->|]; [congruence|lia].
    + destruct (trie_code_ok i c ins Hcb) with (paths := paths) (trie := trie) as (paths' & trie' & -> & HI' & Hz'); try done.
      * intros s' c' Hin. apply Hins in Hin as (H1 & H2 & H3).
        split; eapply Hpf; [|exact H2|exact Hc|done|done| |exact Hc|exact H2|done|done]; lia.
      * lia.
      * exists trie'. split; [done|]. split; [lia|]. exists paths', ((i, c) :: ins). split; [done|].
        intros s d. rewrite elem_of_cons, Hins. split.
        -- intros [[= -> ->]|(H1 & H2 & H3)]; (split; [lia|done]).
        -- intros (H1 & H2 & H3). destruct (Z.eq_dec s i) as [->|]; [left; congruence|right; split; [lia|done]].
  - exists paths, trie. split; [done|]. exists ins. split; [done|]. intros s c. rewrite Hins. split; [tauto|].
    intros (H1 & H2 & H3). split; [|done]. pose proof (lookup_Z_lt _ _ _ H1 H2). lia.
Qed.

Lemma closed_take cur ins paths trie c k : trie_inv cur ins paths trie -> c ∈ paths -> take k c ∈ paths.
Proof.
  intros HI. induction c as [|b c IH] using rev_ind; intros Hc; [by rewrite take_nil|].
  destruct (decide (k <= length c)%nat).
  - rewrite take_app_le by done. apply IH. by eapply ti_closed.
  - by rewrite take_ge by (rewrite length_app; simpl; lia).
Qed.

Lemma canonical_trie lengths codes :
  table_ok lengths -> canonical_codes lengths = Ok codes ->
  zlen codes = 256 /\ prefix_free codes /\
  (forall s, 0 <= s < 256 -> exists c, codes !! Z.to_nat s = Some (MkCode c) /\
     zlen c = bget lengths s /\ Forall is_bit c) /\
  exists paths trie, build_trie codes = Ok trie /\ trie_of codes paths trie.
Proof.
  intros Ht Hc. pose proof (canonical_codes_spec lengths Ht) as Hspec. destruct (_ && _); [|congruence].
  destruct Hspec as (codes' & Hc' & Hl & Hpf & Hs). rewrite Hc in Hc'. injection Hc' as <-.
  split; [done|]. split; [done|]. split; [done|]. apply build_trie_ok; [done| |done].
  apply Forall_lookup. intros i code Hi. pose proof (lookup_lt_Some _ _ _ Hi). unfold zlen in Hl.
  destruct (Hs (Z.of_nat i) ltac:(lia)) as (c & Hci & Hcl & Hcb). rewrite Nat2Z.id, Hi in Hci. injection Hci as ->.
  split; [done|]. simpl. rewrite Hcl. destruct Ht as [Hl256 Hf]. unfold bget.
  destruct (lengths !! _) eqn:Hx; simpl; [|lia]. apply (Forall_lookup_1 _ _ _ _ Hf) in Hx. simpl in Hx. lia.
Qed.

Lemma table_ok_check l :
  forallb (fun x => (0 <=? x) && (x <=? 255)) l = true -> zlen l = 256 -> table_ok l.
Proof.
  intros Hf Hl. split; [done|]. apply Forall_forall. intros x Hx. apply list_elem_of_In in Hx.
  rewrite forallb_forall in Hf. apply Hf in Hx. lia.
Qed.

(** * Properties *)

(** A Huffman length table is accepted exactly when it is nonempty and
    satisfies Kraft's inequality; the canonical codes then have the declared
    lengths, none is a prefix of another, and the decoding trie builds.  Every
    other table is reported as [InvalidHuffmanTable]. *)
Theorem canonical_codes_exact lengths :
  table_ok lengths ->
  if (0 <? kraft lengths) && (kraft lengths <=? 2 ^ 255) then
    exists codes trie, canonical_codes lengths = Ok codes /\ build_trie codes = Ok trie /\
      prefix_free codes /\
      forall s, 0 <= s < 256 -> exists c, codes !! Z.to_nat s = Some (MkCode c) /\ zlen c = bget lengths s
  else canonical_codes lengths = Err InvalidHuffmanTable.
Proof.
  intros Ht. pose proof (canonical_codes_spec lengths Ht) as Hspec. destruct (_ && _); [|done].
  destruct Hspec as (codes & Hc & _). destruct (canonical_trie lengths codes Ht Hc) as (_ & Hpf & Hs & paths & trie & Hb & _).
  exists codes, trie. split; [done|]. split; [done|]. split; [done|].
  intros s Hs1. destruct (Hs s Hs1) as (c & ? & ? & _). by exists c.
Qed.

Lemma canonical_codes_exact_witness :
  (exists codes trie, canonical_codes ([1; 2; 0; 2] ++ vec 0 252) = Ok codes /\ build_trie codes = Ok trie /\
    prefix_free codes) /\
  canonical_codes ([1; 1; 1] ++ vec 0 253) = Err InvalidHuffmanTable.
Proof.
  split.
  - destruct (canonical_codes_exact ([1; 2; 0; 2] ++ vec 0 252) (table_ok_check ([1; 2; 0; 2] ++ vec 0 252) eq_refl eq_refl)) as (codes & trie & H1 & H2 & H3 & _).
    by exists codes, trie.
  - exact (canonical_codes_exact ([1; 1; 1] ++ vec 0 253)
      (table_ok_check ([1; 1; 1] ++ vec 0 253) eq_refl eq_refl)).
Defined.
