(* ===== verification/Huffman.v ===== *)
(** * Byte Huffman chunks (BitWriter, encode_huffman and decode_huffman of
    crates/tritium-format/src/entropy_transport.rs)

    A payload is the 256 code lengths, the number of stream bits and the stream,
    most significant bit first. *)

From S2P Require Import Prelude Core FormatBase TwoBit EntropyBase HuffmanTree HuffmanCode.
From Stdlib Require Import ZArith Lia Bool.
From stdpp Require Import base list numbers sorting.

#[local] Open Scope Z_scope.

Record BitWriter : Type := MkBitWriter { bw_bytes : list Z; bw_bits : Z }.

Definition push_bit (bit : Z) (w : BitWriter) : eres BitWriter :=
  let bytes := if is_multiple_of (bw_bits w) 8 then bw_bytes w ++ [0] else bw_bytes w in
  let* bytes :=
    if negb (bit =? 0) then
      let* index := sub_usize (zlen bytes) 1 in
      let* b := idx bytes index in
      upd bytes index (Z.lor b (Z.shiftl 1 (7 - bw_bits w mod 8)))
    else Ok bytes in
  let* n := add_usize (bw_bits w) 1 in
  Ok (MkBitWriter bytes n).

Definition push (code : Code) (w : BitWriter) : eres BitWriter := for_each (bits code) push_bit w.

Definition encode_huffman (bytes : list Z) : eres (list Z) :=
  let* lengths := huffman_lengths bytes in
  let* codes := canonical_codes lengths in
  let* stream := for_each bytes (fun byte w => let* code := idx codes byte in push code w)
    (MkBitWriter [] 0) in
  Ok (lengths ++ to_le 8 (bw_bits stream) ++ bw_bytes stream).

(** The walk from the root to a symbol: [loop { ... }]. *)
Fixpoint decode_symbol (fuel : nat) (stream : list Z) (bit_len : Z) (trie : list TrieNode) (bit_pos node : Z)
  : eres (Z * Z) :=
  match fuel with
  | O => NoFuel
  | S fuel =>
      if bit_len <=? bit_pos then Err InvalidHuffmanStream else
      let* byte := idx stream (bit_pos / 8) in
      let bit := Z.land (Z.shiftr byte (7 - bit_pos mod 8)) 1 in
      let* bit_pos := add_usize bit_pos 1 in
      let* here := idx trie node in
      let* next := idx (children here) bit in
      if next <? 0 then Err InvalidHuffmanStream else
      let* here := idx trie next in
      match symbol here with
      | Some s => Ok (bit_pos, s)
      | None => decode_symbol fuel stream bit_len trie bit_pos next
      end
  end.

Definition decode_next (stream : list Z) (bit_len : Z) (trie : list TrieNode) (_ : Z) (st : Z * list Z)
  : eres (Z * list Z) :=
  let '(bit_pos, out) := st in
  let* (bit_pos, s) := decode_symbol (S (Z.to_nat (bit_len - bit_pos))) stream bit_len trie bit_pos 0 in
  Ok (bit_pos, out ++ [s]).

Definition decode_huffman (payload : list Z) (expected_len : Z) : eres (list Z) :=
  if zlen payload <? 264 then Err InvalidHuffmanStream else
  let* lengths := slice payload 0 256 in
  let* head := slice payload 256 264 in
  let bit_len := from_le head in
  let* stream := slice payload 264 (zlen payload) in
  if saturating_mul (zlen stream) 8 <? bit_len then Err InvalidHuffmanStream else
  let* codes := canonical_codes lengths in
  let* trie := build_trie codes in
  let* (bit_pos, out) := for_range 0 expected_len (decode_next stream bit_len trie) (0, []) in
  if negb (bit_pos =? bit_len) then Err InvalidHuffmanStream else Ok out.

(** * The bit stream *)

Definition stream_bit (stream : list Z) (p : Z) : Z :=
  Z.land (Z.shiftr (bget stream (p / 8)) (7 - p mod 8)) 1.

Lemma stream_bit_testbit stream p :
  0 <= p -> stream_bit stream p = Z.b2z (Z.testbit (bget stream (p / 8)) (7 - p mod 8)).
Proof.
  intros Hp. unfold stream_bit. change 1 with (Z.ones 1). rewrite Z.land_ones by lia. change (2 ^ 1) with 2.
  rewrite <- Z.bit0_mod, Z.shiftr_spec by lia. done.
Qed.

Lemma stream_bit_is_bit stream p : 0 <= p -> is_bit (stream_bit stream p).
Proof. intros Hp. rewrite stream_bit_testbit by done. unfold is_bit. destruct (Z.testbit _ _); auto. Qed.

(** The writer holds the bits [l]; the rest of the last byte is zero. *)
Record wrote_bits (l : list Z) (w : BitWriter) : Prop := {
  wb_bits : bw_bits w = zlen l;
  wb_len : zlen (bw_bytes w) = div_ceil (zlen l) 8;
  wb_ok : bytes_ok (bw_bytes w);
  wb_get : forall p, 0 <= p < 8 * zlen (bw_bytes w) -> stream_bit (bw_bytes w) p = bget l p }.

Lemma div_ceil_8 n : 0 <= n -> div_ceil (n + 1) 8 = if n mod 8 =? 0 then div_ceil n 8 + 1 else div_ceil n 8.
Proof. intros Hn. unfold div_ceil. destruct (Z.eqb_spec (n mod 8) 0); Z.div_mod_to_equations; lia. Qed.

Lemma lor_u8 b i : is_u8 b -> 0 <= i <= 7 -> is_u8 (Z.lor b (Z.shiftl 1 i)).
Proof.
  unfold is_u8. intros Hb Hi. split; [apply Z.lor_nonneg; split; [lia|]; by apply Z.shiftl_nonneg|].
  assert (Hz : Z.lor b (Z.shiftl 1 i) < 2 ^ 8); [|done].
  destruct (Z.eq_dec (Z.lor b (Z.shiftl 1 i)) 0) as [->|Hne]; [done|].
  apply Z.log2_lt_pow2; [assert (0 <= Z.lor b (Z.shiftl 1 i)) by (apply Z.lor_nonneg; split; [lia|by apply Z.shiftl_nonneg]); lia|].
  rewrite Z.log2_lor by (try apply Z.shiftl_nonneg; lia). apply Z.max_lub_lt.
  - destruct (Z.eq_dec b 0) as [->|]; [done|]. apply Z.log2_lt_pow2; lia.
  - rewrite Z.log2_shiftl by lia. change (Z.log2 1) with 0. lia.
Qed.

Lemma bget_snoc l b p : 0 <= p -> bget (l ++ [b]) p = if p =? zlen l then b else bget l p.
Proof.
  intros Hp. destruct (Z.eqb_spec p (zlen l)) as [->|Hne].
  - unfold bget. rewrite lookup_app_r by (unfold zlen; lia).
    by replace (Z.to_nat (zlen l) - length l)%nat with 0%nat by (unfold zlen; lia).
  - destruct (Z.lt_ge_cases p (zlen l)); [by apply bget_app_l|]. unfold bget, zlen in *.
    rewrite !lookup_ge_None_2; [done|lia|rewrite length_app; simpl; lia].
Qed.

Lemma bget_beyond (l : list Z) p : zlen l <= p -> bget l p = 0.
Proof. intros Hp. unfold bget, zlen in *. by rewrite lookup_ge_None_2 by lia. Qed.

(** A byte is appended before the first bit of every group of eight. *)
Lemma room_for_bit l w (bytes := if is_multiple_of (bw_bits w) 8 then bw_bytes w ++ [0] else bw_bytes w) :
  wrote_bits l w ->
  zlen bytes = div_ceil (zlen l + 1) 8 /\ zlen bytes - 1 = zlen l / 8 /\ bytes_ok bytes /\
  forall p, 0 <= p < 8 * zlen bytes -> stream_bit bytes p = bget l p.
Proof.
  intros [H1 H2 H3 H4]. pose proof (zlen_nonneg l) as Hl. rewrite div_ceil_8 by done. subst bytes.
  unfold is_multiple_of. rewrite H1. change (8 =? 0) with false. cbn iota.
  destruct (Z.eqb_spec (zlen l mod 8) 0) as [Hm|Hm].
  - rewrite zlen_app, H2. change (zlen [0]) with 1. split; [done|].
    split; [unfold div_ceil; Z.div_mod_to_equations; lia|]. split; [by apply bytes_ok_app; [|apply bytes_ok_check]|].
    intros p Hp. assert (Hp8 : 0 <= p / 8) by (apply Z.div_pos; lia).
    destruct (Z.lt_ge_cases (p / 8) (zlen (bw_bytes w))) as [Hlt|Hge].
    + unfold stream_bit. rewrite bget_app_l by done. apply H4. Z.div_mod_to_equations; lia.
    + unfold stream_bit. rewrite bget_snoc by done.
      assert (p / 8 = zlen (bw_bytes w)) as -> by (rewrite H2 in *; Z.div_mod_to_equations; lia).
      rewrite Z.eqb_refl, Z.shiftr_0_l, Z.land_0_l, bget_beyond; [done|].
      rewrite H2 in Hge. unfold div_ceil in Hge. Z.div_mod_to_equations; lia.
  - rewrite H2. split; [done|]. split; [unfold div_ceil; Z.div_mod_to_equations; lia|]. split; [done|]. rewrite <- H2. done.
Qed.

Lemma push_bit_ok l w b :
  wrote_bits l w -> is_bit b -> zlen l <= isize_max ->
  exists w', push_bit b w = Ok w' /\ wrote_bits (l ++ [b]) w'.
Proof.
  intros Hw Hb Hmax. pose proof (room_for_bit l w Hw) as (Hl & Hi & Hok & Hget). pose proof (wb_bits _ _ Hw) as Hn.
  unfold push_bit. set (bytes := if is_multiple_of _ _ then _ else _) in *.
  pose proof (zlen_nonneg l) as Hl0. rewrite Hn. unfold isize_max in Hmax.
  assert (Hq : 0 <= zlen l / 8) by (apply Z.div_pos; lia).
  unfold add_usize, checked_add, usize_max. replace (zlen l + 1 <=? _) with true by lia. cbn [unwrap].
  destruct Hb as [-> | ->]; cbn [Z.eqb negb bind].
  - eexists. split; [done|]. split; simpl; rewrite ?zlen_app; try done.
    intros p Hp. rewrite Hget, bget_snoc by lia. destruct (Z.eqb_spec p (zlen l)) as [->|]; [by apply bget_beyond|done].
  - unfold sub_usize, checked_sub. replace (1 <=? zlen bytes) with true by lia. cbn [unwrap bind]. rewrite Hi.
    rewrite idx_bget by lia. cbn [bind]. rewrite upd_Ok by lia. cbn [bind]. eexists. split; [done|].
    split; simpl; rewrite ?zlen_insert, ?zlen_app; try done.
    + apply Forall_insert; [done|]. apply lor_u8; [by apply bget_u8|]. pose proof (Z.mod_pos_bound (zlen l) 8). lia.
    + intros p Hp. rewrite bget_snoc, <- Hget by lia. rewrite !stream_bit_testbit by lia.
      assert (0 <= p / 8) by (apply Z.div_pos; lia). rewrite bget_upd by lia.
      pose proof (Z.mod_pos_bound (zlen l) 8). pose proof (Z.mod_pos_bound p 8).
      destruct (Z.eqb_spec (zlen l / 8) (p / 8)) as [He|Hne].
      * rewrite Z.lor_spec, Z.shiftl_spec by lia. rewrite He. destruct (Z.eqb_spec p (zlen l)) as [->|Hpl].
        -- rewrite Z.sub_diag. change (Z.testbit 1 0) with true. by rewrite orb_true_r.
        -- replace (Z.testbit 1 _) with false; [by rewrite orb_false_r|]. symmetry.
           destruct (Z.lt_ge_cases (7 - p mod 8 - (7 - zlen l mod 8)) 0); [by apply Z.testbit_neg_r|].
           apply (Z.pow2_bits_false 0). Z.div_mod_to_equations; lia.
      * destruct (Z.eqb_spec p (zlen l)) as [->|]; done.
Qed.

Lemma push_ok c w l :
  wrote_bits l w -> Forall is_bit c -> zlen l + zlen c <= isize_max ->
  exists w', push (MkCode c) w = Ok w' /\ wrote_bits (l ++ c) w'.
Proof.
  unfold push. simpl bits. revert w l. induction c as [|b c IH]; intros w l Hw Hc Hmax.
  - rewrite app_nil_r. by exists w.
  - apply Forall_cons in Hc as [Hb Hc]. rewrite zlen_cons in Hmax. pose proof (zlen_nonneg c).
    destruct (push_bit_ok l w b Hw Hb) as (w1 & Hp & Hw1); [lia|]. simpl. rewrite Hp. cbn [bind].
    destruct (IH w1 (l ++ [b]) Hw1 Hc) as (w2 & Hf & Hw2); [rewrite zlen_app; change (zlen [b]) with 1; lia|].
    exists w2. rewrite <- app_assoc in Hw2. done.
Qed.

(** The code of a symbol, and the stream of a byte string. *)
Definition code_of (codes : list Code) (s : Z) : list Z :=
  match codes !! Z.to_nat s with Some code => bits code | None => [] end.
Definition bit_string (codes : list Code) (bytes : list Z) : list Z := concat (code_of codes <$> bytes).

Definition codes_ok (codes : list Code) : Prop :=
  zlen codes = 256 /\
  forall s, 0 <= s < 256 -> codes !! Z.to_nat s = Some (MkCode (code_of codes s)) /\
    Forall is_bit (code_of codes s) /\ zlen (code_of codes s) <= 255.

Lemma bit_string_len codes bytes :
  codes_ok codes -> bytes_ok bytes -> Forall is_bit (bit_string codes bytes) /\
  zlen (bit_string codes bytes) <= 255 * zlen bytes.
Proof.
  intros [_ Hc] Hu. unfold bit_string. induction Hu as [|b bytes Hb Hu [IH1 IH2]]; [done|].
  rewrite fmap_cons. cbn [concat]. destruct (Hc b Hb) as (_ & H1 & H2).
  split; [by apply Forall_app|]. rewrite zlen_app, zlen_cons. lia.
Qed.

Lemma write_stream codes bytes :
  codes_ok codes -> bytes_ok bytes -> zlen bytes <= 2 ^ 50 ->
  exists w, for_each bytes (fun byte w => let* code := idx codes byte in push code w) (MkBitWriter [] 0) = Ok w /\
    wrote_bits (bit_string codes bytes) w.
Proof.
  intros Hc Hu Hl. change (2 ^ 50) with 1125899906842624 in Hl. pose proof Hc as [Hcl Hcs].
  apply (for_each_inv (fun pre w => wrote_bits (bit_string codes pre) w)).
  - split; [done|done|constructor|]. intros p Hp. unfold zlen in Hp. simpl in Hp. lia.
  - intros pre b post w -> Hw. apply Forall_app in Hu as [Hpre Hu]. apply Forall_cons in Hu as [Hb _].
    destruct (Hcs b Hb) as (Hb1 & Hb2 & Hb3). rewrite (idx_Ok _ _ _ (proj1 Hb) Hb1). cbn [bind].
    rewrite zlen_app, zlen_cons in Hl. pose proof (zlen_nonneg post).
    destruct (bit_string_len codes pre Hc Hpre) as [_ Hpl].
    destruct (push_ok (code_of codes b) w _ Hw Hb2) as (w' & -> & Hw'); [unfold isize_max; lia|].
    exists w'. split; [done|]. unfold bit_string in *. rewrite fmap_app, concat_app. simpl. by rewrite app_nil_r.
Qed.

(** * Decoding *)
Section walk.
Variables (codes : list Code) (paths : list (list Z)) (trie : list TrieNode) (stream : list Z) (bit_len : Z).
Hypothesis Htrie : trie_of codes paths trie.
Hypothesis Hlen : 0 <= bit_len <= 8 * zlen stream.
Hypothesis Hmax : bit_len <= u64_max.

(** Any walk returns: it reads at most [bit_len] bits and stays in the trie. *)
Lemma decode_symbol_returns fuel : forall bit_pos node,
  0 <= bit_pos -> (Z.to_nat (bit_len - bit_pos) < fuel)%nat -> 0 <= node < zlen trie ->
  returns (decode_symbol fuel stream bit_len trie bit_pos node) /\
  forall p s, decode_symbol fuel stream bit_len trie bit_pos node = Ok (p, s) -> bit_pos <= p <= bit_len.
Proof using Htrie Hlen Hmax.
  destruct Htrie as (ins & HI & _). pose proof (ti_length _ _ _ _ HI) as Htl.
  induction fuel as [|fuel IH]; intros bit_pos node Hp Hf Hn; [lia|].
  simpl. destruct (Z.leb_spec bit_len bit_pos) as [|Hlt]; [done|].
  rewrite idx_bget by (Z.div_mod_to_equations; lia). cbn [bind]. fold (stream_bit stream bit_pos).
  unfold add_usize, checked_add, usize_max. unfold u64_max in Hmax.
  replace (bit_pos + 1 <=? _) with true by lia. cbn [unwrap bind].
  destruct (lookup_Z trie node Hn) as [here Hh]. rewrite (idx_Ok trie node here) by (done || lia). cbn [bind].
  destruct (Forall2_lookup_r _ _ _ _ _ (ti_nodes _ _ _ _ HI) Hh) as (q & Hq & Hc2 & Hcl & _).
  destruct (Hcl _ (stream_bit_is_bit stream bit_pos Hp)) as (a & Ha & Hlink).
  rewrite (idx_Ok (children here) _ a) by (done || (destruct (stream_bit_is_bit stream bit_pos Hp); lia)). cbn [bind].
  destruct Hlink as [[-> _]|[Ha0 Hlk]]; [done|]. replace (a <? 0) with false by lia.
  assert (Ha1 : 0 <= a < zlen trie) by (rewrite Htl; split; [done|]; by apply (lookup_Z_lt paths a (q ++ [stream_bit stream bit_pos]))).
  destruct (lookup_Z trie a Ha1) as [there Ht]. rewrite (idx_Ok trie a there) by (done || lia). cbn [bind].
  destruct (symbol there); [split; [done|]; intros p s [= <- <-]; lia|].
  destruct (IH (bit_pos + 1) a) as [H1 H2]; [lia|lia|done|]. split; [done|]. intros p s Hps. apply H2 in Hps. lia.
Qed.

(** A walk along the code of [s] finds [s]. *)
Lemma decode_symbol_ok (s : Z) fuel : forall bit_pos node i,
  prefix_free codes -> 0 <= s -> code_of codes s <> [] -> 0 <= bit_pos -> 0 <= node -> 0 <= i < zlen (code_of codes s) ->
  paths !! Z.to_nat node = Some (take (Z.to_nat i) (code_of codes s)) ->
  bit_pos + (zlen (code_of codes s) - i) <= bit_len -> zlen (code_of codes s) - i <= Z.of_nat fuel ->
  (forall k, i <= k < zlen (code_of codes s) -> stream_bit stream (bit_pos + (k - i)) = bget (code_of codes s) k) ->
  decode_symbol fuel stream bit_len trie bit_pos node = Ok (bit_pos + (zlen (code_of codes s) - i), s).
Proof using Htrie Hlen Hmax.
  destruct Htrie as (ins & HI & Hins). set (c := code_of codes s).
  induction fuel as [|fuel IH]; intros bit_pos node i Hpf Hs Hne Hp Hn Hi Hpath Hroom Hfuel Hbits; [lia|].
  assert (Hcode : codes !! Z.to_nat s = Some (MkCode c)).
  { subst c. unfold code_of in *. by destruct (codes !! Z.to_nat s) as [[]|]. }
  assert (Hsin : (s, c) ∈ ins) by (apply Hins; done).
  simpl. replace (bit_len <=? bit_pos) with false by lia.
  rewrite idx_bget by (Z.div_mod_to_equations; lia). cbn [bind]. fold (stream_bit stream bit_pos).
  unfold add_usize, checked_add, usize_max. unfold u64_max in Hmax.
  replace (bit_pos + 1 <=? _) with true by lia. cbn [unwrap bind].
  destruct (Forall2_lookup_l _ _ _ _ _ (ti_nodes _ _ _ _ HI) Hpath) as (here & Hh & Hc2 & Hcl & _).
  rewrite (idx_Ok trie node here) by (done || lia). cbn [bind].
  pose proof (Hbits i ltac:(lia)) as Hbit. rewrite Z.sub_diag, Z.add_0_r in Hbit.
  pose proof (stream_bit_is_bit stream bit_pos Hp) as Hb.
  destruct (Hcl _ Hb) as (a & Ha & Hlink).
  rewrite (idx_Ok (children here) _ a) by (done || (destruct Hb; lia)). cbn [bind].
  assert (Htk : take (Z.to_nat i) c ++ [stream_bit stream bit_pos] = take (Z.to_nat (i + 1)) c).
  { replace (Z.to_nat (i + 1)) with (S (Z.to_nat i)) by lia. destruct (lookup_Z c i Hi) as [x Hx].
    rewrite Hbit. unfold bget. rewrite Hx. symmetry. by apply take_S_r. }
  unfold link in Hlink. rewrite Htk in Hlink. destruct Hlink as [[_ Hnot]|[Ha0 Hlk]].
  { destruct Hnot. eapply closed_take; [done|]. by eapply ti_ins. }
  replace (a <? 0) with false by lia.
  destruct (Forall2_lookup_l _ _ _ _ _ (ti_nodes _ _ _ _ HI) Hlk) as (there & Ht & _ & _ & Hsym).
  rewrite (idx_Ok trie a there) by (done || lia). cbn [bind].
  destruct (Z.eq_dec (i + 1) (zlen c)) as [Hend|Hmore].
  - rewrite take_ge in Hsym by (unfold zlen in *; lia). rewrite (proj2 (Hsym s) Hsin). do 2 f_equal. lia.
  - destruct (symbol there) as [u|].
    + exfalso. destruct (proj1 (Hins _ _) (proj1 (Hsym u) eq_refl)) as (Hu & Hcu & Hcu0).
      destruct (decide (Z.to_nat u = Z.to_nat s)) as [Heq|Hneq].
      * rewrite Heq, Hcode in Hcu. injection Hcu as Hcu. apply (f_equal length) in Hcu. rewrite length_take in Hcu. unfold zlen in *. lia.
      * eapply (Hpf _ _ _ _ Hneq Hcu Hcode Hcu0 Hne). apply prefix_take.
    + rewrite (IH (bit_pos + 1) a (i + 1)); try done; try lia.
      * do 2 f_equal. lia.
      * intros k Hk. rewrite <- Hbits by lia. f_equal. lia.
Qed.
End walk.

Lemma bget_app_mid (x y z : list Z) k : 0 <= k < zlen y -> bget (x ++ y ++ z) (zlen x + k) = bget y k.
Proof.
  intros Hk. unfold bget. rewrite lookup_app_r by (unfold zlen; lia).
  replace (Z.to_nat (zlen x + k) - length x)%nat with (Z.to_nat k) by (unfold zlen; lia).
  rewrite lookup_app_l by (unfold zlen in Hk; lia). done.
Qed.

Lemma decode_stream codes paths trie w bytes :
  trie_of codes paths trie -> prefix_free codes -> bytes_ok bytes ->
  Forall (fun b => code_of codes b <> []) bytes -> zlen (bit_string codes bytes) <= u64_max ->
  wrote_bits (bit_string codes bytes) w ->
  for_range 0 (zlen bytes) (decode_next (bw_bytes w) (bw_bits w) trie) (0, []) = Ok (bw_bits w, bytes).
Proof.
  intros Ht Hpf Hu Hne Hmax [Hw1 Hw2 _ Hw4]. pose proof (zlen_nonneg bytes) as Hl0. rewrite Hw1.
  assert (Hroom : zlen (bit_string codes bytes) <= 8 * zlen (bw_bytes w)) by (rewrite Hw2; apply div_ceil_bounds; lia).
  destruct (for_range_inv (fun i '(pos, out) => out = take (Z.to_nat i) bytes /\
      pos = zlen (bit_string codes (take (Z.to_nat i) bytes)))
    (decode_next (bw_bytes w) (zlen (bit_string codes bytes)) trie) 0 (zlen bytes) (0, [])) as ([pos out] & -> & -> & ->).
  - lia.
  - done.
  - intros i [pos out] Hi [-> ->]. destruct (lookup_Z bytes i Hi) as [b Hb].
    pose proof (Forall_lookup_1 _ _ _ _ Hu Hb) as Hb8. pose proof (Forall_lookup_1 _ _ _ _ Hne Hb) as Hb0. simpl in Hb0.
    assert (Hsplit : bit_string codes bytes = bit_string codes (take (Z.to_nat i) bytes) ++ code_of codes b ++
      bit_string codes (drop (S (Z.to_nat i)) bytes)).
    { rewrite <- (take_drop_middle _ _ _ Hb) at 1. unfold bit_string. by rewrite fmap_app, concat_app, fmap_cons. }
    set (pre := bit_string codes (take (Z.to_nat i) bytes)) in *. pose proof (zlen_nonneg pre) as Hpre.
    assert (Hlen : zlen pre + zlen (code_of codes b) <= zlen (bit_string codes bytes)).
    { rewrite Hsplit, !zlen_app. pose proof (zlen_nonneg (bit_string codes (drop (S (Z.to_nat i)) bytes))). lia. }
    assert (Hc0 : 0 < zlen (code_of codes b)) by (destruct (code_of codes b); [done|]; rewrite zlen_cons; pose proof (zlen_nonneg l); lia).
    exists (zlen pre + zlen (code_of codes b), take (Z.to_nat (i + 1)) bytes). split.
    + unfold decode_next. destruct Ht as (ins & HI & Hins).
      rewrite (decode_symbol_ok codes paths trie (bw_bytes w) (zlen (bit_string codes bytes)) (ex_intro _ ins (conj HI Hins)) ltac:(lia) Hmax b _ (zlen pre) 0 0);
        try done; try lia.
      * cbn [bind]. rewrite Z.sub_0_r. replace (Z.to_nat (i + 1)) with (S (Z.to_nat i)) by lia.
        by rewrite (take_S_r _ _ _ Hb).
      * unfold is_u8 in Hb8. lia.
      * apply (ti_root _ _ _ _ HI).
      * intros k Hk. rewrite Z.sub_0_r, Hw4 by lia. rewrite Hsplit. by apply bget_app_mid.
    + split; [done|]. replace (Z.to_nat (i + 1)) with (S (Z.to_nat i)) by lia. rewrite (take_S_r _ _ _ Hb).
      unfold bit_string. rewrite fmap_app, concat_app, zlen_app. simpl. rewrite app_nil_r. done.
  - by rewrite !take_ge by (unfold zlen; lia).
Qed.

Lemma canonical_codes_ok lengths codes :
  table_ok lengths -> canonical_codes lengths = Ok codes -> codes_ok codes /\
  forall s, 0 <= s < 256 -> zlen (code_of codes s) = bget lengths s.
Proof.
  intros Ht Hc. destruct (canonical_trie lengths codes Ht Hc) as (Hl & _ & Hs & _).
  assert (H : forall s, 0 <= s < 256 -> codes !! Z.to_nat s = Some (MkCode (code_of codes s)) /\
    Forall is_bit (code_of codes s) /\ zlen (code_of codes s) = bget lengths s).
  { intros s Hs1. destruct (Hs s Hs1) as (c & Hc1 & Hc2 & Hc3). unfold code_of. by rewrite Hc1. }
  split; [|intros s Hs1; by apply H]. split; [done|]. intros s Hs1. destruct (H s Hs1) as (H1 & H2 & H3).
  split; [done|]. split; [done|]. rewrite H3. unfold bget. destruct Ht as [_ Hf].
  destruct (lengths !! _) eqn:Hx; simpl; [|lia]. apply (Forall_lookup_1 _ _ _ _ Hf) in Hx. simpl in Hx. lia.
Qed.

Lemma table_ok_bytes lengths : table_ok lengths <-> zlen lengths = 256 /\ bytes_ok lengths.
Proof.
  unfold table_ok, is_u8. split; intros [Hl Hf]; (split; [done|]);
    (eapply Forall_impl; [exact Hf|]); intros x Hx; simpl in *; lia.
Qed.

Lemma huffman_inverse bytes :
  bytes_ok bytes -> 0 < zlen bytes <= 2 ^ 50 ->
  exists payload, encode_huffman bytes = Ok payload /\ bytes_ok payload /\
    decode_huffman payload (zlen bytes) = Ok bytes.
Proof.
  intros Hu Hl. pose proof Hl as Hl'. change (2 ^ 50) with 1125899906842624 in Hl'.
  destruct (huffman_lengths_ok bytes Hu) as (lengths & Hhl & Ht & Hk & Hpos); [unfold isize_max; lia|].
  pose proof (canonical_codes_spec lengths Ht) as Hspec.
  replace ((0 <? kraft lengths) && (kraft lengths <=? 2 ^ 255)) with true in Hspec
    by (symmetry; apply andb_true_iff; split; [apply Z.ltb_lt|apply Z.leb_le]; lia).
  destruct Hspec as (codes & Hc & _). destruct (canonical_trie lengths codes Ht Hc) as (_ & Hpf & _ & paths & trie & Hbt & Htr).
  destruct (canonical_codes_ok lengths codes Ht Hc) as [Hcok Hclen].
  destruct (write_stream codes bytes Hcok Hu (proj2 Hl)) as (w & Hw & Hwb). pose proof Hwb as [Hw1 Hw2 Hw3 _].
  destruct (bit_string_len codes bytes Hcok Hu) as [_ Hbl]. pose proof (zlen_nonneg (bit_string codes bytes)) as Hb0.
  pose proof Ht as [Hl256 _]. apply table_ok_bytes in Ht as [_ Hlb].
  assert (H8 : zlen (to_le 8 (bw_bits w)) = 8) by apply zlen_to_le8.
  exists (lengths ++ to_le 8 (bw_bits w) ++ bw_bytes w). split; [|split].
  - unfold encode_huffman. rewrite Hhl. cbn [bind]. rewrite Hc. cbn [bind]. by rewrite Hw.
  - apply bytes_ok_app; [done|]. apply bytes_ok_app; [apply to_le_bytes|done].
  - set (payload := lengths ++ _). assert (Hpl : zlen payload = 264 + zlen (bw_bytes w)) by (unfold payload; rewrite !zlen_app; lia).
    pose proof (zlen_nonneg (bw_bytes w)). unfold decode_huffman. replace (zlen payload <? 264) with false by lia.
    rewrite !slice_Ok by lia. cbn [bind].
    replace (sub payload 0 256) with lengths by (symmetry; unfold payload; rewrite <- Hl256; apply sub_app_l).
    replace (sub payload 256 264) with (to_le 8 (bw_bits w)) by (symmetry; unfold payload; apply sub_mid; lia).
    replace (sub payload 264 (zlen payload)) with (bw_bytes w).
    2:{ symmetry. unfold payload. rewrite app_assoc. replace 264 with (zlen (lengths ++ to_le 8 (bw_bits w))) by (rewrite zlen_app; lia).
        apply sub_app_r. by rewrite zlen_app. }
    rewrite from_to_le by (change (256 ^ Z.of_nat 8) with 18446744073709551616; lia).
    replace (saturating_mul _ _ <? _) with false.
    2:{ symmetry. apply Z.ltb_ge. unfold saturating_mul, usize_max. rewrite Hw1, Hw2. pose proof (div_ceil_bounds (zlen (bit_string codes bytes)) 8). lia. }
    rewrite Hc. cbn [bind]. rewrite Hbt. cbn [bind]. rewrite (decode_stream codes paths); try done; [| |unfold u64_max; lia].
    + cbn [bind]. by rewrite Z.eqb_refl.
    + apply Forall_forall. intros b Hb. rewrite Forall_forall in Hpos, Hu. specialize (Hpos b Hb). specialize (Hu b Hb).
      intros He. rewrite <- Hclen, He in Hpos by done. done.
Qed.

(** * Untrusted payloads *)

Lemma decode_huffman_returns payload n : bytes_ok payload -> 0 <= n -> returns (decode_huffman payload n).
Proof.
  intros Hu Hn. unfold decode_huffman. destruct (Z.ltb_spec (zlen payload) 264); [done|].
  rewrite !slice_Ok by lia. cbn [bind]. destruct (Z.ltb_spec (saturating_mul (zlen (sub payload 264 (zlen payload))) 8)
    (from_le (sub payload 256 264))) as [|Hbl]; [done|].
  assert (Ht : table_ok (sub payload 0 256)) by (apply table_ok_bytes; split; [rewrite zlen_sub; lia|by apply bytes_ok_sub]).
  destruct (canonical_codes (sub payload 0 256)) as [codes| | |] eqn:Hc; try done;
    [|pose proof (canonical_codes_spec _ Ht) as Hs; destruct (_ && _); [destruct Hs as (? & Hs & _)|]; congruence..].
  destruct (canonical_trie _ codes Ht Hc) as (_ & _ & _ & paths & trie & Hbt & Htr). cbn [bind]. rewrite Hbt. cbn [bind].
  pose proof (from_le_bound _ (bytes_ok_sub payload 256 264 Hu)) as Hb8. rewrite zlen_sub in Hb8 by lia.
  change (256 ^ (264 - 256)) with 18446744073709551616 in Hb8. set (bit_len := from_le _) in *.
  set (stream := sub payload 264 (zlen payload)) in *.
  assert (Htl : 0 < zlen trie).
  { destruct Htr as (ins & HI & _). rewrite (ti_length _ _ _ _ HI). pose proof (ti_root _ _ _ _ HI) as H0.
    apply lookup_lt_Some in H0. unfold zlen. lia. }
  assert (Hroom : 0 <= bit_len <= 8 * zlen stream) by (unfold saturating_mul in Hbl; lia).
  apply returns_bind; [|intros [pos out] _; by destruct (negb _)].
  apply (for_range_returns (fun _ '(pos, out) => 0 <= pos)); [lia|lia|]. intros i [pos out] Hi Hp. unfold decode_next.
  destruct (decode_symbol_returns codes paths trie stream bit_len Htr Hroom ltac:(unfold u64_max; lia)
    (S (Z.to_nat (bit_len - pos))) pos 0) as [Hr Hok]; [done|lia|lia|]. split.
  - apply returns_bind; [done|]. by intros [p s].
  - intros [pos' out'] Hd. bind_inv Hd. destruct v as [p s]. injection Hd as <- <-. apply Hok in Hv. lia.
Qed.

Lemma decode_huffman_len payload n out : 0 <= n -> decode_huffman payload n = Ok out -> zlen out = n.
Proof.
  intros Hn. unfold decode_huffman. destruct (_ <? _); [done|]. intros H. bind_inv H. bind_inv H. bind_inv H.
  destruct (_ <? _); [done|]. bind_inv H. bind_inv H. bind_inv H. destruct v4 as [pos d].
  destruct (negb _); [done|]. apply Ok_inj in H as <-.
  apply (for_range_Ok_inv (fun i st => zlen (snd st) = i) _ _ _ _ _ Hn Hv4); [done|].
  intros i [p1 d1] [p2 d2] Hi HI Hst. simpl in *. unfold decode_next in Hst. bind_inv Hst. destruct v4 as [p3 s3].
  injection Hst as <- <-. rewrite zlen_app. change (zlen [_]) with 1. lia.
Qed.

#[export] Instance huffman_codec : EntropyCodec encode_huffman decode_huffman.
Proof. split; [exact huffman_inverse|exact decode_huffman_returns|exact decode_huffman_len]. Qed.

(** * Properties *)

(** C16: Huffman coding is lossless and its encoder total: every nonempty byte
    string up to [2^50] bytes gets a tree of depth at most 255, a canonical
    prefix-free code and a stream, and decoding the payload returns the bytes. *)
Theorem huffman_roundtrip bytes :
  bytes_ok bytes -> 0 < zlen bytes <= 2 ^ 50 ->
  exists payload, encode_huffman bytes = Ok payload /\ decode_huffman payload (zlen bytes) = Ok bytes.
Proof.
  intros Hu Hl. destruct (huffman_inverse bytes Hu Hl) as (payload & H1 & _ & H2). eauto.
Qed.

Lemma huffman_roundtrip_witness :
  exists payload, encode_huffman [7; 7; 9; 7; 200; 7; 9] = Ok payload /\
    decode_huffman payload 7 = Ok [7; 7; 9; 7; 200; 7; 9].
Proof. apply (huffman_roundtrip [7; 7; 9; 7; 200; 7; 9]); [by apply bytes_ok_check|by vm_compute]. Defined.

(** Decoding an untrusted Huffman payload for any declared [u32] length never
    panics: an oversubscribed table, a bit count past the stream and a walk that
    leaves the trie are errors, and every walk ends within the declared bits. *)
Theorem huffman_decode_safe payload n :
  bytes_ok payload -> is_u32 n -> returns (decode_huffman payload n).
Proof. intros Hu [Hn _]. by apply decode_huffman_returns. Qed.

Lemma huffman_decode_safe_witness :
  decode_huffman (vec 1 300) 3 = Err InvalidHuffmanStream /\ returns (decode_huffman (vec 1 300) 3).
Proof.
  split; [by vm_compute|]. apply (huffman_decode_safe (vec 1 300) 3); [by apply bytes_ok_check|split; lia].
Defined.
