(* ===== verification/Transport.v ===== *)
(** * Seekable entropy transport
    (crates/tritium-format/src/entropy_transport.rs)

    The writer cuts the input into chunks, keeps for each the smallest of the
    raw, Huffman and rANS payloads, and lays out a header, a fixed index and the
    payloads.  The readers parse the index and decode any logical range, in
    memory or through a seekable source.  BLAKE3 is a parameter. *)

From S2P Require Import Prelude Core FormatBase TwoBit EntropyBase Rans HuffmanTree HuffmanCode Huffman.
From Stdlib Require Import ZArith Lia Bool.
From stdpp Require Import base list numbers sorting.

#[local] Open Scope Z_scope.

Definition ENTROPY_TRANSPORT_MAGIC : list Z := [84; 82; 78; 83].
Definition ENTROPY_TRANSPORT_VERSION : Z := 2.
Definition ENTROPY_TRANSPORT_DEFAULT_CHUNK_BYTES : Z := 64 * 1024.
Definition ENTROPY_TRANSPORT_MIN_CHUNK_BYTES : Z := 64.
Definition ENTROPY_TRANSPORT_MAX_CHUNK_BYTES : Z := Z.shiftl 1 20.
Definition HEADER_BYTES : Z := 36.
Definition INDEX_ENTRY_BYTES : Z := 60.
Definition MODE_RAW : Z := 0.
Definition MODE_HUFFMAN : Z := 1.
Definition MODE_RANS : Z := 2.

Inductive EntropyTransportChunkCodec : Type := RawC | HuffmanC | RansC.
#[export] Instance codec_eq_dec : EqDecision EntropyTransportChunkCodec.
Proof. solve_decision. Defined.

Record EntropyChunkInfo : Type := MkInfo {
  ci_logical_offset : Z;
  ci_payload_offset : Z;
  ci_logical_len : Z;
  ci_payload_len : Z;
  ci_huffman : bool;
  ci_digest : list Z }.

(** ** Integers *)

(** [usize::trailing_zeros] of a nonzero value. *)
Definition trailing_zeros (n : Z) : Z := Z.log2 (Z.land n (- n)).

Definition read_u32 (bytes : list Z) (offset : Z) : eres Z :=
  let* e := ok_or (checked_add offset 4) LengthOverflow in
  let* v := ok_or (get_slice bytes offset e) Truncated in
  Ok (from_le v).
Definition read_u64 (bytes : list Z) (offset : Z) : eres Z :=
  let* e := ok_or (checked_add offset 8) LengthOverflow in
  let* v := ok_or (get_slice bytes offset e) Truncated in
  Ok (from_le v).

Definition validate_chunk_size (chunk_size : Z) : eres unit :=
  ensure ((ENTROPY_TRANSPORT_MIN_CHUNK_BYTES <=? chunk_size) &&
          (chunk_size <=? ENTROPY_TRANSPORT_MAX_CHUNK_BYTES) && is_power_of_two chunk_size)
    (InvalidChunkSize chunk_size).

(** ** Chunks *)

Definition encode_chunk (bytes : list Z) : eres (EntropyTransportChunkCodec * list Z) :=
  if zlen bytes =? 0 then Err (InvalidChunkSize 0) else
  let best := (RawC, bytes) in
  let* huffman := encode_huffman bytes in
  let best := if zlen huffman <? zlen (snd best) then (HuffmanC, huffman) else best in
  let* rans := encode_rans bytes in
  let best := if zlen rans <? zlen (snd best) then (RansC, rans) else best in
  Ok best.

(** [bytes.chunks(n)]: the last chunk may be shorter. *)
Definition chunks_of (n : Z) (bytes : list Z) : list (list Z) :=
  (fun i => sub bytes (i * n) (Z.min ((i + 1) * n) (zlen bytes))) <$> seqZ 0 (div_ceil (zlen bytes) n).

Definition mode_byte (codec : EntropyTransportChunkCodec) : Z :=
  match codec with RawC => MODE_RAW | HuffmanC => MODE_HUFFMAN | RansC => MODE_RANS end.

Definition index_entry (e : EntropyChunkInfo * EntropyTransportChunkCodec) : list Z :=
  let '(info, codec) := e in
  to_le 8 (ci_logical_offset info) ++ to_le 8 (ci_payload_offset info) ++
  to_le 4 (ci_logical_len info) ++ to_le 4 (ci_payload_len info) ++
  [mode_byte codec] ++ [0; 0; 0] ++ ci_digest info.

Definition try_u32 (v : Z) : eres Z := let* _ := ensure (v <=? u32_max) LengthOverflow in Ok v.

Section transport.
(** The BLAKE3 hasher. *)
Variable blake3 : list Z -> list Z.

Definition digest (bytes : list Z) : list Z := blake3 bytes.

Definition write_chunk (chunk_size payload_start index : Z) (logical : list Z)
    (st : list (list Z) * list EntropyChunkInfo * list EntropyTransportChunkCodec * Z)
  : eres (list (list Z) * list EntropyChunkInfo * list EntropyTransportChunkCodec * Z) :=
  let '(encoded_chunks, infos, codecs, payload_len) := st in
  let* (codec, payload) := encode_chunk logical in
  let* payload_offset := ok_or (checked_add payload_start payload_len) LengthOverflow in
  let* payload_len := ok_or (checked_add payload_len (zlen payload)) LengthOverflow in
  let* logical_offset := ok_or (checked_mul index chunk_size) LengthOverflow in
  let* llen := try_u32 (zlen logical) in
  let* plen := try_u32 (zlen payload) in
  let info := MkInfo logical_offset payload_offset llen plen (bool_decide (codec = HuffmanC)) (digest logical) in
  Ok (encoded_chunks ++ [payload], infos ++ [info], codecs ++ [codec], payload_len).

Definition write_entropy_transport_with_chunk_size (bytes : list Z) (chunk_size : Z) : eres (list Z) :=
  let* _ := validate_chunk_size chunk_size in
  let chunk_count := div_ceil (zlen bytes) chunk_size in
  let* index_bytes := ok_or (checked_mul chunk_count INDEX_ENTRY_BYTES) LengthOverflow in
  let* payload_start := ok_or (checked_add HEADER_BYTES index_bytes) LengthOverflow in
  let* (st, payload_len) :=
    for_enum 0 (chunks_of chunk_size bytes) (write_chunk chunk_size payload_start) ([], [], [], 0) in
  let '(encoded_chunks, infos, codecs) := st in
  let* _ := add_usize payload_start payload_len in
  let* count := try_u32 chunk_count in
  Ok (ENTROPY_TRANSPORT_MAGIC ++ [ENTROPY_TRANSPORT_VERSION] ++ [0] ++ [trailing_zeros chunk_size] ++ [0] ++
      to_le 8 (zlen bytes) ++ to_le 4 count ++ to_le 8 HEADER_BYTES ++ to_le 8 index_bytes ++
      concat (index_entry <$> zip infos codecs) ++ concat encoded_chunks).

Definition write_entropy_transport (bytes : list Z) : eres (list Z) :=
  write_entropy_transport_with_chunk_size bytes ENTROPY_TRANSPORT_DEFAULT_CHUNK_BYTES.

(** ** Index *)

Definition parse_entry (bytes : list Z) (source_len index_offset chunk_size logical_len index : Z)
    (st : list EntropyChunkInfo * list EntropyTransportChunkCodec * Z * Z)
  : eres (list EntropyChunkInfo * list EntropyTransportChunkCodec * Z * Z) :=
  let '(chunks, codecs, logical_cursor, payload_cursor) := st in
  let* at_ := mul_usize index INDEX_ENTRY_BYTES in
  let* entry := add_usize index_offset at_ in
  let* logical_offset := read_u64 bytes entry in
  let* o := add_usize entry 8 in
  let* payload_offset := read_u64 bytes o in
  let* o := add_usize entry 16 in
  let* logical_chunk_len := read_u32 bytes o in
  let* o := add_usize entry 20 in
  let* payload_len := read_u32 bytes o in
  let* o := add_usize entry 24 in
  let* mode := ok_or (bytes !! Z.to_nat o) Truncated in
  let* o := add_usize entry 25 in
  let* p := add_usize entry 28 in
  if negb (bool_decide (get_slice bytes o p = Some [0; 0; 0])) then Err NonZeroReserved else
  let* q := add_usize entry INDEX_ENTRY_BYTES in
  let* digest := ok_or (get_slice bytes p q) Truncated in
  let* _ := ensure (zlen digest =? 32) Truncated in
  let* left_ := ok_or (checked_sub logical_len logical_cursor) NonCanonicalIndex in
  let expected_logical_len := Z.min left_ chunk_size in
  let* version := idx bytes 4 in
  let bad_mode := (MODE_RANS <? mode) || ((version =? 1) && (mode =? MODE_RANS)) in
  if negb (logical_offset =? logical_cursor) || negb (logical_chunk_len =? expected_logical_len) ||
     negb (payload_offset =? payload_cursor) || bad_mode
  then Err (if bad_mode then UnknownMode mode else NonCanonicalIndex) else
  let* payload_end := ok_or (checked_add payload_offset payload_len) LengthOverflow in
  if source_len <? payload_end then Err Truncated else
  let* logical_cursor := ok_or (checked_add logical_cursor logical_chunk_len) LengthOverflow in
  let info := MkInfo logical_offset payload_offset logical_chunk_len payload_len (mode =? MODE_HUFFMAN) digest in
  let* codec :=
    if mode =? MODE_RAW then Ok RawC
    else if mode =? MODE_HUFFMAN then Ok HuffmanC
    else if mode =? MODE_RANS then Ok RansC
    else Err (UnknownMode mode) in
  Ok (chunks ++ [info], codecs ++ [codec], logical_cursor, payload_end).

Definition parse_transport_metadata (bytes : list Z) (source_len : Z)
  : eres (Z * Z * list EntropyChunkInfo * list EntropyTransportChunkCodec) :=
  if (zlen bytes <? HEADER_BYTES) || negb (bool_decide (sub bytes 0 4 = ENTROPY_TRANSPORT_MAGIC))
  then Err BadMagic else
  let* version := idx bytes 4 in
  if negb ((1 <=? version) && (version <=? ENTROPY_TRANSPORT_VERSION)) then Err (UnsupportedVersion version) else
  let* b5 := idx bytes 5 in
  let* b7 := idx bytes 7 in
  if negb (b5 =? 0) || negb (b7 =? 0) then Err NonZeroReserved else
  let* chunk_log2 := idx bytes 6 in
  if 64 <=? chunk_log2 then Err (InvalidChunkSize usize_max) else
  let chunk_size := Z.shiftl 1 chunk_log2 in
  let* _ := validate_chunk_size chunk_size in
  let* logical_len := read_u64 bytes 8 in
  let* chunk_count := read_u32 bytes 16 in
  let* index_offset := read_u64 bytes 20 in
  let* index_bytes := read_u64 bytes 28 in
  let* expected_index_bytes := ok_or (checked_mul chunk_count INDEX_ENTRY_BYTES) LengthOverflow in
  let* bad :=
    if negb (index_offset =? HEADER_BYTES) || negb (index_bytes =? expected_index_bytes) then Ok true
    else let* e := ok_or (checked_add index_offset index_bytes) LengthOverflow in Ok (zlen bytes <? e) in
  if bad then Err NonCanonicalIndex else
  let* payload_start := add_usize index_offset index_bytes in
  let expected_chunks := div_ceil logical_len chunk_size in
  if negb (chunk_count =? expected_chunks) then Err NonCanonicalIndex else
  let* (st, payload_cursor) :=
    for_range 0 chunk_count (parse_entry bytes source_len index_offset chunk_size logical_len)
      ([], [], 0, payload_start) in
  let '(chunks, codecs, logical_cursor) := st in
  if negb (logical_cursor =? logical_len) || negb (payload_cursor =? source_len) then Err NonCanonicalIndex else
  Ok (logical_len, chunk_size, chunks, codecs).

(** ** The in-memory reader *)

Record EntropyTransport : Type := MkTransport {
  et_bytes : list Z;
  et_logical_len : Z;
  et_chunk_size : Z;
  et_chunks : list EntropyChunkInfo;
  et_codecs : list EntropyTransportChunkCodec }.

Definition read_entropy_transport (bytes : list Z) : eres EntropyTransport :=
  let* (st, codecs) := parse_transport_metadata bytes (zlen bytes) in
  let '(logical_len, chunk_size, chunks) := st in
  Ok (MkTransport bytes logical_len chunk_size chunks codecs).

Definition chunk_count (chunks : list EntropyChunkInfo) : Z := zlen chunks.
Definition chunk_info (chunks : list EntropyChunkInfo) (index : Z) : eres EntropyChunkInfo :=
  ok_or (chunks !! Z.to_nat index) (ChunkOutOfRange index).
Definition chunk_codec (codecs : list EntropyTransportChunkCodec) (index : Z) : eres EntropyTransportChunkCodec :=
  ok_or (codecs !! Z.to_nat index) (ChunkOutOfRange index).

Definition decode_chunk (info : EntropyChunkInfo) (codec : EntropyTransportChunkCodec) (payload : list Z)
  : eres (list Z) :=
  let* decoded :=
    match codec with
    | RawC => if negb (zlen payload =? ci_logical_len info) then Err DecodedLengthMismatch else Ok payload
    | HuffmanC => decode_huffman payload (ci_logical_len info)
    | RansC => decode_rans payload (ci_logical_len info)
    end in
  if negb (bool_decide (digest decoded = ci_digest info)) then Err DigestMismatch else Ok decoded.

Definition read_chunk (t : EntropyTransport) (index : Z) : eres (list Z) :=
  let* info := chunk_info (et_chunks t) index in
  let start := ci_payload_offset info in
  let* e := ok_or (checked_add start (ci_payload_len info)) LengthOverflow in
  let* payload := ok_or (get_slice (et_bytes t) start e) Truncated in
  let* codec := idx (et_codecs t) index in
  decode_chunk info codec payload.

(** The part of one chunk that lies in the range [offset, e). *)
Definition copy_overlap (chunk_size offset e index : Z) (chunk out : list Z) : eres (list Z) :=
  let* chunk_start := mul_usize index chunk_size in
  let from := saturating_sub offset chunk_start in
  let* room := sub_usize e chunk_start in
  let to := Z.min room (zlen chunk) in
  let* part := slice chunk from to in
  Ok (out ++ part).

Definition read_range (t : EntropyTransport) (offset len : Z) : eres (list Z) :=
  let* e := ok_or (checked_add offset len) RangeOutOfRange in
  if et_logical_len t <? e then Err RangeOutOfRange else
  if len =? 0 then Ok [] else
  let first := offset / et_chunk_size t in
  let last := (e - 1) / et_chunk_size t in
  for_range first (last + 1) (fun index out =>
    let* chunk := read_chunk t index in
    copy_overlap (et_chunk_size t) offset e index chunk out) [].

Definition read_all (t : EntropyTransport) : eres (list Z) := read_range t 0 (et_logical_len t).
End transport.

(** * Chunk geometry *)

Definition chunk_size_ok (cs : Z) : Prop := exists k, 6 <= k <= 20 /\ cs = 2 ^ k.

Lemma chunk_size_bounds cs : chunk_size_ok cs -> 64 <= cs <= 1048576.
Proof.
  intros (k & Hk & ->). change 64 with (2 ^ 6). change 1048576 with (2 ^ 20).
  split; apply Z.pow_le_mono_r; lia.
Qed.

Lemma validate_chunk_size_Ok cs u : validate_chunk_size cs = Ok u -> chunk_size_ok cs.
Proof.
  unfold validate_chunk_size, ensure. destruct (_ && _ && _) eqn:H; [intros _|done].
  rewrite !andb_true_iff in H. destruct H as [[H1 H2] H3]. apply Z.leb_le in H1, H2. apply power_of_two_log in H3.
  change ENTROPY_TRANSPORT_MIN_CHUNK_BYTES with 64 in H1. change ENTROPY_TRANSPORT_MAX_CHUNK_BYTES with 1048576 in H2.
  exists (Z.log2 cs). split; [|done]. split.
  - change 6 with (Z.log2 64). by apply Z.log2_le_mono.
  - change 20 with (Z.log2 1048576). by apply Z.log2_le_mono.
Qed.

(** A valid size validates, and its logarithm is what the header stores. *)
Lemma chunk_size_stored cs : chunk_size_ok cs ->
  validate_chunk_size cs = Ok tt /\ 6 <= trailing_zeros cs <= 20 /\ Z.shiftl 1 (trailing_zeros cs) = cs.
Proof.
  intros (k & Hk & ->).
  assert (H : forallb (fun k => (trailing_zeros (2 ^ k) =? k) &&
    match validate_chunk_size (2 ^ k) with Ok _ => true | _ => false end) (seqZ 6 15) = true) by (by vm_compute).
  rewrite forallb_forall in H. specialize (H k). rewrite <- list_elem_of_In, elem_of_seqZ in H. specialize (H ltac:(lia)).
  apply andb_true_iff in H as [H1 H2]. apply Z.eqb_eq in H1. rewrite H1.
  split; [destruct (validate_chunk_size (2 ^ k)) as [[]| | |]; done|]. split; [lia|]. rewrite Z.shiftl_1_l. done.
Qed.

(** Chunk [i] of [l]. *)
Definition chunk (cs : Z) (l : list Z) (i : Z) : list Z := sub l (i * cs) (Z.min ((i + 1) * cs) (zlen l)).

Lemma chunk_in cs n i : 0 < cs -> 0 <= n -> 0 <= i < div_ceil n cs -> 0 <= i * cs < n.
Proof. intros Hcs Hn Hi. pose proof (div_ceil_bounds n cs Hcs). nia. Qed.

Lemma zlen_chunk cs l i :
  0 < cs -> 0 <= i < div_ceil (zlen l) cs -> zlen (chunk cs l i) = Z.min (zlen l - i * cs) cs.
Proof.
  intros Hcs Hi. pose proof (chunk_in cs (zlen l) i Hcs (zlen_nonneg l) Hi). unfold chunk. rewrite zlen_sub by lia. lia.
Qed.

Lemma range_chunks cs n off e i :
  0 < cs -> 0 <= off -> off < e <= n -> off / cs <= i < (e - 1) / cs + 1 ->
  0 <= i < div_ceil n cs /\ i * cs < e /\ off < (i + 1) * cs.
Proof.
  intros Hcs Ho He Hi.
  assert (H0 : 0 <= off / cs) by (apply Z.div_pos; lia).
  assert (H1 : i * cs <= e - 1) by (pose proof (Z.mul_div_le (e - 1) cs Hcs); nia).
  assert (H2 : off < (i + 1) * cs) by (pose proof (Z.mul_succ_div_gt off cs Hcs); nia).
  split; [|lia]. split; [lia|]. pose proof (div_ceil_bounds n cs Hcs). nia.
Qed.

(** One step of the range loop, on a chunk of [l] or on any bytes of that length. *)
Lemma copy_overlap_returns cs off e i c out n :
  chunk_size_ok cs -> 0 <= off -> off < e <= n -> n <= usize_max -> off / cs <= i < (e - 1) / cs + 1 ->
  zlen c = Z.min (n - i * cs) cs ->
  copy_overlap cs off e i c out =
    Ok (out ++ sub c (saturating_sub off (i * cs)) (Z.min (e - i * cs) (zlen c))).
Proof.
  intros Hcs Ho He Hn Hi Hc. pose proof (chunk_size_bounds cs Hcs) as Hb.
  destruct (range_chunks cs n off e i ltac:(lia) Ho He Hi) as (Hi1 & Hi2 & Hi3).
  unfold copy_overlap, mul_usize, checked_mul. replace (i * cs <=? usize_max) with true by lia. cbn [unwrap bind].
  unfold sub_usize, checked_sub. replace (i * cs <=? e) with true by lia. cbn [unwrap bind].
  unfold saturating_sub. by rewrite slice_Ok by nia.
Qed.

Lemma copy_overlap_chunk cs off e i l :
  chunk_size_ok cs -> 0 <= off -> off < e <= zlen l -> zlen l <= usize_max -> off / cs <= i < (e - 1) / cs + 1 ->
  copy_overlap cs off e i (chunk cs l i) (sub l off (Z.max off (i * cs))) =
    Ok (sub l off (Z.max off (Z.min e ((i + 1) * cs)))).
Proof.
  intros Hcs Ho He Hl Hi. pose proof (chunk_size_bounds cs Hcs) as Hb.
  destruct (range_chunks cs (zlen l) off e i ltac:(lia) Ho He Hi) as (Hi1 & Hi2 & Hi3).
  assert (Hz : zlen (chunk cs l i) = Z.min (zlen l - i * cs) cs) by (apply zlen_chunk; lia).
  rewrite (copy_overlap_returns cs off e i _ _ (zlen l)) by done. rewrite Hz. f_equal.
  unfold chunk, saturating_sub. rewrite sub_sub by lia.
  replace (i * cs + Z.max (off - i * cs) 0) with (Z.max off (i * cs)) by lia.
  rewrite sub_join by lia. f_equal. lia.
Qed.

(** * The index *)

Lemma read_u32_Ok bytes o :
  0 <= o -> o + 4 <= zlen bytes <= isize_max -> read_u32 bytes o = Ok (from_le (sub bytes o (o + 4))).
Proof.
  intros Ho Hl. unfold read_u32, checked_add, usize_max. unfold isize_max in Hl.
  replace (o + 4 <=? _) with true by lia. cbn [ok_or bind]. unfold get_slice. by rewrite in_slice_true by lia.
Qed.

Lemma read_u64_Ok bytes o :
  0 <= o -> o + 8 <= zlen bytes <= isize_max -> read_u64 bytes o = Ok (from_le (sub bytes o (o + 8))).
Proof.
  intros Ho Hl. unfold read_u64, checked_add, usize_max. unfold isize_max in Hl.
  replace (o + 8 <=? _) with true by lia. cbn [ok_or bind]. unfold get_slice. by rewrite in_slice_true by lia.
Qed.

(** What one pass of the index loop does with the 60 bytes of an entry. *)
Definition check_entry (version source_len chunk_size logical_len : Z) (ent : list Z)
    (st : list EntropyChunkInfo * list EntropyTransportChunkCodec * Z * Z)
  : eres (list EntropyChunkInfo * list EntropyTransportChunkCodec * Z * Z) :=
  let '(chunks, codecs, logical_cursor, payload_cursor) := st in
  let logical_offset := from_le (sub ent 0 8) in
  let payload_offset := from_le (sub ent 8 16) in
  let logical_chunk_len := from_le (sub ent 16 20) in
  let payload_len := from_le (sub ent 20 24) in
  let mode := bget ent 24 in
  let digest := sub ent 28 60 in
  if negb (bool_decide (sub ent 25 28 = [0; 0; 0])) then Err NonZeroReserved else
  let* left_ := ok_or (checked_sub logical_len logical_cursor) NonCanonicalIndex in
  let bad_mode := (MODE_RANS <? mode) || ((version =? 1) && (mode =? MODE_RANS)) in
  if negb (logical_offset =? logical_cursor) || negb (logical_chunk_len =? Z.min left_ chunk_size) ||
     negb (payload_offset =? payload_cursor) || bad_mode
  then Err (if bad_mode then UnknownMode mode else NonCanonicalIndex) else
  let* payload_end := ok_or (checked_add payload_offset payload_len) LengthOverflow in
  if source_len <? payload_end then Err Truncated else
  let* logical_cursor := ok_or (checked_add logical_cursor logical_chunk_len) LengthOverflow in
  let info := MkInfo logical_offset payload_offset logical_chunk_len payload_len (mode =? MODE_HUFFMAN) digest in
  let* codec :=
    if mode =? MODE_RAW then Ok RawC
    else if mode =? MODE_HUFFMAN then Ok HuffmanC
    else if mode =? MODE_RANS then Ok RansC
    else Err (UnknownMode mode) in
  Ok (chunks ++ [info], codecs ++ [codec], logical_cursor, payload_end).

Lemma parse_entry_eq bytes source_len cs ll i st :
  0 <= i -> 36 + 60 * i + 60 <= zlen bytes <= isize_max ->
  parse_entry bytes source_len 36 cs ll i st =
    check_entry (bget bytes 4) source_len cs ll (sub bytes (36 + 60 * i) (36 + 60 * i + 60)) st.
Proof.
  intros Hi Hl. destruct st as [[[chunks codecs] lc] pc]. unfold parse_entry, check_entry.
  pose proof (proj2 Hl) as Hmax. unfold isize_max in Hmax.
  unfold mul_usize, checked_mul. change INDEX_ENTRY_BYTES with 60. unfold usize_max at 1.
  replace (i * 60 <=? _) with true by lia. cbn [unwrap bind].
  set (e := 36 + 60 * i) in *. replace (36 + i * 60) with e by lia.
  assert (Hadd : forall k, 0 <= k <= 60 -> add_usize (E := EntropyTransportError) e k = Ok (e + k)).
  { intros k Hk. unfold add_usize, checked_add, usize_max. by replace (e + k <=? _) with true by lia. }
  replace (add_usize 36 (i * 60)) with (Ok (E := EntropyTransportError) e)
    by (unfold add_usize, checked_add, usize_max; replace (36 + i * 60) with e by lia; by replace (e <=? _) with true by lia).
  cbn [bind]. rewrite (read_u64_Ok bytes e) by lia. cbn [bind].
  rewrite !Hadd by lia. cbn [bind]. rewrite read_u64_Ok by lia. cbn [bind]. rewrite !read_u32_Ok by lia. cbn [bind].
  destruct (lookup_Z bytes (e + 24) ltac:(lia)) as [mode Hmode]. rewrite Hmode. cbn [ok_or bind].
  unfold get_slice. rewrite !in_slice_true by lia. rewrite idx_bget by lia. cbn [ok_or bind].
  rewrite !sub_sub by lia. rewrite bget_sub by lia.
  replace (bget bytes (e + 24)) with mode by (unfold bget; by rewrite Hmode).
  rewrite zlen_sub by lia. unfold ensure. replace (e + 60 - (e + 28) =? 32) with true by lia. cbn [bind].
  rewrite Z.add_0_r. 
  match goal with |- context [bool_decide (Some ?P = Some ?Q)] =>
    replace (bool_decide (Some P = Some Q)) with (bool_decide (P = Q)) by (apply bool_decide_ext; split; congruence)
  end.
  replace (e + 8 + 8) with (e + 16) by lia. replace (e + 16 + 4) with (e + 20) by lia. replace (e + 20 + 4) with (e + 24) by lia.
  done.
Qed.

(** The geometry a parsed index has. *)
Definition info_ok (source_len ll cs i : Z) (info : EntropyChunkInfo) : Prop :=
  ci_logical_len info = Z.min (ll - i * cs) cs /\ ci_logical_offset info = i * cs /\
  0 <= ci_payload_offset info /\ 0 <= ci_payload_len info /\
  ci_payload_offset info + ci_payload_len info <= source_len.

Definition index_ok (source_len ll cs : Z) (chunks : list EntropyChunkInfo)
    (codecs : list EntropyTransportChunkCodec) : Prop :=
  chunk_size_ok cs /\ 0 <= ll <= u64_max /\ zlen chunks = div_ceil ll cs /\ zlen codecs = zlen chunks /\
  forall i info, 0 <= i -> chunks !! Z.to_nat i = Some info -> info_ok source_len ll cs i info.

Definition entry_inv (source_len ll cs i : Z)
    (st : list EntropyChunkInfo * list EntropyTransportChunkCodec * Z * Z) : Prop :=
  let '(chunks, codecs, lc, pc) := st in
  zlen chunks = i /\ zlen codecs = i /\ lc = Z.min (i * cs) ll /\ 0 <= pc /\
  forall j info, 0 <= j -> chunks !! Z.to_nat j = Some info -> info_ok source_len ll cs j info.

Lemma check_entry_ok version source_len cs ll ent i st :
  0 < cs -> 0 <= ll <= u64_max -> 0 <= i < div_ceil ll cs -> bytes_ok ent ->
  entry_inv source_len ll cs i st ->
  returns (check_entry version source_len cs ll ent st) /\
  forall st', check_entry version source_len cs ll ent st = Ok st' -> entry_inv source_len ll cs (i + 1) st'.
Proof.
  intros Hcs Hll Hi Hu. destruct st as [[[chunks codecs] lc] pc]. intros (Hc1 & Hc2 & Hlc & Hpc & Hinfo).
  pose proof (chunk_in cs ll i Hcs (proj1 Hll) Hi) as Hics.
  pose proof (from_le_bound _ (bytes_ok_sub ent 8 16 Hu)) as [Hpo _].
  pose proof (from_le_bound _ (bytes_ok_sub ent 20 24 Hu)) as [Hpl _].
  unfold check_entry. destruct (negb _); [done|]. unfold checked_sub, checked_add, usize_max. unfold u64_max in Hll.
  replace (lc <=? ll) with true by lia. cbn [ok_or bind].
  destruct (Z.eqb_spec (from_le (sub ent 0 8)) lc) as [Hlo|]; [|done].
  destruct (Z.eqb_spec (from_le (sub ent 16 20)) (Z.min (ll - lc) cs)) as [Hlen|]; [|done].
  destruct (Z.eqb_spec (from_le (sub ent 8 16)) pc) as [Hpo'|]; [|done]. cbn [negb orb].
  destruct (_ || _); [done|]. destruct (_ <=? _); [|done]. cbn [ok_or bind].
  destruct (Z.ltb_spec source_len (from_le (sub ent 8 16) + from_le (sub ent 20 24))) as [|Hend]; [done|].
  replace (lc + from_le (sub ent 16 20) <=? _) with true by lia. cbn [ok_or bind].
  assert (Hfin : forall codec st', Ok (E := EntropyTransportError) (chunks ++ [MkInfo (from_le (sub ent 0 8)) (from_le (sub ent 8 16))
      (from_le (sub ent 16 20)) (from_le (sub ent 20 24)) (bget ent 24 =? MODE_HUFFMAN) (sub ent 28 60)],
      codecs ++ [codec], lc + from_le (sub ent 16 20), from_le (sub ent 8 16) + from_le (sub ent 20 24)) = Ok st' ->
    entry_inv source_len ll cs (i + 1) st').
  { intros codec st' <-%Ok_inj. split; [rewrite zlen_app; change (zlen [_]) with 1; lia|].
    split; [rewrite zlen_app; change (zlen [_]) with 1; lia|]. split; [rewrite Hlen, Hlc; lia|]. split; [lia|].
    intros j info Hj Hl. destruct (decide (Z.to_nat j < length chunks)%nat).
    - rewrite lookup_app_l in Hl by done. by apply Hinfo.
    - rewrite lookup_app_r in Hl by lia. assert (Z.to_nat j = length chunks) as Hjl.
      { apply lookup_lt_Some in Hl. simpl in Hl. lia. }
      rewrite Hjl, Nat.sub_diag in Hl. injection Hl as <-. assert (j = i) as -> by (unfold zlen in Hc1; lia).
      unfold info_ok. simpl. rewrite Hlen, Hlo, Hlc. replace (Z.min (i * cs) ll) with (i * cs) by lia. lia. }
  destruct (_ =? MODE_RAW); [split; [done|apply Hfin]|]. destruct (_ =? MODE_HUFFMAN); [split; [done|apply Hfin]|].
  destruct (_ =? MODE_RANS); [split; [done|apply Hfin]|done].
Qed.

Lemma parse_loop_ok bytes source_len cs ll ps :
  bytes_ok bytes -> zlen bytes <= isize_max -> 0 < cs -> 0 <= ll <= u64_max -> 0 <= ps ->
  36 + 60 * div_ceil ll cs <= zlen bytes ->
  let r := for_range 0 (div_ceil ll cs) (parse_entry bytes source_len 36 cs ll) ([], [], 0, ps) in
  returns r /\ forall st, r = Ok st -> entry_inv source_len ll cs (div_ceil ll cs) st.
Proof.
  intros Hu Hl Hcs Hll Hps Hroom r. pose proof (div_ceil_nonneg ll cs (proj1 Hll) Hcs) as Hn.
  assert (H0 : entry_inv source_len ll cs 0 ([], [], 0, ps)).
  { split; [done|]. split; [done|]. split; [lia|]. split; [done|]. intros j info Hj Hx. by rewrite lookup_nil in Hx. }
  assert (Hstep : forall i st, 0 <= i < div_ceil ll cs -> entry_inv source_len ll cs i st ->
    returns (parse_entry bytes source_len 36 cs ll i st) /\
    forall st', parse_entry bytes source_len 36 cs ll i st = Ok st' -> entry_inv source_len ll cs (i + 1) st').
  { intros i st Hi HI. rewrite parse_entry_eq by lia. apply check_entry_ok; try done. by apply bytes_ok_sub. }
  subst r. split.
  - by apply (for_range_returns (entry_inv source_len ll cs)).
  - intros st Hst. eapply (for_range_Ok_inv (entry_inv source_len ll cs)); [exact Hn|exact Hst|done|].
    intros i s s' Hi HI Hs. by apply (Hstep i s Hi HI).
Qed.

Lemma parse_ok bytes source_len :
  bytes_ok bytes -> zlen bytes <= isize_max ->
  returns (parse_transport_metadata bytes source_len) /\
  forall ll cs chunks codecs, parse_transport_metadata bytes source_len = Ok (ll, cs, chunks, codecs) ->
    index_ok source_len ll cs chunks codecs.
Proof.
  intros Hu Hl. unfold parse_transport_metadata. change HEADER_BYTES with 36. change INDEX_ENTRY_BYTES with 60.
  destruct (Z.ltb_spec (zlen bytes) 36) as [|H36]; [done|]. cbn [orb]. destruct (negb _); [done|].
  rewrite !idx_bget by lia. cbn [bind]. destruct (negb _); [done|]. destruct (_ || _); [done|].
  destruct (_ <=? _); [done|].
  set (cs := Z.shiftl 1 (bget bytes 6)). destruct (validate_chunk_size cs) as [[]|e| |] eqn:Hcs; cbn [bind];
    [|done|unfold validate_chunk_size, ensure in Hcs; by destruct (_ && _)..].
  apply validate_chunk_size_Ok in Hcs. pose proof (chunk_size_bounds cs Hcs) as Hcb.
  rewrite (read_u64_Ok bytes 8), (read_u32_Ok bytes 16) by lia. cbn [bind]. rewrite !read_u64_Ok by lia. cbn [bind].
  pose proof (from_le_bound _ (bytes_ok_sub bytes 8 16 Hu)) as Hll. rewrite zlen_sub in Hll by lia.
  change (256 ^ (16 - 8)) with 18446744073709551616 in Hll.
  pose proof (from_le_bound _ (bytes_ok_sub bytes 16 20 Hu)) as Hcc. rewrite zlen_sub in Hcc by lia.
  change (256 ^ (20 - 16)) with 4294967296 in Hcc.
  change (8 + 8) with 16. change (16 + 4) with 20. change (20 + 8) with 28. change (28 + 8) with 36.
  set (ll := from_le (sub bytes 8 16)) in *. set (cc := from_le (sub bytes 16 20)) in *.
  unfold checked_mul, usize_max. replace (cc * 60 <=? _) with true by lia. cbn [ok_or bind].
  destruct (Z.eqb_spec (from_le (sub bytes 20 28)) 36) as [->|]; [|done].
  destruct (Z.eqb_spec (from_le (sub bytes 28 36)) (cc * 60)) as [->|]; [|done]. cbn [negb orb].
  unfold add_usize, checked_add, usize_max. replace (36 + cc * 60 <=? _) with true by lia. cbn [ok_or unwrap bind].
  destruct (Z.ltb_spec (zlen bytes) (36 + cc * 60)) as [|Hroom]; [done|]. cbn [bind].
  destruct (Z.eqb_spec cc (div_ceil ll cs)) as [->|]; [|done]. cbn [negb].
  destruct (parse_loop_ok bytes source_len cs ll (36 + div_ceil ll cs * 60)) as [Hr Hok]; try done; try lia; [unfold u64_max; lia|].
  split.
  - apply returns_bind; [done|]. intros [[[chunks codecs] lc] pc] _. by destruct (_ || _).
  - intros ll' cs' chunks codecs H. bind_inv H. destruct v as [[[ch co] lc] pc]. destruct (Hok _ Hv) as (H1 & H2 & _ & _ & H3).
    destruct (_ || _); [done|]. injection H as <- <- <- <-. split; [done|]. split; [unfold u64_max; lia|].
    split; [done|]. split; [congruence|done].
Qed.

(** * Reading *)

Section reader.
Variable blake3 : list Z -> list Z.

Lemma decode_chunk_returns info codec payload :
  bytes_ok payload -> 0 <= ci_logical_len info ->
  returns (decode_chunk blake3 info codec payload) /\
  forall out, decode_chunk blake3 info codec payload = Ok out ->
    zlen out = ci_logical_len info /\ blake3 out = ci_digest info.
Proof.
  intros Hu Hn. unfold decode_chunk. set (body := match codec with RawC => _ | HuffmanC => _ | RansC => _ end).
  assert (Hbody : returns body /\ forall out, body = Ok out -> zlen out = ci_logical_len info).
  { subst body. destruct codec.
    - destruct (Z.eqb_spec (zlen payload) (ci_logical_len info)) as [He|]; [|done]. split; [done|]. by intros out [= <-].
    - split; [by apply codec_safe|]. intros out. by apply codec_len.
    - split; [by apply codec_safe|]. intros out. by apply codec_len. }
  destruct Hbody as [Hr Hok]. split.
  - apply returns_bind; [done|]. intros out _. clear Hr Hok. subst body. by destruct (bool_decide _).
  - intros out H. bind_inv H. destruct (bool_decide (digest blake3 v = ci_digest info)) eqn:Hd; [|done].
    injection H as <-. split; [by apply Hok|]. by apply bool_decide_eq_true in Hd.
Qed.

(** A parsed transport over [bytes]. *)
Definition transport_ok (t : EntropyTransport) : Prop :=
  bytes_ok (et_bytes t) /\ zlen (et_bytes t) <= isize_max /\
  index_ok (zlen (et_bytes t)) (et_logical_len t) (et_chunk_size t) (et_chunks t) (et_codecs t).

Lemma read_entropy_transport_ok bytes :
  bytes_ok bytes -> zlen bytes <= isize_max -> returns (read_entropy_transport bytes) /\
  forall t, read_entropy_transport bytes = Ok t -> transport_ok t /\ et_bytes t = bytes.
Proof.
  intros Hu Hl. destruct (parse_ok bytes (zlen bytes) Hu Hl) as [Hr Hok]. unfold read_entropy_transport. split.
  - apply returns_bind; [done|]. by intros [[[? ?] ?] ?] _.
  - intros t H. bind_inv H. destruct v as [[[ll cs] chunks] codecs]. injection H as <-. simpl. split; [|done].
    split; [done|]. split; [done|]. by apply Hok.
Qed.

Lemma read_chunk_ok t i :
  transport_ok t -> 0 <= i ->
  returns (read_chunk blake3 t i) /\
  forall out, read_chunk blake3 t i = Ok out ->
    0 <= i < div_ceil (et_logical_len t) (et_chunk_size t) /\
    zlen out = Z.min (et_logical_len t - i * et_chunk_size t) (et_chunk_size t) /\
    exists info, et_chunks t !! Z.to_nat i = Some info /\ blake3 out = ci_digest info.
Proof.
  intros (Hu & Hl & Hcs & Hll & Hcn & Hco & Hinfo) Hi. unfold read_chunk, chunk_info.
  destruct (et_chunks t !! Z.to_nat i) as [info|] eqn:He; [|done]. cbn [ok_or bind].
  destruct (Hinfo i info Hi He) as (H1 & H2 & H3 & H4 & H5). pose proof (lookup_Z_lt _ _ _ Hi He) as Hin.
  pose proof (chunk_size_bounds _ Hcs) as Hcb. pose proof (chunk_in (et_chunk_size t) (et_logical_len t) i ltac:(lia) (proj1 Hll) ltac:(lia)).
  unfold isize_max in Hl. unfold checked_add, usize_max. replace (_ <=? _) with true by lia. cbn [ok_or bind].
  unfold get_slice. rewrite in_slice_true by lia. cbn [ok_or bind].
  destruct (lookup_Z (et_codecs t) i ltac:(lia)) as [codec Hc]. rewrite (idx_Ok _ _ _ Hi Hc). cbn [bind].
  destruct (decode_chunk_returns info codec (sub (et_bytes t) (ci_payload_offset info) (ci_payload_offset info + ci_payload_len info)))
    as [Hr Hok]; [by apply bytes_ok_sub|lia|].
  split; [done|]. intros out Hout. destruct (Hok out Hout) as [Hlen Hdig]. split; [lia|]. split; [lia|]. by exists info.
Qed.

Lemma range_loop_start cs off : 0 < cs -> 0 <= off -> off / cs * cs <= off.
Proof. intros Hcs Ho. pose proof (Z.mul_div_le off cs Hcs). lia. Qed.

Lemma range_loop_end cs e : 0 < cs -> e <= ((e - 1) / cs + 1) * cs.
Proof. intros Hcs. pose proof (Z.mul_succ_div_gt (e - 1) cs Hcs). lia. Qed.

Lemma last_chunk cs n : 0 < cs -> (n - 1) / cs + 1 = div_ceil n cs.
Proof.
  intros Hcs. unfold div_ceil. replace (n + (cs - 1)) with (n - 1 + 1 * cs) by lia. by rewrite Z.div_add by lia.
Qed.

Lemma range_order cs off e : 0 < cs -> off < e -> off / cs <= (e - 1) / cs + 1.
Proof. intros Hcs He. pose proof (Z.div_le_mono off (e - 1) cs Hcs ltac:(lia)). lia. Qed.

Lemma read_range_returns t off len :
  transport_ok t -> 0 <= off -> 0 <= len ->
  returns (read_range blake3 t off len) /\
  forall out, read_range blake3 t off len = Ok out -> zlen out = len /\ off + len <= et_logical_len t.
Proof.
  intros Ht Ho Hlen. pose proof Ht as (_ & _ & Hcs & Hll & _). unfold read_range, checked_add.
  destruct (off + len <=? usize_max); [|done]. cbn [ok_or bind].
  destruct (Z.ltb_spec (et_logical_len t) (off + len)) as [|He]; [done|].
  destruct (Z.eqb_spec len 0) as [->|Hne]; [split; [done|]; intros out <-%Ok_inj; split; [done|lia]|].
  pose proof (chunk_size_bounds _ Hcs) as Hcb. set (cs := et_chunk_size t) in *. set (e := off + len) in *.
  set (body := fun index out => _).
  set (I := fun i (out : list Z) => zlen out = Z.max off (Z.min e (i * cs)) - off).
  assert (Hstep : forall i out, off / cs <= i < (e - 1) / cs + 1 -> I i out ->
    returns (body i out) /\ forall out', body i out = Ok out' -> I (i + 1) out').
  { intros i out Hi HI. unfold I in *. destruct (range_chunks cs (et_logical_len t) off e i) as (H1 & H2 & H3); [lia..|].
    destruct (read_chunk_ok t i Ht ltac:(lia)) as [Hr Hok]. unfold body. destruct (read_chunk blake3 t i) as [c|err| |] eqn:Hc; try done.
    cbn [bind]. destruct (Hok c eq_refl) as (_ & Hcl & _). fold cs in Hcl.
    rewrite (copy_overlap_returns cs off e i c out (et_logical_len t)) by (done || lia || (unfold usize_max, u64_max in *; lia)).
    split; [done|]. intros out' <-%Ok_inj. rewrite zlen_app, zlen_sub by (unfold saturating_sub; nia).
    rewrite HI, Hcl. unfold saturating_sub. nia. }
  assert (H0 : I (off / cs) []) by (unfold I; pose proof (range_loop_start cs off); change (zlen []) with 0; lia).
  pose proof (range_order cs off e ltac:(lia) ltac:(lia)) as Hord. split.
  - by apply (for_range_returns I).
  - intros out Hout. assert (Hfin : I ((e - 1) / cs + 1) out).
    { eapply (for_range_Ok_inv I); [exact Hord|exact Hout|done|]. intros i s s' Hi HI Hs. by apply (Hstep i s Hi HI). }
    unfold I in Hfin. pose proof (range_loop_end cs e ltac:(lia)). lia.
Qed.

(** Ranges of a transport whose chunks decode to the chunks of [content]. *)
Lemma read_range_content t content off len :
  transport_ok t -> zlen content = et_logical_len t ->
  (forall i, 0 <= i < div_ceil (et_logical_len t) (et_chunk_size t) ->
     read_chunk blake3 t i = Ok (chunk (et_chunk_size t) content i)) ->
  0 <= off -> 0 <= len ->
  read_range blake3 t off len =
    if off + len <=? et_logical_len t then Ok (sub content off (off + len)) else Err RangeOutOfRange.
Proof.
  intros Ht Hcl Hch Ho Hlen. pose proof Ht as (_ & _ & Hcs & Hll & _). unfold read_range, checked_add.
  unfold u64_max in Hll. destruct (Z.leb_spec (off + len) (et_logical_len t)) as [He|He].
  2:{ destruct (_ <=? usize_max); [|done]. cbn [ok_or bind]. by replace (et_logical_len t <? off + len) with true by lia. }
  unfold usize_max. replace (off + len <=? _) with true by lia. cbn [ok_or bind].
  replace (et_logical_len t <? off + len) with false by lia.
  destruct (Z.eqb_spec len 0) as [->|Hne]; [by rewrite Z.add_0_r, sub_empty|].
  pose proof (chunk_size_bounds _ Hcs) as Hcb. set (cs := et_chunk_size t) in *. set (e := off + len) in *.
  destruct (for_range_inv (fun i out => out = sub content off (Z.max off (Z.min e (i * cs))))
    (fun index out => let* c := read_chunk blake3 t index in copy_overlap cs off e index c out)
    (off / cs) ((e - 1) / cs + 1) []) as (out & -> & ->).
  - apply range_order; lia.
  - pose proof (range_loop_start cs off ltac:(lia) Ho). replace (Z.max off _) with off by lia. by rewrite sub_empty.
  - intros i out Hi ->. destruct (range_chunks cs (et_logical_len t) off e i) as (H1 & H2 & H3); [lia..|].
    rewrite Hch by done. cbn [bind]. replace (Z.min e (i * cs)) with (i * cs) by lia. eexists. split; [|reflexivity].
    apply copy_overlap_chunk; try done; try lia. unfold usize_max. lia.
  - do 2 f_equal. pose proof (range_loop_end cs e ltac:(lia)). lia.
Qed.

(** A transport that reads in full reads every chunk. *)
Lemma read_all_chunks t content :
  transport_ok t -> read_all blake3 t = Ok content -> zlen content = et_logical_len t /\
  forall i, 0 <= i < div_ceil (et_logical_len t) (et_chunk_size t) ->
    read_chunk blake3 t i = Ok (chunk (et_chunk_size t) content i).
Proof.
  intros Ht Hall. pose proof Ht as (_ & _ & Hcs & Hll & _). pose proof (chunk_size_bounds _ Hcs) as Hcb.
  destruct (read_range_returns t 0 (et_logical_len t) Ht ltac:(lia) (proj1 Hll)) as [_ Hzl].
  destruct (Hzl content Hall) as [Hlen _]. split; [done|]. clear Hzl.
  unfold read_all, read_range, checked_add in Hall. unfold u64_max in Hll. rewrite Z.add_0_l in Hall.
  unfold usize_max in Hall. replace (et_logical_len t <=? _) with true in Hall by lia. cbn [ok_or bind] in Hall.
  rewrite Z.ltb_irrefl in Hall. set (cs := et_chunk_size t) in *. set (ll := et_logical_len t) in *.
  pose proof (div_ceil_bounds ll cs ltac:(lia)) as Hdc. pose proof (div_ceil_nonneg ll cs ltac:(lia) ltac:(lia)) as Hdn.
  destruct (Z.eqb_spec ll 0) as [H0|Hne]; [intros i Hi; nia|].
  rewrite Z.div_0_l in Hall by lia.
  rewrite last_chunk in Hall by lia.
  unfold chunk. rewrite Hlen.
  apply (for_range_Ok_inv (fun n out => zlen out = Z.min (n * cs) ll /\ forall i, 0 <= i < n ->
    read_chunk blake3 t i = Ok (sub out (i * cs) (Z.min ((i + 1) * cs) ll))) _ 0 (div_ceil ll cs) [] content) in Hall as [_ Hall];
    [exact Hall|lia|split; [change (zlen []) with 0; lia|lia]|].
  intros n out out' Hn [Hz Hpre] Hs. bind_inv Hs. destruct (read_chunk_ok t n Ht ltac:(lia)) as [_ Hok].
  destruct (Hok v Hv) as (_ & Hvl & _). fold cs ll in Hvl. pose proof (chunk_in cs ll n ltac:(lia) ltac:(lia) Hn) as Hcn.
  assert (Hnr : 0 / cs <= n < (ll - 1) / cs + 1) by (rewrite last_chunk, Z.div_0_l by lia; done).
  rewrite (copy_overlap_returns cs 0 ll n v out ll) in Hs by (done || (unfold usize_max; lia)).
  apply Ok_inj in Hs as <-. unfold saturating_sub. replace (Z.max (0 - n * cs) 0) with 0 by lia.
  replace (Z.min (ll - n * cs) (zlen v)) with (zlen v) by lia. rewrite sub_full. split; [rewrite zlen_app; nia|].
  intros i Hi. destruct (Z.eq_dec i n) as [->|Hin].
  - rewrite Hv. f_equal. replace (n * cs) with (zlen out) by lia. symmetry. apply sub_app_r. nia.
  - rewrite Hpre by lia. f_equal. symmetry. apply sub_app_low; nia.
Qed.
End reader.
