(* ===== verification/TransportWrite.v ===== *)
(** * Entropy transport: the writer against the reader

    What write_entropy_transport_with_chunk_size lays out, and that the reader of
    Transport.v returns it range by range.  The statements are at the end. *)

From S2P Require Import Prelude Core FormatBase TwoBit EntropyBase Rans HuffmanTree HuffmanCode Huffman Transport.
From Stdlib Require Import ZArith Lia Bool.
From stdpp Require Import base list numbers sorting.

#[local] Open Scope Z_scope.

(** * Chunks *)

(** What the index records of a chunk decodes back to it. *)
Definition decodes (codec : EntropyTransportChunkCodec) (payload logical : list Z) : Prop :=
  match codec with
  | RawC => payload = logical
  | HuffmanC => decode_huffman payload (zlen logical) = Ok logical
  | RansC => decode_rans payload (zlen logical) = Ok logical
  end.

Lemma encode_chunk_ok l :
  bytes_ok l -> 0 < zlen l <= 2 ^ 50 ->
  exists codec payload, encode_chunk l = Ok (codec, payload) /\ zlen payload <= zlen l /\
    bytes_ok payload /\ decodes codec payload l.
Proof.
  intros Hu Hl. unfold encode_chunk. replace (zlen l =? 0) with false by lia.
  destruct (codec_inverse (encode := encode_huffman) l Hu Hl) as (h & -> & Hh & Hhd). cbn [bind].
  destruct (codec_inverse (encode := encode_rans) l Hu Hl) as (r & -> & Hr & Hrd). cbn [bind snd].
  destruct (Z.ltb_spec (zlen h) (zlen l)); cbn [snd];
    [destruct (Z.ltb_spec (zlen r) (zlen h))|destruct (Z.ltb_spec (zlen r) (zlen l))];
    eexists _, _; (split; [reflexivity|]); (split; [lia|]); done.
Qed.

Definition payload_of (l : list Z) : list Z := match encode_chunk l with Ok (_, p) => p | _ => [] end.
Definition codec_of (l : list Z) : EntropyTransportChunkCodec :=
  match encode_chunk l with Ok (c, _) => c | _ => RawC end.

Lemma encode_chunk_eq l :
  bytes_ok l -> 0 < zlen l <= 2 ^ 50 ->
  encode_chunk l = Ok (codec_of l, payload_of l) /\ zlen (payload_of l) <= zlen l /\
  bytes_ok (payload_of l) /\ decodes (codec_of l) (payload_of l) l.
Proof.
  intros Hu Hl. unfold codec_of, payload_of. by destruct (encode_chunk_ok l Hu Hl) as (codec & payload & -> & H).
Qed.

Section writer.
Variable blake3 : list Z -> list Z.
Hypothesis blake3_32 : forall l, zlen (blake3 l) = 32 /\ bytes_ok (blake3 l).
Variables (bytes : list Z) (cs : Z).
Hypothesis bytes_u8 : bytes_ok bytes.
Hypothesis bytes_max : zlen bytes <= 2 ^ 36.
Hypothesis cs_ok : chunk_size_ok cs.

Definition nchunks : Z := div_ceil (zlen bytes) cs.
Definition logical (i : Z) : list Z := chunk cs bytes i.
Definition payload (i : Z) : list Z := payload_of (logical i).
Definition pstart : Z := 36 + 60 * nchunks.
Definition info_at (i : Z) : EntropyChunkInfo :=
  MkInfo (i * cs) (pstart + zlen (blocks i payload)) (zlen (logical i)) (zlen (payload i))
    (bool_decide (codec_of (logical i) = HuffmanC)) (blake3 (logical i)).

Lemma nchunks_bounds : 0 <= nchunks <= 2 ^ 30 /\ cs * (nchunks - 1) < zlen bytes <= cs * nchunks.
Proof using bytes_max cs_ok.
  pose proof (chunk_size_bounds cs cs_ok). pose proof (zlen_nonneg bytes). unfold nchunks.
  pose proof (div_ceil_bounds (zlen bytes) cs ltac:(lia)). split; [|done].
  split; [apply div_ceil_nonneg; lia|]. change (2 ^ 36) with 68719476736 in bytes_max. change (2 ^ 30) with 1073741824. nia.
Qed.

Lemma chunk_facts i : 0 <= i < nchunks ->
  encode_chunk (logical i) = Ok (codec_of (logical i), payload i) /\
  0 < zlen (logical i) <= cs /\ zlen (logical i) = Z.min (zlen bytes - i * cs) cs /\
  zlen (payload i) <= zlen (logical i) /\ bytes_ok (payload i) /\
  decodes (codec_of (logical i)) (payload i) (logical i).
Proof using bytes_u8 cs_ok.
  intros Hi. pose proof (chunk_size_bounds cs cs_ok) as Hcs.
  pose proof (chunk_in cs (zlen bytes) i ltac:(lia) (zlen_nonneg bytes) Hi) as Hin.
  assert (Hl : zlen (logical i) = Z.min (zlen bytes - i * cs) cs) by (apply zlen_chunk; [lia|done]).
  destruct (encode_chunk_eq (logical i)) as (H1 & H2 & H3 & H4).
  - by apply bytes_ok_sub.
  - change (2 ^ 50) with 1125899906842624. lia.
  - split; [done|]. split; [lia|]. split; [done|]. done.
Qed.

Lemma payload_total i : 0 <= i <= nchunks -> 0 <= zlen (blocks i payload) <= i * cs.
Proof using bytes_u8 cs_ok.
  intros [Hi Hn]. split; [auto with rust|]. revert i Hi Hn. apply (natlike_ind (fun i => i <= nchunks -> _)); [done|].
  intros i Hi IH Hn. change (Z.succ i) with (i + 1). rewrite blocks_S, zlen_app by done.
  destruct (chunk_facts i ltac:(lia)) as (_ & H1 & _ & H2 & _). specialize (IH ltac:(lia)). lia.
Qed.

Lemma chunks_of_eq : chunks_of cs bytes = tabulate nchunks logical.
Proof. done. Qed.

Lemma write_loop :
  for_enum 0 (chunks_of cs bytes) (write_chunk blake3 cs pstart) ([], [], [], 0) =
    Ok (tabulate nchunks payload, tabulate nchunks info_at, tabulate nchunks (fun i => codec_of (logical i)),
        zlen (blocks nchunks payload)).
Proof using bytes_u8 bytes_max cs_ok.
  rewrite chunks_of_eq. pose proof (chunk_size_bounds cs cs_ok) as Hcs. pose proof nchunks_bounds as [[Hn0 Hn1] Hn2].
  change (2 ^ 30) with 1073741824 in Hn1.
  destruct (for_enum_inv (fun i st => st = (tabulate i payload, tabulate i info_at,
      tabulate i (fun i => codec_of (logical i)), zlen (blocks i payload)))
    (write_chunk blake3 cs pstart) (tabulate nchunks logical) 0 ([], [], [], 0)) as (st & -> & ->); [done| |].
  - intros i l st Hi Hl ->. rewrite Z.sub_0_r in Hl. pose proof (lookup_Z_lt _ _ _ Hi Hl) as Hin.
    rewrite zlen_tabulate in Hin. rewrite lookup_tabulate in Hl by lia. injection Hl as <-.
    destruct (chunk_facts i ltac:(lia)) as (He & Hl1 & _ & Hp & _). pose proof (payload_total i ltac:(lia)) as Htot.
    unfold write_chunk. rewrite He. cbn [bind]. unfold checked_add, checked_mul, try_u32, ensure, usize_max, u32_max.
    assert (Hps : 0 <= pstart <= 36 + 60 * 1073741824) by (unfold pstart; lia).
    replace (pstart + _ <=? _) with true by nia. cbn [ok_or bind].
    replace (zlen (blocks i payload) + _ <=? _) with true by (unfold payload in *; nia). cbn [ok_or bind].
    replace (i * cs <=? _) with true by nia. cbn [ok_or bind].
    replace (zlen (logical i) <=? _) with true by lia. cbn [bind].
    replace (zlen (payload i) <=? _) with true by lia. cbn [bind].
    eexists. split; [reflexivity|]. rewrite !tabulate_S, blocks_S, zlen_app by done. done.
  - rewrite zlen_tabulate, Z.max_r, Z.add_0_l by done. done.
Qed.

(** The file. *)
Definition header : list Z :=
  ENTROPY_TRANSPORT_MAGIC ++ [2] ++ [0] ++ [trailing_zeros cs] ++ [0] ++
  to_le 8 (zlen bytes) ++ to_le 4 nchunks ++ to_le 8 36 ++ to_le 8 (60 * nchunks).
Definition entry_at (i : Z) : list Z := index_entry (info_at i, codec_of (logical i)).
Definition file : list Z := header ++ blocks nchunks entry_at ++ blocks nchunks payload.

Lemma zip_tabulate {A B} n (f : Z -> A) (g : Z -> B) : zip (tabulate n f) (tabulate n g) = tabulate n (fun i => (f i, g i)).
Proof. unfold tabulate. induction (seqZ 0 n) as [|x l IH]; [done|]. rewrite !fmap_cons. cbn [zip_with]. f_equal. exact IH. Qed.

Lemma write_file : write_entropy_transport_with_chunk_size blake3 bytes cs = Ok file.
Proof using bytes_u8 bytes_max cs_ok.
  pose proof (chunk_size_bounds cs cs_ok) as Hcs. pose proof nchunks_bounds as [[Hn0 Hn1] Hn2].
  change (2 ^ 30) with 1073741824 in Hn1. destruct (chunk_size_stored cs cs_ok) as (Hv & _).
  unfold write_entropy_transport_with_chunk_size. rewrite Hv. cbn [bind]. fold nchunks.
  change INDEX_ENTRY_BYTES with 60. change HEADER_BYTES with 36.
  unfold checked_mul, checked_add, usize_max. replace (nchunks * 60 <=? _) with true by lia. cbn [ok_or bind].
  replace (36 + nchunks * 60 <=? _) with true by lia. cbn [ok_or bind].
  replace (36 + nchunks * 60) with pstart by (unfold pstart; lia). rewrite write_loop. cbn [bind].
  pose proof (payload_total nchunks ltac:(lia)) as Htot. change (2 ^ 36) with 68719476736 in bytes_max.
  unfold add_usize, checked_add, usize_max. replace (_ <=? _) with true by (unfold pstart; nia). cbn [unwrap bind].
  unfold try_u32, ensure, u32_max. replace (nchunks <=? _) with true by lia. cbn [bind].
  rewrite zip_tabulate. f_equal. unfold file, header. rewrite <- !app_assoc.
  replace (nchunks * 60) with (60 * nchunks) by lia. do 9 f_equal.
  unfold blocks, entry_at, tabulate. by rewrite <- list_fmap_compose.
Qed.

(** ** The index of the file *)

Lemma entry_len i : zlen (entry_at i) = 60.
Proof using blake3_32.
  unfold entry_at, index_entry, info_at. simpl ci_digest. rewrite !zlen_app, !zlen_to_le8, !zlen_to_le4.
  rewrite (proj1 (blake3_32 _)). done.
Qed.

Lemma header_len : zlen header = 36.
Proof. done. Qed.

Lemma index_len : zlen (blocks nchunks entry_at) = nchunks * 60.
Proof using blake3_32 bytes_max cs_ok.
  apply zlen_blocks; [apply nchunks_bounds|]. intros i _. apply entry_len.
Qed.

Lemma file_len : zlen file = pstart + zlen (blocks nchunks payload).
Proof using blake3_32 bytes_max cs_ok.
  unfold file, pstart. rewrite !zlen_app, header_len, index_len. lia.
Qed.

Lemma file_entry i : 0 <= i < nchunks -> sub file (36 + 60 * i) (36 + 60 * i + 60) = entry_at i.
Proof using blake3_32 bytes_max cs_ok.
  intros Hi. unfold file. rewrite sub_skip by (rewrite header_len; lia). rewrite header_len.
  replace (36 + 60 * i - 36) with (i * 60) by lia. replace (36 + 60 * i + 60 - 36) with ((i + 1) * 60) by lia.
  rewrite sub_app_low by (rewrite ?index_len; lia). apply sub_blocks; [done|]. intros j _. apply entry_len.
Qed.

Lemma blocks_split {A} (f : Z -> list A) n i :
  0 <= i < n -> exists rest, blocks n f = blocks i f ++ f i ++ rest.
Proof.
  intros Hi. exists (concat (f <$> seqZ (i + 1) (n - (i + 1)))). rewrite app_assoc, <- blocks_S by lia.
  unfold blocks. rewrite <- concat_app, <- fmap_app.
  replace n with (i + 1 + (n - (i + 1))) at 1 by lia. by rewrite seqZ_app by lia.
Qed.

Lemma file_payload i : 0 <= i < nchunks ->
  sub file (ci_payload_offset (info_at i)) (ci_payload_offset (info_at i) + ci_payload_len (info_at i)) = payload i.
Proof using blake3_32 bytes_max cs_ok.
  intros Hi. destruct (blocks_split payload nchunks i Hi) as [rest Hr]. unfold info_at. simpl.
  unfold file. rewrite Hr, !app_assoc, <- (app_assoc _ (payload i)).
  assert (Hp : zlen ((header ++ blocks nchunks entry_at) ++ blocks i payload) = pstart + zlen (blocks i payload))
    by (rewrite !zlen_app, header_len, index_len; unfold pstart; lia).
  apply sub_mid; lia.
Qed.

Lemma bytes_file : bytes_ok file.
Proof using blake3_32 bytes_u8 bytes_max cs_ok.
  assert (Hbl : forall n f, 0 <= n <= nchunks -> (forall i, 0 <= i < nchunks -> bytes_ok (f i)) -> bytes_ok (blocks n f)).
  { intros n f [Hn Hle] Hf. revert n Hn Hle. apply (natlike_ind (fun n => n <= nchunks -> _)); [constructor|].
    intros n Hn IH Hle. change (Z.succ n) with (n + 1). rewrite blocks_S by done. apply bytes_ok_app; [apply IH|apply Hf]; lia. }
  pose proof nchunks_bounds as [[Hn0 _] _]. destruct (chunk_size_stored cs cs_ok) as (_ & Htz & _).
  unfold file. apply bytes_ok_app; [|apply bytes_ok_app].
  - unfold header. repeat (apply bytes_ok_app; [first [apply to_le_bytes|by apply bytes_ok_check|idtac]|]).
    + constructor; [unfold is_u8; lia|constructor].
    + apply to_le_bytes.
  - apply Hbl; [lia|]. intros i _. unfold entry_at, index_entry.
    repeat (apply bytes_ok_app; [first [apply to_le_bytes|by apply bytes_ok_check|idtac]|]).
    + by destruct (codec_of _); apply bytes_ok_check.
    + simpl. apply blake3_32.
  - apply Hbl; [lia|]. intros i Hi. apply (chunk_facts i Hi).
Qed.

Lemma sub_field {A} (x l : list A) a b : a = 0 -> b = zlen x -> sub (x ++ l) a b = x.
Proof. intros -> ->. apply sub_app_l. Qed.

Lemma entry_fields i (ent := entry_at i) :
  sub ent 0 8 = to_le 8 (i * cs) /\ sub ent 8 16 = to_le 8 (ci_payload_offset (info_at i)) /\
  sub ent 16 20 = to_le 4 (zlen (logical i)) /\ sub ent 20 24 = to_le 4 (zlen (payload i)) /\
  bget ent 24 = mode_byte (codec_of (logical i)) /\ sub ent 25 28 = [0; 0; 0] /\ sub ent 28 60 = blake3 (logical i).
Proof using blake3_32.
  unfold ent, entry_at, index_entry. change (ci_logical_offset (info_at i)) with (i * cs).
  change (ci_logical_len (info_at i)) with (zlen (logical i)). change (ci_payload_len (info_at i)) with (zlen (payload i)).
  change (ci_digest (info_at i)) with (blake3 (logical i)).
  do 6 (split; [reflexivity|]).
  repeat (rewrite sub_skip by (autorewrite with zlen; lia)).
  rewrite <- (app_nil_r (blake3 (logical i))). rewrite sub_field; [by rewrite app_nil_r|autorewrite with zlen; lia|].
  autorewrite with zlen. rewrite (proj1 (blake3_32 _)). lia.
Qed.

Lemma info_bounds i : 0 <= i < nchunks ->
  0 <= i * cs < 2 ^ 37 /\ 0 <= ci_payload_offset (info_at i) < 2 ^ 38 /\ 0 < zlen (logical i) <= 2 ^ 20 /\
  0 <= zlen (payload i) <= 2 ^ 20 /\ ci_payload_offset (info_at i) + zlen (payload i) <= zlen file.
Proof using blake3_32 bytes_u8 bytes_max cs_ok.
  intros Hi. pose proof (chunk_size_bounds cs cs_ok) as Hcs. pose proof nchunks_bounds as [[Hn0 Hn1] Hn2].
  change (2 ^ 30) with 1073741824 in Hn1. change (2 ^ 36) with 68719476736 in bytes_max.
  destruct (chunk_facts i Hi) as (_ & Hl & _ & Hp & _). pose proof (payload_total i ltac:(lia)) as Ht.
  destruct (blocks_split payload nchunks i Hi) as [rest Hr]. pose proof (zlen_nonneg rest). pose proof (zlen_nonneg (payload i)).
  rewrite file_len, Hr, !zlen_app. unfold info_at. simpl. unfold pstart.
  change (2 ^ 37) with 137438953472. change (2 ^ 38) with 274877906944. change (2 ^ 20) with 1048576. nia.
Qed.

(** ** Parsing the file *)

Definition parsed_at (i : Z) : list EntropyChunkInfo * list EntropyTransportChunkCodec * Z * Z :=
  (tabulate i info_at, tabulate i (fun i => codec_of (logical i)), Z.min (i * cs) (zlen bytes),
   pstart + zlen (blocks i payload)).

Lemma file_max : 36 <= zlen file <= 2 ^ 40.
Proof using blake3_32 bytes_u8 bytes_max cs_ok.
  pose proof (chunk_size_bounds cs cs_ok) as Hcs. pose proof nchunks_bounds as [[Hn0 Hn1] Hn2].
  change (2 ^ 30) with 1073741824 in Hn1. change (2 ^ 36) with 68719476736 in bytes_max.
  pose proof (payload_total nchunks ltac:(lia)) as Ht. rewrite file_len. unfold pstart. change (2 ^ 40) with 1099511627776. lia.
Qed.

Lemma parse_step i : 0 <= i < nchunks ->
  parse_entry file (zlen file) 36 cs (zlen bytes) i (parsed_at i) = Ok (parsed_at (i + 1)).
Proof using blake3_32 bytes_u8 bytes_max cs_ok.
  intros Hi. pose proof (chunk_size_bounds cs cs_ok) as Hcs. pose proof nchunks_bounds as [[Hn0 Hn1] Hn2].
  change (2 ^ 30) with 1073741824 in Hn1. change (2 ^ 36) with 68719476736 in bytes_max.
  destruct (info_bounds i Hi) as (B1 & B2 & B3 & B4 & B5). pose proof file_max as [_ Hfm]. pose proof (payload_total nchunks ltac:(lia)) as Ht.
  change (2 ^ 37) with 137438953472 in B1. change (2 ^ 38) with 274877906944 in B2. change (2 ^ 20) with 1048576 in B3, B4.
  change (2 ^ 40) with 1099511627776 in Hfm.
  assert (Hroom : 36 + 60 * i + 60 <= zlen file <= isize_max) by (rewrite file_len in *; unfold pstart, isize_max in *; lia).
  rewrite parse_entry_eq, file_entry by (done || lia). destruct (entry_fields i) as (F1 & F2 & F3 & F4 & F5 & F6 & F7).
  unfold check_entry, parsed_at at 1. rewrite F1, F2, F3, F4, F5, F6, F7. rewrite bool_decide_true by done. cbn [negb].
  destruct (chunk_facts i Hi) as (_ & _ & Hll & _). pose proof (chunk_in cs (zlen bytes) i ltac:(lia) (zlen_nonneg bytes) Hi) as Hin.
  rewrite !from_to_le by (first [change (256 ^ Z.of_nat 8) with 18446744073709551616|change (256 ^ Z.of_nat 4) with 4294967296]; lia).
  unfold checked_sub, checked_add, usize_max. replace (Z.min (i * cs) (zlen bytes)) with (i * cs) by lia.
  replace (i * cs <=? zlen bytes) with true by lia. cbn [ok_or bind]. rewrite Z.eqb_refl. cbn [negb orb].
  rewrite <- Hll, Z.eqb_refl. cbn [negb orb]. change (ci_payload_offset (info_at i)) with (pstart + zlen (blocks i payload)) in *.
  rewrite Z.eqb_refl. cbn [negb orb]. change (bget file 4) with 2. change (2 =? 1) with false. cbn [andb].
  rewrite orb_false_r. replace (MODE_RANS <? mode_byte (codec_of (logical i))) with false by (by destruct (codec_of (logical i))).
  replace (pstart + zlen (blocks i payload) + zlen (payload i) <=? _) with true by lia. cbn [ok_or bind].
  replace (zlen file <? _) with false by lia. replace (i * cs + zlen (logical i) <=? _) with true by lia. cbn [ok_or bind].
  assert (Hmode : (mode_byte (codec_of (logical i)) =? MODE_HUFFMAN) = bool_decide (codec_of (logical i) = HuffmanC))
    by (by destruct (codec_of (logical i))).
  assert (Hfin : forall codec, codec = codec_of (logical i) ->
    Ok (E := EntropyTransportError) (tabulate i info_at ++ [MkInfo (i * cs) (pstart + zlen (blocks i payload)) (zlen (logical i)) (zlen (payload i))
      (bool_decide (codec_of (logical i) = HuffmanC)) (blake3 (logical i))],
      tabulate i (fun i => codec_of (logical i)) ++ [codec], i * cs + zlen (logical i),
      pstart + zlen (blocks i payload) + zlen (payload i)) = Ok (parsed_at (i + 1))).
  { intros codec ->. unfold parsed_at. rewrite !tabulate_S, blocks_S, zlen_app by lia. rewrite Z.add_assoc.
    replace (i * cs + zlen (logical i)) with (Z.min ((i + 1) * cs) (zlen bytes)) by lia. done. }
  rewrite Hmode. destruct (codec_of (logical i)) eqn:Hc; cbn; by apply Hfin.
Qed.

Lemma parse_file :
  parse_transport_metadata file (zlen file) =
    Ok (zlen bytes, cs, tabulate nchunks info_at, tabulate nchunks (fun i => codec_of (logical i))).
Proof using blake3_32 bytes_u8 bytes_max cs_ok.
  pose proof (chunk_size_bounds cs cs_ok) as Hcs. pose proof nchunks_bounds as [[Hn0 Hn1] Hn2].
  change (2 ^ 30) with 1073741824 in Hn1. pose proof bytes_max as Hbm. change (2 ^ 36) with 68719476736 in Hbm.
  destruct (chunk_size_stored cs cs_ok) as (Hv & Htz & Hsh). pose proof file_max as [Hf0 Hfm].
  change (2 ^ 40) with 1099511627776 in Hfm. pose proof (zlen_nonneg bytes) as Hb0.
  unfold parse_transport_metadata. change HEADER_BYTES with 36. replace (zlen file <? 36) with false by lia. cbn [orb].
  rewrite bool_decide_true by done. cbn [negb]. rewrite !idx_bget by lia. cbn [bind].
  change (bget file 4) with 2. change (bget file 5) with 0. change (bget file 6) with (trailing_zeros cs). change (bget file 7) with 0.
  change ((1 <=? 2) && (2 <=? ENTROPY_TRANSPORT_VERSION)) with true. change (0 =? 0) with true. cbn [negb orb]. replace (64 <=? trailing_zeros cs) with false by lia.
  rewrite Hsh, Hv. cbn [bind]. rewrite (read_u64_Ok file 8), (read_u32_Ok file 16) by (unfold isize_max; lia). cbn [bind].
  rewrite !read_u64_Ok by (unfold isize_max; lia). cbn [bind].
  change (sub file 8 (8 + 8)) with (to_le 8 (zlen bytes)). change (sub file 16 (16 + 4)) with (to_le 4 nchunks).
  change (sub file 20 (20 + 8)) with (to_le 8 36). change (sub file 28 (28 + 8)) with (to_le 8 (60 * nchunks)).
  rewrite !from_to_le by (first [change (256 ^ Z.of_nat 8) with 18446744073709551616|change (256 ^ Z.of_nat 4) with 4294967296]; lia).
  unfold checked_mul, add_usize, checked_add, usize_max. change INDEX_ENTRY_BYTES with 60.
  replace (nchunks * 60 <=? _) with true by lia. cbn [ok_or bind]. rewrite Z.eqb_refl. cbn [negb orb].
  replace (60 * nchunks =? nchunks * 60) with true by lia. cbn [negb]. replace (36 + 60 * nchunks <=? _) with true by lia.
  cbn [ok_or bind]. replace (zlen file <? 36 + 60 * nchunks) with false
    by (rewrite file_len; unfold pstart; pose proof (zlen_nonneg (blocks nchunks payload)); lia).
  cbn [unwrap bind]. fold nchunks. rewrite Z.eqb_refl. cbn [negb].
  destruct (for_range_inv (fun i st => st = parsed_at i) (parse_entry file (zlen file) 36 cs (zlen bytes)) 0 nchunks
    ([], [], 0, 36 + 60 * nchunks)) as (st & -> & ->); [done| | |].
  - unfold parsed_at, pstart. change (zlen (blocks 0 payload)) with 0. rewrite Z.add_0_r. replace (Z.min (0 * cs) (zlen bytes)) with 0 by lia. done.
  - intros i st Hi ->. eexists. split; [by apply parse_step|done].
  - unfold parsed_at. cbn [bind]. replace (Z.min (nchunks * cs) (zlen bytes)) with (zlen bytes) by lia.
    rewrite <- file_len, !Z.eqb_refl. done.
Qed.

Definition parsed : EntropyTransport :=
  MkTransport file (zlen bytes) cs (tabulate nchunks info_at) (tabulate nchunks (fun i => codec_of (logical i))).

Lemma read_file : read_entropy_transport file = Ok parsed.
Proof using blake3_32 bytes_u8 bytes_max cs_ok. unfold read_entropy_transport. by rewrite parse_file. Qed.

Lemma read_file_chunk i : 0 <= i < nchunks -> read_chunk blake3 parsed i = Ok (logical i).
Proof using blake3_32 bytes_u8 bytes_max cs_ok.
  intros Hi. unfold read_chunk, chunk_info. simpl et_chunks. simpl et_codecs. rewrite lookup_tabulate by done. cbn [ok_or bind].
  destruct (info_bounds i Hi) as (_ & B2 & _ & B4 & B5). change (2 ^ 38) with 274877906944 in B2. change (2 ^ 20) with 1048576 in B4.
  change (ci_payload_len (info_at i)) with (zlen (payload i)). unfold checked_add, usize_max.
  replace (_ <=? _) with true by lia. cbn [ok_or bind]. unfold get_slice. simpl et_bytes.
  rewrite in_slice_true by lia. cbn [ok_or bind]. rewrite file_payload by done.
  rewrite (idx_Ok _ _ (codec_of (logical i))) by (lia || by rewrite lookup_tabulate). cbn [bind].
  destruct (chunk_facts i Hi) as (_ & _ & _ & _ & _ & Hd). unfold decode_chunk, decodes in *.
  change (ci_logical_len (info_at i)) with (zlen (logical i)).
  assert (Hdig : bool_decide (digest blake3 (logical i) = ci_digest (info_at i)) = true) by (by apply bool_decide_true).
  destruct (codec_of (logical i)).
  - rewrite Hd, Z.eqb_refl. cbn [negb bind]. by rewrite Hdig.
  - rewrite Hd. cbn [bind]. by rewrite Hdig.
  - rewrite Hd. cbn [bind]. by rewrite Hdig.
Qed.
End writer.

(** A stand-in hash for concrete runs: 32 copies of the byte sum. *)
Definition sum_hash (l : list Z) : list Z := vec (zsum l mod 256) 32.

Lemma sum_hash_32 l : zlen (sum_hash l) = 32 /\ bytes_ok (sum_hash l).
Proof.
  split; [done|]. apply Forall_replicate. unfold is_u8. pose proof (Z.mod_pos_bound (zsum l) 256). lia.
Qed.

(** * Properties *)

(** C1: the transport is lossless and random access is exact: for every input up
    to 64 GiB and every valid chunk size the writer returns a file, the reader
    parses it, and every logical range of it reads back as that slice of the
    input; a range past the end is [RangeOutOfRange].  All that is assumed of
    BLAKE3 is that its digests are 32 bytes. *)
Theorem transport_roundtrip blake3 bytes cs :
  (forall l, zlen (blake3 l) = 32 /\ bytes_ok (blake3 l)) ->
  bytes_ok bytes -> zlen bytes <= 2 ^ 36 -> validate_chunk_size cs = Ok tt ->
  exists f t, write_entropy_transport_with_chunk_size blake3 bytes cs = Ok f /\
    read_entropy_transport f = Ok t /\
    forall off len, 0 <= off -> 0 <= len ->
      read_range blake3 t off len =
        if off + len <=? zlen bytes then Ok (sub bytes off (off + len)) else Err RangeOutOfRange.
Proof.
  intros Hb Hu Hl Hcs. apply validate_chunk_size_Ok in Hcs.
  exists (file blake3 bytes cs), (parsed blake3 bytes cs).
  split; [by apply write_file|]. pose proof (read_file blake3 Hb bytes cs Hu Hl Hcs) as Hrd. split; [done|].
  intros off len Ho Hlen. apply (read_range_content blake3 (parsed blake3 bytes cs) bytes); try done.
  - eapply read_entropy_transport_ok; [by apply bytes_file| |done].
    pose proof (file_max blake3 Hb bytes cs Hu Hl Hcs) as [_ Hfm]. change (2 ^ 40) with 1099511627776 in Hfm. unfold isize_max. lia.
  - intros i Hi. by apply read_file_chunk.
Qed.

Lemma transport_roundtrip_witness :
  exists f t, write_entropy_transport_with_chunk_size sum_hash (vec 7 100 ++ [1; 2; 3]) 64 = Ok f /\
    read_entropy_transport f = Ok t /\ read_range sum_hash t 98 4 = Ok [7; 7; 1; 2].
Proof.
  destruct (transport_roundtrip sum_hash (vec 7 100 ++ [1; 2; 3]) 64 sum_hash_32) as (f & t & H1 & H2 & H3).
  - by apply bytes_ok_check.
  - by vm_compute.
  - by vm_compute.
  - exists f, t. split; [done|]. split; [done|]. rewrite H3 by lia. by vm_compute.
Defined.

(** C40: reading an untrusted transport never panics: parsing any byte string
    returns a transport or an error, and on a parsed transport [read_chunk] and
    [read_range] return for every index and range; a range that is returned has
    the requested length, and a chunk that is returned has the indexed length and
    the indexed digest. *)
Theorem transport_read_safe blake3 bytes :
  bytes_ok bytes -> zlen bytes <= isize_max ->
  returns (read_entropy_transport bytes) /\
  forall t, read_entropy_transport bytes = Ok t -> forall i off len, 0 <= i -> 0 <= off -> 0 <= len ->
    returns (read_chunk blake3 t i) /\ returns (read_range blake3 t off len) /\
    (forall out, read_range blake3 t off len = Ok out -> zlen out = len) /\
    (forall out, read_chunk blake3 t i = Ok out -> exists info, et_chunks t !! Z.to_nat i = Some info /\
       zlen out = ci_logical_len info /\ blake3 out = ci_digest info).
Proof.
  intros Hu Hl. destruct (read_entropy_transport_ok bytes Hu Hl) as [Hr Hok]. split; [done|].
  intros t Ht i off len Hi Ho Hlen. destruct (Hok t Ht) as [Hwf _].
  destruct (read_chunk_ok blake3 t i Hwf Hi) as [Hc1 Hc2]. destruct (read_range_returns blake3 t off len Hwf Ho Hlen) as [Hr1 Hr2].
  split; [done|]. split; [done|]. split; [intros out Hout; by apply Hr2|]. intros out Hout.
  destruct (Hc2 out Hout) as (_ & Hz & info & Hinfo & Hd). exists info. split; [done|]. split; [|done].
  destruct Hwf as (_ & _ & _ & _ & _ & _ & Hinf). rewrite Hz. symmetry. by apply (Hinf i info).
Qed.

Lemma transport_read_safe_witness :
  read_entropy_transport (vec 0 40) = Err BadMagic /\ returns (read_entropy_transport (vec 0 40)).
Proof.
  split; [by vm_compute|].
  apply (transport_read_safe sum_hash (vec 0 40)); [by apply bytes_ok_check|by vm_compute].
Defined.

(** Ranges agree with the whole: if a parsed transport, trusted or not, reads
    in full as [content], then every range of it reads as that slice of [content],
    whichever chunks the range touches. *)
Theorem transport_ranges_agree blake3 bytes t content :
  bytes_ok bytes -> zlen bytes <= isize_max -> read_entropy_transport bytes = Ok t ->
  read_all blake3 t = Ok content -> forall off len, 0 <= off -> 0 <= len ->
  read_range blake3 t off len =
    if off + len <=? zlen content then Ok (sub content off (off + len)) else Err RangeOutOfRange.
Proof.
  intros Hu Hl Ht Hall off len Ho Hlen. destruct (read_entropy_transport_ok bytes Hu Hl) as [_ Hok].
  destruct (Hok t Ht) as [Hwf _]. destruct (read_all_chunks blake3 t content Hwf Hall) as [Hz Hch].
  rewrite Hz. by apply read_range_content.
Qed.

Definition sample_transport : list Z :=
  match write_entropy_transport_with_chunk_size sum_hash (vec 7 100 ++ [1; 2; 3]) 64 with Ok f => f | _ => [] end.

Definition sample_parsed : EntropyTransport :=
  match read_entropy_transport sample_transport with Ok t => t | _ => MkTransport [] 0 0 [] [] end.

Lemma transport_ranges_agree_witness :
  read_entropy_transport sample_transport = Ok sample_parsed /\
  read_all sum_hash sample_parsed = Ok (vec 7 100 ++ [1; 2; 3]) /\
  read_range sum_hash sample_parsed 60 10 = Ok (vec 7 10).
Proof.
  split; [by vm_compute|]. split; [by vm_compute|].
  rewrite (transport_ranges_agree sum_hash sample_transport sample_parsed (vec 7 100 ++ [1; 2; 3]));
    [by vm_compute|apply bytes_ok_check; by vm_compute|by vm_compute|by vm_compute|by vm_compute|lia|lia].
Defined.
