(* ===== verification/TransportSeek.v ===== *)
(** * Entropy transport: the file-backed reader
    (SeekableEntropyTransport of crates/tritium-format/src/entropy_transport.rs)

    The source is any [Read + Seek]: a class of operations, with the laws of a
    file that nobody else writes as a second class.  The reader refines the
    in-memory one, request by request, also after requests that fail. *)

From S2P Require Import Prelude Core FormatBase TwoBit EntropyBase Rans HuffmanTree HuffmanCode Huffman Transport TransportWrite.
From Stdlib Require Import ZArith Lia Bool.
From stdpp Require Import base list numbers sorting.

#[local] Open Scope Z_scope.

(** [Read + Seek]: every call returns the source it leaves behind. *)
Class Source (R : Type) : Type := {
  seek_end : R -> R * option Z;
  seek_start : R -> Z -> R * bool;
  read_exact : R -> Z -> R * option (list Z) }.

(** A file with contents [content r] and cursor [pos r]. *)
Class FileSource (R : Type) `{Source R} (content : R -> list Z) (pos : R -> Z) : Prop := {
  seek_end_ok : forall r, let '(r', o) := seek_end r in o = Some (zlen (content r)) /\ content r' = content r;
  seek_start_ok : forall r p, 0 <= p -> let '(r', ok) := seek_start r p in
    ok = true /\ content r' = content r /\ pos r' = p;
  read_exact_ok : forall r n, 0 <= n -> 0 <= pos r -> let '(r', o) := read_exact r n in
    content r' = content r /\
    if pos r + n <=? zlen (content r)
    then o = Some (sub (content r) (pos r) (pos r + n)) /\ pos r' = pos r + n else o = None }.

(** Methods that take [&mut self]: the state they leave, and their result. *)
Definition io (S A : Type) : Type := S -> S * eres A.
Definition io_bind {S A B} (m : io S A) (k : A -> io S B) : io S B := fun s =>
  match m s with
  | (s', Ok a) => k a s'
  | (s', Err e) => (s', Err e)
  | (s', Panic) => (s', Panic)
  | (s', NoFuel) => (s', NoFuel)
  end.
Definition lift {S A} (c : eres A) : io S A := fun s => (s, c).
Notation "'let!' x ':=' c 'in' k" := (io_bind c (fun x => k)) 
  (at level 10, x pattern, c at level 100, k at level 200) : rust_scope.
Fixpoint io_for_n {S A} (n : nat) (i : Z) (body : Z -> A -> io S A) (a : A) : io S A :=
  match n with
  | O => lift (Ok a)
  | Datatypes.S n => let! a := body i a in io_for_n n (i + 1) body a
  end.
Definition io_for_range {S A} (lo hi : Z) (body : Z -> A -> io S A) (a : A) : io S A :=
  io_for_n (Z.to_nat (hi - lo)) lo body a.

Section seekable.
Context {R : Type} `{Source R}.
Variable blake3 : list Z -> list Z.

(** The calls on a source, with the error the reader maps failures to. *)
Definition seek_to_end : io R Z := fun r =>
  let '(r, o) := seek_end r in (r, ok_or o Truncated).
Definition seek_to (p : Z) : io R unit := fun r =>
  let '(r, ok) := seek_start r p in (r, ensure ok Truncated).
Definition read_n (n : Z) : io R (list Z) := fun r =>
  let '(r, o) := read_exact r n in (r, ok_or o Truncated).

Record SeekableEntropyTransport : Type := MkSeekable {
  ss_source : R;
  ss_logical_len : Z;
  ss_chunk_size : Z;
  ss_chunks : list EntropyChunkInfo;
  ss_codecs : list EntropyTransportChunkCodec }.

Definition open_source : io R (Z * Z * list EntropyChunkInfo * list EntropyTransportChunkCodec) :=
  let! source_len := seek_to_end in
  let! _ := seek_to 0 in
  let! header := read_n HEADER_BYTES in
  let! index_bytes := lift (read_u64 header 28) in
  let! index_end := lift (ok_or (checked_add HEADER_BYTES index_bytes) LengthOverflow) in
  let! _ := lift (ensure (index_end <=? source_len) NonCanonicalIndex) in
  let! rest := read_n (index_end - HEADER_BYTES) in
  lift (parse_transport_metadata (header ++ rest) source_len).

Definition read_entropy_transport_seekable (source : R) : eres SeekableEntropyTransport :=
  let '(source, r) := open_source source in
  let* (st, codecs) := r in
  let '(logical_len, chunk_size, chunks) := st in
  Ok (MkSeekable source logical_len chunk_size chunks codecs).

(** A call on the source field of the transport. *)
Definition on_source {A} (m : io R A) : io SeekableEntropyTransport A := fun s =>
  let '(r, a) := m (ss_source s) in
  (MkSeekable r (ss_logical_len s) (ss_chunk_size s) (ss_chunks s) (ss_codecs s), a).

Definition seek_read_chunk (index : Z) : io SeekableEntropyTransport (list Z) := fun s =>
  (let! info := lift (chunk_info (ss_chunks s) index) in
   let! _ := on_source (seek_to (ci_payload_offset info)) in
   let! payload := on_source (read_n (ci_payload_len info)) in
   let! codec := lift (idx (ss_codecs s) index) in
   lift (decode_chunk blake3 info codec payload)) s.

Definition seek_read_range (offset len : Z) : io SeekableEntropyTransport (list Z) := fun s =>
  (let! e := lift (ok_or (checked_add offset len) RangeOutOfRange) in
   if ss_logical_len s <? e then lift (Err RangeOutOfRange) else
   if len =? 0 then lift (Ok []) else
   let first := offset / ss_chunk_size s in
   let last := (e - 1) / ss_chunk_size s in
   io_for_range first (last + 1) (fun index out =>
     let! chunk := seek_read_chunk index in
     lift (copy_overlap (ss_chunk_size s) offset e index chunk out)) []) s.

Definition seek_read_all : io SeekableEntropyTransport (list Z) := fun s =>
  seek_read_range 0 (ss_logical_len s) s.

(** Requests a caller can make of an open transport. *)
Inductive request : Type := ReadChunk (i : Z) | ReadRange (off len : Z) | ReadAll.

Definition request_ok (q : request) : Prop :=
  match q with ReadChunk i => 0 <= i | ReadRange off len => 0 <= off /\ 0 <= len | ReadAll => True end.
Definition answer (t : EntropyTransport) (q : request) : eres (list Z) :=
  match q with
  | ReadChunk i => read_chunk blake3 t i
  | ReadRange off len => read_range blake3 t off len
  | ReadAll => read_all blake3 t
  end.
Definition seek_answer (q : request) : io SeekableEntropyTransport (list Z) :=
  match q with
  | ReadChunk i => seek_read_chunk i
  | ReadRange off len => seek_read_range off len
  | ReadAll => seek_read_all
  end.
Fixpoint serve (s : SeekableEntropyTransport) (qs : list request) : list (eres (list Z)) :=
  match qs with
  | [] => []
  | q :: qs => let '(s, a) := seek_answer q s in a :: serve s qs
  end.
End seekable.
Arguments MkSeekable {R}.

(** * The index only depends on the header and index bytes *)

Lemma parse_prefix bytes sl k :
  zlen bytes <= isize_max -> 36 <= k <= zlen bytes -> k = 36 + from_le (sub bytes 28 36) ->
  parse_transport_metadata (sub bytes 0 k) sl = parse_transport_metadata bytes sl.
Proof.
  intros Hl Hk Hib. set (m := sub bytes 0 k).
  assert (Hm : zlen m = k) by (unfold m; rewrite zlen_sub; lia).
  assert (Hsub : forall a b, 0 <= a -> b <= k -> sub m a b = sub bytes a b).
  { intros a b Ha Hb. unfold m. by rewrite sub_sub by lia. }
  assert (Hget : forall i, 0 <= i < k -> bget m i = bget bytes i).
  { intros i Hi. unfold m. by rewrite bget_sub by lia. }
  clearbody m. unfold parse_transport_metadata. change HEADER_BYTES with 36. change INDEX_ENTRY_BYTES with 60.
  replace (zlen m <? 36) with false by lia. replace (zlen bytes <? 36) with false by lia. cbn [orb].
  rewrite Hsub by lia. destruct (negb _); [reflexivity|].
  rewrite !idx_bget by lia. cbn [bind]. rewrite !Hget by lia. destruct (negb _); [reflexivity|]. destruct (_ || _); [reflexivity|].
  destruct (64 <=? _); [reflexivity|]. set (cs := Z.shiftl 1 (bget bytes 6)).
  destruct (validate_chunk_size cs) as [[]| | |] eqn:Hcs; cbn [bind]; [|reflexivity..].
  apply validate_chunk_size_Ok in Hcs. pose proof (chunk_size_bounds cs Hcs) as Hcb.
  rewrite !(read_u64_Ok m), !(read_u32_Ok m), !(read_u64_Ok bytes), !(read_u32_Ok bytes) by lia. cbn [bind].
  rewrite !Hsub by lia. change (28 + 8) with 36. set (ib := from_le (sub bytes 28 36)) in *.
  set (ll := from_le (sub bytes 8 (8 + 8))). set (cc := from_le (sub bytes 16 (16 + 4))).
  unfold checked_mul. destruct (cc * 60 <=? usize_max); cbn [ok_or bind]; [|reflexivity].
  destruct (Z.eqb_spec (from_le (sub bytes 20 (20 + 8))) 36) as [->|]; cbn [negb orb bind]; [|reflexivity].
  destruct (Z.eqb_spec ib (cc * 60)) as [He|]; cbn [negb orb bind]; [|reflexivity].
  unfold checked_add, isize_max, usize_max in *. replace (36 + ib <=? _) with true by lia. cbn [ok_or bind].
  replace (zlen m <? 36 + ib) with false by lia. replace (zlen bytes <? 36 + ib) with false by lia. cbn [bind].
  destruct (add_usize 36 ib) as [ps| | |]; cbn [bind]; [|reflexivity..]. destruct (negb _); [reflexivity|].
  rewrite (for_range_ext (parse_entry m sl 36 cs ll) (parse_entry bytes sl 36 cs ll)); [reflexivity|].
  intros i st Hi. rewrite !parse_entry_eq by (unfold isize_max; lia). rewrite Hsub, Hget by lia. done.
Qed.

Lemma parse_Ok_room bytes sl v :
  zlen bytes <= isize_max -> parse_transport_metadata bytes sl = Ok v ->
  36 <= zlen bytes /\ 36 + from_le (sub bytes 28 36) <= zlen bytes.
Proof.
  intros Hl. unfold parse_transport_metadata. change HEADER_BYTES with 36. change INDEX_ENTRY_BYTES with 60.
  destruct (Z.ltb_spec (zlen bytes) 36) as [|H36]; [done|]. cbn [orb]. destruct (negb _); [done|].
  rewrite !idx_bget by lia. cbn [bind]. destruct (negb _); [done|]. destruct (_ || _); [done|]. destruct (64 <=? _); [done|].
  destruct (validate_chunk_size _) as [[]| | |]; [|done..]. cbn [bind].
  rewrite !read_u64_Ok, !read_u32_Ok by lia. cbn [bind]. change (28 + 8) with 36. set (ib := from_le (sub bytes 28 36)).
  destruct (ok_or _ _) as [eib| | |]; [|done..]. cbn [bind].
  destruct (Z.eqb_spec (from_le (sub bytes 20 (20 + 8))) 36) as [->|]; [|done].
  destruct (ib =? eib); [|done]. cbn [negb orb]. unfold checked_add. destruct (36 + ib <=? usize_max); [|done]. cbn [ok_or bind].
  destruct (Z.ltb_spec (zlen bytes) (36 + ib)); [done|]. intros _. lia.
Qed.

(** * Refinement *)
Section refinement.
Context {R : Type} `{Source R} (content : R -> list Z) (pos : R -> Z) {Hfile : FileSource R content pos}.
Variable blake3 : list Z -> list Z.

(** The file-backed view of an in-memory transport. *)
Definition views (s : SeekableEntropyTransport (R := R)) (t : EntropyTransport) : Prop :=
  content (ss_source s) = et_bytes t /\ ss_logical_len s = et_logical_len t /\ ss_chunk_size s = et_chunk_size t /\
  ss_chunks s = et_chunks t /\ ss_codecs s = et_codecs t.

(** A method of the file-backed view does what the in-memory result says. *)
Definition simulates {A} (m : io SeekableEntropyTransport A) (c : eres A) (t : EntropyTransport) : Prop :=
  forall s, views s t -> views (fst (m s)) t /\ snd (m s) = c.

Lemma simulates_bind {A B} (m : io _ A) (c : eres A) (k : A -> io _ B) (d : A -> eres B) t :
  simulates m c t -> (forall a, c = Ok a -> simulates (k a) (d a) t) -> simulates (io_bind m k) (bind c d) t.
Proof.
  intros Hm Hk s Hs. destruct (Hm s Hs) as [H1 H2]. unfold io_bind. destruct (m s) as [s1 r]. simpl in H1, H2. subst r.
  destruct c; simpl; [by apply Hk|done..].
Qed.

Lemma simulates_lift {A} (c : eres A) t : simulates (lift c) c t.
Proof. by intros s Hs. Qed.

Lemma simulates_for {A} (body : Z -> A -> io _ A) (body' : Z -> A -> eres A) n t : forall lo a,
  (forall i a, lo <= i < lo + Z.of_nat n -> simulates (body i a) (body' i a) t) ->
  simulates (io_for_n n lo body a) (for_n n lo body' a) t.
Proof.
  induction n as [|n IH]; intros lo a Hb; [apply simulates_lift|]. simpl.
  apply simulates_bind; [apply Hb; lia|]. intros b _. apply IH. intros i c Hi. apply Hb. lia.
Qed.

(** Fetching a payload that lies in the file. *)
Lemma fetch_payload r p n :
  0 <= p -> 0 <= n -> p + n <= zlen (content r) ->
  let '(r1, a1) := seek_to p r in a1 = Ok tt /\ content r1 = content r /\
  let '(r2, a2) := read_n n r1 in a2 = Ok (sub (content r) p (p + n)) /\ content r2 = content r.
Proof using Hfile.
  intros Hp Hn Hroom. unfold seek_to, read_n. pose proof (seek_start_ok r p Hp) as H1.
  destruct (seek_start r p) as [r1 ok]. destruct H1 as (-> & Hc1 & Hp1). split; [done|]. split; [done|].
  assert (Hp0 : 0 <= pos r1) by lia. pose proof (read_exact_ok r1 n Hn Hp0) as H2. destruct (read_exact r1 n) as [r2 o]. rewrite Hp1, Hc1 in H2.
  replace (p + n <=? zlen (content r)) with true in H2 by lia. destruct H2 as (Hc2 & -> & _). done.
Qed.

Lemma seek_read_chunk_sim t i : transport_ok t -> 0 <= i -> simulates (seek_read_chunk blake3 i) (read_chunk blake3 t i) t.
Proof using Hfile.
  intros (Hu & Hl & Hcs & Hll & Hcn & Hco & Hinfo) Hi s (V1 & V2 & V3 & V4 & V5). unfold seek_read_chunk, read_chunk, chunk_info.
  rewrite V4, V5. destruct (et_chunks t !! Z.to_nat i) as [info|] eqn:He; [|by repeat split].
  cbn [ok_or bind lift io_bind]. destruct (Hinfo i info Hi He) as (_ & _ & H3 & H4 & H5).
  unfold isize_max in Hl. unfold checked_add, usize_max. replace (_ <=? _) with true by lia. cbn [ok_or bind].
  unfold get_slice. rewrite in_slice_true by lia. cbn [ok_or bind].
  pose proof (fetch_payload (ss_source s) (ci_payload_offset info) (ci_payload_len info) H3 H4 ltac:(rewrite V1; lia)) as Hf.
  unfold io_bind, lift, on_source. destruct (seek_to _ (ss_source s)) as [r1 a1]. destruct Hf as (-> & Hc1 & Hf).
  simpl. destruct (read_n _ r1) as [r2 a2]. destruct Hf as (-> & Hc2). simpl. rewrite V1 in *.
  destruct (idx (et_codecs t) i); simpl; (split; [|done]); repeat split; simpl; congruence.
Qed.

Lemma seek_read_range_sim t off len :
  transport_ok t -> 0 <= off -> 0 <= len -> simulates (seek_read_range blake3 off len) (read_range blake3 t off len) t.
Proof using Hfile.
  intros Ht Ho Hlen s Hs. pose proof Hs as (V1 & V2 & V3 & V4 & V5). unfold seek_read_range, read_range. rewrite V2, V3.
  pose proof Ht as (_ & _ & Hcs & _). pose proof (chunk_size_bounds _ Hcs) as Hcb.
  refine (simulates_bind _ _ _ _ t (simulates_lift _ t) _ s Hs).
  clear s Hs V1 V2 V3 V4 V5. intros e He. unfold checked_add in He. destruct (off + len <=? usize_max); [|done]. injection He as <-.
  destruct (et_logical_len t <? off + len); [apply simulates_lift|]. destruct (len =? 0); [apply simulates_lift|].
  apply simulates_for. intros i out Hi. apply simulates_bind.
  - apply seek_read_chunk_sim; [done|]. assert (0 <= off / et_chunk_size t) by (apply Z.div_pos; lia). lia.
  - intros c _. apply simulates_lift.
Qed.

Lemma seek_answer_sim t q : transport_ok t -> request_ok q -> simulates (seek_answer blake3 q) (answer blake3 t q) t.
Proof using Hfile.
  intros Ht Hq. destruct q as [i|off len|]; simpl.
  - by apply seek_read_chunk_sim.
  - destruct Hq. by apply seek_read_range_sim.
  - intros s Hs. unfold seek_read_all, read_all. rewrite (proj1 (proj2 Hs)).
    apply seek_read_range_sim; try done. apply Ht.
Qed.

Lemma serve_answers t s qs :
  transport_ok t -> views s t -> Forall request_ok qs -> serve blake3 s qs = answer blake3 t <$> qs.
Proof using Hfile.
  intros Ht Hs Hq. revert s Hs. induction Hq as [|q qs Hq _ IH]; intros s Hs; [done|]. rewrite fmap_cons. simpl.
  destruct (seek_answer_sim t q Ht Hq s Hs) as [H1 H2]. destruct (seek_answer blake3 q s) as [s' a]. simpl in H1, H2.
  rewrite H2. f_equal. by apply IH.
Qed.

Lemma open_source_ok r :
  bytes_ok (content r) -> zlen (content r) <= isize_max ->
  content (fst (open_source r)) = content r /\
  match parse_transport_metadata (content r) (zlen (content r)) with
  | Ok v => snd (open_source r) = Ok v
  | _ => exists e, snd (open_source r) = Err e
  end.
Proof using Hfile.
  intros Hu Hl. destruct (parse_ok (content r) (zlen (content r)) Hu Hl) as [Hret _].
  pose proof (parse_Ok_room (content r) (zlen (content r))) as Hroom.
  unfold open_source, io_bind, lift, seek_to_end, seek_to, read_n. change HEADER_BYTES with 36.
  pose proof (seek_end_ok r) as H1. destruct (seek_end r) as [r1 o1]. destruct H1 as [-> Hc1]. cbn [ok_or].
  pose proof (seek_start_ok r1 0 ltac:(lia)) as H2. destruct (seek_start r1 0) as [r2 ok]. destruct H2 as (-> & Hc2 & Hp2). cbn [ensure].
  assert (Hp2' : 0 <= pos r2) by lia. pose proof (read_exact_ok r2 36 ltac:(lia) Hp2') as H3.
  destruct (read_exact r2 36) as [r3 o3]. rewrite Hp2, Hc2, Hc1 in H3. destruct H3 as [Hc3 H3]. rewrite Z.add_0_l in H3.
  set (c := content r) in *. set (P := parse_transport_metadata c (zlen c)) in *.
  assert (Hbad : ~ (36 <= zlen c /\ 36 + from_le (sub c 28 36) <= zlen c) -> forall e,
    match P with Ok v => Err (E := EntropyTransportError) e = Ok v | _ => exists e', Err (A := Z * Z * list EntropyChunkInfo * list EntropyTransportChunkCodec) e = Err e' end).
  { intros Hn e. destruct P as [v| | |]; eauto. destruct Hn. by apply (Hroom v). }
  destruct (Z.leb_spec 36 (zlen c)) as [H36|H36]; [destruct H3 as [-> Hp3]|subst o3; split; [done|]; apply Hbad; lia].
  cbn [ok_or]. rewrite read_u64_Ok by (first [lia|rewrite zlen_sub by lia; unfold isize_max; lia]).
  rewrite sub_sub by lia. change (0 + 28) with 28. change (0 + (28 + 8)) with 36. set (ib := from_le (sub c 28 36)) in *.
  pose proof (from_le_bound _ (bytes_ok_sub c 28 36 Hu)) as [Hib0 _]. fold ib in Hib0.
  unfold checked_add. unfold isize_max, usize_max in *.
  destruct (Z.leb_spec (36 + ib) 18446744073709551615); cbn [ok_or]; [|split; [done|]; apply Hbad; lia].
  unfold ensure. destruct (Z.leb_spec (36 + ib) (zlen c)) as [Hfit|Hfit]; [|split; [done|]; apply Hbad; lia].
  assert (Hp3' : 0 <= pos r3) by lia. replace (36 + ib - 36) with ib by lia.
  pose proof (read_exact_ok r3 ib Hib0 Hp3') as H4. destruct (read_exact r3 ib) as [r4 o4].
  rewrite Hp3, Hc3 in H4. replace (36 + ib <=? zlen c) with true in H4 by lia. destruct H4 as (Hc4 & -> & _). cbn [ok_or fst snd].
  split; [done|]. rewrite sub_join by lia. rewrite parse_prefix by (unfold isize_max; lia || done).
  fold P. destruct P; [done|eauto|done..].
Qed.

Lemma open_views r :
  bytes_ok (content r) -> zlen (content r) <= isize_max ->
  match read_entropy_transport (content r) with
  | Ok t => exists s, read_entropy_transport_seekable r = Ok s /\ views s t
  | _ => exists e, read_entropy_transport_seekable r = Err e
  end.
Proof using Hfile.
  intros Hu Hl. destruct (open_source_ok r Hu Hl) as [Hc Hp]. unfold read_entropy_transport, read_entropy_transport_seekable.
  destruct (open_source r) as [r' a]. simpl in Hc, Hp.
  destruct (parse_transport_metadata _ _) as [[[[ll cs] chunks] codecs]| | |]; [|destruct Hp as [err ->]; by exists err..].
  rewrite Hp. cbn [bind]. eexists. split; [done|]. by repeat split.
Qed.
End refinement.

(** * An in-memory file *)

(** [std::io::Cursor] over bytes. *)
Record Cursor : Type := MkCursor { cur_data : list Z; cur_pos : Z }.

#[export] Instance cursor_source : Source Cursor := {
  seek_end r := (MkCursor (cur_data r) (zlen (cur_data r)), Some (zlen (cur_data r)));
  seek_start r p := (MkCursor (cur_data r) p, true);
  read_exact r n :=
    if cur_pos r + n <=? zlen (cur_data r)
    then (MkCursor (cur_data r) (cur_pos r + n), Some (sub (cur_data r) (cur_pos r) (cur_pos r + n)))
    else (MkCursor (cur_data r) (zlen (cur_data r)), None) }.

#[export] Instance cursor_file : FileSource Cursor cur_data cur_pos.
Proof.
  split; [done|done|]. intros r n Hn Hp. simpl. by destruct (_ <=? _).
Qed.

(** * Properties *)

(** C2: the file-backed reader refines the in-memory one.  On any source that
    behaves like a file, opening succeeds exactly when the in-memory parser
    accepts the contents, and then every sequence of [read_chunk], [read_range]
    and [read_all] requests, failing ones included, gets the answers the
    in-memory transport gives. *)
Theorem seekable_refines_memory {R} `{Source R} (content : R -> list Z) (pos : R -> Z) blake3 (r : R) :
  FileSource R content pos -> bytes_ok (content r) -> zlen (content r) <= isize_max ->
  match read_entropy_transport (content r) with
  | Ok t => exists s, read_entropy_transport_seekable r = Ok s /\
      forall qs, Forall request_ok qs -> serve blake3 s qs = answer blake3 t <$> qs
  | _ => exists e, read_entropy_transport_seekable r = Err e
  end.
Proof.
  intros Hfile Hu Hl. pose proof (open_views content pos r Hu Hl) as Ho.
  destruct (read_entropy_transport (content r)) as [t| | |] eqn:Ht; [|done..].
  destruct Ho as (s & Hs & Hv). exists s. split; [done|]. intros qs Hq.
  eapply serve_answers; try done. by apply (read_entropy_transport_ok (content r) Hu Hl).
Qed.

Lemma seekable_refines_memory_witness :
  exists s, read_entropy_transport_seekable (MkCursor sample_transport 5) = Ok s /\
    serve sum_hash s [ReadChunk 9; ReadRange 98 4; ReadRange 98 90; ReadChunk 1] =
      [Err (ChunkOutOfRange 9); Ok [7; 7; 1; 2]; Err RangeOutOfRange; Ok (vec 7 36 ++ [1; 2; 3])].
Proof.
  pose proof (seekable_refines_memory cur_data cur_pos sum_hash (MkCursor sample_transport 5) cursor_file) as Hthm.
  destruct (read_entropy_transport (cur_data (MkCursor sample_transport 5))) as [t| | |] eqn:Ht;
    [|exfalso; vm_compute in Ht; discriminate Ht..].
  destruct Hthm as (s & Hs & Hq); [apply bytes_ok_check; by vm_compute|by vm_compute|]. exists s. split; [done|].
  rewrite Hq by (repeat constructor; simpl; lia).
  assert (Hp : Ok t = Ok (E := EntropyTransportError) sample_parsed) by (rewrite <- Ht; by vm_compute).
  apply Ok_inj in Hp as ->. by vm_compute.
Defined.
