(* ===== verification/Schema.v ===== *)
(** * The semantic layout vocabulary (crates/tritium-schema/src/lib.rs)

    Scale laws, the registry of admitted laws, bases, codecs and the structural
    validation of an additive tensor's layout. *)

From S2P Require Import Prelude.
From Stdlib Require Import ZArith Lia Bool.
From stdpp Require Import base list numbers.

#[local] Open Scope Z_scope.

Inductive ScalePrecision : Type := F16 | Bf16 | F32.
Inductive ScaleAnchor : Type := Group | Row | Tensor | Channel.
Inductive PlaneRelation : Type := Free | Tied (num den : Z).
Record ScaleLaw : Type := MkScaleLaw {
  anchor : ScaleAnchor;
  relation : PlaneRelation;
  precision : ScalePrecision }.

#[export] Instance ScalePrecision_eq_dec : EqDecision ScalePrecision.
Proof. solve_decision. Defined.
#[export] Instance ScaleAnchor_eq_dec : EqDecision ScaleAnchor.
Proof. solve_decision. Defined.
#[export] Instance PlaneRelation_eq_dec : EqDecision PlaneRelation.
Proof. solve_decision. Defined.
#[export] Instance ScaleLaw_eq_dec : EqDecision ScaleLaw.
Proof. solve_decision. Defined.

Definition has_valid_ratio (self : ScaleLaw) : bool :=
  match relation self with
  | Free => true
  | Tied num den => (0 <? num) && (0 <? den)
  end.

Record AdmittedLaw : Type := MkAdmittedLaw { al_law : ScaleLaw; al_max_planes : Z }.

Definition ADMITTED_LAWS : list AdmittedLaw :=
  [ MkAdmittedLaw (MkScaleLaw Group Free F16) 3;
    MkAdmittedLaw (MkScaleLaw Group Free F32) 3;
    MkAdmittedLaw (MkScaleLaw Group (Tied 1 3) F16) 3;
    MkAdmittedLaw (MkScaleLaw Tensor Free F32) 1 ].

Definition admitted_law (law : ScaleLaw) : option AdmittedLaw :=
  snd <$> list_find (fun admitted => al_law admitted = law) ADMITTED_LAWS.

Definition admitted_execution_group (law : ScaleLaw) (group : Z) : bool :=
  match admitted_law law with Some _ => (group =? 32) || (group =? 128) | None => false end.

Inductive Basis : Type :=
| Identity
| Hadamard (block : Z)
| SignedRht (block seed domain : Z).
#[export] Instance Basis_eq_dec : EqDecision Basis.
Proof. solve_decision. Defined.

Inductive PlaneCodec : Type := D2 | B3 | S34.
Inductive Transport : Type := Raw | JointHuffman (block : Z).
Inductive PlaneAllocation : Type := Uniform | PerTile.

Definition ADDITIVE_TILE_SIZE : Z := 256.

Record AdditiveLayout : Type := MkLayout {
  rows : Z;
  cols : Z;
  tile : Z;
  group : Z;
  max_planes : Z;
  allocation : PlaneAllocation;
  codec : PlaneCodec;
  law : ScaleLaw;
  basis : Basis;
  transport : Transport }.

Inductive LayoutError : Type :=
| EmptyDimensions
| UnsupportedGroup
| UnsupportedTileSize
| EmptyPlaneStack
| InvalidScaleRatio
| UnsupportedLaw
| PlaneCountExceedsLaw
| InvalidBasisBlock
| BasisBlockDoesNotDivideColumns
| EmptyTransportBlock.

Definition basis_block (b : Basis) : option Z :=
  match b with
  | Identity => None
  | Hadamard block | SignedRht block _ _ => Some block
  end.

Definition validate (self : AdditiveLayout) : res LayoutError unit :=
  if (rows self =? 0) || (cols self =? 0) then Err EmptyDimensions else
  if negb ((group self =? 32) || (group self =? 64) || (group self =? 128) || (group self =? 256))
  then Err UnsupportedGroup else
  if negb (tile self =? ADDITIVE_TILE_SIZE) then Err UnsupportedTileSize else
  if max_planes self =? 0 then Err EmptyPlaneStack else
  if negb (has_valid_ratio (law self)) then Err InvalidScaleRatio else
  match admitted_law (law self) with
  | None => Err UnsupportedLaw
  | Some admitted =>
      if al_max_planes admitted <? max_planes self then Err PlaneCountExceedsLaw else
      let* _ :=
        match basis_block (basis self) with
        | Some block =>
            if negb (is_power_of_two block) then Err InvalidBasisBlock else
            if negb (is_multiple_of (cols self) block) then Err BasisBlockDoesNotDivideColumns else Ok tt
        | None => Ok tt
        end in
      match transport self with
      | JointHuffman block => if block =? 0 then Err EmptyTransportBlock else Ok tt
      | Raw => Ok tt
      end
  end.

(** * What validation promises *)

(** The fields at their Rust types. *)
Definition layout_typed (l : AdditiveLayout) : Prop :=
  is_u64 (rows l) /\ is_u64 (cols l) /\ is_u16 (tile l) /\ is_u16 (group l) /\ is_u8 (max_planes l).

Record layout_ok (l : AdditiveLayout) : Prop := {
  lo_rows : 0 < rows l;
  lo_cols : 0 < cols l;
  lo_tile : tile l = 256;
  lo_group : group l ∈ [32; 64; 128; 256];
  lo_law : exists cap, MkAdmittedLaw (law l) cap ∈ ADMITTED_LAWS /\ 0 < max_planes l <= cap;
  lo_basis : forall block, basis_block (basis l) = Some block ->
    exists k, 0 <= k /\ block = 2 ^ k /\ (block | cols l);
  lo_transport : transport l <> JointHuffman 0 }.

(** The registry lists every law once, so a law has one cap. *)
Lemma admitted_law_spec l a :
  admitted_law l = Some a <-> a ∈ ADMITTED_LAWS /\ al_law a = l.
Proof.
  unfold admitted_law. split.
  - intros H. apply fmap_Some in H as ([i x] & Hf & ->). apply list_find_Some in Hf as (Hi & Hl & _).
    split; [by eapply list_elem_of_lookup_2|done].
  - intros [Hin <-]. unfold ADMITTED_LAWS in Hin. repeat (apply elem_of_cons in Hin as [->|Hin]; [reflexivity|]).
    by apply not_elem_of_nil in Hin.
Qed.

Lemma admitted_ratio a : a ∈ ADMITTED_LAWS -> has_valid_ratio (al_law a) = true.
Proof.
  unfold ADMITTED_LAWS. intros Hin. repeat (apply elem_of_cons in Hin as [->|Hin]; [reflexivity|]).
  by apply not_elem_of_nil in Hin.
Qed.

Lemma group_check g :
  ((g =? 32) || (g =? 64) || (g =? 128) || (g =? 256)) = true <-> g ∈ [32; 64; 128; 256].
Proof.
  rewrite !orb_true_iff, !Z.eqb_eq, !elem_of_cons, elem_of_nil. tauto.
Qed.

Lemma is_multiple_of_divide a b : 0 < b -> is_multiple_of a b = true <-> (b | a).
Proof.
  intros Hb. unfold is_multiple_of. replace (b =? 0) with false by lia.
  rewrite Z.eqb_eq. apply Z.mod_divide. lia.
Qed.

Lemma validate_Ok l : layout_typed l -> validate l = Ok tt <-> layout_ok l.
Proof.
  intros (Hr & Hc & _ & _ & Hm). unfold is_u64, is_u8 in *. unfold validate. split.
  - destruct (Z.eqb_spec (rows l) 0); [done|]. destruct (Z.eqb_spec (cols l) 0); [done|]. cbn [orb].
    destruct (_ || _) eqn:Hg; [|done]. apply group_check in Hg. cbn [negb].
    destruct (Z.eqb_spec (tile l) ADDITIVE_TILE_SIZE) as [Ht|]; [|done]. cbn [negb].
    destruct (Z.eqb_spec (max_planes l) 0); [done|]. destruct (negb _); [done|].
    destruct (admitted_law (law l)) as [[lw cap]|] eqn:Ha; [|done]. apply admitted_law_spec in Ha as [Hin Hl]. simpl in Hl. subst lw.
    simpl al_max_planes. destruct (Z.ltb_spec cap (max_planes l)); [done|]. intros Hval. bind_inv Hval.
    split; try (done || lia).
    + exists cap. split; [done|lia].
    + intros block Hb. rewrite Hb in Hv. destruct (is_power_of_two block) eqn:Hp; [|done]. cbn [negb] in Hv.
      destruct (is_multiple_of (cols l) block) eqn:Hd; [|done]. exists (Z.log2 block).
      pose proof (power_of_two_log block Hp) as Hlog. split; [apply Z.log2_nonneg|]. split; [done|].
      apply is_multiple_of_divide; [|done]. rewrite Hlog. apply Z.pow_pos_nonneg; [lia|apply Z.log2_nonneg].
    + intros Htr. by rewrite Htr in Hval.
  - intros [H1 H2 H3 H4 (cap & Hin & Hcap) H6 H7].
    replace (rows l =? 0) with false by lia. replace (cols l =? 0) with false by lia. cbn [orb].
    apply group_check in H4 as ->. cbn [negb]. rewrite H3. change (256 =? ADDITIVE_TILE_SIZE) with true. cbn [negb].
    replace (max_planes l =? 0) with false by lia. pose proof (admitted_ratio _ Hin) as Hrat. simpl al_law in Hrat. rewrite Hrat. cbn [negb].
    rewrite (proj2 (admitted_law_spec (law l) (MkAdmittedLaw (law l) cap)) (conj Hin eq_refl)). simpl al_max_planes.
    replace (cap <? max_planes l) with false by lia.
    assert (Hb : match basis_block (basis l) with
        | Some block => if negb (is_power_of_two block) then Err InvalidBasisBlock else
            if negb (is_multiple_of (cols l) block) then Err BasisBlockDoesNotDivideColumns else Ok tt
        | None => Ok tt end = Ok tt).
    { destruct (basis_block (basis l)) as [block|]; [|done]. destruct (H6 block eq_refl) as (k & Hk & -> & Hd).
      rewrite power_of_two_pow by done. cbn [negb].
      rewrite (proj2 (is_multiple_of_divide (cols l) (2 ^ k) ltac:(apply Z.pow_pos_nonneg; lia)) Hd). done. }
    rewrite Hb. cbn [bind]. destruct (transport l) as [|block]; [done|]. destruct (Z.eqb_spec block 0) as [->|]; done.
Qed.

Lemma validate_returns l : returns (validate l).
Proof.
  unfold validate. repeat first [done | match goal with |- context [if ?b then _ else _] => destruct b end
    | match goal with |- context [match ?x with _ => _ end] => destruct x end].
Qed.

(** * Properties *)

Definition sample_layout : AdditiveLayout :=
  MkLayout 2 256 256 128 3 Uniform D2 (MkScaleLaw Group Free F16) (Hadamard 128) Raw.

(** [validate] accepts exactly the well-formed layouts: nonempty, with the
    canonical tile and a supported group, a law of the registry with a plane count
    within that law's own cap, a basis block that is a power of two dividing the
    row, and a nonempty transport block; anything else is an error, never a panic. *)
Theorem layout_validate_exact l :
  layout_typed l ->
  (validate l = Ok tt <-> layout_ok l) /\ (~ layout_ok l -> exists e, validate l = Err e).
Proof.
  intros Ht. split; [by apply validate_Ok|]. intros Hn.
  pose proof (validate_returns l) as Hr.
  destruct (validate l) as [[]|e| |] eqn:Hv; [|by exists e|done|done]. destruct Hn. by apply validate_Ok.
Qed.

Lemma layout_validate_exact_witness :
  layout_ok sample_layout /\ validate (MkLayout 2 96 256 128 3 Uniform D2 (MkScaleLaw Group Free F16) (Hadamard 64) Raw)
    = Err BasisBlockDoesNotDivideColumns.
Proof.
  split; [|reflexivity]. apply (layout_validate_exact sample_layout); [repeat split; vm_compute; congruence|reflexivity].
Defined.
