(* ===== verification/PerTile.v ===== *)
(** * Compact per-tile plane-major geometry (crates/tritium-core/src/per_tile.rs)

    The checked preflight ([geometry], [PerTilePlan]), the row-span index built
    from it ([PerTileIndex], [OwnedPerTileIndex]) and the row cursor
    ([ActiveTiles]). The specification places tile [t] of row [r] in plane [p] at
    the sum of everything before it in the order plane, row, active tile. *)

From Stdlib Require Import ZArith Lia Bool.
From stdpp Require Import base list numbers.
From S2P Require Import Prelude Schema.

#[local] Open Scope Z_scope.

Inductive AdditiveError : Type :=
| InvalidLayout (e : LayoutError)
| UnsupportedAllocation
| InvalidPlaneCount
| TileCountMismatch (expected got : Z)
| InvalidTilePlaneCount (tile count max : Z)
| IndexStorageLength (expected got : Z)
| TritCountMismatch (expected got : Z)
| ScaleCountMismatch (expected got : Z)
| InvalidScale
| SizeOverflow
| AllocationFailed (requested : Z)
| RowOutOfRange
| OutputLength (expected got : Z)
| MatmulShape
| UnsupportedBasis.

Record PerTileRowSpan : Type := MkSpan { sp_trit : Z; sp_scale : Z }.

Record Geometry : Type := MkGeometry {
  g_rows : Z;
  g_cols : Z;
  g_tiles : Z;
  g_planes : Z;
  g_trits : Z;
  g_scales : Z;
  g_slots : Z }.

#[export] Instance PlaneAllocation_eq_dec : EqDecision PlaneAllocation.
Proof. solve_decision. Defined.

(** [(cols - tile * 256).min(256)]. *)
Definition tile_width {E} (cols tile : Z) : res E Z :=
  let* start := mul_usize tile 256 in
  let* rest := sub_usize cols start in
  Ok (Z.min rest 256).

Definition tile_scales (law : ScaleLaw) (groups count : Z) : res AdditiveError Z :=
  match anchor law, relation law with
  | Group, Free => mul_usize groups count
  | Group, Tied _ _ => mul_usize groups (Z.b2z (0 <? count))
  | Tensor, Free => Ok 0
  | _, _ => Err (InvalidLayout UnsupportedLaw)
  end.

(** One tile of the preflight loop; the state is [(planes, trits, scales)]. *)
Definition geometry_tile (layout : AdditiveLayout) (cols tiles : Z) (tile count : Z)
    (s : Z * Z * Z) : res AdditiveError (Z * Z * Z) :=
  let '(planes, trits, scales) := s in
  if max_planes layout <? count
  then Err (InvalidTilePlaneCount tile count (max_planes layout)) else
  let planes := Z.max planes count in
  let* len := tile_width cols (tile mod tiles) in
  let* coefficients := ok_or (checked_mul len count) SizeOverflow in
  let* trits := ok_or (checked_add trits coefficients) SizeOverflow in
  let groups := div_ceil len (group layout) in
  let* stored := tile_scales (law layout) groups count in
  let* scales := ok_or (checked_add scales stored) SizeOverflow in
  Ok (planes, trits, scales).

Definition geometry (layout : AdditiveLayout) (counts : list Z) : res AdditiveError Geometry :=
  let* _ := map_err InvalidLayout (validate layout) in
  if negb (bool_decide (allocation layout = PerTile)) then Err UnsupportedAllocation else
  let rows := rows layout in
  let cols := cols layout in
  let* _ := ok_or (checked_mul rows cols) SizeOverflow in
  let tiles := div_ceil cols 256 in
  let* expected := ok_or (checked_mul rows tiles) SizeOverflow in
  if negb (zlen counts =? expected) then Err (TileCountMismatch expected (zlen counts)) else
  let* pts := for_enum 0 counts (geometry_tile layout cols tiles) (0, 0, 0) in
  let '(planes, trits, scales) := pts in
  let scales := if bool_decide (anchor (law layout) = Tensor) then planes else scales in
  let* slots := ok_or (checked_mul rows planes) SizeOverflow in
  Ok (MkGeometry rows cols tiles planes trits scales slots).

(** [size_of::<PerTileRowSpan>()]: two [usize] fields. *)
Definition span_bytes : Z := 16.

Definition buffer_len_bytes (counts slots : Z) : res AdditiveError Z :=
  ok_or (match checked_mul slots span_bytes with
         | Some bytes => checked_add bytes counts
         | None => None
         end) SizeOverflow.

Record PerTileIndex : Type := MkIndex {
  ix_layout : AdditiveLayout;
  ix_geometry : Geometry;
  ix_counts : list Z;
  ix_spans : list PerTileRowSpan }.

(** The inner loop of [build_validated] at one tile; the state is [(trit, scale)]. *)
Definition build_tile (layout : AdditiveLayout) (counts : list Z) (g : Geometry)
    (plane row tile : Z) (s : Z * Z) : res AdditiveError (Z * Z) :=
  let '(trit, scale) := s in
  let* base := mul_usize row (g_tiles g) in
  let* at_ := add_usize base tile in
  let* count := idx counts at_ in
  let* len := tile_width (g_cols g) tile in
  if plane <? count then
    let* trit := add_usize trit len in
    if bool_decide (anchor (law layout) = Group)
       && (bool_decide (relation (law layout) = Free) || (plane =? 0))
    then let* scale := add_usize scale (div_ceil len (group layout)) in Ok (trit, scale)
    else Ok (trit, scale)
  else Ok (trit, scale).

Definition scale_start (layout : AdditiveLayout) (storage : list PerTileRowSpan)
    (plane row scale : Z) : res AdditiveError Z :=
  match anchor (law layout), relation (law layout) with
  | Tensor, _ => Ok plane
  | _, Tied _ _ => if 0 <? plane then let* s := idx storage row in Ok (sp_scale s) else Ok scale
  | _, _ => Ok scale
  end.

Definition build_row (layout : AdditiveLayout) (counts : list Z) (g : Geometry)
    (plane row : Z) (s : list PerTileRowSpan * (Z * Z)) : res AdditiveError (list PerTileRowSpan * (Z * Z)) :=
  let '(storage, (trit, scale)) := s in
  let* start := scale_start layout storage plane row scale in
  let* base := mul_usize plane (g_rows g) in
  let* slot := add_usize base row in
  let* storage := upd storage slot (MkSpan trit start) in
  let* ts := for_range 0 (g_tiles g) (build_tile layout counts g plane row) (trit, scale) in
  Ok (storage, ts).

Definition build_validated (layout : AdditiveLayout) (counts : list Z)
    (storage : list PerTileRowSpan) (g : Geometry) : res AdditiveError PerTileIndex :=
  if negb (zlen storage =? g_slots g)
  then Err (IndexStorageLength (g_slots g) (zlen storage)) else
  let* out := for_range 0 (g_planes g) (fun plane =>
    for_range 0 (g_rows g) (build_row layout counts g plane)) (storage, (0, 0)) in
  Ok (MkIndex layout g counts (fst out)).

Record PerTilePlan : Type := MkPlan {
  pl_layout : AdditiveLayout;
  pl_counts : list Z;
  pl_geometry : Geometry }.

Definition plan_new (layout : AdditiveLayout) (counts : list Z) : res AdditiveError PerTilePlan :=
  let* g := geometry layout counts in Ok (MkPlan layout counts g).

Definition plan_index_len (p : PerTilePlan) : Z := g_slots (pl_geometry p).
Definition plan_buffer_len_bytes (p : PerTilePlan) : res AdditiveError Z :=
  buffer_len_bytes (zlen (pl_counts p)) (g_slots (pl_geometry p)).
Definition plan_trit_count (p : PerTilePlan) : Z := g_trits (pl_geometry p).
Definition plan_scale_count (p : PerTilePlan) : Z := g_scales (pl_geometry p).
Definition plan_plane_count (p : PerTilePlan) : Z := g_planes (pl_geometry p).

Definition plane_trit_count (p : PerTilePlan) (plane : Z) : res AdditiveError Z :=
  if g_planes (pl_geometry p) <=? plane then Err InvalidPlaneCount else
  for_enum 0 (pl_counts p) (fun tile count total =>
    if plane <? count then
      let* len := tile_width (g_cols (pl_geometry p)) (tile mod g_tiles (pl_geometry p)) in
      add_usize total len
    else Ok total) 0.

Definition plan_build (p : PerTilePlan) (storage : list PerTileRowSpan) : res AdditiveError PerTileIndex :=
  build_validated (pl_layout p) (pl_counts p) storage (pl_geometry p).

Definition required_storage (layout : AdditiveLayout) (counts : list Z) : res AdditiveError Z :=
  let* p := plan_new layout counts in Ok (plan_index_len p).

Definition build (layout : AdditiveLayout) (counts : list Z) (storage : list PerTileRowSpan)
  : res AdditiveError PerTileIndex :=
  let* p := plan_new layout counts in plan_build p storage.

(** [OwnedPerTileIndex]; [reserve] tells whether the allocator can provide storage
    for that many spans. *)
Record OwnedPerTileIndex : Type := MkOwned {
  ow_layout : AdditiveLayout;
  ow_geometry : Geometry;
  ow_counts : list Z;
  ow_spans : list PerTileRowSpan }.

Definition owned_new (reserve : Z -> bool) (layout : AdditiveLayout) (counts : list Z)
  : res AdditiveError OwnedPerTileIndex :=
  let* plan := plan_new layout counts in
  let g := pl_geometry plan in
  let* requested := ok_or (checked_mul (g_slots g) span_bytes) SizeOverflow in
  if negb (reserve (g_slots g)) then Err (AllocationFailed requested) else
  let spans := vec (MkSpan 0 0) (g_slots g) in
  let* built := plan_build plan spans in
  Ok (MkOwned layout g counts (ix_spans built)).

Definition as_index (o : OwnedPerTileIndex) : PerTileIndex :=
  MkIndex (ow_layout o) (ow_geometry o) (ow_counts o) (ow_spans o).

Record ActiveTile : Type := MkTile { at_col : Z; at_len : Z; at_trit : Z; at_scale : Z }.

Record ActiveTiles : Type := MkTiles {
  it_index : PerTileIndex;
  it_plane : Z;
  it_row : Z;
  it_next : Z;
  it_trit : Z;
  it_scale : Z }.

Definition plane_range (ix : PerTileIndex) (plane : Z) : res AdditiveError (Z * Z) :=
  let g := ix_geometry ix in
  let* a := mul_usize plane (g_rows g) in
  let* first := idx (ix_spans ix) a in
  let* following := add_usize plane 1 in
  if following =? g_planes g then Ok (sp_trit first, g_trits g) else
  let* b := mul_usize following (g_rows g) in
  let* last := idx (ix_spans ix) b in
  Ok (sp_trit first, sp_trit last).

Definition row_tiles (ix : PerTileIndex) (plane row : Z) : res AdditiveError ActiveTiles :=
  let* base := mul_usize plane (g_rows (ix_geometry ix)) in
  let* slot := add_usize base row in
  let* span := idx (ix_spans ix) slot in
  Ok (MkTiles ix plane row 0 (sp_trit span) (sp_scale span)).

Definition tiles_in_row (ix : PerTileIndex) (plane row : Z) : res AdditiveError ActiveTiles :=
  if g_rows (ix_geometry ix) <=? row then Err RowOutOfRange else
  if g_planes (ix_geometry ix) <=? plane then Err InvalidPlaneCount else
  row_tiles ix plane row.

(** The [while] loop of [ActiveTiles::next]; one unit of fuel per tile visited. *)
Fixpoint next_loop (fuel : nat) (s : ActiveTiles) : res AdditiveError (option ActiveTile * ActiveTiles) :=
  match fuel with
  | O => NoFuel
  | S fuel =>
      let g := ix_geometry (it_index s) in
      if it_next s <? g_tiles g then
        let tile := it_next s in
        let* following := add_usize tile 1 in
        let* base := mul_usize (it_row s) (g_tiles g) in
        let* at_ := add_usize base tile in
        let* count := idx (ix_counts (it_index s)) at_ in
        let* col := mul_usize tile 256 in
        let* rest := sub_usize (g_cols g) col in
        let len := Z.min rest 256 in
        let active := it_plane s <? count in
        let result := MkTile col len (it_trit s) (it_scale s) in
        let lw := law (ix_layout (it_index s)) in
        let stored := bool_decide (anchor lw = Group) &&
          match relation lw with Free => active | Tied _ _ => 0 <? count end in
        let* scale := if stored
          then add_usize (it_scale s) (div_ceil len (group (ix_layout (it_index s))))
          else Ok (it_scale s) in
        if active then
          let* trit := add_usize (it_trit s) len in
          Ok (Some result, MkTiles (it_index s) (it_plane s) (it_row s) following trit scale)
        else next_loop fuel (MkTiles (it_index s) (it_plane s) (it_row s) following (it_trit s) scale)
      else Ok (None, s)
  end.

Definition next (s : ActiveTiles) : res AdditiveError (option ActiveTile * ActiveTiles) :=
  next_loop (S (Z.to_nat (g_tiles (ix_geometry (it_index s)) - it_next s))) s.

(** A [for] loop over the cursor, collecting what it yields. *)
Fixpoint collect (fuel : nat) (s : ActiveTiles) : res AdditiveError (list ActiveTile) :=
  match fuel with
  | O => NoFuel
  | S fuel =>
      let* (t, s') := next s in
      match t with
      | None => Ok []
      | Some t => let* l := collect fuel s' in Ok (t :: l)
      end
  end.

Definition collect_row (ix : PerTileIndex) (plane row : Z) : res AdditiveError (list ActiveTile) :=
  let* s := tiles_in_row ix plane row in
  collect (S (Z.to_nat (g_tiles (ix_geometry ix)))) s.

(** * Specification of the compact order *)

(** Sum of [f] over the positions before [(p, r, t)] in the order plane, row, tile,
    with [R] rows of [T] tiles. *)
Definition lex (R T : Z) (f : Z -> Z -> Z -> Z) (p r t : Z) : Z :=
  sumZ p (fun p => sumZ R (fun r => sumZ T (f p r))) + sumZ r (fun r => sumZ T (f p r)) + sumZ t (f p r).

Section Lex.
  Context (R T : Z) (f : Z -> Z -> Z -> Z) (HR : 0 <= R) (HT : 0 <= T).

Lemma lex_tile p r t : 0 <= t -> lex R T f p r (t + 1) = lex R T f p r t + f p r t.
Proof. intros Ht. unfold lex. rewrite (sumZ_S t) by done. lia. Qed.

Lemma lex_row p r : 0 <= r -> lex R T f p (r + 1) 0 = lex R T f p r T.
Proof. intros Hr. unfold lex. rewrite (sumZ_S r), !sumZ_0 by done. lia. Qed.

Lemma lex_plane p : 0 <= p -> lex R T f (p + 1) 0 0 = lex R T f p R 0.
Proof. intros Hp. unfold lex. rewrite (sumZ_S p), !sumZ_0 by done. lia. Qed.

  Context (Hf : forall p r t, 0 <= t < T -> 0 <= f p r t).

Lemma row_sum_nonneg p r t : 0 <= t <= T -> 0 <= sumZ t (f p r).
Proof. intros Ht. apply sumZ_nonneg; [lia|]. intros. apply Hf. lia. Qed.

Lemma rows_sum_nonneg p r : 0 <= r -> 0 <= sumZ r (fun r => sumZ T (f p r)).
Proof. intros Hr. apply sumZ_nonneg; [lia|]. intros. apply row_sum_nonneg. lia. Qed.

Lemma lex_nonneg p r t : 0 <= p -> 0 <= r -> 0 <= t <= T -> 0 <= lex R T f p r t.
Proof.
  intros Hp Hr Ht. unfold lex. pose proof (row_sum_nonneg p r t Ht). pose proof (rows_sum_nonneg p r Hr).
  enough (0 <= sumZ p (fun p => sumZ R (fun r => sumZ T (f p r)))) by lia.
  apply sumZ_nonneg; [lia|]. intros. by apply rows_sum_nonneg.
Qed.

Lemma lex_le_tile p r t t' : 0 <= t <= t' -> t' <= T -> lex R T f p r t <= lex R T f p r t'.
Proof.
  intros Ht Ht'. unfold lex. pose proof (sumZ_prefix t t' (f p r) Ht ltac:(intros; apply Hf; lia)). lia.
Qed.

Lemma lex_le_row p r r' t : 0 <= r < r' -> 0 <= t <= T -> lex R T f p r t <= lex R T f p r' 0.
Proof.
  intros Hr Ht. transitivity (lex R T f p r T); [apply lex_le_tile; lia|]. rewrite <- lex_row by lia.
  unfold lex. pose proof (sumZ_prefix (r + 1) r' (fun r => sumZ T (f p r)) ltac:(lia) ltac:(intros; apply row_sum_nonneg; lia)).
  rewrite !sumZ_0. lia.
Qed.

Lemma lex_le_plane p p' r t : 0 <= p < p' -> 0 <= r < R -> 0 <= t <= T -> lex R T f p r t <= lex R T f p' 0 0.
Proof.
  intros Hp Hr Ht. transitivity (lex R T f p R 0); [by apply lex_le_row|]. rewrite <- lex_plane by lia.
  unfold lex. pose proof (sumZ_prefix (p + 1) p' (fun p => sumZ R (fun r => sumZ T (f p r))) ltac:(lia)
    ltac:(intros; by apply rows_sum_nonneg)). rewrite !sumZ_0. lia.
Qed.

(** The total, summed tile by tile. *)
Lemma lex_total P : 0 <= P -> lex R T f P 0 0 = sumZ R (fun r => sumZ T (fun t => sumZ P (fun p => f p r t))).
Proof.
  intros HP. unfold lex. rewrite !sumZ_0, !Z.add_0_r, sumZ_swap by done. apply sumZ_ext. intros r _. by rewrite sumZ_swap.
Qed.
End Lex.

Definition width (cols t : Z) : Z := Z.min (cols - t * 256) 256.
Definition count_at (counts : list Z) (i : Z) : Z := default 0 (counts !! Z.to_nat i).

Section Spec.
  Context (l : AdditiveLayout) (counts : list Z).

  Abbreviation T := (div_ceil (cols l) 256).

Definition count_of (r t : Z) : Z := count_at counts (r * T + t).
Definition groups_of (t : Z) : Z := div_ceil (width (cols l) t) (group l).
Definition active (p r t : Z) : bool := p <? count_of r t.

(** Coefficients and scales stored for tile [t] of row [r] in plane [p]. *)
Definition trits_of (p r t : Z) : Z := if active p r t then width (cols l) t else 0.
Definition scales_of (p r t : Z) : Z :=
  match anchor (law l), relation (law l) with
  | Group, Free => if active p r t then groups_of t else 0
  | Group, Tied _ _ => if (p =? 0) && active 0 r t then groups_of t else 0
  | _, _ => 0
  end.

Definition trit_off (p r t : Z) : Z := lex (rows l) T trits_of p r t.
Definition scale_off (p r t : Z) : Z :=
  match anchor (law l), relation (law l) with
  | Tensor, _ => p
  | _, Free => lex (rows l) T scales_of p r t
  | _, Tied _ _ => lex (rows l) T scales_of 0 r t
  end.

Definition tile_at (p r t : Z) : ActiveTile :=
  MkTile (t * 256) (width (cols l) t) (trit_off p r t) (scale_off p r t).

(** The tiles of row [r] present in plane [p], from tile [n] on. *)
Definition row_from (p r n : Z) : list ActiveTile :=
  tile_at p r <$> filter (fun t => active p r t = true) (seqZ n (T - n)).
Definition row_spec (p r : Z) : list ActiveTile := row_from p r 0.

Definition span_spec (p r : Z) : PerTileRowSpan := MkSpan (trit_off p r 0) (scale_off p r 0).
Definition stored_of (count t : Z) : Z :=
  match anchor (law l), relation (law l) with
  | Group, Free => groups_of t * count
  | Group, Tied _ _ => groups_of t * Z.b2z (0 <? count)
  | _, _ => 0
  end.
End Spec.

(** What an accepted preflight established. *)
Record geo_ok (l : AdditiveLayout) (counts : list Z) (g : Geometry) : Prop := {
  go_layout : layout_ok l;
  go_alloc : allocation l = PerTile;
  go_rows : g_rows g = rows l;
  go_cols : g_cols g = cols l;
  go_tiles : g_tiles g = div_ceil (cols l) 256;
  go_len : zlen counts = rows l * div_ceil (cols l) 256;
  go_bytes : bytes_ok counts;
  go_counts : forall i, 0 <= i < zlen counts -> 0 <= count_at counts i <= g_planes g;
  go_planes : 0 <= g_planes g <= max_planes l;
  go_max : g_planes g = 0 \/ exists i, 0 <= i < zlen counts /\ count_at counts i = g_planes g;
  go_size : rows l * cols l <= usize_max;
  go_trits : g_trits g = lex (rows l) (div_ceil (cols l) 256) (trits_of l counts) (g_planes g) 0 0;
  go_scales : g_scales g = match anchor (law l) with
    | Tensor => g_planes g
    | _ => lex (rows l) (div_ceil (cols l) 256) (scales_of l counts) (g_planes g) 0 0 end;
  go_slots : g_slots g = rows l * g_planes g;
  go_fits : g_trits g <= usize_max /\ g_scales g <= usize_max /\ g_slots g <= usize_max }.

(** The admitted laws: grouped free, grouped tied, per-tensor free. *)
Lemma layout_laws l : layout_ok l ->
  anchor (law l) = Group /\ relation (law l) = Free \/
  anchor (law l) = Group /\ relation (law l) = Tied 1 3 \/
  anchor (law l) = Tensor /\ relation (law l) = Free.
Proof.
  intros [_ _ _ _ (cap & Hin & _) _ _]. unfold ADMITTED_LAWS in Hin.
  repeat (apply elem_of_cons in Hin as [[= -> _]|Hin]; [simpl; tauto|]). by apply not_elem_of_nil in Hin.
Qed.

Section Tiles.
  Context (l : AdditiveLayout) (Hok : layout_ok l).
  Abbreviation T := (div_ceil (cols l) 256).

Lemma tiles_pos : 0 < T.
Proof. destruct Hok. pose proof (div_ceil_bounds (cols l) 256). lia. Qed.

Lemma width_bounds t : 0 <= t < T -> 0 < width (cols l) t <= 256.
Proof. intros Ht. unfold width. pose proof (div_ceil_bounds (cols l) 256). lia. Qed.

Lemma tile_width_Ok {E} t : cols l <= usize_max -> 0 <= t < T -> tile_width (E := E) (cols l) t = Ok (width (cols l) t).
Proof.
  intros Hc Ht. pose proof (div_ceil_bounds (cols l) 256). unfold tile_width.
  rewrite mul_usize_Ok by lia. cbn [bind]. rewrite sub_usize_Ok by lia. done.
Qed.

Lemma group_values : group l = 32 \/ group l = 64 \/ group l = 128 \/ group l = 256.
Proof. destruct Hok as [_ _ _ Hg _ _ _]. revert Hg. rewrite !elem_of_cons, elem_of_nil. tauto. Qed.

Lemma groups_bounds t : 0 <= t < T -> 0 < groups_of l t <= 8.
Proof.
  intros Ht. pose proof (width_bounds t Ht). unfold groups_of.
  pose proof (div_ceil_bounds (width (cols l) t) (group l)). destruct group_values as [Hg|[Hg|[Hg|Hg]]]; rewrite Hg in *; lia.
Qed.
End Tiles.

(** * The preflight *)

Lemma width_nonneg_mul l t c : layout_ok l -> 0 <= t < div_ceil (cols l) 256 -> 0 <= c <= 255 ->
  0 <= width (cols l) t * c <= 65280.
Proof. intros Hok Ht Hc. pose proof (width_bounds l t Ht). nia. Qed.

Lemma tile_scales_Ok l t c : layout_ok l -> 0 <= t < div_ceil (cols l) 256 -> 0 <= c <= 255 ->
  tile_scales (law l) (groups_of l t) c = Ok (stored_of l c t) /\ 0 <= stored_of l c t.
Proof.
  intros Hok Ht Hc. pose proof (groups_bounds l Hok t Ht). unfold tile_scales, stored_of.
  destruct (layout_laws l Hok) as [[-> ->]|[[-> ->]|[-> ->]]]; [| |done].
  - rewrite mul_usize_Ok by (unfold usize_max; nia). split; [done|nia].
  - destruct (0 <? c); simpl Z.b2z; rewrite mul_usize_Ok by (unfold usize_max; nia); split; (done || nia).
Qed.

Lemma count_at_lookup counts i x : counts !! Z.to_nat i = Some x -> count_at counts i = x.
Proof. unfold count_at. by intros ->. Qed.

Lemma count_at_in counts i : 0 <= i < zlen counts -> counts !! Z.to_nat i = Some (count_at counts i).
Proof.
  intros Hi. unfold count_at. destruct (counts !! Z.to_nat i) eqn:He; [done|].
  apply lookup_ge_None in He. unfold zlen in Hi. lia.
Qed.

Lemma count_at_u8 counts i : bytes_ok counts -> 0 <= count_at counts i <= 255.
Proof.
  intros Hb. unfold count_at. destruct (counts !! Z.to_nat i) eqn:He; simpl; [|lia].
  pose proof (Forall_lookup_1 _ _ _ _ Hb He) as Hx. unfold is_u8 in Hx. lia.
Qed.

(** The sums the loop has computed after [i] tiles. *)
Definition pre_inv (l : AdditiveLayout) (counts : list Z) (i : Z) (s : Z * Z * Z) : Prop :=
  let '(planes, trits, scales) := s in
  let T := div_ceil (cols l) 256 in
  0 <= planes <= max_planes l /\ (forall j, 0 <= j < i -> count_at counts j <= planes) /\
  (planes = 0 \/ exists j, 0 <= j < i /\ count_at counts j = planes) /\
  trits = sumZ i (fun j => width (cols l) (j mod T) * count_at counts j) /\ 0 <= trits <= usize_max /\
  scales = sumZ i (fun j => stored_of l (count_at counts j) (j mod T)) /\ 0 <= scales <= usize_max.

Lemma geometry_tile_eq l i c planes trits scales :
  layout_ok l -> is_u64 (cols l) -> 0 <= c <= 255 ->
  let T := div_ceil (cols l) 256 in
  geometry_tile l (cols l) T i c (planes, trits, scales) =
  if max_planes l <? c then Err (InvalidTilePlaneCount i c (max_planes l)) else
  let* trits := ok_or (checked_add trits (width (cols l) (i mod T) * c)) SizeOverflow in
  let* scales := ok_or (checked_add scales (stored_of l c (i mod T))) SizeOverflow in
  Ok (Z.max planes c, trits, scales).
Proof.
  intros Hok Hc Hcu T. pose proof (tiles_pos l Hok) as HT. pose proof (Z.mod_pos_bound i _ HT) as Hm. unfold geometry_tile.
  destruct (Z.ltb_spec (max_planes l) c); [done|].
  rewrite tile_width_Ok by (done || (unfold is_u64 in Hc; unfold usize_max; lia)). cbn [bind].
  pose proof (width_nonneg_mul l _ c Hok Hm Hcu) as Hw. unfold T.
  unfold checked_mul at 1. replace (_ <=? usize_max) with true by (unfold usize_max; lia). cbn [ok_or bind].
  destruct (tile_scales_Ok l _ c Hok Hm Hcu) as [Hts _]. unfold groups_of in Hts. by rewrite Hts.
Qed.

Lemma stored_of_nonneg l counts T i : layout_ok l -> bytes_ok counts -> T = div_ceil (cols l) 256 ->
  0 <= stored_of l (count_at counts i) (i mod T).
Proof.
  intros Hok Hb ->. apply tile_scales_Ok; [done| |by apply count_at_u8]. by apply Z.mod_pos_bound, tiles_pos.
Qed.

Lemma geometry_tile_step l counts i c s :
  layout_ok l -> is_u64 (cols l) -> bytes_ok counts -> 0 <= i -> counts !! Z.to_nat i = Some c ->
  pre_inv l counts i s ->
  returns (geometry_tile l (cols l) (div_ceil (cols l) 256) i c s) /\
  forall s', geometry_tile l (cols l) (div_ceil (cols l) 256) i c s = Ok s' -> pre_inv l counts (i + 1) s'.
Proof.
  intros Hok Hc Hb Hi Hx. destruct s as [[planes trits] scales]. intros (Hp & Hcs & Hmx & Ht & Htb & Hs & Hsb).
  pose proof (tiles_pos l Hok) as HT. pose proof (count_at_lookup _ _ _ Hx) as Hat.
  pose proof (count_at_u8 counts i Hb) as Hcu. pose proof (stored_of_nonneg l counts _ i Hok Hb eq_refl) as Hst.
  rewrite Hat in Hcu, Hst. pose proof (width_nonneg_mul l _ c Hok (Z.mod_pos_bound i _ HT) Hcu) as Hw.
  rewrite geometry_tile_eq by done. destruct (Z.ltb_spec (max_planes l) c); [done|]. split.
  - apply returns_bind; [apply returns_ok_or|]. intros. apply returns_bind; [apply returns_ok_or|]. done.
  - intros s' H'. bind_inv H'. bind_inv H'. apply Ok_inj in H' as <-.
    apply ok_or_inv, checked_add_inv in Hv as [-> Hv], Hv0 as [-> Hv0].
    repeat split; try lia.
    + intros j Hj. destruct (Z.eq_dec j i) as [->|]; [lia|]. specialize (Hcs j). lia.
    + destruct (Z.le_gt_cases c planes) as [Hle|Hgt]; [rewrite Z.max_l by lia|rewrite Z.max_r by lia].
      * destruct Hmx as [|(j & Hj & Hjc)]; [by left|right; exists j; split; [lia|done]].
      * right. exists i. split; [lia|done].
    + rewrite sumZ_S, <- Ht, Hat by lia. done.
    + rewrite sumZ_S, <- Hs, Hat by lia. done.
Qed.

(** The preflight accepts every table whose totals fit. *)
Lemma geometry_total l counts :
  layout_typed l -> layout_ok l -> allocation l = PerTile -> bytes_ok counts ->
  let T := div_ceil (cols l) 256 in
  zlen counts = rows l * T -> rows l * cols l <= usize_max ->
  (forall i, 0 <= i < zlen counts -> count_at counts i <= max_planes l) ->
  (forall i, 0 <= i < zlen counts -> rows l * count_at counts i <= usize_max) ->
  sumZ (zlen counts) (fun j => width (cols l) (j mod T) * count_at counts j) <= usize_max ->
  sumZ (zlen counts) (fun j => stored_of l (count_at counts j) (j mod T)) <= usize_max ->
  exists g, geometry l counts = Ok g.
Proof.
  intros Hty Hok Ha Hb T Hlen Hsz Hcm Hsl Htr Hsc. unfold geometry.
  rewrite (proj2 (validate_Ok l Hty) Hok). cbn [map_err bind]. rewrite bool_decide_eq_true_2 by done. cbn [negb].
  destruct Hty as (Hr & Hc & _ & _ & Hmp). pose proof (tiles_pos l Hok) as HT.
  unfold checked_mul at 1. replace (_ <=? _) with true by lia. cbn [ok_or bind].
  assert (Hrt : rows l * div_ceil (cols l) 256 <= usize_max).
  { pose proof (div_ceil_bounds (cols l) 256). pose proof (lo_rows _ Hok). nia. }
  unfold checked_mul at 1. replace (_ <=? _) with true by lia. cbn [ok_or bind].
  fold T. rewrite (proj2 (Z.eqb_eq _ _) Hlen). cbn [negb].
  destruct (for_enum_inv (pre_inv l counts) (geometry_tile l (cols l) T) counts 0 (0, 0, 0)) as (s & Hs & Hi).
  - unfold pre_inv. rewrite !sumZ_0. unfold is_u8, usize_max in *. repeat split; try lia.
  - intros i x s Hi Hx HI. rewrite Z.sub_0_r in Hx. destruct (geometry_tile_step l counts i x s Hok Hc Hb Hi Hx HI) as [_ Hstep].
    enough (exists s', geometry_tile l (cols l) T i x s = Ok s') as [s' Hs'] by (exists s'; auto).
    pose proof (count_at_lookup _ _ _ Hx) as Hat. pose proof (count_at_u8 counts i Hb) as Hcu.
    assert (Hiz : i < zlen counts) by (apply lookup_lt_Some in Hx; unfold zlen; lia).
    pose proof (Hcm i ltac:(lia)) as Hm.
    assert (Ht1 : sumZ (i + 1) (fun j => width (cols l) (j mod T) * count_at counts j) <= usize_max).
    { etransitivity; [apply sumZ_prefix|exact Htr]; [lia|]. intros j _.
      apply width_nonneg_mul; [done|by apply Z.mod_pos_bound|by apply count_at_u8]. }
    assert (Hs1 : sumZ (i + 1) (fun j => stored_of l (count_at counts j) (j mod T)) <= usize_max).
    { etransitivity; [apply sumZ_prefix|exact Hsc]; [lia|]. intros j _. by apply stored_of_nonneg. }
    rewrite sumZ_S in Ht1, Hs1 by done. destruct s as [[planes trits] scales]. destruct HI as (_ & _ & _ & -> & _ & -> & _).
    unfold T. rewrite geometry_tile_eq by (done || lia). rewrite Hat in *. replace (_ <? x) with false by lia.
    unfold checked_add. fold T. replace (_ <=? usize_max) with true by lia. cbn [ok_or bind].
    replace (_ <=? usize_max) with true by lia. by eexists.
  - rewrite Hs. cbn [bind]. destruct s as [[planes trits] scales]. destruct Hi as (Hp & _ & Hmx & _).
    unfold checked_mul. replace (_ <=? _) with true; [by eexists|]. symmetry. apply Z.leb_le.
    destruct Hmx as [->|(j & Hj & <-)]; [unfold usize_max; lia|]. apply Hsl. lia.
Qed.

Lemma row_index_bounds R T r t : 0 <= r < R -> 0 <= t < T -> 0 <= r * T + t < R * T.
Proof. nia. Qed.

Lemma row_index_mod T r t : 0 <= t < T -> (r * T + t) mod T = t.
Proof. intros Ht. rewrite Z.add_comm, Z.mod_add by lia. by apply Z.mod_small. Qed.

(** A sum over the tile counts, plane by plane. *)
Lemma tile_sum_lex R T P (h : Z -> Z -> Z) (f : Z -> Z -> Z -> Z) :
  0 <= R -> 0 < T -> 0 <= P ->
  (forall r t, 0 <= r < R -> 0 <= t < T -> sumZ P (fun p => f p r t) = h (r * T + t) t) ->
  sumZ (R * T) (fun j => h j (j mod T)) = lex R T f P 0 0.
Proof.
  intros HR HT HP H. rewrite lex_total, sumZ_rows by lia. apply sumZ_ext. intros r Hr.
  apply sumZ_ext. intros t Ht. rewrite row_index_mod by done. symmetry. by apply H.
Qed.

Lemma trits_of_sum l counts P r t : 0 <= count_of l counts r t <= P ->
  sumZ P (fun p => trits_of l counts p r t) = width (cols l) t * count_of l counts r t.
Proof. intros H. apply (sumZ_below P _ (width (cols l) t) H). Qed.

Lemma scales_of_sum l counts P r t : 0 <= count_of l counts r t <= P ->
  sumZ P (fun p => scales_of l counts p r t) = stored_of l (count_of l counts r t) t.
Proof.
  intros H. unfold scales_of, stored_of.
  assert (H0 : sumZ P (fun _ => 0) = 0) by (apply sumZ_zero; [lia|done]).
  destruct (anchor (law l)), (relation (law l)); try exact H0.
  - apply (sumZ_below P _ (groups_of l t) H).
  - unfold active. destruct (Z.ltb_spec 0 (count_of l counts r t)) as [Hc|Hc].
    + rewrite (sumZ_ext P _ (fun p => if p <? 1 then groups_of l t else 0)).
      * rewrite sumZ_below by lia. simpl. lia.
      * intros i Hi. rewrite andb_true_r. replace (i <? 1) with (i =? 0) by lia. done.
    + simpl. rewrite Z.mul_0_r. apply sumZ_zero; [lia|]. intros i Hi. by rewrite andb_false_r.
Qed.

Lemma geometry_Ok l counts g :
  layout_typed l -> bytes_ok counts -> geometry l counts = Ok g -> geo_ok l counts g.
Proof.
  intros Hty Hb H. unfold geometry in H. bind_inv H. apply map_err_Ok_inv in Hv. destruct v.
  apply validate_Ok in Hv as Hok; [|done]. destruct Hty as (Hr & Hc & _ & _ & Hmp). pose proof (tiles_pos l Hok) as HT.
  destruct (bool_decide_reflect (allocation l = PerTile)) as [Ha|]; [|done]. cbn [negb] in H.
  bind_inv H. apply ok_or_inv, checked_mul_inv in Hv0 as [_ Hsz].
  bind_inv H. apply ok_or_inv, checked_mul_inv in Hv0 as [-> Hrt].
  destruct (Z.eqb_spec (zlen counts) (rows l * div_ceil (cols l) 256)) as [Hlen|]; [|done]. cbn [negb] in H.
  bind_inv H. pose proof (for_enum_Ok_inv (pre_inv l counts) _ _ _ _ _ Hv0) as Hinv.
  assert (Hpre : pre_inv l counts (0 + zlen counts) v0).
  { apply Hinv.
    - unfold pre_inv. rewrite !sumZ_0. unfold is_u8, usize_max in *. repeat split; try lia.
    - intros i x s s' Hi Hx HI Hs. rewrite Z.sub_0_r in Hx. by eapply geometry_tile_step. }
  destruct v0 as [[planes trits] scales]. rewrite Z.add_0_l, Hlen in Hpre.
  destruct Hpre as (Hp & Hcs & Hmx & Ht & Htb & Hs & Hsb). bind_inv H. apply Ok_inj in H as <-.
  apply ok_or_inv, checked_mul_inv in Hv1 as [-> Hsl].
  assert (Hcn : forall i, 0 <= i < rows l * div_ceil (cols l) 256 -> 0 <= count_at counts i <= planes).
  { intros i Hi. pose proof (count_at_u8 counts i Hb). specialize (Hcs i Hi). lia. }
  assert (Hct : forall r t, 0 <= r < rows l -> 0 <= t < div_ceil (cols l) 256 -> 0 <= count_of l counts r t <= planes).
  { intros. by apply Hcn, row_index_bounds. }
  split; simpl; try done.
  - by rewrite Hlen.
  - by rewrite Hlen.
  - rewrite Ht. unfold is_u64 in Hr. apply (tile_sum_lex _ _ _ (fun j t => width (cols l) t * count_at counts j)); try lia.
    intros r t Hrr Htt. by apply trits_of_sum, Hct.
  - destruct (layout_laws l Hok) as [[Han _]|[[Han _]|[Han _]]]; rewrite Han; simpl; try done.
    all: rewrite Hs; unfold is_u64 in Hr; apply (tile_sum_lex _ _ _ (fun j t => stored_of l (count_at counts j) t)); try lia.
    all: intros r t Hrr Htt; by apply scales_of_sum, Hct.
  - split; [lia|]. split; [|lia]. destruct (bool_decide _); [|lia]. unfold is_u8 in Hmp. unfold usize_max. lia.
Qed.

(** The preflight never panics. *)
Lemma geometry_returns l counts : layout_typed l -> bytes_ok counts -> returns (geometry l counts).
Proof.
  intros Hty Hb. unfold geometry. apply returns_bind; [apply returns_map_err, validate_returns|].
  intros [] Hv. apply map_err_Ok_inv, validate_Ok in Hv as Hok; [|done].
  destruct Hty as (Hr & Hc & _ & _ & Hmp). destruct (negb _); [done|].
  apply returns_bind; [apply returns_ok_or|]. intros _ _. apply returns_bind; [apply returns_ok_or|]. intros e _.
  destruct (negb _); [done|]. apply returns_bind; [|].
  - apply (for_enum_returns (pre_inv l counts)).
    + unfold pre_inv. rewrite !sumZ_0. unfold is_u8, usize_max in *. repeat split; try lia.
    + intros i x s Hi Hx HI. rewrite Z.sub_0_r in Hx. by apply geometry_tile_step.
  - intros [[p t] s] _. apply returns_bind; [apply returns_ok_or|]. done.
Qed.

(** * Building the index *)
Section Build.
  Context (l : AdditiveLayout) (counts : list Z) (g : Geometry).
  Context (Hty : layout_typed l) (G : geo_ok l counts g).
  Abbreviation R := (rows l).
  Abbreviation T := (div_ceil (cols l) 256).
  Abbreviation P := (g_planes g).

Lemma trits_of_nonneg p r t : 0 <= t < T -> 0 <= trits_of l counts p r t.
Proof.
  intros Ht. pose proof (width_bounds l t Ht). unfold trits_of. destruct (active _ _ _ _ _); lia.
Qed.

Lemma scales_of_nonneg p r t : 0 <= t < T -> 0 <= scales_of l counts p r t.
Proof.
  intros Ht. pose proof (groups_bounds l (go_layout _ _ _ G) t Ht). unfold scales_of.
  destruct (anchor (law l)), (relation (law l)); try lia; [destruct (active _ _ _ _ _)|destruct (_ && _)]; lia.
Qed.

Lemma rows_nonneg : 0 <= R.
Proof. pose proof (lo_rows _ (go_layout _ _ _ G)). lia. Qed.

Lemma tiles_nonneg : 0 <= T.
Proof. pose proof (tiles_pos _ (go_layout _ _ _ G)). lia. Qed.

Lemma trit_off_bound p r t : 0 <= p < P -> 0 <= r < R -> 0 <= t <= T ->
  0 <= trit_off l counts p r t <= g_trits g.
Proof.
  intros Hp Hr Ht. pose proof rows_nonneg. pose proof tiles_nonneg. rewrite (go_trits _ _ _ G). unfold trit_off. split.
  - apply lex_nonneg; try lia. intros; by apply trits_of_nonneg.
  - apply lex_le_plane; try lia. intros; by apply trits_of_nonneg.
Qed.

Lemma run_bound p r t : 0 <= p < P -> 0 <= r < R -> 0 <= t <= T ->
  0 <= lex R T (scales_of l counts) p r t <= usize_max /\
  (anchor (law l) = Group -> lex R T (scales_of l counts) p r t <= g_scales g).
Proof.
  intros Hp Hr Ht. pose proof rows_nonneg. pose proof tiles_nonneg.
  assert (H1 : 0 <= lex R T (scales_of l counts) p r t)
    by (apply lex_nonneg; try lia; intros; by apply scales_of_nonneg).
  assert (H2 : lex R T (scales_of l counts) p r t <= lex R T (scales_of l counts) P 0 0)
    by (apply lex_le_plane; try lia; intros; by apply scales_of_nonneg).
  pose proof (go_scales _ _ _ G) as Hs. destruct (go_fits _ _ _ G) as (_ & Hf & _).
  destruct (layout_laws l (go_layout _ _ _ G)) as [[Ha _]|[[Ha _]|[Ha Hr']]]; rewrite Ha in *; [split; [lia|lia]..|].
  assert (Hz : lex R T (scales_of l counts) P 0 0 = 0).
  { rewrite lex_total by (lia || apply (go_planes _ _ _ G)). apply sumZ_zero; [lia|]. intros. apply sumZ_zero; [lia|]. intros.
    apply sumZ_zero; [apply (go_planes _ _ _ G)|]. intros. unfold scales_of. by rewrite Ha. }
  unfold usize_max. split; [lia|done].
Qed.

Lemma cols_fits : cols l <= usize_max.
Proof. destruct Hty as (_ & Hc & _). unfold is_u64, usize_max in *. lia. Qed.

(** Reading the count of tile [t] in row [r]. *)
Lemma read_count {E} r t : 0 <= r < R -> 0 <= t < T ->
  r * T <= usize_max /\ r * T + t <= usize_max /\ idx (E := E) counts (r * T + t) = Ok (count_of l counts r t) /\
  0 <= count_of l counts r t <= P.
Proof.
  intros Hr Ht. pose proof (row_index_bounds _ _ _ _ Hr Ht) as Hi. pose proof (go_len _ _ _ G) as Hl.
  assert (R * T <= usize_max).
  { pose proof (go_size _ _ _ G). pose proof (div_ceil_bounds (cols l) 256). pose proof (lo_cols _ (go_layout _ _ _ G)). nia. }
  split; [nia|]. split; [lia|]. split.
  - apply idx_Ok; [lia|]. apply count_at_in. lia.
  - apply (go_counts _ _ _ G). lia.
Qed.

Lemma build_tile_Ok p r t : 0 <= p < P -> 0 <= r < R -> 0 <= t < T ->
  build_tile l counts g p r t (trit_off l counts p r t, lex R T (scales_of l counts) p r t) =
  Ok (trit_off l counts p r (t + 1), lex R T (scales_of l counts) p r (t + 1)).
Proof.
  intros Hp Hr Ht. destruct (@read_count AdditiveError r t Hr Ht) as (H1 & H2 & H3 & _).
  pose proof (go_fits _ _ _ G) as (Hf1 & Hf2 & _).
  pose proof (trit_off_bound p r (t + 1) Hp Hr ltac:(lia)) as Hb1. destruct (run_bound p r (t + 1) Hp Hr ltac:(lia)) as [Hb2 _].
  unfold trit_off in *. rewrite !lex_tile in * by lia.
  unfold build_tile. rewrite (go_tiles _ _ _ G), (go_cols _ _ _ G), mul_usize_Ok by done. cbn [bind].
  rewrite add_usize_Ok by done. cbn [bind]. rewrite H3. cbn [bind].
  rewrite tile_width_Ok by (apply cols_fits || done). cbn [bind].
  assert (Htt : trits_of l counts p r t = if p <? count_of l counts r t then width (cols l) t else 0) by done.
  assert (Hss : scales_of l counts p r t = match anchor (law l), relation (law l) with
    | Group, Free => if p <? count_of l counts r t then groups_of l t else 0
    | Group, Tied _ _ => if (p =? 0) && (0 <? count_of l counts r t) then groups_of l t else 0
    | _, _ => 0 end) by done.
  rewrite Htt in *. rewrite Hss in *. clear Htt Hss.
  destruct (layout_laws l (go_layout _ _ _ G)) as [[Ha Hre]|[[Ha Hre]|[Ha Hre]]]; rewrite Ha, Hre in *.
  - destruct (Z.ltb_spec p (count_of l counts r t)); [|by rewrite !Z.add_0_r].
    rewrite add_usize_Ok by lia. cbn [bind]. rewrite !bool_decide_eq_true_2 by done. cbn [andb orb].
    unfold groups_of in Hb2. rewrite add_usize_Ok by lia. done.
  - rewrite bool_decide_eq_true_2 by done. rewrite (bool_decide_eq_false_2 (Tied 1 3 = Free)) by done. cbn [andb orb].
    destruct (Z.eqb_spec p 0) as [->|Hne]; cbn [andb] in *.
    + destruct (Z.ltb_spec 0 (count_of l counts r t)); [|by rewrite !Z.add_0_r].
      rewrite add_usize_Ok by lia. cbn [bind]. unfold groups_of in Hb2. rewrite add_usize_Ok by lia. done.
    + rewrite Z.add_0_r. destruct (Z.ltb_spec p (count_of l counts r t)); [|by rewrite Z.add_0_r].
      by rewrite add_usize_Ok by lia.
  - rewrite (bool_decide_eq_false_2 (Tensor = Group)) by done. cbn [andb]. rewrite (Z.add_0_r (lex _ _ _ _ _ _)).
    destruct (Z.ltb_spec p (count_of l counts r t)); [|by rewrite Z.add_0_r]. by rewrite add_usize_Ok by lia.
Qed.

(** The spans written before row [r] of plane [p]. *)
Definition spans_before (p r : Z) (st : list PerTileRowSpan) : Prop :=
  zlen st = g_slots g /\
  forall p' r', 0 <= p' <= p -> 0 <= r' < R -> p' < p \/ r' < r ->
    st !! Z.to_nat (p' * R + r') = Some (span_spec l counts p' r').

Definition build_inv (p r : Z) (s : list PerTileRowSpan * (Z * Z)) : Prop :=
  spans_before p r (fst s) /\
  snd s = (trit_off l counts p r 0, lex R T (scales_of l counts) p r 0).

Lemma slot_bounds p r : 0 <= p < P -> 0 <= r < R -> 0 <= p * R + r < g_slots g.
Proof. intros Hp Hr. rewrite (go_slots _ _ _ G). nia. Qed.

Lemma slot_fits p r : 0 <= p < P -> 0 <= r < R -> p * R <= usize_max /\ p * R + r <= usize_max.
Proof.
  intros Hp Hr. pose proof (slot_bounds p r Hp Hr). destruct (go_fits _ _ _ G) as (_ & _ & Hf). lia.
Qed.

Lemma scale_start_Ok p r st : 0 <= p < P -> 0 <= r < R -> spans_before p r st ->
  scale_start l st p r (lex R T (scales_of l counts) p r 0) = Ok (scale_off l counts p r 0).
Proof.
  intros Hp Hr [Hz Hst]. unfold scale_start.
  assert (H0 : 0 < p -> idx (E := AdditiveError) st r = Ok (span_spec l counts 0 r)).
  { intros Hp0. apply idx_Ok; [lia|]. rewrite <- (Hst 0 r); [done|lia..]. }
  unfold span_spec, scale_off in *.
  destruct (layout_laws l (go_layout _ _ _ G)) as [[Ha Hre]|[[Ha Hre]|[Ha Hre]]]; rewrite Ha, ?Hre in *; try done.
  destruct (Z.ltb_spec 0 p) as [Hp0|Hp0]; [by rewrite H0|]. by replace p with 0 by lia.
Qed.

Lemma build_row_Ok p r s : 0 <= p < P -> 0 <= r < R -> build_inv p r s ->
  exists s', build_row l counts g p r s = Ok s' /\ build_inv p (r + 1) s'.
Proof.
  intros Hp Hr. destruct s as [st ts]. intros [Hst Hts]. simpl in Hst, Hts. subst ts.
  destruct (slot_fits p r Hp Hr) as [Hf1 Hf2]. pose proof (slot_bounds p r Hp Hr) as Hsl. pose proof tiles_nonneg as HT.
  unfold build_row. rewrite (scale_start_Ok p r st) by done. cbn [bind].
  rewrite (go_rows _ _ _ G), mul_usize_Ok by done. cbn [bind]. rewrite add_usize_Ok by done. cbn [bind].
  destruct Hst as [Hz Hst]. rewrite upd_Ok by lia. cbn [bind]. rewrite (go_tiles _ _ _ G).
  destruct (for_range_inv (fun t s => s = (trit_off l counts p r t, lex R T (scales_of l counts) p r t))
    (build_tile l counts g p r) 0 T (trit_off l counts p r 0, lex R T (scales_of l counts) p r 0)) as (s' & Hs' & Hinv);
    [done|done| |].
  { intros t s Ht ->. eexists. split; [by apply build_tile_Ok|done]. }
  rewrite Hs'. cbn [bind]. eexists. split; [done|]. split; simpl.
  - split; [by rewrite zlen_insert|]. intros p' r' Hp' Hr' Hlt.
    destruct (decide (p' = p /\ r' = r)) as [[-> ->]|Hne].
    + rewrite list_lookup_insert_eq by (unfold zlen in *; lia). done.
    + rewrite list_lookup_insert_ne by nia. apply Hst; lia.
  - rewrite Hinv. unfold trit_off. by rewrite !lex_row by lia.
Qed.

(** The index holds the specified span of every row and plane. *)
Record index_ok (ix : PerTileIndex) : Prop := {
  io_layout : ix_layout ix = l;
  io_geometry : ix_geometry ix = g;
  io_counts : ix_counts ix = counts;
  io_spans : forall p r, 0 <= p < P -> 0 <= r < R ->
    ix_spans ix !! Z.to_nat (p * R + r) = Some (span_spec l counts p r);
  io_len : zlen (ix_spans ix) = g_slots g }.

Lemma build_validated_Ok st : zlen st = g_slots g ->
  exists ix, build_validated l counts st g = Ok ix /\ index_ok ix.
Proof.
  intros Hz. unfold build_validated. rewrite (proj2 (Z.eqb_eq _ _) Hz). cbn [negb].
  pose proof rows_nonneg as HR. pose proof (go_planes _ _ _ G) as HP. rewrite (go_rows _ _ _ G).
  destruct (for_range_inv (fun p s => build_inv p 0 s)
    (fun plane => for_range 0 R (build_row l counts g plane)) 0 P (st, (0, 0))) as (s & Hs & Hinv).
  - lia.
  - split; [split; [done|intros; lia]|]. simpl. unfold trit_off, lex. by rewrite !sumZ_0.
  - intros p s Hp Hs. destruct (for_range_inv (build_inv p) (build_row l counts g p) 0 R s) as (s' & Hs' & Hi);
      [lia|done|by intros; apply build_row_Ok|]. exists s'. split; [done|].
    destruct Hi as [[Hl Hst] Hts]. split; [split; [done|]|].
    + intros p' r' Hp' Hr' Hlt. apply Hst; [|done|]; lia.
    + rewrite Hts. unfold trit_off. by rewrite !lex_plane by lia.
  - rewrite Hs. cbn [bind]. eexists. split; [done|]. destruct Hinv as [[Hl Hst] _].
    split; simpl; try done. intros p r Hp Hr. apply Hst; lia.
Qed.

(** * The row cursor *)

Definition groups_stored (p r t : Z) : bool :=
  bool_decide (anchor (law l) = Group) &&
  match relation (law l) with Free => active l counts p r t | Tied _ _ => 0 <? count_of l counts r t end.

Lemma scale_off_step p r t : 0 <= p < P -> 0 <= r < R -> 0 <= t < T ->
  scale_off l counts p r (t + 1) = scale_off l counts p r t + (if groups_stored p r t then groups_of l t else 0) /\
  (groups_stored p r t = true -> scale_off l counts p r (t + 1) <= usize_max).
Proof.
  intros Hp Hr Ht. unfold scale_off, groups_stored.
  pose proof (run_bound p r (t + 1) Hp Hr ltac:(lia)) as [Hb _].
  pose proof (run_bound 0 r (t + 1) ltac:(lia) Hr ltac:(lia)) as [Hb0 _].
  assert (Hss : forall p, scales_of l counts p r t = match anchor (law l), relation (law l) with
    | Group, Free => if active l counts p r t then groups_of l t else 0
    | Group, Tied _ _ => if (p =? 0) && (0 <? count_of l counts r t) then groups_of l t else 0
    | _, _ => 0 end) by done.
  destruct (layout_laws l (go_layout _ _ _ G)) as [[Ha Hre]|[[Ha Hre]|[Ha Hre]]]; rewrite ?Ha, ?Hre in *.
  - rewrite bool_decide_eq_true_2 by done. cbn [andb]. rewrite lex_tile, Hss in * by lia. split; [done|].
    intros Hact. rewrite Hact in *. lia.
  - rewrite bool_decide_eq_true_2 by done. cbn [andb]. rewrite !lex_tile, !Hss in * by lia. split; [done|].
    intros Hact. rewrite Hact in *. cbn [andb Z.eqb] in *. lia.
  - rewrite bool_decide_eq_false_2 by done. cbn [andb]. split; [lia|done].
Qed.

Section Cursor.
  Context (ix : PerTileIndex) (I : index_ok ix) (p r : Z) (Hp : 0 <= p < P) (Hr : 0 <= r < R).

Definition cursor (n : Z) : ActiveTiles := MkTiles ix p r n (trit_off l counts p r n) (scale_off l counts p r n).

Lemma next_fuel n : next (cursor n) = next_loop (S (Z.to_nat (T - n))) (cursor n).
Proof. unfold next. cbn [cursor it_index it_next]. by rewrite (io_geometry _ I), (go_tiles _ _ _ G). Qed.

Lemma next_loop_step k n : 0 <= n < T ->
  next_loop (S k) (cursor n) =
  if active l counts p r n then Ok (Some (tile_at l counts p r n), cursor (n + 1)) else next_loop k (cursor (n + 1)).
Proof.
  intros Hn. destruct (@read_count AdditiveError r n Hr Hn) as (H1 & H2 & H3 & _).
  destruct (scale_off_step p r n Hp Hr Hn) as [Hs Hsb].
  pose proof (trit_off_bound p r (n + 1) Hp Hr ltac:(lia)) as Htb. pose proof (go_fits _ _ _ G) as (Hf1 & _ & _).
  pose proof (div_ceil_bounds (cols l) 256 ltac:(lia)) as Hd. pose proof cols_fits as Hcf.
  unfold cursor at 1. cbn [next_loop it_index it_next it_row it_plane it_trit it_scale].
  rewrite (io_geometry _ I), (io_counts _ I), (io_layout _ I), (go_tiles _ _ _ G), (go_cols _ _ _ G).
  replace (n <? T) with true by lia.
  rewrite (add_usize_Ok n 1) by (unfold usize_max in *; lia). cbn [bind]. rewrite (mul_usize_Ok r T) by done. cbn [bind].
  rewrite (add_usize_Ok (r * T)) by done. cbn [bind]. rewrite H3. cbn [bind].
  rewrite (mul_usize_Ok n 256) by lia. cbn [bind]. rewrite sub_usize_Ok by lia. cbn [bind].
  change (Z.min (cols l - n * 256) 256) with (width (cols l) n).
  change (p <? count_of l counts r n) with (active l counts p r n).
  change (bool_decide (anchor (law l) = Group) && _) with (groups_stored p r n).
  change (div_ceil (width (cols l) n) (group l)) with (groups_of l n).
  assert (Hsc : (if groups_stored p r n then add_usize (E := AdditiveError) (scale_off l counts p r n) (groups_of l n)
    else Ok (scale_off l counts p r n)) = Ok (scale_off l counts p r (n + 1))).
  { rewrite Hs. destruct (groups_stored p r n); [|by rewrite Z.add_0_r]. apply add_usize_Ok. specialize (Hsb eq_refl). lia. }
  rewrite Hsc. cbn [bind]. unfold trit_off in *. rewrite lex_tile in Htb by lia.
  assert (Htt : trits_of l counts p r n = if active l counts p r n then width (cols l) n else 0) by done.
  unfold cursor, trit_off. rewrite lex_tile by lia. rewrite Htt in *.
  destruct (active l counts p r n); [|by rewrite Z.add_0_r]. rewrite add_usize_Ok by lia. done.
Qed.

Lemma next_step n : 0 <= n < T ->
  next (cursor n) = if active l counts p r n then Ok (Some (tile_at l counts p r n), cursor (n + 1)) else next (cursor (n + 1)).
Proof.
  intros Hn. rewrite !next_fuel. replace (Z.to_nat (T - n)) with (S (Z.to_nat (T - (n + 1)))) by lia.
  by apply next_loop_step.
Qed.

Lemma next_end : next (cursor T) = Ok (None, cursor T).
Proof.
  rewrite next_fuel. cbn [cursor next_loop it_index it_next].
  rewrite (io_geometry _ I), (go_tiles _ _ _ G). by rewrite Z.ltb_irrefl.
Qed.

Lemma row_from_step n : n < T ->
  row_from l counts p r n =
  (if active l counts p r n then [tile_at l counts p r n] else []) ++ row_from l counts p r (n + 1).
Proof.
  intros Hn. unfold row_from. rewrite seqZ_cons, filter_cons by lia.
  replace (Z.succ n) with (n + 1) by lia. replace (Z.pred (T - n)) with (T - (n + 1)) by lia.
  destruct (active l counts p r n); case_decide; done.
Qed.

Lemma row_from_end : row_from l counts p r T = [].
Proof. unfold row_from. by rewrite Z.sub_diag, seqZ_nil. Qed.

Lemma collect_Ok k : forall n fuel, 0 <= n -> T = n + Z.of_nat k -> (k < fuel)%nat ->
  collect fuel (cursor n) = Ok (row_from l counts p r n).
Proof.
  induction k as [|k IH]; intros n fuel Hn HT Hf; (destruct fuel as [|fuel]; [lia|]).
  - replace n with T by lia. simpl. by rewrite next_end, row_from_end.
  - rewrite row_from_step by lia. simpl. rewrite next_step by lia. destruct (active l counts p r n).
    + cbn [bind]. rewrite (IH (n + 1) fuel) by lia. done.
    + specialize (IH (n + 1) (S fuel) ltac:(lia) ltac:(lia) ltac:(lia)). simpl in IH. exact IH.
Qed.

Lemma collect_row_Ok : collect_row ix p r = Ok (row_spec l counts p r).
Proof.
  destruct (slot_fits p r Hp Hr) as [Hf1 Hf2]. pose proof tiles_nonneg.
  unfold collect_row, tiles_in_row, row_tiles. rewrite (io_geometry _ I), (go_rows _ _ _ G), (go_tiles _ _ _ G).
  replace (R <=? r) with false by lia. replace (P <=? p) with false by lia.
  rewrite mul_usize_Ok by done. cbn [bind]. rewrite add_usize_Ok by done. cbn [bind].
  pose proof (slot_bounds p r Hp Hr). 
  rewrite (idx_Ok (ix_spans ix) (p * R + r) (span_spec l counts p r)); [|lia|by apply (io_spans ix I)]. cbn [bind].
  apply (collect_Ok (Z.to_nat T) 0); lia.
Qed.

(** Consecutive, nonempty coefficient intervals from [lo] to [hi]. *)
Fixpoint tiling (lo : Z) (ts : list ActiveTile) (hi : Z) : Prop :=
  match ts with
  | [] => lo = hi
  | t :: ts => at_trit t = lo /\ 0 < at_len t /\ tiling (lo + at_len t) ts hi
  end.

Lemma row_from_tiling k : forall n, 0 <= n -> T = n + Z.of_nat k ->
  tiling (trit_off l counts p r n) (row_from l counts p r n) (trit_off l counts p r T).
Proof.
  induction k as [|k IH]; intros n Hn HT.
  - replace n with T by lia. by rewrite row_from_end.
  - rewrite row_from_step by lia. specialize (IH (n + 1) ltac:(lia) ltac:(lia)).
    unfold trit_off in *. rewrite lex_tile in IH by lia.
    assert (Htt : trits_of l counts p r n = if active l counts p r n then width (cols l) n else 0) by done.
    rewrite Htt in IH. destruct (active l counts p r n); simpl; [|by rewrite Z.add_0_r in IH].
    split; [done|]. split; [apply width_bounds; lia|done].
Qed.

Lemma row_tiling : tiling (trit_off l counts p r 0) (row_spec l counts p r) (trit_off l counts p (r + 1) 0).
Proof.
  pose proof tiles_nonneg. unfold trit_off at 2. rewrite lex_row by lia. apply (row_from_tiling (Z.to_nat T)); lia.
Qed.
End Cursor.

Lemma tiling_app lo mid hi a b : tiling lo a mid -> tiling mid b hi -> tiling lo (a ++ b) hi.
Proof.
  revert lo. induction a as [|t a IH]; intros lo; simpl; [by intros ->|]. intros (H1 & H2 & H3) Hb. eauto.
Qed.

Lemma tiling_blocks n (row : Z -> list ActiveTile) (off : Z -> Z) :
  0 <= n -> (forall i, 0 <= i < n -> tiling (off i) (row i) (off (i + 1))) -> tiling (off 0) (blocks n row) (off n).
Proof.
  intros Hn. revert n Hn. apply (sumZ_ind (fun n => (forall i, 0 <= i < n -> _) -> tiling (off 0) (blocks n row) (off n))); [done|].
  intros n Hn IH H. rewrite blocks_S by done. eapply tiling_app; [apply IH; intros; apply H; lia|apply H; lia].
Qed.

Lemma planes_tiling :
  tiling 0 (blocks P (fun p => blocks R (row_spec l counts p))) (g_trits g).
Proof.
  pose proof rows_nonneg as HR. pose proof (go_planes _ _ _ G) as HP. rewrite (go_trits _ _ _ G).
  replace 0 with (trit_off l counts 0 0 0) at 1 by (unfold trit_off, lex; by rewrite !sumZ_0).
  apply (tiling_blocks P _ (fun p => trit_off l counts p 0 0)); [lia|]. intros p Hp.
  unfold trit_off at 2. rewrite lex_plane by lia.
  apply (tiling_blocks R _ (fun r => trit_off l counts p r 0)); [lia|]. intros r Hr. by apply row_tiling.
Qed.

Lemma elem_of_row_spec p r t : t ∈ row_spec l counts p r ->
  exists n, 0 <= n < T /\ active l counts p r n = true /\ t = tile_at l counts p r n.
Proof.
  unfold row_spec, row_from. intros Ht. apply list_elem_of_fmap in Ht as (n & -> & Hn).
  apply list_elem_of_filter in Hn as [Ha Hn]. apply elem_of_seqZ in Hn. exists n. repeat split; [lia..|done].
Qed.

(** Number of stored scales a tile of [len] columns reads. *)
Definition scales_read (len : Z) : Z :=
  match anchor (law l) with Group => div_ceil len (group l) | _ => 1 end.

Lemma tile_in_bounds p r t : 0 <= p < P -> 0 <= r < R -> t ∈ row_spec l counts p r ->
  0 <= at_col t /\ at_col t + at_len t <= cols l /\ 0 <= at_trit t /\ at_trit t + at_len t <= g_trits g /\
  0 <= at_scale t /\ at_scale t + scales_read (at_len t) <= g_scales g.
Proof.
  intros Hp Hr Ht. apply elem_of_row_spec in Ht as (n & Hn & Ha & ->). simpl.
  assert (Hstep : trit_off l counts p r (n + 1) = trit_off l counts p r n + width (cols l) n).
  { unfold trit_off. rewrite lex_tile by lia. f_equal. unfold trits_of. by rewrite Ha. }
  pose proof (trit_off_bound p r (n + 1) Hp Hr ltac:(lia)). pose proof (trit_off_bound p r n Hp Hr ltac:(lia)).
  destruct (scale_off_step p r n Hp Hr Hn) as [Hs _]. split; [lia|]. split; [unfold width; lia|]. split; [lia|]. split; [lia|].
  unfold groups_stored in Hs. unfold scales_read.
  pose proof (go_scales _ _ _ G) as Hgs. unfold active in Ha. apply Z.ltb_lt in Ha.
  destruct (run_bound p r (n + 1) Hp Hr ltac:(lia)) as [_ Hb1]. destruct (run_bound p r n Hp Hr ltac:(lia)) as [Hb0 _].
  destruct (run_bound 0 r (n + 1) ltac:(lia) Hr ltac:(lia)) as [_ Hb2]. destruct (run_bound 0 r n ltac:(lia) Hr ltac:(lia)) as [Hb3 _].
  unfold scale_off, active in *.
  destruct (layout_laws l (go_layout _ _ _ G)) as [[Han Hre]|[[Han Hre]|[Han Hre]]]; rewrite ?Han, ?Hre in *.
  - rewrite bool_decide_eq_true_2 in Hs by done. replace (p <? _) with true in Hs by lia. cbn [andb] in Hs.
    unfold groups_of in Hs. specialize (Hb1 eq_refl). lia.
  - rewrite bool_decide_eq_true_2 in Hs by done. replace (0 <? _) with true in Hs by lia. cbn [andb] in Hs.
    unfold groups_of in Hs. specialize (Hb2 eq_refl). lia.
  - lia.
Qed.

Lemma plane_range_Ok ix p : index_ok ix -> 0 <= p < P ->
  plane_range ix p = Ok (trit_off l counts p 0 0, trit_off l counts (p + 1) 0 0).
Proof.
  intros I Hp. pose proof (lo_rows _ (go_layout _ _ _ G)) as HR. destruct (slot_fits p 0 Hp ltac:(lia)) as [Hf _].
  pose proof (go_planes _ _ _ G). destruct Hty as (_ & _ & _ & _ & Hm). unfold is_u8 in Hm.
  unfold plane_range. rewrite (io_geometry _ I), (go_rows _ _ _ G), mul_usize_Ok by done. cbn [bind].
  rewrite (idx_Ok (ix_spans ix) (p * R) (span_spec l counts p 0)); [|nia|]; cycle 1.
  { rewrite <- (Z.add_0_r (p * R)). apply (io_spans ix I); lia. }
  cbn [bind]. rewrite add_usize_Ok by (unfold usize_max; lia). cbn [bind].
  destruct (Z.eqb_spec (p + 1) P) as [He|He].
  - rewrite (go_trits _ _ _ G), <- He. done.
  - destruct (slot_fits (p + 1) 0 ltac:(lia) ltac:(lia)) as [Hf' _]. rewrite mul_usize_Ok by done. cbn [bind].
    rewrite (idx_Ok (ix_spans ix) ((p + 1) * R) (span_spec l counts (p + 1) 0)); [done|nia|].
    rewrite <- (Z.add_0_r ((p + 1) * R)). apply (io_spans ix I); lia.
Qed.

Lemma plane_trit_count_Ok p : 0 <= p < P ->
  plane_trit_count (MkPlan l counts g) p = Ok (trit_off l counts (p + 1) 0 0 - trit_off l counts p 0 0).
Proof.
  intros Hp. pose proof rows_nonneg as HR. pose proof (tiles_pos _ (go_layout _ _ _ G)) as HT.
  set (h := fun j => if p <? count_at counts j then width (cols l) (j mod T) else 0).
  assert (Hpos : forall j, 0 <= h j).
  { intros j. unfold h. pose proof (width_bounds l (j mod T) (Z.mod_pos_bound _ _ HT)). destruct (p <? _); lia. }
  assert (Htot : sumZ (zlen counts) h = trit_off l counts (p + 1) 0 0 - trit_off l counts p 0 0).
  { rewrite (go_len _ _ _ G), sumZ_rows by lia. unfold trit_off, lex. rewrite (sumZ_S p), !sumZ_0 by lia.
    rewrite (sumZ_ext R _ (fun r => sumZ T (trits_of l counts p r))); [lia|].
    intros r Hr. apply sumZ_ext. intros t Ht. unfold h. by rewrite row_index_mod. }
  assert (Hfit : trit_off l counts (p + 1) 0 0 - trit_off l counts p 0 0 <= usize_max).
  { pose proof (trit_off_bound p 0 0 Hp ltac:(pose proof (lo_rows _ (go_layout _ _ _ G)); lia) ltac:(lia)).
    destruct (go_fits _ _ _ G) as (Hf & _). unfold trit_off in *. rewrite lex_plane by lia.
    assert (lex R T (trits_of l counts) p R 0 <= g_trits g); [|lia].
    rewrite <- lex_plane, (go_trits _ _ _ G) by lia. destruct (Z.eq_dec (p + 1) P) as [->|]; [lia|].
    apply lex_le_plane; try lia; [intros; by apply trits_of_nonneg|]. pose proof (lo_rows _ (go_layout _ _ _ G)). lia. }
  unfold plane_trit_count. cbn [pl_geometry pl_counts]. replace (P <=? p) with false by lia.
  destruct (for_enum_inv (E := AdditiveError) (fun i total => total = sumZ i h)
    (fun tile count total => if p <? count then
      let* len := tile_width (g_cols g) (tile mod g_tiles g) in add_usize total len else Ok total) counts 0 0) as (s & Hs & Hi).
  - done.
  - intros i x s Hi Hx ->. rewrite Z.sub_0_r in Hx. rewrite (go_cols _ _ _ G), (go_tiles _ _ _ G).
    pose proof (count_at_lookup _ _ _ Hx) as Hc.
    assert (Hle : sumZ (i + 1) h <= sumZ (zlen counts) h).
    { apply sumZ_prefix; [|auto]. apply lookup_lt_Some in Hx. unfold zlen. lia. }
    rewrite sumZ_S in * by lia. assert (Hh : h i = if p <? x then width (cols l) (i mod T) else 0)
      by (unfold h; by rewrite Hc). rewrite Hh in *.
    destruct (p <? x); [|exists (sumZ i h); split; [done|lia]].
    rewrite (tile_width_Ok l) by (apply cols_fits || by apply Z.mod_pos_bound). cbn [bind].
    eexists. rewrite add_usize_Ok by lia. done.
  - rewrite Hs, Hi. by rewrite Z.add_0_l, Htot.
Qed.
End Build.

(** Two rows of 300 columns: one full tile and a ragged one in each row. *)
Definition ragged_layout : AdditiveLayout :=
  MkLayout 2 300 256 32 3 PerTile D2 (MkScaleLaw Group (Tied 1 3) F16) Identity Raw.
Definition ragged_counts : list Z := [2; 0; 1; 3].
Definition ragged_plan : PerTilePlan := MkPlan ragged_layout ragged_counts
  (MkGeometry 2 300 2 3 (256 * 3 + 44 * 3) 18 6).
Definition ragged_index : PerTileIndex :=
  match plan_build ragged_plan (vec (MkSpan 0 0) 6) with Ok ix => ix | _ => MkIndex ragged_layout (pl_geometry ragged_plan) [] [] end.

Lemma ragged_typed : layout_typed ragged_layout /\ bytes_ok ragged_counts.
Proof. split; [repeat split; vm_compute; congruence|by apply bytes_ok_check]. Qed.

(** * Properties *)

(** A preflight never panics; when it accepts, building into storage of exactly
    the required length succeeds (any other length is refused), and the cursor of
    every plane and row yields exactly the tiles whose count exceeds the plane, in
    column order, each at the sum of what precedes it in the compact order; rows and
    planes outside the tensor are typed errors. *)
Theorem per_tile_index_exact l counts :
  layout_typed l -> bytes_ok counts ->
  returns (plan_new l counts) /\
  forall plan, plan_new l counts = Ok plan -> forall storage,
    (zlen storage <> plan_index_len plan ->
       plan_build plan storage = Err (IndexStorageLength (plan_index_len plan) (zlen storage))) /\
    (zlen storage = plan_index_len plan -> exists ix, plan_build plan storage = Ok ix /\
       forall p r, 0 <= p -> 0 <= r -> collect_row ix p r =
         if rows l <=? r then Err RowOutOfRange
         else if plan_plane_count plan <=? p then Err InvalidPlaneCount
         else Ok (row_spec l counts p r)).
Proof.
  intros Hty Hb. unfold plan_new. split; [apply returns_bind; [by apply geometry_returns|done]|].
  intros plan H storage. bind_inv H. apply Ok_inj in H as <-. rename v into g. apply geometry_Ok in Hv as G; [|done..].
  unfold plan_index_len, plan_build, plan_plane_count. cbn [pl_layout pl_counts pl_geometry]. split.
  - intros Hne. unfold build_validated. by replace (_ =? _) with false by lia.
  - intros Hz. destruct (build_validated_Ok l counts g Hty G storage Hz) as (ix & Hix & I). exists ix. split; [done|].
    intros p r Hp Hr. destruct (Z.leb_spec (rows l) r); [|destruct (Z.leb_spec (g_planes g) p); [|by apply (collect_row_Ok l counts g)]].
    + unfold collect_row, tiles_in_row. rewrite (io_geometry _ _ _ _ I), (go_rows _ _ _ G). by replace (_ <=? _) with true by lia.
    + unfold collect_row, tiles_in_row. rewrite (io_geometry _ _ _ _ I), (go_rows _ _ _ G).
      replace (_ <=? r) with false by lia. by replace (_ <=? p) with true by lia.
Qed.

Lemma per_tile_index_exact_witness :
  exists ix, plan_build ragged_plan (vec (MkSpan 0 0) 6) = Ok ix /\
    collect_row ix 1 1 = Ok [MkTile 256 44 812 16] /\ collect_row ix 1 2 = Err RowOutOfRange.
Proof.
  destruct (per_tile_index_exact ragged_layout ragged_counts (proj1 ragged_typed) (proj2 ragged_typed)) as [_ H].
  destruct (H ragged_plan eq_refl (vec (MkSpan 0 0) 6)) as [_ H']. destruct (H' eq_refl) as (ix & Hix & Hrows).
  exists ix. split; [exact Hix|]. split.
  - rewrite (Hrows 1 1) by lia. by vm_compute.
  - rewrite (Hrows 1 2) by lia. by vm_compute.
Defined.

(** C14: the coefficient intervals of all tiles the cursors yield, plane by plane and
    row by row, follow each other without gap or overlap from 0 to the declared
    coefficient count; the columns stay in the row, the stored scales a tile reads
    stay below the declared scale count, and [plane_range] and [plane_trit_count]
    agree on every plane. *)
Theorem per_tile_payload_tiled l counts plan storage ix :
  layout_typed l -> bytes_ok counts -> plan_new l counts = Ok plan -> plan_build plan storage = Ok ix ->
  exists tiles : Z -> Z -> list ActiveTile,
    (forall p r, 0 <= p < plan_plane_count plan -> 0 <= r < rows l ->
       collect_row ix p r = Ok (tiles p r) /\
       forall t, t ∈ tiles p r ->
         0 <= at_col t /\ at_col t + at_len t <= cols l /\
         0 <= at_scale t /\ at_scale t + scales_read l (at_len t) <= plan_scale_count plan) /\
    tiling 0 (blocks (plan_plane_count plan) (fun p => blocks (rows l) (tiles p))) (plan_trit_count plan) /\
    (forall p, 0 <= p < plan_plane_count plan -> exists a b,
       plane_range ix p = Ok (a, b) /\ plane_trit_count plan p = Ok (b - a)).
Proof.
  intros Hty Hb H Hbu. unfold plan_new in H. bind_inv H. apply Ok_inj in H as <-. rename v into g.
  apply geometry_Ok in Hv as G; [|done..].
  unfold plan_plane_count, plan_scale_count, plan_trit_count, plan_build in *. cbn [pl_layout pl_counts pl_geometry] in *.
  assert (Hz : zlen storage = g_slots g).
  { unfold build_validated in Hbu. by destruct (Z.eqb_spec (zlen storage) (g_slots g)). }
  destruct (build_validated_Ok l counts g Hty G storage Hz) as (ix' & Hix & I).
  rewrite Hix in Hbu. apply Ok_inj in Hbu as ->.
  exists (row_spec l counts). split; [|split].
  - intros p r Hp Hr. split; [by apply (collect_row_Ok l counts g)|]. intros t Ht.
    destruct (tile_in_bounds l counts g G p r t Hp Hr Ht) as (?&?&?&?&?&?). done.
  - by apply planes_tiling.
  - intros p Hp. eexists _, _. split; [by apply (plane_range_Ok l counts g)|by apply plane_trit_count_Ok].
Qed.

Lemma per_tile_payload_tiled_witness :
  plan_trit_count ragged_plan = 900 /\
  exists a b, plane_range ragged_index 1 = Ok (a, b) /\ plane_trit_count ragged_plan 1 = Ok (b - a).
Proof.
  split; [done|].
  destruct (per_tile_payload_tiled ragged_layout ragged_counts ragged_plan (vec (MkSpan 0 0) 6) ragged_index
    (proj1 ragged_typed) (proj2 ragged_typed) eq_refl eq_refl) as (tiles & _ & _ & H).
  apply (H 1). by vm_compute.
Defined.
