(* ===== verification/Uniform.v ===== *)
(** * Uniform plane geometry (crates/tritium-core/src/additive.rs, [UniformPlan])

    The dense plane-major layout and its row cursor, and its agreement with the
    compact per-tile layout when every tile keeps every plane. *)

From Stdlib Require Import ZArith Lia Bool.
From stdpp Require Import base list numbers.
From S2P Require Import Prelude Schema PerTile.

#[local] Open Scope Z_scope.

Definition uniform_trit_count (layout : AdditiveLayout) (planes : Z) : res AdditiveError Z :=
  let* _ := map_err InvalidLayout (validate layout) in
  if negb (bool_decide (allocation layout = Uniform)) then Err UnsupportedAllocation else
  if (planes =? 0) || (max_planes layout <? planes) then Err InvalidPlaneCount else
  let* n := ok_or (checked_mul (rows layout) (cols layout)) SizeOverflow in
  ok_or (checked_mul n planes) SizeOverflow.

Definition uniform_scale_counts (layout : AdditiveLayout) (planes : Z) : res AdditiveError (Z * Z) :=
  let* units := match anchor (law layout) with
    | Group => ok_or (checked_mul (rows layout) (div_ceil (cols layout) (group layout))) SizeOverflow
    | Row | Channel => Ok (rows layout)
    | Tensor => Ok 1
    end in
  let* count := match relation (law layout) with
    | Free => ok_or (checked_mul units planes) SizeOverflow
    | Tied _ _ => Ok units
    end in
  Ok (units, count).

Definition uniform_scale_unit (layout : AdditiveLayout) (row col : Z) : res AdditiveError Z :=
  match anchor (law layout) with
  | Group =>
      let* base := mul_usize row (div_ceil (cols layout) (group layout)) in
      add_usize base (col / group layout)
  | Row | Channel => Ok row
  | Tensor => Ok 0
  end.

Record UniformPlan : Type := MkUniform {
  u_layout : AdditiveLayout;
  u_planes : Z;
  u_trit_count : Z;
  u_scale_count : Z;
  u_scale_units : Z }.

Definition uniform_new (layout : AdditiveLayout) (planes : Z) : res AdditiveError UniformPlan :=
  let* trit_count := uniform_trit_count layout planes in
  let* (scale_units, scale_count) := uniform_scale_counts layout planes in
  Ok (MkUniform layout planes trit_count scale_count scale_units).

Record UniformTiles : Type := MkUTiles { ut_plan : UniformPlan; ut_plane : Z; ut_row : Z; ut_col : Z }.

Definition uniform_row_tiles (self : UniformPlan) (plane row : Z) : UniformTiles :=
  MkUTiles self plane row 0.

Definition uniform_tiles_in_row (self : UniformPlan) (plane row : Z) : res AdditiveError UniformTiles :=
  if rows (u_layout self) <=? row then Err RowOutOfRange else
  if u_planes self <=? plane then Err InvalidPlaneCount else
  Ok (uniform_row_tiles self plane row).

(** [.expect]: an error is a panic. *)
Definition expect {E A} (m : res E A) : res E A :=
  match m with Err _ => Panic | _ => m end.

Definition uniform_next (self : UniformTiles) : res AdditiveError (option ActiveTile * UniformTiles) :=
  let layout := u_layout (ut_plan self) in
  let cols := cols layout in
  if cols <=? ut_col self then Ok (None, self) else
  let* unit := expect (uniform_scale_unit layout (ut_row self) (ut_col self)) in
  let* rest := sub_usize cols (ut_col self) in
  let* planed := mul_usize (ut_plane self) (rows layout) in
  let* line := add_usize planed (ut_row self) in
  let* start := mul_usize line cols in
  let* trit := add_usize start (ut_col self) in
  let* scale := if bool_decide (relation (law layout) = Free)
    then let* base := mul_usize (ut_plane self) (u_scale_units (ut_plan self)) in add_usize base unit
    else Ok unit in
  let t := MkTile (ut_col self) (Z.min rest (tile layout)) trit scale in
  let* col := add_usize (ut_col self) (at_len t) in
  Ok (Some t, MkUTiles (ut_plan self) (ut_plane self) (ut_row self) col).

Fixpoint uniform_collect (fuel : nat) (s : UniformTiles) : res AdditiveError (list ActiveTile) :=
  match fuel with
  | O => NoFuel
  | S fuel =>
      let* (t, s') := uniform_next s in
      match t with
      | None => Ok []
      | Some t => let* l := uniform_collect fuel s' in Ok (t :: l)
      end
  end.

Definition uniform_collect_row (u : UniformPlan) (plane row : Z) : res AdditiveError (list ActiveTile) :=
  let* s := uniform_tiles_in_row u plane row in
  uniform_collect (S (Z.to_nat (div_ceil (cols (u_layout u)) 256))) s.

(** The same layout with per-tile counts, every tile keeping [planes] planes. *)
Definition as_per_tile (l : AdditiveLayout) : AdditiveLayout :=
  MkLayout (rows l) (cols l) (tile l) (group l) (max_planes l) PerTile (codec l) (law l) (basis l) (transport l).
Definition full_counts (l : AdditiveLayout) (planes : Z) : list Z :=
  vec planes (rows l * div_ceil (cols l) 256).

(** * Closed forms of the compact offsets at full counts *)

Lemma layout_ok_per_tile l : layout_ok l -> layout_ok (as_per_tile l).
Proof. intros [H1 H2 H3 H4 H5 H6 H7]. by split. Qed.

(** What an accepted uniform plan established. *)
Record uplan_ok (l : AdditiveLayout) (planes : Z) (u : UniformPlan) : Prop := {
  uo_layout : layout_ok l;
  uo_alloc : allocation l = Uniform;
  uo_planes : 0 < planes <= max_planes l;
  uo_trits : rows l * cols l * planes <= usize_max;
  uo_eq : u = MkUniform l planes (rows l * cols l * planes) (u_scale_count u) (u_scale_units u);
  uo_units : u_scale_units u = match anchor (law l) with
    | Group => rows l * div_ceil (cols l) (group l) | _ => 1 end;
  uo_scales : u_scale_count u = match relation (law l) with
    | Free => u_scale_units u * planes | Tied _ _ => u_scale_units u end;
  uo_fits : u_scale_count u <= usize_max }.

Lemma uniform_new_Ok l planes u : layout_typed l -> is_u8 planes -> uniform_new l planes = Ok u -> uplan_ok l planes u.
Proof.
  intros Hty Hpl H. unfold uniform_new in H. bind_inv H. bind_inv H. destruct v0 as [units count]. apply Ok_inj in H as <-.
  unfold uniform_trit_count in Hv. bind_inv Hv. apply map_err_Ok_inv in Hv1. destruct v0. apply validate_Ok in Hv1 as Hok; [|done].
  destruct (bool_decide_reflect (allocation l = Uniform)) as [Ha|]; [|done]. cbn [negb] in Hv.
  destruct (Z.eqb_spec planes 0); [done|]. destruct (Z.ltb_spec (max_planes l) planes); [done|]. cbn [orb] in Hv.
  bind_inv Hv. apply ok_or_inv, checked_mul_inv in Hv2 as [-> Hrc]. apply ok_or_inv, checked_mul_inv in Hv as [-> Hrp].
  unfold uniform_scale_counts in Hv0. bind_inv Hv0. bind_inv Hv0. apply Ok_inj in Hv0. injection Hv0 as <- <-.
  unfold is_u8 in Hpl.
  assert (Hun : v = match anchor (law l) with Group => rows l * div_ceil (cols l) (group l) | _ => 1 end /\ v <= usize_max).
  { destruct (layout_laws l Hok) as [[Han _]|[[Han _]|[Han _]]]; rewrite Han in Hv |- *.
    1, 2: by apply ok_or_inv, checked_mul_inv in Hv as [-> ?]. by apply Ok_inj in Hv as <-. }
  assert (Hct : v0 = match relation (law l) with Free => v * planes | Tied _ _ => v end /\ v0 <= usize_max).
  { destruct (relation (law l)); [by apply ok_or_inv, checked_mul_inv in Hv2 as [-> ?]|]. apply Ok_inj in Hv2 as <-. split; [done|apply Hun]. }
  split; simpl; try done; [lia|apply Hun|apply Hct|apply Hct].
Qed.

Section Full.
  Context (l : AdditiveLayout) (planes : Z) (u : UniformPlan).
  Context (Hty : layout_typed l) (U : uplan_ok l planes u).
  Abbreviation R := (rows l).
  Abbreviation T := (div_ceil (cols l) 256).
  Abbreviation lt := (as_per_tile l).
  Abbreviation counts := (full_counts l planes).

Lemma upos : 0 < R /\ 0 < cols l /\ 0 < T /\ 0 < planes <= 255.
Proof.
  destruct U as [Hok _ Hp _ _ _ _ _]. destruct Hty as (_ & _ & _ & _ & Hm). unfold is_u8 in Hm.
  pose proof (lo_rows _ Hok). pose proof (lo_cols _ Hok). pose proof (tiles_pos _ Hok). lia.
Qed.

Lemma full_len : zlen counts = R * T.
Proof. destruct upos as (? & ? & ? & _). unfold full_counts. rewrite zlen_vec. nia. Qed.

Lemma full_count_at i : 0 <= i < zlen counts -> count_at counts i = planes.
Proof. intros Hi. rewrite full_len in Hi. unfold count_at, full_counts. by rewrite lookup_vec. Qed.

Lemma full_count r t : 0 <= r < R -> 0 <= t < T -> count_of lt counts r t = planes.
Proof. intros Hr Ht. apply full_count_at. rewrite full_len. by apply row_index_bounds. Qed.

Lemma full_bytes : bytes_ok counts.
Proof. destruct upos as (_ & _ & _ & Hp). apply Forall_replicate. unfold is_u8. lia. Qed.

(** Widths and groups of the tiles before [t]. *)
Lemma width_sum t : 0 <= t -> t < T -> sumZ t (width (cols l)) = t * 256.
Proof.
  intros H0 Ht. rewrite (sumZ_ext t _ (fun _ => 256)), sumZ_const by
    (lia || (intros i Hi; unfold width; pose proof (div_ceil_bounds (cols l) 256); lia)). done.
Qed.

Lemma width_total : sumZ T (width (cols l)) = cols l.
Proof.
  destruct upos as (_ & _ & HT & _). pose proof (div_ceil_bounds (cols l) 256 ltac:(lia)).
  replace T with (T - 1 + 1) at 1 by lia. rewrite sumZ_S, width_sum by lia. unfold width. lia.
Qed.

(** The group width divides the tile. *)
Lemma group_tile : exists q, 0 < group l /\ 0 < q /\ 256 = group l * q.
Proof.
  destruct (group_values l (uo_layout _ _ _ U)) as [->|[->|[->| ->]]]; [exists 8|exists 4|exists 2|exists 1]; lia.
Qed.

Lemma groups_sum t : 0 <= t -> t < T -> sumZ t (groups_of lt) = t * 256 / group l.
Proof.
  intros H0 Ht. destruct group_tile as (q & Hg & Hq & Hgq).
  rewrite (sumZ_ext t _ (fun _ => q)), sumZ_const; [|lia|].
  - rewrite Hgq. replace (t * (group l * q)) with (t * q * group l) by lia. by rewrite Z.div_mul by lia.
  - intros i Hi. unfold groups_of, width. pose proof (div_ceil_bounds (cols l) 256). simpl.
    replace (Z.min _ _) with (group l * q) by lia. by apply div_ceil_exact.
Qed.

Lemma div_ceil_plus a b q : 0 < b -> div_ceil (b * q + a) b = q + div_ceil a b.
Proof. intros Hb. unfold div_ceil. replace (b * q + a + (b - 1)) with (a + (b - 1) + q * b) by lia. rewrite Z.div_add by lia. lia. Qed.

Lemma groups_total : sumZ T (groups_of lt) = div_ceil (cols l) (group l).
Proof.
  destruct upos as (_ & _ & HT & _). pose proof (div_ceil_bounds (cols l) 256 ltac:(lia)).
  destruct group_tile as (q & Hg & Hq & Hgq).
  assert (Hm : forall x, group l * (x * q) = x * 256) by (intros x; rewrite Hgq; ring).
  replace T with (T - 1 + 1) at 1 by lia. rewrite sumZ_S, groups_sum by lia.
  transitivity (div_ceil (group l * ((T - 1) * q) + (cols l - (T - 1) * 256)) (group l)); [|f_equal; rewrite Hm; lia].
  rewrite div_ceil_plus by lia. f_equal.
  - rewrite <- Hm, Z.mul_comm, Z.div_mul by lia. done.
  - unfold groups_of, width. simpl. f_equal. lia.
Qed.

Lemma full_active p r t : 0 <= p < planes -> 0 <= r < R -> 0 <= t < T -> active lt counts p r t = true.
Proof. intros Hp Hr Ht. unfold active. rewrite full_count by done. lia. Qed.

Lemma full_lex (f : Z -> Z -> Z -> Z) (w : Z -> Z) p r t : 0 <= p < planes -> 0 <= r < R -> 0 <= t < T ->
  (forall p r t, 0 <= p < planes -> 0 <= r < R -> 0 <= t < T -> f p r t = w t) ->
  lex R T f p r t = (p * R + r) * sumZ T w + sumZ t w.
Proof.
  intros Hp Hr Ht Hf. destruct upos as (HR & _ & HT & _). unfold lex.
  assert (Hrow : forall p r, 0 <= p < planes -> 0 <= r < R -> sumZ T (f p r) = sumZ T w).
  { intros. apply sumZ_ext. auto. }
  rewrite (sumZ_ext p _ (fun _ => R * sumZ T w)), sumZ_const; [|lia|].
  - rewrite (sumZ_ext r _ (fun _ => sumZ T w)), sumZ_const by (lia || (intros; apply Hrow; lia)).
    rewrite (sumZ_ext t _ w) by (intros; apply Hf; lia). lia.
  - intros i Hi. rewrite (sumZ_ext R _ (fun _ => sumZ T w)), sumZ_const by (lia || (intros; apply Hrow; lia)). done.
Qed.

Lemma full_trit_off p r t : 0 <= p < planes -> 0 <= r < R -> 0 <= t < T ->
  trit_off lt counts p r t = (p * R + r) * cols l + t * 256.
Proof.
  intros Hp Hr Ht. unfold trit_off. rewrite (full_lex _ (width (cols l))), width_total, width_sum by
    (lia || (intros; unfold trits_of; by rewrite full_active)). done.
Qed.

(** The stored-scale index the uniform cursor computes. *)
Definition uniform_scale (p r t : Z) : Z :=
  match anchor (law l), relation (law l) with
  | Group, Free => p * u_scale_units u + (r * div_ceil (cols l) (group l) + t * 256 / group l)
  | Group, Tied _ _ => r * div_ceil (cols l) (group l) + t * 256 / group l
  | _, _ => p
  end.

Lemma full_scale_off p r t : 0 <= p < planes -> 0 <= r < R -> 0 <= t < T ->
  scale_off lt counts p r t = uniform_scale p r t.
Proof.
  intros Hp Hr Ht. unfold scale_off, uniform_scale. rewrite (uo_units _ _ _ U). simpl law. simpl rows. simpl cols.
  destruct (layout_laws l (uo_layout _ _ _ U)) as [[Ha Hre]|[[Ha Hre]|[Ha Hre]]]; rewrite ?Ha, ?Hre; [| |done].
  - rewrite (full_lex _ (groups_of lt)), groups_total, groups_sum; try lia.
    intros. unfold scales_of. simpl law. rewrite Ha, Hre. by rewrite full_active.
  - transitivity (lex R T (fun _ _ => groups_of lt) 0 r t).
    + unfold lex. rewrite !sumZ_0, !Z.add_0_l. f_equal.
      * apply sumZ_ext. intros i Hi. apply sumZ_ext. intros j Hj. unfold scales_of. simpl law. rewrite Ha, Hre.
        by rewrite full_active by lia.
      * apply sumZ_ext. intros j Hj. unfold scales_of. simpl law. rewrite Ha, Hre. by rewrite full_active by lia.
    + rewrite (full_lex _ (groups_of lt)), groups_total, groups_sum by (done || lia). lia.
Qed.

(** * The uniform cursor *)

Lemma scale_fits p r t : 0 <= p < planes -> 0 <= r < R -> 0 <= t < T ->
  r * div_ceil (cols l) (group l) <= usize_max /\ r * div_ceil (cols l) (group l) + t * 256 / group l <= usize_max /\
  p * u_scale_units u <= usize_max /\ 0 <= uniform_scale p r t <= usize_max.
Proof.
  intros Hp Hr Ht. destruct upos as (HR & Hc & HT & Hpl). destruct group_tile as (q & Hg & Hq & Hgq).
  pose proof (div_ceil_bounds (cols l) (group l) Hg) as Hd.
  assert (Htg : 0 <= t * 256 / group l < div_ceil (cols l) (group l)).
  { pose proof (div_ceil_bounds (cols l) 256 ltac:(lia)). split; [apply Z.div_pos; lia|].
    apply Z.div_lt_upper_bound; lia. }
  pose proof (uo_units _ _ _ U) as Hu. pose proof (uo_scales _ _ _ U) as Hs. pose proof (uo_fits _ _ _ U) as Hf.
  pose proof (uo_trits _ _ _ U) as Htr. unfold uniform_scale.
  assert (HD : div_ceil (cols l) (group l) <= cols l) by nia.
  assert (HRD : r * div_ceil (cols l) (group l) + t * 256 / group l < R * div_ceil (cols l) (group l)) by nia.
  assert (HRC : R * div_ceil (cols l) (group l) <= R * cols l) by (apply Z.mul_le_mono_nonneg_l; lia).
  assert (HRP : p * (R * div_ceil (cols l) (group l)) <= R * cols l * planes)
    by (rewrite (Z.mul_comm _ planes); apply Z.mul_le_mono_nonneg; nia).
  assert (HRU : R * cols l <= usize_max) by nia.
  assert (HrD : 0 <= r * div_ceil (cols l) (group l)) by nia.
  destruct (layout_laws l (uo_layout _ _ _ U)) as [[Ha Hre]|[[Ha Hre]|[Ha Hre]]]; rewrite Ha, Hre in *; (split; [nia|]); (split; [nia|]).
  - rewrite Hs, Hu in Hf. rewrite Hu. set (S := R * div_ceil (cols l) (group l)) in *.
    assert ((p + 1) * S <= S * planes) by (rewrite Z.mul_comm; apply Z.mul_le_mono_nonneg_l; [nia|lia]). split; [lia|]. split; [|lia].
    nia.
  - rewrite Hu. split; lia.
  - rewrite Hu. unfold usize_max. split; lia.
Qed.

Section Cursor.
  Context (p r : Z) (Hp : 0 <= p < planes) (Hr : 0 <= r < R).

Definition ucursor (t : Z) : UniformTiles := MkUTiles u p r (Z.min (t * 256) (cols l)).

Lemma u_layout_eq : u_layout u = l.
Proof. by rewrite (uo_eq _ _ _ U). Qed.

Lemma uniform_next_step t : 0 <= t < T ->
  uniform_next (ucursor t) = Ok (Some (tile_at lt counts p r t), ucursor (t + 1)).
Proof.
  intros Ht. pose proof (div_ceil_bounds (cols l) 256 ltac:(lia)) as Hd. destruct upos as (HR & Hc & HT & Hpl).
  destruct (scale_fits p r t Hp Hr Ht) as (Hs1 & Hs2 & Hs3 & Hs4). destruct Hty as (_ & Hcu & _). unfold is_u64 in Hcu.
  pose proof (uo_trits _ _ _ U) as Htr.
  assert (Hline : (p * R + r) * cols l + t * 256 < R * cols l * planes).
  { assert ((p * R + r + 1) * cols l <= R * cols l * planes); [|lia].
    replace (R * cols l * planes) with (planes * R * cols l) by ring. apply Z.mul_le_mono_nonneg_r; nia. }
  assert (Hpr : 0 <= p * R) by nia. assert (Hpl' : (p * R + r) <= (p * R + r) * cols l) by nia.
  unfold uniform_next, ucursor. cbn [ut_plan ut_col ut_row ut_plane]. rewrite u_layout_eq.
  replace (Z.min (t * 256) (cols l)) with (t * 256) by lia. replace (cols l <=? t * 256) with false by lia.
  assert (Hunit : expect (uniform_scale_unit l r (t * 256)) = Ok (match anchor (law l) with
    | Group => r * div_ceil (cols l) (group l) + t * 256 / group l | Tensor => 0 | _ => r end)).
  { unfold uniform_scale_unit. destruct (anchor (law l)); try done. rewrite mul_usize_Ok by done. cbn [bind].
    by rewrite add_usize_Ok. }
  rewrite Hunit. cbn [bind]. rewrite sub_usize_Ok by lia. cbn [bind]. rewrite (mul_usize_Ok p R) by lia. cbn [bind].
  rewrite (add_usize_Ok (p * R) r) by lia. cbn [bind]. rewrite (mul_usize_Ok (p * R + r) (cols l)) by lia. cbn [bind].
  rewrite (add_usize_Ok _ (t * 256)) by lia. cbn [bind].
  assert (Hsc : forall unit, unit = match anchor (law l) with
    | Group => r * div_ceil (cols l) (group l) + t * 256 / group l | Tensor => 0 | _ => r end ->
    (if bool_decide (relation (law l) = Free)
     then let* base := mul_usize p (u_scale_units u) in add_usize base unit else Ok unit) =
    Ok (E := AdditiveError) (uniform_scale p r t)).
  { intros unit ->. unfold uniform_scale in *. pose proof (uo_units _ _ _ U) as Hu.
    destruct (layout_laws l (uo_layout _ _ _ U)) as [[Ha Hre]|[[Ha Hre]|[Ha Hre]]]; rewrite Ha, Hre in *.
    - rewrite bool_decide_eq_true_2 by done. rewrite mul_usize_Ok by done. cbn [bind]. rewrite add_usize_Ok by lia. done.
    - by rewrite bool_decide_eq_false_2.
    - rewrite bool_decide_eq_true_2 by done. rewrite mul_usize_Ok by done. cbn [bind]. rewrite Hu, add_usize_Ok by lia.
      f_equal. lia. }
  rewrite (Hsc _ eq_refl). cbn [bind at_len]. rewrite (lo_tile _ (uo_layout _ _ _ U)).
  rewrite add_usize_Ok by (unfold usize_max; lia). cbn [bind].
  unfold tile_at. simpl cols. rewrite full_trit_off, full_scale_off by done. unfold width.
  do 3 f_equal. lia.
Qed.

Lemma uniform_collect_Ok k : forall t fuel, 0 <= t -> T = t + Z.of_nat k -> (k < fuel)%nat ->
  uniform_collect fuel (ucursor t) = Ok (row_from lt counts p r t).
Proof.
  induction k as [|k IH]; intros t fuel Ht HT Hf; (destruct fuel as [|fuel]; [lia|]); cbn [uniform_collect].
  - replace t with T by lia. rewrite (row_from_end lt counts p r : row_from lt counts p r T = []). unfold uniform_next, ucursor. cbn [ut_plan ut_col].
    rewrite u_layout_eq. pose proof (div_ceil_bounds (cols l) 256). by replace (_ <=? _) with true by lia.
  - rewrite uniform_next_step by lia. cbn [bind]. rewrite (IH (t + 1) fuel) by lia. cbn [bind].
    rewrite (row_from_step lt counts p r t) by (simpl; lia). by rewrite full_active by lia.
Qed.

Lemma uniform_collect_row_Ok : uniform_collect_row u p r = Ok (row_spec lt counts p r).
Proof.
  destruct upos as (HR & Hc & HT & Hpl). unfold uniform_collect_row, uniform_tiles_in_row. rewrite u_layout_eq.
  replace (R <=? r) with false by lia. replace (u_planes u) with planes by (by rewrite (uo_eq _ _ _ U)).
  replace (planes <=? p) with false by lia. cbn [bind]. unfold uniform_row_tiles.
  replace (MkUTiles u p r 0) with (ucursor 0) by (unfold ucursor; f_equal; lia).
  apply (uniform_collect_Ok (Z.to_nat T)); lia.
Qed.
End Cursor.

(** * The compact plan of a full table *)

Lemma full_sum (h : Z -> Z -> Z) (w : Z -> Z) :
  (forall t, 0 <= t < T -> h planes t = w t) ->
  sumZ (zlen counts) (fun j => h (count_at counts j) (j mod T)) = R * sumZ T w.
Proof.
  intros Hw. destruct upos as (HR & Hc & HT & Hpl). rewrite full_len, sumZ_rows by lia.
  rewrite (sumZ_ext R _ (fun _ => sumZ T w)), sumZ_const; [done|lia|]. intros r Hr. apply sumZ_ext. intros t Ht.
  rewrite row_index_mod, full_count_at by (done || (rewrite full_len; by apply row_index_bounds)). by apply Hw.
Qed.

Lemma full_stored_sum :
  sumZ (zlen counts) (fun j => stored_of lt (count_at counts j) (j mod T)) =
  match anchor (law l) with Tensor => 0 | _ => u_scale_count u end.
Proof.
  destruct upos as (HR & Hc & HT & Hpl). rewrite (uo_scales _ _ _ U), (uo_units _ _ _ U).
  destruct (layout_laws l (uo_layout _ _ _ U)) as [[Ha Hre]|[[Ha Hre]|[Ha Hre]]]; rewrite ?Ha, ?Hre.
  - rewrite (full_sum (stored_of lt) (fun t => planes * groups_of lt t)).
    + rewrite sumZ_mul, groups_total by lia. ring.
    + intros t _. unfold stored_of. simpl law. rewrite Ha, Hre. ring.
  - rewrite (full_sum (stored_of lt) (groups_of lt)).
    + by rewrite groups_total.
    + intros t _. unfold stored_of. simpl law. rewrite Ha, Hre. replace (0 <? planes) with true by lia. simpl. ring.
  - rewrite (full_sum (stored_of lt) (fun _ => 0)), sumZ_const by
      (lia || (intros t _; unfold stored_of; simpl law; by rewrite Ha, ?Hre)). lia.
Qed.

Lemma full_width_sum :
  sumZ (zlen counts) (fun j => width (cols l) (j mod T) * count_at counts j) = R * cols l * planes.
Proof.
  destruct upos as (HR & Hc & HT & Hpl).
  rewrite (full_sum (fun c t => width (cols l) t * c) (fun t => planes * width (cols l) t)) by (intros; ring).
  rewrite sumZ_mul, width_total by lia. ring.
Qed.

Lemma full_plan : exists g, geometry lt counts = Ok g /\ geo_ok lt counts g /\ g_planes g = planes /\
  g_trits g = R * cols l * planes /\ g_scales g = u_scale_count u.
Proof.
  destruct upos as (HR & Hc & HT & Hpl). pose proof (uo_trits _ _ _ U) as Htr. pose proof (uo_planes _ _ _ U) as Hpm.
  pose proof (uo_fits _ _ _ U) as Hf. pose proof full_bytes as Hb. pose proof full_len as Hlen.
  assert (HRC : R * cols l <= usize_max) by nia. assert (HRP : R * planes <= usize_max) by nia.
  destruct (geometry_total lt counts) as [g Hg]; try done.
  - apply layout_ok_per_tile, (uo_layout _ _ _ U).
  - intros i Hi. rewrite full_count_at by done. simpl. lia.
  - intros i Hi. by rewrite full_count_at.
  - simpl cols. by rewrite full_width_sum.
  - simpl cols. rewrite full_stored_sum. destruct (anchor (law l)); unfold usize_max in *; lia.
  - exists g. split; [done|]. assert (G : geo_ok lt counts g) by by apply geometry_Ok.
    assert (Hg0 : g_planes g = planes).
    { pose proof (go_counts _ _ _ G 0 ltac:(nia)) as H0. rewrite full_count_at in H0 by nia.
      destruct (go_max _ _ _ G) as [|(i & Hi & Hci)]; [lia|]. by rewrite full_count_at in Hci. }
    assert (Hcnt : forall r t, 0 <= r < R -> 0 <= t < T -> 0 <= count_of lt counts r t <= planes)
      by (intros; rewrite full_count by done; lia).
    split; [done|]. split; [done|]. split.
    + rewrite (go_trits _ _ _ G), Hg0. simpl rows. simpl cols. rewrite <- full_width_sum, full_len. symmetry.
      apply (tile_sum_lex R T planes (fun j t => width (cols l) t * count_at counts j)); try lia.
      intros r t Hr Ht. by apply (trits_of_sum lt counts planes r t), Hcnt.
    + pose proof full_stored_sum as Hst. rewrite (go_scales _ _ _ G), Hg0. simpl law. simpl rows. simpl cols.
      assert (Hlx : lex R T (scales_of lt counts) planes 0 0 = sumZ (zlen counts) (fun j => stored_of lt (count_at counts j) (j mod T))).
      { rewrite full_len. symmetry. apply (tile_sum_lex R T planes (fun j t => stored_of lt (count_at counts j) t)); try lia.
        intros r t Hr Ht. by apply (scales_of_sum lt counts planes r t), Hcnt. }
      rewrite Hlx, Hst. pose proof (uo_scales _ _ _ U) as Hs. pose proof (uo_units _ _ _ U) as Hu.
      destruct (layout_laws l (uo_layout _ _ _ U)) as [[Ha Hre]|[[Ha Hre]|[Ha Hre]]]; rewrite ?Ha, ?Hre in *; try done. lia.
Qed.
End Full.

(** * Properties *)

Definition wide_layout : AdditiveLayout :=
  MkLayout 2 300 256 64 2 Uniform D2 (MkScaleLaw Group Free F16) Identity Raw.
Definition wide_plan : UniformPlan := MkUniform wide_layout 2 1200 20 10.

(** Dropping no plane of any tile, the compact layout is the uniform layout: the
    preflight accepts the table of full counts with the same coefficient, scale and
    plane counts, and on every plane and row (inside the tensor or not) the compact
    cursor yields the same tiles, at the same offsets, or the same error. *)
Theorem uniform_is_full_per_tile l planes u :
  layout_typed l -> is_u8 planes -> uniform_new l planes = Ok u ->
  exists plan, plan_new (as_per_tile l) (full_counts l planes) = Ok plan /\
    plan_trit_count plan = u_trit_count u /\ plan_scale_count plan = u_scale_count u /\
    plan_plane_count plan = u_planes u /\
    forall storage, zlen storage = plan_index_len plan -> exists ix, plan_build plan storage = Ok ix /\
      forall p r, 0 <= p -> 0 <= r -> collect_row ix p r = uniform_collect_row u p r.
Proof.
  intros Hty Hpl Hu. pose proof (uniform_new_Ok l planes u Hty Hpl Hu) as U.
  destruct (full_plan l planes u Hty U) as (g & Hg & G & Hgp & Hgt & Hgs).
  exists (MkPlan (as_per_tile l) (full_counts l planes) g). unfold plan_new. rewrite Hg. cbn [bind].
  unfold plan_trit_count, plan_scale_count, plan_plane_count, plan_index_len, plan_build. cbn [pl_geometry pl_layout pl_counts].
  split; [done|]. split; [by rewrite Hgt, (uo_eq _ _ _ U)|]. split; [done|]. split; [by rewrite Hgp, (uo_eq _ _ _ U)|].
  intros st Hst. destruct (build_validated_Ok (as_per_tile l) (full_counts l planes) g Hty G st Hst) as (ix & Hix & I).
  exists ix. split; [done|]. intros p r Hp Hr.
  destruct (Z.leb_spec (rows l) r); [|destruct (Z.leb_spec planes p)].
  - unfold collect_row, tiles_in_row, uniform_collect_row, uniform_tiles_in_row.
    rewrite (io_geometry _ _ _ _ I), (go_rows _ _ _ G), (u_layout_eq l planes u U). simpl rows. by replace (_ <=? r) with true by lia.
  - unfold collect_row, tiles_in_row, uniform_collect_row, uniform_tiles_in_row.
    rewrite (io_geometry _ _ _ _ I), (go_rows _ _ _ G), (u_layout_eq l planes u U). simpl rows. replace (_ <=? r) with false by lia.
    rewrite Hgp. replace (u_planes u) with planes by (by rewrite (uo_eq _ _ _ U)). by replace (_ <=? p) with true by lia.
  - rewrite (collect_row_Ok (as_per_tile l) (full_counts l planes) g Hty G ix I p r) by (simpl; lia).
    by rewrite (uniform_collect_row_Ok l planes u Hty U p r) by lia.
Qed.

Lemma uniform_is_full_per_tile_witness :
  exists plan, plan_new (as_per_tile wide_layout) [2; 2; 2; 2] = Ok plan /\
    plan_trit_count plan = 1200 /\ plan_scale_count plan = 20 /\
    exists ix, plan_build plan (vec (MkSpan 0 0) 4) = Ok ix /\
      collect_row ix 1 1 = Ok [MkTile 0 256 900 15; MkTile 256 44 1156 19].
Proof.
  destruct (uniform_is_full_per_tile wide_layout 2 wide_plan) as (plan & Hp & Ht & Hs & Hn & Hrows);
    [repeat split; vm_compute; congruence|unfold is_u8; lia|reflexivity|].
  exists plan. split; [exact Hp|]. split; [exact Ht|]. split; [exact Hs|].
  destruct (Hrows (vec (MkSpan 0 0) 4)) as (ix & Hix & Hr).
  - change (full_counts wide_layout 2) with [2; 2; 2; 2] in Hp. vm_compute in Hp. injection Hp as <-. reflexivity.
  - exists ix. split; [exact Hix|]. rewrite (Hr 1 1) by lia. by vm_compute.
Defined.
