(* ===== verification/Spec.v ===== *)
(** * Backend vocabulary (crates/tritium-spec/src/lib.rs, crates/tritium-schema/src/lib.rs)

    The errors, declared capabilities and upload policy that backends, the runtime and
    the evidence events share. A message is kept as the text or the error it is formatted
    from. *)

From Stdlib Require Import ZArith Bool String.
From stdpp Require Import base numbers.
From S2P Require Import Prelude Core Schema PerTile.

#[local] Open Scope Z_scope.

Inductive DenseError : Type := DenseSizeOverflow | WeightShape | OperationShape | DenseRowOutOfRange.

Inductive TernaryFormat : Type := Tq1_0 | Tq2_0 | I2sInt8.

(** The [String] of an error: a literal, ["tensor metadata: {e:?}"] of a literal or of an
    additive error, ["invalid dense tensor: {e:?}"], or a literal with the numbers that
    are formatted into it. *)
Inductive Message : Type :=
| Text (s : String.string)
| MetadataText (s : String.string)
| MetadataError (e : AdditiveError)
| DenseMessage (e : DenseError)
| Formatted (s : String.string) (args : list Z).

Inductive BackendError : Type :=
| ShapeMismatch (expected got : Z)
| UnsupportedFormat (f : TernaryFormat)
| UnsupportedTensor
| NativeTensorRequired
| TensorPayloadBudgetExceeded (requested limit : Z)
| TensorPayloadMismatch (advertised actual : Z)
| OutOfMemory (requested : Z)
| InvalidInput (message : Message)
| BackendFailure (message : Message)
| CoreError (e : TritError).

Inductive TensorExecution : Type := Native | Emulated.

#[global] Instance tensor_execution_eq_dec : EqDecision TensorExecution.
Proof. solve_decision. Defined.

Record TensorCaps : Type := MkCaps { execution : TensorExecution; payload_bytes : Z }.

#[global] Instance tensor_caps_eq_dec : EqDecision TensorCaps.
Proof. solve_decision. Defined.

Record TensorUploadPolicy : Type := MkPolicy { native_only : bool; max_payload_bytes : option Z }.

Definition validate_tensor_upload_policy (caps : TensorCaps) (policy : TensorUploadPolicy) : res BackendError unit :=
  if native_only policy && negb (bool_decide (execution caps = Native)) then Err NativeTensorRequired else
  match max_payload_bytes policy with
  | Some limit => if limit <? payload_bytes caps then Err (TensorPayloadBudgetExceeded (payload_bytes caps) limit) else Ok tt
  | None => Ok tt
  end.

(** What the policy asks of a declaration. *)
Definition admits (policy : TensorUploadPolicy) (caps : TensorCaps) : Prop :=
  (native_only policy = true -> execution caps = Native) /\
  (forall limit, max_payload_bytes policy = Some limit -> payload_bytes caps <= limit).

Lemma policy_exact caps policy : validate_tensor_upload_policy caps policy = Ok tt <-> admits policy caps.
Proof.
  unfold validate_tensor_upload_policy, admits.
  destruct (native_only policy), (bool_decide_reflect (execution caps = Native)), (max_payload_bytes policy) as [lim|]; cbn [negb andb].
  all: try (destruct (Z.ltb_spec lim (payload_bytes caps))); split; try done; try naive_solver lia.
  all: intros [H1 H2]; try (by specialize (H1 eq_refl)); try (specialize (H2 _ eq_refl); lia).
Qed.

Record TensorUploadPlan : Type := MkUploadPlan { plan_caps : TensorCaps; host_workspace_bytes : Z; device_workspace_bytes : Z }.

#[global] Instance tensor_upload_plan_eq_dec : EqDecision TensorUploadPlan.
Proof. solve_decision. Defined.

(** The largest window a stream source may emit. *)
Definition TENSOR_STREAM_CHUNK_BYTES : Z := 64 * 1024.

Inductive TensorStreamEncoding : Type := CanonicalRawAdditive | DenseLittleEndian (precision : ScalePrecision).

Record TensorStreamPlan : Type := MkStreamPlan { sp_upload : TensorUploadPlan; sp_encoded_bytes : Z }.

#[global] Instance tensor_stream_plan_eq_dec : EqDecision TensorStreamPlan.
Proof. solve_decision. Defined.
