(* ===== verification/Budget.v ===== *)
(** * Tensor payload budget (crates/tritium-runtime/src/tensor_budget.rs)

    The shared ledgers as a state machine whose steps are the atomic actions of
    concurrent threads: the load and the compare-exchange of [reserve], the
    [fetch_sub] of a dropped [Reservation], the creation of a child ledger by
    [partition], cloning and dropping budget handles and the release of a ledger
    when its last owner is gone. Any interleaving of threads is a sequence of steps. *)

From Stdlib Require Import ZArith Lia Bool String.
From stdpp Require Import base gmap relations numbers.
From S2P Require Import Prelude Spec.

#[local] Open Scope Z_scope.

(** [Ledger]; the parent is the id of the reservation it owns. *)
Record Ledger : Type := MkLedger { limit : Z; used : Z; parent : option nat }.

(** [Reservation]: the ledger it charges and its bytes. *)
Record Reservation : Type := MkReservation { r_ledger : nat; r_bytes : Z }.

(** A thread inside the loop of [reserve]: the handle it borrows, the bytes it asks
    for and the counter value it last observed. *)
Record Loop : Type := MkLoop { lp_handle : nat; lp_bytes : Z; lp_used : Z }.

(** All live objects: ledgers, reservations, [TensorPayloadBudget] handles and the
    reserve calls in flight. *)
Record World : Type := MkWorld {
  ledgers : gmap nat Ledger;
  resv : gmap nat Reservation;
  handles : gmap nat nat;
  loops : gmap nat Loop }.

(** The message of an overflowing total. *)
Definition budget_overflow : BackendError := InvalidInput (Text "aggregate tensor payload size overflows u64").

(** One iteration of the loop of [reserve] against the counter of [L]; [weak] is a
    spurious failure of [compare_exchange_weak]. *)
Inductive attempt : Type :=
| Granted (L : Ledger)
| Failed (e : BackendError)
| Retry (current : Z).

Definition reserve_attempt (L : Ledger) (bytes observed : Z) (weak : bool) : attempt :=
  match checked_add observed bytes with
  | None => Failed budget_overflow
  | Some requested =>
      if limit L <? requested then Failed (TensorPayloadBudgetExceeded requested (limit L)) else
      if (used L =? observed) && negb weak then Granted (MkLedger (limit L) requested (parent L))
      else Retry (used L)
  end.

Definition limit_bytes (w : World) (h : nat) : option Z :=
  l ← handles w !! h; limit <$> ledgers w !! l.
Definition used_bytes (w : World) (h : nat) : option Z :=
  l ← handles w !! h; used <$> ledgers w !! l.

Definition set_ledgers (f : gmap nat Ledger -> gmap nat Ledger) (w : World) : World :=
  MkWorld (f (ledgers w)) (resv w) (handles w) (loops w).
Definition set_resv (f : gmap nat Reservation -> gmap nat Reservation) (w : World) : World :=
  MkWorld (ledgers w) (f (resv w)) (handles w) (loops w).
Definition set_handles (f : gmap nat nat -> gmap nat nat) (w : World) : World :=
  MkWorld (ledgers w) (resv w) (f (handles w)) (loops w).
Definition set_loops (f : gmap nat Loop -> gmap nat Loop) (w : World) : World :=
  MkWorld (ledgers w) (resv w) (handles w) (f (loops w)).

(** [TensorPayloadBudget::new]. *)
Definition op_new (bytes : Z) (l h : nat) (w : World) : World :=
  set_handles <[h := l]> (set_ledgers <[l := MkLedger bytes 0 None]> w).

(** [clone]: another handle on the same ledger. *)
Definition op_clone (l h' : nat) (w : World) : World := set_handles <[h' := l]> w.

(** The [load] at the head of [reserve]. *)
Definition op_load (t h : nat) (bytes : Z) (L : Ledger) (w : World) : World :=
  set_loops <[t := MkLoop h bytes (used L)]> w.

(** One iteration of [reserve] by thread [t]; a granted reservation gets id [r]. *)
Definition op_attempt (t l r : nat) (p : Loop) (L : Ledger) (weak : bool) (w : World) : World :=
  match reserve_attempt L (lp_bytes p) (lp_used p) weak with
  | Granted L' =>
      set_loops (delete t) (set_resv <[r := MkReservation l (lp_bytes p)]> (set_ledgers <[l := L']> w))
  | Failed _ => set_loops (delete t) w
  | Retry current => set_loops <[t := MkLoop (lp_handle p) (lp_bytes p) current]> w
  end.

(** The rest of [partition] once its reservation is granted. *)
Definition op_child (r l h : nat) (R : Reservation) (w : World) : World :=
  set_handles <[h := l]> (set_ledgers <[l := MkLedger (r_bytes R) 0 (Some r)]> w).

(** [fetch_sub] on [AtomicU64]. *)
Definition fetch_sub (L : Ledger) (bytes : Z) : Ledger :=
  MkLedger (limit L) ((used L - bytes) mod 18446744073709551616) (parent L).

(** [Drop for Reservation]. *)
Definition drop_reservation (r : nat) (w : World) : World :=
  match resv w !! r with
  | None => w
  | Some R => set_resv (delete r) (set_ledgers (alter (fun L => fetch_sub L (r_bytes R)) (r_ledger R)) w)
  end.

(** The last owner of ledger [l] is gone: the ledger drops, and its parent reservation
    with it. *)
Definition op_free (l : nat) (L : Ledger) (w : World) : World :=
  let w := set_ledgers (delete l) w in
  match parent L with None => w | Some r => drop_reservation r w end.

(** Reservation [r] is the [_parent] of some ledger. *)
Definition owned (w : World) (r : nat) : Prop := exists l L, ledgers w !! l = Some L /\ parent L = Some r.

Inductive step : World -> World -> Prop :=
| step_new w bytes l h : is_u64 bytes ->
    ledgers w !! l = None -> handles w !! h = None -> step w (op_new bytes l h w)
| step_clone w l h h' : handles w !! h = Some l -> handles w !! h' = None ->
    step w (op_clone l h' w)
| step_drop_handle w h : (forall t p, loops w !! t = Some p -> lp_handle p <> h) ->
    step w (set_handles (delete h) w)
| step_load w t h l L bytes : is_u64 bytes -> handles w !! h = Some l -> ledgers w !! l = Some L ->
    loops w !! t = None -> step w (op_load t h bytes L w)
| step_attempt w t l r p L weak : loops w !! t = Some p -> handles w !! lp_handle p = Some l ->
    ledgers w !! l = Some L -> resv w !! r = None -> step w (op_attempt t l r p L weak w)
| step_child w r l h R : resv w !! r = Some R -> ~ owned w r ->
    ledgers w !! l = None -> handles w !! h = None -> step w (op_child r l h R w)
| step_drop w r : ~ owned w r -> step w (drop_reservation r w)
| step_free w l L : ledgers w !! l = Some L ->
    (forall h, handles w !! h <> Some l) ->
    (forall r R, resv w !! r = Some R -> r_ledger R <> l) ->
    step w (op_free l L w).

Definition empty_world : World := MkWorld ∅ ∅ ∅ ∅.
Definition reachable (w : World) : Prop := rtc step empty_world w.

(** * Sums over finite maps *)
Section Msum.
  Context {A : Type}.
  Implicit Types (f g : nat -> A -> Z) (m : gmap nat A).

Definition msum (f : nat -> A -> Z) (m : gmap nat A) : Z := map_fold (fun k x acc => f k x + acc) 0 m.

Lemma msum_empty f : msum f ∅ = 0.
Proof. apply map_fold_empty. Qed.

Lemma msum_insert f k x m : m !! k = None -> msum f (<[k := x]> m) = f k x + msum f m.
Proof. intros Hk. unfold msum. rewrite map_fold_insert_L; [done| |done]. intros. lia. Qed.

Lemma msum_delete f k x m : m !! k = Some x -> msum f m = f k x + msum f (delete k m).
Proof. intros Hk. unfold msum. rewrite (map_fold_delete_L _ _ k x m); [done| |done]. intros. lia. Qed.

Lemma lookup_insert_old k x m k' x' : m !! k = None -> m !! k' = Some x' -> <[k := x]> m !! k' = Some x'.
Proof. intros Hk Hk'. rewrite lookup_insert_ne; [done|]. intros ->. congruence. Qed.

Lemma msum_mono f g m : (forall k x, m !! k = Some x -> f k x <= g k x) -> msum f m <= msum g m.
Proof.
  induction m as [|k x m Hk IH] using map_ind; intros H; [by rewrite !msum_empty|]. rewrite !msum_insert by done.
  pose proof (H k x ltac:(by rewrite lookup_insert_eq)). enough (msum f m <= msum g m) by lia.
  apply IH. intros k' x' H'. by apply H, lookup_insert_old.
Qed.

Lemma msum_ext f g m : (forall k x, m !! k = Some x -> f k x = g k x) -> msum f m = msum g m.
Proof. intros H. apply Z.le_antisymm; apply msum_mono; intros; by rewrite (H k x). Qed.

Lemma msum_zero f m : (forall k x, m !! k = Some x -> f k x = 0) -> msum f m = 0.
Proof.
  intros H. rewrite (msum_ext f (fun _ _ => 0)) by done. clear H.
  induction m as [|k x m Hk IH] using map_ind; [apply msum_empty|]. by rewrite msum_insert.
Qed.

Lemma msum_add f g m : msum (fun k x => f k x + g k x) m = msum f m + msum g m.
Proof.
  induction m as [|k x m Hk IH] using map_ind; [by rewrite !msum_empty|]. rewrite !msum_insert by done. lia.
Qed.
End Msum.

(** * The bytes charged to a ledger *)
Definition charge (l : nat) (R : Reservation) : Z := if decide (r_ledger R = l) then r_bytes R else 0.
Definition charged (l : nat) (m : gmap nat Reservation) : Z := msum (fun _ => charge l) m.

Lemma charged_insert l r R m : m !! r = None -> charged l (<[r := R]> m) = charge l R + charged l m.
Proof. apply (msum_insert (fun _ => charge l)). Qed.

Lemma charged_delete l r R m : m !! r = Some R -> charged l m = charge l R + charged l (delete r m).
Proof. apply (msum_delete (fun _ => charge l)). Qed.

Lemma charged_nonneg l m : (forall r R, m !! r = Some R -> 0 <= r_bytes R) -> 0 <= charged l m.
Proof.
  intros H. rewrite <- (msum_zero (fun _ _ => 0) m) by done. apply msum_mono. intros r R HR.
  unfold charge. specialize (H r R HR). destruct (decide _); lia.
Qed.

Lemma charged_none l m : (forall r R, m !! r = Some R -> r_ledger R <> l) -> charged l m = 0.
Proof. intros H. apply msum_zero. intros r R HR. unfold charge. rewrite decide_False; [done|]. by eapply H. Qed.

(** * The invariant *)
Record Inv (w : World) : Prop := {
  inv_used : forall l L, ledgers w !! l = Some L ->
    used L = charged l (resv w) /\ used L <= limit L <= u64_max;
  inv_resv : forall r R, resv w !! r = Some R -> 0 <= r_bytes R <= u64_max /\ is_Some (ledgers w !! r_ledger R);
  inv_handles : forall h l, handles w !! h = Some l -> is_Some (ledgers w !! l);
  inv_loops : forall t p, loops w !! t = Some p ->
    is_Some (handles w !! lp_handle p) /\ 0 <= lp_bytes p <= u64_max /\ 0 <= lp_used p;
  inv_parent : forall l L r, ledgers w !! l = Some L -> parent L = Some r ->
    exists R, resv w !! r = Some R /\ r_bytes R = limit L;
  inv_owner : forall l l' L L' r, ledgers w !! l = Some L -> ledgers w !! l' = Some L' ->
    parent L = Some r -> parent L' = Some r -> l = l' }.

Lemma inv_resv_bytes w : Inv w -> forall r R, resv w !! r = Some R -> 0 <= r_bytes R.
Proof. intros I r R Hr. destruct (inv_resv w I r R Hr). lia. Qed.

Lemma inv_empty : Inv empty_world.
Proof. by split; simpl; intros *; rewrite ?lookup_empty. Qed.

(** Looking through the maps an operation changed. *)
Ltac look := repeat match goal with
  | H : <[?i := _]> _ !! ?j = Some _ |- _ => apply lookup_insert_Some in H as [[? ?]|[? ?]]; subst
  | H : delete _ _ !! _ = Some _ |- _ => apply lookup_delete_Some in H as [? ?]
  end; simpl in *; simplify_eq.

(** A fresh ledger with nothing charged to it. *)
Lemma inv_fresh_ledger w l h L : Inv w -> ledgers w !! l = None -> handles w !! h = None ->
  used L = 0 -> 0 <= limit L <= u64_max ->
  (forall r, parent L = Some r -> (exists R, resv w !! r = Some R /\ r_bytes R = limit L) /\ ~ owned w r) ->
  Inv (set_handles <[h := l]> (set_ledgers <[l := L]> w)).
Proof.
  intros I Hl Hh Hu Hlim Hpar. split; simpl.
  - intros l' L' H'. look.
    + rewrite charged_none; [lia|]. intros r R Hr E. destruct (inv_resv w I r R Hr) as [_ [L0 HL0]]. congruence.
    + by apply (inv_used w I).
  - intros r R Hr. destruct (inv_resv w I r R Hr) as [Hb Hs]. split; [done|].
    by apply lookup_insert_is_Some'; right.
  - intros h' l' H'. look; apply lookup_insert_is_Some'; [by left|right; by eapply (inv_handles w I)].
  - intros t p Hp. destruct (inv_loops w I t p Hp) as (H1 & H2 & H3). split; [|done].
    by apply lookup_insert_is_Some'; right.
  - intros l' L' r H' Hr. look; [by apply Hpar|by eapply (inv_parent w I)].
  - intros l1 l2 L1 L2 r H1 H2 Hr1 Hr2. look; try done.
    + destruct (Hpar r) as [_ []]; [done|]. unfold owned. eauto.
    + destruct (Hpar r) as [_ []]; [done|]. unfold owned. eauto.
    + by eapply (inv_owner w I l1 l2).
Qed.

Lemma inv_handle w h l : Inv w -> is_Some (ledgers w !! l) -> Inv (set_handles <[h := l]> w).
Proof.
  intros [H1 H2 H3 H4 H5 H6] Hl. split; simpl; try done.
  - intros h' l' H'. look; eauto.
  - intros t p Hp. destruct (H4 t p Hp) as [H7 H8]. split; [|done]. by apply lookup_insert_is_Some'; right.
Qed.

Lemma inv_drop_handle w h : Inv w -> (forall t p, loops w !! t = Some p -> lp_handle p <> h) ->
  Inv (set_handles (delete h) w).
Proof.
  intros [H1 H2 H3 H4 H5 H6] Hl. split; simpl; try done.
  - intros h' l' H'. look; eauto.
  - intros t p Hp. destruct (H4 t p Hp) as [[l H7] H8]. split; [|done]. exists l.
    rewrite lookup_delete_ne; [done|]. intros ->. by eapply Hl.
Qed.

Lemma inv_set_loop w t p : Inv w -> is_Some (handles w !! lp_handle p) -> 0 <= lp_bytes p <= u64_max -> 0 <= lp_used p ->
  Inv (set_loops <[t := p]> w).
Proof. intros [H1 H2 H3 H4 H5 H6] Hh Hb Hu. split; simpl; try done. intros t' p' H'. look; eauto. Qed.

Lemma inv_end_loop w t : Inv w -> Inv (set_loops (delete t) w).
Proof. intros [H1 H2 H3 H4 H5 H6]. split; simpl; try done. intros t' p' H'. look; eauto. Qed.

Lemma inv_used_nonneg w l L : Inv w -> ledgers w !! l = Some L -> 0 <= used L.
Proof. intros I HL. destruct (inv_used w I l L HL) as [-> _]. apply charged_nonneg, (inv_resv_bytes w I). Qed.

(** Charging [bytes] to ledger [l] and recording the reservation. *)
Lemma inv_grant w l r L bytes : Inv w -> ledgers w !! l = Some L -> resv w !! r = None -> 0 <= bytes <= u64_max ->
  used L + bytes <= limit L ->
  Inv (set_resv <[r := MkReservation l bytes]> (set_ledgers <[l := MkLedger (limit L) (used L + bytes) (parent L)]> w)).
Proof.
  intros I HL Hr Hb Hle. destruct (inv_used w I l L HL) as [Hu Hlim]. split; simpl.
  - intros l' L' H'. rewrite charged_insert by done. unfold charge. simpl. look.
    + rewrite decide_True by done. lia.
    + rewrite decide_False by done. by apply (inv_used w I).
  - intros r' R' H'. look.
    + split; [done|]. apply lookup_insert_is_Some'. by left.
    + destruct (inv_resv w I r' R' ltac:(done)) as [H1 H2]. split; [done|]. by apply lookup_insert_is_Some'; right.
  - intros h l' H'. apply lookup_insert_is_Some'. right. by eapply (inv_handles w I).
  - apply (inv_loops w I).
  - intros l' L' r' H' Hp.
    assert (exists R, resv w !! r' = Some R /\ r_bytes R = limit L') as (R & HR & Hb').
    { look; [by eapply (inv_parent w I)|by eapply (inv_parent w I)]. }
    exists R. split; [|done]. rewrite lookup_insert_ne; [done|]. intros ->. congruence.
  - intros l1 l2 L1 L2 r' H1 H2 Hr1 Hr2. look; try done; by eapply (inv_owner w I).
Qed.

(** Dropping a reservation no ledger owns. *)
Lemma inv_drop w r : Inv w -> ~ owned w r -> Inv (drop_reservation r w).
Proof.
  intros I Hno. unfold drop_reservation. destruct (resv w !! r) as [R|] eqn:HR; [|done].
  pose proof (inv_resv_bytes w I) as Hbytes.
  assert (Hdel : forall l, 0 <= charged l (delete r (resv w))).
  { intros l. apply charged_nonneg. intros r' R' H'. look. eauto. }
  split; simpl.
  - intros l L H'. apply lookup_alter_Some in H' as [(<- & L0 & HL0 & ->)|[Hne HL]].
    + destruct (inv_used w I _ L0 HL0) as [Hu Hlim]. rewrite (charged_delete _ r R) in Hu by done.
      specialize (Hdel (r_ledger R)). unfold charge in Hu. rewrite decide_True in Hu by done. simpl.
      rewrite Z.mod_small by (unfold u64_max in *; specialize (Hbytes r R HR); lia). specialize (Hbytes r R HR). lia.
    + destruct (inv_used w I _ L HL) as [Hu Hlim]. rewrite (charged_delete _ r R) in Hu by done.
      unfold charge in Hu. rewrite decide_False in Hu by done. split; [lia|done].
  - intros r' R' H'. look. destruct (inv_resv w I r' R' ltac:(done)) as [Hb Hs]. split; [done|].
    by apply lookup_alter_is_Some.
  - intros h l H'. apply lookup_alter_is_Some. by eapply (inv_handles w I).
  - apply (inv_loops w I).
  - intros l L r' H' Hp.
    assert (exists L0, ledgers w !! l = Some L0 /\ parent L0 = Some r' /\ limit L0 = limit L) as (L0 & HL0 & Hp0 & <-).
    { apply lookup_alter_Some in H' as [(<- & L0 & HL0 & ->)|[Hne HL]]; eauto. }
    destruct (inv_parent w I l L0 r' HL0 Hp0) as (R' & HR' & Hb). exists R'. split; [|done].
    rewrite lookup_delete_ne; [done|]. intros <-. apply Hno. by exists l, L0.
  - intros l1 l2 L1 L2 r' H1 H2 Hr1 Hr2.
    apply lookup_alter_Some in H1 as [(<- & L1' & H1 & ->)|[_ H1]], H2 as [(<- & L2' & H2 & ->)|[_ H2]];
      simpl in *; try done; by eapply (inv_owner w I).
Qed.

(** Removing a ledger nothing refers to. *)
Lemma inv_remove w l L : Inv w -> ledgers w !! l = Some L -> (forall h, handles w !! h <> Some l) ->
  (forall r R, resv w !! r = Some R -> r_ledger R <> l) -> Inv (set_ledgers (delete l) w).
Proof.
  intros I HL Hh Hres. split; simpl.
  - intros l' L' H'. look. by apply (inv_used w I).
  - intros r R HR. destruct (inv_resv w I r R HR) as [Hb Hs]. split; [done|].
    rewrite lookup_delete_ne; [done|]. intros E. by eapply Hres.
  - intros h l' H'. rewrite lookup_delete_ne; [by eapply (inv_handles w I)|]. intros ->. by eapply Hh.
  - apply (inv_loops w I).
  - intros l' L' r H' Hp. look. by eapply (inv_parent w I).
  - intros l1 l2 L1 L2 r H1 H2 Hr1 Hr2. look. by eapply (inv_owner w I l1 l2).
Qed.

Lemma step_inv w w' : Inv w -> step w w' -> Inv w'.
Proof.
  intros I Hs. destruct Hs as [w bytes l h Hb Hl Hh|w l h h' Hh Hh'|w h Hl|w t h l L bytes Hb Hh HL Ht
    |w t l r p L weak Ht Hh HL Hr|w r l h R HR Hno Hl Hh|w r Hno|w l L HL Hh Hres].
  - apply inv_fresh_ledger; try done. simpl. unfold is_u64, u64_max in *. lia.
  - apply inv_handle; [done|]. by eapply (inv_handles w I).
  - by apply inv_drop_handle.
  - apply inv_set_loop; simpl; [done|by eexists|unfold is_u64, u64_max in *; lia|by eapply inv_used_nonneg].
  - unfold op_attempt, reserve_attempt. destruct (inv_loops w I t p Ht) as (H1 & H2 & H3).
    destruct (checked_add _ _) as [req|] eqn:Hreq; [|by apply inv_end_loop]. apply checked_add_inv in Hreq as [-> Hreq].
    destruct (Z.ltb_spec (limit L) (lp_used p + lp_bytes p)); [by apply inv_end_loop|].
    destruct (Z.eqb_spec (used L) (lp_used p)) as [E|E]; [destruct weak|]; cbn [andb negb].
    + apply inv_set_loop; simpl; try done. by eapply inv_used_nonneg.
    + rewrite <- E in *. by apply inv_end_loop, inv_grant.
    + apply inv_set_loop; simpl; try done. by eapply inv_used_nonneg.
  - destruct (inv_resv w I r R HR) as [Hb _]. apply inv_fresh_ledger; simpl; try done.
    intros r' [= <-]. split; [by exists R|done].
  - by apply inv_drop.
  - unfold op_free. assert (I' : Inv (set_ledgers (delete l) w)) by by eapply inv_remove.
    destruct (parent L) as [r|] eqn:Hp; [|done]. apply inv_drop; [done|].
    intros (l' & L' & HL' & Hp'). simpl in HL'. look. assert (l = l') by by eapply (inv_owner w I). done.
Qed.

Lemma reachable_inv w : reachable w -> Inv w.
Proof.
  unfold reachable. intros H. apply (rtc_ind_r (R := step) (fun w => Inv w) empty_world); [apply inv_empty| |done].
  intros y z _ Hs Hy. by eapply step_inv.
Qed.

(** * All partitions together *)

(** The reservations some ledger of [m] owns. *)
Definition parents (m : gmap nat Ledger) : gset nat :=
  map_fold (fun _ L acc => match parent L with Some r => {[r]} ∪ acc | None => acc end) ∅ m.

Definition root_limit (L : Ledger) : Z := match parent L with None => limit L | Some _ => 0 end.
Definition child_limit (L : Ledger) : Z := match parent L with None => 0 | Some _ => limit L end.

(** Limits of the root ledgers, and bytes of the reservations held by storage (not
    by a partition). *)
Definition root_limits (w : World) : Z := msum (fun _ => root_limit) (ledgers w).
Definition storage_bytes (w : World) : Z :=
  msum (fun r R => if decide (r ∈ parents (ledgers w)) then 0 else r_bytes R) (resv w).

Lemma parents_insert l L m : m !! l = None ->
  parents (<[l := L]> m) = match parent L with Some r => {[r]} ∪ parents m | None => parents m end.
Proof.
  intros Hl. unfold parents. rewrite map_fold_insert_L; [done| |done].
  intros j1 j2 z1 z2 y _ _ _. destruct (parent z1), (parent z2); set_solver.
Qed.

Lemma elem_of_parents r m : r ∈ parents m <-> exists l L, m !! l = Some L /\ parent L = Some r.
Proof.
  induction m as [|l L m Hl IH] using map_ind.
  - unfold parents. rewrite map_fold_empty. split; [set_solver|]. by intros (? & ? & ? & _).
  - rewrite parents_insert by done. split.
    + intros H. assert (r ∈ parents m \/ parent L = Some r) as [H1|H1] by (destruct (parent L); set_solver).
      * apply IH in H1 as (l' & L' & H1 & H2). exists l', L'. split; [by apply lookup_insert_old|done].
      * exists l, L. by rewrite lookup_insert_eq.
    + intros (l' & L' & H1 & H2). apply lookup_insert_Some in H1 as [[<- <-]|[_ H1]].
      * rewrite H2. set_solver.
      * assert (r ∈ parents m) by (apply IH; eauto). destruct (parent L); set_solver.
Qed.

(** Each reservation is charged to one ledger of the map. *)
Lemma used_total (res : gmap nat Reservation) (m : gmap nat Ledger) :
  msum (fun l _ => charged l res) m = msum (fun _ R => if decide (is_Some (m !! r_ledger R)) then r_bytes R else 0) res.
Proof.
  induction m as [|l L m Hl IH] using map_ind.
  - rewrite msum_empty. symmetry. apply msum_zero. intros r R _. rewrite decide_False; [done|]. by intros [? ?].
  - rewrite msum_insert, IH by done. unfold charged. rewrite <- msum_add. apply msum_ext. intros r R _. unfold charge.
    destruct (decide (r_ledger R = l)) as [->|Hne].
    + rewrite Hl, lookup_insert_eq, decide_False, decide_True; [lia|by eexists|by intros []].
    + rewrite lookup_insert_ne by done. lia.
Qed.

(** The limits of the children are the bytes of the reservations they own. *)
Lemma child_total (res : gmap nat Reservation) (m : gmap nat Ledger) :
  (forall l L r, m !! l = Some L -> parent L = Some r -> exists R, res !! r = Some R /\ r_bytes R = limit L) ->
  (forall l l' L L' r, m !! l = Some L -> m !! l' = Some L' -> parent L = Some r -> parent L' = Some r -> l = l') ->
  msum (fun _ => child_limit) m = msum (fun r R => if decide (r ∈ parents m) then r_bytes R else 0) res.
Proof.
  induction m as [|l L m Hl IH] using map_ind; intros Hpar Hinj.
  - rewrite msum_empty. symmetry. apply msum_zero. intros r R _. rewrite decide_False; [done|].
    intros (? & ? & ? & _)%elem_of_parents. done.
  - rewrite msum_insert by done. rewrite IH; cycle 1.
    { intros l' L' r H'. by eapply Hpar, lookup_insert_old. }
    { intros l1 l2 L1 L2 r H1 H2. eapply Hinj; by apply lookup_insert_old. }
    unfold child_limit. destruct (parent L) as [r|] eqn:Hp.
    + destruct (Hpar l L r) as (R & HR & <-); [by rewrite lookup_insert_eq|done|].
      assert (Hnew : r ∉ parents m).
      { intros (l' & L' & HL' & Hp')%elem_of_parents. assert (l = l') as ->; [|congruence].
        apply (Hinj l l' L L' r); [by rewrite lookup_insert_eq|by apply lookup_insert_old|done..]. }
      rewrite parents_insert, Hp by done. rewrite !(msum_delete _ r R res) by done.
      rewrite decide_False, decide_True by set_solver. rewrite Z.add_0_l. f_equal. apply msum_ext.
      intros r' R' H'. apply lookup_delete_Some in H' as [Hne _].
      destruct (decide (r' ∈ parents m)); [rewrite decide_True by set_solver|rewrite decide_False by set_solver]; done.
    + by rewrite parents_insert, Hp.
Qed.

Lemma storage_bounded w : Inv w -> storage_bytes w <= root_limits w.
Proof.
  intros I. unfold storage_bytes, root_limits.
  assert (Hres : msum (fun _ R => r_bytes R) (resv w) = msum (fun _ L => used L) (ledgers w)).
  { transitivity (msum (fun l _ => charged l (resv w)) (ledgers w)).
    - rewrite used_total. apply msum_ext. intros r R HR. rewrite decide_True; [done|]. by eapply (inv_resv w I).
    - apply msum_ext. intros l L HL. by destruct (inv_used w I l L HL) as [-> _]. }
  assert (Hlim : msum (fun _ L => used L) (ledgers w) <= msum (fun _ => root_limit) (ledgers w) + msum (fun _ => child_limit) (ledgers w)).
  { rewrite <- msum_add. apply msum_mono. intros l L HL. destruct (inv_used w I l L HL) as [_ [Hu _]].
    unfold root_limit, child_limit. destruct (parent L); lia. }
  assert (Hch : msum (fun _ => child_limit) (ledgers w) = msum (fun r R => if decide (r ∈ parents (ledgers w)) then r_bytes R else 0) (resv w))
    by (apply child_total; [apply (inv_parent w I)|apply (inv_owner w I)]).
  assert (Hsplit : msum (fun _ R => r_bytes R) (resv w) =
    msum (fun r R => if decide (r ∈ parents (ledgers w)) then 0 else r_bytes R) (resv w) +
    msum (fun r R => if decide (r ∈ parents (ledgers w)) then r_bytes R else 0) (resv w)).
  { rewrite <- msum_add. apply msum_ext. intros r R _. destruct (decide _); lia. }
  lia.
Qed.

(** * A reserve call on its own *)

(** One iteration of thread [t], and the outcome of the call when it ends it. *)
Definition attempt_alone (t r : nat) (weak : bool) (w : World) : World * option (res BackendError unit) :=
  match p ← loops w !! t; l ← handles w !! lp_handle p; L ← ledgers w !! l; Some (p, l, L) with
  | None => (w, None)
  | Some (p, l, L) =>
      (op_attempt t l r p L weak w,
       match reserve_attempt L (lp_bytes p) (lp_used p) weak with
       | Granted _ => Some (Ok tt)
       | Failed e => Some (Err e)
       | Retry _ => None
       end)
  end.

(** The loop of [reserve] while no other thread runs: [weaks] says which exchanges fail
    spuriously, and there is an iteration for each of its elements at most. *)
Fixpoint run_alone (t r : nat) (weaks : list bool) (w : World) : World * option (res BackendError unit) :=
  match weaks with
  | [] => (w, None)
  | weak :: weaks =>
      match attempt_alone t r weak w with
      | (w', Some o) => (w', Some o)
      | (w', None) => run_alone t r weaks w'
      end
  end.

(** Whether [bytes] more fit beside [observed], and the error otherwise. *)
Definition fits_beside (L : Ledger) (bytes observed : Z) : res BackendError unit :=
  match checked_add observed bytes with
  | None => Err budget_overflow
  | Some requested => if limit L <? requested then Err (TensorPayloadBudgetExceeded requested (limit L)) else Ok tt
  end.

(** Both the value observed and the current one must leave room. *)
Definition alone_outcome (p : Loop) (L : Ledger) : res BackendError unit :=
  let* _ := fits_beside L (lp_bytes p) (lp_used p) in fits_beside L (lp_bytes p) (used L).

(** The state a finished call leaves: its bytes charged and reserved, or nothing changed. *)
Definition alone_world (t l r : nat) (p : Loop) (L : Ledger) (w : World) : World :=
  set_loops (delete t)
    match alone_outcome p L with
    | Ok _ => set_resv <[r := MkReservation l (lp_bytes p)]> (set_ledgers <[l := MkLedger (limit L) (used L + lp_bytes p) (parent L)]> w)
    | _ => w
    end.

Lemma attempt_cases L bytes observed weak :
  reserve_attempt L bytes observed weak =
  match fits_beside L bytes observed with
  | Ok _ => if (used L =? observed) && negb weak then Granted (MkLedger (limit L) (used L + bytes) (parent L)) else Retry (used L)
  | Err e => Failed e
  | _ => Retry 0
  end.
Proof.
  unfold reserve_attempt, fits_beside. destruct (checked_add observed bytes) as [q|] eqn:Hq; [|done]. apply checked_add_inv in Hq as [-> _].
  destruct (_ <? _); [done|]. by destruct (Z.eqb_spec (used L) observed) as [->|].
Qed.

Lemma fits_cases L bytes observed : fits_beside L bytes observed = Ok tt \/ exists e, fits_beside L bytes observed = Err e.
Proof. unfold fits_beside. destruct (checked_add _ _); [|eauto]. destruct (_ <? _); eauto. Qed.

Section alone.
Context (t l r : nat).

Lemma attempt_alone_eq w p L weak : loops w !! t = Some p -> handles w !! lp_handle p = Some l -> ledgers w !! l = Some L ->
  attempt_alone t r weak w =
    match fits_beside L (lp_bytes p) (lp_used p) with
    | Ok _ => if (used L =? lp_used p) && negb weak
        then (set_loops (delete t) (set_resv <[r := MkReservation l (lp_bytes p)]>
               (set_ledgers <[l := MkLedger (limit L) (used L + lp_bytes p) (parent L)]> w)), Some (Ok tt))
        else (set_loops <[t := MkLoop (lp_handle p) (lp_bytes p) (used L)]> w, None)
    | Err e => (set_loops (delete t) w, Some (Err e))
    | _ => (set_loops <[t := MkLoop (lp_handle p) (lp_bytes p) 0]> w, None)
    end.
Proof.
  intros Ht Hh HL. unfold attempt_alone. rewrite Ht. cbn. rewrite Hh. cbn. rewrite HL. cbn. unfold op_attempt. rewrite attempt_cases.
  destruct (fits_cases L (lp_bytes p) (lp_used p)) as [->|[e ->]]; [|done]. by destruct (_ && _).
Qed.

(** With the current value observed, the first exchange that does not fail spuriously
    ends the call. *)
Lemma run_current weaks w p L :
  loops w !! t = Some p -> handles w !! lp_handle p = Some l -> ledgers w !! l = Some L -> used L = lp_used p ->
  (1 <= count_occ bool_dec weaks false)%nat ->
  run_alone t r weaks w = (alone_world t l r p L w, Some (alone_outcome p L)).
Proof.
  intros Ht Hh HL E. unfold alone_world, alone_outcome.
  induction weaks as [|weak weaks IH]; intros Hc; [simpl in Hc; lia|]. cbn [run_alone]. rewrite (attempt_alone_eq w p L weak) by done.
  destruct (fits_cases L (lp_bytes p) (lp_used p)) as [Hf|[e Hf]]; rewrite Hf in *; [|done]. rewrite E in *. rewrite Z.eqb_refl, Hf in *.
  destruct weak; cbn [andb negb bind] in *; [|done].
  replace (set_loops <[t := MkLoop (lp_handle p) (lp_bytes p) (lp_used p)]> w) with w; [by apply IH|].
  destruct w, p. unfold set_loops. cbn in *. by rewrite insert_id.
Qed.

(** A stale value costs one exchange. *)
Lemma run_any weaks w p L :
  loops w !! t = Some p -> handles w !! lp_handle p = Some l -> ledgers w !! l = Some L ->
  ((if (used L =? lp_used p)%Z then 1 else 2) <= count_occ bool_dec weaks false)%nat ->
  run_alone t r weaks w = (alone_world t l r p L w, Some (alone_outcome p L)).
Proof.
  intros Ht Hh HL Hc. destruct (Z.eqb_spec (used L) (lp_used p)) as [E|E]; [by apply run_current|].
  destruct weaks as [|weak weaks]; [simpl in Hc; lia|]. cbn [run_alone]. rewrite (attempt_alone_eq w p L weak) by done.
  destruct (fits_cases L (lp_bytes p) (lp_used p)) as [Hf|[e Hf]]; unfold alone_world, alone_outcome; rewrite Hf; [|done].
  replace (used L =? lp_used p) with false by lia. cbn [andb bind].
  set (p' := MkLoop (lp_handle p) (lp_bytes p) (used L)).
  rewrite (run_current weaks (set_loops <[t := p']> w) p' L).
  - unfold alone_world, alone_outcome. cbn [p' lp_bytes lp_used]. destruct (fits_cases L (lp_bytes p) (used L)) as [Hu|[e Hu]]; rewrite Hu; cbn [bind]; rewrite ?Hu.
    + f_equal. unfold set_loops, set_resv, set_ledgers. cbn. by rewrite delete_insert_eq.
    + f_equal. unfold set_loops. cbn. by rewrite delete_insert_eq.
  - cbn. by rewrite lookup_insert_eq.
  - done.
  - done.
  - done.
  - destruct weak; simpl in Hc; lia.
Qed.

(** Iterations are steps of the system. *)
Lemma run_alone_steps weaks : forall w, resv w !! r = None -> rtc step w (fst (run_alone t r weaks w)).
Proof.
  induction weaks as [|weak weaks IH]; intros w Hr; [done|]. cbn [run_alone]. unfold attempt_alone.
  destruct (loops w !! t) as [p|] eqn:Ht; cbn; [|by apply IH]. destruct (handles w !! lp_handle p) as [l'|] eqn:Hh; cbn; [|by apply IH].
  destruct (ledgers w !! l') as [L|] eqn:HL; cbn; [|by apply IH]. pose proof (step_attempt w t l' r p L weak Ht Hh HL Hr) as Hs.
  destruct (reserve_attempt L (lp_bytes p) (lp_used p) weak) as [L'|e|current] eqn:Ha; cbn; [by apply rtc_once..|].
  eapply rtc_l; [exact Hs|]. apply IH. unfold op_attempt. by rewrite Ha.
Qed.
End alone.

(** A root of 100 bytes, a partition of 80 of it, and a thread asking the partition
    for 60. *)
Definition demo_new : World := op_new 100 0 0 empty_world.
Definition demo_load : World := op_load 7 0 80 (MkLedger 100 0 None) demo_new.
Definition demo_grant : World := op_attempt 7 0 0 (MkLoop 0 80 0) (MkLedger 100 0 None) false demo_load.
Definition demo_child : World := op_child 0 1 1 (MkReservation 0 80) demo_grant.
Definition demo : World := op_load 7 1 60 (MkLedger 80 0 (Some 0%nat)) demo_child.

Lemma not_owned w r : bool_decide (r ∈ parents (ledgers w)) = false -> ~ owned w r.
Proof. intros H Ho. apply bool_decide_eq_false in H. by apply H, elem_of_parents. Qed.

Lemma demo_reachable : reachable demo.
Proof.
  unfold reachable. eapply rtc_r; [eapply rtc_r; [eapply rtc_r; [eapply rtc_r; [apply rtc_once|]|]|]|].
  - apply (step_new empty_world 100 0 0); [unfold is_u64; lia|reflexivity..].
  - apply (step_load demo_new 7 0 0 (MkLedger 100 0 None) 80); [unfold is_u64; lia|reflexivity..].
  - apply (step_attempt demo_load 7 0 0 (MkLoop 0 80 0) (MkLedger 100 0 None) false); reflexivity.
  - apply (step_child demo_grant 0 1 1 (MkReservation 0 80)); [reflexivity|by apply not_owned|reflexivity..].
  - apply (step_load demo_child 7 1 1 (MkLedger 80 0 (Some 0%nat)) 60); [unfold is_u64; lia|reflexivity..].
Qed.

(** * Properties *)

(** C5: in every state any interleaving of threads can reach, each ledger's counter
    is exactly the sum of its live reservations and never exceeds its limit, so no
    [fetch_sub] wraps; the limit of a partition is held as one live reservation of
    its parent ledger; and all storage reservations together, however deep the
    partitions are nested, stay within the limits of the root ledgers. *)
Theorem budget_never_overcommits w :
  reachable w ->
  (forall l L, ledgers w !! l = Some L ->
     used L = charged l (resv w) /\ 0 <= used L <= limit L /\
     forall r, parent L = Some r -> exists R P, resv w !! r = Some R /\ r_bytes R = limit L /\
       ledgers w !! r_ledger R = Some P /\ limit L <= used P) /\
  storage_bytes w <= root_limits w.
Proof.
  intros H. apply reachable_inv in H as I. split; [|by apply storage_bounded]. intros l L HL.
  destruct (inv_used w I l L HL) as [Hu Hl]. split; [done|]. split; [split; [by eapply inv_used_nonneg|lia]|].
  intros r Hr. destruct (inv_parent w I l L r HL Hr) as (R & HR & Hb). destruct (inv_resv w I r R HR) as [Hb' [P HP]].
  exists R, P. split; [done|]. split; [done|]. split; [done|]. destruct (inv_used w I _ P HP) as [-> _].
  rewrite (charged_delete _ r R) by done. unfold charge. rewrite decide_True by done.
  enough (0 <= charged (r_ledger R) (delete r (resv w))) by lia. apply charged_nonneg. intros r' R' H'.
  apply lookup_delete_Some in H' as [_ H']. by eapply inv_resv_bytes.
Qed.

Lemma budget_never_overcommits_witness :
  used_bytes demo 0 = Some 80 /\ storage_bytes demo <= root_limits demo.
Proof. split; [reflexivity|]. apply (budget_never_overcommits demo demo_reachable). Defined.

(** C31: a reserve call that runs on its own finishes. From any reachable state with the
    call in flight, whichever of its compare-exchanges fail spuriously, it ends with the
    first one that does not when the counter is still the value observed, and with the
    second one at the latest otherwise. It ends with its bytes reserved and charged to the
    counter when both the value observed and the current one leave room, with the overflow
    or budget error of the first that does not otherwise, and then nothing is reserved or
    charged. An attempt that retries without a spurious failure saw a counter that another
    thread had changed. *)
Theorem reserve_progress w t p l L r weaks :
  reachable w -> loops w !! t = Some p -> handles w !! lp_handle p = Some l -> ledgers w !! l = Some L ->
  resv w !! r = None ->
  ((if (used L =? lp_used p)%Z then 1 else 2) <= count_occ bool_dec weaks false)%nat ->
  run_alone t r weaks w = (alone_world t l r p L w, Some (alone_outcome p L)) /\
  rtc step w (alone_world t l r p L w) /\ Inv (alone_world t l r p L w) /\ loops (alone_world t l r p L w) !! t = None /\
  (forall current, reserve_attempt L (lp_bytes p) (lp_used p) false = Retry current ->
     current = used L /\ used L <> lp_used p).
Proof.
  intros H Ht Hh HL Hr Hc. pose proof (run_any t l r weaks w p L Ht Hh HL Hc) as Hrun. split; [done|].
  assert (Hs : rtc step w (alone_world t l r p L w)) by (pose proof (run_alone_steps t r weaks w Hr) as Hs; by rewrite Hrun in Hs).
  split; [done|]. split; [apply reachable_inv; unfold reachable in *; by etrans|]. split; [by apply lookup_delete_eq|].
  intros current. rewrite attempt_cases. destruct (fits_cases L (lp_bytes p) (lp_used p)) as [->|[e ->]]; [|done].
  destruct (Z.eqb_spec (used L) (lp_used p)); [done|]. by intros [= <-].
Qed.

(** After one spurious failure the partition grants its 60 bytes. *)
Lemma reserve_progress_witness :
  let w := alone_world 7 1 1 (MkLoop 1 60 0) (MkLedger 80 0 (Some 0%nat)) demo in
  run_alone 7 1 [true; false] demo = (w, Some (Ok tt)) /\ used_bytes w 1 = Some 60 /\ resv w !! 1%nat = Some (MkReservation 1 60).
Proof.
  destruct (reserve_progress demo 7 (MkLoop 1 60 0) 1 (MkLedger 80 0 (Some 0%nat)) 1 [true; false] demo_reachable
    eq_refl eq_refl eq_refl eq_refl) as (H & _); [vm_compute; apply le_n|].
  split; [exact H|]. split; reflexivity.
Defined.
