(* ===== verification/Admission.v ===== *)
(** * Authentication and admission control (crates/tritium-serve/src/admission.rs)

    Bearer-token authentication and the per-principal token bucket. Strings are
    byte lists, an [Instant] is a number of nanoseconds, the mutex makes every
    [check_at] one atomic step, and BLAKE3 is the parameter [hash]. *)

From Stdlib Require Import ZArith Lia Bool.
From stdpp Require Import base list numbers.
From S2P Require Import Prelude.

#[local] Open Scope Z_scope.

Definition MAX_BEARER_TOKENS : Z := 32.
Definition MINUTE_NANOS : Z := 60000000000.
Definition u128_max : Z := 340282366920938463463374607431768211455.

(** What [invalid] is called with; each is an [io::Error] of kind [InvalidInput]. *)
Inductive Invalid : Type :=
| TooManyTokens
| TokenLength (index : Z)
| TokenBytes (index : Z)
| DuplicateToken
| ZeroRate
| BurstTooLarge.

Record PrincipalRateLimit : Type := MkRate { requests_per_minute : Z; burst : Z }.
Record AdmissionPolicy : Type := MkPolicy {
  bearer_tokens : list (list Z);
  rate_limit : option PrincipalRateLimit }.

Record Bucket : Type := MkBucket { credit : Z; last : Z }.
Record PrincipalLimiter : Type := MkLimiter { lim_rpm : Z; capacity : Z; buckets : list Bucket }.

Inductive AdmissionDecision : Type :=
| Allow
| Reject (retry_after_secs : Z).

Record Admission : Type := MkAdmission {
  token_digests : list (list Z);
  limiter : option PrincipalLimiter }.

(** [saturating_mul] and [saturating_add] on [u128]. *)
Definition sat_mul128 (a b : Z) : Z := Z.min (a * b) u128_max.
Definition sat_add128 (a b : Z) : Z := Z.min (a + b) u128_max.

(** [PrincipalLimiter::new] at instant [now]. *)
Definition limiter_new (limit : PrincipalRateLimit) (principal_count now : Z) : res Invalid PrincipalLimiter :=
  if (requests_per_minute limit =? 0) || (burst limit =? 0) then Err ZeroRate else
  let* capacity :=
    ok_or (if burst limit * MINUTE_NANOS <=? u128_max then Some (burst limit * MINUTE_NANOS) else None) BurstTooLarge in
  Ok (MkLimiter (requests_per_minute limit) capacity (vec (MkBucket capacity now) principal_count)).

(** One bucket at instant [now]: refill, then take one token or report the wait. *)
Definition bucket_check (rpm cap : Z) (b : Bucket) (now : Z) : AdmissionDecision * Bucket :=
  let elapsed := if last b <=? now then now - last b else 0 in
  let refill := sat_mul128 elapsed rpm in
  let credit := Z.min (sat_add128 (credit b) refill) cap in
  if MINUTE_NANOS <=? credit then (Allow, MkBucket (credit - MINUTE_NANOS) now)
  else
    let missing := MINUTE_NANOS - credit in
    let wait_nanos := div_ceil missing rpm in
    let wait_secs := Z.max (div_ceil wait_nanos 1000000000) 1 in
    (Reject (if wait_secs <=? u64_max then wait_secs else u64_max), MkBucket credit now).

Definition check_at (self : PrincipalLimiter) (principal now : Z) : AdmissionDecision * PrincipalLimiter :=
  match buckets self !! Z.to_nat principal with
  | None => (Reject 60, self)
  | Some b =>
      let '(d, b') := bucket_check (lim_rpm self) (capacity self) b now in
      (d, MkLimiter (lim_rpm self) (capacity self) (<[Z.to_nat principal := b']> (buckets self)))
  end.

Definition visible_byte (byte : Z) : bool := (0x21 <=? byte) && (byte <=? 0x7e).

Definition list_eqb (a b : list Z) : bool := bool_decide (a = b).

Definition validate_token (tokens : list (list Z)) (index : Z) (token : list Z) (_ : unit) : res Invalid unit :=
  if (zlen token =? 0) || (4096 <? zlen token) then Err (TokenLength index) else
  if existsb (fun byte => negb (visible_byte byte)) token then Err (TokenBytes index) else
  let* prior := slice tokens 0 index in
  if existsb (fun p => list_eqb p token) prior then Err DuplicateToken else Ok tt.

Definition validate_tokens (tokens : list (list Z)) : res Invalid unit :=
  if MAX_BEARER_TOKENS <? zlen tokens then Err TooManyTokens else
  for_enum 0 tokens (validate_token tokens) tt.

Definition constant_time_eq (a b : list Z) : bool :=
  let n := Z.max (zlen a) (zlen b) in
  fold_left (fun diff i =>
    Z.lor diff (Z.lxor (default 0 (a !! Z.to_nat i)) (default 0 (b !! Z.to_nat i))))
    (seqZ 0 n) (Z.lxor (zlen a) (zlen b)) =? 0.

Section Hash.
  Context (hash : list Z -> list Z).

(** The token list [Admission::new] validates. *)
Definition merge_legacy (legacy_token : option (list Z)) (tokens : list (list Z)) : list (list Z) :=
  match legacy_token with
  | Some token => if existsb (fun c => list_eqb c token) tokens then tokens else tokens ++ [token]
  | None => tokens
  end.

(** [Admission::new]; [now] is the instant the limiter reads. *)
Definition admission_new (legacy_token : option (list Z)) (policy : AdmissionPolicy) (now : Z) : res Invalid Admission :=
  let tokens := merge_legacy legacy_token (bearer_tokens policy) in
  let* _ := validate_tokens tokens in
  let principal_count := Z.max (zlen tokens) 1 in
  let* limiter := match rate_limit policy with
    | Some limit => let* l := limiter_new limit principal_count now in Ok (Some l)
    | None => Ok None
    end in
  Ok (MkAdmission (hash <$> tokens) limiter).

(** [Admission::legacy]. *)
Definition admission_legacy (token : option (list Z)) : Admission :=
  MkAdmission (match token with Some t => [hash t] | None => [] end) None.

Definition authenticate (self : Admission) (presented : option (list Z)) : option Z :=
  match token_digests self with
  | [] => Some 0
  | digests =>
      match presented with
      | None => None
      | Some p =>
          if 4096 <? zlen p then None else
          snd (fold_left (fun '(index, matched) expected =>
            (index + 1, if constant_time_eq expected (hash p) then Some index else matched))
            digests (0, None))
      end
  end.

(** [Admission::admit] at instant [now]. *)
Definition admission_admit (self : Admission) (principal now : Z) : AdmissionDecision * Admission :=
  match limiter self with
  | None => (Allow, self)
  | Some l => let '(d, l') := check_at l principal now in (d, MkAdmission (token_digests self) (Some l'))
  end.
End Hash.

(** A sequence of [check_at] calls in the order the mutex is taken, as pairs of
    principal and instant, with the decisions. *)
Fixpoint run (l : PrincipalLimiter) (reqs : list (Z * Z)) : list (Z * AdmissionDecision) * PrincipalLimiter :=
  match reqs with
  | [] => ([], l)
  | (p, now) :: reqs =>
      let '(d, l1) := check_at l p now in
      let '(ds, l2) := run l1 reqs in ((p, d) :: ds, l2)
  end.

(** Requests of principal [p] that were allowed. *)
Fixpoint allowed (p : Z) (ds : list (Z * AdmissionDecision)) : Z :=
  match ds with
  | [] => 0
  | (q, Allow) :: ds => (if q =? p then 1 else 0) + allowed p ds
  | (_, Reject _) :: ds => allowed p ds
  end.

(** Instants in order, from [t0] to [t1], principals at [usize]. *)
Fixpoint ordered (t0 : Z) (reqs : list (Z * Z)) (t1 : Z) : Prop :=
  match reqs with
  | [] => t0 <= t1
  | (p, now) :: reqs => 0 <= p /\ t0 <= now /\ ordered now reqs t1
  end.

Lemma ordered_le t0 reqs t1 : ordered t0 reqs t1 -> t0 <= t1.
Proof.
  revert t0. induction reqs as [|[p now] reqs IH]; simpl; intros t0 H; [done|].
  destruct H as (_ & H1 & H2). specialize (IH _ H2). lia.
Qed.

(** * One bucket *)
Section Bucket.
  Context (rpm cap : Z) (Hrpm : 0 < rpm) (Hcap : MINUTE_NANOS <= cap <= u128_max).

Definition bucket_ok (b : Bucket) : Prop := 0 <= credit b <= cap.

(** The saturating arithmetic never changes the outcome. *)
Lemma refill_exact c e : 0 <= c -> 0 <= e ->
  Z.min (sat_add128 c (sat_mul128 e rpm)) cap = Z.min (c + e * rpm) cap.
Proof. intros Hc He. unfold sat_add128, sat_mul128. assert (0 <= e * rpm) by nia. lia. Qed.

Definition is_allow (d : AdmissionDecision) : bool := match d with Allow => true | Reject _ => false end.

Lemma bucket_check_spec b now : bucket_ok b -> last b <= now ->
  let c := Z.min (credit b + (now - last b) * rpm) cap in
  let '(d, b') := bucket_check rpm cap b now in
  last b' = now /\ bucket_ok b' /\ is_allow d = (MINUTE_NANOS <=? c) /\
  credit b' + (if is_allow d then MINUTE_NANOS else 0) = c.
Proof.
  intros [Hb1 Hb2] Hnow. unfold bucket_check. replace (last b <=? now) with true by lia. rewrite refill_exact by lia.
  set (c := Z.min _ cap). assert (Hc : 0 <= c <= cap) by (unfold c; nia). unfold bucket_ok.
  destruct (Z.leb_spec MINUTE_NANOS c); simpl; repeat split; try lia; unfold MINUTE_NANOS in *; lia.
Qed.

(** After the announced wait the bucket holds a token, and a second earlier not. *)
Lemma retry_wait b now s b' : bucket_ok b -> last b <= now -> bucket_check rpm cap b now = (Reject s, b') ->
  1 <= s /\ forall now', now <= now' ->
    (now + s * 1000000000 <= now' -> fst (bucket_check rpm cap b' now') = Allow) /\
    (now' <= now + (s - 1) * 1000000000 -> is_allow (fst (bucket_check rpm cap b' now')) = false).
Proof.
  intros Hb Hnow H. pose proof (bucket_check_spec b now Hb Hnow) as Hs. rewrite H in Hs. destruct Hs as (Hl & Hok & Ha & Hcr).
  simpl in Ha, Hcr. rewrite Z.add_0_r in Hcr. symmetry in Ha. apply Z.leb_gt in Ha. rewrite <- Hcr in Ha.
  assert (Hsv : s = Z.max (div_ceil (div_ceil (MINUTE_NANOS - credit b') rpm) 1000000000) 1).
  { unfold bucket_check in H. replace (last b <=? now) with true in H by lia. destruct Hb. rewrite refill_exact, <- Hcr in H by lia.
    replace (MINUTE_NANOS <=? credit b') with false in H by lia. injection H as Hs _.
    pose proof (div_ceil_bounds (MINUTE_NANOS - credit b') rpm Hrpm).
    assert (div_ceil (MINUTE_NANOS - credit b') rpm <= MINUTE_NANOS) by (destruct Hok; nia).
    pose proof (div_ceil_bounds (div_ceil (MINUTE_NANOS - credit b') rpm) 1000000000).
    rewrite <- Hs. destruct (Z.leb_spec (Z.max (div_ceil (div_ceil (MINUTE_NANOS - credit b') rpm) 1000000000) 1) u64_max); [done|].
    unfold u64_max, MINUTE_NANOS in *. lia. }
  pose proof (div_ceil_bounds (MINUTE_NANOS - credit b') rpm Hrpm) as Hd1. set (w := div_ceil (MINUTE_NANOS - credit b') rpm) in *.
  pose proof (div_ceil_bounds w 1000000000 ltac:(lia)) as Hd2. split; [lia|]. intros now' Hn'.
  pose proof (bucket_check_spec b' now' Hok ltac:(lia)) as Hs'. destruct (bucket_check rpm cap b' now') as [d b''].
  destruct Hs' as (_ & _ & Ha' & _). rewrite Hl in Ha'. split; intros Hw.
  - assert (Hge : MINUTE_NANOS <= credit b' + (now' - now) * rpm) by nia.
    replace (MINUTE_NANOS <=? _) with true in Ha' by lia. by destruct d.
  - simpl. rewrite Ha'. apply Z.leb_gt. apply Z.min_lt_iff. left.
    destruct (Z.eq_dec s 1) as [->|Hs1]; [replace now' with now by lia; lia|]. nia.
Qed.
End Bucket.

(** * The limiter *)
Record limiter_ok (l : PrincipalLimiter) : Prop := {
  lk_rpm : 0 < lim_rpm l;
  lk_cap : MINUTE_NANOS <= capacity l <= u128_max;
  lk_buckets : Forall (bucket_ok (capacity l)) (buckets l) }.

(** No bucket was refilled after [t]. *)
Definition refilled_by (t : Z) (l : PrincipalLimiter) : Prop := Forall (fun b => last b <= t) (buckets l).

Lemma limiter_new_Ok limit n now : is_u32 (requests_per_minute limit) -> is_u32 (burst limit) ->
  0 < requests_per_minute limit -> 0 < burst limit ->
  exists l, limiter_new limit n now = Ok l /\ limiter_ok l /\ refilled_by now l /\ zlen (buckets l) = Z.max 0 n /\
    lim_rpm l = requests_per_minute limit /\ capacity l = burst limit * MINUTE_NANOS.
Proof.
  unfold is_u32, limiter_new. intros Hr Hb Hr0 Hb0. replace (_ || _) with false by lia.
  replace (_ <=? u128_max) with true by (unfold MINUTE_NANOS, u128_max; lia). cbn [ok_or bind].
  eexists. split; [done|]. simpl. split; [split; simpl; [lia|unfold MINUTE_NANOS, u128_max; lia|]|].
  - apply Forall_replicate. unfold bucket_ok. simpl. unfold MINUTE_NANOS. lia.
  - split; [by apply Forall_replicate; simpl|]. by rewrite zlen_vec.
Qed.

Lemma check_at_other l p q now b : 0 <= p -> 0 <= q -> p <> q -> buckets l !! Z.to_nat p = Some b ->
  buckets (snd (check_at l q now)) !! Z.to_nat p = Some b.
Proof.
  intros Hp Hq Hne Hb. unfold check_at. destruct (buckets l !! Z.to_nat q); [|done]. destruct (bucket_check _ _ _ _).
  simpl. rewrite list_lookup_insert_ne by lia. done.
Qed.

Lemma check_at_ok l p t now : limiter_ok l -> refilled_by t l -> t <= now ->
  limiter_ok (snd (check_at l p now)) /\ refilled_by now (snd (check_at l p now)) /\
  lim_rpm (snd (check_at l p now)) = lim_rpm l /\ capacity (snd (check_at l p now)) = capacity l.
Proof.
  intros [Hr Hc Hb] Ht Hle. unfold check_at. assert (Ht' : refilled_by now l) by (eapply list.Forall_impl; [exact Ht|simpl; lia]).
  destruct (buckets l !! Z.to_nat p) as [b|] eqn:Hp; [|done].
  pose proof (Forall_lookup_1 _ _ _ _ Hb Hp) as Hbo. pose proof (Forall_lookup_1 _ _ _ _ Ht Hp) as Hlb. simpl in Hlb.
  pose proof (bucket_check_spec (lim_rpm l) (capacity l) Hr Hc b now Hbo ltac:(lia)) as Hs.
  destruct (bucket_check _ _ _ _) as [d b']. destruct Hs as (Hl & Hok & _). simpl. split; [split; simpl; try done|].
  - by apply Forall_insert.
  - split; [|done]. apply Forall_insert; [done|]. lia.
Qed.

Lemma run_ok l reqs t0 t1 : limiter_ok l -> refilled_by t0 l -> ordered t0 reqs t1 ->
  limiter_ok (snd (run l reqs)) /\ refilled_by t1 (snd (run l reqs)) /\
  lim_rpm (snd (run l reqs)) = lim_rpm l /\ capacity (snd (run l reqs)) = capacity l.
Proof.
  revert l t0. induction reqs as [|[p now] reqs IH]; intros l t0 Hl Ht H; simpl in *.
  - split; [done|]. split; [|done]. eapply list.Forall_impl; [exact Ht|simpl; lia].
  - destruct H as (Hp & Hn & Ho). destruct (check_at_ok l p t0 now Hl Ht Hn) as (H1 & H2 & H3 & H4).
    destruct (check_at l p now) as [d l1]. simpl in *. destruct (IH l1 now H1 H2 Ho) as (H5 & H6 & H7 & H8).
    destruct (run l1 reqs) as [ds l2]. simpl in *. repeat split; [apply H5..|done|congruence|congruence].
Qed.

Lemma check_at_self l p now b : 0 <= p -> buckets l !! Z.to_nat p = Some b ->
  fst (check_at l p now) = fst (bucket_check (lim_rpm l) (capacity l) b now) /\
  buckets (snd (check_at l p now)) !! Z.to_nat p = Some (snd (bucket_check (lim_rpm l) (capacity l) b now)).
Proof.
  intros Hp Hb. unfold check_at. rewrite Hb. destruct (bucket_check _ _ _ _) as [d b']. simpl. split; [done|].
  apply list_lookup_insert_eq. by eapply lookup_lt_Some.
Qed.

(** The credit a bucket holds and earns pays for every allowed request. *)
Lemma allowed_credit l reqs p b t0 t1 : limiter_ok l -> refilled_by t0 l -> 0 <= p ->
  buckets l !! Z.to_nat p = Some b -> ordered t0 reqs t1 ->
  MINUTE_NANOS * allowed p (fst (run l reqs)) <= credit b + lim_rpm l * (t1 - last b).
Proof.
  revert l b t0. induction reqs as [|[q now] reqs IH]; intros l b t0 Hl Ht Hp Hb H; simpl in *.
  - pose proof (Forall_lookup_1 _ _ _ _ (lk_buckets l Hl) Hb) as [Hc _].
    pose proof (Forall_lookup_1 _ _ _ _ Ht Hb) as Hlb. simpl in Hlb. pose proof (lk_rpm l Hl). nia.
  - destruct H as (Hq & Hn & Ho). destruct (check_at_ok l q t0 now Hl Ht Hn) as (H1 & H2 & H3 & H4).
    pose proof (ordered_le _ _ _ Ho) as Hle.
    destruct (Z.eq_dec q p) as [->|Hne].
    + pose proof (Forall_lookup_1 _ _ _ _ (lk_buckets l Hl) Hb) as Hbo.
      pose proof (Forall_lookup_1 _ _ _ _ Ht Hb) as Hlb. simpl in Hlb.
      pose proof (bucket_check_spec (lim_rpm l) (capacity l) (lk_rpm l Hl) (lk_cap l Hl) b now Hbo ltac:(lia)) as Hs.
      destruct (check_at_self l p now b Hp Hb) as [Hd Hb']. destruct (bucket_check _ _ _ _) as [d b'].
      destruct Hs as (Hl' & _ & _ & Hcr). destruct (check_at l p now) as [d1 l1]. simpl in *. subst d1.
      specialize (IH l1 b' now H1 H2 Hp Hb' Ho). destruct (run l1 reqs) as [ds l2]. simpl in *. rewrite H3, Hl' in IH.
      rewrite Z.eqb_refl. destruct d; simpl in *; lia.
    + pose proof (check_at_other l p q now b Hp Hq ltac:(lia) Hb) as Hb'. destruct (check_at l q now) as [d l1]. simpl in *.
      specialize (IH l1 b now H1 H2 Hp Hb' Ho). destruct (run l1 reqs) as [ds l2]. simpl in *. rewrite H3 in IH.
      replace (q =? p) with false by lia. by destruct d.
Qed.

(** A full bucket pays for the first request of a window. *)
Lemma allowed_window l reqs p b t0 t1 : limiter_ok l -> refilled_by t0 l -> 0 <= p ->
  buckets l !! Z.to_nat p = Some b -> ordered t0 reqs t1 ->
  MINUTE_NANOS * allowed p (fst (run l reqs)) <= capacity l + lim_rpm l * (t1 - t0).
Proof.
  revert l b t0. induction reqs as [|[q now] reqs IH]; intros l b t0 Hl Ht Hp Hb H; simpl in *.
  - pose proof (lk_rpm l Hl). pose proof (lk_cap l Hl). unfold MINUTE_NANOS in *. nia.
  - destruct H as (Hq & Hn & Ho). destruct (check_at_ok l q t0 now Hl Ht Hn) as (H1 & H2 & H3 & H4).
    pose proof (ordered_le _ _ _ Ho) as Hle. pose proof (lk_rpm l Hl) as Hr.
    destruct (Z.eq_dec q p) as [->|Hne].
    + pose proof (Forall_lookup_1 _ _ _ _ (lk_buckets l Hl) Hb) as Hbo.
      pose proof (Forall_lookup_1 _ _ _ _ Ht Hb) as Hlb. simpl in Hlb.
      pose proof (bucket_check_spec (lim_rpm l) (capacity l) (lk_rpm l Hl) (lk_cap l Hl) b now Hbo ltac:(lia)) as Hs.
      destruct (check_at_self l p now b Hp Hb) as [Hd Hb']. destruct (bucket_check _ _ _ _) as [d b'].
      destruct Hs as (Hl' & _ & _ & Hcr). destruct (check_at l p now) as [d1 l1]. simpl in *. subst d1.
      pose proof (allowed_credit l1 reqs p b' now t1 H1 H2 Hp Hb' Ho) as Hrest. destruct (run l1 reqs) as [ds l2]. simpl in *.
      rewrite H3, Hl' in Hrest. rewrite Z.eqb_refl. destruct d; simpl in *; nia.
    + pose proof (check_at_other l p q now b Hp Hq ltac:(lia) Hb) as Hb'. destruct (check_at l q now) as [d l1]. simpl in *.
      specialize (IH l1 b now H1 H2 Hp Hb' Ho). destruct (run l1 reqs) as [ds l2]. simpl in *. rewrite H3, H4 in IH.
      replace (q =? p) with false by lia. destruct d; nia.
Qed.

(** Requests of other principals leave the bucket of [p] alone. *)
Lemma run_other l reqs p b : 0 <= p -> Forall (fun r => 0 <= fst r /\ fst r <> p) reqs ->
  buckets l !! Z.to_nat p = Some b -> buckets (snd (run l reqs)) !! Z.to_nat p = Some b.
Proof.
  intros Hp. revert l. induction reqs as [|[q now] reqs IH]; intros l Hq Hb; [done|].
  apply list.Forall_cons in Hq as [[Hq0 Hq1] Hq]. simpl in *. pose proof (check_at_other l p q now b Hp Hq0 ltac:(lia) Hb) as Hb'.
  destruct (check_at l q now) as [d l1]. specialize (IH l1 Hq Hb'). by destruct (run l1 reqs).
Qed.

(** * Authentication *)

Lemma fold_lor_zero (f : Z -> Z) l : forall d,
  fold_left (fun d i => Z.lor d (f i)) l d = 0 <-> d = 0 /\ Forall (fun i => f i = 0) l.
Proof.
  induction l as [|i l IH]; intros d; simpl.
  - split; [intros ->; split; [done|constructor]|by intros [-> _]].
  - rewrite IH, Z.lor_eq_0_iff, list.Forall_cons. tauto.
Qed.

Lemma constant_time_eq_spec a b : constant_time_eq a b = true <-> a = b.
Proof.
  unfold constant_time_eq. rewrite Z.eqb_eq.
  rewrite (fold_lor_zero (fun i => Z.lxor (default 0 (a !! Z.to_nat i)) (default 0 (b !! Z.to_nat i)))).
  rewrite Z.lxor_eq_0_iff, Forall_seqZ. split.
  - intros [Hlen H]. apply list_eq_Z; [done|]. intros i Hi. specialize (H i ltac:(lia)). apply Z.lxor_eq in H.
    destruct (a !! Z.to_nat i) as [x|] eqn:Ha, (b !! Z.to_nat i) as [y|] eqn:Hb; simpl in H; subst; try done.
    + apply lookup_ge_None in Hb. unfold zlen in *. lia.
    + apply lookup_ge_None in Ha. unfold zlen in *. lia.
  - intros ->. split; [done|]. intros i _. apply Z.lxor_nilpotent.
Qed.

(** The scan returns the last index whose digest matches. *)
Lemma auth_scan_none (m : list Z -> bool) ds : forall i o, Forall (fun d => m d = false) ds ->
  snd (fold_left (fun '(index, matched) expected => (index + 1, if m expected then Some index else matched)) ds (i, o)) = o.
Proof. induction ds as [|d ds IH]; intros i o H; [done|]. apply list.Forall_cons in H as [H1 H2]. simpl. rewrite H1. by apply IH. Qed.

Lemma auth_scan (m : list Z -> bool) ds : forall i j d,
  ds !! j = Some d -> m d = true -> (forall k d', ds !! k = Some d' -> m d' = true -> k = j) ->
  forall o, snd (fold_left (fun '(index, matched) expected => (index + 1, if m expected then Some index else matched)) ds (i, o))
    = Some (i + Z.of_nat j).
Proof.
  induction ds as [|x ds IH]; intros i j d Hj Hm Huniq o; [done|]. destruct j as [|j]; simpl in *.
  - injection Hj as ->. rewrite Hm, auth_scan_none; [f_equal; lia|].
    apply Forall_lookup_2. intros k d' Hk. destruct (m d') eqn:E; [|done]. by specialize (Huniq (S k) d' Hk E).
  - rewrite (IH (i + 1) j d Hj Hm); [f_equal; lia|]. intros k d' Hk E. specialize (Huniq (S k) d' Hk E). lia.
Qed.

Definition token_ok (t : list Z) : Prop := 1 <= zlen t <= 4096 /\ Forall (fun b => 0x21 <= b <= 0x7e) t.
Definition tokens_ok (ts : list (list Z)) : Prop := zlen ts <= 32 /\ Forall token_ok ts /\ NoDup ts.

Lemma existsb_list_eqb (l : list (list Z)) t : existsb (fun p => list_eqb p t) l = true <-> t ∈ l.
Proof.
  rewrite existsb_exists. setoid_rewrite <- list_elem_of_In. unfold list_eqb. split.
  - intros (x & Hx & E). by apply bool_decide_eq_true in E as ->.
  - intros H. exists t. by rewrite bool_decide_eq_true.
Qed.

Lemma visible_bytes t : existsb (fun byte => negb (visible_byte byte)) t = false <-> Forall (fun b => 0x21 <= b <= 0x7e) t.
Proof.
  induction t as [|b t IH]; simpl; [split; [constructor|done]|]. rewrite orb_false_iff, IH, list.Forall_cons.
  unfold visible_byte. rewrite negb_false_iff, andb_true_iff, !Z.leb_le. done.
Qed.

Lemma validate_token_step ts i t : 0 <= i <= zlen ts ->
  returns (validate_token ts i t tt) /\
  (validate_token ts i t tt = Ok tt <-> token_ok t /\ t ∉ sub ts 0 i).
Proof.
  intros Hi. unfold validate_token, token_ok. pose proof (visible_bytes t) as Hv.
  destruct (Z.eqb_spec (zlen t) 0); [split; [done|]; split; [done|]; intros [[? ?] ?]; lia|].
  destruct (Z.ltb_spec 4096 (zlen t)); [split; [done|]; split; [done|]; intros [[? ?] ?]; lia|]. cbn [orb].
  destruct (existsb (fun byte => negb (visible_byte byte)) t);
    [split; [done|]; split; [done|]; intros [[? H']  ?]; by apply Hv in H'|].
  rewrite slice_Ok by lia. cbn [bind]. pose proof (existsb_list_eqb (sub ts 0 i) t) as He.
  destruct (existsb (fun p => list_eqb p t) (sub ts 0 i)); split; try done; split; try done.
  - intros [_ Hn]. by destruct Hn; apply He.
  - intros _. split; [|by intros H'%He]. split; [pose proof (zlen_nonneg t); lia|by apply Hv].
Qed.

Lemma NoDup_sub (ts : list (list Z)) : NoDup ts <-> forall i t, 0 <= i -> ts !! Z.to_nat i = Some t -> t ∉ sub ts 0 i.
Proof.
  rewrite NoDup_alt. split.
  - intros H i t Hi Ht Hin. unfold sub in Hin. rewrite drop_0 in Hin. apply list_elem_of_lookup in Hin as (j & Hj).
    apply lookup_take_Some in Hj as [Hj Hlt]. specialize (H _ _ _ Ht Hj). lia.
  - intros H. assert (Hlt : forall i j x, ts !! i = Some x -> ts !! j = Some x -> ~ (i < j)%nat).
    { intros i j x Hi Hj Hij. apply (H (Z.of_nat j) x); [lia|by rewrite Nat2Z.id|]. unfold sub. rewrite drop_0.
      apply list_elem_of_lookup. exists i. apply lookup_take_Some. split; [done|lia]. }
    intros i j x Hi Hj. pose proof (Hlt i j x Hi Hj). pose proof (Hlt j i x Hj Hi). lia.
Qed.

Lemma validate_tokens_spec ts :
  returns (validate_tokens ts) /\ (validate_tokens ts = Ok tt <-> tokens_ok ts).
Proof.
  unfold validate_tokens, tokens_ok, MAX_BEARER_TOKENS.
  destruct (Z.ltb_spec 32 (zlen ts)) as [Hl|Hl]; [split; [done|]; split; [done|]; lia|].
  assert (Hidx : forall i x, 0 <= i -> ts !! Z.to_nat (i - 0) = Some x -> 0 <= i <= zlen ts /\ ts !! Z.to_nat i = Some x).
  { intros i x Hi Hx. rewrite Z.sub_0_r in Hx. split; [|done]. apply lookup_lt_Some in Hx. unfold zlen. lia. }
  set (I := fun (i : Z) (_ : unit) => forall j x, 0 <= j < i -> ts !! Z.to_nat j = Some x -> token_ok x /\ x ∉ sub ts 0 j).
  split; [|split].
  - apply (for_enum_returns I); [intros j x Hj; lia|]. intros i x [] Hi Hx HI. apply Hidx in Hx as [Hi' Hx]; [|done].
    destruct (validate_token_step ts i x Hi') as [Hr Hs]. split; [done|]. intros [] H'. apply Hs in H'.
    intros j y Hj Hy. destruct (Z.eq_dec j i) as [->|]; [|by apply HI; [lia|]]. by simplify_eq.
  - intros H. apply (for_enum_Ok_inv I) in H as HI; [|intros j x Hj; lia|].
    + rewrite Z.add_0_l in HI. split; [lia|]. split.
      * apply Forall_lookup_2. intros k x Hk. apply (HI (Z.of_nat k) x); [apply lookup_lt_Some in Hk; unfold zlen; lia|by rewrite Nat2Z.id].
      * apply NoDup_sub. intros i t Hi Ht. apply HI; [apply lookup_lt_Some in Ht; unfold zlen; lia|done].
    + intros i x [] [] Hi Hx HI' H'. apply Hidx in Hx as [Hi' Hx]; [|done]. apply validate_token_step in H'; [|done].
      intros j y Hj Hy. destruct (Z.eq_dec j i) as [->|]; [|by apply HI'; [lia|]]. by simplify_eq.
  - intros (_ & Hok & Hnd). destruct (for_enum_inv (fun _ _ => True) (validate_token ts) ts 0 tt) as ([] & Hs & _); [done| |done].
    intros i x [] Hi Hx _. apply Hidx in Hx as [Hi' Hx]; [|done]. exists tt. split; [|done].
    apply validate_token_step; [done|]. split; [by eapply Forall_lookup_1|]. by eapply NoDup_sub.
Qed.

Section Auth.
  Context (hash : list Z -> list Z).

(** The digests of the tokens in [l] do not collide. *)
Definition collision_free (l : list (list Z)) : Prop := forall a b, a ∈ l -> b ∈ l -> hash a = hash b -> a = b.

Lemma authenticate_spec tokens lim x i : tokens <> [] -> tokens_ok tokens -> collision_free (x :: tokens) ->
  authenticate hash (MkAdmission (hash <$> tokens) lim) (Some x) = Some i <->
  0 <= i /\ tokens !! Z.to_nat i = Some x.
Proof.
  intros Hne (_ & Hok & Hnd) Hcf. unfold authenticate. cbn [token_digests].
  destruct (hash <$> tokens) as [|d0 ds0] eqn:Hds; [by apply fmap_nil_inv in Hds|]. rewrite <- Hds. clear d0 ds0 Hds.
  assert (Hmatch : forall k d, (hash <$> tokens) !! k = Some d -> constant_time_eq d (hash x) = true -> tokens !! k = Some x).
  { intros k d Hk E. apply constant_time_eq_spec in E as ->. apply list_lookup_fmap_Some in Hk as (y & Heq & Hy).
    rewrite Hy. f_equal. apply Hcf; [|apply list_elem_of_here|done]. apply list_elem_of_further. by eapply list_elem_of_lookup_2. }
  destruct (Z.ltb_spec 4096 (zlen x)) as [Hx|Hx].
  - split; [done|]. intros [_ Hi]. pose proof (Forall_lookup_1 _ _ _ _ Hok Hi) as [? _]. lia.
  - destruct (decide (x ∈ tokens)) as [Hin|Hin].
    + apply list_elem_of_lookup in Hin as (j & Hj).
      rewrite (auth_scan _ _ 0 j (hash x)); cycle 1.
      * by rewrite list_lookup_fmap, Hj.
      * by apply constant_time_eq_spec.
      * intros k d' Hk E. specialize (Hmatch k d' Hk E). by eapply NoDup_lookup.
      * rewrite Z.add_0_l. split; [intros [= <-]; split; [lia|by rewrite Nat2Z.id]|].
        intros [Hi0 Hi]. f_equal. pose proof (NoDup_lookup _ _ _ _ Hnd Hj Hi). lia.
    + rewrite auth_scan_none; [split; [done|]; intros [_ Hi]; destruct Hin; by eapply list_elem_of_lookup_2|].
      apply Forall_lookup_2. intros k d Hk. destruct (constant_time_eq d (hash x)) eqn:E; [|done].
      destruct Hin. eapply list_elem_of_lookup_2, Hmatch; eauto.
Qed.
End Auth.

(** * Properties *)

(** C22: however the requests of all principals interleave, as long as the limiter sees
    nondecreasing instants, the requests of one principal admitted in a window of
    [t1 - t0] nanoseconds number at most the burst plus the configured rate times
    the window; the saturating 128-bit arithmetic never matters. *)
Theorem admission_rate_bound limit n start l before window t0 t1 p :
  is_u32 (requests_per_minute limit) -> is_u32 (burst limit) -> 0 <= p < n ->
  limiter_new limit n start = Ok l ->
  ordered start before t0 -> ordered t0 window t1 ->
  MINUTE_NANOS * allowed p (fst (run (snd (run l before)) window)) <=
  MINUTE_NANOS * burst limit + requests_per_minute limit * (t1 - t0).
Proof.
  intros Hr Hb Hp Hn H1 H2.
  assert (Hpos : 0 < requests_per_minute limit /\ 0 < burst limit).
  { unfold limiter_new in Hn. unfold is_u32 in *. destruct (_ || _) eqn:E; [done|]. lia. }
  destruct (limiter_new_Ok limit n start Hr Hb (proj1 Hpos) (proj2 Hpos)) as (l' & Hl' & Hok & Href & Hlen & Hrpm & Hcap).
  rewrite Hn in Hl'. apply Ok_inj in Hl' as <-.
  destruct (run_ok l before start t0 Hok Href H1) as (Hok' & Href' & Hrpm' & Hcap').
  assert (Hex : is_Some (buckets (snd (run l before)) !! Z.to_nat p)).
  { apply lookup_lt_is_Some. replace (length (buckets (snd (run l before)))) with (length (buckets l)); [unfold zlen in Hlen; lia|].
    clear. revert l. induction before as [|[q now] before IH]; intros l; [done|]. simpl.
    assert (Hc : length (buckets (snd (check_at l q now))) = length (buckets l)).
    { unfold check_at. destruct (buckets l !! Z.to_nat q); [|done]. destruct (bucket_check _ _ _ _). simpl. by rewrite length_insert. }
    destruct (check_at l q now) as [d l1]. simpl in Hc. rewrite <- Hc, (IH l1). by destruct (run l1 before). }
  destruct Hex as [b Hbk]. pose proof (allowed_window _ window p b t0 t1 Hok' Href' (proj1 Hp) Hbk H2) as H.
  rewrite Hrpm', Hcap', Hrpm, Hcap in H. lia.
Qed.

Definition sample_rate : PrincipalRateLimit := MkRate 60 2.
Definition sample_limiter : PrincipalLimiter := MkLimiter 60 120000000000 [MkBucket 120000000000 0; MkBucket 120000000000 0].

Lemma admission_rate_bound_witness :
  allowed 0 (fst (run sample_limiter [(0, 0); (0, 0); (0, 0); (1, 5); (0, 1000000000)])) = 3 /\
  MINUTE_NANOS * allowed 0 (fst (run (snd (run sample_limiter [(0, 0)])) [(0, 0); (1, 5)])) <=
  MINUTE_NANOS * burst sample_rate + requests_per_minute sample_rate * (5 - 0).
Proof.
  split; [reflexivity|].
  apply (admission_rate_bound sample_rate 2 0 sample_limiter [(0, 0)] [(0, 0); (1, 5)] 0 5 0);
    [vm_compute; split; congruence|vm_compute; split; congruence|lia|reflexivity|simpl; lia|simpl; lia].
Defined.

(** C32: a rejected principal that waits the announced whole seconds is admitted,
    whatever other principals do meanwhile; asking again a second earlier is
    rejected, so the announced wait is exact to the second. *)
Theorem retry_after_exact l p t now b s l' others now' :
  limiter_ok l -> refilled_by t l -> t <= now <= now' -> 0 <= p -> buckets l !! Z.to_nat p = Some b ->
  check_at l p now = (Reject s, l') ->
  Forall (fun r => 0 <= fst r /\ fst r <> p) others -> ordered now others now' ->
  (now + s * 1000000000 <= now' -> fst (check_at (snd (run l' others)) p now') = Allow) /\
  (now' <= now + (s - 1) * 1000000000 -> fst (check_at (snd (run l' others)) p now') <> Allow).
Proof.
  intros Hl Ht Hnow Hp Hb Hc Ho Hord. destruct (check_at_self l p now b Hp Hb) as [Hd Hb'].
  destruct (check_at_ok l p t now Hl Ht ltac:(lia)) as (Hl1 & Ht1 & Hr1 & Hc1). rewrite Hc in *. simpl in *.
  pose proof (Forall_lookup_1 _ _ _ _ (lk_buckets l Hl) Hb) as Hbo.
  pose proof (Forall_lookup_1 _ _ _ _ Ht Hb) as Hlb. simpl in Hlb.
  destruct (bucket_check (lim_rpm l) (capacity l) b now) as [d b'] eqn:Hbc. simpl in Hd, Hb'. subst d.
  destruct (retry_wait (lim_rpm l) (capacity l) (lk_rpm l Hl) (lk_cap l Hl) b now s b' Hbo ltac:(lia) Hbc) as [_ Hw].
  pose proof (run_other l' others p b' Hp Ho Hb') as Hb''.
  destruct (run_ok l' others now now' Hl1 Ht1 Hord) as (_ & _ & Hr2 & Hc2).
  destruct (check_at_self (snd (run l' others)) p now' b' Hp Hb'') as [Hd' _].
  rewrite Hd', Hr2, Hc2, Hr1, Hc1. destruct (Hw now' ltac:(lia)) as [W1 W2]. split; [done|].
  intros H E. specialize (W2 H). by rewrite E in W2.
Qed.

Lemma sample_limiter_ok : limiter_ok sample_limiter /\ refilled_by 0 sample_limiter.
Proof.
  split; [split; [done|done|]|]; repeat constructor; simpl; lia || (unfold u128_max; lia).
Qed.

Definition drained : PrincipalLimiter := snd (run sample_limiter [(0, 0); (0, 0)]).

Lemma retry_after_exact_witness :
  exists l', check_at drained 0 0 = (Reject 1, l') /\
    fst (check_at (snd (run l' [(1, 10)])) 0 1000000000) = Allow.
Proof.
  exists (snd (check_at drained 0 0)). split; [reflexivity|].
  destruct (run_ok sample_limiter [(0, 0); (0, 0)] 0 0 (proj1 sample_limiter_ok) (proj2 sample_limiter_ok)
    ltac:(simpl; lia)) as (Hok & Href & _).
  apply (retry_after_exact drained 0 0 0 (MkBucket 0 0) 1 (snd (check_at drained 0 0)) [(1, 10)] 1000000000);
    [exact Hok|exact Href|lia|lia|reflexivity|reflexivity|repeat constructor; simpl; lia|simpl; lia|lia].
Defined.

(** A policy is accepted exactly when its tokens (the legacy token merged in) are
    at most 32 distinct visible-ASCII strings of 1 to 4096 bytes and its rate is
    positive, and is refused with an error otherwise. An accepted policy maps a
    presented value to the index of the equal token and to nothing else (BLAKE3 is
    assumed not to collide on the values compared), maps everyone to principal 0 when
    there are no tokens, and every index it returns has a bucket, so the fail-closed
    branch of the limiter is never taken. *)
Theorem admission_exact (hash : list Z -> list Z) legacy policy now :
  (forall limit, rate_limit policy = Some limit -> is_u32 (requests_per_minute limit) /\ is_u32 (burst limit)) ->
  let tokens := merge_legacy legacy (bearer_tokens policy) in
  returns (admission_new hash legacy policy now) /\
  ((exists adm, admission_new hash legacy policy now = Ok adm) <->
     tokens_ok tokens /\ forall limit, rate_limit policy = Some limit -> 0 < requests_per_minute limit /\ 0 < burst limit) /\
  forall adm, admission_new hash legacy policy now = Ok adm ->
    (tokens = [] -> forall presented, authenticate hash adm presented = Some 0) /\
    (tokens <> [] -> authenticate hash adm None = None /\
       forall x, collision_free hash (x :: tokens) -> forall i,
         authenticate hash adm (Some x) = Some i <-> 0 <= i /\ tokens !! Z.to_nat i = Some x) /\
    (forall l, limiter adm = Some l -> zlen (buckets l) = Z.max (zlen tokens) 1).
Proof.
  intros Hty tokens. destruct (validate_tokens_spec tokens) as [Hret Hval].
  assert (Hnew : admission_new hash legacy policy now =
    let* _ := validate_tokens tokens in
    let* lim := match rate_limit policy with
      | Some limit => let* l := limiter_new limit (Z.max (zlen tokens) 1) now in Ok (Some l)
      | None => Ok None end in
    Ok (MkAdmission (hash <$> tokens) lim)) by done.
  assert (Hlim : forall limit, rate_limit policy = Some limit ->
    (limiter_new limit (Z.max (zlen tokens) 1) now = Err ZeroRate /\ ~ (0 < requests_per_minute limit /\ 0 < burst limit)) \/
    (0 < requests_per_minute limit /\ 0 < burst limit /\ exists l, limiter_new limit (Z.max (zlen tokens) 1) now = Ok l /\
       zlen (buckets l) = Z.max (zlen tokens) 1)).
  { intros limit Hlm. destruct (Hty limit Hlm) as [Hr Hb]. unfold is_u32 in Hr, Hb.
    destruct (Z.eq_dec (requests_per_minute limit) 0) as [E|E]; [|destruct (Z.eq_dec (burst limit) 0) as [E'|E']].
    - left. unfold limiter_new. rewrite E. simpl. split; [done|lia].
    - left. unfold limiter_new. rewrite E', orb_true_r. split; [done|lia].
    - right. destruct (limiter_new_Ok limit (Z.max (zlen tokens) 1) now Hr Hb ltac:(lia) ltac:(lia)) as (l & Hl & _ & _ & Hz & _).
      split; [lia|]. split; [lia|]. exists l. split; [done|]. lia. }
  rewrite Hnew. clear Hnew. split; [|split].
  - apply returns_bind; [done|]. intros [] _. destruct (rate_limit policy) as [limit|]; [|done].
    destruct (Hlim limit eq_refl) as [[-> _]|(_ & _ & l & -> & _)]; done.
  - split.
    + intros [adm Ha]. bind_inv Ha. destruct v. apply Hval in Hv. split; [done|]. intros limit Hlm. rewrite Hlm in Ha.
      destruct (Hlim limit Hlm) as [[E _]|(? & ? & _)]; [by rewrite E in Ha|done].
    + intros [Hok Hpos]. apply Hval in Hok as ->. cbn [bind]. destruct (rate_limit policy) as [limit|]; [|by eexists].
      destruct (Hlim limit eq_refl) as [[_ E]|(_ & _ & l & -> & _)]; [by destruct E; apply Hpos|by eexists].
  - intros adm Ha. bind_inv Ha. destruct v. apply Hval in Hv. bind_inv Ha. apply Ok_inj in Ha as <-. split; [|split].
    + intros E presented. rewrite E. done.
    + intros Hne. split.
      * unfold authenticate. cbn [token_digests]. by destruct tokens.
      * intros x Hcf i. by apply authenticate_spec.
    + cbn [limiter]. intros l ->. destruct (rate_limit policy) as [limit|]; [|done]. bind_inv Hv0. apply Ok_inj in Hv0. injection Hv0 as ->.
      destruct (Hlim limit eq_refl) as [[E _]|(_ & _ & l' & E & Hz)]; rewrite E in Hv1; [done|]. by apply Ok_inj in Hv1 as <-.
Qed.

Definition sample_policy : AdmissionPolicy := MkPolicy [[97; 98]; [99]] (Some sample_rate).

Lemma admission_exact_witness :
  exists adm, admission_new id (Some [100]) sample_policy 0 = Ok adm /\ authenticate id adm (Some [100]) = Some 2.
Proof.
  destruct (admission_exact id (Some [100]) sample_policy 0) as (_ & _ & H).
  - intros limit [= <-]. split; vm_compute; split; congruence.
  - eexists. split; [reflexivity|]. eapply H; [reflexivity|done|..].
    + by intros a b _ _ E.
    + split; [lia|reflexivity].
Defined.

(** When a stale instant reaches the mutex after a newer one, the bucket's clock moves
    back and the interval is credited twice: with one request per second and a burst of
    one, three requests are admitted within one second. *)
Theorem stale_instant_overcredits :
  let l := MkLimiter 60 60000000000 [MkBucket 60000000000 0] in
  let reqs := [(0, 0); (0, 1000000000); (0, 0); (0, 1000000000)] in
  limiter_new (MkRate 60 1) 1 0 = Ok l /\ allowed 0 (fst (run l reqs)) = 3 /\
  MINUTE_NANOS * 1 + 60 * 1000000000 < MINUTE_NANOS * allowed 0 (fst (run l reqs)).
Proof. split; [reflexivity|]. split; reflexivity. Qed.
