(* ===== verification/Evidence.v ===== *)
(** * Evidence logs (crates/tritium-evidence/src/lib.rs)

    The recorder of a run, the verification of a log's per-span sequences, digest
    chains and span hierarchy, its JSON Lines form, the run root and the aggregation
    of claim verdicts. Strings are lists of UTF-8 bytes, a [BTreeMap] is a finite map
    iterated in key order. BLAKE3, the JCS canonicalizer and serde_json are parameters. *)

From Stdlib Require Import ZArith Lia Bool.
From stdpp Require Import base list numbers gmap sorting.
From S2P Require Import Prelude.

#[local] Open Scope Z_scope.

Abbreviation string := (list Z).

(** [tritium_schema::UnknownReason] and [Verdict]. *)
Inductive UnknownReason : Type :=
| NotEvaluated
| MissingEvidence
| MissingCapability
| AwaitingIndependentReview
| Other.
Inductive Verdict : Type := Pass | Fail | Unknown (reason : UnknownReason).

#[export] Instance UnknownReason_eq_dec : EqDecision UnknownReason.
Proof. solve_decision. Defined.
#[export] Instance Verdict_eq_dec : EqDecision Verdict.
Proof. solve_decision. Defined.

Record ClaimVerdict : Type := MkClaim {
  required : bool;
  requires_independent : bool;
  independently_cleared : bool;
  verdict : Verdict }.

(** The loop of [aggregate_required] over the required claims. *)
Fixpoint aggregate_loop (claims : list ClaimVerdict) : Verdict :=
  match claims with
  | [] => Pass
  | c :: claims =>
      if requires_independent c && negb (independently_cleared c) then Unknown AwaitingIndependentReview else
      match verdict c with
      | Unknown reason => Unknown reason
      | _ => aggregate_loop claims
      end
  end.

Definition aggregate_required (claims : list ClaimVerdict) : Verdict :=
  let needed := filter (fun c => required c = true) claims in
  if bool_decide (needed = []) then Unknown MissingEvidence else
  if existsb (fun c => bool_decide (verdict c = Fail)) needed then Fail else
  aggregate_loop needed.

Inductive EvidenceError : Type :=
| RootMismatch
| InvalidRunId
| InvalidSchemaId (schema : string)
| UnregisteredSchema (schema : string)
| DuplicateRegistration (schema : string)
| InvalidSpan
| InvalidParent (span : string)
| ParentMismatch (span : string)
| MissingParent (parent : string)
| ParentCycle (span : string)
| InvalidVersion
| UnsafeInteger
| NonMonotonicTime (span : string)
| Canonicalization
| Serialization
| EmptyLine (line : Z)
| InvalidJson (line : Z)
| NonCanonicalLine (line : Z)
| InvalidDigest
| InvalidSequence (span : string) (expected got : Z)
| SequenceOverflow
| DigestMismatch (span : string) (seq : Z)
| EmptyRun.

Definition MAX_SAFE_JSON_INTEGER : Z := 2 ^ 53 - 1.
Definition ZERO_DIGEST : list Z := vec 0 32.

(** "tritium.evidence.event.v1\0" and "tritium.evidence.run-root.v1\0". *)
Definition EVENT_DOMAIN : list Z :=
  [116; 114; 105; 116; 105; 117; 109; 46; 101; 118; 105; 100; 101; 110; 99; 101; 46; 101; 118; 101; 110; 116; 46; 118; 49; 0].
Definition ROOT_DOMAIN : list Z :=
  [116; 114; 105; 116; 105; 117; 109; 46; 101; 118; 105; 100; 101; 110; 99; 101; 46; 114; 117; 110; 45; 114; 111; 111; 116; 46; 118; 49; 0].

(** [str::split] on one ASCII byte. *)
Fixpoint split_on (sep : Z) (s : string) : list string :=
  match s with
  | [] => [[]]
  | c :: s =>
      if c =? sep then [] :: split_on sep s
      else match split_on sep s with
           | part :: rest => (c :: part) :: rest
           | [] => [[c]]
           end
  end.

Definition is_ascii_alphanumeric (b : Z) : bool :=
  ((48 <=? b) && (b <=? 57)) || ((65 <=? b) && (b <=? 90)) || ((97 <=? b) && (b <=? 122)).

(** "tritium." *)
Definition SCHEMA_PREFIX : string := [116; 114; 105; 116; 105; 117; 109; 46].

Definition validate_schema_id (schema : string) : res EvidenceError unit :=
  let valid := bool_decide (take 8 schema = SCHEMA_PREFIX)
    && (3 <=? zlen (split_on 46 schema))
    && forallb (fun part => negb (bool_decide (part = [])) &&
         forallb (fun byte => is_ascii_alphanumeric byte || (byte =? 95) || (byte =? 45)) part) (split_on 46 schema) in
  if valid then Ok tt else Err (InvalidSchemaId schema).

(** "0123456789abcdef" *)
Definition HEX : list Z := [48; 49; 50; 51; 52; 53; 54; 55; 56; 57; 97; 98; 99; 100; 101; 102].

Definition hex_byte {E} (byte : Z) : res E (list Z) :=
  let* high := idx HEX (Z.shiftr byte 4) in
  let* low := idx HEX (Z.land byte 0x0f) in
  Ok [high; low].

Definition encode_hex {E} (bytes : list Z) : res E string :=
  for_each bytes (fun byte out => let* h := hex_byte byte in Ok (out ++ h)) [].

Definition hex_nibble (byte : Z) : option Z :=
  if (48 <=? byte) && (byte <=? 57) then Some (byte - 48) else
  if (97 <=? byte) && (byte <=? 102) then Some (byte - 97 + 10) else None.

(** The body of the chunk loop, on the chunks of two bytes in order. *)
Fixpoint decode_pairs (value : string) : res EvidenceError (list Z) :=
  match value with
  | [] => Ok []
  | a :: b :: rest =>
      let* high := ok_or (hex_nibble a) InvalidDigest in
      let* low := ok_or (hex_nibble b) InvalidDigest in
      let* out := decode_pairs rest in
      Ok (Z.lor (Z.shiftl high 4) low :: out)
  | [_] => Err InvalidDigest
  end.

Definition decode_hex (value : string) : res EvidenceError (list Z) :=
  if negb (zlen value =? 64) ||
     negb (forallb (fun byte => ((48 <=? byte) && (byte <=? 57)) || ((97 <=? byte) && (byte <=? 102))) value)
  then Err InvalidDigest else decode_pairs value.

(** Iteration of a [BTreeMap] with string keys, in byte-lexicographic order. *)
Fixpoint str_le (a b : string) : bool :=
  match a, b with
  | [], _ => true
  | _ :: _, [] => false
  | x :: a, y :: b => (x <? y) || ((x =? y) && str_le a b)
  end.
Definition key_le {A} (x y : string * A) : Prop := str_le (fst x) (fst y) = true.
#[export] Instance key_le_dec {A} : RelDecision (@key_le A).
Proof. intros x y. unfold key_le. apply _. Defined.
Definition btree_iter {A} (m : gmap string A) : list (string * A) := merge_sort key_le (map_to_list m).

(** [str::lines]: split at line feeds, without a final empty line, each line without a
    trailing carriage return. *)
Definition strip_cr (line : string) : string :=
  match reverse line with 13 :: rest => reverse rest | _ => line end.
Definition lines (s : string) : list string :=
  let parts := split_on 10 s in
  strip_cr <$> match reverse parts with [] :: rest => reverse rest | _ => parts end.

(** [line.trim().is_empty()]: the line consists of Unicode white space. *)
Fixpoint is_blank (s : string) : bool :=
  match s with
  | [] => true
  | a :: s1 =>
      if ((9 <=? a) && (a <=? 13)) || (a =? 32) then is_blank s1 else
      match s1 with
      | [] => false
      | b :: s2 =>
          if (a =? 0xc2) && ((b =? 0x85) || (b =? 0xa0)) then is_blank s2 else
          match s2 with
          | [] => false
          | c :: s3 =>
              if ((a =? 0xe1) && (b =? 0x9a) && (c =? 0x80))
                 || ((a =? 0xe2) && (b =? 0x80) && (((0x80 <=? c) && (c <=? 0x8a)) || (c =? 0xa8) || (c =? 0xa9) || (c =? 0xaf)))
                 || ((a =? 0xe2) && (b =? 0x81) && (c =? 0x9f))
                 || ((a =? 0xe3) && (b =? 0x80) && (c =? 0x80))
              then is_blank s3 else false
          end
      end
  end.

(** [EventRegistration]. *)
Record EventRegistration : Type := MkRegistration { reg_schema : string; reg_version : Z }.

(** The registry loop of [EvidenceRecorder::new] and [verify_jsonl_with_registry]. *)
Definition register (r : EventRegistration) (schemas : gmap string Z) : res EvidenceError (gmap string Z) :=
  let* _ := validate_schema_id (reg_schema r) in
  if reg_version r =? 0 then Err InvalidVersion else
  match schemas !! reg_schema r with
  | Some _ => Err (DuplicateRegistration (reg_schema r))
  | None => Ok (<[reg_schema r := reg_version r]> schemas)
  end.

(** The ancestor walk of [verify_events] for one span; one unit of fuel per visit. *)
Fixpoint ancestor_walk (fuel : nat) (span_parent : gmap string (option string)) (span : string)
    (ancestor : option string) : res EvidenceError unit :=
  match fuel with
  | O => NoFuel
  | S fuel =>
      match ancestor with
      | None => Ok tt
      | Some current =>
          if bool_decide (current = span) then Err (ParentCycle span)
          else ancestor_walk fuel span_parent span (default None (span_parent !! current))
      end
  end.

Definition check_span (fuel : nat) (span_parent : gmap string (option string))
    (entry : string * option string) (_ : unit) : res EvidenceError unit :=
  match snd entry with
  | None => Ok tt
  | Some parent =>
      if negb (bool_decide (is_Some (span_parent !! parent))) then Err (MissingParent parent) else
      ancestor_walk fuel span_parent (fst entry) (Some parent)
  end.

(** The hierarchy check at the end of [verify_events]. *)
Definition check_hierarchy (fuel : nat) (span_parent : gmap string (option string)) : res EvidenceError unit :=
  for_each (btree_iter span_parent) (check_span fuel span_parent) tt.

Section Log.
  Context {Number : Type} (as_u64 as_i64 : Number -> option Z).

(** [serde_json::Value]. *)
Inductive Value : Type :=
| Null
| VBool (b : bool)
| VNumber (n : Number)
| VString (s : string)
| VArray (values : list Value)
| VObject (values : list (string * Value)).

Definition safe_number (n : Number) : bool :=
  negb (match as_u64 n with Some i => MAX_SAFE_JSON_INTEGER <? i | None => false end
     || match as_i64 n with Some i => MAX_SAFE_JSON_INTEGER <? Z.abs i | None => false end).

Fixpoint safe_value (v : Value) : bool :=
  match v with
  | VNumber n => safe_number n
  | VArray values => forallb safe_value values
  | VObject values => forallb (fun kv => safe_value (snd kv)) values
  | Null | VBool _ | VString _ => true
  end.

Definition validate_json_numbers (v : Value) : res EvidenceError unit :=
  if safe_value v then Ok tt else Err UnsafeInteger.

(** [DigestBody], and the envelope: a body with its digest in hexadecimal. *)
Record DigestBody : Type := MkBody {
  schema : string;
  v : Z;
  run : string;
  seq : Z;
  span : string;
  parent : option string;
  t : Z;
  payload : Value }.
Record EvidenceEnvelope : Type := MkEnvelope { body : DigestBody; digest : string }.

  Context (canonical : DigestBody -> option (list Z)) (hash : list Z -> list Z).

Definition event_digest (previous : list Z) (b : DigestBody) : res EvidenceError (list Z) :=
  let* c := ok_or (canonical b) Canonicalization in
  Ok (hash (EVENT_DOMAIN ++ previous ++ c)).

Definition root_digest (spans : gmap string (list Z)) : res EvidenceError string :=
  if bool_decide (spans = ∅) then Err EmptyRun else
  encode_hex (hash (ROOT_DOMAIN ++
    concat ((fun sd => to_le 8 (zlen (fst sd)) ++ fst sd ++ snd sd) <$> btree_iter spans))).

Record EvidenceRecorder : Type := MkRecorder {
  rec_run : string;
  registered : gmap string Z;
  next_seq : gmap string Z;
  last_digest : gmap string (list Z);
  last_time : gmap string Z;
  span_parent : gmap string (option string);
  events : list EvidenceEnvelope }.

Definition recorder_new (run : string) (regs : list EventRegistration) : res EvidenceError EvidenceRecorder :=
  if bool_decide (run = []) then Err InvalidRunId else
  let* schemas := for_each regs register ∅ in
  Ok (MkRecorder run schemas ∅ ∅ ∅ ∅ []).

(** A typed event: its schema id and version, and the outcome of [serde_json::to_value]. *)
Record Event : Type := MkEvent { SCHEMA_ID : string; VERSION : Z; to_value : option Value }.

Definition check_emit (self : EvidenceRecorder) (e : Event) (span : string) (parent : option string) (time : Z)
  : res EvidenceError unit :=
  if negb (bool_decide (registered self !! SCHEMA_ID e = Some (VERSION e))) then Err (UnregisteredSchema (SCHEMA_ID e)) else
  if bool_decide (span = []) || bool_decide (parent = Some []) then Err InvalidSpan else
  if bool_decide (parent = Some span) then Err (InvalidParent span) else
  if match span_parent self !! span with Some p => negb (bool_decide (p = parent)) | None => false end
  then Err (ParentMismatch span) else
  if VERSION e =? 0 then Err InvalidVersion else
  if MAX_SAFE_JSON_INTEGER <? time then Err UnsafeInteger else
  if match last_time self !! span with Some previous => time <? previous | None => false end
  then Err (NonMonotonicTime span) else
  let seq := default 0 (next_seq self !! span) in
  if MAX_SAFE_JSON_INTEGER <? seq then Err UnsafeInteger else
  let* _ := ok_or (checked_add seq 1) SequenceOverflow in
  Ok tt.

Definition emit (self : EvidenceRecorder) (e : Event) (span : string) (parent : option string) (time : Z)
  : res EvidenceError EvidenceRecorder :=
  let* _ := check_emit self e span parent time in
  let* payload := ok_or (to_value e) Serialization in
  let* _ := validate_json_numbers payload in
  let seq := default 0 (next_seq self !! span) in
  let* following := ok_or (checked_add seq 1) SequenceOverflow in
  let b := MkBody (SCHEMA_ID e) (VERSION e) (rec_run self) seq span parent time payload in
  let previous := default ZERO_DIGEST (last_digest self !! span) in
  let* d := event_digest previous b in
  let* hex := encode_hex d in
  Ok (MkRecorder (rec_run self) (registered self)
    (<[span := following]> (next_seq self))
    (<[span := d]> (last_digest self))
    (<[span := time]> (last_time self))
    (match span_parent self !! span with Some _ => span_parent self | None => <[span := parent]> (span_parent self) end)
    (events self ++ [MkEnvelope b hex])).

(** The maps [verify_events] keeps. *)
Record VState : Type := MkVState {
  vs_seq : gmap string Z;
  vs_digest : gmap string (list Z);
  vs_time : gmap string Z;
  vs_parent : gmap string (option string);
  vs_run : option string }.

(** One event of [verify_events]. *)
Definition verify_event (event : EvidenceEnvelope) (s : VState) : res EvidenceError VState :=
  let b := body event in
  let* _ := validate_schema_id (schema b) in
  if v b =? 0 then Err InvalidVersion else
  if MAX_SAFE_JSON_INTEGER <? seq b then Err UnsafeInteger else
  if MAX_SAFE_JSON_INTEGER <? t b then Err UnsafeInteger else
  if match vs_time s !! span b with Some previous => t b <? previous | None => false end
  then Err (NonMonotonicTime (span b)) else
  let* _ := validate_json_numbers (payload b) in
  if bool_decide (span b = []) || bool_decide (parent b = Some []) then Err InvalidSpan else
  if bool_decide (parent b = Some (span b)) then Err (InvalidParent (span b)) else
  let* parents := match vs_parent s !! span b with
    | Some previous => if bool_decide (previous = parent b) then Ok (vs_parent s) else Err (ParentMismatch (span b))
    | None => Ok (<[span b := parent b]> (vs_parent s))
    end in
  let* run := match vs_run s with
    | Some expected => if bool_decide (expected = run b) then Ok (Some expected) else Err InvalidRunId
    | None => if bool_decide (run b = []) then Err InvalidRunId else Ok (Some (run b))
    end in
  let expected := default 0 (vs_seq s !! span b) in
  if negb (seq b =? expected) then Err (InvalidSequence (span b) expected (seq b)) else
  let previous := default ZERO_DIGEST (vs_digest s !! span b) in
  let* d := event_digest previous b in
  let* hex := encode_hex d in
  if negb (bool_decide (digest event = hex)) then Err (DigestMismatch (span b) (seq b)) else
  let* following := ok_or (checked_add expected 1) SequenceOverflow in
  Ok (MkVState (<[span b := following]> (vs_seq s)) (<[span b := d]> (vs_digest s))
    (<[span b := t b]> (vs_time s)) parents run).

Definition vs_init : VState := MkVState ∅ ∅ ∅ ∅ None.

Definition verify_events (fuel : nat) (evs : list EvidenceEnvelope) : res EvidenceError unit :=
  let* s := for_each evs verify_event vs_init in
  if bool_decide (zlen evs = 0) then Err EmptyRun else
  check_hierarchy fuel (vs_parent s).

Definition final_digests (evs : list EvidenceEnvelope) : res EvidenceError (gmap string (list Z)) :=
  for_each evs (fun event roots =>
    let* d := decode_hex (digest event) in Ok (<[span (body event) := d]> roots)) ∅.

Record VerifiedLog : Type := MkLog { log_events : list EvidenceEnvelope; log_root : string }.

Definition recorder_root (fuel : nat) (self : EvidenceRecorder) : res EvidenceError string :=
  let* _ := verify_events fuel (events self) in root_digest (last_digest self).

Definition verify_log (fuel : nat) (log : VerifiedLog) : res EvidenceError unit :=
  let* _ := verify_events fuel (log_events log) in
  let* spans := final_digests (log_events log) in
  let* root := root_digest spans in
  if negb (bool_decide (root = log_root log)) then Err RootMismatch else Ok tt.

  Context (print : EvidenceEnvelope -> option string) (parse : string -> option EvidenceEnvelope).

(** [EvidenceRecorder::to_jsonl]; [print] is the JCS canonicalizer's [to_string]. *)
Definition to_jsonl (self : EvidenceRecorder) : res EvidenceError string :=
  for_each (events self) (fun event out =>
    let* line := ok_or (print event) Canonicalization in Ok (out ++ line ++ [10])) [].

(** [verify_jsonl]; [parse] is [serde_json::from_str]. *)
Definition verify_line (line_index : Z) (line : string) (evs : list EvidenceEnvelope)
  : res EvidenceError (list EvidenceEnvelope) :=
  if is_blank line then Err (EmptyLine (line_index + 1)) else
  let* event := ok_or (parse line) (InvalidJson (line_index + 1)) in
  let* canonical := ok_or (print event) Canonicalization in
  if negb (bool_decide (canonical = line)) then Err (NonCanonicalLine (line_index + 1)) else
  Ok (evs ++ [event]).

Definition verify_jsonl (fuel : nat) (input : string) : res EvidenceError VerifiedLog :=
  let* evs := for_enum 0 (lines input) verify_line [] in
  let* _ := verify_events fuel evs in
  let* spans := final_digests evs in
  let* root := root_digest spans in
  Ok (MkLog evs root).

Definition check_registered (registry : gmap string Z) (event : EvidenceEnvelope) (_ : unit) : res EvidenceError unit :=
  if bool_decide (registry !! schema (body event) = Some (v (body event))) then Ok tt
  else Err (UnregisteredSchema (schema (body event))).

Definition verify_jsonl_with_registry (fuel : nat) (input : string) (regs : list EventRegistration)
  : res EvidenceError VerifiedLog :=
  let* registry := for_each regs register ∅ in
  let* verified := verify_jsonl fuel input in
  let* _ := for_each (log_events verified) (check_registered registry) tt in
  Ok verified.

Record SealedEvidence : Type := MkSealed {
  sealed_run : string;
  sealed_jsonl : string;
  sealed_log : VerifiedLog;
  sealed_root : list Z }.

Definition seal (fuel : nat) (self : EvidenceRecorder) : res EvidenceError SealedEvidence :=
  let* jsonl := to_jsonl self in
  let* log := verify_jsonl fuel jsonl in
  let* _ := for_each (log_events log) (check_registered (registered self)) tt in
  let* root := decode_hex (log_root log) in
  Ok (MkSealed (rec_run self) jsonl log root).
End Log.
Arguments Value : clear implicits.
Arguments DigestBody : clear implicits.
Arguments EvidenceEnvelope : clear implicits.
