(* ===== verification/EvidenceLog.v ===== *)
(** * Evidence logs replay (crates/tritium-evidence/src/lib.rs, theorems)

    What a recorder emits verifies with the recorder's own root as far as its payloads
    survive their JSON text, the root does not depend on how spans interleave, the hierarchy check accepts exactly the rooted
    forests, and an aggregate passes only on cleared, passing evidence. *)

From Stdlib Require Import ZArith Lia Bool.
From stdpp Require Import base list numbers gmap sorting.
From S2P Require Import Prelude Evidence.

#[local] Open Scope Z_scope.

(** * Hexadecimal digests *)

Definition hex_pair (byte : Z) : list Z :=
  match hex_byte (E := EvidenceError) byte with Ok p => p | _ => [] end.
Definition hex_of (bytes : list Z) : string := concat (hex_pair <$> bytes).

Definition is_hex (byte : Z) : bool := ((48 <=? byte) && (byte <=? 57)) || ((97 <=? byte) && (byte <=? 102)).

(** The 256 bytes, checked one by one. *)
Definition hex_ok (b : Z) : bool :=
  match hex_byte (E := EvidenceError) b with
  | Ok [h; l] => is_hex h && is_hex l &&
      match hex_nibble h, hex_nibble l with
      | Some x, Some y => Z.lor (Z.shiftl x 4) y =? b
      | _, _ => false
      end
  | _ => false
  end.

Lemma hex_table : forallb hex_ok (seqZ 0 256) = true.
Proof. by vm_compute. Qed.

Lemma hex_byte_spec {E} b : is_u8 b -> exists h l x y, hex_byte (E := E) b = Ok [h; l] /\ hex_pair b = [h; l] /\
  is_hex h = true /\ is_hex l = true /\ hex_nibble h = Some x /\ hex_nibble l = Some y /\ Z.lor (Z.shiftl x 4) y = b.
Proof.
  intros Hb. pose proof hex_table as H. rewrite forallb_seqZ in H. specialize (H b ltac:(unfold is_u8 in Hb; lia)).
  unfold hex_ok, hex_pair in *. unfold hex_byte in *.
  destruct (idx HEX (Z.shiftr b 4)) as [h| | |] eqn:E1; try done. cbn [bind] in *.
  destruct (idx HEX (Z.land b 15)) as [l| | |] eqn:E2; try done. cbn [bind] in *.
  destruct (hex_nibble h) as [x|] eqn:E3; [|by rewrite andb_false_r in H].
  destruct (hex_nibble l) as [y|] eqn:E4; [|by rewrite andb_false_r in H].
  apply andb_true_iff in H as [[H1 H2]%andb_true_iff H3]. apply Z.eqb_eq in H3.
  exists h, l, x, y. unfold idx in *. split; [|done].
  destruct (0 <=? Z.shiftr b 4); [|done]. destruct (HEX !! Z.to_nat (Z.shiftr b 4)); [|done].
  destruct (0 <=? Z.land b 15); [|done]. destruct (HEX !! Z.to_nat (Z.land b 15)); [|done].
  apply Ok_inj in E1 as ->, E2 as ->. done.
Qed.

Lemma encode_hex_Ok {E} d : bytes_ok d -> encode_hex (E := E) d = Ok (hex_of d).
Proof.
  intros Hd. unfold encode_hex.
  destruct (for_each_inv (fun pre out => out = hex_of pre)
    (fun byte out => let* h := hex_byte (E := E) byte in Ok (out ++ h)) d []) as (s & Hs & ->); [done| |done].
  intros pre x post s -> ->. apply Forall_app in Hd as [_ Hd]. apply list.Forall_cons in Hd as [Hx _].
  destruct (@hex_byte_spec E x Hx) as (h & l & ? & ? & -> & Hp & _). cbn [bind]. eexists. split; [done|].
  unfold hex_of. rewrite fmap_app, concat_app. simpl. by rewrite Hp.
Qed.

Lemma decode_pairs_hex d : bytes_ok d -> decode_pairs (hex_of d) = Ok d.
Proof.
  induction 1 as [|b d Hb Hd IH]; [done|]. unfold hex_of. rewrite fmap_cons. simpl.
  destruct (@hex_byte_spec EvidenceError b Hb) as (h & l & x & y & _ & -> & _ & _ & Hx & Hy & <-). simpl.
  rewrite Hx, Hy. cbn [ok_or bind]. fold (hex_of d). rewrite IH. done.
Qed.

Lemma hex_of_chars d : bytes_ok d -> zlen (hex_of d) = 2 * zlen d /\ forallb is_hex (hex_of d) = true.
Proof.
  induction 1 as [|b d Hb Hd [IH1 IH2]]; [done|]. unfold hex_of in *. rewrite fmap_cons. simpl.
  destruct (@hex_byte_spec EvidenceError b Hb) as (h & l & x & y & _ & -> & Hh & Hl & _). simpl. rewrite Hh, Hl, !zlen_cons.
  simpl. split; [lia|done].
Qed.

(** A digest of 32 bytes survives its textual form. *)
Definition digest_ok (d : list Z) : Prop := zlen d = 32 /\ bytes_ok d.

Lemma decode_encode_hex d : digest_ok d -> decode_hex (hex_of d) = Ok d.
Proof.
  intros [Hl Hb]. destruct (hex_of_chars d Hb) as [H1 H2]. unfold decode_hex.
  replace (zlen (hex_of d) =? 64) with true by lia. unfold is_hex in H2. rewrite H2. simpl. by apply decode_pairs_hex.
Qed.

(** * The span hierarchy *)

Definition closed (m : gmap string (option string)) : Prop :=
  forall s p, m !! s = Some (Some p) -> is_Some (m !! p).
Definition acyclic (m : gmap string (option string)) : Prop :=
  exists rank : string -> nat, forall s p, m !! s = Some (Some p) -> (rank p < rank s)%nat.

Section Walk.
  Context (m : gmap string (option string)) (rank : string -> nat).
  Context (Hrank : forall s p, m !! s = Some (Some p) -> (rank p < rank s)%nat).

(** Spans ranked below [c]. *)
Definition below (c : string) : gset string := filter (fun s => (rank s < rank c)%nat) (dom m).

Lemma below_parent c p : m !! c = Some (Some p) -> is_Some (m !! p) -> (size (below p) < size (below c))%nat.
Proof.
  intros H [o Ho]. apply subset_size. pose proof (Hrank c p H) as Hr. unfold below. split.
  - intros s [Hs Hd]%elem_of_filter. apply elem_of_filter. split; [lia|done].
  - intros Hsub. assert (Hp : p ∈ filter (fun s => (rank s < rank c)%nat) (dom m)).
    { apply elem_of_filter. split; [done|]. by apply elem_of_dom. }
    apply Hsub, elem_of_filter in Hp as [Hp _]. lia.
Qed.

Lemma walk_Ok span fuel : forall c, (rank c < rank span)%nat -> (size (below c) + 3 <= fuel)%nat ->
  ancestor_walk fuel m span (Some c) = Ok tt.
Proof.
  induction fuel as [|fuel IH]; intros c Hc Hf; [lia|]. cbn [ancestor_walk].
  rewrite bool_decide_eq_false_2 by (intros ->; lia).
  destruct (m !! c) as [[p|]|] eqn:Hm; simpl; [|by destruct fuel; [lia|]..].
  pose proof (Hrank c p Hm). destruct (m !! p) as [o|] eqn:Hp.
  - pose proof (below_parent c p Hm (mk_is_Some _ _ Hp)). apply IH; lia.
  - destruct fuel as [|[|fuel]]; [lia|lia|]. cbn [ancestor_walk]. rewrite bool_decide_eq_false_2 by (intros ->; lia). by rewrite Hp.
Qed.
End Walk.

Lemma elem_of_btree_iter {A} (m : gmap string A) s x : (s, x) ∈ btree_iter m <-> m !! s = Some x.
Proof. unfold btree_iter. by rewrite merge_sort_Permutation, elem_of_map_to_list. Qed.

(** Without cycles every span is settled, with fuel for every span and three more. *)
Lemma check_span_acyclic m fuel s o : acyclic m -> (size m + 3 <= fuel)%nat -> m !! s = Some o ->
  check_span fuel m (s, o) tt =
  match o with
  | Some p => if bool_decide (is_Some (m !! p)) then Ok tt else Err (MissingParent p)
  | None => Ok tt
  end.
Proof.
  intros [rank Hr] Hf Hm. unfold check_span. simpl. destruct o as [p|]; [|done].
  destruct (bool_decide_reflect (is_Some (m !! p))) as [Hp|]; [|done]. cbn [negb].
  apply (walk_Ok m rank); [done|by apply Hr|].
  assert (size (below m rank p) <= size (dom m))%nat by (apply subseteq_size; unfold below; set_solver).
  rewrite size_dom in *. lia.
Qed.

Lemma hierarchy_acyclic m fuel : acyclic m -> (size m + 3 <= fuel)%nat ->
  returns (check_hierarchy fuel m) /\ (closed m -> check_hierarchy fuel m = Ok tt).
Proof.
  intros Ha Hf. unfold check_hierarchy.
  assert (Hin : forall s o, (s, o) ∈ btree_iter m -> m !! s = Some o) by (intros; by apply elem_of_btree_iter).
  revert Hin. generalize (btree_iter m). intros l.
  induction l as [|[s o] l IH]; intros Hin; [done|]. destruct IH as [IH1 IH2].
  - intros s' o' H'. apply Hin. by apply list_elem_of_further.
  - assert (Hm : m !! s = Some o) by apply Hin, list_elem_of_here. cbn [for_each]. rewrite (check_span_acyclic m fuel s o Ha Hf Hm).
    destruct o as [p|]; [|done]. split.
    + destruct (bool_decide _); [|done]. by apply IH1.
    + intros Hc. rewrite bool_decide_eq_true_2 by by eapply Hc. by apply IH2.
Qed.

(** The parent of a span, repeatedly. *)
Fixpoint height (fuel : nat) (m : gmap string (option string)) (o : option string) : nat :=
  match fuel, o with
  | S fuel, Some c => S (height fuel m (default None (m !! c)))
  | _, _ => 0
  end.

Lemma walk_height m span fuel : forall o, ancestor_walk fuel m span o = Ok tt ->
  forall extra, height (fuel + extra) m o = height fuel m o.
Proof.
  induction fuel as [|fuel IH]; intros o H extra; [done|]. cbn [ancestor_walk] in H. destruct o as [c|]; [|done]. simpl.
  destruct (bool_decide _); [done|]. f_equal. by apply IH.
Qed.

Lemma hierarchy_inv m fuel : check_hierarchy fuel m = Ok tt -> closed m /\ acyclic m.
Proof.
  intros H. unfold check_hierarchy in H.
  assert (Hall : forall s p, m !! s = Some (Some p) -> is_Some (m !! p) /\ ancestor_walk fuel m s (Some p) = Ok tt).
  { intros s p Hm. apply elem_of_btree_iter in Hm. revert H. generalize (btree_iter m) Hm. intros l Hl.
    induction l as [|[s' o'] l IH]; [by apply not_elem_of_nil in Hl|]. cbn [for_each]. intros H. bind_inv H. destruct v.
    apply elem_of_cons in Hl as [[= <- <-]|Hl]; [|by apply IH].
    unfold check_span in Hv. simpl in Hv. destruct (bool_decide_reflect (is_Some (m !! p))); done. }
  split; [intros s p Hm; by destruct (Hall s p Hm)|].
  exists (fun s => height (S fuel) m (Some s)). intros s p Hm. destruct (Hall s p Hm) as [_ Hw].
  cbn [height]. rewrite Hm. simpl. pose proof (walk_height _ _ _ _ Hw 1) as Hh.
  replace (fuel + 1)%nat with (S fuel) in Hh by lia. cbn [height] in Hh. lia.
Qed.

(** * Recording and replaying *)
Section Replay.
  Context {Number : Type} (as_u64 as_i64 : Number -> option Z).
  Context (canonical : DigestBody Number -> option (list Z)) (hash : list Z -> list Z).
  (** BLAKE3 digests have 32 bytes. *)
  Context (hash_ok : forall x, digest_ok (hash x)).

  Abbreviation emit := (emit as_u64 as_i64 canonical hash).
  Abbreviation verify_event := (verify_event as_u64 as_i64 canonical hash).
  Abbreviation verify_events := (verify_events as_u64 as_i64 canonical hash).
  Abbreviation recorder := (EvidenceRecorder (Number := Number)).

(** One call of [emit]. *)
Record Op : Type := MkOp { op_event : Event (Number := Number); op_span : string; op_parent : option string; op_time : Z }.

Definition emits (r : recorder) (ops : list Op) : res EvidenceError recorder :=
  for_each ops (fun o r => emit r (op_event o) (op_span o) (op_parent o) (op_time o)) r.

(** What the verification loop has in its maps after the recorder's events. *)
Definition replay_state (r : recorder) : VState :=
  MkVState (next_seq r) (last_digest r) (last_time r) (span_parent r)
    (match events r with [] => None | _ => Some (rec_run r) end).

Record rec_inv (r : recorder) : Prop := {
  ri_run : rec_run r <> [];
  ri_registered : forall s ver, registered r !! s = Some ver -> validate_schema_id s = Ok tt /\ ver <> 0;
  ri_replay : for_each (events r) verify_event vs_init = Ok (replay_state r);
  ri_final : final_digests (events r) = Ok (last_digest r);
  ri_schemas : Forall (fun e => registered r !! schema (body e) = Some (v (body e))) (events r) }.

Lemma register_all regs : forall m m', for_each regs register m = Ok m' ->
  (forall s ver, m !! s = Some ver -> validate_schema_id s = Ok tt /\ ver <> 0) ->
  forall s ver, m' !! s = Some ver -> validate_schema_id s = Ok tt /\ ver <> 0.
Proof.
  induction regs as [|r regs IH]; intros m m' H Hm; cbn [for_each] in H; [by apply Ok_inj in H as <-|].
  bind_inv H. apply (IH _ _ H). unfold register in Hv. bind_inv Hv.
  destruct (Z.eqb_spec (reg_version r) 0) as [|Hz]; [done|]. destruct (m !! reg_schema r); [done|]. apply Ok_inj in Hv as <-.
  intros s ver Hs. apply lookup_insert_Some in Hs as [[<- <-]|[_ Hs]]; [|by apply Hm]. by destruct v0.
Qed.

Lemma recorder_new_inv run regs r : recorder_new run regs = Ok r -> rec_inv r.
Proof.
  unfold recorder_new. destruct (bool_decide_reflect (run = [])); [done|]. intros H. bind_inv H. apply Ok_inj in H as <-.
  split; simpl; try done. by eapply register_all.
Qed.

(** What an accepted emission recorded. *)
Record emitted (r : recorder) (o : Op) (d : list Z) (b : DigestBody Number) : Prop := {
  em_registered : registered r !! schema b = Some (Evidence.v b);
  em_body : span b = op_span o /\ parent b = op_parent o /\ t b = op_time o /\ run b = rec_run r /\
    seq b = default 0 (next_seq r !! op_span o);
  em_span : op_span o <> [] /\ op_parent o <> Some [] /\ op_parent o <> Some (op_span o);
  em_parent : forall p, span_parent r !! op_span o = Some p -> p = op_parent o;
  em_time : op_time o <= MAX_SAFE_JSON_INTEGER /\
    forall previous, last_time r !! op_span o = Some previous -> previous <= op_time o;
  em_seq : seq b <= MAX_SAFE_JSON_INTEGER;
  em_payload : validate_json_numbers as_u64 as_i64 (payload b) = Ok tt;
  em_digest : event_digest canonical hash (default ZERO_DIGEST (last_digest r !! op_span o)) b = Ok d }.

Definition record (r : recorder) (o : Op) (d : list Z) (b : DigestBody Number) : recorder :=
  MkRecorder (rec_run r) (registered r)
    (<[op_span o := seq b + 1]> (next_seq r))
    (<[op_span o := d]> (last_digest r))
    (<[op_span o := op_time o]> (last_time r))
    (match span_parent r !! op_span o with Some _ => span_parent r | None => <[op_span o := op_parent o]> (span_parent r) end)
    (events r ++ [MkEnvelope b (hex_of d)]).

Lemma event_digest_ok previous b d : event_digest canonical hash previous b = Ok d -> digest_ok d.
Proof. unfold event_digest. intros H. bind_inv H. apply Ok_inj in H as <-. apply hash_ok. Qed.

Lemma emit_inv r o r' : emit r (op_event o) (op_span o) (op_parent o) (op_time o) = Ok r' ->
  exists d b, emitted r o d b /\ r' = record r o d b.
Proof.
  unfold Evidence.emit. intros H. apply bind_Ok_inv in H as ([] & Hv & H). unfold check_emit in Hv.
  destruct (bool_decide_reflect (registered r !! SCHEMA_ID (op_event o) = Some (VERSION (op_event o)))) as [Hreg|]; [|done]. cbn [negb] in Hv.
  destruct (bool_decide_reflect (op_span o = [])); [done|]. destruct (bool_decide_reflect (op_parent o = Some [])); [done|]. cbn [orb] in Hv.
  destruct (bool_decide_reflect (op_parent o = Some (op_span o))); [done|].
  destruct (match span_parent r !! op_span o with Some p => _ | None => false end) eqn:Hpar; [done|].
  destruct (VERSION (op_event o) =? 0); [done|]. destruct (Z.ltb_spec MAX_SAFE_JSON_INTEGER (op_time o)); [done|].
  destruct (match last_time r !! op_span o with Some p => _ | None => false end) eqn:Htime; [done|].
  destruct (Z.ltb_spec MAX_SAFE_JSON_INTEGER (default 0 (next_seq r !! op_span o))); [done|].
  apply bind_Ok_inv in H as (payload & Hpay & H). apply bind_Ok_inv in H as ([] & Hnum & H).
  apply bind_Ok_inv in H as (following & Hseq & H). apply ok_or_inv, checked_add_inv in Hseq as [-> _].
  apply bind_Ok_inv in H as (d & Hd & H). pose proof (event_digest_ok _ _ _ Hd) as [_ Hdb]. rewrite (encode_hex_Ok d Hdb) in H. cbn [bind] in H.
  apply Ok_inj in H as <-. exists d, (MkBody (SCHEMA_ID (op_event o)) (VERSION (op_event o)) (rec_run r) (default 0 (next_seq r !! op_span o))
    (op_span o) (op_parent o) (op_time o) payload). split; [|done]. split; simpl; try done.
  - intros p Hp. rewrite Hp in Hpar. apply negb_false_iff, bool_decide_eq_true in Hpar. done.
  - split; [done|]. intros p Hp. rewrite Hp in Htime. lia.
Qed.

Lemma verify_recorded r o d b : rec_inv r -> emitted r o d b ->
  verify_event (MkEnvelope b (hex_of d)) (replay_state r) = Ok (replay_state (record r o d b)).
Proof.
  intros I Hem. destruct (em_body _ _ _ _ Hem) as (Hs & Hp & Ht & Hr & Hq). destruct (em_span _ _ _ _ Hem) as (Hs1 & Hs2 & Hs3).
  destruct (em_time _ _ _ _ Hem) as [Ht1 Ht2]. pose proof (em_seq _ _ _ _ Hem) as Hq1.
  destruct (ri_registered r I _ _ (em_registered _ _ _ _ Hem)) as [Hsch Hver].
  destruct (event_digest_ok _ _ _ (em_digest _ _ _ _ Hem)) as [_ Hdb].
  unfold Evidence.verify_event. cbn [body digest]. rewrite Hsch. cbn [bind].
  replace (Evidence.v b =? 0) with false by lia. replace (MAX_SAFE_JSON_INTEGER <? seq b) with false by lia.
  rewrite Hs, Hp, Ht. replace (MAX_SAFE_JSON_INTEGER <? op_time o) with false by lia.
  assert (Htm : match vs_time (replay_state r) !! op_span o with Some previous => op_time o <? previous | None => false end = false).
  { simpl. destruct (last_time r !! op_span o) as [previous|] eqn:E; [|done]. specialize (Ht2 previous eq_refl). lia. }
  rewrite Htm, (em_payload _ _ _ _ Hem). cbn [bind]. rewrite !bool_decide_eq_false_2 by done. cbn [orb].
  assert (Hpar : match vs_parent (replay_state r) !! op_span o with
    | Some previous => if bool_decide (previous = op_parent o) then Ok (vs_parent (replay_state r)) else Err (ParentMismatch (op_span o))
    | None => Ok (<[op_span o := op_parent o]> (vs_parent (replay_state r))) end
    = Ok (E := EvidenceError) (span_parent (record r o d b))).
  { simpl. destruct (span_parent r !! op_span o) as [p|] eqn:E; [|done]. rewrite (em_parent _ _ _ _ Hem p E).
    by rewrite bool_decide_eq_true_2. }
  rewrite Hpar. cbn [bind].
  assert (Hrun : match vs_run (replay_state r) with
    | Some expected => if bool_decide (expected = run b) then Ok (Some expected) else Err InvalidRunId
    | None => if bool_decide (run b = []) then Err InvalidRunId else Ok (Some (run b)) end
    = Ok (E := EvidenceError) (Some (rec_run r))).
  { simpl. rewrite Hr. destruct (events r); [rewrite bool_decide_eq_false_2 by apply (ri_run r I); done|].
    by rewrite bool_decide_eq_true_2. }
  rewrite Hrun. cbn [bind]. cbn [replay_state vs_seq vs_digest vs_time]. rewrite <- Hq, Z.eqb_refl. cbn [negb].
  rewrite (em_digest _ _ _ _ Hem). cbn [bind]. rewrite (encode_hex_Ok d Hdb). cbn [bind].
  rewrite bool_decide_eq_true_2 by done. cbn [negb]. unfold checked_add.
  replace (_ <=? usize_max) with true by (unfold MAX_SAFE_JSON_INTEGER, usize_max in *; lia). cbn [ok_or bind].
  unfold replay_state. simpl. by destruct (events r).
Qed.

Lemma record_inv r o d b : rec_inv r -> emitted r o d b -> rec_inv (record r o d b).
Proof.
  intros I Hem. destruct (em_body _ _ _ _ Hem) as (Hs & _). pose proof (event_digest_ok _ _ _ (em_digest _ _ _ _ Hem)) as Hd.
  split; try apply (ri_run r I); try apply (ri_registered r I).
  - simpl. rewrite for_each_app, (ri_replay r I). cbn [bind for_each]. by rewrite (verify_recorded r o d b I Hem).
  - simpl. unfold final_digests. rewrite for_each_app. fold (final_digests (events r)). rewrite (ri_final r I).
    cbn [bind for_each digest body]. rewrite decode_encode_hex by done. cbn [bind]. by rewrite Hs.
  - simpl. apply Forall_app. split; [apply (ri_schemas r I)|]. apply list.Forall_singleton. apply (em_registered _ _ _ _ Hem).
Qed.

Lemma emits_inv ops : forall r r', rec_inv r -> emits r ops = Ok r' -> rec_inv r'.
Proof.
  induction ops as [|o ops IH]; intros r r' I H; unfold emits in H; cbn [for_each] in H; [by apply Ok_inj in H as <-|].
  apply bind_Ok_inv in H as (r1 & H1 & H). apply emit_inv in H1 as (d & b & Hem & ->).
  apply (IH _ _ (record_inv r o d b I Hem) H).
Qed.

Lemma emits_registered ops : forall r r', emits r ops = Ok r' -> registered r = registered r'.
Proof.
  induction ops as [|o ops IH]; intros r r' H; unfold emits in H; cbn [for_each] in H; [by apply Ok_inj in H as <-|].
  apply bind_Ok_inv in H as (r1 & H1 & H). apply emit_inv in H1 as (d & b & Hem & ->). by rewrite <- (IH _ _ H).
Qed.

(** Verifying a recorder's log is checking its span hierarchy. *)
Lemma verify_recorder r fuel : rec_inv r ->
  verify_events fuel (events r) =
  if bool_decide (events r = []) then Err EmptyRun else check_hierarchy fuel (span_parent r).
Proof.
  intros I. unfold Evidence.verify_events. rewrite (ri_replay r I). cbn [bind].
  destruct (events r) as [|e es]; [done|]. rewrite bool_decide_eq_false_2; [done|]. rewrite zlen_cons. pose proof (zlen_nonneg es). lia.
Qed.

(** A recorder with events has a root. *)
Lemma recorder_root_digest r : rec_inv r -> events r <> [] ->
  exists d, digest_ok d /\ root_digest hash (last_digest r) = Ok (hex_of d).
Proof.
  intros I Hne. unfold root_digest. rewrite bool_decide_eq_false_2.
  - eexists. rewrite (encode_hex_Ok _ (proj2 (hash_ok _))). split; [apply hash_ok|done].
  - pose proof (ri_final r I) as Hfin. destruct (exists_last Hne) as (es & e & He). rewrite He in Hfin.
    unfold final_digests in Hfin. rewrite for_each_app in Hfin. bind_inv Hfin. cbn [for_each] in Hfin.
    bind_inv Hfin. bind_inv Hv0. apply Ok_inj in Hv0 as <-. apply Ok_inj in Hfin as <-. apply insert_non_empty.
Qed.

(** * The JSON Lines form *)
  Context (print : EvidenceEnvelope Number -> option string) (parse : string -> option (EvidenceEnvelope Number)).

  (** A payload as the reader gets it back from its canonical text: 1.0 is printed as 1 and
      read as an integer, a decimal may be read one unit in the last place away, and
      deep nesting is refused. *)
  Context (wire : Value Number -> option (Value Number)).

(** The event with another payload. *)
Definition repay (e : EvidenceEnvelope Number) (p : Value Number) : EvidenceEnvelope Number :=
  let b := body e in
  MkEnvelope (MkBody (schema b) (v b) (run b) (seq b) (span b) (parent b) (t b) p) (digest e).

(** A canonical line is a JSON object on one line; the reader gets the fields of the
    envelope back, integers up to 2^53 - 1 among them, and the payload as [wire] says; and
    the body's canonical text depends on the payload only through the payload's text. *)
Record json_codec : Prop := {
  jc_line : forall e line, print e = Some line -> (10 ∉ line) /\ exists inner, line = 123 :: inner ++ [125];
  jc_parse : forall e line, seq (body e) <= MAX_SAFE_JSON_INTEGER -> t (body e) <= MAX_SAFE_JSON_INTEGER ->
    print e = Some line -> parse line = repay e <$> wire (payload (body e));
  jc_body : forall e p line, print e = Some line -> print (repay e p) = Some line ->
    canonical (body (repay e p)) = canonical (body e) }.

(** The event as it is read back. *)
Definition readback (e : EvidenceEnvelope Number) : EvidenceEnvelope Number :=
  repay e (default (payload (body e)) (wire (payload (body e)))).

(** Its payload is read at all, and prints as it did. *)
Definition textual (e : EvidenceEnvelope Number) : bool :=
  bool_decide (is_Some (wire (payload (body e)))) && bool_decide (print (readback e) = print e).

(** Its payload has no integer above 2^53 - 1 once it is read back. *)
Definition wire_safe (e : EvidenceEnvelope Number) : bool := safe_value as_u64 as_i64 (payload (body (readback e))).

(** The ways a line is refused before its place in the chain matters. *)
Definition unreadable (e : EvidenceError) : bool :=
  match e with InvalidJson _ | NonCanonicalLine _ | Canonicalization | UnsafeInteger => true | _ => false end.

  Context (codec : json_codec).

Lemma split_on_line sep l rest : sep ∉ l -> split_on sep (l ++ sep :: rest) = l :: split_on sep rest.
Proof.
  induction l as [|c l IH]; intros Hn; simpl; [by rewrite Z.eqb_refl|].
  apply not_elem_of_cons in Hn as [Hc Hn]. replace (c =? sep) with false by lia. by rewrite IH.
Qed.

Lemma lines_join ls : Forall (fun l => (10 ∉ l) /\ exists inner, l = 123 :: inner ++ [125]) ls ->
  lines (concat ((fun l => l ++ [10]) <$> ls)) = ls.
Proof.
  intros H. unfold lines.
  assert (Hs : split_on 10 (concat ((fun l => l ++ [10]) <$> ls)) = ls ++ [[]]).
  { induction H as [|l ls [Hl _] H IH]; [done|]. rewrite fmap_cons. simpl. rewrite <- app_assoc. simpl.
    by rewrite split_on_line, IH. }
  rewrite Hs, reverse_app. simpl. rewrite reverse_involutive.
  rewrite <- (list_fmap_id ls) at 2. apply list_fmap_ext. intros k l Hk.
  pose proof (Forall_lookup_1 _ _ _ _ H Hk) as [_ (inner & ->)]. unfold strip_cr.
  by rewrite reverse_cons, reverse_app.
Qed.

(** The lines [to_jsonl] writes. *)
Lemma to_jsonl_lines r j : to_jsonl print r = Ok j ->
  exists ls, Forall2 (fun e l => print e = Some l) (events r) ls /\ j = concat ((fun l => l ++ [10]) <$> ls).
Proof.
  unfold to_jsonl. assert (H : forall es out j, for_each es (fun event out =>
      let* line := ok_or (print event) Canonicalization in Ok (out ++ line ++ [10])) out = Ok j ->
    exists ls, Forall2 (fun e l => print e = Some l) es ls /\ j = out ++ concat ((fun l => l ++ [10]) <$> ls)).
  { clear r j. induction es as [|e es IH]; intros out j H; cbn [for_each] in H.
    - apply Ok_inj in H as <-. exists []. split; [constructor|]. by rewrite app_nil_r.
    - apply bind_Ok_inv in H as (out1 & H1 & H). apply bind_Ok_inv in H1 as (line & Hl & H1). apply ok_or_inv in Hl.
      apply Ok_inj in H1 as <-. destruct (IH _ _ H) as (ls & Hls & ->). exists (line :: ls). split; [by constructor|].
      rewrite fmap_cons. simpl. by rewrite !app_assoc. }
  intros Hj. destruct (H _ _ _ Hj) as (ls & Hls & ->). eauto.
Qed.

Definition small (e : EvidenceEnvelope Number) : Prop :=
  seq (body e) <= MAX_SAFE_JSON_INTEGER /\ t (body e) <= MAX_SAFE_JSON_INTEGER.

Lemma verify_lines es ls : Forall2 (fun e l => print e = Some l) es ls -> Forall small es -> forall i evs,
  match for_enum i ls (verify_line print parse) evs with
  | Ok out => forallb textual es = true /\ out = evs ++ (readback <$> es)
  | Err x => forallb textual es = false /\ unreadable x = true
  | Panic | NoFuel => False
  end.
Proof.
  induction 1 as [|e l es ls He H IH]; intros Hsm i evs; cbn [for_enum]; [by rewrite app_nil_r|].
  apply list.Forall_cons in Hsm as [[Hq Ht] Hsm]. destruct (jc_line codec e l He) as (Hn & inner & Hl). unfold verify_line.
  replace (is_blank l) with false by (rewrite Hl; simpl; by destruct (inner ++ [125]) as [|? [|? ?]]).
  rewrite (jc_parse codec e l Hq Ht He), fmap_cons. cbn [forallb]. unfold textual at 1 3. rewrite He.
  destruct (wire (payload (body e))) as [p|] eqn:Hw; [|done]. cbn [fmap option_fmap option_map ok_or bind default].
  rewrite (bool_decide_eq_true_2 (is_Some (Some p))) by done. cbn [andb].
  assert (Hrb : readback e = repay e p) by (unfold readback; by rewrite Hw). rewrite !Hrb.
  destruct (print (repay e p)) as [c|]; cbn [ok_or bind]; [|done].
  destruct (bool_decide_reflect (c = l)) as [->|Hc]; cbn [negb bind]; [|by rewrite bool_decide_eq_false_2 by congruence].
  rewrite bool_decide_eq_true_2 by done. cbn [andb]. specialize (IH Hsm (i + 1) (evs ++ [repay e p])).
  destruct (for_enum _ _ _ _); try done. destruct IH as [? ->]. split; [done|]. by rewrite <- app_assoc.
Qed.

Lemma verify_event_small e s s' : verify_event e s = Ok s' -> small e.
Proof.
  unfold Evidence.verify_event, small. intros H. bind_inv H. destruct (_ =? 0); [done|].
  destruct (Z.ltb_spec MAX_SAFE_JSON_INTEGER (seq (body e))); [done|].
  destruct (Z.ltb_spec MAX_SAFE_JSON_INTEGER (t (body e))); [done|]. lia.
Qed.

Lemma replay_small es : forall s s', for_each es verify_event s = Ok s' -> Forall small es.
Proof.
  induction es as [|e es IH]; intros s s' H; [constructor|]. cbn [for_each] in H. bind_inv H.
  constructor; [by eapply verify_event_small|by eapply IH].
Qed.

(** The verifier treats an event that prints as it did like the event itself, but for the
    range of the integers it now has. *)
Lemma verify_event_readback e l s s' : print e = Some l -> textual e = true -> verify_event e s = Ok s' ->
  verify_event (readback e) s = if wire_safe e then Ok s' else Err UnsafeInteger.
Proof.
  intros Hl [_ Hp%bool_decide_eq_true]%andb_true_iff. rewrite Hl in Hp. unfold readback in Hp.
  pose proof (jc_body codec e _ l Hl Hp) as Hb. fold (readback e) in Hb. unfold wire_safe.
  assert (Hd : forall previous, event_digest canonical hash previous (body (readback e)) = event_digest canonical hash previous (body e))
    by (intros previous; unfold event_digest; by rewrite Hb).
  unfold Evidence.verify_event. rewrite !Hd. unfold readback, repay. cbn [body schema v run seq span parent t payload digest].
  intros H. bind_inv H. rewrite Hv. cbn [bind]. destruct (_ =? 0); [done|]. destruct (_ <? seq _); [done|]. destruct (_ <? t _); [done|].
  destruct (match vs_time s !! _ with Some _ => _ | None => _ end); [done|]. bind_inv H.
  unfold validate_json_numbers at 1. destruct (safe_value _ _ (default _ _)); [|done]. exact H.
Qed.

Lemma replay_readback es ls : Forall2 (fun e l => print e = Some l) es ls -> forall s s',
  forallb textual es = true -> for_each es verify_event s = Ok s' ->
  for_each (readback <$> es) verify_event s = if forallb wire_safe es then Ok s' else Err UnsafeInteger.
Proof.
  induction 1 as [|e l es ls He H IH]; intros s s' Ht Hr; [done|]. cbn [for_each] in Hr. bind_inv Hr.
  cbn [forallb] in *. apply andb_true_iff in Ht as [Ht1 Ht]. rewrite fmap_cons. cbn [for_each].
  rewrite (verify_event_readback e l s v He Ht1 Hv). destruct (wire_safe e); [|done]. by apply IH.
Qed.

Lemma final_readback es : final_digests (readback <$> es) = final_digests es.
Proof.
  unfold final_digests. generalize (∅ : gmap string (list Z)). induction es as [|e es IH]; intros m; [done|].
  rewrite fmap_cons. cbn [for_each]. unfold readback at 1, repay. cbn [body digest span].
  destruct (decode_hex (digest e)); [|done..]. apply IH.
Qed.

(** What a log that is read back verifies to. *)
Lemma verify_jsonl_recorder r j d fuel : rec_inv r -> events r <> [] -> check_hierarchy fuel (span_parent r) = Ok tt ->
  root_digest hash (last_digest r) = Ok d -> to_jsonl print r = Ok j ->
  match verify_jsonl as_u64 as_i64 canonical hash print parse fuel j with
  | Ok log => forallb textual (events r) && forallb wire_safe (events r) = true /\ log = MkLog (readback <$> events r) d
  | Err x => forallb textual (events r) && forallb wire_safe (events r) = false /\ unreadable x = true
  | Panic | NoFuel => False
  end.
Proof.
  intros I Hne Hch Hroot Hj. destruct (to_jsonl_lines r j Hj) as (ls & Hls & ->). unfold verify_jsonl. rewrite lines_join; cycle 1.
  { apply Forall_lookup_2. intros k l Hk. apply (Forall2_lookup_r _ _ _ _ _ Hls) in Hk as (e & _ & He). apply (jc_line codec e l He). }
  pose proof (verify_lines _ _ Hls (replay_small _ _ _ (ri_replay r I)) 0 []) as Hv.
  destruct (for_enum _ _ _ _) as [out|x| |]; cbn [bind]; try done; [|by destruct Hv as [-> ?]].
  destruct Hv as [Ht ->]. rewrite Ht. cbn [andb app]. unfold Evidence.verify_events.
  rewrite (replay_readback _ _ Hls _ _ Ht (ri_replay r I)). destruct (forallb wire_safe (events r)); [|done]. cbn [bind].
  rewrite bool_decide_eq_false_2; [|unfold zlen; rewrite length_fmap; destruct (events r); simpl; [done|lia]].
  cbn [replay_state vs_parent]. rewrite Hch. cbn [bind]. rewrite final_readback, (ri_final r I). cbn [bind]. rewrite Hroot. done.
Qed.

(** * Spans are independent *)

(** Everything an emission in span [s] reads. *)
Record same_view (s : string) (r r' : recorder) : Prop := {
  sv_run : rec_run r = rec_run r';
  sv_registered : registered r = registered r';
  sv_seq : next_seq r !! s = next_seq r' !! s;
  sv_digest : last_digest r !! s = last_digest r' !! s;
  sv_time : last_time r !! s = last_time r' !! s;
  sv_parent : span_parent r !! s = span_parent r' !! s }.

#[local] Instance same_view_equiv s : Equivalence (same_view s).
Proof.
  split.
  - by split.
  - intros x y []. by split.
  - intros x y z [] []. split; congruence.
Qed.

Lemma emit_other r o r' s : emit r (op_event o) (op_span o) (op_parent o) (op_time o) = Ok r' -> op_span o <> s ->
  same_view s r r'.
Proof.
  intros H Hne. apply emit_inv in H as (d & b & _ & ->). split; simpl; rewrite ?lookup_insert_ne by done; try done.
  destruct (span_parent r !! op_span o); [done|]. by rewrite lookup_insert_ne.
Qed.

Lemma emit_same r1 r2 o r1' : same_view (op_span o) r1 r2 ->
  emit r1 (op_event o) (op_span o) (op_parent o) (op_time o) = Ok r1' ->
  exists r2', emit r2 (op_event o) (op_span o) (op_parent o) (op_time o) = Ok r2' /\ same_view (op_span o) r1' r2'.
Proof.
  intros [V1 V2 V3 V4 V5 V6] H. assert (Hc : check_emit r1 (op_event o) (op_span o) (op_parent o) (op_time o) =
    check_emit r2 (op_event o) (op_span o) (op_parent o) (op_time o)) by (unfold check_emit; by rewrite V2, V3, V5, V6).
  unfold Evidence.emit in *. rewrite Hc, V1, V3, V4 in H.
  apply bind_Ok_inv in H as (c & Hcc & H). rewrite Hcc. cbn [bind]. apply bind_Ok_inv in H as (p & -> & H). cbn [bind].
  apply bind_Ok_inv in H as (n & -> & H). cbn [bind]. apply bind_Ok_inv in H as (f & -> & H). cbn [bind].
  apply bind_Ok_inv in H as (d & -> & H). cbn [bind]. apply bind_Ok_inv in H as (h & -> & H). cbn [bind].
  apply Ok_inj in H as <-. eexists. split; [done|]. split; simpl; rewrite ?lookup_insert_eq; try done.
  rewrite V6. destruct (span_parent r2 !! op_span o) eqn:E; [congruence|]. by rewrite !lookup_insert_eq.
Qed.

Definition in_span (s : string) (ops : list Op) : list Op := filter (fun o => op_span o = s) ops.

(** Running the calls of one span alone gives that span the same state. *)
Lemma emits_span s ops : forall r1 r2 r1', same_view s r1 r2 -> emits r1 ops = Ok r1' ->
  exists r2', emits r2 (in_span s ops) = Ok r2' /\ same_view s r1' r2'.
Proof.
  induction ops as [|o ops IH]; intros r1 r2 r1' V H; unfold emits in *; cbn [for_each] in H.
  - apply Ok_inj in H as <-. exists r2. done.
  - apply bind_Ok_inv in H as (r3 & H3 & H). unfold in_span. rewrite filter_cons. destruct (decide (op_span o = s)) as [E|E].
    + subst s. destruct (emit_same r1 r2 o r3 V H3) as (r4 & H4 & V4). cbn [for_each]. rewrite H4. cbn [bind].
      by apply (IH r3).
    + apply (IH r3); [|done]. symmetry in V. etransitivity; [|by symmetry]. symmetry. by eapply emit_other.
Qed.

(** Calls that every span accepts on its own are accepted in any order. *)
Lemma emits_any ops : forall r, (forall s, exists r', emits r (in_span s ops) = Ok r') -> exists r', emits r ops = Ok r'.
Proof.
  induction ops as [|o ops IH]; intros r H; [by eexists|].
  destruct (H (op_span o)) as (r' & H'). unfold emits, in_span in H'. rewrite filter_cons, decide_True in H' by done. cbn [for_each] in H'.
  apply bind_Ok_inv in H' as (r1 & H1 & H'). unfold emits. cbn [for_each]. rewrite H1. cbn [bind]. apply IH. intros s.
  destruct (decide (op_span o = s)) as [<-|Hne]; [by exists r'|]. destruct (H s) as (r2 & H2).
  unfold in_span in H2. rewrite filter_cons, decide_False in H2 by done. fold (in_span s ops) in H2.
  destruct (emits_span s (in_span s ops) r r1 r2 (emit_other r o r1 s H1 Hne) H2) as (r3 & H3 & _).
  assert (Hidem : in_span s (in_span s ops) = in_span s ops).
  { unfold in_span. rewrite list_filter_filter. apply list_filter_iff. tauto. }
  rewrite Hidem in H3. by exists r3.
Qed.

Lemma emits_interleave ops1 ops2 r r1 : (forall s, in_span s ops1 = in_span s ops2) -> emits r ops1 = Ok r1 ->
  exists r2, emits r ops2 = Ok r2 /\ last_digest r2 = last_digest r1 /\ span_parent r2 = span_parent r1.
Proof.
  intros Heq H1. destruct (emits_any ops2 r) as (r2 & H2).
  { intros s. destruct (emits_span s ops1 r r r1 ltac:(done) H1) as (r3 & H3 & _). rewrite Heq in H3. by exists r3. }
  exists r2. split; [done|].
  assert (V : forall s, same_view s r1 r2).
  { intros s. destruct (emits_span s ops1 r r r1 ltac:(done) H1) as (r3 & H3 & V3).
    destruct (emits_span s ops2 r r r2 ltac:(done) H2) as (r4 & H4 & V4). rewrite <- Heq, H3 in H4. apply Ok_inj in H4 as <-.
    etransitivity; [exact V3|by symmetry]. }
  split; apply map_eq; intros s; symmetry; apply (V s).
Qed.
End Replay.

Lemma check_registered_all {Number : Type} (m : gmap string Z) (es : list (EvidenceEnvelope Number)) :
  Forall (fun e => m !! schema (body e) = Some (v (body e))) es -> for_each es (check_registered m) tt = Ok tt.
Proof.
  induction 1 as [|e es He Hs IH]; [done|]. cbn [for_each]. unfold check_registered at 1.
  rewrite bool_decide_eq_true_2 by done. exact IH.
Qed.

Lemma readback_schemas {Number : Type} (wire : Value Number -> option (Value Number)) (m : gmap string Z) (es : list (EvidenceEnvelope Number)) :
  Forall (fun e => m !! schema (body e) = Some (v (body e))) es ->
  Forall (fun e => m !! schema (body e) = Some (v (body e))) (readback wire <$> es).
Proof. intros H. apply Forall_fmap. eapply Forall_impl; [exact H|]. by intros [[] ?]. Qed.

(** * Aggregated verdicts *)

Definition cleared (c : ClaimVerdict) : Prop :=
  verdict c = Pass /\ (requires_independent c = true -> independently_cleared c = true).

Lemma aggregate_loop_Pass cs : Forall (fun c => verdict c <> Fail) cs ->
  aggregate_loop cs = Pass <-> Forall cleared cs.
Proof.
  induction cs as [|c cs IH]; intros Hf; [split; [constructor|done]|]. apply list.Forall_cons in Hf as [Hc Hf].
  rewrite list.Forall_cons, <- (IH Hf). simpl. unfold cleared.
  destruct (requires_independent c) eqn:E1, (independently_cleared c) eqn:E2, (verdict c) eqn:E3; simpl; naive_solver.
Qed.

Lemma aggregate_loop_not_fail cs : Forall (fun c => verdict c <> Fail) cs -> aggregate_loop cs <> Fail.
Proof.
  induction cs as [|c cs IH]; intros Hf; [done|]. apply list.Forall_cons in Hf as [Hc Hf]. simpl.
  destruct (_ && _); [done|]. destruct (verdict c); [by apply IH|done|done].
Qed.

Lemma needed_no_fail (cs : list ClaimVerdict) :
  existsb (fun c => bool_decide (verdict c = Fail)) cs = false <-> Forall (fun c => verdict c <> Fail) cs.
Proof.
  induction cs as [|c cs IH]; simpl; [split; [constructor|done]|].
  rewrite orb_false_iff, IH, list.Forall_cons, bool_decide_eq_false. done.
Qed.

(** * Properties *)

(** An aggregate passes exactly when some claim is required and every required
    claim has passed and, where independent review is demanded, been cleared; it fails
    exactly when a required claim failed; in particular unknown or unreviewed
    evidence never aggregates to a pass. *)
Theorem aggregate_exact claims :
  (aggregate_required claims = Pass <->
     (exists c, c ∈ claims /\ required c = true) /\ forall c, c ∈ claims -> required c = true -> cleared c) /\
  (aggregate_required claims = Fail <-> exists c, c ∈ claims /\ required c = true /\ verdict c = Fail).
Proof.
  unfold aggregate_required. set (needed := filter _ claims).
  assert (Hin : forall c, c ∈ needed <-> required c = true /\ c ∈ claims) by (intros c; unfold needed; by rewrite list_elem_of_filter).
  destruct (bool_decide_reflect (needed = [])) as [E|E].
  - split; (split; [done|]).
    + intros [(c & Hc & Hr) _]. assert (Hn : c ∈ needed) by by apply Hin. rewrite E in Hn. by apply not_elem_of_nil in Hn.
    + intros (c & Hc & Hr & _). assert (Hn : c ∈ needed) by by apply Hin. rewrite E in Hn. by apply not_elem_of_nil in Hn.
  - assert (Hex : exists c, c ∈ claims /\ required c = true).
    { destruct needed as [|c l]; [done|]. exists c. destruct (proj1 (Hin c) (list_elem_of_here _ _)). done. }
    pose proof (needed_no_fail needed) as Hnf. destruct (existsb _ needed) eqn:Hf.
    + apply existsb_exists in Hf as (c & Hc & Hv). apply list_elem_of_In, Hin in Hc as [Hr Hc]. apply bool_decide_eq_true in Hv.
      split; split; try done.
      * intros [_ H]. destruct (H c Hc Hr) as [H1 _]. congruence.
      * intros _. eauto.
    + destruct Hnf as [Hnf _]. specialize (Hnf eq_refl). split.
      * rewrite aggregate_loop_Pass by done. rewrite list.Forall_forall. setoid_rewrite Hin. naive_solver.
      * split; [by intros H%aggregate_loop_not_fail|]. intros (c & Hc & Hr & Hv).
        rewrite list.Forall_forall in Hnf. by destruct (Hnf c (proj2 (Hin c) (conj Hr Hc))).
Qed.

(** C33: on a span hierarchy without cycles the ancestor walks of [verify_events] all
    end within three steps more than there are spans, and the hierarchy is accepted
    exactly when every parent has events of its own; whatever is accepted is such a
    forest. *)
Theorem hierarchy_check_terminates (m : gmap string (option string)) (fuel : nat) :
  (acyclic m -> (size m + 3 <= fuel)%nat ->
     returns (check_hierarchy fuel m) /\ (check_hierarchy fuel m = Ok tt <-> closed m)) /\
  (check_hierarchy fuel m = Ok tt -> closed m /\ acyclic m).
Proof.
  split; [|by apply hierarchy_inv]. intros Ha Hf. destruct (hierarchy_acyclic m fuel Ha Hf) as [H1 H2].
  split; [done|]. split; [|done]. intros H. by apply hierarchy_inv in H as [? _].
Qed.

Definition two_spans : gmap string (option string) := {[ [97] := None; [98] := Some [97] ]}.

Lemma hierarchy_check_terminates_witness :
  check_hierarchy 5 two_spans = Ok tt /\ closed two_spans.
Proof.
  assert (H : check_hierarchy 5 two_spans = Ok tt) by by vm_compute.
  split; [exact H|]. apply (hierarchy_check_terminates two_spans 5) in H as [Hc _]. exact Hc.
Defined.

(** C13: the log of any run a recorder accepted (nonempty, its spans a forest rooted in
    the log) replays from its JSON Lines, exactly as far as the JSON text carries its
    payloads. The recorder always has a root. If every payload, read back from its
    canonical text, prints as it did and has no integer above 2^53 - 1, then the log
    verifies with that same root, alone and against the recorder's registry, and sealing
    succeeds with its bytes; the events are the recorded ones with their payloads as read
    back, so that a recorded 1.0 is a 1. Otherwise all three refuse the log, for its text
    or for an unsafe integer, never for its chain: so it goes for a recorded float such as
    1e16, which [emit] accepts. The digest is assumed to have 32 bytes, the printer to
    write one JSON object per line, and the reader to give the other fields back. *)
Theorem evidence_replays {Number : Type} (as_u64 as_i64 : Number -> option Z)
    (canonical : DigestBody Number -> option (list Z)) (hash : list Z -> list Z)
    (print : EvidenceEnvelope Number -> option string) (parse : string -> option (EvidenceEnvelope Number))
    (wire : Value Number -> option (Value Number)) run regs r0 ops r j fuel :
  (forall x, digest_ok (hash x)) -> json_codec canonical print parse wire ->
  recorder_new run regs = Ok r0 -> emits as_u64 as_i64 canonical hash r0 ops = Ok r ->
  events r <> [] -> closed (span_parent r) -> acyclic (span_parent r) -> (size (span_parent r) + 3 <= fuel)%nat ->
  to_jsonl print r = Ok j ->
  exists d, digest_ok d /\ recorder_root as_u64 as_i64 canonical hash fuel r = Ok (hex_of d) /\
    let verified := verify_jsonl as_u64 as_i64 canonical hash print parse fuel j in
    let registered := verify_jsonl_with_registry as_u64 as_i64 canonical hash print parse fuel j regs in
    let sealed := seal as_u64 as_i64 canonical hash print parse fuel r in
    if forallb (textual print wire) (events r) && forallb (wire_safe as_u64 as_i64 wire) (events r)
    then let log := MkLog (readback wire <$> events r) (hex_of d) in
      verified = Ok log /\ registered = Ok log /\ sealed = Ok (MkSealed (rec_run r) j log d)
    else exists e, unreadable e = true /\ verified = Err e /\ registered = Err e /\ sealed = Err e.
Proof.
  intros Hh Hcodec H0 Hops Hne Hcl Hac Hf Hj.
  pose proof (recorder_new_inv as_u64 as_i64 canonical hash run regs r0 H0) as I0.
  pose proof (emits_inv as_u64 as_i64 canonical hash Hh ops r0 r I0 Hops) as I.
  pose proof (proj2 (hierarchy_acyclic _ fuel Hac Hf) Hcl) as Hch.
  destruct (recorder_root_digest as_u64 as_i64 canonical hash Hh r I Hne) as (d & Hd & Hroot). exists d. split; [done|]. split.
  { unfold recorder_root. rewrite (verify_recorder as_u64 as_i64 canonical hash r fuel I), bool_decide_eq_false_2 by done.
    rewrite Hch. exact Hroot. }
  pose proof (verify_jsonl_recorder as_u64 as_i64 canonical hash print parse wire Hcodec r j (hex_of d) fuel I Hne Hch Hroot Hj) as Hver.
  assert (Hregs : for_each regs register ∅ = Ok (registered r)).
  { rewrite <- (emits_registered as_u64 as_i64 canonical hash Hh _ _ _ Hops). unfold recorder_new in H0. destruct (bool_decide _); [done|].
    bind_inv H0. apply Ok_inj in H0 as <-. exact Hv. }
  pose proof (check_registered_all _ _ (readback_schemas wire _ _ (ri_schemas _ _ _ _ r I))) as Hreg.
  cbv zeta. unfold verify_jsonl_with_registry, seal. rewrite Hregs, Hj. cbn [bind].
  destruct (verify_jsonl _ _ _ _ _ _ _ _) as [log|e| |]; [|by destruct Hver as [-> ?]; exists e|done|done].
  destruct Hver as [-> ->]. cbn [bind log_events log_root]. rewrite Hreg. cbn [bind]. by rewrite decode_encode_hex.
Qed.

(** Small runs: integers for numbers and a checksum for the digest. *)
Definition demo_u64 (n : Z) : option Z := if 0 <=? n then Some n else None.
Definition demo_i64 (n : Z) : option Z := Some n.
Definition demo_canonical (b : DigestBody Z) : option (list Z) := Some (seq b :: t b :: span b).
Definition demo_hash (x : list Z) : list Z := vec (zsum x mod 256) 32.

Lemma demo_hash_ok x : digest_ok (demo_hash x).
Proof.
  split; [done|]. apply Forall_replicate. unfold is_u8. apply Z.mod_pos_bound. lia.
Qed.

(** "tritium.a.b" *)
Definition demo_schema : string := SCHEMA_PREFIX ++ [97; 46; 98].
Definition demo_regs : list EventRegistration := [MkRegistration demo_schema 1].
Definition demo_op (s : string) (p : option string) (time : Z) : Op (Number := Z) :=
  MkOp (MkEvent demo_schema 1 (Some (Null (Number := Z)))) s p time.
Definition demo_new : EvidenceRecorder (Number := Z) := MkRecorder [114] {[ demo_schema := 1 ]} ∅ ∅ ∅ ∅ [].
Definition demo_run (ops : list (Op (Number := Z))) : EvidenceRecorder (Number := Z) :=
  match emits demo_u64 demo_i64 demo_canonical demo_hash demo_new ops with Ok r => r | _ => demo_new end.

(** Numbers as serde_json has them, here integers and floats of integral value; the text of
    a number is its value, which is read back as an integer. *)
Inductive JsonNumber : Type := Integer (z : Z) | Float (z : Z).
Definition jn_value (n : JsonNumber) : Z := match n with Integer z | Float z => z end.
Definition jn_u64 (n : JsonNumber) : option Z := match n with Integer z => if 0 <=? z then Some z else None | Float _ => None end.
Definition jn_i64 (n : JsonNumber) : option Z := match n with Integer z => if z <=? 2 ^ 63 - 1 then Some z else None | Float _ => None end.
Definition jn_wire (p : Value JsonNumber) : option (Value JsonNumber) :=
  match p with VNumber n => Some (VNumber (Integer (jn_value n))) | _ => Some p end.
Definition jn_canonical (b : DigestBody JsonNumber) : option (list Z) :=
  match payload b with VNumber n => Some (jn_value n :: seq b :: t b :: span b) | _ => None end.

(** The recorder after one event whose payload is a number, and the event. *)
Definition jn_op (n : JsonNumber) : Op (Number := JsonNumber) := MkOp (MkEvent demo_schema 1 (Some (VNumber n))) [115] None 5.
Definition jn_new : EvidenceRecorder (Number := JsonNumber) := MkRecorder [114] {[ demo_schema := 1 ]} ∅ ∅ ∅ ∅ [].
Definition jn_log (n : JsonNumber) : EvidenceRecorder (Number := JsonNumber) :=
  match emits jn_u64 jn_i64 jn_canonical demo_hash jn_new [jn_op n] with Ok r => r | _ => jn_new end.
Definition jn_event (n : JsonNumber) : EvidenceEnvelope JsonNumber :=
  MkEnvelope (MkBody demo_schema 1 [114] 0 [115] None 5 (VNumber n))
    (hex_of (demo_hash (EVENT_DOMAIN ++ ZERO_DIGEST ++ [jn_value n; 0; 5; 115]))).

(** A codec that knows the events with the numbers 1 and 1e16. *)
Definition jn_line (z : Z) : option string :=
  if z =? 1 then Some [123; 49; 125] else if z =? 10 ^ 16 then Some [123; 50; 125] else None.
Definition jn_print (e : EvidenceEnvelope JsonNumber) : option string :=
  match payload (body e) with
  | VNumber n => if bool_decide ((schema (body e), v (body e), run (body e), seq (body e), span (body e), parent (body e), t (body e), digest e)
      = (demo_schema, 1, [114], 0, [115], None, 5, digest (jn_event n))) then jn_line (jn_value n) else None
  | _ => None
  end.
Definition jn_parse (line : string) : option (EvidenceEnvelope JsonNumber) :=
  if bool_decide (line = [123; 49; 125]) then Some (jn_event (Integer 1)) else
  if bool_decide (line = [123; 50; 125]) then Some (jn_event (Integer (10 ^ 16))) else None.

Lemma jn_line_inv z line : jn_line z = Some line -> (z = 1 /\ line = [123; 49; 125]) \/ (z = 10 ^ 16 /\ line = [123; 50; 125]).
Proof.
  unfold jn_line. destruct (Z.eqb_spec z 1); [intros [= <-]; by left|]. destruct (Z.eqb_spec z (10 ^ 16)); [intros [= <-]; by right|done].
Qed.

Lemma jn_print_inv e line : jn_print e = Some line -> exists n, e = jn_event n /\ jn_line (jn_value n) = Some line.
Proof.
  destruct e as [[sc ve ru se sp pa ti pl] di]. unfold jn_print. cbn [body payload schema v run seq span parent t digest]. destruct pl as [|?|n|?|?|?]; try done.
  destruct (bool_decide_reflect ((sc, ve, ru, se, sp, pa, ti, di) = (demo_schema, 1, [114], 0, [115], None, 5, digest (jn_event n)))) as [E|]; [|done].
  intros H. exists n. split; [|done]. by injection E as -> -> -> -> -> -> -> ->.
Qed.

Lemma jn_codec : json_codec jn_canonical jn_print jn_parse jn_wire.
Proof.
  split.
  - intros e line (n & _ & [[_ ->]|[_ ->]]%jn_line_inv)%jn_print_inv; (split; [|by eexists [_]]); rewrite !not_elem_of_cons;
      (split; [done|]; split; [done|]; split; [done|apply not_elem_of_nil]).
  - intros e line _ _ (n & -> & [[Hn ->]|[Hn ->]]%jn_line_inv)%jn_print_inv; unfold jn_event; rewrite Hn; simpl; unfold jn_wire, repay; simpl; by rewrite Hn.
  - intros e p line (n & -> & H1%jn_line_inv)%jn_print_inv (m & E & H2%jn_line_inv)%jn_print_inv.
    assert (Hp : p = VNumber m) by (by injection E). subst p. unfold jn_canonical. simpl.
    replace (jn_value m) with (jn_value n); [done|]. destruct H1 as [[-> ->]|[-> ->]], H2 as [[-> ?]|[-> ?]]; congruence.
Qed.

Lemma jn_forest m : m = ({[ [115] := None ]} : gmap string (option string)) -> closed m /\ acyclic m.
Proof.
  intros ->. assert (H : forall s p, ({[ [115] := None ]} : gmap string (option string)) !! s <> Some (Some p)).
  { intros s p H. by apply lookup_singleton_Some in H as [_ ?]. }
  split; [intros s p E; by apply H in E|]. exists (fun _ => 0%nat). intros s p E. by apply H in E.
Qed.

(** A recorded 1.0 replays as 1; a recorded 1e16 is refused. *)
Lemma evidence_replays_witness :
  (exists d, verify_jsonl jn_u64 jn_i64 jn_canonical demo_hash jn_print jn_parse 4 [123; 49; 125; 10]
     = Ok (MkLog [jn_event (Integer 1)] (hex_of d))) /\
  (exists e, unreadable e = true /\
     seal jn_u64 jn_i64 jn_canonical demo_hash jn_print jn_parse 4 (jn_log (Float (10 ^ 16))) = Err e).
Proof.
  split.
  - destruct (evidence_replays jn_u64 jn_i64 jn_canonical demo_hash jn_print jn_parse jn_wire
      [114] demo_regs jn_new [jn_op (Float 1)] (jn_log (Float 1)) [123; 49; 125; 10] 4) as (d & _ & _ & H).
    + exact demo_hash_ok.
    + exact jn_codec.
    + by vm_compute.
    + by vm_compute.
    + by vm_compute.
    + apply jn_forest. by vm_compute.
    + apply jn_forest. by vm_compute.
    + vm_compute. lia.
    + by vm_compute.
    + exists d. destruct H as [H _]. exact H.
  - destruct (evidence_replays jn_u64 jn_i64 jn_canonical demo_hash jn_print jn_parse jn_wire
      [114] demo_regs jn_new [jn_op (Float (10 ^ 16))] (jn_log (Float (10 ^ 16))) [123; 50; 125; 10] 4) as (d & _ & _ & H).
    + exact demo_hash_ok.
    + exact jn_codec.
    + by vm_compute.
    + by vm_compute.
    + by vm_compute.
    + apply jn_forest. by vm_compute.
    + apply jn_forest. by vm_compute.
    + vm_compute. lia.
    + by vm_compute.
    + assert (E : forallb (textual jn_print jn_wire) (events (jn_log (Float (10 ^ 16)))) &&
        forallb (wire_safe jn_u64 jn_i64 jn_wire) (events (jn_log (Float (10 ^ 16)))) = false) by (vm_compute; reflexivity).
      cbv zeta in H. rewrite E in H. destruct H as (e & He & _ & _ & Hs). exists e. split; [exact He|exact Hs].
Defined.

(** The order in which the spans of a run interleave does not matter: if a sequence
    of emissions is accepted, every sequence with the same calls in each span is accepted
    too, with the same final digest and parent for every span and so the same run root. *)
Theorem root_interleaving_independent {Number : Type} (as_u64 as_i64 : Number -> option Z)
    (canonical : DigestBody Number -> option (list Z)) (hash : list Z -> list Z) r ops1 ops2 r1 :
  (forall x, digest_ok (hash x)) -> (forall s, in_span s ops1 = in_span s ops2) ->
  emits as_u64 as_i64 canonical hash r ops1 = Ok r1 ->
  exists r2, emits as_u64 as_i64 canonical hash r ops2 = Ok r2 /\
    last_digest r2 = last_digest r1 /\ span_parent r2 = span_parent r1 /\
    root_digest hash (last_digest r2) = root_digest hash (last_digest r1).
Proof.
  intros Hh Heq H1.
  destruct (emits_interleave as_u64 as_i64 canonical hash Hh ops1 ops2 r r1 Heq H1) as (r2 & H2 & Hd & Hp).
  exists r2. rewrite Hd. done.
Qed.

Lemma root_interleaving_independent_witness :
  exists r2, emits demo_u64 demo_i64 demo_canonical demo_hash demo_new
      [demo_op [98] (Some [97]) 1; demo_op [97] None 0; demo_op [97] None 2] = Ok r2 /\
    root_digest demo_hash (last_digest r2) =
    root_digest demo_hash (last_digest (demo_run [demo_op [97] None 0; demo_op [98] (Some [97]) 1; demo_op [97] None 2])).
Proof.
  destruct (root_interleaving_independent demo_u64 demo_i64 demo_canonical demo_hash demo_new
    [demo_op [97] None 0; demo_op [98] (Some [97]) 1; demo_op [97] None 2]
    [demo_op [98] (Some [97]) 1; demo_op [97] None 0; demo_op [97] None 2]
    (demo_run [demo_op [97] None 0; demo_op [98] (Some [97]) 1; demo_op [97] None 2])) as (r2 & H & _ & _ & Hr).
  - exact demo_hash_ok.
  - intros s. unfold in_span. rewrite !filter_cons, filter_nil. cbn [op_span demo_op].
    destruct (decide ([97] = s)) as [<-|H1]; [done|]. by destruct (decide ([98] = s)).
  - by vm_compute.
  - exists r2. split; [exact H|exact Hr].
Defined.

(** * A hierarchy on which verification does not return *)

(** Span [a] below [b], with [b] and [c] each other's parent. *)
Definition lasso_ops : list (Op (Number := Z)) :=
  [demo_op [97] (Some [98]) 0; demo_op [98] (Some [99]) 0; demo_op [99] (Some [98]) 0].
Definition lasso : gmap string (option string) :=
  {[ [97] := Some [98]; [98] := Some [99]; [99] := Some [98] ]}.

Lemma lasso_walk fuel : ancestor_walk fuel lasso [97] (Some [98]) = NoFuel /\ ancestor_walk fuel lasso [97] (Some [99]) = NoFuel.
Proof.
  induction fuel as [|fuel [IH1 IH2]]; [done|]. split; cbn [ancestor_walk].
  - rewrite bool_decide_eq_false_2 by done. exact IH2.
  - rewrite bool_decide_eq_false_2 by done. exact IH1.
Qed.

(** C34: the recorder accepts these events, but no amount of fuel lets [verify_events] finish:
    the walk from [a] circles through [b] and [c] without meeting [a]. *)
Theorem verify_diverges_on_lasso :
  exists r, emits demo_u64 demo_i64 demo_canonical demo_hash demo_new lasso_ops = Ok r /\
    forall fuel, verify_events demo_u64 demo_i64 demo_canonical demo_hash fuel (events r) = NoFuel.
Proof.
  exists (demo_run lasso_ops). split; [by vm_compute|]. intros fuel. unfold verify_events.
  assert (Hs : for_each (events (demo_run lasso_ops)) (verify_event demo_u64 demo_i64 demo_canonical demo_hash) vs_init
    = Ok (replay_state (demo_run lasso_ops))) by by vm_compute.
  rewrite Hs. cbn [bind]. rewrite bool_decide_eq_false_2 by by vm_compute.
  change (vs_parent (replay_state (demo_run lasso_ops))) with lasso. unfold check_hierarchy.
  replace (btree_iter lasso) with [([97], Some [98]); ([98], Some [99]); ([99], Some [98])] by by vm_compute.
  cbn [for_each]. unfold check_span at 1. cbn [fst snd]. rewrite bool_decide_eq_true_2 by (by eexists). cbn [negb].
  by rewrite (proj1 (lasso_walk fuel)).
Qed.
