(* ===== verification/AdditiveView.v ===== *)
(** * Decoded additive views (crates/tritium-core/src/additive.rs, [AdditiveView])

    Uniform and compact views over decoded coefficients and scales, the decoding of a
    row and the add/subtract/skip dot product on both, and their bit-exact agreement
    when the compact view keeps every plane. *)

From Stdlib Require Import ZArith Lia Bool Floats.SpecFloat.
From stdpp Require Import base list numbers.
From S2P Require Import Prelude Core F32 Schema PerTile Uniform.

#[local] Open Scope Z_scope.

Inductive Allocation : Type :=
| AUniform (layout : AdditiveLayout) (planes scale_units : Z)
| APerTile (index : PerTileIndex).

Record AdditiveView : Type := MkView {
  av_allocation : Allocation;
  av_trits : list Trit;
  av_scales : list f32 }.

(** [num as f32 / den as f32]. *)
Definition tied_ratio (num den : Z) : f32 := f32_div (f32_of_Z num) (f32_of_Z den).

(** The tied loop of [validate_scales] for one base scale. *)
Definition validate_tied (ratio : f32) (planes : Z) (base_scale : f32) (_ : unit) : res AdditiveError unit :=
  let* _ := for_range 1 planes (fun _ plane_scale =>
    let plane_scale := f32_mul plane_scale ratio in
    if is_finite plane_scale then Ok plane_scale else Err InvalidScale) base_scale in
  Ok tt.

Definition validate_scales (layout : AdditiveLayout) (planes : Z) (scales : list f32) : res AdditiveError unit :=
  if existsb (fun scale => negb (is_finite scale) || f32_ltb scale f32_zero) scales then Err InvalidScale else
  match relation (law layout) with
  | Tied num den => for_each scales (validate_tied (tied_ratio num den) planes) tt
  | Free => Ok tt
  end.

Definition view_new (layout : AdditiveLayout) (plane_count : Z) (trits : list Trit) (scales : list f32)
  : res AdditiveError AdditiveView :=
  let* expected_trits := uniform_trit_count layout plane_count in
  if negb (zlen trits =? expected_trits) then Err (TritCountMismatch expected_trits (zlen trits)) else
  let* (scale_units, expected_scales) := uniform_scale_counts layout plane_count in
  if negb (zlen scales =? expected_scales) then Err (ScaleCountMismatch expected_scales (zlen scales)) else
  let* _ := validate_scales layout plane_count scales in
  Ok (MkView (AUniform layout plane_count scale_units) trits scales).

Definition view_new_per_tile (index : PerTileIndex) (trits : list Trit) (scales : list f32)
  : res AdditiveError AdditiveView :=
  let g := ix_geometry index in
  if negb (zlen trits =? g_trits g) then Err (TritCountMismatch (g_trits g) (zlen trits)) else
  if negb (zlen scales =? g_scales g) then Err (ScaleCountMismatch (g_scales g) (zlen scales)) else
  let* _ := validate_scales (ix_layout index) (g_planes g) scales in
  Ok (MkView (APerTile index) trits scales).

Definition view_layout (self : AdditiveView) : AdditiveLayout :=
  match av_allocation self with
  | AUniform layout _ _ => layout
  | APerTile index => ix_layout index
  end.

Definition view_plane_count (self : AdditiveView) : Z :=
  match av_allocation self with
  | AUniform _ planes _ => planes
  | APerTile index => g_planes (ix_geometry index)
  end.

Definition tile_counts (self : AdditiveView) : option (list Z) :=
  match av_allocation self with
  | AUniform _ _ _ => None
  | APerTile index => Some (ix_counts index)
  end.

Definition auxiliary_buffer_len_bytes (self : AdditiveView) : res AdditiveError Z :=
  match av_allocation self with
  | AUniform _ _ _ => Ok 0
  | APerTile index => buffer_len_bytes (zlen (ix_counts index)) (zlen (ix_spans index))
  end.

Definition plane_trits (self : AdditiveView) (plane : Z) : res AdditiveError (list Trit) :=
  if view_plane_count self <=? plane then Err InvalidPlaneCount else
  let* (a, b) := match av_allocation self with
    | APerTile index => plane_range index plane
    | AUniform layout _ _ =>
        let* coefficients := mul_usize (rows layout) (cols layout) in
        let* a := mul_usize plane coefficients in
        let* n := add_usize plane 1 in
        let* b := mul_usize n coefficients in Ok (a, b)
    end in
  slice (av_trits self) a b.

(** [for tile in index.row_tiles(plane, row) { .. }]. *)
Fixpoint for_tiles {S} (fuel : nat) (tiles : ActiveTiles) (f : ActiveTile -> S -> res AdditiveError S) (s : S)
  : res AdditiveError S :=
  match fuel with
  | O => NoFuel
  | Datatypes.S fuel =>
      let* (t, tiles) := next tiles in
      match t with
      | None => Ok s
      | Some t => let* s := f t s in for_tiles fuel tiles f s
      end
  end.

Definition for_row_tiles {S} (index : PerTileIndex) (plane row : Z)
    (f : ActiveTile -> S -> res AdditiveError S) (s : S) : res AdditiveError S :=
  let* tiles := row_tiles index plane row in
  for_tiles (Datatypes.S (Z.to_nat (g_tiles (ix_geometry index)))) tiles f s.

Definition stored_scale (self : AdditiveView) (plane stored : Z) : res AdditiveError f32 :=
  match relation (law (view_layout self)) with
  | Free => idx (av_scales self) stored
  | Tied num den =>
      let ratio := tied_ratio num den in
      let* base := idx (av_scales self) stored in
      let* scale := for_range 0 plane (fun _ scale => Ok (f32_mul scale ratio)) base in
      if is_finite scale then Ok scale else Err InvalidScale
  end.

Definition scale_unit (self : AdditiveView) (row col : Z) : res AdditiveError Z :=
  uniform_scale_unit (view_layout self) row col.

Definition scale (self : AdditiveView) (plane unit : Z) : res AdditiveError f32 :=
  match av_allocation self with
  | APerTile _ => Panic
  | AUniform _ _ scale_units =>
      let* stored := match relation (law (view_layout self)) with
        | Free => let* base := mul_usize plane scale_units in add_usize base unit
        | Tied _ _ => Ok unit
        end in
      stored_scale self plane stored
  end.

(** [out\[i\] += trit.to_f32() * scale]. *)
Definition add_coefficient (out : list f32) (i : Z) (tr : Trit) (s : f32) : res AdditiveError (list f32) :=
  let* value := idx out i in
  upd out i (f32_add value (f32_mul (f32_of_Z (get tr)) s)).

Definition dequant_tile (self : AdditiveView) (plane : Z) (tile : ActiveTile) (out : list f32)
  : res AdditiveError (list f32) :=
  for_range 0 (at_len tile) (fun offset out =>
    let* scale_index := add_usize (at_scale tile)
      (if bool_decide (anchor (law (view_layout self)) = Group) then offset / group (view_layout self) else 0) in
    let* col := add_usize (at_col tile) offset in
    let* at_ := add_usize (at_trit tile) offset in
    let* tr := idx (av_trits self) at_ in
    let* s := stored_scale self plane scale_index in
    add_coefficient out col tr s) out.

Definition dequant_row_into (self : AdditiveView) (row : Z) (out : list f32) : res AdditiveError (list f32) :=
  let rows := rows (view_layout self) in
  let cols := cols (view_layout self) in
  if rows <=? row then Err RowOutOfRange else
  if negb (zlen out =? cols) then Err (OutputLength cols (zlen out)) else
  let out := vec f32_zero cols in
  match av_allocation self with
  | APerTile index =>
      for_range 0 (view_plane_count self) (fun plane out =>
        for_row_tiles index plane row (dequant_tile self plane) out) out
  | AUniform _ _ _ =>
      for_range 0 (view_plane_count self) (fun plane out =>
        let* p := mul_usize plane rows in
        let* p := mul_usize p cols in
        let* r := mul_usize row cols in
        let* trit_start := add_usize p r in
        for_range 0 cols (fun col out =>
          let* unit := scale_unit self row col in
          let* s := scale self plane unit in
          let* at_ := add_usize trit_start col in
          let* tr := idx (av_trits self) at_ in
          add_coefficient out col tr s) out) out
  end.

(** Add, subtract or skip the activation. *)
Definition accumulate (tr : Trit) (partial a : f32) : f32 :=
  if get tr =? 1 then f32_add partial a else if get tr =? -1 then f32_sub partial a else partial.

(** [(lo..hi).step_by(step)], which panics on a zero step. *)
Definition for_step {E S} (lo hi step : Z) (f : Z -> S -> res E S) (s : S) : res E S :=
  if step =? 0 then Panic else
  for_range 0 (div_ceil (hi - lo) step) (fun k s => f (lo + k * step) s) s.

(** The coefficients [from..to] of a tile against the activation. *)
Definition dot_span (self : AdditiveView) (tile : ActiveTile) (activation : list f32) (from to : Z) (partial : f32)
  : res AdditiveError f32 :=
  for_range from to (fun offset partial =>
    let* at_ := add_usize (at_trit tile) offset in
    let* tr := idx (av_trits self) at_ in
    if get tr =? 0 then Ok partial else
    let* col := add_usize (at_col tile) offset in
    let* a := idx activation col in
    Ok (accumulate tr partial a)) partial.

(** One tile of [dot_compact_row]; the state is [(sum, tensor_partial)]. *)
Definition dot_tile (self : AdditiveView) (activation : list f32) (plane : Z) (tile : ActiveTile) (st : f32 * f32)
  : res AdditiveError (f32 * f32) :=
  let group := group (view_layout self) in
  let tensor_anchor := bool_decide (anchor (law (view_layout self)) = Tensor) in
  let width := if tensor_anchor then at_len tile else group in
  for_step 0 (at_len tile) width (fun start st =>
    let '(sum, tensor_partial) := st in
    let* stop := add_usize start width in
    let* partial := dot_span self tile activation start (Z.min stop (at_len tile))
      (if tensor_anchor then tensor_partial else f32_zero) in
    if tensor_anchor then Ok (sum, partial) else
    let* at_ := add_usize (at_scale tile) (start / group) in
    let* s := stored_scale self plane at_ in
    Ok (f32_add sum (f32_mul partial s), tensor_partial)) st.

Definition dot_compact_row (self : AdditiveView) (index : PerTileIndex) (row : Z) (activation : list f32)
  : res AdditiveError f32 :=
  let tensor_anchor := bool_decide (anchor (law (view_layout self)) = Tensor) in
  for_range 0 (view_plane_count self) (fun plane sum =>
    let* (sum, tensor_partial) := for_row_tiles index plane row (dot_tile self activation plane) (sum, f32_zero) in
    if tensor_anchor then
      let* s := stored_scale self plane plane in
      Ok (f32_add sum (f32_mul tensor_partial s))
    else Ok sum) f32_zero.

(** One group (or the whole row) of [dot_row] on a uniform view. *)
Definition dot_unit (self : AdditiveView) (row plane plane_start : Z) (activation : list f32) (unit : Z) (sum : f32)
  : res AdditiveError f32 :=
  let cols := cols (view_layout self) in
  let group := group (view_layout self) in
  let group_anchor := bool_decide (anchor (law (view_layout self)) = Group) in
  let* start := if group_anchor then mul_usize unit group else Ok 0 in
  let* stop := if group_anchor then let* e := add_usize start group in Ok (Z.min e cols) else Ok cols in
  let* partial := for_range start (Z.min stop (zlen activation)) (fun col partial =>
    let* at_ := add_usize plane_start col in
    let* tr := idx (av_trits self) at_ in
    let* a := idx activation col in
    Ok (accumulate tr partial a)) f32_zero in
  let* u := scale_unit self row start in
  let* s := scale self plane u in
  Ok (f32_add sum (f32_mul partial s)).

Definition dot_row (self : AdditiveView) (row : Z) (activation : list f32) : res AdditiveError f32 :=
  match av_allocation self with
  | APerTile index => dot_compact_row self index row activation
  | AUniform _ _ _ =>
      let rows := rows (view_layout self) in
      let cols := cols (view_layout self) in
      let groups := if bool_decide (anchor (law (view_layout self)) = Group)
        then div_ceil cols (group (view_layout self)) else 1 in
      for_range 0 (view_plane_count self) (fun plane sum =>
        let* p := mul_usize plane rows in
        let* p := mul_usize p cols in
        let* r := mul_usize row cols in
        let* plane_start := add_usize p r in
        for_range 0 groups (dot_unit self row plane plane_start activation) sum) f32_zero
  end.

(** * Loops *)

Lemma for_range_split {E S} lo mid hi (f : Z -> S -> res E S) s : lo <= mid <= hi ->
  for_range lo hi f s = let* s := for_range lo mid f s in for_range mid hi f s.
Proof.
  intros H. unfold for_range. replace (Z.to_nat (hi - lo)) with (Z.to_nat (mid - lo) + Z.to_nat (hi - mid))%nat by lia.
  assert (Hm : mid = lo + Z.of_nat (Z.to_nat (mid - lo))) by lia. revert Hm. generalize (Z.to_nat (mid - lo)) as n.
  intros n. generalize (Z.to_nat (hi - mid)) as k. intros k Hm. rewrite Hm. clear Hm H. revert lo s.
  induction n as [|n IH]; intros lo s; simpl.
  - by rewrite Z.add_0_r.
  - destruct (f lo s); simpl; [|done..]. rewrite IH. by replace (lo + 1 + Z.of_nat n) with (lo + Z.pos (Pos.of_succ_nat n)) by lia.
Qed.

Lemma for_n_shift {E S} (f : Z -> S -> res E S) c n : forall lo s,
  for_n n lo (fun i => f (c + i)) s = for_n n (c + lo) f s.
Proof.
  induction n as [|n IH]; intros lo s; [done|]. simpl. destruct (f (c + lo) s); simpl; [|done..].
  rewrite IH. by replace (c + (lo + 1)) with (c + lo + 1) by lia.
Qed.

Lemma for_range_shift {E S} (f : Z -> S -> res E S) c lo hi s :
  for_range lo hi (fun i => f (c + i)) s = for_range (c + lo) (c + hi) f s.
Proof. unfold for_range. rewrite for_n_shift. by replace (c + hi - (c + lo)) with (hi - lo) by lia. Qed.

Lemma for_range_pair {E S T} (f : Z -> S -> res E S) (x : T) lo hi s :
  for_range lo hi (fun i st => let* s := f i (fst st) in Ok (s, snd st)) (s, x) =
  let* s := for_range lo hi f s in Ok (s, x).
Proof.
  unfold for_range. generalize (Z.to_nat (hi - lo)) as n. intros n. revert lo s.
  induction n as [|n IH]; intros lo s; [done|]. simpl. destruct (f lo s); simpl; [|done..]. apply IH.
Qed.

Lemma for_range_snd {E S T} (f : Z -> S -> res E S) (x : T) lo hi s :
  for_range lo hi (fun i st => let* s := f i (snd st) in Ok (fst st, s)) (x, s) =
  let* s := for_range lo hi f s in Ok (x, s).
Proof.
  unfold for_range. generalize (Z.to_nat (hi - lo)) as n. intros n. revert lo s.
  induction n as [|n IH]; intros lo s; [done|]. simpl. destruct (f lo s); simpl; [|done..]. apply IH.
Qed.

(** Iterating the cursor is iterating the specified tiles. *)
Lemma for_tiles_spec {S} l counts g ix p r (f : ActiveTile -> S -> res AdditiveError S) k :
  layout_typed l -> geo_ok l counts g -> index_ok l counts g ix -> 0 <= p < g_planes g -> 0 <= r < rows l ->
  forall n fuel s, 0 <= n -> div_ceil (cols l) 256 = n + Z.of_nat k -> (k < fuel)%nat ->
  for_tiles fuel (cursor l counts ix p r n) f s = for_each (row_from l counts p r n) f s.
Proof.
  intros Hty G I Hp Hr. induction k as [|k IH]; intros n fuel s Hn HT Hf; (destruct fuel as [|fuel]; [lia|]); cbn [for_tiles].
  - replace n with (div_ceil (cols l) 256) by lia. rewrite (next_end l counts g G ix I p r), row_from_end. done.
  - rewrite (next_step l counts g Hty G ix I p r Hp Hr n) by lia. rewrite (row_from_step l counts p r n) by lia.
    destruct (active l counts p r n).
    + cbn [bind app for_each]. destruct (f (tile_at l counts p r n) s) as [s'| | |]; cbn [bind]; [|done..]. apply IH; lia.
    + specialize (IH (n + 1) (Datatypes.S fuel) s ltac:(lia) ltac:(lia) ltac:(lia)). exact IH.
Qed.

Lemma for_row_tiles_spec {S} l counts g ix p r (f : ActiveTile -> S -> res AdditiveError S) s :
  layout_typed l -> geo_ok l counts g -> index_ok l counts g ix -> 0 <= p < g_planes g -> 0 <= r < rows l ->
  for_row_tiles ix p r f s = for_each (row_spec l counts p r) f s.
Proof.
  intros Hty G I Hp Hr. destruct (slot_fits l counts g G p r Hp Hr) as [Hf1 Hf2].
  pose proof (slot_bounds l counts g G p r Hp Hr) as Hsl. pose proof (tiles_nonneg l counts g G) as HT.
  unfold for_row_tiles, row_tiles. rewrite (io_geometry _ _ _ _ I), (go_rows _ _ _ G), (go_tiles _ _ _ G).
  rewrite mul_usize_Ok by done. cbn [bind]. rewrite add_usize_Ok by done. cbn [bind].
  rewrite (idx_Ok (ix_spans ix) (p * rows l + r) (span_spec l counts p r)); [|lia|by apply (io_spans _ _ _ _ I)]. cbn [bind].
  apply (for_tiles_spec l counts g ix p r f (Z.to_nat (div_ceil (cols l) 256))); (done || lia).
Qed.

(** * A compact view with every plane *)
Section Full.
  Context (l : AdditiveLayout) (planes : Z) (u : UniformPlan) (g : Geometry) (ix : PerTileIndex).
  Context (trits : list Trit) (scales : list f32).
  Abbreviation lt := (as_per_tile l).
  Abbreviation counts := (full_counts l planes).
  Context (Hty : layout_typed l) (U : uplan_ok l planes u).
  Context (G : geo_ok lt counts g) (Hgp : g_planes g = planes) (I : index_ok lt counts g ix).
  Context (Htr : zlen trits = rows l * cols l * planes) (Hsc : zlen scales = u_scale_count u).
  Abbreviation R := (rows l).
  Abbreviation C := (cols l).
  Abbreviation T := (div_ceil (cols l) 256).
  Abbreviation D := (div_ceil (cols l) (group l)).

Definition vu : AdditiveView := MkView (AUniform l planes (u_scale_units u)) trits scales.
Definition vp : AdditiveView := MkView (APerTile ix) trits scales.

Lemma vp_layout : view_layout vp = lt.
Proof. apply (io_layout _ _ _ _ I). Qed.

Lemma stored_scale_same p i : stored_scale vp p i = stored_scale vu p i.
Proof. unfold stored_scale. rewrite vp_layout. done. Qed.

(** The stored index of the scale of column [c] in row [r] of plane [p]. *)
Definition sidx (p r c : Z) : Z :=
  match anchor (law l), relation (law l) with
  | Group, Free => p * u_scale_units u + (r * D + c / group l)
  | Group, Tied _ _ => r * D + c / group l
  | _, _ => p
  end.

Lemma full_consecutive {S} (F : Z -> S -> res AdditiveError S) (f : ActiveTile -> S -> res AdditiveError S) (pos : Z -> Z) p r k :
  0 <= p < planes -> 0 <= r < R ->
  (forall t, 0 <= t < T -> pos t <= pos (t + 1)) ->
  (forall t s, 0 <= t < T -> f (tile_at lt counts p r t) s = for_range (pos t) (pos (t + 1)) F s) ->
  forall n s, 0 <= n -> T = n + Z.of_nat k ->
  for_each (row_from lt counts p r n) f s = for_range (pos n) (pos T) F s.
Proof.
  intros Hp Hr Hpos Hf. induction k as [|k IH]; intros n s Hn HT.
  - replace n with T by lia. rewrite (row_from_end lt counts p r : row_from lt counts p r T = []). unfold for_range. by rewrite Z.sub_diag.
  - rewrite (row_from_step lt counts p r n) by (simpl; lia). rewrite (full_active l planes u Hty U) by lia. cbn [app for_each].
    rewrite Hf by lia.
    assert (Hle : pos (n + 1) <= pos T).
    { clear -Hpos HT Hn. assert (H : forall j m, 0 <= m -> T = m + Z.of_nat j -> pos m <= pos T).
      { induction j as [|j IHj]; intros m Hm Hj; [by replace T with m by lia|]. etransitivity; [apply Hpos; lia|apply IHj; lia]. }
      apply (H k); lia. }
    rewrite (for_range_split (pos n) (pos (n + 1)) (pos T)) by (split; [apply Hpos; lia|done]).
    destruct (for_range (pos n) (pos (n + 1)) F s); cbn [bind]; [|done..]. apply IH; lia.
Qed.

(** Column and group boundaries of the tiles. *)
Definition col_pos (t : Z) : Z := Z.min (t * 256) C.
Definition unit_pos (t : Z) : Z := if t =? T then D else t * 256 / group l.

Lemma col_pos_step t : 0 <= t < T -> col_pos t = t * 256 /\ col_pos (t + 1) = t * 256 + width C t.
Proof. intros Ht. unfold col_pos, width. pose proof (div_ceil_bounds C 256). lia. Qed.

Lemma col_pos_end : col_pos T = C.
Proof. unfold col_pos. pose proof (div_ceil_bounds C 256). lia. Qed.

Lemma group_div t off : 0 <= t -> 0 <= off -> (t * 256 + off) / group l = t * 256 / group l + off / group l.
Proof.
  intros Ht Ho. destruct (group_tile l planes u U) as (q & Hg & Hq & Hgq).
  replace (t * 256) with (t * q * group l) by (rewrite Hgq; ring). rewrite Z.div_add_l, Z.div_mul by lia. done.
Qed.

Lemma unit_pos_step t : 0 <= t < T -> unit_pos t = t * 256 / group l /\ unit_pos (t + 1) = t * 256 / group l + groups_of lt t.
Proof.
  intros Ht. unfold unit_pos. replace (t =? T) with false by lia. split; [done|].
  destruct (Z.eqb_spec (t + 1) T) as [E|E].
  - rewrite <- (groups_total l planes u Hty U), <- E, sumZ_S by lia. by rewrite (groups_sum l planes u U) by lia.
  - rewrite <- !(groups_sum l planes u U) by lia. by rewrite sumZ_S by lia.
Qed.

Definition trit_at (i : Z) : Trit := default ZERO (trits !! Z.to_nat i).

Lemma trit_index p r c : 0 <= p < planes -> 0 <= r < R -> 0 <= c < C ->
  0 <= (p * R + r) * C + c < zlen trits /\ (p * R + r) * C + c <= usize_max /\ p * R <= usize_max /\
  p * R * C <= usize_max /\ r * C <= usize_max /\ p * R * C + r * C <= usize_max.
Proof.
  intros Hp Hr Hc. pose proof (uo_trits _ _ _ U) as Hmax. rewrite Htr.
  assert (H1 : (p * R + r + 1) * C <= planes * R * C) by (apply Z.mul_le_mono_nonneg_r; nia).
  assert (0 <= p * R) by nia. assert (0 <= p * R * C) by nia. assert (0 <= r * C) by nia. assert (p * R <= p * R * C) by nia.
  replace (R * C * planes) with (planes * R * C) in * by ring. split; [lia|]. repeat split; lia.
Qed.

Lemma read_trit p r c : 0 <= p < planes -> 0 <= r < R -> 0 <= c < C ->
  idx (E := AdditiveError) trits ((p * R + r) * C + c) = Ok (trit_at ((p * R + r) * C + c)).
Proof.
  intros Hp Hr Hc. destruct (trit_index p r c Hp Hr Hc) as ([H0 H1] & _). apply idx_Ok; [done|].
  unfold trit_at. destruct (trits !! Z.to_nat _) eqn:E; [done|]. apply lookup_ge_None in E. unfold zlen in H1. lia.
Qed.

Lemma unit_bound r c : 0 <= r < R -> 0 <= c < C -> 0 <= c / group l < D /\ 0 <= r * D + c / group l < R * D.
Proof.
  intros Hr Hc. destruct (group_tile l planes u U) as (q & Hg & Hq & Hgq). pose proof (div_ceil_bounds C (group l) Hg) as Hd.
  assert (H : 0 <= c / group l < D) by (split; [apply Z.div_pos; lia|apply Z.div_lt_upper_bound; lia]). split; [done|nia].
Qed.

Lemma scale_arith p r c : 0 <= p < planes -> 0 <= r < R -> 0 <= c < C ->
  (anchor (law l) = Group -> r * D <= usize_max /\ r * D + c / group l <= usize_max) /\
  p * u_scale_units u <= usize_max /\ 0 <= sidx p r c <= usize_max.
Proof.
  intros Hp Hr Hc. destruct (unit_bound r c Hr Hc) as [Hu1 Hu2].
  pose proof (uo_units _ _ _ U) as Hu. pose proof (uo_scales _ _ _ U) as Hs. pose proof (uo_fits _ _ _ U) as Hf.
  destruct (scale_fits l planes u Hty U p r 0 Hp Hr ltac:(pose proof (upos l planes u Hty U); lia)) as (Hf1 & _ & Hf3 & _).
  unfold sidx. destruct (layout_laws l (uo_layout _ _ _ U)) as [[Ha Hre]|[[Ha Hre]|[Ha Hre]]]; rewrite Ha, Hre in *.
  - rewrite Hs, Hu in Hf. rewrite Hu. assert ((p + 1) * (R * D) <= R * D * planes) by (rewrite Z.mul_comm; apply Z.mul_le_mono_nonneg_l; lia).
    assert (0 <= p * (R * D)) by nia. assert (R * D <= usize_max) by nia. split; [intros _; lia|lia].
  - rewrite Hs, Hu in Hf. split; [intros _; lia|]. split; lia.
  - split; [done|]. split; [done|]. pose proof (upos l planes u Hty U). unfold usize_max. lia.
Qed.

(** The scale lookup of the uniform path. *)
Lemma uniform_lookup p r c {B} (k : f32 -> res AdditiveError B) : 0 <= p < planes -> 0 <= r < R -> 0 <= c < C ->
  (let* unit := scale_unit vu r c in let* s := scale vu p unit in k s) =
  let* s := stored_scale vu p (sidx p r c) in k s.
Proof.
  intros Hp Hr Hc. destruct (scale_arith p r c Hp Hr Hc) as (H1 & H2 & H3).
  unfold scale_unit, uniform_scale_unit, scale. cbn [vu view_layout av_allocation]. unfold sidx in *.
  destruct (layout_laws l (uo_layout _ _ _ U)) as [[Ha Hre]|[[Ha Hre]|[Ha Hre]]]; rewrite Ha, ?Hre in *.
  - destruct (H1 eq_refl) as [H4 H5]. rewrite mul_usize_Ok by done. cbn [bind]. rewrite add_usize_Ok by done. cbn [bind].
    rewrite mul_usize_Ok by done. cbn [bind]. rewrite add_usize_Ok by lia. done.
  - destruct (H1 eq_refl) as [H4 H5]. rewrite mul_usize_Ok by done. cbn [bind]. rewrite add_usize_Ok by done. done.
  - cbn [bind]. rewrite mul_usize_Ok by done. cbn [bind]. rewrite (uo_units _ _ _ U), Ha.
    rewrite add_usize_Ok by lia. cbn [bind]. by replace (p * 1 + 0) with p by lia.
Qed.

(** The scale lookup of the compact path. *)
Lemma compact_sidx p r t off : 0 <= p < planes -> 0 <= r < R -> 0 <= t < T -> 0 <= off ->
  at_scale (tile_at lt counts p r t) + (if bool_decide (anchor (law l) = Group) then off / group l else 0)
  = sidx p r (t * 256 + off).
Proof.
  intros Hp Hr Ht Ho. simpl. rewrite (full_scale_off l planes u Hty U) by done. unfold uniform_scale, sidx.
  destruct (layout_laws l (uo_layout _ _ _ U)) as [[Ha Hre]|[[Ha Hre]|[Ha Hre]]]; rewrite Ha, ?Hre.
  - rewrite bool_decide_eq_true_2, group_div by (done || lia). lia.
  - rewrite bool_decide_eq_true_2, group_div by (done || lia). lia.
  - rewrite bool_decide_eq_false_2 by done. lia.
Qed.

(** One column of a decoded row. *)
Definition dequant_col (p r c : Z) (out : list f32) : res AdditiveError (list f32) :=
  let* s := stored_scale vu p (sidx p r c) in add_coefficient out c (trit_at ((p * R + r) * C + c)) s.

Lemma dequant_tile_cols p r t out : 0 <= p < planes -> 0 <= r < R -> 0 <= t < T ->
  dequant_tile vp p (tile_at lt counts p r t) out = for_range (col_pos t) (col_pos (t + 1)) (dequant_col p r) out.
Proof.
  intros Hp Hr Ht. destruct (col_pos_step t Ht) as [E1 E2]. rewrite E1, E2.
  replace (t * 256) with (t * 256 + 0) at 1 by lia. rewrite <- (for_range_shift (dequant_col p r)).
  unfold dequant_tile. apply for_range_ext. intros off out' Ho. pose proof (width_bounds l t Ht) as Hw. simpl at_len in Ho. simpl cols in Ho.
  assert (Hc : 0 <= t * 256 + off < C) by (unfold width in Ho; pose proof (div_ceil_bounds C 256); lia).
  destruct (scale_arith p r (t * 256 + off) Hp Hr Hc) as (_ & _ & Hs). destruct (trit_index p r _ Hp Hr Hc) as (_ & Hi & _).
  rewrite vp_layout. simpl law. simpl group. pose proof (compact_sidx p r t off Hp Hr Ht ltac:(lia)) as Hci.
  rewrite add_usize_Ok by lia. cbn [bind]. rewrite Hci. cbn [tile_at at_col at_trit].
  destruct Hty as (_ & Hcu & _). unfold is_u64 in Hcu. rewrite add_usize_Ok by (unfold usize_max; lia). cbn [bind].
  rewrite (full_trit_off l planes u Hty U) by done. rewrite add_usize_Ok by lia. cbn [bind].
  rewrite <- Z.add_assoc. cbn [vp av_trits]. rewrite read_trit by done. cbn [bind]. by rewrite stored_scale_same.
Qed.

Lemma dequant_same r out : 0 <= r < R ->
  dequant_row_into vp r out = dequant_row_into vu r out.
Proof.
  intros Hr. destruct (upos l planes u Hty U) as (HR & HC & HT & Hpl). unfold dequant_row_into. rewrite vp_layout.
  change (rows lt) with R. change (cols lt) with C. change (view_layout vu) with l. replace (R <=? r) with false by lia. destruct (negb _); [done|].
  unfold view_plane_count. cbn [vp vu av_allocation]. rewrite (io_geometry _ _ _ _ I), Hgp.
  apply for_range_ext. intros p out' Hp.
  assert (Hp' : 0 <= p < g_planes g) by lia.
  rewrite (for_row_tiles_spec lt counts g ix p r _ _ Hty G I Hp' Hr). unfold row_spec.
  rewrite (full_consecutive (dequant_col p r) _ col_pos p r (Z.to_nat T) Hp Hr); [| |by intros; apply dequant_tile_cols|lia|lia]; cycle 1.
  { intros t Ht. destruct (col_pos_step t Ht) as [-> ->]. pose proof (width_bounds l t Ht). lia. }
  rewrite col_pos_end. replace (col_pos 0) with 0 by (unfold col_pos; lia).
  destruct (trit_index p r 0 Hp Hr ltac:(lia)) as (_ & _ & Hi1 & Hi2 & Hi3 & Hi4).
  rewrite mul_usize_Ok by done. cbn [bind]. rewrite mul_usize_Ok by done. cbn [bind]. rewrite mul_usize_Ok by done. cbn [bind].
  rewrite add_usize_Ok by done. cbn [bind]. apply for_range_ext. intros c out'' Hc.
  rewrite (uniform_lookup p r c) by lia. unfold dequant_col. destruct (stored_scale vu p (sidx p r c)); cbn [bind]; [|done..].
  destruct (trit_index p r c Hp Hr ltac:(lia)) as (_ & Hi & _).
  replace (p * R * C + r * C + c) with ((p * R + r) * C + c) by ring. rewrite add_usize_Ok by lia. cbn [bind].
  replace (p * R * C + r * C + c) with ((p * R + r) * C + c) by ring. cbn [vu av_trits]. by rewrite read_trit by lia.
Qed.

(** * Dot products *)
  Context (activation : list f32) (Hact : zlen activation = C) (Hlen : zlen trits <= isize_max).

(** One column of a dot product. *)
Definition dot_col (p r c : Z) (partial : f32) : res AdditiveError f32 :=
  let* a := idx activation c in Ok (accumulate (trit_at ((p * R + r) * C + c)) partial a).

(** One scale group of a dot product. *)
Definition dot_group (p r U : Z) (sum : f32) : res AdditiveError f32 :=
  let* partial := for_range (U * group l) (Z.min (U * group l + group l) C) (dot_col p r) f32_zero in
  let* s := stored_scale vu p (sidx p r (U * group l)) in
  Ok (f32_add sum (f32_mul partial s)).

Lemma dot_span_cols p r t a b partial : 0 <= p < planes -> 0 <= r < R -> 0 <= t < T -> 0 <= a -> b <= width C t ->
  dot_span vp (tile_at lt counts p r t) activation a b partial = for_range (t * 256 + a) (t * 256 + b) (dot_col p r) partial.
Proof.
  intros Hp Hr Ht Ha Hb. rewrite <- (for_range_shift (dot_col p r)). unfold dot_span. apply for_range_ext. intros off part Ho.
  assert (Hc : 0 <= t * 256 + off < C) by (unfold width in Hb; pose proof (div_ceil_bounds C 256); lia).
  destruct (trit_index p r _ Hp Hr Hc) as (_ & Hi & _). destruct Hty as (_ & Hcu & _). unfold is_u64 in Hcu.
  cbn [tile_at at_trit at_col]. rewrite (full_trit_off l planes u Hty U) by done. rewrite add_usize_Ok by lia. cbn [bind].
  rewrite <- Z.add_assoc. cbn [vp av_trits]. rewrite read_trit by done. cbn [bind].
  rewrite add_usize_Ok by (unfold usize_max; lia). cbn [bind]. unfold dot_col.
  destruct (idx_in (E := AdditiveError) activation (t * 256 + off) ltac:(lia)) as (a' & Ha' & _). rewrite Ha'. cbn [bind].
  unfold accumulate. by destruct (trit_at _).
Qed.

Lemma unit_start t k : 0 <= t -> 0 <= k -> (t * 256 / group l + k) * group l = t * 256 + k * group l.
Proof.
  intros Ht Hk. destruct (group_tile l planes u U) as (q & Hg & Hq & Hgq).
  assert (E : t * 256 / group l = t * q).
  { replace (t * 256) with (t * q * group l) by (rewrite Hgq; ring). by rewrite Z.div_mul by lia. }
  rewrite E, Z.mul_add_distr_r. f_equal. rewrite Hgq. ring.
Qed.

Lemma dot_tile_groups p r t sum tp : anchor (law l) = Group -> 0 <= p < planes -> 0 <= r < R -> 0 <= t < T ->
  dot_tile vp activation p (tile_at lt counts p r t) (sum, tp) =
  for_range (unit_pos t) (unit_pos (t + 1)) (fun U st => let* s := dot_group p r U (fst st) in Ok (s, snd st)) (sum, tp).
Proof.
  intros Ha Hp Hr Ht. destruct (unit_pos_step t Ht) as [E1 E2]. rewrite E1, E2. pose proof (width_bounds l t Ht) as Hw.
  destruct (group_tile l planes u U) as (q & Hg & Hq & Hgq). pose proof (div_ceil_bounds (width C t) (group l) Hg) as Hd.
  replace (t * 256 / group l) with (t * 256 / group l + 0) at 1 by lia.
  rewrite <- (for_range_shift (fun U st => let* s := dot_group p r U (fst st) in Ok (s, snd st))).
  unfold dot_tile, for_step. rewrite vp_layout. change (law lt) with (law l). change (group lt) with (group l). rewrite Ha.
  rewrite bool_decide_eq_false_2 by done. replace (group l =? 0) with false by lia. cbn [tile_at at_len]. rewrite Z.sub_0_r.
  change (cols lt) with C. change (groups_of lt t) with (div_ceil (width C t) (group l)).
  apply for_range_ext. intros k [sum' tp'] Hk. rewrite Z.add_0_l. cbn [fst snd].
  assert (Hkg : k * group l < width C t) by nia. assert (Hkq : k * group l + group l <= 256) by nia.
  rewrite add_usize_Ok by (unfold usize_max; lia). cbn [bind].
  change (dot_span vp (MkTile (t * 256) (width C t) (trit_off lt counts p r t) (scale_off lt counts p r t)))
    with (dot_span vp (tile_at lt counts p r t)). rewrite dot_span_cols by (done || lia).
  unfold dot_group. rewrite unit_start by lia.
  replace (Z.min (t * 256 + k * group l + group l) C) with (t * 256 + Z.min (k * group l + group l) (width C t))
    by (unfold width in *; lia).
  destruct (for_range _ _ (dot_col p r) f32_zero) as [part| | |]; cbn [bind]; [|done..].
  assert (Hc : 0 <= t * 256 + k * group l < C) by (unfold width in *; lia).
  pose proof (compact_sidx p r t (k * group l) Hp Hr Ht ltac:(nia)) as Hci. rewrite bool_decide_eq_true_2 in Hci by done.
  cbn [tile_at at_scale] in *. destruct (scale_arith p r _ Hp Hr Hc) as (_ & _ & Hs). rewrite add_usize_Ok by lia. cbn [bind].
  rewrite Hci, stored_scale_same. by destruct (stored_scale vu p _).
Qed.

Lemma dot_tile_tensor p r t sum tp : anchor (law l) = Tensor -> 0 <= p < planes -> 0 <= r < R -> 0 <= t < T ->
  dot_tile vp activation p (tile_at lt counts p r t) (sum, tp) =
  for_range (col_pos t) (col_pos (t + 1)) (fun c st => let* s := dot_col p r c (snd st) in Ok (fst st, s)) (sum, tp).
Proof.
  intros Ha Hp Hr Ht. destruct (col_pos_step t Ht) as [E1 E2]. rewrite E1, E2, for_range_snd. pose proof (width_bounds l t Ht) as Hw.
  unfold dot_tile, for_step. rewrite vp_layout. change (law lt) with (law l). rewrite Ha.
  rewrite bool_decide_eq_true_2 by done. cbn [tile_at at_len]. change (cols lt) with C.
  replace (width C t =? 0) with false by lia. rewrite Z.sub_0_r.
  assert (E3 : div_ceil (width C t * 1) (width C t) = 1) by (apply div_ceil_exact; lia). rewrite Z.mul_1_r in E3. rewrite E3.
  unfold for_range at 1. simpl for_n. rewrite Z.add_0_l. rewrite add_usize_Ok by (unfold usize_max; lia). cbn [bind].
  change (dot_span vp (MkTile (t * 256) (width C t) (trit_off lt counts p r t) (scale_off lt counts p r t)))
    with (dot_span vp (tile_at lt counts p r t)). rewrite dot_span_cols by (done || lia).
  rewrite Z.add_0_r. replace (t * 256 + Z.min (0 * width C t + width C t) (width C t)) with (t * 256 + width C t) by lia.
  by destruct (for_range _ _ (dot_col p r) tp).
Qed.

(** A group of the uniform path. *)
Lemma dot_unit_group p r w sum : anchor (law l) = Group -> 0 <= p < planes -> 0 <= r < R -> 0 <= w < D ->
  dot_unit vu r p (p * R * C + r * C) activation w sum = dot_group p r w sum.
Proof.
  intros Ha Hp Hr Hu. destruct (group_tile l planes u U) as (q & Hg & Hq & Hgq).
  pose proof (div_ceil_bounds C (group l) Hg) as Hd. assert (Hc : 0 <= w * group l < C) by nia.
  destruct Hty as (_ & Hcu & _). unfold is_u64 in Hcu. assert (Hg' : group l <= 256) by nia.
  unfold dot_unit, dot_group. change (view_layout vu) with l. rewrite Ha, bool_decide_eq_true_2 by done.
  rewrite mul_usize_Ok by (unfold usize_max; lia). cbn [bind].
  assert (Hfit : C <= isize_max).
  { pose proof (upos l planes u Hty U) as (HR & HC & _ & Hpl). rewrite Htr in Hlen.
    assert (C <= R * C) by (clear -HR HC; nia). assert (R * C <= R * C * planes) by (clear -HR HC Hpl; nia). lia. }
  rewrite add_usize_Ok by (unfold usize_max, isize_max in *; lia). cbn [bind]. rewrite Hact, Z.min_l by lia.
  assert (Hloop : for_range (w * group l) (Z.min (w * group l + group l) C) (fun col partial =>
      let* at_ := add_usize (p * R * C + r * C) col in let* tr := idx (av_trits vu) at_ in
      let* a := idx activation col in Ok (accumulate tr partial a)) f32_zero
    = for_range (w * group l) (Z.min (w * group l + group l) C) (dot_col p r) f32_zero).
  { apply for_range_ext. intros c part Hcc. destruct (trit_index p r c Hp Hr ltac:(lia)) as (_ & Hi & _).
    replace (p * R * C + r * C) with ((p * R + r) * C) by ring. rewrite add_usize_Ok by lia. cbn [bind vu av_trits].
    by rewrite read_trit by lia. }
  rewrite Hloop. destruct (for_range _ _ (dot_col p r) f32_zero) as [part| | |]; cbn [bind]; [|done..].
  by rewrite (uniform_lookup p r (w * group l)) by done.
Qed.

(** The row of the uniform path under a tensor scale. *)
Lemma dot_unit_tensor p r sum : anchor (law l) = Tensor -> 0 <= p < planes -> 0 <= r < R ->
  dot_unit vu r p (p * R * C + r * C) activation 0 sum =
  let* partial := for_range 0 C (dot_col p r) f32_zero in
  let* s := stored_scale vu p p in Ok (f32_add sum (f32_mul partial s)).
Proof.
  intros Ha Hp Hr. destruct (upos l planes u Hty U) as (HR & HC & HT & Hpl).
  unfold dot_unit. change (view_layout vu) with l. rewrite Ha, bool_decide_eq_false_2 by done. cbn [bind].
  rewrite Hact, Z.min_id.
  assert (Hloop : for_range 0 C (fun col partial =>
      let* at_ := add_usize (p * R * C + r * C) col in let* tr := idx (av_trits vu) at_ in
      let* a := idx activation col in Ok (accumulate tr partial a)) f32_zero
    = for_range 0 C (dot_col p r) f32_zero).
  { apply for_range_ext. intros c part Hcc. destruct (trit_index p r c Hp Hr ltac:(lia)) as (_ & Hi & _).
    replace (p * R * C + r * C) with ((p * R + r) * C) by ring. rewrite add_usize_Ok by lia. cbn [bind vu av_trits].
    by rewrite read_trit by lia. }
  rewrite Hloop. destruct (for_range 0 C (dot_col p r) f32_zero) as [part| | |]; cbn [bind]; [|done..].
  rewrite (uniform_lookup p r 0) by (done || lia). by replace (sidx p r 0) with p by (unfold sidx; by rewrite Ha).
Qed.

Lemma dot_same r : 0 <= r < R -> dot_row vp r activation = dot_row vu r activation.
Proof.
  intros Hr. destruct (upos l planes u Hty U) as (HR & HC & HT & Hpl).
  unfold dot_row, dot_compact_row. rewrite vp_layout. change (view_layout vu) with l. change (law lt) with (law l).
  unfold view_plane_count. cbn [vp vu av_allocation]. rewrite (io_geometry _ _ _ _ I), Hgp.
  apply for_range_ext. intros p sum Hp. assert (Hp' : 0 <= p < g_planes g) by lia.
  rewrite (for_row_tiles_spec lt counts g ix p r _ _ Hty G I Hp' Hr). unfold row_spec.
  destruct (trit_index p r 0 Hp Hr ltac:(lia)) as (_ & _ & Hi1 & Hi2 & Hi3 & Hi4).
  rewrite mul_usize_Ok by done. cbn [bind]. rewrite mul_usize_Ok by done. cbn [bind]. rewrite mul_usize_Ok by done. cbn [bind].
  rewrite add_usize_Ok by done. cbn [bind].
  assert (Hgt : anchor (law l) = Group \/ anchor (law l) = Tensor) by (destruct (layout_laws l (uo_layout _ _ _ U)); tauto).
  destruct Hgt as [Ha|Ha]; rewrite Ha.
  - rewrite bool_decide_eq_false_2, bool_decide_eq_true_2 by done.
    change (MkView (APerTile ix) trits scales) with vp.
    rewrite (full_consecutive (fun w st => let* s := dot_group p r w (fst st) in Ok (s, snd st)) _ unit_pos p r (Z.to_nat T) Hp Hr); [| | |lia|lia].
    + unfold unit_pos. rewrite Z.eqb_refl. replace (0 =? T) with false by lia. rewrite Z.mul_0_l, Zdiv_0_l, for_range_pair.
      rewrite (for_range_ext (dot_unit _ _ _ _ _) (dot_group p r)) by (intros; apply dot_unit_group; done || lia).
      by destruct (for_range 0 D (dot_group p r) sum).
    + intros t Ht. destruct (unit_pos_step t Ht) as [-> ->]. pose proof (groups_bounds lt (go_layout _ _ _ G) t Ht). lia.
    + intros t [s1 s2] Ht. by apply dot_tile_groups.
  - rewrite bool_decide_eq_true_2, (bool_decide_eq_false_2 (Tensor = Group)) by done.
    change (MkView (APerTile ix) trits scales) with vp.
    rewrite (full_consecutive (fun c st => let* s := dot_col p r c (snd st) in Ok (fst st, s)) _ col_pos p r (Z.to_nat T) Hp Hr); [| | |lia|lia].
    + rewrite col_pos_end. replace (col_pos 0) with 0 by (unfold col_pos; lia). rewrite for_range_snd.
      unfold for_range at 2. simpl for_n. change (MkView (AUniform l planes (u_scale_units u)) trits scales) with vu.
      rewrite dot_unit_tensor by done. destruct (for_range 0 C (dot_col p r) f32_zero) as [part| | |]; cbn [bind]; [|done..].
      rewrite stored_scale_same. by destruct (stored_scale vu p p).
    + intros t Ht. destruct (col_pos_step t Ht) as [-> ->]. pose proof (width_bounds l t Ht). lia.
    + intros t [s1 s2] Ht. by apply dot_tile_tensor.
Qed.
End Full.
