(* ===== verification/Basis.v ===== *)
(** * Input-axis bases (crates/tritium-core/src/additive.rs, basis functions)

    The normalized Walsh-Hadamard butterflies, the deterministic signs of the
    randomized transform and their block-wise application, generic in the scalar as
    the code is, with the code's two instances [f32] and [f64]. The inverse is proved
    for every exact scalar: a ring in which the normalization of a block of [2 ^ k]
    squares to the inverse of [2 ^ k], as it does over the reals. The code's own scalars
    round, so for them the theorem speaks of the structure of the two transforms and not of
    their rounding; [apply_inverse_basis] of the code is the [f32] instance. *)

From Stdlib Require Import ZArith Lia Bool Ring_theory Ring Floats.SpecFloat.
From stdpp Require Import base list numbers.
From S2P Require Import Prelude F32 Schema PerTile.

#[local] Open Scope Z_scope.

(** The trait [BasisScalar]. *)
Class BasisScalar (T : Type) : Type := {
  bs_add : T -> T -> T;
  bs_sub : T -> T -> T;
  bs_neg : T -> T;
  bs_mul : T -> T -> T;
  normalization : Z -> T }.

Definition hadamard_normalization (log2_block : Z) : f32 :=
  if is_multiple_of log2_block 2 then f32_from_bits (Z.shiftl (127 - log2_block / 2) 23)
  else f32_from_bits (Z.lor (Z.shiftl (126 - log2_block / 2) 23) 0x003504f3).

#[export] Instance f32_scalar : BasisScalar f32 := {
  bs_add := f32_add;
  bs_sub := f32_sub;
  bs_neg := SFopp;
  bs_mul := f32_mul;
  normalization := hadamard_normalization }.

(** [f64] and [f64::from_bits]. *)
Record f64 : Type := F64 { f64_val : spec_float }.
Definition f64_from_bits (bits : Z) : f64 :=
  let s := Z.testbit bits 63 in
  let e := Z.land (Z.shiftr bits 52) 2047 in
  let m := Z.land bits 4503599627370495 in
  let sm v := if s then - v else v in
  F64 (if e =? 2047 then (if m =? 0 then S754_infinity s else S754_nan)
       else if e =? 0 then binary_normalize 53 1024 (sm m) (-1074) s
       else binary_normalize 53 1024 (sm (4503599627370496 + m)) (e - 1075) s).

Definition f64_normalization (log2_block : Z) : f64 :=
  if is_multiple_of log2_block 2 then f64_from_bits (Z.shiftl (1023 - log2_block / 2) 52)
  else f64_from_bits (Z.lor (Z.shiftl (1022 - log2_block / 2) 52) 0x0006a09e667f3bcc).

#[export] Instance f64_scalar : BasisScalar f64 := {
  bs_add x y := F64 (SFadd 53 1024 (f64_val x) (f64_val y));
  bs_sub x y := F64 (SFsub 53 1024 (f64_val x) (f64_val y));
  bs_neg x := F64 (SFopp (f64_val x));
  bs_mul x y := F64 (SFmul 53 1024 (f64_val x) (f64_val y));
  normalization := f64_normalization }.

(** One butterfly. *)
Definition butterfly {T} `{BasisScalar T} (width index : Z) (vector : list T) : res AdditiveError (list T) :=
  let* low := idx vector index in
  let* other := add_usize index width in
  let* high := idx vector other in
  let* vector := upd vector index (bs_add low high) in
  upd vector other (bs_sub low high).

(** One pass at [width]: [for start in (0..block).step_by(width * 2)]. *)
Definition hadamard_pass {T} `{BasisScalar T} (block width : Z) (vector : list T) : res AdditiveError (list T) :=
  let* step := mul_usize width 2 in
  for_range 0 (div_ceil block step) (fun k vector =>
    let start := k * step in
    let* stop := add_usize start width in
    for_range start stop (butterfly width) vector) vector.

(** [while width < block]; one unit of fuel per pass. *)
Fixpoint hadamard_loop {T} `{BasisScalar T} (fuel : nat) (block width : Z) (vector : list T)
  : res AdditiveError (list T) :=
  if block <=? width then Ok vector else
  match fuel with
  | O => NoFuel
  | S fuel =>
      let* vector := hadamard_pass block width vector in
      let* width := mul_usize width 2 in
      hadamard_loop fuel block width vector
  end.

(** [trailing_zeros] of a power of two. *)
Definition trailing_zeros (block : Z) : Z := Z.log2 block.

Definition hadamard_vector {T} `{BasisScalar T} (vector : list T) : res AdditiveError (list T) :=
  let block := zlen vector in
  let* vector := hadamard_loop (Z.to_nat (Z.log2 block) + 1) block 1 vector in
  let n := normalization (trailing_zeros block) in
  Ok ((fun value => bs_mul value n) <$> vector).

Definition group_is_rotatable (len : Z) : bool := is_power_of_two len && (1 <? len).

Definition fast_hadamard_impl {T} `{BasisScalar T} (values : list T) : res AdditiveError (list T) :=
  if is_power_of_two (zlen values) then hadamard_vector values else Panic.
Definition fast_hadamard (values : list f32) : res AdditiveError (list f32) := fast_hadamard_impl values.

Definition fast_hadamard_f64 (values : list f64) : res AdditiveError (list f64) := fast_hadamard_impl values.

Definition validate_basis_blocks (len block : Z) : res AdditiveError Z :=
  if negb (is_power_of_two block) then Err (InvalidLayout InvalidBasisBlock) else
  if negb (is_multiple_of len block) then Err (InvalidLayout BasisBlockDoesNotDivideColumns) else Ok block.

(** [for chunk in values.chunks_exact_mut(block) { f(chunk) }]. *)
Definition for_chunks {T} (block : Z) (f : list T -> res AdditiveError (list T)) (values : list T) : res AdditiveError (list T) :=
  for_range 0 (zlen values / block) (fun k values =>
    let* chunk := f (sub values (k * block) ((k + 1) * block)) in
    Ok (splice values (k * block) chunk)) values.

Definition apply_hadamard_blocks {T} `{BasisScalar T} (values : list T) (block : Z) : res AdditiveError (list T) :=
  let* block := validate_basis_blocks (zlen values) block in
  for_chunks block hadamard_vector values.

(** [wrapping_mul] on [u64]. *)
Definition wrapping_mul64 (a b : Z) : Z := (a * b) mod 18446744073709551616.

Definition splitmix64 (value : Z) : Z :=
  let value := wrapping_mul64 (Z.lxor value (Z.shiftr value 30)) 0xbf58476d1ce4e5b9 in
  let value := wrapping_mul64 (Z.lxor value (Z.shiftr value 27)) 0x94d049bb133111eb in
  Z.lxor value (Z.shiftr value 31).

Definition signed_rht_negative (seed domain index : Z) : bool :=
  let domain_seed := splitmix64 (Z.lxor seed 0x5452495449554d31) in
  let indexed_seed := splitmix64 (Z.lxor domain_seed domain) in
  negb (Z.land (splitmix64 (Z.lxor indexed_seed (wrapping_mul64 index 0x9e3779b97f4a7c15))) 1 =? 0).

Definition apply_signs {T} `{BasisScalar T} (values : list T) (seed domain : Z) : list T :=
  imap (fun index value => if signed_rht_negative seed domain (Z.of_nat index) then bs_neg value else value) values.

Definition apply_forward_basis {T} `{BasisScalar T} (values : list T) (basis : Basis) : res AdditiveError (list T) :=
  match basis with
  | Identity => Ok values
  | Hadamard block => apply_hadamard_blocks values block
  | SignedRht block seed domain =>
      let* _ := validate_basis_blocks (zlen values) block in
      apply_hadamard_blocks (apply_signs values seed domain) block
  end.

Definition apply_basis (values : list f32) (basis : Basis) : res AdditiveError (list f32) :=
  apply_forward_basis values basis.

Definition apply_basis_f64 (values : list f64) (basis : Basis) : res AdditiveError (list f64) :=
  apply_forward_basis values basis.

(** The code fixes the scalar to [f32]; its steps are the generic ones. *)
Definition inverse_basis {T} `{BasisScalar T} (values : list T) (basis : Basis) : res AdditiveError (list T) :=
  match basis with
  | Identity => Ok values
  | Hadamard block => apply_hadamard_blocks values block
  | SignedRht block seed domain =>
      let* values := apply_hadamard_blocks values block in
      Ok (apply_signs values seed domain)
  end.

Definition apply_inverse_basis (values : list f32) (basis : Basis) : res AdditiveError (list f32) :=
  inverse_basis values basis.

(** * Exact scalars *)

Fixpoint pow2 {T} `{BasisScalar T} (one : T) (n : nat) : T :=
  match n with O => one | S n => bs_add (pow2 one n) (pow2 one n) end.

(** Arithmetic without rounding. *)
Class ExactScalar (T : Type) `{BasisScalar T} : Type := {
  es_zero : T;
  es_one : T;
  es_ring : ring_theory es_zero es_one bs_add bs_mul bs_sub bs_neg eq;
  es_norm : forall k, 0 <= k ->
    bs_mul (bs_mul (normalization k) (normalization k)) (pow2 es_one (Z.to_nat k)) = es_one }.

(** * The transform as an operator

    Stage [j] pairs the coordinates that differ in bit [j]. *)

Definition flip (p j : Z) : Z := Z.lxor p (2 ^ j).

Definition stage {T} `{BasisScalar T} (j : Z) (X : Z -> T) (p : Z) : T :=
  if Z.testbit p j then bs_sub (X (flip p j)) (X p) else bs_add (X p) (X (flip p j)).

Fixpoint wht {T} `{BasisScalar T} (n : nat) (X : Z -> T) : Z -> T :=
  match n with O => X | S n => stage (Z.of_nat n) (wht n X) end.

Lemma flip_bit p i j : 0 <= i -> 0 <= j -> Z.testbit (flip p j) i = xorb (Z.testbit p i) (j =? i).
Proof. intros Hi Hj. unfold flip. by rewrite Z.lxor_spec, Z.pow2_bits_eqb. Qed.

Lemma flip_comm p i j : flip (flip p i) j = flip (flip p j) i.
Proof. unfold flip. rewrite !Z.lxor_assoc. f_equal. apply Z.lxor_comm. Qed.

Lemma flip_flip p j : flip (flip p j) j = p.
Proof. unfold flip. by rewrite Z.lxor_assoc, Z.lxor_nilpotent, Z.lxor_0_r. Qed.

Lemma stage_ext {T} `{BasisScalar T} j (X Y : Z -> T) p : (forall q, X q = Y q) -> stage j X p = stage j Y p.
Proof. intros HXY. unfold stage. by rewrite !HXY. Qed.

Lemma wht_ext {T} `{BasisScalar T} n (X Y : Z -> T) : (forall q, X q = Y q) -> forall p, wht n X p = wht n Y p.
Proof. intros HXY. induction n as [|n IH]; [done|]. intros p. by apply stage_ext. Qed.

Section Exact.
  Context {T : Type} `{ES : ExactScalar T}.
  Add Ring exact_ring : es_ring.

Lemma stage_twice j X p : 0 <= j -> stage j (stage j X) p = bs_add (X p) (X p).
Proof.
  intros Hj. unfold stage. rewrite flip_bit, Z.eqb_refl, flip_flip by done.
  destruct (Z.testbit p j); simpl; ring.
Qed.

Lemma stage_comm i j X p : 0 <= i -> 0 <= j -> i <> j -> stage i (stage j X) p = stage j (stage i X) p.
Proof.
  intros Hi Hj Hij. unfold stage. rewrite !flip_bit, (flip_comm p j i) by done.
  replace (i =? j) with false by lia. replace (j =? i) with false by lia. rewrite !xorb_false_r.
  destruct (Z.testbit p i), (Z.testbit p j); ring.
Qed.

Lemma stage_scale j X c p : stage j (fun q => bs_mul (X q) c) p = bs_mul (stage j X p) c.
Proof. unfold stage. destruct (Z.testbit p j); ring. Qed.

Lemma stage_wht_comm n j X p : Z.of_nat n <= j -> stage j (wht n X) p = wht n (stage j X) p.
Proof.
  revert p. induction n as [|n IH]; intros p Hj; [done|]. simpl. rewrite stage_comm by lia.
  apply stage_ext. intros q. apply IH. lia.
Qed.

Lemma wht_scale n X c p : wht n (fun q => bs_mul (X q) c) p = bs_mul (wht n X p) c.
Proof.
  revert p. induction n as [|n IH]; intros p; [done|]. simpl. rewrite <- stage_scale. by apply stage_ext.
Qed.

(** The unnormalized transform is its own inverse up to the block length. *)
Lemma wht_twice n X p : wht n (wht n X) p = bs_mul (pow2 es_one n) (X p).
Proof.
  revert X p. induction n as [|n IH]; intros X p; simpl; [ring|].
  rewrite (stage_ext _ _ (stage (Z.of_nat n) (wht n (wht n X)))) by (intros q; symmetry; by apply stage_wht_comm).
  rewrite stage_twice, IH by lia. ring.
Qed.

Lemma normalized_twice k X p : 0 <= k ->
  let n := normalization k in let H Y q := bs_mul (wht (Z.to_nat k) Y q) n in H (H X) p = X p.
Proof.
  intros Hk n H2. unfold H2. rewrite wht_scale, wht_twice.
  transitivity (bs_mul (bs_mul (bs_mul n n) (pow2 es_one (Z.to_nat k))) (X p)); [ring|].
  unfold n. rewrite es_norm by done. ring.
Qed.
End Exact.

(** * The loops compute the operator *)

Lemma bit_div p j : 0 <= j -> Z.testbit p j = Z.odd (p / 2 ^ j).
Proof. intros Hj. by rewrite Z.testbit_odd, Z.shiftr_div_pow2. Qed.

Lemma flip_up p j : 0 <= j -> Z.testbit p j = false -> flip p j = p + 2 ^ j.
Proof.
  intros Hj Hb. unfold flip. symmetry. apply Z.add_nocarry_lxor. apply Z.bits_inj'. intros n Hn.
  rewrite Z.land_spec, Z.pow2_bits_eqb, Z.bits_0 by done. destruct (Z.eqb_spec j n) as [->|]; [by rewrite Hb|apply andb_false_r].
Qed.

Lemma flip_down p j : 0 <= j -> Z.testbit (p - 2 ^ j) j = false -> flip p j = p - 2 ^ j.
Proof.
  intros Hj Hb. pose proof (flip_up _ j Hj Hb) as Hf. rewrite <- (flip_flip (p - 2 ^ j) j), Hf. f_equal. lia.
Qed.

(** In the block that starts at [c * 2 ^ (j + 1)], the low half has bit [j] clear. *)
Lemma low_half c j a : 0 <= j -> 0 <= a < 2 ^ j -> Z.testbit (c * (2 ^ j * 2) + a) j = false.
Proof.
  intros Hj Ha. rewrite bit_div by done. replace (c * (2 ^ j * 2) + a) with (2 ^ j * (2 * c) + a) by ring.
  destruct (div_mod_row (2 ^ j) (2 * c) a) as [-> _]; [lia..|]. by rewrite Z.odd_mul.
Qed.

Lemma high_half c j a : 0 <= j -> 0 <= a < 2 ^ j -> Z.testbit (c * (2 ^ j * 2) + a + 2 ^ j) j = true.
Proof.
  intros Hj Ha. rewrite bit_div by done. replace (c * (2 ^ j * 2) + a + 2 ^ j) with (2 ^ j * (2 * c + 1) + a) by ring.
  destruct (div_mod_row (2 ^ j) (2 * c + 1) a) as [-> _]; [lia..|]. by rewrite Z.odd_add, Z.odd_mul.
Qed.

Section Loops.
  Context {T : Type} `{BS : BasisScalar T}.

(** [v] holds the values of [X]. *)
Definition reads (v : list T) (X : Z -> T) : Prop := forall p, 0 <= p < zlen v -> v !! Z.to_nat p = Some (X p).

Lemma stage_low c j a X : 0 <= j -> 0 <= a < 2 ^ j ->
  stage j X (c * (2 ^ j * 2) + a) = bs_add (X (c * (2 ^ j * 2) + a)) (X (c * (2 ^ j * 2) + a + 2 ^ j)).
Proof. intros Hj Ha. unfold stage. by rewrite flip_up, low_half by (done || by apply low_half). Qed.

Lemma stage_high c j a X : 0 <= j -> 0 <= a < 2 ^ j ->
  stage j X (c * (2 ^ j * 2) + a + 2 ^ j) = bs_sub (X (c * (2 ^ j * 2) + a)) (X (c * (2 ^ j * 2) + a + 2 ^ j)).
Proof.
  intros Hj Ha. unfold stage. rewrite high_half by done.
  rewrite flip_down; rewrite ?Z.add_simpl_r; [done|done|by apply low_half].
Qed.

(** Whether the pass has transformed coordinate [p] of the block at [s]. *)
Definition paired (s w i p : Z) : bool := ((s <=? p) && (p <? i)) || ((s + w <=? p) && (p <? i + w)).

Lemma butterfly_Ok c j X Y v a : 0 <= j -> zlen v <= isize_max -> 0 <= c -> 0 <= a < 2 ^ j ->
  let s := c * (2 ^ j * 2) in s + 2 ^ j * 2 <= zlen v ->
  (forall p, s <= p < s + 2 ^ j * 2 -> X p = Y p) ->
  reads v (fun p => if paired s (2 ^ j) (s + a) p then stage j X p else Y p) ->
  exists v', butterfly (2 ^ j) (s + a) v = Ok v' /\ zlen v' = zlen v /\
    reads v' (fun p => if paired s (2 ^ j) (s + a + 1) p then stage j X p else Y p).
Proof.
  intros Hj Hv Hc Ha s Hs HX Hr. assert (Hw : 0 < 2 ^ j) by lia. assert (Hs0 : 0 <= s) by nia.
  assert (R1 := Hr (s + a) ltac:(lia)). assert (R2 := Hr (s + a + 2 ^ j) ltac:(lia)). simpl in R1, R2.
  replace (paired s (2 ^ j) (s + a) (s + a)) with false in R1 by (unfold paired; lia).
  replace (paired s (2 ^ j) (s + a) (s + a + 2 ^ j)) with false in R2 by (unfold paired; lia).
  unfold butterfly. rewrite (idx_Ok v (s + a) _ ltac:(lia) R1). cbn [bind].
  rewrite add_usize_Ok by (unfold usize_max, isize_max in *; lia). cbn [bind].
  rewrite (idx_Ok v (s + a + 2 ^ j) _ ltac:(lia) R2). cbn [bind].
  rewrite upd_Ok by lia. cbn [bind]. rewrite upd_Ok by (rewrite zlen_insert; lia).
  eexists. split; [done|]. split; [by rewrite !zlen_insert|]. intros p. rewrite !zlen_insert. intros Hp.
  rewrite !lookup_upd by (rewrite ?zlen_insert; lia).
  destruct (Z.eqb_spec (s + a + 2 ^ j) p) as [<-|]; [|destruct (Z.eqb_spec (s + a) p) as [<-|]].
  - replace (paired _ _ _ _) with true by (unfold paired; lia). unfold s. rewrite stage_high by done. fold s. by rewrite !HX by lia.
  - replace (paired _ _ _ _) with true by (unfold paired; lia). unfold s. rewrite stage_low by done. fold s. by rewrite !HX by lia.
  - rewrite Hr by done. replace (paired s (2 ^ j) (s + a + 1) p) with (paired s (2 ^ j) (s + a) p); [done|].
    unfold paired. apply eq_bool_prop_intro. rewrite !orb_True, !andb_True, !Is_true_true, !Z.leb_le, !Z.ltb_lt. lia.
Qed.

Lemma reads_ext v X Y : (forall p, 0 <= p < zlen v -> X p = Y p) -> reads v X -> reads v Y.
Proof. intros HXY Hr p Hp. by rewrite Hr, HXY. Qed.

(** One block of a pass. *)
Lemma block_Ok c j X v : 0 <= j -> zlen v <= isize_max -> 0 <= c ->
  let s := c * (2 ^ j * 2) in s + 2 ^ j * 2 <= zlen v ->
  reads v (fun p => if p <? s then stage j X p else X p) ->
  exists v', for_range s (s + 2 ^ j) (butterfly (2 ^ j)) v = Ok v' /\ zlen v' = zlen v /\
    reads v' (fun p => if p <? s + 2 ^ j * 2 then stage j X p else X p).
Proof.
  intros Hj Hv Hc s Hs Hr. assert (Hw : 0 < 2 ^ j) by lia. set (Y p := if p <? s then stage j X p else X p) in *.
  destruct (for_range_inv (fun i u => zlen u = zlen v /\ reads u (fun p => if paired s (2 ^ j) i p then stage j X p else Y p))
    (butterfly (2 ^ j)) s (s + 2 ^ j) v) as (v' & Hv' & Hz & Hr').
  - lia.
  - split; [done|]. eapply reads_ext; [|exact Hr]. intros p Hp. simpl. by replace (paired _ _ _ _) with false by (unfold paired; lia).
  - intros i u Hi [Hu Hru]. replace i with (s + (i - s)) by lia.
    destruct (butterfly_Ok c j X Y u (i - s)) as (u' & H1 & H2 & H3); rewrite ?Hu; try (done || lia).
    + intros p Hp. unfold Y. by replace (p <? s) with false by lia.
    + by replace (c * (2 ^ j * 2) + (i - s)) with i by lia.
    + exists u'. split; [done|]. split; [lia|done].
  - exists v'. split; [done|]. split; [done|]. eapply reads_ext; [|exact Hr']. intros p Hp. simpl. unfold Y, paired.
    destruct (Z.ltb_spec p s); [|destruct (Z.ltb_spec p (s + 2 ^ j * 2))].
    + replace (p <? s + 2 ^ j * 2) with true by lia. by destruct (_ || _).
    + by replace (_ || _) with true by lia.
    + by replace (_ || _) with false by lia.
Qed.

Lemma pass_Ok j m X v : 0 <= j -> zlen v <= isize_max -> reads v X -> zlen v = 2 ^ j * 2 * m -> 0 < m ->
  exists v', hadamard_pass (zlen v) (2 ^ j) v = Ok v' /\ zlen v' = zlen v /\ reads v' (stage j X).
Proof.
  intros Hj Hv Hr Hm Hm0. assert (Hw : 0 < 2 ^ j) by lia. assert (Hle : 2 ^ j * 2 <= zlen v) by nia.
  unfold hadamard_pass. rewrite mul_usize_Ok by (unfold usize_max, isize_max in *; lia). cbn [bind].
  assert (Hd : div_ceil (zlen v) (2 ^ j * 2) = m) by (rewrite Hm; apply div_ceil_exact; lia). rewrite Hd.
  destruct (for_range_inv (fun c u => zlen u = zlen v /\ reads u (fun p => if p <? c * (2 ^ j * 2) then stage j X p else X p))
    (fun k u => let start := k * (2 ^ j * 2) in let* stop := add_usize start (2 ^ j) in for_range start stop (butterfly (2 ^ j)) u)
    0 m v) as (v' & Hv' & Hz & Hr').
  - lia.
  - split; [done|]. eapply reads_ext; [|exact Hr]. intros p Hp. simpl. by replace (p <? _) with false by lia.
  - intros c u Hc [Hu Hru]. simpl. assert (Hb : c * (2 ^ j * 2) + 2 ^ j * 2 <= zlen v) by nia.
    rewrite add_usize_Ok by (unfold usize_max, isize_max in *; lia). cbn [bind].
    destruct (block_Ok c j X u) as (u' & H1 & H2 & H3); rewrite ?Hu; try (done || lia).
    exists u'. split; [done|]. split; [lia|]. by replace ((c + 1) * (2 ^ j * 2)) with (c * (2 ^ j * 2) + 2 ^ j * 2) by ring.
  - exists v'. split; [done|]. split; [done|]. eapply reads_ext; [|exact Hr']. intros p Hp. simpl.
    by replace (p <? _) with true by lia.
Qed.

Lemma loop_Ok k i fuel X v : zlen v <= isize_max -> zlen v = 2 ^ Z.of_nat (k + i) -> (k < fuel)%nat ->
  reads v (wht i X) ->
  exists v', hadamard_loop fuel (zlen v) (2 ^ Z.of_nat i) v = Ok v' /\ zlen v' = zlen v /\ reads v' (wht (k + i) X).
Proof.
  revert i fuel v. induction k as [|k IH]; intros i fuel v Hv Hz Hf Hr; (destruct fuel as [|fuel]; [lia|]); cbn [hadamard_loop].
  - replace (_ <=? _) with true by (rewrite Hz; simpl; lia). by exists v.
  - rewrite Nat2Z.inj_add, Z.pow_add_r in Hz by lia. assert (H2 : 2 ^ Z.of_nat (S k) = 2 * 2 ^ Z.of_nat k) by (rewrite Nat2Z.inj_succ, Z.pow_succ_r; lia).
    assert (Hi : 0 < 2 ^ Z.of_nat i) by lia. assert (Hk : 0 < 2 ^ Z.of_nat k) by lia. rewrite H2 in Hz.
    assert (Hle : 2 ^ Z.of_nat i * 2 <= zlen v) by nia. replace (_ <=? _) with false by lia.
    destruct (pass_Ok (Z.of_nat i) (2 ^ Z.of_nat k) (wht i X) v) as (u & Hu & Hzu & Hru); [lia|done|done|lia|lia|].
    rewrite Hu. cbn [bind]. rewrite mul_usize_Ok by (unfold usize_max, isize_max in *; lia). cbn [bind].
    replace (2 ^ Z.of_nat i * 2) with (2 ^ Z.of_nat (S i)) by (rewrite Nat2Z.inj_succ, Z.pow_succ_r; lia).
    rewrite <- Hzu. destruct (IH (S i) fuel u) as (v' & H3 & H4 & H5); [lia| |lia|done|].
    + rewrite Hzu, Hz, Nat2Z.inj_add, Z.pow_add_r, Nat2Z.inj_succ, Z.pow_succ_r by lia. ring.
    + exists v'. split; [done|]. split; [lia|]. by replace (S k + i)%nat with (k + S i)%nat by lia.
Qed.

(** The transform of a block of [2 ^ k] values. *)
Lemma hadamard_vector_Ok k v X : 0 <= k -> zlen v <= isize_max -> zlen v = 2 ^ k -> reads v X ->
  exists v', hadamard_vector v = Ok v' /\ zlen v' = zlen v /\
    reads v' (fun p => bs_mul (wht (Z.to_nat k) X p) (normalization k)).
Proof.
  intros Hk Hv Hz Hr. assert (Hlg : Z.log2 (zlen v) = k) by (rewrite Hz; by apply Z.log2_pow2).
  unfold hadamard_vector. cbv zeta. rewrite Hlg.
  destruct (loop_Ok (Z.to_nat k) 0 (Z.to_nat k + 1) X v) as (u & Hu & Hzu & Hru); try done; try lia.
  { rewrite Hz. f_equal. lia. }
  change (2 ^ Z.of_nat 0) with 1 in Hu. rewrite Hu. cbn [bind].
  eexists. split; [done|]. split; [by rewrite zlen_fmap|]. intros p. rewrite zlen_fmap. intros Hp.
  rewrite list_lookup_fmap, Hru by done. simpl. unfold trailing_zeros. by rewrite Hlg, Nat.add_0_r.
Qed.

Lemma reads_exist v : 0 < zlen v -> exists X, reads v X.
Proof.
  destruct v as [|x v]; [done|]. intros _. exists (fun p => default x ((x :: v) !! Z.to_nat p)). intros p Hp.
  destruct ((x :: v) !! Z.to_nat p) eqn:E; [done|]. apply lookup_ge_None in E. unfold zlen in Hp. lia.
Qed.

Lemma reads_inj u v X : zlen u = zlen v -> reads u X -> reads v X -> u = v.
Proof. intros Hz Hu Hv. apply list_eq_Z; [done|]. intros p Hp. by rewrite Hu, Hv by lia. Qed.
End Loops.

(** * Chunks, signs and the inverse *)

(** [f] applied to every chunk, as a whole. *)
Lemma for_chunks_Ok {T} (f : list T -> res AdditiveError (list T)) block m values :
  0 < block -> 0 <= m -> zlen values = m * block ->
  (forall c, zlen c = block -> exists c', f c = Ok c' /\ zlen c' = block) ->
  exists out, for_chunks block f values = Ok out /\ zlen out = zlen values /\
    forall k, 0 <= k < m -> f (sub values (k * block) ((k + 1) * block)) = Ok (sub out (k * block) ((k + 1) * block)).
Proof.
  intros Hb Hm Hz Hf. unfold for_chunks. assert (E : zlen values / block = m) by (rewrite Hz; apply Z.div_mul; lia). rewrite E.
  destruct (for_range_inv (fun n out => zlen out = zlen values /\
      (forall k, 0 <= k < n -> f (sub values (k * block) ((k + 1) * block)) = Ok (sub out (k * block) ((k + 1) * block))) /\
      (forall p, n * block <= p < zlen values -> out !! Z.to_nat p = values !! Z.to_nat p))
    (fun k values => let* chunk := f (sub values (k * block) ((k + 1) * block)) in Ok (splice values (k * block) chunk))
    0 m values) as (out & Ho & Hzo & Hd & _).
  - done.
  - split; [done|]. split; [intros; lia|done].
  - intros n out Hn (Hzo & Hd & Hk). assert (Hbn : 0 <= n * block) by nia. assert (Hbm : (n + 1) * block <= zlen values) by nia.
    assert (Hs : sub out (n * block) ((n + 1) * block) = sub values (n * block) ((n + 1) * block)).
    { assert (Hl : 0 <= n * block <= (n + 1) * block) by lia.
      apply list_eq_Z; [by rewrite !zlen_sub by lia|]. rewrite zlen_sub by lia. intros i Hi.
      rewrite !lookup_sub by lia. apply Hk. lia. }
    destruct (Hf (sub out (n * block) ((n + 1) * block))) as (c & Hc & Hzc); [rewrite zlen_sub; lia|].
    rewrite Hc. cbn [bind]. eexists. split; [done|]. assert (Hfit : n * block + zlen c <= zlen out) by (rewrite Hzc, Hzo; nia).
    assert (Hsp : sub (splice out (n * block) c) (n * block) ((n + 1) * block) = c).
    { apply sub_splice_same; lia. }
    split; [by rewrite zlen_splice|]. split.
    + intros k Hkn. destruct (Z.eq_dec k n) as [->|]; [by rewrite Hsp, <- Hs|]. rewrite sub_splice_before by nia. apply Hd. lia.
    + intros p Hp. rewrite lookup_splice by (done || lia). replace (_ && _) with false by nia. apply Hk. nia.
  - by exists out.
Qed.

Lemma for_chunks_inverse {T} (f : list T -> res AdditiveError (list T)) block m values :
  0 < block -> 0 <= m -> zlen values = m * block ->
  (forall c, zlen c = block -> exists c', f c = Ok c' /\ zlen c' = block) ->
  (forall c c', zlen c = block -> f c = Ok c' -> f c' = Ok c) ->
  exists out, for_chunks block f values = Ok out /\ zlen out = zlen values /\ for_chunks block f out = Ok values.
Proof.
  intros Hb Hm Hz Hf Hinv. destruct (for_chunks_Ok f block m values) as (out & Ho & Hzo & Hd); try done.
  destruct (for_chunks_Ok f block m out) as (back & Hbk & Hzb & Hdb); try (done || lia).
  exists out. split; [done|]. split; [done|]. rewrite Hbk. f_equal.
  rewrite (blocks_eq back m block (fun k => sub values (k * block) ((k + 1) * block))) by (lia ||
    (intros k Hk; specialize (Hd k Hk); specialize (Hdb k Hk); apply Hinv in Hd; [congruence|rewrite zlen_sub; nia])).
  symmetry. by apply (blocks_eq values m block); try lia.
Qed.

Lemma apply_signs_twice {T} `{BasisScalar T} values seed domain :
  (forall x : T, bs_neg (bs_neg x) = x) -> apply_signs (apply_signs values seed domain) seed domain = values.
Proof.
  intros Hn. unfold apply_signs. apply list_eq. intros i.
  rewrite !list_lookup_imap. destruct (values !! i) as [x|]; [|done]. unfold fmap, option_fmap, option_map. f_equal.
  by destruct (signed_rht_negative _ _ _); rewrite ?Hn.
Qed.

Lemma zlen_apply_signs {T} `{BasisScalar T} (values : list T) seed domain : zlen (apply_signs values seed domain) = zlen values.
Proof. unfold apply_signs, zlen. by rewrite length_imap. Qed.

(** The blocks a vector of length [len] admits. *)
Definition basis_fits (basis : Basis) (len : Z) : Prop :=
  forall block, basis_block basis = Some block -> exists k, 0 <= k /\ block = 2 ^ k /\ (block | len).

Lemma validate_blocks_Ok len k : 0 <= k -> (2 ^ k | len) -> validate_basis_blocks len (2 ^ k) = Ok (2 ^ k).
Proof.
  intros Hk Hd. unfold validate_basis_blocks. rewrite power_of_two_pow by done. cbn [negb].
  by rewrite (proj2 (is_multiple_of_divide len (2 ^ k) ltac:(lia)) Hd).
Qed.

Lemma validate_blocks_spec len block :
  validate_basis_blocks len block = Ok block /\ (exists k, 0 <= k /\ block = 2 ^ k /\ (block | len)) \/
  (exists e, validate_basis_blocks len block = Err e) /\ ~ (exists k, 0 <= k /\ block = 2 ^ k /\ (block | len)).
Proof.
  unfold validate_basis_blocks. destruct (is_power_of_two block) eqn:Hp; cbn [negb].
  - pose proof (power_of_two_log block Hp) as Hlog. pose proof (Z.log2_nonneg block) as H0.
    assert (Hb : 0 < block) by (rewrite Hlog; lia). pose proof (is_multiple_of_divide len block Hb) as Hm.
    destruct (is_multiple_of len block); cbn [negb].
    + left. split; [done|]. exists (Z.log2 block). split; [done|]. split; [done|]. by apply Hm.
    + right. split; [by eexists|]. intros (k & _ & _ & Hd). by apply Hm in Hd.
  - right. split; [by eexists|]. intros (k & Hk & -> & _). by rewrite power_of_two_pow in Hp.
Qed.

Section Inverse.
  Context {T : Type} `{ES : ExactScalar T}.
  Add Ring inverse_ring : es_ring.

Lemma exact_neg_neg (x : T) : bs_neg (bs_neg x) = x.
Proof. ring. Qed.

Lemma hadamard_vector_inverse k v : 0 <= k -> 2 ^ k <= isize_max -> zlen v = 2 ^ k ->
  exists v', hadamard_vector v = Ok v' /\ zlen v' = 2 ^ k /\ hadamard_vector v' = Ok v.
Proof.
  intros Hk Hfit Hz. destruct (reads_exist v) as [X HX]; [lia|].
  destruct (hadamard_vector_Ok k v X) as (v' & H1 & H2 & H3); [lia..|done|].
  destruct (hadamard_vector_Ok k v' _ ltac:(done) ltac:(lia) ltac:(lia) H3) as (v'' & H4 & H5 & H6).
  exists v'. split; [done|]. split; [lia|]. rewrite H4. f_equal. apply (reads_inj _ _ X); [lia| |done].
  eapply reads_ext; [|exact H6]. intros p _. by apply normalized_twice.
Qed.

Lemma hadamard_blocks_inverse values k : 0 <= k -> zlen values <= isize_max -> (2 ^ k | zlen values) ->
  exists out, apply_hadamard_blocks values (2 ^ k) = Ok out /\ zlen out = zlen values /\
    apply_hadamard_blocks out (2 ^ k) = Ok values.
Proof.
  intros Hk Hfit Hd. pose proof (validate_blocks_Ok _ k Hk Hd) as Hv. destruct (Hd) as [m Hm].
  pose proof (zlen_nonneg values) as H0. assert (Hm0 : 0 <= m) by nia.
  destruct (Z.eq_dec m 0) as [->|Hmz].
  { exists values. unfold apply_hadamard_blocks. rewrite Hv. cbn [bind]. unfold for_chunks.
    rewrite Hm, Z.mul_0_l, Zdiv_0_l. done. }
  assert (Hb : 2 ^ k <= isize_max) by nia.
  assert (Hinv : forall c, zlen c = 2 ^ k -> exists c', hadamard_vector c = Ok c' /\ zlen c' = 2 ^ k /\ hadamard_vector c' = Ok c)
    by (intros c Hc; by apply hadamard_vector_inverse).
  destruct (for_chunks_inverse hadamard_vector (2 ^ k) m values) as (out & Ho & Hzo & Hback); [lia|done|done| | |].
  - intros c Hc. destruct (Hinv c Hc) as (c' & ? & ? & _). by exists c'.
  - intros c c' Hc Hcc. destruct (Hinv c Hc) as (c'' & ? & _ & ?). congruence.
  - exists out. unfold apply_hadamard_blocks. rewrite Hv. cbn [bind]. split; [done|]. split; [done|].
    rewrite validate_blocks_Ok by (done || by rewrite Hzo). done.
Qed.
End Inverse.

(** The integers modulo 7, where 3 is a square root of 2: an exact scalar to compute with. *)
Inductive Z7 : Type := a0 | a1 | a2 | a3 | a4 | a5 | a6.
Definition z7_val (x : Z7) : Z := match x with a0 => 0 | a1 => 1 | a2 => 2 | a3 => 3 | a4 => 4 | a5 => 5 | a6 => 6 end.
Definition z7 (n : Z) : Z7 :=
  let r := n mod 7 in
  if r =? 0 then a0 else if r =? 1 then a1 else if r =? 2 then a2 else if r =? 3 then a3
  else if r =? 4 then a4 else if r =? 5 then a5 else a6.

#[export] Instance z7_scalar : BasisScalar Z7 := {
  bs_add x y := z7 (z7_val x + z7_val y);
  bs_sub x y := z7 (z7_val x - z7_val y);
  bs_neg x := z7 (- z7_val x);
  bs_mul x y := z7 (z7_val x * z7_val y);
  normalization k := z7 (5 ^ k) }.

Lemma z7_ring : ring_theory a0 a1 bs_add bs_mul bs_sub bs_neg (@eq Z7).
Proof. split; repeat (intros []); reflexivity. Qed.

Lemma z7_cases n : z7_val (z7 n) = n mod 7.
Proof.
  unfold z7. pose proof (Z.mod_pos_bound n 7 ltac:(lia)).
  repeat match goal with |- context [?a =? ?b] => destruct (Z.eqb_spec a b) as [->|] end; [reflexivity..|]. simpl. lia.
Qed.

Lemma z7_eq n m : n mod 7 = m mod 7 -> z7 n = z7 m.
Proof. unfold z7. by intros ->. Qed.

Lemma z7_pow2 k : pow2 a1 k = z7 (2 ^ Z.of_nat k).
Proof.
  induction k as [|k IH]; [reflexivity|]. cbn [pow2]. rewrite IH. cbn [bs_add z7_scalar]. apply z7_eq.
  rewrite !z7_cases, <- Z.add_mod by lia. f_equal. rewrite Nat2Z.inj_succ, Z.pow_succ_r by lia. lia.
Qed.

Lemma z7_mul a b : bs_mul (z7 a) (z7 b) = z7 (a * b).
Proof. cbn [bs_mul z7_scalar]. apply z7_eq. rewrite !z7_cases. symmetry. apply Z.mul_mod. lia. Qed.

Lemma z7_norm k : 0 <= k -> bs_mul (bs_mul (normalization k) (normalization k)) (pow2 a1 (Z.to_nat k)) = a1.
Proof.
  intros Hk. rewrite z7_pow2, Z2Nat.id by done. change (normalization k) with (z7 (5 ^ k)).
  rewrite !z7_mul, <- !Z.pow_mul_l. change a1 with (z7 1). apply z7_eq. change (5 * 5 * 2) with 50. revert k Hk.
  apply natlike_ind; [done|]. intros k Hk IH. rewrite Z.pow_succ_r by done. by rewrite Z.mul_mod, IH by lia.
Qed.

#[export] Instance z7_exact : ExactScalar Z7 := {| es_zero := a0; es_one := a1; es_ring := z7_ring; es_norm := z7_norm |}.

(** * Properties *)

(** C23: in exact arithmetic the inverse basis undoes the forward one: on every vector
    whose length the block divides, for every basis, seed and domain, both transforms
    return, keep the length, and the second gives back the first one's input; any
    other block is refused by both. *)
Theorem basis_inverse_exact {T} `{ES : ExactScalar T} (values : list T) basis :
  zlen values <= isize_max ->
  (basis_fits basis (zlen values) -> exists out, apply_forward_basis values basis = Ok out /\
    zlen out = zlen values /\ inverse_basis out basis = Ok values) /\
  (~ basis_fits basis (zlen values) -> exists e,
    apply_forward_basis values basis = Err e /\ inverse_basis values basis = Err e).
Proof.
  intros Hfit. destruct basis as [|block|block seed domain]; simpl basis_fits.
  - split; [by eexists|]. intros Hn. exfalso. apply Hn. by intros block [=].
  - split.
    + intros Hf. destruct (Hf block eq_refl) as (k & Hk & -> & Hd). by apply hadamard_blocks_inverse.
    + intros Hn. destruct (validate_blocks_spec (zlen values) block) as [[_ Hs]|[[e He] _]].
      * exfalso. apply Hn. by intros b [= <-].
      * exists e. simpl. unfold apply_hadamard_blocks. by rewrite He.
  - split.
    + intros Hf. destruct (Hf block eq_refl) as (k & Hk & -> & Hd).
      destruct (hadamard_blocks_inverse (apply_signs values seed domain) k) as (out & Ho & Hzo & Hb);
        rewrite ?zlen_apply_signs; try done. rewrite zlen_apply_signs in Hzo. exists out. cbn [apply_forward_basis inverse_basis].
      rewrite validate_blocks_Ok by done. cbn [bind]. split; [done|]. split; [done|]. rewrite Hb. cbn [bind]. f_equal.
      apply apply_signs_twice, exact_neg_neg.
    + intros Hn. destruct (validate_blocks_spec (zlen values) block) as [[_ Hs]|[[e He] _]].
      * exfalso. apply Hn. by intros b [= <-].
      * exists e. cbn [apply_forward_basis inverse_basis]. unfold apply_hadamard_blocks. by rewrite He.
Qed.

Lemma basis_inverse_exact_witness :
  exists out, apply_forward_basis [a1; a2; a0; a5; a6; a0; a3; a3] (SignedRht 4 7 9) = Ok out /\
    inverse_basis out (SignedRht 4 7 9) = Ok [a1; a2; a0; a5; a6; a0; a3; a3].
Proof.
  destruct (basis_inverse_exact [a1; a2; a0; a5; a6; a0; a3; a3] (SignedRht 4 7 9)) as [H _]; [by vm_compute|].
  destruct H as (out & Ho & _ & Hi); [|by exists out].
  intros block [= <-]. exists 2. split; [lia|]. split; [reflexivity|]. by exists 2.
Defined.
