(* ===== verification/AdditiveOps.v ===== *)
(** * Reference additive kernels (crates/tritium-core/src/additive.rs)

    The gather and the matrix product that consume an additive view through its
    declared basis, and the agreement of the compact and the uniform representation
    under both. *)

From Stdlib Require Import ZArith Lia Bool Floats.SpecFloat.
From stdpp Require Import base list numbers.
From S2P Require Import Prelude Core F32 Schema PerTile Uniform AdditiveView Basis.

#[local] Open Scope Z_scope.

(** The consumers a view is bound to: phantom types in the code. *)
Inductive Consumer : Type := Matmul | Gather.
Record BasisBound (c : Consumer) : Type := Bound { tensor : AdditiveView }.
Arguments tensor {c}.

Definition bind_matmul (self : AdditiveView) : BasisBound Matmul := Bound Matmul self.
Definition bind_gather (self : AdditiveView) : BasisBound Gather := Bound Gather self.

(** One gathered row: decode, then undo the basis. *)
Definition embed_row (weights : AdditiveView) (cols i row : Z) (out : list f32) : res AdditiveError (list f32) :=
  let output := sub out (i * cols) ((i + 1) * cols) in
  let* output := dequant_row_into weights row output in
  let* output := apply_inverse_basis output (basis (view_layout weights)) in
  Ok (splice out (i * cols) output).

Definition reference_embed (weights : BasisBound Gather) (ids : list Z) (out : list f32) : res AdditiveError (list f32) :=
  let weights := tensor weights in
  let rows := rows (view_layout weights) in
  let cols := cols (view_layout weights) in
  let* expected := ok_or (checked_mul (zlen ids) cols) SizeOverflow in
  if negb (zlen out =? expected) then Err (OutputLength expected (zlen out)) else
  if existsb (fun row => rows <=? row) ids then Err RowOutOfRange else
  if cols =? 0 then Panic else
  for_range 0 (Z.min (zlen ids) (zlen out / cols)) (fun i out =>
    let* row := idx ids i in embed_row weights cols i row out) out.

(** One product row of the batch. *)
Definition matmul_cell (weights : AdditiveView) (activation : list f32) (rows batch_row output_row : Z) (out : list f32)
  : res AdditiveError (list f32) :=
  let* value := dot_row weights output_row activation in
  let* base := mul_usize batch_row rows in
  let* at_ := add_usize base output_row in
  upd out at_ value.

(** The result is the pair of the scratch and the output. *)
Definition reference_ternary_matmul (activations : list f32) (weights : BasisBound Matmul) (batch : Z)
    (transformed_activations out : list f32) : res AdditiveError (list f32 * list f32) :=
  let weights := tensor weights in
  let rows := rows (view_layout weights) in
  let cols := cols (view_layout weights) in
  let* activation_count := ok_or (checked_mul batch cols) SizeOverflow in
  let* output_count := ok_or (checked_mul batch rows) SizeOverflow in
  if negb (zlen activations =? activation_count) || negb (zlen transformed_activations =? activation_count)
     || negb (zlen out =? output_count) then Err MatmulShape else
  if cols =? 0 then Panic else
  let* transformed := for_chunks cols (fun activation => apply_basis activation (basis (view_layout weights))) activations in
  let* out := for_range 0 batch (fun batch_row out =>
    let* lo := mul_usize batch_row cols in
    let* next := add_usize batch_row 1 in
    let* hi := mul_usize next cols in
    let* activation := slice transformed lo hi in
    for_range 0 rows (matmul_cell weights activation rows batch_row) out) out in
  Ok (transformed, out).

(** * Both representations *)

Lemma dequant_out_of_range v r out : rows (view_layout v) <= r -> dequant_row_into v r out = Err RowOutOfRange.
Proof. intros Hr. unfold dequant_row_into. by replace (_ <=? r) with true by lia. Qed.

(** The two constructors accept the same buffers. *)
Lemma view_new_inv l planes trits scales v : layout_typed l -> is_u8 planes -> view_new l planes trits scales = Ok v ->
  exists u, uniform_new l planes = Ok u /\ v = MkView (AUniform l planes (u_scale_units u)) trits scales /\
    zlen trits = rows l * cols l * planes /\ zlen scales = u_scale_count u /\ validate_scales l planes scales = Ok tt.
Proof.
  intros Hty Hpl H. unfold view_new in H. apply bind_Ok_inv in H as (n & Hn & H).
  destruct (Z.eqb_spec (zlen trits) n) as [Ht|]; [|done]. cbn [negb] in H. apply bind_Ok_inv in H as ([units count] & Hc & H).
  destruct (Z.eqb_spec (zlen scales) count) as [Hs|]; [|done]. cbn [negb] in H. apply bind_Ok_inv in H as ([] & Hval & H).
  apply Ok_inj in H as <-. exists (MkUniform l planes n count units).
  assert (Hu : uniform_new l planes = Ok (MkUniform l planes n count units)) by (unfold uniform_new; rewrite Hn; cbn [bind]; by rewrite Hc).
  split; [done|]. split; [done|]. split; [|done]. rewrite Ht.
  pose proof (uo_eq _ _ _ (uniform_new_Ok l planes _ Hty Hpl Hu)) as E. by injection E.
Qed.

Section Both.
  Context (l : AdditiveLayout) (planes : Z) (u : UniformPlan) (g : Geometry) (ix : PerTileIndex).
  Context (trits : list Trit) (scales : list f32).
  Context (Hty : layout_typed l) (U : uplan_ok l planes u).
  Context (G : geo_ok (as_per_tile l) (full_counts l planes) g) (Hgp : g_planes g = planes).
  Context (I : index_ok (as_per_tile l) (full_counts l planes) g ix).
  Context (Htr : zlen trits = rows l * cols l * planes) (Hsc : zlen scales = u_scale_count u).
  Context (Hlen : zlen trits <= isize_max).
  Abbreviation dense := (MkView (AUniform l planes (u_scale_units u)) trits scales).
  Abbreviation compact := (MkView (APerTile ix) trits scales).

Lemma compact_layout : view_layout compact = as_per_tile l.
Proof. apply (io_layout _ _ _ _ I). Qed.

Lemma dequant_agrees r out : 0 <= r -> dequant_row_into compact r out = dequant_row_into dense r out.
Proof.
  intros Hr. destruct (Z.leb_spec (rows l) r).
  - rewrite !dequant_out_of_range; [done|done|by rewrite compact_layout].
  - by apply (dequant_same l planes u g ix trits scales).
Qed.

Lemma embed_agrees ids out : Forall (fun i => 0 <= i) ids ->
  reference_embed (bind_gather compact) ids out = reference_embed (bind_gather dense) ids out.
Proof.
  intros Hids. unfold reference_embed. cbn [bind_gather tensor]. rewrite compact_layout.
  change (view_layout dense) with l. simpl rows. simpl cols.
  destruct (ok_or _ _); cbn [bind]; [|done..]. destruct (negb _); [done|]. destruct (existsb _ _); [done|]. destruct (cols l =? 0); [done|].
  apply for_range_ext. intros i s Hi. destruct (idx ids i) as [r| | |] eqn:Hr; cbn [bind]; [|done..].
  apply idx_Ok_inv in Hr as [_ Hr]. pose proof (Forall_lookup_1 _ _ _ _ Hids Hr) as Hr0. simpl in Hr0.
  unfold embed_row. rewrite dequant_agrees, compact_layout by done. done.
Qed.

Lemma matmul_agrees activations batch scratch out :
  reference_ternary_matmul activations (bind_matmul compact) batch scratch out =
  reference_ternary_matmul activations (bind_matmul dense) batch scratch out.
Proof.
  unfold reference_ternary_matmul. cbn [bind_matmul tensor]. rewrite compact_layout.
  change (view_layout dense) with l. simpl rows. simpl cols. simpl basis.
  destruct (ok_or _ _); cbn [bind]; [|done..]. destruct (ok_or _ _); cbn [bind]; [|done..]. destruct (negb _ || _ || _); [done|].
  destruct (cols l =? 0); [done|]. destruct (for_chunks _ _ _) as [tr| | |]; cbn [bind]; [|done..].
  f_equal. apply for_range_ext. intros b s Hb.
  destruct (mul_usize b (cols l)) as [lo| | |] eqn:Hlo; cbn [bind]; [|done..].
  destruct (add_usize b 1) as [n| | |] eqn:Hn; cbn [bind]; [|done..].
  destruct (mul_usize n (cols l)) as [hi| | |] eqn:Hhi; cbn [bind]; [|done..].
  apply mul_usize_inv in Hlo as ->. apply add_usize_inv in Hn as ->. apply mul_usize_inv in Hhi as ->.
  destruct (slice tr _ _) as [act| | |] eqn:Hsl; cbn [bind]; [|done..].
  apply slice_Ok_inv in Hsl as [(H1 & H2 & H3) ->].
  apply for_range_ext. intros r s' Hr. unfold matmul_cell.
  rewrite (dot_same l planes u g ix trits scales); try done. rewrite zlen_sub by lia. ring.
Qed.
End Both.

(** * Properties *)

Definition wide_trits : list Trit := vec POS 1200.
Definition wide_scales : list f32 := vec (f32_of_Z 2) 20.

(** C15: a tensor read through the compact per-tile index that keeps every plane is
    the same tensor, bit for bit, as through the uniform layout: every accepted uniform
    view has an accepted compact view over the same coefficients and scales, and the
    decoding of each row, the gather and the matrix product return the same floats, or
    the same error, on both. *)
Theorem full_views_agree l planes trits scales v :
  layout_typed l -> is_u8 planes -> zlen trits <= isize_max -> view_new l planes trits scales = Ok v ->
  exists plan, plan_new (as_per_tile l) (full_counts l planes) = Ok plan /\
    forall storage, zlen storage = plan_index_len plan -> exists ix v',
      plan_build plan storage = Ok ix /\ view_new_per_tile ix trits scales = Ok v' /\
      (forall r out, 0 <= r -> dequant_row_into v' r out = dequant_row_into v r out) /\
      (forall ids out, Forall (fun i => 0 <= i) ids ->
        reference_embed (bind_gather v') ids out = reference_embed (bind_gather v) ids out) /\
      (forall activations batch scratch out,
        reference_ternary_matmul activations (bind_matmul v') batch scratch out =
        reference_ternary_matmul activations (bind_matmul v) batch scratch out).
Proof.
  intros Hty Hpl Hlen Hv. destruct (view_new_inv l planes trits scales v Hty Hpl Hv) as (u & Hu & -> & Htr & Hsc & Hval).
  pose proof (uniform_new_Ok l planes u Hty Hpl Hu) as U.
  destruct (full_plan l planes u Hty U) as (g & Hg & G & Hgp & Hgt & Hgs).
  exists (MkPlan (as_per_tile l) (full_counts l planes) g). unfold plan_new. rewrite Hg. split; [done|].
  intros storage Hst. destruct (build_validated_Ok (as_per_tile l) (full_counts l planes) g Hty G storage Hst) as (ix & Hix & I).
  exists ix, (MkView (APerTile ix) trits scales). split; [done|]. split; [|split; [|split]].
  - unfold view_new_per_tile. rewrite (io_geometry _ _ _ _ I), (io_layout _ _ _ _ I), Hgt, Hgs, Hgp, Htr, Hsc, !Z.eqb_refl. cbn [negb].
    change (validate_scales (as_per_tile l)) with (validate_scales l). by rewrite Hval.
  - intros r out Hr. by apply (dequant_agrees l planes u g).
  - intros ids out Hids. by apply (embed_agrees l planes u g).
  - intros activations batch scratch out. by apply (matmul_agrees l planes u g).
Qed.

Lemma full_views_agree_witness :
  exists v ix v', view_new wide_layout 2 wide_trits wide_scales = Ok v /\
    build (as_per_tile wide_layout) [2; 2; 2; 2] (vec (MkSpan 0 0) 4) = Ok ix /\
    view_new_per_tile ix wide_trits wide_scales = Ok v' /\
    dequant_row_into v' 1 (vec f32_zero 300) = dequant_row_into v 1 (vec f32_zero 300) /\
    dequant_row_into v 1 (vec f32_zero 300) = Ok (vec (f32_of_Z 4) 300).
Proof.
  destruct (full_views_agree wide_layout 2 wide_trits wide_scales (MkView (AUniform wide_layout 2 10) wide_trits wide_scales))
    as (plan & Hp & H); [repeat split; vm_compute; congruence|unfold is_u8; lia|by vm_compute|by vm_compute|].
  destruct (H (vec (MkSpan 0 0) 4)) as (ix & v' & Hix & Hv' & Hd & _).
  - vm_compute in Hp. injection Hp as <-. reflexivity.
  - exists (MkView (AUniform wide_layout 2 10) wide_trits wide_scales), ix, v'. split; [by vm_compute|].
    change (full_counts wide_layout 2) with [2; 2; 2; 2] in Hp. unfold build. rewrite Hp. split; [exact Hix|]. split; [exact Hv'|].
    split; [apply Hd; lia|by vm_compute].
Defined.
