(* ===== verification/Prefix.v ===== *)
(** * Logical prefixes (crates/tritium-core/src/additive.rs, [is_logical_prefix_of])

    One cursor type over both allocations, the paired scan that compares the planes a
    tensor retains with those of its parent, and what the scan decides. *)

From Stdlib Require Import ZArith Lia Bool Sorted Floats.SpecFloat.
From stdpp Require Import base list numbers.
From S2P Require Import Prelude Core F32 Schema PerTile Uniform AdditiveView AdditiveOps.

#[local] Open Scope Z_scope.

#[export] Instance spec_float_eq_dec : EqDecision spec_float.
Proof. solve_decision. Defined.
#[export] Instance ScaleLaw_eq_dec : EqDecision ScaleLaw.
Proof. solve_decision. Defined.
#[export] Instance Basis_eq_dec : EqDecision Basis.
Proof. solve_decision. Defined.

Inductive RowTiles : Type :=
| RPerTile (tiles : ActiveTiles)
| RUniform (tiles : UniformTiles).

Definition rows_next (self : RowTiles) : res AdditiveError (option ActiveTile * RowTiles) :=
  match self with
  | RPerTile tiles => let* (t, tiles) := next tiles in Ok (t, RPerTile tiles)
  | RUniform tiles => let* (t, tiles) := uniform_next tiles in Ok (t, RUniform tiles)
  end.

Definition view_row_tiles (self : AdditiveView) (plane row : Z) : res AdditiveError RowTiles :=
  match av_allocation self with
  | APerTile index => let* tiles := row_tiles index plane row in Ok (RPerTile tiles)
  | AUniform layout planes scale_units =>
      Ok (RUniform (uniform_row_tiles
        (MkUniform layout planes (zlen (av_trits self)) (zlen (av_scales self)) scale_units) plane row))
  end.

(** [parents.find(|tile| tile.col >= col)]. *)
Fixpoint find_tile (fuel : nat) (parents : RowTiles) (col : Z) : res AdditiveError (option ActiveTile * RowTiles) :=
  match fuel with
  | O => NoFuel
  | S fuel =>
      let* (t, parents) := rows_next parents in
      match t with
      | None => Ok (None, parents)
      | Some t => if col <=? at_col t then Ok (Some t, parents) else find_tile fuel parents col
      end
  end.

(** [values\[start..start + len\]]. *)
Definition window {A} (values : list A) (start len : Z) : res AdditiveError (list A) :=
  let* stop := add_usize start len in slice values start stop.

(** The comparison of one retained tile; scales are finite, so equal bits are equal values. *)
Definition same_tile (self parent : AdditiveView) (child retained : ActiveTile) : res AdditiveError bool :=
  if negb (at_col retained =? at_col child) then Ok false else
  let* a := window (av_trits self) (at_trit child) (at_len child) in
  let* b := window (av_trits parent) (at_trit retained) (at_len retained) in
  if negb (bool_decide (a = b)) then Ok false else
  let scales := if bool_decide (anchor (law (view_layout self)) = Group)
    then div_ceil (at_len child) (group (view_layout self)) else 1 in
  let* a := window (av_scales self) (at_scale child) scales in
  let* b := window (av_scales parent) (at_scale retained) scales in
  Ok (bool_decide (a = b)).

Fixpoint prefix_row (fuel find_fuel : nat) (self parent : AdditiveView) (children parents : RowTiles)
  : res AdditiveError bool :=
  match fuel with
  | O => NoFuel
  | S fuel =>
      let* (child, children) := rows_next children in
      match child with
      | None => Ok true
      | Some child =>
          let* (retained, parents) := find_tile find_fuel parents (at_col child) in
          match retained with
          | None => Ok false
          | Some retained =>
              let* same := same_tile self parent child retained in
              if same then prefix_row fuel find_fuel self parent children parents else Ok false
          end
      end
  end.

(** A loop left with [return false] as soon as an iteration fails. *)
Definition for_all {E} (lo hi : Z) (f : Z -> res E bool) : res E bool :=
  for_range lo hi (fun i (ok : bool) => if ok then f i else Ok false) true.

Definition is_logical_prefix_of (self parent : AdditiveView) : res AdditiveError bool :=
  let c := view_layout self in
  let p := view_layout parent in
  if negb (rows c =? rows p) || negb (cols c =? cols p) || negb (tile c =? tile p) || negb (group c =? group p)
     || negb (bool_decide (law c = law p)) || negb (bool_decide (basis c = basis p))
     || (view_plane_count parent <? view_plane_count self)
  then Ok false else
  for_all 0 (view_plane_count self) (fun plane =>
    for_all 0 (rows c) (fun row =>
      let* parents := view_row_tiles parent plane row in
      let* children := view_row_tiles self plane row in
      let fuel := S (Z.to_nat (div_ceil (cols c) 256)) in
      prefix_row fuel fuel self parent children parents)).

(** * What the scan decides *)

(** The tiles of a row, in column order. *)
Definition view_tiles (self : AdditiveView) : Z -> Z -> list ActiveTile :=
  match av_allocation self with
  | AUniform layout planes _ => row_spec (as_per_tile layout) (full_counts layout planes)
  | APerTile index => row_spec (ix_layout index) (ix_counts index)
  end.

(** The views the constructors hand out. *)
Definition view_valid (v : AdditiveView) : Prop :=
  (exists l planes trits scales, layout_typed l /\ is_u8 planes /\ view_new l planes trits scales = Ok v) \/
  (exists l counts plan storage ix trits scales, layout_typed l /\ bytes_ok counts /\
    plan_new l counts = Ok plan /\ plan_build plan storage = Ok ix /\ view_new_per_tile ix trits scales = Ok v).

Definition tile_scales_read (v : AdditiveView) (t : ActiveTile) : Z :=
  if bool_decide (anchor (law (view_layout v)) = Group) then div_ceil (at_len t) (group (view_layout v)) else 1.

(** The tile [t] of [v] and the tile [t'] of [v'] hold the same coefficients and scales. *)
Definition tiles_equal (v v' : AdditiveView) (t t' : ActiveTile) : Prop :=
  at_col t' = at_col t /\
  sub (av_trits v) (at_trit t) (at_trit t + at_len t) = sub (av_trits v') (at_trit t') (at_trit t' + at_len t') /\
  sub (av_scales v) (at_scale t) (at_scale t + tile_scales_read v t) =
  sub (av_scales v') (at_scale t') (at_scale t' + tile_scales_read v t).

(** * Cursors as lists *)

Inductive yields : RowTiles -> list ActiveTile -> Prop :=
| yields_nil s s' : rows_next s = Ok (None, s') -> yields s []
| yields_cons s s' t ts : rows_next s = Ok (Some t, s') -> yields s' ts -> yields s (t :: ts).

Abbreviation before := (fun a b => at_col a < at_col b).

Lemma compact_yields l counts g ix p r k : layout_typed l -> geo_ok l counts g -> index_ok l counts g ix ->
  0 <= p < g_planes g -> 0 <= r < rows l -> forall n, 0 <= n -> div_ceil (cols l) 256 = n + Z.of_nat k ->
  yields (RPerTile (cursor l counts ix p r n)) (row_from l counts p r n).
Proof.
  intros Hty G I Hp Hr. induction k as [|k IH]; intros n Hn HT.
  - replace n with (div_ceil (cols l) 256) by lia. rewrite row_from_end. eapply yields_nil. simpl. by rewrite (next_end l counts g G ix I).
  - rewrite (row_from_step l counts p r n) by lia. specialize (IH (n + 1) ltac:(lia) ltac:(lia)).
    pose proof (next_step l counts g Hty G ix I p r Hp Hr n ltac:(lia)) as Hs. destruct (active l counts p r n); cbn [app].
    + eapply yields_cons; [|exact IH]. simpl. by rewrite Hs.
    + inversion IH as [s s' Hx|s s' t ts Hx Hy]; subst; [eapply yields_nil|eapply yields_cons; [|exact Hy]]; simpl in *; rewrite Hs; exact Hx.
Qed.

Lemma uniform_yields l planes u p r k : layout_typed l -> uplan_ok l planes u ->
  0 <= p < planes -> 0 <= r < rows l -> forall t, 0 <= t -> div_ceil (cols l) 256 = t + Z.of_nat k ->
  yields (RUniform (ucursor l u p r t)) (row_from (as_per_tile l) (full_counts l planes) p r t).
Proof.
  intros Hty U Hp Hr. induction k as [|k IH]; intros t Ht HT.
  - replace t with (div_ceil (cols l) 256) by lia.
    rewrite (row_from_end (as_per_tile l) (full_counts l planes) p r : row_from _ _ _ _ (div_ceil (cols l) 256) = []).
    eapply yields_nil. simpl. unfold uniform_next, ucursor. cbn [ut_plan ut_col]. rewrite (u_layout_eq l planes u U).
    pose proof (div_ceil_bounds (cols l) 256). by replace (_ <=? _) with true by lia.
  - rewrite (row_from_step (as_per_tile l) (full_counts l planes) p r t) by (simpl; lia).
    rewrite (full_active l planes u Hty U) by lia. cbn [app]. eapply yields_cons; [|apply IH; lia].
    simpl. by rewrite (uniform_next_step l planes u Hty U p r Hp Hr t) by lia.
Qed.

Lemma row_from_sorted l counts p r k : forall n, div_ceil (cols l) 256 = n + Z.of_nat k ->
  StronglySorted before (row_from l counts p r n) /\ Forall (fun t => n * 256 <= at_col t) (row_from l counts p r n).
Proof.
  induction k as [|k IH]; intros n HT.
  - replace n with (div_ceil (cols l) 256) by lia. rewrite row_from_end. split; constructor.
  - rewrite (row_from_step l counts p r n) by lia. destruct (IH (n + 1) ltac:(lia)) as [Hs Hf].
    destruct (active l counts p r n); cbn [app].
    + split; constructor; try done; try (simpl; lia); (eapply list.Forall_impl; [exact Hf|]); simpl; intros; lia.
    + split; [done|]. eapply list.Forall_impl; [exact Hf|]. simpl. intros. lia.
Qed.

(** What the scan uses of a view: the interface both allocations provide. *)
Record view_rows (v : AdditiveView) : Prop := {
  vr_planes : 0 <= view_plane_count v;
  vr_row_count : 0 <= rows (view_layout v);
  vr_fits : zlen (av_trits v) <= usize_max /\ zlen (av_scales v) <= usize_max;
  vr_yields : forall p r, 0 <= p < view_plane_count v -> 0 <= r < rows (view_layout v) ->
    exists s, view_row_tiles v p r = Ok s /\ yields s (view_tiles v p r);
  vr_sorted : forall p r, StronglySorted before (view_tiles v p r);
  vr_length : forall p r, (length (view_tiles v p r) <= Z.to_nat (div_ceil (cols (view_layout v)) 256))%nat;
  vr_bounds : forall p r t, 0 <= p < view_plane_count v -> 0 <= r < rows (view_layout v) -> t ∈ view_tiles v p r ->
    0 <= at_trit t /\ 0 <= at_len t /\ at_trit t + at_len t <= zlen (av_trits v) /\
    0 <= at_scale t /\ 0 <= tile_scales_read v t /\ at_scale t + tile_scales_read v t <= zlen (av_scales v) }.

Lemma row_spec_length l counts p r : (length (row_spec l counts p r) <= Z.to_nat (div_ceil (cols l) 256))%nat.
Proof.
  unfold row_spec, row_from. rewrite length_fmap, Z.sub_0_r. etransitivity; [apply length_filter|]. by rewrite length_seqZ.
Qed.

Lemma row_spec_sorted l counts p r : 0 < cols l -> StronglySorted before (row_spec l counts p r).
Proof.
  intros Hc. apply (row_from_sorted l counts p r (Z.to_nat (div_ceil (cols l) 256)) 0).
  pose proof (div_ceil_nonneg (cols l) 256). lia.
Qed.

Lemma spec_bounds l counts g p r t : layout_typed l -> geo_ok l counts g -> 0 <= p < g_planes g -> 0 <= r < rows l ->
  t ∈ row_spec l counts p r ->
  0 <= at_trit t /\ 0 <= at_len t /\ at_trit t + at_len t <= g_trits g /\
  0 <= at_scale t /\ 0 <= scales_read l (at_len t) /\ at_scale t + scales_read l (at_len t) <= g_scales g.
Proof.
  intros Hty G Hp Hr Ht. destruct (tile_in_bounds l counts g G p r t Hp Hr Ht) as (_ & _ & H3 & H4 & H5 & H6).
  apply elem_of_row_spec in Ht as (n & Hn & _ & ->). pose proof (width_bounds l n Hn) as Hw. simpl in *.
  repeat split; try lia. unfold scales_read. pose proof (group_values l (go_layout _ _ _ G)).
  destruct (anchor (law l)); try lia. apply div_ceil_nonneg; lia.
Qed.

Lemma scales_read_eq v t l : law (view_layout v) = law l -> group (view_layout v) = group l ->
  tile_scales_read v t = scales_read l (at_len t).
Proof. intros Hl Hg. unfold tile_scales_read, scales_read. rewrite Hl, Hg. by destruct (anchor (law l)). Qed.

Lemma compact_rows l counts g ix trits scales : layout_typed l -> geo_ok l counts g -> index_ok l counts g ix ->
  zlen trits = g_trits g -> zlen scales = g_scales g -> view_rows (MkView (APerTile ix) trits scales).
Proof.
  intros Hty G I Ht Hs. set (v := MkView (APerTile ix) trits scales).
  assert (Hl : view_layout v = l) by apply (io_layout _ _ _ _ I).
  assert (Hp : view_plane_count v = g_planes g) by (unfold view_plane_count, v; cbn; by rewrite (io_geometry _ _ _ _ I)).
  assert (Hts : view_tiles v = row_spec l counts)
    by (unfold view_tiles, v; cbn; by rewrite (io_layout _ _ _ _ I), (io_counts _ _ _ _ I)).
  pose proof (go_planes _ _ _ G). pose proof (lo_rows _ (go_layout _ _ _ G)). pose proof (lo_cols _ (go_layout _ _ _ G)) as Hc.
  pose proof (go_fits _ _ _ G). pose proof (tiles_nonneg l counts g G) as HT.
  split; rewrite ?Hl, ?Hp, ?Hts; cbn [v av_trits av_scales]; try lia.
  - intros p r Hpp Hr. exists (RPerTile (cursor l counts ix p r 0)). split; [|by apply (compact_yields l counts g ix p r (Z.to_nat (div_ceil (cols l) 256))); try lia].
    destruct (slot_fits l counts g G p r Hpp Hr) as [Hf1 Hf2]. pose proof (slot_bounds l counts g G p r Hpp Hr) as Hsl.
    unfold view_row_tiles, v, row_tiles. cbn [av_allocation]. rewrite (io_geometry _ _ _ _ I), (go_rows _ _ _ G).
    rewrite mul_usize_Ok by done. cbn [bind]. rewrite add_usize_Ok by done. cbn [bind].
    rewrite (idx_Ok (ix_spans ix) (p * rows l + r) (span_spec l counts p r)); [done|lia|by apply (io_spans _ _ _ _ I)].
  - intros p r. by apply row_spec_sorted.
  - intros p r. apply row_spec_length.
  - intros p r t Hpp Hr Hin. rewrite (scales_read_eq v t l), Ht, Hs by (by rewrite Hl). by apply (spec_bounds l counts g p r).
Qed.

Lemma uniform_rows l planes u trits scales : layout_typed l -> uplan_ok l planes u -> is_u8 planes ->
  zlen trits = rows l * cols l * planes -> zlen scales = u_scale_count u ->
  view_rows (MkView (AUniform l planes (u_scale_units u)) trits scales).
Proof.
  intros Hty U Hu8 Ht Hs. destruct (full_plan l planes u Hty U) as (g & Hg & G & Hgp & Hgt & Hgs).
  destruct (upos l planes u Hty U) as (HR & HC & HT & Hpl). pose proof (uo_trits _ _ _ U). pose proof (uo_fits _ _ _ U).
  split; cbn [view_plane_count view_layout av_allocation av_trits av_scales]; try lia.
  - intros p r Hp Hr. exists (RUniform (ucursor l u p r 0)). split; [|by apply (uniform_yields l planes u p r (Z.to_nat (div_ceil (cols l) 256))); try lia].
    unfold view_row_tiles, uniform_row_tiles, ucursor. cbn [av_allocation av_trits av_scales]. rewrite Ht, Hs, Z.min_l by lia.
    by rewrite <- (uo_eq _ _ _ U).
  - intros p r. by apply row_spec_sorted.
  - intros p r. apply (row_spec_length (as_per_tile l)).
  - intros p r t Hp Hr Hin. rewrite (scales_read_eq _ t (as_per_tile l)), Ht, Hs, <- Hgt, <- Hgs by done.
    apply (spec_bounds (as_per_tile l) (full_counts l planes) g p r); try done. lia.
Qed.

Lemma view_valid_rows v : view_valid v -> view_rows v.
Proof.
  intros [(l & planes & trits & scales & Hty & Hu8 & Hv)|(l & counts & plan & st & ix & trits & scales & Hty & Hb & Hp & Hbu & Hv)].
  - destruct (view_new_inv l planes trits scales v Hty Hu8 Hv) as (u & Hu & -> & Ht & Hs & _).
    apply uniform_rows; try done. by apply uniform_new_Ok.
  - unfold plan_new in Hp. apply bind_Ok_inv in Hp as (g & Hg & Hp). apply Ok_inj in Hp as <-.
    assert (G : geo_ok l counts g) by by apply geometry_Ok. unfold plan_build in Hbu. cbn [pl_layout pl_counts pl_geometry] in Hbu.
    assert (Hz : zlen st = g_slots g) by (unfold build_validated in Hbu; by destruct (Z.eqb_spec (zlen st) (g_slots g))).
    destruct (build_validated_Ok l counts g Hty G st Hz) as (ix' & Hix & I). rewrite Hix in Hbu. apply Ok_inj in Hbu as ->.
    unfold view_new_per_tile in Hv. rewrite (io_geometry _ _ _ _ I) in Hv.
    destruct (Z.eqb_spec (zlen trits) (g_trits g)) as [Ht|]; [|done]. destruct (Z.eqb_spec (zlen scales) (g_scales g)) as [Hs|]; [|done].
    cbn [negb] in Hv. apply bind_Ok_inv in Hv as (? & _ & Hv). apply Ok_inj in Hv as <-. by apply (compact_rows l counts g).
Qed.

(** * The scan on lists *)

Fixpoint find_ge (col : Z) (ts : list ActiveTile) : option ActiveTile * list ActiveTile :=
  match ts with
  | [] => (None, [])
  | t :: ts => if col <=? at_col t then (Some t, ts) else find_ge col ts
  end.

Fixpoint scan (same : ActiveTile -> ActiveTile -> bool) (cs ps : list ActiveTile) : bool :=
  match cs with
  | [] => true
  | c :: cs =>
      match find_ge (at_col c) ps with
      | (None, _) => false
      | (Some t, ps) => same c t && scan same cs ps
      end
  end.

Lemma find_tile_spec ps : forall s fuel col, yields s ps -> (length ps < fuel)%nat ->
  exists s', find_tile fuel s col = Ok (fst (find_ge col ps), s') /\
    (fst (find_ge col ps) <> None -> yields s' (snd (find_ge col ps))).
Proof.
  induction ps as [|t ps IH]; intros s fuel col Hy Hf; (destruct fuel as [|fuel]; [simpl in Hf; lia|]);
    inversion Hy as [? s' Hn|? s' ? ? Hn Hy']; subst; cbn [find_tile find_ge]; rewrite Hn; cbn [bind].
  - exists s'. by split.
  - destruct (col <=? at_col t); [by exists s'|]. apply IH; [done|simpl in Hf; lia].
Qed.

(** What the search skips lies before the column, and what follows lies after. *)
Lemma find_ge_spec col ps : StronglySorted before ps ->
  match find_ge col ps with
  | (None, _) => Forall (fun t => at_col t < col) ps
  | (Some t, rest) => col <= at_col t /\ StronglySorted before rest /\ t ∈ ps /\
      forall t', t' ∈ ps -> at_col t' < col \/ t' = t \/ (t' ∈ rest /\ at_col t < at_col t')
  end.
Proof.
  induction ps as [|t ps IH]; intros Hs; cbn [find_ge]; [done|]. apply StronglySorted_inv in Hs as [Hs Hf].
  destruct (Z.leb_spec col (at_col t)) as [Hle|Hlt].
  - split; [done|]. split; [done|]. split; [by left|]. intros t' Ht'. apply elem_of_cons in Ht' as [->|Ht']; [by right; left|].
    right; right. split; [done|]. by apply (proj1 (list.Forall_forall _ _) Hf).
  - specialize (IH Hs). destruct (find_ge col ps) as [[u|] rest].
    + destruct IH as (H1 & H2 & H3 & H4). split; [done|]. split; [done|]. split; [by right|]. intros t' Ht'.
      apply elem_of_cons in Ht' as [->|Ht']; [by left|by apply H4].
    + by constructor.
Qed.

Lemma find_ge_sub col ps t rest : find_ge col ps = (Some t, rest) -> forall u, u ∈ rest -> u ∈ ps.
Proof.
  revert rest. induction ps as [|v ps IH]; intros rest; cbn [find_ge]; [done|].
  destruct (col <=? at_col v); [intros [= <- <-] u Hu; by right|]. intros H u Hu. right. by eapply IH.
Qed.

Lemma scan_spec (same : ActiveTile -> ActiveTile -> bool) cs : forall ps,
  (forall c t, same c t = true -> at_col t = at_col c) ->
  StronglySorted before cs -> StronglySorted before ps ->
  scan same cs ps = true <-> forall c, c ∈ cs -> exists t, t ∈ ps /\ same c t = true.
Proof.
  induction cs as [|c cs IH]; intros ps Hcol Hsc Hsp; cbn [scan].
  - split; [|done]. intros _ c Hc. by apply not_elem_of_nil in Hc.
  - apply StronglySorted_inv in Hsc as [Hsc Hfc]. pose proof (find_ge_spec (at_col c) ps Hsp) as Hfind.
    destruct (find_ge (at_col c) ps) as [[t|] rest] eqn:Hfg.
    + destruct Hfind as (H1 & H2 & H3 & H4). rewrite andb_true_iff, (IH rest Hcol Hsc H2). split.
      * intros [Hs Hr] c' Hc'. apply elem_of_cons in Hc' as [->|Hc']; [by exists t|].
        destruct (Hr c' Hc') as (t' & Ht' & Hs'). exists t'. split; [by eapply find_ge_sub|done].
      * intros Hall. assert (Hs : same c t = true).
        { destruct (Hall c ltac:(by left)) as (t' & Ht' & Hs'). pose proof (Hcol _ _ Hs') as Hc.
          destruct (H4 t' Ht') as [|[->|[_ ?]]]; [lia|done|lia]. }
        split; [done|]. intros c' Hc'. destruct (Hall c' ltac:(by right)) as (t' & Ht' & Hs'). exists t'. split; [|done].
        pose proof (Hcol _ _ Hs') as E1. pose proof (Hcol _ _ Hs) as E2. pose proof (proj1 (list.Forall_forall _ _) Hfc c' Hc') as E3. simpl in E3.
        destruct (H4 t' Ht') as [|[->|[? _]]]; [lia|lia|done].
    + split; [done|]. intros Hall. destruct (Hall c ltac:(by left)) as (t' & Ht' & Hs').
      pose proof (Hcol _ _ Hs'). pose proof (proj1 (list.Forall_forall _ _) Hfind t' Ht') as E. simpl in E. lia.
Qed.

#[export] Instance tiles_equal_dec v v' t t' : Decision (tiles_equal v v' t t').
Proof. unfold tiles_equal. apply _. Defined.

Section Scan.
  Context (child parent : AdditiveView) (VC : view_rows child) (VP : view_rows parent).
  Context (Hlaw : law (view_layout child) = law (view_layout parent)) (Hgroup : group (view_layout child) = group (view_layout parent)).

Lemma window_Ok {A} (v : list A) a n : 0 <= a -> 0 <= n -> a + n <= zlen v -> zlen v <= usize_max -> window v a n = Ok (sub v a (a + n)).
Proof. intros Ha Hn Hv Hu. unfold window. rewrite add_usize_Ok by lia. cbn [bind]. apply slice_Ok; lia. Qed.

Lemma same_tile_spec p r c t : 0 <= p < view_plane_count child -> 0 <= r < rows (view_layout child) ->
  p < view_plane_count parent -> r < rows (view_layout parent) -> c ∈ view_tiles child p r -> t ∈ view_tiles parent p r ->
  same_tile child parent c t = Ok (bool_decide (tiles_equal child parent c t)).
Proof.
  intros Hp Hr Hp' Hr' Hc Ht. destruct (vr_bounds _ VC p r c Hp Hr Hc) as (B1 & B2 & B3 & B4 & B5 & B6).
  destruct (vr_bounds _ VP p r t ltac:(lia) ltac:(lia) Ht) as (B7 & B8 & B9 & B10 & B11 & B12).
  destruct (vr_fits _ VC). destruct (vr_fits _ VP). unfold same_tile.
  destruct (Z.eqb_spec (at_col t) (at_col c)) as [Hcol|Hcol]; cbn [negb].
  2: { rewrite bool_decide_eq_false_2; [done|]. by intros [? _]. }
  rewrite !window_Ok by lia. cbn [bind]. case_bool_decide as Htr; cbn [negb].
  2: { rewrite bool_decide_eq_false_2; [done|]. by intros (_ & ? & _). }
  assert (Hlen : at_len c = at_len t).
  { apply (f_equal zlen) in Htr. rewrite !zlen_sub in Htr by lia. lia. }
  change (if bool_decide (anchor (law (view_layout child)) = Group) then _ else 1) with (tile_scales_read child c).
  assert (Hsr : tile_scales_read child c = tile_scales_read parent t)
    by (unfold tile_scales_read; by rewrite Hlaw, Hgroup, Hlen).
  rewrite (window_Ok (av_scales child)) by lia. cbn [bind]. rewrite window_Ok by lia. cbn [bind]. f_equal.
  apply bool_decide_ext. split; [intros Heq; split; [exact Hcol|split; [exact Htr|exact Heq]]|intros (_ & _ & Heq); exact Heq].
Qed.

Lemma prefix_row_spec p r cs : forall ps s s' fuel ff, 0 <= p < view_plane_count child -> 0 <= r < rows (view_layout child) ->
  p < view_plane_count parent -> r < rows (view_layout parent) ->
  (forall c, c ∈ cs -> c ∈ view_tiles child p r) -> (forall t, t ∈ ps -> t ∈ view_tiles parent p r) ->
  yields s cs -> yields s' ps -> (length cs < fuel)%nat -> (length ps < ff)%nat ->
  prefix_row fuel ff child parent s s' = Ok (scan (fun c t => bool_decide (tiles_equal child parent c t)) cs ps).
Proof.
  induction cs as [|c cs IH]; intros ps s s' fuel ff Hp Hr Hp' Hr' Hcs Hps Hy Hy' Hf Hff; (destruct fuel as [|fuel]; [simpl in Hf; lia|]);
    inversion Hy as [? s1 Hn|? s1 ? ? Hn Hy1]; subst; cbn [prefix_row scan]; rewrite Hn; cbn [bind]; [done|].
  destruct (find_tile_spec ps s' ff (at_col c) Hy' Hff) as (s2 & Hfi & Hy2). rewrite Hfi. cbn [bind].
  destruct (find_ge (at_col c) ps) as [[t|] rest] eqn:Hfg; cbn [fst snd] in *; [|done].
  assert (Hin : t ∈ ps /\ (length rest < length ps)%nat).
  { clear -Hfg. revert Hfg. induction ps as [|u ps IH]; cbn [find_ge]; [done|]. destruct (_ <=? _).
    - intros [= <- <-]. split; [by left|simpl; lia].
    - intros H. destruct (IH H). split; [by right|simpl; lia]. }
  destruct Hin as [Hin Hlt].
  rewrite (same_tile_spec p r c t) by (done || (apply Hcs; by left) || by apply Hps). cbn [bind].
  case_bool_decide as He; cbn [andb]; [|done]. apply IH; try done.
  - intros c' Hc'. apply Hcs. by right.
  - intros t' Ht'. apply Hps. by eapply find_ge_sub.
  - by apply Hy2.
  - simpl in Hf. lia.
  - lia.
Qed.
End Scan.

Lemma for_all_spec {E} lo hi (f : Z -> res E bool) (b : Z -> bool) : lo <= hi -> (forall i, lo <= i < hi -> f i = Ok (b i)) ->
  for_all lo hi f = Ok (forallb b (seqZ lo (hi - lo))).
Proof.
  intros Hle Hf. unfold for_all.
  destruct (for_range_inv (fun i ok => ok = forallb b (seqZ lo (i - lo))) (fun i (ok : bool) => if ok then f i else Ok false) lo hi true)
    as (ok & Hok & ->); [done|by rewrite Z.sub_diag| |done].
  intros i ok Hi ->. replace (i + 1 - lo) with ((i - lo) + 1) by lia. rewrite seqZ_app, forallb_app by lia.
  replace (lo + (i - lo)) with i by lia.
  replace (seqZ i 1) with [i] by (unfold seqZ; simpl; f_equal; lia). cbn [forallb]. rewrite andb_true_r. destruct (forallb b (seqZ lo (i - lo))); cbn [andb].
  - rewrite (Hf i Hi). by eexists.
  - by eexists.
Qed.

(** * Properties *)

Definition pruned_child : AdditiveView :=
  MkView (APerTile ragged_index) (vec POS 900) (vec (f32_of_Z 1) 18).
Definition full_layout : AdditiveLayout :=
  MkLayout 2 300 256 32 3 Uniform D2 (MkScaleLaw Group (Tied 1 3) F16) Identity Raw.
Definition dense_parent : AdditiveView := MkView (AUniform full_layout 3 20) (vec POS 1800) (vec (f32_of_Z 1) 20).

(** C24: the prefix test terminates without panic on any two valid views, uniform or
    compact, and answers yes exactly when shape, geometry, law and basis agree, the
    parent has at least the planes of the child, and every tile the child keeps in any
    plane and row is kept by the parent with the same coefficients and the same scales;
    the single forward pass over the parent's cursor misses no matching tile. *)
Theorem logical_prefix_exact child parent :
  view_valid child -> view_valid parent ->
  exists b, is_logical_prefix_of child parent = Ok b /\
    (b = true <->
      let c := view_layout child in let p := view_layout parent in
      rows c = rows p /\ cols c = cols p /\ tile c = tile p /\ group c = group p /\ law c = law p /\ basis c = basis p /\
      view_plane_count child <= view_plane_count parent /\
      forall plane row t, 0 <= plane < view_plane_count child -> 0 <= row < rows c -> t ∈ view_tiles child plane row ->
        exists t', t' ∈ view_tiles parent plane row /\ tiles_equal child parent t t').
Proof.
  intros VC VP. apply view_valid_rows in VC, VP. unfold is_logical_prefix_of. cbv zeta.
  set (c := view_layout child). set (p := view_layout parent).
  destruct (negb _ || _ || _ || _ || _ || _ || _) eqn:Hg.
  - exists false. split; [done|]. split; [done|]. intros (H1 & H2 & H3 & H4 & H5 & H6 & H7 & _). exfalso.
    rewrite !bool_decide_eq_true_2 in Hg by done. lia.
  - apply orb_false_iff in Hg as [Hg H7]. apply orb_false_iff in Hg as [Hg H6]. apply orb_false_iff in Hg as [Hg H5].
    apply negb_false_iff, bool_decide_eq_true in H5, H6.
    assert (H1 : rows c = rows p) by lia. assert (H2 : cols c = cols p) by lia.
    assert (H3 : tile c = tile p) by lia. assert (H4 : group c = group p) by lia. clear Hg.
    pose proof (vr_planes _ VC) as HP. pose proof (vr_row_count _ VC) as HR. fold c in HR.
    set (b q r := scan (fun x y => bool_decide (tiles_equal child parent x y)) (view_tiles child q r) (view_tiles parent q r)).
    assert (Hrow : forall q r, 0 <= q < view_plane_count child -> 0 <= r < rows c ->
      (let* parents := view_row_tiles parent q r in let* children := view_row_tiles child q r in
       prefix_row (S (Z.to_nat (div_ceil (cols c) 256))) (S (Z.to_nat (div_ceil (cols c) 256))) child parent children parents)
      = Ok (b q r)).
    { intros q r Hq Hr. destruct (vr_yields _ VP q r ltac:(lia) ltac:(fold p; lia)) as (sp & -> & Hyp).
      destruct (vr_yields _ VC q r Hq Hr) as (sc & -> & Hyc). cbn [bind].
      apply (prefix_row_spec child parent VC VP H5 H4 q r); try done; try (fold p; lia); try lia.
      - pose proof (vr_length _ VC q r). fold c in H. lia.
      - pose proof (vr_length _ VP q r). fold p in H. rewrite H2. lia. }
    rewrite (for_all_spec 0 (view_plane_count child) _ (fun q => forallb (b q) (seqZ 0 (rows c - 0)))); [|done|].
    2: { intros q Hq. apply for_all_spec; [done|]. intros r Hr. by apply Hrow. }
    eexists. split; [done|]. rewrite forallb_seqZ, !Z.sub_0_r.
    assert (Hscan : forall q r, b q r = true <-> forall t, t ∈ view_tiles child q r ->
      exists t', t' ∈ view_tiles parent q r /\ tiles_equal child parent t t').
    { intros q r. unfold b. rewrite scan_spec; [|by intros x y (? & _)%bool_decide_eq_true|apply (vr_sorted _ VC)|apply (vr_sorted _ VP)].
      by setoid_rewrite bool_decide_eq_true. }
    setoid_rewrite forallb_seqZ. setoid_rewrite Hscan. split.
    + intros Hall. repeat (split; [first [done | lia]|]). intros q r t Hq Hr Ht. by apply (Hall q ltac:(lia) r ltac:(lia)).
    + intros (_ & _ & _ & _ & _ & _ & _ & Hall) q Hq r Hr t Ht. apply Hall; [lia..|done].
Qed.

Lemma logical_prefix_exact_witness :
  is_logical_prefix_of pruned_child dense_parent = Ok true /\
  is_logical_prefix_of dense_parent pruned_child = Ok false /\
  exists t', t' ∈ view_tiles dense_parent 2 1 /\ tiles_equal pruned_child dense_parent (MkTile 256 44 856 16) t'.
Proof.
  assert (VC : view_valid pruned_child).
  { right. exists ragged_layout, ragged_counts, ragged_plan, (vec (MkSpan 0 0) 6), ragged_index, (vec POS 900), (vec (f32_of_Z 1) 18).
    split; [apply ragged_typed|]. split; [apply ragged_typed|]. split; [by vm_compute|]. split; by vm_compute. }
  assert (VP : view_valid dense_parent).
  { left. exists full_layout, 3, (vec POS 1800), (vec (f32_of_Z 1) 20). split; [repeat split; vm_compute; congruence|].
    split; [unfold is_u8; lia|by vm_compute]. }
  destruct (logical_prefix_exact pruned_child dense_parent VC VP) as (b & Hb & Hspec).
  assert (Ht : is_logical_prefix_of pruned_child dense_parent = Ok true) by by vm_compute.
  split; [exact Ht|]. split; [by vm_compute|]. rewrite Ht in Hb. apply Ok_inj in Hb as <-.
  destruct (proj1 Hspec eq_refl) as (_ & _ & _ & _ & _ & _ & _ & Hall). apply (Hall 2 1); [vm_compute; split; congruence|vm_compute; split; congruence|].
  replace (view_tiles pruned_child 2 1) with [MkTile 256 44 856 16] by (by vm_compute). by left.
Defined.
