(* ===== verification/JointCode.v ===== *)
(** * Joint-symbol Huffman code (crates/tritium-format/src/salt_joint_code.rs)

    One code word per weight: the trits of a weight across its planes fold into one
    symbol, coded by a length-limited canonical Huffman code with a direct decode table
    and a random-access index. The definitions; the proofs are in
    JointLengths.v, JointWords.v and JointStream.v. A [u16], [u32] or [u64] is a [Z];
    [bget] reads a list with default 0. *)

From Stdlib Require Import ZArith Lia Bool.
From stdpp Require Import base list numbers sorting.
From S2P Require Import Prelude Core FormatBase TwoBit EntropyBase HuffmanCode.

#[local] Open Scope Z_scope.

Definition MAX_CODE_LEN : Z := 15.
Definition MAX_JOINT_PLANES : Z := 9.

Inductive JointCodeError : Type :=
| UnsupportedPlanes (t : Z)
| AlphabetSize (expected got : Z)
| SymbolOutOfRange (symbol alphabet : Z)
| BadTrit (v : Z)
| PlaneShape
| UncodedSymbol (s : Z)
| CorruptStream
| BadBlock
| TooManySymbols (live capacity : Z).

Abbreviation jres := (res JointCodeError).

Definition alphabet (t : Z) : jres Z :=
  if (t =? 0) || (MAX_JOINT_PLANES <? t) then Err (UnsupportedPlanes t) else Ok (3 ^ t).

(** The symbol of weight [i]. *)
Definition joint_symbol (planes : list (list Z)) (i : Z) : jres Z :=
  for_each planes (fun plane s =>
    let* trit := idx plane i in
    if negb ((-1 <=? trit) && (trit <=? 1)) then Err (BadTrit trit) else
    let* s := mul_u32 s 3 in add_u32 s (trit + 1)) 0.

Definition joint_symbols (planes : list (list Z)) : jres (list Z) :=
  let t := zlen planes in
  let* _ := alphabet t in
  let* first := ok_or (head planes) PlaneShape in
  let n := zlen first in
  if existsb (fun p => negb (zlen p =? n)) planes then Err PlaneShape else
  for_range 0 n (fun i out => let* s := joint_symbol planes i in upd out i (s mod 65536)) (vec 0 n).

(** The inner loop of [planes_from_symbols], from the last plane to the first. *)
Definition unfold_symbol (t i sym : Z) (planes : list (list Z)) : jres (list (list Z)) :=
  let* st := for_range 0 t (fun k (st : list (list Z) * Z) =>
    let '(planes, s) := st in
    let p := t - 1 - k in
    let* row := idx planes p in
    let* row := upd row i (s mod 3 - 1) in
    let* planes := upd planes p row in
    Ok (planes, s / 3)) (planes, sym) in
  Ok (fst st).

Definition planes_from_symbols (symbols : list Z) (t : Z) : jres (list (list Z)) :=
  let* a := alphabet t in
  for_enum 0 symbols (fun i sym planes =>
    if a <=? sym then Err (SymbolOutOfRange sym a) else unfold_symbol t i sym planes)
    (vec (vec 0 (zlen symbols)) t).

Record JointCode : Type := MkJointCode {
  jc_t : Z;
  jc_lengths : list Z;
  jc_codes : list Z;
  jc_table_bits : Z;
  jc_table : list (Z * Z) }.

(** [iter().sum()] on [u64]. *)
Definition sum_u64 (l : list Z) : jres Z := for_each l (fun x acc => add_usize acc x) 0.

(** [BinaryHeap<Reverse<(u64, usize)>>]: [pop] removes the least pair. *)
Fixpoint heap_min (heap : list (Z * Z)) : option ((Z * Z) * list (Z * Z)) :=
  match heap with
  | [] => None
  | x :: heap' =>
      match heap_min heap' with
      | None => Some (x, [])
      | Some (y, rest) => if bool_decide (pair_le x y) then Some (x, y :: rest) else Some (y, x :: rest)
      end
  end.

(** [while heap.len() > 1]; the state is [(weight, parent, heap)]. *)
Fixpoint merge_nodes (fuel : nat) (weight parent : list Z) (heap : list (Z * Z)) : jres (list Z) :=
  match fuel with
  | O => NoFuel
  | S fuel =>
      if 1 <? zlen heap then
        let* (lhs, heap) := unwrap (heap_min heap) in
        let* (rhs, heap) := unwrap (heap_min heap) in
        let id := zlen weight in
        let* w := add_usize (fst lhs) (fst rhs) in
        let* parent := upd (parent ++ [usize_max]) (snd lhs) id in
        let* parent := upd parent (snd rhs) id in
        merge_nodes fuel (weight ++ [w]) parent ((w, id) :: heap)
      else Ok parent
  end.

(** [while parent\[n\] != usize::MAX]. *)
Fixpoint depth_walk (fuel : nat) (parent : list Z) (n depth : Z) : jres Z :=
  match fuel with
  | O => NoFuel
  | S fuel =>
      let* p := idx parent n in
      if p =? usize_max then Ok depth else
      let* depth := add_u32 depth 1 in depth_walk fuel parent p depth
  end.

Definition live_symbols (freq : list Z) : list Z := filter (fun s => 0 < bget freq s) (seqZ 0 (zlen freq)).

Definition huffman_lengths (freq : list Z) : jres (list Z) :=
  let a := zlen freq in
  let live := live_symbols freq in
  let lengths := vec 0 a in
  match live with
  | [] => Ok lengths
  | [s] => upd lengths s 1
  | _ =>
      let* parent := merge_nodes (length live) freq (vec usize_max a) ((fun s => (bget freq s, s)) <$> live) in
      for_each live (fun s lengths =>
        let* depth := depth_walk (length parent) parent s 0 in
        upd lengths s (Z.min depth 255)) lengths
  end.

(** [1u64 << (max - l)] over the coded symbols. *)
Definition kraft_terms (max : Z) (lengths : list Z) : list Z :=
  (fun l => Z.shiftl 1 (max - l)) <$> filter (fun l => 0 < l) lengths.

(** [while kraft > cap]. *)
Fixpoint lengthen (fuel : nat) (order : list Z) (max_len cap kraft : Z) (lengths : list Z) : jres (list Z) :=
  if kraft <=? cap then Ok lengths else
  match fuel with
  | O => NoFuel
  | S fuel =>
      match list_find (fun s => bget lengths s < max_len) order with
      | None => Ok lengths
      | Some (_, s) =>
          let l := bget lengths s in
          let* kraft := sub_usize kraft (Z.shiftl 1 (max_len - l - 1)) in
          let* lengths := upd lengths s (l + 1) in
          lengthen fuel order max_len cap kraft lengths
      end
  end.

(** [order.sort_by_key(|&s| freq\[s\])]: the sort is stable and [order] ascends. *)
Definition by_freq (freq order : list Z) : list Z :=
  snd <$> merge_sort pair_le ((fun s => (bget freq s, s)) <$> order).

Definition limit_lengths (lengths freq : list Z) (max_len : Z) : jres (list Z) :=
  if forallb (fun l => l <=? max_len) lengths then Ok lengths else
  let lengths := (fun l => if max_len <? l then max_len else l) <$> lengths in
  let cap := Z.shiftl 1 max_len in
  let* kraft := sum_u64 (kraft_terms max_len lengths) in
  let order := by_freq freq (filter (fun s => 0 < bget lengths s) (seqZ 0 (zlen lengths))) in
  lengthen (length lengths * Z.to_nat max_len) order max_len cap kraft lengths.

(** [order.sort_by_key(|&s| (lengths\[s\], s))] over the coded symbols. *)
Definition canonical_order (lengths : list Z) : list (Z * Z) :=
  merge_sort pair_le (filter (fun e => 0 < fst e) (zip lengths (seqZ 0 (zlen lengths)))).

(** One code word; the state is [(codes, code, prev_len)]. *)
Definition assign_code (e : Z * Z) (st : list Z * Z * Z) : jres (list Z * Z * Z) :=
  let '(codes, code, prev_len) := st in
  let '(l, s) := e in
  let* code := if negb (prev_len =? 0) then
      let* c := add_u32 code 1 in let* d := sub_usize l prev_len in Ok (shl32 c d)
    else Ok code in
  let* codes := upd codes s code in
  Ok (codes, code, l).

(** The table entries of one code word. *)
Definition fill_entry (table_bits : Z) (codes : list Z) (e : Z * Z) (table : list (Z * Z)) : jres (list (Z * Z)) :=
  let '(l, s) := e in
  let* shift := sub_usize table_bits l in
  let* c := idx codes s in
  let first := Z.shiftl c shift in
  for_range first (Z.min (first + Z.shiftl 1 shift) (zlen table)) (fun i table => upd table i (s mod 65536, l)) table.

Definition from_lengths (lengths : list Z) (t : Z) : jres JointCode :=
  let* a := alphabet t in
  if negb (zlen lengths =? a) then Err (AlphabetSize a (zlen lengths)) else
  let max := foldr Z.max 0 lengths in
  if MAX_CODE_LEN <? max then Err CorruptStream else
  let* over := if 0 <? max then
      let* kraft := sum_u64 (kraft_terms max lengths) in Ok (Z.shiftl 1 max <? kraft)
    else Ok false in
  if over then Err CorruptStream else
  let order := canonical_order lengths in
  let* st := for_each order assign_code (vec 0 a, 0, 0) in
  let codes := fst (fst st) in
  let* table := for_each order (fill_entry max codes) (vec (0, 0) (Z.shiftl 1 max)) in
  Ok (MkJointCode t lengths codes max table).

Definition build (freq : list Z) (t : Z) : jres JointCode :=
  let* a := alphabet t in
  if negb (zlen freq =? a) then Err (AlphabetSize a (zlen freq)) else
  let live := zlen (live_symbols freq) in
  let capacity := Z.shiftl 1 MAX_CODE_LEN in
  if capacity <? live then Err (TooManySymbols live capacity) else
  let* lengths := huffman_lengths freq in
  let* lengths := limit_lengths lengths freq MAX_CODE_LEN in
  from_lengths lengths t.

Definition cost_bits (self : JointCode) (freq : list Z) : jres Z :=
  for_each (zip freq (jc_lengths self)) (fun e acc => let* c := mul_usize (fst e) (snd e) in add_usize acc c) 0.

Record JointStream : Type := MkJointStream {
  js_bits : list Z;
  js_block_offsets : list Z;
  js_block : Z;
  js_symbols : Z }.

Definition chargeable_bits (self : JointStream) : jres Z :=
  let* a := mul_usize (zlen (js_bits self)) 8 in
  let* b := mul_usize (zlen (js_block_offsets self)) 64 in
  add_usize a b.

(** [while n_acc >= 8]; at most 22 bits are pending. *)
Fixpoint flush (fuel : nat) (acc n_acc : Z) (bits : list Z) : jres (Z * list Z) :=
  if n_acc <? 8 then Ok (n_acc, bits) else
  match fuel with
  | O => NoFuel
  | S fuel =>
      let* n_acc := sub_u32 n_acc 8 in
      flush fuel acc n_acc (bits ++ [Z.shiftr acc n_acc mod 256])
  end.

Record Encoder : Type := MkEncoder { en_bits : list Z; en_acc : Z; en_n : Z; en_total : Z; en_offsets : list Z }.

Definition encode_symbol (code : JointCode) (block i sym : Z) (st : Encoder) : jres Encoder :=
  let a := zlen (jc_lengths code) in
  let offsets := if i mod block =? 0 then en_offsets st ++ [en_total st] else en_offsets st in
  if a <=? sym then Err (SymbolOutOfRange sym a) else
  let* l := idx (jc_lengths code) sym in
  if l =? 0 then Err (UncodedSymbol sym) else
  let* c := idx (jc_codes code) sym in
  let acc := Z.lor (Z.shiftl (en_acc st) l mod 18446744073709551616) c in
  let* n := add_u32 (en_n st) l in
  let* total := add_usize (en_total st) l in
  let* (n, bits) := flush 3 acc n (en_bits st) in
  Ok (MkEncoder bits acc n total offsets).

Definition encode (code : JointCode) (symbols : list Z) (block : Z) : jres JointStream :=
  if block =? 0 then Err BadBlock else
  let* st := for_enum 0 symbols (encode_symbol code block) (MkEncoder [] 0 0 0 []) in
  let bits := if 0 <? en_n st
    then en_bits st ++ [Z.shiftl (en_acc st) (8 - en_n st) mod 18446744073709551616 mod 256] else en_bits st in
  Ok (MkJointStream bits (en_offsets st) block (zlen symbols)).

(** [width] bits from [bit] on, zero past the end. *)
Definition peek (bits : list Z) (bit width : Z) : jres Z :=
  for_range 0 width (fun k v =>
    let* pos := add_usize bit k in
    let byte := pos / 8 in
    let* b := if byte <? zlen bits then
        let* x := idx bits byte in Ok (Z.land (Z.shiftr x (7 - pos mod 8)) 1)
      else Ok 0 in
    Ok (Z.lor (Z.shiftl v 1 mod 18446744073709551616) b)) 0.

Definition decode_step (code : JointCode) (bits : list Z) (total_bits : Z) (st : Z * list Z) : jres (Z * list Z) :=
  let '(bit, out) := st in
  let* at_ := peek bits bit (jc_table_bits code) in
  let* (sym, len) := idx (jc_table code) at_ in
  if len =? 0 then Err CorruptStream else
  let* stop := add_usize bit len in
  if total_bits <? stop then Err CorruptStream else
  Ok (stop, out ++ [sym]).

Definition decode_run (code : JointCode) (bits : list Z) (bit count : Z) : jres (list Z) :=
  let* total_bits := mul_usize (zlen bits) 8 in
  let* st := for_range 0 count (fun _ => decode_step code bits total_bits) (bit, []) in
  Ok (snd st).

Definition decode (code : JointCode) (stream : JointStream) : jres (list Z) :=
  decode_run code (js_bits stream) 0 (js_symbols stream).

Definition decode_block (code : JointCode) (stream : JointStream) (index : Z) : jres (list Z) :=
  let* start := ok_or (js_block_offsets stream !! Z.to_nat index) BadBlock in
  let* first := mul_usize index (js_block stream) in
  let* rest := sub_usize (js_symbols stream) first in
  decode_run code (js_bits stream) start (Z.min (js_block stream) rest).
