(* ===== verification/JointLengths.v ===== *)
(** * Joint code lengths: the tree and the length limit

    The merge loop keeps a forest of full trees, so the depths it ends with meet
    Kraft's inequality with equality; clamping to the limit and lengthening restores
    the inequality for any depths. *)

From Stdlib Require Import ZArith Lia Bool Sorting.Permutation.
From stdpp Require Import base list numbers sorting.
From S2P Require Import Prelude Core FormatBase TwoBit EntropyBase HuffmanCode JointCode.

#[local] Open Scope Z_scope.

(** * Kraft sums *)

Definition kterm (max l : Z) : Z := if 0 <? l then 2 ^ (max - l) else 0.
Definition ksum (max : Z) (lengths : list Z) : Z := zsum (kterm max <$> lengths).

Lemma kterm_nonneg max l : 0 <= kterm max l.
Proof. unfold kterm. destruct (0 <? l); lia. Qed.

Lemma ksum_nonneg max lengths : 0 <= ksum max lengths.
Proof. apply zsum_nonneg, Forall_fmap, Forall_true. intros l. apply kterm_nonneg. Qed.

Lemma kraft_terms_sum max lengths : Forall (fun l => l <= max) lengths -> zsum (kraft_terms max lengths) = ksum max lengths.
Proof.
  unfold kraft_terms, ksum, kterm. induction 1 as [|l lengths Hl _ IH]; [done|]. rewrite filter_cons, fmap_cons. simpl zsum.
  case_decide as Hd.
  - rewrite fmap_cons. simpl zsum. rewrite IH, Z.shiftl_1_l. by replace (0 <? l) with true by lia.
  - rewrite IH. by replace (0 <? l) with false by lia.
Qed.

Lemma sum_u64_Ok l : Forall (fun x => 0 <= x) l -> zsum l <= usize_max -> sum_u64 l = Ok (zsum l).
Proof.
  intros Hl Hs. unfold sum_u64. assert (H : forall acc, 0 <= acc -> acc + zsum l <= usize_max ->
    for_each l (fun x acc => add_usize (E := JointCodeError) acc x) acc = Ok (acc + zsum l)).
  { clear Hs. induction Hl as [|x l Hx Hl IH]; intros acc Ha Hs; simpl in *; [f_equal; lia|].
    pose proof (zsum_nonneg l Hl). rewrite add_usize_Ok by lia. cbn [bind]. rewrite IH by lia. f_equal. lia. }
  by rewrite H by lia.
Qed.

Lemma kraft_terms_nonneg max lengths : Forall (fun l => l <= max) lengths -> Forall (fun x => 0 <= x) (kraft_terms max lengths).
Proof.
  intros Hl. unfold kraft_terms. apply Forall_fmap, list.Forall_forall. intros l Hin. apply list_elem_of_filter in Hin as [_ Hin].
  rewrite list.Forall_forall in Hl. specialize (Hl l Hin). simpl. rewrite Z.shiftl_1_l. lia.
Qed.

Lemma ksum_bound max n lengths : 0 <= max -> zlen lengths <= n -> Forall (fun l => 0 <= l) lengths -> ksum max lengths <= n * 2 ^ max.
Proof.
  intros Hm Hn Hl. enough (H : ksum max lengths <= zlen lengths * 2 ^ max) by nia. clear Hn.
  induction Hl as [|l lengths Hl0 _ IH]; [done|]. unfold ksum in *. rewrite fmap_cons, zlen_cons. simpl zsum.
  enough (kterm max l <= 2 ^ max) by lia. unfold kterm. destruct (Z.ltb_spec 0 l); [|lia]. apply Z.pow_le_mono_r; lia.
Qed.

Lemma ksum_shift max e lengths : 0 <= e -> Forall (fun l => l <= max) lengths -> ksum (max + e) lengths = 2 ^ e * ksum max lengths.
Proof.
  intros He. unfold ksum. induction 1 as [|l lengths Hl _ IH]; [simpl; lia|]. rewrite !fmap_cons. simpl zsum. rewrite IH, Z.mul_add_distr_l. f_equal.
  unfold kterm. destruct (0 <? l); [|lia]. rewrite <- Z.pow_add_r by lia. f_equal. lia.
Qed.

Lemma ksum_insert max lengths s l : 0 <= s < zlen lengths ->
  ksum max (<[Z.to_nat s := l]> lengths) = ksum max lengths - kterm max (bget lengths s) + kterm max l.
Proof.
  intros Hs. unfold ksum. rewrite list_fmap_insert. destruct (lookup_Z lengths s Hs) as [x Hx].
  rewrite (zsum_insert _ _ _ (kterm max x)); [|by rewrite list_lookup_fmap, Hx].
  unfold bget. rewrite Hx. simpl. lia.
Qed.

(** * Full trees *)

(** The depths of the leaves of a full binary tree. *)
Inductive full : list nat -> Prop :=
| full_leaf : full [O]
| full_node l r : full l -> full r -> full ((S <$> l) ++ (S <$> r)).

Lemma full_nonempty ds : full ds -> ds <> [].
Proof. induction 1 as [|l r _ IH _ _]; [done|]. by destruct l. Qed.

Lemma full_kraft ds : full ds -> forall m, Forall (fun d => (d <= m)%nat) ds ->
  zsum ((fun d => 2 ^ Z.of_nat (m - d)) <$> ds) = 2 ^ Z.of_nat m.
Proof.
  induction 1 as [|l r Hl IHl Hr IHr]; intros m Hm.
  - simpl. rewrite Nat.sub_0_r. lia.
  - apply Forall_app in Hm as [Hm1 Hm2]. rewrite Forall_fmap in Hm1, Hm2. destruct m as [|m].
    { destruct l as [|d l]; [by apply full_nonempty in Hl|]. apply Forall_inv in Hm1. unfold compose in Hm1. lia. }
    assert (E : forall ds, zsum ((fun d => 2 ^ Z.of_nat (S m - d)) <$> (S <$> ds)) = zsum ((fun d => 2 ^ Z.of_nat (m - d)) <$> ds))
      by (intros ds; by rewrite <- list_fmap_compose).
    rewrite fmap_app, zsum_app, !E, IHl, IHr by (eapply list.Forall_impl; [eassumption|unfold compose; lia]).
    rewrite Nat2Z.inj_succ, Z.pow_succ_r by lia. lia.
Qed.

Lemma full_pos ds : full ds -> (1 < length ds)%nat -> Forall (fun d => (1 <= d)%nat) ds.
Proof.
  intros [|l r Hl Hr] Hlen; [simpl in Hlen; lia|]. apply Forall_app. split; apply Forall_fmap, Forall_true; simpl; lia.
Qed.

(** * Parent chains *)

(** [d] steps up from [s] lead to [n]. *)
Fixpoint chain (parent : list Z) (s : Z) (d : nat) (n : Z) : Prop :=
  match d with
  | O => s = n
  | S d => exists p, parent !! Z.to_nat s = Some p /\ p <> usize_max /\ 0 <= s < p /\ chain parent p d n
  end.

Lemma chain_le parent d : forall s n, 0 <= s -> chain parent s d n -> s + Z.of_nat d <= n.
Proof.
  induction d as [|d IH]; intros s n Hs; simpl; [intros ->; lia|]. intros (p & _ & _ & Hp & Hc). apply IH in Hc; lia.
Qed.

Lemma chain_snoc parent d : forall s n p, chain parent s d n -> parent !! Z.to_nat n = Some p -> p <> usize_max -> 0 <= n < p ->
  chain parent s (S d) p.
Proof.
  induction d as [|d IH]; intros s n p Hc Hn Hp Hlt.
  - simpl in Hc. subst s. exists p. by repeat split; try lia.
  - destruct Hc as (q & Hq & Hqm & Hsq & Hc). exists q. split; [done|]. split; [done|]. split; [done|]. by apply (IH q n).
Qed.

(** A chain passes only nodes that have a parent, so giving a root one keeps it. *)
Lemma chain_upd parent x v d : forall s n, 0 <= x < zlen parent -> parent !! Z.to_nat x = Some usize_max ->
  chain parent s d n -> chain (<[Z.to_nat x := v]> parent) s d n.
Proof.
  induction d as [|d IH]; intros s n Hx Hroot; [done|]. intros (p & Hp & Hpm & Hsp & Hc). exists p.
  split; [|split; [done|split; [done|by apply IH]]]. rewrite lookup_upd by lia.
  destruct (Z.eqb_spec x s) as [->|]; [congruence|done].
Qed.

Lemma chain_app parent more d : forall s n, chain parent s d n -> chain (parent ++ more) s d n.
Proof.
  induction d as [|d IH]; intros s n; [done|]. intros (p & Hp & Hpm & Hsp & Hc). exists p.
  split; [by apply lookup_app_l_Some|]. split; [done|]. split; [done|by apply IH].
Qed.

Lemma depth_walk_Ok parent d : forall fuel s n k, (d < fuel)%nat -> chain parent s d n -> 0 <= s -> 
  parent !! Z.to_nat n = Some usize_max -> 0 <= k -> k + Z.of_nat d <= u32_max ->
  depth_walk fuel parent s k = Ok (k + Z.of_nat d).
Proof.
  induction d as [|d IH]; intros fuel s n k Hf Hc Hs Hn Hk Hku; (destruct fuel as [|fuel]; [lia|]); cbn [depth_walk].
  - simpl in Hc. subst n. rewrite (idx_Ok _ _ _ Hs Hn). cbn [bind]. rewrite Z.eqb_refl. f_equal. lia.
  - destruct Hc as (p & Hp & Hpm & Hsp & Hc). rewrite (idx_Ok _ _ _ Hs Hp). cbn [bind].
    replace (p =? usize_max) with false by lia. unfold add_u32, checked_add32. replace (_ <=? u32_max) with true by lia. cbn [unwrap bind].
    rewrite (IH fuel p n) by (done || lia). f_equal. lia.
Qed.

(** * The merge loop *)

Lemma heap_min_perm heap : heap <> [] -> exists x rest, heap_min heap = Some (x, rest) /\ Permutation heap (x :: rest).
Proof.
  induction heap as [|x heap IH]; [done|]. intros _. simpl. destruct heap as [|y heap]; [by exists x, []|].
  destruct IH as (z & rest & -> & Hp); [done|]. case_bool_decide; [exists x, (z :: rest)|exists z, (x :: rest)]; (split; [done|]); rewrite Hp; try done.
  apply perm_swap.
Qed.

(** A heap entry with the leaves below it and their depths. *)
Record Entry : Type := MkEntry { e_weight : Z; e_node : Z; e_leaves : list (Z * nat) }.
Definition e_key (h : Entry) : Z * Z := (e_weight h, e_node h).
Definition e_symbols (h : Entry) : list Z := fst <$> e_leaves h.

Definition rooted (parent : list Z) (h : Entry) : Prop :=
  0 <= e_weight h /\ 0 <= e_node h /\ parent !! Z.to_nat (e_node h) = Some usize_max /\ full (snd <$> e_leaves h) /\
  Forall (fun m => 0 <= fst m /\ chain parent (fst m) (snd m) (e_node h)) (e_leaves h).

Record minv (live weight parent : list Z) (hs : list Entry) : Prop := {
  mi_len : zlen parent = zlen weight;
  mi_small : zlen parent + zlen hs <= 2 ^ 20;
  mi_rooted : Forall (rooted parent) hs;
  mi_nodup : NoDup (e_node <$> hs);
  mi_live : Permutation live (concat (e_symbols <$> hs));
  mi_sum : zsum (e_weight <$> hs) <= usize_max }.

Lemma minv_perm live weight parent hs hs' : Permutation hs hs' -> minv live weight parent hs -> minv live weight parent hs'.
Proof.
  intros Hp [H1 H2 H3 H4 H5 H6]. split; [done| | | | |].
  - unfold zlen in *. by rewrite <- Hp.
  - by rewrite <- Hp.
  - by rewrite <- Hp.
  - rewrite H5. rewrite <- !flat_map_concat_map. by apply Permutation_flat_map.
  - by rewrite <- (zsum_Permutation (e_weight <$> hs) (e_weight <$> hs') (fmap_Permutation e_weight _ _ Hp)).
Qed.

Section Merge.
  Context (parent : list Z) (n1 n2 : Z).
  Context (R1 : parent !! Z.to_nat n1 = Some usize_max) (R2 : parent !! Z.to_nat n2 = Some usize_max).
  Context (H1 : 0 <= n1) (H2 : 0 <= n2) (Hne : n1 <> n2) (Hsmall : zlen parent < usize_max).
  Abbreviation id := (zlen parent).

Definition merged : list Z := <[Z.to_nat n2 := id]> (<[Z.to_nat n1 := id]> (parent ++ [usize_max])).

Lemma root_bounds n p : 0 <= n -> parent !! Z.to_nat n = Some p -> n < id.
Proof. intros Hn Hl. apply lookup_lt_Some in Hl. unfold zlen. lia. Qed.

Lemma merged_lookup n : 0 <= n -> merged !! Z.to_nat n =
  if n2 =? n then Some id else if n1 =? n then Some id else (parent ++ [usize_max]) !! Z.to_nat n.
Proof.
  intros Hn. pose proof (root_bounds _ _ H1 R1). pose proof (root_bounds _ _ H2 R2). unfold merged.
  rewrite !lookup_upd; [done|..]; rewrite ?zlen_insert, ?zlen_app; change (zlen [usize_max]) with 1; lia.
Qed.

Lemma merged_chain s d n : chain parent s d n -> chain merged s d n.
Proof.
  intros Hc. pose proof (root_bounds _ _ H1 R1). pose proof (root_bounds _ _ H2 R2). unfold merged.
  assert (Hz : zlen (parent ++ [usize_max]) = id + 1) by (rewrite zlen_app; done).
  apply chain_upd; [rewrite zlen_insert; lia| |apply chain_upd; [lia| |by apply chain_app]].
  - rewrite lookup_upd by lia. replace (n1 =? n2) with false by lia. by apply lookup_app_l_Some.
  - by apply lookup_app_l_Some.
Qed.

Lemma merged_upd : (let* p := upd (parent ++ [usize_max]) n1 id in upd p n2 id) = Ok (E := JointCodeError) merged.
Proof.
  pose proof (root_bounds _ _ H1 R1). pose proof (root_bounds _ _ H2 R2).
  assert (Hz : zlen (parent ++ [usize_max]) = id + 1) by (rewrite zlen_app; done).
  rewrite upd_Ok by lia. cbn [bind]. rewrite upd_Ok; [done|]. rewrite zlen_insert. lia.
Qed.

Lemma rooted_other h : e_node h <> n1 -> e_node h <> n2 -> rooted parent h -> rooted merged h.
Proof.
  intros Hn1 Hn2 (A & B & C & D & E). split; [done|]. split; [done|]. split.
  - rewrite merged_lookup by done. replace (n2 =? _) with false by lia. replace (n1 =? _) with false by lia. by apply lookup_app_l_Some.
  - split; [done|]. eapply list.Forall_impl; [exact E|]. intros m [Hm Hc]. split; [done|]. by apply merged_chain.
Qed.

Definition deeper (ms : list (Z * nat)) : list (Z * nat) := (fun m => (fst m, S (snd m))) <$> ms.

Lemma deeper_chain ms n : (n = n1 \/ n = n2) ->
  Forall (fun m => 0 <= fst m /\ chain parent (fst m) (snd m) n) ms ->
  Forall (fun m => 0 <= fst m /\ chain merged (fst m) (snd m) id) (deeper ms).
Proof.
  intros Hn Hms. unfold deeper. apply Forall_fmap. eapply list.Forall_impl; [exact Hms|]. intros [s d] [Hs Hc]. unfold compose. cbn [fst snd] in *.
  split; [done|]. assert (Hn0 : 0 <= n < id).
  { destruct Hn as [->| ->]; [pose proof (root_bounds _ _ H1 R1)|pose proof (root_bounds _ _ H2 R2)]; lia. }
  apply (chain_snoc merged d s n id); [by apply merged_chain| |lia|lia].
  rewrite merged_lookup by lia. destruct Hn as [->| ->]; rewrite Z.eqb_refl; [by destruct (n2 =? n1)|done].
Qed.

Lemma rooted_new w ms1 ms2 : 0 <= w -> full (snd <$> ms1) -> full (snd <$> ms2) ->
  Forall (fun m => 0 <= fst m /\ chain parent (fst m) (snd m) n1) ms1 ->
  Forall (fun m => 0 <= fst m /\ chain parent (fst m) (snd m) n2) ms2 ->
  rooted merged (MkEntry w id (deeper ms1 ++ deeper ms2)).
Proof.
  intros Hw F1 F2 C1 C2. pose proof (zlen_nonneg parent). split; [done|]. split; [done|]. split; [|split].
  - cbn [e_node]. rewrite merged_lookup by done. pose proof (root_bounds _ _ H1 R1). pose proof (root_bounds _ _ H2 R2).
    replace (n2 =? id) with false by lia. replace (n1 =? id) with false by lia. unfold zlen. rewrite Nat2Z.id. by apply list_lookup_middle.
  - cbn [e_leaves]. unfold deeper. rewrite fmap_app, <- !list_fmap_compose.
    replace ((snd ∘ (fun m : Z * nat => (fst m, S (snd m)))) <$> ms1) with (S <$> (snd <$> ms1)) by (by rewrite <- list_fmap_compose).
    replace ((snd ∘ (fun m : Z * nat => (fst m, S (snd m)))) <$> ms2) with (S <$> (snd <$> ms2)) by (by rewrite <- list_fmap_compose).
    by apply full_node.
  - cbn [e_leaves e_node]. apply Forall_app. split; [eapply deeper_chain; [by left|done]|eapply deeper_chain; [by right|done]].
Qed.
End Merge.

Lemma deeper_symbols ms : fst <$> deeper ms = fst <$> ms.
Proof. unfold deeper. by rewrite <- list_fmap_compose. Qed.

Lemma merge_step live weight parent h1 h2 hs : minv live weight parent (h1 :: h2 :: hs) ->
  add_usize (E := JointCodeError) (e_weight h1) (e_weight h2) = Ok (e_weight h1 + e_weight h2) /\
  (let* p := upd (parent ++ [usize_max]) (e_node h1) (zlen weight) in upd p (e_node h2) (zlen weight))
    = Ok (E := JointCodeError) (merged parent (e_node h1) (e_node h2)) /\
  minv live (weight ++ [e_weight h1 + e_weight h2]) (merged parent (e_node h1) (e_node h2))
    (MkEntry (e_weight h1 + e_weight h2) (zlen weight) (deeper (e_leaves h1) ++ deeper (e_leaves h2)) :: hs).
Proof.
  intros [Hlen Hsmall Hroot Hnd Hlive Hsum]. rewrite !zlen_cons in Hsmall. pose proof (zlen_nonneg hs).
  apply list.Forall_cons in Hroot as [R1 Hroot]. apply list.Forall_cons in Hroot as [R2 Hroot].
  destruct R1 as (A1 & B1 & C1 & D1 & E1). destruct R2 as (A2 & B2 & C2 & D2 & E2).
  rewrite !fmap_cons in Hnd, Hsum. simpl zsum in Hsum. apply list.NoDup_cons in Hnd as [N1 Hnd]. apply list.NoDup_cons in Hnd as [N2 Hnd].
  assert (Hne : e_node h1 <> e_node h2) by (intros E; apply N1; rewrite E; by left).
  assert (Hw : Forall (fun x => 0 <= x) (e_weight <$> hs)) by (apply Forall_fmap; eapply list.Forall_impl; [exact Hroot|]; by intros h (? & _)).
  pose proof (zsum_nonneg _ Hw) as Hw0. assert (Hu : zlen parent < usize_max) by (unfold usize_max; lia).
  split; [by apply add_usize_Ok; lia|]. rewrite <- Hlen. split; [by apply merged_upd|].
  split.
  - unfold merged. rewrite !zlen_insert, !zlen_app, Hlen. done.
  - unfold merged. rewrite !zlen_insert, zlen_cons, zlen_app. change (zlen [usize_max]) with 1. lia.
  - constructor; [by apply rooted_new; try lia|]. rewrite list.Forall_forall in Hroot |- *. intros h Hh.
    apply rooted_other; try done; [| |by apply Hroot].
    + intros E. apply N1. rewrite <- E. right. by apply list_elem_of_fmap_2.
    + intros E. apply N2. rewrite <- E. by apply list_elem_of_fmap_2.
  - rewrite fmap_cons. apply list.NoDup_cons. split; [|done]. cbn [e_node]. intros Hin. apply list_elem_of_fmap in Hin as (h & E & Hh).
    rewrite list.Forall_forall in Hroot. destruct (Hroot h Hh) as (_ & Hn & Hl & _). apply lookup_lt_Some in Hl. unfold zlen in E. lia.
  - rewrite Hlive, !fmap_cons. simpl. unfold e_symbols at 4. cbn [e_leaves]. rewrite fmap_app, !deeper_symbols. by rewrite <- (assoc_L (++)).
  - rewrite fmap_cons. simpl zsum. cbn [e_weight]. lia.
Qed.

Lemma merge_nodes_Ok fuel : forall live weight parent heap hs, minv live weight parent hs ->
  Permutation heap (e_key <$> hs) -> hs <> [] -> (length hs <= fuel)%nat ->
  exists parent' h, merge_nodes fuel weight parent heap = Ok parent' /\ rooted parent' h /\ Permutation live (e_symbols h) /\
    zlen parent' <= 2 ^ 20.
Proof.
  induction fuel as [|fuel IH]; intros live weight parent heap hs I Hp Hne Hf.
  { destruct hs; [done|]. simpl in Hf. lia. }
  cbn [merge_nodes]. assert (Hl : length heap = length hs) by (by rewrite Hp, length_fmap).
  destruct (Z.ltb_spec 1 (zlen heap)) as [Hgt|Hle].
  - destruct (heap_min_perm heap) as (x & heap1 & -> & P1); [intros ->; done|]. cbn [unwrap bind].
    assert (Hl1 : length heap = S (length heap1)) by (by rewrite P1).
    destruct (heap_min_perm heap1) as (y & heap2 & -> & P2); [intros ->; unfold zlen in Hgt; simpl in Hl1; lia|]. cbn [unwrap bind].
    assert (HP : Permutation (x :: y :: heap2) (e_key <$> hs)) by (rewrite <- P2, <- P1; exact Hp).
    apply Permutation_map_inv in HP as (hs' & E & Hperm). destruct hs' as [|h1 [|h2 rest]]; [done..|].
    injection E as -> -> ->. apply (minv_perm _ _ _ _ _ Hperm) in I. destruct (merge_step _ _ _ _ _ _ I) as (S1 & S2 & I').
    cbn [e_key fst snd]. rewrite S1. cbn [bind].
    destruct (upd (parent ++ [usize_max]) (e_node h1) (zlen weight)) as [p1| | |] eqn:U1; cbn [bind] in S2; [|done..].
    cbn [bind]. rewrite S2. cbn [bind].
    destruct (IH live _ _ ((e_weight h1 + e_weight h2, zlen weight) :: (e_key <$> rest)) _ I') as (p' & h & H1 & H2 & H3 & H4); [done|done| |].
    { apply Permutation_length in Hperm. simpl in *. lia. }
    exists p', h. split; [exact H1|done].
  - destruct hs as [|h [|h2 hs]]; [done| |simpl in Hl; unfold zlen in Hle; lia].
    exists parent, h. destruct I as [_ Hsmall Hroot _ Hlive _]. split; [done|]. apply list.Forall_cons in Hroot as [Hr _]. split; [done|].
    split; [by rewrite Hlive; simpl; rewrite app_nil_r|]. rewrite zlen_cons in Hsmall. change (zlen []) with 0 in Hsmall. lia.
Qed.

(** * The lengths of the tree *)

Lemma zsum_filter {A} (P : A -> Prop) `{forall x, Decision (P x)} (f : A -> Z) l :
  (forall x, x ∈ l -> ~ P x -> f x = 0) -> zsum (f <$> filter P l) = zsum (f <$> l).
Proof.
  induction l as [|x l IH]; intros Hf; [done|]. rewrite filter_cons, fmap_cons. simpl zsum.
  specialize (IH (fun y Hy => Hf y (list_elem_of_further _ _ _ Hy))). case_decide as Hp.
  - rewrite fmap_cons. simpl zsum. lia.
  - rewrite IH, Hf by (done || by left). lia.
Qed.

Lemma list_as_bget l : l = bget l <$> seqZ 0 (zlen l).
Proof. symmetry. by apply tabulate_bget. Qed.

Lemma elem_of_live freq s : s ∈ live_symbols freq <-> 0 <= s < zlen freq /\ 0 < bget freq s.
Proof. unfold live_symbols. rewrite list_elem_of_filter, elem_of_seqZ. split; intros [? ?]; split; try done; lia. Qed.

Lemma live_nodup freq : NoDup (live_symbols freq).
Proof. apply NoDup_filter, NoDup_seqZ. Qed.

Lemma live_sum freq (f : Z -> Z) : (forall s, 0 <= s -> ~ 0 < bget freq s -> f s = 0) ->
  zsum (f <$> live_symbols freq) = zsum (f <$> seqZ 0 (zlen freq)).
Proof. intros Hf. apply zsum_filter. intros s Hs. apply elem_of_seqZ in Hs. apply Hf. lia. Qed.

Lemma live_weight freq : Forall (fun f => 0 <= f) freq -> zsum (bget freq <$> live_symbols freq) = zsum freq.
Proof.
  intros Hf. rewrite live_sum; [by rewrite <- list_as_bget|]. intros s _ Hs. unfold bget in *.
  destruct (freq !! Z.to_nat s) as [x|] eqn:E; [|done]. simpl in *. pose proof (Forall_lookup_1 _ _ _ _ Hf E). simpl in *. lia.
Qed.

Definition leaf_entry (freq : list Z) (s : Z) : Entry := MkEntry (bget freq s) s [(s, O)].

Lemma minv_start freq : Forall (fun f => 0 <= f) freq -> zsum freq <= usize_max -> zlen freq <= 19683 ->
  minv (live_symbols freq) freq (vec usize_max (zlen freq)) (leaf_entry freq <$> live_symbols freq).
Proof.
  intros Hf Hs Ha. pose proof (zlen_nonneg freq) as H0.
  assert (Hll : zlen (live_symbols freq) <= zlen freq).
  { unfold live_symbols, zlen. pose proof (length_filter (fun s => 0 < bget freq s) (seqZ 0 (Z.of_nat (length freq)))) as H.
    rewrite length_seqZ in H. lia. }
  split.
  - rewrite zlen_vec. lia.
  - rewrite zlen_vec, zlen_fmap. lia.
  - apply Forall_fmap, list.Forall_forall. intros s Hin. apply elem_of_live in Hin as [Hs1 Hs2]. unfold compose, rooted, leaf_entry. cbn.
    split; [lia|]. split; [lia|]. split; [by apply lookup_vec|]. split; [constructor|]. constructor; [|done]. split; [cbn; lia|done].
  - rewrite <- list_fmap_compose. replace ((e_node ∘ leaf_entry freq) <$> live_symbols freq) with (live_symbols freq); [apply live_nodup|].
    symmetry. apply list_fmap_id.
  - rewrite <- list_fmap_compose. rewrite (list_fmap_ext _ (fun s => [s])) by done.
    replace (concat ((fun s => [s]) <$> live_symbols freq)) with (live_symbols freq); [done|].
    generalize (live_symbols freq). intros l. induction l as [|x l IH]; [done|]. rewrite fmap_cons. cbn [concat app]. by f_equal.
  - rewrite <- list_fmap_compose. rewrite (list_fmap_ext _ (bget freq)) by done. by rewrite live_weight.
Qed.

Definition depth_of (ms : list (Z * nat)) (s : Z) : nat :=
  match list_find (fun m => fst m = s) ms with Some (_, m) => snd m | None => O end.

Lemma depth_of_in ms s d : NoDup (fst <$> ms) -> (s, d) ∈ ms -> depth_of ms s = d.
Proof.
  intros Hnd Hin. unfold depth_of. destruct (list_find (fun m => fst m = s) ms) as [[i [s' d']]|] eqn:E.
  - apply list_find_Some in E as (Hi & Hs & _). cbn in Hs. subst s'. cbn. apply list_elem_of_lookup_1 in Hin as [j Hj].
    assert (i = j).
    { eapply (NoDup_lookup (fst <$> ms)); [done|by rewrite list_lookup_fmap, Hi|by rewrite list_lookup_fmap, Hj]. }
    congruence.
  - apply list_find_None in E. rewrite list.Forall_forall in E. by destruct (E _ Hin).
Qed.

(** The lengths written from the depths of the leaves. *)
Lemma write_depths parent h live a : rooted parent h -> Permutation live (e_symbols h) -> NoDup live ->
  zlen parent <= 2 ^ 20 -> 0 <= a -> Forall (fun s => 0 <= s < a) live ->
  exists lengths, for_each live (fun s lengths =>
      let* depth := depth_walk (length parent) parent s 0 in upd lengths s (Z.min depth 255)) (vec 0 a) = Ok lengths /\
    zlen lengths = a /\
    forall s, 0 <= s -> bget lengths s = if decide (s ∈ live) then Z.min (Z.of_nat (depth_of (e_leaves h) s)) 255 else 0.
Proof.
  intros (_ & Hn & Hroot & _ & Hms) Hperm Hnd Hsmall Ha Hr.
  assert (Hwalk : forall s, s ∈ live -> depth_walk (length parent) parent s 0 = Ok (Z.of_nat (depth_of (e_leaves h) s))).
  { intros s Hs. rewrite Hperm in Hs. apply list_elem_of_fmap in Hs as ([s' d] & -> & Hin). cbn [fst].
    rewrite (depth_of_in _ s' d) by (done || (rewrite <- Hperm; done)).
    rewrite list.Forall_forall in Hms. destruct (Hms _ Hin) as [Hs0 Hc]. cbn in Hs0, Hc. pose proof (chain_le _ _ _ _ Hs0 Hc) as Hle.
    apply lookup_lt_Some in Hroot as Hlt. unfold zlen in Hsmall. change (2 ^ 20) with 1048576 in Hsmall.
    rewrite (depth_walk_Ok parent d _ s' (e_node h)); [done|lia|done|done|done|lia|unfold u32_max; lia]. }
  destruct (for_each_inv (E := JointCodeError) (fun pre lengths => zlen lengths = a /\
      forall s, 0 <= s -> bget lengths s = if decide (s ∈ pre) then Z.min (Z.of_nat (depth_of (e_leaves h) s)) 255 else 0)
    (fun s lengths => let* depth := depth_walk (length parent) parent s 0 in upd lengths s (Z.min depth 255)) live (vec 0 a))
    as (lengths & Hl & Hz & Hb); [| |by exists lengths].
  - split; [rewrite zlen_vec; lia|]. intros s Hs. rewrite decide_False by apply not_elem_of_nil.
    unfold bget, vec. destruct (replicate _ _ !! _) eqn:E; [|done]. by apply lookup_replicate_1 in E as [-> _].
  - intros pre s post lengths Hpre (Hz & Hb). assert (Hs : s ∈ live) by (rewrite Hpre; apply elem_of_app; right; by left).
    rewrite (Hwalk s Hs). cbn [bind]. rewrite list.Forall_forall in Hr. specialize (Hr s Hs). rewrite upd_Ok by lia.
    eexists. split; [done|]. split; [by rewrite zlen_insert|].
    intros s' Hs'. rewrite bget_upd by lia. destruct (Z.eqb_spec s s') as [->|Hne].
    + by rewrite decide_True by (apply elem_of_app; right; by left).
    + rewrite Hb by done. destruct (decide (s' ∈ pre)) as [Hin|Hin].
      * by rewrite decide_True by (apply elem_of_app; by left).
      * rewrite decide_False; [done|]. intros [?|Hx%list_elem_of_singleton]%elem_of_app; [done|congruence].
Qed.

(** What the lengths of a code promise. *)
Record lengths_for (freq lengths : list Z) : Prop := {
  lf_len : zlen lengths = zlen freq;
  lf_range : Forall (fun l => 0 <= l <= 255) lengths;
  lf_live : forall s, 0 <= s < zlen freq -> (0 < bget lengths s <-> 0 < bget freq s) }.

Lemma range_of_bget lengths a (P : Z -> Prop) : zlen lengths = a -> (forall s, 0 <= s < a -> P (bget lengths s)) -> Forall P lengths.
Proof.
  intros Hz HP. rewrite (list_as_bget lengths), Hz. apply Forall_fmap, list.Forall_forall. intros s Hs. apply elem_of_seqZ in Hs. apply HP. lia.
Qed.

(** Kraft's sum over the leaves of the tree. *)
Lemma tree_ksum freq lengths ms : zlen lengths = zlen freq -> full (snd <$> ms) -> Permutation (live_symbols freq) (fst <$> ms) ->
  (1 < length ms)%nat -> Forall (fun l => l <= 15) lengths ->
  (forall s, 0 <= s -> bget lengths s = if decide (s ∈ live_symbols freq) then Z.min (Z.of_nat (depth_of ms s)) 255 else 0) ->
  ksum 15 lengths = 2 ^ 15.
Proof.
  intros Hz Hfull Hperm Hlen H15 Hb. unfold ksum. rewrite (list_as_bget lengths) at 1. rewrite Hz, <- list_fmap_compose.
  assert (Hnd : NoDup (fst <$> ms)) by (rewrite <- Hperm; apply live_nodup).
  assert (Hdep : forall s d, (s, d) ∈ ms -> 0 <= s < zlen freq /\ bget lengths s = Z.of_nat d /\ (1 <= d <= 15)%nat).
  { intros s d Hin. assert (Hs : s ∈ live_symbols freq) by (rewrite Hperm; apply (list_elem_of_fmap_2 fst) in Hin; done).
    apply elem_of_live in Hs as Hs'. destruct Hs' as [Hs' _]. split; [done|]. pose proof (Hb s ltac:(lia)) as E.
    rewrite decide_True, (depth_of_in ms s d) in E by done.
    assert (Hle : bget lengths s <= 15).
    { unfold bget. destruct (lengths !! Z.to_nat s) eqn:El; [|simpl; lia]. apply (Forall_lookup_1 _ _ _ _ H15 El). }
    pose proof (full_pos _ Hfull ltac:(by rewrite length_fmap)) as Hpos. rewrite list.Forall_forall in Hpos.
    specialize (Hpos d (list_elem_of_fmap_2 snd _ _ Hin)). simpl in Hpos. lia. }
  rewrite <- (live_sum freq (kterm 15 ∘ bget lengths)).
  - rewrite (zsum_Permutation _ ((kterm 15 ∘ bget lengths) <$> (fst <$> ms))) by (by rewrite Hperm).
    rewrite <- list_fmap_compose. change (2 ^ 15) with (2 ^ Z.of_nat 15). rewrite <- (full_kraft _ Hfull 15).
    + rewrite <- list_fmap_compose. f_equal. apply list_fmap_ext. intros i [s d] Hi. unfold compose, kterm. cbn [fst snd].
      destruct (Hdep s d (list_elem_of_lookup_2 _ _ _ Hi)) as (_ & -> & Hd). replace (0 <? Z.of_nat d) with true by lia. f_equal. lia.
    + apply Forall_fmap, list.Forall_forall. intros [s d] Hin. destruct (Hdep s d Hin) as (_ & _ & ?). simpl. lia.
  - intros s H0 Hs. unfold compose, kterm. destruct (Z.ltb_spec 0 (bget lengths s)) as [Hpos|]; [|done].
    rewrite Hb in Hpos by done. rewrite decide_False in Hpos; [lia|]. intros Hx. by apply elem_of_live in Hx as [_ ?].
Qed.

Lemma bget_vec0 a s : bget (vec 0 a) s = 0.
Proof. unfold bget, vec. destruct (replicate _ _ !! _) eqn:E; [|done]. by apply lookup_replicate_1 in E as [-> _]. Qed.

Lemma ksum_zeros m a : ksum m (vec 0 a) = 0.
Proof. unfold ksum, vec. rewrite fmap_replicate. apply zsum_vec0. Qed.

Lemma huffman_lengths_Ok freq : Forall (fun f => 0 <= f) freq -> zsum freq <= usize_max -> zlen freq <= 19683 ->
  exists lengths, huffman_lengths freq = Ok lengths /\ lengths_for freq lengths /\
    (Forall (fun l => l <= 15) lengths -> ksum 15 lengths <= 2 ^ 15).
Proof.
  intros Hf Hs Ha. pose proof (zlen_nonneg freq) as H0. unfold huffman_lengths.
  destruct (live_symbols freq) as [|s0 [|s1 rest]] eqn:El.
  - exists (vec 0 (zlen freq)). split; [done|]. split; [|intros _; rewrite ksum_zeros; lia]. split.
    + rewrite zlen_vec. lia.
    + apply Forall_replicate. lia.
    + intros s Hs'. rewrite bget_vec0. split; [lia|]. intros Hp.
      assert (Hin : s ∈ live_symbols freq) by by apply elem_of_live. rewrite El in Hin. by apply not_elem_of_nil in Hin.
  - assert (Hin : s0 ∈ live_symbols freq) by (rewrite El; by left). apply elem_of_live in Hin as [Hr Hpos].
    rewrite upd_Ok by (rewrite zlen_vec; lia). eexists. split; [done|].
    assert (Hb : forall s, 0 <= s -> bget (<[Z.to_nat s0 := 1]> (vec 0 (zlen freq))) s = if s0 =? s then 1 else 0)
      by (intros s Hs'; rewrite bget_upd, bget_vec0; [done|rewrite zlen_vec; lia|lia]).
    assert (Hz : zlen (<[Z.to_nat s0 := 1]> (vec 0 (zlen freq))) = zlen freq) by (rewrite zlen_insert, zlen_vec; lia).
    split; [split; [done| |]|].
    + apply (range_of_bget _ (zlen freq)); [done|]. intros s Hs'. rewrite Hb by lia. destruct (s0 =? s); lia.
    + intros s Hs'. rewrite Hb by lia. destruct (Z.eqb_spec s0 s) as [->|Hne]; [lia|]. split; [lia|]. intros Hp.
      assert (Hin : s ∈ live_symbols freq) by by apply elem_of_live. rewrite El in Hin. apply list_elem_of_singleton in Hin. lia.
    + intros _. rewrite ksum_insert by (rewrite zlen_vec; lia). rewrite bget_vec0, ksum_zeros. vm_compute. congruence.
  - rewrite <- El in *. pose proof (minv_start freq Hf Hs Ha) as I.
    destruct (merge_nodes_Ok (length (live_symbols freq)) _ _ _ ((fun s => (bget freq s, s)) <$> live_symbols freq) _ I)
      as (parent & h & Hm & Hroot & Hperm & Hsmall).
    { rewrite <- list_fmap_compose. done. }
    { by rewrite El. }
    { by rewrite length_fmap. }
    rewrite Hm. cbn [bind].
    destruct (write_depths parent h (live_symbols freq) (zlen freq) Hroot Hperm (live_nodup freq) Hsmall H0) as (lengths & Hl & Hz & Hb).
    { apply list.Forall_forall. intros s Hs'. apply elem_of_live in Hs'. lia. }
    exists lengths. split; [done|]. destruct Hroot as (_ & _ & _ & Hfull & _).
    assert (Hlm : (1 < length (e_leaves h))%nat).
    { unfold e_symbols in Hperm. apply Permutation_length in Hperm. rewrite length_fmap, El in Hperm. simpl in Hperm. lia. }
    pose proof (full_pos _ Hfull ltac:(by rewrite length_fmap)) as Hpos.
    assert (Hnd : NoDup (fst <$> e_leaves h)) by (unfold e_symbols in Hperm; rewrite <- Hperm; apply live_nodup).
    assert (Hdp : forall s, s ∈ live_symbols freq -> (1 <= depth_of (e_leaves h) s)%nat).
    { intros s Hs'. rewrite Hperm in Hs'. apply list_elem_of_fmap in Hs' as ([s' d] & -> & Hin). cbn [fst].
      rewrite (depth_of_in _ s' d) by done. rewrite list.Forall_forall in Hpos. apply (Hpos d (list_elem_of_fmap_2 snd _ _ Hin)). }
    split; [split; [done| |]|].
    + apply (range_of_bget _ (zlen freq)); [done|]. intros s Hs'. rewrite Hb by lia. destruct (decide _); lia.
    + intros s Hs'. rewrite Hb by lia. destruct (decide (s ∈ live_symbols freq)) as [Hin|Hin].
      * specialize (Hdp s Hin). apply elem_of_live in Hin. lia.
      * split; [lia|]. intros Hp. destruct Hin. by apply elem_of_live.
    + intros H15. rewrite (tree_ksum freq lengths (e_leaves h)); done.
Qed.

(** * The length limit *)

Definition slack (lengths : list Z) : Z := zsum ((fun l => 15 - l) <$> lengths).

Lemma slack_bounds lengths : Forall (fun l => 0 <= l <= 15) lengths -> 0 <= slack lengths <= zlen lengths * 15.
Proof.
  unfold slack. induction 1 as [|l lengths Hl _ IH]; [done|]. rewrite fmap_cons, zlen_cons. simpl zsum. lia.
Qed.

Lemma slack_insert lengths s l : 0 <= s < zlen lengths -> slack (<[Z.to_nat s := l]> lengths) = slack lengths + bget lengths s - l.
Proof.
  intros Hs. unfold slack. rewrite list_fmap_insert. destruct (lookup_Z lengths s Hs) as [x Hx].
  rewrite (zsum_insert _ _ _ (15 - x)); [|by rewrite list_lookup_fmap, Hx]. unfold bget. rewrite Hx. simpl. lia.
Qed.

Lemma ksum_capped lengths : Forall (fun l => l = 0 \/ 15 <= l) lengths -> ksum 15 lengths <= zlen lengths.
Proof.
  unfold ksum. induction 1 as [|l lengths Hl _ IH]; [done|]. rewrite fmap_cons, zlen_cons. simpl zsum.
  enough (kterm 15 l <= 1) by lia. unfold kterm. destruct (Z.ltb_spec 0 l) as [|]; [|lia]. destruct Hl as [->|Hl]; [lia|].
  destruct (Z.eq_dec l 15) as [->|]; [done|]. rewrite Z.pow_neg_r; lia.
Qed.

Lemma slack_lookup lengths s : Forall (fun l => 0 <= l <= 15) lengths -> 0 <= s < zlen lengths -> 15 - bget lengths s <= slack lengths.
Proof.
  intros H15 Hs. destruct (lookup_Z lengths s Hs) as [x Hx]. unfold slack. apply (zsum_lookup_le _ (Z.to_nat s)).
  - apply Forall_fmap. eapply list.Forall_impl; [exact H15|]. unfold compose. lia.
  - rewrite list_lookup_fmap, Hx. unfold bget. by rewrite Hx.
Qed.

(** While the sum is over the cap some coded symbol is below the limit. *)
Lemma lengthen_room order freq lengths : lengths_for freq lengths -> Forall (fun l => 0 <= l <= 15) lengths -> zlen lengths <= 32768 ->
  (forall s, s ∈ order <-> 0 <= s < zlen freq /\ 0 < bget freq s) -> 32768 < ksum 15 lengths ->
  exists i s, list_find (fun s => bget lengths s < 15) order = Some (i, s) /\ 0 <= s < zlen lengths /\ 0 < bget lengths s < 15.
Proof.
  intros [Hlen _ Hlive] H15 Hz Hord Hgt. destruct (list_find (fun s => bget lengths s < 15) order) as [[i s]|] eqn:E.
  - exists i, s. apply list_find_Some in E as (Hi & Hs & _). split; [done|]. apply list_elem_of_lookup_2, Hord in Hi as [Hr Hp].
    rewrite Hlen. split; [done|]. apply (Hlive s Hr) in Hp. lia.
  - exfalso. apply list_find_None in E. rewrite list.Forall_forall in E. enough (ksum 15 lengths <= zlen lengths) by lia.
    apply ksum_capped, (range_of_bget _ (zlen lengths)); [done|]. intros s Hs. destruct (Z.eq_dec (bget lengths s) 0) as [|Hn]; [by left|right].
    assert (Hp : 0 <= bget lengths s).
    { unfold bget. destruct (lookup_Z lengths s Hs) as [x Hx]. rewrite Hx. pose proof (Forall_lookup_1 _ _ _ _ H15 Hx). simpl in *. lia. }
    specialize (E s). rewrite Hlen in Hs. enough (~ bget lengths s < 15) by lia. apply E, Hord. split; [done|]. apply (Hlive s Hs). lia.
Qed.

Lemma lengthen_Ok order freq fuel : forall lengths, lengths_for freq lengths -> Forall (fun l => 0 <= l <= 15) lengths ->
  zlen lengths <= 32768 ->
  (forall s, s ∈ order <-> 0 <= s < zlen freq /\ 0 < bget freq s) -> slack lengths <= Z.of_nat fuel ->
  exists lengths', lengthen fuel order 15 32768 (ksum 15 lengths) lengths = Ok lengths' /\
    lengths_for freq lengths' /\ Forall (fun l => 0 <= l <= 15) lengths' /\ ksum 15 lengths' <= 32768.
Proof.
  induction fuel as [|fuel IH]; intros lengths L H15 Hz Hord Hfuel; cbn [lengthen];
    (destruct (Z.leb_spec (ksum 15 lengths) 32768) as [Hle|Hgt]; [by exists lengths|]);
    destruct (lengthen_room order freq lengths L H15 Hz Hord Hgt) as (i & s & Hfind & Hs & Hb);
    pose proof (slack_lookup lengths s H15 Hs); [lia|].
  rewrite Hfind. cbv zeta. set (l := bget lengths s) in *. rewrite Z.shiftl_1_l.
  pose proof (ksum_insert 15 lengths s (l + 1) Hs) as Hk. fold l in Hk. unfold kterm in Hk.
  replace (0 <? l) with true in Hk by lia. replace (0 <? l + 1) with true in Hk by lia.
  assert (E2 : 2 ^ (15 - l) = 2 * 2 ^ (15 - (l + 1))) by (rewrite <- Z.pow_succ_r by lia; f_equal; lia).
  replace (15 - l - 1) with (15 - (l + 1)) by lia. pose proof (ksum_nonneg 15 (<[Z.to_nat s := l + 1]> lengths)) as Hn.
  rewrite sub_usize_Ok by lia. cbn [bind]. rewrite upd_Ok by done. cbn [bind].
  replace (ksum 15 lengths - 2 ^ (15 - (l + 1))) with (ksum 15 (<[Z.to_nat s := l + 1]> lengths)) by lia.
  apply IH; rewrite ?zlen_insert; try done.
  - destruct L as [L1 L2 L3]. split; [by rewrite zlen_insert|apply Forall_insert; [done|lia]|].
    intros s' Hs'. rewrite bget_upd by lia. destruct (Z.eqb_spec s s') as [<-|]; [|by apply L3]. specialize (L3 s Hs'). fold l in L3. lia.
  - apply Forall_insert; [done|lia].
  - rewrite slack_insert by done. fold l. lia.
Qed.

Lemma by_freq_elem freq order s : s ∈ by_freq freq order <-> s ∈ order.
Proof.
  unfold by_freq. rewrite list_elem_of_fmap. setoid_rewrite (merge_sort_Permutation pair_le). setoid_rewrite list_elem_of_fmap. split.
  - by intros (? & -> & y & -> & Hy).
  - intros Hs. exists (bget freq s, s). split; [done|]. by exists s.
Qed.

Lemma limit_lengths_Ok freq lengths : zlen freq <= 19683 -> lengths_for freq lengths ->
  (Forall (fun l => l <= 15) lengths -> ksum 15 lengths <= 2 ^ 15) ->
  exists lengths', limit_lengths lengths freq 15 = Ok lengths' /\ lengths_for freq lengths' /\
    Forall (fun l => 0 <= l <= 15) lengths' /\ ksum 15 lengths' <= 32768.
Proof.
  intros Ha L Hk. pose proof (lf_range _ _ L) as Hr. unfold limit_lengths.
  destruct (forallb (fun l => l <=? 15) lengths) eqn:Hall.
  - assert (H15 : Forall (fun l => l <= 15) lengths).
    { apply list.Forall_forall. intros l Hl. rewrite forallb_forall in Hall. apply list_elem_of_In, Hall in Hl. lia. }
    exists lengths. split; [done|]. split; [done|]. split; [|by apply Hk]. apply Forall_and. split; [|done].
    eapply list.Forall_impl; [exact Hr|]. simpl. lia.
  - set (clamped := (fun l => if 15 <? l then 15 else l) <$> lengths).
    assert (Hcb : forall s, bget clamped s = if 15 <? bget lengths s then 15 else bget lengths s).
    { intros s. unfold clamped, bget. rewrite list_lookup_fmap. by destruct (lengths !! Z.to_nat s). }
    assert (H15 : Forall (fun l => 0 <= l <= 15) clamped).
    { apply Forall_fmap. eapply list.Forall_impl; [exact Hr|]. unfold compose. intros l Hl. destruct (Z.ltb_spec 15 l); lia. }
    assert (L' : lengths_for freq clamped).
    { destruct L as [L1 L2 L3]. split; [unfold clamped; by rewrite zlen_fmap|eapply list.Forall_impl; [exact H15|simpl; lia]|].
      intros s Hs. rewrite Hcb. specialize (L3 s Hs). destruct (Z.ltb_spec 15 (bget lengths s)); lia. }
    assert (Hle : Forall (fun l => l <= 15) clamped) by (eapply list.Forall_impl; [exact H15|simpl; lia]).
    pose proof (lf_len _ _ L') as Hzl. cbv zeta.
    assert (Hbound : ksum 15 clamped <= 19683 * 2 ^ 15) by (apply ksum_bound; [lia|lia|eapply list.Forall_impl; [exact H15|simpl; lia]]).
    rewrite sum_u64_Ok by (by apply kraft_terms_nonneg || (rewrite kraft_terms_sum by done; unfold usize_max; lia)). cbn [bind].
    rewrite kraft_terms_sum by done. change (Z.shiftl 1 15) with 32768.
    apply lengthen_Ok; try done; [lia| |].
    + intros s. rewrite by_freq_elem, list_elem_of_filter, elem_of_seqZ. rewrite Hzl. pose proof (lf_live _ _ L' s) as Hlv.
      split; [intros [Hp Hs]; split; [lia|apply Hlv; [lia|done]]|intros [Hs Hp]; split; [by apply Hlv|lia]].
    + pose proof (slack_bounds _ H15) as Hsb. unfold zlen in Hsb, Hzl. lia.
Qed.
