(* ===== verification/JointWords.v ===== *)
(** * Joint code words and decode table

    The canonical code words partition the table indices in the order of the code, so
    [from_lengths] accepts exactly the tables under Kraft's inequality and [build] gives
    every symbol it has seen a word the table decodes. *)

From Stdlib Require Import ZArith Lia Bool Sorting.Permutation Sorted.
From stdpp Require Import base list numbers sorting.
From S2P Require Import Prelude Core FormatBase TwoBit EntropyBase HuffmanCode JointCode JointLengths.

#[local] Open Scope Z_scope.

(** * The canonical order *)

Lemma zip_bget lengths : zip lengths (seqZ 0 (zlen lengths)) = (fun s => (bget lengths s, s)) <$> seqZ 0 (zlen lengths).
Proof.
  apply list_eq. intros i. rewrite lookup_zip_with, list_lookup_fmap.
  destruct (decide (i < length lengths)%nat) as [Hi|Hi].
  - destruct (lookup_lt_is_Some_2 lengths i Hi) as [x Hx]. rewrite Hx, !lookup_seqZ_lt by (unfold zlen; lia).
    rewrite Z.add_0_l. cbn. unfold bget. by rewrite Nat2Z.id, Hx.
  - rewrite (lookup_ge_None_2 lengths) by lia. rewrite (lookup_ge_None_2 (seqZ _ _)) by (rewrite length_seqZ; unfold zlen; lia). done.
Qed.

Lemma order_elem lengths l s : (l, s) ∈ canonical_order lengths <-> 0 <= s < zlen lengths /\ l = bget lengths s /\ 0 < l.
Proof.
  unfold canonical_order. rewrite (merge_sort_Permutation pair_le), list_elem_of_filter, zip_bget, list_elem_of_fmap. cbn [fst]. split.
  - intros [Hl (s' & [= -> ->] & Hs)]. apply elem_of_seqZ in Hs. split; [lia|done].
  - intros (Hs & -> & Hl). split; [done|]. exists s. split; [done|]. apply elem_of_seqZ. lia.
Qed.

Lemma order_nodup lengths : NoDup (snd <$> canonical_order lengths).
Proof.
  unfold canonical_order. rewrite (merge_sort_Permutation pair_le), zip_bget.
  assert (E : forall l : list Z, snd <$> filter (fun e : Z * Z => 0 < fst e) ((fun s => (bget lengths s, s)) <$> l) = filter (fun s => 0 < bget lengths s) l).
  { induction l as [|x l IH]; [done|]. rewrite fmap_cons, !filter_cons. cbn [fst]. case_decide; [rewrite fmap_cons; cbn [snd]; by f_equal|done]. }
  rewrite E. apply NoDup_filter, NoDup_seqZ.
Qed.

Lemma order_sorted lengths i j e f : (i < j)%nat -> canonical_order lengths !! i = Some e -> canonical_order lengths !! j = Some f -> fst e <= fst f.
Proof.
  intros Hij He Hf. assert (H : pair_le e f) by
    (eapply (StronglySorted_lookup pair_le (canonical_order lengths)); eauto; apply (StronglySorted_merge_sort _)).
  destruct H as [|[]]; lia.
Qed.

Definition widths (T : Z) (ord : list (Z * Z)) : list Z := (fun e => 2 ^ (T - fst e)) <$> ord.
Definition start (T : Z) (ord : list (Z * Z)) (j : nat) : Z := zsum (take j (widths T ord)).

Lemma order_ksum T lengths : start T (canonical_order lengths) (length (canonical_order lengths)) = ksum T lengths.
Proof.
  unfold start. rewrite take_ge by (unfold widths; rewrite length_fmap; lia). unfold widths, canonical_order.
  rewrite (zsum_Permutation _ ((fun e => 2 ^ (T - fst e)) <$> filter (fun e => 0 < fst e) (zip lengths (seqZ 0 (zlen lengths)))))
    by (by rewrite (merge_sort_Permutation pair_le)).
  unfold ksum. rewrite (list_as_bget lengths) at 3. rewrite zip_bget. generalize (seqZ 0 (zlen lengths)) as l.
  induction l as [|s l IH]; [done|]. rewrite !fmap_cons, filter_cons. cbn [fst]. simpl zsum. unfold kterm at 1.
  case_decide as Hp.
  - rewrite fmap_cons. simpl zsum. replace (0 <? bget lengths s) with true by lia. lia.
  - replace (0 <? bget lengths s) with false by lia. lia.
Qed.

Section Order.
  Context (T : Z) (ord : list (Z * Z)).
  Context (Hlen : forall e, e ∈ ord -> 0 < fst e <= T).
  Context (Hkraft : start T ord (length ord) <= 2 ^ T).

Lemma start_S j e : ord !! j = Some e -> start T ord (S j) = start T ord j + 2 ^ (T - fst e).
Proof.
  intros He. unfold start. rewrite (take_S_r _ _ (2 ^ (T - fst e))) by (unfold widths; by rewrite list_lookup_fmap, He).
  rewrite zsum_app. simpl. lia.
Qed.

Lemma widths_nonneg : Forall (fun x => 0 <= x) (widths T ord).
Proof. apply Forall_fmap, list.Forall_forall. intros e He. apply Hlen in He. unfold compose. lia. Qed.

Lemma start_mono i j : (i <= j)%nat -> 0 <= start T ord i <= start T ord j.
Proof.
  intros Hij. split.
  - apply zsum_nonneg, Forall_take, widths_nonneg.
  - apply zsum_take_le; [apply widths_nonneg|done].
Qed.

Lemma start_bound j e : ord !! j = Some e -> start T ord j + 2 ^ (T - fst e) <= 2 ^ T.
Proof.
  intros He. rewrite <- (start_S j e He). apply lookup_lt_Some in He. pose proof (start_mono (S j) (length ord) ltac:(lia)). lia.
Qed.

(** A code word whose interval starts at [start j]. *)
Lemma word_bound j e c : ord !! j = Some e -> c * 2 ^ (T - fst e) = start T ord j -> 0 <= c < 2 ^ fst e.
Proof.
  intros He Hc. pose proof (start_bound j e He) as Hb. pose proof (start_mono j j ltac:(lia)) as [H0 _].
  apply list_elem_of_lookup_2, Hlen in He as Hl.
  assert (E : 2 ^ T = 2 ^ fst e * 2 ^ (T - fst e)) by (rewrite <- Z.pow_add_r by lia; f_equal; lia).
  assert (Hp : 0 < 2 ^ (T - fst e)) by lia. rewrite E in Hb. nia.
Qed.
End Order.

(** * Assigning the code words *)

Section Words.
  Context (T a : Z) (ord : list (Z * Z)) (HT : 0 <= T <= 15).
  Context (Hlen : forall e, e ∈ ord -> 0 < fst e <= T) (Hsym : forall e, e ∈ ord -> 0 <= snd e < a) (Ha : 0 <= a <= 19683).
  Context (Hsort : forall i j e f, (i < j)%nat -> ord !! i = Some e -> ord !! j = Some f -> fst e <= fst f).
  Context (Hnd : NoDup (snd <$> ord)) (Hkraft : start T ord (length ord) <= 2 ^ T).

(** The code words of the first [n] entries. *)
Definition worded (n : nat) (codes : list Z) : Prop :=
  zlen codes = a /\ forall i e, (i < n)%nat -> ord !! i = Some e -> bget codes (snd e) * 2 ^ (T - fst e) = start T ord i.

Definition words_state (n : nat) (st : list Z * Z * Z) : Prop :=
  let '(codes, code, prev) := st in
  worded n codes /\
  match n with
  | O => code = 0 /\ prev = 0
  | S m => exists e, ord !! m = Some e /\ code = bget codes (snd e) /\ prev = fst e
  end.

(** The next code word: one more, shifted to its length. *)
Lemma next_word n e code prev : ord !! n = Some e ->
  match n with
  | O => code = 0 /\ prev = 0
  | S m => exists f, ord !! m = Some f /\ code * 2 ^ (T - fst f) = start T ord m /\ prev = fst f
  end ->
  exists c, (if negb (prev =? 0) then let* c := add_u32 code 1 in let* d := sub_usize (fst e) prev in Ok (shl32 c d) else Ok code)
    = Ok (E := JointCodeError) c /\ c * 2 ^ (T - fst e) = start T ord n.
Proof.
  intros He Hst. destruct n as [|m].
  - destruct Hst as [-> ->]. exists 0. split; [done|]. unfold start. simpl. lia.
  - destruct Hst as (f & Hf & Hc & ->). pose proof (Hlen f (list_elem_of_lookup_2 _ _ _ Hf)) as Hlf.
    pose proof (Hlen e (list_elem_of_lookup_2 _ _ _ He)) as Hle. pose proof (Hsort m (S m) f e ltac:(lia) Hf He) as Hfe.
    destruct (word_bound T ord Hlen Hkraft m f code Hf Hc) as [Hc0 Hc1].
    assert (H15 : 2 ^ fst f <= 2 ^ 15) by (apply Z.pow_le_mono_r; lia). change (2 ^ 15) with 32768 in H15.
    replace (fst f =? 0) with false by lia. cbn [negb]. unfold add_u32, checked_add32. replace (_ <=? u32_max) with true by (unfold u32_max; lia).
    cbn [unwrap bind]. rewrite sub_usize_Ok by lia. cbn [bind]. eexists. split; [done|].
    assert (Heq : (code + 1) * 2 ^ (fst e - fst f) * 2 ^ (T - fst e) = start T ord (S m)).
    { rewrite (start_S T ord m f Hf), <- Hc, <- Z.mul_assoc, <- Z.pow_add_r by lia. replace (fst e - fst f + (T - fst e)) with (T - fst f) by lia. lia. }
    destruct (word_bound T ord Hlen Hkraft (S m) e _ He Heq) as [Hw0 Hw1].
    assert (H15e : 2 ^ fst e <= 2 ^ 15) by (apply Z.pow_le_mono_r; lia). change (2 ^ 15) with 32768 in H15e.
    unfold shl32. rewrite Z.shiftl_mul_pow2, Z.mod_small by lia. done.
Qed.

Lemma assign_code_Ok pre e post st : ord = pre ++ e :: post -> words_state (length pre) st ->
  exists st', assign_code e st = Ok st' /\ words_state (length (pre ++ [e])) st'.
Proof.
  intros Hord. destruct st as [[codes code] prev]. destruct e as [l s]. intros [[Hz Hw] Hst].
  assert (He : ord !! length pre = Some (l, s)) by (rewrite Hord; by apply list_lookup_middle).
  assert (Hs : 0 <= s < a) by apply (Hsym (l, s) (list_elem_of_lookup_2 _ _ _ He)).
  destruct (next_word (length pre) (l, s) code prev He) as (c & Hc & Hcs).
  { destruct (length pre) as [|m] eqn:En; [done|]. destruct Hst as (f & Hf & -> & ->). exists f. split; [done|]. split; [|done].
    apply Hw; [lia|done]. }
  unfold assign_code. cbn [fst] in Hc. rewrite Hc. cbn [bind]. rewrite upd_Ok by lia. cbn [bind]. eexists. split; [done|].
  rewrite length_app, Nat.add_1_r. split; [split; [by rewrite zlen_insert|]|].
  - intros i [l' s'] Hi Hl. cbn [fst snd]. assert (Hs' : 0 <= s' < a) by apply (Hsym (l', s') (list_elem_of_lookup_2 _ _ _ Hl)).
    rewrite bget_upd by lia. destruct (Z.eqb_spec s s') as [<-|Hne].
    + assert (i = length pre).
      { eapply (NoDup_lookup (snd <$> ord)); [done|by rewrite list_lookup_fmap, Hl|by rewrite list_lookup_fmap, He]. }
      subst i. rewrite He in Hl. by injection Hl as <-.
    + apply (Hw i (l', s')); [|done]. assert (i <> length pre); [|lia]. intros ->. congruence.
  - exists (l, s). split; [done|]. cbn [fst snd]. rewrite bget_upd, Z.eqb_refl by lia. done.
Qed.

Lemma assign_codes_Ok : exists codes code prev, for_each ord assign_code (vec 0 a, 0, 0) = Ok (codes, code, prev) /\ worded (length ord) codes.
Proof.
  destruct (for_each_inv (fun pre st => words_state (length pre) st) assign_code ord (vec 0 a, 0, 0)) as ([[codes code] prev] & Hf & Hw).
  - split; [|done]. split; [rewrite zlen_vec; lia|]. intros i e Hi. simpl in Hi. lia.
  - intros pre e post st Hord Hst. by eapply assign_code_Ok.
  - exists codes, code, prev. split; [done|]. apply Hw.
Qed.

(** * Filling the table *)

Definition filled (n : nat) (table : list (Z * Z)) : Prop :=
  zlen table = 2 ^ T /\ forall i e v, (i < n)%nat -> ord !! i = Some e -> start T ord i <= v < start T ord (S i) ->
    table !! Z.to_nat v = Some (snd e, fst e).

Lemma fill_run (e : Z * Z) (lo hi : Z) (table : list (Z * Z)) : 0 <= lo -> lo <= hi -> hi <= zlen table ->
  exists table', for_range lo hi (fun i table => upd (E := JointCodeError) table i e) table = Ok table' /\ zlen table' = zlen table /\
    forall v, 0 <= v -> table' !! Z.to_nat v = if (lo <=? v) && (v <? hi) then Some e else table !! Z.to_nat v.
Proof.
  intros Hlo Hle Hhi. destruct (for_range_inv (fun i t => zlen t = zlen table /\
      forall v, 0 <= v -> t !! Z.to_nat v = if (lo <=? v) && (v <? i) then Some e else table !! Z.to_nat v)
    (fun i table => upd (E := JointCodeError) table i e) lo hi table) as (t & Ht & Hz & Hv); [done| | |by exists t].
  - split; [done|]. intros v Hv. by replace (_ && _) with false by lia.
  - intros i t Hi [Hz Hv]. rewrite upd_Ok by lia. eexists. split; [done|]. split; [by rewrite zlen_insert|]. intros v Hv0.
    rewrite lookup_upd by lia. destruct (Z.eqb_spec i v) as [<-|]; [by replace (_ && _) with true by lia|]. rewrite Hv by done.
    destruct (Z.leb_spec lo v), (Z.ltb_spec v i), (Z.ltb_spec v (i + 1)); simpl; try done; lia.
Qed.

Lemma fill_entry_Ok codes pre e post table : worded (length ord) codes -> ord = pre ++ e :: post -> filled (length pre) table ->
  exists table', fill_entry T codes e table = Ok table' /\ filled (length (pre ++ [e])) table'.
Proof.
  intros [Hz Hw] Hord [Hzt Hf]. assert (He : ord !! length pre = Some e) by (rewrite Hord; by apply list_lookup_middle).
  pose proof (Hlen e (list_elem_of_lookup_2 _ _ _ He)) as Hl. pose proof (Hsym e (list_elem_of_lookup_2 _ _ _ He)) as Hs.
  pose proof (lookup_lt_Some _ _ _ He) as Hlt. pose proof (Hw _ e Hlt He) as Hword. pose proof (start_bound T ord Hlen Hkraft _ e He) as Hsb.
  pose proof (start_mono T ord Hlen (length pre) (length pre) ltac:(lia)) as [Hs0 _].
  destruct e as [l s]. cbn [fst snd] in *. unfold fill_entry. rewrite sub_usize_Ok by lia. cbn [bind].
  rewrite idx_bget by lia. cbn [bind]. rewrite Z.shiftl_mul_pow2, Hword, Z.shiftl_1_l by lia. rewrite Z.min_l by lia.
  rewrite Z.mod_small by lia.
  destruct (fill_run (s, l) (start T ord (length pre)) (start T ord (length pre) + 2 ^ (T - l)) table) as (t & Ht & Hz' & Hv); [lia..|].
  exists t. split; [done|]. rewrite length_app, Nat.add_1_r. split; [lia|]. intros i e v Hi Hie Hr.
  pose proof (start_mono T ord Hlen i i ltac:(lia)) as [Hi0 _]. rewrite Hv by lia.
  destruct (Nat.eq_dec i (length pre)) as [->|Hne].
  - rewrite He in Hie. injection Hie as <-. rewrite (start_S T ord _ (l, s) He) in Hr. cbn [fst snd] in *. by replace (_ && _) with true by lia.
  - pose proof (start_mono T ord Hlen (S i) (length pre) ltac:(lia)). replace (_ && _) with false by lia. apply (Hf i e v); [lia|done|done].
Qed.

Lemma fill_table_Ok codes : worded (length ord) codes ->
  exists table, for_each ord (fill_entry T codes) (vec (0, 0) (2 ^ T)) = Ok table /\ filled (length ord) table.
Proof.
  intros Hw. apply (for_each_inv (fun pre t => filled (length pre) t)).
  - split; [rewrite zlen_vec; lia|]. intros i e v Hi. simpl in Hi. lia.
  - intros pre e post t Hord Ht. by eapply fill_entry_Ok.
Qed.
End Words.

(** * Codes *)

(** What [from_lengths] establishes: every coded symbol has a word of its length, and
    the table decodes every index that starts with the word. *)
Record code_ok (code : JointCode) : Prop := {
  co_bits : 0 <= jc_table_bits code <= 15;
  co_alphabet : zlen (jc_lengths code) <= 19683;
  co_lengths : Forall (fun l => 0 <= l <= jc_table_bits code) (jc_lengths code);
  co_codes : zlen (jc_codes code) = zlen (jc_lengths code);
  co_table : zlen (jc_table code) = 2 ^ jc_table_bits code;
  co_word : forall s, 0 <= s < zlen (jc_lengths code) -> 0 < bget (jc_lengths code) s ->
    0 <= bget (jc_codes code) s < 2 ^ bget (jc_lengths code) s /\
    forall v, Z.shiftr v (jc_table_bits code - bget (jc_lengths code) s) = bget (jc_codes code) s ->
      jc_table code !! Z.to_nat v = Some (s, bget (jc_lengths code) s) }.

Lemma fold_max l : Forall (fun x => x <= foldr Z.max 0 l) l /\ 0 <= foldr Z.max 0 l /\ (foldr Z.max 0 l = 0 \/ foldr Z.max 0 l ∈ l).
Proof.
  induction l as [|x l (IH1 & IH2 & IH3)]; [split; [constructor|]; split; [done|by left]|]. simpl. split; [|split; [lia|]].
  - constructor; [lia|]. eapply list.Forall_impl; [exact IH1|]. simpl. lia.
  - destruct (Z.max_spec x (foldr Z.max 0 l)) as [[_ ->]|[_ ->]]; [|by right; left].
    destruct IH3 as [|Hin]; [by left|right; by right].
Qed.

Lemma alphabet_Ok t : 1 <= t <= 9 -> alphabet t = Ok (3 ^ t) /\ 3 <= 3 ^ t <= 19683.
Proof.
  intros Ht. unfold alphabet, MAX_JOINT_PLANES. replace (t =? 0) with false by lia. replace (9 <? t) with false by lia. split; [done|].
  split; [change 3 with (3 ^ 1) at 1|change 19683 with (3 ^ 9)]; apply Z.pow_le_mono_r; lia.
Qed.

(** A table of lengths is accepted exactly under Kraft's inequality. *)
Lemma from_lengths_spec lengths t : 1 <= t <= 9 -> zlen lengths = 3 ^ t -> Forall (fun l => 0 <= l) lengths ->
  if decide (Forall (fun l => l <= 15) lengths /\ ksum 15 lengths <= 2 ^ 15) then
    exists code, from_lengths lengths t = Ok code /\ jc_t code = t /\ jc_lengths code = lengths /\ code_ok code
  else from_lengths lengths t = Err CorruptStream.
Proof.
  intros Ht Hz Hpos. destruct (alphabet_Ok t Ht) as [Ha Hb]. unfold from_lengths. rewrite Ha. cbn [bind]. rewrite Hz, Z.eqb_refl. cbn [negb].
  destruct (fold_max lengths) as (Hmax & Hmax0 & Hmax1). set (T := foldr Z.max 0 lengths) in *. unfold MAX_CODE_LEN.
  destruct (Z.ltb_spec 15 T) as [Hgt|H15].
  { rewrite decide_False; [done|]. intros [H15 _]. destruct Hmax1 as [|Hin]; [lia|]. rewrite list.Forall_forall in H15. specialize (H15 _ Hin). simpl in H15. lia. }
  assert (Hall : Forall (fun l => l <= 15) lengths) by (eapply list.Forall_impl; [exact Hmax|simpl; lia]).
  assert (Hk15 : ksum 15 lengths = 2 ^ (15 - T) * ksum T lengths)
    by (rewrite <- (ksum_shift T (15 - T)) by (done || lia); f_equal; lia).
  assert (E15 : 2 ^ 15 = 2 ^ (15 - T) * 2 ^ T) by (rewrite <- Z.pow_add_r by lia; f_equal; lia).
  assert (Hp : 0 < 2 ^ (15 - T)) by lia.
  pose proof (ksum_bound T 19683 lengths Hmax0 ltac:(lia) Hpos) as Hkb. assert (HT2 : 2 ^ T <= 2 ^ 15) by (apply Z.pow_le_mono_r; lia).
  assert (Hover : (if 0 <? T then let* kraft := sum_u64 (kraft_terms T lengths) in Ok (Z.shiftl 1 T <? kraft) else Ok false)
    = Ok (E := JointCodeError) (2 ^ T <? ksum T lengths)).
  { destruct (Z.ltb_spec 0 T) as [HT0|HT0].
    - rewrite sum_u64_Ok by (by apply kraft_terms_nonneg || (rewrite kraft_terms_sum by done; change (2 ^ 15) with 32768 in HT2; unfold usize_max; lia)).
      cbn [bind]. by rewrite kraft_terms_sum, Z.shiftl_1_l.
    - assert (ET : T = 0) by lia. assert (Hk0 : ksum T lengths = 0).
      { rewrite ET in Hmax |- *. clear -Hmax Hpos. unfold ksum. induction lengths as [|l ls IH]; [done|]. rewrite fmap_cons. simpl zsum.
        apply list.Forall_cons in Hmax as [H1 H2], Hpos as [H3 H4]. rewrite (IH H4 H2). unfold kterm. by replace (0 <? l) with false by lia. }
      rewrite Hk0, ET. done. }
  rewrite Hover. cbn [bind]. destruct (Z.ltb_spec (2 ^ T) (ksum T lengths)) as [Hko|Hkraft].
  { rewrite decide_False; [done|]. intros [_ Hk]. nia. }
  rewrite decide_True by (split; [done|nia]). set (ord := canonical_order lengths).
  assert (Hle : forall e, e ∈ ord -> 0 < fst e <= T).
  { intros [l s] He. apply order_elem in He as (Hs & -> & Hl). cbn. split; [done|]. destruct (lookup_Z lengths s Hs) as [x Hx].
    unfold bget. rewrite Hx. apply (Forall_lookup_1 _ _ _ _ Hmax Hx). }
  assert (Hsym : forall e, e ∈ ord -> 0 <= snd e < 3 ^ t) by (intros [l s] He; apply order_elem in He as (Hs & _); cbn; lia).
  assert (Hst : start T ord (length ord) <= 2 ^ T) by (unfold ord; by rewrite order_ksum).
  destruct (assign_codes_Ok T (3 ^ t) ord ltac:(lia) Hle Hsym ltac:(lia) (order_sorted lengths) (order_nodup lengths) Hst)
    as (codes & code & prev & Hc & Hw). rewrite Hc. cbn [bind fst].
  destruct (fill_table_Ok T (3 ^ t) ord ltac:(lia) Hle Hsym ltac:(lia) Hst codes Hw) as (table & Htb & Hf).
  rewrite Z.shiftl_1_l, Htb. cbn [bind]. eexists. split; [done|]. split; [done|]. split; [done|].
  destruct Hw as [Hwz Hww]. destruct Hf as [Hfz Hff]. split; cbn [jc_lengths jc_codes jc_table jc_table_bits]; try lia; try done.
  - apply Forall_and. split; done.
  - intros s Hs Hl. set (l := bget lengths s) in *.
    assert (Hin : (l, s) ∈ ord) by (apply order_elem; by split; [lia|]). apply list_elem_of_lookup_1 in Hin as Hi. destruct Hi as [i Hi].
    pose proof (lookup_lt_Some _ _ _ Hi) as Hilt. pose proof (Hww i (l, s) Hilt Hi) as Hword. cbn [fst snd] in Hword.
    pose proof (word_bound T ord Hle Hst i (l, s) _ Hi Hword) as Hcb. cbn [fst] in Hcb. split; [done|].
    intros v Hv. apply (Hff i (l, s)); [done|done|]. rewrite (start_S T ord i (l, s) Hi). cbn [fst]. rewrite <- Hword, <- Hv.
    specialize (Hle _ Hin). cbn [fst] in Hle. rewrite Z.shiftr_div_pow2 by lia.
    pose proof (Z.div_mod v (2 ^ (T - l)) ltac:(lia)). pose proof (Z.mod_pos_bound v (2 ^ (T - l)) ltac:(lia)). lia.
Qed.

Lemma build_Ok freq t : 1 <= t <= 9 -> zlen freq = 3 ^ t -> Forall (fun f => 0 <= f) freq -> zsum freq <= usize_max ->
  exists code, build freq t = Ok code /\ from_lengths (jc_lengths code) t = Ok code /\ code_ok code /\ lengths_for freq (jc_lengths code).
Proof.
  intros Ht Hz Hf Hs. destruct (alphabet_Ok t Ht) as [Ha Hb]. unfold build. rewrite Ha. cbn [bind]. rewrite Hz, Z.eqb_refl. cbn [negb].
  assert (Hlive : zlen (live_symbols freq) <= zlen freq).
  { unfold live_symbols, zlen. pose proof (length_filter (fun s => 0 < bget freq s) (seqZ 0 (Z.of_nat (length freq)))) as H. rewrite length_seqZ in H. lia. }
  change (Z.shiftl 1 MAX_CODE_LEN) with 32768. replace (32768 <? _) with false by lia.
  destruct (huffman_lengths_Ok freq Hf Hs ltac:(lia)) as (lengths & -> & L & Hk). cbn [bind].
  destruct (limit_lengths_Ok freq lengths ltac:(lia) L Hk) as (lengths' & Hl & L' & H15 & Hk'). unfold MAX_CODE_LEN. rewrite Hl. cbn [bind].
  pose proof (from_lengths_spec lengths' t Ht ltac:(rewrite (lf_len _ _ L'); done)) as Hfl.
  rewrite decide_True in Hfl.
  - destruct Hfl as (code & Hc & _ & El & Hok); [eapply list.Forall_impl; [exact H15|simpl; lia]|]. exists code. by rewrite El, Hc.
  - split; [eapply list.Forall_impl; [exact H15|simpl; lia]|done].
Qed.
