(* ===== verification/JointStream.v ===== *)
(** * Joint bit streams

    The encoder lays the code words out most significant bit first, the recorded offsets
    are where the blocks start, and both decoders read the words back. The joint symbols
    of a set of planes and the planes of a list of joint symbols are inverse. *)

From Stdlib Require Import ZArith Lia Bool.
From stdpp Require Import base list numbers.
From S2P Require Import Prelude Core FormatBase TwoBit EntropyBase HuffmanCode JointCode JointLengths JointWords.

#[local] Open Scope Z_scope.

(** * Bits, most significant first *)

Fixpoint msb (w : Z) (n : nat) : list bool :=
  match n with O => [] | S n => Z.testbit w (Z.of_nat n) :: msb w n end.

Definition stream_bits (bytes : list Z) : list bool := concat ((fun b => msb b 8) <$> bytes).

Lemma length_msb w n : length (msb w n) = n.
Proof. induction n as [|n IH]; simpl; congruence. Qed.

Lemma msb_lookup w n k : (k < n)%nat -> msb w n !! k = Some (Z.testbit w (Z.of_nat (n - 1 - k))).
Proof.
  revert k. induction n as [|n IH]; intros k Hk; [lia|]. destruct k as [|k]; simpl.
  - by rewrite Nat.sub_0_r, Nat.sub_0_r.
  - rewrite IH by lia. do 3 f_equal. lia.
Qed.

Lemma msb_ext v w n : (forall j, 0 <= j < Z.of_nat n -> Z.testbit v j = Z.testbit w j) -> msb v n = msb w n.
Proof. induction n as [|n IH]; intros H; [done|]. simpl. rewrite H by lia. f_equal. apply IH. intros. apply H. lia. Qed.

Lemma msb_app w a b : msb w (a + b) = msb (Z.shiftr w (Z.of_nat b)) a ++ msb w b.
Proof.
  induction a as [|a IH]; [done|]. simpl. rewrite IH, Z.shiftr_spec by lia. by rewrite Nat2Z.inj_add.
Qed.

Lemma msb_byte w : msb (w mod 256) 8 = msb w 8.
Proof. apply msb_ext. intros j Hj. change 256 with (2 ^ 8). by rewrite Z.mod_pow2_bits_low by lia. Qed.

Lemma high_bit c n j : 0 <= c < 2 ^ n -> n <= j -> Z.testbit c j = false.
Proof.
  intros Hc Hj. destruct (Z.le_gt_cases 0 n) as [Hn|Hn]; [|rewrite Z.pow_neg_r in Hc; lia].
  rewrite <- (Z.mod_small c (2 ^ n)) by done. by apply Z.mod_pow2_bits_high.
Qed.

(** A word pushed below the pending bits. *)
Lemma msb_push acc c n l : (n + l <= 64)%nat -> 0 <= c < 2 ^ Z.of_nat l ->
  msb (Z.lor (Z.shiftl acc (Z.of_nat l) mod 18446744073709551616) c) (n + l) = msb acc n ++ msb c l.
Proof.
  intros Hn Hc. rewrite msb_app. change 18446744073709551616 with (2 ^ 64). f_equal; apply msb_ext; intros j Hj.
  - rewrite Z.shiftr_spec, Z.lor_spec, Z.mod_pow2_bits_low, Z.shiftl_spec by lia. replace (j + Z.of_nat l - Z.of_nat l) with j by lia.
    rewrite (high_bit c (Z.of_nat l)), orb_false_r by lia. done.
  - rewrite Z.lor_spec, Z.mod_pow2_bits_low, Z.shiftl_spec_low by lia. done.
Qed.

Lemma msb_pad acc n : (n <= 8)%nat -> msb (Z.shiftl acc (8 - Z.of_nat n) mod 18446744073709551616 mod 256) 8 = msb acc n ++ replicate (8 - n) false.
Proof.
  intros Hn. rewrite msb_byte. replace 8%nat with (n + (8 - n))%nat at 1 by lia. rewrite msb_app. change 18446744073709551616 with (2 ^ 64). f_equal.
  - apply msb_ext. intros j Hj. rewrite Z.shiftr_spec, Z.mod_pow2_bits_low, Z.shiftl_spec by lia. f_equal. lia.
  - replace (replicate (8 - n) false) with (msb 0 (8 - n)).
    + apply msb_ext. intros j Hj. rewrite Z.mod_pow2_bits_low, Z.shiftl_spec_low, Z.bits_0 by lia. done.
    + generalize (8 - n)%nat as m. induction m as [|m IH]; [done|]. simpl. by rewrite IH, Z.bits_0.
Qed.

Lemma stream_app x y : stream_bits (x ++ y) = stream_bits x ++ stream_bits y.
Proof. unfold stream_bits. by rewrite fmap_app, concat_app. Qed.

Lemma stream_byte b : stream_bits [b] = msb b 8.
Proof. apply app_nil_r. Qed.

Lemma length_stream x : Z.of_nat (length (stream_bits x)) = 8 * zlen x.
Proof.
  induction x as [|b x IH]; [done|]. rewrite zlen_cons. change (b :: x) with ([b] ++ x).
  rewrite stream_app, stream_byte, length_app, length_msb. lia.
Qed.

Lemma stream_lookup x q r b : x !! q = Some b -> (r < 8)%nat -> stream_bits x !! (8 * q + r)%nat = Some (Z.testbit b (7 - Z.of_nat r)).
Proof.
  revert q. induction x as [|y x IH]; intros q Hq Hr; [done|]. change (y :: x) with ([y] ++ x). rewrite stream_app, stream_byte.
  destruct q as [|q].
  - injection Hq as ->. rewrite lookup_app_l by (rewrite length_msb; lia). rewrite msb_lookup by lia. do 2 f_equal. lia.
  - rewrite lookup_app_r, length_msb by (rewrite length_msb; lia). replace (8 * S q + r - 8)%nat with (8 * q + r)%nat by lia. by apply IH.
Qed.

(** * The encoder *)

Section Stream.
  Context (code : JointCode) (Hcode : code_ok code).

Definition coded (s : Z) : Prop := 0 <= s < zlen (jc_lengths code) /\ 0 < bget (jc_lengths code) s.
Definition word (s : Z) : list bool := msb (bget (jc_codes code) s) (Z.to_nat (bget (jc_lengths code) s)).
Definition words (symbols : list Z) : list bool := concat (word <$> symbols).

Lemma coded_length s : coded s -> 0 < bget (jc_lengths code) s <= 15 /\ bget (jc_lengths code) s <= jc_table_bits code.
Proof.
  intros [Hs Hl]. destruct (lookup_Z _ s Hs) as [x Hx]. pose proof (Forall_lookup_1 _ _ _ _ (co_lengths code Hcode) Hx) as Hb.
  unfold bget in *. rewrite Hx in *. simpl in *. pose proof (co_bits code Hcode). lia.
Qed.

Lemma length_word s : coded s -> Z.of_nat (length (word s)) = bget (jc_lengths code) s.
Proof. intros [_ Hl]. unfold word. rewrite length_msb. lia. Qed.

Lemma words_app x y : words (x ++ y) = words x ++ words y.
Proof. unfold words. by rewrite fmap_app, concat_app. Qed.

Lemma words_single s : words [s] = word s.
Proof. apply app_nil_r. Qed.

Lemma words_bound symbols : Forall coded symbols -> Z.of_nat (length (words symbols)) <= 15 * zlen symbols.
Proof.
  induction 1 as [|s symbols Hs _ IH]; [done|]. rewrite zlen_cons. change (s :: symbols) with ([s] ++ symbols).
  rewrite words_app, words_single, length_app. pose proof (length_word s Hs). pose proof (coded_length s Hs). lia.
Qed.

Lemma flush_Ok fuel : forall acc n bits, 0 <= n -> n < 8 * (Z.of_nat fuel + 1) -> n <= u32_max ->
  exists n' bits', flush fuel acc n bits = Ok (n', bits') /\ 0 <= n' < 8 /\
    stream_bits bits' ++ msb acc (Z.to_nat n') = stream_bits bits ++ msb acc (Z.to_nat n).
Proof.
  induction fuel as [|fuel IH]; intros acc n bits Hn Hf Hu; cbn [flush]; destruct (Z.ltb_spec n 8) as [Hlt|Hge]; try lia;
    try (by exists n, bits).
  unfold sub_u32, checked_sub. replace (8 <=? n) with true by lia. cbn [unwrap bind].
  destruct (IH acc (n - 8) (bits ++ [Z.shiftr acc (n - 8) mod 256]) ltac:(lia) ltac:(lia) ltac:(lia)) as (n' & bits' & -> & Hn' & E).
  exists n', bits'. split; [done|]. split; [done|]. rewrite E, stream_app, stream_byte, msb_byte, <- app_assoc. f_equal.
  replace (Z.to_nat n) with (8 + Z.to_nat (n - 8))%nat by lia. by rewrite msb_app, Z2Nat.id by lia.
Qed.

Definition offset (symbols : list Z) (i : Z) : Z := Z.of_nat (length (words (take (Z.to_nat i) symbols))).
Definition offsets (symbols : list Z) (block n : Z) : list Z := (fun b => offset symbols (b * block)) <$> seqZ 0 ((n + block - 1) / block).

Record encoded (symbols : list Z) (block i : Z) (st : Encoder) : Prop := {
  ec_n : 0 <= en_n st < 8;
  ec_bits : stream_bits (en_bits st) ++ msb (en_acc st) (Z.to_nat (en_n st)) = words (take (Z.to_nat i) symbols);
  ec_total : en_total st = offset symbols i;
  ec_offsets : en_offsets st = offsets symbols block i }.

Lemma offset_bound symbols i : Forall coded symbols -> 0 <= i <= zlen symbols -> 0 <= offset symbols i <= 15 * i.
Proof.
  intros Hs Hi. unfold offset. pose proof (words_bound (take (Z.to_nat i) symbols) ltac:(by apply Forall_take)) as H. unfold zlen in *.
  rewrite length_take in H. lia.
Qed.

Lemma take_next (symbols : list Z) i s : 0 <= i -> symbols !! Z.to_nat i = Some s ->
  take (Z.to_nat (i + 1)) symbols = take (Z.to_nat i) symbols ++ [s].
Proof. intros Hi Hs. rewrite Z2Nat.inj_add, Nat.add_1_r by lia. by apply take_S_r. Qed.

Lemma offset_next symbols i s : 0 <= i -> symbols !! Z.to_nat i = Some s -> coded s -> offset symbols (i + 1) = offset symbols i + bget (jc_lengths code) s.
Proof.
  intros Hi Hs Hc. unfold offset. rewrite (take_next _ _ s), words_app, words_single, length_app by done.
  pose proof (length_word s Hc). lia.
Qed.

Lemma offsets_next symbols block i : 0 < block -> 0 <= i -> offsets symbols block (i + 1) =
  if i mod block =? 0 then offsets symbols block i ++ [offset symbols i] else offsets symbols block i.
Proof.
  intros Hb Hi. unfold offsets. pose proof (Z.div_mod i block ltac:(lia)) as E. pose proof (Z.mod_pos_bound i block Hb) as Hr.
  pose proof (Z.div_pos i block Hi Hb) as Hq. set (q := i / block) in *.
  replace ((i + 1 + block - 1) / block) with (q + 1) by (apply (Z.div_unique_pos _ _ _ (i mod block)); lia).
  destruct (Z.eqb_spec (i mod block) 0) as [H0|H0].
  - replace ((i + block - 1) / block) with q by (apply (Z.div_unique_pos _ _ _ (block - 1)); lia).
    rewrite seqZ_app, fmap_app by lia. f_equal. simpl. do 2 f_equal. lia.
  - by replace ((i + block - 1) / block) with (q + 1) by (apply (Z.div_unique_pos _ _ _ (i mod block - 1)); lia).
Qed.

Lemma encode_symbol_Ok symbols block i s st : Forall coded symbols -> 15 * zlen symbols <= usize_max -> 0 < block -> 0 <= i ->
  symbols !! Z.to_nat i = Some s -> encoded symbols block i st ->
  exists st', encode_symbol code block i s st = Ok st' /\ encoded symbols block (i + 1) st'.
Proof.
  intros Hall Hmax Hb Hi Hs [Hn Hbits Htot Hoff]. pose proof (Forall_lookup_1 _ _ _ _ Hall Hs) as Hc.
  destruct (coded_length s Hc) as [Hl _]. pose proof Hc as [Hs0 _]. pose proof (proj1 (co_word code Hcode s Hs0 ltac:(lia))) as Hw.
  pose proof (lookup_lt_Some _ _ _ Hs) as Hlt. pose proof (offset_bound symbols i Hall ltac:(unfold zlen; lia)) as Hob.
  pose proof (offset_next symbols i s Hi Hs Hc) as Hon. pose proof (offsets_next symbols block i Hb Hi) as Hofn.
  unfold encode_symbol. replace (_ <=? s) with false by lia. rewrite idx_bget by lia. cbn [bind]. set (l := bget (jc_lengths code) s) in *.
  replace (l =? 0) with false by lia. rewrite idx_bget by (rewrite (co_codes code Hcode); lia). cbn [bind].
  unfold add_u32, checked_add32. replace (_ <=? u32_max) with true by (unfold u32_max; lia). cbn [unwrap bind].
  rewrite add_usize_Ok by (unfold zlen in *; lia). cbn [bind].
  set (acc := Z.lor _ _). destruct (flush_Ok 3 acc (en_n st + l) (en_bits st)) as (n' & bits' & -> & Hn' & E); [lia..|unfold u32_max; lia|].
  cbn [bind]. eexists. split; [done|]. split; cbn [en_n en_bits en_acc en_total en_offsets]; [done| |lia|].
  - rewrite E, (take_next _ _ s), words_app, words_single by done. rewrite <- Hbits, <- app_assoc. f_equal. unfold acc, word. fold l.
    rewrite Z2Nat.inj_add by lia. rewrite <- (Z2Nat.id l) at 1 by lia. apply msb_push; [lia|]. rewrite Z2Nat.id by lia. done.
  - rewrite Hofn, Hoff, Htot. done.
Qed.

Lemma encode_Ok symbols block : Forall coded symbols -> 15 * zlen symbols <= usize_max -> 0 < block ->
  exists bits pad, encode code symbols block = Ok (MkJointStream bits (offsets symbols block (zlen symbols)) block (zlen symbols)) /\
    stream_bits bits = words symbols ++ pad /\ (length pad < 8)%nat.
Proof.
  intros Hall Hmax Hb. unfold encode. replace (block =? 0) with false by lia.
  destruct (for_enum_inv (encoded symbols block) (encode_symbol code block) symbols 0 (MkEncoder [] 0 0 0 [])) as (st & -> & Hst).
  - split; cbn; [lia|done|done|]. unfold offsets. rewrite Z.div_small by lia. done.
  - intros i s st Hi Hs Hst. rewrite Z.sub_0_r in Hs. by apply (encode_symbol_Ok symbols block i s st).
  - destruct Hst as [Hn Hbits Htot Hoff]. rewrite Z.add_0_l in *. cbn [bind]. rewrite Hoff. unfold zlen at 1 in Hbits. rewrite Nat2Z.id, take_ge in Hbits by lia.
    destruct (Z.ltb_spec 0 (en_n st)) as [Hp|Hp].
    + eexists _, _. split; [done|]. rewrite stream_app, stream_byte. rewrite <- (Z2Nat.id (en_n st)) at 1 by lia.
      rewrite msb_pad by lia. rewrite app_assoc, Hbits. split; [done|]. rewrite length_replicate. lia.
    + exists (en_bits st), []. split; [done|]. split; [|simpl; lia]. rewrite app_nil_r, <- Hbits.
      replace (en_n st) with 0 by lia. by rewrite app_nil_r.
Qed.

(** * The decoders *)

Definition bit_at (bits : list Z) (pos : Z) : bool := default false (stream_bits bits !! Z.to_nat pos).

Lemma peek_bit bits pos : 0 <= pos ->
  (if pos / 8 <? zlen bits then let* x := idx bits (pos / 8) in Ok (Z.land (Z.shiftr x (7 - pos mod 8)) 1) else Ok 0)
    = Ok (E := JointCodeError) (Z.b2z (bit_at bits pos)).
Proof.
  intros Hp. pose proof (Z.div_mod pos 8 ltac:(lia)) as E. pose proof (Z.mod_pos_bound pos 8 ltac:(lia)) as Hr.
  pose proof (Z.div_pos pos 8 Hp ltac:(lia)) as Hq. unfold bit_at. destruct (Z.ltb_spec (pos / 8) (zlen bits)) as [Hlt|Hge].
  - destruct (lookup_Z bits (pos / 8) ltac:(lia)) as [x Hx]. rewrite (idx_Ok _ _ x) by done. cbn [bind]. f_equal.
    replace (Z.to_nat pos) with (8 * Z.to_nat (pos / 8) + Z.to_nat (pos mod 8))%nat by lia.
    rewrite (stream_lookup bits _ _ x Hx) by lia. cbn [default]. rewrite Z2Nat.id by lia.
    change 1 with (Z.ones 1). rewrite Z.land_ones, <- Z.bit0_mod, Z.shiftr_spec by lia. done.
  - rewrite lookup_ge_None_2; [done|]. pose proof (length_stream bits). lia.
Qed.

Lemma peek_Ok bits bit width : 0 <= bit -> 0 <= width <= 15 -> bit + width <= usize_max ->
  exists v, peek bits bit width = Ok v /\ 0 <= v < 2 ^ width /\
    forall k, 0 <= k < width -> Z.testbit v (width - 1 - k) = bit_at bits (bit + k).
Proof.
  intros Hb Hw Hm. unfold peek. apply (for_range_inv (fun w v => 0 <= v < 2 ^ w /\ forall k, 0 <= k < w -> Z.testbit v (w - 1 - k) = bit_at bits (bit + k))).
  - lia.
  - split; [simpl; lia|lia].
  - intros w v Hwr [Hv Hk]. rewrite add_usize_Ok by lia. cbn [bind]. rewrite peek_bit by lia. cbn [bind]. eexists. split; [done|].
    assert (Hp : 2 ^ w <= 2 ^ 15) by (apply Z.pow_le_mono_r; lia). change (2 ^ 15) with 32768 in Hp.
    rewrite Z.shiftl_mul_pow2, Z.mod_small by lia. change (2 ^ 1) with 2.
    assert (E : Z.lor (v * 2) (Z.b2z (bit_at bits (bit + w))) = 2 * v + Z.b2z (bit_at bits (bit + w))).
    { rewrite Z.mul_comm. apply Z.bits_inj'. intros j Hj. rewrite Z.lor_spec. destruct (Z.eq_dec j 0) as [->|Hj0].
      - rewrite Z.testbit_even_0, Z.testbit_0_r, Z.b2z_bit0. done.
      - replace j with (Z.succ (j - 1)) by lia. rewrite Z.testbit_even_succ, Z.testbit_succ_r by lia. rewrite (high_bit (Z.b2z _) 1) by (destruct (bit_at bits (bit + w)); simpl; lia). apply orb_false_r. }
    rewrite E, Z.pow_add_r by lia. change (2 ^ 1) with 2. split; [destruct (bit_at bits (bit + w)); simpl; lia|].
    intros k Hkw. destruct (Z.eq_dec k w) as [->|Hne].
    + replace (w + 1 - 1 - w) with 0 by lia. by rewrite Z.testbit_0_r.
    + replace (w + 1 - 1 - k) with (Z.succ (w - 1 - k)) by lia. rewrite Z.testbit_succ_r by lia. apply Hk. lia.
Qed.

(** A window that starts with the word of [s] finds [s] in the table. *)
Lemma window_word s v : coded s -> 0 <= v < 2 ^ jc_table_bits code ->
  (forall k, 0 <= k < bget (jc_lengths code) s -> Some (Z.testbit v (jc_table_bits code - 1 - k)) = word s !! Z.to_nat k) ->
  idx (E := JointCodeError) (jc_table code) v = Ok (s, bget (jc_lengths code) s).
Proof.
  intros Hc Hv Hk. destruct (coded_length s Hc) as [Hl HlT]. destruct Hc as [Hs Hl0]. destruct (co_word code Hcode s Hs Hl0) as [Hcw Htab].
  apply idx_Ok; [lia|]. apply Htab. set (l := bget (jc_lengths code) s) in *. set (T := jc_table_bits code) in *.
  apply Z.bits_inj'. intros j Hj. rewrite Z.shiftr_spec by lia. destruct (Z.le_gt_cases l j) as [Hge|Hlt].
  - rewrite (high_bit _ l j) by lia. apply (high_bit _ T); lia.
  - specialize (Hk (l - 1 - j) ltac:(lia)). unfold word in Hk. fold l in Hk. rewrite msb_lookup in Hk by lia. injection Hk as Hk.
    replace (j + (T - l)) with (T - 1 - (l - 1 - j)) by lia. rewrite Hk. f_equal. lia.
Qed.

Section Decode.
  Context (symbols bits : list Z) (pad : list bool).
  Context (Hall : Forall coded symbols) (Hmax : 15 * zlen symbols + 32 <= usize_max) (Hbits : stream_bits bits = words symbols ++ pad).

Lemma bit_in_word i s k : 0 <= i -> symbols !! Z.to_nat i = Some s -> 0 <= k < bget (jc_lengths code) s ->
  Some (bit_at bits (offset symbols i + k)) = word s !! Z.to_nat k.
Proof.
  intros Hi Hs Hk. pose proof (Forall_lookup_1 _ _ _ _ Hall Hs) as Hc. pose proof (length_word s Hc) as Hl.
  assert (E : words symbols = words (take (Z.to_nat i) symbols) ++ word s ++ words (drop (S (Z.to_nat i)) symbols)).
  { rewrite <- words_single, <- !words_app. f_equal. symmetry. apply (take_drop_middle _ _ _ Hs). }
  unfold bit_at. rewrite Hbits, E, <- !app_assoc.
  unfold offset. rewrite lookup_app_r by lia. rewrite Z2Nat.inj_add, Nat2Z.id by lia.
  replace (_ + Z.to_nat k - _)%nat with (Z.to_nat k) by lia. rewrite lookup_app_l by lia.
  destruct (lookup_lt_is_Some_2 (word s) (Z.to_nat k) ltac:(lia)) as [b ->]. done.
Qed.

Lemma decode_step_Ok i s out : 0 <= i -> symbols !! Z.to_nat i = Some s ->
  decode_step code bits (8 * zlen bits) (offset symbols i, out) = Ok (offset symbols (i + 1), out ++ [s]).
Proof.
  intros Hi Hs. pose proof (Forall_lookup_1 _ _ _ _ Hall Hs) as Hc. destruct (coded_length s Hc) as [Hl HlT]. pose proof (co_bits code Hcode) as HT.
  pose proof (lookup_lt_Some _ _ _ Hs) as Hlt. pose proof (offset_bound symbols i Hall ltac:(unfold zlen; lia)) as Hob.
  pose proof (offset_next symbols i s Hi Hs Hc) as Hon. unfold decode_step.
  destruct (peek_Ok bits (offset symbols i) (jc_table_bits code)) as (v & -> & Hv & Hk); [lia..|unfold zlen in *; lia|]. cbn [bind].
  rewrite (window_word s v Hc Hv) by (intros k Hkr; rewrite Hk by lia; by apply bit_in_word). cbn [bind].
  replace (bget _ s =? 0) with false by lia. rewrite add_usize_Ok by (unfold zlen in *; lia). cbn [bind]. rewrite <- Hon.
  replace (_ <? offset symbols (i + 1)) with false; [done|]. symmetry. apply Z.ltb_ge. rewrite <- length_stream, Hbits, length_app.
  unfold offset. rewrite <- (take_drop (Z.to_nat (i + 1)) symbols) at 2. rewrite words_app, length_app. lia.
Qed.

Lemma decode_run_Ok first count : 0 <= first -> 0 <= count -> first + count <= zlen symbols -> 8 * zlen bits <= usize_max ->
  decode_run code bits (offset symbols first) count = Ok (sub symbols first (first + count)).
Proof.
  intros Hf Hc Hle Hb. unfold decode_run. rewrite mul_usize_Ok by (pose proof (zlen_nonneg bits); lia). cbn [bind]. rewrite (Z.mul_comm _ 8).
  destruct (for_range_inv (fun j (st : Z * list Z) => st = (offset symbols (first + j), sub symbols first (first + j)))
    (fun _ => decode_step code bits (8 * zlen bits)) 0 count (offset symbols first, [])) as (st & -> & ->).
  - done.
  - by rewrite Z.add_0_r, sub_empty.
  - intros j st Hj ->. destruct (lookup_Z symbols (first + j) ltac:(lia)) as [s Hs]. rewrite (decode_step_Ok _ s) by (lia || done).
    eexists. split; [done|]. rewrite Z.add_assoc. f_equal. symmetry. rewrite <- (sub_join symbols first (first + j)) by lia. f_equal.
    unfold sub. replace (Z.to_nat _) with 1%nat by lia. rewrite (drop_S _ s) by done. done.
  - done.
Qed.
End Decode.
End Stream.

(** * Joint symbols *)

Definition is_trit (x : Z) : Prop := -1 <= x <= 1.

(** Base-three value, most significant trit first, and its digits. *)
Definition value (ds : list Z) : Z := foldl (fun s d => s * 3 + (d + 1)) 0 ds.
Definition digit (t s p : Z) : Z := s / 3 ^ (t - 1 - p) mod 3 - 1.
Definition column (planes : list (list Z)) (j : Z) : list Z := (fun p => bget p j) <$> planes.

Lemma value_snoc ds d : value (ds ++ [d]) = value ds * 3 + (d + 1).
Proof. unfold value. by rewrite foldl_app. Qed.

Lemma value_bound ds : Forall is_trit ds -> 0 <= value ds < 3 ^ zlen ds.
Proof.
  induction ds as [|d ds IH] using rev_ind; [done|]. intros [Hds Hd]%Forall_app. apply list.Forall_cons in Hd as [Hd _]. unfold is_trit in Hd.
  specialize (IH Hds). rewrite value_snoc, zlen_app. change (zlen [d]) with 1. rewrite Z.pow_add_r by (pose proof (zlen_nonneg ds); lia). lia.
Qed.

Lemma digit_trit t s p : is_trit (digit t s p).
Proof. unfold is_trit, digit. pose proof (Z.mod_pos_bound (s / 3 ^ (t - 1 - p)) 3 ltac:(lia)). lia. Qed.

(** The digits of a value are the trits it folds. *)
Lemma digit_value ds : Forall is_trit ds -> forall p, 0 <= p < zlen ds -> digit (zlen ds) (value ds) p = bget ds p.
Proof.
  induction ds as [|d ds IH] using rev_ind; [intros _ p Hp; change (zlen []) with 0 in Hp; lia|]. intros [Hds Hd]%Forall_app p Hp.
  apply list.Forall_cons in Hd as [Hd _]. unfold is_trit in Hd. pose proof (zlen_nonneg ds) as Hn. rewrite zlen_app in *. change (zlen [d]) with 1 in *.
  rewrite value_snoc. unfold digit in *. destruct (Z.eq_dec p (zlen ds)) as [->|Hne].
  - replace (zlen ds + 1 - 1 - zlen ds) with 0 by lia. rewrite Z.pow_0_r, Z.div_1_r, Z.add_comm, Z.mod_add, Z.mod_small by lia.
    unfold bget. rewrite lookup_app_r by (unfold zlen; lia). replace (_ - _)%nat with 0%nat by (unfold zlen; lia). simpl. lia.
  - replace (zlen ds + 1 - 1 - p) with (1 + (zlen ds - 1 - p)) by lia. rewrite Z.pow_add_r, <- Z.div_div by lia. change (3 ^ 1) with 3.
    rewrite Z.add_comm, Z.div_add, (Z.div_small (d + 1)), Z.add_0_l, IH by (done || lia). unfold bget. rewrite lookup_app_l by (unfold zlen in *; lia). done.
Qed.

(** The value of the digits of a symbol is the symbol. *)
Lemma value_digits t : forall s, 0 <= t -> 0 <= s < 3 ^ t -> value (tabulate t (digit t s)) = s.
Proof.
  intros s Ht. revert s. pattern t. apply natlike_ind; [|clear t Ht; intros t Ht IH s Hs|done].
  - intros s Hs. change (3 ^ 0) with 1 in Hs. unfold value. simpl. lia.
  - unfold Z.succ in *. rewrite Z.pow_add_r in Hs by lia. change (3 ^ 1) with 3 in Hs. rewrite tabulate_S, value_snoc by done.
    rewrite (tabulate_ext t _ (digit t (s / 3))).
    + rewrite IH by (split; [apply Z.div_pos; lia|apply Z.div_lt_upper_bound; lia]). unfold digit.
      replace (t + 1 - 1 - t) with 0 by lia. rewrite Z.pow_0_r, Z.div_1_r. pose proof (Z.div_mod s 3 ltac:(lia)). lia.
    + intros p Hp. unfold digit. replace (t + 1 - 1 - p) with (1 + (t - 1 - p)) by lia. rewrite Z.pow_add_r, <- Z.div_div by lia. done.
Qed.

Definition rectangular (t n : Z) (planes : list (list Z)) : Prop :=
  zlen planes = t /\ Forall (fun p => zlen p = n /\ Forall is_trit p) planes.

Lemma column_trits t n planes j : rectangular t n planes -> 0 <= j < n -> Forall is_trit (column planes j) /\ zlen (column planes j) = t.
Proof.
  intros [Ht Hp] Hj. unfold column. split; [|unfold zlen in *; by rewrite length_fmap]. apply Forall_fmap. eapply list.Forall_impl; [exact Hp|].
  intros p [Hn Htr]. unfold compose. destruct (lookup_Z p j ltac:(lia)) as [x Hx]. unfold bget. rewrite Hx. apply (Forall_lookup_1 _ _ _ _ Htr Hx).
Qed.

Lemma joint_symbol_Ok t n planes j : 1 <= t <= 9 -> rectangular t n planes -> 0 <= j < n ->
  joint_symbol planes j = Ok (value (column planes j)) /\ 0 <= value (column planes j) < 3 ^ t.
Proof.
  intros Ht Hr Hj. destruct (column_trits t n planes j Hr Hj) as [Hc Hz]. pose proof (value_bound _ Hc) as Hv. rewrite Hz in Hv. split; [|done].
  unfold joint_symbol. destruct (for_each_inv (E := JointCodeError) (fun pre s => s = value (column pre j)) (fun plane s =>
    let* trit := idx plane j in
    if negb ((-1 <=? trit) && (trit <=? 1)) then Err (BadTrit trit) else let* s := mul_u32 s 3 in add_u32 s (trit + 1)) planes 0) as (s & -> & ->); try done.
  intros pre p post s Hp ->. destruct Hr as [Hzt Hall]. rewrite Hp in Hall. apply Forall_app in Hall as [Hpre Hpp].
  apply list.Forall_cons in Hpp as [[Hn Htr] _]. rewrite idx_bget by lia. cbn [bind].
  assert (Hx : is_trit (bget p j)).
  { destruct (lookup_Z p j ltac:(lia)) as [x Hx]. unfold bget. rewrite Hx. apply (Forall_lookup_1 _ _ _ _ Htr Hx). }
  destruct (column_trits (zlen pre) n pre j (conj eq_refl Hpre) Hj) as [Hcp Hzp]. pose proof (value_bound _ Hcp) as Hvp. rewrite Hzp in Hvp.
  assert (Hlt : zlen pre < 9) by (rewrite Hp, zlen_app, zlen_cons in Hzt; pose proof (zlen_nonneg post); lia).
  assert (H9 : 3 ^ zlen pre <= 3 ^ 9) by (apply Z.pow_le_mono_r; lia). change (3 ^ 9) with 19683 in H9. unfold is_trit in Hx.
  replace (negb _) with false by lia. unfold mul_u32, checked_mul32. replace (_ <=? u32_max) with true by (unfold u32_max; lia). cbn [unwrap bind].
  unfold add_u32, checked_add32. replace (_ <=? u32_max) with true by (unfold u32_max; lia). cbn [unwrap]. eexists. split; [done|].
  unfold column. rewrite fmap_app. cbn [fmap list_fmap]. by rewrite value_snoc.
Qed.

Lemma joint_symbols_Ok t n planes : 1 <= t <= 9 -> rectangular t n planes -> 0 <= n ->
  joint_symbols planes = Ok (tabulate n (fun j => value (column planes j))).
Proof.
  intros Ht Hr Hn. pose proof Hr as [Hz Hall]. unfold joint_symbols. rewrite Hz. destruct (alphabet_Ok t Ht) as [-> Ha]. cbn [bind].
  destruct planes as [|p planes]; [change (zlen []) with 0 in Hz; lia|]. cbn [head ok_or bind].
  apply list.Forall_cons in Hall as Hp. destruct Hp as [[Hp _] _]. rewrite Hp.
  replace (existsb _ _) with false.
  - destruct (for_range_inv (E := JointCodeError) (fun i out => zlen out = n /\ forall j, 0 <= j < i -> out !! Z.to_nat j = Some (value (column (p :: planes) j)))
      (fun i out => let* s := joint_symbol (p :: planes) i in upd out i (s mod 65536)) 0 n (vec 0 n)) as (out & -> & Hzo & Ho).
    + done.
    + split; [rewrite zlen_vec; lia|lia].
    + intros i out Hi [Hzo Ho]. destruct (joint_symbol_Ok t n _ i Ht Hr Hi) as [-> Hv]. cbn [bind]. rewrite Z.mod_small by lia.
      rewrite upd_Ok by lia. eexists. split; [done|]. split; [by rewrite zlen_insert|]. intros j Hj. rewrite lookup_upd by lia.
      destruct (Z.eqb_spec i j) as [->|]; [done|]. apply Ho. lia.
    + f_equal. by apply tabulate_lookup.
  - symmetry. apply not_true_is_false. intros (q & Hq & Hne)%existsb_exists. rewrite list.Forall_forall in Hall.
    destruct (Hall q) as [Hqn _]; [by apply list_elem_of_In|]. lia.
Qed.

(** Which entries of the planes are written: every plane at the symbols before [i], and
    the last [k] planes at [i]. *)
Definition planes_done (t n : Z) (symbols : list Z) (i k : Z) (planes : list (list Z)) : Prop :=
  zlen planes = t /\ forall p, 0 <= p < t -> exists row, planes !! Z.to_nat p = Some row /\ zlen row = n /\
    forall j, 0 <= j < n -> j < i \/ (j = i /\ t - k <= p) -> bget row j = digit t (bget symbols j) p.

Lemma unfold_symbol_Ok t n symbols i planes : 0 <= t -> 0 <= i < n -> planes_done t n symbols i 0 planes ->
  exists planes', unfold_symbol t i (bget symbols i) planes = Ok planes' /\ planes_done t n symbols (i + 1) 0 planes'.
Proof.
  intros Ht Hi Hd. unfold unfold_symbol.
  edestruct (for_range_inv (E := JointCodeError) (fun k (st : list (list Z) * Z) => planes_done t n symbols i k (fst st) /\ snd st = bget symbols i / 3 ^ k))
    as ([planes' s] & E & Hp & _); [exact Ht| | |rewrite E; cbn [bind fst]; exists planes'; split; [done|]].
  - cbn [fst snd]. split; [exact Hd|]. by rewrite Z.pow_0_r, Z.div_1_r.
  - intros k [pl s] Hk [[Hz Hp] Hs]. cbn [fst snd] in *. destruct (Hp (t - 1 - k) ltac:(lia)) as (row & Hrow & Hn & Hj).
    rewrite (idx_Ok _ _ row) by (lia || done). cbn [bind]. rewrite upd_Ok by lia. cbn [bind]. rewrite upd_Ok by lia. cbn [bind].
    eexists. split; [done|]. cbn [fst snd]. split.
    + split; [by rewrite zlen_insert|]. intros p Hpr. rewrite lookup_upd by lia. destruct (Z.eqb_spec (t - 1 - k) p) as [<-|Hne].
      * eexists. split; [done|]. split; [by rewrite zlen_insert|]. intros j Hjn Hji. rewrite bget_upd by lia.
        destruct (Z.eqb_spec i j) as [<-|]; [|apply Hj; lia]. rewrite Hs. unfold digit. do 4 f_equal. lia.
      * destruct (Hp p Hpr) as (row' & Hrow' & Hn' & Hj'). exists row'. split; [done|]. split; [done|]. intros j Hjn Hji. apply Hj'; lia.
    + rewrite Hs, Z.div_div, Z.pow_add_r by lia. done.
  - cbn [fst] in Hp. destruct Hp as [Hz Hp]. split; [done|]. intros p Hpr. destruct (Hp p Hpr) as (row & Hrow & Hn & Hj). exists row.
    split; [done|]. split; [done|]. intros j Hjn Hji. apply Hj; lia.
Qed.

Lemma planes_from_symbols_Ok t symbols : 1 <= t <= 9 -> Forall (fun s => 0 <= s < 3 ^ t) symbols ->
  planes_from_symbols symbols t = Ok (tabulate t (fun p => tabulate (zlen symbols) (fun j => digit t (bget symbols j) p))).
Proof.
  intros Ht Hs. unfold planes_from_symbols. destruct (alphabet_Ok t Ht) as [-> Ha]. cbn [bind]. set (n := zlen symbols).
  destruct (for_enum_inv (fun i planes => planes_done t n symbols i 0 planes)
    (fun i sym planes => if 3 ^ t <=? sym then Err (SymbolOutOfRange sym (3 ^ t)) else unfold_symbol t i sym planes)
    symbols 0 (vec (vec 0 n) t)) as (planes & -> & Hp); [| |f_equal].
  - split; [rewrite zlen_vec; lia|]. intros p Hp. exists (vec 0 n). rewrite lookup_vec by lia. split; [done|].
    split; [rewrite zlen_vec; unfold n, zlen; lia|]. intros j Hj. lia.
  - intros i s planes Hi Hl Hd. rewrite Z.sub_0_r in Hl. pose proof (Forall_lookup_1 _ _ _ _ Hs Hl) as Hr. simpl in Hr.
    replace (_ <=? s) with false by lia. pose proof (lookup_Z_lt _ _ _ Hi Hl) as Hlt.
    assert (Es : s = bget symbols i) by (unfold bget; by rewrite Hl). rewrite Es. apply (unfold_symbol_Ok t n); [lia|unfold n; lia|done].
  - destruct Hp as [Hz Hp]. apply tabulate_lookup; [lia|done|]. intros p Hpr. destruct (Hp p Hpr) as (row & -> & Hn & Hj). f_equal.
    rewrite <- (tabulate_bget row (zlen row)) at 1 by lia. rewrite Hn. apply tabulate_ext. intros j Hjr. apply Hj; unfold n in *; lia.
Qed.

Lemma column_tabulate t n f j : 0 <= j < n -> column (tabulate t (fun p => tabulate n (fun j => f j p))) j = tabulate t (f j).
Proof.
  intros Hj. unfold column, tabulate. rewrite <- list_fmap_compose. apply list_fmap_ext. intros p x _. unfold compose.
  unfold bget. fold (tabulate n (fun j => f j x)). by rewrite lookup_tabulate.
Qed.

Lemma rectangular_tabulate t n f : 0 <= t -> 0 <= n -> (forall j p, is_trit (f j p)) ->
  rectangular t n (tabulate t (fun p => tabulate n (fun j => f j p))).
Proof.
  intros Ht Hn Hf. split; [rewrite zlen_tabulate; lia|]. unfold tabulate at 1. apply Forall_fmap, Forall_true. intros p. unfold compose.
  split; [rewrite zlen_tabulate; lia|]. unfold tabulate. apply Forall_fmap, Forall_true. intros j. apply Hf.
Qed.

(** * Properties *)

(** Folding planes into joint symbols and unfolding symbols into planes are inverse.
    For between one and nine planes of equal length with entries -1, 0 or 1,
    [joint_symbols] succeeds, every symbol is below [3^t] and [planes_from_symbols] gives
    the planes back; for any symbols below [3^t], [planes_from_symbols] succeeds with
    planes of that shape and [joint_symbols] gives the symbols back. *)
Theorem joint_planes_inverse t : 1 <= t <= 9 ->
  (forall n planes, 0 <= n -> rectangular t n planes ->
     exists symbols, joint_symbols planes = Ok symbols /\ Forall (fun s => 0 <= s < 3 ^ t) symbols /\
       planes_from_symbols symbols t = Ok planes) /\
  (forall symbols, Forall (fun s => 0 <= s < 3 ^ t) symbols ->
     exists planes, planes_from_symbols symbols t = Ok planes /\ rectangular t (zlen symbols) planes /\
       joint_symbols planes = Ok symbols).
Proof.
  intros Ht. split.
  - intros n planes Hn Hr. eexists. split; [by apply (joint_symbols_Ok t)|].
    assert (Hb : Forall (fun s => 0 <= s < 3 ^ t) (tabulate n (fun j => value (column planes j)))).
    { unfold tabulate. apply Forall_fmap, list.Forall_forall. intros j Hj%elem_of_seqZ. apply (joint_symbol_Ok t n); [done|done|lia]. }
    split; [done|]. rewrite planes_from_symbols_Ok by done. f_equal. rewrite zlen_tabulate, Z.max_r by done. destruct Hr as [Hz Hall]. pose proof (conj Hz Hall : rectangular t n planes) as Hr.
    symmetry. apply tabulate_lookup; [lia|done|]. intros p Hp. destruct (lookup_Z planes p ltac:(lia)) as [row Hrow]. rewrite Hrow. f_equal.
    destruct (Forall_lookup_1 _ _ _ _ Hall Hrow) as [Hl _]. rewrite <- (tabulate_bget row (zlen row)) at 1 by lia. rewrite Hl.
    apply tabulate_ext. intros j Hj. unfold bget at 2. rewrite lookup_tabulate by done. cbn [default].
    destruct (column_trits t n planes j Hr Hj) as [Hc Hzc]. rewrite <- Hzc, digit_value by (done || lia). unfold column, bget.
    by rewrite list_lookup_fmap, Hrow.
  - intros symbols Hs. eexists. split; [by apply planes_from_symbols_Ok|]. pose proof (zlen_nonneg symbols) as Hn.
    assert (Hr : rectangular t (zlen symbols) (tabulate t (fun p => tabulate (zlen symbols) (fun j => digit t (bget symbols j) p)))).
    { apply (rectangular_tabulate t _ (fun j p => digit t (bget symbols j) p)); [lia|done|]. intros j p. apply digit_trit. }
    split; [done|]. rewrite (joint_symbols_Ok t (zlen symbols)) by done. f_equal.
    transitivity (tabulate (zlen symbols) (bget symbols)); [|by apply tabulate_bget]. apply tabulate_ext. intros j Hj.
    rewrite (column_tabulate t (zlen symbols) (fun j p => digit t (bget symbols j) p)) by done. apply value_digits; [lia|].
    destruct (lookup_Z symbols j Hj) as [x Hx]. unfold bget. rewrite Hx. apply (Forall_lookup_1 _ _ _ _ Hs Hx).
Qed.

Lemma joint_planes_inverse_witness : exists symbols, joint_symbols [[1; -1; 0]; [0; 0; -1]] = Ok symbols /\
  Forall (fun s => 0 <= s < 3 ^ 2) symbols /\ planes_from_symbols symbols 2 = Ok [[1; -1; 0]; [0; 0; -1]].
Proof.
  apply (proj1 (joint_planes_inverse 2 ltac:(lia)) 3); [lia|]. split; [done|]. unfold is_trit. repeat constructor; lia.
Defined.

(** What [decode_block] returns for a block of [symbols]. *)
Definition block_symbols (symbols : list Z) (block index : Z) : jres (list Z) :=
  if index * block <? zlen symbols then Ok (sub symbols (index * block) (Z.min ((index + 1) * block) (zlen symbols))) else Err BadBlock.

Lemma decode_block_Ok code symbols bits pad block index : code_ok code -> Forall (coded code) symbols -> 15 * zlen symbols + 32 <= usize_max ->
  stream_bits bits = words code symbols ++ pad -> 8 * zlen bits <= usize_max -> 0 < block -> 0 <= index ->
  decode_block code (MkJointStream bits (offsets code symbols block (zlen symbols)) block (zlen symbols)) index = block_symbols symbols block index.
Proof.
  intros Hcode Hall Hmax Hbits H8 Hb Hi. unfold decode_block, block_symbols. cbn [js_block_offsets js_block js_symbols js_bits].
  pose proof (zlen_nonneg symbols) as Hn. set (n := zlen symbols) in *. unfold offsets. rewrite list_lookup_fmap.
  pose proof (Z.div_mod (n + block - 1) block ltac:(lia)). pose proof (Z.mod_pos_bound (n + block - 1) block Hb).
  destruct (Z.ltb_spec (index * block) n) as [Hlt|Hge].
  - rewrite lookup_seqZ_lt by nia. cbn [fmap option_fmap option_map ok_or bind]. rewrite Z.add_0_l, Z2Nat.id by lia.
    rewrite mul_usize_Ok by nia. cbn [bind]. rewrite sub_usize_Ok by lia. cbn [bind].
    rewrite (decode_run_Ok code Hcode symbols bits pad) by (done || nia). do 2 f_equal. lia.
  - rewrite lookup_ge_None_2; [done|]. rewrite length_seqZ. nia.
Qed.

(** C21: the joint code is total and lossless. For any table of [3^t] frequencies with a
    [u64] sum, [build] returns a code, a reader that rebuilds it from its lengths alone
    gets the same code, and any run of symbols with a nonzero frequency is encoded; the
    stream decodes to exactly those symbols, and each block decodes on its own from its
    recorded offset to exactly its symbols, a block index past the end being refused. *)
Theorem joint_code_roundtrip freq t symbols block :
  1 <= t <= 9 -> zlen freq = 3 ^ t -> Forall (fun f => 0 <= f) freq -> zsum freq <= usize_max ->
  Forall (fun s => 0 <= s < 3 ^ t /\ 0 < bget freq s) symbols -> zlen symbols <= 2 ^ 50 -> 0 < block ->
  exists code stream, build freq t = Ok code /\ from_lengths (jc_lengths code) t = Ok code /\
    encode code symbols block = Ok stream /\ decode code stream = Ok symbols /\
    forall index, 0 <= index -> decode_block code stream index = block_symbols symbols block index.
Proof.
  intros Ht Hz Hf Hs Hsym Hn Hb. destruct (build_Ok freq t Ht Hz Hf Hs) as (code & Hbuild & Hfl & Hcode & L). change (2 ^ 50) with 1125899906842624 in Hn.
  assert (Hall : Forall (coded code) symbols).
  { eapply list.Forall_impl; [exact Hsym|]. intros s [Hr Hfr]. split; [rewrite (lf_len _ _ L); lia|]. apply (lf_live _ _ L); lia. }
  destruct (encode_Ok code Hcode symbols block Hall ltac:(unfold usize_max; lia) Hb) as (bits & pad & Henc & Hbits & Hpad).
  pose proof (words_bound code Hcode symbols Hall) as Hwb. pose proof (length_stream bits) as Hl. rewrite Hbits, length_app in Hl.
  exists code, (MkJointStream bits (offsets code symbols block (zlen symbols)) block (zlen symbols)).
  split; [done|]. split; [done|]. split; [done|]. pose proof (zlen_nonneg symbols) as Hn0. split.
  - unfold decode. cbn [js_bits js_symbols]. rewrite <- (sub_full symbols) at 2.
    apply (decode_run_Ok code Hcode symbols bits pad Hall ltac:(unfold usize_max; lia) Hbits 0 (zlen symbols)); unfold usize_max; lia.
  - intros index Hi. apply (decode_block_Ok code symbols bits pad); try done; unfold usize_max; lia.
Qed.

Lemma joint_code_roundtrip_witness : exists code stream, build [5; 0; 2] 1 = Ok code /\ from_lengths (jc_lengths code) 1 = Ok code /\
  encode code [0; 2; 2; 0; 0] 2 = Ok stream /\ decode code stream = Ok [0; 2; 2; 0; 0] /\
  forall index, 0 <= index -> decode_block code stream index = block_symbols [0; 2; 2; 0; 0] 2 index.
Proof.
  apply joint_code_roundtrip; [lia|done| |by vm_compute| |by vm_compute|lia].
  - apply list.Forall_forall. intros x Hx. rewrite !elem_of_cons, elem_of_nil in Hx. lia.
  - apply list.Forall_forall. intros x Hx. rewrite !elem_of_cons, elem_of_nil in Hx. destruct_or!; subst; done.
Defined.
