(* ===== verification/ByteMap.v ===== *)
(** * Ordered maps with string keys ([BTreeMap<String, V>])

    A key is its UTF-8 bytes; Rust orders strings by their bytes. A map is the list of
    its entries in iteration order, strictly increasing, so that iterating and comparing
    maps is iterating and comparing lists. *)

From Stdlib Require Import ZArith Lia Bool.
From stdpp Require Import base list numbers.
From S2P Require Import Prelude.

#[local] Open Scope Z_scope.

(** [Ord] on byte slices. *)
Fixpoint bytes_cmp (a b : list Z) : comparison :=
  match a, b with
  | [], [] => Eq
  | [], _ :: _ => Lt
  | _ :: _, [] => Gt
  | x :: a', y :: b' => match x ?= y with Eq => bytes_cmp a' b' | c => c end
  end.

Definition bytes_lt (a b : list Z) : Prop := bytes_cmp a b = Lt.

Section Map.
  Context {V : Type}.
  Implicit Types (m : list (list Z * V)) (k : list Z).

Fixpoint bt_get (m : list (list Z * V)) (k : list Z) : option V :=
  match m with
  | [] => None
  | (k', v) :: m' => match bytes_cmp k k' with Eq => Some v | Lt => None | Gt => bt_get m' k end
  end.

Fixpoint bt_insert (m : list (list Z * V)) (k : list Z) (v : V) : list (list Z * V) :=
  match m with
  | [] => [(k, v)]
  | (k', v') :: m' =>
      match bytes_cmp k k' with
      | Lt => (k, v) :: m
      | Eq => (k', v) :: m'
      | Gt => (k', v') :: bt_insert m' k v
      end
  end.

(** The keys increase. *)
Fixpoint bt_ok (m : list (list Z * V)) : Prop :=
  match m with
  | [] => True
  | (k, _) :: m' => Forall (fun e => bytes_lt k (fst e)) m' /\ bt_ok m'
  end.
End Map.

(** * Laws of the order *)

Lemma bytes_cmp_refl a : bytes_cmp a a = Eq.
Proof. induction a as [|x a IH]; [done|]. simpl. by rewrite Z.compare_refl. Qed.

Lemma bytes_cmp_eq a : forall b, bytes_cmp a b = Eq <-> a = b.
Proof.
  induction a as [|x a IH]; intros [|y b]; simpl; try done. destruct (Z.compare_spec x y) as [->|H|H].
  - rewrite IH. split; congruence.
  - split; [done|]. intros [= -> _]. lia.
  - split; [done|]. intros [= -> _]. lia.
Qed.

Lemma bytes_cmp_flip a : forall b, bytes_cmp b a = CompOpp (bytes_cmp a b).
Proof. induction a as [|x a IH]; intros [|y b]; simpl; try done. rewrite (Z.compare_antisym x y). by destruct (x ?= y); simpl. Qed.

Lemma bytes_lt_gt a b : bytes_lt a b -> bytes_cmp b a = Gt.
Proof. unfold bytes_lt. intros H. by rewrite bytes_cmp_flip, H. Qed.

Lemma bytes_lt_trans a : forall b c, bytes_lt a b -> bytes_lt b c -> bytes_lt a c.
Proof.
  unfold bytes_lt. induction a as [|x a IH]; intros [|y b] [|z c]; simpl; try done.
  destruct (Z.compare_spec x y) as [->|H|H]; [| |done].
  - intros Hab. destruct (Z.compare_spec y z); [by apply IH|done|done].
  - intros _. destruct (Z.compare_spec y z) as [->|H'|H']; [..|done]; intros _; by replace (x ?= z) with Lt by (symmetry; apply Z.compare_lt_iff; lia).
Qed.

Lemma bt_ok_app {V} (m m' : list (list Z * V)) :
  bt_ok (m ++ m') <-> bt_ok m /\ bt_ok m' /\ Forall (fun e => Forall (fun f => bytes_lt (fst e) (fst f)) m') m.
Proof.
  induction m as [|[k v] m IH]; simpl; [split; [done|by intros (_ & ? & _)]|]. rewrite Forall_app, IH, list.Forall_cons. simpl. tauto.
Qed.

(** Inserting past the last key appends. *)
Lemma bt_insert_last {V} (m : list (list Z * V)) k v : bt_ok (m ++ [(k, v)]) -> bt_insert m k v = m ++ [(k, v)].
Proof.
  induction m as [|[k' v'] m IH]; [done|]. intros [Hk Hm]. simpl. apply Forall_app in Hk as [_ Hk].
  apply list.Forall_cons in Hk as [Hk _]. rewrite (bytes_lt_gt k' k) by done. by rewrite IH.
Qed.

Lemma bt_insert_keys {V} (P : list Z -> Prop) (m : list (list Z * V)) k v :
  P k -> Forall (fun e => P (fst e)) m -> Forall (fun e => P (fst e)) (bt_insert m k v).
Proof.
  intros Hk. induction 1 as [|[k' v'] m Hk' Hm IH]; [by constructor|]. simpl. by destruct (bytes_cmp k k'); repeat constructor.
Qed.

Lemma bt_insert_ok {V} (m : list (list Z * V)) k v : bt_ok m -> bt_ok (bt_insert m k v).
Proof.
  induction m as [|[k' v'] m IH]; [done|]. intros [Hk Hm]. simpl. destruct (bytes_cmp k k') eqn:Hc; simpl; [done| |].
  - split; [|done]. constructor; [done|]. eapply list.Forall_impl; [exact Hk|]. intros e He. by eapply bytes_lt_trans.
  - split; [|by apply IH]. apply bt_insert_keys; [|done]. unfold bytes_lt. by rewrite bytes_cmp_flip, Hc.
Qed.

(** Inserting entries is updating a map. *)
Lemma bt_get_insert {V} (m : list (list Z * V)) k v j : bt_ok m ->
  bt_get (bt_insert m k v) j = match bytes_cmp j k with Eq => Some v | _ => bt_get m j end.
Proof.
  induction m as [|[k' v'] m IH]; [simpl; by destruct (bytes_cmp j k)|]. intros [Hk Hm]. simpl. destruct (bytes_cmp k k') eqn:Hc; simpl.
  - apply bytes_cmp_eq in Hc as ->. by destruct (bytes_cmp j k').
  - destruct (bytes_cmp j k) eqn:Hj; [done| |done]. by rewrite (bytes_lt_trans j k k').
  - rewrite IH by done. destruct (bytes_cmp j k') eqn:Hj; [|..|done].
    + apply bytes_cmp_eq in Hj as ->. by rewrite bytes_cmp_flip, Hc.
    + assert (Hlt : bytes_lt j k) by (eapply bytes_lt_trans; [exact Hj|]; unfold bytes_lt; by rewrite bytes_cmp_flip, Hc). by rewrite Hlt.
Qed.

Lemma bt_insert_Forall {V} (P : list Z * V -> Prop) (m : list (list Z * V)) k v :
  (forall k', bytes_cmp k k' = Eq -> P (k', v)) -> P (k, v) -> Forall P m -> Forall P (bt_insert m k v).
Proof.
  intros He Hk. induction 1 as [|[k' v'] m Hk' Hm IH]; [by constructor|]. simpl. destruct (bytes_cmp k k') eqn:Hc; repeat constructor; try done. by apply He.
Qed.
