(* ===== verification/Outcome.v ===== *)
(** * Postconditions of outcomes

    [yields Q m]: [m] returns, and a value it returns satisfies [Q]. The rules follow the
    constructs of the source: sequencing, early returns, loops. *)

From Stdlib Require Import ZArith Lia Bool.
From stdpp Require Import base list numbers.
From S2P Require Import Prelude.

#[local] Open Scope Z_scope.

Definition yields {E A} (Q : A -> Prop) (m : res E A) : Prop :=
  match m with Ok a => Q a | Err _ => True | Panic | NoFuel => False end.

Lemma yields_returns {E A} (Q : A -> Prop) (m : res E A) : yields Q m -> returns m.
Proof. by destruct m. Qed.

Lemma yields_Ok_inv {E A} (Q : A -> Prop) (m : res E A) a : yields Q m -> m = Ok a -> Q a.
Proof. by intros H ->. Qed.

Lemma yields_bind {E A B} (P : A -> Prop) (Q : B -> Prop) (m : res E A) (k : A -> res E B) :
  yields P m -> (forall a, P a -> yields Q (k a)) -> yields Q (bind m k).
Proof. destruct m; simpl; intros Hm Hk; try done. by apply Hk. Qed.

Lemma yields_impl {E A} (P Q : A -> Prop) (m : res E A) : yields P m -> (forall a, P a -> Q a) -> yields Q m.
Proof. destruct m; simpl; auto. Qed.

Lemma yields_if {E A} (Q : A -> Prop) (b : bool) (m k : res E A) :
  (b = true -> yields Q m) -> (b = false -> yields Q k) -> yields Q (if b then m else k).
Proof. destruct b; auto. Qed.

Lemma yields_ok_or {E A} (Q : A -> Prop) (o : option A) (e : E) : (forall a, o = Some a -> Q a) -> yields Q (ok_or o e).
Proof. destruct o; simpl; auto. Qed.

Lemma yields_ensure {E} (b : bool) (e : E) : yields (fun _ => b = true) (ensure b e).
Proof. by destruct b. Qed.

Lemma yields_for_n {E S} (I : Z -> S -> Prop) (body : Z -> S -> res E S) n : forall lo s, I lo s ->
  (forall i s, lo <= i < lo + Z.of_nat n -> I i s -> yields (I (i + 1)) (body i s)) -> yields (I (lo + Z.of_nat n)) (for_n n lo body s).
Proof.
  induction n as [|n IH]; intros lo s H0 Hstep; cbn [for_n]; [by rewrite Z.add_0_r|].
  apply (yields_bind (I (lo + 1))); [apply Hstep; [lia|done]|]. intros s1 H1.
  replace (lo + Z.of_nat (Datatypes.S n)) with (lo + 1 + Z.of_nat n) by lia. apply IH; [done|]. intros i s2 Hi. apply Hstep. lia.
Qed.

Lemma yields_for_range {E S} (I : Z -> S -> Prop) (body : Z -> S -> res E S) lo hi s : lo <= hi -> I lo s ->
  (forall i s, lo <= i < hi -> I i s -> yields (I (i + 1)) (body i s)) -> yields (I hi) (for_range lo hi body s).
Proof.
  intros Hle H0 Hstep. unfold for_range. replace (I hi) with (I (lo + Z.of_nat (Z.to_nat (hi - lo)))) by (f_equal; lia).
  apply yields_for_n; [done|]. intros i s1 Hi. apply Hstep. lia.
Qed.

Lemma yields_for_each {E A S} (I : list A -> S -> Prop) (body : A -> S -> res E S) l : forall s, I [] s ->
  (forall pre x post s, l = pre ++ x :: post -> I pre s -> yields (I (pre ++ [x])) (body x s)) -> yields (I l) (for_each l body s).
Proof.
  revert I. induction l as [|x l IH]; intros I s H0 Hstep; simpl; [done|].
  apply (yields_bind (I [x])); [by apply (Hstep [] x l s)|]. intros s1 H1.
  apply (IH (fun pre s => I (x :: pre) s)); [done|]. intros pre y post s2 -> Hp. by apply (Hstep (x :: pre) y post).
Qed.

(** Branching with the condition recorded. *)
Ltac yield_if := apply yields_if; let H := fresh "Hif" in intros H.

(** * Code without fuel *)

(** No loop of [m] ran out of fuel. *)
Definition ends {E A} (m : res E A) : Prop := m <> NoFuel.

Create HintDb ends.

Lemma ends_Ok {E A} (a : A) : ends (E := E) (Ok a).
Proof. done. Qed.
Lemma ends_Err {E A} (e : E) : ends (A := A) (Err e).
Proof. done. Qed.
Lemma ends_Panic {E A} : ends (E := E) (A := A) Panic.
Proof. done. Qed.
Lemma ends_bind {E A B} (m : res E A) (k : A -> res E B) : ends m -> (forall a, ends (k a)) -> ends (bind m k).
Proof. unfold ends. destruct m; simpl; auto. Qed.
Lemma ends_map_err {E F A} (f : E -> F) (m : res E A) : ends m -> ends (map_err f m).
Proof. unfold ends. by destruct m. Qed.
Lemma ends_if {E A} (b : bool) (m k : res E A) : ends m -> ends k -> ends (if b then m else k).
Proof. by destruct b. Qed.
Lemma ends_ok_or {E A} (o : option A) (e : E) : ends (ok_or o e).
Proof. by destruct o. Qed.
Lemma ends_idx {E A} (l : list A) i : ends (E := E) (idx l i).
Proof. unfold ends, idx. destruct (0 <=? i); [|done]. by destruct (l !! _). Qed.
Lemma ends_slice {E A} (l : list A) a b : ends (E := E) (slice l a b).
Proof. unfold ends, slice. by destruct (in_slice l a b). Qed.
Lemma ends_mul_usize {E} a b : ends (E := E) (mul_usize a b).
Proof. unfold ends, mul_usize, checked_mul. by destruct (_ <=? _). Qed.
Lemma ends_add_usize {E} a b : ends (E := E) (add_usize a b).
Proof. unfold ends, add_usize, checked_add. by destruct (_ <=? _). Qed.
Lemma ends_sub_usize {E} a b : ends (E := E) (sub_usize a b).
Proof. unfold ends, sub_usize, checked_sub. by destruct (_ <=? _). Qed.
Lemma ends_for_n {E S} (body : Z -> S -> res E S) n : (forall i s, ends (body i s)) -> forall i s, ends (for_n n i body s).
Proof. intros Hb. induction n as [|n IH]; intros i s; [done|]. simpl. by apply ends_bind. Qed.
Lemma ends_for_range {E S} (body : Z -> S -> res E S) lo hi s : (forall i s, ends (body i s)) -> ends (for_range lo hi body s).
Proof. intros. by apply ends_for_n. Qed.
Lemma ends_for_each {E A S} (body : A -> S -> res E S) l : (forall x s, ends (body x s)) -> forall s, ends (for_each l body s).
Proof. intros Hb. induction l as [|x l IH]; intros s; [done|]. simpl. by apply ends_bind. Qed.
Lemma ends_for_enum {E A S} (body : Z -> A -> S -> res E S) l : (forall i x s, ends (body i x s)) -> forall i s, ends (for_enum i l body s).
Proof. intros Hb. induction l as [|x l IH]; intros i s; [done|]. simpl. by apply ends_bind. Qed.
#[export] Hint Resolve ends_Ok ends_Err ends_Panic ends_bind ends_map_err ends_if ends_ok_or ends_idx ends_slice ends_mul_usize ends_add_usize
  ends_sub_usize ends_for_range ends_for_each ends_for_enum : ends.
