(* ===== verification/Gguf.v ===== *)
(** * GGUF containers: data and reader (crates/tritium-format/src/gguf.rs)

    The definitions of the reader and of the writer (gguf_write.rs); GgufRead.v proves
    the reader total and its results well typed, GgufWrite.v proves that it inverts the
    writer, and GgufStream.v has the streaming writer. A string is its bytes, an [f32] or
    [f64] its bit pattern, an [i8] .. [i64] a [Z] in the signed range. *)

From Stdlib Require Import ZArith Lia Bool.
From stdpp Require Import base list numbers.
From S2P Require Import Prelude Text Core FormatBase TwoBit LeCursor Corpus ByteMap.

#[local] Open Scope Z_scope.

Definition GGML_TYPE_TQ1_0 : Z := 34.
Definition GGML_TYPE_TQ2_0 : Z := 35.
Definition GGML_TYPE_Q2_0 : Z := 42.
Definition DEFAULT_ALIGNMENT : Z := 32.
Definition GGUF_MAGIC : list Z := [71; 71; 85; 70].
Definition MAX_STRING_LEN : Z := 64 * 1024 * 1024.
Definition MAX_COUNT : Z := 4294967296.
Definition MAX_METADATA_DEPTH : Z := 8.
Definition MAX_METADATA_ARRAY_ELEMENTS : Z := 16000000.
Definition MAX_DIMS : Z := 8.

Inductive GgufError : Type :=
| BadMagic
| UnsupportedVersion (v : Z)
| Truncated
| StringTooLong
| DimsOverflow
| InvalidTensorShape
| InvalidAlignment
| InvalidBoolean (value : Z)
| OffsetOutOfBounds
| UnknownValueType (t : Z)
| InvalidUtf8.

Abbreviation gres := (res GgufError).

(** * The cursor *)

Record Cursor : Type := mkCursor { cu_buf : list Z; cu_pos : Z }.

Definition cursor_new (buf : list Z) : Cursor := mkCursor buf 0.

(** [slice.get(a..b)]. *)
Definition get_range {A} (l : list A) (a b : Z) : option (list A) :=
  if in_slice l a b then Some (sub l a b) else None.

Definition cu_take (cur : Cursor) (n : Z) : gres (list Z * Cursor) :=
  let* stop := ok_or (checked_add (cu_pos cur) n) Truncated in
  let* slice := ok_or (get_range (cu_buf cur) (cu_pos cur) stop) Truncated in
  Ok (slice, mkCursor (cu_buf cur) stop).

Definition cu_u8 (cur : Cursor) : gres (Z * Cursor) :=
  let* (b, cur) := cu_take cur 1 in
  let* x := idx b 0 in
  Ok (x, cur).

Definition cu_u16 (cur : Cursor) : gres (Z * Cursor) :=
  let* (b, cur) := cu_take cur 2 in
  let* b0 := idx b 0 in
  let* b1 := idx b 1 in
  Ok (from_le [b0; b1], cur).

Definition cu_u32 (cur : Cursor) : gres (Z * Cursor) :=
  let* (b, cur) := cu_take cur 4 in
  let* b0 := idx b 0 in
  let* b1 := idx b 1 in
  let* b2 := idx b 2 in
  let* b3 := idx b 3 in
  Ok (from_le [b0; b1; b2; b3], cur).

Definition cu_u64 (cur : Cursor) : gres (Z * Cursor) :=
  let* (b, cur) := cu_take cur 8 in
  let* b0 := idx b 0 in
  let* b1 := idx b 1 in
  let* b2 := idx b 2 in
  let* b3 := idx b 3 in
  let* b4 := idx b 4 in
  let* b5 := idx b 5 in
  let* b6 := idx b 6 in
  let* b7 := idx b 7 in
  Ok (from_le [b0; b1; b2; b3; b4; b5; b6; b7], cur).

Definition gguf_string (cur : Cursor) : gres (list Z * Cursor) :=
  let* (len, cur) := cu_u64 cur in
  if MAX_STRING_LEN <? len then Err StringTooLong else
  let* (bytes, cur) := cu_take cur len in
  if utf8_valid bytes then Ok (bytes, cur) else Err InvalidUtf8.

(** * Values *)

Inductive GgufValue : Type :=
| VU8 (v : Z)
| VI8 (v : Z)
| VU16 (v : Z)
| VI16 (v : Z)
| VU32 (v : Z)
| VI32 (v : Z)
| VF32 (bits : Z)
| VBool (b : bool)
| VString (s : list Z)
| VArray (items : list GgufValue)
| VU64 (v : Z)
| VI64 (v : Z)
| VF64 (bits : Z).

(** [x as i8] and so on, from the unsigned value of the same width. *)
Definition as_signed (bits x : Z) : Z := if x <? 2 ^ (bits - 1) then x else x - 2 ^ bits.

Definition as_u64 (self : GgufValue) : option Z :=
  match self with
  | VU8 v | VU16 v | VU32 v | VU64 v => Some v
  | VI8 v | VI16 v | VI32 v | VI64 v => if 0 <=? v then Some v else None
  | _ => None
  end.

Definition as_i64 (self : GgufValue) : option Z :=
  match self with
  | VU8 v | VI8 v | VU16 v | VI16 v | VU32 v | VI32 v | VI64 v => Some v
  | VU64 v => if v <=? isize_max then Some v else None
  | _ => None
  end.

Definition as_str (self : GgufValue) : option (list Z) := match self with VString s => Some s | _ => None end.
Definition as_f32 (self : GgufValue) : option Z := match self with VF32 v => Some v | _ => None end.
Definition as_bool (self : GgufValue) : option bool := match self with VBool b => Some b | _ => None end.
Definition as_array (self : GgufValue) : option (list GgufValue) := match self with VArray items => Some items | _ => None end.

(** [read_value]: the state is the cursor and the running count of array elements. The
    fuel bounds the nesting, which the code bounds by [MAX_METADATA_DEPTH]. *)
Fixpoint read_value (fuel : nat) (cur : Cursor) (value_type depth total : Z) : gres (GgufValue * Cursor * Z) :=
  match fuel with
  | O => NoFuel
  | S fuel =>
      match value_type with
      | 0 => let* (v, cur) := cu_u8 cur in Ok (VU8 v, cur, total)
      | 1 => let* (v, cur) := cu_u8 cur in Ok (VI8 (as_signed 8 v), cur, total)
      | 2 => let* (v, cur) := cu_u16 cur in Ok (VU16 v, cur, total)
      | 3 => let* (v, cur) := cu_u16 cur in Ok (VI16 (as_signed 16 v), cur, total)
      | 4 => let* (v, cur) := cu_u32 cur in Ok (VU32 v, cur, total)
      | 5 => let* (v, cur) := cu_u32 cur in Ok (VI32 (as_signed 32 v), cur, total)
      | 6 => let* (v, cur) := cu_u32 cur in Ok (VF32 v, cur, total)
      | 7 =>
          let* (v, cur) := cu_u8 cur in
          if 1 <? v then Err (InvalidBoolean v) else Ok (VBool (negb (v =? 0)), cur, total)
      | 8 => let* (s, cur) := gguf_string cur in Ok (VString s, cur, total)
      | 9 =>
          if MAX_METADATA_DEPTH <=? depth then Err DimsOverflow else
          let* (child_type, cur) := cu_u32 cur in
          if 12 <? child_type then Err (UnknownValueType child_type) else
          let* (count, cur) := cu_u64 cur in
          if MAX_COUNT <? count then Err DimsOverflow else
          let* total := ok_or (checked_add total count) DimsOverflow in
          if MAX_METADATA_ARRAY_ELEMENTS <? total then Err DimsOverflow else
          let* (items, cur, total) := for_range 0 count (fun _ st =>
            let '(items, cur, total) := st in
            let* (v, cur, total) := read_value fuel cur child_type (depth + 1) total in
            Ok (items ++ [v], cur, total)) ([], cur, total) in
          Ok (VArray items, cur, total)
      | 10 => let* (v, cur) := cu_u64 cur in Ok (VU64 v, cur, total)
      | 11 => let* (v, cur) := cu_u64 cur in Ok (VI64 (as_signed 64 v), cur, total)
      | 12 => let* (v, cur) := cu_u64 cur in Ok (VF64 v, cur, total)
      | other => Err (UnknownValueType other)
      end
  end.

Definition value_fuel : nat := 9.

(** * Tensors *)

Record TensorInfo : Type := MkTensorInfo {
  ti_name : list Z;
  ti_dims : list Z;
  ti_ggml_type : Z;
  ti_offset : Z;
  ti_n_bytes : Z }.

Definition product_u64 (init : Z) (dims : list Z) : gres Z :=
  for_each dims (fun d n => ok_or (checked_mul n d) DimsOverflow) init.

Definition element_count (self : TensorInfo) : gres Z := product_u64 1 (ti_dims self).

Definition type_block_layout (ggml_type : Z) : option (Z * Z) :=
  match ggml_type with
  | 0 => Some (4, 1)
  | 1 => Some (2, 1)
  | 8 => Some (34, 32)
  | 24 => Some (1, 1)
  | 25 => Some (2, 1)
  | 26 => Some (4, 1)
  | 30 => Some (2, 1)
  | 34 => Some (54, 256)
  | 35 => Some (66, 256)
  | 42 => Some (18, 64)
  | _ => None
  end.

Definition tensor_type_is_sized (ggml_type : Z) : bool :=
  match type_block_layout ggml_type with Some _ => true | None => false end.

Definition tensor_n_bytes (ggml_type : Z) (dims : list Z) : gres Z :=
  match type_block_layout ggml_type with
  | None => Ok 0
  | Some (block_size, block_n) =>
      let row_elements := default 1 (head dims) in
      if negb (row_elements mod block_n =? 0) then Err InvalidTensorShape else
      let* rows := product_u64 1 (tail dims) in
      let row_blocks := row_elements / block_n in
      let* row_bytes := ok_or (checked_mul row_blocks block_size) DimsOverflow in
      ok_or (checked_mul row_bytes rows) DimsOverflow
  end.

(** * Files *)

Record GgufFile : Type := MkGgufFile {
  gf_version : Z;
  gf_metadata : list (list Z * GgufValue);
  gf_tensors : list TensorInfo;
  gf_tensor_data_offset : Z }.

Definition get_metadata (self : GgufFile) (key : list Z) : option GgufValue := bt_get (gf_metadata self) key.

Definition gguf_tensor (self : GgufFile) (name : list Z) : option TensorInfo :=
  snd <$> list_find (fun t => ti_name t = name) (gf_tensors self).

(** ["general.alignment"]. *)
Definition ALIGNMENT_KEY : list Z := [103; 101; 110; 101; 114; 97; 108; 46; 97; 108; 105; 103; 110; 109; 101; 110; 116].

Definition metadata_alignment (metadata : list (list Z * GgufValue)) : gres Z :=
  match bt_get metadata ALIGNMENT_KEY with
  | None => Ok DEFAULT_ALIGNMENT
  | Some (VU32 value) => if negb (value =? 0) && (value mod 8 =? 0) then Ok value else Err InvalidAlignment
  | Some _ => Err InvalidAlignment
  end.

Definition gguf_alignment (self : GgufFile) : Z :=
  match metadata_alignment (gf_metadata self) with Ok a => a | _ => DEFAULT_ALIGNMENT end.

Definition align_up (pos align : Z) : gres Z :=
  if align =? 0 then Ok pos else
  let* bumped := ok_or (checked_add pos (align - 1)) DimsOverflow in
  Ok (bumped - bumped mod align).

(** One metadata entry; the state is [(metadata, cursor, total)]. *)
Definition read_entry (_ : Z) (st : list (list Z * GgufValue) * Cursor * Z) : gres (list (list Z * GgufValue) * Cursor * Z) :=
  let '(metadata, cur, total) := st in
  let* (key, cur) := gguf_string cur in
  let* (value_type, cur) := cu_u32 cur in
  let* (value, cur, total) := read_value value_fuel cur value_type 0 total in
  Ok (bt_insert metadata key value, cur, total).

Definition read_dim (_ : Z) (st : list Z * Cursor) : gres (list Z * Cursor) :=
  let* (d, cur) := cu_u64 (snd st) in Ok (fst st ++ [d], cur).

Definition RawTensor : Type := list Z * list Z * Z * Z.

(** One row of the tensor table. *)
Definition read_raw (_ : Z) (st : list RawTensor * Cursor) : gres (list RawTensor * Cursor) :=
  let '(raw, cur) := st in
  let* (name, cur) := gguf_string cur in
  let* (n_dims, cur) := cu_u32 cur in
  if MAX_DIMS <? n_dims then Err DimsOverflow else
  let* (dims, cur) := for_range 0 n_dims read_dim ([], cur) in
  let* (ggml_type, cur) := cu_u32 cur in
  let* (offset, cur) := cu_u64 cur in
  Ok (raw ++ [(name, dims, ggml_type, offset)], cur).

(** Sizing and bounds check of one tensor. *)
Definition size_tensor (data_section_len : Z) (r : RawTensor) (tensors : list TensorInfo) : gres (list TensorInfo) :=
  let '(name, dims, ggml_type, offset) := r in
  let* _ := product_u64 1 dims in
  let* n_bytes := tensor_n_bytes ggml_type dims in
  let* _ := if 0 <? n_bytes then
      let* stop := ok_or (checked_add offset n_bytes) DimsOverflow in
      ensure (negb (data_section_len <? stop)) OffsetOutOfBounds
    else ensure (negb (data_section_len <? offset)) OffsetOutOfBounds in
  Ok (tensors ++ [MkTensorInfo name dims ggml_type offset n_bytes]).

Definition read_gguf (buf : list Z) : gres GgufFile :=
  let cur := cursor_new buf in
  let* (magic, cur) := cu_take cur 4 in
  if negb (bool_decide (magic = GGUF_MAGIC)) then Err BadMagic else
  let* (version, cur) := cu_u32 cur in
  if negb (version =? 2) && negb (version =? 3) then Err (UnsupportedVersion version) else
  let* (tensor_count, cur) := cu_u64 cur in
  let* (metadata_kv_count, cur) := cu_u64 cur in
  if (MAX_COUNT <? tensor_count) || (MAX_COUNT <? metadata_kv_count) then Err DimsOverflow else
  let* (metadata, cur, total) := for_range 0 metadata_kv_count read_entry ([], cur, 0) in
  let* alignment := metadata_alignment metadata in
  let* (raw_tensors, cur) := for_range 0 tensor_count read_raw ([], cur) in
  let* tensor_data_offset := align_up (cu_pos cur) alignment in
  let data_section_len := saturating_sub (zlen buf) tensor_data_offset in
  let* tensors := for_each raw_tensors (size_tensor data_section_len) [] in
  Ok (MkGgufFile version metadata tensors tensor_data_offset).

(** * The writer (crates/tritium-format/src/gguf_write.rs) *)

Definition push_gguf_string (out s : list Z) : list Z := (out ++ to_le 8 (zlen s)) ++ s.

Definition value_type_tag (v : GgufValue) : Z :=
  match v with
  | VU8 _ => 0
  | VI8 _ => 1
  | VU16 _ => 2
  | VI16 _ => 3
  | VU32 _ => 4
  | VI32 _ => 5
  | VF32 _ => 6
  | VBool _ => 7
  | VString _ => 8
  | VArray _ => 9
  | VU64 _ => 10
  | VI64 _ => 11
  | VF64 _ => 12
  end.

(** [to_le] of a negative number is its two's complement. *)
Definition push_scalar (out : list Z) (v : GgufValue) : gres (list Z) :=
  match v with
  | VU8 x => Ok (out ++ [x])
  | VI8 x => Ok (out ++ [x mod 256])
  | VU16 x | VI16 x => Ok (out ++ to_le 2 x)
  | VU32 x | VI32 x | VF32 x => Ok (out ++ to_le 4 x)
  | VBool b => Ok (out ++ [Z.b2z b])
  | VString s => Ok (push_gguf_string out s)
  | VU64 x | VI64 x | VF64 x => Ok (out ++ to_le 8 x)
  | VArray _ => Err (UnknownValueType 9)
  end.

(** The state is the buffer and the running count of array elements. *)
Fixpoint push_value_payload (out : list Z) (value : GgufValue) (depth total : Z) : gres (list Z * Z) :=
  match value with
  | VArray items =>
      if MAX_METADATA_DEPTH <=? depth then Err DimsOverflow else
      let count := zlen items in
      let* total := ok_or (checked_add total count) DimsOverflow in
      if MAX_METADATA_ARRAY_ELEMENTS <? total then Err DimsOverflow else
      let child_tag := match items with [] => 0 | v :: _ => value_type_tag v end in
      let fix push_items (items : list GgufValue) (out : list Z) (total : Z) : gres (list Z * Z) :=
        match items with
        | [] => Ok (out, total)
        | item :: items' =>
            if negb (value_type_tag item =? child_tag) then Err (UnknownValueType 9) else
            let* (out, total) := push_value_payload out item (depth + 1) total in
            push_items items' out total
        end in
      push_items items ((out ++ to_le 4 child_tag) ++ to_le 8 count) total
  | scalar => let* out := push_scalar out scalar in Ok (out, total)
  end.

Definition push_value (out : list Z) (v : GgufValue) (total : Z) : gres (list Z * Z) :=
  push_value_payload (out ++ to_le 4 (value_type_tag v)) v 0 total.

Record TensorOut : Type := MkTensorOut { to_name : list Z; to_dims : list Z; to_type : Z; to_data : list Z }.

Record GgufTensorSpec : Type := MkSpec { sp_name : list Z; sp_dims : list Z; sp_type : Z; sp_data_len : Z }.

Record GgufLayout : Type := MkLayout { gl_header : list Z; gl_tensor_data_offset : Z; gl_offsets : list Z }.

(** The offset of one payload; the state is [(offsets, relative_end)]. *)
Definition place_tensor (alignment : Z) (t : GgufTensorSpec) (st : list Z * Z) : gres (list Z * Z) :=
  let '(offsets, relative_end) := st in
  let* expected_data_len := tensor_n_bytes (sp_type t) (sp_dims t) in
  if tensor_type_is_sized (sp_type t) && negb (sp_data_len t =? expected_data_len) then Err InvalidTensorShape else
  let* offset := align_up relative_end alignment in
  let* relative_end := ok_or (checked_add offset (sp_data_len t)) DimsOverflow in
  Ok (offsets ++ [offset], relative_end).

Definition push_entry (e : list Z * GgufValue) (st : list Z * Z) : gres (list Z * Z) :=
  push_value (push_gguf_string (fst st) (fst e)) (snd e) (snd st).

Definition push_info (e : GgufTensorSpec * Z) (header : list Z) : list Z :=
  let '(t, offset) := e in
  let header := push_gguf_string header (sp_name t) in
  let header := header ++ to_le 4 (zlen (sp_dims t)) in
  let header := header ++ concat (to_le 8 <$> sp_dims t) in
  let header := header ++ to_le 4 (sp_type t) in
  header ++ to_le 8 offset.

Definition build_layout (version : Z) (metadata : list (list Z * GgufValue)) (tensors : list GgufTensorSpec) : gres GgufLayout :=
  if negb (version =? 2) && negb (version =? 3) then Err (UnsupportedVersion version) else
  let* alignment := metadata_alignment metadata in
  let* (offsets, relative_end) := for_each tensors (place_tensor alignment) ([], 0) in
  let header := [71; 71; 85; 70] ++ to_le 4 version ++ to_le 8 (zlen tensors) ++ to_le 8 (zlen metadata) in
  let* (header, total) := for_each metadata push_entry (header, 0) in
  let header := foldl (fun h e => push_info e h) header (zip tensors offsets) in
  let header_end := zlen header in
  let* tensor_data_offset := align_up header_end alignment in
  let* _ := ok_or (checked_add tensor_data_offset relative_end) DimsOverflow in
  Ok (MkLayout header tensor_data_offset offsets).

(** [Vec::resize(n, 0)]. *)
Definition resize (l : list Z) (n : Z) : list Z := take (Z.to_nat n) l ++ vec 0 (n - zlen l).

Definition spec_of (t : TensorOut) : GgufTensorSpec := MkSpec (to_name t) (to_dims t) (to_type t) (zlen (to_data t)).

Definition place_data (tensor_data_offset : Z) (e : TensorOut * Z) (out : list Z) : gres (list Z) :=
  let* absolute := ok_or (checked_add tensor_data_offset (snd e)) DimsOverflow in
  let out := if zlen out <? absolute then resize out absolute else out in
  Ok (out ++ to_data (fst e)).

Definition write_gguf (version : Z) (metadata : list (list Z * GgufValue)) (tensors : list TensorOut) : gres (list Z) :=
  let* layout := build_layout version metadata (spec_of <$> tensors) in
  let out := resize (gl_header layout) (gl_tensor_data_offset layout) in
  for_each (zip tensors (gl_offsets layout)) (place_data (gl_tensor_data_offset layout)) out.
