(* ===== verification/GgufRead.v ===== *)
(** * The GGUF reader is total and its results are well typed *)

From Stdlib Require Import ZArith Lia Bool.
From stdpp Require Import base list numbers.
From S2P Require Import Prelude Text Core FormatBase TwoBit LeCursor Corpus ByteMap Outcome Gguf.

#[local] Open Scope Z_scope.

(** * The cursor *)

Definition cur_ok (c : Cursor) : Prop :=
  0 <= cu_pos c <= zlen (cu_buf c) /\ zlen (cu_buf c) <= isize_max /\ bytes_ok (cu_buf c).
Definition cu_rest (c : Cursor) : list Z := sub (cu_buf c) (cu_pos c) (zlen (cu_buf c)).
Definition adv (c : Cursor) (n : Z) : Cursor := mkCursor (cu_buf c) (cu_pos c + n).

(** A later cursor on the same buffer. *)
Definition follows (c c' : Cursor) : Prop := cur_ok c' /\ cu_buf c' = cu_buf c /\ cu_pos c <= cu_pos c'.

Lemma follows_refl c : cur_ok c -> follows c c.
Proof. intros Hc. split; [done|]. split; [done|lia]. Qed.

Lemma follows_trans a b c : follows a b -> follows b c -> follows a c.
Proof. intros (_ & Hb & Hp) (Hc & Hb' & Hp'). split; [done|]. split; [congruence|lia]. Qed.

(** A chain of reads. *)
Ltac follow := first [eassumption|eapply follows_trans; [eassumption|follow]].

Create HintDb gguf.
#[export] Hint Resolve follows_refl : gguf.
#[export] Hint Extern 1 (cur_ok ?c) => match goal with H : follows _ c |- _ => exact (proj1 H) end : gguf.

Lemma cu_take_spec c n : cur_ok c -> is_u64 n -> cu_take c n =
  if n <=? zlen (cu_buf c) - cu_pos c then Ok (sub (cu_buf c) (cu_pos c) (cu_pos c + n), adv c n) else Err Truncated.
Proof.
  intros (Hp & Hm & _) Hn. unfold cu_take, checked_add, get_range, in_slice. unfold is_u64, isize_max, usize_max in *.
  destruct (Z.leb_spec n (zlen (cu_buf c) - cu_pos c)).
  - replace (_ <=? 18446744073709551615) with true by lia. cbn [ok_or bind]. by replace (_ && _ && _) with true by lia.
  - destruct (_ <=? 18446744073709551615); [|done]. cbn [ok_or bind]. by replace (_ && _ && _) with false by lia.
Qed.

Lemma cu_take_yields c n : cur_ok c -> is_u64 n ->
  yields (fun r => zlen (fst r) = n /\ bytes_ok (fst r) /\ follows c (snd r)) (cu_take c n).
Proof.
  intros Hc Hn. rewrite cu_take_spec by done. destruct (Z.leb_spec n (zlen (cu_buf c) - cu_pos c)); [|done].
  pose proof Hc as (Hp & Hm & Hb). unfold is_u64 in Hn. cbn. split; [rewrite zlen_sub; lia|]. split; [by apply bytes_ok_sub|].
  split; [|split; simpl; [done|lia]]. split; simpl; [lia|done].
Qed.

(** A fixed-width read is a [take] and a little-endian decode. *)
Definition cu_int (n : Z) (c : Cursor) : gres (Z * Cursor) := let* (s, c') := cu_take c n in Ok (from_le s, c').

Ltac cu_width n :=
  unfold cu_int; match goal with H : cur_ok ?c |- _ =>
    pose proof (cu_take_yields c n H ltac:(unfold is_u64; lia)) as Hy;
    destruct (cu_take c n) as [[s c']|e| |]; try done; destruct Hy as [Hl _]; cbn [fst] in Hl;
    unfold zlen in Hl; do 9 (try (destruct s as [|? s]; simpl in Hl; try lia)); try done
  end.

Lemma cu_u8_int c : cur_ok c -> cu_u8 c = cu_int 1 c.
Proof. intros Hc. unfold cu_u8. cu_width 1. simpl. by rewrite Z.add_0_r. Qed.
Lemma cu_u16_int c : cur_ok c -> cu_u16 c = cu_int 2 c.
Proof. intros Hc. unfold cu_u16. cu_width 2. Qed.
Lemma cu_u32_int c : cur_ok c -> cu_u32 c = cu_int 4 c.
Proof. intros Hc. unfold cu_u32. cu_width 4. Qed.
Lemma cu_u64_int c : cur_ok c -> cu_u64 c = cu_int 8 c.
Proof. intros Hc. unfold cu_u64. cu_width 8. Qed.

Lemma cu_int_yields n c : cur_ok c -> 0 <= n <= 8 -> yields (fun r => 0 <= fst r < 256 ^ n /\ follows c (snd r)) (cu_int n c).
Proof.
  intros Hc Hn. unfold cu_int. eapply yields_bind; [apply cu_take_yields; [done|unfold is_u64; lia]|].
  intros [s c'] (Hl & Hb & Hf). cbn in *. split; [|done]. rewrite <- Hl. by apply from_le_bound.
Qed.

Lemma cu_u8_yields c : cur_ok c -> yields (fun r => is_u8 (fst r) /\ follows c (snd r)) (cu_u8 c).
Proof. intros Hc. rewrite cu_u8_int by done. apply (cu_int_yields 1); [done|lia]. Qed.
Lemma cu_u16_yields c : cur_ok c -> yields (fun r => is_u16 (fst r) /\ follows c (snd r)) (cu_u16 c).
Proof. intros Hc. rewrite cu_u16_int by done. apply (cu_int_yields 2); [done|lia]. Qed.
Lemma cu_u32_yields c : cur_ok c -> yields (fun r => is_u32 (fst r) /\ follows c (snd r)) (cu_u32 c).
Proof. intros Hc. rewrite cu_u32_int by done. apply (cu_int_yields 4); [done|lia]. Qed.
Lemma cu_u64_yields c : cur_ok c -> yields (fun r => is_u64 (fst r) /\ follows c (snd r)) (cu_u64 c).
Proof. intros Hc. rewrite cu_u64_int by done. apply (cu_int_yields 8); [done|lia]. Qed.

(** A Rust string no longer than the reader accepts. *)
Definition str_ok (s : list Z) : Prop := bytes_ok s /\ utf8_valid s = true /\ zlen s <= MAX_STRING_LEN.

Lemma gguf_string_yields c : cur_ok c -> yields (fun r => str_ok (fst r) /\ follows c (snd r)) (gguf_string c).
Proof.
  intros Hc. unfold gguf_string. eapply yields_bind; [by apply cu_u64_yields|]. intros [len c1] [Hl F1]. cbn [fst snd] in *.
  yield_if; [done|]. eapply yields_bind; [apply cu_take_yields; [eauto with gguf|done]|]. intros [s c2] (Hz & Hb & F2). cbn [fst snd] in *.
  yield_if; [|done]. split; [|by eapply follows_trans]. split; [done|]. split; [done|]. cbn [fst]. lia.
Qed.

(** * Values *)

(** The type of a value: widths of the integers, valid strings, and arrays of one
    element type nested at most [d] deep. *)
Inductive typed : nat -> Z -> GgufValue -> Prop :=
| T_U8 d v : is_u8 v -> typed d 0 (VU8 v)
| T_I8 d v : -128 <= v < 128 -> typed d 1 (VI8 v)
| T_U16 d v : is_u16 v -> typed d 2 (VU16 v)
| T_I16 d v : -32768 <= v < 32768 -> typed d 3 (VI16 v)
| T_U32 d v : is_u32 v -> typed d 4 (VU32 v)
| T_I32 d v : -2147483648 <= v < 2147483648 -> typed d 5 (VI32 v)
| T_F32 d v : is_u32 v -> typed d 6 (VF32 v)
| T_Bool d b : typed d 7 (VBool b)
| T_String d s : str_ok s -> typed d 8 (VString s)
| T_Array d child items : 0 <= child <= 12 -> Forall (typed d child) items -> typed (S d) 9 (VArray items)
| T_U64 d v : is_u64 v -> typed d 10 (VU64 v)
| T_I64 d v : -9223372036854775808 <= v < 9223372036854775808 -> typed d 11 (VI64 v)
| T_F64 d v : is_u64 v -> typed d 12 (VF64 v).

Lemma typed_tag d t v : typed d t v -> value_type_tag v = t.
Proof. by destruct 1. Qed.

(** Array elements at every level. *)
Fixpoint elements (v : GgufValue) : Z :=
  match v with VArray items => zlen items + zsum (elements <$> items) | _ => 0 end.

Lemma as_signed_range n x : 0 < n -> 0 <= x < 2 ^ n -> - 2 ^ (n - 1) <= as_signed n x < 2 ^ (n - 1).
Proof.
  intros Hn Hx. assert (E : 2 ^ n = 2 * 2 ^ (n - 1)) by (rewrite <- Z.pow_succ_r by lia; f_equal; lia).
  unfold as_signed. destruct (Z.ltb_spec x (2 ^ (n - 1))); lia.
Qed.

(** What one value read establishes. *)
Definition value_read (d : nat) (t total : Z) (c : Cursor) (r : GgufValue * Cursor * Z) : Prop :=
  typed d t (fst (fst r)) /\ follows c (snd (fst r)) /\ snd r = total + elements (fst (fst r)) /\
  total <= snd r /\ (0 <= total <= MAX_METADATA_ARRAY_ELEMENTS -> snd r <= MAX_METADATA_ARRAY_ELEMENTS).

Ltac read_scalar lem :=
  eapply yields_bind; [by apply lem|]; let v := fresh "v" in let c' := fresh "c'" in let Hv := fresh "Hv" in let F := fresh "F" in
  intros [v c'] [Hv F]; cbn [fst snd] in *.

Ltac scalar_done := unfold value_read; cbn [yields fst snd elements]; split; [constructor|split; [done|lia]].

Lemma read_items_yields (read : Cursor -> Z -> gres (GgufValue * Cursor * Z)) d t c total count :
  cur_ok c -> 0 <= total <= MAX_METADATA_ARRAY_ELEMENTS -> 0 <= count ->
  (forall c' total', cur_ok c' -> 0 <= total' <= MAX_METADATA_ARRAY_ELEMENTS -> yields (value_read d t total' c') (read c' total')) ->
  yields (fun st : list GgufValue * Cursor * Z => let '(items, c', total') := st in
      Forall (typed d t) items /\ zlen items = count /\ follows c c' /\ total' = total + zsum (elements <$> items) /\
      total <= total' <= MAX_METADATA_ARRAY_ELEMENTS)
    (for_range 0 count (fun _ st => let '(items, cur, total) := st in
      let* (v, cur, total) := read cur total in Ok (items ++ [v], cur, total)) ([], c, total)).
Proof.
  intros Hc Ht Hn Hread. apply (yields_for_range (fun i (st : list GgufValue * Cursor * Z) => let '(items, c', total') := st in
      Forall (typed d t) items /\ zlen items = i /\ follows c c' /\ total' = total + zsum (elements <$> items) /\
      total <= total' <= MAX_METADATA_ARRAY_ELEMENTS)); [done| |].
  - split; [constructor|]. split; [done|]. split; [by apply follows_refl|]. simpl. lia.
  - intros i [[items c'] total'] Hi (HF & Hz & Hf & Htot & Hle). eapply yields_bind; [apply Hread; [eauto with gguf|lia]|].
    intros [[v c2] t2] (Hv & F2 & Hs & Hge & Hmax). cbn [fst snd] in *. cbn [yields].
    split; [apply Forall_app; split; [done|by constructor]|]. split; [rewrite zlen_app; change (zlen [v]) with 1; lia|].
    split; [by eapply follows_trans|]. rewrite fmap_app, zsum_app. cbn. specialize (Hmax ltac:(lia)). lia.
Qed.

Lemma read_value_unknown f c t depth total : 12 < t -> read_value (S f) c t depth total = Err (UnknownValueType t).
Proof. intros Ht. destruct t as [|p|p]; [lia| |lia]. do 4 (try destruct p as [p|p|]); first [done|lia]. Qed.

Lemma read_value_yields d : forall c t depth total, depth + Z.of_nat d = 8 -> cur_ok c -> is_u32 t ->
  0 <= total <= MAX_METADATA_ARRAY_ELEMENTS -> yields (value_read d t total c) (read_value (S d) c t depth total).
Proof.
  induction d as [|d IH]; intros c t depth total Hd Hc Ht Htot; unfold is_u32 in Ht.
  all: destruct (decide (12 < t)) as [Hun|Hkn]; [by rewrite read_value_unknown|].
  all: assert (Ht' : t = 0 \/ t = 1 \/ t = 2 \/ t = 3 \/ t = 4 \/ t = 5 \/ t = 6 \/ t = 7 \/ t = 8 \/ t = 9 \/ t = 10 \/ t = 11 \/ t = 12) by lia.
  all: destruct_or! Ht'; subst t; cbn [read_value]; fold read_value.
  all: try (read_scalar cu_u8_yields; first [yield_if; [done|]; scalar_done | scalar_done]; first [done|apply (as_signed_range 8); [lia|done]]).
  all: try (read_scalar cu_u16_yields; scalar_done; first [done|apply (as_signed_range 16); [lia|done]]).
  all: try (read_scalar cu_u32_yields; scalar_done; first [done|apply (as_signed_range 32); [lia|done]]).
  all: try (read_scalar cu_u64_yields; scalar_done; first [done|apply (as_signed_range 64); [lia|done]]).
  all: try (read_scalar gguf_string_yields; scalar_done; done).
  - by replace (MAX_METADATA_DEPTH <=? depth) with true by (unfold MAX_METADATA_DEPTH; lia).
  - yield_if; [done|]. read_scalar cu_u32_yields. yield_if; [done|].
    eapply yields_bind; [apply cu_u64_yields; eauto with gguf|]. intros [count c2] [Hcount F2]. cbn [fst snd] in *.
    yield_if; [done|]. eapply yields_bind; [apply yields_ok_or; intros a Ha; exact Ha|]. intros tot Htot2.
    apply checked_add_inv in Htot2 as [-> _]. yield_if; [done|]. unfold is_u64, is_u32 in *.
    eapply yields_bind; [apply (read_items_yields (fun cur total => read_value (S d) cur v (depth + 1) total) d v c2 (total + count) count)|].
    + eauto with gguf.
    + lia.
    + lia.
    + intros c3 t3 Hc3 Ht3. apply IH; [lia|done|unfold is_u32; lia|done].
    + intros [[items c3] t3] (HF & Hz & F3 & -> & Hle). unfold value_read. cbn [fst snd yields elements].
      split; [by apply (T_Array d v); [lia|]|]. split; [follow|]. lia.
Qed.

(** * The tables *)

Lemma product_yields init dims : 0 <= init <= usize_max -> Forall is_u64 dims -> yields (fun n => 0 <= n <= usize_max) (product_u64 init dims).
Proof.
  intros Hi Hd. apply (yields_for_each (fun _ n => 0 <= n <= usize_max)); [done|]. intros pre d post n -> Hn.
  apply Forall_app in Hd as [_ Hd]. apply list.Forall_cons in Hd as [Hd _]. unfold is_u64 in Hd.
  apply yields_ok_or. intros a Ha. apply checked_mul_inv in Ha as [-> Ha]. nia.
Qed.

Lemma layout_pos t s n : type_block_layout t = Some (s, n) -> 0 < s <= 66 /\ 0 < n.
Proof. destruct t as [|p|p]; [intros [= <- <-]; lia| |done]. do 6 (try destruct p as [p|p|]); simpl; first [done|intros [= <- <-]; lia]. Qed.

Lemma row_ok (dims : list Z) : Forall is_u64 dims -> is_u64 (default 1 (head dims)) /\ Forall is_u64 (tail dims).
Proof. intros [|d ds Hd Hds]; simpl; [split; [unfold is_u64; lia|constructor]|done]. Qed.

Lemma tensor_n_bytes_yields t dims : Forall is_u64 dims -> yields (fun n => 0 <= n <= usize_max) (tensor_n_bytes t dims).
Proof.
  intros Hd. unfold tensor_n_bytes. destruct (type_block_layout t) as [[s n]|] eqn:Hl; [|cbn; unfold usize_max; lia].
  apply layout_pos in Hl as [Hs Hn]. destruct (row_ok dims Hd) as [Hr Htl]. unfold is_u64 in Hr. yield_if; [done|].
  eapply yields_bind; [apply product_yields; [unfold usize_max; lia|done]|]. intros rows [Hrows _].
  pose proof (Z.div_pos (default 1 (head dims)) n ltac:(lia) Hn) as Hq.
  eapply yields_bind; [apply yields_ok_or; intros a Ha; exact Ha|]. intros rb Hrb. apply checked_mul_inv in Hrb as [-> Hrb].
  apply yields_ok_or. intros a Ha. apply checked_mul_inv in Ha as [-> Ha]. nia.
Qed.

Lemma align_up_yields pos a : 0 <= pos -> 0 < a -> yields (fun x => pos <= x <= usize_max /\ (a | x)) (align_up pos a).
Proof.
  intros Hp Ha. unfold align_up. replace (a =? 0) with false by lia. eapply yields_bind; [apply yields_ok_or; intros b Hb; exact Hb|].
  intros b Hb. apply checked_add_inv in Hb as [-> Hb]. cbn. pose proof (Z.mod_pos_bound (pos + (a - 1)) a Ha) as Hm.
  split; [lia|]. apply Z.mod_divide; [lia|]. by rewrite Zminus_mod_idemp_r, Z.sub_diag.
Qed.

Definition entry_ok (e : list Z * GgufValue) : Prop := str_ok (fst e) /\ exists t, 0 <= t <= 12 /\ typed 8 t (snd e).

Lemma typed_range d t v : typed d t v -> 0 <= t <= 12.
Proof. destruct 1; lia. Qed.

Lemma elements_nonneg : forall v, 0 <= elements v.
Proof.
  fix IH 1. intros [| | | | | | | | |items| | |]; cbn [elements]; try done.
  apply Z.add_nonneg_nonneg; [apply zlen_nonneg|].
  induction items as [|v items IHl]; [done|]. rewrite fmap_cons. unfold zsum in *. cbn [foldr]. pose proof (IH v). lia.
Qed.

Definition metadata_elements (m : list (list Z * GgufValue)) : Z := zsum ((fun e => elements (snd e)) <$> m).

Lemma metadata_elements_insert m k v : metadata_elements (bt_insert m k v) <= metadata_elements m + elements v.
Proof.
  unfold metadata_elements, zsum. induction m as [|[k' v'] m IH]; [simpl; lia|]. pose proof (elements_nonneg v') as Hv.
  cbn [bt_insert]. destruct (bytes_cmp k k'); rewrite !fmap_cons; cbn [foldr snd]; lia.
Qed.

Definition metadata_read (c : Cursor) (st : list (list Z * GgufValue) * Cursor * Z) : Prop :=
  let '(m, c', total) := st in
  bt_ok m /\ Forall entry_ok m /\ follows c c' /\ metadata_elements m <= total /\ 0 <= total <= MAX_METADATA_ARRAY_ELEMENTS.

Lemma read_entry_yields c i st : metadata_read c st -> yields (metadata_read c) (read_entry i st).
Proof.
  destruct st as [[m c0] total]. intros (Hm & He & F0 & Hs & Ht). unfold read_entry.
  eapply yields_bind; [apply gguf_string_yields; eauto with gguf|]. intros [key c1] [Hk F1]. cbn [fst snd] in *.
  eapply yields_bind; [apply cu_u32_yields; eauto with gguf|]. intros [t c2] [Htag F2]. cbn [fst snd] in *.
  eapply yields_bind; [apply (read_value_yields 8 c2 t 0 total); [lia|eauto with gguf|done|done]|].
  intros [[v c3] t3] (Hv & F3 & Htot & Hge & Hmax). cbn [fst snd] in *. cbn [yields metadata_read].
  assert (Hent : entry_ok (key, v)) by (split; [done|]; exists t; split; [by eapply typed_range|done]).
  split; [by apply bt_insert_ok|]. split; [apply bt_insert_Forall; [|done|done]; intros k' Hc; apply bytes_cmp_eq in Hc as <-; done|].
  split; [follow|]. pose proof (metadata_elements_insert m key v). specialize (Hmax Ht). lia.
Qed.

Definition raw_ok (r : RawTensor) : Prop :=
  let '(name, dims, ggml_type, offset) := r in
  str_ok name /\ zlen dims <= MAX_DIMS /\ Forall is_u64 dims /\ is_u32 ggml_type /\ is_u64 offset.

Lemma read_dims_yields c n : cur_ok c -> 0 <= n ->
  yields (fun st : list Z * Cursor => zlen (fst st) = n /\ Forall is_u64 (fst st) /\ follows c (snd st)) (for_range 0 n read_dim ([], c)).
Proof.
  intros Hc Hn. apply (yields_for_range (fun i (st : list Z * Cursor) => zlen (fst st) = i /\ Forall is_u64 (fst st) /\ follows c (snd st))); [done| |].
  - split; [done|]. split; [constructor|by apply follows_refl].
  - intros i [ds c0] Hi (Hz & Hd & F). cbn [fst snd] in *. unfold read_dim. cbn [fst snd].
    eapply yields_bind; [apply cu_u64_yields; eauto with gguf|]. intros [d c1] [Hd1 F1]. cbn [fst snd yields] in *.
    split; [rewrite zlen_app; change (zlen [d]) with 1; lia|]. split; [apply Forall_app; split; [done|by constructor]|follow].
Qed.

Lemma read_raw_yields c i st : Forall raw_ok (fst st) -> follows c (snd st) ->
  yields (fun st => Forall raw_ok (fst st) /\ follows c (snd st)) (read_raw i st).
Proof.
  destruct st as [raw c0]. cbn [fst snd]. intros Hr F0. unfold read_raw.
  eapply yields_bind; [apply gguf_string_yields; eauto with gguf|]. intros [name c1] [Hname F1]. cbn [fst snd] in *.
  eapply yields_bind; [apply cu_u32_yields; eauto with gguf|]. intros [n c2] [Hn F2]. cbn [fst snd] in *. unfold is_u32 in Hn. yield_if; [done|].
  eapply yields_bind; [apply read_dims_yields; [eauto with gguf|lia]|]. intros [dims c3] (Hz & Hd & F3). cbn [fst snd] in *.
  eapply yields_bind; [apply cu_u32_yields; eauto with gguf|]. intros [t c4] [Ht F4]. cbn [fst snd] in *.
  eapply yields_bind; [apply cu_u64_yields; eauto with gguf|]. intros [off c5] [Hoff F5]. cbn [fst snd yields] in *.
  split; [|follow]. apply Forall_app. split; [done|]. constructor; [|constructor].
  split; [done|]. split; [lia|]. done.
Qed.

(** An accepted tensor: sized by its type, inside the data section. *)
Record info_ok (data_len : Z) (t : TensorInfo) : Prop := {
  io_name : str_ok (ti_name t);
  io_dims : zlen (ti_dims t) <= MAX_DIMS /\ Forall is_u64 (ti_dims t);
  io_count : returns (element_count t) /\ exists n, element_count t = Ok n;
  io_bytes : tensor_n_bytes (ti_ggml_type t) (ti_dims t) = Ok (ti_n_bytes t);
  io_span : 0 <= ti_offset t /\ 0 <= ti_n_bytes t /\ ti_offset t + ti_n_bytes t <= data_len }.

Lemma size_tensor_yields len r ts : raw_ok r -> Forall (info_ok len) ts -> yields (Forall (info_ok len)) (size_tensor len r ts).
Proof.
  destruct r as [[[name dims] t] off]. intros (Hn & Hz & Hd & Ht & Ho) Hts. unfold size_tensor.
  pose proof (product_yields 1 dims ltac:(unfold usize_max; lia) Hd) as Hp. destruct (product_u64 1 dims) as [n|e| |] eqn:Ep; try done. cbn [bind].
  pose proof (tensor_n_bytes_yields t dims Hd) as Hb. destruct (tensor_n_bytes t dims) as [nb|e| |] eqn:Eb; try done. cbn [bind yields] in *.
  unfold is_u64 in Ho. apply (yields_bind (fun _ => off + nb <= len)).
  - yield_if.
    + eapply yields_bind; [apply yields_ok_or; intros a Ha; exact Ha|]. intros stop Hs. apply checked_add_inv in Hs as [-> _].
      eapply yields_impl; [apply yields_ensure|]. simpl. lia.
    + eapply yields_impl; [apply yields_ensure|]. simpl. lia.
  - intros _ Hs. cbn [yields]. apply Forall_app. split; [done|]. constructor; [|constructor].
    split; cbn [ti_name ti_dims ti_ggml_type ti_offset ti_n_bytes]; [done|done| |done|lia]. unfold element_count. cbn [ti_dims]. rewrite Ep. split; [done|by exists n].
Qed.

(** * The file *)

(** A well-typed file over a buffer of [len] bytes. *)
Record file_ok (len : Z) (f : GgufFile) : Prop := {
  fo_version : gf_version f = 2 \/ gf_version f = 3;
  fo_sorted : bt_ok (gf_metadata f);
  fo_entries : Forall entry_ok (gf_metadata f);
  fo_elements : metadata_elements (gf_metadata f) <= MAX_METADATA_ARRAY_ELEMENTS;
  fo_aligned : 0 < gguf_alignment f /\ (8 | gguf_alignment f) /\ (gguf_alignment f | gf_tensor_data_offset f);
  fo_tensors : Forall (info_ok (Z.max (len - gf_tensor_data_offset f) 0)) (gf_tensors f) }.

Lemma alignment_yields m : Forall entry_ok m -> yields (fun a => 0 < a /\ (8 | a)) (metadata_alignment m).
Proof.
  intros Hm. unfold metadata_alignment. destruct (bt_get m ALIGNMENT_KEY) as [v|] eqn:Hg; [|split; [done|]; by exists 4].
  assert (Hv : exists t, typed 8 t v).
  { clear -Hm Hg. induction Hm as [|[k w] m [_ (t & _ & Ht)] _ IH]; [done|]. cbn [bt_get] in Hg.
    destruct (bytes_cmp ALIGNMENT_KEY k); [injection Hg as <-; by exists t|done|by apply IH]. }
  destruct Hv as [t Hv]. destruct v; try done. inversion Hv as [| | | |d v' Hu| | | | | | | |]; subst. unfold is_u32 in Hu.
  yield_if; [|done]. apply andb_true_iff in Hif as [H0 H8]. cbn. split; [lia|]. apply Z.mod_divide; lia.
Qed.

Lemma read_gguf_yields buf : bytes_ok buf -> zlen buf <= isize_max -> yields (file_ok (zlen buf)) (read_gguf buf).
Proof.
  intros Hb Hl. pose proof (zlen_nonneg buf) as H0. unfold read_gguf.
  assert (Hc : cur_ok (cursor_new buf)) by (split; simpl; [lia|done]).
  eapply yields_bind; [by apply cu_take_yields|]. intros [magic c1] (_ & _ & F1). cbn [fst snd] in *. yield_if; [done|].
  eapply yields_bind; [apply cu_u32_yields; eauto with gguf|]. intros [version c2] [Hv F2]. cbn [fst snd] in *. yield_if; [done|].
  eapply yields_bind; [apply cu_u64_yields; eauto with gguf|]. intros [tc c3] [Htc F3]. cbn [fst snd] in *.
  eapply yields_bind; [apply cu_u64_yields; eauto with gguf|]. intros [mc c4] [Hmc F4]. cbn [fst snd] in *. yield_if; [done|].
  unfold is_u64 in Htc, Hmc. eapply yields_bind.
  { apply (yields_for_range (fun _ => metadata_read c4)); [lia| |intros i st _; apply read_entry_yields].
    split; [done|]. split; [constructor|]. split; [eauto with gguf|]. cbn. unfold MAX_METADATA_ARRAY_ELEMENTS. lia. }
  intros [[m c5] total] (Hm & He & F5 & Hs & Ht). pose proof (alignment_yields m He) as Ha.
  destruct (metadata_alignment m) as [a|e| |] eqn:Ea; try done. cbn [bind]. destruct Ha as [Ha H8].
  eapply yields_bind.
  { apply (yields_for_range (fun _ st => Forall raw_ok (fst st) /\ follows c5 (snd st))); [lia| |].
    - split; [constructor|]. cbn [snd]. apply follows_refl. eauto with gguf.
    - intros i st _ [Hr F]. by apply read_raw_yields. }
  intros [raw c6] [Hraw F6]. cbn [fst snd] in *.
  eapply yields_bind; [apply align_up_yields; [apply F6|done]|]. intros off [Hoff Hdiv].
  eapply yields_bind.
  { apply (yields_for_each (fun _ => Forall (info_ok (saturating_sub (zlen buf) off)))); [constructor|].
    intros pre r post ts E Hts. apply size_tensor_yields; [|done]. rewrite E in Hraw. apply Forall_app in Hraw as [_ Hraw].
    by apply list.Forall_cons in Hraw as [Hraw _]. }
  intros ts Hts. cbn [yields]. split; cbn [gf_version gf_metadata gf_tensors gf_tensor_data_offset]; [lia|done|done|lia| |done].
  unfold gguf_alignment. cbn. by rewrite Ea.
Qed.

(** C26: the GGUF reader is total and its results are well typed. On every byte string
    [read_gguf] returns a file or an error, never a panic or an exhausted loop; of a file
    the version is 2 or 3, the keys are sorted, every value is within its declared width
    with arrays of one element type nested at most eight deep and at most sixteen million
    array elements in all, the data section is aligned as declared, and every tensor has
    the size of its type and lies inside the buffer. *)
Theorem gguf_read_typed buf : bytes_ok buf -> zlen buf <= isize_max ->
  returns (read_gguf buf) /\ forall f, read_gguf buf = Ok f -> file_ok (zlen buf) f.
Proof.
  intros Hb Hl. pose proof (read_gguf_yields buf Hb Hl) as Hy. split; [by eapply yields_returns|].
  intros f Hf. by eapply yields_Ok_inv.
Qed.

Lemma gguf_read_typed_witness :
  let buf := GGUF_MAGIC ++ to_le 4 3 ++ to_le 8 0 ++ to_le 8 1 ++ to_le 8 1 ++ [97] ++ to_le 4 1 ++ [255] in
  returns (read_gguf buf) /\ forall f, read_gguf buf = Ok f -> file_ok (zlen buf) f.
Proof. apply gguf_read_typed; [by apply bytes_ok_check|by vm_compute]. Defined.
