(* ===== verification/GgufWrite.v ===== *)
(** * The GGUF reader inverts the writer *)

From Stdlib Require Import ZArith Lia Bool.
From stdpp Require Import base list numbers.
From S2P Require Import Prelude Text Core FormatBase TwoBit LeCursor Corpus ByteMap Outcome Gguf GgufRead.

#[local] Open Scope Z_scope.

(** * Reading what lies ahead *)

(** The unread bytes are [x] and then [rest]. *)
Definition ahead (c : Cursor) (x rest : list Z) : Prop := cur_ok c /\ cu_rest c = x ++ rest.

Lemma ahead_len c x rest : ahead c x rest -> zlen x <= zlen (cu_buf c) - cu_pos c.
Proof.
  intros [(Hp & _) Hr]. assert (H : zlen (cu_rest c) = zlen (cu_buf c) - cu_pos c) by (unfold cu_rest; rewrite zlen_sub; lia).
  rewrite Hr, zlen_app in H. pose proof (zlen_nonneg rest). lia.
Qed.

Lemma ahead_sub c x rest : ahead c x rest -> sub (cu_buf c) (cu_pos c) (cu_pos c + zlen x) = x.
Proof.
  intros Ha. pose proof (ahead_len c x rest Ha) as Hl. destruct Ha as [(Hp & _) Hr]. pose proof (zlen_nonneg x) as Hx.
  assert (E : sub (cu_rest c) 0 (zlen x) = x) by (rewrite Hr; apply sub_app_l). rewrite <- E at 2. unfold cu_rest.
  rewrite sub_sub by lia. f_equal; lia.
Qed.

Lemma ahead_adv c x y rest : ahead c (x ++ y) rest -> ahead (adv c (zlen x)) y rest.
Proof.
  intros Ha. pose proof (ahead_len _ _ _ Ha) as Hl. rewrite zlen_app in Hl. pose proof (zlen_nonneg x) as Hx. pose proof (zlen_nonneg y) as Hy.
  destruct Ha as [(Hp & Hm & Hb) Hr]. split; [split; simpl; [lia|done]|]. unfold cu_rest, adv in *. cbn [cu_buf cu_pos].
  rewrite <- (sub_join _ (cu_pos c) (cu_pos c + zlen x)) in Hr by lia. rewrite <- app_assoc in Hr.
  apply app_inj_1 in Hr as [_ Hr]; [done|]. apply Nat2Z.inj. change (zlen (sub (cu_buf c) (cu_pos c) (cu_pos c + zlen x)) = zlen x).
  rewrite zlen_sub; lia.
Qed.

Lemma ahead_split c x y rest : ahead c (x ++ y) rest -> ahead c x (y ++ rest).
Proof. intros [Hc Hr]. split; [done|]. by rewrite app_assoc. Qed.

Lemma adv_adv c a b : adv (adv c a) b = adv c (a + b).
Proof. unfold adv. cbn. f_equal. lia. Qed.

Lemma adv_0 c : adv c 0 = c.
Proof. destruct c. unfold adv. cbn. f_equal. lia. Qed.

(** [p] reads [x] as [v]. *)
Definition parses {A} (p : Cursor -> gres (A * Cursor)) (x : list Z) (v : A) : Prop :=
  forall c rest, ahead c x rest -> p c = Ok (v, adv c (zlen x)).

Lemma parses_take x : zlen x <= usize_max -> parses (fun c => cu_take c (zlen x)) x x.
Proof.
  intros Hx c rest Ha. pose proof (zlen_nonneg x). rewrite cu_take_spec by (apply Ha || unfold is_u64, usize_max in *; lia).
  pose proof (ahead_len _ _ _ Ha). replace (_ <=? _) with true by lia. by rewrite (ahead_sub c x rest Ha).
Qed.

Lemma from_le_to_le n : forall v, from_le (to_le n v) = v mod 256 ^ Z.of_nat n.
Proof.
  induction n as [|n IH]; intros v; [by rewrite Z.mod_1_r|]. simpl to_le. simpl from_le.
  rewrite IH, Nat2Z.inj_succ, Z.pow_succ_r, Z.rem_mul_r by lia. done.
Qed.

Lemma parses_int (n : nat) x : (n <= 8)%nat -> parses (cu_int (Z.of_nat n)) (to_le n x) (x mod 256 ^ Z.of_nat n).
Proof.
  intros Hn c rest Ha. unfold cu_int. pose proof (parses_take (to_le n x)) as H. rewrite zlen_to_le in H.
  rewrite (H ltac:(unfold usize_max; lia) c rest Ha). cbn [bind]. by rewrite from_le_to_le, zlen_to_le.
Qed.

Lemma parses_u8 x : is_u8 x -> parses cu_u8 [x] x.
Proof.
  intros Hx c rest Ha. rewrite cu_u8_int by apply Ha. pose proof (parses_int 1 x ltac:(lia)) as H. change (to_le 1 x) with [x mod 256] in H.
  change (256 ^ Z.of_nat 1) with 256 in H. unfold is_u8 in Hx. rewrite Z.mod_small in H by lia. by apply (H c rest).
Qed.

Lemma parses_u16 x : parses cu_u16 (to_le 2 x) (x mod 65536).
Proof. intros c rest Ha. rewrite cu_u16_int by apply Ha. by apply (parses_int 2 x ltac:(lia) c rest). Qed.
Lemma parses_u32 x : parses cu_u32 (to_le 4 x) (x mod 4294967296).
Proof. intros c rest Ha. rewrite cu_u32_int by apply Ha. by apply (parses_int 4 x ltac:(lia) c rest). Qed.
Lemma parses_u64 x : parses cu_u64 (to_le 8 x) (x mod 18446744073709551616).
Proof. intros c rest Ha. rewrite cu_u64_int by apply Ha. by apply (parses_int 8 x ltac:(lia) c rest). Qed.

Definition string_bytes (s : list Z) : list Z := to_le 8 (zlen s) ++ s.

Lemma parses_string s : str_ok s -> parses gguf_string (string_bytes s) s.
Proof.
  intros (Hb & Hu & Hl) c rest Ha. unfold gguf_string. pose proof (zlen_nonneg s) as H0. unfold MAX_STRING_LEN in Hl.
  rewrite (parses_u64 (zlen s) c (s ++ rest)) by (by apply ahead_split). cbn [bind]. rewrite Z.mod_small by lia.
  replace (MAX_STRING_LEN <? zlen s) with false by (unfold MAX_STRING_LEN; lia).
  rewrite (parses_take s ltac:(unfold usize_max; lia) _ rest) by (by apply ahead_adv). cbn [bind]. rewrite Hu, adv_adv.
  unfold string_bytes. by rewrite zlen_app.
Qed.

Lemma as_signed_mod n x : 0 < n -> - 2 ^ (n - 1) <= x < 2 ^ (n - 1) -> as_signed n (x mod 2 ^ n) = x.
Proof.
  intros Hn Hx. assert (E : 2 ^ n = 2 * 2 ^ (n - 1)) by (rewrite <- Z.pow_succ_r by lia; f_equal; lia).
  unfold as_signed. destruct (Z.le_gt_cases 0 x) as [Hp|Hp].
  - rewrite Z.mod_small by lia. by replace (x <? _) with true by lia.
  - rewrite <- (Z.mod_add x 1 (2 ^ n)), Z.mul_1_l, Z.mod_small by lia. replace (_ <? _) with false by lia. lia.
Qed.

(** * Values *)

Definition child_tag (items : list GgufValue) : Z := match items with [] => 0 | v :: _ => value_type_tag v end.

(** The bytes of a value, its own type tag excepted. *)
Fixpoint payload (v : GgufValue) : list Z :=
  match v with
  | VU8 x => [x]
  | VI8 x => [x mod 256]
  | VU16 x | VI16 x => to_le 2 x
  | VU32 x | VI32 x | VF32 x => to_le 4 x
  | VBool b => [Z.b2z b]
  | VString s => string_bytes s
  | VU64 x | VI64 x | VF64 x => to_le 8 x
  | VArray items => to_le 4 (child_tag items) ++ to_le 8 (zlen items) ++ concat (payload <$> items)
  end.

(** What the Rust types guarantee of a value, and strings the reader accepts. *)
Inductive rust_value : GgufValue -> Prop :=
| R_scalar t v : typed 0 t v -> rust_value v
| R_array items : Forall rust_value items -> rust_value (VArray items).

Lemma value_ind' (P : GgufValue -> Prop) :
  (forall v, (forall items, v <> VArray items) -> P v) -> (forall items, Forall P items -> P (VArray items)) -> forall v, P v.
Proof.
  intros Hs Ha. fix IH 1. intros [| | | | | | | | |items| | |]; try (apply Hs; congruence).
  apply Ha. induction items as [|v items IHl]; constructor; [apply IH|done].
Qed.

Lemma push_array out items depth total : push_value_payload out (VArray items) depth total =
  if MAX_METADATA_DEPTH <=? depth then Err DimsOverflow else
  let* total := ok_or (checked_add total (zlen items)) DimsOverflow in
  if MAX_METADATA_ARRAY_ELEMENTS <? total then Err DimsOverflow else
  for_each items (fun item st => if negb (value_type_tag item =? child_tag items) then Err (UnknownValueType 9)
    else push_value_payload (fst st) item (depth + 1) (snd st)) ((out ++ to_le 4 (child_tag items)) ++ to_le 8 (zlen items), total).
Proof.
  cbn [push_value_payload]. destruct (_ <=? depth); [done|]. destruct (ok_or _ _) as [tot| | |]; cbn [bind]; try done.
  destruct (_ <? tot); [done|].
  assert (H : forall tag its o tot, (fix push_items (items : list GgufValue) (out : list Z) (total : Z) : gres (list Z * Z) :=
        match items with
        | [] => Ok (out, total)
        | item :: items' =>
            if negb (value_type_tag item =? tag) then Err (UnknownValueType 9) else
            let* (out, total) := push_value_payload out item (depth + 1) total in push_items items' out total
        end) its o tot = for_each its (fun item st => if negb (value_type_tag item =? tag) then Err (UnknownValueType 9)
    else push_value_payload (fst st) item (depth + 1) (snd st)) (o, tot)); [|apply H].
  intros tag. induction its as [|v its IH]; intros o t; [done|]. cbn [for_each fst snd]. destruct (negb _); [done|].
  destruct (push_value_payload o v (depth + 1) t) as [[o1 t1]| | |]; cbn [bind]; [apply IH|done..].
Qed.

Lemma typed_scalar d t v : typed 0 t v -> typed d t v.
Proof. intros H. inversion H; subst; by constructor. Qed.

Lemma zsum_cons x l : zsum (x :: l) = x + zsum l.
Proof. done. Qed.

(** A successful push appends the payload, counts the elements and establishes the type. *)
Definition pushes (v : GgufValue) : Prop := forall out depth total r, 0 <= depth <= 8 -> 0 <= total ->
  push_value_payload out v depth total = Ok r ->
  r = (out ++ payload v, total + elements v) /\ typed (Z.to_nat (8 - depth)) (value_type_tag v) v /\
  (total <= MAX_METADATA_ARRAY_ELEMENTS -> total + elements v <= MAX_METADATA_ARRAY_ELEMENTS).

Lemma push_items_Ok tag depth its : Forall pushes its -> 0 <= depth < 8 -> forall out total r, 0 <= total ->
  for_each its (fun item st => if negb (value_type_tag item =? tag) then Err (UnknownValueType 9)
    else push_value_payload (fst st) item (depth + 1) (snd st)) (out, total) = Ok r ->
  r = (out ++ concat (payload <$> its), total + zsum (elements <$> its)) /\ Forall (typed (Z.to_nat (8 - (depth + 1))) tag) its /\
  (total <= MAX_METADATA_ARRAY_ELEMENTS -> total + zsum (elements <$> its) <= MAX_METADATA_ARRAY_ELEMENTS).
Proof.
  intros Hits Hd. induction Hits as [|v its Hv _ IH]; intros out total r Ht Hr.
  - injection Hr as <-. cbn. rewrite app_nil_r, Z.add_0_r. split; [done|]. split; [constructor|done].
  - cbn [for_each fst snd] in Hr. destruct (Z.eqb_spec (value_type_tag v) tag) as [Htag|]; [|done]. cbn [negb] in Hr.
    apply bind_Ok_inv in Hr as ([o1 t1] & H1 & H2). apply Hv in H1 as (E & Hty & Hb); [|lia|done]. injection E as -> ->.
    pose proof (elements_nonneg v). apply IH in H2 as (-> & Hall & Hb2); [|lia]. rewrite !fmap_cons. cbn [concat]. rewrite zsum_cons.
    split; [f_equal; [by rewrite <- app_assoc|lia]|]. split; [constructor; [by rewrite <- Htag|done]|]. lia.
Qed.

Lemma push_payload v : rust_value v -> pushes v.
Proof.
  induction v as [v Hsc|items IH] using value_ind'; intros Hv out depth total r Hd Ht Hr.
  - inversion Hv as [t ? Hty|]; subst; [|by edestruct Hsc].
    assert (Hel : elements v = 0) by (destruct v; try done; by edestruct Hsc).
    assert (E : push_value_payload out v depth total = Ok (out ++ payload v, total)).
    { destruct v; try done; [|by edestruct Hsc]. cbn. unfold push_gguf_string, string_bytes. by rewrite <- app_assoc. }
    rewrite E in Hr. injection Hr as <-. rewrite Hel, Z.add_0_r. split; [done|]. split; [|done].
    rewrite (typed_tag 0 t v Hty). by apply typed_scalar.
  - inversion Hv as [t ? Hty|? Hits]; subst; [inversion Hty|].
    assert (Hp : Forall pushes items). { rewrite list.Forall_forall in *. intros v Hin. apply IH; [done|by apply Hits]. }
    rewrite push_array in Hr. destruct (Z.leb_spec MAX_METADATA_DEPTH depth) as [|Hlt]; [done|]. unfold MAX_METADATA_DEPTH in Hlt.
    apply bind_Ok_inv in Hr as (tot & Hc & Hr). destruct (checked_add total (zlen items)) eqn:Ec; [|done]. injection Hc as ->.
    apply checked_add_inv in Ec as [-> _]. destruct (Z.ltb_spec MAX_METADATA_ARRAY_ELEMENTS (total + zlen items)) as [|Hmax]; [done|].
    pose proof (zlen_nonneg items). apply push_items_Ok in Hr as (-> & Hall & Hb); [|done|lia|lia]. cbn [payload elements value_type_tag].
    split; [f_equal; [by rewrite <- !app_assoc|lia]|]. split; [|lia].
    replace (Z.to_nat (8 - depth)) with (S (Z.to_nat (8 - (depth + 1)))) by lia. apply (T_Array _ (child_tag items)); [|done].
    destruct items as [|w items]; [cbn; lia|]. apply list.Forall_cons in Hall as [Hw _]. apply typed_range in Hw. done.
Qed.

(** A reader of values inverts [payload] on [v]. *)
Definition rereads (read : Cursor -> Z -> gres (GgufValue * Cursor * Z)) (v : GgufValue) : Prop :=
  forall c rest total, ahead c (payload v) rest -> 0 <= total -> total + elements v <= MAX_METADATA_ARRAY_ELEMENTS ->
    read c total = Ok (v, adv c (zlen (payload v)), total + elements v).

Lemma zsum_elements_nonneg items : 0 <= zsum (elements <$> items).
Proof. apply zsum_nonneg, Forall_fmap, Forall_true. intros v. apply elements_nonneg. Qed.

Lemma reread_items read its : Forall (rereads read) its -> forall pre c rest total lo,
  ahead c (concat (payload <$> its)) rest -> 0 <= total -> total + zsum (elements <$> its) <= MAX_METADATA_ARRAY_ELEMENTS ->
  for_n (length its) lo (fun _ st => let '(items, cur, total) := st in
      let* (v, cur, total) := read cur total in Ok (items ++ [v], cur, total)) (pre, c, total)
    = Ok (pre ++ its, adv c (zlen (concat (payload <$> its))), total + zsum (elements <$> its)).
Proof.
  induction 1 as [|v its Hv _ IH]; intros pre c rest total lo Ha Ht Hm.
  - cbn. by rewrite app_nil_r, adv_0, Z.add_0_r.
  - rewrite !fmap_cons in *. cbn [concat] in *. rewrite zsum_cons in *. cbn [length for_n]. pose proof (zsum_elements_nonneg its). pose proof (elements_nonneg v).
    rewrite (Hv c (concat (payload <$> its) ++ rest) total) by (lia || by apply ahead_split). cbn [bind].
    rewrite (IH _ _ rest) by (lia || by apply ahead_adv). rewrite adv_adv, <- app_assoc, zlen_app. do 2 f_equal. lia.
Qed.

Lemma read_scalar_payload f t v depth : typed 0 t v -> rereads (fun c total => read_value (S f) c t depth total) v.
Proof.
  intros Hty c rest total Ha Ht Hm. inversion Hty; subst; cbn [read_value payload elements] in *; unfold is_u8, is_u16, is_u32, is_u64 in *; rewrite ?Z.add_0_r.
  all: try (rewrite (parses_u16 _ c rest) by done; cbn [bind]; rewrite ?(as_signed_mod 16) by (simpl; lia); rewrite ?Z.mod_small by lia; done).
  all: try (rewrite (parses_u32 _ c rest) by done; cbn [bind]; rewrite ?(as_signed_mod 32) by (simpl; lia); rewrite ?Z.mod_small by lia; done).
  all: try (rewrite (parses_u64 _ c rest) by done; cbn [bind]; rewrite ?(as_signed_mod 64) by (simpl; lia); rewrite ?Z.mod_small by lia; done).
  all: try (rewrite (parses_string _ ltac:(eassumption) c rest) by done; done).
  - by rewrite (parses_u8 v0 ltac:(unfold is_u8; lia) c rest).
  - rewrite (parses_u8 (v0 mod 256) ltac:(unfold is_u8; apply Z.mod_pos_bound; lia) c rest) by done. cbn [bind].
    by rewrite (as_signed_mod 8) by (simpl; lia).
  - rewrite (parses_u8 (Z.b2z b) ltac:(unfold is_u8; destruct b; simpl; lia) c rest) by done. cbn [bind]. by destruct b.
Qed.

Lemma read_array f c depth total : read_value (S f) c 9 depth total =
  if MAX_METADATA_DEPTH <=? depth then Err DimsOverflow else
  let* (child_type, cur) := cu_u32 c in
  if 12 <? child_type then Err (UnknownValueType child_type) else
  let* (count, cur) := cu_u64 cur in
  if MAX_COUNT <? count then Err DimsOverflow else
  let* total := ok_or (checked_add total count) DimsOverflow in
  if MAX_METADATA_ARRAY_ELEMENTS <? total then Err DimsOverflow else
  let* (items, cur, total) := for_range 0 count (fun _ st =>
    let '(items, cur, total) := st in
    let* (v, cur, total) := read_value f cur child_type (depth + 1) total in
    Ok (items ++ [v], cur, total)) ([], cur, total) in
  Ok (VArray items, cur, total).
Proof. done. Qed.

(** The child type the writer records: zero for an empty array, which then reads back
    as an empty array of any type. *)
Lemma child_typed d child items : Forall (typed d child) items -> Forall (typed d (child_tag items)) items /\ 0 <= child_tag items <= 12.
Proof.
  intros H. destruct H as [|v items Hv Hi]; [split; [constructor|cbn; lia]|]. cbn [child_tag]. rewrite (typed_tag d child v Hv).
  split; [by constructor|by eapply typed_range].
Qed.

Lemma read_payload d : forall v t depth, typed d t v -> depth + Z.of_nat d = 8 -> rereads (fun c total => read_value (S d) c t depth total) v.
Proof.
  induction d as [|d IH]; intros v t depth Hty Hd; [by apply read_scalar_payload|].
  destruct v as [| | | | | | | | |items| | |]; try (apply read_scalar_payload; inversion Hty; subst; by constructor).
  inversion Hty as [| | | | | | | | |? child ? _ Hits| | |]; subst. apply child_typed in Hits as [Hits Htag]. intros c rest total Ha Ht Hm.
  rewrite read_array. unfold MAX_METADATA_DEPTH. replace (8 <=? depth) with false by lia. cbn [payload elements] in *.
  pose proof (zlen_nonneg items) as Hn. pose proof (zsum_elements_nonneg items) as Hs.
  assert (Hmx : MAX_METADATA_ARRAY_ELEMENTS = 16000000) by done. assert (Hmc : MAX_COUNT = 4294967296) by done.
  rewrite (parses_u32 _ c ((to_le 8 (zlen items) ++ concat (payload <$> items)) ++ rest)) by (by apply ahead_split). cbn [bind].
  rewrite Z.mod_small by lia. replace (12 <? _) with false by lia. apply ahead_adv in Ha.
  rewrite (parses_u64 _ _ (concat (payload <$> items) ++ rest)) by (by apply ahead_split). cbn [bind]. apply ahead_adv in Ha.
  rewrite Z.mod_small by lia. replace (MAX_COUNT <? _) with false by lia. unfold checked_add. replace (_ <=? usize_max) with true by (unfold usize_max; lia).
  cbn [ok_or bind]. replace (MAX_METADATA_ARRAY_ELEMENTS <? _) with false by lia.
  unfold for_range. replace (Z.to_nat (zlen items - 0)) with (length items) by (unfold zlen; lia).
  rewrite (reread_items (fun cur total => read_value (S d) cur (child_tag items) (depth + 1) total) items) with (rest := rest); [|..|done|lia|lia].
  - cbn [bind]. rewrite !adv_adv, !zlen_app. by rewrite !Z.add_assoc.
  - eapply list.Forall_impl; [exact Hits|]. intros v Hv. apply IH; [done|lia].
Qed.

(** * Layout *)

Definition spec_ok (t : GgufTensorSpec) : Prop :=
  str_ok (sp_name t) /\ zlen (sp_dims t) <= MAX_DIMS /\ Forall is_u64 (sp_dims t) /\ is_u32 (sp_type t) /\
  (exists n, product_u64 1 (sp_dims t) = Ok n) /\ 0 <= sp_data_len t.

(** The number of payload bytes the reader reports. *)
Definition reported_bytes (t : GgufTensorSpec) : Z := if tensor_type_is_sized (sp_type t) then sp_data_len t else 0.

(** Payloads from [e] on, each at the next multiple of the alignment, ending at [e']. *)
Inductive placed (a : Z) : Z -> list GgufTensorSpec -> list Z -> Z -> Prop :=
| P_nil e : placed a e [] [] e
| P_cons e t ts off offs e' :
    tensor_n_bytes (sp_type t) (sp_dims t) = Ok (reported_bytes t) -> e <= off -> (a | off) -> off + sp_data_len t <= usize_max ->
    placed a (off + sp_data_len t) ts offs e' -> placed a e (t :: ts) (off :: offs) e'.

Lemma place_tensors_Ok a ts : 0 < a -> Forall spec_ok ts -> forall offs0 e r, 0 <= e -> for_each ts (place_tensor a) (offs0, e) = Ok r ->
  exists offs, fst r = offs0 ++ offs /\ placed a e ts offs (snd r).
Proof.
  intros Ha. induction 1 as [|t ts Ht _ IH]; intros offs0 e r He Hr.
  - injection Hr as <-. exists []. split; [by rewrite app_nil_r|constructor].
  - cbn [for_each] in Hr. apply bind_Ok_inv in Hr as ([offs1 e1] & H1 & H2). unfold place_tensor in H1.
    apply bind_Ok_inv in H1 as (n & Hn & H1). destruct (_ && _) eqn:Hs; [done|].
    apply bind_Ok_inv in H1 as (off & Ho & H1). apply bind_Ok_inv in H1 as (e2 & He2 & H1). injection H1 as <- <-.
    destruct (checked_add off (sp_data_len t)) as [x|] eqn:Ec; [|done]. injection He2 as ->. apply checked_add_inv in Ec as [-> Hmax].
    pose proof (yields_Ok_inv _ _ _ (align_up_yields e a He Ha) Ho) as [Hoff Hdiv].
    destruct Ht as (_ & _ & _ & _ & _ & Hlen). apply IH in H2 as (offs & -> & Hp); [|lia]. exists (off :: offs).
    split; [by rewrite <- app_assoc|]. constructor; [|lia|done|done|done]. rewrite Hn. unfold reported_bytes. f_equal.
    destruct (tensor_type_is_sized (sp_type t)) eqn:Hsz; [cbn [andb] in Hs; lia|].
    unfold tensor_type_is_sized in Hsz. unfold tensor_n_bytes in Hn. destruct (type_block_layout (sp_type t)); [done|]. by injection Hn as <-.
Qed.

Lemma placed_bounds a e ts offs e' : Forall spec_ok ts -> placed a e ts offs e' -> e <= e' /\ length offs = length ts.
Proof.
  intros Hts H. induction H as [|e t ts off offs e' _ Hle _ _ _ IH]; [split; [lia|done]|].
  apply list.Forall_cons in Hts as [(_ & _ & _ & _ & _ & Hl) Hts]. destruct (IH Hts) as [H1 H2]. split; [lia|simpl; congruence].
Qed.

Definition entry_bytes (e : list Z * GgufValue) : list Z := string_bytes (fst e) ++ to_le 4 (value_type_tag (snd e)) ++ payload (snd e).

Definition info_bytes (e : GgufTensorSpec * Z) : list Z :=
  string_bytes (sp_name (fst e)) ++ to_le 4 (zlen (sp_dims (fst e))) ++ concat (to_le 8 <$> sp_dims (fst e)) ++ to_le 4 (sp_type (fst e)) ++ to_le 8 (snd e).

Lemma push_infos es : forall h, foldl (fun h e => push_info e h) h es = h ++ concat (info_bytes <$> es).
Proof.
  induction es as [|[t off] es IH]; intros h; [by rewrite app_nil_r|]. cbn [foldl]. rewrite IH, fmap_cons. cbn [concat].
  unfold push_info, info_bytes, push_gguf_string, string_bytes. cbn [fst snd]. by rewrite <- !app_assoc.
Qed.

Definition rust_entry (e : list Z * GgufValue) : Prop := str_ok (fst e) /\ rust_value (snd e).

Definition typed_entry (e : list Z * GgufValue) : Prop := str_ok (fst e) /\ typed 8 (value_type_tag (snd e)) (snd e).

Lemma push_entries_Ok m : Forall rust_entry m -> forall h total r, 0 <= total -> for_each m push_entry (h, total) = Ok r ->
  r = (h ++ concat (entry_bytes <$> m), total + metadata_elements m) /\ Forall typed_entry m /\
  (total <= MAX_METADATA_ARRAY_ELEMENTS -> total + metadata_elements m <= MAX_METADATA_ARRAY_ELEMENTS).
Proof.
  induction 1 as [|[k v] m [Hk Hv] _ IH]; intros h total r Ht Hr; cbn [fst snd] in *.
  - injection Hr as <-. cbn. rewrite app_nil_r, Z.add_0_r. split; [done|]. split; [constructor|done].
  - cbn [for_each] in Hr. apply bind_Ok_inv in Hr as ([h1 t1] & H1 & H2). unfold push_entry, push_value in H1. cbn [fst snd] in H1.
    apply (push_payload v Hv) in H1 as (E & Hty & Hb); [|lia|done]. injection E as -> ->. pose proof (elements_nonneg v).
    apply IH in H2 as (-> & Hall & Hb2); [|lia]. unfold metadata_elements in *. rewrite !fmap_cons, zsum_cons. cbn [concat snd].
    split; [|split; [constructor; [done|done]|lia]]. unfold entry_bytes at 2, push_gguf_string, string_bytes. cbn [fst snd]. rewrite <- !app_assoc. f_equal. lia.
Qed.

(** * The whole file *)

Definition head_bytes (version tc mc : Z) : list Z := [71; 71; 85; 70] ++ to_le 4 version ++ to_le 8 tc ++ to_le 8 mc.

Definition header_bytes (version : Z) (m : list (list Z * GgufValue)) (ts : list GgufTensorSpec) (offs : list Z) : list Z :=
  head_bytes version (zlen ts) (zlen m) ++ concat (entry_bytes <$> m) ++ concat (info_bytes <$> zip ts offs).

(** The data section: each payload at its offset, zeros between. *)
Fixpoint data_section (e : Z) (ts : list (list Z * Z)) : list Z :=
  match ts with
  | [] => []
  | (data, off) :: ts' => vec 0 (off - e) ++ data ++ data_section (off + zlen data) ts'
  end.

(** What a layout is. *)
Record layout_of (version : Z) (m : list (list Z * GgufValue)) (ts : list GgufTensorSpec) (l : GgufLayout) (a e' : Z) : Prop := {
  ly_version : version = 2 \/ version = 3;
  ly_alignment : metadata_alignment m = Ok a /\ 0 < a;
  ly_placed : placed a 0 ts (gl_offsets l) e';
  ly_header : gl_header l = header_bytes version m ts (gl_offsets l);
  ly_offset : align_up (zlen (gl_header l)) a = Ok (gl_tensor_data_offset l);
  ly_end : gl_tensor_data_offset l + e' <= usize_max;
  ly_typed : Forall typed_entry m /\ metadata_elements m <= MAX_METADATA_ARRAY_ELEMENTS }.

Lemma rust_alignment m a : Forall rust_entry m -> metadata_alignment m = Ok a -> 0 < a.
Proof.
  intros Hm. unfold metadata_alignment. destruct (bt_get m ALIGNMENT_KEY) as [v|] eqn:Hg; [|by intros [= <-]].
  assert (Hv : rust_value v).
  { clear -Hm Hg. induction Hm as [|[k w] m [_ Hw] _ IH]; [done|]. cbn [bt_get] in Hg.
    destruct (bytes_cmp ALIGNMENT_KEY k); [by injection Hg as <-|done|by apply IH]. }
  destruct v as [| | | |x| | | | | | | |]; try done. destruct (_ && _) eqn:Hc; [|done]. intros [= <-].
  inversion Hv as [t ? Hty|]; subst. inversion Hty as [| | | |? ? Hu| | | | | | | |]; subst. unfold is_u32 in Hu. lia.
Qed.

Lemma build_layout_Ok version m ts l : Forall rust_entry m -> Forall spec_ok ts -> build_layout version m ts = Ok l -> exists a e', layout_of version m ts l a e'.
Proof.
  intros Hm Hts Hl. unfold build_layout in Hl. destruct (negb _ && negb _) eqn:Hv; [done|].
  apply bind_Ok_inv in Hl as (a & Ha & Hl). pose proof (rust_alignment m a Hm Ha) as Ha0.
  apply bind_Ok_inv in Hl as ([offs e'] & Hp & Hl). apply (place_tensors_Ok a ts Ha0 Hts) in Hp as (offs' & E & Hp); [|lia]. cbn in E, Hp. subst offs'.
  apply bind_Ok_inv in Hl as ([h tot] & Hh & Hl). apply (push_entries_Ok m Hm) in Hh as (E & Hty & Hb); [|lia]. injection E as -> ->.
  rewrite push_infos in Hl. apply bind_Ok_inv in Hl as (off & Ho & Hl). apply bind_Ok_inv in Hl as (x & Hx & Hl). injection Hl as <-.
  destruct (checked_add off e') eqn:Ec; [|done]. apply checked_add_inv in Ec as [_ Hmax]. exists a, e'.
  split; cbn [gl_header gl_offsets gl_tensor_data_offset]; [lia|done|done| |done|done|].
  - unfold header_bytes, head_bytes. by rewrite <- !app_assoc.
  - split; [done|]. apply Hb. done.
Qed.

(** The bytes of a file with a given layout. *)
Definition file_bytes (l : GgufLayout) (data : list (list Z)) : list Z :=
  gl_header l ++ vec 0 (gl_tensor_data_offset l - zlen (gl_header l)) ++ data_section 0 (zip data (gl_offsets l)).

Lemma resize_grow l n : zlen l <= n -> resize l n = l ++ vec 0 (n - zlen l).
Proof. intros Hn. unfold resize. f_equal. apply take_ge. unfold zlen in Hn. lia. Qed.

Lemma vec_nil {A} (x : A) n : n <= 0 -> vec x n = [].
Proof. intros Hn. unfold vec. by replace (Z.to_nat n) with 0%nat by lia. Qed.

Lemma zlen_data_section a ts : forall e data offs e', spec_of <$> data = ts -> placed a e ts offs e' ->
  zlen (data_section e (zip (to_data <$> data) offs)) = e' - e.
Proof.
  induction ts as [|t ts IH]; intros e data offs e' Hd Hp.
  - apply fmap_nil_inv in Hd as ->. inversion Hp; subst. simpl. change (zlen (@nil Z)) with 0. lia.
  - destruct data as [|d data]; [done|]. rewrite fmap_cons in Hd. injection Hd as <- Hd. inversion Hp as [|? ? ? off offs1 ? _ Hle _ _ Hp']; subst.
    cbn [sp_data_len spec_of] in Hp'. rewrite fmap_cons. cbn [zip_with data_section]. rewrite !zlen_app, zlen_vec, (IH _ data offs1 e') by done. lia.
Qed.

Lemma place_data_Ok a off0 ts : forall e data offs e' out, Forall spec_ok (spec_of <$> data) -> spec_of <$> data = ts -> placed a e ts offs e' ->
  0 <= off0 + e -> off0 + e' <= usize_max -> zlen out = off0 + e ->
  for_each (zip data offs) (place_data off0) out = Ok (out ++ data_section e (zip (to_data <$> data) offs)).
Proof.
  induction ts as [|t ts IH]; intros e data offs e' out Hok Hd Hp H0 Hmax Hz.
  - apply fmap_nil_inv in Hd as ->. inversion Hp; subst. simpl. by rewrite app_nil_r.
  - destruct data as [|d data]; [done|]. rewrite fmap_cons in Hd, Hok. apply list.Forall_cons in Hok as [_ Hok]. injection Hd as <- Hd.
    inversion Hp as [|? ? ? off offs1 ? _ Hle _ _ Hp']; subst. cbn [sp_data_len spec_of] in Hp'.
    destruct (placed_bounds _ _ _ _ _ Hok Hp') as [Hb _]. pose proof (zlen_nonneg (to_data d)) as Hd0.
    rewrite fmap_cons. cbn [zip_with for_each data_section]. unfold place_data at 1. cbn [fst snd]. unfold checked_add.
    replace (_ <=? usize_max) with true by lia. cbn [ok_or bind].
    assert (E : (if zlen out <? off0 + off then resize out (off0 + off) else out) = out ++ vec 0 (off - e)).
    { destruct (Z.ltb_spec (zlen out) (off0 + off)); [rewrite resize_grow by lia; do 2 f_equal; lia|]. by rewrite vec_nil, app_nil_r by lia. }
    rewrite E, (IH (off + zlen (to_data d)) data offs1 e'); [by rewrite <- !app_assoc|done|done|done|lia|lia|]. rewrite !zlen_app, zlen_vec. lia.
Qed.

Lemma layout_offset version m ts l a e' : layout_of version m ts l a e' -> zlen (gl_header l) <= gl_tensor_data_offset l /\ (a | gl_tensor_data_offset l).
Proof.
  intros L. pose proof (yields_Ok_inv _ _ _ (align_up_yields (zlen (gl_header l)) a (zlen_nonneg _) (proj2 (ly_alignment _ _ _ _ _ _ L))) (ly_offset _ _ _ _ _ _ L)) as [H D].
  split; [lia|done].
Qed.

Lemma write_gguf_layout version m ts l : Forall rust_entry m -> Forall spec_ok (spec_of <$> ts) -> build_layout version m (spec_of <$> ts) = Ok l ->
  write_gguf version m ts = Ok (file_bytes l (to_data <$> ts)).
Proof.
  intros Hm Hts Hl. unfold write_gguf. rewrite Hl. cbn [bind]. destruct (build_layout_Ok _ _ _ _ Hm Hts Hl) as (a & e' & L).
  destruct (layout_offset _ _ _ _ _ _ L) as [Ho _]. pose proof (zlen_nonneg (gl_header l)). rewrite resize_grow by done. pose proof (ly_end _ _ _ _ _ _ L).
  rewrite (place_data_Ok a _ (spec_of <$> ts) 0 ts (gl_offsets l) e'); [|done|done|by apply (ly_placed _ _ _ _ _ _ L)|lia|lia|rewrite zlen_app, zlen_vec; lia].
  unfold file_bytes. by rewrite <- app_assoc.
Qed.

Lemma write_gguf_Ok version m ts bytes : Forall rust_entry m -> Forall spec_ok (spec_of <$> ts) -> write_gguf version m ts = Ok bytes ->
  exists l a e', layout_of version m (spec_of <$> ts) l a e' /\ bytes = file_bytes l (to_data <$> ts).
Proof.
  intros Hm Hts Hw. pose proof Hw as Hw'. unfold write_gguf in Hw'. apply bind_Ok_inv in Hw' as (l & Hl & _).
  destruct (build_layout_Ok _ _ _ _ Hm Hts Hl) as (a & e' & L). exists l, a, e'. split; [done|].
  rewrite (write_gguf_layout _ _ _ _ Hm Hts Hl) in Hw. by injection Hw as <-.
Qed.

(** * Reading a written file *)

Lemma metadata_elements_cons k v m : metadata_elements ((k, v) :: m) = elements v + metadata_elements m.
Proof. done. Qed.

Lemma metadata_elements_nonneg m : 0 <= metadata_elements m.
Proof. apply zsum_nonneg, Forall_fmap, Forall_true. intros e. apply elements_nonneg. Qed.

Lemma reread_entries m2 : Forall typed_entry m2 -> forall m1 c rest total lo, bt_ok (m1 ++ m2) ->
  ahead c (concat (entry_bytes <$> m2)) rest -> 0 <= total -> total + metadata_elements m2 <= MAX_METADATA_ARRAY_ELEMENTS ->
  for_n (length m2) lo read_entry (m1, c, total) = Ok (m1 ++ m2, adv c (zlen (concat (entry_bytes <$> m2))), total + metadata_elements m2).
Proof.
  induction 1 as [|[k v] m2 [Hk Hv] _ IH]; intros m1 c rest total lo Hok Ha Ht Hm; cbn [fst snd] in *.
  - cbn. by rewrite app_nil_r, adv_0, Z.add_0_r.
  - rewrite metadata_elements_cons in *. rewrite fmap_cons in *. cbn [concat] in *. pose proof (metadata_elements_nonneg m2). pose proof (elements_nonneg v).
    pose proof (typed_range _ _ _ Hv) as Htag. cbn [length for_n]. unfold read_entry at 1. unfold entry_bytes at 1 in Ha. cbn [fst snd] in Ha. rewrite <- !app_assoc in Ha.
    rewrite (parses_string k Hk c ((to_le 4 (value_type_tag v) ++ payload v ++ concat (entry_bytes <$> m2)) ++ rest)) by (by apply ahead_split).
    cbn [bind]. apply ahead_adv in Ha. rewrite (parses_u32 _ _ ((payload v ++ concat (entry_bytes <$> m2)) ++ rest)) by (by apply ahead_split).
    cbn [bind]. apply ahead_adv in Ha. rewrite Z.mod_small by lia. unfold value_fuel.
    rewrite (read_payload 8 v _ 0 Hv ltac:(lia) _ (concat (entry_bytes <$> m2) ++ rest) total) by (lia || by apply ahead_split).
    cbn [bind]. apply ahead_adv in Ha. rewrite bt_insert_last by (apply bt_ok_app; rewrite (cons_middle (k, v)), app_assoc in Hok; apply bt_ok_app in Hok as (H1 & _); by apply bt_ok_app in H1).
    rewrite (IH (m1 ++ [(k, v)]) _ rest) by (lia || by rewrite <- ?app_assoc). rewrite <- app_assoc, !adv_adv, !zlen_app. unfold entry_bytes at 2. cbn [fst snd].
    by rewrite !zlen_app, !Z.add_assoc.
Qed.

Lemma reread_dims ds : Forall is_u64 ds -> forall pre c rest lo, ahead c (concat (to_le 8 <$> ds)) rest ->
  for_n (length ds) lo read_dim (pre, c) = Ok (pre ++ ds, adv c (zlen (concat (to_le 8 <$> ds)))).
Proof.
  induction 1 as [|d ds Hd _ IH]; intros pre c rest lo Ha.
  - cbn. by rewrite app_nil_r, adv_0.
  - rewrite fmap_cons in *. cbn [concat length for_n] in *. unfold read_dim at 1. cbn [fst snd].
    rewrite (parses_u64 d c (concat (to_le 8 <$> ds) ++ rest)) by (by apply ahead_split). cbn [bind]. rewrite Z.mod_small by done.
    apply ahead_adv in Ha. rewrite (IH _ _ rest) by done. by rewrite adv_adv, <- app_assoc, zlen_app.
Qed.

Definition raw_of (e : GgufTensorSpec * Z) : RawTensor := (sp_name (fst e), sp_dims (fst e), sp_type (fst e), snd e).

Lemma reread_raws es : Forall (fun e => spec_ok (fst e) /\ is_u64 (snd e)) es -> forall pre c rest lo, ahead c (concat (info_bytes <$> es)) rest ->
  for_n (length es) lo read_raw (pre, c) = Ok (pre ++ (raw_of <$> es), adv c (zlen (concat (info_bytes <$> es)))).
Proof.
  induction 1 as [|[t off] es [Ht Ho] _ IH]; intros pre c rest lo Ha; cbn [fst snd] in *.
  - cbn. by rewrite app_nil_r, adv_0.
  - rewrite !fmap_cons in *. cbn [concat length for_n] in *. unfold read_raw at 1. unfold info_bytes at 1 in Ha. cbn [fst snd] in Ha. rewrite <- !app_assoc in Ha.
    destruct Ht as (Hn & Hd & Hds & Hty & _ & _). pose proof (zlen_nonneg (sp_dims t)) as Hd0. unfold MAX_DIMS in Hd. unfold is_u32, is_u64 in *.
    erewrite parses_string; [|done|by apply ahead_split]. cbn [bind]. apply ahead_adv in Ha.
    erewrite parses_u32 by (by apply ahead_split). cbn [bind]. apply ahead_adv in Ha. rewrite Z.mod_small by lia.
    unfold MAX_DIMS. replace (8 <? _) with false by lia. unfold for_range. replace (Z.to_nat (zlen (sp_dims t) - 0)) with (length (sp_dims t)) by (unfold zlen; lia).
    erewrite reread_dims; [|done|by apply ahead_split]. cbn [bind]. apply ahead_adv in Ha.
    erewrite parses_u32 by (by apply ahead_split). cbn [bind]. apply ahead_adv in Ha. rewrite Z.mod_small by lia.
    erewrite parses_u64 by (by apply ahead_split). cbn [bind]. apply ahead_adv in Ha. rewrite Z.mod_small by lia.
    rewrite (IH _ _ rest) by done. rewrite <- app_assoc, !adv_adv, !zlen_app. unfold info_bytes at 2. cbn [fst snd].
    by rewrite !zlen_app, !Z.add_assoc.
Qed.

Definition info_of (e : GgufTensorSpec * Z) : TensorInfo :=
  MkTensorInfo (sp_name (fst e)) (sp_dims (fst e)) (sp_type (fst e)) (snd e) (reported_bytes (fst e)).

Lemma reported_bound t : 0 <= sp_data_len t -> 0 <= reported_bytes t <= sp_data_len t.
Proof. unfold reported_bytes. destruct (tensor_type_is_sized _); lia. Qed.

Lemma size_tensors_Ok len a e ts offs e' : placed a e ts offs e' -> Forall spec_ok ts -> 0 <= e -> e' <= len -> forall acc,
  for_each (raw_of <$> zip ts offs) (size_tensor len) acc = Ok (acc ++ (info_of <$> zip ts offs)).
Proof.
  induction 1 as [|e t ts off offs e' Hn Hle _ Hmax Hp IH]; intros Hts He Hlen acc; [simpl; by rewrite app_nil_r|].
  apply list.Forall_cons in Hts as [Ht Hts]. destruct (placed_bounds _ _ _ _ _ Hts Hp) as [Hb _].
  destruct Ht as (_ & _ & _ & _ & [n Hcount] & Hl). pose proof (reported_bound t Hl) as Hr.
  cbn [zip_with]. rewrite !fmap_cons. cbn [for_each]. unfold size_tensor at 1, raw_of at 1. cbn [fst snd]. rewrite Hcount, Hn. cbn [bind].
  assert (E : (if 0 <? reported_bytes t then let* stop := ok_or (checked_add off (reported_bytes t)) DimsOverflow in
      ensure (negb (len <? stop)) OffsetOutOfBounds else ensure (negb (len <? off)) OffsetOutOfBounds) = Ok tt).
  { unfold checked_add. replace (_ <=? usize_max) with true by lia. cbn [ok_or bind]. replace (len <? off) with false by lia.
    replace (len <? _) with false by lia. by destruct (0 <? _). }
  rewrite E. cbn [bind]. rewrite IH by (done || lia). by rewrite <- app_assoc.
Qed.

Lemma placed_offsets a e ts offs e' : placed a e ts offs e' -> Forall spec_ok ts -> 0 <= e -> Forall (fun x => spec_ok (fst x) /\ is_u64 (snd x)) (zip ts offs).
Proof.
  induction 1 as [|e t ts off offs e' _ Hle _ Hmax _ IH]; intros Hts He; [constructor|]. apply list.Forall_cons in Hts as [Ht Hts].
  pose proof Ht as (_ & _ & _ & _ & _ & Hl). cbn [zip_with]. constructor; [|apply IH; [done|lia]]. split; [done|]. unfold is_u64, usize_max in *. cbn. lia.
Qed.

(** Each payload is where its offset says. *)
Lemma data_at a ts : forall e data offs e' i d off, spec_of <$> data = ts -> placed a e ts offs e' -> data !! i = Some d -> offs !! i = Some off ->
  e <= off /\ sub (data_section e (zip (to_data <$> data) offs)) (off - e) (off - e + zlen (to_data d)) = to_data d.
Proof.
  induction ts as [|t ts IH]; intros e data offs e' i d off Hd Hp Hi Ho.
  - by apply fmap_nil_inv in Hd as ->.
  - destruct data as [|d0 data]; [done|]. rewrite fmap_cons in Hd. injection Hd as <- Hd. inversion Hp as [|? ? ? off0 offs1 ? _ Hle _ _ Hp']; subst.
    cbn [sp_data_len spec_of] in Hp'. rewrite fmap_cons. cbn [zip_with data_section]. destruct i as [|i].
    + injection Hi as ->. injection Ho as ->. split; [done|]. apply sub_mid; rewrite zlen_vec; lia.
    + destruct (IH _ data offs1 e' i d off eq_refl Hp' Hi Ho) as [H1 H2]. pose proof (zlen_nonneg (to_data d0)). split; [lia|].
      rewrite app_assoc, sub_skip by (rewrite zlen_app, zlen_vec; lia). rewrite zlen_app, zlen_vec. etransitivity; [|exact H2]. f_equal; lia.
Qed.

Lemma file_parses version m ts l a e' data : bt_ok m -> zlen m <= MAX_COUNT -> zlen ts <= MAX_COUNT -> Forall spec_ok ts ->
  layout_of version m ts l a e' -> spec_of <$> data = ts -> zlen (file_bytes l (to_data <$> data)) <= isize_max ->
  bytes_ok (file_bytes l (to_data <$> data)) ->
  read_gguf (file_bytes l (to_data <$> data)) = Ok (MkGgufFile version m (info_of <$> zip ts (gl_offsets l)) (gl_tensor_data_offset l)).
Proof.
  intros Hok Hm Ht Hts L Hdata Hmax Hbytes. set (buf := file_bytes l (to_data <$> data)) in *. destruct (layout_offset _ _ _ _ _ _ L) as [Hoff _].
  destruct L as [Hv [Hal Ha0] Hp Hh Ho He [Hty Hel]]. pose proof (zlen_nonneg m) as Hm0. pose proof (zlen_nonneg ts) as Ht0. unfold MAX_COUNT in *.
  set (es := concat (entry_bytes <$> m)). set (is_ := concat (info_bytes <$> zip ts (gl_offsets l))).
  set (tl := vec 0 (gl_tensor_data_offset l - zlen (gl_header l)) ++ data_section 0 (zip (to_data <$> data) (gl_offsets l))).
  assert (Ha : ahead (cursor_new buf) ([71; 71; 85; 70] ++ to_le 4 version ++ to_le 8 (zlen ts) ++ to_le 8 (zlen m) ++ es ++ is_) tl).
  { split; [split; simpl; [pose proof (zlen_nonneg buf); lia|done]|]. unfold cu_rest, cursor_new. cbn [cu_buf cu_pos]. rewrite sub_full.
    unfold buf, file_bytes. fold tl. rewrite Hh. unfold header_bytes, head_bytes. fold es is_. by rewrite <- !app_assoc. }
  unfold read_gguf. change 4 with (zlen [71; 71; 85; 70]) at 1. erewrite parses_take; [|by vm_compute|by apply ahead_split]. cbn [bind].
  rewrite bool_decide_true by done. cbn [negb]. apply ahead_adv in Ha.
  erewrite parses_u32 by (by apply ahead_split). cbn [bind]. rewrite Z.mod_small by lia. apply ahead_adv in Ha.
  replace (_ && _) with false by lia.
  erewrite parses_u64 by (by apply ahead_split). cbn [bind]. rewrite Z.mod_small by lia. apply ahead_adv in Ha.
  erewrite parses_u64 by (by apply ahead_split). cbn [bind]. rewrite Z.mod_small by lia. apply ahead_adv in Ha.
  unfold MAX_COUNT. replace (_ || _) with false by lia. unfold for_range.
  replace (Z.to_nat (zlen m - 0)) with (length m) by (unfold zlen; lia).
  erewrite reread_entries; [|done|done|by apply ahead_split|lia|lia]. cbn [bind]. apply ahead_adv in Ha. rewrite app_nil_l, Hal. cbn [bind].
  destruct (placed_bounds _ _ _ _ _ Hts Hp) as [_ Hlo].
  replace (Z.to_nat (zlen ts - 0)) with (length (zip ts (gl_offsets l))) by (rewrite length_zip_with; unfold zlen; lia).
  erewrite reread_raws; [|by eapply placed_offsets|exact Ha]. cbn [bind]. rewrite app_nil_l.
  assert (Hpos : cu_pos (adv (adv (adv (adv (adv (adv (adv (cursor_new buf) (zlen [71; 71; 85; 70])) (zlen (to_le 4 version))) (zlen (to_le 8 (zlen ts))))
      (zlen (to_le 8 (zlen m)))) (zlen es)) (zlen is_)) 0) = zlen (gl_header l)).
  { rewrite Hh. unfold header_bytes, head_bytes. rewrite !adv_adv. cbn [cu_pos adv cursor_new]. rewrite !zlen_app. fold es is_. lia. }
  rewrite adv_0 in Hpos. fold es is_. rewrite Hpos, Ho. cbn [bind].
  assert (Hlen : saturating_sub (zlen buf) (gl_tensor_data_offset l) = e').
  { unfold saturating_sub, buf, file_bytes. rewrite !zlen_app, zlen_vec, (zlen_data_section a ts 0 data _ e') by done.
    destruct (placed_bounds _ _ _ _ _ Hts Hp) as [Hb _]. lia. }
  rewrite Hlen. erewrite size_tensors_Ok; [|done|done|lia|lia]. cbn [bind]. by rewrite app_nil_l.
Qed.

(** * Every byte of a file is a byte *)

Ltac app_bytes := repeat match goal with |- Forall _ (_ ++ _) => apply Forall_app; split end.

Lemma bytes_ok_vec x n : is_u8 x -> bytes_ok (vec x n).
Proof. intros Hx. unfold vec. by apply Forall_replicate. Qed.

Lemma string_bytes_ok s : str_ok s -> bytes_ok (string_bytes s).
Proof. intros [Hb _]. apply Forall_app. split; [apply to_le_bytes|done]. Qed.

Lemma concat_le_bytes {A} (f : A -> list Z) l : Forall (fun x => bytes_ok (f x)) l -> bytes_ok (concat (f <$> l)).
Proof. induction 1 as [|x l Hx _ IH]; [constructor|]. rewrite fmap_cons. cbn [concat]. by apply Forall_app. Qed.

Lemma payload_bytes d : forall t v, typed d t v -> bytes_ok (payload v).
Proof.
  induction d as [|d IH]; intros t v H; inversion H; subst; cbn [payload]; try apply to_le_bytes; try (by apply string_bytes_ok).
  all: try (constructor; [|constructor]; unfold is_u8 in *; first [done|apply Z.mod_pos_bound; lia|destruct b; simpl; lia]).
  apply Forall_app. split; [apply to_le_bytes|]. apply Forall_app. split; [apply to_le_bytes|]. apply concat_le_bytes.
  eapply list.Forall_impl; [eassumption|]. intros v. apply IH.
Qed.

Lemma header_bytes_ok version m ts offs : Forall typed_entry m -> Forall spec_ok ts -> bytes_ok (header_bytes version m ts offs).
Proof.
  intros Hm Hts. unfold header_bytes, head_bytes. app_bytes; try apply to_le_bytes; [by apply bytes_ok_check|..].
  - apply concat_le_bytes. eapply list.Forall_impl; [exact Hm|]. intros e [Hk Hv]. unfold entry_bytes.
    app_bytes; [by apply string_bytes_ok|apply to_le_bytes|by eapply payload_bytes].
  - apply concat_le_bytes. apply list.Forall_forall. intros [t off] Hin. apply elem_of_zip_l in Hin. rewrite list.Forall_forall in Hts.
    destruct (Hts t Hin) as (Hn & _). unfold info_bytes. cbn [fst snd].
    app_bytes; try apply to_le_bytes; [by apply string_bytes_ok|]. apply concat_le_bytes, Forall_true. intros d. apply to_le_bytes.
Qed.

Lemma data_section_bytes ts : forall e offs, Forall (fun t => bytes_ok (to_data t)) ts -> bytes_ok (data_section e (zip (to_data <$> ts) offs)).
Proof.
  induction ts as [|t ts IH]; intros e [|off offs] H; try constructor. apply list.Forall_cons in H as [Ht Hts]. rewrite fmap_cons. cbn [zip_with data_section].
  app_bytes; [apply bytes_ok_vec; unfold is_u8; lia|done|by apply IH].
Qed.

(** * Property *)

(** What the reader requires of a tensor beyond its Rust types: a name of at most 64 MiB,
    at most eight dimensions, and an element count below 2^64. *)
Definition tensor_ok (t : TensorOut) : Prop :=
  str_ok (to_name t) /\ zlen (to_dims t) <= MAX_DIMS /\ Forall is_u64 (to_dims t) /\ is_u32 (to_type t) /\
  (exists n, product_u64 1 (to_dims t) = Ok n) /\ bytes_ok (to_data t).

Lemma tensor_spec ts : Forall tensor_ok ts -> Forall spec_ok (spec_of <$> ts) /\ Forall (fun t => bytes_ok (to_data t)) ts.
Proof.
  intros H. split; [apply Forall_fmap|]; (eapply list.Forall_impl; [exact H|]); intros t (H1 & H2 & H3 & H4 & H5 & H6); [|done].
  do 5 (split; [done|]). cbn. apply zlen_nonneg.
Qed.

(** The entry of the tensor table that describes [t], and its payload in the file. *)
Definition describes (bytes : list Z) (f : GgufFile) (t : TensorOut) (info : TensorInfo) : Prop :=
  ti_name info = to_name t /\ ti_dims info = to_dims t /\ ti_ggml_type info = to_type t /\
  ti_n_bytes info = (if tensor_type_is_sized (to_type t) then zlen (to_data t) else 0) /\
  let at_ := gf_tensor_data_offset f + ti_offset info in sub bytes at_ (at_ + zlen (to_data t)) = to_data t.

Lemma describes_layout l ts a e' version m i t : layout_of version m (spec_of <$> ts) l a e' -> Forall spec_ok (spec_of <$> ts) -> ts !! i = Some t ->
  exists info, (info_of <$> zip (spec_of <$> ts) (gl_offsets l)) !! i = Some info /\
    describes (file_bytes l (to_data <$> ts)) (MkGgufFile version m (info_of <$> zip (spec_of <$> ts) (gl_offsets l)) (gl_tensor_data_offset l)) t info.
Proof.
  intros L Hok Hi. destruct (layout_offset _ _ _ _ _ _ L) as [Hoff _]. pose proof (ly_placed _ _ _ _ _ _ L) as Hp.
  destruct (placed_bounds _ _ _ _ _ Hok Hp) as [_ Hlen]. rewrite length_fmap in Hlen.
  destruct (lookup_lt_is_Some_2 (gl_offsets l) i) as [off Ho]; [rewrite Hlen; by eapply lookup_lt_Some|].
  exists (info_of (spec_of t, off)). split.
  - rewrite list_lookup_fmap, lookup_zip_with, list_lookup_fmap, Hi. cbn. by rewrite Ho.
  - do 4 (split; [done|]). cbn [gf_tensor_data_offset ti_offset info_of snd]. destruct (data_at a _ 0 ts _ e' i t off eq_refl Hp Hi Ho) as [H0 Hd].
    pose proof (zlen_nonneg (gl_header l)). unfold file_bytes. rewrite app_assoc, sub_skip by (rewrite zlen_app, zlen_vec; lia).
    rewrite zlen_app, zlen_vec. etransitivity; [|exact Hd]. f_equal; lia.
Qed.

(** C3: a written GGUF file reads back. Whenever [write_gguf] succeeds on a metadata map
    and tensors within the reader's limits, [read_gguf] accepts the bytes and returns the
    version, the metadata map with every nested array, and for each tensor in order its
    name, shape, type and size, with its payload found at the recorded offset. *)
Theorem gguf_roundtrip version m ts bytes :
  bt_ok m -> Forall rust_entry m -> Forall tensor_ok ts -> zlen m <= MAX_COUNT -> zlen ts <= MAX_COUNT ->
  write_gguf version m ts = Ok bytes -> zlen bytes <= isize_max ->
  exists f, read_gguf bytes = Ok f /\ gf_version f = version /\ gf_metadata f = m /\ length (gf_tensors f) = length ts /\
    forall i t, ts !! i = Some t -> exists info, gf_tensors f !! i = Some info /\ describes bytes f t info.
Proof.
  intros Hb Hm Hts Hzm Hzt Hw Hmax. destruct (tensor_spec ts Hts) as [Hsp Hby].
  destruct (write_gguf_Ok _ _ _ _ Hm Hsp Hw) as (l & a & e' & L & ->). eexists. split.
  - eapply (file_parses _ _ (spec_of <$> ts)); [done|done|by rewrite zlen_fmap|done|exact L|done|done|].
    unfold file_bytes. rewrite (ly_header _ _ _ _ _ _ L). app_bytes.
    + apply header_bytes_ok; [apply (ly_typed _ _ _ _ _ _ L)|done].
    + apply bytes_ok_vec. unfold is_u8. lia.
    + by apply data_section_bytes.
  - split; [done|]. split; [done|]. split.
    + cbn [gf_tensors]. destruct (placed_bounds _ _ _ _ _ Hsp (ly_placed _ _ _ _ _ _ L)) as [_ Hlen].
      rewrite length_fmap, length_zip_with, Hlen, length_fmap. lia.
    + intros i t Hi. by eapply describes_layout.
Qed.

Lemma gguf_roundtrip_witness :
  let m := [([97], VArray [VArray [VI8 (-3); VI8 4]; VArray []]); (ALIGNMENT_KEY, VU32 8)] in
  let ts := [MkTensorOut [116] [2; 1] 0 (vec 7 8); MkTensorOut [117] [3] 99 [1; 2; 3]; MkTensorOut [118] [] 24 [9]] in
  exists bytes f, read_gguf bytes = Ok f /\ gf_version f = 3 /\ gf_metadata f = m /\ length (gf_tensors f) = length ts /\
    forall i t, ts !! i = Some t -> exists info, gf_tensors f !! i = Some info /\ describes bytes f t info.
Proof.
  intros m ts. exists (match write_gguf 3 m ts with Ok b => b | _ => [] end).
  apply (gguf_roundtrip 3 m ts); [repeat constructor| | |by vm_compute..].
  - constructor; [|constructor; [|constructor]]; (split; [split; [by apply bytes_ok_check|by vm_compute]|]).
    + apply R_array. repeat (constructor; [apply R_array|]); repeat constructor; apply (R_scalar 1); constructor; lia.
    + apply (R_scalar 4). constructor. unfold is_u32. lia.
  - constructor; [|constructor; [|constructor; [|constructor]]]; (split; [split; [by apply bytes_ok_check|by vm_compute]|]);
      (split; [by vm_compute|]); (split; [repeat constructor; by vm_compute|]); (split; [by vm_compute|]); (split; [eexists; by vm_compute|]);
      by apply bytes_ok_check.
Defined.
