(* ===== verification/GgufStream.v ===== *)
(** * The streaming GGUF writer (crates/tritium-format/src/gguf_write.rs)

    A [GgufStreamWriter] over any destination with a [write_all] and a [flush]. An
    operation takes the writer's state and returns it with the outcome, since the state
    survives an error. The theorems: a finished stream wrote exactly what [write_gguf]
    returns, and a rejected chunk changes nothing. *)

From Stdlib Require Import ZArith Lia Bool.
From stdpp Require Import base list numbers.
From S2P Require Import Prelude Text Core FormatBase TwoBit LeCursor Corpus ByteMap Outcome Gguf GgufRead GgufWrite.

#[local] Open Scope Z_scope.

Definition STREAM_WRITE_CHUNK_BYTES : Z := 8 * 1024.

(** [std::io::Write], as far as the writer uses it. *)
Class Write (W : Type) (IoError : Type) : Type := {
  write_all : W -> list Z -> W * option IoError;
  w_flush : W -> W * option IoError }.

(** What the trait documents of [write_all]: on success every byte is written in order,
    on failure an unspecified prefix. *)
Class WriteLaws (W IoError : Type) `{Write W IoError} (written : W -> list Z) : Prop := {
  write_all_Ok : forall w b w', write_all w b = (w', None) -> written w' = written w ++ b;
  write_all_Err : forall w b w' e, write_all w b = (w', Some e) -> exists k, written w' = written w ++ take k b;
  flush_written : forall w w' r, w_flush w = (w', r) -> written w' = written w }.

Section Stream.
  Context {W IoError : Type} `{Write W IoError}.

Inductive GgufWriteError : Type :=
| WGguf (error : GgufError)
| WIo (error : IoError)
| TensorOutOfOrder (expected got : Z)
| StreamComplete (got : Z)
| TensorTooLong (tensor expected attempted : Z)
| TensorTooShort (tensor expected written : Z)
| Poisoned.

(** [for chunk in bytes.chunks(..)], with [?] on each write. *)
Fixpoint write_chunks (fuel : nat) (w : W) (bytes : list Z) : res IoError (W * option IoError) :=
  match bytes with
  | [] => Ok (w, None)
  | _ =>
      match fuel with
      | O => NoFuel
      | S fuel =>
          let n := Z.to_nat STREAM_WRITE_CHUNK_BYTES in
          match write_all w (take n bytes) with
          | (w, Some e) => Ok (w, Some e)
          | (w, None) => write_chunks fuel w (drop n bytes)
          end
      end
  end.

Definition write_all_bounded (w : W) (bytes : list Z) : res IoError (W * option IoError) := write_chunks (length bytes) w bytes.

Record GgufStreamWriter : Type := MkStream {
  gs_writer : W;
  gs_tensor_lengths : list Z;
  gs_offsets : list Z;
  gs_tensor_data_offset : Z;
  gs_position : Z;
  gs_next_tensor : Z;
  gs_tensor_written : Z;
  gs_poisoned : bool }.

Abbreviation Self := GgufStreamWriter.
Abbreviation wres := (res GgufWriteError).

Definition set_writer (self : Self) (w : W) (position : Z) (poisoned : bool) : Self :=
  MkStream w (gs_tensor_lengths self) (gs_offsets self) (gs_tensor_data_offset self) position (gs_next_tensor self) (gs_tensor_written self) poisoned.
Definition set_progress (self : Self) (next_tensor tensor_written : Z) : Self :=
  MkStream (gs_writer self) (gs_tensor_lengths self) (gs_offsets self) (gs_tensor_data_offset self) (gs_position self) next_tensor tensor_written (gs_poisoned self).

(** [while remaining != 0]. *)
Fixpoint pad_loop (fuel : nat) (self : Self) (remaining : Z) : Self * wres unit :=
  if remaining =? 0 then (self, Ok tt) else
  match fuel with
  | O => (self, NoFuel)
  | S fuel =>
      let count := Z.min remaining STREAM_WRITE_CHUNK_BYTES in
      match write_all (gs_writer self) (vec 0 count) with
      | (w, Some e) => (set_writer self w (gs_position self) true, Err (WIo e))
      | (w, None) =>
          match checked_add (gs_position self) count with
          | None => (set_writer self w (gs_position self) (gs_poisoned self), Panic)
          | Some position => pad_loop fuel (set_writer self w position (gs_poisoned self)) (remaining - count)
          end
      end
  end.

Definition pad_to (self : Self) (target : Z) : Self * wres unit :=
  match checked_sub target (gs_position self) with
  | None => (self, Err (WGguf DimsOverflow))
  | Some remaining => pad_loop (S (Z.to_nat remaining)) self remaining
  end.

(** [while self.next_tensor < self.tensor_lengths.len()]. *)
Fixpoint prepare_loop (fuel : nat) (self : Self) : Self * wres unit :=
  if negb (gs_next_tensor self <? zlen (gs_tensor_lengths self)) then (self, Ok tt) else
  match fuel with
  | O => (self, NoFuel)
  | S fuel =>
      match gs_offsets self !! Z.to_nat (gs_next_tensor self) with
      | None => (self, Panic)
      | Some offset =>
          match checked_add (gs_tensor_data_offset self) offset with
          | None => (self, Err (WGguf DimsOverflow))
          | Some target =>
              match pad_to self target with
              | (self, Ok _) =>
                  if negb (bget (gs_tensor_lengths self) (gs_next_tensor self) =? 0) then (self, Ok tt)
                  else prepare_loop fuel (set_progress self (gs_next_tensor self + 1) (gs_tensor_written self))
              | failed => failed
              end
          end
      end
  end.

Definition prepare_next_tensor (self : Self) : Self * wres unit := prepare_loop (S (length (gs_tensor_lengths self))) self.

Definition lift_gguf {A} (m : gres A) : wres A := map_err WGguf m.

(** [GgufStreamWriter::new]; the destination is returned with the outcome. *)
Definition stream_new (w : W) (version : Z) (metadata : list (list Z * GgufValue)) (tensors : list GgufTensorSpec) : W * wres Self :=
  match lift_gguf (build_layout version metadata tensors) with
  | Ok layout =>
      match write_all_bounded w (gl_header layout) with
      | Ok (w, None) =>
          let stream := MkStream w (sp_data_len <$> tensors) (gl_offsets layout) (gl_tensor_data_offset layout) (zlen (gl_header layout)) 0 0 false in
          match pad_to stream (gl_tensor_data_offset layout) with
          | (stream, Ok _) =>
              match prepare_next_tensor stream with
              | (stream, Ok _) => (gs_writer stream, Ok stream)
              | (stream, Err e) => (gs_writer stream, Err e)
              | (stream, Panic) => (gs_writer stream, Panic)
              | (stream, NoFuel) => (gs_writer stream, NoFuel)
              end
          | (stream, Err e) => (gs_writer stream, Err e)
          | (stream, Panic) => (gs_writer stream, Panic)
          | (stream, NoFuel) => (gs_writer stream, NoFuel)
          end
      | Ok (w, Some e) => (w, Err (WIo e))
      | _ => (w, NoFuel)
      end
  | Err e => (w, Err e)
  | Panic => (w, Panic)
  | NoFuel => (w, NoFuel)
  end.

Definition write_tensor_chunk (self : Self) (tensor_index : Z) (chunk : list Z) : Self * wres unit :=
  if gs_poisoned self then (self, Err Poisoned) else
  if gs_next_tensor self =? zlen (gs_tensor_lengths self) then (self, Err (StreamComplete tensor_index)) else
  if negb (tensor_index =? gs_next_tensor self) then (self, Err (TensorOutOfOrder (gs_next_tensor self) tensor_index)) else
  match gs_tensor_lengths self !! Z.to_nat tensor_index with
  | None => (self, Panic)
  | Some expected =>
      match checked_add (gs_tensor_written self) (zlen chunk) with
      | None => (self, Err (TensorTooLong tensor_index expected u64_max))
      | Some attempted =>
          if expected <? attempted then (self, Err (TensorTooLong tensor_index expected attempted)) else
          match write_all_bounded (gs_writer self) chunk with
          | Ok (w, Some e) => (set_writer self w (gs_position self) true, Err (WIo e))
          | Ok (w, None) =>
              match checked_add (gs_position self) (zlen chunk) with
              | None => (set_writer self w (gs_position self) (gs_poisoned self), Err (WGguf DimsOverflow))
              | Some position =>
                  let self := set_writer self w position (gs_poisoned self) in
                  if attempted =? expected then prepare_next_tensor (set_progress self (gs_next_tensor self + 1) 0)
                  else (set_progress self (gs_next_tensor self) attempted, Ok tt)
              end
          | _ => (self, NoFuel)
          end
      end
  end.

Definition finish (self : Self) : W * wres W :=
  if gs_poisoned self then (gs_writer self, Err Poisoned) else
  if gs_next_tensor self <? zlen (gs_tensor_lengths self) then
    (gs_writer self, Err (TensorTooShort (gs_next_tensor self) (bget (gs_tensor_lengths self) (gs_next_tensor self)) (gs_tensor_written self)))
  else
    match w_flush (gs_writer self) with
    | (w, Some e) => (w, Err (WIo e))
    | (w, None) => (w, Ok w)
    end.
End Stream.

(** * Padding *)

Section Laws.
  Context {W IoError : Type} `{HW : Write W IoError} {written : W -> list Z} `{!WriteLaws W IoError written}.

Lemma write_chunks_Ok fuel : forall w bytes, (length bytes <= fuel)%nat -> exists w' r, write_chunks fuel w bytes = Ok (w', r) /\
  (r = None -> written w' = written w ++ bytes).
Proof.
  induction fuel as [|fuel IH]; intros w [|b bytes] Hf; [|simpl in Hf; lia|..]; try (by exists w, None; split; [done|]; intros _; rewrite app_nil_r).
  cbn [write_chunks]. set (n := Z.to_nat STREAM_WRITE_CHUNK_BYTES). destruct (write_all w (take n (b :: bytes))) as [w1 [e|]] eqn:Hw.
  - exists w1, (Some e). by split.
  - destruct (IH w1 (drop n (b :: bytes))) as (w2 & r & -> & Hr).
    { rewrite length_drop. assert (n > 0)%nat by (unfold n, STREAM_WRITE_CHUNK_BYTES; lia). simpl in *. lia. }
    exists w2, r. split; [done|]. intros Hn. rewrite (Hr Hn), (write_all_Ok _ _ _ Hw), <- app_assoc, take_drop. done.
Qed.

Lemma write_bounded_Ok w bytes : exists w' r, write_all_bounded w bytes = Ok (w', r) /\ (r = None -> written w' = written w ++ bytes).
Proof. by apply write_chunks_Ok. Qed.

Abbreviation Self := (@GgufStreamWriter W).

(** Same tensors, same progress. *)
Definition same_plan (s s' : Self) : Prop :=
  gs_tensor_lengths s' = gs_tensor_lengths s /\ gs_offsets s' = gs_offsets s /\ gs_tensor_data_offset s' = gs_tensor_data_offset s /\
  gs_next_tensor s' = gs_next_tensor s /\ gs_tensor_written s' = gs_tensor_written s.

(** A step that may lose the destination: [Ok] with [Q], or an I/O error and poisoned. *)
Definition ok_or_poisoned (Q : Self -> Prop) (r : Self * res (GgufWriteError (IoError := IoError)) unit) : Prop :=
  (snd r = Ok tt /\ Q (fst r)) \/ ((exists e, snd r = Err (WIo e)) /\ gs_poisoned (fst r) = true).

Lemma pad_loop_Ok fuel : forall (s : Self) remaining, 0 <= remaining -> remaining < Z.of_nat fuel -> 0 <= gs_position s ->
  gs_position s + remaining <= usize_max ->
  ok_or_poisoned (fun s' => same_plan s s' /\ gs_poisoned s' = gs_poisoned s /\ gs_position s' = gs_position s + remaining /\
    written (gs_writer s') = written (gs_writer s) ++ vec 0 remaining) (pad_loop fuel s remaining).
Proof.
  induction fuel as [|fuel IH]; intros s rem H0 Hf Hp Hm; [lia|]. cbn [pad_loop]. destruct (Z.eqb_spec rem 0) as [->|Hne].
  { left. split; [done|]. cbn [fst]. split; [done|]. split; [done|]. split; [lia|]. by rewrite vec_nil, app_nil_r by lia. }
  assert (Hcb : STREAM_WRITE_CHUNK_BYTES = 8192) by done. set (count := Z.min rem STREAM_WRITE_CHUNK_BYTES).
  destruct (write_all (gs_writer s) (vec 0 count)) as [w [e|]] eqn:Hw; [right; split; [by exists e|done]|].
  unfold checked_add. replace (_ <=? usize_max) with true by lia.
  destruct (IH (set_writer s w (gs_position s + count) (gs_poisoned s)) (rem - count)) as [[Hr (Hs & Hpo & Hpos & Hwr)]|Hbad]; cbn [set_writer gs_position] in *; try lia.
  - left. split; [done|]. split; [done|]. split; [done|]. split; [lia|]. rewrite Hwr. cbn [gs_writer]. rewrite (write_all_Ok _ _ _ Hw), <- app_assoc. f_equal.
    unfold vec. rewrite <- replicate_add. f_equal. lia.
  - by right.
Qed.

Lemma pad_to_Ok (s : Self) target : 0 <= gs_position s <= target -> target <= usize_max ->
  ok_or_poisoned (fun s' => same_plan s s' /\ gs_poisoned s' = gs_poisoned s /\ gs_position s' = target /\
    written (gs_writer s') = written (gs_writer s) ++ vec 0 (target - gs_position s)) (pad_to s target).
Proof.
  intros Hp Hm. unfold pad_to, checked_sub. replace (_ <=? target) with true by lia.
  destruct (pad_loop_Ok (S (Z.to_nat (target - gs_position s))) s (target - gs_position s)) as [[Hr (Hs & Hpo & Hpos & Hw)]|Hbad]; [lia..| |by right].
  left. split; [done|]. split; [done|]. split; [done|]. split; [lia|done].
Qed.

(** * The state of a stream *)

(** Where the payloads written so far end, relative to the data section. *)
Fixpoint data_end (e : Z) (z : list (list Z * Z)) : Z :=
  match z with [] => e | (d, off) :: z' => data_end (off + zlen d) z' end.

Lemma data_section_snoc z d off : forall e, data_section e (z ++ [(d, off)]) = data_section e z ++ vec 0 (off - data_end e z) ++ d.
Proof. induction z as [|[d0 o0] z IH]; intros e; simpl; [by rewrite app_nil_r|]. rewrite IH. by rewrite <- !app_assoc. Qed.

Lemma data_end_snoc z d off : forall e, data_end e (z ++ [(d, off)]) = off + zlen d.
Proof. induction z as [|[d0 o0] z IH]; intros e; simpl; [done|]. apply IH. Qed.

Lemma zip_snoc {A B} (l : list A) (k : list B) x y : k !! length l = Some y -> zip (l ++ [x]) k = zip l k ++ [(x, y)].
Proof. revert k. induction l as [|z l IH]; intros [|w k] H; try done; simpl in *; [by injection H as ->|]. f_equal. by apply IH. Qed.

(** Complete payloads have their declared lengths. *)
Definition lens_ok (lens : list Z) (pays : list (list Z)) : Prop := forall i d, pays !! i = Some d -> lens !! i = Some (zlen d).

Lemma lens_ok_snoc lens pays d : lens_ok lens pays -> lens !! length pays = Some (zlen d) -> lens_ok lens (pays ++ [d]).
Proof.
  intros Hl Hd i x Hi. destruct (Nat.lt_ge_cases i (length pays)) as [Hlt|Hge].
  - rewrite lookup_app_l in Hi by done. by apply Hl.
  - rewrite lookup_app_r in Hi by done. apply list_lookup_singleton_Some in Hi as [Hi <-]. by replace i with (length pays) by lia.
Qed.

Lemma placed_next a e ts offs e' : placed a e ts offs e' -> Forall spec_ok ts -> forall pays off, lens_ok (sp_data_len <$> ts) pays -> offs !! length pays = Some off ->
  data_end e (zip pays offs) <= off /\ zlen (data_section e (zip pays offs)) = data_end e (zip pays offs) - e /\ e <= data_end e (zip pays offs) /\
  exists len, (sp_data_len <$> ts) !! length pays = Some len /\ 0 <= len /\ off + len <= e'.
Proof.
  induction 1 as [|e t ts off0 offs e' _ Hle _ _ Hp IH]; intros Hts pays off Hl Ho; [done|]. apply list.Forall_cons in Hts as [Ht Hts].
  destruct (placed_bounds _ _ _ _ _ Hts Hp) as [Hb _]. destruct Ht as (_ & _ & _ & _ & _ & Hlen). destruct pays as [|d pays].
  - injection Ho as ->. simpl. change (zlen (@nil Z)) with 0. split; [done|]. split; [lia|]. split; [lia|]. exists (sp_data_len t). split; [done|lia].
  - pose proof (Hl 0%nat d eq_refl) as Hd. rewrite fmap_cons in Hd. injection Hd as Hd. rewrite Hd in *.
    destruct (IH Hts pays off) as (H1 & H2 & H3 & len & H4 & H5); [intros i x Hi; apply (Hl (S i) x Hi)|done|].
    cbn [zip_with data_end data_section]. rewrite !zlen_app, zlen_vec, H2. pose proof (zlen_nonneg d). split; [done|]. split; [lia|]. split; [lia|]. by exists len.
Qed.

(** The same for a complete stream. *)
Lemma placed_end a e ts offs e' : placed a e ts offs e' -> Forall spec_ok ts -> forall pays, lens_ok (sp_data_len <$> ts) pays ->
  zlen (data_section e (zip pays offs)) = data_end e (zip pays offs) - e /\ e <= data_end e (zip pays offs) <= e'.
Proof.
  induction 1 as [|e t ts off0 offs e' _ Hle _ _ Hp IH]; intros Hts pays Hl.
  - destruct pays; simpl; change (zlen (@nil Z)) with 0; lia.
  - apply list.Forall_cons in Hts as [Ht Hts]. destruct (placed_bounds _ _ _ _ _ Hts Hp) as [Hb _]. destruct Ht as (_ & _ & _ & _ & _ & Hlen).
    destruct pays as [|d pays]; [simpl; change (zlen (@nil Z)) with 0; lia|].
    pose proof (Hl 0%nat d eq_refl) as Hd. rewrite fmap_cons in Hd. injection Hd as Hd. rewrite Hd in *.
    destruct (IH Hts pays) as (H2 & H3); [intros i x Hi; apply (Hl (S i) x Hi)|].
    cbn [zip_with data_end data_section]. rewrite !zlen_app, zlen_vec, H2. pose proof (zlen_nonneg d). lia.
Qed.

Section Run.
  Context (version : Z) (m : list (list Z * GgufValue)) (ts : list GgufTensorSpec) (l : GgufLayout) (a e' : Z) (w0 : list Z).
  Context (Hts : Forall spec_ok ts) (L : layout_of version m ts l a e').

Definition lens : list Z := sp_data_len <$> ts.

(** The fixed part of the state, and what has reached the destination. *)
Record base (s : Self) (pays : list (list Z)) (out : list Z) : Prop := {
  ba_lens : gs_tensor_lengths s = lens;
  ba_offsets : gs_offsets s = gl_offsets l;
  ba_offset : gs_tensor_data_offset s = gl_tensor_data_offset l;
  ba_sound : gs_poisoned s = false;
  ba_next : gs_next_tensor s = zlen pays;
  ba_done : lens_ok lens pays;
  ba_position : gs_position s = zlen out;
  ba_written : written (gs_writer s) = w0 ++ out }.

(** The destination after the payloads [pays]. *)
Definition sofar (pays : list (list Z)) : list Z :=
  gl_header l ++ vec 0 (gl_tensor_data_offset l - zlen (gl_header l)) ++ data_section 0 (zip pays (gl_offsets l)).

(** Before the padding of the next tensor. *)
Definition unprepared (s : Self) (pays : list (list Z)) : Prop := base s pays (sofar pays) /\ gs_tensor_written s = 0.

(** Within the next tensor, which is not empty, after [part] of it; or complete. *)
Definition prepared (s : Self) (pays : list (list Z)) (part : list Z) : Prop :=
  gs_tensor_written s = zlen part /\
  match gl_offsets l !! length pays with
  | Some off => base s pays (sofar pays ++ vec 0 (off - data_end 0 (zip pays (gl_offsets l))) ++ part) /\
                exists len, lens !! length pays = Some len /\ zlen part < len
  | None => base s pays (sofar pays) /\ part = [] /\ length pays = length ts
  end.

Lemma offs_length : length (gl_offsets l) = length ts.
Proof. apply (placed_bounds _ _ _ _ _ Hts (ly_placed _ _ _ _ _ _ L)). Qed.

Lemma zlen_sofar pays : lens_ok lens pays -> zlen (sofar pays) = gl_tensor_data_offset l + data_end 0 (zip pays (gl_offsets l)) /\
  0 <= data_end 0 (zip pays (gl_offsets l)) <= e'.
Proof.
  intros Hd. destruct (placed_end _ _ _ _ _ (ly_placed _ _ _ _ _ _ L) Hts pays Hd) as [H1 H2]. destruct (layout_offset _ _ _ _ _ _ L) as [Ho _].
  unfold sofar. rewrite !zlen_app, zlen_vec, H1. split; lia.
Qed.

Lemma lens_bound pays : lens_ok lens pays -> (length pays <= length ts)%nat.
Proof.
  intros Hd. destruct (decide (length pays = 0)%nat); [lia|]. destruct (lookup_lt_is_Some_2 pays (pred (length pays)) ltac:(lia)) as [d Hi].
  apply Hd, lookup_lt_Some in Hi. unfold lens in Hi. rewrite length_fmap in Hi. lia.
Qed.

Lemma sofar_snoc pays d off : gl_offsets l !! length pays = Some off ->
  sofar (pays ++ [d]) = sofar pays ++ vec 0 (off - data_end 0 (zip pays (gl_offsets l))) ++ d.
Proof. intros Ho. unfold sofar. rewrite (zip_snoc _ _ _ off), data_section_snoc by done. by rewrite <- !app_assoc. Qed.

Lemma prepare_loop_Ok fuel : forall s pays, unprepared s pays -> (length ts < fuel + length pays)%nat ->
  ok_or_poisoned (fun s' => exists k, prepared s' (pays ++ replicate k []) []) (prepare_loop fuel s).
Proof.
  induction fuel as [|fuel IH]; intros s pays [B Hw0] Hf; [pose proof (lens_bound pays (ba_done _ _ _ B)); lia|].
  pose proof (ba_done _ _ _ B) as Hd. pose proof (lens_bound pays Hd) as Hle. destruct (zlen_sofar pays Hd) as [Hz He]. pose proof (ly_end _ _ _ _ _ _ L) as Hmax.
  cbn [prepare_loop]. rewrite (ba_next _ _ _ B), (ba_lens _ _ _ B). unfold lens at 1. rewrite zlen_fmap. destruct (Z.ltb_spec (zlen pays) (zlen ts)) as [Hlt|Hge]; cbn [negb].
  - destruct (lookup_lt_is_Some_2 (gl_offsets l) (length pays)) as [off Ho]; [rewrite offs_length; unfold zlen in Hlt; lia|].
    destruct (placed_next _ _ _ _ _ (ly_placed _ _ _ _ _ _ L) Hts pays off Hd Ho) as (Hoff & _ & _ & len & Hlen & Hl0 & Hle'). fold lens in Hlen.
    rewrite (ba_offsets _ _ _ B), (ba_offset _ _ _ B). replace (Z.to_nat (zlen pays)) with (length pays) by (unfold zlen; lia). rewrite Ho. unfold checked_add.
    destruct (layout_offset _ _ _ _ _ _ L) as [Hhd _]. pose proof (zlen_nonneg (gl_header l)). replace (_ <=? usize_max) with true by lia.
    pose proof (ba_position _ _ _ B) as Hpos. destruct (pad_to_Ok s (gl_tensor_data_offset l + off)) as [[Hr ((P1 & P2 & P3 & P4 & P5) & Hpo & Hps & Hwr)]|[[e Hr] Hbad]]; [lia..| |].
    + destruct (pad_to s _) as [s1 r1]. cbn [fst snd] in *. subst r1.
      assert (B1 : base s1 pays (sofar pays ++ vec 0 (off - data_end 0 (zip pays (gl_offsets l))))).
      { split; try (rewrite ?P1, ?P2, ?P3, ?P4, ?Hpo; apply B); [rewrite Hps, zlen_app, zlen_vec; lia|].
        rewrite Hwr, (ba_written _ _ _ B), <- app_assoc.
        by replace (gl_tensor_data_offset l + off - gs_position s) with (off - data_end 0 (zip pays (gl_offsets l))) by lia. }
      rewrite P1, P4, (ba_next _ _ _ B), (ba_lens _ _ _ B). unfold bget. replace (Z.to_nat (zlen pays)) with (length pays) by (unfold zlen; lia). rewrite Hlen. cbn [from_option id].
      destruct (Z.eqb_spec len 0) as [->|Hne]; cbn [negb].
      * destruct (IH (set_progress s1 (zlen pays + 1) (gs_tensor_written s1)) (pays ++ [[]])) as [[Hr2 [k Hk]]|Hbad].
        -- split; [|cbn [set_progress gs_tensor_written]; by rewrite P5]. split; cbn [set_progress gs_tensor_lengths gs_offsets gs_tensor_data_offset gs_poisoned gs_next_tensor gs_position gs_writer]; try apply B1.
           ++ rewrite zlen_app. done.
           ++ by apply lens_ok_snoc.
           ++ rewrite (ba_position _ _ _ B1), (sofar_snoc _ _ off), app_nil_r by done. done.
           ++ rewrite (ba_written _ _ _ B1), (sofar_snoc _ _ off), app_nil_r by done. done.
        -- rewrite length_app. simpl. lia.
        -- left. split; [done|]. exists (S k). cbn [replicate]. rewrite <- app_assoc in Hk. exact Hk.
        -- by right.
      * left. split; [done|]. exists 0%nat. cbn [replicate]. rewrite app_nil_r. split; [cbn [fst]; by rewrite P5|]. rewrite Ho. cbn [fst]. rewrite app_nil_r.
        split; [done|]. exists len. split; [done|]. change (zlen (@nil Z)) with 0. lia.
    + right. destruct (pad_to s _) as [s1 r1]. cbn [fst snd] in *. subst r1. split; [by exists e|done].
  - left. split; [done|]. exists 0%nat. cbn [replicate fst]. rewrite app_nil_r. split; [done|].
    rewrite lookup_ge_None_2 by (rewrite offs_length; unfold zlen in Hge; lia). split; [done|]. split; [done|]. unfold zlen in Hge. lia.
Qed.

(** Why a chunk is refused after the payloads [pays] and [part] of the next one. *)
Definition refusal (pays : list (list Z)) (part : list Z) (index : Z) (chunk : list Z) : option (GgufWriteError (IoError := IoError)) :=
  match lens !! length pays with
  | None => Some (StreamComplete index)
  | Some len =>
      if negb (index =? zlen pays) then Some (TensorOutOfOrder (zlen pays) index) else
      if usize_max <? zlen part + zlen chunk then Some (TensorTooLong index len u64_max) else
      if len <? zlen part + zlen chunk then Some (TensorTooLong index len (zlen part + zlen chunk)) else None
  end.

(** The payloads after an accepted chunk: the tensor goes on, or it is complete and the
    empty tensors after it are too. *)
Definition extended (pays : list (list Z)) (part chunk : list Z) (pays' : list (list Z)) (part' : list Z) : Prop :=
  (pays' = pays /\ part' = part ++ chunk) \/
  (exists k, pays' = pays ++ (part ++ chunk) :: replicate k [] /\ part' = []).

Lemma prepared_base s pays part : prepared s pays part -> exists out, base s pays out.
Proof. intros [_ H]. destruct (gl_offsets l !! length pays); destruct H as [B _]; by eexists. Qed.

Lemma write_chunk_step s pays part i chunk : prepared s pays part ->
  match refusal pays part i chunk with
  | Some e => write_tensor_chunk s i chunk = (s, Err e)
  | None => ok_or_poisoned (fun s' => exists pays' part', extended pays part chunk pays' part' /\ prepared s' pays' part') (write_tensor_chunk s i chunk)
  end.
Proof.
  intros Hp. destruct (prepared_base _ _ _ Hp) as [out0 B0]. destruct Hp as [Hw Hp]. pose proof (lens_bound pays (ba_done _ _ _ B0)) as Hle.
  assert (Hll : length lens = length ts) by (unfold lens; by rewrite length_fmap).
  unfold write_tensor_chunk. rewrite (ba_sound _ _ _ B0), (ba_next _ _ _ B0), (ba_lens _ _ _ B0). unfold refusal.
  destruct (lens !! length pays) as [len|] eqn:Hlen.
  2:{ apply lookup_ge_None_1 in Hlen. by replace (zlen pays =? zlen lens) with true by (unfold zlen; lia). }
  pose proof (lookup_lt_Some _ _ _ Hlen) as Hlt. replace (zlen pays =? zlen lens) with false by (unfold zlen; lia).
  destruct (Z.eqb_spec i (zlen pays)) as [->|]; cbn [negb]; [|done].
  replace (Z.to_nat (zlen pays)) with (length pays) by (unfold zlen; lia). rewrite Hlen, Hw.
  destruct (Z.ltb_spec usize_max (zlen part + zlen chunk)) as [|Hov]; [unfold checked_add; by replace (_ <=? usize_max) with false by lia|].
  replace (checked_add (zlen part) (zlen chunk)) with (Some (zlen part + zlen chunk)) by (unfold checked_add; by replace (_ <=? usize_max) with true by lia).
  destruct (Z.ltb_spec len (zlen part + zlen chunk)) as [|Hfit]; [done|].
  destruct (lookup_lt_is_Some_2 (gl_offsets l) (length pays)) as [off Ho]; [rewrite offs_length; lia|]. rewrite Ho in Hp. destruct Hp as [B _].
  destruct (placed_next _ _ _ _ _ (ly_placed _ _ _ _ _ _ L) Hts pays off (ba_done _ _ _ B) Ho) as (Hoff & _ & _ & len' & Hlen' & _ & Hend).
  fold lens in Hlen'. rewrite Hlen in Hlen'. injection Hlen' as <-. destruct (zlen_sofar pays (ba_done _ _ _ B)) as [Hz He].
  destruct (write_bounded_Ok (gs_writer s) chunk) as (w & r & -> & Hwr). destruct r as [e|]; [right; split; [by exists e|done]|]. specialize (Hwr eq_refl).
  pose proof (ly_end _ _ _ _ _ _ L) as Hmax. pose proof (ba_position _ _ _ B) as Hpos. rewrite !zlen_app, zlen_vec, Hz in Hpos.
  unfold checked_add. replace (_ <=? usize_max) with true by lia.
  set (s1 := set_writer s w (gs_position s + zlen chunk) false).
  set (out := sofar pays ++ vec 0 (off - data_end 0 (zip pays (gl_offsets l))) ++ part ++ chunk).
  assert (B1 : base s1 pays out).
  { split; try apply B; [done|..]; unfold s1, out; cbn [set_writer gs_position gs_writer]; [rewrite (ba_position _ _ _ B), !zlen_app; lia|].
    rewrite Hwr, (ba_written _ _ _ B). by rewrite <- !app_assoc. }
  destruct (Z.eqb_spec (zlen part + zlen chunk) len) as [Heq|Hne].
  - unfold prepare_next_tensor. set (s2 := set_progress _ _ _).
    destruct (prepare_loop_Ok (S (length (gs_tensor_lengths s2))) s2 (pays ++ [part ++ chunk])) as [[Hr [k Hk]]|Hbad].
    + split; [|done]. split; try apply B1.
      * change (gs_next_tensor s2) with (gs_next_tensor s1 + 1). rewrite (ba_next _ _ _ B1), zlen_app. done.
      * apply lens_ok_snoc; [apply B|]. by rewrite zlen_app, Heq.
      * change (gs_position s2) with (gs_position s1). rewrite (ba_position _ _ _ B1), (sofar_snoc _ _ off) by done. done.
      * change (gs_writer s2) with (gs_writer s1). rewrite (ba_written _ _ _ B1), (sofar_snoc _ _ off) by done. done.
    + change (gs_tensor_lengths s2) with (gs_tensor_lengths s1). rewrite (ba_lens _ _ _ B1), Hll. lia.
    + left. split; [done|]. eexists _, _. split; [|exact Hk]. right. exists k. split; [|done]. by rewrite <- app_assoc.
    + by right.
  - left. split; [done|]. exists pays, (part ++ chunk). split; [by left|]. cbn [fst]. split; [cbn [set_progress gs_tensor_written]; by rewrite zlen_app|].
    rewrite Ho. split.
    + split; apply B1.
    + exists len. split; [done|]. rewrite zlen_app. lia.
Qed.

(** * Runs *)

(** Chunks in order, up to the first error. *)
Fixpoint feed (s : Self) (ops : list (Z * list Z)) : Self * res (GgufWriteError (IoError := IoError)) unit :=
  match ops with
  | [] => (s, Ok tt)
  | (i, chunk) :: ops' => match write_tensor_chunk s i chunk with (s, Ok _) => feed s ops' | failed => failed end
  end.

(** The bytes sent for tensor [i]. *)
Definition sent (ops : list (Z * list Z)) (i : nat) : list Z := concat (snd <$> filter (fun op => fst op = Z.of_nat i) ops).

Lemma sent_cons i chunk ops j : sent ((i, chunk) :: ops) j = (if decide (i = Z.of_nat j) then chunk else []) ++ sent ops j.
Proof. unfold sent. rewrite filter_cons. cbn [fst]. case_decide; [|done]. by rewrite fmap_cons. Qed.

Lemma extended_at pays part chunk pays' part' j : extended pays part chunk pays' part' ->
  default [] ((pays' ++ [part']) !! j) = default [] ((pays ++ [part]) !! j) ++ (if decide (zlen pays = Z.of_nat j) then chunk else []).
Proof.
  intros [[-> ->]|(k & -> & ->)].
  - destruct (Nat.lt_trichotomy j (length pays)) as [Hlt|[->|Hgt]].
    + rewrite !lookup_app_l by done. rewrite decide_False by (unfold zlen; lia). by rewrite app_nil_r.
    + rewrite !list_lookup_middle by done. by rewrite decide_True by done.
    + rewrite !lookup_ge_None_2 by (rewrite length_app; simpl; lia). by rewrite decide_False by (unfold zlen; lia).
  - rewrite <- app_assoc. destruct (Nat.lt_trichotomy j (length pays)) as [Hlt|[->|Hgt]].
    + rewrite !lookup_app_l by done. rewrite decide_False by (unfold zlen; lia). by rewrite app_nil_r.
    + cbn [app]. rewrite !list_lookup_middle by done. by rewrite decide_True by done.
    + rewrite (lookup_ge_None_2 (pays ++ [part])) by (rewrite length_app; simpl; lia). rewrite decide_False by (unfold zlen; lia).
      rewrite lookup_app_r by lia. destruct (j - length pays)%nat as [|n] eqn:E; [lia|]. cbn [app lookup list_lookup].
      destruct ((replicate k [] ++ [[]]) !! n) as [x|] eqn:Hx; [|done]. apply list_elem_of_lookup_2 in Hx.
      apply elem_of_app in Hx as [Hx|Hx]; [by apply elem_of_replicate in Hx as [-> _]|by apply list_elem_of_singleton in Hx as ->].
Qed.

Lemma feed_Ok ops : forall s pays part s', prepared s pays part -> feed s ops = (s', Ok tt) ->
  exists pays' part', prepared s' pays' part' /\
    forall j, default [] ((pays' ++ [part']) !! j) = default [] ((pays ++ [part]) !! j) ++ sent ops j.
Proof.
  induction ops as [|[i chunk] ops IH]; intros s pays part s' Hp Hf.
  - injection Hf as <-. exists pays, part. split; [done|]. intros j. by rewrite app_nil_r.
  - cbn [feed] in Hf. pose proof (write_chunk_step s pays part i chunk Hp) as Hstep. destruct (refusal pays part i chunk) as [e|] eqn:Hr.
    { by rewrite Hstep in Hf. }
    assert (Hi : i = zlen pays). { unfold refusal in Hr. destruct (lens !! length pays); [|done]. destruct (Z.eqb_spec i (zlen pays)); [done|by cbn in Hr]. }
    destruct (write_tensor_chunk s i chunk) as [s1 r1]. destruct Hstep as [[Hok (p1 & q1 & Hx & Hp1)]|[[e Hbad] _]]; cbn [fst snd] in *; subst r1; [|done].
    destruct (IH _ _ _ _ Hp1 Hf) as (p2 & q2 & Hp2 & Hj). exists p2, q2. split; [done|]. intros j.
    rewrite Hj, (extended_at _ _ _ _ _ j Hx), sent_cons, Hi. by rewrite app_assoc.
Qed.

Lemma stream_new_Ok w w' r : written w = w0 -> Forall rust_entry m -> build_layout version m ts = Ok l -> stream_new w version m ts = (w', r) ->
  (exists s k, r = Ok s /\ w' = gs_writer s /\ prepared s (replicate k []) []) \/ exists e, r = Err (WIo e).
Proof.
  intros Hw0 Hm Hl Hn. unfold stream_new in Hn. rewrite Hl in Hn. cbn [lift_gguf map_err] in Hn.
  destruct (write_bounded_Ok w (gl_header l)) as (w1 & r1 & E & Hw). rewrite E in Hn. destruct r1 as [e|]; [injection Hn as <- <-; right; by exists e|].
  specialize (Hw eq_refl). destruct (layout_offset _ _ _ _ _ _ L) as [Ho _]. pose proof (zlen_nonneg (gl_header l)).
  destruct (placed_bounds _ _ _ _ _ Hts (ly_placed _ _ _ _ _ _ L)) as [He _]. pose proof (ly_end _ _ _ _ _ _ L).
  set (s0 := MkStream _ _ _ _ _ _ _ _) in Hn.
  destruct (pad_to_Ok s0 (gl_tensor_data_offset l)) as [[Hr ((P1 & P2 & P3 & P4 & P5) & Hpo & Hps & Hwr)]|[[e Hr] _]]; [cbn [s0 gs_position]; lia|lia| |];
    (destruct (pad_to s0 (gl_tensor_data_offset l)) as [s1 q1]; cbn [fst snd] in *; subst q1); [|injection Hn as <- <-; right; by exists e].
  assert (U : unprepared s1 []).
  { split; [|by rewrite P5]. split; rewrite ?P1, ?P2, ?P3, ?P4, ?Hpo; try done.
    - rewrite Hps. unfold sofar. cbn [zip_with data_section]. rewrite !zlen_app, zlen_vec. change (zlen (@nil Z)) with 0. lia.
    - rewrite Hwr. cbn [s0 gs_writer gs_position]. rewrite Hw, Hw0. unfold sofar. cbn [zip_with data_section]. by rewrite app_nil_r, <- app_assoc. }
  unfold prepare_next_tensor in Hn. destruct (prepare_loop_Ok (S (length (gs_tensor_lengths s1))) s1 [] U) as [[Hr [k Hk]]|[[e Hr] _]].
  - rewrite (ba_lens _ _ _ (proj1 U)). unfold lens. rewrite length_fmap. simpl. lia.
  - destruct (prepare_loop _ s1) as [s2 q2]. cbn [fst snd] in *. subst q2. injection Hn as <- <-. left. by exists s2, k.
  - destruct (prepare_loop _ s1) as [s2 q2]. cbn [fst snd] in *. subst q2. injection Hn as <- <-. right. by exists e.
Qed.

Lemma finish_Ok s pays part w' w'' : prepared s pays part -> finish s = (w', Ok w'') ->
  w'' = w' /\ part = [] /\ length pays = length ts /\ lens_ok lens pays /\ written w' = w0 ++ file_bytes l pays.
Proof.
  intros Hp Hf. destruct (prepared_base _ _ _ Hp) as [out0 B0]. unfold finish in Hf. rewrite (ba_sound _ _ _ B0), (ba_next _ _ _ B0), (ba_lens _ _ _ B0) in Hf.
  destruct (Z.ltb_spec (zlen pays) (zlen lens)) as [|Hge]; [done|]. unfold lens in Hge. rewrite zlen_fmap in Hge.
  destruct Hp as [_ Hp]. rewrite lookup_ge_None_2 in Hp by (rewrite offs_length; unfold zlen in Hge; lia). destruct Hp as (B & -> & Hlen).
  destruct (w_flush (gs_writer s)) as [w1 [e|]] eqn:Hfl; [done|]. injection Hf as <- <-. split; [done|]. split; [done|]. split; [done|].
  split; [apply B|]. rewrite (flush_written _ _ _ Hfl), (ba_written _ _ _ B). done.
Qed.
End Run.

(** * Properties *)

Lemma build_of_new w version m ts w1 (s : Self) : stream_new w version m ts = (w1, Ok s) -> exists l, build_layout version m ts = Ok l.
Proof. unfold stream_new. destruct (build_layout version m ts) as [l| | |]; cbn; try done. intros _. by exists l. Qed.

(** The tensors a run of chunks carries. *)
Definition carried (ts : list GgufTensorSpec) (ops : list (Z * list Z)) : list TensorOut :=
  imap (fun i t => MkTensorOut (sp_name t) (sp_dims t) (sp_type t) (sent ops i)) ts.

Lemma carried_pays ts ops pays : length pays = length ts -> lens_ok (sp_data_len <$> ts) pays -> (forall j, default [] (pays !! j) = sent ops j) ->
  spec_of <$> carried ts ops = ts /\ to_data <$> carried ts ops = pays.
Proof.
  intros Hlen Hl Hs. unfold carried. split; apply list_eq; intros i; rewrite list_lookup_fmap, list_lookup_imap.
  - destruct (ts !! i) as [t|] eqn:Ht; [|done]. cbn. f_equal. destruct (lookup_lt_is_Some_2 pays i) as [d Hd]; [rewrite Hlen; by eapply lookup_lt_Some|].
    pose proof (Hl i d Hd) as Hz. rewrite list_lookup_fmap, Ht in Hz. injection Hz as Hz. specialize (Hs i). rewrite Hd in Hs. cbn in Hs.
    rewrite <- Hs. unfold spec_of. cbn. rewrite <- Hz. by destruct t.
  - destruct (ts !! i) as [t|] eqn:Ht.
    + destruct (lookup_lt_is_Some_2 pays i) as [d Hd]; [rewrite Hlen; by eapply lookup_lt_Some|]. specialize (Hs i). rewrite Hd in *. cbn in *. by rewrite Hs.
    + apply lookup_ge_None_1 in Ht. symmetry. apply lookup_ge_None_2. lia.
Qed.

(** C4: the streaming writer refines [write_gguf]. For every destination that obeys the
    [Write] contract, however the payloads are cut into chunks: once every chunk and
    [finish] have succeeded, the destination received exactly the bytes [write_gguf]
    returns for the same metadata and tensors with those payloads. *)
Theorem gguf_stream_refines w version m ts w1 s ops s' w2 w3 :
  Forall rust_entry m -> Forall spec_ok ts -> stream_new w version m ts = (w1, Ok s) -> feed s ops = (s', Ok tt) -> finish s' = (w2, Ok w3) ->
  exists bytes, write_gguf version m (carried ts ops) = Ok bytes /\ written w3 = written w ++ bytes.
Proof.
  intros Hm Hts Hn Hf Hfin. destruct (build_of_new _ _ _ _ _ _ Hn) as [l Hl]. destruct (build_layout_Ok _ _ _ _ Hm Hts Hl) as (a & e' & L).
  destruct (stream_new_Ok _ _ _ _ _ _ _ Hts L w w1 (Ok s) eq_refl Hm Hl Hn) as [(s0 & k & E & _ & Hp)|[e E]]; [injection E as <-|done].
  destruct (feed_Ok _ _ _ _ _ _ _ Hts L ops s _ _ s' Hp Hf) as (pays & part & Hp' & Hj).
  destruct (finish_Ok _ _ _ _ _ _ _ Hts L s' pays part w2 w3 Hp' Hfin) as (-> & -> & Hlen & Hlens & Hw).
  destruct (carried_pays ts ops pays) as [Hspec Hdata]; [done|done| |].
  { intros j. specialize (Hj j). assert (E1 : default [] ((replicate k [] ++ [[]]) !! j) = ([] : list Z)).
    { destruct ((replicate k [] ++ [[]]) !! j) as [x|] eqn:Hx; [|done]. apply list_elem_of_lookup_2 in Hx.
      apply elem_of_app in Hx as [Hx|Hx]; [by apply elem_of_replicate in Hx as [-> _]|by apply list_elem_of_singleton in Hx as ->]. }
    rewrite E1 in Hj. cbn [app] in Hj. rewrite <- Hj. destruct (Nat.lt_ge_cases j (length pays)) as [Hlt|Hge]; [by rewrite lookup_app_l|].
    rewrite lookup_ge_None_2 by done. rewrite lookup_app_r by done. destruct (j - length pays)%nat; done. }
  exists (file_bytes l pays). split; [|done]. rewrite <- Hdata. apply write_gguf_layout; [done|by rewrite Hspec|by rewrite Hspec].
Qed.

(** The states a writer can reach, failed calls included. *)
Inductive reachable (w : W) (version : Z) (m : list (list Z * GgufValue)) (ts : list GgufTensorSpec) : Self -> Prop :=
| R_new w1 s : stream_new w version m ts = (w1, Ok s) -> reachable w version m ts s
| R_chunk s i chunk : reachable w version m ts s -> reachable w version m ts (fst (write_tensor_chunk s i chunk)).

(** Why a state refuses a chunk. *)
Definition refused (s : Self) (index : Z) (chunk : list Z) : option (GgufWriteError (IoError := IoError)) :=
  if gs_poisoned s then Some Poisoned else
  match gs_tensor_lengths s !! Z.to_nat (gs_next_tensor s) with
  | None => Some (StreamComplete index)
  | Some len =>
      if negb (index =? gs_next_tensor s) then Some (TensorOutOfOrder (gs_next_tensor s) index) else
      if usize_max <? gs_tensor_written s + zlen chunk then Some (TensorTooLong index len u64_max) else
      if len <? gs_tensor_written s + zlen chunk then Some (TensorTooLong index len (gs_tensor_written s + zlen chunk)) else None
  end.

Lemma reachable_state w version m ts s : Forall rust_entry m -> Forall spec_ok ts -> reachable w version m ts s ->
  gs_poisoned s = true \/ exists l a e' pays part, layout_of version m ts l a e' /\ prepared ts l (written w) s pays part.
Proof.
  intros Hm Hts. induction 1 as [w1 s Hn|s i chunk _ IH].
  - destruct (build_of_new _ _ _ _ _ _ Hn) as [l Hl]. destruct (build_layout_Ok _ _ _ _ Hm Hts Hl) as (a & e' & L). right.
    destruct (stream_new_Ok _ _ _ _ _ _ _ Hts L w w1 (Ok s) eq_refl Hm Hl Hn) as [(s0 & k & E & _ & Hp)|[e E]]; [injection E as <-|done].
    by exists l, a, e', (replicate k []), [].
  - destruct IH as [Hpo|(l & a & e' & pays & part & L & Hp)].
    + left. unfold write_tensor_chunk. by rewrite Hpo.
    + pose proof (write_chunk_step _ _ _ _ _ _ _ Hts L s pays part i chunk Hp) as Hstep. destruct (refusal _ _ _ _ _) as [e|].
      * rewrite Hstep. cbn [fst]. right. by exists l, a, e', pays, part.
      * destruct Hstep as [[_ (p1 & q1 & _ & Hp1)]|[_ Hbad]]; [right; by exists l, a, e', p1, q1|by left].
Qed.

Lemma refused_refusal ts l w0 s pays part i chunk : prepared ts l w0 s pays part -> refused s i chunk = refusal ts pays part i chunk.
Proof.
  intros Hp. destruct (prepared_base _ _ _ _ _ _ Hp) as [out B]. destruct Hp as [Hw _]. unfold refused, refusal.
  rewrite (ba_sound _ _ _ _ _ _ B), (ba_next _ _ _ _ _ _ B), (ba_lens _ _ _ _ _ _ B), Hw. by replace (Z.to_nat (zlen pays)) with (length pays) by (unfold zlen; lia).
Qed.

(** A chunk has three outcomes. In every state a streaming writer can reach, a chunk
    that is out of order, too long, after the end or after a failure is refused with that
    error and changes nothing, destination included; any other chunk is accepted, or the
    destination failed, which poisons the writer. There is no panic, no layout error and
    no unbounded loop, and a poisoned writer refuses everything. *)
Theorem gguf_stream_outcomes w version m ts s i chunk :
  Forall rust_entry m -> Forall spec_ok ts -> reachable w version m ts s ->
  match refused s i chunk with
  | Some e => write_tensor_chunk s i chunk = (s, Err e)
  | None => snd (write_tensor_chunk s i chunk) = Ok tt \/
      (exists e, snd (write_tensor_chunk s i chunk) = Err (WIo e)) /\ gs_poisoned (fst (write_tensor_chunk s i chunk)) = true
  end.
Proof.
  intros Hm Hts Hr. destruct (reachable_state _ _ _ _ _ Hm Hts Hr) as [Hpo|(l & a & e' & pays & part & L & Hp)].
  - unfold refused, write_tensor_chunk. by rewrite Hpo.
  - rewrite (refused_refusal _ _ _ _ _ _ i chunk Hp). pose proof (write_chunk_step _ _ _ _ _ _ _ Hts L s pays part i chunk Hp) as Hstep.
    destruct (refusal _ _ _ _ _); [done|]. destruct Hstep as [[Hok _]|Hbad]; [by left|by right].
Qed.
End Laws.

(** A destination in memory that fails once [limit] bytes are in it. *)
Record Sink : Type := MkSink { sk_bytes : list Z; sk_limit : Z }.

#[global] Instance sink_write : Write Sink unit := {
  write_all w b := if zlen (sk_bytes w) + zlen b <=? sk_limit w then (MkSink (sk_bytes w ++ b) (sk_limit w), None)
    else (MkSink (sk_bytes w ++ take (Z.to_nat (sk_limit w - zlen (sk_bytes w))) b) (sk_limit w), Some tt);
  w_flush w := (w, None) }.

#[global] Instance sink_laws : WriteLaws Sink unit sk_bytes.
Proof.
  split; cbn.
  - intros w b w'. destruct (_ <=? _); [by intros [= <-]|done].
  - intros w b w' e. destruct (_ <=? _); [done|]. intros [= <- _]. by eexists.
  - by intros w w' r [= <- _].
Qed.

Definition example_specs : list GgufTensorSpec := [MkSpec [116] [2] 24 2; MkSpec [117] [0] 24 0; MkSpec [118] [3] 24 3].

Lemma example_specs_ok : Forall spec_ok example_specs.
Proof.
  constructor; [|constructor; [|constructor; [|constructor]]]; (split; [split; [by apply bytes_ok_check|by vm_compute]|]);
    (split; [by vm_compute|]); (split; [repeat constructor; by vm_compute|]); (split; [by vm_compute|]); (split; [eexists; by vm_compute|]); by vm_compute.
Qed.

Definition example_start : Sink * res GgufWriteError (GgufStreamWriter (W := Sink)) := stream_new (MkSink [7] 1000) 3 [] example_specs.
Definition example_ops : list (Z * list Z) := [(0, [1]); (0, []); (0, [2]); (2, [3; 4]); (2, [5])].

Lemma gguf_stream_refines_witness : exists w2 bytes, write_gguf 3 [] (carried example_specs example_ops) = Ok bytes /\ sk_bytes w2 = [7] ++ bytes.
Proof.
  destruct example_start as [w1 r] eqn:E1. destruct r as [s| | |]; [|by vm_compute in E1..].
  destruct (feed s example_ops) as [s' r'] eqn:E2. destruct (finish s') as [w2 r2] eqn:E3.
  assert (H : r' = Ok tt /\ r2 = Ok w2). { vm_compute in E1. injection E1 as <- <-. vm_compute in E2. injection E2 as <- <-. vm_compute in E3. by injection E3 as <- <-. }
  destruct H as [-> ->]. exists w2. apply (gguf_stream_refines (written := sk_bytes) (MkSink [7] 1000) 3 [] example_specs w1 s example_ops s' w2 w2); [constructor|apply example_specs_ok|done|done|done].
Defined.

Lemma gguf_stream_outcomes_witness : exists s : GgufStreamWriter (W := Sink), refused (IoError := unit) s 1 [9] = Some (TensorOutOfOrder 0 1) /\ write_tensor_chunk s 1 [9] = (s, Err (TensorOutOfOrder 0 1)).
Proof.
  destruct example_start as [w1 r] eqn:E1. destruct r as [s| | |]; [|by vm_compute in E1..]. exists s.
  assert (H : refused (IoError := unit) s 1 [9] = Some (TensorOutOfOrder 0 1)) by (vm_compute in E1; injection E1 as <- <-; by vm_compute).
  split; [done|]. pose proof (gguf_stream_outcomes (written := sk_bytes) (MkSink [7] 1000) 3 [] example_specs s 1 [9] ltac:(constructor) example_specs_ok (R_new _ _ _ _ _ _ E1)) as T.
  by rewrite H in T.
Defined.
