(* ===== verification/TensorPlan.v ===== *)
(** * Upload metadata (crates/tritium-spec/src/tensor_plan.rs, [TensorView] of lib.rs)

    The structural description of a tensor that backends plan an upload from, and the
    logical byte count of the decoded tensor, computed from the decoded view, from
    metadata borrowed from it and from metadata prepared without it. *)

From Stdlib Require Import ZArith Lia Bool String.
From stdpp Require Import base list numbers.
From S2P Require Import Prelude Core F32 Schema PerTile Uniform AdditiveView AdditiveOps Spec.

#[local] Open Scope Z_scope.

(** [DenseView::new] of tritium-core; the view is its three arguments. *)
Definition dense_new (rows cols : Z) (values : list f32) : res DenseError (Z * Z * list f32) :=
  let* expected := ok_or (checked_mul rows cols) DenseSizeOverflow in
  if negb (zlen values =? expected) then Err WeightShape else Ok (rows, cols, values).

Inductive TensorView : Type :=
| VAdditive (view : AdditiveView)
| VDense (rows cols : Z) (values : list f32).

(** [TensorView::decoded_payload_bytes]; [size_of_val] of the scales is 4 bytes each. *)
Definition view_decoded_bytes (self : TensorView) : res BackendError Z :=
  let* bytes := match self with
    | VAdditive view => Ok (checked_add (zlen (av_trits view)) (4 * zlen (av_scales view)))
    | VDense rows cols values =>
        let* _ := map_err (fun e => InvalidInput (DenseMessage e)) (dense_new rows cols values) in
        Ok (checked_mul (zlen values) 4)
    end in
  ok_or bytes (InvalidInput (Text "tensor payload size overflows")).

Inductive MetaAllocation : Type :=
| MUniform (p : UniformPlan)
| MPerTile (p : PerTilePlan)
| MView (v : AdditiveView).

Record AdditiveMetadata : Type := MkMetadata {
  md_layout : AdditiveLayout;
  md_allocation : MetaAllocation;
  md_counts : option (list Z) }.

Definition invalid {A} (m : res AdditiveError A) : res BackendError A := map_err (fun e => InvalidInput (MetadataError e)) m.
Definition invalid_text (s : String.string) : BackendError := InvalidInput (MetadataText s).

Definition md_uniform (layout : AdditiveLayout) (planes : Z) : res BackendError AdditiveMetadata :=
  let* plan := invalid (uniform_new layout planes) in
  Ok (MkMetadata layout (MUniform plan) None).

Definition md_per_tile (layout : AdditiveLayout) (counts : list Z) : res BackendError AdditiveMetadata :=
  let* plan := invalid (plan_new layout counts) in
  Ok (MkMetadata layout (MPerTile plan) (Some counts)).

Definition md_from_view (view : AdditiveView) : AdditiveMetadata :=
  MkMetadata (view_layout view) (MView view) (tile_counts view).

Definition md_plane_count (self : AdditiveMetadata) : Z :=
  match md_allocation self with
  | MUniform p => u_planes p
  | MPerTile p => plan_plane_count p
  | MView v => view_plane_count v
  end.

Definition md_scale_count (self : AdditiveMetadata) : Z :=
  match md_allocation self with
  | MUniform p => u_scale_count p
  | MPerTile p => plan_scale_count p
  | MView v => zlen (av_scales v)
  end.

Definition md_plane_trit_count (self : AdditiveMetadata) (plane : Z) : res BackendError Z :=
  match md_allocation self with
  | MUniform p => if plane <? u_planes p then Ok (u_trit_count p / u_planes p) else Err (invalid_text "absent plane")
  | MPerTile p => invalid (plane_trit_count p plane)
  | MView v => let* trits := invalid (plane_trits v plane) in Ok (zlen trits)
  end.

Definition md_auxiliary_bytes (self : AdditiveMetadata) : res BackendError Z :=
  match md_allocation self with
  | MUniform _ => Ok 0
  | MPerTile p => invalid (plan_buffer_len_bytes p)
  | MView v => invalid (auxiliary_buffer_len_bytes v)
  end.

Definition md_count_bytes (self : AdditiveMetadata) : option Z := zlen <$> md_counts self.

Inductive TensorMetadata : Type :=
| TmAdditive (a : AdditiveMetadata)
| TmDense (rows cols : Z).

Definition dense_bytes (rows cols : Z) : res BackendError Z :=
  ok_or (n ← checked_mul rows cols; checked_mul n 4) (invalid_text "dense size overflow").

(** [TensorMetadata::decoded_payload_bytes]. *)
Definition meta_decoded_bytes (self : TensorMetadata) : res BackendError Z :=
  match self with
  | TmDense rows cols => dense_bytes rows cols
  | TmAdditive a =>
      let* bytes := ok_or (checked_mul (md_scale_count a) 4) (invalid_text "scale size overflow") in
      for_range 0 (md_plane_count a) (fun p bytes =>
        let* n := md_plane_trit_count a p in
        ok_or (checked_add bytes n) (invalid_text "scalar size overflow")) bytes
  end.

(** [TensorMetadata::from_view]. *)
Definition meta_from_view (view : TensorView) : res BackendError TensorMetadata :=
  match view with
  | VAdditive v => Ok (TmAdditive (md_from_view v))
  | VDense rows cols _ => let* _ := view_decoded_bytes view in Ok (TmDense rows cols)
  end.

(** * The byte counts agree *)

(** Metadata with [planes] planes at the offsets [off 0 <= .. <= off planes] and [scales]
    stored scales. *)
Record spans (a : AdditiveMetadata) (planes scales : Z) (off : Z -> Z) : Prop := {
  sn_planes : md_plane_count a = planes;
  sn_scales : md_scale_count a = scales;
  sn_nonneg : 0 <= planes /\ 0 <= scales;
  sn_zero : off 0 = 0;
  sn_plane : forall p, 0 <= p < planes -> off p <= off (p + 1) /\ md_plane_trit_count a p = Ok (off (p + 1) - off p) }.

Lemma spans_mono a planes scales off : spans a planes scales off -> forall k, 0 <= k <= planes -> 0 <= off k <= off planes.
Proof.
  intros [_ _ _ H0 Hoff].
  assert (Hd : forall d k, (0 <= k)%Z -> k + Z.of_nat d <= planes -> off k <= off (k + Z.of_nat d)).
  { induction d as [|d IH]; intros k Hk HkN; [by rewrite Z.add_0_r|]. etransitivity; [apply (IH k); lia|].
    replace (k + Z.of_nat (S d)) with (k + Z.of_nat d + 1) by lia. apply Hoff. lia. }
  intros k Hk. split.
  - pose proof (Hd (Z.to_nat k) 0 ltac:(lia) ltac:(lia)) as H. rewrite H0, Z.add_0_l, Z2Nat.id in H by lia. done.
  - pose proof (Hd (Z.to_nat (planes - k)) k ltac:(lia) ltac:(lia)) as H. rewrite Z2Nat.id in H by lia.
    by replace (k + (planes - k)) with planes in H by lia.
Qed.

Lemma meta_bytes_sum a planes scales off : spans a planes scales off -> 4 * scales + off planes <= usize_max ->
  meta_decoded_bytes (TmAdditive a) = Ok (off planes + 4 * scales).
Proof.
  intros S Hfit. pose proof (spans_mono _ _ _ _ S) as Hmono. destruct S as [Hp Hs [Hp0 Hs0] H0 Hoff].
  assert (Hn := Hmono planes ltac:(lia)). cbn [meta_decoded_bytes]. rewrite Hp, Hs.
  unfold checked_mul at 1. replace (_ <=? _) with true by lia. cbn [ok_or bind].
  destruct (for_range_inv (fun k b => b = off k + 4 * scales) (fun p bytes =>
        let* n := md_plane_trit_count a p in
        ok_or (checked_add bytes n) (invalid_text "scalar size overflow")) 0 planes (scales * 4)) as (b & -> & ->);
    [lia|rewrite H0; lia| |done].
  intros k b Hk ->. destruct (Hoff k Hk) as [Hle ->]. cbn [bind]. unfold checked_add.
  pose proof (Hmono k ltac:(lia)). pose proof (Hmono (k + 1) ltac:(lia)). replace (_ <=? _) with true by lia.
  eexists. split; [done|]. lia.
Qed.

(** Two descriptions a backend cannot tell apart. *)
Record same_shape (a b : AdditiveMetadata) : Prop := {
  ss_layout : md_layout a = md_layout b;
  ss_counts : md_counts a = md_counts b;
  ss_planes : md_plane_count a = md_plane_count b;
  ss_scales : md_scale_count a = md_scale_count b;
  ss_plane : forall p, 0 <= p < md_plane_count a -> md_plane_trit_count a p = md_plane_trit_count b p;
  ss_auxiliary : md_auxiliary_bytes a = md_auxiliary_bytes b }.

Lemma spans_same a b planes scales off : spans a planes scales off -> spans b planes scales off ->
  md_layout a = md_layout b -> md_counts a = md_counts b -> md_auxiliary_bytes a = md_auxiliary_bytes b -> same_shape a b.
Proof.
  intros A B Hl Hc Ha. split; try done; [by rewrite (sn_planes _ _ _ _ A), (sn_planes _ _ _ _ B)|by rewrite (sn_scales _ _ _ _ A), (sn_scales _ _ _ _ B)|].
  intros p Hp. rewrite (sn_planes _ _ _ _ A) in Hp. by rewrite (proj2 (sn_plane _ _ _ _ A p Hp)), (proj2 (sn_plane _ _ _ _ B p Hp)).
Qed.

Lemma uniform_spans l planes u trits scales : layout_typed l -> uplan_ok l planes u ->
  zlen trits = rows l * cols l * planes -> zlen scales = u_scale_count u ->
  spans (MkMetadata l (MUniform u) None) planes (zlen scales) (fun p => p * (rows l * cols l)) /\
  spans (md_from_view (MkView (AUniform l planes (u_scale_units u)) trits scales)) planes (zlen scales) (fun p => p * (rows l * cols l)).
Proof.
  intros (Hr & Hc & _ & _ & Hm) U Ht Hs. pose proof (uo_planes _ _ _ U) as Hp. pose proof (uo_trits _ _ _ U) as Hf. pose proof (zlen_nonneg scales).
  unfold is_u64, is_u8 in *. assert (Hrc : 0 <= rows l * cols l) by nia. set (n := rows l * cols l) in *. split.
  - pose proof (uo_eq _ _ _ U) as E. split; [by rewrite E|done|lia|lia|]. intros p Hlt. split; [nia|].
    cbn [md_plane_trit_count md_allocation]. rewrite E. cbn [u_planes u_trit_count]. replace (p <? planes) with true by lia.
    rewrite Z.div_mul by lia. f_equal. lia.
  - split; [done|done|lia|lia|]. intros p Hlt. split; [nia|]. cbn [md_plane_trit_count md_allocation md_from_view].
    unfold plane_trits. cbn [view_plane_count av_allocation av_trits]. replace (planes <=? p) with false by lia.
    assert (Hn : (p + 1) * n <= planes * n) by nia. fold n. rewrite (mul_usize_Ok (rows l)) by (fold n; nia). fold n. cbn [bind].
    rewrite mul_usize_Ok by nia. cbn [bind]. rewrite add_usize_Ok by (unfold usize_max; lia). cbn [bind]. rewrite mul_usize_Ok by nia. cbn [bind].
    rewrite slice_Ok by nia. cbn [bind invalid map_err]. rewrite zlen_sub by nia. done.
Qed.

Lemma per_tile_spans l counts g ix trits scales : layout_typed l -> geo_ok l counts g -> index_ok l counts g ix ->
  zlen trits = g_trits g -> zlen scales = g_scales g ->
  spans (MkMetadata l (MPerTile (MkPlan l counts g)) (Some counts)) (g_planes g) (zlen scales) (fun p => trit_off l counts p 0 0) /\
  spans (md_from_view (MkView (APerTile ix) trits scales)) (g_planes g) (zlen scales) (fun p => trit_off l counts p 0 0).
Proof.
  intros Hty G I Ht Hs. pose proof (go_planes _ _ _ G) as Hp. pose proof (lo_rows _ (go_layout _ _ _ G)) as HR.
  pose proof (zlen_nonneg scales). pose proof (tiles_pos _ (go_layout _ _ _ G)) as HT.
  assert (H0 : trit_off l counts 0 0 0 = 0) by (unfold trit_off, lex; by rewrite !sumZ_0).
  assert (Hle : forall p, 0 <= p < g_planes g -> trit_off l counts p 0 0 <= trit_off l counts (p + 1) 0 0).
  { intros p Hlt. unfold trit_off. apply lex_le_plane; try lia. intros. by eapply trits_of_nonneg. }
  split; (split; [try done|done|lia|done|]).
  - intros p Hlt. split; [by apply Hle|]. cbn [md_plane_trit_count md_allocation]. by rewrite (plane_trit_count_Ok _ _ _ Hty G).
  - cbn. by rewrite (io_geometry _ _ _ _ I).
  - intros p Hlt. split; [by apply Hle|]. cbn [md_plane_trit_count md_allocation md_from_view].
    unfold plane_trits. cbn [view_plane_count av_allocation av_trits]. rewrite (io_geometry _ _ _ _ I).
    replace (g_planes g <=? p) with false by lia. rewrite (plane_range_Ok _ _ _ Hty G) by done. cbn [bind].
    assert (Hb : 0 <= trit_off l counts p 0 0 /\ trit_off l counts (p + 1) 0 0 <= zlen trits).
    { split; [by apply (trit_off_bound _ _ _ G); lia|]. rewrite Ht. destruct (decide (p + 1 = g_planes g)) as [He|].
      - by rewrite (go_trits _ _ _ G), He.
      - by apply (trit_off_bound _ _ _ G); lia. }
    rewrite slice_Ok by (specialize (Hle p Hlt); lia). cbn [bind invalid map_err]. rewrite zlen_sub by (specialize (Hle p Hlt); lia). done.
Qed.

(** A decoded tensor and the metadata prepared for it without its coefficients: from the
    layout and the plane count, from the layout and the tile counts, or from the dense
    dimensions. *)
Inductive described : TensorView -> res BackendError TensorMetadata -> Prop :=
| described_uniform l planes trits scales v : layout_typed l -> is_u8 planes -> view_new l planes trits scales = Ok v ->
    described (VAdditive v) (let* a := md_uniform l planes in Ok (TmAdditive a))
| described_per_tile l counts storage ix trits scales v : layout_typed l -> bytes_ok counts ->
    build l counts storage = Ok ix -> view_new_per_tile ix trits scales = Ok v ->
    described (VAdditive v) (let* a := md_per_tile l counts in Ok (TmAdditive a))
| described_dense rows cols values : is_u64 rows -> is_u64 cols -> dense_new rows cols values = Ok (rows, cols, values) ->
    described (VDense rows cols values) (Ok (TmDense rows cols)).

(** The bytes a slice of a Rust program can have. *)
Definition view_in_memory (v : TensorView) : Prop :=
  match v with
  | VAdditive v => zlen (av_trits v) <= isize_max /\ 4 * zlen (av_scales v) <= isize_max
  | VDense _ _ values => 4 * zlen values <= isize_max
  end.

(** Metadata that a backend cannot tell apart. *)
Definition interchangeable (a b : TensorMetadata) : Prop :=
  match a, b with
  | TmAdditive a, TmAdditive b => same_shape a b
  | _, _ => a = b
  end.

Lemma additive_agrees v a planes scales off : spans a planes scales off -> spans (md_from_view v) planes scales off ->
  zlen (av_scales v) = scales -> zlen (av_trits v) = off planes -> view_in_memory (VAdditive v) ->
  view_decoded_bytes (VAdditive v) = Ok (off planes + 4 * scales) /\
  meta_decoded_bytes (TmAdditive a) = Ok (off planes + 4 * scales) /\
  meta_decoded_bytes (TmAdditive (md_from_view v)) = Ok (off planes + 4 * scales).
Proof.
  intros A V Hs Ht [Hm1 Hm2]. assert (4 * scales + off planes <= usize_max) by (unfold isize_max, usize_max in *; lia).
  split; [|by split; apply meta_bytes_sum]. unfold view_decoded_bytes. cbn [bind]. rewrite Ht, Hs. unfold checked_add.
  replace (_ <=? _) with true by lia. done.
Qed.

Lemma dense_agrees rows cols values : is_u64 rows -> is_u64 cols -> dense_new rows cols values = Ok (rows, cols, values) ->
  view_in_memory (VDense rows cols values) ->
  view_decoded_bytes (VDense rows cols values) = Ok (zlen values * 4) /\ dense_bytes rows cols = Ok (zlen values * 4).
Proof.
  intros Hr Hc Hd Hm. cbn [view_in_memory] in Hm. unfold view_decoded_bytes, dense_bytes. rewrite Hd. cbn [map_err bind].
  unfold dense_new in Hd. apply bind_Ok_inv in Hd as (n & Hn & Hd). destruct (Z.eqb_spec (zlen values) n) as [He|]; [|done].
  apply ok_or_inv in Hn. rewrite Hn. cbn [mbind option_bind]. rewrite <- He. unfold checked_mul.
  replace (_ <=? _) with true by (unfold isize_max, usize_max in *; lia). done.
Qed.

(** Upload metadata agrees with the tensor it describes. Whenever a decoded view was
    accepted (uniform, per-tile through a built index, or dense), the metadata prepared
    from its layout alone succeeds, is indistinguishable from the metadata borrowed from
    the view (layout, counts, planes, scales, every plane's length, index bytes), and all
    three give the same count of decoded bytes. *)
Theorem metadata_agrees v prepared : described v prepared -> view_in_memory v ->
  exists m m' n, prepared = Ok m /\ meta_from_view v = Ok m' /\ interchangeable m m' /\
    view_decoded_bytes v = Ok n /\ meta_decoded_bytes m = Ok n /\ meta_decoded_bytes m' = Ok n.
Proof.
  intros [l planes trits scales v' Hty Hpl Hv|l counts storage ix trits scales v' Hty Hc Hb Hv|rows cols values Hr Hcl Hd] Hm.
  - destruct (view_new_inv l planes trits scales v' Hty Hpl Hv) as (u & Hu & -> & Ht & Hs & _).
    pose proof (uniform_new_Ok _ _ _ Hty Hpl Hu) as U. destruct (uniform_spans l planes u trits scales Hty U Ht Hs) as [A V].
    unfold md_uniform. rewrite Hu. cbn [invalid map_err bind]. do 3 eexists. split; [done|]. split; [done|].
    split; [by eapply spans_same; [exact A|exact V|..]|]. eapply additive_agrees; [exact A|exact V|done| |done]. cbn. lia.
  - unfold build in Hb. apply bind_Ok_inv in Hb as (pl & Hpl & Hb). unfold plan_new in Hpl. apply bind_Ok_inv in Hpl as (g & Hg & Hpl).
    apply Ok_inj in Hpl as <-. pose proof (geometry_Ok _ _ _ Hty Hc Hg) as G. unfold plan_build in Hb. cbn [pl_layout pl_counts pl_geometry] in Hb.
    assert (Hz : zlen storage = g_slots g) by (unfold build_validated in Hb; by destruct (Z.eqb_spec (zlen storage) (g_slots g))).
    destruct (build_validated_Ok l counts g Hty G storage Hz) as (ix' & Hb' & I). rewrite Hb in Hb'. apply Ok_inj in Hb' as <-.
    unfold view_new_per_tile in Hv. rewrite (io_geometry _ _ _ _ I) in Hv.
    destruct (Z.eqb_spec (zlen trits) (g_trits g)) as [Ht|]; [|done]. destruct (Z.eqb_spec (zlen scales) (g_scales g)) as [Hs|]; [|done].
    cbn [negb] in Hv. apply bind_Ok_inv in Hv as (? & _ & Hv). apply Ok_inj in Hv as <-.
    destruct (per_tile_spans l counts g ix trits scales Hty G I Ht Hs) as [A V].
    unfold md_per_tile, plan_new. rewrite Hg. cbn [invalid map_err bind]. do 3 eexists. split; [done|]. split; [done|]. split.
    + eapply spans_same; [exact A|exact V|..]; cbn; [by rewrite (io_layout _ _ _ _ I)|by rewrite (io_counts _ _ _ _ I)|].
      unfold md_auxiliary_bytes; cbn. unfold plan_buffer_len_bytes; cbn. by rewrite (io_counts _ _ _ _ I), (io_len _ _ _ _ I).
    + eapply additive_agrees; [exact A|exact V|done| |done]. cbn [av_trits]. rewrite Ht. apply (go_trits _ _ _ G).
  - destruct (dense_agrees rows cols values Hr Hcl Hd Hm) as [H1 H2]. exists (TmDense rows cols), (TmDense rows cols), (zlen values * 4).
    split; [done|]. split; [cbn [meta_from_view]; by rewrite H1|]. done.
Qed.

Lemma metadata_agrees_witness : exists m,
  (let* a := md_per_tile ragged_layout ragged_counts in Ok (TmAdditive a)) = Ok m /\ meta_decoded_bytes m = Ok 972.
Proof.
  set (v := MkView (APerTile ragged_index) (vec POS 900) (vec (f32_of_Z 1) 18)).
  destruct (metadata_agrees (VAdditive v) (let* a := md_per_tile ragged_layout ragged_counts in Ok (TmAdditive a))) as (m & m' & n & Hm & _ & _ & Hv & Hn & _).
  - apply (described_per_tile ragged_layout ragged_counts (vec (MkSpan 0 0) 6) ragged_index (vec POS 900) (vec (f32_of_Z 1) 18));
      [apply ragged_typed|apply ragged_typed|by vm_compute|by vm_compute].
  - by vm_compute.
  - exists m. split; [exact Hm|]. rewrite Hn. rewrite <- Hv. by vm_compute.
Defined.
