(* ===== verification/Upload.v ===== *)
(** * Checked, admitted and recorded tensor uploads
    (crates/tritium-runtime/src/tensor_upload.rs, tensor_stream_upload.rs)

    An upload asks a backend for a plan, reserves payload and workspaces in shared
    budgets, transfers the tensor and appends one evidence event. It composes the
    budgets of Budget, the recorder of Evidence and the metadata of TensorPlan with any
    backend, any stream source and any interference of other threads on the budgets; the
    guards Rust drops at the end of a scope are scopes here. *)

From Stdlib Require Import ZArith Lia Bool String.
From stdpp Require Import base list numbers gmap relations.
From S2P Require Import Prelude Text Core Schema Spec AdditiveView TensorPlan Budget Evidence.

#[local] Open Scope Z_scope.

(** * Backends, sources and other threads *)

(** A call of a visitor by a source is a node; the source continues with the visitor's
    answer ([None] is [Ok]). A node carries the source as it is during the call. *)
Inductive Visit (S : Type) : Type :=
| VisitEnd (s : S) (r : option BackendError)
| VisitWindow (s : S) (window : list Z) (k : option BackendError -> Visit S).
Arguments VisitEnd {S} s r.
Arguments VisitWindow {S} s window k.

(** [TensorStreamSource]: methods take [&self], and a source may change behind it. *)
Class TensorStreamSource (S : Type) : Type := {
  src_metadata : S -> TensorMetadata;
  src_encoding : S -> TensorStreamEncoding;
  src_encoded_bytes : S -> Z;
  src_visit : S -> Visit S }.

(** [source.visit(visitor)] with the visitor's state. *)
Fixpoint run_visit {S V} (visitor : V -> list Z -> V * option BackendError) (v : V) (t : Visit S) : V * S * option BackendError :=
  match t with
  | VisitEnd s r => (v, s, r)
  | VisitWindow s window k => let '(v, r) := visitor v window in run_visit visitor v (k r)
  end.

(** What a backend does with the source it is given: it reads the description, visits the
    source any number of times with visitors over its own state, and ends. *)
Inductive Session (B Buf : Type) : Type :=
| SessionEnd (b : B) (r : BackendError + Buf)
| SessionDescribe (k : TensorMetadata -> TensorStreamEncoding -> Z -> Session B Buf)
| SessionVisit (b : B) (visitor : B -> list Z -> B * option BackendError) (k : B -> option BackendError -> Session B Buf).
Arguments SessionEnd {B Buf} b r.
Arguments SessionDescribe {B Buf} k.
Arguments SessionVisit {B Buf} b visitor k.

(** The part of [TernaryBackend] uploads use; methods take [&self]. A [Result] is a sum. *)
Class TernaryBackend (B Buf : Type) : Type := {
  device_id : B -> list Z;
  physical_device_id : B -> list Z;
  tensor_caps : B -> TensorView -> B * (BackendError + option TensorCaps);
  tensor_upload_plan : B -> TensorMetadata -> B * (BackendError + option TensorUploadPlan);
  tensor_stream_plan : B -> TensorMetadata -> TensorStreamEncoding -> B * (BackendError + option TensorStreamPlan);
  upload_tensor : B -> TensorView -> B * (BackendError + Buf);
  upload_tensor_stream : B -> Session B Buf;
  len_bytes : Buf -> Z }.

(** What other threads do to the budgets while this call holds the reservations [held],
    and whether the next weak compare-exchange fails spuriously. *)
Class Interference (Env : Type) : Type := {
  interfere : Env -> gset nat -> World -> Env * World;
  spurious : Env -> bool }.

Inductive TensorUploadError : Type :=
| EmptyTensorName
| BackendErr (e : BackendError)
| EvidenceErr (e : EvidenceError).

(** [TensorUploadResources]: the handles of the three budgets. *)
Record TensorUploadResources : Type := MkResources { rs_payload : nat; rs_host_workspace : nat; rs_device_workspace : nat }.

(** [TensorUploadContext]; the recorder is in the state. *)
Record TensorUploadContext : Type := MkContext { cx_span : list Z; cx_parent : option (list Z); cx_logical_time : Z }.

(** [TensorUploaded]. *)
Record TensorUploaded : Type := MkUploaded {
  tu_tensor : list Z;
  tu_backend : list Z;
  tu_physical_device : list Z;
  tu_caps : TensorCaps;
  tu_decoded_source_bytes : Z }.

(** A returned buffer, alone or with the reservation [attach] gave it. *)
Inductive Handle (Buf : Type) : Type :=
| Bare (buffer : Buf)
| AdmittedBuffer (buffer : Buf) (reservation : nat).
Arguments Bare {Buf} buffer.
Arguments AdmittedBuffer {Buf} buffer reservation.

Definition handle_len {B Buf : Type} `{TernaryBackend B Buf} (h : Handle Buf) : Z :=
  match h with Bare b | AdmittedBuffer b _ => len_bytes b end.

(** * The checked source *)

Definition stream_error (s : String.string) : BackendError := InvalidInput (Text s).

(** The windows of [source.visit] as [CheckedSource::visit] lets them through: [bytes] so
    far, and whether one was rejected. The state is the source and [completed]. *)
Fixpoint check_visit {S : Type} `{TensorStreamSource S} (t : Visit S) (bytes : Z) (rejected : bool) : Visit (S * bool) :=
  match t with
  | VisitEnd s (Some e) => VisitEnd (s, false) (Some e)
  | VisitEnd s None =>
      if rejected then VisitEnd (s, false) (Some (stream_error "source ignored a rejected stream window")) else
      if negb (bytes =? src_encoded_bytes s) then VisitEnd (s, false) (Some (stream_error "stream is shorter than declared length"))
      else VisitEnd (s, true) None
  | VisitWindow s window k =>
      if TENSOR_STREAM_CHUNK_BYTES <? zlen window
      then check_visit (k (Some (stream_error "stream window exceeds bound"))) bytes true else
      match checked_add bytes (zlen window) with
      | None => check_visit (k (Some (stream_error "stream length overflow"))) bytes true
      | Some bytes =>
          if src_encoded_bytes s <? bytes
          then check_visit (k (Some (stream_error "stream exceeds declared length"))) bytes true
          else VisitWindow (s, false) window (fun r => check_visit (k r) bytes (rejected || bool_decide (is_Some r)))
      end
  end.

(** [CheckedSource]. *)
Definition checked_source {S : Type} `{TensorStreamSource S} : TensorStreamSource (S * bool) := {|
  src_metadata := fun s => src_metadata (fst s);
  src_encoding := fun s => src_encoding (fst s);
  src_encoded_bytes := fun s => src_encoded_bytes (fst s);
  src_visit := fun s => check_visit (src_visit (fst s)) 0 false |}.
#[global] Existing Instance checked_source.

(** [backend.upload_tensor_stream(source)]. *)
Fixpoint run_session {B Buf S : Type} `{TensorStreamSource S} (x : Session B Buf) (s : S) : B * S * (BackendError + Buf) :=
  match x with
  | SessionEnd b r => (b, s, r)
  | SessionDescribe k => run_session (k (src_metadata s) (src_encoding s) (src_encoded_bytes s)) s
  | SessionVisit b visitor k => let '(b, s, r) := run_visit visitor b (src_visit s) in run_session (k b r) s
  end.

Section Upload.
  Context {B Buf S Env Number : Type} `{HB : TernaryBackend B Buf} `{HS : TensorStreamSource S} `{HE : Interference Env}.
  Context (as_u64 as_i64 : Number -> option Z) (number : Z -> Number).
  Context (canonical : DigestBody Number -> option (list Z)) (hash : list Z -> list Z).
  Context (thread : nat).

(** The backend, the source, the other threads, the budgets, the recorder, the
    reservations this call's variables own and the buffers they own. *)
Record State : Type := MkState {
  st_backend : B;
  st_source : S;
  st_env : Env;
  st_world : World;
  st_recorder : EvidenceRecorder (Number := Number);
  st_held : gset nat;
  st_buffers : list Buf }.

Definition with_backend (s : State) (b : B) : State :=
  MkState b (st_source s) (st_env s) (st_world s) (st_recorder s) (st_held s) (st_buffers s).
Definition with_source (s : State) (x : S) : State :=
  MkState (st_backend s) x (st_env s) (st_world s) (st_recorder s) (st_held s) (st_buffers s).
Definition with_budgets (s : State) (e : Env) (w : World) (held : gset nat) : State :=
  MkState (st_backend s) (st_source s) e w (st_recorder s) held (st_buffers s).
Definition with_recorder (s : State) (r : EvidenceRecorder) : State :=
  MkState (st_backend s) (st_source s) (st_env s) (st_world s) r (st_held s) (st_buffers s).
Definition with_buffers (s : State) (l : list Buf) : State :=
  MkState (st_backend s) (st_source s) (st_env s) (st_world s) (st_recorder s) (st_held s) l.

Definition M (E A : Type) : Type := State -> State * res E A.

Definition ret {E A} (a : A) : M E A := fun s => (s, Ok a).
Definition lift {E A} (m : res E A) : M E A := fun s => (s, m).
Definition m_bind {E A C} (m : M E A) (k : A -> M E C) : M E C := fun s =>
  match m s with
  | (s, Ok a) => k a s
  | (s, Err e) => (s, Err e)
  | (s, Panic) => (s, Panic)
  | (s, NoFuel) => (s, NoFuel)
  end.
Definition mmap_err {E F A} (f : E -> F) (m : M E A) : M F A := fun s => let '(s, r) := m s in (s, map_err f r).

Notation "'let!' x ':=' c 'in' k" := (m_bind c (fun x => k))
  (at level 10, x pattern, c at level 100, k at level 200).

(** [result.ok_or(UnsupportedTensor)] after [?]. *)
Definition supported {A} (o : option A) : res BackendError A := ok_or o UnsupportedTensor.

Definition of_result {E A} (r : E + A) : res E A := match r with inl e => Err e | inr a => Ok a end.

(** A method of the backend. *)
Definition call {A} (f : B -> B * (BackendError + A)) : M BackendError A := fun s =>
  let '(b, r) := f (st_backend s) in (with_backend s b, of_result r).

(** A method of the backend that returns a buffer, which the caller then owns. *)
Definition call_buffer (f : B -> B * (BackendError + Buf)) : M BackendError Buf := fun s =>
  let '(b, r) := f (st_backend s) in
  let s := with_backend s b in
  match r with
  | inl e => (s, Err e)
  | inr buffer => (with_buffers s (buffer :: st_buffers s), Ok buffer)
  end.

(** * Reservations and scopes *)

(** Other threads run. *)
Definition tick (s : State) : State :=
  let '(e, w) := interfere (st_env s) (st_held s) (st_world s) in with_budgets s e w (st_held s).

Definition set_world (s : State) (w : World) : State := with_budgets s (st_env s) w (st_held s).

(** The ledger behind a borrowed budget. *)
Definition ledger_of (w : World) (h : nat) : option (nat * Ledger) :=
  l ← handles w !! h; L ← ledgers w !! l; Some (l, L).

(** The loop of [TensorPayloadBudget::reserve], one atomic action at a time. *)
Fixpoint reserve_loop (fuel : nat) (s : State) : State * res BackendError nat :=
  match fuel with
  | O => (s, NoFuel)
  | Datatypes.S fuel =>
      let s := tick s in
      let w := st_world s in
      match p ← loops w !! thread; '(l, L) ← ledger_of w (lp_handle p); Some (p, l, L) with
      | None => (s, Panic)
      | Some (p, l, L) =>
          let r := fresh (dom (resv w)) in
          let weak := spurious (st_env s) in
          let w' := op_attempt thread l r p L weak w in
          match reserve_attempt L (lp_bytes p) (lp_used p) weak with
          | Granted _ => (with_budgets s (st_env s) w' ({[ r ]} ∪ st_held s), Ok r)
          | Failed e => (set_world s w', Err e)
          | Retry _ => reserve_loop fuel (set_world s w')
          end
      end
  end.

Definition reserve (fuel : nat) (h : nat) (bytes : Z) : M BackendError nat := fun s =>
  let s := tick s in
  match ledger_of (st_world s) h with
  | None => (s, Panic)
  | Some (_, L) => reserve_loop fuel (set_world s (op_load thread h bytes L (st_world s)))
  end.

(** [drop] of a reservation, and of the buffer obtained last. *)
Definition release (r : nat) (s : State) : State :=
  let s := tick s in with_budgets s (st_env s) (drop_reservation r (st_world s)) (st_held s ∖ {[ r ]}).
Definition free_buffer (s : State) : State := with_buffers s (tail (st_buffers s)).

(** The scope of a local: dropped on every way out. *)
Definition scoped {E A} (r : nat) (m : M E A) : M E A := fun s =>
  match m s with
  | (s, NoFuel) => (s, NoFuel)
  | (s, x) => (release r s, x)
  end.

(** The scope of a local that success moves out: dropped on the error paths. *)
Definition guarded {E A} (drop : State -> State) (m : M E A) : M E A := fun s =>
  match m s with
  | (s, Ok a) => (s, Ok a)
  | (s, NoFuel) => (s, NoFuel)
  | (s, x) => (drop s, x)
  end.
(** * Uploads *)

(** [TernaryBackend::upload_tensor_checked], which no backend overrides. *)
Definition upload_tensor_checked (view : TensorView) (policy : TensorUploadPolicy) : M BackendError (Buf * TensorCaps) :=
  let! caps := call (fun b => tensor_caps b view) in
  let! caps := lift (supported caps) in
  let! _ := lift (validate_tensor_upload_policy caps policy) in
  let! buffer := call_buffer (fun b => upload_tensor b view) in
  guarded free_buffer (
    let actual := len_bytes buffer in
    if negb (actual =? payload_bytes caps) then lift (Err (TensorPayloadMismatch (payload_bytes caps) actual))
    else ret (buffer, caps)).

Definition execution_name (e : TensorExecution) : list Z :=
  match e with Native => utf8 "Native" | Emulated => utf8 "Emulated" end.

(** The event with its serde form; object keys are in the order of serde_json's map. *)
Definition uploaded_event (u : TensorUploaded) : Event (Number := Number) :=
  MkEvent (utf8 "tritium.runtime.tensor_uploaded") 1 (Some (VObject [
    (utf8 "backend", VString (tu_backend u));
    (utf8 "caps", VObject [
      (utf8 "execution", VString (execution_name (execution (tu_caps u))));
      (utf8 "payload_bytes", VNumber (number (payload_bytes (tu_caps u))))]);
    (utf8 "decoded_source_bytes", VNumber (number (tu_decoded_source_bytes u)));
    (utf8 "physical_device", VString (tu_physical_device u));
    (utf8 "tensor", VString (tu_tensor u))])).

Definition record_uploaded (name : list Z) (caps : TensorCaps) (decoded_source_bytes : Z) (context : TensorUploadContext)
  : M TensorUploadError unit := fun s =>
  let event := uploaded_event (MkUploaded name (device_id (st_backend s)) (physical_device_id (st_backend s)) caps decoded_source_bytes) in
  match emit as_u64 as_i64 canonical hash (st_recorder s) event (cx_span context) (cx_parent context) (cx_logical_time context) with
  | Ok r => (with_recorder s r, Ok tt)
  | Err e => (s, Err (EvidenceErr e))
  | Panic => (s, Panic)
  | NoFuel => (s, NoFuel)
  end.

(** The plan of a metadata-planned upload and its two workspace reservations. *)
Definition admit_work (fuel : nat) (view : TensorView) (policy : TensorUploadPolicy) (rs : TensorUploadResources)
  : M BackendError (TensorUploadPlan * nat * nat) :=
  let! metadata := lift (meta_from_view view) in
  let! plan := call (fun b => tensor_upload_plan b metadata) in
  let! plan := lift (supported plan) in
  let! _ := lift (validate_tensor_upload_policy (plan_caps plan) policy) in
  let! host := reserve fuel (rs_host_workspace rs) (host_workspace_bytes plan) in
  guarded (release host) (
    let! device := reserve fuel (rs_device_workspace rs) (device_workspace_bytes plan) in
    ret (plan, host, device)).

Definition admit_payload (fuel : nat) (view : TensorView) (policy : TensorUploadPolicy)
    (work : option (TensorUploadPlan * nat * nat)) (budget : nat) : M BackendError (TensorCaps * nat) :=
  let! caps := match work with
    | Some (plan, _, _) => ret (plan_caps plan)
    | None =>
        let! caps := call (fun b => tensor_caps b view) in
        lift (supported caps)
    end in
  let! _ := lift (validate_tensor_upload_policy caps policy) in
  let! reservation := reserve fuel budget (payload_bytes caps) in
  ret (caps, reservation).

(** [option.map(..).transpose()]. *)
Definition when {E A C} (o : option A) (f : A -> M E C) : M E (option C) :=
  match o with
  | None => ret None
  | Some a => let! c := f a in ret (Some c)
  end.

(** The tuple [work] drops its reservations in field order. *)
Definition scoped_work {E A} (work : option (TensorUploadPlan * nat * nat)) (m : M E A) : M E A :=
  match work with
  | None => m
  | Some (_, host, device) => scoped device (scoped host m)
  end.

Definition guarded_payload {E A} (reserved : option (TensorCaps * nat)) (m : M E A) : M E A :=
  match reserved with
  | None => m
  | Some (_, r) => guarded (release r) m
  end.

Definition upload_logged (fuel : nat) (view : TensorView) (policy : TensorUploadPolicy) (name : list Z) (context : TensorUploadContext)
    (budget : option nat) (resources : option TensorUploadResources) : M TensorUploadError (Handle Buf * TensorCaps) :=
  if bool_decide (name = []) then lift (Err EmptyTensorName) else
  let! decoded_source_bytes := lift (map_err BackendErr (view_decoded_bytes view)) in
  let! work := mmap_err BackendErr (when resources (admit_work fuel view policy)) in
  scoped_work work (
    let! reserved := mmap_err BackendErr (when budget (admit_payload fuel view policy work)) in
    guarded_payload reserved (
      let! (buffer, caps) := mmap_err BackendErr (upload_tensor_checked view policy) in
      guarded free_buffer (
        let! _ := lift (match reserved with
          | Some (expected, _) => if bool_decide (expected = caps) then Ok tt
              else Err (BackendErr (InvalidInput (Text "tensor capabilities changed during admitted upload")))
          | None => Ok tt
          end) in
        let! _ := record_uploaded name caps decoded_source_bytes context in
        ret (match reserved with Some (_, r) => AdmittedBuffer buffer r | None => Bare buffer end, caps)))).

Definition upload_tensor_logged (fuel : nat) (view : TensorView) (policy : TensorUploadPolicy) (name : list Z) (context : TensorUploadContext)
  : M TensorUploadError (Handle Buf * TensorCaps) := upload_logged fuel view policy name context None None.

Definition upload_tensor_logged_admitted (fuel : nat) (view : TensorView) (policy : TensorUploadPolicy) (name : list Z)
    (context : TensorUploadContext) (budget : nat) : M TensorUploadError (Handle Buf * TensorCaps) :=
  upload_logged fuel view policy name context (Some budget) None.

Definition upload_tensor_logged_with_resources (fuel : nat) (view : TensorView) (policy : TensorUploadPolicy) (name : list Z)
    (context : TensorUploadContext) (resources : TensorUploadResources) : M TensorUploadError (Handle Buf * TensorCaps) :=
  upload_logged fuel view policy name context (Some (rs_payload resources)) (Some resources).

(** * Streamed uploads *)

Definition gets {E A} (f : State -> A) : M E A := fun s => (s, Ok (f s)).

Definition check_recorder (context : TensorUploadContext) : M TensorUploadError unit := fun s =>
  (s, map_err EvidenceErr (check_emit (st_recorder s) (uploaded_event (MkUploaded [] [] [] (MkCaps Native 0) 0))
    (cx_span context) (cx_parent context) (cx_logical_time context))).

Definition plan_source (metadata : TensorMetadata) (encoding : TensorStreamEncoding) : M BackendError (option TensorStreamPlan) :=
  call (fun b => tensor_stream_plan b metadata encoding).

(** The backend reads the source through a fresh [CheckedSource]. *)
Definition stream_checked : M BackendError (Buf * bool) := fun s =>
  let '(b, (x, completed), r) := run_session (upload_tensor_stream (st_backend s)) (st_source s, false) in
  let s := with_source (with_backend s b) x in
  match r with
  | inl e => (s, Err e)
  | inr buffer => (with_buffers s (buffer :: st_buffers s), Ok (buffer, completed))
  end.

(** The checks between the transfer and the event. *)
Definition check_streamed (plan : TensorStreamPlan) (buffer : Buf) (completed : bool) : M BackendError unit :=
  if negb completed then lift (Err (stream_error "backend did not complete a checked source visit")) else
  let actual := len_bytes buffer in
  let advertised := payload_bytes (plan_caps (sp_upload plan)) in
  if negb (actual =? advertised) then lift (Err (TensorPayloadMismatch advertised actual)) else
  let! metadata := gets (fun s => src_metadata (st_source s)) in
  let! encoding := gets (fun s => src_encoding (st_source s)) in
  let! again := plan_source metadata encoding in
  let! encoded := gets (fun s => src_encoded_bytes (st_source s)) in
  lift (if negb (bool_decide (again = Some plan)) || negb (encoded =? sp_encoded_bytes plan)
    then Err (stream_error "stream plan changed during upload") else Ok tt).

Definition upload_tensor_stream_logged_with_resources (fuel : nat) (policy : TensorUploadPolicy) (name : list Z)
    (context : TensorUploadContext) (resources : TensorUploadResources) : M TensorUploadError (Handle Buf * TensorCaps) :=
  if bool_decide (name = []) then lift (Err EmptyTensorName) else
  let! _ := check_recorder context in
  let! metadata := gets (fun s => src_metadata (st_source s)) in
  let! encoding := gets (fun s => src_encoding (st_source s)) in
  let! plan := mmap_err BackendErr (plan_source metadata encoding) in
  let! plan := lift (map_err BackendErr (supported plan)) in
  let! encoded := gets (fun s => src_encoded_bytes (st_source s)) in
  if negb (encoded =? sp_encoded_bytes plan) then lift (Err (BackendErr (stream_error "stream source length differs from plan"))) else
  let upload := sp_upload plan in
  let! _ := lift (map_err BackendErr (validate_tensor_upload_policy (plan_caps upload) policy)) in
  let! decoded := lift (map_err BackendErr (meta_decoded_bytes metadata)) in
  let! host := mmap_err BackendErr (reserve fuel (rs_host_workspace resources) (host_workspace_bytes upload)) in
  scoped host (
    let! device := mmap_err BackendErr (reserve fuel (rs_device_workspace resources) (device_workspace_bytes upload)) in
    scoped device (
      let! payload := mmap_err BackendErr (reserve fuel (rs_payload resources) (payload_bytes (plan_caps upload))) in
      guarded (release payload) (
        let! (buffer, completed) := mmap_err BackendErr stream_checked in
        guarded free_buffer (
          let! _ := mmap_err BackendErr (check_streamed plan buffer completed) in
          let! _ := record_uploaded name (plan_caps upload) decoded context in
          ret (AdmittedBuffer buffer payload, plan_caps upload))))).

(** Dropping a returned handle: the buffer first, then its reservation. *)
Definition drop_handle (h : Handle Buf) (s : State) : State :=
  match h with
  | Bare _ => free_buffer s
  | AdmittedBuffer _ r => release r (free_buffer s)
  end.
End Upload.
