(* ===== verification/UploadSafe.v ===== *)
(** * Uploads are exception safe

    Triples for the upload monad of Upload.v: they track the recorder, the buffers and the
    reservations a call owns, under every interference of other threads that plays by the
    rules of Budget. Whatever fails, the call ends with what it started with. *)

From Stdlib Require Import ZArith Lia Bool.
From stdpp Require Import base list numbers gmap relations.
From S2P Require Import Prelude Text Core Outcome Evidence Schema PerTile Spec AdditiveView TensorPlan Budget Upload.

#[local] Open Scope Z_scope.

(** Declared sizes are [u64]. *)
Class BackendTyped (B Buf : Type) `{TernaryBackend B Buf} : Prop := {
  caps_typed : forall b v b' c, tensor_caps b v = (b', inr (Some c)) -> is_u64 (payload_bytes c);
  upload_plan_typed : forall b m b' p, tensor_upload_plan b m = (b', inr (Some p)) ->
    is_u64 (payload_bytes (plan_caps p)) /\ is_u64 (host_workspace_bytes p) /\ is_u64 (device_workspace_bytes p);
  stream_plan_typed : forall b m e b' p, tensor_stream_plan b m e = (b', inr (Some p)) ->
    is_u64 (payload_bytes (plan_caps (sp_upload p))) /\ is_u64 (host_workspace_bytes (sp_upload p)) /\
    is_u64 (device_workspace_bytes (sp_upload p)) }.

(** What other threads may do: steps of the budgets that leave alone this thread's loop,
    the budget handles it borrows and the reservations it owns. *)
Record calm (thread : nat) (borrowed held : gset nat) (w w' : World) : Prop := {
  calm_steps : rtc step w w';
  calm_loop : loops w' !! thread = loops w !! thread;
  calm_handles : forall h, h ∈ borrowed -> handles w' !! h = handles w !! h;
  calm_held : forall r, r ∈ held -> resv w' !! r = resv w !! r /\ (~ owned w r -> ~ owned w' r) }.

Class CalmInterference (Env : Type) `{Interference Env} (thread : nat) (borrowed : gset nat) : Prop :=
  interfere_calm : forall e held w e' w', interfere e held w = (e', w') -> calm thread borrowed held w w'.

(** Nobody else runs, and no compare-exchange fails spuriously. *)
Definition quiet (Env : Type) `{Interference Env} : Prop :=
  (forall e held w, interfere e held w = (e, w)) /\ forall e : Env, spurious e = false.

(** * A world with reservations added *)

Definition charge_ledger (held : gmap nat Reservation) (l : nat) (L : Ledger) : option Ledger :=
  Some (MkLedger (limit L) (used L + charged l held) (parent L)).

Definition overlay (thread : nat) (lp : option Loop) (held : gmap nat Reservation) (w : World) : World :=
  MkWorld (map_imap (charge_ledger held) (ledgers w)) (held ∪ resv w) (handles w) (partial_alter (fun _ => lp) thread (loops w)).

Lemma overlay_empty thread w : loops w !! thread = None -> overlay thread None ∅ w = w.
Proof.
  intros Ht. destruct w as [ls rs hs lps]. unfold overlay. simpl in *. f_equal.
  - apply map_eq. intros l. rewrite map_lookup_imap. destruct (ls !! l) as [[lm u pr]|]; [|done]. unfold charge_ledger, charged.
    rewrite msum_empty. cbn. by rewrite Z.add_0_r.
  - by rewrite (left_id_L ∅ (∪)).
  - change (delete thread lps = lps). by apply delete_id.
Qed.

Lemma overlay_loop thread lp lp' held w : loops (overlay thread lp held w) !! thread = lp /\
  partial_alter (fun _ => lp') thread (loops (overlay thread lp held w)) = loops (overlay thread lp' held w).
Proof.
  split; [simpl; by rewrite lookup_partial_alter_eq|]. simpl. apply map_eq. intros k. destruct (decide (k = thread)) as [->|]; [by rewrite !lookup_partial_alter_eq|by rewrite !lookup_partial_alter_ne].
Qed.

Lemma overlay_set_loops thread lp lp' held w :
  set_loops (partial_alter (fun _ => lp') thread) (overlay thread lp held w) = overlay thread lp' held w.
Proof. unfold set_loops. by rewrite (proj2 (overlay_loop thread lp lp' held w)). Qed.

Lemma overlay_grant thread lp held w l L r bytes : held !! r = None -> ledgers (overlay thread lp held w) !! l = Some L ->
  <[l := MkLedger (limit L) (used L + bytes) (parent L)]> (ledgers (overlay thread lp held w)) =
  ledgers (overlay thread None (<[r := MkReservation l bytes]> held) w).
Proof.
  intros Hr HL. apply map_eq. intros k. simpl in *. rewrite map_lookup_imap in *.
  assert (Hc : forall k, charged k (<[r := MkReservation l bytes]> held) = (if decide (l = k) then bytes else 0) + charged k held)
    by (intros; by rewrite charged_insert).
  destruct (decide (k = l)) as [->|Hne].
  - rewrite lookup_insert_eq. destruct (ledgers w !! l) as [L0|]; [|done]. simpl in *. unfold charge_ledger in *. injection HL as <-. simpl.
    rewrite Hc, decide_True by done. do 2 f_equal. lia.
  - rewrite lookup_insert_ne by done. rewrite map_lookup_imap. destruct (ledgers w !! k); [|done]. simpl. unfold charge_ledger.
    by rewrite Hc, decide_False.
Qed.

Lemma overlay_drop thread lp held w r R : Inv w -> Inv (overlay thread lp held w) -> held !! r = Some R -> held ##ₘ resv w ->
  drop_reservation r (overlay thread lp held w) = overlay thread lp (delete r held) w.
Proof.
  intros I0 I Hr Hd. unfold drop_reservation. assert (Hw : resv (overlay thread lp held w) !! r = Some R) by (simpl; by apply lookup_union_Some_l).
  rewrite Hw. unfold set_resv, set_ledgers, overlay. simpl. f_equal; [|by rewrite delete_union, (delete_id (resv w)) by (by eapply map_disjoint_Some_l)].
  apply map_eq. intros k. destruct (decide (k = r_ledger R)) as [->|Hne].
  - rewrite lookup_alter_eq, !map_lookup_imap. destruct (ledgers w !! r_ledger R) as [L|] eqn:HL; [|done]. simpl. unfold charge_ledger, fetch_sub. simpl.
    do 2 f_equal. rewrite (charged_delete _ r R held Hr). unfold charge at 1. rewrite decide_True by done.
    assert (Hx : ledgers (overlay thread lp held w) !! r_ledger R = Some (MkLedger (limit L) (used L + charged (r_ledger R) held) (parent L)))
      by (simpl; by rewrite map_lookup_imap, HL).
    destruct (inv_used _ I _ _ Hx) as [_ Hle]. simpl in Hle. rewrite (charged_delete _ r R held Hr) in Hle. unfold charge in Hle at 1.
    rewrite decide_True in Hle by done. pose proof (inv_used_nonneg w _ _ I0 HL).
    destruct (inv_resv _ I r R Hw) as [Hb _].
    assert (0 <= charged (r_ledger R) (delete r held)).
    { apply charged_nonneg. intros r' R' H'. apply lookup_delete_Some in H' as [_ H']. destruct (inv_resv _ I r' R') as [? _]; [|lia].
      simpl. by apply lookup_union_Some_l. }
    rewrite Z.mod_small; [lia|]. unfold u64_max in *. lia.
  - rewrite lookup_alter_ne by done. rewrite !map_lookup_imap. destruct (ledgers w !! k); [|done]. simpl. unfold charge_ledger. do 3 f_equal.
    rewrite (charged_delete _ r R held Hr). unfold charge at 1. rewrite decide_False by done. lia.
Qed.

(** * Steps and ownership *)

Lemma steps_inv w w' : Inv w -> rtc step w w' -> Inv w'.
Proof. intros I H. induction H as [|? ? ? Hs _ IH]; [done|]. apply IH. by eapply step_inv. Qed.

Lemma owned_ext w w' r : (forall l, parent <$> ledgers w' !! l = parent <$> ledgers w !! l) -> owned w' r -> owned w r.
Proof.
  intros H (l & L & HL & Hp). specialize (H l). rewrite HL in H. destruct (ledgers w !! l) as [L0|] eqn:H0; [|done].
  injection H as H. exists l, L0. split; [done|]. by rewrite <- H.
Qed.

Lemma not_owned_fresh w r : Inv w -> resv w !! r = None -> ~ owned w r.
Proof. intros I Hr (l & L & HL & Hp). destruct (inv_parent w I l L r HL Hp) as (R & HR & _). by rewrite Hr in HR. Qed.

Lemma grant_parents w l L used' k : ledgers w !! l = Some L ->
  parent <$> <[l := MkLedger (limit L) used' (parent L)]> (ledgers w) !! k = parent <$> ledgers w !! k.
Proof. intros HL. destruct (decide (k = l)) as [->|]; [by rewrite lookup_insert_eq, HL|by rewrite lookup_insert_ne]. Qed.

Lemma drop_other w r r' : r' <> r -> resv (drop_reservation r w) !! r' = resv w !! r'.
Proof. intros Hne. unfold drop_reservation. destruct (resv w !! r); [|done]. simpl. by rewrite lookup_delete_ne. Qed.

Lemma drop_rest w r : handles (drop_reservation r w) = handles w /\ loops (drop_reservation r w) = loops w /\
  forall l, parent <$> ledgers (drop_reservation r w) !! l = parent <$> ledgers w !! l.
Proof.
  unfold drop_reservation. destruct (resv w !! r) as [R|]; [|done]. simpl. split; [done|]. split; [done|]. intros l.
  destruct (decide (l = r_ledger R)) as [->|]; [rewrite lookup_alter_eq; by destruct (ledgers w !! r_ledger R)|by rewrite lookup_alter_ne].
Qed.

(** * Nothing but a reservation loop needs fuel *)

Lemma ends_plane_range ix p : ends (plane_range ix p).
Proof. unfold plane_range. repeat (apply ends_bind; [auto with ends|intros]). destruct (_ =? _); auto with ends. Qed.

Lemma ends_plane_trits v p : ends (plane_trits v p).
Proof.
  unfold plane_trits. apply ends_if; [done|]. apply ends_bind; [|intros []; auto with ends].
  destruct (av_allocation v); [|apply ends_plane_range]. repeat (apply ends_bind; [auto with ends|intros]). done.
Qed.

Lemma ends_plane_trit_count a p : ends (md_plane_trit_count a p).
Proof.
  unfold md_plane_trit_count, invalid. destruct (md_allocation a) as [u|pl|v].
  - by destruct (_ <? _).
  - apply ends_map_err. unfold plane_trit_count. apply ends_if; [done|]. apply ends_for_enum. intros i x n. apply ends_if; [|done].
    unfold tile_width. auto with ends.
  - auto using ends_plane_trits with ends.
Qed.

Lemma ends_meta_bytes m : ends (meta_decoded_bytes m).
Proof.
  destruct m as [a|r c]; cbn [meta_decoded_bytes]; [|apply ends_ok_or]. apply ends_bind; [auto with ends|]. intros b.
  apply ends_for_range. auto using ends_plane_trit_count with ends.
Qed.

Lemma ends_view_bytes v : ends (view_decoded_bytes v).
Proof. unfold view_decoded_bytes, dense_new. destruct v; auto 10 with ends. Qed.

Lemma ends_from_view v : ends (meta_from_view v).
Proof. destruct v; cbn [meta_from_view]; auto using ends_view_bytes with ends. Qed.

Lemma ends_policy caps policy : ends (validate_tensor_upload_policy caps policy).
Proof. unfold validate_tensor_upload_policy. destruct (max_payload_bytes policy); auto with ends. Qed.

Section Emit.
  Context {Number : Type} (as_u64 as_i64 : Number -> option Z) (canonical : DigestBody Number -> option (list Z)) (hash : list Z -> list Z).

Lemma ends_check_emit (r : EvidenceRecorder (Number := Number)) e span parent time : ends (check_emit r e span parent time).
Proof. unfold check_emit. auto 20 with ends. Qed.

Lemma ends_emit (r : EvidenceRecorder (Number := Number)) e span parent time :
  ends (emit as_u64 as_i64 canonical hash r e span parent time).
Proof.
  unfold emit. apply ends_bind; [apply ends_check_emit|]. intros _. apply ends_bind; [auto with ends|]. intros p.
  apply ends_bind; [unfold validate_json_numbers; auto with ends|]. intros _. apply ends_bind; [auto with ends|]. intros n.
  apply ends_bind; [unfold event_digest; auto with ends|]. intros d. apply ends_bind; [|auto with ends].
  unfold encode_hex, hex_byte. auto 10 with ends.
Qed.
End Emit.

Section Triples.
  Context {B Buf S Env Number : Type} `{HB : TernaryBackend B Buf} `{!BackendTyped B Buf} `{HS : TensorStreamSource S} `{HE : Interference Env}.
  Context (thread fuel : nat) (borrowed : gset nat) `{HC : !CalmInterference Env thread borrowed}.
  Context (w0 : World) (I0 : Inv w0) (Hidle : loops w0 !! thread = None) (Hlive : forall h, h ∈ borrowed -> is_Some (handles w0 !! h)).
  Abbreviation St := (State (B := B) (Buf := Buf) (S := S) (Env := Env) (Number := Number)).
  Abbreviation recorder := (EvidenceRecorder (Number := Number)).

(** What a call owns: the recorder's contents, its buffers and its reservations. *)
Record Owns : Type := MkOwns { o_recorder : recorder; o_buffers : list Buf; o_held : gmap nat Reservation }.

Definition take_reservation (r : nat) (R : Reservation) (a : Owns) : Owns := MkOwns (o_recorder a) (o_buffers a) (<[r := R]> (o_held a)).
Definition take_buffer (b : Buf) (a : Owns) : Owns := MkOwns (o_recorder a) (b :: o_buffers a) (o_held a).

(** State [s], started from the budgets [w0] and inside a reserve loop [lp] or not, owns
    [a]; alone, it has changed nothing but its own reservations. *)
Record here (lp : option Loop) (a : Owns) (s : St) : Prop := {
  h_steps : rtc step w0 (st_world s);
  h_loop : loops (st_world s) !! thread = lp;
  h_handles : forall h, h ∈ borrowed -> handles (st_world s) !! h = handles w0 !! h;
  h_recorder : st_recorder s = o_recorder a;
  h_buffers : st_buffers s = o_buffers a;
  h_held : st_held s = dom (o_held a);
  h_resv : forall r R, o_held a !! r = Some R -> resv (st_world s) !! r = Some R /\ ~ owned (st_world s) r;
  h_quiet : quiet Env -> o_held a ##ₘ resv w0 /\ st_world s = overlay thread lp (o_held a) w0 }.

Lemma here_inv lp a s : here lp a s -> Inv (st_world s).
Proof. intros H. eapply steps_inv; [exact I0|apply (h_steps _ _ _ H)]. Qed.

Lemma tick_here lp a s : here lp a s -> here lp a (tick s).
Proof.
  intros [H1 H2 H3 H4 H5 H6 H7 H8]. unfold tick. destruct (interfere (st_env s) (st_held s) (st_world s)) as [e w] eqn:Hi.
  pose proof (interfere_calm _ _ _ _ _ Hi) as [C1 C2 C3 C4]. split; simpl; try done.
  - by etrans.
  - by rewrite C2.
  - intros h Hh. by rewrite C3, H3.
  - intros r R Hr. destruct (H7 r R Hr) as [Ha Hb]. destruct (C4 r) as [C5 C6]; [rewrite H6; by apply elem_of_dom_2 in Hr|].
    rewrite C5. split; [done|]. by apply C6.
  - intros Q. destruct Q as [Q1 Q2]. rewrite Q1 in Hi. injection Hi as <- <-. by apply H8.
Qed.

Lemma release_here r R a s : here None (take_reservation r R a) s -> o_held a !! r = None -> here None a (release r s).
Proof.
  intros H Hr. apply tick_here in H. unfold release. set (s1 := tick s) in *. pose proof (here_inv _ _ _ H) as I1.
  destruct H as [H1 H2 H3 H4 H5 H6 H7 H8]. destruct (H7 r R) as [Hrr Hro]; [apply lookup_insert_eq|].
  destruct (drop_rest (st_world s1) r) as (D1 & D2 & D3). split; simpl; try done.
  - eapply rtc_r; [exact H1|]. by apply step_drop.
  - by rewrite D2.
  - intros h Hh. by rewrite D1, H3.
  - rewrite H6. cbn [o_held take_reservation]. rewrite dom_insert_L. assert (r ∉ dom (o_held a)) by (by apply not_elem_of_dom). set_solver.
  - intros r' R' Hr'. assert (r' <> r) by (intros ->; congruence).
    destruct (H7 r' R') as [Ha Hb]; [cbn; by rewrite lookup_insert_ne|]. rewrite drop_other by done. split; [done|].
    intros Ho. apply Hb. by eapply owned_ext.
  - intros Q. destruct (H8 Q) as [Hd Hw]. cbn [o_held take_reservation] in Hd, Hw. apply map_disjoint_insert_l in Hd as [Hd0 Hd]. split; [done|].
    rewrite Hw in I1 |- *. erewrite overlay_drop; [|done|done|apply lookup_insert_eq|by apply map_disjoint_insert_l]. by rewrite delete_insert_id.
Qed.

(** The outcome of a computation that owns [fail] when it fails and what [Q] says when it
    succeeds. It runs out of fuel only if other threads interfere or it has none. *)
Definition post {E A} (fail : Owns) (Q : A -> Owns -> Prop) (x : St * res E A) : Prop :=
  match x with
  | (s, Ok a) => exists m, here None m s /\ Q a m
  | (s, Err _) | (s, Panic) => here None fail s
  | (s, NoFuel) => st_recorder s = o_recorder fail /\ rtc step w0 (st_world s) /\ ~ (quiet Env /\ (0 < fuel)%nat)
  end.

Definition triple {E A} (m : M E A) (pre fail : Owns) (Q : A -> Owns -> Prop) : Prop :=
  forall s, here None pre s -> post fail Q (m s).

(** The post-state of a granted reservation. *)
Definition granted (h : nat) (bytes : Z) (pre : Owns) (r : nat) (m : Owns) : Prop :=
  o_held pre !! r = None /\ exists l, handles w0 !! h = Some l /\ m = take_reservation r (MkReservation l bytes) pre.

Lemma ledger_of_Some w h l L : ledger_of w h = Some (l, L) -> handles w !! h = Some l /\ ledgers w !! l = Some L.
Proof. unfold ledger_of. destruct (handles w !! h) as [l'|]; [|done]. cbn. destruct (ledgers w !! l') eqn:H; [|done]. cbn. by intros [= <- <-]. Qed.

Lemma ledger_of_live w h : Inv w -> is_Some (handles w !! h) -> exists l L, ledger_of w h = Some (l, L).
Proof.
  intros I [l Hl]. destruct (inv_handles w I h l Hl) as [L HL]. exists l, L. unfold ledger_of. rewrite Hl. cbn. by rewrite HL.
Qed.

Lemma attempt_ledgers t l r p L weak w k : ledgers w !! l = Some L ->
  parent <$> ledgers (op_attempt t l r p L weak w) !! k = parent <$> ledgers w !! k.
Proof.
  intros HL. unfold op_attempt. destruct (reserve_attempt L (lp_bytes p) (lp_used p) weak) as [L'|e|c] eqn:Ha; try done.
  unfold reserve_attempt in Ha. destruct (checked_add _ _) as [q|]; [|done]. destruct (_ <? _); [done|]. destruct (_ && _); [|done].
  injection Ha as <-. by apply grant_parents.
Qed.

(** One iteration that does not grant. *)
Lemma attempt_here a s l p L e (lp' : option Loop) w' : here (Some p) a s -> handles (st_world s) !! lp_handle p = Some l ->
  ledgers (st_world s) !! l = Some L -> w' = set_loops (partial_alter (fun _ => lp') thread) (st_world s) -> step (st_world s) w' ->
  here lp' a (with_budgets s e w' (st_held s)).
Proof.
  intros [H1 H2 H3 H4 H5 H6 H7 H8] Hl HL -> Hs. split; simpl; try done.
  - by eapply rtc_r.
  - by rewrite lookup_partial_alter_eq.
  - intros Q. destruct (H8 Q) as [Hd Hw]. split; [done|]. rewrite Hw at 1. apply overlay_set_loops.
Qed.

Lemma grant_here a s h l L bytes u r : here (Some (MkLoop h bytes u)) a s -> ledgers (st_world s) !! l = Some L -> resv (st_world s) !! r = None ->
  let w' := set_loops (delete thread) (set_resv <[r := MkReservation l bytes]>
    (set_ledgers <[l := MkLedger (limit L) (used L + bytes) (parent L)]> (st_world s))) in
  step (st_world s) w' -> o_held a !! r = None /\
  here None (take_reservation r (MkReservation l bytes) a) (with_budgets s (st_env s) w' ({[ r ]} ∪ st_held s)).
Proof.
  intros H HL Hr w' Hs. pose proof (here_inv _ _ _ H) as I. destruct H as [H1 H2 H3 H4 H5 H6 H7 H8].
  assert (Hn : o_held a !! r = None) by (destruct (o_held a !! r) as [R|] eqn:E; [|done]; destruct (H7 r R E); congruence).
  assert (Ho : forall r', owned w' r' -> owned (st_world s) r') by (intros r'; apply owned_ext; intros k; by apply grant_parents).
  split; [done|]. split; simpl; try done.
  - by eapply rtc_r.
  - by rewrite lookup_delete_eq.
  - by rewrite H6, dom_insert_L.
  - intros r' R' Hr'. apply lookup_insert_Some in Hr' as [[<- <-]|[Hne Hr']].
    + split; [by rewrite lookup_insert_eq|]. intros Hw. by apply (not_owned_fresh _ _ I Hr), Ho.
    + destruct (H7 r' R' Hr') as [Ha Hb]. split; [by rewrite lookup_insert_ne|]. intros Hw. by apply Hb, Ho.
  - intros Q. destruct (H8 Q) as [Hd Hw]. unfold w'. rewrite Hw in HL, Hr |- *. split.
    + apply map_disjoint_insert_l. split; [|done]. apply lookup_union_None in Hr as [_ Hr]. done.
    + unfold set_loops, set_resv, set_ledgers, take_reservation. cbn [ledgers resv handles loops o_held].
      match goal with |- _ = ?o => transitivity (MkWorld (ledgers o) (resv o) (handles o) (loops o)); [|by destruct o] end. f_equal.
      * by apply (overlay_grant thread (Some (MkLoop h bytes u)) (o_held a) w0 l L r bytes).
      * apply insert_union_l.
      * apply (proj2 (overlay_loop thread (Some (MkLoop h bytes u)) None (o_held a) w0)).
Qed.

Lemma reserve_loop_post n : forall a s h bytes u, is_u64 bytes -> h ∈ borrowed -> here (Some (MkLoop h bytes u)) a s ->
  (quiet Env -> (0 < fuel)%nat -> (0 < n)%nat /\ forall l L, ledger_of (st_world s) h = Some (l, L) -> used L = u) ->
  post a (granted h bytes a) (reserve_loop thread n s).
Proof.
  induction n as [|n IH]; intros a s h bytes u Hb Hh H Hq.
  { split; [apply (h_recorder _ _ _ H)|]. split; [apply (h_steps _ _ _ H)|]. intros [Q F]. destruct (Hq Q F). lia. }
  cbn [reserve_loop]. apply tick_here in H as H1. assert (Hq' : quiet Env -> (0 < fuel)%nat -> forall l L, ledger_of (st_world (tick s)) h = Some (l, L) -> used L = u).
  { intros Q F. unfold tick. rewrite (proj1 Q). by apply Hq. }
  clear Hq H. set (s1 := tick s) in *. pose proof (here_inv _ _ _ H1) as I1.
  rewrite (h_loop _ _ _ H1). cbn [mbind option_bind lp_handle].
  destruct (ledger_of_live (st_world s1) h I1) as (l & L & HlL); [rewrite (h_handles _ _ _ H1) by done; by apply Hlive|].
  rewrite HlL. cbn [mbind option_bind]. apply ledger_of_Some in HlL as HlL'. destruct HlL' as [Hl HL].
  assert (Hw0 : handles w0 !! h = Some l) by (by rewrite <- (h_handles _ _ _ H1)).
  set (r := fresh (dom (resv (st_world s1)))). assert (Hr : resv (st_world s1) !! r = None) by (apply not_elem_of_dom, is_fresh).
  set (p := MkLoop h bytes u) in *. set (weak := spurious (st_env s1)).
  pose proof (step_attempt (st_world s1) thread l r p L weak (h_loop _ _ _ H1) Hl HL Hr) as Hst.
  unfold op_attempt in *. destruct (reserve_attempt L (lp_bytes p) (lp_used p) weak) as [L'|e|c] eqn:Ha.
  - unfold reserve_attempt in Ha. destruct (checked_add _ _) as [q|] eqn:Hc; [|done]. apply checked_add_inv in Hc as [-> _].
    destruct (_ <? _); [done|]. destruct (Z.eqb_spec (used L) (lp_used p)) as [Hu|]; [|done]. destruct weak; [done|]. injection Ha as <-.
    change (used L = u) in Hu. subst u. destruct (grant_here a s1 h l L bytes (used L) r H1 HL Hr Hst) as [Hn Hh'].
    eexists. split; [exact Hh'|]. split; [done|]. by exists l.
  - eapply attempt_here; [exact H1|done|done|done|exact Hst].
  - apply (IH a _ h bytes c Hb Hh); [eapply attempt_here; [exact H1|done|done|done|exact Hst]|].
    intros Q F. exfalso. specialize (Hq' Q F l L HlL). unfold weak in Ha. rewrite (proj2 Q) in Ha. unfold reserve_attempt in Ha. cbn [lp_used p] in Ha.
    destruct (checked_add _ _); [|done]. destruct (_ <? _); [done|]. rewrite Hq', Z.eqb_refl in Ha. done.
Qed.

Lemma reserve_triple a h bytes : is_u64 bytes -> h ∈ borrowed -> triple (reserve thread fuel h bytes) a a (granted h bytes a).
Proof.
  intros Hb Hh s H. unfold reserve. apply tick_here in H. set (s1 := tick s) in *. pose proof (here_inv _ _ _ H) as I1.
  destruct (ledger_of_live (st_world s1) h I1) as (l & L & HlL); [rewrite (h_handles _ _ _ H) by done; by apply Hlive|]. rewrite HlL.
  apply ledger_of_Some in HlL as HlL'. destruct HlL' as [Hl HL]. apply reserve_loop_post with (u := used L); [done|done| |].
  - pose proof (step_load (st_world s1) thread h l L bytes Hb Hl HL (h_loop _ _ _ H)) as Hst. destruct H as [H1 H2 H3 H4 H5 H6 H7 H8].
    split; simpl; try done; [by eapply rtc_r|by rewrite lookup_insert_eq|]. intros Q. destruct (H8 Q) as [Hd Hw]. split; [done|].
    rewrite Hw at 1. apply (overlay_set_loops thread None (Some (MkLoop h bytes (used L)))).
  - intros Q F. split; [done|]. intros l' L' E. unfold set_world, with_budgets in E. cbn [st_world] in E.
    change (ledger_of (op_load thread h bytes L (st_world s1)) h) with (ledger_of (st_world s1) h) in E. congruence.
Qed.

(** * Rules *)

Lemma triple_impl {E A} (m : M E A) pre fail (Q Q' : A -> Owns -> Prop) : triple m pre fail Q -> (forall a o, Q a o -> Q' a o) -> triple m pre fail Q'.
Proof. intros H Hi s Hs. specialize (H s Hs). destruct (m s) as [s' [a|e| |]]; simpl in *; try done. destruct H as (o & Ho & HQ). eauto. Qed.

Lemma triple_ret {E A} (a : A) pre fail (Q : A -> Owns -> Prop) : Q a pre -> triple (ret (E := E) a) pre fail Q.
Proof. intros HQ s Hs. by exists pre. Qed.

Lemma triple_lift {E A} (m : res E A) pre (Q : A -> Owns -> Prop) : ends m -> (forall a, m = Ok a -> Q a pre) -> triple (lift m) pre pre Q.
Proof. intros He HQ s Hs. unfold lift. destruct m as [a|e| |]; simpl; try done. exists pre. split; [done|]. by apply HQ. Qed.

Lemma triple_bind {E A C} (m : M E A) (k : A -> M E C) pre fail (P : A -> Owns -> Prop) Q :
  triple m pre fail P -> (forall a mid, P a mid -> triple (k a) mid fail Q) -> triple (m_bind m k) pre fail Q.
Proof.
  intros Hm Hk s Hs. specialize (Hm s Hs). unfold m_bind. destruct (m s) as [s' [a|e| |]]; simpl in *; try done.
  destruct Hm as (mid & Hh & HP). by apply (Hk a mid HP).
Qed.

Lemma triple_map_err {E F A} (f : E -> F) (m : M E A) pre fail Q : triple m pre fail Q -> triple (mmap_err f m) pre fail Q.
Proof. intros Hm s Hs. specialize (Hm s Hs). unfold mmap_err. by destruct (m s) as [s' [a|e| |]]. Qed.

Lemma triple_gets {E A} (f : St -> A) pre fail (Q : A -> Owns -> Prop) : (forall a, Q a pre) -> triple (gets (E := E) f) pre fail Q.
Proof. intros HQ s Hs. exists pre. by split. Qed.

Lemma here_backend lp a s b : here lp a s -> here lp a (with_backend s b).
Proof. by intros []. Qed.
Lemma here_source lp a s x : here lp a s -> here lp a (with_source s x).
Proof. by intros []. Qed.
Lemma here_push lp a s b : here lp a s -> here lp (take_buffer b a) (with_buffers s (b :: st_buffers s)).
Proof. intros []. split; simpl; try done. by f_equal. Qed.
Lemma here_pop lp a s b : here lp (take_buffer b a) s -> here lp a (free_buffer s).
Proof. intros [? ? ? ? Hb]. split; simpl; try done. by rewrite Hb. Qed.

Lemma triple_call {A} (f : B -> B * (BackendError + A)) pre : triple (call f) pre pre (fun a o => o = pre /\ exists b b', f b = (b', inr a)).
Proof.
  intros s Hs. unfold call. destruct (f (st_backend s)) as [b [e|a]] eqn:Hf; simpl; [by apply here_backend|].
  exists pre. split; [by apply here_backend|]. eauto.
Qed.

Lemma triple_call_buffer (f : B -> B * (BackendError + Buf)) pre : triple (call_buffer f) pre pre (fun b o => o = take_buffer b pre).
Proof.
  intros s Hs. unfold call_buffer. destruct (f (st_backend s)) as [b [e|x]]; simpl; [by apply here_backend|].
  exists (take_buffer x pre). split; [|done]. by apply (here_push _ _ (with_backend s b)), here_backend.
Qed.

(** A guard whose drop gives back what it adds to the failure state. *)
Lemma triple_guarded {E A} drop (m : M E A) pre fail fail' Q : o_recorder fail' = o_recorder fail ->
  (forall s, here None fail' s -> here None fail (drop s)) -> triple m pre fail' Q -> triple (guarded drop m) pre fail Q.
Proof.
  intros Hrec Hd Hm s Hs. specialize (Hm s Hs). unfold guarded. destruct (m s) as [s' [a|e| |]]; simpl in *; auto. by rewrite <- Hrec.
Qed.

Lemma triple_guard_buffer {E A} b (m : M E A) pre fail Q : triple m pre (take_buffer b fail) Q -> triple (guarded free_buffer m) pre fail Q.
Proof. apply triple_guarded; [done|]. intros s. apply here_pop. Qed.

Lemma triple_guard_reservation {E A} r R (m : M E A) pre fail Q : o_held fail !! r = None ->
  triple m pre (take_reservation r R fail) Q -> triple (guarded (release r) m) pre fail Q.
Proof. intros Hr. apply triple_guarded; [done|]. intros s Hs. by eapply release_here. Qed.

Lemma triple_scoped {E A} r R (m : M E A) pre fail (Q : A -> Owns -> Prop) : o_held fail !! r = None ->
  triple m pre (take_reservation r R fail) (fun a o => exists o', o = take_reservation r R o' /\ o_held o' !! r = None /\ Q a o') ->
  triple (scoped r m) pre fail Q.
Proof.
  intros Hr Hm s Hs. specialize (Hm s Hs). unfold scoped. destruct (m s) as [s' [a|e| |]]; simpl in *; [|by eapply release_here..|done].
  destruct Hm as (o & Ho & o' & -> & Hn & HQ). exists o'. split; [by eapply release_here|done].
Qed.
End Triples.
