(* ===== verification/UploadExact.v ===== *)
(** * What an upload leaves behind

    The theorems on the public upload functions of tensor_upload.rs and
    tensor_stream_upload.rs, from the triples of UploadSafe.v. *)

From Stdlib Require Import ZArith Lia Bool String.
From stdpp Require Import base list numbers gmap relations.
From S2P Require Import Prelude Text Core Outcome Evidence Schema PerTile Spec AdditiveView TensorPlan Budget Upload UploadSafe.

#[local] Open Scope Z_scope.

Section Uploads.
  Context {B Buf S Env Number : Type} `{HB : TernaryBackend B Buf} `{HT : !BackendTyped B Buf} `{HS : TensorStreamSource S} `{HE : Interference Env}.
  Context (as_u64 as_i64 : Number -> option Z) (number : Z -> Number).
  Context (canonical : DigestBody Number -> option (list Z)) (hash : list Z -> list Z).
  Context (thread fuel : nat) (borrowed : gset nat) `{HC : !CalmInterference Env thread borrowed}.
  Context (w0 : World) (I0 : Inv w0) (Hidle : loops w0 !! thread = None) (Hlive : forall h, h ∈ borrowed -> is_Some (handles w0 !! h)).
  Abbreviation triple := (triple (B := B) (S := S) (Env := Env) thread fuel borrowed w0).
  Abbreviation Owns := (Owns (Buf := Buf) (Number := Number)).
  Abbreviation granted := (granted (Buf := Buf) (Number := Number) w0).

Definition recorded (name : list Z) (caps : TensorCaps) (decoded : Z) (context : TensorUploadContext) (r r' : EvidenceRecorder (Number := Number)) : Prop :=
  exists b : B, emit as_u64 as_i64 canonical hash r (uploaded_event number (MkUploaded name (device_id b) (physical_device_id b) caps decoded))
    (cx_span context) (cx_parent context) (cx_logical_time context) = Ok r'.

Lemma when_triple {E A C} (o : option A) (f : A -> M E C) (pre : Owns) Q : (forall a, o = Some a -> triple (f a) pre pre (Q a)) ->
  triple (when o f) pre pre (fun y m => (o = None /\ y = None /\ m = pre) \/ exists a c, o = Some a /\ y = Some c /\ Q a c m).
Proof.
  intros H. destruct o as [a|]; cbn [when]; [|apply triple_ret; by left]. eapply triple_bind; [by apply H|]. intros c m HQ.
  apply triple_ret. right. by exists a, c.
Qed.

Lemma policy_triple caps policy (pre : Owns) :
  triple (lift (validate_tensor_upload_policy caps policy)) pre pre (fun _ o => o = pre /\ admits policy caps).
Proof. apply triple_lift; [apply ends_policy|]. intros [] H. split; [done|]. by apply policy_exact. Qed.

Lemma supported_triple {A} (o : option A) (pre : Owns) : triple (lift (supported o)) pre pre (fun a m => m = pre /\ o = Some a).
Proof. apply triple_lift; [apply ends_ok_or|]. intros a H. split; [done|]. by apply ok_or_inv in H. Qed.

Lemma checked_triple view policy (pre : Owns) : triple (upload_tensor_checked view policy) pre pre
  (fun x o => o = take_buffer (fst x) pre /\ admits policy (snd x) /\ len_bytes (fst x) = payload_bytes (snd x)).
Proof.
  unfold upload_tensor_checked. eapply triple_bind; [apply triple_call|]. intros c ? [-> _].
  eapply triple_bind; [apply supported_triple|]. intros caps ? [-> _].
  eapply triple_bind; [apply policy_triple|]. intros _ ? [-> Hp].
  eapply triple_bind; [apply triple_call_buffer|]. intros b ? ->. apply (triple_guard_buffer _ _ _ _ b).
  destruct (Z.eqb_spec (len_bytes b) (payload_bytes caps)); cbn [negb]; [by apply triple_ret|by apply triple_lift].
Qed.

Lemma record_triple name caps decoded context (pre : Owns) :
  triple (record_uploaded as_u64 as_i64 number canonical hash name caps decoded context) pre pre
    (fun _ o => recorded name caps decoded context (o_recorder pre) (o_recorder o) /\ o_buffers o = o_buffers pre /\ o_held o = o_held pre).
Proof.
  intros s Hs. unfold record_uploaded.
  pose proof (ends_emit as_u64 as_i64 canonical hash (st_recorder s) (uploaded_event number (MkUploaded name (device_id (st_backend s))
    (physical_device_id (st_backend s)) caps decoded)) (cx_span context) (cx_parent context) (cx_logical_time context)) as He.
  destruct (emit _ _ _ _ _ _ _ _ _) as [r'|e| |] eqn:Hr; cbn [post]; try done.
  exists (MkOwns r' (o_buffers pre) (o_held pre)). split; [|split; [|done]].
  - destruct Hs as [? ? ? ? ? ? ? ?]. by split.
  - exists (st_backend s). cbn [o_recorder]. by rewrite <- (h_recorder _ _ _ _ _ _ Hs).
Qed.

Lemma work_triple view policy rs (pre : Owns) : rs_host_workspace rs ∈ borrowed -> rs_device_workspace rs ∈ borrowed ->
  triple (admit_work thread fuel view policy rs) pre pre (fun x o =>
    let '(plan, host, device) := x in is_u64 (payload_bytes (plan_caps plan)) /\
    exists R R', o_held pre !! host = None /\ o_held pre !! device = None /\ device <> host /\
      o = take_reservation device R' (take_reservation host R pre)).
Proof.
  intros Hh Hd. unfold admit_work. eapply triple_bind; [apply (triple_lift _ _ _ _ _ _ (fun _ o => o = pre)); [apply ends_from_view|done]|].
  intros md ? ->. eapply triple_bind; [apply triple_call|]. intros p ? (-> & b & b' & Hp).
  eapply triple_bind; [apply supported_triple|]. intros plan ? [-> ->]. destruct (upload_plan_typed _ _ _ _ Hp) as (T1 & T2 & T3).
  eapply triple_bind; [apply policy_triple|]. intros _ ? [-> _].
  eapply triple_bind; [by apply reserve_triple|]. intros host ? (Hn & l & _ & ->).
  eapply triple_guard_reservation; [done..|]. eapply triple_bind; [by apply reserve_triple|]. intros device ? (Hn' & l' & _ & ->).
  cbn [o_held take_reservation] in Hn'. apply lookup_insert_None in Hn' as [Hn' Hne]. apply triple_ret. split; [done|]. do 2 eexists. by repeat split.
Qed.

Lemma payload_triple view policy work budget (pre : Owns) : budget ∈ borrowed ->
  (forall plan host device, work = Some (plan, host, device) -> is_u64 (payload_bytes (plan_caps plan))) ->
  triple (admit_payload thread fuel view policy work budget) pre pre (fun x o =>
    granted budget (payload_bytes (fst x)) pre (snd x) o).
Proof.
  intros Hb Hw. unfold admit_payload. eapply (triple_bind _ _ _ _ _ _ _ _ (fun caps o => o = pre /\ is_u64 (payload_bytes caps))).
  - destruct work as [[[plan host] device]|]; [apply triple_ret; split; [done|by eapply Hw]|].
    eapply triple_bind; [apply triple_call|]. intros c ? (-> & b & b' & Hc). eapply triple_impl; [apply supported_triple|].
    intros caps ? [-> ->]. split; [done|]. by eapply caps_typed.
  - intros caps ? [-> Ht]. eapply triple_bind; [apply policy_triple|]. intros _ ? [-> _].
    eapply triple_bind; [by apply reserve_triple|]. intros r o Hg. by apply triple_ret.
Qed.

(** A successful upload from [pre]: the policy admits the declared capabilities, the
    buffer has the declared size, the recorder has one event more, and the call keeps the
    buffer and, with a payload budget, one reservation of exactly its size. *)
Definition uploaded (policy : TensorUploadPolicy) (name : list Z) (context : TensorUploadContext) (decoded : Z) (budget : option nat)
    (pre : Owns) (x : Handle Buf * TensorCaps) (o : Owns) : Prop :=
  admits policy (snd x) /\ handle_len (fst x) = payload_bytes (snd x) /\
  recorded name (snd x) decoded context (o_recorder pre) (o_recorder o) /\
  match budget with
  | None => exists b, fst x = Bare b /\ o_buffers o = b :: o_buffers pre /\ o_held o = o_held pre
  | Some g => exists b r l, fst x = AdmittedBuffer b r /\ o_buffers o = b :: o_buffers pre /\ o_held pre !! r = None /\
      handles w0 !! g = Some l /\ o_held o = <[r := MkReservation l (payload_bytes (snd x))]> (o_held pre)
  end.

Lemma take_comm r R r' R' (o : Owns) : r <> r' -> take_reservation r R (take_reservation r' R' o) = take_reservation r' R' (take_reservation r R o).
Proof. intros. unfold take_reservation. cbn. by rewrite insert_insert_ne. Qed.

(** A workspace reserved before is still there after, and dropping it changes nothing else. *)
Lemma uploaded_scoped policy name context decoded budget r R pre x o : o_held pre !! r = None ->
  uploaded policy name context decoded budget (take_reservation r R pre) x o ->
  exists o', o = take_reservation r R o' /\ o_held o' !! r = None /\ uploaded policy name context decoded budget pre x o'.
Proof.
  intros Hr (Ha & Hl & Hrec & Hb). destruct o as [rec bufs held]. destruct budget as [g|]; cbn [o_recorder o_buffers o_held take_reservation] in *.
  - destruct Hb as (b & r' & l & Hx & -> & Hn & Hg & ->). apply lookup_insert_None in Hn as [Hn Hne].
    exists (MkOwns rec (b :: o_buffers pre) (<[r' := MkReservation l (payload_bytes (snd x))]> (o_held pre))).
    unfold take_reservation. cbn. rewrite insert_insert_ne by done. split; [done|]. split; [by rewrite lookup_insert_ne|].
    split; [done|]. split; [done|]. split; [done|]. by exists b, r', l.
  - destruct Hb as (b & Hx & -> & ->). exists (MkOwns rec (b :: o_buffers pre) (o_held pre)). split; [done|]. split; [done|].
    split; [done|]. split; [done|]. split; [done|]. by exists b.
Qed.

Lemma transfer_triple view policy name context decoded budget work (pre : Owns) : (forall g, budget = Some g -> g ∈ borrowed) ->
  (forall plan host device, work = Some (plan, host, device) -> is_u64 (payload_bytes (plan_caps plan))) ->
  triple (
    m_bind (mmap_err BackendErr (when budget (admit_payload thread fuel view policy work))) (fun reserved =>
    guarded_payload reserved (
      m_bind (mmap_err BackendErr (upload_tensor_checked view policy)) (fun '(buffer, caps) =>
      guarded free_buffer (
        m_bind (lift (match reserved with
          | Some (expected, _) => if bool_decide (expected = caps) then Ok tt
              else Err (BackendErr (InvalidInput (Text "tensor capabilities changed during admitted upload")))
          | None => Ok tt
          end)) (fun _ =>
        m_bind (record_uploaded as_u64 as_i64 number canonical hash name caps decoded context) (fun _ =>
        ret (match reserved with Some (_, r) => AdmittedBuffer buffer r | None => Bare buffer end, caps)))))))) pre pre
    (uploaded policy name context decoded budget pre).
Proof.
  intros Hb Hw. eapply triple_bind; [apply triple_map_err, when_triple; intros g Hg; apply (payload_triple view policy work g); auto|].
  intros ? ? [(-> & -> & ->)|(g & [expected r] & -> & -> & Hn & l & Hg & ->)]; cbn [guarded_payload fst snd] in *; cycle 1.
  - eapply triple_guard_reservation; [done..|]. eapply triple_bind; [apply triple_map_err, checked_triple|].
    intros [buffer caps] ? (-> & Hp & Hl). cbn [fst snd] in *. apply (triple_guard_buffer _ _ _ _ buffer).
    eapply triple_bind; [apply (triple_lift _ _ _ _ _ _ (fun _ o => o = take_buffer buffer (take_reservation r (MkReservation l (payload_bytes expected)) pre) /\ expected = caps))|].
    { by destruct (bool_decide _). }
    { intros []. case_bool_decide; [by subst|done]. }
    intros _ ? [-> ->]. eapply triple_bind; [apply record_triple|]. intros _ o (Hrec & Hbuf & Hheld). apply triple_ret.
    split; [done|]. split; [done|]. split; [exact Hrec|]. by exists buffer, r, l.
  - eapply triple_bind; [apply triple_map_err, checked_triple|].
    intros [buffer caps] ? (-> & Hp & Hl). cbn [fst snd] in *. apply (triple_guard_buffer _ _ _ _ buffer).
    eapply triple_bind; [apply (triple_lift _ _ _ _ _ _ (fun _ o => o = take_buffer buffer pre)); done|].
    intros _ ? ->. eapply triple_bind; [apply record_triple|]. intros _ o (Hrec & Hbuf & Hheld). apply triple_ret.
    split; [done|]. split; [done|]. split; [exact Hrec|]. by exists buffer.
Qed.

(** The handles a call borrows. *)
Definition resource_handles (rs : TensorUploadResources) : gset nat := {[ rs_payload rs; rs_host_workspace rs; rs_device_workspace rs ]}.

Lemma upload_logged_triple view policy name context budget resources (pre : Owns) : (forall g, budget = Some g -> g ∈ borrowed) ->
  (forall rs, resources = Some rs -> resource_handles rs ⊆ borrowed) ->
  triple (upload_logged as_u64 as_i64 number canonical hash thread fuel view policy name context budget resources) pre pre
    (fun x o => exists decoded, view_decoded_bytes view = Ok decoded /\ uploaded policy name context decoded budget pre x o).
Proof.
  intros Hb Hr. unfold upload_logged. destruct (bool_decide _); [by apply triple_lift|].
  eapply triple_bind; [apply (triple_lift _ _ _ _ _ _ (fun n o => o = pre /\ view_decoded_bytes view = Ok n))|].
  { apply ends_map_err, ends_view_bytes. } { intros n Hn. apply map_err_Ok_inv in Hn. done. }
  intros decoded ? [-> Hdec]. unfold resource_handles in Hr.
  eapply triple_bind; [apply triple_map_err, when_triple; intros rs Hrs; specialize (Hr rs Hrs); apply (work_triple view policy rs); set_solver|].
  intros ? ? [(-> & -> & ->)|(rs & [[plan host] device] & -> & -> & Ht & R & R' & Hn & Hn' & Hne & ->)]; cbn [scoped_work]; cycle 1.
  - eapply triple_scoped; [done..|]. eapply triple_scoped; [done|done|done|done|cbn; by rewrite lookup_insert_ne|].
    rewrite (take_comm device R' host R) by done. eapply triple_impl; [apply transfer_triple; [done|by intros ??? [= <- _ _]]|].
    intros x o Hu. apply uploaded_scoped in Hu as (o1 & -> & H1 & Hu); [|cbn; by rewrite lookup_insert_ne].
    apply uploaded_scoped in Hu as (o2 & -> & H2 & Hu); [|done]. exists (take_reservation device R' o2). split; [done|]. split; [done|]. eauto 10.
  - eapply triple_impl; [by apply transfer_triple|]. eauto.
Qed.

Lemma check_recorder_triple context (pre : Owns) : triple (check_recorder number context) pre pre (fun _ o => o = pre).
Proof.
  intros s Hs. unfold check_recorder. set (c := check_emit _ _ _ _ _). assert (He : ends c) by apply ends_check_emit.
  destruct c; cbn; [by exists pre|done|done|done].
Qed.

Lemma stream_checked_triple (pre : Owns) : triple stream_checked pre pre (fun x o => o = take_buffer (fst x) pre).
Proof.
  intros s Hs. unfold stream_checked. destruct (run_session _ _) as [[b [x completed]] [e|buffer]]; cbn [post].
  - by apply here_source, here_backend.
  - exists (take_buffer buffer pre). split; [|done]. by apply (here_push _ _ _ _ _ (with_source (with_backend s b) x)), here_source, here_backend.
Qed.

Lemma check_streamed_triple plan buffer completed (pre : Owns) : triple (check_streamed plan buffer completed) pre pre
  (fun _ o => o = pre /\ completed = true /\ len_bytes buffer = payload_bytes (plan_caps (sp_upload plan))).
Proof.
  unfold check_streamed. destruct completed; cbn [negb]; [|by apply triple_lift].
  destruct (Z.eqb_spec (len_bytes buffer) (payload_bytes (plan_caps (sp_upload plan)))); cbn [negb]; [|by apply triple_lift].
  eapply (triple_bind _ _ _ _ _ _ _ _ (fun _ o => o = pre)); [by apply triple_gets|]. intros md ? ->.
  eapply (triple_bind _ _ _ _ _ _ _ _ (fun _ o => o = pre)); [by apply triple_gets|]. intros en ? ->.
  eapply triple_bind; [apply triple_call|]. intros again ? [-> _].
  eapply (triple_bind _ _ _ _ _ _ _ _ (fun _ o => o = pre)); [by apply triple_gets|]. intros encoded ? ->.
  apply triple_lift; [by destruct (_ || _)|]. intros []. by destruct (_ || _).
Qed.

Lemma stream_triple policy name context rs (pre : Owns) : resource_handles rs ⊆ borrowed ->
  triple (upload_tensor_stream_logged_with_resources as_u64 as_i64 number canonical hash thread fuel policy name context rs) pre pre
    (fun x o => exists decoded, (exists md, meta_decoded_bytes md = Ok decoded) /\ uploaded policy name context decoded (Some (rs_payload rs)) pre x o).
Proof.
  intros Hr. unfold resource_handles in Hr. unfold upload_tensor_stream_logged_with_resources. destruct (bool_decide _); [by apply triple_lift|].
  eapply triple_bind; [apply check_recorder_triple|]. intros _ ? ->.
  eapply (triple_bind _ _ _ _ _ _ _ _ (fun _ o => o = pre)); [by apply triple_gets|]. intros md ? ->.
  eapply (triple_bind _ _ _ _ _ _ _ _ (fun _ o => o = pre)); [by apply triple_gets|]. intros en ? ->.
  eapply triple_bind; [apply triple_map_err, triple_call|]. intros p ? (-> & b & b' & Hp).
  eapply (triple_bind _ _ _ _ _ _ _ _ (fun a m => m = pre /\ p = Some a));
    [apply triple_lift; [apply ends_map_err, ends_ok_or|by destruct p; intros ? [= <-]]|]. intros plan ? [-> ->].
  destruct (stream_plan_typed _ _ _ _ _ Hp) as (T1 & T2 & T3).
  eapply (triple_bind _ _ _ _ _ _ _ _ (fun _ o => o = pre)); [by apply triple_gets|]. intros encoded ? ->.
  destruct (encoded =? _); cbn [negb]; [|by apply triple_lift].
  eapply (triple_bind _ _ _ _ _ _ _ _ (fun _ o => o = pre /\ admits policy (plan_caps (sp_upload plan)))).
  { apply triple_lift; [apply ends_map_err, ends_policy|]. intros [] Hv. apply map_err_Ok_inv in Hv. split; [done|]. by apply policy_exact. }
  intros _ ? [-> Hpol]. eapply (triple_bind _ _ _ _ _ _ _ _ (fun n o => o = pre /\ meta_decoded_bytes md = Ok n)).
  { apply triple_lift; [apply ends_map_err, ends_meta_bytes|]. intros n Hn. by apply map_err_Ok_inv in Hn. }
  intros decoded ? [-> Hdec].
  eapply triple_bind; [apply triple_map_err; apply reserve_triple; [done..|set_solver]|]. intros host ? (Hn & l & _ & ->).
  eapply triple_scoped; [done..|].
  eapply triple_bind; [apply triple_map_err; apply reserve_triple; [done..|set_solver]|]. intros device ? (Hn' & l' & _ & ->).
  eapply triple_scoped; [done..|].
  eapply triple_impl with (Q := uploaded policy name context decoded (Some (rs_payload rs)) (take_reservation device (MkReservation l' (device_workspace_bytes (sp_upload plan))) (take_reservation host (MkReservation l (host_workspace_bytes (sp_upload plan))) pre))); cycle 1.
  { intros x o Hu. apply uploaded_scoped in Hu as (o1 & -> & H1 & Hu); [|done]. apply uploaded_scoped in Hu as (o2 & -> & H2 & Hu); [|done].
    exists (take_reservation host (MkReservation l (host_workspace_bytes (sp_upload plan))) o2). split; [done|]. split; [done|]. eauto 10. }
  eapply triple_bind; [apply triple_map_err; apply reserve_triple; [done..|set_solver]|]. intros payload ? (Hn'' & g & Hg & ->).
  eapply triple_guard_reservation; [done..|]. eapply triple_bind; [apply triple_map_err, stream_checked_triple|].
  intros [buffer completed] ? ->. cbn [fst]. apply (triple_guard_buffer _ _ _ _ buffer).
  eapply triple_bind; [apply triple_map_err, check_streamed_triple|]. intros _ ? (-> & _ & Hlen).
  eapply triple_bind; [apply record_triple|]. intros _ o (Hrec & Hbuf & Hheld). apply triple_ret.
  split; [done|]. split; [done|]. split; [exact Hrec|]. by exists buffer, payload, g.
Qed.
End Uploads.

(** * The public functions *)

Inductive UploadCall : Type :=
| Logged (view : TensorView)
| WithBudget (view : TensorView) (budget : nat)
| Planned (view : TensorView) (resources : TensorUploadResources)
| Streamed (resources : TensorUploadResources).

Definition payload_budget (c : UploadCall) : option nat :=
  match c with Logged _ => None | WithBudget _ g => Some g | Planned _ rs | Streamed rs => Some (rs_payload rs) end.

Definition call_handles (c : UploadCall) : gset nat :=
  match c with Logged _ => ∅ | WithBudget _ g => {[ g ]} | Planned _ rs | Streamed rs => resource_handles rs end.

(** The decoded size a call reports. *)
Definition decodes (c : UploadCall) (n : Z) : Prop :=
  match c with
  | Logged v | WithBudget v _ | Planned v _ => view_decoded_bytes v = Ok n
  | Streamed _ => exists md, meta_decoded_bytes md = Ok n
  end.

Section Calls.
  Context {B Buf S Env Number : Type} `{HB : TernaryBackend B Buf} `{HT : !BackendTyped B Buf} `{HS : TensorStreamSource S} `{HE : Interference Env}.
  Context (as_u64 as_i64 : Number -> option Z) (number : Z -> Number).
  Context (canonical : DigestBody Number -> option (list Z)) (hash : list Z -> list Z).
  Context (thread fuel : nat).
  Abbreviation St := (State (B := B) (Buf := Buf) (S := S) (Env := Env) (Number := Number)).

Definition run_upload (c : UploadCall) (policy : TensorUploadPolicy) (name : list Z) (context : TensorUploadContext)
  : St -> St * res TensorUploadError (Handle Buf * TensorCaps) :=
  match c with
  | Logged view => upload_tensor_logged as_u64 as_i64 number canonical hash thread fuel view policy name context
  | WithBudget view g => upload_tensor_logged_admitted as_u64 as_i64 number canonical hash thread fuel view policy name context g
  | Planned view rs => upload_tensor_logged_with_resources as_u64 as_i64 number canonical hash thread fuel view policy name context rs
  | Streamed rs => upload_tensor_stream_logged_with_resources as_u64 as_i64 number canonical hash thread fuel policy name context rs
  end.

(** A thread about to call: the budgets are in a reachable state, the ones it borrows are
    alive, and it owns no reservation or buffer yet. *)
Record may_start (c : UploadCall) (s : St) : Prop := {
  ms_reachable : reachable (st_world s);
  ms_idle : loops (st_world s) !! thread = None;
  ms_live : forall h, h ∈ call_handles c -> is_Some (handles (st_world s) !! h);
  ms_held : st_held s = ∅;
  ms_buffers : st_buffers s = [] }.

Lemma start_here c s : may_start c s -> here thread (call_handles c) (st_world s) None (MkOwns (st_recorder s) [] ∅) s.
Proof.
  intros [H1 H2 H3 H4 H5]. split; try done.
  intros _. split; [apply map_disjoint_empty_l|]. cbn [o_held]. by rewrite overlay_empty.
Qed.

Lemma run_upload_post `{HC : !CalmInterference Env thread (call_handles c)} policy name context s : may_start c s ->
  post thread fuel (call_handles c) (st_world s) (MkOwns (st_recorder s) [] ∅)
    (fun x o => exists decoded, decodes c decoded /\ uploaded (B := B) as_u64 as_i64 number canonical hash (st_world s) policy name context decoded (payload_budget c)
      (MkOwns (st_recorder s) [] ∅) x o) (run_upload c policy name context s).
Proof.
  intros M. pose proof (reachable_inv _ (ms_reachable _ _ M)) as I. pose proof (start_here c s M) as H.
  destruct c as [v|v g|v rs|rs]; cbn [run_upload payload_budget decodes].
  - apply upload_logged_triple; try done; try apply M; by intros ? ?.
  - apply upload_logged_triple; try done; try apply M. intros ? [= <-]. cbn. set_solver.
  - apply upload_logged_triple; try done; try apply M; [intros ? [= <-]; cbn; unfold resource_handles; set_solver|by intros ? [= <-]].
  - apply stream_triple; try done; apply M.
Qed.

(** C6: uploads are exception safe. Whatever the backend, the stream source and the other
    threads do to the shared budgets, each public upload function performs only legal
    budget steps. If it fails, no event was recorded and every reservation and every
    buffer it obtained has been dropped. If it succeeds, the policy admits the declared
    capabilities, the buffer has exactly the declared size, exactly one event was
    appended, and the call keeps that buffer and, for a budgeted upload, one live
    reservation of the payload's size in the payload budget. *)
Theorem upload_exception_safe `{HC : !CalmInterference Env thread (call_handles c)} policy name context s s' x :
  may_start c s -> run_upload c policy name context s = (s', x) ->
  rtc step (st_world s) (st_world s') /\
  match x with
  | Ok (h, caps) => admits policy caps /\ handle_len h = payload_bytes caps /\
      (exists decoded, decodes c decoded /\
        recorded (B := B) as_u64 as_i64 number canonical hash name caps decoded context (st_recorder s) (st_recorder s')) /\
      match payload_budget c with
      | None => exists b, h = Bare b /\ st_buffers s' = [b] /\ st_held s' = ∅
      | Some g => exists b r l, h = AdmittedBuffer b r /\ st_buffers s' = [b] /\ st_held s' = {[ r ]} /\
          handles (st_world s') !! g = Some l /\ resv (st_world s') !! r = Some (MkReservation l (payload_bytes caps))
      end
  | Err _ | Panic => st_recorder s' = st_recorder s /\ st_held s' = ∅ /\ st_buffers s' = []
  | NoFuel => st_recorder s' = st_recorder s
  end.
Proof.
  intros M Hrun. pose proof (run_upload_post policy name context s M) as P. rewrite Hrun in P. destruct x as [[h caps]|e| |]; cbn [post] in P.
  - destruct P as (o & Ho & decoded & Hd & Ha & Hl & Hr & Hb). split; [apply Ho|]. split; [done|]. split; [done|].
    split; [exists decoded; split; [done|]; by rewrite (h_recorder _ _ _ _ _ _ Ho)|].
    destruct (payload_budget c) as [g|] eqn:Hg; cbn [fst snd o_held o_buffers] in *.
    + destruct Hb as (b & r & l & -> & Hbuf & _ & Hgl & Hheld). exists b, r, l. split; [done|]. split; [by rewrite (h_buffers _ _ _ _ _ _ Ho)|].
      split; [rewrite (h_held _ _ _ _ _ _ Ho), Hheld; set_solver|]. rewrite (h_handles _ _ _ _ _ _ Ho g).
      * split; [done|]. apply (h_resv _ _ _ _ _ _ Ho). rewrite Hheld. apply lookup_insert_eq.
      * destruct c as [v|v g'|v rs|rs]; simplify_eq/=; unfold resource_handles; set_solver.
    + destruct Hb as (b & -> & Hbuf & Hheld). exists b. split; [done|]. split; [by rewrite (h_buffers _ _ _ _ _ _ Ho)|].
      by rewrite (h_held _ _ _ _ _ _ Ho), Hheld, dom_empty_L.
  - split; [apply P|]. split; [apply P|]. split; [|apply P]. by rewrite (h_held _ _ _ _ _ _ P).
  - split; [apply P|]. split; [apply P|]. split; [|apply P]. by rewrite (h_held _ _ _ _ _ _ P).
  - by destruct P as (? & ? & _).
Qed.

(** An upload alone is exact. When no other thread runs, every public upload function
    ends; a failed one leaves every ledger, reservation and handle as it found them; a
    successful budgeted one has charged the payload budget by exactly the declared size,
    and dropping the returned handle restores the budgets and leaves nothing owned. *)
Theorem upload_alone_exact `{HC : !CalmInterference Env thread (call_handles c)} policy name context s s' x :
  quiet Env -> (0 < fuel)%nat -> may_start c s -> run_upload c policy name context s = (s', x) ->
  match x with
  | Ok (h, caps) =>
      (forall g, payload_budget c = Some g -> used_bytes (st_world s') g = (fun u => u + payload_bytes caps) <$> used_bytes (st_world s) g) /\
      st_world (drop_handle h s') = st_world s /\ st_held (drop_handle h s') = ∅ /\ st_buffers (drop_handle h s') = []
  | Err _ | Panic => st_world s' = st_world s
  | NoFuel => False
  end.
Proof.
  intros Q F M Hrun. pose proof (run_upload_post policy name context s M) as P. rewrite Hrun in P.
  pose proof (reachable_inv _ (ms_reachable _ _ M)) as I. pose proof (ms_idle _ _ M) as Hi.
  assert (Hback : forall rec (s1 : St), here thread (call_handles c) (st_world s) None (MkOwns rec [] ∅) s1 ->
    st_world s1 = st_world s /\ st_held s1 = ∅ /\ st_buffers s1 = []).
  { intros rec s1 H1. destruct (h_quiet _ _ _ _ _ _ H1 Q) as [_ Hw]. cbn [o_held] in Hw. rewrite overlay_empty in Hw by done.
    split; [done|]. split; [by rewrite (h_held _ _ _ _ _ _ H1)|by rewrite (h_buffers _ _ _ _ _ _ H1)]. }
  destruct x as [[h caps]|e| |]; cbn [post] in P; [|by apply (Hback _ _ P)|by apply (Hback _ _ P)|by destruct P as (_ & _ & [])].
  destruct P as ([rec bufs held] & Ho & decoded & _ & _ & _ & _ & Hb). destruct (payload_budget c) as [g|] eqn:Hg; cbn [fst snd o_held o_buffers] in *.
  - destruct Hb as (b & r & l & -> & -> & _ & Hgl & ->). split.
    + intros ? [= <-]. destruct (h_quiet _ _ _ _ _ _ Ho Q) as [_ ->]. unfold used_bytes. cbn [handles overlay ledgers]. rewrite Hgl. cbn.
      rewrite map_lookup_imap. destruct (ledgers (st_world s) !! l) as [L|] eqn:HL; [|done]. cbn. f_equal. f_equal.
      rewrite charged_insert by done. unfold charge, charged. rewrite decide_True by done. rewrite msum_empty. cbn. lia.
    + cbn [drop_handle]. apply (Hback rec). apply (release_here thread (call_handles c) (st_world s)) with (R := MkReservation l (payload_bytes caps)); try done; [apply M|].
      by apply (here_pop _ _ _ _ (MkOwns rec [] _) _ b).
  - destruct Hb as (b & -> & -> & ->). split; [done|]. cbn [drop_handle]. apply (Hback rec). by apply (here_pop _ _ _ _ (MkOwns rec [] ∅) _ b).
Qed.
End Calls.

(** * A concrete run *)

(** A backend that plans 3 and 4 bytes of workspace for a payload of 10, whose buffers are
    their lengths, and that streams by accepting every window once. *)
#[global] Instance demo_backend : TernaryBackend unit Z := {
  device_id := fun _ => [99; 112; 117];
  physical_device_id := fun _ => [48];
  tensor_caps := fun b _ => (b, inr (Some (MkCaps Native 10)));
  tensor_upload_plan := fun b _ => (b, inr (Some (MkUploadPlan (MkCaps Native 10) 3 4)));
  tensor_stream_plan := fun b _ _ => (b, inr (Some (MkStreamPlan (MkUploadPlan (MkCaps Native 10) 3 4) 6)));
  upload_tensor := fun b _ => (b, inr 10);
  upload_tensor_stream := fun b => SessionVisit b (fun b _ => (b, None)) (fun b r => SessionEnd b (match r with Some e => inl e | None => inr 10 end));
  len_bytes := fun n => n }.

#[global] Instance demo_backend_typed : BackendTyped unit Z.
Proof. split; intros; simplify_eq/=; unfold is_u64; lia. Qed.

(** Six bytes in two windows. *)
#[global] Instance demo_source : TensorStreamSource unit := {
  src_metadata := fun _ => TmDense 1 2;
  src_encoding := fun _ => DenseLittleEndian F32;
  src_encoded_bytes := fun _ => 6;
  src_visit := fun s => VisitWindow s [1; 2; 3] (fun _ => VisitWindow s [4; 5; 6] (fun r => VisitEnd s r)) }.

(** A busy neighbour: it clones a handle of the budget whenever it runs, and every other
    compare-exchange fails spuriously. *)
#[global] Instance busy_neighbour : Interference nat := {
  interfere := fun e _ w => (Datatypes.S e, if decide (handles w !! 0%nat = Some 0%nat /\ handles w !! (50 + e)%nat = None) then op_clone 0 (50 + e) w else w);
  spurious := Nat.even }.

Lemma busy_calm borrowed : borrowed ⊆ {[ 0%nat ]} -> CalmInterference nat 7 borrowed.
Proof.
  intros Hb e held w e' w' [= <- <-]. destruct (decide _) as [[H1 H2]|]; [|by split]. split; try done.
  - apply rtc_once. by eapply step_clone.
  - intros h Hh%Hb%elem_of_singleton. subst. cbn. by rewrite lookup_insert_ne by lia.
Qed.

(** Nobody else. *)
#[global] Instance alone : Interference unit := { interfere := fun e _ w => (e, w); spurious := fun _ => false }.

Lemma alone_calm borrowed : CalmInterference unit 7 borrowed.
Proof. intros e held w e' w' [= <- <-]. by split. Qed.

Lemma alone_quiet : quiet unit.
Proof. done. Qed.

Definition demo_resources : TensorUploadResources := MkResources 0 0 0.
Lemma demo_handles : resource_handles demo_resources ⊆ {[ 0%nat ]}.
Proof. unfold resource_handles. cbn. set_solver. Qed.

Definition demo_policy : TensorUploadPolicy := MkPolicy true (Some 16).
Definition demo_context : TensorUploadContext := MkContext [115] None 1.
Definition demo_recorder : EvidenceRecorder (Number := Z) :=
  MkRecorder [114] {[ utf8 "tritium.runtime.tensor_uploaded" := 1 ]} ∅ ∅ ∅ ∅ [].

Section Demo.
  Context {Env : Type} `{Interference Env} (e : Env) (limit_bytes : Z).

Definition demo_state : State (B := unit) (Buf := Z) (S := unit) (Number := Z) :=
  MkState tt tt e (op_new limit_bytes 0 0 empty_world) demo_recorder ∅ [].

Definition demo_run (c : UploadCall) := run_upload (Env := Env) (Number := Z) Some Some id (fun _ => Some []) (fun _ => vec 0 32) 7 9 c
  demo_policy [119] demo_context demo_state.

Lemma demo_start c : call_handles c ⊆ {[ 0%nat ]} -> is_u64 limit_bytes -> may_start (Env := Env) 7 c demo_state.
Proof.
  intros Hc Hu. split; try done.
  - apply rtc_once. by apply step_new.
  - intros h Hh. apply Hc, elem_of_singleton in Hh. subst. cbn. rewrite lookup_insert_eq. eauto.
Qed.
End Demo.

Definition demo_view : TensorView := VDense 1 2 [Floats.SpecFloat.S754_zero false; Floats.SpecFloat.S754_zero false].

(** Two workspaces fit a budget of 16 bytes, the payload after them does not. *)
Lemma upload_exception_safe_witness :
  snd (demo_run 0%nat 16 (Planned demo_view demo_resources)) = Err (BackendErr (TensorPayloadBudgetExceeded 17 16)) /\
  st_held (fst (demo_run 0%nat 16 (Planned demo_view demo_resources))) = ∅.
Proof.
  set (c := Planned demo_view demo_resources).
  destruct (upload_exception_safe (B := unit) (Buf := Z) (S := unit) (Env := nat) (Number := Z) (HC := busy_calm (call_handles c) demo_handles) Some Some id
    (fun _ => Some []) (fun _ => vec 0 32) 7 9 demo_policy [119] demo_context (demo_state 0%nat 16)
    (fst (demo_run 0%nat 16 c)) (snd (demo_run 0%nat 16 c))) as [_ H]; [|apply surjective_pairing|].
  - apply demo_start; [apply demo_handles|unfold is_u64; lia].
  - assert (E : snd (demo_run 0%nat 16 c) = Err (BackendErr (TensorPayloadBudgetExceeded 17 16))) by (vm_compute; reflexivity).
    rewrite E in H. split; [exact E|]. apply H.
Defined.

Lemma upload_alone_exact_witness :
  snd (demo_run tt 100 (Streamed demo_resources)) = Ok (AdmittedBuffer 10 2, MkCaps Native 10) /\
  used_bytes (st_world (fst (demo_run tt 100 (Streamed demo_resources)))) 0 = Some 10 /\
  st_world (drop_handle (AdmittedBuffer 10 2%nat) (fst (demo_run tt 100 (Streamed demo_resources)))) = st_world (demo_state tt 100).
Proof.
  set (c := Streamed demo_resources).
  pose proof (upload_alone_exact (B := unit) (Buf := Z) (S := unit) (Env := unit) (Number := Z) (HC := alone_calm (call_handles c)) Some Some id
    (fun _ => Some []) (fun _ => vec 0 32) 7 9 demo_policy [119] demo_context (demo_state tt 100)
    (fst (demo_run tt 100 c)) (snd (demo_run tt 100 c)) alone_quiet ltac:(lia)) as H.
  assert (E : snd (demo_run tt 100 c) = Ok (AdmittedBuffer 10 2%nat, MkCaps Native 10)) by (vm_compute; reflexivity).
  rewrite E in H. destruct H as (Hu & Hw & _); [apply demo_start; [apply demo_handles|unfold is_u64; lia]|rewrite <- E; apply surjective_pairing|].
  split; [exact E|]. split; [|exact Hw]. rewrite (Hu 0%nat eq_refl). vm_compute. reflexivity.
Defined.
