(* ===== verification/UploadStream.v ===== *)
(** * Streamed uploads see the whole source (crates/tritium-runtime/src/tensor_stream_upload.rs)

    [CheckedSource] is transparent on honest sources and fails on all others, and a
    streamed upload that succeeds had a visit that delivered every declared byte. *)

From Stdlib Require Import ZArith Lia Bool String.
From stdpp Require Import base list numbers gmap relations.
From S2P Require Import Prelude Text Core Outcome Evidence Schema PerTile Spec AdditiveView TensorPlan Budget Upload UploadSafe UploadExact.

#[local] Open Scope Z_scope.

Section Visits.
  Context {S V : Type} `{HS : TensorStreamSource S} (visitor : V -> list Z -> V * option BackendError).

(** The windows a visitor is called with and its answers. *)
Abbreviation calls := (list (list Z * option BackendError)).

(** [run_visit] with the calls of the visitor. *)
Fixpoint trace {S} (v : V) (t : Visit S) : V * calls * S * option BackendError :=
  match t with
  | VisitEnd s r => (v, [], s, r)
  | VisitWindow s window k =>
      let '(v, a) := visitor v window in
      let '(v, l, s, r) := trace v (k a) in (v, (window, a) :: l, s, r)
  end.

Lemma trace_run {S'} (t : Visit S') : forall v, run_visit visitor v t = let '(v, _, s, r) := trace v t in (v, s, r).
Proof.
  induction t as [s r|s window k IH]; intros v; [done|]. cbn [run_visit trace]. destruct (visitor v window) as [v1 a].
  rewrite IH. by destruct (trace v1 (k a)) as [[[? ?] ?] ?].
Qed.

Definition total (l : calls) : Z := zsum ((fun c => zlen (fst c)) <$> l).
Definition bounded (c : list Z * option BackendError) : Prop := zlen (fst c) <= TENSOR_STREAM_CHUNK_BYTES.
Definition accepted (c : list Z * option BackendError) : Prop := snd c = None.

Lemma total_cons w a l : total ((w, a) :: l) = zlen w + total l.
Proof. done. Qed.

Lemma total_nonneg l : 0 <= total l.
Proof. induction l as [|[w a] l IH]; [done|]. rewrite total_cons. pose proof (zlen_nonneg w). lia. Qed.

(** After a rejection a checked visit cannot succeed. *)
Lemma rejected_fails t : forall bytes v v' l s r, trace v (check_visit t bytes true) = (v', l, s, r) -> r <> None.
Proof.
  induction t as [s0 [e|]|s0 window k IH]; intros bytes v v' l s r H; cbn [check_visit] in H.
  - by simplify_eq/=.
  - by simplify_eq/=.
  - destruct (_ <? _); [by eapply IH|]. destruct (checked_add _ _) as [bytes'|]; [|by eapply IH]. destruct (_ <? _); [by eapply IH|].
    cbn [trace orb] in H. destruct (visitor v window) as [v1 a]. destruct (trace v1 (check_visit (k a) bytes' true)) as [[[v2 l2] s2] r2] eqn:H2.
    simplify_eq. by eapply IH.
Qed.

(** What reaches the visitor, on every source. *)
Lemma checked_bounds n t : (forall s, src_encoded_bytes s = n) -> forall bytes rejected v v' l s completed r, 0 <= bytes ->
  trace v (check_visit t bytes rejected) = (v', l, (s, completed), r) ->
  Forall bounded l /\ (l = [] \/ bytes + total l <= n) /\ (completed = true <-> r = None).
Proof.
  intros Hn. induction t as [s0 [e|]|s0 window k IH]; intros bytes rejected v v' l s completed r Hb H; cbn [check_visit] in H.
  - simplify_eq/=. split; [constructor|]. split; [by left|]. done.
  - destruct rejected; [simplify_eq/=; split; [constructor|]; split; [by left|]; done|].
    destruct (negb _); simplify_eq/=; (split; [constructor|]; split; [by left|]; done).
  - destruct (Z.ltb_spec TENSOR_STREAM_CHUNK_BYTES (zlen window)); [by eapply IH|]. pose proof (zlen_nonneg window).
    destruct (checked_add _ _) as [bytes'|] eqn:Hc; [|by eapply IH]. apply checked_add_inv in Hc as [-> _].
    destruct (Z.ltb_spec (src_encoded_bytes s0) (bytes + zlen window)).
    + destruct (IH _ (bytes + zlen window) _ _ _ _ _ _ _ ltac:(lia) H) as (I1 & I2 & I3). split; [done|]. split; [|done]. destruct I2; [by left|right]. lia.
    + cbn [trace] in H. destruct (visitor v window) as [v1 a].
      destruct (trace v1 _) as [[[v2 l2] [s2 c2]] r2] eqn:Ht. simplify_eq. destruct (IH _ (bytes + zlen window) _ _ _ _ _ _ _ ltac:(lia) Ht) as (I1 & I2 & I3).
      split; [by constructor|]. split; [|done]. right. rewrite total_cons. rewrite Hn in *. destruct I2 as [->|]; [cbn; lia|lia].
Qed.

(** A successful checked visit is a successful visit of the source itself. *)
Lemma checked_sound t : forall bytes v v' l s completed, trace v (check_visit t bytes false) = (v', l, (s, completed), None) ->
  trace v t = (v', l, s, None) /\ Forall bounded l /\ Forall accepted l /\ bytes + total l = src_encoded_bytes s /\ completed = true.
Proof.
  induction t as [s0 [e|]|s0 window k IH]; intros bytes v v' l s completed H; cbn [check_visit] in H.
  - by simplify_eq/=.
  - destruct (Z.eqb_spec bytes (src_encoded_bytes s0)); cbn [negb] in H; simplify_eq/=. split; [done|]. split; [constructor|]. split; [constructor|]. split; [cbn; lia|done].
  - destruct (Z.ltb_spec TENSOR_STREAM_CHUNK_BYTES (zlen window)); [by apply rejected_fails in H|].
    destruct (checked_add _ _) as [bytes'|] eqn:Hc; [|by apply rejected_fails in H]. apply checked_add_inv in Hc as [-> _].
    destruct (_ <? _); [by apply rejected_fails in H|]. cbn [trace] in *. destruct (visitor v window) as [v1 a].
    destruct (trace v1 (check_visit _ _ _)) as [[[v2 l2] s2] r2] eqn:H2. simplify_eq. destruct a as [e|]; [by apply rejected_fails in H2|].
    destruct (IH _ _ _ _ _ _ _ H2) as (-> & I1 & I2 & I3 & ->). split; [done|]. split; [by constructor|]. split; [by constructor|].
    rewrite total_cons. split; [lia|done].
Qed.

(** A source that behaves passes unchanged. *)
Lemma checked_honest n t : (forall s, src_encoded_bytes s = n) -> n <= u64_max -> forall bytes v v' l s, 0 <= bytes ->
  trace v t = (v', l, s, None) -> Forall bounded l -> Forall accepted l -> bytes + total l = n ->
  trace v (check_visit t bytes false) = (v', l, (s, true), None).
Proof.
  intros Hn Hmax. induction t as [s0 r|s0 window k IH]; intros bytes v v' l s Hb H Hbd Hac Htot; cbn [trace] in H.
  - injection H as <- <- <- ->. cbn [check_visit]. rewrite Hn. replace (bytes =? n) with true by (cbn in Htot; lia). done.
  - destruct (visitor v window) as [v1 a] eqn:Hv. destruct (trace v1 (k a)) as [[[v2 l2] s2] r2] eqn:H2. injection H as <- <- <- ->.
    apply list.Forall_cons in Hbd as [Hb1 Hbd]. apply list.Forall_cons in Hac as [Ha1 Hac]. unfold bounded, accepted in Hb1, Ha1. cbn [fst snd] in *.
    rewrite total_cons in *. pose proof (total_nonneg l2). pose proof (zlen_nonneg window). cbn [check_visit].
    replace (_ <? zlen window) with false by lia. unfold checked_add. replace (_ <=? usize_max) with true by (unfold usize_max, u64_max in *; lia).
    rewrite Hn. replace (n <? _) with false by lia. cbn [trace]. rewrite Hv. subst a.
    change (false || bool_decide (is_Some (@None BackendError))) with false.
    rewrite (IH None (bytes + zlen window) v1 v2 l2 s2 ltac:(lia) H2 Hbd Hac ltac:(lia)). done.
Qed.

(** The checked source is exact. For a source whose declared length does not change,
    whatever it emits: the visitor is only shown windows of at most 64 KiB and never more
    bytes than declared, and [completed] is set exactly by success; a checked visit
    succeeds exactly when the source's own visit succeeds with bounded windows, none
    rejected, adding up to the declared length, and then the visitor saw the same calls. *)
Theorem checked_source_exact n s c v : (forall s, src_encoded_bytes s = n) -> 0 <= n <= u64_max ->
  (forall v' l s' completed r, trace v (src_visit (s, c)) = (v', l, (s', completed), r) ->
     Forall bounded l /\ total l <= n /\ (completed = true <-> r = None)) /\
  (forall v' l s', trace v (src_visit (s, c)) = (v', l, (s', true), None) <->
     trace v (src_visit s) = (v', l, s', None) /\ Forall bounded l /\ Forall accepted l /\ total l = n).
Proof.
  intros Hn Hmax. split.
  - intros v' l s' completed r H. destruct (checked_bounds n _ Hn 0 false v v' l s' completed r ltac:(lia) H) as (H1 & H2 & H3).
    split; [done|]. split; [|done]. destruct H2 as [->|]; [cbn; lia|lia].
  - intros v' l s'. split.
    + intros H. destruct (checked_sound _ 0 v v' l s' true H) as (H1 & H2 & H3 & H4 & _). rewrite Hn in H4. done.
    + intros (H1 & H2 & H3 & H4). eapply (checked_honest n); try done; lia.
Qed.
End Visits.

Section Sessions.
  Context {B Buf S Env Number : Type} `{HB : TernaryBackend B Buf} `{HS : TensorStreamSource S} `{HE : Interference Env}.

(** A visit of [t] can leave the source as [s]. *)
Inductive ends_at : Visit S -> S -> Prop :=
| ends_here s r : ends_at (VisitEnd s r) s
| ends_later s window k a s' : ends_at (k a) s' -> ends_at (VisitWindow s window k) s'.

(** The backend took [b] to [b'] by windows of at most 64 KiB handed to [visitor]. *)
Definition fed_by (visitor : B -> list Z -> B * option BackendError) (b b' : B) : Prop := exists l : list (list Z),
  Forall (fun window => zlen window <= TENSOR_STREAM_CHUNK_BYTES) l /\ b' = fold_left (fun b window => fst (visitor b window)) l b.

(** The rest of a session that visits no more: it reads the description and ends with [buffer]. *)
Inductive settles (s : S) (b : B) (buffer : Buf) : Session B Buf -> Prop :=
| settles_end : settles s b buffer (SessionEnd b (inr buffer))
| settles_describe k : settles s b buffer (k (src_metadata s) (src_encoding s) (src_encoded_bytes s)) -> settles s b buffer (SessionDescribe k).

(** The backend's session, from the source as it is at [s], was fed the whole tensor: its
    visitor was called, from its own state, with exactly the windows of the last visit of the
    source itself, which ended well in [s'] with every window bounded, accepted, and the
    declared number of bytes in all; from the state this left, and the answer that the
    visit succeeded, the session went on to [buffer] and [b']. Earlier visits may have
    fed it anything. *)
Inductive session_fed (s' : S) (b' : B) (buffer : Buf) : Session B Buf -> S -> Prop :=
| fed_describe k s : session_fed s' b' buffer (k (src_metadata s) (src_encoding s) (src_encoded_bytes s)) s ->
    session_fed s' b' buffer (SessionDescribe k) s
| fed_visit b visitor k s b1 s1 r : fed_by visitor b b1 -> ends_at (src_visit s) s1 ->
    session_fed s' b' buffer (k b1 r) s1 -> session_fed s' b' buffer (SessionVisit b visitor k) s
| fed_last b visitor k s b1 l : trace visitor b (src_visit s) = (b1, l, s', None) ->
    Forall bounded l -> Forall accepted l -> total l = src_encoded_bytes s' ->
    settles s' b' buffer (k b1 None) -> session_fed s' b' buffer (SessionVisit b visitor k) s.

Lemma checked_ends {V} (visitor : V -> list Z -> V * option BackendError) (t : Visit S) : forall bytes rejected v v' l s c r,
  trace visitor v (check_visit t bytes rejected) = (v', l, (s, c), r) -> ends_at t s.
Proof.
  induction t as [s0 [e|]|s0 window k IH]; intros bytes rejected v v' l s c r H; cbn [check_visit] in H.
  - simplify_eq/=. constructor.
  - destruct rejected; [simplify_eq/=; constructor|]. destruct (negb _); simplify_eq/=; constructor.
  - destruct (_ <? _); [econstructor; by eapply IH|]. destruct (checked_add _ _); [|econstructor; by eapply IH].
    destruct (_ <? _); [econstructor; by eapply IH|].
    cbn [trace] in H. destruct (visitor v window) as [v1 a]. destruct (trace visitor v1 _) as [[[? ?] [? ?]] ?] eqn:H2. simplify_eq.
    econstructor; by eapply IH.
Qed.

Lemma completed_ok {V} (visitor : V -> list Z -> V * option BackendError) (t : Visit S) : forall bytes rejected v v' l s r,
  trace visitor v (check_visit t bytes rejected) = (v', l, (s, true), r) -> r = None.
Proof.
  induction t as [s0 [e|]|s0 window k IH]; intros bytes rejected v v' l s r H; cbn [check_visit] in H.
  - by simplify_eq/=.
  - destruct rejected; [by simplify_eq/=|]. by destruct (negb _); simplify_eq/=.
  - destruct (_ <? _); [by eapply IH|]. destruct (checked_add _ _); [|by eapply IH]. destruct (_ <? _); [by eapply IH|].
    cbn [trace] in H. destruct (visitor v window) as [v1 a]. destruct (trace visitor v1 _) as [[[? ?] [? ?]] ?] eqn:H2. simplify_eq. by eapply IH.
Qed.

(** Whatever a checked visit does, the backend's visitor only saw bounded windows. *)
Lemma checked_feeds (visitor : B -> list Z -> B * option BackendError) (t : Visit S) : forall bytes rejected b b' l s r,
  trace visitor b (check_visit t bytes rejected) = (b', l, s, r) -> fed_by visitor b b'.
Proof.
  induction t as [s0 [e|]|s0 window k IH]; intros bytes rejected b b' l s r H; cbn [check_visit] in H.
  - simplify_eq/=. by exists [].
  - destruct rejected; [simplify_eq/=; by exists []|]. destruct (negb _); simplify_eq/=; by exists [].
  - destruct (Z.ltb_spec TENSOR_STREAM_CHUNK_BYTES (zlen window)); [by eapply IH|]. destruct (checked_add _ _); [|by eapply IH].
    destruct (_ <? _); [by eapply IH|].
    cbn [trace] in H. destruct (visitor b window) as [b1 a] eqn:Hv. destruct (trace visitor b1 _) as [[[? ?] ?] ?] eqn:H2. simplify_eq.
    apply IH in H2 as (ws & Hws & ->). exists (window :: ws). split; [by constructor|]. simpl. by rewrite Hv.
Qed.

(** A session over a checked source that ends with a buffer and [completed] set. *)
Lemma session_completes (x : Session B Buf) : forall s c b s' buffer, run_session x (s, c) = (b, (s', true), inr buffer) ->
  (c = true /\ s' = s /\ settles s b buffer x) \/ session_fed s' b buffer x s.
Proof.
  induction x as [b0 r0|k IH|b0 visitor k IH]; intros s c b s' buffer H; cbn [run_session] in H.
  - left. simplify_eq. repeat split. constructor.
  - apply IH in H as [(-> & -> & H)|H]; [left|right]; [repeat split|]; by constructor.
  - right. rewrite trace_run in H. destruct (trace visitor b0 _) as [[[b1 l] [s1 c1]] r1] eqn:Ht.
    pose proof (checked_ends _ _ _ _ _ _ _ _ _ _ Ht) as Hv. pose proof (checked_feeds _ _ _ _ _ _ _ _ _ Ht) as Hw.
    apply IH in H as [(-> & -> & H)|H]; [|by eapply fed_visit]. pose proof (completed_ok _ _ _ _ _ _ _ _ _ Ht) as ->.
    destruct (checked_sound visitor _ _ _ _ _ _ _ Ht) as (H1 & H2 & H3 & H4 & _). by eapply fed_last.
Qed.

(** * Through the scopes of an upload *)

Abbreviation St := (State (B := B) (Buf := Buf) (S := S) (Env := Env) (Number := Number)).

Lemma bind_Ok {E A C} (m : St -> St * res E A) (k : A -> St -> St * res E C) s s' c : m_bind m k s = (s', Ok c) ->
  exists s1 a, m s = (s1, Ok a) /\ k a s1 = (s', Ok c).
Proof. unfold m_bind. destruct (m s) as [s1 [a|e| |]]; try done. eauto. Qed.

Lemma map_err_Ok {E F A} (f : E -> F) (m : St -> St * res E A) s s' a : mmap_err f m s = (s', Ok a) -> m s = (s', Ok a).
Proof. unfold mmap_err. destruct (m s) as [s1 [x|e| |]]; try done. by intros [= -> ->]. Qed.

Lemma scoped_Ok {E A} r (m : St -> St * res E A) s s' a : scoped r m s = (s', Ok a) -> exists s1, m s = (s1, Ok a).
Proof. unfold scoped. destruct (m s) as [s1 [x|e| |]]; try done. intros [= _ ->]. eauto. Qed.

Lemma guarded_Ok {E A} drop (m : St -> St * res E A) s s' a : guarded drop m s = (s', Ok a) -> m s = (s', Ok a).
Proof. unfold guarded. by destruct (m s) as [s1 [x|e| |]]. Qed.

  Context (as_u64 as_i64 : Number -> option Z) (number : Z -> Number).
  Context (canonical : DigestBody Number -> option (list Z)) (hash : list Z -> list Z) (thread fuel : nat).

(** What the transfer is about. *)
Definition parties (s : St) : B * S := (st_backend s, st_source s).

(** Everything but the backend's methods and the transfer leaves both alone. *)
Definition keeps {E A} (m : St -> St * res E A) : Prop := forall s, parties (fst (m s)) = parties s.

Lemma keeps_tick (s : St) : parties (tick s) = parties s.
Proof. unfold tick. by destruct (interfere _ _ _). Qed.

Lemma keeps_release r (s : St) : parties (release r s) = parties s.
Proof. unfold release. apply keeps_tick. Qed.

Lemma keeps_reserve h bytes : keeps (reserve thread fuel h bytes).
Proof.
  assert (Hl : forall n (s : St), parties (fst (reserve_loop thread n s)) = parties s).
  { induction n as [|n IH]; intros s; [done|]. cbn [reserve_loop]. destruct (loops _ !! _) as [p|]; cbn; [|apply keeps_tick].
    destruct (ledger_of _ _) as [[l L]|]; cbn; [|apply keeps_tick].
    destruct (reserve_attempt _ _ _ _); cbn; [apply keeps_tick..|]. rewrite IH. apply keeps_tick. }
  intros s. unfold reserve. destruct (ledger_of _ _) as [[l L]|]; cbn; [rewrite Hl|]; apply keeps_tick.
Qed.

Lemma keeps_map_err {E F A} (f : E -> F) (m : St -> St * res E A) : keeps m -> keeps (mmap_err f m).
Proof. intros H s. specialize (H s). unfold mmap_err. by destruct (m s). Qed.

Lemma keeps_record name caps decoded context : keeps (record_uploaded as_u64 as_i64 number canonical hash name caps decoded context).
Proof. intros s. unfold record_uploaded. by destruct (emit _ _ _ _ _ _ _ _ _). Qed.

Lemma keeps_Ok {E A} (m : St -> St * res E A) s s' x : keeps m -> m s = (s', x) -> parties s' = parties s.
Proof. intros H Hm. specialize (H s). by rewrite Hm in H. Qed.

(** The backend after it was asked for a plan of the source. *)
Definition planned (b : B) (x : S) : B := fst (tensor_stream_plan b (src_metadata x) (src_encoding x)).

(** The plan it then answered. *)
Definition plans (b : B) (x : S) (p : option TensorStreamPlan) : Prop := snd (tensor_stream_plan b (src_metadata x) (src_encoding x)) = inr p.

Lemma plan_Ok x (s s' : St) p : plan_source (src_metadata x) (src_encoding x) s = (s', Ok p) ->
  parties s' = (planned (st_backend s) x, st_source s) /\ plans (st_backend s) x p.
Proof. unfold plan_source, call, planned, plans. destruct (tensor_stream_plan _ _ _) as [b [e|q]]; [done|]. by intros [= <- <-]. Qed.

(** One bind of a successful run that keeps the backend and the source. *)
Ltac step_ok H := let s1 := fresh "s" in let a := fresh "a" in let Hm := fresh "Hm" in
  apply bind_Ok in H as (s1 & a & Hm & H); apply keeps_Ok in Hm; [|first [done|apply keeps_map_err, keeps_reserve|apply keeps_record]].

(** One bind that reads the state. *)
Ltac step_gets H := let s1 := fresh "s" in let a := fresh "a" in let Hm := fresh "Hm" in
  apply bind_Ok in H as (s1 & a & Hm & H); injection Hm as <- <-.

Lemma check_streamed_Ok plan buffer completed (s s' : St) : check_streamed plan buffer completed s = (s', Ok tt) ->
  completed = true /\ len_bytes buffer = payload_bytes (plan_caps (sp_upload plan)) /\
  src_encoded_bytes (st_source s) = sp_encoded_bytes plan /\ plans (st_backend s) (st_source s) (Some plan) /\
  parties s' = (planned (st_backend s) (st_source s), st_source s).
Proof.
  unfold check_streamed. destruct completed; [|done]. cbn [negb]. destruct (Z.eqb_spec (len_bytes buffer) (payload_bytes (plan_caps (sp_upload plan)))); [|done]. cbn [negb].
  intros H. do 2 step_gets H. apply bind_Ok in H as (s1 & again & Hp & H). apply plan_Ok in Hp as [Hp Hq]. step_gets H. unfold lift in H.
  injection H as -> H. injection Hp as Hb Hx. rewrite <- Hx.
  destruct (Z.eqb_spec (src_encoded_bytes (st_source s')) (sp_encoded_bytes plan)); [|by rewrite orb_true_r in H].
  destruct (bool_decide_reflect (again = Some plan)) as [->|]; [|done].
  split; [done|]. split; [done|]. split; [done|]. rewrite Hx. split; [done|]. unfold parties. by rewrite Hb, Hx.
Qed.

Lemma scoped_parties {E A} r (m : St -> St * res E A) s s' a : scoped r m s = (s', Ok a) -> exists s1, m s = (s1, Ok a) /\ parties s' = parties s1.
Proof. unfold scoped. destruct (m s) as [s1 [x|e| |]]; try done. intros [= <- ->]. exists s1. by rewrite keeps_release. Qed.

(** C25: a streamed upload that succeeds fed the backend the whole tensor. Whatever the
    backend, the source and other threads do, if the call returns a buffer, it is the one
    the backend's own session ended with, run from the backend as planning left it; and
    in the last visit that session made, its visitor was given, in order, exactly the
    windows the source emits, each of at most 64 KiB, the backend accepted every one,
    together they have the length the source declares, and from the state they left the
    session ended in that buffer. The plan made before and the plan made after agree on
    the capabilities returned, on the length of the source and on that of the buffer. *)
Theorem streamed_upload_complete policy name context resources (s s' : St) h caps :
  upload_tensor_stream_logged_with_resources as_u64 as_i64 number canonical hash thread fuel policy name context resources s = (s', Ok (h, caps)) ->
  exists buffer r b plan,
    h = AdmittedBuffer buffer r /\
    session_fed (st_source s') b buffer (upload_tensor_stream (planned (st_backend s) (st_source s))) (st_source s) /\
    plans (st_backend s) (st_source s) (Some plan) /\ plans b (st_source s') (Some plan) /\
    st_backend s' = planned b (st_source s') /\
    caps = plan_caps (sp_upload plan) /\ len_bytes buffer = payload_bytes caps /\ src_encoded_bytes (st_source s') = sp_encoded_bytes plan.
Proof.
  unfold upload_tensor_stream_logged_with_resources. intros H. destruct (bool_decide _); [done|].
  step_ok H. do 2 step_gets H. apply bind_Ok in H as (s1 & plan & Hp & H). apply map_err_Ok, plan_Ok in Hp as [Hp Hq].
  apply bind_Ok in H as (s2 & p & Hm0 & H). destruct plan as [plan|]; [|done]. injection Hm0 as <- <-. step_gets H.
  destruct (negb _); [done|]. do 3 step_ok H. apply scoped_parties in H as (t1 & H & Hs').
  step_ok H. apply scoped_parties in H as (t2 & H & Ht1). step_ok H. apply guarded_Ok in H. apply bind_Ok in H as (t3 & [buffer completed] & Hs & H).
  apply guarded_Ok in H. apply bind_Ok in H as (t4 & [] & Hc & H). step_ok H. injection H as <- <- <-.
  apply map_err_Ok, check_streamed_Ok in Hc as (-> & Hlen & Henc & Hq' & Hk). apply map_err_Ok in Hs.
  unfold stream_checked in Hs. destruct (run_session _ _) as [[b [x completed]] r] eqn:Hr. destruct r as [e|buf]; [done|].
  injection Hs as <- <- ->. apply session_completes in Hr as [[? _]|Hd]; [done|].
  unfold parties in *. cbn [st_source st_backend with_buffers with_source with_backend] in *. simplify_eq.
  eexists buf, _, b, plan. split; [done|]. split; [congruence|]. split; [congruence|]. split; [congruence|]. split; [congruence|].
  split; [done|]. split; [done|]. congruence.
Qed.
End Sessions.

(** * Witnesses *)

Definition accept_all (v : list (list Z)) (w : list Z) : list (list Z) * option BackendError := (v ++ [w], None).

Lemma checked_source_exact_witness :
  trace accept_all [] (src_visit (tt, false)) = ([[1; 2; 3]; [4; 5; 6]], [([1; 2; 3], None); ([4; 5; 6], None)], (tt, true), None).
Proof.
  destruct (checked_source_exact (HS := demo_source) accept_all 6 tt false [] (fun _ => eq_refl) ltac:(unfold u64_max; lia)) as [_ H].
  apply H. split; [reflexivity|]. split; [by repeat apply Forall_cons_2; try apply Forall_nil_2|].
  split; [by repeat apply Forall_cons_2; try apply Forall_nil_2|reflexivity].
Defined.

(** A backend that keeps the bytes it is sent, and a buffer that is its length. *)
#[local] Instance collector : TernaryBackend (list Z) Z := {
  device_id := fun _ => [99; 112; 117];
  physical_device_id := fun _ => [48];
  tensor_caps := fun b _ => (b, inr None);
  tensor_upload_plan := fun b _ => (b, inr None);
  tensor_stream_plan := fun b _ _ => (b, inr (Some (MkStreamPlan (MkUploadPlan (MkCaps Native 6) 3 4) 6)));
  upload_tensor := fun b _ => (b, inl UnsupportedTensor);
  upload_tensor_stream := fun b => SessionVisit b (fun b window => (b ++ window, None))
    (fun b r => SessionEnd b (match r with Some e => inl e | None => inr (zlen b) end));
  len_bytes := fun n => n }.

Definition collector_state : State (B := list Z) (Buf := Z) (S := unit) (Env := unit) (Number := Z) :=
  MkState [] tt tt (op_new 100 0 0 empty_world) demo_recorder ∅ [].
Definition collector_run := upload_tensor_stream_logged_with_resources (B := list Z) (Buf := Z) (S := unit) (Env := unit) (Number := Z)
  Some Some id (fun _ => Some []) (fun _ => vec 0 32) 7 9 demo_policy [119] demo_context demo_resources collector_state.

(** The bytes of both windows are in the backend. *)
Lemma streamed_upload_complete_witness :
  st_backend (fst collector_run) = [1; 2; 3; 4; 5; 6] /\
  session_fed tt [1; 2; 3; 4; 5; 6] 6 (upload_tensor_stream []) tt.
Proof.
  assert (E : collector_run = (fst collector_run, Ok (AdmittedBuffer 6 2%nat, MkCaps Native 6))) by (vm_compute; reflexivity).
  assert (Hb : st_backend (fst collector_run) = [1; 2; 3; 4; 5; 6]) by (vm_compute; reflexivity).
  destruct (streamed_upload_complete (B := list Z) (Buf := Z) (S := unit) (Env := unit) (Number := Z) Some Some id (fun _ => Some []) (fun _ => vec 0 32) 7 9
    demo_policy [119] demo_context demo_resources collector_state (fst collector_run) (AdmittedBuffer 6 2%nat) (MkCaps Native 6) E)
    as (buffer & r & b & plan & Hh & Hfed & _ & _ & Hlast & _).
  split; [exact Hb|]. injection Hh as <- _. rewrite Hb in Hlast. change (planned b _) with b in Hlast. subst b.
  destruct (st_source (fst collector_run)). exact Hfed.
Defined.
