(* ===== verification/Tokenizer.v ===== *)
(** * Tokenizers (crates/tritium-nn/src/model/tokenizer.rs and
    crates/tritium-serve/src/tokenizer_passthrough.rs)

    The [Tokenizer] trait as a class, what an incremental detokenizer relies on as a class
    of laws, and the token-id passthrough, which meets them and round trips. *)

From Stdlib Require Import ZArith Lia Bool String.
From stdpp Require Import base list numbers.
From S2P Require Import Prelude Text.

#[local] Open Scope Z_scope.

(** Formatted text: literal bytes, and strings in their [Debug] form. *)
Inductive MsgPart : Type := Lit (s : list Z) | Quoted (s : list Z).

(** [Tokenizer]; [tk_error] is the implementation's [NnError::Tokenizer] and [tk_display]
    its message. *)
Class Tokenizer (T : Type) : Type := {
  tk_error : Type;
  tk_display : tk_error -> list MsgPart;
  render_chat_prompt : T -> list (list Z * list Z) -> Z -> res tk_error (option (list Z));
  encode : T -> list Z -> res tk_error (list Z);
  decode : T -> list Z -> res tk_error (list Z);
  bos : T -> Z;
  eos : T -> Z
}.

(** [Result::unwrap_or_default] of a decoded string; a panic is the tokenizer's own. *)
Definition unwrap_or_default {E F} (m : res E (list Z)) : res F (list Z) :=
  match m with
  | Ok s => Ok s
  | Err _ => Ok []
  | Panic => Panic
  | NoFuel => NoFuel
  end.

(** Decoding that only grows: the text of one more token extends the text so far by a
    string. *)
Class StreamDecoder (T : Type) `{Tokenizer T} (t : T) : Type := {
  text_of : list Z -> list Z;
  sd_decode : forall ts, Forall is_u32 ts -> decode t ts = Ok (text_of ts);
  sd_nil : text_of [] = [];
  sd_extends : forall ts x, Forall is_u32 ts -> is_u32 x ->
    exists u, text_of (ts ++ [x]) = text_of ts ++ u /\ utf8_valid u = true
}.

(** * The standard library *)

(** [u32::to_string]; a [u64] has at most twenty digits. *)
Fixpoint decimal (fuel : nat) (n : Z) : list Z :=
  match fuel with
  | O => []
  | S fuel => if n <? 10 then [48 + n] else decimal fuel (n / 10) ++ [48 + n mod 10]
  end.
Definition to_string (n : Z) : list Z := decimal 20 n.

(** [str::parse::<u32>]: an optional plus sign and decimal digits, refused on overflow. *)
Definition parse_digit (acc : option Z) (b : Z) : option Z :=
  acc ← acc;
  if in_range 48 57 b
  then let v := 10 * acc + (b - 48) in if v <=? u32_max then Some v else None
  else None.
Definition parse_u32 (s : list Z) : option Z :=
  match s with
  | [] => None
  | [43] | [45] => None
  | 43 :: r => foldl parse_digit (Some 0) r
  | _ => foldl parse_digit (Some 0) s
  end.

(** The number of bytes of the [char::is_whitespace] character at the head, or zero. *)
Definition ws_prefix (s : list Z) : nat :=
  match s with
  | b :: r =>
      if in_range 0x09 0x0d b || (b =? 0x20) then 1%nat
      else match r with
      | c :: r =>
          if (b =? 0xc2) && ((c =? 0x85) || (c =? 0xa0)) then 2%nat
          else match r with
          | d :: _ =>
              if ((b =? 0xe1) && (c =? 0x9a) && (d =? 0x80)) ||
                 ((b =? 0xe2) && (c =? 0x80) && (in_range 0x80 0x8a d || (d =? 0xa8) || (d =? 0xa9) || (d =? 0xaf))) ||
                 ((b =? 0xe2) && (c =? 0x81) && (d =? 0x9f)) ||
                 ((b =? 0xe3) && (c =? 0x80) && (d =? 0x80))
              then 3%nat else 0%nat
          | [] => 0%nat
          end
      | [] => 0%nat
      end
  | [] => 0%nat
  end.

(** [str::trim]; [skip] counts the bytes left of a whitespace character. *)
Fixpoint trim_start (skip : nat) (s : list Z) : list Z :=
  match s with
  | [] => []
  | b :: r =>
      match skip with
      | S k => trim_start k r
      | O => match ws_prefix s with O => s | S k => trim_start k r end
      end
  end.
Fixpoint trim_end (s : list Z) : list Z :=
  match s with
  | [] => []
  | b :: r => if bool_decide (trim_start 0 s = []) then [] else b :: trim_end r
  end.
Definition trim (s : list Z) : list Z := trim_end (trim_start 0 s).

(** [str::split_whitespace]. *)
Definition flush_word (word : list Z) : list (list Z) :=
  match word with [] => [] | _ => [word] end.
Fixpoint split_words (skip : nat) (word s : list Z) : list (list Z) :=
  match s with
  | [] => flush_word word
  | b :: r =>
      match skip with
      | S k => split_words k word r
      | O => match ws_prefix s with
             | O => split_words 0 (word ++ [b]) r
             | S k => flush_word word ++ split_words k [] r
             end
      end
  end.
Definition split_whitespace (s : list Z) : list (list Z) := split_words 0 [] s.

(** * The passthrough tokenizer *)

Definition DEFAULT_BOS : Z := 128000.
Definition DEFAULT_EOS : Z := 128001.

Record IdPassthroughTokenizer : Type := MkPassthrough { pt_bos : Z; pt_eos : Z }.
Definition passthrough_default : IdPassthroughTokenizer := MkPassthrough DEFAULT_BOS DEFAULT_EOS.

(** The error quotes the first word that is not a number. *)
Inductive PassthroughError : Type := NonNumeric (tok : list Z).

Definition passthrough_encode (text : list Z) : res PassthroughError (list Z) :=
  let trimmed := trim text in
  if bool_decide (trimmed = []) then Ok []
  else for_each (split_whitespace trimmed) (fun tok ids =>
         let* id := ok_or (parse_u32 tok) (NonNumeric tok) in
         Ok (ids ++ [id])) [].

Definition passthrough_decode (tokens : list Z) : res PassthroughError (list Z) :=
  for_enum 0 tokens (fun i t out =>
    let out := if 0 <? i then out ++ [32] else out in
    Ok (out ++ to_string t)) [].

Definition passthrough_display (e : PassthroughError) : list MsgPart :=
  match e with
  | NonNumeric tok =>
      [Lit (utf8 "tokenizer error: id-passthrough tokenizer expects whitespace-separated integer token IDs; got non-numeric ");
       Quoted tok; Lit (utf8 ". Inject a BPE-backed Tokenizer for text input.")]
  end.

#[export] Instance passthrough_tokenizer : Tokenizer IdPassthroughTokenizer := {
  tk_display := passthrough_display;
  render_chat_prompt _ _ _ := Ok None;
  encode _ := passthrough_encode;
  decode _ := passthrough_decode;
  bos := pt_bos;
  eos := pt_eos
}.

Example passthrough_runs :
  passthrough_encode (utf8 " 10 11  128001 ") = Ok [10; 11; 128001] /\
  passthrough_decode [10; 11; 128001] = Ok (utf8 "10 11 128001") /\
  passthrough_encode (utf8 "+7 hello") = Err (NonNumeric (utf8 "hello")) /\
  passthrough_encode (utf8 "4294967296") = Err (NonNumeric (utf8 "4294967296")).
Proof. done. Qed.

(** * Numbers *)

Definition digit_byte (b : Z) : Prop := 48 <= b <= 57.
Definition ascii_byte (b : Z) : Prop := 0 <= b < 128.

Lemma decimal_digits fuel : forall n, 0 <= n -> Forall digit_byte (decimal fuel n).
Proof.
  induction fuel as [|fuel IH]; intros n Hn; cbn [decimal]; [constructor|].
  destruct (n <? 10) eqn:?; [repeat constructor; unfold digit_byte; lia|].
  apply Forall_app. split; [apply IH, Z.div_pos; lia|]. repeat constructor; unfold digit_byte; Z.div_mod_to_equations; lia.
Qed.

Lemma decimal_nonempty fuel n : (0 < fuel)%nat -> decimal fuel n <> [].
Proof. destruct fuel; [lia|]. cbn [decimal]. intros _. case_match; [done|]. by destruct (decimal _ _). Qed.

Lemma parse_decimal fuel : forall n, 0 <= n <= u32_max -> n < 10 ^ Z.of_nat fuel ->
  foldl parse_digit (Some 0) (decimal fuel n) = Some n.
Proof.
  induction fuel as [|fuel IH]; intros n Hn Hf; [cbn in *; f_equal; lia|].
  rewrite Nat2Z.inj_succ, Z.pow_succ_r in Hf by lia. cbn [decimal].
  assert (Hd : forall acc d, 0 <= d < 10 -> 10 * acc + d = n ->
    parse_digit (Some acc) (48 + d) = Some n).
  { intros acc d Hd Heq. unfold parse_digit, in_range. cbn [mbind option_bind].
    replace (_ && _) with true by lia. replace (48 + d - 48) with d by lia. rewrite Heq.
    by replace (n <=? u32_max) with true by lia. }
  destruct (n <? 10) eqn:?; [apply Hd; lia|].
  rewrite foldl_app, IH by (Z.div_mod_to_equations; lia). apply Hd; Z.div_mod_to_equations; lia.
Qed.

Lemma parse_to_string n : is_u32 n -> parse_u32 (to_string n) = Some n.
Proof.
  intros Hn. rewrite <- (parse_decimal 20 n) by (unfold is_u32, u32_max in *; simpl Z.of_nat; lia).
  change (to_string n) with (decimal 20 n). unfold parse_u32.
  pose proof (decimal_digits 20 n ltac:(unfold is_u32 in *; lia)) as Hd.
  pose proof (decimal_nonempty 20 n ltac:(lia)) as Hne. destruct (decimal 20 n) as [|b r]; [done|].
  apply list.Forall_cons in Hd as [Hb _]. unfold digit_byte in Hb.
  assert (Hcase : b ∈ seqZ 48 10) by (apply elem_of_seqZ; lia). revert Hcase.
  cbv [seqZ]. simpl. intros Hin. repeat (apply elem_of_cons in Hin as [->|Hin]; [done|]). by apply not_elem_of_nil in Hin.
Qed.

(** * Words *)

Lemma ws_digit b r : digit_byte b -> ws_prefix (b :: r) = 0%nat.
Proof.
  unfold digit_byte, ws_prefix, in_range. intros Hb. repeat (case_match; [lia|try done]). all: lia.
Qed.

Lemma ws_ascii b r : ascii_byte b -> (ws_prefix (b :: r) <= 1)%nat.
Proof.
  unfold ascii_byte, ws_prefix, in_range. intros Hb. destruct (_ || _); [lia|].
  destruct r as [|c [|d r]]; [lia|..]; replace (b =? 0xc2) with false by lia; cbn [andb]; [lia|].
  replace (b =? 0xe1) with false by lia. replace (b =? 0xe2) with false by lia. replace (b =? 0xe3) with false by lia.
  simpl. lia.
Qed.

Lemma split_digits d : forall word r, Forall digit_byte d -> split_words 0 word (d ++ r) = split_words 0 (word ++ d) r.
Proof.
  induction d as [|b d IH]; intros word r Hd; [by rewrite app_nil_r|].
  apply list.Forall_cons in Hd as [Hb Hd]. cbn [app split_words]. rewrite (ws_digit b _ Hb), IH by done.
  by rewrite <- (assoc_L (++)).
Qed.

Lemma trim_start_digit s d : Forall ascii_byte s -> digit_byte d -> trim_start 0 (s ++ [d]) <> [].
Proof.
  intros Hs Hd. induction s as [|b s IH]; cbn [app trim_start]; [by rewrite ws_digit|].
  apply list.Forall_cons in Hs as [Hb Hs]. pose proof (ws_ascii b (s ++ [d]) Hb) as Hw.
  destruct (ws_prefix (b :: s ++ [d])) as [|[|]]; [done|by apply IH|lia].
Qed.

Lemma trim_end_digit s d : Forall ascii_byte s -> digit_byte d -> trim_end (s ++ [d]) = s ++ [d].
Proof.
  intros Hs Hd. induction s as [|b s IH].
  - cbn [app trim_end]. rewrite bool_decide_eq_false_2; [done|]. by apply (trim_start_digit []).
  - cbn [app trim_end]. rewrite bool_decide_eq_false_2 by (by apply (trim_start_digit (b :: s))).
    apply list.Forall_cons in Hs as [_ Hs]. by rewrite IH.
Qed.

Lemma ascii_utf8 s : Forall ascii_byte s -> utf8_valid s = true.
Proof.
  induction 1 as [|b s Hb _ IH]; [done|]. unfold ascii_byte in Hb. cbn [utf8_valid].
  by replace (b <? 0x80) with true by lia.
Qed.

(** * The passthrough's text *)

Definition spaced (ts : list Z) : list Z := concat ((fun t => 32 :: to_string t) <$> ts).
Definition joined (ts : list Z) : list Z := match ts with [] => [] | t :: ts => to_string t ++ spaced ts end.

Lemma passthrough_decode_joined ts : passthrough_decode ts = Ok (joined ts).
Proof.
  assert (Hs : forall ts i out, 0 < i ->
    for_enum (E := PassthroughError) i ts (fun i t out => let out := if 0 <? i then out ++ [32] else out in Ok (out ++ to_string t)) out
    = Ok (out ++ spaced ts)).
  { clear ts. induction ts as [|t ts IH]; intros i out Hi; cbn [for_enum]; [by rewrite app_nil_r|].
    replace (0 <? i) with true by lia. cbn [bind]. rewrite IH by lia. unfold spaced. simpl.
    by rewrite <- !(assoc_L (++)). }
  destruct ts as [|t ts]; [done|]. unfold passthrough_decode. cbn [for_enum]. cbn [Z.ltb Z.compare bind]. by rewrite Hs.
Qed.

Lemma joined_snoc ts x : joined (ts ++ [x]) = joined ts ++ (match ts with [] => [] | _ => [32] end) ++ to_string x.
Proof.
  destruct ts as [|t ts]; [cbn; by rewrite app_nil_r|]. cbn [app joined]. unfold spaced.
  rewrite fmap_app, concat_app. cbn [fmap list_fmap concat]. by rewrite app_nil_r, (assoc_L (++)).
Qed.

Lemma to_string_digits n : 0 <= n -> Forall digit_byte (to_string n).
Proof. apply (decimal_digits 20). Qed.

Lemma digits_ascii d : Forall digit_byte d -> Forall ascii_byte d.
Proof. intros H. eapply list.Forall_impl; [exact H|]. unfold digit_byte, ascii_byte. lia. Qed.

Lemma joined_ascii ts : Forall (fun t => 0 <= t) ts -> Forall ascii_byte (joined ts).
Proof.
  induction ts as [|x ts IH] using rev_ind; [constructor|]. rewrite Forall_app. intros [Hts [Hx _]%list.Forall_cons].
  rewrite joined_snoc. repeat apply Forall_app_2; [by apply IH|destruct ts; repeat constructor; unfold ascii_byte; lia|].
  by apply digits_ascii, to_string_digits.
Qed.

Lemma split_spaced ts : Forall (fun t => 0 <= t) ts -> forall word, word <> [] ->
  split_words 0 word (spaced ts) = word :: (to_string <$> ts).
Proof.
  induction 1 as [|t ts Ht _ IH]; intros word Hw; [by destruct word|].
  change (spaced (t :: ts)) with (32 :: to_string t ++ spaced ts). cbn [split_words ws_prefix]. simpl (in_range _ _ _ || _).
  cbv iota. rewrite split_digits, app_nil_l, IH by first [by apply to_string_digits|apply (decimal_nonempty 20); lia]. by destruct word.
Qed.

Lemma trim_joined t ts : Forall (fun t => 0 <= t) (t :: ts) -> trim (joined (t :: ts)) = joined (t :: ts).
Proof.
  intros Hts. pose proof (joined_ascii _ Hts) as Ha.
  assert (Hstart : trim_start 0 (joined (t :: ts)) = joined (t :: ts)).
  { cbn [joined]. apply list.Forall_cons in Hts as [Ht _]. pose proof (to_string_digits t Ht) as Hd.
    pose proof (decimal_nonempty 20 t ltac:(lia)) as Hne. fold (to_string t) in Hne.
    destruct (to_string t) as [|b r]; [done|]. apply list.Forall_cons in Hd as [Hb _].
    cbn [app trim_start]. by rewrite ws_digit. }
  unfold trim. rewrite Hstart. destruct (exists_last (l := t :: ts) ltac:(done)) as (ts' & x & Heq).
  rewrite Heq, joined_snoc in Ha |- *. rewrite Heq, Forall_app in Hts. destruct Hts as [_ [Hx _]%list.Forall_cons].
  destruct (exists_last (decimal_nonempty 20 x ltac:(lia))) as (ds & d & Hds). fold (to_string x) in Hds.
  pose proof (to_string_digits x Hx) as Hd. rewrite Hds in Ha, Hd |- *. apply Forall_app in Hd as [_ [Hd _]%list.Forall_cons].
  rewrite !(assoc_L (++)) in Ha |- *. apply Forall_app in Ha as [Ha _]. by apply trim_end_digit.
Qed.

Lemma parse_words ts : forall acc, Forall is_u32 ts ->
  for_each (to_string <$> ts) (fun tok ids =>
    let* id := ok_or (parse_u32 tok) (NonNumeric tok) in Ok (ids ++ [id])) acc = Ok (acc ++ ts).
Proof.
  induction ts as [|x ts IH]; intros acc Hl; cbn [fmap list_fmap for_each]; [by rewrite app_nil_r|].
  apply list.Forall_cons in Hl as [Hx Hl]. rewrite parse_to_string by done. cbn [ok_or bind].
  rewrite IH by done. by rewrite <- (assoc_L (++)).
Qed.

(** Token identifiers printed by the passthrough tokenizer are read back. *)
Theorem passthrough_roundtrip ts : Forall is_u32 ts ->
  exists text, passthrough_decode ts = Ok text /\ passthrough_encode text = Ok ts.
Proof.
  intros Hts. exists (joined ts). split; [apply passthrough_decode_joined|].
  assert (Hpos : Forall (fun t => 0 <= t) ts) by (eapply list.Forall_impl; [exact Hts|unfold is_u32; simpl; lia]).
  destruct ts as [|t ts]; [done|]. unfold passthrough_encode. rewrite trim_joined by done.
  rewrite bool_decide_eq_false_2
    by (cbn [joined]; intros [H _]%app_eq_nil; by apply (decimal_nonempty 20 t ltac:(lia)) in H).
  unfold split_whitespace. cbn [joined]. apply list.Forall_cons in Hpos as [Ht Hpos].
  rewrite split_digits, app_nil_l, split_spaced
    by first [by apply to_string_digits|apply (decimal_nonempty 20); lia|done].
  exact (parse_words (t :: ts) [] Hts).
Qed.

#[export] Instance passthrough_stream t : StreamDecoder IdPassthroughTokenizer t.
Proof.
  refine {| text_of := joined |}.
  - intros ts _. apply passthrough_decode_joined.
  - done.
  - intros ts x Hts Hx. rewrite joined_snoc. eexists. split; [done|]. apply ascii_utf8, Forall_app_2.
    + destruct ts; repeat constructor; unfold ascii_byte; lia.
    + apply digits_ascii, to_string_digits. unfold is_u32 in Hx. lia.
Defined.
