(* ===== verification/Sse.v ===== *)
(** * Incremental text for server-sent events (crates/tritium-serve/src/sse.rs,
    dto.rs, generator.rs and worker.rs)

    The incremental detokenizer, the stop-sequence matcher and the chunks of a stream.
    The detokenizer loses nothing over a tokenizer whose text only grows, the matcher
    agrees with a search of the whole text, and a tokenizer that refuses incomplete
    characters makes the detokenizer repeat itself. *)

From Stdlib Require Import ZArith Lia Bool String.
From stdpp Require Import base list numbers.
From S2P Require Import Prelude Text F32 Tokenizer.

#[local] Open Scope Z_scope.

(** * Messages *)

Inductive FinishReason : Type := Stop | Length.
Definition finish_str (r : FinishReason) : list Z :=
  match r with Stop => utf8 "stop" | Length => utf8 "length" end.

(** A row: the sampled token, then the alternatives. *)
Definition LogprobRow : Type := list (Z * f32).

Inductive GenEvent : Type :=
| EvToken (token : Z) (logprobs : option LogprobRow)
| EvDone (reason : FinishReason)
| EvError (message : list Z).

Record Usage : Type := MkUsage { prompt_tokens : Z; completion_tokens : Z; total_tokens : Z }.
Record TopLogprob : Type := MkTop { tl_token : list Z; tl_logprob : f32; tl_bytes : list Z }.
Record TokenLogprob : Type := MkTokenLogprob {
  lp_token : list Z; lp_logprob : f32; lp_bytes : list Z; lp_top_logprobs : list TopLogprob
}.
Record ChoiceLogprobs : Type := MkLogprobs { lp_content : list TokenLogprob }.
Record Delta : Type := MkDelta { d_role : option (list Z); d_content : option (list Z) }.
Record ChunkChoice : Type := MkChunkChoice {
  cc_index : Z; cc_delta : Delta; cc_finish_reason : option (list Z); cc_logprobs : option ChoiceLogprobs
}.
Record ChatChunk : Type := MkChunk {
  ck_id : list Z; ck_object : list Z; ck_created : Z; ck_model : list Z;
  ck_choices : list ChunkChoice; ck_usage : option Usage
}.

(** * Detokenizer *)

Fixpoint floor_loop (s : list Z) (i : nat) : Z :=
  match i with
  | O => 0
  | S j => if is_char_boundary s (Z.of_nat i) then Z.of_nat i else floor_loop s j
  end.
Definition floor_char_boundary (s : list Z) (i : Z) : Z := floor_loop s (Z.to_nat (Z.min i (zlen s))).

Record IncrementalDetok (T : Type) : Type := MkDetok {
  dt_tok : T; dt_eos : Z; dt_tokens : list Z; dt_emitted_bytes : Z
}.
Arguments MkDetok {T}.
Arguments dt_tok {T}.
Arguments dt_eos {T}.
Arguments dt_tokens {T}.
Arguments dt_emitted_bytes {T}.

Definition detok_new {T} `{Tokenizer T} (tok : T) : IncrementalDetok T := MkDetok tok (eos tok) [] 0.

Definition detok_push {T} `{Tokenizer T} {E} (self : IncrementalDetok T) (token : Z)
    : res E (list Z * IncrementalDetok T) :=
  if token =? dt_eos self then Ok ([], self) else
  let tokens := dt_tokens self ++ [token] in
  let* full := unwrap_or_default (decode (dt_tok self) tokens) in
  let start := floor_char_boundary full (dt_emitted_bytes self) in
  let* new := str_slice full start (zlen full) in
  Ok (new, MkDetok (dt_tok self) (dt_eos self) tokens (zlen full)).

(** * Stop matcher *)

Record StopMatcher : Type := MkMatcher { sm_stops : list (list Z); sm_max_len : Z; sm_buffer : list Z }.

Definition matcher_new (stops : list (list Z)) : StopMatcher :=
  MkMatcher stops (default 0 (iter_max (zlen <$> stops))) [].

Definition matcher_feed {E} (self : StopMatcher) (text : list Z) : res E ((list Z * bool) * StopMatcher) :=
  let buffer := sm_buffer self ++ text in
  match iter_min (omap (str_find buffer) (sm_stops self)) with
  | Some pos =>
      let* emit := str_slice buffer 0 pos in
      Ok ((emit, true), MkMatcher (sm_stops self) (sm_max_len self) [])
  | None =>
      let hold := saturating_sub (sm_max_len self) 1 in
      if hold <? zlen buffer then
        let cut := floor_char_boundary buffer (zlen buffer - hold) in
        let* emit := str_slice buffer 0 cut in
        let* rest := str_slice buffer cut (zlen buffer) in
        Ok ((emit, false), MkMatcher (sm_stops self) (sm_max_len self) rest)
      else Ok (([], false), MkMatcher (sm_stops self) (sm_max_len self) buffer)
  end.

Definition matcher_flush (self : StopMatcher) : list Z * StopMatcher :=
  (sm_buffer self, MkMatcher (sm_stops self) (sm_max_len self) []).

(** * Chunks *)

Definition chunk_object : list Z := utf8 "chat.completion.chunk".

Definition usage_chunk {E} (id : list Z) (created : Z) (model : list Z) (prompt completion : Z) : res E ChatChunk :=
  let* total := add_usize prompt completion in
  Ok (MkChunk id chunk_object created model [] (Some (MkUsage prompt completion total))).

Definition role_chunk (id : list Z) (created : Z) (model : list Z) : ChatChunk :=
  MkChunk id chunk_object created model
    [MkChunkChoice 0 (MkDelta (Some (utf8 "assistant")) None) None None] None.

Definition content_chunk (id : list Z) (created : Z) (model content : list Z) : ChatChunk :=
  MkChunk id chunk_object created model [MkChunkChoice 0 (MkDelta None (Some content)) None None] None.

Definition terminal_chunk (id : list Z) (created : Z) (model : list Z) (finish : FinishReason) : ChatChunk :=
  MkChunk id chunk_object created model
    [MkChunkChoice 0 (MkDelta None None) (Some (finish_str finish)) None] None.

Definition error_chunk (id : list Z) (created : Z) (model : list Z) : ChatChunk :=
  MkChunk id chunk_object created model
    [MkChunkChoice 0 (MkDelta None None) (Some (utf8 "error")) None] None.

(** * The floor of a position *)

Lemma floor_loop_spec s i : Z.of_nat i <= zlen s ->
  is_char_boundary s (floor_loop s i) = true /\ 0 <= floor_loop s i <= Z.of_nat i /\
  (is_char_boundary s (Z.of_nat i) = true -> floor_loop s i = Z.of_nat i).
Proof.
  induction i as [|i IH]; intros Hi; [cbn [floor_loop]; by rewrite boundary_0|].
  cbn [floor_loop]. destruct (is_char_boundary s (Z.of_nat (S i))) eqn:Hb; [repeat split; [done|lia..]|].
  destruct IH as (H1 & H2 & _); [lia|]. repeat split; [done|lia..|done].
Qed.

Lemma floor_char_boundary_spec s i : 0 <= i ->
  is_char_boundary s (floor_char_boundary s i) = true /\ 0 <= floor_char_boundary s i <= Z.min i (zlen s) /\
  (is_char_boundary s i = true -> floor_char_boundary s i = i).
Proof.
  intros Hi. pose proof (zlen_nonneg s). unfold floor_char_boundary.
  destruct (floor_loop_spec s (Z.to_nat (Z.min i (zlen s)))) as (H1 & H2 & H3); [lia|].
  repeat split; [done|lia..|]. intros Hb. pose proof (boundary_range _ _ Hb).
  rewrite H3; [lia|]. by replace (Z.of_nat _) with i by lia.
Qed.

(** * Detokenization loses nothing *)

(** The pieces of a run of pushes. *)
Fixpoint push_all {T} `{Tokenizer T} {E} (d : IncrementalDetok T) (ts : list Z) : res E (list (list Z) * IncrementalDetok T) :=
  match ts with
  | [] => Ok ([], d)
  | t :: ts =>
      let* (piece, d) := detok_push d t in
      let* (pieces, d) := push_all d ts in
      Ok (piece :: pieces, d)
  end.

Section detok.
Context {T : Type} `{Tok : Tokenizer T} (tok : T) {SD : StreamDecoder T tok}.

Lemma Forall_snoc {A} (P : A -> Prop) l x : Forall P l -> P x -> Forall P (l ++ [x]).
Proof. intros Hl Hx. apply Forall_app_2; [done|]. by apply list.Forall_singleton. Qed.

(** The state after the non-final tokens [ts]. *)
Definition detok_at (ts : list Z) : IncrementalDetok T := MkDetok tok (eos tok) ts (zlen (text_of ts)).

Lemma detok_push_at {E} ts x : Forall is_u32 ts -> is_u32 x ->
  if x =? eos tok then detok_push (E := E) (detok_at ts) x = Ok ([], detok_at ts)
  else exists u, text_of (ts ++ [x]) = text_of ts ++ u /\ utf8_valid u = true /\
    detok_push (E := E) (detok_at ts) x = Ok (u, detok_at (ts ++ [x])).
Proof.
  intros Hts Hx. unfold detok_push. cbn [dt_eos dt_tok dt_tokens dt_emitted_bytes detok_at].
  destruct (x =? eos tok); [done|].
  destruct (sd_extends ts x Hts Hx) as (u & Hu & Hv). exists u. split; [done|]. split; [done|].
  rewrite sd_decode by (by apply Forall_snoc). cbn [unwrap_or_default bind].
  rewrite Hu. pose proof (zlen_nonneg (text_of ts)). pose proof (zlen_nonneg u).
  destruct (floor_char_boundary_spec (text_of ts ++ u) (zlen (text_of ts))) as (_ & _ & Hfloor); [lia|].
  rewrite Hfloor by (by apply boundary_app).
  rewrite str_slice_Ok by first [by apply boundary_app|apply boundary_len|zlia]. cbn [bind].
  rewrite sub_skip, Z.sub_diag, zlen_app by lia. replace (_ + _ - _) with (zlen u) by lia. rewrite sub_full.
  unfold detok_at. by rewrite Hu, zlen_app.
Qed.

Lemma push_all_at {E} xs : forall ts, Forall is_u32 ts -> Forall is_u32 xs ->
  exists pieces, push_all (E := E) (detok_at ts) xs = Ok (pieces, detok_at (ts ++ filter (fun x => x <> eos tok) xs)) /\
    text_of (ts ++ filter (fun x => x <> eos tok) xs) = text_of ts ++ concat pieces /\ Forall (fun p => utf8_valid p = true) pieces.
Proof.
  induction xs as [|x xs IH]; intros ts Hts Hxs.
  { exists []. by rewrite filter_nil, !app_nil_r. }
  apply list.Forall_cons in Hxs as [Hx Hxs]. cbn [push_all]. pose proof (detok_push_at (E := E) ts x Hts Hx) as Hp.
  rewrite filter_cons. destruct (x =? eos tok) eqn:Hc.
  - rewrite decide_False by lia. rewrite Hp. cbn [bind]. destruct (IH ts Hts Hxs) as (pieces & -> & -> & Hv).
    exists ([] :: pieces). by repeat constructor.
  - rewrite decide_True by lia. destruct Hp as (u & Hu & Hv & ->). cbn [bind].
    destruct (IH (ts ++ [x])) as (pieces & Hpush & Htext & Hpv);
      [by apply Forall_snoc|done|].
    rewrite <- (assoc_L (++)) in Hpush, Htext. cbn [app] in Hpush, Htext. rewrite Hpush. cbn [bind].
    exists (u :: pieces). rewrite Htext, Hu. cbn [concat]. rewrite <- (assoc_L (++)). by repeat constructor.
Qed.

(** Over a tokenizer whose text only grows, the pieces of the detokenizer are strings and
    concatenate to the decoding of every token but the end-of-sequence ones, whatever the
    number of tokens; no push panics. *)
Theorem detok_concat (E : Type) (xs : list Z) : Forall is_u32 xs ->
  exists pieces d, push_all (E := E) (detok_new tok) xs = Ok (pieces, d) /\
    decode tok (filter (fun x => x <> eos tok) xs) = Ok (concat pieces) /\
    Forall (fun p => utf8_valid p = true) pieces.
Proof.
  intros Hxs. destruct (push_all_at (E := E) xs [] ltac:(constructor) Hxs) as (pieces & Hp & Ht & Hv).
  rewrite app_nil_l in Hp, Ht. rewrite sd_nil in Ht.
  exists pieces, (detok_at (filter (fun x => x <> eos tok) xs)). split; [|split; [|done]].
  - rewrite <- Hp. unfold detok_at, detok_new. rewrite sd_nil. done.
  - rewrite sd_decode by (apply list.Forall_forall; intros y [_ Hy]%list_elem_of_filter; by eapply list.Forall_forall in Hxs). by rewrite Ht.
Qed.
End detok.

(** The passthrough tokenizer of the server: "7", " 8" and " 9". *)
Lemma detok_concat_witness :
  exists pieces d, push_all (E := unit) (detok_new passthrough_default) [7; 8; 128001; 9] = Ok (pieces, d) /\
    decode passthrough_default (filter (fun x => x <> eos passthrough_default) [7; 8; 128001; 9]) = Ok (concat pieces) /\
    Forall (fun p => utf8_valid p = true) pieces.
Proof. apply (detok_concat passthrough_default unit [7; 8; 128001; 9]). repeat constructor; unfold is_u32; lia. Defined.

(** A byte-level tokenizer that answers an error on an incomplete character, as the trait
    documents. *)
Record ByteTokenizer : Type := MkByteTokenizer {}.

#[export] Instance byte_tokenizer : Tokenizer ByteTokenizer := {
  tk_error := unit;
  tk_display _ := [];
  render_chat_prompt _ _ _ := Ok None;
  encode _ text := Ok text;
  decode _ tokens := if utf8_valid tokens then Ok tokens else Err tt;
  bos _ := 256;
  eos _ := 257
}.

(** Over a tokenizer that refuses incomplete characters the detokenizer forgets what it
    has emitted: the bytes of "abé" are emitted as "a", "b", nothing and "abé". *)
Theorem detok_repeats (E : Type) :
  exists d, push_all (E := E) (detok_new (MkByteTokenizer)) [97; 98; 0xc3; 0xa9]
    = Ok ([[97]; [98]; []; [97; 98; 0xc3; 0xa9]], d) /\
  decode MkByteTokenizer [97; 98; 0xc3; 0xa9] = Ok [97; 98; 0xc3; 0xa9].
Proof. by eexists. Qed.

(** * Stop sequences *)

(** A run of feeds: the text emitted, and whether a stop sequence was completed. *)
Fixpoint feed_all {E} (m : StopMatcher) (pieces : list (list Z)) : res E ((list Z * bool) * StopMatcher) :=
  match pieces with
  | [] => Ok (([], false), m)
  | t :: pieces =>
      let* ((emit, hit), m) := matcher_feed m t in
      if (hit : bool) then Ok ((emit, true), m)
      else
        let* ((rest, hit), m) := feed_all m pieces in
        Ok ((emit ++ rest, hit), m)
  end.

(** The specification: search the whole text after every piece and cut it at the first
    occurrence of a stop sequence. *)
Definition first_stop (stops : list (list Z)) (text : list Z) : option Z := iter_min (omap (str_find text) stops).

Fixpoint stop_reference (stops : list (list Z)) (text : list Z) (pieces : list (list Z)) : list Z * bool :=
  match pieces with
  | [] => (text, false)
  | t :: pieces =>
      match first_stop stops (text ++ t) with
      | Some pos => (sub (text ++ t) 0 pos, true)
      | None => stop_reference stops (text ++ t) pieces
      end
  end.

Definition stop_free (stops : list (list Z)) (text : list Z) : Prop :=
  Forall (fun s => forall q, ~ occurs s text q) stops.

Lemma first_stop_spec stops text :
  match first_stop stops text with
  | Some p => (exists s, s ∈ stops /\ occurs s text p) /\ forall s q, s ∈ stops -> occurs s text q -> p <= q
  | None => stop_free stops text
  end.
Proof.
  unfold first_stop, stop_free. pose proof (iter_min_spec (omap (str_find text) stops)) as Hm.
  destruct (iter_min _) as [p|].
  - destruct Hm as [(s & Hs & Hf)%list_elem_of_omap Hall]. split.
    + exists s. split; [done|]. pose proof (str_find_spec s text) as Hsp. rewrite Hf in Hsp. apply Hsp.
    + intros s' q Hs' Hq. pose proof (str_find_spec s' text) as Hsp. destruct (str_find text s') as [p'|] eqn:Hf'.
      * assert (p' ∈ omap (str_find text) stops) by (apply list_elem_of_omap; by exists s').
        eapply list.Forall_forall in Hall; [|done]. apply Hsp in Hq. simpl in Hall. lia.
      * by apply Hsp in Hq.
  - apply list.Forall_forall. intros s Hs q Hq. pose proof (str_find_spec s text) as Hsp.
    destruct (str_find text s) as [p'|] eqn:Hf'; [|by apply Hsp in Hq].
    assert (p' ∈ omap (str_find text) stops) as Hin by (apply list_elem_of_omap; by exists s).
    rewrite Hm in Hin. by apply not_elem_of_nil in Hin.
Qed.

(** The position is determined by the specification. *)
Lemma first_stop_unique stops text p s :
  s ∈ stops -> occurs s text p -> (forall s q, s ∈ stops -> occurs s text q -> p <= q) -> first_stop stops text = Some p.
Proof.
  intros Hs Ho Hmin. pose proof (first_stop_spec stops text) as Hf. destruct (first_stop stops text) as [p'|].
  - destruct Hf as [(s' & Hs' & Ho') Hmin']. f_equal. pose proof (Hmin' s p Hs Ho). pose proof (Hmin s' p' Hs' Ho'). lia.
  - eapply list.Forall_forall in Hf; [|exact Hs]. by apply Hf in Ho.
Qed.

Section matcher.
Context (stops : list (list Z)).
Hypothesis stops_valid : Forall (fun s => utf8_valid s = true /\ s <> []) stops.

Definition max_len : Z := default 0 (iter_max (zlen <$> stops)).

Lemma max_len_ge s : s ∈ stops -> zlen s <= max_len.
Proof. intros Hs. apply iter_max_ge, list_elem_of_fmap. by exists s. Qed.

(** What holds between feeds: [text] is what has arrived and [out] what has left. *)
Record feeding (text out : list Z) (m : StopMatcher) : Prop := {
  fd_stops : sm_stops m = stops;
  fd_max : sm_max_len m = max_len;
  fd_text : text = out ++ sm_buffer m;
  fd_valid : utf8_valid (sm_buffer m) = true;
  fd_held : out = [] \/ max_len - 1 <= zlen (sm_buffer m);
  fd_free : stop_free stops text
}.

Lemma feeding_new : feeding [] [] (matcher_new stops).
Proof.
  split; [done..|by left|]. apply list.Forall_forall. intros s Hs q Hq%occurs_len.
  eapply list.Forall_forall in stops_valid as [_ Hne]; [|exact Hs]. destruct s; [done|]. zl.
Qed.

(** A stop sequence completed by a piece starts in the held text. *)
Lemma completed_held text out m t s q : feeding text out m -> s ∈ stops -> occurs s (text ++ t) q -> zlen out <= q.
Proof.
  intros [Hs Hm Ht Hv Hh Hf] Hin Ho. pose proof (max_len_ge s Hin) as Hle. destruct (occurs_len _ _ _ Ho) as [Hq _].
  destruct Hh as [->|Hh]; [done|]. destruct (decide (q + zlen s <= zlen text)) as [Hin'|Hout].
  - apply (occurs_app s text t q) in Ho; [|done]. eapply list.Forall_forall in Hf; [|exact Hin]. by apply Hf in Ho.
  - subst text. rewrite zlen_app in Hout. lia.
Qed.

Lemma first_stop_held text out m t : feeding text out m ->
  first_stop stops (text ++ t) = Z.add (zlen out) <$> first_stop stops (sm_buffer m ++ t).
Proof.
  intros Hfd. pose proof (fd_text _ _ _ Hfd) as Ht. pose proof (first_stop_spec stops (sm_buffer m ++ t)) as Hb.
  destruct (first_stop stops (sm_buffer m ++ t)) as [p|]; cbn [fmap option_fmap option_map].
  - destruct Hb as [(s & Hs & Ho) Hmin]. apply (first_stop_unique _ _ _ s Hs).
    + rewrite Ht, <- (assoc_L (++)). by apply occurs_shift.
    + intros s' q Hs' Hq. pose proof (completed_held _ _ _ _ _ _ Hfd Hs' Hq). rewrite Ht, <- (assoc_L (++)) in Hq.
      replace q with (zlen out + (q - zlen out)) in Hq by lia. apply occurs_skip in Hq; [|lia]. apply (Hmin s') in Hq; [lia|done].
  - pose proof (first_stop_spec stops (text ++ t)) as Hw. destruct (first_stop stops (text ++ t)) as [p|]; [|done].
    destruct Hw as [(s & Hs & Ho) _]. pose proof (completed_held _ _ _ _ _ _ Hfd Hs Ho). rewrite Ht, <- (assoc_L (++)) in Ho.
    replace p with (zlen out + (p - zlen out)) in Ho by lia. apply occurs_skip in Ho; [|lia].
    eapply list.Forall_forall in Hb; [|exact Hs]. by apply Hb in Ho.
Qed.

(** One feed: cut at the first stop sequence of the text, or hold back the tail. *)
Lemma matcher_feed_spec {E} text out m t : feeding text out m -> utf8_valid t = true ->
  match first_stop stops (text ++ t) with
  | Some pos => exists emit m', matcher_feed (E := E) m t = Ok ((emit, true), m') /\
      out ++ emit = sub (text ++ t) 0 pos /\ utf8_valid emit = true /\ sm_buffer m' = []
  | None => exists emit m', matcher_feed (E := E) m t = Ok ((emit, false), m') /\
      utf8_valid emit = true /\ feeding (text ++ t) (out ++ emit) m'
  end.
Proof.
  intros Hfd Ht. rewrite (first_stop_held _ _ _ _ Hfd). pose proof (first_stop_held _ _ _ t Hfd) as Hfs.
  destruct Hfd as [Hs Hm Htext Hv Hh Hf]. pose proof (utf8_app _ _ Hv Ht) as Hvb. unfold matcher_feed. rewrite Hs, Hm.
  fold (first_stop stops (sm_buffer m ++ t)). pose proof (first_stop_spec stops (sm_buffer m ++ t)) as Hsp.
  set (buffer := sm_buffer m ++ t) in *. assert (Htt : text ++ t = out ++ buffer) by (subst text; by rewrite <- (assoc_L (++))).
  pose proof (zlen_nonneg out). destruct (first_stop stops buffer) as [pos|]; cbn [fmap option_fmap option_map].
  - destruct Hsp as [(s & Hin & Ho) _]. eapply list.Forall_forall in stops_valid as [Hsv Hne]; [|exact Hin].
    pose proof (occurs_boundary _ _ _ Hsv Hne Ho) as Hb. pose proof (boundary_range _ _ Hb).
    rewrite str_slice_Ok by (done || lia). cbn [bind]. do 2 eexists. split; [done|]. rewrite Htt.
    split; [|split; [by apply utf8_split|done]].
    rewrite <- (sub_join (out ++ buffer) 0 (zlen out) (zlen out + pos)), sub_app_l, sub_skip by lia. do 2 f_equal; lia.
  - assert (Hfree : stop_free stops (text ++ t)).
    { pose proof (first_stop_spec stops (text ++ t)) as Hw. by rewrite Hfs in Hw. }
    unfold saturating_sub. destruct (_ <? _) eqn:Hhold.
    + pose proof (zlen_nonneg buffer). destruct (floor_char_boundary_spec buffer (zlen buffer - Z.max (max_len - 1) 0)) as (Hb & Hr & _); [lia|].
      set (cut := floor_char_boundary _ _) in *. rewrite !str_slice_Ok by (done || apply boundary_len || lia). cbn [bind].
      destruct (utf8_split buffer Hvb cut Hb) as [Hv1 Hv2]. do 2 eexists. split; [done|]. split; [done|].
      split; cbn [sm_stops sm_max_len sm_buffer]; [done..| |done| |done].
      * rewrite <- (assoc_L (++)), sub_join, sub_full by lia. done.
      * right. rewrite zlen_sub; lia.
    + do 2 eexists. split; [done|]. split; [done|]. rewrite app_nil_r. split; cbn [sm_stops sm_max_len sm_buffer]; try done.
      destruct Hh as [Hh|Hh]; [by left|right]. subst buffer. rewrite zlen_app. pose proof (zlen_nonneg t). lia.
Qed.

Lemma feed_all_spec {E} pieces : forall text out m, feeding text out m -> Forall (fun p => utf8_valid p = true) pieces ->
  exists emit hit m', feed_all (E := E) m pieces = Ok ((emit, hit), m') /\
    stop_reference stops text pieces = (out ++ emit ++ fst (matcher_flush m'), hit).
Proof.
  induction pieces as [|t pieces IH]; intros text out m Hfd Hp.
  { exists [], false, m. split; [done|]. cbn. by rewrite (fd_text _ _ _ Hfd). }
  apply list.Forall_cons in Hp as [Ht Hp]. cbn [feed_all stop_reference].
  pose proof (matcher_feed_spec (E := E) text out m t Hfd Ht) as Hfeed.
  destruct (first_stop stops (text ++ t)) as [pos|].
  - destruct Hfeed as (emit & m' & -> & Hout & _ & Hb). cbn [bind]. exists emit, true, m'. split; [done|].
    cbn [matcher_flush fst]. by rewrite Hb, app_nil_r, Hout.
  - destruct Hfeed as (emit & m' & -> & _ & Hfd'). cbn [bind].
    destruct (IH _ _ _ Hfd' Hp) as (rest & hit & m'' & -> & ->). cbn [bind].
    exists (emit ++ rest), hit, m''. split; [done|]. by rewrite <- !(assoc_L (++)).
Qed.

(** The text the specification answers: a prefix of the whole that no stop sequence
    occurs in, and all of it when none was completed. *)
Lemma stop_reference_clean pieces : forall text, stop_free stops text ->
  let (out, hit) := stop_reference stops text pieces in
  stop_free stops out /\ (exists rest, text ++ concat pieces = out ++ rest) /\ (hit = false -> out = text ++ concat pieces).
Proof.
  induction pieces as [|t pieces IH]; intros text Hfree; cbn [stop_reference concat].
  { split; [done|]. rewrite app_nil_r. split; [by exists []; rewrite app_nil_r|done]. }
  rewrite (assoc_L (++)). pose proof (first_stop_spec stops (text ++ t)) as Hsp.
  destruct (first_stop stops (text ++ t)) as [pos|]; [|by apply IH].
  destruct Hsp as [(s & Hin & Ho) Hmin]. pose proof (occurs_len _ _ _ Ho). pose proof (zlen_nonneg s).
  assert (Hcut : text ++ t = sub (text ++ t) 0 pos ++ sub (text ++ t) pos (zlen (text ++ t))).
  { rewrite sub_join by lia. by rewrite sub_full. }
  split; [|split; [|done]].
  - apply list.Forall_forall. intros s' Hs' q Hq. pose proof (occurs_len _ _ _ Hq) as [_ Hlen]. rewrite zlen_sub in Hlen by lia.
    eapply list.Forall_forall in stops_valid as [_ Hne]; [|exact Hs'].
    apply (occurs_app_l _ _ (sub (text ++ t) pos (zlen (text ++ t)))) in Hq. rewrite <- Hcut in Hq. apply (Hmin s') in Hq; [|done].
    destruct s'; [done|]. rewrite zlen_cons in Hlen. pose proof (zlen_nonneg s'). lia.
  - eexists. rewrite Hcut at 1. by rewrite <- (assoc_L (++)).
Qed.
End matcher.

(** C28: for non-empty stop sequences and any text cut into any strings, the matcher never
    panics and delivers, with its final flush, what a search of the whole text after every
    piece would: a prefix that no stop sequence occurs in, and the whole text when no stop
    sequence was completed. *)
Theorem stop_matcher_exact (E : Type) (stops pieces : list (list Z)) :
  Forall (fun s => utf8_valid s = true /\ s <> []) stops -> Forall (fun p => utf8_valid p = true) pieces ->
  exists emit hit m, feed_all (E := E) (matcher_new stops) pieces = Ok ((emit, hit), m) /\
    let out := emit ++ fst (matcher_flush m) in
    (out, hit) = stop_reference stops [] pieces /\ stop_free stops out /\
    (exists rest, concat pieces = out ++ rest) /\ (hit = false -> out = concat pieces).
Proof.
  intros Hs Hp. pose proof (feeding_new stops Hs) as Hnew.
  destruct (feed_all_spec (E := E) stops Hs pieces _ _ _ Hnew Hp) as (emit & hit & m & Hrun & Href).
  pose proof (stop_reference_clean stops Hs pieces [] (fd_free _ _ _ _ Hnew)) as Hclean. rewrite Href in Hclean.
  exists emit, hit, m. by rewrite Href.
Qed.

(** A stop sequence split over three pieces, behind a two-byte character. *)
Lemma stop_matcher_exact_witness :
  let stops := [utf8 "END"; utf8 "xyz"] in
  let pieces := [[0xc3; 0xa9]; utf8 " a"; utf8 "E"; utf8 "N"; utf8 "D b"] in
  exists emit hit m, feed_all (E := unit) (matcher_new stops) pieces = Ok ((emit, hit), m) /\
    let out := emit ++ fst (matcher_flush m) in
    (out, hit) = stop_reference stops [] pieces /\ stop_free stops out /\
    (exists rest, concat pieces = out ++ rest) /\ (hit = false -> out = concat pieces).
Proof. apply (stop_matcher_exact unit); repeat constructor; done. Defined.

(** Where the text is cut can move the answer when one stop sequence contains another. *)
Example chunking_matters :
  fst (stop_reference [utf8 "bc"; utf8 "abcd"] [] [utf8 "abc"; utf8 "d"]) = utf8 "a" /\
  fst (stop_reference [utf8 "bc"; utf8 "abcd"] [] [utf8 "abcd"]) = [].
Proof. done. Qed.
