(* ===== verification/Respond.v ===== *)
(** * Response bodies (crates/tritium-serve/src/router.rs and dto.rs)

    The non-streaming body, the streaming body and the token log-probabilities, over the
    events a worker sends. A stream is the list of the values of its [data:] lines; JSON
    printing is not part of the model. A request that ends with its [Done] or [Error] is
    answered alike by both bodies. *)

From Stdlib Require Import ZArith Lia Bool String.
From stdpp Require Import base list numbers.
From S2P Require Import Prelude Text F32 Tokenizer Sse.

#[local] Open Scope Z_scope.

(** * Wire types *)

Record ChatMessage : Type := MkMessage { cm_role : list Z; cm_content : list Z }.
Record Choice : Type := MkChoice {
  ch_index : Z; ch_message : ChatMessage; ch_finish_reason : list Z; ch_logprobs : option ChoiceLogprobs
}.
Record ChatCompletion : Type := MkCompletion {
  co_id : list Z; co_object : list Z; co_created : Z; co_model : list Z;
  co_choices : list Choice; co_usage : Usage
}.
Record ApiErrorBody : Type := MkErrorBody {
  ae_message : list MsgPart; ae_kind : list Z; ae_param : option (list Z); ae_code : option (list Z)
}.

(** [ApiError::new]; the envelope adds nothing to its body. *)
Definition api_error_new (kind : list Z) (message : list MsgPart) (param : option (list Z)) : ApiErrorBody :=
  MkErrorBody message kind param None.

Definition request_timeout_error : ApiErrorBody :=
  let error := api_error_new (utf8 "request_timeout_error") [Lit (utf8 "request exceeded the configured lifetime")] None in
  MkErrorBody (ae_message error) (ae_kind error) (ae_param error) (Some (utf8 "request_timeout")).

(** A response: a status with an error body ([api_error]), or a completion. *)
Inductive Response : Type :=
| RespError (status : Z) (error : ApiErrorBody)
| RespCompletion (c : ChatCompletion).
Definition api_error (status : Z) (kind : list Z) (message : list MsgPart) (param : option (list Z)) : Response :=
  RespError status (api_error_new kind message param).

(** The calls of a body on the shared metrics. *)
Inductive MetricCall : Type := ObserveFirstToken | TokensOut.

(** * Log-probabilities *)

Fixpoint map_res {E A B} (f : A -> res E B) (l : list A) : res E (list B) :=
  match l with
  | [] => Ok []
  | x :: l => let* y := f x in let* ys := map_res f l in Ok (y :: ys)
  end.

Section respond.
Context {T : Type} `{Tok : Tokenizer T} {E : Type}.

Definition piece (tok : T) (id : Z) : res E (list Z) := unwrap_or_default (decode tok [id]).

Definition top_logprob (tok : T) (alt : Z * f32) : res E TopLogprob :=
  let* atext := piece tok (fst alt) in
  Ok (MkTop atext (snd alt) atext).

Definition token_logprob (tok : T) (row : LogprobRow) : res E (option TokenLogprob) :=
  match row with
  | [] => Ok None
  | (t, lp) :: alts =>
      let* text := piece tok t in
      let* top := map_res (top_logprob tok) alts in
      Ok (Some (MkTokenLogprob text lp text top))
  end.

Definition render_logprobs (rows : list LogprobRow) (tok : T) : res E ChoiceLogprobs :=
  let* content := map_res (token_logprob tok) rows in
  Ok (MkLogprobs (omap id content)).

(** * The non-streaming body *)

Record Buffered : Type := MkBuffered {
  bf_detok : IncrementalDetok T; bf_matcher : StopMatcher; bf_text : list Z;
  bf_completion_tokens : Z; bf_rows : list LogprobRow; bf_calls : list MetricCall
}.

(** The end of the loop: the state with the finish reason, or the message of an [Error]. *)
Inductive BufferedEnd : Type :=
| BufferedDone (s : Buffered) (fr : FinishReason)
| BufferedError (message : list Z).

Definition buffered_token (eos : Z) (s : Buffered) (t : Z) (lp : option LogprobRow) : res E (Buffered * bool) :=
  let* s :=
    (if negb (t =? eos) then
       let* n := add_usize (bf_completion_tokens s) 1 in
       Ok (MkBuffered (bf_detok s) (bf_matcher s) (bf_text s) n
             (bf_rows s ++ match lp with Some lp => [lp] | None => [] end)
             (bf_calls s ++ [ObserveFirstToken; TokensOut]))
     else Ok s) in
  let* (piece, detok) := detok_push (bf_detok s) t in
  match piece with
  | [] => Ok (MkBuffered detok (bf_matcher s) (bf_text s) (bf_completion_tokens s) (bf_rows s) (bf_calls s), false)
  | _ =>
      let* ((emit, hit), matcher) := matcher_feed (bf_matcher s) piece in
      Ok (MkBuffered detok matcher (bf_text s ++ emit) (bf_completion_tokens s) (bf_rows s) (bf_calls s), hit)
  end.

Fixpoint buffered_loop (eos : Z) (s : Buffered) (rx : list GenEvent) : res E BufferedEnd :=
  match rx with
  | [] => Ok (BufferedDone s Stop)
  | EvToken t lp :: rx =>
      let* (s, hit) := buffered_token eos s t lp in
      if (hit : bool) then Ok (BufferedDone s Stop) else buffered_loop eos s rx
  | EvDone reason :: _ =>
      let (tail, matcher) := matcher_flush (bf_matcher s) in
      Ok (BufferedDone (MkBuffered (bf_detok s) matcher (bf_text s ++ tail) (bf_completion_tokens s) (bf_rows s) (bf_calls s)) reason)
  | EvError e :: _ => Ok (BufferedError e)
  end.

(** [id] and [created] are the answers of [make_id] and [now_secs]. *)
Definition nonstream_response (rx : list GenEvent) (tok : T) (model : list Z) (prompt_len : Z)
    (stops : list (list Z)) (id : list Z) (created : Z) : res E Response :=
  let* fin := buffered_loop (eos tok) (MkBuffered (detok_new tok) (matcher_new stops) [] 0 [] []) rx in
  match fin with
  | BufferedError e => Ok (api_error 500 (utf8 "server_error") [Lit e] None)
  | BufferedDone s fr =>
      let* logprobs :=
        (if negb (bool_decide (bf_rows s = [])) then
           let* l := render_logprobs (bf_rows s) tok in Ok (Some l)
         else Ok None) in
      let* total := add_usize prompt_len (bf_completion_tokens s) in
      Ok (RespCompletion (MkCompletion id (utf8 "chat.completion") created model
            [MkChoice 0 (MkMessage (utf8 "assistant") (bf_text s)) (finish_str fr) logprobs]
            (MkUsage prompt_len (bf_completion_tokens s) total)))
  end.

(** * The streaming body *)

(** What a receive of the stream answers; the end of the list is a closed channel. *)
Inductive Recv : Type := Received (ev : GenEvent) | Expired.

Inductive SseData : Type :=
| DataChunk (c : ChatChunk)
| DataError (e : ApiErrorBody)
| DataDone.

Record Streaming : Type := MkStreaming {
  sg_detok : IncrementalDetok T; sg_matcher : StopMatcher; sg_completion_tokens : Z;
  sg_pending : list LogprobRow; sg_out : list SseData; sg_calls : list MetricCall
}.

(** How the loop ended. *)
Inductive StreamEnd : Type :=
| StoppedByString
| Finished (fr : FinishReason)
| Errored
| TimedOut.

(** [chunk.choices[0].logprobs = Some(..)]. *)
Definition set_logprobs (chunk : ChatChunk) (lp : ChoiceLogprobs) : res E ChatChunk :=
  match ck_choices chunk with
  | [] => Panic
  | c :: cs =>
      Ok (MkChunk (ck_id chunk) (ck_object chunk) (ck_created chunk) (ck_model chunk)
            (MkChunkChoice (cc_index c) (cc_delta c) (cc_finish_reason c) (Some lp) :: cs) (ck_usage chunk))
  end.

(** A content chunk that carries the pending rows, if any. *)
Definition chunk_with_rows (tok : T) (chunk : ChatChunk) (pending : list LogprobRow) : res E ChatChunk :=
  if negb (bool_decide (pending = [])) then
    let* lp := render_logprobs pending tok in set_logprobs chunk lp
  else Ok chunk.

Definition stream_token (tok : T) (id : list Z) (created : Z) (model : list Z)
    (s : Streaming) (t : Z) (lp : option LogprobRow) : res E (Streaming * bool) :=
  let* s :=
    (if negb (t =? eos tok) then
       let* n := add_usize (sg_completion_tokens s) 1 in
       Ok (MkStreaming (sg_detok s) (sg_matcher s) n
             (sg_pending s ++ match lp with Some lp => [lp] | None => [] end) (sg_out s)
             (sg_calls s ++ [ObserveFirstToken; TokensOut]))
     else Ok s) in
  let* (text, detok) := detok_push (sg_detok s) t in
  match text with
  | [] => Ok (MkStreaming detok (sg_matcher s) (sg_completion_tokens s) (sg_pending s) (sg_out s) (sg_calls s), false)
  | _ =>
      let* ((emit, hit), matcher) := matcher_feed (sg_matcher s) text in
      match emit with
      | [] => Ok (MkStreaming detok matcher (sg_completion_tokens s) (sg_pending s) (sg_out s) (sg_calls s), hit)
      | _ =>
          let* chunk := chunk_with_rows tok (content_chunk id created model emit) (sg_pending s) in
          Ok (MkStreaming detok matcher (sg_completion_tokens s) [] (sg_out s ++ [DataChunk chunk]) (sg_calls s), hit)
      end
  end.

Fixpoint stream_loop (tok : T) (id : list Z) (created : Z) (model : list Z)
    (s : Streaming) (rx : list Recv) : res E (Streaming * StreamEnd) :=
  match rx with
  | [] => Ok (s, Finished Stop)
  | Expired :: _ => Ok (s, TimedOut)
  | Received (EvToken t lp) :: rx =>
      let* (s, hit) := stream_token tok id created model s t lp in
      if (hit : bool) then Ok (s, StoppedByString) else stream_loop tok id created model s rx
  | Received (EvDone fr) :: _ => Ok (s, Finished fr)
  | Received (EvError _) :: _ => Ok (s, Errored)
  end.

(** The held tail, and the rows no chunk has carried. *)
Definition stream_tail (tok : T) (id : list Z) (created : Z) (model : list Z) (s : Streaming) : res E Streaming :=
  let (tail, matcher) := matcher_flush (sg_matcher s) in
  match tail with
  | [] => Ok (MkStreaming (sg_detok s) matcher (sg_completion_tokens s) (sg_pending s) (sg_out s) (sg_calls s))
  | _ =>
      let* chunk := chunk_with_rows tok (content_chunk id created model tail) (sg_pending s) in
      Ok (MkStreaming (sg_detok s) matcher (sg_completion_tokens s) [] (sg_out s ++ [DataChunk chunk]) (sg_calls s))
  end.

Definition stream_close (tok : T) (id : list Z) (created : Z) (model : list Z) (usage_prompt_len : option Z)
    (s : Streaming) (finish : FinishReason) : res E (list SseData) :=
  let* rows :=
    (if negb (bool_decide (sg_pending s = [])) then
       let* lp := render_logprobs (sg_pending s) tok in
       let* chunk := set_logprobs (content_chunk id created model []) lp in Ok [DataChunk chunk]
     else Ok []) in
  let* usage :=
    match usage_prompt_len with
    | Some prompt_tokens =>
        let* c := usage_chunk id created model prompt_tokens (sg_completion_tokens s) in Ok [DataChunk c]
    | None => Ok []
    end in
  Ok (sg_out s ++ rows ++ [DataChunk (terminal_chunk id created model finish)] ++ usage ++ [DataDone]).

Definition stream_response (rx : list Recv) (tok : T) (model : list Z) (stops : list (list Z))
    (usage_prompt_len : option Z) (id : list Z) (created : Z) : res E (list SseData) :=
  let* (s, fin) := stream_loop tok id created model
    (MkStreaming (detok_new tok) (matcher_new stops) 0 [] [DataChunk (role_chunk id created model)] []) rx in
  match fin with
  | TimedOut => Ok (sg_out s ++ [DataError request_timeout_error; DataDone])
  | Errored => Ok (sg_out s ++ [DataChunk (error_chunk id created model); DataDone])
  | StoppedByString => stream_close tok id created model usage_prompt_len s Stop
  | Finished fr =>
      let* s := stream_tail tok id created model s in
      stream_close tok id created model usage_prompt_len s fr
  end.
End respond.

(** * What a client reads from a stream *)

Definition choices_of (d : SseData) : list ChunkChoice := match d with DataChunk c => ck_choices c | _ => [] end.
Definition stream_choices (ds : list SseData) : list ChunkChoice := concat (choices_of <$> ds).
Definition stream_text (ds : list SseData) : list Z :=
  concat ((fun c => default [] (d_content (cc_delta c))) <$> stream_choices ds).
Definition stream_rows (ds : list SseData) : list TokenLogprob :=
  concat ((fun c => match cc_logprobs c with Some l => lp_content l | None => [] end) <$> stream_choices ds).
Definition stream_finish (ds : list SseData) : list (list Z) := omap cc_finish_reason (stream_choices ds).
Definition stream_usage (ds : list SseData) : list Usage :=
  omap (fun d => match d with DataChunk c => ck_usage c | _ => None end) ds.

Lemma stream_choices_app a b : stream_choices (a ++ b) = stream_choices a ++ stream_choices b.
Proof. unfold stream_choices. by rewrite fmap_app, concat_app. Qed.
Lemma stream_text_app a b : stream_text (a ++ b) = stream_text a ++ stream_text b.
Proof. unfold stream_text. by rewrite stream_choices_app, fmap_app, concat_app. Qed.
Lemma stream_rows_app a b : stream_rows (a ++ b) = stream_rows a ++ stream_rows b.
Proof. unfold stream_rows. by rewrite stream_choices_app, fmap_app, concat_app. Qed.
Lemma stream_finish_app a b : stream_finish (a ++ b) = stream_finish a ++ stream_finish b.
Proof. unfold stream_finish. by rewrite stream_choices_app, omap_app. Qed.
Lemma stream_usage_app a b : stream_usage (a ++ b) = stream_usage a ++ stream_usage b.
Proof. apply omap_app. Qed.
Create Rewrite HintDb stream.
#[export] Hint Rewrite stream_text_app stream_rows_app stream_finish_app stream_usage_app @app_nil_r : stream.

(** The two bodies agree: same text, finish reason, log-probabilities and, where asked
    for, usage; a failed generation ends its stream with the reason "error". *)
Definition bodies_agree (resp : Response) (include_usage : bool) (ds : list SseData) : Prop :=
  (exists init, ds = init ++ [DataDone]) /\
  match resp with
  | RespCompletion c =>
      exists ch, co_choices c = [ch] /\ stream_text ds = cm_content (ch_message ch) /\
        stream_finish ds = [ch_finish_reason ch] /\
        stream_rows ds = match ch_logprobs ch with Some l => lp_content l | None => [] end /\
        stream_usage ds = if include_usage then [co_usage c] else []
  | RespError status _ => status = 500 /\ stream_finish ds = [utf8 "error"] /\ stream_usage ds = []
  end.

Section agreement.
Context {T : Type} `{Tok : Tokenizer T} {E : Type} (tok : T) (stops : list (list Z)).
Context (id : list Z) (created : Z) (model : list Z).
(** A tokenizer may fail but does not panic; stop sequences are non-empty strings. *)
Hypothesis decode_returns : forall ts, returns (decode tok ts).
Hypothesis stops_valid : Forall (fun s => utf8_valid s = true /\ s <> []) stops.

Definition text_or_empty (ts : list Z) : list Z := match decode tok ts with Ok s => s | _ => [] end.

Lemma decode_or_empty {F} ts : unwrap_or_default (F := F) (decode tok ts) = Ok (text_or_empty ts).
Proof. unfold text_or_empty. pose proof (decode_returns ts) as Hr. by destruct (decode tok ts). Qed.

Definition row_logprob (row : LogprobRow) : option TokenLogprob :=
  match row with
  | [] => None
  | (t, lp) :: alts =>
      Some (MkTokenLogprob (text_or_empty [t]) lp (text_or_empty [t])
              ((fun alt => MkTop (text_or_empty [fst alt]) (snd alt) (text_or_empty [fst alt])) <$> alts))
  end.

Lemma map_res_Ok {F A B} (f : A -> res F B) g l : (forall x, f x = Ok (g x)) -> map_res f l = Ok (g <$> l).
Proof. intros Hf. induction l as [|x l IH]; [done|]. cbn [map_res]. by rewrite Hf, IH. Qed.

Lemma render_logprobs_Ok rows : render_logprobs (E := E) rows tok = Ok (MkLogprobs (omap row_logprob rows)).
Proof.
  unfold render_logprobs. rewrite (map_res_Ok _ row_logprob).
  - cbn [bind]. do 2 f_equal. induction rows as [|r rows IH]; [done|]. cbn. destruct (row_logprob r); cbn; by rewrite IH.
  - intros [|[t lp] alts]; [done|]. unfold token_logprob, piece. rewrite decode_or_empty. cbn [bind].
    rewrite (map_res_Ok _ (fun alt => MkTop (text_or_empty [fst alt]) (snd alt) (text_or_empty [fst alt]))); [done|].
    intros [alt alp]. unfold top_logprob, piece. by rewrite decode_or_empty.
Qed.

(** A content chunk, and what a client reads from it. *)
Lemma chunk_with_rows_Ok content pending : exists c,
  chunk_with_rows (E := E) tok (content_chunk id created model content) pending = Ok c /\
  stream_text [DataChunk c] = content /\ stream_rows [DataChunk c] = omap row_logprob pending /\
  stream_finish [DataChunk c] = [] /\ stream_usage [DataChunk c] = [].
Proof.
  unfold chunk_with_rows. destruct pending as [|row pending].
  - eexists. split; [done|]. unfold stream_text. cbn. by rewrite app_nil_r.
  - rewrite bool_decide_eq_false_2 by done. cbn [negb]. rewrite render_logprobs_Ok. cbn [bind]. eexists. split; [done|].
    unfold stream_text, stream_rows. cbn [stream_choices fmap list_fmap concat choices_of ck_choices app content_chunk
      cc_delta d_content default cc_logprobs lp_content]. by rewrite !app_nil_r.
Qed.

(** * Both loops in step *)

Record in_step (b : Buffered) (s : Streaming) : Prop := {
  is_detok : sg_detok s = bf_detok b;
  is_tok : dt_tok (bf_detok b) = tok;
  is_emitted : 0 <= dt_emitted_bytes (bf_detok b);
  is_matcher : sg_matcher s = bf_matcher b;
  is_stops : sm_stops (bf_matcher b) = stops;
  is_tokens : sg_completion_tokens s = bf_completion_tokens b;
  is_calls : sg_calls s = bf_calls b;
  is_text : stream_text (sg_out s) = bf_text b;
  is_rows : omap row_logprob (bf_rows b) = stream_rows (sg_out s) ++ omap row_logprob (sg_pending s);
  is_quiet : stream_finish (sg_out s) = [] /\ stream_usage (sg_out s) = []
}.

Lemma detok_push_returns d t : dt_tok d = tok -> 0 <= dt_emitted_bytes d ->
  exists u d', detok_push (E := E) d t = Ok (u, d') /\ dt_tok d' = tok /\ 0 <= dt_emitted_bytes d'.
Proof.
  intros Htok Hem. unfold detok_push. destruct (t =? dt_eos d); [by exists [], d|].
  rewrite Htok, decode_or_empty. cbn [bind]. set (full := text_or_empty _).
  destruct (floor_char_boundary_spec full (dt_emitted_bytes d) Hem) as (Hb & Hr & _).
  rewrite str_slice_Ok by (done || apply boundary_len || lia). cbn [bind].
  do 2 eexists. split; [done|]. split; [done|apply zlen_nonneg].
Qed.

Lemma matcher_feed_returns m t : sm_stops m = stops ->
  exists emit hit m', matcher_feed (E := E) m t = Ok ((emit, hit), m') /\ sm_stops m' = stops.
Proof.
  intros Hs. unfold matcher_feed. rewrite Hs. fold (first_stop stops (sm_buffer m ++ t)).
  pose proof (first_stop_spec stops (sm_buffer m ++ t)) as Hsp. destruct (first_stop _ _) as [pos|].
  - destruct Hsp as [(s & Hin & Ho) _]. eapply list.Forall_forall in stops_valid as [Hv Hne]; [|exact Hin].
    pose proof (occurs_boundary _ _ _ Hv Hne Ho) as Hb. pose proof (boundary_range _ _ Hb).
    rewrite str_slice_Ok by (done || lia). by do 3 eexists.
  - unfold saturating_sub. destruct (_ <? _) eqn:Hc; [|by do 3 eexists].
    destruct (floor_char_boundary_spec (sm_buffer m ++ t) (zlen (sm_buffer m ++ t) - Z.max (sm_max_len m - 1) 0)) as (Hb & Hr & _); [lia|].
    rewrite !str_slice_Ok by (done || apply boundary_len || lia). by do 3 eexists.
Qed.

Lemma in_step_detok b s d' : in_step b s -> dt_tok d' = tok -> 0 <= dt_emitted_bytes d' ->
  in_step (MkBuffered d' (bf_matcher b) (bf_text b) (bf_completion_tokens b) (bf_rows b) (bf_calls b))
    (MkStreaming d' (sg_matcher s) (sg_completion_tokens s) (sg_pending s) (sg_out s) (sg_calls s)).
Proof. intros [] ? ?. by split. Qed.

(** Text leaves the matcher: the buffered body appends it, the stream sends it with the
    pending rows, unless it is empty. *)
Lemma in_step_emit b s m d emit : in_step b s -> sm_stops m = stops -> dt_tok d = tok -> 0 <= dt_emitted_bytes d ->
  exists s', match emit with
    | [] => Ok (MkStreaming d m (sg_completion_tokens s) (sg_pending s) (sg_out s) (sg_calls s))
    | _ => let* chunk := chunk_with_rows (E := E) tok (content_chunk id created model emit) (sg_pending s) in
           Ok (MkStreaming d m (sg_completion_tokens s) [] (sg_out s ++ [DataChunk chunk]) (sg_calls s))
    end = Ok s' /\
    in_step (MkBuffered d m (bf_text b ++ emit) (bf_completion_tokens b) (bf_rows b) (bf_calls b)) s'.
Proof.
  intros [Hd _ _ _ _ Ht Hc Htext Hrows [Hf Hu]] Hm Htok Hem. destruct emit as [|x emit].
  { eexists. split; [done|]. rewrite app_nil_r. by split. }
  destruct (chunk_with_rows_Ok (x :: emit) (sg_pending s)) as (c & -> & Hct & Hcr & Hcf & Hcu). cbn [bind].
  eexists. split; [done|].
  split; cbn [sg_detok sg_matcher sg_completion_tokens sg_pending sg_out sg_calls bf_detok bf_matcher bf_text
    bf_completion_tokens bf_rows bf_calls]; try done.
  - by rewrite stream_text_app, Hct, Htext.
  - by rewrite stream_rows_app, Hcr, Hrows, app_nil_r.
  - by rewrite stream_finish_app, stream_usage_app, Hcf, Hcu, Hf, Hu.
Qed.

Lemma token_in_step b s t lp : in_step b s -> bf_completion_tokens b < usize_max ->
  exists b' s' hit, buffered_token (E := E) (eos tok) b t lp = Ok (b', hit) /\
    stream_token (E := E) tok id created model s t lp = Ok (s', hit) /\ in_step b' s' /\
    bf_completion_tokens b' <= bf_completion_tokens b + 1.
Proof.
  intros Hst Hlim. unfold buffered_token, stream_token. rewrite (is_tokens _ _ Hst).
  set (b1 := if negb (t =? eos tok) then
    MkBuffered (bf_detok b) (bf_matcher b) (bf_text b) (bf_completion_tokens b + 1)
      (bf_rows b ++ match lp with Some lp => [lp] | None => [] end) (bf_calls b ++ [ObserveFirstToken; TokensOut]) else b).
  set (s1 := if negb (t =? eos tok) then
    MkStreaming (sg_detok s) (sg_matcher s) (bf_completion_tokens b + 1)
      (sg_pending s ++ match lp with Some lp => [lp] | None => [] end) (sg_out s) (sg_calls s ++ [ObserveFirstToken; TokensOut]) else s).
  assert (Hst1 : in_step b1 s1).
  { unfold b1, s1. destruct (negb _); [|done]. destruct Hst as [Hd Htok Hem Hm Hs Ht Hc Htext Hrows Hq].
    split; cbn; try done; [by rewrite Hc|]. by rewrite !omap_app, Hrows, (assoc_L (++)). }
  assert (Hb1 : bf_completion_tokens b1 <= bf_completion_tokens b + 1) by (unfold b1; destruct (negb _); simpl; lia).
  rewrite add_usize_Ok by lia. cbn [bind].
  replace (if negb (t =? eos tok) then Ok _ else Ok b) with (Ok (E := E) b1) by (unfold b1; by destruct (negb _)).
  replace (if negb (t =? eos tok) then Ok _ else Ok s) with (Ok (E := E) s1) by (unfold s1; by destruct (negb _)).
  cbn [bind]. rewrite (is_detok _ _ Hst1).
  destruct (detok_push_returns (bf_detok b1) t (is_tok _ _ Hst1) (is_emitted _ _ Hst1)) as (u & d' & -> & Htok & Hem).
  cbn [bind]. destruct u as [|x u].
  { do 3 eexists. split; [done|]. split; [done|]. split; [|done]. by apply (in_step_detok b1 s1 d'). }
  rewrite (is_matcher _ _ Hst1).
  destruct (matcher_feed_returns (bf_matcher b1) (x :: u) (is_stops _ _ Hst1)) as (emit & hit & m' & -> & Hm'). cbn [bind].
  destruct (in_step_emit b1 s1 m' d' emit Hst1 Hm' Htok Hem) as (s' & Hs' & Hst').
  do 3 eexists. split; [done|]. split; [|split; [exact Hst'|done]].
  destruct emit; [by injection Hs' as ->|]. apply bind_Ok_inv in Hs' as (c & -> & [= <-]). done.
Qed.

Definition flushed (b : Buffered (T := T)) : Buffered (T := T) :=
  let (tail, matcher) := matcher_flush (bf_matcher b) in
  MkBuffered (bf_detok b) matcher (bf_text b ++ tail) (bf_completion_tokens b) (bf_rows b) (bf_calls b).

Definition is_end (ev : GenEvent) : bool := match ev with EvToken _ _ => false | _ => true end.

(** How the two loops end on the same events: in step, but for the held text, which the
    buffered body flushes on [Done] and the stream on every clean end. *)
Definition ends_in_step (evs : list GenEvent) (n : Z) (fin : BufferedEnd) (s : Streaming) (e : StreamEnd) : Prop :=
  exists b, in_step b s /\ bf_completion_tokens b <= n /\
  match e with
  | StoppedByString => fin = BufferedDone b Stop
  | Finished fr => fin = BufferedDone (if existsb is_end evs then flushed b else b) fr /\ (existsb is_end evs = false -> fr = Stop)
  | Errored => exists m, fin = BufferedError m
  | TimedOut => False
  end.

Lemma loops_in_step evs : forall b s, in_step b s -> bf_completion_tokens b + zlen evs <= usize_max ->
  exists fin s' e, buffered_loop (E := E) (eos tok) b evs = Ok fin /\
    stream_loop (E := E) tok id created model s (Received <$> evs) = Ok (s', e) /\
    ends_in_step evs (bf_completion_tokens b + zlen evs) fin s' e.
Proof.
  induction evs as [|ev evs IH]; intros b s Hst Hlim.
  { exists (BufferedDone b Stop), s, (Finished Stop). split; [done|]. split; [done|]. exists b. split; [done|]. split; [zl|done]. }
  rewrite zlen_cons in Hlim. pose proof (zlen_nonneg evs). destruct ev as [t lp|fr|m]; cbn [fmap list_fmap buffered_loop stream_loop].
  - destruct (token_in_step b s t lp Hst) as (b' & s' & hit & -> & -> & Hst' & Hn); [lia|]. cbn [bind]. destruct hit.
    + do 3 eexists. split; [done|]. split; [done|]. exists b'. split; [done|]. split; [zlia|done].
    + destruct (IH b' s' Hst') as (fin & s'' & e & -> & -> & b'' & Hst'' & Hn'' & Hend); [lia|].
      do 3 eexists. split; [done|]. split; [done|]. exists b''. split; [done|]. split; [zlia|done].
  - do 3 eexists. split; [done|]. split; [done|]. exists b. split; [done|]. split; [zlia|done].
  - do 3 eexists. split; [done|]. split; [done|]. exists b. split; [done|]. split; [zlia|by eexists].
Qed.

(** The tail of a stream is the flush of the buffered body. *)
Lemma stream_tail_in_step b s : in_step b s ->
  exists s', stream_tail (E := E) tok id created model s = Ok s' /\ in_step (flushed b) s'.
Proof.
  intros Hst. unfold stream_tail, flushed. rewrite (is_matcher _ _ Hst), (is_detok _ _ Hst). cbn [matcher_flush].
  destruct (in_step_emit b s (MkMatcher (sm_stops (bf_matcher b)) (sm_max_len (bf_matcher b)) []) (bf_detok b)
    (sm_buffer (bf_matcher b)) Hst (is_stops _ _ Hst) (is_tok _ _ Hst) (is_emitted _ _ Hst)) as (s' & Hs' & Hst').
  exists s'. by split.
Qed.

(** The completion the buffered body answers, and the end of the stream in step with it. *)
Lemma stream_close_agrees b s fr prompt_len (include_usage : bool) : in_step b s ->
  prompt_len + bf_completion_tokens b <= usize_max ->
  exists ds, stream_close (E := E) tok id created model (if include_usage then Some prompt_len else None) s fr = Ok ds /\
    bodies_agree (RespCompletion (MkCompletion id (utf8 "chat.completion") created model
      [MkChoice 0 (MkMessage (utf8 "assistant") (bf_text b)) (finish_str fr)
         (if bool_decide (bf_rows b = []) then None else Some (MkLogprobs (omap row_logprob (bf_rows b))))]
      (MkUsage prompt_len (bf_completion_tokens b) (prompt_len + bf_completion_tokens b)))) include_usage ds.
Proof.
  intros [_ _ _ _ _ Ht _ Htext Hrows [Hf Hu]] Hlim. unfold stream_close.
  assert (Hpend : exists rows, (if negb (bool_decide (sg_pending s = [])) then
      let* lp := render_logprobs (E := E) (sg_pending s) tok in
      let* chunk := set_logprobs (content_chunk id created model []) lp in Ok [DataChunk chunk] else Ok []) = Ok rows /\
    stream_text rows = [] /\ stream_rows rows = omap row_logprob (sg_pending s) /\ stream_finish rows = [] /\ stream_usage rows = []).
  { destruct (sg_pending s) as [|r p] eqn:Hp; [by exists []|]. rewrite bool_decide_eq_false_2 by done. cbn [negb].
    destruct (chunk_with_rows_Ok [] (r :: p)) as (c & Hc & Hct). unfold chunk_with_rows in Hc.
    rewrite bool_decide_eq_false_2 in Hc by done. cbn [negb] in Hc. apply bind_Ok_inv in Hc as (lp & -> & Hc). cbn [bind].
    rewrite Hc. by eexists. }
  destruct Hpend as (rows & -> & Rt & Rr & Rf & Ru). cbn [bind].
  assert (Husage : exists us, (match (if include_usage then Some prompt_len else None) with
      | Some p => let* c := usage_chunk (E := E) id created model p (sg_completion_tokens s) in Ok [DataChunk c]
      | None => Ok [] end) = Ok us /\ stream_text us = [] /\ stream_rows us = [] /\ stream_finish us = [] /\
      stream_usage us = if include_usage then [MkUsage prompt_len (bf_completion_tokens b) (prompt_len + bf_completion_tokens b)] else []).
  { destruct include_usage; [|by exists []]. unfold usage_chunk. rewrite Ht, add_usize_Ok by done. by eexists. }
  destruct Husage as (us & -> & Ut & Ur & Uf & Uu). cbn [bind]. eexists. split; [done|].
  split; [eexists; by rewrite !(assoc_L (++))|].
  eexists. split; [done|]. cbn [cm_content ch_message ch_finish_reason ch_logprobs co_usage].
  autorewrite with stream. rewrite Htext, Hf, Hu, Rt, Rr, Rf, Ru, Ut, Ur, Uf, Uu. cbn. rewrite ?app_nil_r. split; [done|].
  split; [done|]. split; [|done].
  rewrite <- Hrows. destruct (bf_rows b); [done|]. by rewrite bool_decide_eq_false_2.
Qed.

Lemma in_step_new : in_step (MkBuffered (detok_new tok) (matcher_new stops) [] 0 [] [])
  (MkStreaming (detok_new tok) (matcher_new stops) 0 [] [DataChunk (role_chunk id created model)] []).
Proof. by split. Qed.

(** The completion of a buffered state. *)
Definition completion_of (b : Buffered (T := T)) (fr : FinishReason) (prompt_len : Z) : ChatCompletion :=
  MkCompletion id (utf8 "chat.completion") created model
    [MkChoice 0 (MkMessage (utf8 "assistant") (bf_text b)) (finish_str fr)
       (if bool_decide (bf_rows b = []) then None else Some (MkLogprobs (omap row_logprob (bf_rows b))))]
    (MkUsage prompt_len (bf_completion_tokens b) (prompt_len + bf_completion_tokens b)).

Lemma nonstream_completes evs b fr prompt_len :
  buffered_loop (E := E) (eos tok) (MkBuffered (detok_new tok) (matcher_new stops) [] 0 [] []) evs = Ok (BufferedDone b fr) ->
  prompt_len + bf_completion_tokens b <= usize_max ->
  nonstream_response (E := E) evs tok model prompt_len stops id created = Ok (RespCompletion (completion_of b fr prompt_len)).
Proof.
  intros Hloop Hlim. unfold nonstream_response, completion_of. rewrite Hloop. cbn [bind].
  destruct (bool_decide (bf_rows b = [])); cbn [negb]; [|rewrite render_logprobs_Ok; cbn [bind]]; by rewrite add_usize_Ok.
Qed.

(** For any tokenizer that does not panic, any non-empty stop sequences and any events that end
    with the worker's [Done] or [Error], both bodies return, and the stream carries the
    text, finish reason, log-probabilities and usage of the buffered completion, or ends
    with "error" where the buffered body answers 500. *)
Theorem stream_equals_buffered evs prompt_len (include_usage : bool) :
  existsb is_end evs = true -> 0 <= prompt_len -> prompt_len + zlen evs <= usize_max ->
  exists resp ds, nonstream_response (E := E) evs tok model prompt_len stops id created = Ok resp /\
    stream_response (E := E) (Received <$> evs) tok model stops (if include_usage then Some prompt_len else None) id created = Ok ds /\
    bodies_agree resp include_usage ds.
Proof.
  intros Hend Hp Hlim. destruct (loops_in_step evs _ _ in_step_new) as (fin & s & e & Hb & Hs & b & Hst & Hn & He); [simpl; lia|].
  simpl in Hn. unfold stream_response. rewrite Hs. cbn [bind]. rewrite Hend in He. destruct e as [|fr| |]; [..|done].
  - subst fin. destruct (stream_close_agrees b s Stop prompt_len include_usage Hst) as (ds & -> & Hag); [lia|].
    exists (RespCompletion (completion_of b Stop prompt_len)), ds. split; [apply nonstream_completes; [done|lia]|done].
  - destruct He as [-> _]. destruct (stream_tail_in_step b s Hst) as (s' & -> & Hst'). cbn [bind].
    destruct (stream_close_agrees (flushed b) s' fr prompt_len include_usage Hst') as (ds & -> & Hag); [cbn; lia|].
    exists (RespCompletion (completion_of (flushed b) fr prompt_len)), ds. split; [apply nonstream_completes; [done|cbn; lia]|done].
  - destruct He as [m ->]. destruct (is_quiet _ _ Hst) as [Hf Hu]. unfold nonstream_response. rewrite Hb. cbn [bind].
    do 2 eexists. split; [done|]. split; [done|]. split; [by eexists (_ ++ [_]); rewrite <- (assoc_L (++))|].
    autorewrite with stream. by rewrite Hf, Hu.
Qed.

(** A channel that closes without [Done] or [Error] is answered as a clean "stop" by both
    bodies. *)
Theorem closed_channel_is_stop evs prompt_len :
  existsb is_end evs = false -> 0 <= prompt_len -> prompt_len + zlen evs <= usize_max ->
  exists b ds, nonstream_response (E := E) evs tok model prompt_len stops id created
      = Ok (RespCompletion (completion_of b Stop prompt_len)) /\
    stream_response (E := E) (Received <$> evs) tok model stops None id created = Ok ds /\
    stream_finish ds = [utf8 "stop"].
Proof.
  intros Hend Hp Hlim. destruct (loops_in_step evs _ _ in_step_new) as (fin & s & e & Hb & Hs & b & Hst & Hn & He); [simpl; lia|].
  simpl in Hn. unfold stream_response. rewrite Hs. cbn [bind]. rewrite Hend in He. destruct e as [|fr| |]; [..|done].
  - subst fin. destruct (stream_close_agrees b s Stop prompt_len false Hst) as (ds & -> & _ & ch & [= <-] & _ & Hag & _); [lia|].
    exists b, ds. split; [apply nonstream_completes; [done|lia]|done].
  - destruct He as [-> Hfr]. rewrite (Hfr eq_refl) in *. destruct (stream_tail_in_step b s Hst) as (s' & -> & Hst'). cbn [bind].
    destruct (stream_close_agrees (flushed b) s' Stop prompt_len false Hst') as (ds & -> & _ & ch & [= <-] & _ & Hag & _); [cbn; lia|].
    exists b, ds. split; [apply nonstream_completes; [done|lia]|done].
  - destruct He as [m ->]. exfalso. revert Hend Hb. clear. generalize (MkBuffered (detok_new tok) (matcher_new stops) [] 0 [] []).
    induction evs as [|[t lp| |] evs IH]; intros b; cbn; try done. intros Hend Hl.
    apply bind_Ok_inv in Hl as ([b' hit] & _ & Hl). destruct hit; [done|]. by apply (IH b').
Qed.
End agreement.

(** Tokens 7, 8, 8, 9 and the stop sequence " 8": the stream sends "7" with the rows of
    the first two tokens. *)
Definition sample_events : list GenEvent :=
  [EvToken 7 (Some [(7, f32_zero); (3, f32_zero)]); EvToken 8 (Some [(8, f32_zero)]); EvToken 8 None; EvToken 9 None; EvDone Length].

Lemma stream_equals_buffered_witness :
  exists resp ds, nonstream_response (E := unit) sample_events passthrough_default (utf8 "m") 5 [utf8 " 8"] (utf8 "id") 1 = Ok resp /\
    stream_response (E := unit) (Received <$> sample_events) passthrough_default (utf8 "m") [utf8 " 8"] (Some 5) (utf8 "id") 1 = Ok ds /\
    bodies_agree resp true ds.
Proof.
  apply (stream_equals_buffered passthrough_default [utf8 " 8"] (utf8 "id") 1 (utf8 "m")) with (include_usage := true).
  - intros ts. cbn. by rewrite passthrough_decode_joined.
  - by repeat constructor.
  - done.
  - lia.
  - vm_compute. discriminate.
Defined.

(** Where the channel closes without [Done], the buffered body drops the held text that
    the stream sends. *)
Example closed_channel_differs :
  let evs := [EvToken 1 None; EvToken 2 None] in
  (exists c, nonstream_response (E := unit) evs passthrough_default (utf8 "m") 5 [utf8 "xyz"] (utf8 "id") 1 = Ok (RespCompletion c) /\
     (cm_content ∘ ch_message) <$> co_choices c = [utf8 "1"]) /\
  (exists ds, stream_response (E := unit) (Received <$> evs) passthrough_default (utf8 "m") [utf8 "xyz"] None (utf8 "id") 1 = Ok ds /\
     stream_text ds = utf8 "1 2").
Proof. split; by eexists. Qed.

(** * The text of a completion *)

Section text.
Context {T : Type} `{Tok : Tokenizer T} {E : Type} (tok : T) {SD : StreamDecoder T tok} (stops : list (list Z)).
Hypothesis decode_returns : forall ts, returns (decode tok ts).
Hypothesis stops_valid : Forall (fun s => utf8_valid s = true /\ s <> []) stops.





End text.

