(* ===== verification/Chat.v ===== *)
(** * Chat requests (crates/tritium-serve/src/router.rs, dto.rs and generator.rs)

    Prompt templates, request validation, the hand-over to the job queue and the choice of
    a response body. Validation is a computation whose error is the response it answers
    early; the queue is the bounded channel the worker receives from. Unicode case mapping
    is a class; tokenizers are those of Tokenizer. *)

From Stdlib Require Import ZArith Lia Bool String.
From stdpp Require Import base list numbers sets.
From S2P Require Import Prelude Text F32 Tokenizer Sse Respond.

#[local] Open Scope Z_scope.

(** * Templates *)

Inductive ChatTemplate : Type := Concat | RoleEot | QwenIm.

(** The case mappings of the Unicode tables: of one character and of a string. *)
Class UnicodeCase : Type := {
  char_to_uppercase : list Z -> list Z;
  str_to_lowercase : list Z -> list Z
}.

(** The bytes of the first character of a string. *)
Definition first_char_len (s : list Z) : Z :=
  match s with
  | [] => 0
  | b :: _ => if b <? 0x80 then 1 else if b <? 0xe0 then 2 else if b <? 0xf0 then 3 else 4
  end.

Definition join (sep : list Z) (parts : list (list Z)) : list Z :=
  match parts with
  | [] => []
  | p :: parts => p ++ concat ((fun q => sep ++ q) <$> parts)
  end.

Definition capitalize `{UnicodeCase} (role : list Z) : list Z :=
  match role with
  | [] => []
  | _ => char_to_uppercase (sub role 0 (first_char_len role)) ++
         str_to_lowercase (sub role (first_char_len role) (zlen role))
  end.

Definition template_render `{UnicodeCase} (self : ChatTemplate) (messages : list (list Z * list Z)) : list Z :=
  match self with
  | Concat => join [10] (snd <$> messages)
  | RoleEot =>
      concat ((fun m => capitalize (fst m) ++ utf8 ": " ++ trim (snd m) ++ utf8 "<|eot_id|>") <$> messages)
      ++ utf8 "Assistant: "
  | QwenIm =>
      concat ((fun m => utf8 "<|im_start|>" ++ fst m ++ [10] ++ trim (snd m) ++ utf8 "<|im_end|>" ++ [10]) <$> messages)
      ++ utf8 "<|im_start|>assistant" ++ [10]
  end.

(** * Requests *)

Inductive StopField : Type := One (s : list Z) | Many (v : list (list Z)).
Definition stop_into_vec (s : StopField) : list (list Z) := match s with One s => [s] | Many v => v end.

Record ChatRequest : Type := MkChatRequest {
  rq_model : list Z; rq_messages : list ChatMessage; rq_stream : bool;
  rq_stream_options : option bool;
  rq_logprobs : bool; rq_top_logprobs : option Z; rq_max_tokens : option Z;
  rq_temperature : f32; rq_top_p : option f32; rq_seed : option Z; rq_stop : option StopField
}.

Inductive Sampling : Type :=
| Greedy
| TopK (k : Z) (temp : f32) (seed : Z)
| TopP (p temp : f32) (seed : Z).

Record GenRequest : Type := MkGenRequest {
  g_prompt_tokens : list Z; g_max_new : Z; g_sampling : Sampling; g_stop_eos : bool; g_logprobs : option Z
}.

Definition lower_sampling (req : ChatRequest) : Sampling :=
  let seed := default 0x7A1C0DE5 (rq_seed req) in
  if f32_leb (rq_temperature req) f32_zero then Greedy
  else match rq_top_p req with
       | Some p => TopP p (rq_temperature req) seed
       | None => Greedy
       end.

(** * Server state *)

(** The flags a request reads; [rt_production] is [is_serving] of the production gate and
    [rt_max_context] the admitted context of the runner, where there is one. *)
Record RuntimeState : Type := MkRuntime {
  rt_draining : bool; rt_worker_alive : bool; rt_worker_ready : bool; rt_backend_faulted : bool;
  rt_release_failures : Z; rt_production : option bool; rt_max_context : option Z
}.

Record RequestLimits : Type := MkLimits {
  max_messages : Z; max_prompt_bytes : Z; max_prompt_tokens : Z; max_new_tokens : Z; max_total_tokens : Z
}.
Definition limits_default : RequestLimits := MkLimits 128 (1024 * 1024) (128 * 1024) 4096 (128 * 1024).

(** The bounded job channel. *)
Record JobQueue : Type := MkQueue { q_cap : Z; q_jobs : list GenRequest; q_closed : bool }.
Inductive TrySendError : Type := Full | Closed.
Definition try_send (q : JobQueue) (job : GenRequest) : res TrySendError JobQueue :=
  if q_closed q then Err Closed
  else if q_cap q <=? zlen (q_jobs q) then Err Full
  else Ok (MkQueue (q_cap q) (q_jobs q ++ [job]) (q_closed q)).

(** The counters of a chat request; atomics wrap. *)
Record ChatMetrics : Type := MkChatMetrics { m_chat_requests : Z; m_tokens_in : Z; m_queue_rejections : Z }.
Definition fetch_add (a b : Z) : Z := (a + b) mod 18446744073709551616.

Record AppState : Type := MkApp {
  st_jobs : JobQueue; st_model_id : list Z; st_runtime : RuntimeState; st_max_new_default : Z;
  st_limits : RequestLimits; st_template : ChatTemplate; st_metrics : ChatMetrics
}.

Definition request_ready (st : AppState) : bool :=
  let r := st_runtime st in
  rt_worker_alive r && rt_worker_ready r && negb (rt_backend_faulted r) && (rt_release_failures r =? 0) &&
  negb (rt_draining r) && match rt_production r with None => true | Some serving => serving end.

(** * Validation *)

Definition invalid (message param : list Z) : Response :=
  api_error 400 (utf8 "invalid_request_error") [Lit message] (Some param).

(** [json_rejection]: by the status the body extractor gives. *)
Definition json_rejection (status : Z) : Response :=
  let '(status, message) :=
    if status =? 413 then (413, utf8 "request body exceeds configured byte limit")
    else if status =? 415 then (415, utf8 "content-type must be application/json")
    else (400, utf8 "request body must be valid application/json") in
  api_error status (utf8 "invalid_request_error") [Lit message] None.

Definition prompt_bytes (messages : list ChatMessage) : option Z :=
  foldl (fun total m =>
    total ← total;
    t ← checked_add total (zlen (cm_role m));
    checked_add t (zlen (cm_content m))) (Some 0) messages.

Definition stops_of (req : ChatRequest) : list (list Z) :=
  default [] (stop_into_vec <$> rq_stop req).

Definition f32_one : f32 := f32_of_Z 1.
Definition f32_two : f32 := f32_of_Z 2.

(** The checks of the fields, in the order of the handler. *)
Definition check_fields (st : AppState) (req : ChatRequest) : res Response unit :=
  let lim := st_limits st in
  let* _ := ensure (negb (rt_draining (st_runtime st)))
    (api_error 503 (utf8 "server_error") [Lit (utf8 "server is draining")] None) in
  let* _ := ensure (request_ready st)
    (api_error 503 (utf8 "server_error") [Lit (utf8 "server is not ready")] None) in
  let* _ := ensure (negb (bool_decide (is_Some (rq_top_logprobs req)) && negb (rq_logprobs req)))
    (invalid (utf8 "top_logprobs requires logprobs: true") (utf8 "top_logprobs")) in
  let* _ := ensure (match rq_top_logprobs req with Some k => negb (20 <? k) | None => true end)
    (invalid (utf8 "top_logprobs must be in [0, 20]") (utf8 "top_logprobs")) in
  let* _ := ensure (negb (negb (rq_stream req) && bool_decide (is_Some (rq_stream_options req))))
    (invalid (utf8 "stream_options is only allowed when stream is true") (utf8 "stream_options")) in
  let* _ := ensure (negb (zlen (rq_messages req) =? 0))
    (invalid (utf8 "messages must not be empty") (utf8 "messages")) in
  let* _ := ensure (negb (max_messages lim <? zlen (rq_messages req)))
    (invalid (utf8 "messages supports at most " ++ to_string (max_messages lim) ++ utf8 " entries") (utf8 "messages")) in
  let* _ := ensure (match prompt_bytes (rq_messages req) with Some bytes => negb (max_prompt_bytes lim <? bytes) | None => false end)
    (invalid (utf8 "message roles and contents exceed the " ++ to_string (max_prompt_bytes lim) ++ utf8 " byte prompt limit")
       (utf8 "messages")) in
  let* _ := ensure (f32_leb f32_zero (rq_temperature req) && f32_leb (rq_temperature req) f32_two)
    (invalid (utf8 "temperature must be in [0, 2]") (utf8 "temperature")) in
  let* _ := ensure (negb (negb (bool_decide (rq_model req = utf8 "default")) && negb (bool_decide (rq_model req = st_model_id st))))
    (api_error 404 (utf8 "model_not_found") [Lit (utf8 "model "); Quoted (rq_model req); Lit (utf8 " not found")] (Some (utf8 "model"))) in
  let* _ := ensure (negb (4 <? zlen (stops_of req)))
    (invalid (utf8 "stop supports at most 4 sequences") (utf8 "stop")) in
  let* _ := ensure (negb (existsb (fun s => zlen s =? 0) (stops_of req)))
    (invalid (utf8 "stop sequences must be non-empty") (utf8 "stop")) in
  let* _ := ensure (match rq_top_p req with
                    | Some p => is_finite p && f32_ltb f32_zero p && f32_leb p f32_one
                    | None => true
                    end)
    (invalid (utf8 "top_p must be in (0, 1]") (utf8 "top_p")) in
  ensure (negb (bool_decide (rq_max_tokens req = Some 0)))
    (invalid (utf8 "max_tokens must be >= 1") (utf8 "max_tokens")).

Section chat.
Context {T : Type} `{Tok : Tokenizer T} `{UC : UnicodeCase}.

Definition tokenizer_error (e : tk_error) : Response :=
  api_error 400 (utf8 "invalid_request_error") (tk_display e) (Some (utf8 "messages")).

(** Rendering and tokenizing the prompt. *)
Definition prompt_of (st : AppState) (tok : T) (req : ChatRequest) : res Response (list Z) :=
  let messages := (fun m => (cm_role m, cm_content m)) <$> rq_messages req in
  let* rendered := map_err tokenizer_error (render_chat_prompt tok messages (max_prompt_bytes (st_limits st))) in
  let prompt_text := match rendered with Some prompt => prompt | None => template_render (st_template st) messages end in
  let* prompt_tokens := map_err tokenizer_error (encode tok prompt_text) in
  let* _ := ensure (negb (zlen prompt_tokens =? 0))
    (invalid (utf8 "prompt is empty after tokenization") (utf8 "messages")) in
  Ok prompt_tokens.

(** The token budgets of the request. *)
Definition check_budgets (st : AppState) (req : ChatRequest) (prompt_len : Z) : res Response Z :=
  let lim := st_limits st in
  let max_new := match rq_max_tokens req with Some m => m | None => st_max_new_default st end in
  let* _ := ensure (match rt_max_context (st_runtime st) with Some c => negb (c <? prompt_len) | None => true end)
    (invalid (utf8 "tokenized prompt exceeds admitted model context " ++ to_string (default 0 (rt_max_context (st_runtime st))))
       (utf8 "messages")) in
  let* _ := ensure (negb (max_prompt_tokens lim <? prompt_len))
    (invalid (utf8 "tokenized prompt exceeds the " ++ to_string (max_prompt_tokens lim) ++ utf8 " token limit") (utf8 "messages")) in
  let* _ := ensure (negb (max_new_tokens lim <? max_new))
    (invalid (utf8 "max_tokens exceeds the " ++ to_string (max_new_tokens lim) ++ utf8 " token completion limit") (utf8 "max_tokens")) in
  let* _ := ensure (match checked_add prompt_len max_new with Some tokens => negb (max_total_tokens lim <? tokens) | None => false end)
    (invalid (utf8 "prompt plus max_tokens exceeds the " ++ to_string (max_total_tokens lim) ++ utf8 " token request limit")
       (utf8 "max_tokens")) in
  Ok max_new.

Definition gen_request (st : AppState) (tok : T) (req : ChatRequest) : res Response GenRequest :=
  let* _ := check_fields st req in
  let* prompt_tokens := prompt_of st tok req in
  let* max_new := check_budgets st req (zlen prompt_tokens) in
  let logprobs_k := if rq_logprobs req then Some (default 0 (rq_top_logprobs req)) else None in
  Ok (MkGenRequest prompt_tokens max_new (lower_sampling req) true logprobs_k).

(** The answer to a request: an error response, with the seconds of a [Retry-After]
    header where there is one, or a body over the events of its job. *)
Inductive ChatOutcome : Type :=
| Reply (resp : Response) (retry_after : option Z)
| StreamBody (model : list Z) (stops : list (list Z)) (usage_prompt_len : option Z)
| BufferedBody (model : list Z) (prompt_len : Z) (stops : list (list Z)).

Definition set_jobs (st : AppState) (q : JobQueue) (m : ChatMetrics) : AppState :=
  MkApp q (st_model_id st) (st_runtime st) (st_max_new_default st) (st_limits st) (st_template st) m.

Definition chat_completions (st : AppState) (tok : T) (request : res Z ChatRequest) : res Empty_set (ChatOutcome * AppState) :=
  match request with
  | Err rejection => Ok (Reply (json_rejection rejection) None, st)
  | Panic => Panic
  | NoFuel => NoFuel
  | Ok req =>
      match gen_request st tok req with
      | Err resp => Ok (Reply resp None, st)
      | Panic => Panic
      | NoFuel => NoFuel
      | Ok job =>
          let prompt_len := zlen (g_prompt_tokens job) in
          let m := st_metrics st in
          match try_send (st_jobs st) job with
          | Ok jobs =>
              let st := set_jobs st jobs
                (MkChatMetrics (fetch_add (m_chat_requests m) 1) (fetch_add (m_tokens_in m) prompt_len) (m_queue_rejections m)) in
              if rq_stream req then
                let include_usage := default false (rq_stream_options req) in
                Ok (StreamBody (rq_model req) (stops_of req) (if include_usage then Some prompt_len else None), st)
              else Ok (BufferedBody (rq_model req) prompt_len (stops_of req), st)
          | Err Full =>
              Ok (Reply (api_error 429 (utf8 "rate_limit_exceeded") [Lit (utf8 "server is at capacity; retry shortly")] None) (Some 1),
                  set_jobs st (st_jobs st) (MkChatMetrics (m_chat_requests m) (m_tokens_in m) (fetch_add (m_queue_rejections m) 1)))
          | Err Closed =>
              Ok (Reply (api_error 503 (utf8 "server_error") [Lit (utf8 "server is shutting down")] None) None, st)
          | Panic => Panic
          | NoFuel => NoFuel
          end
      end
  end.
End chat.

(** * What an accepted request satisfies *)

Lemma ensure_inv {E} b (e : E) u : ensure b e = Ok u -> b = true.
Proof. by destruct b. Qed.

(** Undo the checks of a computation that returned. *)
Ltac checks H :=
  repeat match type of H with
  | bind (ensure _ _) _ = Ok _ =>
      let Hc := fresh "Hc" in apply bind_Ok_inv in H as (? & Hc%ensure_inv & H)
  end.

Record fields_ok (st : AppState) (req : ChatRequest) : Prop := {
  fo_ready : request_ready st = true;
  fo_messages : 1 <= zlen (rq_messages req) <= max_messages (st_limits st);
  fo_bytes : zsum ((fun m => zlen (cm_role m) + zlen (cm_content m)) <$> rq_messages req) <= max_prompt_bytes (st_limits st);
  fo_temperature : f32_leb f32_zero (rq_temperature req) = true /\ f32_leb (rq_temperature req) f32_two = true;
  fo_model : rq_model req = utf8 "default" \/ rq_model req = st_model_id st;
  fo_stops : zlen (stops_of req) <= 4 /\ Forall (fun s => s <> []) (stops_of req);
  fo_top_p : forall p, rq_top_p req = Some p -> is_finite p = true /\ f32_ltb f32_zero p = true /\ f32_leb p f32_one = true;
  fo_logprobs : forall k, rq_top_logprobs req = Some k -> rq_logprobs req = true /\ k <= 20;
  fo_stream_options : rq_stream req = false -> rq_stream_options req = None;
  fo_max_tokens : rq_max_tokens req <> Some 0
}.

Lemma prompt_bytes_sum messages total : prompt_bytes messages = Some total ->
  total = zsum ((fun m => zlen (cm_role m) + zlen (cm_content m)) <$> messages).
Proof.
  unfold prompt_bytes. assert (H : forall acc, foldl (fun total m =>
      total ← total; t ← checked_add total (zlen (cm_role m)); checked_add t (zlen (cm_content m))) (Some acc) messages = Some total ->
    total = acc + zsum ((fun m => zlen (cm_role m) + zlen (cm_content m)) <$> messages)); [|intros ?%H; lia].
  induction messages as [|m messages IH]; intros acc; cbn [foldl]; [intros [= ->]; simpl; lia|].
  cbn [mbind option_bind]. destruct (checked_add acc _) as [t|] eqn:H1; cbn [mbind option_bind].
  - destruct (checked_add t _) as [t'|] eqn:H2.
    + intros H%IH. apply checked_add_inv in H1, H2. rewrite fmap_cons. unfold zsum in *. cbn [foldr]. lia.
    + intros Hf. exfalso. clear -Hf. by induction messages.
  - intros Hf. exfalso. clear -Hf. by induction messages.
Qed.

Lemma check_fields_ok st req u : check_fields st req = Ok u -> fields_ok st req.
Proof.
  intros H. unfold check_fields in H. checks H. apply ensure_inv in H. pose proof (zlen_nonneg (rq_messages req)).
  split.
  - done.
  - lia.
  - destruct (prompt_bytes (rq_messages req)) as [n|] eqn:Hp; [|done]. apply prompt_bytes_sum in Hp. lia.
  - by apply andb_prop.
  - destruct (decide (rq_model req = utf8 "default")); [by left|right].
    rewrite bool_decide_eq_false_2 in * by done. destruct (decide (rq_model req = st_model_id st)); [done|].
    by rewrite bool_decide_eq_false_2 in * by done.
  - split; [lia|]. apply list.Forall_forall. intros s Hs ->.
    assert (existsb (fun s => zlen s =? 0) (stops_of req) = true) as Hx; [|by rewrite Hx in *].
    apply existsb_exists. exists []. split; [by apply list_elem_of_In|done].
  - intros p Hp. rewrite Hp in *. rewrite !andb_true_iff in *. naive_solver.
  - intros k Hk. rewrite Hk in *. rewrite bool_decide_eq_true_2 in * by done. destruct (rq_logprobs req); [|done]. split; [done|lia].
  - intros Hs. rewrite Hs in *. destruct (rq_stream_options req); [|done]. by rewrite bool_decide_eq_true_2 in * by done.
  - intros Hm. by rewrite bool_decide_eq_true_2 in H by done.
Qed.

Section accepted.
Context {T : Type} `{Tok : Tokenizer T} `{UC : UnicodeCase} (tok : T).

Definition max_new_of (st : AppState) (req : ChatRequest) : Z := default (st_max_new_default st) (rq_max_tokens req).

Lemma gen_request_inv st req job : gen_request st tok req = Ok job ->
  fields_ok st req /\ prompt_of st tok req = Ok (g_prompt_tokens job) /\
  1 <= zlen (g_prompt_tokens job) <= max_prompt_tokens (st_limits st) /\
  (forall c, rt_max_context (st_runtime st) = Some c -> zlen (g_prompt_tokens job) <= c) /\
  g_max_new job = max_new_of st req /\ g_max_new job <= max_new_tokens (st_limits st) /\
  zlen (g_prompt_tokens job) + g_max_new job <= Z.min (max_total_tokens (st_limits st)) usize_max /\
  g_sampling job = lower_sampling req /\ g_stop_eos job = true /\
  g_logprobs job = (if rq_logprobs req then Some (default 0 (rq_top_logprobs req)) else None).
Proof.
  unfold gen_request. intros H. apply bind_Ok_inv in H as (? & Hf%check_fields_ok & H).
  apply bind_Ok_inv in H as (prompt & Hp & H). apply bind_Ok_inv in H as (max_new & Hb & [= <-]).
  cbn [g_prompt_tokens g_max_new g_sampling g_stop_eos g_logprobs]. split; [done|]. split; [done|].
  unfold prompt_of in Hp. apply bind_Ok_inv in Hp as (? & _ & Hp). apply bind_Ok_inv in Hp as (toks & _ & Hp).
  checks Hp. injection Hp as ->. unfold check_budgets in Hb. checks Hb. injection Hb as <-.
  pose proof (zlen_nonneg prompt). unfold max_new_of.
  split; [lia|]. split; [intros c Hc'; rewrite Hc' in *; lia|].
  split; [by destruct (rq_max_tokens req)|]. split; [lia|]. split; [|done].
  destruct (checked_add _ _) as [n|] eqn:Hn; [|done]. apply checked_add_inv in Hn. lia.
Qed.

(** C30: a job that reaches the queue has a non-empty prompt within the prompt, context,
    completion and total limits, comes from a request within the message, byte, stop, sampling
    and log-probability limits, asks for at most 20 alternatives, and samples greedily or
    with a cutoff in (0, 1]. *)
Theorem queued_job_bounded st req job : gen_request st tok req = Ok job ->
  fields_ok st req /\
  1 <= zlen (g_prompt_tokens job) <= max_prompt_tokens (st_limits st) /\
  (forall c, rt_max_context (st_runtime st) = Some c -> zlen (g_prompt_tokens job) <= c) /\
  g_max_new job <= max_new_tokens (st_limits st) /\
  zlen (g_prompt_tokens job) + g_max_new job <= max_total_tokens (st_limits st) /\
  (forall k, g_logprobs job = Some k -> k <= 20) /\
  match g_sampling job with
  | Greedy => True
  | TopK _ _ _ => False
  | TopP p temp _ => f32_ltb f32_zero p = true /\ f32_leb p f32_one = true /\ f32_leb temp f32_two = true
  end.
Proof.
  intros H%gen_request_inv. destruct H as (Hf & _ & Hlen & Hctx & _ & Hnew & Htot & -> & _ & ->).
  split; [done|]. split; [done|]. split; [done|]. split; [done|]. split; [lia|]. split.
  - intros k Hk. destruct (rq_logprobs req); [|done]. injection Hk as <-. pose proof (fo_logprobs _ _ Hf) as Hl.
    destruct (rq_top_logprobs req) as [k|]; [|simpl; lia]. by apply (Hl k).
  - unfold lower_sampling. destruct (f32_leb _ f32_zero); [done|]. destruct (rq_top_p req) as [p|] eqn:Hp; [|done].
    apply (fo_top_p _ _ Hf) in Hp. pose proof (fo_temperature _ _ Hf). tauto.
Qed.

(** * The queue *)

Definition queue_ok (q : JobQueue) : Prop := zlen (q_jobs q) <= q_cap q.

Lemma try_send_spec q job :
  match try_send q job with
  | Ok q' => q_closed q = false /\ zlen (q_jobs q) < q_cap q /\ q' = MkQueue (q_cap q) (q_jobs q ++ [job]) false
  | Err Full => q_closed q = false /\ q_cap q <= zlen (q_jobs q)
  | Err Closed => q_closed q = true
  | _ => False
  end.
Proof. unfold try_send. destruct (q_closed q); [done|]. destruct (_ <=? _) eqn:?; [split; [done|lia]|]. split; [done|]. split; [lia|done]. Qed.

(** The early answers of validation. *)
Definition refused (r : Response) : Prop :=
  match r with RespError status _ => status = 400 \/ status = 404 \/ status = 503 | _ => False end.
Definition refuses {A} (m : res Response A) : Prop := match m with Err r => refused r | _ => True end.

Lemma refuses_bind {A B} (m : res Response A) (k : A -> res Response B) :
  refuses m -> (forall x, refuses (k x)) -> refuses (bind m k).
Proof. destruct m; cbn; auto. Qed.
Lemma refuses_ensure b r : refused r -> refuses (ensure b r).
Proof. by destruct b. Qed.
Lemma refuses_map_err {F A} (f : F -> Response) (m : res F A) : (forall e, refused (f e)) -> refuses (map_err f m).
Proof. destruct m; cbn; auto. Qed.
Ltac refuse := repeat first
  [ apply refuses_bind; [|intros ?] | apply refuses_ensure; cbn; lia | apply refuses_map_err; intros ?; cbn; lia | exact I ].

Lemma gen_request_refuses st req : refuses (gen_request st tok req).
Proof. unfold gen_request, check_fields, prompt_of, check_budgets. refuse. Qed.

(** C29: a chat request changes the server only by what it admits, and the queue decides
    the answer of a valid one. A body is answered exactly to a valid request that finds an
    open queue with room: one job is appended, and the request and its prompt are counted.
    A valid request that finds an open queue full is answered with 429, [Retry-After: 1]
    and one counted rejection, and only it is. Every other answer is an error that leaves
    the server as it was: 503 when the queue is closed, and otherwise the error of an
    invalid request. The queue never exceeds its capacity. *)
Theorem chat_state_exact st request out st' : queue_ok (st_jobs st) ->
  chat_completions st tok request = Ok (out, st') ->
  queue_ok (st_jobs st') /\
  match out with
  | Reply (RespError status _) retry =>
      if status =? 429 then
        (exists req job, request = Ok req /\ gen_request st tok req = Ok job) /\
        q_closed (st_jobs st) = false /\ retry = Some 1 /\ q_cap (st_jobs st) <= zlen (q_jobs (st_jobs st)) /\
        st' = set_jobs st (st_jobs st) (MkChatMetrics (m_chat_requests (st_metrics st)) (m_tokens_in (st_metrics st))
                (fetch_add (m_queue_rejections (st_metrics st)) 1))
      else status ∈ [400; 404; 413; 415; 503] /\ retry = None /\ st' = st /\
        (forall req job, request = Ok req -> gen_request st tok req = Ok job -> q_closed (st_jobs st) = true /\ status = 503)
  | Reply (RespCompletion _) _ => False
  | _ => exists req job, request = Ok req /\ gen_request st tok req = Ok job /\
      q_closed (st_jobs st) = false /\ zlen (q_jobs (st_jobs st)) < q_cap (st_jobs st) /\
      st' = set_jobs st (MkQueue (q_cap (st_jobs st)) (q_jobs (st_jobs st) ++ [job]) false)
              (MkChatMetrics (fetch_add (m_chat_requests (st_metrics st)) 1)
                 (fetch_add (m_tokens_in (st_metrics st)) (zlen (g_prompt_tokens job))) (m_queue_rejections (st_metrics st)))
  end.
Proof.
  intros Hq H. unfold chat_completions in H. destruct request as [req|rejection| |]; [|..|done|done].
  2:{ injection H as <- <-. split; [done|]. unfold json_rejection.
      destruct (rejection =? 413), (rejection =? 415); cbn; (split; [set_solver|done]). }
  pose proof (gen_request_refuses st req) as Href. destruct (gen_request st tok req) as [job|resp| |] eqn:Hg; [|..|done|done].
  2:{ injection H as <- <-. split; [done|]. destruct resp as [status e|]; [|done]. cbn in Href.
      destruct (status =? 429) eqn:?; [lia|]. split; [destruct Href as [->|[->| ->]]; set_solver|].
      split; [done|]. split; [done|]. intros req' job [= <-]. by rewrite Hg. }
  pose proof (try_send_spec (st_jobs st) job) as Hsend. destruct (try_send (st_jobs st) job) as [q|[]| |]; [..|done|done].
  - destruct Hsend as (Hopen & Hroom & ->).
    assert (Hq' : queue_ok (MkQueue (q_cap (st_jobs st)) (q_jobs (st_jobs st) ++ [job]) false)) by (unfold queue_ok; cbn; zl).
    destruct (rq_stream req); injection H as <- <-; (split; [exact Hq'|]); by exists req, job.
  - injection H as <- <-. destruct Hsend as [Hopen Hfull]. split; [done|]. cbn. split; [by exists req, job|done].
  - injection H as <- <-. split; [done|]. cbn. split; [set_solver|]. split; [done|]. by split.
Qed.

(** * One request, two deliveries *)

(** The same request as a stream. *)
Definition with_stream (req : ChatRequest) (opts : option bool) : ChatRequest :=
  MkChatRequest (rq_model req) (rq_messages req) true opts (rq_logprobs req) (rq_top_logprobs req) (rq_max_tokens req)
    (rq_temperature req) (rq_top_p req) (rq_seed req) (rq_stop req).

Lemma gen_request_stream st req opts job : gen_request st tok req = Ok job -> gen_request st tok (with_stream req opts) = Ok job.
Proof.
  unfold gen_request. intros H. apply bind_Ok_inv in H as (u & Hf & H).
  assert (check_fields st (with_stream req opts) = Ok u) as ->; [|exact H]. clear H.
  unfold check_fields in *. cbn [rq_model rq_messages rq_stream rq_stream_options rq_logprobs rq_top_logprobs rq_max_tokens
    rq_temperature rq_top_p with_stream stops_of rq_stop] in *.
  change (stops_of (with_stream req opts)) with (stops_of req).
  repeat match type of Hf with
  | bind (ensure ?b _) _ = Ok _ => destruct b; cbn [ensure bind] in Hf |- *; [|discriminate Hf]
  end.
  exact Hf.
Qed.

(** C10: accepted without [stream], a request is accepted with it: the same job is queued and
    the same counters move. With a tokenizer whose decoding does not panic and stop
    sequences in UTF-8, whatever the worker sends up to [Done] or [Error] before the
    deadline, as long as prompt and events are together fewer than [2^64], both bodies
    return and agree on text, finish reason, log-probabilities and usage. *)
Theorem chat_delivery_agrees {E} st req model plen stops st' opts evs id created :
  (forall ts, returns (decode tok ts)) -> Forall (fun s => utf8_valid s = true) (stops_of req) ->
  chat_completions st tok (Ok req) = Ok (BufferedBody model plen stops, st') ->
  existsb is_end evs = true -> plen + zlen evs <= usize_max ->
  exists job, q_jobs (st_jobs st') = q_jobs (st_jobs st) ++ [job] /\
    let usage := if default false opts then Some plen else None in
    chat_completions st tok (Ok (with_stream req opts)) = Ok (StreamBody model stops usage, st') /\
    exists resp ds, nonstream_response (E := E) evs tok model plen stops id created = Ok resp /\
      stream_response (E := E) (Received <$> evs) tok model stops usage id created = Ok ds /\
      bodies_agree resp (default false opts) ds.
Proof.
  intros Hdec Hutf H Hend Hlen. unfold chat_completions in *. destruct (gen_request st tok req) as [job|resp| |] eqn:Hg; [|done..].
  rewrite (gen_request_stream _ _ opts _ Hg). pose proof (try_send_spec (st_jobs st) job) as Hsend.
  destruct (try_send (st_jobs st) job) as [q|[]| |]; [|done..]. destruct Hsend as (_ & _ & ->).
  destruct (rq_stream req); [done|]. injection H as <- <- <- <-. exists job. split; [done|]. split; [done|].
  apply gen_request_inv in Hg as (Hf & _ & Hp & _ & _ & _ & Htot & _). destruct (fo_stops _ _ Hf) as [_ Hne].
  apply (stream_equals_buffered tok (stops_of req) id created (rq_model req)); [done| |done|lia|lia].
  apply list.Forall_forall. intros s Hs.
  split; [exact (proj1 (list.Forall_forall _ _) Hutf s Hs)|exact (proj1 (list.Forall_forall _ _) Hne s Hs)].
Qed.
End accepted.

(** * Examples *)

(** Case mapping of the ASCII letters, for the examples. *)
Definition ascii_case : UnicodeCase := {|
  char_to_uppercase s := (fun b => if in_range 97 122 b then b - 32 else b) <$> s;
  str_to_lowercase s := (fun b => if in_range 65 90 b then b + 32 else b) <$> s
|}.

Example templates_render :
  let ms := [(utf8 "USER", utf8 " hi "); (utf8 "assistant", utf8 "yo")] in
  template_render (H := ascii_case) Concat ms = utf8 " hi " ++ [10] ++ utf8 "yo" /\
  template_render (H := ascii_case) RoleEot ms = utf8 "User: hi<|eot_id|>Assistant: yo<|eot_id|>Assistant: " /\
  template_render (H := ascii_case) QwenIm ms =
    utf8 "<|im_start|>USER" ++ [10] ++ utf8 "hi<|im_end|>" ++ [10] ++
    utf8 "<|im_start|>assistant" ++ [10] ++ utf8 "yo<|im_end|>" ++ [10] ++ utf8 "<|im_start|>assistant" ++ [10].
Proof. done. Qed.

Definition sample_state (jobs : list GenRequest) : AppState :=
  MkApp (MkQueue 2 jobs false) (utf8 "tritium") (MkRuntime false true true false 0 None (Some 4096)) 256 limits_default Concat
    (MkChatMetrics 0 0 0).

Definition sample_request (model : list Z) : ChatRequest :=
  MkChatRequest model [MkMessage (utf8 "user") (utf8 "10 11 12")] false None true (Some 1) (Some 4) (f32_of_Z 1)
    (Some f32_one) None (Some (One (utf8 " 8"))).

Definition sample_job : GenRequest := MkGenRequest [10; 11; 12] 4 (TopP f32_one (f32_of_Z 1) 0x7A1C0DE5) true (Some 1).

Lemma queued_job_bounded_witness :
  fields_ok (sample_state []) (sample_request (utf8 "tritium")) /\
  1 <= zlen (g_prompt_tokens sample_job) <= max_prompt_tokens limits_default /\
  (forall c, Some 4096 = Some c -> zlen (g_prompt_tokens sample_job) <= c) /\
  g_max_new sample_job <= max_new_tokens limits_default /\
  zlen (g_prompt_tokens sample_job) + g_max_new sample_job <= max_total_tokens limits_default /\
  (forall k, g_logprobs sample_job = Some k -> k <= 20) /\
  match g_sampling sample_job with
  | Greedy => True
  | TopK _ _ _ => False
  | TopP p temp _ => f32_ltb f32_zero p = true /\ f32_leb p f32_one = true /\ f32_leb temp f32_two = true
  end.
Proof.
  apply (queued_job_bounded (UC := ascii_case) passthrough_default (sample_state []) (sample_request (utf8 "tritium")) sample_job).
  vm_compute. reflexivity.
Defined.

(** A full queue. *)
Lemma chat_state_exact_witness :
  let st := sample_state [sample_job; sample_job] in
  let st' := set_jobs st (st_jobs st) (MkChatMetrics 0 0 1) in
  queue_ok (st_jobs st') /\
  ((exists req job, Ok (E := Z) (sample_request (utf8 "tritium")) = Ok req /\
      gen_request (UC := ascii_case) st passthrough_default req = Ok job) /\
   false = false /\ Some 1 = Some 1 /\ 2 <= zlen [sample_job; sample_job] /\
   st' = set_jobs st (st_jobs st) (MkChatMetrics 0 0 (fetch_add 0 1))).
Proof.
  intros st st'.
  apply (chat_state_exact (UC := ascii_case) passthrough_default st (Ok (sample_request (utf8 "tritium")))
    (Reply (api_error 429 (utf8 "rate_limit_exceeded") [Lit (utf8 "server is at capacity; retry shortly")] None) (Some 1)) st').
  - vm_compute. discriminate.
  - vm_compute. reflexivity.
Defined.

Lemma chat_delivery_agrees_witness :
  let st := sample_state [] in
  let st' := set_jobs st (MkQueue 2 [sample_job] false) (MkChatMetrics 1 3 0) in
  exists job, q_jobs (st_jobs st') = q_jobs (st_jobs st) ++ [job] /\
    chat_completions (UC := ascii_case) st passthrough_default (Ok (with_stream (sample_request (utf8 "tritium")) (Some true)))
      = Ok (StreamBody (utf8 "tritium") [utf8 " 8"] (Some 3), st') /\
    exists resp ds, nonstream_response (E := unit) sample_events passthrough_default (utf8 "tritium") 3 [utf8 " 8"] (utf8 "id") 1 = Ok resp /\
      stream_response (E := unit) (Received <$> sample_events) passthrough_default (utf8 "tritium") [utf8 " 8"] (Some 3) (utf8 "id") 1 = Ok ds /\
      bodies_agree resp true ds.
Proof.
  intros st st'.
  apply (chat_delivery_agrees (UC := ascii_case) passthrough_default st (sample_request (utf8 "tritium")) (utf8 "tritium") 3 [utf8 " 8"] st'
    (Some true) sample_events (utf8 "id") 1).
  - intros ts. cbn. by rewrite passthrough_decode_joined.
  - by repeat constructor.
  - vm_compute. reflexivity.
  - reflexivity.
  - vm_compute. discriminate.
Defined.

(** The alias "default" is echoed by the response, which does not report the served
    model's identifier. *)
Example default_model_echoed :
  exists st', chat_completions (UC := ascii_case) (sample_state []) passthrough_default (Ok (sample_request (utf8 "default")))
    = Ok (BufferedBody (utf8 "default") 3 [utf8 " 8"], st') /\
  exists c, nonstream_response (E := unit) sample_events passthrough_default (utf8 "default") 3 [utf8 " 8"] (utf8 "id") 1
    = Ok (RespCompletion c) /\ co_model c = utf8 "default" /\ co_model c <> st_model_id st'.
Proof. eexists. split; [vm_compute; reflexivity|]. eexists. split; [vm_compute; reflexivity|]. split; [reflexivity|]. vm_compute. discriminate. Qed.
