(* ===== verification/Deadline.v ===== *)
(** * The deadline of a stream (crates/tritium-serve/src/router.rs)

    A streaming body, its watchdog task and the guards dropped with it share one atomic
    state, two counters and the lock of the event receiver. Every access to one of them is
    a step of its own, and the steps of the tasks interleave in any order; a task is
    cancelled only at the points where it awaits. *)

From Stdlib Require Import ZArith Lia Bool.
From stdpp Require Import base list numbers relations.
From S2P Require Import Prelude.

#[local] Open Scope Z_scope.

(** * State *)

Inductive StreamState : Type := RUNNING | EXPIRED | FINISHED.
#[export] Instance StreamState_eq_dec : EqDecision StreamState.
Proof. solve_decision. Defined.

(** [compare_exchange(STREAM_RUNNING, new)]: the state after it, and whether it succeeded. *)
Definition compare_exchange (st new : StreamState) : StreamState * bool :=
  match st with RUNNING => (new, true) | _ => (st, false) end.

(** The task spawned by [StreamEventReceiver::new], by what it does next. *)
Inductive Watchdog : Type :=
| WdAbsent      (* no deadline *)
| WdSleeping    (* [sleep_until] *)
| WdAwake       (* upgraded the weak receiver, awaits its lock *)
| WdHolding     (* calls [expire] *)
| WdCounting    (* claimed the state, increments [stream_timeouts] *)
| WdLoading     (* reads the state back *)
| WdClosing     (* closes the receiver *)
| WdGone.

(** The streaming body: [recv], [finish] and the terminal events. [timed_out] is the flag
    of the loop. *)
Inductive Body : Type :=
| BIdle                       (* between receives, possibly suspended at a yield *)
| BWaiting                    (* [recv] awaits the lock *)
| BHolding                    (* holds it, compares the clock with the deadline *)
| BReceiving                  (* awaits an event until the deadline *)
| BExpiring                   (* past the deadline, calls [expire] *)
| BCounting                   (* claimed the state, increments [stream_timeouts] *)
| BExpired                    (* closes the receiver and returns [Err] *)
| BLeaving (timed_out : bool) (* [finish]: [stop_watchdog] exchanges the state *)
| BAborting (timed_out : bool)(* aborts the watchdog *)
| BStopping (timed_out : bool)(* awaits the lock to close the receiver *)
| BTerminal (timed_out : bool)(* yields the terminal events *)
| BDone (timed_out : bool)    (* [disconnect.completed] is set *)
| BDropped.

(** [StreamDisconnectGuard::drop] and [StreamEventReceiver::drop], which run once the body
    is dropped, in either order. *)
Inductive Guard : Type := GArmed | GCounting | GDropped.
Inductive Receiver : Type := RxAlive | RxAborting | RxDropped.

Inductive Holder : Type := Free | HeldByBody | HeldByWatchdog.

Record Stream : Type := MkStream {
  now : Z; state : StreamState; timeouts : Z; disconnects : Z; lock : Holder; closed : bool;
  wd : Watchdog; aborted : bool; body : Body; guard : Guard; rx : Receiver; completed : bool
}.

Definition set_wd (s : Stream) (w : Watchdog) : Stream :=
  MkStream (now s) (state s) (timeouts s) (disconnects s) (lock s) (closed s) w (aborted s) (body s) (guard s) (rx s) (completed s).
Definition set_body (s : Stream) (b : Body) : Stream :=
  MkStream (now s) (state s) (timeouts s) (disconnects s) (lock s) (closed s) (wd s) (aborted s) b (guard s) (rx s) (completed s).
Definition set_lock (s : Stream) (h : Holder) : Stream :=
  MkStream (now s) (state s) (timeouts s) (disconnects s) h (closed s) (wd s) (aborted s) (body s) (guard s) (rx s) (completed s).
Definition set_state (s : Stream) (x : StreamState) : Stream :=
  MkStream (now s) x (timeouts s) (disconnects s) (lock s) (closed s) (wd s) (aborted s) (body s) (guard s) (rx s) (completed s).
Definition set_now (s : Stream) (n : Z) : Stream :=
  MkStream n (state s) (timeouts s) (disconnects s) (lock s) (closed s) (wd s) (aborted s) (body s) (guard s) (rx s) (completed s).
Definition set_closed (s : Stream) : Stream :=
  MkStream (now s) (state s) (timeouts s) (disconnects s) (lock s) true (wd s) (aborted s) (body s) (guard s) (rx s) (completed s).
Definition set_completed (s : Stream) : Stream :=
  MkStream (now s) (state s) (timeouts s) (disconnects s) (lock s) (closed s) (wd s) (aborted s) (body s) (guard s) (rx s) true.
Definition set_aborted (s : Stream) : Stream :=
  MkStream (now s) (state s) (timeouts s) (disconnects s) (lock s) (closed s) (wd s) true (body s) (guard s) (rx s) (completed s).
Definition set_guard (s : Stream) (g : Guard) : Stream :=
  MkStream (now s) (state s) (timeouts s) (disconnects s) (lock s) (closed s) (wd s) (aborted s) (body s) g (rx s) (completed s).
Definition set_rx (s : Stream) (r : Receiver) : Stream :=
  MkStream (now s) (state s) (timeouts s) (disconnects s) (lock s) (closed s) (wd s) (aborted s) (body s) (guard s) r (completed s).
Definition add_timeout (s : Stream) : Stream :=
  MkStream (now s) (state s) (timeouts s + 1) (disconnects s) (lock s) (closed s) (wd s) (aborted s) (body s) (guard s) (rx s) (completed s).
Definition add_disconnect (s : Stream) : Stream :=
  MkStream (now s) (state s) (timeouts s) (disconnects s + 1) (lock s) (closed s) (wd s) (aborted s) (body s) (guard s) (rx s) (completed s).

(** * Operations *)

(** [StreamEventReceiver::new] and the guard beside it, with the deadline it derives from
    the start and the budget. *)
Definition stream_new (started : Z) (deadline : option Z) : Stream :=
  MkStream started RUNNING 0 0 Free false (match deadline with Some _ => WdSleeping | None => WdAbsent end) false BIdle GArmed RxAlive false.

Definition past (deadline : option Z) (s : Stream) : bool :=
  match deadline with Some d => d <=? now s | None => false end.

(** The exchange of [expire], by the watchdog and by the body; the increment follows only
    where it succeeded. *)
Definition wd_expire (s : Stream) : Stream :=
  let (st, won) := compare_exchange (state s) EXPIRED in
  set_wd (set_state s st) (if won then WdCounting else WdLoading).
Definition body_expire (s : Stream) : Stream :=
  let (st, won) := compare_exchange (state s) EXPIRED in
  set_body (set_state s st) (if won then BCounting else BExpired).

(** The awaits of the watchdog, at which it can be cancelled. *)
Definition wd_awaits (w : Watchdog) : bool := match w with WdSleeping | WdAwake => true | _ => false end.

(** The channel closes when the last owner of the receiver goes: the body's receiver and,
    while it is awake, the watchdog. *)
Definition drop_channel (s : Stream) : Stream :=
  match rx s, wd s with
  | RxDropped, (WdAbsent | WdSleeping | WdGone) => set_closed s
  | _, _ => s
  end.

(** The answer of the watchdog's [expire], read back from the state. *)
Definition wd_answer (s : Stream) : Stream :=
  match state s with
  | EXPIRED => set_wd s WdClosing
  | _ => drop_channel (set_wd (set_lock s Free) WdGone)
  end.

(** The exchange of [stop_watchdog]; the abort that follows asks for the cancellation of
    the watchdog at one of its awaits, which may come later or not at all. *)
Definition retire (s : Stream) : Stream := set_state s (fst (compare_exchange (state s) FINISHED)).

(** [StreamDisconnectGuard::drop]. *)
Definition guard_drop (s : Stream) : Stream :=
  if completed s then set_guard s GDropped
  else
    let previous := state s in
    let s := retire s in
    match previous with
    | EXPIRED => set_guard s GDropped
    | _ => set_guard s GCounting
    end.

(** The points at which the body can be dropped: suspended at a yield or in an await, whose
    lock, if it holds it, is released. *)
Definition body_drop (s : Stream) : option Stream :=
  match body s with
  | BReceiving => Some (set_body (set_lock s Free) BDropped)
  | BIdle | BWaiting | BStopping _ | BTerminal _ | BDone _ => Some (set_body s BDropped)
  | _ => None
  end.

(** * Steps *)

Section steps.
Context (deadline : option Z).

Inductive step (s : Stream) : Stream -> Prop :=
| Tick n : now s <= n -> step s (set_now s n)
(** the watchdog *)
| WdWake : wd s = WdSleeping -> past deadline s = true ->
    step s (set_wd s (match rx s with RxDropped => WdGone | _ => WdAwake end))
| WdLock : wd s = WdAwake -> lock s = Free -> step s (set_wd (set_lock s HeldByWatchdog) WdHolding)
| WdExpire : wd s = WdHolding -> step s (wd_expire s)
| WdCount : wd s = WdCounting -> step s (set_wd (add_timeout s) WdLoading)
| WdAnswer : wd s = WdLoading -> step s (wd_answer s)
| WdClose : wd s = WdClosing -> step s (set_wd (set_lock (set_closed s) Free) WdGone)
| WdCancel : aborted s = true -> wd_awaits (wd s) = true -> step s (drop_channel (set_wd s WdGone))
(** [recv] *)
| RecvStart : body s = BIdle -> step s (set_body s BWaiting)
| RecvLock : body s = BWaiting -> lock s = Free -> step s (set_body (set_lock s HeldByBody) BHolding)
| RecvCheck : body s = BHolding -> step s (set_body s (if past deadline s then BExpiring else BReceiving))
| RecvEvent : body s = BReceiving -> step s (set_body (set_lock s Free) BIdle)
| RecvTimeout : body s = BReceiving -> past deadline s = true -> step s (set_body s BExpiring)
| RecvExpire : body s = BExpiring -> step s (body_expire s)
| RecvCount : body s = BCounting -> step s (set_body (add_timeout s) BExpired)
| RecvErr : body s = BExpired -> step s (set_body (set_lock (set_closed s) Free) (BLeaving true))
(** the end of the loop, [finish] and the terminal events *)
| LoopEnd : body s = BIdle -> step s (set_body s (BLeaving false))
| FinishRetire t : body s = BLeaving t -> step s (set_body (retire s) (BAborting t))
| FinishAbort t : body s = BAborting t -> step s (set_body (set_aborted s) (BStopping t))
| FinishClose t : body s = BStopping t -> lock s = Free -> step s (set_body (set_closed s) (BTerminal t))
| Complete t : body s = BTerminal t -> step s (set_body (set_completed s) (BDone t))
(** the drop of the body and of its guards *)
| Drop s' : body_drop s = Some s' -> step s s'
| GuardDrop : body s = BDropped -> guard s = GArmed -> step s (guard_drop s)
| GuardCount : guard s = GCounting -> step s (set_guard (add_disconnect s) GDropped)
| RxDrop : body s = BDropped -> rx s = RxAlive -> step s (set_rx (retire s) RxAborting)
| RxAbort : rx s = RxAborting -> step s (drop_channel (set_rx (set_aborted s) RxDropped)).

Definition reachable (s : Stream) : Prop := exists started, rtc step (stream_new started deadline) s.
End steps.

(** * The invariant, in layers *)

Definition bool_to_Z (b : bool) : Z := if b then 1 else 0.
Definition wd_owes (w : Watchdog) : bool := match w with WdCounting => true | _ => false end.
Definition body_owes (b : Body) : bool := match b with BCounting => true | _ => false end.
Definition guard_owes (g : Guard) : bool := match g with GCounting => true | _ => false end.
Definition is_expired (x : StreamState) : bool := match x with EXPIRED => true | _ => false end.

(** The body has found the deadline passed. *)
Definition told (b : Body) : bool :=
  match b with
  | BCounting | BExpired => true
  | BLeaving t | BAborting t | BStopping t | BTerminal t | BDone t => t
  | _ => false
  end.

(** Which states a body meets: never [FINISHED] before it retires the deadline, never
    [RUNNING] after, and [EXPIRED] once it has found the deadline passed. *)
Definition phase (x : StreamState) (b : Body) : bool :=
  match x, b with
  | FINISHED, (BIdle | BWaiting | BHolding | BReceiving | BExpiring | BCounting | BExpired | BLeaving _) => false
  | RUNNING, (BAborting _ | BStopping _ | BTerminal _ | BDone _) => false
  | EXPIRED, _ => true
  | _, _ => negb (told b)
  end.

(** Who holds the lock of the receiver. *)
Definition body_holds (b : Body) : bool :=
  match b with BHolding | BReceiving | BExpiring | BCounting | BExpired => true | _ => false end.
Definition wd_holds (w : Watchdog) : bool :=
  match w with WdHolding | WdCounting | WdLoading | WdClosing => true | _ => false end.
Definition locked (h : Holder) (b : Body) (w : Watchdog) : bool :=
  match h with
  | Free => negb (body_holds b) && negb (wd_holds w)
  | HeldByBody => body_holds b && negb (wd_holds w)
  | HeldByWatchdog => negb (body_holds b) && wd_holds w
  end.

(** What [finish] has done, and that the guards wait for the drop of the body. *)
Definition finished_ok (b : Body) (w : Watchdog) (ab cl co : bool) : bool :=
  match b with
  | BStopping _ => ab && negb co
  | BTerminal _ => ab && cl && negb (wd_owes w) && negb co
  | BDone _ => ab && cl && negb (wd_owes w) && co
  | BDropped => true
  | _ => negb co
  end.
Definition guard_ok (g : Guard) (b : Body) : bool := match g, b with GArmed, _ | _, BDropped => true | _, _ => false end.

(** The outcome the guard has claimed or left. *)
Definition claim (s : Stream) : Prop :=
  match guard s with
  | GArmed => disconnects s = 0
  | GCounting => disconnects s = 0 /\ state s = FINISHED /\ completed s = false
  | GDropped => (disconnects s = 0 /\ (completed s = true \/ state s = EXPIRED)) \/
                (disconnects s = 1 /\ state s = FINISHED /\ completed s = false)
  end.

Record inv (s : Stream) : Prop := {
  i_phase : phase (state s) (body s) = true;
  i_lock : locked (lock s) (body s) (wd s) = true;
  i_finished : finished_ok (body s) (wd s) (aborted s) (closed s) (completed s) = true;
  i_guard : guard_ok (guard s) (body s) = true;
  i_nonneg : 0 <= timeouts s;
  i_timeouts : timeouts s + bool_to_Z (wd_owes (wd s)) + bool_to_Z (body_owes (body s)) = bool_to_Z (is_expired (state s));
  i_claim : claim s
}.

Section invariant.
Context (deadline : option Z).

Lemma inv_new started : inv (stream_new started deadline).
Proof. by split; destruct deadline. Qed.

(** The cases of a step, with the fields of the stream in the open. *)
Ltac step_cases Hs :=
  destruct Hs; cbn in *; subst; unfold wd_expire, body_expire, wd_answer, retire, guard_drop, body_drop, drop_channel in *; cbn in *.

(** Enumerate the tasks, the lock and the state, as far as the goal leaves them open. *)
Ltac by_cases := repeat case_match; simplify_eq/=; try done;
  repeat match goal with b : Body |- _ => destruct b; simplify_eq/=; try done end;
  repeat match goal with w : Watchdog |- _ => destruct w; simplify_eq/=; try done end;
  repeat match goal with h : Holder |- _ => destruct h; simplify_eq/=; try done end;
  repeat match goal with x : StreamState |- _ => destruct x; simplify_eq/=; try done end;
  repeat match goal with g : Guard |- _ => destruct g; simplify_eq/=; try done end.

Lemma phase_step s s' : phase (state s) (body s) = true -> guard_ok (guard s) (body s) = true -> step deadline s s' ->
  phase (state s') (body s') = true /\ guard_ok (guard s') (body s') = true.
Proof.
  destruct s as [n st to di lk cl w ab b g r co]; cbn. intros Hp Hg Hs.
  step_cases Hs; try done; by_cases.
Qed.

Lemma lock_step s s' : locked (lock s) (body s) (wd s) = true -> step deadline s s' -> locked (lock s') (body s') (wd s') = true.
Proof.
  destruct s as [n st to di lk cl w ab b g r co]; cbn. intros Hl Hs.
  step_cases Hs; try done; by_cases.
Qed.

Lemma finished_step s s' : inv s -> step deadline s s' ->
  finished_ok (body s') (wd s') (aborted s') (closed s') (completed s') = true.
Proof.
  destruct s as [n st to di lk cl w ab b g r co]; intros [Hp Hl Hf Hg _ _ _] Hs; cbn in *.
  step_cases Hs; try done; by_cases.
  all: repeat match goal with x : bool |- _ => destruct x; simplify_eq/=; try done end.
Qed.

Lemma timeouts_step s s' : 0 <= timeouts s -> step deadline s s' -> 0 <= timeouts s'.
Proof.
  destruct s as [n st to di lk cl w ab b g r co]; cbn. intros Ht Hs. step_cases Hs; try lia; repeat case_match; simplify_eq/=; lia.
Qed.

Lemma counters_step s s' : inv s -> step deadline s s' ->
  timeouts s' + bool_to_Z (wd_owes (wd s')) + bool_to_Z (body_owes (body s')) = bool_to_Z (is_expired (state s')).
Proof.
  destruct s as [n st to di lk cl w ab b g r co]; intros [Hp _ _ _ _ Ht _] Hs; cbn in *.
  step_cases Hs; try lia; destruct st; cbn in *; try lia; repeat case_match; simplify_eq/=; try lia.
  all: destruct w; simplify_eq/=; lia.
Qed.

Lemma claim_step s s' : inv s -> step deadline s s' -> claim s'.
Proof.
  destruct s as [n st to di lk cl w ab b g r co]; unfold claim; intros [Hp _ Hf Hg _ _ Hc] Hs; cbn in *.
  step_cases Hs; try done; destruct st; try destruct g; cbn in *; try done; repeat case_match; simplify_eq/=; naive_solver lia.
Qed.

Lemma inv_step s s' : inv s -> step deadline s s' -> inv s'.
Proof.
  intros Hi Hs. destruct (phase_step s s' (i_phase _ Hi) (i_guard _ Hi) Hs) as [Hp Hg].
  split; [done|by eapply lock_step, Hs; apply Hi|by eapply finished_step|done|by eapply timeouts_step, Hs; apply Hi|by eapply counters_step|by eapply claim_step].
Qed.

Lemma stream_inv s : reachable deadline s -> inv s.
Proof.
  intros [started Hr]. pose proof (inv_new started) as Hi.
  induction Hr as [|s1 s2 s3 Hs _ IH]; [done|]. by apply IH, (inv_step s1).
Qed.

(** C12: under every interleaving of a streaming body, its watchdog, its drop and the clock,
    at most one of a timeout and a disconnect is counted, and once; a completed body counts
    no disconnect; and a body dropped before it completed has counted exactly one of the
    two when its guard is gone, but for a timeout its watchdog is about to count. *)
Theorem stream_outcome_once s : reachable deadline s ->
  0 <= timeouts s /\ 0 <= disconnects s /\ timeouts s + disconnects s <= 1 /\
  (completed s = true -> disconnects s = 0) /\
  (guard s = GDropped -> completed s = false -> wd_owes (wd s) = false -> timeouts s + disconnects s = 1).
Proof.
  intros [_ _ _ Hg H0 Ht Hc]%stream_inv. unfold claim in Hc.
  assert (Howe : body_owes (body s) = false \/ guard s = GArmed) by (destruct (guard s), (body s); auto).
  destruct (guard s), (state s), (wd_owes (wd s)), (body_owes (body s)); destruct_or?; destruct_and?; destruct_or?; simplify_eq/=;
    repeat split; intros; simplify_eq; try congruence; lia.
Qed.

(** Once [finish] has closed the channel, the watchdog is asked to stop and can claim
    nothing more, and a body that reports a timeout to its client has had that timeout
    counted. *)
Theorem timeout_told_counted s t : reachable deadline s -> body s = BTerminal t \/ body s = BDone t ->
  closed s = true /\ aborted s = true /\ state s <> RUNNING /\ wd_owes (wd s) = false /\ (t = true -> timeouts s = 1).
Proof.
  intros [Hp _ Hf _ _ Ht _]%stream_inv Hb.
  assert (Hcl : closed s = true /\ aborted s = true /\ wd_owes (wd s) = false).
  { destruct Hb as [Hb|Hb]; rewrite Hb in Hf; cbn in Hf; destruct (aborted s), (closed s), (wd_owes (wd s)); simplify_eq/=; done. }
  destruct Hcl as (-> & -> & Hw). rewrite Hw in *. split; [done|]. split; [done|].
  destruct Hb as [Hb|Hb]; rewrite Hb in *; destruct (state s), t; simplify_eq/=; (split; [done|]); (split; [done|]); intros; simplify_eq; lia.
Qed.
End invariant.

(** * Runs *)

(** The first event is the last; its client is slow, the deadline passes and the watchdog
    closes the channel before the body goes on to finish. *)
Definition slow_client : list (Stream -> Stream) :=
  [fun s => set_body s BWaiting; fun s => set_body (set_lock s HeldByBody) BHolding; fun s => set_body s BReceiving;
   fun s => set_body (set_lock s Free) BIdle; fun s => set_now s 5; fun s => set_wd s WdAwake;
   fun s => set_wd (set_lock s HeldByWatchdog) WdHolding; wd_expire; fun s => set_wd (add_timeout s) WdLoading; wd_answer;
   fun s => set_wd (set_lock (set_closed s) Free) WdGone; fun s => set_body s (BLeaving false);
   fun s => set_body (retire s) (BAborting false); fun s => set_body (set_aborted s) (BStopping false);
   fun s => set_body (set_closed s) (BTerminal false); fun s => set_body (set_completed s) (BDone false)].

Definition slow_client_end : Stream := foldl (fun s f => f s) (stream_new 0 (Some 5)) slow_client.

Lemma slow_client_reachable : reachable (Some 5) slow_client_end.
Proof.
  exists 0. unfold slow_client_end, slow_client. cbn [foldl].
  eapply rtc_l; [by apply RecvStart|]. eapply rtc_l; [by apply RecvLock|].
  eapply rtc_l; [exact (RecvCheck (Some 5) (set_body (set_lock (set_body (stream_new 0 (Some 5)) BWaiting) HeldByBody) BHolding) eq_refl)|].
  eapply rtc_l; [by apply RecvEvent|]. eapply rtc_l; [by apply (Tick (Some 5) _ 5)|].
  eapply rtc_l; [by apply WdWake|]. eapply rtc_l; [by apply WdLock|]. eapply rtc_l; [by apply WdExpire|].
  eapply rtc_l; [by apply WdCount|]. eapply rtc_l; [by apply WdAnswer|]. eapply rtc_l; [by apply WdClose|].
  eapply rtc_l; [by apply LoopEnd|]. eapply rtc_l; [by apply FinishRetire|]. eapply rtc_l; [by apply FinishAbort|].
  eapply rtc_l; [by apply FinishClose|]. eapply rtc_l; [by apply Complete|]. apply rtc_refl.
Qed.

(** A stream that completes cleanly can be counted as timed out. *)
Theorem clean_stream_counted_late : exists s, reachable (Some 5) s /\ body s = BDone false /\ timeouts s = 1.
Proof. exists slow_client_end. split; [apply slow_client_reachable|done]. Qed.

Lemma stream_outcome_once_witness :
  0 <= timeouts slow_client_end /\ 0 <= disconnects slow_client_end /\ timeouts slow_client_end + disconnects slow_client_end <= 1 /\
  (completed slow_client_end = true -> disconnects slow_client_end = 0) /\
  (guard slow_client_end = GDropped -> completed slow_client_end = false -> wd_owes (wd slow_client_end) = false ->
   timeouts slow_client_end + disconnects slow_client_end = 1).
Proof. apply (stream_outcome_once (Some 5)), slow_client_reachable. Defined.

Lemma timeout_told_counted_witness :
  closed slow_client_end = true /\ aborted slow_client_end = true /\ state slow_client_end <> RUNNING /\
  wd_owes (wd slow_client_end) = false /\ (false = true -> timeouts slow_client_end = 1).
Proof. apply (timeout_told_counted (Some 5)); [apply slow_client_reachable|by right]. Defined.
