(* ===== verification/TeacherCache.v ===== *)
(** * Offline teacher-probability caches

    crates/tritium-format/src/teacher_cache.rs (dense rows) and
    topk_teacher_cache.rs (top-k pairs). An [f32] is only ever copied here, so a
    probability is its 32-bit pattern; a digest is its 32 bytes. *)

From S2P Require Import Prelude Core FormatBase TwoBit LeCursor Corpus.
From Stdlib Require Import ZArith Lia Bool.
From stdpp Require Import base list numbers.

#[local] Open Scope Z_scope.

(** ** The dense header *)

(** b"TTPR". *)
Definition TEACHER_CACHE_MAGIC : list Z := [0x54; 0x54; 0x50; 0x52].
Definition TEACHER_CACHE_VERSION : Z := 1.
Definition TEACHER_CACHE_HEADER_BYTES : Z := 88.

Record TeacherCacheHeader := mkTeacher {
  tc_seq_len : Z; tc_vocab : Z; tc_windows : Z;
  tc_model_hash : list Z; tc_corpus_hash : list Z }.

Definition window_elements (h : TeacherCacheHeader) : res FormatError Z :=
  if (tc_seq_len h =? 0) || (tc_vocab h =? 0) || (tc_windows h =? 0)
  then Err TeacherCacheInvalidShape else
  ok_or (checked_mul (tc_seq_len h) (tc_vocab h)) TeacherCacheInvalidShape.

(** [u64::try_from] of a [usize] succeeds on the 64-bit targets modelled. *)
Definition tc_payload_bytes (h : TeacherCacheHeader) : res FormatError Z :=
  let* elements := window_elements h in
  ok_or (checked_mul elements (tc_windows h) ≫= fun count => checked_mul count 4)
    TeacherCacheInvalidShape.

Definition write_teacher_cache_header (h : TeacherCacheHeader) : res FormatError (list Z) :=
  let* _ := tc_payload_bytes h in
  Ok (TEACHER_CACHE_MAGIC ++ [TEACHER_CACHE_VERSION] ++ [0; 0; 0] ++
      to_le 4 (tc_seq_len h) ++ to_le 4 (tc_vocab h) ++ to_le 8 (tc_windows h) ++
      tc_model_hash h ++ tc_corpus_hash h).

Definition read_teacher_cache_header (bytes : list Z) : res FormatError TeacherCacheHeader :=
  if negb (zlen bytes =? TEACHER_CACHE_HEADER_BYTES)
  then Err (WrongBlockLen TEACHER_CACHE_HEADER_BYTES (zlen bytes)) else
  let cursor := lc_new bytes in
  let* (magic, cursor) := lc_take cursor 4 in
  if negb (bool_decide (magic = TEACHER_CACHE_MAGIC)) then Err TeacherCacheBadMagic else
  let* (version, cursor) := lc_u8 cursor in
  if negb (version =? TEACHER_CACHE_VERSION) then Err (UnsupportedTeacherCacheVersion version) else
  let* (_, cursor) := lc_take cursor 3 in
  let* (seq_len, cursor) := lc_u32 cursor in
  let* (vocab, cursor) := lc_u32 cursor in
  let* (windows, cursor) := lc_u64 cursor in
  let* (model_hash, cursor) := lc_take cursor 32 in
  let* (corpus_hash, cursor) := lc_take cursor 32 in
  let header := mkTeacher seq_len vocab windows model_hash corpus_hash in
  let* _ := tc_payload_bytes header in
  Ok header.

(** ** The top-k header *)

(** b"TTPK". *)
Definition TOPK_TEACHER_CACHE_MAGIC : list Z := [0x54; 0x54; 0x50; 0x4b].
Definition TOPK_TEACHER_CACHE_VERSION : Z := 1.
Definition TOPK_TEACHER_CACHE_HEADER_BYTES : Z := 92.

Record TopkTeacherCacheHeader := mkTopk {
  tk_seq_len : Z; tk_vocab : Z; tk_top_k : Z; tk_windows : Z;
  tk_model_hash : list Z; tk_corpus_hash : list Z }.

Definition window_pairs (h : TopkTeacherCacheHeader) : res FormatError Z :=
  if (tk_seq_len h =? 0) || (tk_vocab h =? 0) || (tk_windows h =? 0)
  then Err TeacherCacheInvalidShape else
  if (tk_top_k h =? 0) || (tk_vocab h <? tk_top_k h) then Err TeacherCacheInvalidShape else
  ok_or (checked_mul (tk_seq_len h) (tk_top_k h)) TeacherCacheInvalidShape.

Definition window_bytes (h : TopkTeacherCacheHeader) : res FormatError Z :=
  let* pairs := window_pairs h in
  ok_or (checked_mul pairs 8) TeacherCacheInvalidShape.

Definition tk_payload_bytes (h : TopkTeacherCacheHeader) : res FormatError Z :=
  let* w := window_bytes h in
  ok_or (checked_mul w (tk_windows h)) TeacherCacheInvalidShape.

Definition write_topk_teacher_cache_header (h : TopkTeacherCacheHeader)
  : res FormatError (list Z) :=
  let* _ := tk_payload_bytes h in
  Ok (TOPK_TEACHER_CACHE_MAGIC ++ [TOPK_TEACHER_CACHE_VERSION] ++ [0; 0; 0] ++
      to_le 4 (tk_seq_len h) ++ to_le 4 (tk_vocab h) ++ to_le 4 (tk_top_k h) ++
      to_le 8 (tk_windows h) ++ tk_model_hash h ++ tk_corpus_hash h).

Definition read_topk_teacher_cache_header (bytes : list Z)
  : res FormatError TopkTeacherCacheHeader :=
  if negb (zlen bytes =? TOPK_TEACHER_CACHE_HEADER_BYTES)
  then Err (WrongBlockLen TOPK_TEACHER_CACHE_HEADER_BYTES (zlen bytes)) else
  let cursor := lc_new bytes in
  let* (magic, cursor) := lc_take cursor 4 in
  if negb (bool_decide (magic = TOPK_TEACHER_CACHE_MAGIC)) then Err TeacherCacheBadMagic else
  let* (version, cursor) := lc_u8 cursor in
  if negb (version =? TOPK_TEACHER_CACHE_VERSION)
  then Err (UnsupportedTeacherCacheVersion version) else
  let* (_, cursor) := lc_take cursor 3 in
  let* (seq_len, cursor) := lc_u32 cursor in
  let* (vocab, cursor) := lc_u32 cursor in
  let* (top_k, cursor) := lc_u32 cursor in
  let* (windows, cursor) := lc_u64 cursor in
  let* (model_hash, cursor) := lc_take cursor 32 in
  let* (corpus_hash, cursor) := lc_take cursor 32 in
  let header := mkTopk seq_len vocab top_k windows model_hash corpus_hash in
  let* _ := tk_payload_bytes header in
  Ok header.

(** ** One window of top-k pairs: all indices, then all probabilities *)

Definition encode_topk_window (h : TopkTeacherCacheHeader) (indices prob : list Z)
  : res FormatError (list Z) :=
  let* pairs := window_pairs h in
  if negb (zlen indices =? pairs) || negb (zlen prob =? pairs)
  then Err TeacherCacheInvalidShape else
  if existsb (fun i => tk_vocab h <=? i) indices then Err TeacherCacheInvalidShape else
  let* _ := mul_usize pairs 8 in
  let* out := for_each indices (fun i out => Ok (out ++ to_le 4 i)) [] in
  for_each prob (fun p out => Ok (out ++ to_le 4 p)) out.

Definition read_index (vocab : Z) (_ : Z) (st : LeCursor * list Z)
  : res FormatError (LeCursor * list Z) :=
  let '(cursor, indices) := st in
  let* (i, cursor) := lc_u32 cursor in
  if vocab <=? i then Err TeacherCacheInvalidShape else
  Ok (cursor, indices ++ [i]).

Definition read_prob (_ : Z) (st : LeCursor * list Z) : res FormatError (LeCursor * list Z) :=
  let '(cursor, prob) := st in
  let* (s, cursor) := lc_take cursor 4 in
  if zlen s =? 4 then Ok (cursor, prob ++ [from_le s]) else Panic.

Definition decode_topk_window (h : TopkTeacherCacheHeader) (bytes : list Z)
  : res FormatError (list Z * list Z) :=
  let* pairs := window_pairs h in
  let* w := window_bytes h in
  if negb (zlen bytes =? w)
  then let* e := mul_usize pairs 8 in Err (WrongBlockLen e (zlen bytes)) else
  let* (cursor, indices) := for_range 0 pairs (read_index (tk_vocab h)) (lc_new bytes, []) in
  let* (_, prob) := for_range 0 pairs read_prob (cursor, []) in
  Ok (indices, prob).

(** * Shapes, as the documentation states them *)

(** What the fields of the Rust structs can hold. *)
Definition teacher_wf (h : TeacherCacheHeader) : Prop :=
  is_u32 (tc_seq_len h) /\ is_u32 (tc_vocab h) /\ is_u64 (tc_windows h) /\
  zlen (tc_model_hash h) = 32 /\ bytes_ok (tc_model_hash h) /\
  zlen (tc_corpus_hash h) = 32 /\ bytes_ok (tc_corpus_hash h).

Definition topk_wf (h : TopkTeacherCacheHeader) : Prop :=
  is_u32 (tk_seq_len h) /\ is_u32 (tk_vocab h) /\ is_u32 (tk_top_k h) /\ is_u64 (tk_windows h) /\
  zlen (tk_model_hash h) = 32 /\ bytes_ok (tk_model_hash h) /\
  zlen (tk_corpus_hash h) = 32 /\ bytes_ok (tk_corpus_hash h).

(** A shape that a cache can have: no empty dimension, [1 <= top_k <= vocab], and
    a payload that fits the size type. *)
Definition teacher_shape (h : TeacherCacheHeader) : Prop :=
  0 < tc_seq_len h /\ 0 < tc_vocab h /\ 0 < tc_windows h /\
  tc_seq_len h * tc_vocab h * tc_windows h * 4 <= u64_max.

Definition topk_shape (h : TopkTeacherCacheHeader) : Prop :=
  0 < tk_seq_len h /\ 0 < tk_windows h /\ 0 < tk_top_k h <= tk_vocab h /\
  tk_seq_len h * tk_top_k h * 8 * tk_windows h <= u64_max.

(** The header bytes around the three reserved ones, which no reader looks at. *)
Definition teacher_bytes (reserved : list Z) (h : TeacherCacheHeader) : list Z :=
  TEACHER_CACHE_MAGIC ++ to_le 1 TEACHER_CACHE_VERSION ++ reserved ++
  to_le 4 (tc_seq_len h) ++ to_le 4 (tc_vocab h) ++ to_le 8 (tc_windows h) ++
  tc_model_hash h ++ tc_corpus_hash h.

Definition topk_bytes (reserved : list Z) (h : TopkTeacherCacheHeader) : list Z :=
  TOPK_TEACHER_CACHE_MAGIC ++ to_le 1 TOPK_TEACHER_CACHE_VERSION ++ reserved ++
  to_le 4 (tk_seq_len h) ++ to_le 4 (tk_vocab h) ++ to_le 4 (tk_top_k h) ++
  to_le 8 (tk_windows h) ++ tk_model_hash h ++ tk_corpus_hash h.

(** * Proofs *)

Ltac shape_bool :=
  repeat match goal with
  | |- context [?x =? 0] => destruct (Z.eqb_spec x 0)
  | |- context [?x <? ?y] => destruct (Z.ltb_spec x y)
  end; cbn [orb].

Lemma tc_payload_spec h :
  teacher_wf h ->
  (teacher_shape h /\ tc_payload_bytes h = Ok (tc_seq_len h * tc_vocab h * tc_windows h * 4)) \/
  (~ teacher_shape h /\ tc_payload_bytes h = Err TeacherCacheInvalidShape).
Proof.
  intros (Hs & Hv & Hw & _). unfold is_u32, is_u64, teacher_shape, u64_max in *.
  unfold tc_payload_bytes, window_elements.
  shape_bool; cbn [bind]; try (right; split; [lia|done]).
  assert (0 < tc_seq_len h * tc_vocab h) by nia.
  unfold checked_mul, usize_max. replace (_ * _ <=? _) with true by nia. cbn [ok_or bind].
  destruct (Z.leb_spec (tc_seq_len h * tc_vocab h * tc_windows h) 18446744073709551615);
    cbn [mbind option_bind ok_or]; [|right; split; [lia|done]].
  destruct (Z.leb_spec (tc_seq_len h * tc_vocab h * tc_windows h * 4) 18446744073709551615);
    [left|right]; (split; [lia|done]).
Qed.

Lemma tk_payload_spec h :
  topk_wf h ->
  (topk_shape h /\ window_pairs h = Ok (tk_seq_len h * tk_top_k h) /\
   window_bytes h = Ok (tk_seq_len h * tk_top_k h * 8) /\
   tk_payload_bytes h = Ok (tk_seq_len h * tk_top_k h * 8 * tk_windows h)) \/
  (~ topk_shape h /\ tk_payload_bytes h = Err TeacherCacheInvalidShape).
Proof.
  intros (Hs & Hv & Hk & Hw & _). unfold is_u32, is_u64, topk_shape, u64_max in *.
  unfold tk_payload_bytes, window_bytes, window_pairs.
  shape_bool; cbn [bind]; try (right; split; [lia|done]).
  assert (0 < tk_seq_len h * tk_top_k h) by nia.
  unfold checked_mul, usize_max. replace (_ * _ <=? _) with true by nia. cbn [ok_or bind].
  destruct (Z.leb_spec (tk_seq_len h * tk_top_k h * 8) 18446744073709551615);
    cbn [ok_or bind]; [|right; split; [nia|done]].
  destruct (Z.leb_spec (tk_seq_len h * tk_top_k h * 8 * tk_windows h) 18446744073709551615);
    [left|right]; (split; [lia|done]).
Qed.

Ltac step_read := cbn [bind negb]; match goal with
  | Hc : lc_ok ?c |- context [lc_take ?c _] => rewrite lc_take_at by done
  | Hc : lc_ok ?c |- context [lc_u8 ?c] => rewrite lc_u8_at by done
  | Hc : lc_ok ?c |- context [lc_u32 ?c] => rewrite lc_u32_at by done
  | Hc : lc_ok ?c |- context [lc_u64 ?c] => rewrite lc_u64_at by done
  | Hc : lc_ok (lc_at _ (_ ++ _)) |- _ => apply lc_at_next in Hc
  end.

(** The last field of a fixed-size record is taken up to the end. *)
Lemma lc_take_end pre x n :
  lc_ok (lc_at pre x) -> n = zlen x -> lc_take (lc_at pre x) n = Ok (x, lc_at (pre ++ x) []).
Proof. intros Hc Hn. rewrite <- (app_nil_r x) in Hc |- * at 1. by apply lc_take_at. Qed.

Ltac header_len := rewrite ?zlen_app, ?zlen_to_le; unfold zlen in *; simpl length; lia.

Lemma read_teacher_at reserved h :
  zlen reserved = 3 -> bytes_ok reserved -> teacher_wf h -> teacher_shape h ->
  read_teacher_cache_header (teacher_bytes reserved h) = Ok h.
Proof.
  intros Hr Hrb Hwf Hsh. pose proof Hwf as (Hs & Hv & Hw & Hm & Hmb & Hk & Hkb).
  assert (Hl : zlen (teacher_bytes reserved h) = 88) by (unfold teacher_bytes; header_len).
  assert (Hc : lc_ok (lc_new (teacher_bytes reserved h))).
  { apply lc_new_ok; [rewrite Hl; done|]. unfold teacher_bytes. bytes_tac. }
  unfold read_teacher_cache_header. rewrite Hl. cbn [Z.eqb TEACHER_CACHE_HEADER_BYTES Pos.eqb negb].
  rewrite lc_at_start in *. revert Hc. unfold teacher_bytes. intros Hc.
  do 2 step_read. rewrite bool_decide_true by done.
  do 2 step_read. rewrite Z.eqb_refl.
  do 10 step_read. rewrite lc_take_end by done. cbn [bind].
  destruct (tc_payload_spec h Hwf) as [[_ Hp]|[? _]]; [|done]. destruct h. simpl in *. by rewrite Hp.
Qed.

(** Nothing is left of a record of known length once its fields are read. *)
Ltac no_tail Hc Hl :=
  match type of Hc with lc_ok (lc_at _ ?r) =>
    assert (zlen r = 0) by (rewrite !zlen_app, !zlen_to_le in Hl; unfold zlen in *; simpl in Hl; lia);
    destruct r; [rewrite ?app_nil_r in *|done]
  end.

Lemma read_teacher_back bytes h :
  bytes_ok bytes -> read_teacher_cache_header bytes = Ok h ->
  exists reserved, zlen reserved = 3 /\ teacher_wf h /\ teacher_shape h /\
    bytes = teacher_bytes reserved h.
Proof.
  intros Hb H. unfold read_teacher_cache_header in H.
  destruct (Z.eqb_spec (zlen bytes) TEACHER_CACHE_HEADER_BYTES) as [Hl|]; [|done].
  unfold TEACHER_CACHE_HEADER_BYTES in Hl. cbn [negb] in H.
  assert (Hc : lc_ok (lc_new bytes)) by (apply lc_new_ok; [unfold isize_max; lia|done]).
  rewrite lc_at_start in *. back_take H Hc. case_bool_decide as Hm; [|done]. cbn [negb] in H. subst l.
  back_int lc_u8_back H Hc. destruct (Z.eqb_spec z TEACHER_CACHE_VERSION) as [->|]; [|done]. cbn [negb] in H.
  back_take H Hc. do 2 back_int lc_u32_back H Hc. back_int lc_u64_back H Hc. do 2 back_take H Hc.
  no_tail Hc Hl. bind_inv H. apply Ok_inj in H as <-.
  exists l. split; [done|].
  assert (Hwf : teacher_wf (mkTeacher z z0 z1 l0 l1)) by (unfold teacher_wf; simpl; tauto).
  destruct (tc_payload_spec _ Hwf) as [[Hs _]|[_ Hs]]; [done|congruence].
Qed.

Lemma read_topk_at reserved h :
  zlen reserved = 3 -> bytes_ok reserved -> topk_wf h -> topk_shape h ->
  read_topk_teacher_cache_header (topk_bytes reserved h) = Ok h.
Proof.
  intros Hr Hrb Hwf Hsh. pose proof Hwf as (Hs & Hv & Ht & Hw & Hm & Hmb & Hk & Hkb).
  assert (Hl : zlen (topk_bytes reserved h) = 92) by (unfold topk_bytes; header_len).
  assert (Hc : lc_ok (lc_new (topk_bytes reserved h))).
  { apply lc_new_ok; [rewrite Hl; done|]. unfold topk_bytes. bytes_tac. }
  unfold read_topk_teacher_cache_header. rewrite Hl.
  cbn [Z.eqb TOPK_TEACHER_CACHE_HEADER_BYTES Pos.eqb negb].
  rewrite lc_at_start in *. revert Hc. unfold topk_bytes. intros Hc.
  do 2 step_read. rewrite bool_decide_true by done.
  do 2 step_read. rewrite Z.eqb_refl.
  do 12 step_read. rewrite lc_take_end by done. cbn [bind].
  destruct (tk_payload_spec h Hwf) as [(_ & _ & _ & Hp)|[? _]]; [|done]. destruct h. simpl in *. by rewrite Hp.
Qed.

Lemma read_topk_back bytes h :
  bytes_ok bytes -> read_topk_teacher_cache_header bytes = Ok h ->
  exists reserved, zlen reserved = 3 /\ topk_wf h /\ topk_shape h /\
    bytes = topk_bytes reserved h.
Proof.
  intros Hb H. unfold read_topk_teacher_cache_header in H.
  destruct (Z.eqb_spec (zlen bytes) TOPK_TEACHER_CACHE_HEADER_BYTES) as [Hl|]; [|done].
  unfold TOPK_TEACHER_CACHE_HEADER_BYTES in Hl. cbn [negb] in H.
  assert (Hc : lc_ok (lc_new bytes)) by (apply lc_new_ok; [unfold isize_max; lia|done]).
  rewrite lc_at_start in *. back_take H Hc. case_bool_decide as Hm; [|done]. cbn [negb] in H. subst l.
  back_int lc_u8_back H Hc. destruct (Z.eqb_spec z TOPK_TEACHER_CACHE_VERSION) as [->|]; [|done].
  cbn [negb] in H. back_take H Hc. do 3 back_int lc_u32_back H Hc. back_int lc_u64_back H Hc.
  do 2 back_take H Hc. no_tail Hc Hl. bind_inv H. apply Ok_inj in H as <-.
  exists l. split; [done|].
  assert (Hwf : topk_wf (mkTopk z z0 z1 z2 l0 l1)) by (unfold topk_wf; simpl; tauto).
  destruct (tk_payload_spec _ Hwf) as [[Hs _]|[_ Hs]]; [done|congruence].
Qed.

Lemma window_pairs_inv h pairs :
  topk_wf h -> window_pairs h = Ok pairs ->
  0 < pairs /\ pairs = tk_seq_len h * tk_top_k h /\ 0 < tk_vocab h.
Proof.
  intros (Hs & Hv & Hk & _). unfold is_u32 in *. unfold window_pairs. shape_bool; try done.
  intros Hq. apply ok_or_inv, checked_mul_inv in Hq. nia.
Qed.

Lemma window_bytes_of h pairs :
  window_pairs h = Ok pairs ->
  window_bytes h = if pairs * 8 <=? usize_max then Ok (pairs * 8) else Err TeacherCacheInvalidShape.
Proof. intros H. unfold window_bytes. rewrite H. cbn [bind]. unfold checked_mul. by destruct (_ <=? _). Qed.

(** Below the vocabulary: what both directions require of an index. *)
Definition index_ok (h : TopkTeacherCacheHeader) (i : Z) : Prop := is_u32 i /\ i < tk_vocab h.

Lemma existsb_index h l :
  Forall is_u32 l -> existsb (fun i => tk_vocab h <=? i) l = false <-> Forall (index_ok h) l.
Proof.
  intros Hl. induction Hl as [|i l Hi Hl IH]; [split; [constructor|done]|]. simpl.
  rewrite orb_false_iff, IH, list.Forall_cons. unfold index_ok. intuition lia.
Qed.

(** The encoder's result and exactly when it gives one. *)
Lemma encode_topk_inv h indices prob b :
  topk_wf h -> Forall is_u32 indices ->
  encode_topk_window h indices prob = Ok b <->
  exists pairs, window_pairs h = Ok pairs /\ pairs * 8 <= usize_max /\
    zlen indices = pairs /\ zlen prob = pairs /\ Forall (index_ok h) indices /\
    b = concat (to_le 4 <$> indices) ++ concat (to_le 4 <$> prob).
Proof.
  intros Hwf Hi. unfold encode_topk_window. split.
  - intros H. bind_inv H. exists v. destruct (Z.eqb_spec (zlen indices) v); [|done].
    destruct (Z.eqb_spec (zlen prob) v); [|done]. cbn [negb orb] in H.
    destruct (existsb _ indices) eqn:Hx; [done|]. apply (existsb_index h indices Hi) in Hx.
    bind_inv H. rewrite for_each_append in H. cbn [bind] in H. rewrite for_each_append in H.
    apply Ok_inj in H as <-. unfold mul_usize in Hv0.
    destruct (checked_mul v 8) eqn:Hm; [|done]. apply checked_mul_inv in Hm. tauto.
  - intros (pairs & -> & Hp & <- & Hl & Hx & ->). cbn [bind]. rewrite Hl, Z.eqb_refl. cbn [negb orb].
    apply (existsb_index h indices Hi) in Hx. rewrite Hx, mul_usize_Ok by done. cbn [bind].
    rewrite for_each_append. cbn [bind]. by rewrite for_each_append.
Qed.

Lemma read_index_at h indices pre rest :
  Forall (index_ok h) indices -> lc_ok (lc_at pre (concat (to_le 4 <$> indices) ++ rest)) ->
  for_n (length indices) 0 (read_index (tk_vocab h)) (lc_at pre (concat (to_le 4 <$> indices) ++ rest), [])
  = Ok (lc_at (pre ++ concat (to_le 4 <$> indices)) rest, indices).
Proof.
  intros Hi Hc. rewrite read_loop_at; [done| |done]. intros x p r a i Hx Hcx. unfold read_index.
  rewrite list.Forall_forall in Hi. destruct (Hi x Hx) as [Hu Hv]. rewrite lc_u32_at by done. cbn [bind].
  by replace (_ <=? _) with false by lia.
Qed.

Lemma read_prob_at prob pre rest :
  Forall is_u32 prob -> lc_ok (lc_at pre (concat (to_le 4 <$> prob) ++ rest)) ->
  for_n (length prob) 0 read_prob (lc_at pre (concat (to_le 4 <$> prob) ++ rest), [])
  = Ok (lc_at (pre ++ concat (to_le 4 <$> prob)) rest, prob).
Proof.
  intros Hi Hc. rewrite read_loop_at; [done| |done]. intros x p r a i Hx Hcx. unfold read_prob.
  rewrite list.Forall_forall in Hi. rewrite lc_take_at by done. cbn [bind].
  rewrite zlen_to_le. simpl Z.eqb. cbv iota. rewrite from_to_le; [done|]. by apply Hi.
Qed.

Lemma read_index_back h i pre rest acc c' acc' :
  lc_ok (lc_at pre rest) -> read_index (tk_vocab h) i (lc_at pre rest, acc) = Ok (c', acc') ->
  exists x rest', index_ok h x /\ rest = to_le 4 x ++ rest' /\ c' = lc_at (pre ++ to_le 4 x) rest' /\
    acc' = acc ++ [x].
Proof.
  intros Hc H. unfold read_index in H. back_int lc_u32_back H Hc.
  destruct (Z.leb_spec (tk_vocab h) z); [done|]. injection H as <- <-. by exists z, x.
Qed.

Lemma read_prob_back i pre rest acc c' acc' :
  lc_ok (lc_at pre rest) -> read_prob i (lc_at pre rest, acc) = Ok (c', acc') ->
  exists x rest', is_u32 x /\ rest = to_le 4 x ++ rest' /\ c' = lc_at (pre ++ to_le 4 x) rest' /\
    acc' = acc ++ [x].
Proof.
  intros Hc H. unfold read_prob in H. back_take H Hc.
  assert (Hl : length l = 4%nat) by (unfold zlen in *; lia).
  destruct (zlen l =? 4); [|done]. injection H as <- <-. exists (from_le l), x.
  pose proof (from_le_bound l ltac:(done)) as Hb. replace (zlen l) with 4 in Hb by done.
  split; [exact Hb|]. rewrite <- Hl, to_from_le by done. done.
Qed.

Lemma decode_encode_topk h indices prob b :
  topk_wf h -> Forall is_u32 indices -> Forall is_u32 prob -> zlen b <= isize_max ->
  encode_topk_window h indices prob = Ok b -> decode_topk_window h b = Ok (indices, prob).
Proof.
  intros Hwf Hi Hp Hb H. apply encode_topk_inv in H as (pairs & Hw & Hm & Hl & Hl' & Hx & ->); [|done..].
  unfold decode_topk_window. rewrite Hw, (window_bytes_of h pairs Hw). cbn [bind].
  replace (_ <=? usize_max) with true by lia. cbn [bind].
  rewrite zlen_app, !zlen_concat_le4, Hl, Hl'. replace (_ =? _) with true by lia. cbn [negb].
  unfold for_range. replace (Z.to_nat (pairs - 0)) with (length indices) at 1 by (unfold zlen in *; lia).
  replace (Z.to_nat (pairs - 0)) with (length prob) by (unfold zlen in *; lia).
  assert (Hc : lc_ok (lc_new (concat (to_le 4 <$> indices) ++ concat (to_le 4 <$> prob)))).
  { apply lc_new_ok; [done|]. apply bytes_ok_app; apply concat_bytes; intros; apply to_le_bytes. }
  rewrite lc_at_start in *. rewrite read_index_at by done. cbn [bind].
  apply lc_at_next in Hc. rewrite <- (app_nil_r (concat (to_le 4 <$> prob))) in *.
  rewrite read_prob_at by done. done.
Qed.

Lemma encode_decode_topk h indices prob b :
  topk_wf h -> bytes_ok b -> zlen b <= isize_max ->
  decode_topk_window h b = Ok (indices, prob) -> encode_topk_window h indices prob = Ok b.
Proof.
  intros Hwf Hu Hb H. unfold decode_topk_window in H. bind_inv H. rename v into pairs.
  destruct (window_pairs_inv h pairs Hwf Hv) as (Hpos & _).
  rewrite (window_bytes_of h pairs Hv) in H. destruct (Z.leb_spec (pairs * 8) usize_max); [|done].
  cbn [bind] in H. destruct (Z.eqb_spec (zlen b) (pairs * 8)) as [Hlb|]; [|by bind_inv H].
  cbn [negb] in H. bind_inv H. destruct v as [c1 ii]. bind_inv H. destruct v as [c2 ps].
  injection H as -> ->. pose proof (lc_new_ok b Hb Hu) as Hc. rewrite lc_at_start in *.
  unfold for_range in Hv0, Hv1.
  destruct (read_loop_back (to_le 4) _ (index_ok h) _ _ _ _ _ _ _ (read_index_back h) Hc Hv0)
    as (ii' & r1 & Hn & HP & -> & -> & ->). apply lc_at_next in Hc.
  destruct (read_loop_back (to_le 4) _ is_u32 _ _ _ _ _ _ _ read_prob_back Hc Hv1)
    as (ps' & r2 & Hn' & HP' & -> & _ & ->). simpl in *.
  apply encode_topk_inv; [done|eapply list.Forall_impl; [exact HP|by intros ? [? _]]|].
  exists pairs. rewrite !zlen_app, !zlen_concat_le4 in Hlb. unfold zlen in *.
  assert (Hz : length r2 = 0%nat) by lia. destruct r2; [|done]. rewrite app_nil_r.
  repeat split; try done; lia.
Qed.

(** * Theorems *)

(** A header file is accepted exactly when it is 88 (respectively 92) bytes that
    spell the magic, the version, any three reserved bytes and the fields of a
    header whose shape is valid; and the header returned is the one spelled. *)
Theorem teacher_header_exact bytes h :
  bytes_ok bytes ->
  read_teacher_cache_header bytes = Ok h <->
  exists reserved, zlen reserved = 3 /\ teacher_wf h /\ teacher_shape h /\
    bytes = teacher_bytes reserved h.
Proof.
  intros Hb. split; [by apply read_teacher_back|]. intros (r & Hr & Hwf & Hsh & ->).
  apply read_teacher_at; try done. unfold teacher_bytes in Hb. apply Forall_app in Hb as [_ Hb].
  apply Forall_app in Hb as [_ Hb]. by apply Forall_app in Hb as [Hb _].
Qed.

Theorem topk_header_exact bytes h :
  bytes_ok bytes ->
  read_topk_teacher_cache_header bytes = Ok h <->
  exists reserved, zlen reserved = 3 /\ topk_wf h /\ topk_shape h /\
    bytes = topk_bytes reserved h.
Proof.
  intros Hb. split; [by apply read_topk_back|]. intros (r & Hr & Hwf & Hsh & ->).
  apply read_topk_at; try done. unfold topk_bytes in Hb. apply Forall_app in Hb as [_ Hb].
  apply Forall_app in Hb as [_ Hb]. by apply Forall_app in Hb as [Hb _].
Qed.

(** The writers refuse exactly the shapes the readers refuse, and what they write
    reads back. *)
Theorem topk_header_roundtrip h :
  topk_wf h ->
  (topk_shape h /\ exists bytes, write_topk_teacher_cache_header h = Ok bytes /\
     read_topk_teacher_cache_header bytes = Ok h) \/
  (~ topk_shape h /\ write_topk_teacher_cache_header h = Err TeacherCacheInvalidShape).
Proof.
  intros Hwf. unfold write_topk_teacher_cache_header.
  destruct (tk_payload_spec h Hwf) as [(Hs & _ & _ & ->)|[Hs ->]]; [left|by right].
  split; [done|]. eexists. split; [done|]. apply (read_topk_at [0; 0; 0]); try done.
  by repeat constructor.
Qed.

Theorem teacher_header_roundtrip h :
  teacher_wf h ->
  (teacher_shape h /\ exists bytes, write_teacher_cache_header h = Ok bytes /\
     read_teacher_cache_header bytes = Ok h) \/
  (~ teacher_shape h /\ write_teacher_cache_header h = Err TeacherCacheInvalidShape).
Proof.
  intros Hwf. unfold write_teacher_cache_header.
  destruct (tc_payload_spec h Hwf) as [(Hs & ->)|[Hs ->]]; [left|by right].
  split; [done|]. eexists. split; [done|]. apply (read_teacher_at [0; 0; 0]); try done.
  by repeat constructor.
Qed.

(** C36: one window of top-k pairs: the decoder accepts a byte string, with some indices
    and probabilities, exactly when the encoder produces that byte string from
    them. So the payload format is canonical: every window that decodes
    re-encodes to the same bytes, and nothing the encoder refuses decodes. *)
Theorem topk_window_canonical h indices prob bytes :
  topk_wf h -> Forall is_u32 indices -> Forall is_u32 prob ->
  bytes_ok bytes -> zlen bytes <= isize_max ->
  decode_topk_window h bytes = Ok (indices, prob) <->
  encode_topk_window h indices prob = Ok bytes.
Proof.
  intros Hwf Hi Hp Hu Hb. split; [by apply encode_decode_topk|by apply decode_encode_topk].
Qed.

Definition sample_header : TopkTeacherCacheHeader :=
  mkTopk 2 10 2 3 (vec 17 32) (vec 34 32).

Lemma topk_window_canonical_witness :
  decode_topk_window sample_header
    (concat (to_le 4 <$> [9; 0; 3; 7]) ++ concat (to_le 4 <$> [5; 6; 7; 8])) =
  Ok ([9; 0; 3; 7], [5; 6; 7; 8]).
Proof.
  apply (topk_window_canonical sample_header).
  - unfold topk_wf, is_u32, is_u64. simpl.
    repeat split; try lia; apply bytes_ok_check; reflexivity.
  - unfold is_u32. repeat constructor; lia.
  - unfold is_u32. repeat constructor; lia.
  - apply bytes_ok_check. reflexivity.
  - vm_compute. discriminate.
  - reflexivity.
Defined.
