(* ===== verification/FloatOrder.v ===== *)
(** * The order and the rounded sum of binary floating-point numbers

    The executable IEEE 754 operations of the Standard Library ([spec_float], at
    any precision [prec] and exponent bound [emax]) come without lemmas. This file
    has the ones a program that accumulates a running total needs: the value of a
    non-negative number as an integer multiple of the least positive one, that
    comparison is comparison of these values, that a sum is the exact sum rounded
    to nearest even, that rounding is monotone and fixes what is representable,
    and so that adding a non-negative number never makes a total smaller. *)

From S2P Require Import Prelude.
From Stdlib Require Import ZArith Lia Bool Floats.SpecFloat.
From stdpp Require Import base list numbers.

#[local] Open Scope Z_scope.

(** ** Digits *)

Definition dg (m : Z) : Z := Z.log2 m + 1.

Lemma dg_bounds m : 0 < m -> 2 ^ (dg m - 1) <= m < 2 ^ dg m.
Proof.
  intros Hm. unfold dg. rewrite Z.add_simpl_r. pose proof (Z.log2_spec m Hm) as H.
  by replace (Z.log2 m + 1) with (Z.succ (Z.log2 m)) by lia.
Qed.

Lemma dg_pos m : 0 < dg m.
Proof. unfold dg. pose proof (Z.log2_nonneg m). lia. Qed.

Lemma dg_unique m d : 0 <= d -> 2 ^ d <= m < 2 ^ (d + 1) -> dg m = d + 1.
Proof. intros Hd Hm. unfold dg. f_equal. by apply Z.log2_unique. Qed.

Lemma dg_mono a b : a <= b -> dg a <= dg b.
Proof. intros H. unfold dg. pose proof (Z.log2_le_mono a b H). lia. Qed.

Lemma dg_shift m n : 0 < m -> 0 <= n -> dg (m * 2 ^ n) = dg m + n.
Proof. intros Hm Hn. unfold dg. rewrite Z.log2_mul_pow2 by lia. lia. Qed.

Lemma dg_lt m d : 0 < m -> 0 <= d -> m < 2 ^ d <-> dg m <= d.
Proof.
  intros Hm Hd. pose proof (dg_bounds m Hm) as Hb. pose proof (dg_pos m). split; intros H'.
  - destruct (Z.le_gt_cases (dg m) d); [done|].
    pose proof (Z.pow_le_mono_r 2 d (dg m - 1) ltac:(lia) ltac:(lia)). lia.
  - pose proof (Z.pow_le_mono_r 2 (dg m) d ltac:(lia) ltac:(lia)). lia.
Qed.

Lemma dg_div m n : 0 < m -> 0 <= n < dg m -> dg (m / 2 ^ n) = dg m - n.
Proof.
  intros Hm Hn. unfold dg in *. rewrite <- Z.shiftr_div_pow2, Z.log2_shiftr by lia.
  pose proof (Z.log2_nonneg m). lia.
Qed.

Lemma digits2_dg p : Z.pos (digits2_pos p) = dg (Z.pos p).
Proof.
  unfold dg. induction p as [p IH|p IH|]; cbn [digits2_pos]; [..|done].
  - rewrite Pos2Z.inj_succ, IH, Pos2Z.inj_xI, Z.log2_succ_double by lia. lia.
  - rewrite Pos2Z.inj_succ, IH, Pos2Z.inj_xO, Z.log2_double by lia. lia.
Qed.

Lemma Zdigits2_dg m : 0 < m -> Zdigits2 m = dg m.
Proof. destruct m; [lia| |lia]. intros _. apply digits2_dg. Qed.

(** ** Shifts *)

Lemma shl_align_value m e e' :
  e' <= e -> Z.pos (fst (shl_align m e e')) = Z.pos m * 2 ^ (e - e') /\ snd (shl_align m e e') = e'.
Proof.
  intros He. unfold shl_align. destruct (e' - e) as [|d|d] eqn:Hd; cbn [fst snd].
  - replace e' with e by lia. rewrite Z.sub_diag. lia.
  - lia.
  - split; [|done]. replace (e - e') with (Z.pos d) by lia. rewrite <- Pos2Z.inj_pow.
    rewrite <- Pos2Z.inj_mul. f_equal. clear. revert m. induction d as [|d IH] using Pos.peano_ind; intros m.
    + simpl. lia.
    + rewrite Pos.iter_succ, IH, Pos.pow_succ_r. lia.
Qed.

(** Rounding [m / 2^n] to nearest, ties to even. *)
Definition rne (m n : Z) : Z :=
  let q := m / 2 ^ n in
  match 2 * (m mod 2 ^ n) ?= 2 ^ n with
  | Lt => q
  | Eq => if Z.even q then q else q + 1
  | Gt => q + 1
  end.

(** The record after [n] one-bit shifts: the quotient, the last bit out, and
    whether any bit before it was set. *)
Definition shr_of (m : Z) (n : nat) : shr_record :=
  match n with
  | O => {| shr_m := m; shr_r := false; shr_s := false |}
  | S k => {| shr_m := m / 2 ^ Z.of_nat n; shr_r := Z.odd (m / 2 ^ Z.of_nat k);
              shr_s := negb (m mod 2 ^ Z.of_nat k =? 0) |}
  end.

Lemma iter_pos_nat {A} (f : A -> A) p : forall x, SpecFloat.iter_pos f p x = Nat.iter (Pos.to_nat p) f x.
Proof.
  induction p as [p IH|p IH|]; intros x; cbn [SpecFloat.iter_pos]; [| |done].
  - rewrite !IH, <- Nat.iter_add, Pos2Nat.inj_xI. rewrite <- Nat.iter_succ_r. f_equal. lia.
  - rewrite !IH, <- Nat.iter_add, Pos2Nat.inj_xO. f_equal. lia.
Qed.

Lemma shr_1_half m r s :
  0 <= m -> shr_1 {| shr_m := m; shr_r := r; shr_s := s |} =
  {| shr_m := m / 2; shr_r := Z.odd m; shr_s := r || s |}.
Proof.
  intros Hm. unfold shr_1. destruct m as [|[p|p|]|]; try done; try lia; f_equal.
  - apply Z.div_unique with 1; lia.
  - apply Z.div_unique with 0; lia.
Qed.

Lemma mod_pow_S m k : 0 <= k -> m mod 2 ^ (k + 1) = m mod 2 ^ k + 2 ^ k * Z.b2z (Z.odd (m / 2 ^ k)).
Proof.
  intros Hk. rewrite Z.pow_add_r, Z.pow_1_r by lia. rewrite Z.rem_mul_r by lia.
  f_equal. by rewrite Zmod_odd; destruct (Z.odd _).
Qed.

Lemma shr_iter m n : 0 <= m -> Nat.iter n shr_1 {| shr_m := m; shr_r := false; shr_s := false |} = shr_of m n.
Proof.
  intros Hm. induction n as [|n IH]; [done|]. cbn [Nat.iter nat_rect]. unfold Nat.iter in IH. rewrite IH.
  destruct n as [|n]; cbn [shr_of].
  - rewrite shr_1_half by done. simpl. by rewrite Z.div_1_r, Z.mod_1_r.
  - rewrite shr_1_half by (apply Z.div_pos; lia). f_equal.
    + rewrite Z.div_div by lia. f_equal.
      rewrite (Nat2Z.inj_succ (S n)), Z.pow_succ_r by lia. lia.
    + replace (Z.of_nat (S n)) with (Z.of_nat n + 1) by lia. rewrite mod_pow_S by lia.
      pose proof (Z.mod_pos_bound m (2 ^ Z.of_nat n) ltac:(lia)).
      destruct (Z.odd (m / 2 ^ Z.of_nat n)); cbn [Z.b2z orb].
      * symmetry. apply negb_true_iff, Z.eqb_neq. lia.
      * by rewrite Z.mul_0_r, Z.add_0_r.
Qed.

Lemma round_shr m n :
  0 <= m -> round_nearest_even (shr_m (shr_of m n)) (loc_of_shr_record (shr_of m n)) = rne m (Z.of_nat n).
Proof.
  intros Hm. unfold rne. destruct n as [|k]; cbn [shr_of shr_m loc_of_shr_record].
  { simpl. by rewrite Z.mod_1_r, Z.div_1_r. }
  replace (Z.of_nat (S k)) with (Z.of_nat k + 1) by lia. rewrite mod_pow_S by lia.
  pose proof (Z.mod_pos_bound m (2 ^ Z.of_nat k) ltac:(lia)).
  rewrite (Z.pow_add_r 2 (Z.of_nat k) 1), Z.pow_1_r by lia.
  destruct (Z.odd (m / 2 ^ Z.of_nat k)); cbn [Z.b2z];
    destruct (Z.eqb_spec (m mod 2 ^ Z.of_nat k) 0) as [->|Hz]; cbn [negb].
  - replace (_ ?= _) with Eq by (symmetry; apply Z.compare_eq_iff; lia). done.
  - replace (_ ?= _) with Gt by (symmetry; apply Z.compare_gt_iff; lia). done.
  - replace (_ ?= _) with Lt by (symmetry; apply Z.compare_lt_iff; lia). done.
  - replace (_ ?= _) with Lt by (symmetry; apply Z.compare_lt_iff; lia). done.
Qed.

(** ** Rounding *)

Lemma rne_range m n : m / 2 ^ n <= rne m n <= m / 2 ^ n + 1.
Proof. unfold rne. destruct (_ ?= _); [destruct (Z.even _)|..]; lia. Qed.

Lemma rne_multiple m n : 0 <= n -> rne (m * 2 ^ n) n = m.
Proof.
  intros Hn. unfold rne. rewrite Z.div_mul, Z.mod_mul by lia.
  pose proof (Z.pow_pos_nonneg 2 n ltac:(lia) Hn).
  by replace (2 * 0 ?= 2 ^ n) with Lt by (symmetry; apply Z.compare_lt_iff; lia).
Qed.

Lemma rne_0 m : rne m 0 = m.
Proof. pose proof (rne_multiple m 0 ltac:(lia)) as H. by rewrite Z.pow_0_r, Z.mul_1_r in H. Qed.

Lemma rne_scale m n a : 0 <= n -> 0 <= a -> rne (m * 2 ^ a) (n + a) = rne m n.
Proof.
  intros Hn Ha. unfold rne. rewrite Z.pow_add_r by lia.
  pose proof (Z.pow_pos_nonneg 2 n ltac:(lia) Hn). pose proof (Z.pow_pos_nonneg 2 a ltac:(lia) Ha).
  rewrite Z.div_mul_cancel_r, Z.mul_mod_distr_r by lia. rewrite Z.mul_assoc.
  by rewrite <- Zmult_compare_compat_r by lia.
Qed.

Lemma rne_mono a b n : 0 <= n -> a <= b -> rne a n <= rne b n.
Proof.
  intros Hn Hab. pose proof (Z.pow_pos_nonneg 2 n ltac:(lia) Hn) as Hp.
  pose proof (Z.div_le_mono a b (2 ^ n) Hp Hab) as Hq. pose proof (rne_range a n). pose proof (rne_range b n).
  destruct (Z.eq_dec (a / 2 ^ n) (b / 2 ^ n)) as [E|]; [|lia]. unfold rne. rewrite E.
  pose proof (Z.div_mod a (2 ^ n) ltac:(lia)). pose proof (Z.div_mod b (2 ^ n) ltac:(lia)).
  assert (a mod 2 ^ n <= b mod 2 ^ n) by (rewrite E in *; lia).
  destruct (Z.compare_spec (2 * (a mod 2 ^ n)) (2 ^ n)), (Z.compare_spec (2 * (b mod 2 ^ n)) (2 ^ n));
    try destruct (Z.even _); lia.
Qed.

Section format.
Context (prec emax : Z) (Hprec : 1 < prec) (Hemax : prec < emax).

#[local] Abbreviation emin := (SpecFloat.emin prec emax).
#[local] Abbreviation fexp := (SpecFloat.fexp prec emax).

(** Rounding to [prec] significant digits. *)
Definition rnd (k : Z) : Z :=
  let s := Z.max 0 (dg k - prec) in rne k s * 2 ^ s.

Lemma rnd_upper k : 0 < k -> rnd k <= 2 ^ dg k.
Proof.
  intros Hk. unfold rnd. set (s := Z.max 0 (dg k - prec)). pose proof (dg_bounds k Hk) as Hb.
  pose proof (dg_pos k). assert (Hs : 0 <= s <= dg k) by lia.
  replace (2 ^ dg k) with (2 ^ (dg k - s) * 2 ^ s) by (rewrite <- Z.pow_add_r by lia; f_equal; lia).
  apply Z.mul_le_mono_nonneg_r; [apply Z.pow_nonneg; lia|].
  destruct (Z.eq_dec s 0) as [->|]; [rewrite rne_0, Z.sub_0_r; lia|].
  enough (k / 2 ^ s < 2 ^ (dg k - s)) by (pose proof (rne_range k s); lia).
  apply Z.div_lt_upper_bound; [apply Z.pow_pos_nonneg; lia|]. rewrite <- Z.pow_add_r by lia.
  replace (s + (dg k - s)) with (dg k) by lia. lia.
Qed.

Lemma rnd_lower k : 0 < k -> 2 ^ (dg k - 1) <= rnd k.
Proof.
  intros Hk. unfold rnd. set (s := Z.max 0 (dg k - prec)). pose proof (dg_bounds k Hk) as Hb.
  pose proof (dg_pos k). assert (Hs : 0 <= s <= dg k - 1) by lia.
  replace (2 ^ (dg k - 1)) with (2 ^ (dg k - 1 - s) * 2 ^ s) by (rewrite <- Z.pow_add_r by lia; f_equal; lia).
  apply Z.mul_le_mono_nonneg_r; [apply Z.pow_nonneg; lia|].
  enough (2 ^ (dg k - 1 - s) <= k / 2 ^ s) by (pose proof (rne_range k s); lia).
  apply Z.div_le_lower_bound; [apply Z.pow_pos_nonneg; lia|]. rewrite <- Z.pow_add_r by lia.
  replace (s + (dg k - 1 - s)) with (dg k - 1) by lia. lia.
Qed.

Lemma rnd_0 : rnd 0 = 0.
Proof. unfold rnd, dg. simpl Z.log2. replace (Z.max 0 (0 + 1 - prec)) with 0 by lia. by rewrite rne_0. Qed.

Lemma rnd_mono a b : 0 <= a <= b -> rnd a <= rnd b.
Proof.
  intros Hab. destruct (Z.eq_dec b 0) as [->|]; [by replace a with 0 by lia|].
  pose proof (rnd_lower b ltac:(lia)) as Hb. pose proof (dg_pos b).
  pose proof (Z.pow_pos_nonneg 2 (dg b - 1) ltac:(lia) ltac:(lia)).
  destruct (Z.eq_dec a 0) as [->|]; [rewrite rnd_0; lia|].
  pose proof (dg_mono a b ltac:(lia)). destruct (Z.eq_dec (dg a) (dg b)) as [E|].
  - unfold rnd. rewrite E. apply Z.mul_le_mono_nonneg_r; [apply Z.pow_nonneg; lia|]. apply rne_mono; lia.
  - pose proof (rnd_upper a ltac:(lia)).
    pose proof (Z.pow_le_mono_r 2 (dg a) (dg b - 1) ltac:(lia) ltac:(lia)). lia.
Qed.

(** What has at most [prec] significant digits is not rounded. *)
Lemma rnd_exact m a : 0 <= m < 2 ^ prec -> 0 <= a -> rnd (m * 2 ^ a) = m * 2 ^ a.
Proof.
  intros Hm Ha. destruct (Z.eq_dec m 0) as [->|]; [by rewrite Z.mul_0_l, rnd_0|].
  unfold rnd. rewrite dg_shift by lia. assert (Hd : dg m <= prec) by (apply dg_lt; lia).
  set (s := Z.max 0 (dg m + a - prec)). assert (Hs : 0 <= s <= a) by lia.
  replace (m * 2 ^ a) with (m * 2 ^ (a - s) * 2 ^ s) by (rewrite <- Z.mul_assoc, <- Z.pow_add_r by lia; do 2 f_equal; lia).
  by rewrite rne_multiple by lia.
Qed.

(** ** Packing a rounded mantissa *)

Definition pack (s : bool) (m e : Z) : spec_float :=
  if m =? 0 then S754_zero s else
  let '(m, e) := if m =? 2 ^ prec then (2 ^ (prec - 1), e + 1) else (m, e) in
  if e <=? emax - prec then S754_finite s (Z.to_pos m) e else S754_infinity s.

Lemma emin_fexp e : emin <= fexp e.
Proof. unfold SpecFloat.fexp. lia. Qed.

Lemma shr_fexp_spec m e :
  0 < m -> e <= fexp (dg m + e) ->
  shr_fexp prec emax m e loc_Exact = (shr_of m (Z.to_nat (fexp (dg m + e) - e)), fexp (dg m + e)).
Proof.
  intros Hm He. unfold shr_fexp. rewrite Zdigits2_dg by done. cbn [shr_record_of_loc].
  set (f := fexp (dg m + e)) in *. unfold shr. destruct (f - e) as [|p|p] eqn:Hn; [..|lia].
  - by replace f with e by lia.
  - rewrite iter_pos_nat, shr_iter by lia. rewrite Z2Nat.inj_pos. f_equal. lia.
Qed.

Lemma shr_fexp_stay m e :
  0 <= m < 2 ^ prec -> emin <= e ->
  shr_fexp prec emax m e loc_Exact = ({| shr_m := m; shr_r := false; shr_s := false |}, e).
Proof.
  intros Hm He. assert (Hd : Zdigits2 m <= prec).
  { destruct (Z.eq_dec m 0) as [->|]; [simpl; lia|]. rewrite Zdigits2_dg by lia. apply dg_lt; lia. }
  unfold shr_fexp, shr, SpecFloat.fexp. cbn [shr_record_of_loc].
  destruct (Z.max (Zdigits2 m + e - prec) emin - e) eqn:Hn; [done|lia|done].
Qed.

(** The mantissa after the first shift and rounding. *)
Lemma rne_fexp m e :
  0 < m -> e <= fexp (dg m + e) ->
  let r := rne m (fexp (dg m + e) - e) in
  0 <= r <= 2 ^ prec /\ (fexp (dg m + e) = emin \/ 2 ^ (prec - 1) <= r).
Proof.
  intros Hm He r. subst r. set (f := fexp (dg m + e)) in *. set (n := f - e).
  assert (Hn : 0 <= n) by lia. assert (Hf : dg m - n <= prec) by (subst n f; unfold SpecFloat.fexp; lia).
  pose proof (rne_range m n) as Hr. pose proof (dg_bounds m Hm) as Hb.
  pose proof (Z.pow_pos_nonneg 2 n ltac:(lia) Hn) as Hp.
  assert (Hq : 0 <= m / 2 ^ n) by (apply Z.div_pos; lia).
  assert (Hup : m / 2 ^ n < 2 ^ prec).
  { apply Z.div_lt_upper_bound; [done|]. rewrite <- Z.pow_add_r by lia.
    pose proof (Z.pow_le_mono_r 2 (dg m) (n + prec) ltac:(lia) ltac:(lia)). lia. }
  split; [lia|]. destruct (Z.eq_dec f emin) as [|Hne]; [by left|right].
  assert (Hd : n = dg m - prec) by (subst n f; unfold SpecFloat.fexp in *; lia).
  enough (2 ^ (prec - 1) <= m / 2 ^ n) by lia. apply Z.div_le_lower_bound; [done|].
  rewrite <- Z.pow_add_r by lia. replace (n + (prec - 1)) with (dg m - 1) by lia. lia.
Qed.

Lemma round_aux_pack s m e :
  0 < m -> e <= fexp (dg m + e) ->
  binary_round_aux prec emax s m e loc_Exact = pack s (rne m (fexp (dg m + e) - e)) (fexp (dg m + e)).
Proof.
  intros Hm He. destruct (rne_fexp m e Hm He) as [Hr _]. pose proof (emin_fexp (dg m + e)) as Hf.
  unfold binary_round_aux. rewrite shr_fexp_spec by done. rewrite round_shr by lia.
  rewrite Z2Nat.id by lia. set (f := fexp (dg m + e)) in *. set (r := rne m (f - e)) in *.
  unfold pack. destruct (Z.eqb_spec r (2 ^ prec)) as [Hmax|].
  - pose proof (Z.pow_pos_nonneg 2 (prec - 1) ltac:(lia) ltac:(lia)) as Hp.
    assert (H2 : 2 ^ prec = 2 ^ (prec - 1) * 2)
      by (rewrite <- (Z.pow_1_r 2) at 3; rewrite <- Z.pow_add_r by lia; f_equal; lia).
    replace (r =? 0) with false by lia. rewrite Hmax.
    assert (Hd : dg (2 ^ prec) = prec + 1) by (unfold dg; rewrite Z.log2_pow2 by lia; lia).
    assert (Hf' : fexp (prec + 1 + f) = f + 1) by (unfold SpecFloat.fexp; lia).
    rewrite shr_fexp_spec by (lia || (rewrite Hd, Hf'; lia)). rewrite Hd, Hf'.
    replace (Z.to_nat (f + 1 - f)) with 1%nat by lia. cbn [shr_of shr_m].
    rewrite Z.pow_1_r, H2, Z.div_mul by lia.
    destruct (2 ^ (prec - 1)) eqn:E; [lia|done|lia].
  - rewrite shr_fexp_stay by lia. cbn [shr_m]. by destruct r eqn:E; [|simpl|lia].
Qed.

(** ** Values *)

(** Non-negative and in the format: a zero of either sign, a positive number or
    positive infinity. *)
Definition plain (x : spec_float) : bool :=
  valid_binary prec emax x &&
  match x with S754_zero _ => true | S754_infinity s | S754_finite s _ _ => negb s | S754_nan => false end.

(** The value in units of the least positive number [2^emin]; infinity is the
    power of two after the largest finite number. *)
Definition val (x : spec_float) : Z :=
  match x with
  | S754_finite _ m e => Z.pos m * 2 ^ (e - emin)
  | S754_infinity _ => 2 ^ (emax - emin)
  | _ => 0
  end.

Lemma valid_finite s m e :
  valid_binary prec emax (S754_finite s m e) = true ->
  emin <= e <= emax - prec /\ Z.pos m < 2 ^ prec /\ (e = emin \/ 2 ^ (prec - 1) <= Z.pos m).
Proof.
  cbn [valid_binary]. unfold bounded, canonical_mantissa. rewrite digits2_dg.
  intros [Hc%Z.eqb_eq He%Z.leb_le]%andb_true_iff. unfold SpecFloat.fexp in Hc.
  pose proof (dg_bounds (Z.pos m) ltac:(lia)) as Hb.
  assert (Hd : dg (Z.pos m) <= prec) by lia. split; [lia|]. split; [apply dg_lt; lia|].
  destruct (Z.eq_dec e emin) as [|Hne]; [by left|right]. replace prec with (dg (Z.pos m)) by lia. lia.
Qed.

Lemma finite_valid s m e :
  emin <= e <= emax - prec -> Z.pos m < 2 ^ prec -> (e = emin \/ 2 ^ (prec - 1) <= Z.pos m) ->
  valid_binary prec emax (S754_finite s m e) = true.
Proof.
  intros He Hm Hc. cbn [valid_binary]. unfold bounded, canonical_mantissa. rewrite digits2_dg.
  apply andb_true_iff. split; [|lia]. apply Z.eqb_eq. unfold SpecFloat.fexp.
  apply (dg_lt (Z.pos m) prec) in Hm; [|lia..].
  destruct Hc as [->|Hc]; [lia|]. pose proof (dg_mono _ _ Hc) as Hd. unfold dg in Hd at 1.
  rewrite Z.log2_pow2 in Hd by lia. lia.
Qed.

Lemma pack_plain m e :
  emin <= e -> 0 <= m <= 2 ^ prec -> (e = emin \/ 2 ^ (prec - 1) <= m) ->
  plain (pack false m e) = true /\ val (pack false m e) = Z.min (2 ^ (emax - emin)) (m * 2 ^ (e - emin)).
Proof.
  intros He Hm Hc. assert (Hee : emin <= emax - prec) by (unfold SpecFloat.emin; lia).
  pose proof (Z.pow_pos_nonneg 2 (prec - 1) ltac:(lia) ltac:(lia)) as Hp.
  pose proof (Z.pow_pos_nonneg 2 (emax - emin) ltac:(lia) ltac:(lia)) as Hh.
  assert (H2 : 2 ^ prec = 2 ^ (prec - 1) * 2)
    by (rewrite <- (Z.pow_1_r 2) at 3; rewrite <- Z.pow_add_r by lia; f_equal; lia).
  unfold pack. destruct (Z.eqb_spec m 0) as [->|Hm0].
  { split; [done|]. simpl. lia. }
  assert (Hcase : exists m' e', (if m =? 2 ^ prec then (2 ^ (prec - 1), e + 1) else (m, e)) = (m', e') /\
    emin <= e' /\ 0 < m' < 2 ^ prec /\ (e' = emin \/ 2 ^ (prec - 1) <= m') /\
    m * 2 ^ (e - emin) = m' * 2 ^ (e' - emin)).
  { destruct (Z.eqb_spec m (2 ^ prec)) as [->|]; eexists _, _; (split; [done|]); [|lia].
    split; [lia|]. split; [lia|]. split; [by right|].
    rewrite H2. replace (e + 1 - emin) with (1 + (e - emin)) by lia. rewrite Z.pow_add_r, Z.pow_1_r by lia. lia. }
  destruct Hcase as (m' & e' & -> & He' & Hm' & Hc' & ->).
  destruct (Z.leb_spec e' (emax - prec)) as [Hle|Hgt].
  - split.
    + unfold plain. rewrite finite_valid; [done|lia|rewrite Z2Pos.id; lia|rewrite Z2Pos.id; lia].
    + cbn [val]. rewrite Z2Pos.id by lia. rewrite Z.min_r; [done|].
      replace (emax - emin) with (prec + (emax - prec - emin)) by lia.
      rewrite Z.pow_add_r by lia. apply Z.mul_le_mono_nonneg; try lia. apply Z.pow_le_mono_r; lia.
  - split; [done|]. cbn [val]. rewrite Z.min_l; [done|].
    destruct Hc' as [->|Hc']; [lia|].
    replace (emax - emin) with (prec - 1 + (emax - prec + 1 - emin)) by lia.
    rewrite Z.pow_add_r by lia. apply Z.mul_le_mono_nonneg; try lia. apply Z.pow_le_mono_r; lia.
Qed.

Lemma round_aux_plain m e :
  0 < m -> e <= fexp (dg m + e) -> plain (binary_round_aux prec emax false m e loc_Exact) = true.
Proof.
  intros Hm He. rewrite round_aux_pack by done. destruct (rne_fexp m e Hm He) as [Hr Hc].
  apply pack_plain; [apply emin_fexp|done|done].
Qed.

(** Rounding an integer multiple of the least positive number. *)
Lemma binary_round_val m e :
  emin <= e ->
  plain (binary_round prec emax false m e) = true /\
  val (binary_round prec emax false m e) = Z.min (2 ^ (emax - emin)) (rnd (Z.pos m * 2 ^ (e - emin))).
Proof.
  intros He. unfold binary_round. rewrite digits2_dg. set (f := fexp (dg (Z.pos m) + e)).
  assert (Hf : emin <= f) by apply emin_fexp.
  destruct (Z.le_gt_cases f e) as [Hle|Hgt].
  - destruct (shl_align_value m e f Hle) as [Hv He']. destruct (shl_align m e f) as [mz ez]. cbn [fst snd] in *.
    subst ez. assert (Hd : fexp (dg (Z.pos mz) + f) = f).
    { rewrite Hv, dg_shift by lia. subst f. f_equal. lia. }
    rewrite round_aux_pack by lia. rewrite Hd, Z.sub_diag, rne_0.
    assert (Hdm : dg (Z.pos mz) <= prec).
    { rewrite Hv, dg_shift by lia. subst f. unfold SpecFloat.fexp in *. lia. }
    destruct (rne_fexp (Z.pos mz) f ltac:(lia) ltac:(lia)) as [_ Hc]. rewrite Hd, Z.sub_diag, rne_0 in Hc.
    assert (Hlt : Z.pos mz < 2 ^ prec) by (apply dg_lt; lia).
    destruct (pack_plain (Z.pos mz) f Hf ltac:(lia) Hc) as [Hpl Hpv]. split; [done|].
    rewrite Hpv. f_equal. rewrite <- (rnd_exact (Z.pos mz) (f - emin)) by lia. f_equal.
    rewrite Hv, <- Z.mul_assoc, <- Z.pow_add_r by lia. do 2 f_equal. lia.
  - assert (Hs : shl_align m e f = (m, e)) by (unfold shl_align; destruct (f - e) eqn:E; [done|done|lia]).
    rewrite Hs. rewrite round_aux_pack by (fold f; lia). fold f.
    destruct (rne_fexp (Z.pos m) e ltac:(lia) ltac:(fold f; lia)) as [Hr Hc]. fold f in Hr, Hc.
    destruct (pack_plain _ f Hf Hr Hc) as [Hpl Hpv]. split; [done|]. rewrite Hpv. f_equal.
    unfold rnd. rewrite dg_shift by lia.
    assert (Hfe : f = dg (Z.pos m) + e - prec) by (subst f; unfold SpecFloat.fexp in *; lia).
    replace (Z.max 0 (dg (Z.pos m) + (e - emin) - prec)) with ((f - e) + (e - emin)) by lia.
    rewrite rne_scale by lia. do 2 f_equal. lia.
Qed.

Lemma plain_val x : plain x = true -> 0 <= val x <= 2 ^ (emax - emin).
Proof.
  assert (Hee : emin <= emax - prec) by (unfold SpecFloat.emin; lia).
  pose proof (Z.pow_pos_nonneg 2 (emax - emin) ltac:(lia) ltac:(lia)) as Hh.
  destruct x as [s|s| |s m e]; cbn [val]; try lia.
  unfold plain. intros [Hv _]%andb_true_iff. apply valid_finite in Hv as (He & Hm & _).
  split; [apply Z.mul_nonneg_nonneg; [lia|apply Z.pow_nonneg; lia]|].
  replace (emax - emin) with (prec + (emax - prec - emin)) by lia.
  rewrite Z.pow_add_r by lia. apply Z.mul_le_mono_nonneg; try lia.
  apply Z.pow_le_mono_r; lia.
Qed.

Lemma rnd_val x : plain x = true -> Z.min (2 ^ (emax - emin)) (rnd (val x)) = val x.
Proof.
  intros Hx. pose proof (plain_val x Hx) as Hv. assert (Hr : rnd (val x) = val x); [|lia].
  assert (Hee : emin <= emax - prec) by (unfold SpecFloat.emin; lia).
  destruct x as [s|s| |s m e]; cbn [val] in *; try apply rnd_0.
  - pose proof (proj1 (Z.pow_gt_1 2 prec ltac:(lia)) ltac:(lia)).
    pose proof (rnd_exact 1 (emax - emin)) as R. rewrite Z.mul_1_l in R. apply R; lia.
  - unfold plain in Hx. apply andb_true_iff in Hx as [Hx _]. apply valid_finite in Hx as (He & Hm & _).
    apply rnd_exact; lia.
Qed.

(** The sum of two non-negative numbers is the exact sum, rounded. *)
Lemma add_plain x y :
  plain x = true -> plain y = true ->
  plain (SFadd prec emax x y) = true /\
  val (SFadd prec emax x y) = Z.min (2 ^ (emax - emin)) (rnd (val x + val y)).
Proof.
  intros Hx Hy. pose proof (rnd_val x Hx) as Rx. pose proof (rnd_val y Hy) as Ry.
  pose proof (plain_val x Hx) as Vx. pose proof (plain_val y Hy) as Vy.
  assert (Hi : forall k, 2 ^ (emax - emin) <= k -> Z.min (2 ^ (emax - emin)) (rnd k) = 2 ^ (emax - emin)).
  { intros k Hk. apply Z.min_l. pose proof (rnd_mono (2 ^ (emax - emin)) k ltac:(lia)).
    pose proof (rnd_exact 1 (emax - emin)) as R. rewrite Z.mul_1_l in R. pose proof (proj1 (Z.pow_gt_1 2 prec ltac:(lia)) ltac:(lia)).
    assert (emin <= emax - prec) by (unfold SpecFloat.emin; lia). rewrite R in *; lia. }
  destruct x as [[]|[]| |[] m e], y as [[]|[]| |[] m' e']; try (exfalso; clear - Hx Hy; unfold plain in *;
    rewrite ?andb_false_r in *; done); cbn [val SFadd] in *; rewrite ?Z.add_0_l, ?Z.add_0_r in *;
    try (split; [done|symmetry; (done || apply Hi; lia)]).
  set (ez := Z.min e e').
  unfold plain in Hx, Hy. apply andb_true_iff in Hx as [Hx _]. apply andb_true_iff in Hy as [Hy _].
  apply valid_finite in Hx as (He & _). apply valid_finite in Hy as (He' & _).
  destruct (shl_align_value m e ez ltac:(lia)) as [Hm _].
  destruct (shl_align_value m' e' ez ltac:(lia)) as [Hm' _].
  cbn [cond_Zopp]. set (a := fst (shl_align m e ez)) in *. set (b := fst (shl_align m' e' ez)) in *.
  cbn [Z.add]. cbn [binary_normalize]. destruct (binary_round_val (a + b) ez ltac:(lia)) as [Hp Hv].
  split; [done|]. etransitivity; [exact Hv|]. rewrite Pos2Z.inj_add, Hm, Hm', Z.mul_add_distr_r, <- !Z.mul_assoc, <- !Z.pow_add_r by lia.
  do 5 f_equal; lia.
Qed.

Lemma add_grows x y :
  plain x = true -> plain y = true ->
  plain (SFadd prec emax x y) = true /\ val x <= val (SFadd prec emax x y).
Proof.
  intros Hx Hy. destruct (add_plain x y Hx Hy) as [Hp ->]. split; [done|].
  pose proof (plain_val x Hx). pose proof (plain_val y Hy).
  rewrite <- (rnd_val x Hx) at 1. pose proof (rnd_mono (val x) (val x + val y) ltac:(lia)). lia.
Qed.

Lemma add_mono_l x x' y :
  plain x = true -> plain x' = true -> plain y = true -> val x <= val x' ->
  val (SFadd prec emax x y) <= val (SFadd prec emax x' y).
Proof.
  intros Hx Hx' Hy Hl. destruct (add_plain x y Hx Hy) as [_ ->]. destruct (add_plain x' y Hx' Hy) as [_ ->].
  pose proof (plain_val x Hx). pose proof (plain_val y Hy).
  pose proof (rnd_mono (val x + val y) (val x' + val y) ltac:(lia)). lia.
Qed.

(** ** Comparison *)

(** The magnitude bits of [to_bits], sign bit aside: monotone in the value. *)
Definition magnitude (x : spec_float) : Z :=
  match x with
  | S754_zero _ => 0
  | S754_finite _ m e => (e - emin) * 2 ^ (prec - 1) + Z.pos m
  | S754_infinity _ => (emax - prec - emin + 2) * 2 ^ (prec - 1)
  | S754_nan => (emax - prec - emin + 2) * 2 ^ (prec - 1) + 2 ^ (prec - 2)
  end.

(** Canonical numbers are ordered by exponent, then mantissa. *)
Lemma finite_lt s s' m e m' e' :
  plain (S754_finite s m e) = true -> plain (S754_finite s' m' e') = true -> e < e' ->
  Z.pos m * 2 ^ (e - emin) < Z.pos m' * 2 ^ (e' - emin) /\ Z.pos m < 2 ^ (prec - 1) + Z.pos m'.
Proof.
  unfold plain. intros [Hx _]%andb_true_iff [Hy _]%andb_true_iff Hlt.
  apply valid_finite in Hx as (He & Hm & _). apply valid_finite in Hy as (He' & _ & Hc').
  destruct Hc' as [->|Hc']; [lia|].
  assert (H2 : 2 ^ prec = 2 ^ (prec - 1) * 2)
    by (rewrite <- (Z.pow_1_r 2) at 3; rewrite <- Z.pow_add_r by lia; f_equal; lia).
  split; [|lia]. apply Z.lt_le_trans with (2 ^ prec * 2 ^ (e - emin)).
  - apply Z.mul_lt_mono_pos_r; [apply Z.pow_pos_nonneg; lia|done].
  - rewrite <- Z.pow_add_r by lia. transitivity (2 ^ (prec - 1) * 2 ^ (e' - emin)).
    + rewrite <- Z.pow_add_r by lia. apply Z.pow_le_mono_r; lia.
    + apply Z.mul_le_mono_nonneg_r; [apply Z.pow_nonneg; lia|done].
Qed.

Lemma finite_lt_inf s m e :
  plain (S754_finite s m e) = true ->
  0 < Z.pos m * 2 ^ (e - emin) < 2 ^ (emax - emin) /\
  0 < magnitude (S754_finite s m e) < magnitude (S754_infinity s).
Proof.
  unfold plain. intros [Hx _]%andb_true_iff. apply valid_finite in Hx as (He & Hm & _).
  pose proof (Z.pow_pos_nonneg 2 (prec - 1) ltac:(lia) ltac:(lia)) as Hp.
  assert (H2 : 2 ^ prec = 2 ^ (prec - 1) * 2)
    by (rewrite <- (Z.pow_1_r 2) at 3; rewrite <- Z.pow_add_r by lia; f_equal; lia).
  split.
  - split; [apply Z.mul_pos_pos; [lia|apply Z.pow_pos_nonneg; lia]|].
    replace (emax - emin) with (prec + (emax - prec - emin)) by lia. rewrite Z.pow_add_r by lia.
    apply Z.lt_le_trans with (2 ^ prec * 2 ^ (e - emin)).
    + apply Z.mul_lt_mono_pos_r; [apply Z.pow_pos_nonneg; lia|done].
    + apply Z.mul_le_mono_nonneg_l; [lia|]. apply Z.pow_le_mono_r; lia.
  - cbn [magnitude]. nia.
Qed.

Lemma magnitude_val x y :
  plain x = true -> plain y = true -> (magnitude x ?= magnitude y) = (val x ?= val y).
Proof.
  intros Hx Hy. pose proof (fun s m e H => finite_lt_inf s m e H) as Hi.
  assert (Hee : emin <= emax - prec) by (unfold SpecFloat.emin; lia).
  pose proof (Z.pow_pos_nonneg 2 (emax - emin) ltac:(lia) ltac:(lia)) as Hh.
  pose proof (Z.pow_pos_nonneg 2 (prec - 1) ltac:(lia) ltac:(lia)) as Hp.
  assert (Hinf : 0 < (emax - prec - emin + 2) * 2 ^ (prec - 1)) by nia.
  destruct x as [s|s| |s m e], y as [s'|s'| |s' m' e']; try done; cbn [val];
    try (specialize (Hi _ _ _ Hx) as Fx); try (specialize (Hi _ _ _ Hy) as Fy); cbn [magnitude] in *;
    try (rewrite !Z.compare_refl; done);
    try (transitivity Lt; [apply Z.compare_lt_iff; lia|symmetry; apply Z.compare_lt_iff; lia]);
    try (transitivity Gt; [apply Z.compare_gt_iff; lia|symmetry; apply Z.compare_gt_iff; lia]).
  destruct (Z.lt_trichotomy e e') as [Hlt|[->|Hgt]].
  - destruct (finite_lt _ _ _ _ _ _ Hx Hy Hlt) as [Hv Hm]. transitivity Lt;
      [apply Z.compare_lt_iff; nia|symmetry; by apply Z.compare_lt_iff].
  - assert (He' : emin <= e').
    { unfold plain in Hy. apply andb_true_iff in Hy as [Hy _]. apply valid_finite in Hy. lia. }
    rewrite Z.add_compare_mono_l. rewrite <- Zmult_compare_compat_r; [done|].
    apply Z.lt_gt, Z.pow_pos_nonneg; lia.
  - destruct (finite_lt _ _ _ _ _ _ Hy Hx Hgt) as [Hv Hm]. transitivity Gt;
      [apply Z.compare_gt_iff; nia|symmetry; by apply Z.compare_gt_iff].
Qed.

Lemma plain_compare x y :
  plain x = true -> plain y = true -> SFcompare x y = Some (val x ?= val y).
Proof.
  intros Hx Hy. pose proof (fun s m e H => finite_lt_inf s m e H) as Hi.
  assert (Hee : emin <= emax - prec) by (unfold SpecFloat.emin; lia).
  pose proof (Z.pow_pos_nonneg 2 (emax - emin) ltac:(lia) ltac:(lia)) as Hh.
  rewrite <- magnitude_val by done.
  destruct x as [s|[]| |[] m e], y as [s'|[]| |[] m' e']; try done;
    try (unfold plain in *; rewrite ?andb_false_r in *; done);
    try (specialize (Hi _ _ _ Hx) as Fx); try (specialize (Hi _ _ _ Hy) as Fy);
    cbn [SFcompare]; f_equal; symmetry;
    rewrite ?Z.compare_refl, ?Z.compare_lt_iff, ?Z.compare_gt_iff; try done; try (apply Fx || apply Fy).
  all: cbn [magnitude] in *; try nia.
  destruct (Z.compare_spec e e') as [->|Hlt|Hgt].
  - rewrite Z.add_compare_mono_l. done.
  - destruct (finite_lt _ _ _ _ _ _ Hx Hy Hlt) as [_ Hm]. apply Z.compare_lt_iff. nia.
  - destruct (finite_lt _ _ _ _ _ _ Hy Hx Hgt) as [_ Hm]. apply Z.compare_gt_iff. nia.
Qed.

Lemma plain_ltb x y : plain x = true -> plain y = true -> SFltb x y = (val x <? val y).
Proof. intros Hx Hy. unfold SFltb. rewrite plain_compare by done. unfold Z.ltb. by destruct (_ ?= _). Qed.

(** Being above a fixed bound, of any sign or a NaN, is preserved upwards. *)
Lemma ltb_upward c x y :
  valid_binary prec emax c = true -> plain x = true -> plain y = true -> val x <= val y ->
  SFltb c x = true -> SFltb c y = true.
Proof.
  intros Hc Hx Hy Hl Hlt. destruct (plain c) eqn:Hp.
  - rewrite plain_ltb in * by done. lia.
  - unfold plain in Hp. rewrite Hc in Hp. unfold plain in Hy.
    destruct c as [s|[]| |[] m e]; try done; destruct y as [s'|[]| |[] m' e']; try done;
      by rewrite andb_false_r in Hy.
Qed.

(** ** Products *)

Lemma mul_finite_plain m e m' e' :
  plain (S754_finite false m e) = true -> plain (S754_finite false m' e') = true ->
  plain (SFmul prec emax (S754_finite false m e) (S754_finite false m' e')) = true.
Proof.
  intros Hx Hy. cbn [SFmul xorb]. apply round_aux_plain; [lia|].
  unfold plain in Hx, Hy. apply andb_true_iff in Hx as [Hx _]. apply andb_true_iff in Hy as [Hy _].
  apply valid_finite in Hx as (He & _ & Hc). apply valid_finite in Hy as (He' & _ & Hc').
  assert (Hd : forall a b : positive, 2 ^ (prec - 1) <= Z.pos a -> prec <= dg (Z.pos (a * b))).
  { intros a b Ha. pose proof (dg_mono (2 ^ (prec - 1)) (Z.pos (a * b)) ltac:(nia)) as H.
    unfold dg in H at 1. rewrite Z.log2_pow2 in H by lia. lia. }
  unfold SpecFloat.fexp. destruct Hc as [->|Hc]; [|specialize (Hd m m' Hc); lia].
  destruct Hc' as [->|Hc']; [unfold SpecFloat.emin; lia|]. specialize (Hd m' m Hc').
  rewrite Pos.mul_comm in Hd. lia.
Qed.

(** A product of non-negative numbers is one, unless it is zero times infinity. *)
Lemma mul_plain x y :
  plain x = true -> plain y = true ->
  plain (SFmul prec emax x y) = true \/ SFmul prec emax x y = S754_nan.
Proof.
  intros Hx Hy. destruct x as [s|[]| |[] m e], y as [s'|[]| |[] m' e']; try (by left); try (by right);
    try (exfalso; clear - Hx Hy; unfold plain in *; rewrite ?andb_false_r in *; done).
  left. by apply mul_finite_plain.
Qed.

Lemma mul_by_finite_plain x m e :
  plain x = true -> plain (S754_finite false m e) = true ->
  plain (SFmul prec emax x (S754_finite false m e)) = true.
Proof.
  intros Hx Hy. destruct x as [s|[]| |[] m' e']; try done;
    try (exfalso; clear - Hx; unfold plain in *; rewrite ?andb_false_r in *; done).
  by apply mul_finite_plain.
Qed.

(** [n as f] for a count. *)
Lemma of_Z_plain n s : 0 <= n -> plain (binary_normalize prec emax n 0 s) = true.
Proof.
  intros Hn. destruct n as [|p|p]; [done| |lia]. cbn [binary_normalize].
  apply binary_round_val. unfold SpecFloat.emin. lia.
Qed.

(** ** Running totals *)

(** A total that may already be a NaN, and how it moves. *)
Definition total_ok (s : spec_float) : Prop := s = S754_nan \/ plain s = true.
Definition grown (s s' : spec_float) : Prop :=
  (s = S754_nan /\ s' = S754_nan) \/ (plain s = true /\ plain s' = true /\ val s <= val s').

Lemma grown_refl s : total_ok s -> grown s s.
Proof. intros [->|Hs]; [by left|right]. split; [done|]. split; [done|lia]. Qed.

Lemma grown_trans s1 s2 s3 : grown s1 s2 -> grown s2 s3 -> grown s1 s3.
Proof.
  intros [[-> ->]|(H1 & H2 & Hl)] [[Hn ->]|(H3 & H4 & Hl')]; try (by left); try done.
  - by subst.
  - right. split; [done|]. split; [done|lia].
Qed.

Lemma total_add s b : total_ok s -> plain b = true -> total_ok (SFadd prec emax s b) /\ grown s (SFadd prec emax s b).
Proof.
  intros [->|Hs] Hb; [split; by left|]. destruct (add_grows s b Hs Hb) as [Hp Hl].
  split; [by right|]. right. done.
Qed.

(** Once a bound is exceeded by adding [b], it stays exceeded as the total grows. *)
Lemma exceeded_stays bound s s' b :
  valid_binary prec emax bound = true -> plain b = true -> grown s s' ->
  SFltb bound (SFadd prec emax s b) = true -> SFltb bound (SFadd prec emax s' b) = true.
Proof.
  intros Hv Hb [[-> ->]|(Hs & Hs' & Hl)] H; [done|].
  destruct (add_plain s b Hs Hb) as [Hp _]. destruct (add_plain s' b Hs' Hb) as [Hp' _].
  apply (ltb_upward bound _ _ Hv Hp Hp'); [by apply add_mono_l|done].
Qed.
End format.
