(* ===== verification/Plane.v ===== *)
(** * Residual ternary plane expansion (crates/tritium-quantize/src/plane.rs)

    A group of weights is fitted by ternary planes, each the AbsMean quantization
    of what the planes before it left. An [f32] is as in F32, an [f64] a
    [spec_float] of precision 53 and exponent bound 1024, and every sum runs in
    the order of the source; [Iterator::sum] starts from [-0.0].

    The proofs show that asking for more planes never changes the planes already
    fitted, so that a prefix of a long expansion is the short expansion, and that
    quantizing a weight always gives a trit. *)

From S2P Require Import Prelude Core F32 FloatOrder.
From Stdlib Require Import ZArith Lia Bool Floats.SpecFloat.
From stdpp Require Import base list numbers.

#[local] Open Scope Z_scope.

(** ** binary64 *)

Abbreviation f64 := spec_float.

Definition f64_add (x y : f64) : f64 := SFadd 53 1024 x y.
Definition f64_sub (x y : f64) : f64 := SFsub 53 1024 x y.
Definition f64_mul (x y : f64) : f64 := SFmul 53 1024 x y.
Definition f64_div (x y : f64) : f64 := SFdiv 53 1024 x y.
Definition f64_of_Z (n : Z) : f64 := binary_normalize 53 1024 n 0 false.

(** [x as f64]: exact. *)
Definition f64_of_f32 (x : f32) : f64 :=
  match x with
  | S754_finite s m e => binary_normalize 53 1024 (if s then Z.neg m else Z.pos m) e s
  | _ => x
  end.

Definition f64_sum (l : list f64) : f64 := foldl f64_add (S754_zero true) l.

(** ** The [f32] methods the quantizer calls *)

(** [f32::round]: to the nearest integer, halves away from zero. *)
Definition f32_round (x : f32) : f32 :=
  match x with
  | S754_finite s m e =>
      if 0 <=? e then x else
      let q := Z.pos m / 2 ^ (- e) in
      let r := Z.pos m mod 2 ^ (- e) in
      let q := if 2 ^ (- e) <=? 2 * r then q + 1 else q in
      if q =? 0 then S754_zero s
      else binary_normalize f32_prec f32_emax (if s then - q else q) 0 s
  | _ => x
  end.

(** [f32::clamp]: a NaN stays a NaN. *)
Definition f32_clamp (x lo hi : f32) : f32 :=
  let x := if f32_ltb x lo then lo else x in
  if f32_ltb hi x then hi else x.

(** [x as i8]: towards zero, saturating, and zero for a NaN. *)
Definition f32_as_i8 (x : f32) : Z :=
  match x with
  | S754_finite s m e =>
      let q := if 0 <=? e then Z.pos m * 2 ^ e else Z.pos m / 2 ^ (- e) in
      Z.max (-128) (Z.min 127 (if s then - q else q))
  | S754_infinity s => if s then -128 else 127
  | _ => 0
  end.

(** [tritium_core::absmean]. *)
Definition absmean (weights : list f32) : f32 :=
  if zlen weights =? 0 then f32_zero else
  let sum := foldl (fun sum w => f32_add sum (SFabs w)) f32_zero weights in
  f32_div sum (f32_of_Z (zlen weights)).

(** ** Planes *)

Record Plane := mkPlane { pl_scale : f32; pl_trits : list Trit }.
Record PlaneStack := mkStack { planes : list Plane }.

Definition plane_count (s : PlaneStack) : Z := zlen (planes s).

Definition trit_f32 (t : Trit) : f32 := f32_of_Z (get t).

(** [for (o, code) in out.iter_mut().zip(&plane.trits)]: the shorter side bounds the
    loop, the rest of the buffer is untouched. *)
Fixpoint zip_update {A B} (f : A -> B -> A) (out : list A) (codes : list B) : list A :=
  match out, codes with
  | o :: out, c :: codes => f o c :: zip_update f out codes
  | out, [] => out
  | [], _ => []
  end.

(** The width check of a plane is a [debug_assert]. *)
Definition reconstruct {E} (s : PlaneStack) (group_len : Z) : res E (list f32) :=
  for_each (planes s) (fun plane out =>
    if negb (zlen (pl_trits plane) =? group_len) then Panic else
    Ok (zip_update (fun o code => f32_add o (f32_mul (pl_scale plane) (trit_f32 code))) out (pl_trits plane)))
    (vec f32_zero group_len).

Definition quantize_one {E} (x scale : f32) : res E Trit :=
  if f32_eqb scale f32_zero then Ok ZERO else
  let q := f32_as_i8 (f32_clamp (f32_round (f32_div x scale)) (f32_of_Z (-1)) (f32_of_Z 1)) in
  match from_i8 q with Ok t => Ok t | _ => Panic end.

Definition ternary_at_scale {E} (w : list f32) (scale : f32) : res E Plane :=
  let* trits := for_each w (fun x trits => let* t := quantize_one x scale in Ok (trits ++ [t])) [] in
  Ok (mkPlane scale trits).

Definition absmean_ternary {E} (w : list f32) : res E Plane :=
  let scale := absmean w in
  let* trits := for_each w (fun x trits => let* t := quantize_one x scale in Ok (trits ++ [t])) [] in
  Ok (mkPlane scale trits).

Definition subtract_plane (residual : list f32) (plane : Plane) : list f32 :=
  zip_update (fun r code => f32_sub r (f32_mul (pl_scale plane) (trit_f32 code))) residual (pl_trits plane).

(** [for _ in 0..t], with its [break]. *)
Fixpoint expand_loop {E} (t : nat) (residual : list f32) (out : list Plane) : res E (list Plane) :=
  match t with
  | O => Ok out
  | S t =>
      let* plane := absmean_ternary residual in
      if f32_eqb (pl_scale plane) f32_zero then Ok out else
      expand_loop t (subtract_plane residual plane) (out ++ [plane])
  end.

Definition residual_expand {E} (w : list f32) (t : Z) : res E PlaneStack :=
  let* l := expand_loop (Z.to_nat t) w [] in
  Ok (mkStack l).

Definition recon_error {E} (w : list f32) (stack : PlaneStack) : res E f64 :=
  let* approx := reconstruct stack (zlen w) in
  Ok (f64_sum (zip_with (fun a b =>
    let d := f64_sub (f64_of_f32 a) (f64_of_f32 b) in f64_mul d d) w approx)).

(** * What a weight quantizes to *)

(** The trit of a quotient: its sign when its magnitude is at least one half. *)
Definition ternary_of (y : f32) : Trit :=
  match y with
  | S754_finite s m e =>
      if (0 <=? e) || (2 ^ (- e) <=? 2 * Z.pos m) then (if s then NEG else POS) else ZERO
  | S754_infinity s => if s then NEG else POS
  | _ => ZERO
  end.

Lemma binary_round_opp prec emax m e :
  binary_round prec emax true m e = SFopp (binary_round prec emax false m e).
Proof.
  unfold binary_round, binary_round_aux. destruct (shl_align _ _ _) as [mz ez].
  destruct (shr_fexp _ _ _ _ _) as [mrs e1]. destruct (shr_fexp _ _ _ _ _) as [mrs' e2].
  destruct (shr_m mrs'); [done| |done]. by destruct (e2 <=? _).
Qed.

(** A positive integer rounds to at least one. *)
Lemma f32_of_pos q :
  f32_clamp (binary_round f32_prec f32_emax false q 0) (f32_of_Z (-1)) (f32_of_Z 1) = f32_of_Z 1.
Proof.
  destruct (Pos.eq_dec q xH) as [->|Hq]; [reflexivity|].
  destruct (binary_round_val 24 128 ltac:(lia) ltac:(lia) q 0 ltac:(vm_compute; discriminate)) as [Hp Hv].
  change f32_prec with 24. change f32_emax with 128.
  assert (Hone : plain 24 128 (f32_of_Z 1) = true) by reflexivity.
  assert (Hlt : f32_ltb (f32_of_Z 1) (binary_round 24 128 false q 0) = true).
  { unfold f32_ltb. rewrite (plain_ltb 24 128) by (done || lia). rewrite Hv.
    pose proof (rnd_mono 24 ltac:(lia) (2 * 2 ^ 149) (Z.pos q * 2 ^ 149)) as Hm.
    apply Z.ltb_lt. change (val 24 128 (f32_of_Z 1)) with (2 ^ 149).
    change (128 - SpecFloat.emin 24 128) with 277. change (0 - SpecFloat.emin 24 128) with 149.
    change (rnd 24 (2 * 2 ^ 149)) with (2 ^ 150) in Hm. lia. }
  assert (Hneg : f32_ltb (binary_round 24 128 false q 0) (f32_of_Z (-1)) = false).
  { destruct (binary_round 24 128 false q 0) as [|[]| |[] m e]; try done;
      unfold plain in Hp; by rewrite andb_false_r in Hp. }
  unfold f32_clamp. by rewrite Hneg, Hlt.
Qed.

Lemma f32_ltb_opp x y : f32_ltb (SFopp x) (SFopp y) = f32_ltb y x.
Proof.
  unfold f32_ltb, SFltb. destruct x as [[]|[]| |[] m e], y as [[]|[]| |[] m' e']; try done; cbn [SFcompare SFopp negb];
    rewrite (Z.compare_antisym e' e); destruct (e' ?= e); cbn [CompOpp]; try done;
    change (Pos.compare_cont Eq) with Pos.compare; rewrite (Pos.compare_antisym m' m); by destruct (Pos.compare m' m).
Qed.

Lemma f32_of_neg q :
  f32_clamp (binary_round f32_prec f32_emax true q 0) (f32_of_Z (-1)) (f32_of_Z 1) = f32_of_Z (-1).
Proof.
  pose proof (f32_of_pos q) as H. rewrite binary_round_opp.
  set (x := binary_round f32_prec f32_emax false q 0) in *. unfold f32_clamp in *.
  change (f32_of_Z (-1)) with (SFopp (f32_of_Z 1)) in *. rewrite f32_ltb_opp.
  destruct (f32_ltb (f32_of_Z 1) x) eqn:H1; [reflexivity|].
  destruct (f32_ltb x (SFopp (f32_of_Z 1))) eqn:H2; [done|]. rewrite H1 in H. subst x. rewrite H. reflexivity.
Qed.

(** [(y).round().clamp(-1.0, 1.0) as i8]. *)
Lemma round_clamp_trit y :
  f32_as_i8 (f32_clamp (f32_round y) (f32_of_Z (-1)) (f32_of_Z 1)) = get (ternary_of y).
Proof.
  destruct y as [[]|[]| |s m e]; try reflexivity. cbn [f32_round ternary_of].
  destruct (Z.leb_spec 0 e) as [He|He]; cbn [orb].
  - destruct e as [|e|e]; [|..|lia]; by destruct s.
  - pose proof (Z.pow_pos_nonneg 2 (- e) ltac:(lia) ltac:(lia)) as Hp.
    pose proof (Z.div_mod (Z.pos m) (2 ^ (- e)) ltac:(lia)) as Hd.
    pose proof (Z.mod_pos_bound (Z.pos m) (2 ^ (- e)) Hp) as Hr.
    set (q := Z.pos m / 2 ^ (- e)) in *. set (r := Z.pos m mod 2 ^ (- e)) in *.
    assert (Hq : 0 <= q) by (apply Z.div_pos; lia).
    assert (Hz : ((if 2 ^ (- e) <=? 2 * r then q + 1 else q) =? 0) = negb (2 ^ (- e) <=? 2 * Z.pos m)).
    { destruct (Z.leb_spec (2 ^ (- e)) (2 * r)), (Z.leb_spec (2 ^ (- e)) (2 * Z.pos m)); nia. }
    assert (Hn : 0 <= if 2 ^ (- e) <=? 2 * r then q + 1 else q) by (destruct (_ <=? _); lia).
    rewrite Hz. destruct (2 ^ (- e) <=? 2 * Z.pos m); cbn [negb]; [|by destruct s].
    destruct (if _ <=? _ then q + 1 else q) as [|p|p]; [done| |lia]. destruct s.
    + change (binary_normalize _ _ (- Z.pos p) 0 true) with (binary_round f32_prec f32_emax true p 0).
      by rewrite f32_of_neg.
    + change (binary_normalize _ _ (Z.pos p) 0 false) with (binary_round f32_prec f32_emax false p 0).
      by rewrite f32_of_pos.
Qed.

Definition quantized (scale x : f32) : Trit :=
  if f32_eqb scale f32_zero then ZERO else ternary_of (f32_div x scale).

Lemma quantize_one_total {E} x scale : quantize_one (E := E) x scale = Ok (quantized scale x).
Proof.
  unfold quantize_one, quantized. destruct (f32_eqb _ _); [done|].
  by rewrite round_clamp_trit, from_i8_get.
Qed.

Lemma for_each_quantize {E} scale w : forall acc,
  for_each (E := E) w (fun x trits => let* t := quantize_one x scale in Ok (trits ++ [t])) acc =
  Ok (acc ++ (quantized scale <$> w)).
Proof.
  induction w as [|x w IH]; intros acc; simpl; [by rewrite app_nil_r|].
  rewrite quantize_one_total. cbn [bind]. by rewrite IH, <- app_assoc.
Qed.

(** The plane fitted to a residual, as a function. *)
Definition plane_of (w : list f32) : Plane := mkPlane (absmean w) (quantized (absmean w) <$> w).

Lemma absmean_ternary_total {E} w : absmean_ternary (E := E) w = Ok (plane_of w).
Proof. unfold absmean_ternary. by rewrite for_each_quantize. Qed.

Lemma ternary_at_scale_total {E} w scale :
  ternary_at_scale (E := E) w scale = Ok (mkPlane scale (quantized scale <$> w)).
Proof. unfold ternary_at_scale. by rewrite for_each_quantize. Qed.

(** * The expansion *)

Fixpoint expansion (t : nat) (residual : list f32) : list Plane :=
  match t with
  | O => []
  | S t =>
      let plane := plane_of residual in
      if f32_eqb (pl_scale plane) f32_zero then [] else
      plane :: expansion t (subtract_plane residual plane)
  end.

Lemma expand_loop_expansion {E} t : forall residual out,
  expand_loop (E := E) t residual out = Ok (out ++ expansion t residual).
Proof.
  induction t as [|t IH]; intros residual out; cbn [expand_loop expansion]; [by rewrite app_nil_r|].
  rewrite absmean_ternary_total. cbn [bind]. destruct (f32_eqb _ _); [by rewrite app_nil_r|].
  by rewrite IH, <- app_assoc.
Qed.

Lemma residual_expand_total {E} w t : residual_expand (E := E) w t = Ok (mkStack (expansion (Z.to_nat t) w)).
Proof. unfold residual_expand. by rewrite expand_loop_expansion. Qed.

Lemma expansion_take t t' : (t <= t')%nat -> forall w, take t (expansion t' w) = expansion t w.
Proof.
  revert t. induction t' as [|t' IH]; intros [|t] Ht w; cbn [expansion]; try done; try lia.
  by destruct (f32_eqb _ _); simpl; [|rewrite IH by lia].
Qed.

Lemma length_expansion t : forall w, (length (expansion t w) <= t)%nat.
Proof.
  induction t as [|t IH]; intros w; cbn [expansion]; [done|]. destruct (f32_eqb _ _); simpl; [lia|].
  specialize (IH (subtract_plane w (plane_of w))). lia.
Qed.

Lemma length_zip_update {A B} (f : A -> B -> A) l : forall k, length (zip_update f l k) = length l.
Proof. induction l as [|x l IH]; intros [|y k]; simpl; auto. Qed.

Lemma expansion_width t : forall w, Forall (fun p => zlen (pl_trits p) = zlen w) (expansion t w).
Proof.
  induction t as [|t IH]; intros w; cbn [expansion]; [constructor|].
  destruct (f32_eqb _ _); constructor; [by simpl; rewrite zlen_fmap|].
  eapply Forall_impl; [|apply IH]. simpl. intros p ->. unfold subtract_plane, zlen. by rewrite length_zip_update.
Qed.

Lemma reconstruct_returns {E} s n :
  Forall (fun p => zlen (pl_trits p) = n) (planes s) -> exists out, reconstruct (E := E) s n = Ok out.
Proof.
  unfold reconstruct. generalize (vec f32_zero n). induction (planes s) as [|p l IH]; intros out H; simpl; [by eexists|].
  apply list.Forall_cons in H as [Hp Hl]. rewrite Hp, Z.eqb_refl. cbn [negb bind]. by apply IH.
Qed.

(** * Theorems *)

(** Quantizing never panics: for every weight and scale, NaNs and infinities
    included, the result is a trit, [ZERO] at scale zero and otherwise the sign of
    the quotient where its magnitude is at least one half. *)
Theorem quantize_one_threshold {E} x scale :
  quantize_one (E := E) x scale =
  Ok (if f32_eqb scale f32_zero then ZERO else ternary_of (f32_div x scale)).
Proof. apply quantize_one_total. Qed.

(** Prefix stability: an expansion with more planes allowed starts with the planes
    of every smaller expansion; it never has more planes than asked for, each as
    wide as the group; and with one plane it is the flat AbsMean plane, or nothing
    when the scale is zero. *)
Theorem residual_expand_prefix {E} w t t' :
  0 <= t <= t' ->
  exists s, residual_expand (E := E) w t' = Ok s /\
    residual_expand (E := E) w t = Ok (mkStack (take (Z.to_nat t) (planes s))) /\
    plane_count s <= t' /\ Forall (fun p => zlen (pl_trits p) = zlen w) (planes s) /\
    (t = 1 -> exists p, absmean_ternary (E := E) w = Ok p /\
       take 1 (planes s) = if f32_eqb (pl_scale p) f32_zero then [] else [p]).
Proof.
  intros Ht. eexists. rewrite !residual_expand_total. split; [done|]. cbn [planes].
  rewrite expansion_take by lia. split; [done|]. split; [|split; [apply expansion_width|]].
  - unfold plane_count, zlen. cbn [planes]. pose proof (length_expansion (Z.to_nat t') w). lia.
  - intros ->. exists (plane_of w). split; [apply absmean_ternary_total|].
    by rewrite expansion_take by lia.
Qed.
