(* ===== verification/Allocate.v ===== *)
(** * Rate-distortion plane allocation (crates/tritium-quantize/src/allocate.rs)

    Planes are handed out one at a time, to the group whose next plane buys the
    largest drop in weighted error per bit. The code keeps the candidates in a
    [BinaryHeap]; its comments claim that this reproduces, tie-breaks included, a
    linear scan over the groups. That scan is [scan_allocate] below, and the proofs
    show when the two agree.

    An [f64] is a [spec_float] of precision 53 and exponent bound 1024 (Plane);
    NaNs are one value, taken as the positive quiet NaN by [total_cmp]. A
    [debug_assert] that fails is a panic. *)

From S2P Require Import Prelude Outcome Core F32 FloatOrder Plane.
From Stdlib Require Import ZArith Lia Bool Floats.SpecFloat.
From stdpp Require Import base list numbers.

#[local] Open Scope Z_scope.

(** 1.584_962_500_721_156_2 and 1e-9, the nearest [f64]s. *)
Definition TRIT_BITS : f64 := S754_finite false 0x195c01a39fbd69 (-52).
Definition BUDGET_FEASIBILITY_SLACK_REL : f64 := S754_finite false 0x112e0be826d695 (-82).

Record GroupInput := mkGroupInput { gi_weights : list f32; gi_sensitivity : f64 }.
Record GroupCurve := mkGroupCurve { gc_curve : list f64; gc_weights : Z; gc_sensitivity : f64 }.
Record AllocConfig := mkAllocConfig { t_min : Z; t_max : Z; budget_bits : f64 }.

Definition from_bpw (target_bpw : f64) (total_weights t_min t_max : Z) : AllocConfig :=
  mkAllocConfig t_min t_max (f64_mul target_bpw (f64_of_Z total_weights)).

Definition AllocConfig_default : AllocConfig := mkAllocConfig 1 3 (S754_infinity false).

Inductive AllocError : Type :=
| BadRange (t_min t_max : Z)
| BudgetTooSmall (base_bits budget_bits : f64)
| InvalidSensitivity (group : Z) (value : f64).

Abbreviation ares := (res AllocError).

Record Allocation := mkAllocation { plane_counts : list Z }.

Definition total_bits (a : Allocation) (group_sizes : list Z) : f64 :=
  f64_sum (zip_with (fun t s => f64_mul (f64_mul (f64_of_Z s) TRIT_BITS) (f64_of_Z t))
             (plane_counts a) group_sizes).

Definition avg_bpw (a : Allocation) (group_sizes : list Z) : ares f64 :=
  let* total := for_each group_sizes (fun s acc => add_usize acc s) 0 in
  if total =? 0 then Ok (S754_zero false) else
  Ok (f64_div (total_bits a group_sizes) (f64_of_Z total)).

(** [err_g(0..=realized)]. *)
Definition error_curve (w : list f32) (t_max : Z) : ares (list f64) :=
  let* stack := residual_expand w t_max in
  let realized := plane_count stack in
  for_range 0 (realized + 1) (fun t out =>
    let* ps := slice (planes stack) 0 t in
    let* e := recon_error w (mkStack ps) in
    Ok (out ++ [e])) [].

Definition curve_at (curve : list f64) (t : Z) : ares f64 :=
  let* last := sub_usize (zlen curve) 1 in
  idx curve (Z.min t last).

Definition f64_is_finite (x : f64) : bool := is_finite x.

(** [sensitivity.is_finite() && sensitivity >= 0.0]. *)
Definition sensitivity_ok (x : f64) : bool := f64_is_finite x && SFleb (S754_zero false) x.

(** [f64::max]: the other operand when one is a NaN. *)
Definition f64_max (x y : f64) : f64 :=
  match SFcompare x y with
  | Some Lt => y
  | Some _ => x
  | None => if SFeqb x x then x else y
  end.

(** [f64::total_cmp], from the sign and magnitude bits. *)
Definition total_key (x : f64) : Z :=
  match x with
  | S754_zero true | S754_infinity true | S754_finite true _ _ => - 1 - magnitude 53 1024 x
  | _ => magnitude 53 1024 x
  end.
Definition total_cmp (x y : f64) : comparison := total_key x ?= total_key y.

(** ** The water-filling *)

Record Candidate := mkCandidate { ca_gain : f64; ca_group : Z }.

(** Highest gain first, then the lowest index. *)
Definition cand_cmp (a b : Candidate) : comparison :=
  match total_cmp (ca_gain a) (ca_gain b) with
  | Eq => ca_group b ?= ca_group a
  | c => c
  end.

(** [BinaryHeap]: [pop] removes the greatest element. *)
Definition cand_push (heap : list Candidate) (c : Candidate) : list Candidate := c :: heap.
Fixpoint cand_pop (heap : list Candidate) : option (Candidate * list Candidate) :=
  match heap with
  | [] => None
  | x :: heap' =>
      match cand_pop heap' with
      | None => Some (x, [])
      | Some (y, rest) => match cand_cmp y x with Gt => Some (y, x :: rest) | _ => Some (x, y :: rest) end
      end
  end.

Definition bits_per_plane_of (groups : list GroupCurve) : list f64 :=
  (fun g => f64_mul (f64_of_Z (gc_weights g)) TRIT_BITS) <$> groups.

Definition next_gain (groups : list GroupCurve) (cfg : AllocConfig) (bits_per_plane : list f64) (g t_g : Z)
  : ares (option f64) :=
  if t_max cfg <=? t_g then Ok None else
  let* grp := idx groups g in
  let* here := curve_at (gc_curve grp) t_g in
  let* t1 := add_usize t_g 1 in
  let* next := curve_at (gc_curve grp) t1 in
  let drop := f64_sub here next in
  if SFleb drop (S754_zero false) then Ok None else
  let* bits := idx bits_per_plane g in
  if negb (SFltb (S754_zero false) bits) then Panic else
  Ok (Some (f64_div (f64_mul (gc_sensitivity grp) drop) bits)).

(** The inner [loop]: drop what the budget no longer covers. *)
Fixpoint pop_affordable (fuel : nat) (bits_per_plane : list f64) (budget spent : f64) (heap : list Candidate)
  : ares (option Z * list Candidate) :=
  match fuel with
  | O => NoFuel
  | S fuel =>
      match cand_pop heap with
      | None => Ok (None, heap)
      | Some (c, heap) =>
          let* bits := idx bits_per_plane (ca_group c) in
          if SFltb budget (f64_add spent bits)
          then pop_affordable fuel bits_per_plane budget spent heap
          else Ok (Some (ca_group c), heap)
      end
  end.

(** The outer [loop]. *)
Fixpoint fill_loop (fuel : nat) (groups : list GroupCurve) (cfg : AllocConfig) (bits_per_plane : list f64)
  (t : list Z) (spent : f64) (heap : list Candidate) : ares (list Z) :=
  match fuel with
  | O => NoFuel
  | S fuel =>
      let* (best, heap) := pop_affordable (S (length heap)) bits_per_plane (budget_bits cfg) spent heap in
      match best with
      | None => Ok t
      | Some g =>
          let* tg := idx t g in
          let* tg := add_usize tg 1 in
          let* t := upd t g tg in
          let* bits := idx bits_per_plane g in
          let spent := f64_add spent bits in
          let* o := next_gain groups cfg bits_per_plane g tg in
          let heap := match o with Some gain => cand_push heap (mkCandidate gain g) | None => heap end in
          fill_loop fuel groups cfg bits_per_plane t spent heap
      end
  end.

Definition check_sensitivities (sens : list f64) : ares unit :=
  for_enum 0 sens (fun g s _ => if sensitivity_ok s then Ok tt else Err (InvalidSensitivity g s)) tt.

(** The base allocation and the test that the budget covers it. *)
Definition base_bits_of (bits_per_plane : list f64) (cfg : AllocConfig) : f64 :=
  f64_mul (f64_sum bits_per_plane) (f64_of_Z (t_min cfg)).
Definition base_infeasible (base_bits : f64) (cfg : AllocConfig) : bool :=
  let slack := f64_mul BUDGET_FEASIBILITY_SLACK_REL (f64_max base_bits (f64_of_Z 1)) in
  SFltb (f64_add (budget_bits cfg) slack) base_bits.

Definition initial_heap (groups : list GroupCurve) (cfg : AllocConfig) (bits_per_plane : list f64) (t : list Z)
  : ares (list Candidate) :=
  for_range 0 (zlen groups) (fun g heap =>
    let* tg := idx t g in
    let* o := next_gain groups cfg bits_per_plane g tg in
    Ok (match o with Some gain => heap ++ [mkCandidate gain g] | None => heap end)) [].

(** One addition per plane between the floor and the cap, and the last look. *)
Definition fill_fuel (groups : list GroupCurve) (cfg : AllocConfig) : nat :=
  S (Z.to_nat (zlen groups * (t_max cfg - t_min cfg))).

Definition allocate_with_curves (groups : list GroupCurve) (cfg : AllocConfig) : ares Allocation :=
  if t_max cfg <? t_min cfg then Err (BadRange (t_min cfg) (t_max cfg)) else
  let* _ := check_sensitivities (gc_sensitivity <$> groups) in
  let bits_per_plane := bits_per_plane_of groups in
  let base_bits := base_bits_of bits_per_plane cfg in
  if base_infeasible base_bits cfg then Err (BudgetTooSmall base_bits (budget_bits cfg)) else
  let t := vec (t_min cfg) (zlen groups) in
  let* heap := initial_heap groups cfg bits_per_plane t in
  let* t := fill_loop (fill_fuel groups cfg) groups cfg bits_per_plane t base_bits heap in
  Ok (mkAllocation t).

Definition allocate (groups : list GroupInput) (cfg : AllocConfig) : ares Allocation :=
  if t_max cfg <? t_min cfg then Err (BadRange (t_min cfg) (t_max cfg)) else
  let* _ := check_sensitivities (gi_sensitivity <$> groups) in
  let* curved := for_each groups (fun g out =>
    let* c := error_curve (gi_weights g) (t_max cfg) in
    Ok (out ++ [mkGroupCurve c (zlen (gi_weights g)) (gi_sensitivity g)])) [] in
  allocate_with_curves curved cfg.

(** * The reference: a scan over the groups for every plane *)

(** The groups in ascending order; a strictly greater gain takes the lead. *)
Definition scan_step (groups : list GroupCurve) (cfg : AllocConfig) (bits_per_plane : list f64) (t : list Z)
  (spent : f64) (g : Z) (best : option Candidate) : ares (option Candidate) :=
  let* tg := idx t g in
  let* o := next_gain groups cfg bits_per_plane g tg in
  match o with
  | None => Ok best
  | Some gain =>
      let* bits := idx bits_per_plane g in
      if SFltb (budget_bits cfg) (f64_add spent bits) then Ok best else
      match best with
      | Some b => if SFltb (ca_gain b) gain then Ok (Some (mkCandidate gain g)) else Ok best
      | None => Ok (Some (mkCandidate gain g))
      end
  end.

Fixpoint scan_fill (fuel : nat) (groups : list GroupCurve) (cfg : AllocConfig) (bits_per_plane : list f64)
  (t : list Z) (spent : f64) : ares (list Z * f64) :=
  match fuel with
  | O => NoFuel
  | S fuel =>
      let* best := for_range 0 (zlen groups) (scan_step groups cfg bits_per_plane t spent) None in
      match best with
      | None => Ok (t, spent)
      | Some c =>
          let* tg := idx t (ca_group c) in
          let* tg := add_usize tg 1 in
          let* t := upd t (ca_group c) tg in
          let* bits := idx bits_per_plane (ca_group c) in
          scan_fill fuel groups cfg bits_per_plane t (f64_add spent bits)
      end
  end.

Definition scan_allocate (groups : list GroupCurve) (cfg : AllocConfig) : ares Allocation :=
  if t_max cfg <? t_min cfg then Err (BadRange (t_min cfg) (t_max cfg)) else
  let* _ := check_sensitivities (gc_sensitivity <$> groups) in
  let bits_per_plane := bits_per_plane_of groups in
  let base_bits := base_bits_of bits_per_plane cfg in
  if base_infeasible base_bits cfg then Err (BudgetTooSmall base_bits (budget_bits cfg)) else
  let* r := scan_fill (fill_fuel groups cfg) groups cfg bits_per_plane
              (vec (t_min cfg) (zlen groups)) base_bits in
  Ok (mkAllocation (fst r)).

(** * What the comparison of candidates means *)

(** A gain a comparison can rank: not a NaN, and no negative zero. *)
Definition ranked (x : f64) : bool :=
  plain 53 1024 x && match x with S754_zero s => negb s | _ => true end.

Definition gain_val (c : Candidate) : Z := val 53 1024 (ca_gain c).

(** [a] is taken before [b]. *)
Definition beats (a b : Candidate) : Prop :=
  gain_val b < gain_val a \/ (gain_val b = gain_val a /\ ca_group a < ca_group b).

Lemma beats_trans a b c : beats a b -> beats b c -> beats a c.
Proof. unfold beats. lia. Qed.

Lemma beats_total a b : ca_group a <> ca_group b -> beats a b \/ beats b a.
Proof. unfold beats. lia. Qed.

Lemma beats_irrefl a : ~ beats a a.
Proof. unfold beats. lia. Qed.

Lemma ranked_plain x : ranked x = true -> plain 53 1024 x = true.
Proof. by intros [H _]%andb_true_iff. Qed.

Lemma total_cmp_val x y : ranked x = true -> ranked y = true -> total_cmp x y = (val 53 1024 x ?= val 53 1024 y).
Proof.
  intros Hx Hy. unfold total_cmp. rewrite <- magnitude_val by (lia || by apply ranked_plain).
  assert (Hk : forall z, ranked z = true -> total_key z = magnitude 53 1024 z); [|by rewrite !Hk].
  intros [[]|[]| |[] m e]; try done; unfold ranked, plain; rewrite ?andb_false_r; done.
Qed.

Lemma cand_gt_beats a b :
  ranked (ca_gain a) = true -> ranked (ca_gain b) = true -> cand_cmp a b = Gt <-> beats a b.
Proof.
  intros Ha Hb. unfold cand_cmp, beats, gain_val. rewrite total_cmp_val by done.
  destruct (Z.compare_spec (val 53 1024 (ca_gain a)) (val 53 1024 (ca_gain b))) as [->| |].
  - rewrite Z.compare_gt_iff. lia.
  - split; [done|lia].
  - split; [lia|done].
Qed.

Lemma gain_ltb a b :
  ranked (ca_gain a) = true -> ranked (ca_gain b) = true ->
  SFltb (ca_gain a) (ca_gain b) = (gain_val a <? gain_val b).
Proof. intros Ha Hb. apply plain_ltb; try lia; by apply ranked_plain. Qed.

Lemma cand_pop_spec heap c rest :
  Forall (fun c => ranked (ca_gain c) = true) heap -> NoDup (ca_group <$> heap) ->
  cand_pop heap = Some (c, rest) ->
  heap ≡ₚ c :: rest /\ Forall (beats c) rest.
Proof.
  revert c rest. induction heap as [|x heap IH]; intros c rest Hr Hn H; [done|].
  apply list.Forall_cons in Hr as [Hx Hr]. rewrite fmap_cons in Hn. apply list.NoDup_cons in Hn as [Hxn Hn]. simpl in H.
  destruct (cand_pop heap) as [[y rest']|] eqn:Hp.
  - destruct (IH y rest' Hr Hn eq_refl) as [Hperm Hb].
    assert (Hy : ranked (ca_gain y) = true).
    { rewrite list.Forall_forall in Hr. apply Hr. rewrite Hperm. apply list_elem_of_here. }
    assert (Hne : ca_group x <> ca_group y).
    { intros E. apply Hxn. rewrite E. apply list_elem_of_fmap. exists y. split; [done|]. rewrite Hperm. apply list_elem_of_here. }
    pose proof (cand_gt_beats y x Hy Hx) as Hg.
    destruct (cand_cmp y x) eqn:Hc; injection H as <- <-; rewrite Hperm.
    + split; [done|]. assert (beats x y) by (destruct (beats_total x y Hne) as [|Hb']; [done|apply Hg in Hb'; done]).
      constructor; [done|]. eapply list.Forall_impl; [exact Hb|]. intros d. by apply beats_trans.
    + split; [done|]. assert (beats x y) by (destruct (beats_total x y Hne) as [|Hb']; [done|apply Hg in Hb'; done]).
      constructor; [done|]. eapply list.Forall_impl; [exact Hb|]. intros d. by apply beats_trans.
    + split; [apply perm_swap|]. constructor; [by apply Hg|done].
  - injection H as <- <-. destruct heap as [|z heap]; [by split|].
    simpl in Hp. destruct (cand_pop heap) as [[w ?]|]; [by destruct (cand_cmp w z)|done].
Qed.

Lemma cand_pop_None heap : cand_pop heap = None -> heap = [].
Proof.
  destruct heap as [|x heap]; [done|]. simpl. destruct (cand_pop heap) as [[y ?]|]; [by destruct (cand_cmp y x)|done].
Qed.

(** * One allocation problem *)

(** Every step a group can be offered evaluates, and its gain can be ranked. *)
Definition ordinary (groups : list GroupCurve) (cfg : AllocConfig) : bool :=
  forallb (fun g => forallb (fun t =>
    match next_gain groups cfg (bits_per_plane_of groups) g t with
    | Ok None => true
    | Ok (Some gain) => ranked gain
    | _ => false
    end) (seqZ (t_min cfg) (t_max cfg - t_min cfg))) (seqZ 0 (zlen groups)).

Section problem.
Context (groups : list GroupCurve) (cfg : AllocConfig).
Context (Hrange : 0 <= t_min cfg <= t_max cfg) (Hmax : t_max cfg <= usize_max)
        (Hweights : Forall (fun g => 0 <= gc_weights g) groups)
        (Hbudget : valid_binary 53 1024 (budget_bits cfg) = true)
        (Hordinary : ordinary groups cfg = true).

#[local] Abbreviation n := (zlen groups).
#[local] Abbreviation bits := (bits_per_plane_of groups).

Definition cost (g : Z) : f64 := default S754_nan (bits !! Z.to_nat g).
Definition count (t : list Z) (g : Z) : Z := default 0 (t !! Z.to_nat g).
Definition gain_at (g t : Z) : option f64 :=
  match next_gain groups cfg bits g t with Ok o => o | _ => None end.

(** Plane counts between the floor and the cap. *)
Definition counts_ok (t : list Z) : Prop :=
  zlen t = n /\ Forall (fun x => t_min cfg <= x <= t_max cfg) t.

Lemma zlen_bits : zlen bits = n.
Proof. apply zlen_fmap. Qed.

Lemma idx_cost {E} g : 0 <= g < n -> idx (E := E) bits g = Ok (cost g).
Proof.
  intros Hg. destruct (idx_in (E := E) bits g) as [x [Hi Hx]]; [by rewrite zlen_bits|].
  unfold cost. by rewrite Hi, Hx.
Qed.

Lemma cost_plain g : 0 <= g < n -> plain 53 1024 (cost g) = true.
Proof.
  intros Hg. unfold cost, bits_per_plane_of. rewrite list_lookup_fmap.
  destruct (lookup_Z groups g Hg) as [x Hx]. rewrite Hx. simpl.
  pose proof (Forall_lookup_1 _ _ _ _ Hweights Hx) as Hw. simpl in Hw.
  apply mul_by_finite_plain; [lia|lia|apply of_Z_plain; lia|reflexivity].
Qed.

Lemma idx_count {E} t g : counts_ok t -> 0 <= g < n ->
  idx (E := E) t g = Ok (count t g) /\ t_min cfg <= count t g <= t_max cfg.
Proof.
  intros [Hl Hb] Hg. destruct (idx_in (E := E) t g) as [x [Hi Hx]]; [by rewrite Hl|].
  unfold count. rewrite Hi, Hx. split; [done|]. exact (Forall_lookup_1 _ _ _ _ Hb Hx).
Qed.

Lemma next_gain_at g t : 0 <= g < n -> t_min cfg <= t <= t_max cfg -> next_gain groups cfg bits g t = Ok (gain_at g t).
Proof.
  intros Hg Ht. unfold gain_at. destruct (Z.eq_dec t (t_max cfg)) as [->|Hne].
  { unfold next_gain. by rewrite Z.leb_refl. }
  pose proof Hordinary as H. unfold ordinary in H. rewrite forallb_seqZ in H. specialize (H g ltac:(lia)).
  rewrite forallb_seqZ in H. specialize (H t ltac:(lia)). by destruct (next_gain _ _ _ _ _).
Qed.

Lemma gain_ranked g t x : 0 <= g < n -> t_min cfg <= t <= t_max cfg -> gain_at g t = Some x -> ranked x = true.
Proof.
  intros Hg Ht Hx. pose proof (next_gain_at g t Hg Ht) as Hng. rewrite Hx in Hng.
  destruct (Z.eq_dec t (t_max cfg)) as [->|Hne].
  { unfold next_gain in Hng. by rewrite Z.leb_refl in Hng. }
  pose proof Hordinary as H. unfold ordinary in H. rewrite forallb_seqZ in H. specialize (H g ltac:(lia)).
  rewrite forallb_seqZ in H. specialize (H t ltac:(lia)). by rewrite Hng in H.
Qed.

Lemma gain_below_cap g t x : gain_at g t = Some x -> t < t_max cfg.
Proof. unfold gain_at, next_gain. destruct (Z.leb_spec (t_max cfg) t); [done|lia]. Qed.

(** ** Candidates and eligibility *)

Definition unaffordable (spent : f64) (g : Z) : bool := SFltb (budget_bits cfg) (f64_add spent (cost g)).

(** [c] is what group [ca_group c] would be offered now. *)
Definition offered (t : list Z) (c : Candidate) : Prop :=
  0 <= ca_group c < n /\ gain_at (ca_group c) (count t (ca_group c)) = Some (ca_gain c).

Definition eligible (t : list Z) (spent : f64) (c : Candidate) : Prop :=
  offered t c /\ unaffordable spent (ca_group c) = false.

(** The choice both allocators make. *)
Definition chosen (t : list Z) (spent : f64) (best : option Candidate) : Prop :=
  match best with
  | None => forall c, ~ eligible t spent c
  | Some b => eligible t spent b /\ forall c, eligible t spent c -> ca_group c <> ca_group b -> beats b c
  end.

Lemma offered_ranked t c : counts_ok t -> offered t c -> ranked (ca_gain c) = true.
Proof.
  intros Ht [Hg Ho]. eapply gain_ranked; [exact Hg| |exact Ho]. by apply (idx_count (E := unit) t).
Qed.

Lemma offered_unique t c d : offered t c -> offered t d -> ca_group c = ca_group d -> c = d.
Proof.
  destruct c as [x g], d as [y g']. unfold offered. simpl. intros [_ H1] [_ H2] <-. congruence.
Qed.

(** The choice is unique. *)
Lemma chosen_unique t spent a b : chosen t spent a -> chosen t spent b -> a = b.
Proof.
  destruct a as [a|], b as [b|]; simpl; [|by intros [? _] H2; destruct (H2 a)|by intros H1 [? _]; destruct (H1 b)|done].
  intros [Ea Ha] [Eb Hb]. f_equal. destruct (Z.eq_dec (ca_group a) (ca_group b)) as [E|Hne].
  - apply (offered_unique t); [apply Ea|apply Eb|done].
  - exfalso. apply (beats_irrefl a). eapply beats_trans; [apply (Ha b Eb); congruence|apply (Hb a Ea); congruence].
Qed.

(** ** The scan makes it *)

Definition chosen_below (t : list Z) (spent : f64) (i : Z) (best : option Candidate) : Prop :=
  match best with
  | None => forall c, eligible t spent c -> i <= ca_group c
  | Some b => eligible t spent b /\ ca_group b < i /\
      forall c, eligible t spent c -> ca_group c < i -> ca_group c <> ca_group b -> beats b c
  end.

Lemma scan_step_spec t spent i best :
  counts_ok t -> 0 <= i < n -> chosen_below t spent i best ->
  exists best', scan_step groups cfg bits t spent i best = Ok best' /\ chosen_below t spent (i + 1) best'.
Proof.
  intros Ht Hi Hb. destruct (idx_count (E := AllocError) t i Ht Hi) as [Hc Hr]. unfold scan_step.
  rewrite Hc. cbn [bind]. rewrite next_gain_at by done. cbn [bind].
  assert (Hskip : ~ (exists c, eligible t spent c /\ ca_group c = i) -> chosen_below t spent (i + 1) best).
  { intros Hno. destruct best as [b|]; simpl in *.
    - destruct Hb as (He & Hl & Hb). split; [done|]. split; [lia|]. intros c Ec Hlt Hne.
      apply Hb; [done| |done]. destruct (Z.eq_dec (ca_group c) i); [|lia]. exfalso. apply Hno. by exists c.
    - intros c Ec. specialize (Hb c Ec). destruct (Z.eq_dec (ca_group c) i); [|lia]. exfalso. apply Hno. by exists c. }
  destruct (gain_at i (count t i)) as [gain|] eqn:Hg.
  2:{ eexists. split; [done|]. apply Hskip. intros (c & [[_ Ho] _] & <-). congruence. }
  rewrite idx_cost by done. cbn [bind]. fold (unaffordable spent i).
  destruct (unaffordable spent i) eqn:Hu.
  { eexists. split; [done|]. apply Hskip. intros (c & [_ Ho] & <-). congruence. }
  set (new := mkCandidate gain i). assert (En : eligible t spent new) by done.
  assert (Hu1 : forall c, eligible t spent c -> ca_group c = i -> c = new).
  { intros c [Ec _] E. by apply (offered_unique t). }
  destruct best as [b|].
  - destruct Hb as (He & Hl & Hb). pose proof (offered_ranked t b Ht (proj1 He)) as Rb.
    pose proof (offered_ranked t new Ht (proj1 En)) as Rn. pose proof (gain_ltb b new Rb Rn) as Hlt.
    change (ca_gain new) with gain in Hlt. rewrite Hlt.
    destruct (Z.ltb_spec (gain_val b) (gain_val new)) as [Hw|Hw]; (eexists; split; [done|]); simpl.
    + split; [done|]. split; [lia|]. intros c Ec Hci Hne.
      destruct (Z.eq_dec (ca_group c) (ca_group b)) as [E|Hne'].
      * rewrite (offered_unique t c b) by (apply Ec || apply He || done). left. done.
      * eapply beats_trans; [left; exact Hw|]. apply Hb; [done|lia|done].
    + split; [done|]. split; [lia|]. intros c Ec Hci Hne.
      destruct (Z.eq_dec (ca_group c) i) as [E|]; [|apply Hb; [done|lia|done]].
      rewrite (Hu1 c Ec E). unfold beats. change (ca_group new) with i. lia.
  - eexists. split; [done|]. simpl in Hb. simpl. split; [done|]. split; [lia|].
    intros c Ec Hci Hne. specialize (Hb c Ec). lia.
Qed.

Lemma scan_chosen t spent :
  counts_ok t -> exists best, for_range 0 n (scan_step groups cfg bits t spent) None = Ok best /\ chosen t spent best.
Proof.
  intros Ht. destruct (for_range_inv (chosen_below t spent) (scan_step groups cfg bits t spent) 0 n None)
    as (best & Hf & Hb).
  - apply zlen_nonneg.
  - intros c [[Hg _] _]. lia.
  - intros i s Hi Hs. destruct (scan_step_spec t spent i s Ht Hi Hs) as (b & ? & ?). by exists b.
  - exists best. split; [done|]. destruct best as [b|]; simpl in *.
    + destruct Hb as (He & _ & Hb). split; [done|]. intros c Ec Hne. apply Hb; [done| |done]. apply Ec.
    + intros c Ec. specialize (Hb c Ec). destruct Ec as [[Hg _] _]. lia.
Qed.

(** ** The heap makes it *)

(** What the heap holds: offers that stand, one per group, and every group that is
    still eligible. *)
Definition heap_ok (t : list Z) (heap : list Candidate) : Prop :=
  Forall (offered t) heap /\ NoDup (ca_group <$> heap).
Definition covers (t : list Z) (spent : f64) (heap : list Candidate) : Prop :=
  forall c, eligible t spent c -> c ∈ heap.

Lemma heap_ok_perm t heap c rest : heap_ok t heap -> heap ≡ₚ c :: rest ->
  offered t c /\ (ca_group c ∉ (ca_group <$> rest)) /\ heap_ok t rest.
Proof.
  intros [Ho Hn] Hp. rewrite Hp in Ho. apply list.Forall_cons in Ho as [Hc Hr].
  rewrite Hp, fmap_cons in Hn. apply list.NoDup_cons in Hn as [Hni Hn]. done.
Qed.

Lemma heap_pop_chosen t heap c rest :
  counts_ok t -> heap_ok t heap -> cand_pop heap = Some (c, rest) -> heap ≡ₚ c :: rest /\ Forall (beats c) rest.
Proof.
  intros Ht [Ho Hn]. apply cand_pop_spec; [|done]. eapply list.Forall_impl; [exact Ho|].
  intros d. by apply offered_ranked.
Qed.

(** What is left after the pops: the offers behind the chosen one. *)
Definition popped (t : list Z) (spent : f64) (heap : list Candidate) (r : option Z * list Candidate) : Prop :=
  heap_ok t (snd r) /\ (forall d, d ∈ snd r -> d ∈ heap) /\
  match fst r with
  | None => forall d, d ∈ heap -> unaffordable spent (ca_group d) = true
  | Some g => exists c, ca_group c = g /\ c ∈ heap /\ unaffordable spent g = false /\
      (g ∉ (ca_group <$> snd r)) /\
      forall d, d ∈ heap -> unaffordable spent (ca_group d) = false -> d = c \/ (beats c d /\ d ∈ snd r)
  end.

Lemma pop_affordable_spec t spent : counts_ok t -> forall fuel heap,
  heap_ok t heap -> (length heap < fuel)%nat ->
  exists r, pop_affordable fuel bits (budget_bits cfg) spent heap = Ok r /\ popped t spent heap r.
Proof.
  intros Ht. induction fuel as [|fuel IH]; intros heap Hh Hf; [lia|]. cbn [pop_affordable].
  destruct (cand_pop heap) as [[c rest]|] eqn:Hp.
  2:{ apply cand_pop_None in Hp as ->. eexists. split; [done|]. split; [done|].
      split; [done|]. simpl. intros d Hd. by apply not_elem_of_nil in Hd. }
  destruct (heap_pop_chosen t heap c rest Ht Hh Hp) as [Hperm Hb].
  destruct (heap_ok_perm t heap c rest Hh Hperm) as ([Hg Ho] & Hni & Hrest).
  rewrite idx_cost by done. cbn [bind]. fold (unaffordable spent (ca_group c)).
  destruct (unaffordable spent (ca_group c)) eqn:Hu.
  - destruct (IH rest Hrest) as (r & Hr & Hpop).
    { apply Permutation_length in Hperm. simpl in Hperm. lia. }
    exists r. split; [done|]. destruct Hpop as (H1 & H2 & H3). split; [done|].
    split; [intros d Hd; rewrite Hperm; apply list_elem_of_further, H2, Hd|].
    destruct (fst r) as [g|]; simpl in *.
    + destruct H3 as (c' & Hc' & Hin & Hu' & Hn' & Hall). exists c'.
      split; [done|]. split; [rewrite Hperm; by apply list_elem_of_further|]. split; [done|]. split; [done|].
      intros d Hd Hud. rewrite Hperm in Hd. apply elem_of_cons in Hd as [->|Hd]; [congruence|by apply Hall].
    + intros d Hd. rewrite Hperm in Hd. apply elem_of_cons in Hd as [->|Hd]; [done|by apply H3].
  - eexists. split; [done|]. split; [done|]. cbn [fst snd].
    split; [intros d Hd; rewrite Hperm; by apply list_elem_of_further|].
    exists c. split; [done|]. split; [rewrite Hperm; apply list_elem_of_here|]. split; [done|]. split; [done|].
    intros d Hd Hud. rewrite Hperm in Hd. apply elem_of_cons in Hd as [->|Hd]; [by left|right].
    split; [|done]. rewrite list.Forall_forall in Hb. by apply Hb.
Qed.

(** A heap that covers the eligible groups pops the choice. *)
Lemma popped_chosen t spent heap r :
  heap_ok t heap -> covers t spent heap -> popped t spent heap r ->
  exists best, fst r = ca_group <$> best /\ chosen t spent best.
Proof.
  intros [Ho _] Hc (_ & _ & Hr). rewrite list.Forall_forall in Ho. destruct (fst r) as [g|].
  - destruct Hr as (c & Hg & Hin & Hu & _ & Hall). subst g. exists (Some c). split; [done|]. simpl.
    split; [split; [by apply Ho|done]|]. intros d Ed Hne.
    destruct (Hall d (Hc d Ed) (proj2 Ed)) as [->|[? _]]; done.
  - exists None. split; [done|]. intros d Ed. pose proof (Hr d (Hc d Ed)) as Hu. destruct Ed. congruence.
Qed.

(** ** One addition *)

Definition added (t : list Z) (g : Z) : list Z := <[Z.to_nat g := count t g + 1]> t.

Lemma count_added t g g' : 0 <= g < zlen t -> 0 <= g' ->
  count (added t g) g' = if g' =? g then count t g + 1 else count t g'.
Proof.
  intros Hg Hg'. unfold count at 1, added. destruct (Z.eqb_spec g' g) as [->|Hne].
  - rewrite list_lookup_insert_eq; [done|]. unfold zlen in Hg. lia.
  - rewrite list_lookup_insert_ne by lia. done.
Qed.

Lemma added_ok t g : counts_ok t -> 0 <= g < n -> count t g < t_max cfg -> counts_ok (added t g).
Proof.
  intros Ht Hg Hlt. pose proof (idx_count (E := unit) t g Ht Hg) as [_ Hc]. destruct Ht as [Hl Hb].
  split; [unfold added; by rewrite zlen_insert|]. apply Forall_insert; [done|lia].
Qed.

Lemma add_plane {E A} t g (k : list Z -> res E A) :
  counts_ok t -> 0 <= g < n -> count t g < t_max cfg ->
  (let* tg := idx t g in let* tg := add_usize tg 1 in let* t := upd t g tg in k t) = k (added t g).
Proof.
  intros Ht Hg Hlt. destruct (idx_count (E := E) t g Ht Hg) as [-> Hc]. cbn [bind].
  rewrite add_usize_Ok by lia. cbn [bind]. rewrite upd_Ok; [done|]. by destruct Ht as [-> _].
Qed.

Definition re_push (t : list Z) (g : Z) (heap : list Candidate) : list Candidate :=
  match gain_at g (count t g + 1) with Some gain => cand_push heap (mkCandidate gain g) | None => heap end.

Lemma offered_other t g c : 0 <= g < zlen t -> ca_group c <> g -> offered (added t g) c <-> offered t c.
Proof.
  intros Hg Hne. unfold offered. split; intros [Hr Ho]; (split; [done|]); rewrite count_added in * by lia;
    by replace (ca_group c =? g) with false in * by lia.
Qed.

Lemma re_push_ok t spent g heap rest :
  counts_ok t -> 0 <= g < n -> total_ok 53 1024 spent -> covers t spent heap ->
  popped t spent heap (Some g, rest) ->
  heap_ok (added t g) (re_push t g rest) /\ covers (added t g) (f64_add spent (cost g)) (re_push t g rest).
Proof.
  intros Ht Hg Hs Hcov ([Ho Hn] & Hsub & Hc). cbn [fst snd] in *.
  destruct Hc as (c & Hcg & Hin & Hu & Hni & Hall).
  assert (Hgt : 0 <= g < zlen t) by (by destruct Ht as [-> _]).
  assert (Hrest : Forall (offered (added t g)) rest).
  { rewrite list.Forall_forall in *. intros d Hd. apply offered_other; [done| |by apply Ho].
    intros E. apply Hni. rewrite <- E. by apply list_elem_of_fmap_2. }
  assert (Hcount : count (added t g) g = count t g + 1) by (rewrite count_added by lia; by rewrite Z.eqb_refl).
  split.
  - unfold re_push. destruct (gain_at g (count t g + 1)) as [gain|] eqn:Hgain; [|done].
    split; [constructor; [|done]|]; [split; simpl; [done|by rewrite Hcount]|].
    unfold cand_push. rewrite fmap_cons. by apply list.NoDup_cons.
  - intros d [Hd Hud]. unfold re_push. destruct (Z.eq_dec (ca_group d) g) as [E|Hne].
    + destruct Hd as [_ Hd]. rewrite E, Hcount in Hd. rewrite Hd. destruct d as [x gd]. simpl in *. subst gd.
      apply list_elem_of_here.
    + apply offered_other in Hd; [|done|done].
      assert (Hud' : unaffordable spent (ca_group d) = false).
      { destruct (unaffordable spent (ca_group d)) eqn:Hx; [|done]. unfold unaffordable in *.
        rewrite <- Hud. symmetry. eapply exceeded_stays; [lia|lia|exact Hbudget| | |exact Hx].
        - apply cost_plain. apply Hd.
        - apply total_add; [lia|lia|done|by apply cost_plain]. }
      destruct (Hall d) as [->|[_ Hd']]; [by apply Hcov|done|congruence|].
      destruct (gain_at g (count t g + 1)); [by apply list_elem_of_further|done].
Qed.

(** ** The loops *)

(** One iteration of the scan, as a value. *)
Lemma scan_fill_S fuel t spent best :
  counts_ok t -> chosen t spent best ->
  scan_fill (S fuel) groups cfg bits t spent =
  match best with
  | None => Ok (t, spent)
  | Some c => scan_fill fuel groups cfg bits (added t (ca_group c)) (f64_add spent (cost (ca_group c)))
  end.
Proof.
  intros Ht Hc. cbn [scan_fill]. destruct (scan_chosen t spent Ht) as (best' & -> & Hc').
  rewrite (chosen_unique _ _ _ _ Hc' Hc). cbn [bind]. destruct best as [c|]; [|done].
  destruct Hc as [[[Hg Ho] _] _]. apply gain_below_cap in Ho. rewrite add_plane by done.
  rewrite idx_cost by done. done.
Qed.

Lemma fill_is_scan fuel : forall t spent heap,
  counts_ok t -> total_ok 53 1024 spent -> heap_ok t heap -> covers t spent heap ->
  fill_loop fuel groups cfg bits t spent heap =
  (let* r := scan_fill fuel groups cfg bits t spent in Ok (fst r)).
Proof.
  induction fuel as [|fuel IH]; intros t spent heap Ht Hs Hh Hc; [done|].
  destruct (pop_affordable_spec t spent Ht (S (length heap)) heap Hh ltac:(lia)) as ([og rest] & Hp & Hpop).
  destruct (popped_chosen t spent heap _ Hh Hc Hpop) as (best & Hbest & Hch). cbn [fst] in Hbest. subst og.
  rewrite (scan_fill_S fuel t spent best Ht Hch). cbn [fill_loop]. rewrite Hp. cbn [bind].
  destruct best as [c|]; [|done]. cbn [fmap option_fmap option_map].
  destruct Hch as [[[Hg Ho] _] _]. pose proof (gain_below_cap _ _ _ Ho) as Hlt.
  destruct (idx_count (E := AllocError) t (ca_group c) Ht Hg) as [Hi Hb]. rewrite Hi. cbn [bind].
  rewrite add_usize_Ok by lia. cbn [bind]. rewrite upd_Ok by (by destruct Ht as [-> _]). cbn [bind].
  rewrite idx_cost by done. cbn [bind]. rewrite next_gain_at by (done || lia). cbn [bind].
  fold (added t (ca_group c)). fold (re_push t (ca_group c) rest).
  destruct (re_push_ok t spent (ca_group c) heap rest Ht Hg Hs Hc Hpop) as [Hh' Hc'].
  apply IH; [by apply added_ok| |done|done].
  apply total_add; [lia|lia|done|by apply cost_plain].
Qed.

(** ** The specification both implement

    From [t_min] everywhere, planes are added one at a time, each to the eligible
    group that beats the others, until none is eligible. *)
Inductive greedy_run : list Z -> f64 -> list Z -> f64 -> Prop :=
| run_stop t spent : chosen t spent None -> greedy_run t spent t spent
| run_add t spent c t' spent' :
    chosen t spent (Some c) ->
    greedy_run (added t (ca_group c)) (f64_add spent (cost (ca_group c))) t' spent' ->
    greedy_run t spent t' spent'.

Lemma zsum_added t g : counts_ok t -> 0 <= g < n -> zsum (added t g) = zsum t + 1.
Proof.
  intros [Hl _] Hg. destruct (lookup_Z t g) as [x Hx]; [by rewrite Hl|].
  unfold added, count. rewrite Hx. simpl. rewrite (zsum_insert _ _ _ _ Hx). lia.
Qed.

Lemma counts_room t : counts_ok t -> zsum t <= n * t_max cfg.
Proof.
  intros [<- Hb]. clear - Hb Hrange. induction Hb as [|x t Hx Hb IH]; [done|].
  rewrite zlen_cons. change (zsum (x :: t)) with (x + zsum t). lia.
Qed.

Lemma scan_fill_runs fuel : forall t spent,
  counts_ok t -> n * t_max cfg - zsum t < Z.of_nat fuel ->
  exists t' spent', scan_fill fuel groups cfg bits t spent = Ok (t', spent') /\ greedy_run t spent t' spent'.
Proof.
  induction fuel as [|fuel IH]; intros t spent Ht Hf; [pose proof (counts_room t Ht); lia|].
  destruct (scan_chosen t spent Ht) as (best & _ & Hc). rewrite (scan_fill_S fuel t spent best Ht Hc).
  destruct best as [c|]; [|by exists t, spent; split; [|constructor]].
  destruct Hc as [[[Hg Ho] Hu] Hb] eqn:E. clear E. pose proof (gain_below_cap _ _ _ Ho) as Hlt.
  destruct (IH (added t (ca_group c)) (f64_add spent (cost (ca_group c)))) as (t' & s' & Hs & Hr).
  - by apply added_ok.
  - rewrite zsum_added by done. lia.
  - exists t', s'. split; [done|]. by apply run_add with c.
Qed.

(** Every run stays between the floor and the cap, only spends what the budget
    covers, and stops when nothing more can be bought. *)
Lemma greedy_run_inv t spent t' spent' :
  greedy_run t spent t' spent' -> counts_ok t ->
  counts_ok t' /\ chosen t' spent' None /\
  ((t' = t /\ spent' = spent) \/ SFltb (budget_bits cfg) spent' = false).
Proof.
  induction 1 as [t spent Hc|t spent c t' spent' Hc Hr IH]; intros Ht; [by split; [|split; [|left]]|].
  destruct Hc as [[[Hg Ho] Hu] Hb]. pose proof (gain_below_cap _ _ _ Ho) as Hlt.
  destruct (IH (added_ok t (ca_group c) Ht Hg Hlt)) as (H1 & H2 & H3). split; [done|]. split; [done|].
  right. destruct H3 as [[_ ->]|]; [exact Hu|done].
Qed.

Lemma greedy_run_det t spent t1 s1 t2 s2 :
  greedy_run t spent t1 s1 -> greedy_run t spent t2 s2 -> t1 = t2 /\ s1 = s2.
Proof.
  intros H1. revert t2 s2. induction H1 as [t spent Hc|t spent c t' spent' Hc Hr IH]; intros t2 s2 H2;
    inversion H2 as [? ? Hc'|? ? c' ? ? Hc' Hr']; subst; pose proof (chosen_unique _ _ _ _ Hc Hc') as E; try done.
  injection E as <-. by apply IH.
Qed.

(** ** The start *)

Lemma initial_heap_spec t :
  counts_ok t -> exists heap, initial_heap groups cfg bits t = Ok heap /\ heap_ok t heap /\
    forall c, offered t c -> c ∈ heap.
Proof.
  intros Ht. unfold initial_heap.
  destruct (for_range_inv (fun i heap => heap_ok t heap /\ Forall (fun c => ca_group c < i) heap /\
      forall c, offered t c -> ca_group c < i -> c ∈ heap)
    (fun g heap => let* tg := idx t g in
      let* o := next_gain groups cfg bits g tg in
      Ok (match o with Some gain => heap ++ [mkCandidate gain g] | None => heap end)) 0 n []) as (heap & Hf & Hh & _ & Hc).
  - apply zlen_nonneg.
  - split; [split; constructor|]. split; [constructor|]. intros c [Hr _]. lia.
  - intros i heap Hi ([Ho Hn] & Hlt & Hc). destruct (idx_count (E := AllocError) t i Ht Hi) as [-> Hb]. cbn [bind].
    rewrite next_gain_at by done. cbn [bind]. eexists. split; [done|].
    assert (Hlt' : Forall (fun c => ca_group c < i + 1) heap) by (eapply list.Forall_impl; [exact Hlt|simpl; lia]).
    destruct (gain_at i (count t i)) as [gain|] eqn:Hg.
    + assert (Hnew : offered t (mkCandidate gain i)) by done. split; [split|split].
      * apply Forall_app. split; [done|]. by constructor.
      * rewrite fmap_app. apply list.NoDup_app. split; [done|]. split; [|apply NoDup_singleton].
        intros x Hx Hx'. apply list_elem_of_singleton in Hx' as ->. simpl in Hx.
        apply list_elem_of_fmap in Hx as (d & Hd & Hin). rewrite list.Forall_forall in Hlt.
        specialize (Hlt d Hin). lia.
      * apply Forall_app. split; [done|]. constructor; [simpl; lia|constructor].
      * intros c Hof Hci. apply elem_of_app. destruct (Z.eq_dec (ca_group c) i) as [E|]; [|left; apply Hc; [done|lia]].
        right. apply list_elem_of_singleton. by apply (offered_unique t).
    + split; [done|]. split; [done|]. intros c Hof Hci. apply Hc; [done|].
      destruct (Z.eq_dec (ca_group c) i) as [E|]; [|lia]. destruct Hof as [_ Hof]. rewrite E in Hof. congruence.
  - exists heap. split; [done|]. split; [done|]. intros c Hof. apply Hc; [done|]. apply Hof.
Qed.

Lemma sum_plain l : Forall (fun x => plain 53 1024 x = true) l -> plain 53 1024 (f64_sum l) = true.
Proof.
  intros Hl. unfold f64_sum. assert (H0 : plain 53 1024 (S754_zero true) = true) by done.
  revert H0. generalize (S754_zero true). induction Hl as [|x l Hx Hl IH]; intros acc Ha; [done|].
  apply IH. by apply add_plain; [lia|lia|..].
Qed.

Lemma base_total : total_ok 53 1024 (base_bits_of bits cfg).
Proof.
  unfold base_bits_of, f64_mul, total_ok. apply or_comm. apply mul_plain; [lia|lia| |apply of_Z_plain; lia].
  apply sum_plain. apply list.Forall_forall. intros x Hx. apply list_elem_of_lookup in Hx as [i Hi].
  assert (Hr : 0 <= Z.of_nat i < n).
  { rewrite <- zlen_bits. pose proof (lookup_lt_Some _ _ _ Hi). unfold zlen. lia. }
  pose proof (cost_plain (Z.of_nat i) Hr) as Hc. unfold cost in Hc. by rewrite Nat2Z.id, Hi in Hc.
Qed.

Lemma start_ok : counts_ok (vec (t_min cfg) n).
Proof.
  split; [rewrite zlen_vec; pose proof (zlen_nonneg groups); lia|]. apply Forall_replicate. lia.
Qed.

Lemma zsum_start : zsum (vec (t_min cfg) n) = n * t_min cfg.
Proof.
  pose proof (zlen_nonneg groups). unfold vec. rewrite <- (Z2Nat.id n) at 2 by done.
  induction (Z.to_nat n) as [|k IH]; [done|]. cbn [replicate].
  change (zsum (t_min cfg :: ?l)) with (t_min cfg + zsum l). rewrite IH. lia.
Qed.

(** From the start, the heap's loop ends with the state of the greedy run. *)
Lemma fill_from_start :
  exists t spent heap,
    initial_heap groups cfg bits (vec (t_min cfg) n) = Ok heap /\
    fill_loop (fill_fuel groups cfg) groups cfg bits (vec (t_min cfg) n) (base_bits_of bits cfg) heap = Ok t /\
    scan_fill (fill_fuel groups cfg) groups cfg bits (vec (t_min cfg) n) (base_bits_of bits cfg) = Ok (t, spent) /\
    greedy_run (vec (t_min cfg) n) (base_bits_of bits cfg) t spent.
Proof.
  destruct (initial_heap_spec _ start_ok) as (heap & Hi & Hh & Hc).
  destruct (scan_fill_runs (fill_fuel groups cfg) _ (base_bits_of bits cfg) start_ok) as (t & spent & Hs & Hr).
  { rewrite zsum_start. unfold fill_fuel. pose proof (zlen_nonneg groups). nia. }
  exists t, spent, heap. split; [done|]. split; [|done].
  rewrite fill_is_scan; [by rewrite Hs|apply start_ok|apply base_total|done|].
  intros c [Ho _]. by apply Hc.
Qed.
End problem.

(** * Theorems *)

(** What the Rust types say: counts and weights are [usize], the budget is an [f64]. *)
Definition alloc_wf (groups : list GroupCurve) (cfg : AllocConfig) : bool :=
  (0 <=? t_min cfg) && (t_max cfg <=? usize_max) &&
  forallb (fun g => 0 <=? gc_weights g) groups && valid_binary 53 1024 (budget_bits cfg).

Lemma alloc_wf_inv groups cfg :
  alloc_wf groups cfg = true ->
  0 <= t_min cfg /\ t_max cfg <= usize_max /\ Forall (fun g => 0 <= gc_weights g) groups /\
  valid_binary 53 1024 (budget_bits cfg) = true.
Proof.
  unfold alloc_wf. rewrite !andb_true_iff. intros [[[H1 H2] H3] H4]. split; [lia|]. split; [lia|]. split; [|done].
  apply list.Forall_forall. intros g Hg. rewrite forallb_forall in H3. specialize (H3 g).
  rewrite <- list_elem_of_In in H3. specialize (H3 Hg). lia.
Qed.

Lemma for_enum_guard {E A} (p : A -> bool) (e : Z -> A -> E) (l : list A) : forall lo,
  forallb p l = true -> for_enum lo l (fun g s _ => if p s then Ok tt else Err (e g s)) tt = Ok tt.
Proof.
  induction l as [|x l IH]; intros lo; simpl; [done|]. intros [Hx Hl]%andb_true_iff. rewrite Hx. by apply IH.
Qed.

Lemma check_sensitivities_ok sens : forallb sensitivity_ok sens = true -> check_sensitivities sens = Ok tt.
Proof. apply for_enum_guard. Qed.

(** C19: the heap reproduces the scan: on every input whose steps evaluate to gains that
    can be ranked, the allocator with the heap gives, errors included, the result of
    the allocator that scans all groups for every plane. Groups dropped from the
    heap as unaffordable never become affordable again, because the rounded running
    total never decreases. *)
Theorem heap_is_scan groups cfg :
  alloc_wf groups cfg = true -> ordinary groups cfg = true ->
  allocate_with_curves groups cfg = scan_allocate groups cfg.
Proof.
  intros Hwf Ho. destruct (alloc_wf_inv groups cfg Hwf) as (H0 & Hm & Hw & Hb).
  unfold allocate_with_curves, scan_allocate. destruct (Z.ltb_spec (t_max cfg) (t_min cfg)); [done|].
  destruct (check_sensitivities _); [|done..]. cbn [bind]. destruct (base_infeasible _ _); [done|].
  destruct (fill_from_start groups cfg ltac:(lia) Hm Hw Hb Ho) as (t & spent & heap & -> & Hf & Hs & _).
  cbn [bind]. by rewrite Hf, Hs.
Qed.

(** C20: the allocation is the end of a greedy run. On every input that passes the checks
    ([t_min <= t_max], finite nonnegative sensitivities, a feasible base) and whose steps
    evaluate to gains that can be ranked (no NaN and no negative zero, on which ties go
    otherwise), the allocator returns; it starts from [t_min] planes everywhere, each
    added plane goes to the affordable group of highest gain (lowest index on ties), every
    count lies in [[t_min, t_max]], the running total is within the budget unless nothing
    was added, and at the end every group is at the cap, gains nothing from another plane,
    or cannot afford it. *)
Theorem allocation_greedy groups cfg :
  alloc_wf groups cfg = true -> ordinary groups cfg = true ->
  t_min cfg <= t_max cfg -> forallb sensitivity_ok (gc_sensitivity <$> groups) = true ->
  base_infeasible (base_bits_of (bits_per_plane_of groups) cfg) cfg = false ->
  exists a spent,
    allocate_with_curves groups cfg = Ok a /\
    greedy_run groups cfg (vec (t_min cfg) (zlen groups)) (base_bits_of (bits_per_plane_of groups) cfg)
      (plane_counts a) spent /\
    zlen (plane_counts a) = zlen groups /\
    Forall (fun t => t_min cfg <= t <= t_max cfg) (plane_counts a) /\
    (plane_counts a = vec (t_min cfg) (zlen groups) \/ SFltb (budget_bits cfg) spent = false) /\
    forall g, 0 <= g < zlen groups ->
      gain_at groups cfg g (count (plane_counts a) g) = None \/
      SFltb (budget_bits cfg) (f64_add spent (cost groups g)) = true.
Proof.
  intros Hwf Ho Hr Hsens Hf. destruct (alloc_wf_inv groups cfg Hwf) as (H0 & Hm & Hw & Hb).
  destruct (fill_from_start groups cfg ltac:(lia) Hm Hw Hb Ho) as (t & spent & heap & Hi & Hfill & _ & Hrun).
  destruct (greedy_run_inv groups cfg _ _ _ _ Hrun (start_ok groups cfg ltac:(lia)))
    as ([Hl Hc] & Hend & Hbud).
  exists (mkAllocation t), spent. split.
  { unfold allocate_with_curves. replace (_ <? _) with false by lia. rewrite check_sensitivities_ok by done.
    cbn [bind]. rewrite Hf, Hi. cbn [bind]. by rewrite Hfill. }
  cbn [plane_counts]. split; [exact Hrun|]. split; [exact Hl|]. split; [exact Hc|]. split; [destruct Hbud as [[-> _]|]; [by left|by right]|].
  intros g Hg. cbn [plane_counts]. destruct (gain_at groups cfg g (count t g)) as [x|] eqn:Hx; [right|by left].
  destruct (SFltb (budget_bits cfg) (f64_add spent (cost groups g))) eqn:Hu; [done|]. destruct (Hend (mkCandidate x g)). split; [by split|done].
Qed.

(** Three groups of four weights and a budget for two planes beyond the base: the
    first tie goes to the lower index. *)
Definition sample_groups : list GroupCurve :=
  [mkGroupCurve (f64_of_Z <$> [9; 5; 4; 3]) 4 (f64_of_Z 1);
   mkGroupCurve (f64_of_Z <$> [20; 8; 2; 1]) 4 (f64_of_Z 1);
   mkGroupCurve (f64_of_Z <$> [30; 9; 6; 0]) 4 (f64_of_Z 2)].
Definition sample_config : AllocConfig := mkAllocConfig 1 3 (f64_of_Z 32).

Lemma heap_is_scan_witness :
  allocate_with_curves sample_groups sample_config = Ok (mkAllocation [1; 2; 2]).
Proof.
  rewrite (heap_is_scan sample_groups sample_config); [vm_compute; reflexivity| |]; vm_compute; reflexivity.
Defined.

Lemma allocation_greedy_witness :
  exists a spent, allocate_with_curves sample_groups sample_config = Ok a /\
    zlen (plane_counts a) = 3 /\ SFltb (budget_bits sample_config) spent = false.
Proof.
  destruct (allocation_greedy sample_groups sample_config) as (a & spent & Ha & _ & Hl & _ & Hs & _);
    try (vm_compute; reflexivity); [vm_compute; discriminate|].
  exists a, spent. split; [exact Ha|]. split; [exact Hl|]. destruct Hs as [E|Hs]; [exfalso|exact Hs].
  vm_compute in Ha. injection Ha as <-. discriminate E.
Defined.

(** A sensitivity of [-0.0] passes the check, and its gains are [-0.0]: equal to
    [+0.0] in the scan's comparison, below it in [total_cmp]. The tie then goes to
    the higher index. *)
Definition zero_groups : list GroupCurve :=
  [mkGroupCurve (f64_of_Z <$> [9; 5]) 4 (S754_zero true);
   mkGroupCurve (f64_of_Z <$> [9; 5]) 4 (S754_zero false)].

Lemma negative_zero_breaks_tie :
  let cfg := mkAllocConfig 0 1 (f64_of_Z 8) in
  allocate_with_curves zero_groups cfg = Ok (mkAllocation [0; 1]) /\
  scan_allocate zero_groups cfg = Ok (mkAllocation [1; 0]).
Proof. vm_compute. done. Qed.

(** ** The curves of [allocate] *)

Definition recon_value (w : list f32) (ps : list Plane) : f64 :=
  match recon_error (E := AllocError) w (mkStack ps) with Ok e => e | _ => S754_nan end.

Lemma recon_error_value w ps :
  Forall (fun p => zlen (pl_trits p) = zlen w) ps -> recon_error (E := AllocError) w (mkStack ps) = Ok (recon_value w ps).
Proof.
  intros Hp. unfold recon_value, recon_error.
  destruct (reconstruct_returns (E := AllocError) (mkStack ps) (zlen w) Hp) as [out ->]. done.
Qed.

Lemma error_curve_value w tm :
  error_curve w tm =
  Ok (tabulate (zlen (expansion (Z.to_nat tm) w) + 1)
        (fun t => recon_value w (take (Z.to_nat t) (expansion (Z.to_nat tm) w)))).
Proof.
  unfold error_curve. rewrite residual_expand_total. cbn [bind]. unfold plane_count. cbn [planes].
  set (ps := expansion (Z.to_nat tm) w). pose proof (zlen_nonneg ps) as Hn.
  pose proof (expansion_width (Z.to_nat tm) w) as Hw. fold ps in Hw.
  match goal with |- for_range 0 ?hi ?body [] = _ =>
    destruct (for_range_inv (fun i out => out = tabulate i (fun t => recon_value w (take (Z.to_nat t) ps)))
      body 0 hi []) as (out & Hf & Ho) end.
  - lia.
  - done.
  - intros i out Hi ->. rewrite slice_Ok by lia. cbn [bind]. unfold sub. rewrite Z.sub_0_r. simpl (drop _ ps).
    rewrite recon_error_value by (by apply Forall_take). cbn [bind]. eexists. split; [done|].
    by rewrite tabulate_S by lia.
  - by rewrite Hf, Ho.
Qed.

(** Reading the precomputed curve at [t], clamped to its last entry, is the error of
    the expansion with [t] planes: the expansion is prefix stable, and past the
    last realized plane it does not change. *)
Theorem error_curve_true w tm t :
  0 <= t <= tm ->
  (let* curve := error_curve w tm in curve_at curve t) =
  (let* s := residual_expand w t in recon_error w s).
Proof.
  intros Ht. rewrite error_curve_value, residual_expand_total. cbn [bind].
  set (ps := expansion (Z.to_nat tm) w). pose proof (zlen_nonneg ps) as Hn.
  rewrite recon_error_value by apply expansion_width. unfold curve_at.
  rewrite zlen_tabulate, Z.max_r, sub_usize_Ok by lia. cbn [bind]. rewrite Z.add_simpl_r.
  rewrite (idx_Ok _ _ (recon_value w (take (Z.to_nat (Z.min t (zlen ps))) ps)));
    [|lia|rewrite lookup_tabulate by lia; done].
  do 2 f_equal. rewrite <- (expansion_take (Z.to_nat t) (Z.to_nat tm)) by lia. fold ps.
  destruct (Z.le_gt_cases t (zlen ps)); [by rewrite Z.min_l by lia|].
  rewrite Z.min_r by lia. unfold zlen in *. rewrite !take_ge by lia. done.
Qed.

Lemma error_curve_true_witness :
  let w := f32_of_Z <$> [3; -1; 2; 0] in
  (let* curve := error_curve w 3 in curve_at curve 2) = (let* s := residual_expand w 2 in recon_error w s).
Proof. apply error_curve_true. lia. Defined.

(** [allocate] is [allocate_with_curves] on the greedy curves: its own guards repeat
    the delegate's, with the same errors. *)
Definition greedy_curves (groups : list GroupInput) (cfg : AllocConfig) : list GroupCurve :=
  (fun g => mkGroupCurve (match error_curve (gi_weights g) (t_max cfg) with Ok c => c | _ => [] end)
              (zlen (gi_weights g)) (gi_sensitivity g)) <$> groups.

Lemma for_each_curves cfg groups : forall acc,
  for_each groups (fun g out =>
    let* c := error_curve (gi_weights g) (t_max cfg) in
    Ok (out ++ [mkGroupCurve c (zlen (gi_weights g)) (gi_sensitivity g)])) acc = Ok (acc ++ greedy_curves groups cfg).
Proof.
  induction groups as [|g groups IH]; intros acc; simpl; [by rewrite app_nil_r|].
  rewrite error_curve_value. cbn [bind]. by rewrite IH, <- app_assoc.
Qed.

Theorem allocate_delegates groups cfg :
  allocate groups cfg = allocate_with_curves (greedy_curves groups cfg) cfg.
Proof.
  unfold allocate. rewrite for_each_curves. cbn [bind app].
  assert (Hs : gc_sensitivity <$> greedy_curves groups cfg = gi_sensitivity <$> groups)
    by (unfold greedy_curves; by rewrite <- list_fmap_compose).
  unfold allocate_with_curves. rewrite Hs. destruct (t_max cfg <? t_min cfg); [done|].
  by destruct (check_sensitivities _).
Qed.
