(* ===== verification/JointBundle.v ===== *)
(** * Joint-coded SALT bundles (crates/tritium-format/src/salt_joint_bundle.rs)

    The TSLJ container: one joint code for the whole model, and per tensor the raw
    scale bytes and the coded symbols of its TQ2_0 rows. The reader is modelled over
    an in-memory [Cursor]: its bytes and a position. A tensor name is its bytes, an
    [f16] scale its 16 bits. [HashMap] is a [gmap]. *)

From Stdlib Require Import ZArith Lia Bool String.
From stdpp Require Import base list numbers gmap.
From S2P Require Import Prelude Text Core FormatBase TwoBit TQ2 LeCursor JointCode.

#[local] Open Scope Z_scope.

(** b"TSLJ". *)
Definition SALT_JOINT_BUNDLE_MAGIC : list Z := [0x54; 0x53; 0x4c; 0x4a].
Definition SALT_JOINT_BUNDLE_VERSION : Z := 1.
Definition HEADER_BYTES : Z := 12.
Definition DIR_FIXED_BYTES : Z := 2 + 4 + 4 + 8 + 8 + 8.
Definition MAX_TENSORS : Z := 1048576.

Inductive JointBundleError : Type :=
| BadMagic
| UnsupportedVersion (version : Z)
| Malformed (why : list Z)
| MixedPlanes (tensor : list Z)
| NonZeroPadding (tensor : list Z) (row : Z)
| NotFound (name : list Z)
| Code (e : JointCodeError)
| Format (e : FormatError)
| Io.

Abbreviation bres := (res JointBundleError).

(** [SaltRow] of salt.rs. *)
Record SaltRow := mkSaltRow { sr_k : Z; sr_planes : list (list Z) }.

(** ** Writing *)

Record Extracted := mkExtracted { ex_symbols : list Z; ex_scales : list Z }.

Definition extract_trit (name : list Z) (r k start i : Z) (trit : Trit) (d : list Z) : bres (list Z) :=
  let* j := add_usize start i in
  if j <? k then upd d j (get trit) else
  if negb (get trit =? 0) then Err (NonZeroPadding name r) else Ok d.

Definition extract_block (name : list Z) (r k : Z) (plane : list Z) (b : Z) (st : list Z * list Z)
  : bres (list Z * list Z) :=
  let '(d, scales) := st in
  let* from := mul_usize b TQ2_0_BLOCK_BYTES in
  let* blk := slice plane from (from + TQ2_0_BLOCK_BYTES) in
  let* (trits, _) := map_err Format (unpack_tq2_0_block blk (vec ZERO QK_K)) in
  let* start := mul_usize b QK_K in
  let* d := for_enum 0 trits (extract_trit name r k start) d in
  let* tail := slice blk (TQ2_0_BLOCK_BYTES - 2) (zlen blk) in
  Ok (d, scales ++ tail).

Definition extract_plane (name : list Z) (r k : Z) (p : Z) (plane : list Z) (st : list (list Z) * list Z)
  : bres (list (list Z) * list Z) :=
  let '(digits, scales) := st in
  let nb := div_ceil k QK_K in
  let* expected := mul_usize nb TQ2_0_BLOCK_BYTES in
  if negb (zlen plane =? expected) then Err (Malformed (utf8 "plane length does not match k")) else
  let* (d, scales) := for_range 0 nb (extract_block name r k plane) (vec 0 k, scales) in
  let* digits := upd digits p d in
  Ok (digits, scales).

(** [Vec::resize_with(n, Vec::new)]. *)
Definition resize_with {A} (x : A) (l : list A) (n : Z) : list A :=
  take (Z.to_nat n) l ++ vec x (n - zlen l).

Definition extract_row (name : list Z) (planes : Z) (r : Z) (row : SaltRow) (st : list Z * list Z * list (list Z))
  : bres (list Z * list Z * list (list Z)) :=
  let '(symbols, scales, digits) := st in
  if negb (zlen (sr_planes row) =? planes) then Err (MixedPlanes name) else
  let digits := resize_with [] digits planes in
  let* (digits, scales) := for_enum 0 (sr_planes row) (extract_plane name r (sr_k row)) (digits, scales) in
  let* s := map_err Code (joint_symbols digits) in
  Ok (symbols ++ s, scales, digits).

Definition extract (name : list Z) (rows : list SaltRow) (planes : Z) : bres Extracted :=
  let* st := for_enum 0 rows (extract_row name planes) ([], [], []) in
  Ok (mkExtracted (fst (fst st)) (snd (fst st))).

(** [usize::pow]. *)
Definition pow_usize {E} (b n : Z) : res E Z := if b ^ n <=? usize_max then Ok (b ^ n) else Panic.

Definition count_symbols (freq : list Z) (symbols : list Z) : bres (list Z) :=
  for_each symbols (fun s freq =>
    let* f := idx freq s in
    let* f := add_usize f 1 in
    upd freq s f) freq.

(** One directory entry. *)
Definition dir_entry (name : list Z) (rows k offset scale_bytes stream_bytes : Z) : list Z :=
  to_le 2 (zlen name) ++ name ++ to_le 4 (rows mod 2 ^ 32) ++ to_le 4 (k mod 2 ^ 32) ++
  to_le 8 offset ++ to_le 8 scale_bytes ++ to_le 8 stream_bytes.

Definition write_entry (e : (list Z * list SaltRow) * Extracted * JointStream) (st : list Z * Z)
  : bres (list Z * Z) :=
  let '((name, rows), ex, s) := e in
  let '(out, offset) := st in
  if u16_max <? zlen name then Err (Malformed (utf8 "name too long")) else
  let k := match rows with [] => 0 | r :: _ => sr_k r end in
  if existsb (fun r => negb (sr_k r =? k)) rows then Err (Malformed (utf8 "rows of one tensor disagree on k")) else
  let out := out ++ dir_entry name (zlen rows) k offset (zlen (ex_scales ex)) (zlen (js_bits s)) in
  let* size := add_usize (zlen (ex_scales ex)) (zlen (js_bits s)) in
  let* offset := add_usize offset size in
  Ok (out, offset).

Definition first_row (tensors : list (list Z * list SaltRow)) : option SaltRow :=
  head (omap (fun t => head (snd t)) tensors).

Definition map_res {E A B} (f : A -> res E B) (l : list A) : res E (list B) :=
  for_each l (fun x out => let* y := f x in Ok (out ++ [y])) [].

Definition write_joint_salt_bundle (tensors : list (list Z * list SaltRow)) (rotation_group : option Z)
  : bres (list Z) :=
  let* row := ok_or (first_row tensors) (Malformed (utf8 "bundle has no rows")) in
  let planes := zlen (sr_planes row) in
  if MAX_TENSORS <? zlen tensors then Err (Malformed (utf8 "too many tensors")) else
  if u32_max <? planes then Err (Malformed (utf8 "planes")) else
  let* alphabet := pow_usize 3 planes in
  let* extracted := map_res (fun t => extract (fst t) (snd t) planes) tensors in
  let* freq := for_each extracted (fun e freq => count_symbols freq (ex_symbols e)) (vec 0 alphabet) in
  let* code := map_err Code (build freq planes) in
  let* streams := map_res (fun e =>
    map_err Code (encode code (ex_symbols e) (Z.max (zlen (ex_symbols e)) 1))) extracted in
  let* dir_bytes := for_each tensors (fun t acc =>
    let* n := add_usize DIR_FIXED_BYTES (zlen (fst t)) in add_usize acc n) 0 in
  let* offset := add_usize HEADER_BYTES alphabet in
  let* offset := add_usize offset dir_bytes in
  let out := SALT_JOINT_BUNDLE_MAGIC ++ [SALT_JOINT_BUNDLE_VERSION] ++ [planes mod 256] ++
    to_le 2 (default 0 rotation_group) ++ to_le 4 (zlen tensors mod 2 ^ 32) ++ jc_lengths code in
  let* (out, _) := for_each (zip (zip tensors extracted) streams) write_entry (out, offset) in
  for_each (zip extracted streams) (fun es out => Ok (out ++ ex_scales (fst es) ++ js_bits (snd es))) out.

(** ** Reading *)

(** [Read for Cursor]: a short read leaves the position at the end. *)
Definition read_exact (c : LeCursor) (n : Z) : LeCursor * bres (list Z) :=
  let start := Z.min (lc_o c) (zlen (lc_b c)) in
  if n <=? zlen (lc_b c) - start
  then (mkLeCursor (lc_b c) (lc_o c + n), Ok (sub (lc_b c) start (start + n)))
  else (mkLeCursor (lc_b c) (zlen (lc_b c)), Err Io).

(** A read whose failure ends the parse. *)
Definition rd (c : LeCursor) (n : Z) : bres (list Z * LeCursor) :=
  let '(c, r) := read_exact c n in let* s := r in Ok (s, c).
Definition rd_int (n : Z) (c : LeCursor) : bres (Z * LeCursor) :=
  let* (s, c) := rd c n in Ok (from_le s, c).

Record JointTensorInfo := mkInfo {
  ji_name : list Z; ji_rows : Z; ji_k : Z;
  ji_payload_offset : Z; ji_scale_bytes : Z; ji_stream_bytes : Z }.

Record JointSaltBundleReader := mkReader {
  jr_source : LeCursor; jr_planes : Z; jr_rotation_group : option Z; jr_code : JointCode;
  jr_entries : list JointTensorInfo; jr_by_name : gmap (list Z) Z }.

Definition read_entry (planes file_len : Z) (_ : Z) (st : LeCursor * list JointTensorInfo * gmap (list Z) Z * Z)
  : bres (LeCursor * list JointTensorInfo * gmap (list Z) Z * Z) :=
  let '(source, entries, by_name, pos) := st in
  let* (name_len, source) := rd_int 2 source in
  let* pos := add_usize pos (DIR_FIXED_BYTES + name_len) in
  if file_len <? pos then Err (Malformed (utf8 "directory runs past end of file")) else
  let* (name, source) := rd source name_len in
  let* _ := ensure (utf8_valid name) (Malformed (utf8 "tensor name is not UTF-8")) in
  let* (rows, source) := rd_int 4 source in
  let* (k, source) := rd_int 4 source in
  let* (payload_offset, source) := rd_int 8 source in
  let* (scale_bytes, source) := rd_int 8 source in
  let* (stream_bytes, source) := rd_int 8 source in
  let* expected_scales := ok_or (checked_mul rows (div_ceil k QK_K) ≫= fun v => checked_mul v (planes * 2))
    (Malformed (utf8 "scale size overflows")) in
  if negb (scale_bytes =? expected_scales)
  then Err (Malformed (utf8 "scale byte count disagrees with rows, k and planes")) else
  let* end_ := ok_or (checked_add payload_offset scale_bytes ≫= fun v => checked_add v stream_bytes)
    (Malformed (utf8 "payload size overflows")) in
  if file_len <? end_ then Err (Malformed (utf8 "payload runs past end of file")) else
  if bool_decide (is_Some (by_name !! name)) then Err (Malformed (utf8 "duplicate tensor name")) else
  Ok (source, entries ++ [mkInfo name rows k payload_offset scale_bytes stream_bytes],
      <[name := zlen entries]> by_name, pos).

Definition check_tiles (entries : list JointTensorInfo) (pos file_len : Z) : bres unit :=
  let* expected := for_each entries (fun e expected =>
    if negb (ji_payload_offset e =? expected)
    then Err (Malformed (utf8 "payloads are not contiguous in directory order")) else
    let* size := add_usize (ji_scale_bytes e) (ji_stream_bytes e) in
    add_usize expected size) pos in
  if negb (expected =? file_len) then Err (Malformed (utf8 "payloads do not end at the end of the file"))
  else Ok tt.

Definition new_strict (bytes : list Z) : bres JointSaltBundleReader :=
  let file_len := zlen bytes in
  let source := lc_new bytes in
  let* (magic, source) := rd source 4 in
  if negb (bool_decide (magic = SALT_JOINT_BUNDLE_MAGIC)) then Err BadMagic else
  let* (version, source) := rd_int 1 source in
  if negb (version =? SALT_JOINT_BUNDLE_VERSION) then Err (UnsupportedVersion version) else
  let* (planes, source) := rd_int 1 source in
  if (planes =? 0) || (MAX_JOINT_PLANES <? planes) then Err (Malformed (utf8 "plane count out of range")) else
  let* (rotation, source) := rd_int 2 source in
  let rotation_group := if rotation =? 0 then None else Some rotation in
  let* (count, source) := rd_int 4 source in
  if MAX_TENSORS <? count then Err (Malformed (utf8 "tensor count exceeds limit")) else
  let* alphabet := pow_usize 3 planes in
  let* (lengths, source) := rd source alphabet in
  let* code := map_err Code (from_lengths lengths planes) in
  let* pos := add_usize HEADER_BYTES alphabet in
  let* (source, entries, by_name, pos) :=
    for_range 0 count (read_entry planes file_len) (source, [], ∅, pos) in
  let* _ := check_tiles entries pos file_len in
  Ok (mkReader source planes rotation_group code entries by_name).

Definition tensor_info (self : JointSaltBundleReader) (name : list Z) : option JointTensorInfo :=
  jr_by_name self !! name ≫= fun i => jr_entries self !! Z.to_nat i.

(** One 256-trit block of a plane: the digits past the end are zero trits. *)
Definition rebuild_trit (digit_plane : list Z) (start i : Z) (trits : list Trit) : bres (list Trit) :=
  let* j := add_usize start i in
  match digit_plane !! Z.to_nat j with
  | None => Ok trits
  | Some d => let* t := map_err Format (trit_of d) in upd trits i t
  end.

Definition rebuild_block (scales digit_plane : list Z) (b : Z) (st : list Z * Z) : bres (list Z * Z) :=
  let '(plane, scale_at) := st in
  let* start := mul_usize b QK_K in
  let* trits := for_range 0 QK_K (rebuild_trit digit_plane start) (vec ZERO QK_K) in
  let* b0 := idx scales scale_at in
  let* b1 := idx scales (scale_at + 1) in
  let bits := from_le [b0; b1] in
  let* scale_at := add_usize scale_at 2 in
  let* from := mul_usize b TQ2_0_BLOCK_BYTES in
  let* out := slice plane from (from + TQ2_0_BLOCK_BYTES) in
  let* out := map_err Format (pack_tq2_0_block trits bits out) in
  let* plane := write_slice plane from out in
  Ok (plane, scale_at).

Definition rebuild_plane (scales : list Z) (nb : Z) (digit_plane : list Z) (st : list (list Z) * Z)
  : bres (list (list Z) * Z) :=
  let '(planes_out, scale_at) := st in
  let* size := mul_usize nb TQ2_0_BLOCK_BYTES in
  let* (plane, scale_at) := for_range 0 nb (rebuild_block scales digit_plane) (vec 0 size, scale_at) in
  Ok (planes_out ++ [plane], scale_at).

Definition rebuild_row (scales symbols : list Z) (planes k : Z) (r : Z) (st : list SaltRow * Z)
  : bres (list SaltRow * Z) :=
  let '(out, scale_at) := st in
  let* from := mul_usize r k in
  let* syms := slice symbols from (from + k) in
  let* digits := map_err Code (planes_from_symbols syms planes) in
  let* (planes_out, scale_at) := for_each digits (rebuild_plane scales (div_ceil k QK_K)) ([], scale_at) in
  Ok (out ++ [mkSaltRow k planes_out], scale_at).

Definition decode_rows (code : JointCode) (planes rows k : Z) (scales bits : list Z) : bres (list SaltRow) :=
  let* n := ok_or (checked_mul rows k) (Malformed (utf8 "symbol count overflows")) in
  let* symbols := map_err Code (decode code (MkJointStream bits [0] (Z.max n 1) n)) in
  let* (out, _) := for_range 0 rows (rebuild_row scales symbols planes k) ([], 0) in
  Ok out.

Definition with_source (self : JointSaltBundleReader) (c : LeCursor) : JointSaltBundleReader :=
  mkReader c (jr_planes self) (jr_rotation_group self) (jr_code self) (jr_entries self) (jr_by_name self).

(** The reader left behind, with the cursor where the last read stopped, and the
    result. *)
Definition read_tensor (self : JointSaltBundleReader) (name : list Z) : JointSaltBundleReader * bres (list SaltRow) :=
  match tensor_info self name with
  | None => (self, Err (NotFound name))
  | Some info =>
      let c := mkLeCursor (lc_b (jr_source self)) (ji_payload_offset info) in
      let '(c, scales) := read_exact c (ji_scale_bytes info) in
      match scales with
      | Ok scales =>
          let '(c, bits) := read_exact c (ji_stream_bytes info) in
          (with_source self c,
           let* bits := bits in
           decode_rows (jr_code self) (jr_planes self) (ji_rows info) (ji_k info) scales bits)
      | Err e => (with_source self c, Err e)
      | Panic => (with_source self c, Panic)
      | NoFuel => (with_source self c, NoFuel)
      end
  end.
