(* ===== verification/JointBundleRows.v ===== *)
(** * Joint-coded SALT bundles: rows

    What extraction takes from TQ2_0 rows, and that rebuilding the rows from it
    gives the same bytes. *)

From Stdlib Require Import ZArith Lia Bool.
From stdpp Require Import base list numbers gmap.
From S2P Require Import Prelude Text Core FormatBase TwoBit TQ2 LeCursor JointCode JointStream JointBundle.

#[local] Open Scope Z_scope.

(** ** What a plane holds *)

Definition block_at (plane : list Z) (b : Z) : list Z := sub plane (b * 66) (b * 66 + 66).
Definition trit_at (plane : list Z) (j : Z) : Trit := tq2_trit (block_at plane (j / 256)) (j mod 256).
Definition plane_digits (k : Z) (plane : list Z) : list Z := tabulate k (fun j => get (trit_at plane j)).
Definition plane_scales (k : Z) (plane : list Z) : list Z :=
  blocks (div_ceil k QK_K) (fun b => sub (block_at plane b) 64 66).

(** A plane of [k] trits: whole blocks, no reserved code, zero trits past [k]. *)
Record plane_ok (k : Z) (plane : list Z) : Prop := {
  po_len : zlen plane = div_ceil k QK_K * 66;
  po_valid : forall b, 0 <= b < div_ceil k QK_K -> tq2_valid (block_at plane b) = true;
  po_padding : forall j, k <= j < div_ceil k QK_K * 256 -> trit_at plane j = ZERO }.

Lemma zlen_block_at plane nb b : zlen plane = nb * 66 -> 0 <= b < nb -> zlen (block_at plane b) = 66.
Proof. intros Hl Hb. unfold block_at. rewrite zlen_sub; lia. Qed.

Lemma nb_bounds k : 0 <= k -> 0 <= div_ceil k QK_K /\ k <= div_ceil k QK_K * 256.
Proof.
  intros Hk. pose proof (div_ceil_bounds k QK_K ltac:(unfold QK_K; lia)) as H.
  pose proof (div_ceil_nonneg k QK_K Hk ltac:(unfold QK_K; lia)). unfold QK_K in *. lia.
Qed.

Lemma div_mod_256 b i : 0 <= i < 256 -> (b * 256 + i) / 256 = b /\ (b * 256 + i) mod 256 = i.
Proof. intros Hi. replace (b * 256 + i) with (256 * b + i) by lia. apply div_mod_row; lia. Qed.

(** ** Extraction *)

Lemma extract_trits_inv name r k start trits d d' :
  0 <= start -> zlen d = k -> for_enum 0 trits (extract_trit name r k start) d = Ok d' ->
  zlen d' = k /\
  (forall j, 0 <= j < k -> bget d' j = if (start <=? j) && (j <? start + zlen trits) then get (tget trits (j - start)) else bget d j) /\
  (forall i, 0 <= i < zlen trits -> k <= start + i -> tget trits i = ZERO).
Proof.
  intros Hs Hd H.
  apply (for_enum_Ok_inv (fun n d1 => zlen d1 = k /\
    (forall j, 0 <= j < k -> bget d1 j = if (start <=? j) && (j <? start + n) then get (tget trits (j - start)) else bget d j) /\
    (forall i, 0 <= i < n -> k <= start + i -> tget trits i = ZERO)) _ _ 0 d d' H).
  - split; [done|]. split; [|lia]. intros j Hj. by replace ((start <=? j) && (j <? start + 0)) with false by lia.
  - intros i t d1 d2 Hi Ht (Hl & Hw & Hz) Hb. rewrite Z.sub_0_r in Ht. unfold extract_trit in Hb. bind_inv Hb.
    apply add_usize_inv in Hv as ->. assert (Hti : tget trits i = t) by (unfold tget; by rewrite Ht).
    destruct (Z.ltb_spec (start + i) k) as [Hlt|Hge].
    + rewrite upd_Ok in Hb by lia. injection Hb as <-. split; [by rewrite zlen_insert|]. split.
      * intros j Hj. rewrite bget_upd by lia. destruct (Z.eqb_spec (start + i) j) as [<-|Hne].
        -- replace ((start <=? start + i) && _) with true by lia. replace (start + i - start) with i by lia. by rewrite Hti.
        -- rewrite Hw by lia. replace ((start <=? j) && (j <? start + (i + 1))) with ((start <=? j) && (j <? start + i)) by lia. done.
      * intros i' Hi' Hk. apply Hz; lia.
    + destruct (Z.eqb_spec (get t) 0) as [E|]; [|done]. injection Hb as <-. split; [done|]. split.
      * intros j Hj. rewrite Hw by lia. replace ((start <=? j) && (j <? start + (i + 1))) with ((start <=? j) && (j <? start + i)) by lia. done.
      * intros i' Hi' Hk. destruct (Z.eq_dec i' i) as [->|]; [|apply Hz; lia]. rewrite Hti. by destruct t.
Qed.

Lemma extract_block_inv name r k plane nb b d scales d' scales' :
  zlen plane = nb * 66 -> 0 <= b < nb -> zlen d = k ->
  extract_block name r k plane b (d, scales) = Ok (d', scales') ->
  zlen d' = k /\ tq2_valid (block_at plane b) = true /\
  (forall j, 0 <= j < k -> bget d' j = if j / 256 =? b then get (trit_at plane j) else bget d j) /\
  (forall j, k <= j -> j / 256 = b -> trit_at plane j = ZERO) /\
  scales' = scales ++ sub (block_at plane b) 64 66.
Proof.
  intros Hl Hb Hd H. unfold extract_block in H. bind_inv H. apply mul_usize_inv in Hv as ->.
  change TQ2_0_BLOCK_BYTES with 66 in H. rewrite slice_Ok in H by lia. cbn [bind] in H.
  fold (block_at plane b) in H. pose proof (zlen_block_at plane nb b Hl Hb) as Hbl.
  rewrite unpack_tq2_0_block_spec in H by (done || by rewrite zlen_vec).
  destruct (tq2_valid (block_at plane b)) eqn:Hval; [|done]. cbn [map_err bind] in H.
  bind_inv H. apply mul_usize_inv in Hv as ->. bind_inv H. rewrite Hbl, slice_Ok in H by lia. cbn [bind] in H.
  injection H as -> <-. change (66 - 2) with 64.
  apply extract_trits_inv in Hv as (Hd' & Hw & Hz); [|unfold QK_K; lia|done].
  rewrite zlen_tabulate, Z.max_r in * by lia. unfold QK_K in *.
  assert (Hdm : forall j, (b * 256 <= j < b * 256 + 256) <-> j / 256 = b) by (intros j; Z.div_mod_to_equations; lia).
  assert (Ht : forall j, j / 256 = b -> tget (tabulate 256 (tq2_trit (block_at plane b))) (j - b * 256) = trit_at plane j).
  { intros j Hj. pose proof (proj2 (Hdm j) Hj) as Hr. rewrite tget_tabulate by lia. unfold trit_at. rewrite Hj.
    f_equal. rewrite <- Hj. Z.div_mod_to_equations. lia. }
  split; [done|]. split; [done|]. split; [|split; [|done]].
  - intros j Hj. rewrite Hw by done. pose proof (Hdm j) as Hj'. destruct (Z.eqb_spec (j / 256) b) as [E|E].
    + replace ((b * 256 <=? j) && (j <? b * 256 + 256)) with true by lia. by rewrite Ht.
    + replace ((b * 256 <=? j) && (j <? b * 256 + 256)) with false by lia. done.
  - intros j Hj E. rewrite <- Ht by done. pose proof (proj2 (Hdm j) E). apply Hz; lia.
Qed.

Lemma extract_plane_inv name r k p plane digits scales digits' scales' :
  0 <= k -> extract_plane name r k p plane (digits, scales) = Ok (digits', scales') ->
  plane_ok k plane /\ 0 <= p < zlen digits /\
  digits' = <[Z.to_nat p := plane_digits k plane]> digits /\ scales' = scales ++ plane_scales k plane.
Proof.
  intros Hk H. unfold extract_plane in H. set (nb := div_ceil k QK_K) in *.
  destruct (nb_bounds k Hk) as [Hnb Hkn]. fold nb in Hnb, Hkn. bind_inv H. apply mul_usize_inv in Hv as ->.
  change TQ2_0_BLOCK_BYTES with 66 in H. destruct (Z.eqb_spec (zlen plane) (nb * 66)) as [Hl|]; [|done]. cbn [negb] in H.
  bind_inv H. destruct v as [d sc]. bind_inv H. injection H as <- <-. apply upd_Ok_inv in Hv0 as [Hp ->].
  apply (for_range_Ok_inv (fun b (st : list Z * list Z) => zlen (fst st) = k /\
    (forall j, 0 <= j < k -> bget (fst st) j = if j / 256 <? b then get (trit_at plane j) else 0) /\
    (forall j, k <= j -> 0 <= j / 256 < b -> trit_at plane j = ZERO) /\
    (forall b', 0 <= b' < b -> tq2_valid (block_at plane b') = true) /\
    snd st = scales ++ blocks b (fun b => sub (block_at plane b) 64 66))) in Hv as (H1 & H2 & H3 & H4 & H5).
  - cbn [fst snd] in *. split; [|split; [done|]].
    + split; [done|done|]. intros j Hj. fold nb in Hj. apply H3; [lia|]. Z.div_mod_to_equations. lia.
    + split; [f_equal|done]. unfold plane_digits. rewrite <- (tabulate_bget d k) by done. apply tabulate_ext. intros j Hj.
      rewrite H2 by done. replace (j / 256 <? nb) with true; [done|]. symmetry. apply Z.ltb_lt. Z.div_mod_to_equations. lia.
  - done.
  - cbn [fst snd]. split; [rewrite zlen_vec; lia|]. split; [|split; [|split; [|by rewrite app_nil_r]]].
    + intros j Hj. replace (j / 256 <? 0) with false by (symmetry; apply Z.ltb_ge; Z.div_mod_to_equations; lia).
      unfold bget. by rewrite lookup_vec by lia.
    + intros j Hj. lia.
    + intros b Hb. lia.
  - intros b [d1 sc1] [d2 sc2] Hb (G1 & G2 & G3 & G4 & G5) Hst. cbn [fst snd] in *.
    destruct (extract_block_inv name r k plane nb b d1 sc1 d2 sc2 Hl Hb G1 Hst) as (F1 & F2 & F3 & F4 & ->).
    split; [done|]. split; [|split; [|split]].
    + intros j Hj. rewrite F3, G2 by done. destruct (Z.eqb_spec (j / 256) b) as [->|].
      * by replace (b <? b + 1) with true by lia.
      * by replace (j / 256 <? b + 1) with (j / 256 <? b) by lia.
    + intros j Hj Hr. destruct (Z.eq_dec (j / 256) b); [by apply F4|apply G3; lia].
    + intros b' Hb'. destruct (Z.eq_dec b' b) as [->|]; [done|apply G4; lia].
    + rewrite G5, blocks_S, app_assoc by lia. done.
Qed.

Lemma extract_planes_inv name r k : 0 <= k -> forall l p digits scales digits' scales',
  zlen digits = p + zlen l -> 0 <= p ->
  for_enum p l (extract_plane name r k) (digits, scales) = Ok (digits', scales') ->
  Forall (plane_ok k) l /\ digits' = take (Z.to_nat p) digits ++ (plane_digits k <$> l) /\
  scales' = scales ++ concat (plane_scales k <$> l).
Proof.
  intros Hk. induction l as [|x l IH]; intros p digits scales digits' scales' Hl Hp H; simpl in H.
  - injection H as <- <-. rewrite !app_nil_r. split; [constructor|]. split; [|done]. rewrite take_ge; [done|].
    unfold zlen in Hl. simpl in Hl. lia.
  - bind_inv H. destruct v as [d1 s1]. apply extract_plane_inv in Hv as (Hok & Hr & -> & ->); [|done].
    rewrite zlen_cons in Hl. apply IH in H as (Hall & -> & ->); [|rewrite zlen_insert; lia|lia].
    split; [by constructor|]. split; [|simpl; by rewrite <- app_assoc].
    rewrite fmap_cons. replace (Z.to_nat (p + 1)) with (S (Z.to_nat p)) by lia.
    rewrite (take_S_r _ _ (plane_digits k x)) by (apply list_lookup_insert_eq; unfold zlen in Hr; lia).
    rewrite take_insert_ge by lia. by rewrite <- app_assoc.
Qed.

(** ** Rows *)

Record row_ok (t : Z) (row : SaltRow) : Prop := {
  ro_planes : zlen (sr_planes row) = t;
  ro_all : Forall (plane_ok (sr_k row)) (sr_planes row) }.

Definition row_digits (row : SaltRow) : list (list Z) := plane_digits (sr_k row) <$> sr_planes row.
Definition row_scales (row : SaltRow) : list Z := concat (plane_scales (sr_k row) <$> sr_planes row).
Definition row_symbols (row : SaltRow) : list Z :=
  tabulate (sr_k row) (fun j => value (column (row_digits row) j)).

Lemma get_is_trit t : is_trit (get t).
Proof. destruct t; unfold is_trit; simpl; lia. Qed.

Lemma row_rectangular t row : 0 <= sr_k row -> zlen (sr_planes row) = t -> rectangular t (sr_k row) (row_digits row).
Proof.
  intros Hk Ht. split; [unfold row_digits; by rewrite zlen_fmap|]. apply Forall_fmap, list.Forall_forall. intros p _. simpl.
  unfold plane_digits. split; [rewrite zlen_tabulate; lia|]. unfold tabulate. apply Forall_fmap, list.Forall_forall.
  intros j _. apply get_is_trit.
Qed.

Lemma zlen_resize {A} (x : A) l n : 0 <= n -> zlen (resize_with x l n) = n.
Proof. intros Hn. unfold resize_with. rewrite zlen_app, zlen_vec. unfold zlen. rewrite length_take. lia. Qed.

(** A successful extraction used between one and nine planes. *)
Lemma joint_symbols_planes planes s : joint_symbols planes = Ok s -> 1 <= zlen planes <= 9.
Proof.
  unfold joint_symbols, alphabet, MAX_JOINT_PLANES. pose proof (zlen_nonneg planes).
  destruct (Z.eqb_spec (zlen planes) 0), (Z.ltb_spec 9 (zlen planes)); try done. lia.
Qed.

Lemma extract_row_inv name t r row symbols scales digits symbols' scales' digits' :
  0 <= t -> 0 <= sr_k row ->
  extract_row name t r row (symbols, scales, digits) = Ok (symbols', scales', digits') ->
  row_ok t row /\ 1 <= t <= 9 /\ symbols' = symbols ++ row_symbols row /\ scales' = scales ++ row_scales row.
Proof.
  intros Ht Hk H. unfold extract_row in H. destruct (Z.eqb_spec (zlen (sr_planes row)) t) as [Hp|]; [|done]. cbn [negb] in H.
  bind_inv H. destruct v as [d sc]. bind_inv H. injection H as <- <- <-. apply map_err_Ok_inv in Hv0.
  apply extract_planes_inv in Hv as (Hall & -> & ->); [|done|rewrite zlen_resize; lia|lia].
  change (joint_symbols (row_digits row) = Ok v) in Hv0. pose proof (joint_symbols_planes _ _ Hv0) as Hr.
  pose proof (row_rectangular t row Hk Hp) as Hrect. rewrite (proj1 Hrect) in Hr.
  rewrite (joint_symbols_Ok t (sr_k row)) in Hv0 by done. injection Hv0 as <-. done.
Qed.

Lemma extract_rows_inv name t : 0 <= t -> forall rows lo symbols scales digits symbols' scales' digits',
  Forall (fun r => 0 <= sr_k r) rows ->
  for_enum lo rows (extract_row name t) (symbols, scales, digits) = Ok (symbols', scales', digits') ->
  Forall (row_ok t) rows /\ (rows <> [] -> 1 <= t <= 9) /\
  symbols' = symbols ++ concat (row_symbols <$> rows) /\ scales' = scales ++ concat (row_scales <$> rows).
Proof.
  intros Ht. induction rows as [|row rows IH]; intros lo symbols scales digits symbols' scales' digits' Hk H; simpl in H.
  - injection H as <- <- <-. rewrite !app_nil_r. done.
  - apply list.Forall_cons in Hk as [Hk Hks]. bind_inv H. destruct v as [[s1 c1] d1].
    apply extract_row_inv in Hv as (Hok & Hr & -> & ->); [|done|done].
    apply IH in H as (Hall & _ & -> & ->); [|done]. split; [by constructor|]. split; [done|].
    rewrite !fmap_cons. simpl. by rewrite <- !app_assoc.
Qed.

Lemma extract_inv name rows t ex :
  0 <= t -> Forall (fun r => 0 <= sr_k r) rows -> extract name rows t = Ok ex ->
  Forall (row_ok t) rows /\ (rows <> [] -> 1 <= t <= 9) /\
  ex = mkExtracted (concat (row_symbols <$> rows)) (concat (row_scales <$> rows)).
Proof.
  intros Ht Hk H. unfold extract in H. bind_inv H. destruct v as [[s c] d]. injection H as <-.
  apply extract_rows_inv in Hv as (H1 & H2 & -> & ->); done.
Qed.

(** * Rebuilding *)

Lemma sub_pair (l : list Z) i : 0 <= i -> i + 2 <= zlen l -> sub l i (i + 2) = [bget l i; bget l (i + 1)].
Proof.
  intros Hi Hl. destruct (lookup_Z l i ltac:(lia)) as [x Hx]. destruct (lookup_Z l (i + 1) ltac:(lia)) as [y Hy].
  unfold bget. rewrite Hx, Hy. by apply sub_2.
Qed.

Section rebuild.
Context (k : Z) (plane : list Z) (Hk : 0 <= k <= u32_max) (Hok : plane_ok k plane) (Hbytes : bytes_ok plane).
#[local] Abbreviation nb := (div_ceil k QK_K).

Lemma nb_small : 0 <= nb /\ nb * 256 <= 2 * u32_max /\ k <= nb * 256.
Proof.
  pose proof (div_ceil_bounds k QK_K ltac:(unfold QK_K; lia)) as H. destruct (nb_bounds k ltac:(lia)).
  unfold QK_K, u32_max in *. lia.
Qed.

Lemma block_at_bytes b : bytes_ok (block_at plane b).
Proof. by apply bytes_ok_sub. Qed.

Lemma rebuild_trits_Ok b :
  0 <= b < nb ->
  for_range 0 QK_K (rebuild_trit (plane_digits k plane) (b * 256)) (vec ZERO QK_K) =
  Ok (tabulate 256 (tq2_trit (block_at plane b))).
Proof.
  intros Hb. destruct nb_small as (_ & Hn & Hkn). unfold u32_max in Hn. unfold QK_K at 1 2.
  destruct (for_range_inv (fun i trits => zlen trits = 256 /\
      forall j, 0 <= j < 256 -> tget trits j = if j <? i then trit_at plane (b * 256 + j) else ZERO)
    (rebuild_trit (plane_digits k plane) (b * 256)) 0 256 (vec ZERO 256)) as (trits & -> & Hl & Ht).
  - lia.
  - split; [done|]. intros j Hj. replace (j <? 0) with false by lia. unfold tget. by rewrite lookup_vec by lia.
  - intros i trits Hi (Hl & Ht). unfold rebuild_trit. rewrite add_usize_Ok by (unfold usize_max; lia). cbn [bind].
    unfold plane_digits. destruct (Z.lt_ge_cases (b * 256 + i) k) as [Hlt|Hge].
    + rewrite lookup_tabulate by lia. rewrite trit_of_get. cbn [map_err bind]. rewrite upd_Ok by lia.
      eexists. split; [done|]. split; [by rewrite zlen_insert|]. intros j Hj. unfold tget. rewrite lookup_upd by lia.
      destruct (Z.eqb_spec i j) as [<-|Hne]; [by replace (i <? i + 1) with true by lia|].
      fold (tget trits j). rewrite Ht by done. by replace (j <? i + 1) with (j <? i) by lia.
    + rewrite lookup_ge_None_2.
      2:{ pose proof (zlen_tabulate k (fun j => get (trit_at plane j))) as Hz. unfold zlen in Hz. lia. }
      eexists. split; [done|]. split; [done|]. intros j Hj. rewrite Ht by done.
      destruct (Z.eq_dec j i) as [->|Hne]; [|by replace (j <? i + 1) with (j <? i) by lia].
      replace (i <? i) with false by lia. replace (i <? i + 1) with true by lia. symmetry. apply (po_padding k plane Hok). lia.
  - f_equal. rewrite <- (tabulate_tget trits 256) by done. apply tabulate_ext. intros j Hj. rewrite Ht by done.
    replace (j <? 256) with true by lia. unfold trit_at. by destruct (div_mod_256 b j Hj) as [-> ->].
Qed.

Lemma plane_scales_at b : 0 <= b < nb -> sub (plane_scales k plane) (b * 2) ((b + 1) * 2) = sub (block_at plane b) 64 66.
Proof.
  intros Hb. unfold plane_scales. apply (sub_blocks nb (fun b => sub (block_at plane b) 64 66) 2 b Hb).
  intros i Hi. pose proof (zlen_block_at plane nb i (po_len k plane Hok) Hi). rewrite zlen_sub; lia.
Qed.

Lemma zlen_plane_scales : zlen (plane_scales k plane) = nb * 2.
Proof.
  apply zlen_blocks; [apply nb_small|]. intros i Hi.
  pose proof (zlen_block_at plane nb i (po_len k plane Hok) Hi). rewrite zlen_sub; lia.
Qed.

Lemma rebuild_block_Ok pre post b buf :
  0 <= b < nb -> zlen buf = nb * 66 -> zlen (pre ++ plane_scales k plane ++ post) <= isize_max ->
  rebuild_block (pre ++ plane_scales k plane ++ post) (plane_digits k plane) b (buf, zlen pre + b * 2) =
  Ok (splice buf (b * 66) (block_at plane b), zlen pre + (b + 1) * 2).
Proof.
  intros Hb Hbuf Hmax. destruct nb_small as (_ & Hn & Hkn). unfold u32_max in Hn. unfold isize_max in Hmax.
  rewrite !zlen_app, zlen_plane_scales in Hmax. pose proof (zlen_nonneg pre). pose proof (zlen_nonneg post).
  unfold rebuild_block. rewrite mul_usize_Ok by (unfold QK_K, usize_max; lia). cbn [bind].
  change (b * QK_K) with (b * 256). rewrite rebuild_trits_Ok by done. cbn [bind].
  set (scales := pre ++ plane_scales k plane ++ post).
  assert (Hz : zlen scales = zlen pre + (nb * 2 + zlen post)) by (unfold scales; by rewrite !zlen_app, zlen_plane_scales).
  assert (Hs : sub scales (zlen pre + b * 2) (zlen pre + b * 2 + 2) = sub (block_at plane b) 64 66).
  { unfold scales. rewrite sub_skip by lia. rewrite sub_app_low by (rewrite ?zlen_plane_scales; lia).
    rewrite <- plane_scales_at by done. f_equal; lia. }
  rewrite !idx_bget by lia. cbn [bind]. rewrite <- sub_pair, Hs by lia.
  rewrite add_usize_Ok by (unfold usize_max; lia). cbn [bind].
  rewrite mul_usize_Ok by (unfold usize_max; change TQ2_0_BLOCK_BYTES with 66; lia). cbn [bind].
  change TQ2_0_BLOCK_BYTES with 66. rewrite slice_Ok by lia. cbn [bind].
  rewrite pack_tq2_0_block_spec; [|by rewrite zlen_tabulate|rewrite zlen_sub by lia; change TQ2_0_BLOCK_BYTES with 66; lia].
  cbn [map_err bind]. rewrite tq2_block_canonical;
    [|by apply (zlen_block_at plane nb b (po_len k plane Hok))|apply block_at_bytes|by apply (po_valid k plane Hok)].
  rewrite write_slice_Ok; [cbn [bind]; do 2 f_equal; lia|lia|].
  rewrite (zlen_block_at plane nb b (po_len k plane Hok)) by done. lia.
Qed.

Lemma rebuild_plane_Ok pre post out :
  zlen (pre ++ plane_scales k plane ++ post) <= isize_max ->
  rebuild_plane (pre ++ plane_scales k plane ++ post) nb (plane_digits k plane) (out, zlen pre) =
  Ok (out ++ [plane], zlen (pre ++ plane_scales k plane)).
Proof.
  intros Hmax. destruct nb_small as (H0 & Hn & Hkn). unfold u32_max in Hn. unfold rebuild_plane.
  rewrite mul_usize_Ok by (unfold usize_max; change TQ2_0_BLOCK_BYTES with 66; lia). cbn [bind].
  change (nb * TQ2_0_BLOCK_BYTES) with (nb * 66).
  destruct (for_range_inv (fun b (st : list Z * Z) => zlen (fst st) = nb * 66 /\ snd st = zlen pre + b * 2 /\
      forall i, 0 <= i < b -> sub (fst st) (i * 66) ((i + 1) * 66) = block_at plane i)
    (rebuild_block (pre ++ plane_scales k plane ++ post) (plane_digits k plane)) 0 nb (vec 0 (nb * 66), zlen pre))
    as ([buf at_] & -> & Hl & Ha & Hs).
  - done.
  - cbn [fst snd]. split; [rewrite zlen_vec; lia|]. split; [lia|]. intros i Hi. lia.
  - intros b [buf at_] Hb (Hl & Ha & Hs). cbn [fst snd] in *. subst at_. rewrite rebuild_block_Ok by done.
    pose proof (zlen_block_at plane nb b (po_len k plane Hok) Hb) as Hz.
    eexists. split; [done|]. cbn [fst snd]. split; [rewrite zlen_splice; lia|]. split; [done|].
    intros i Hi. destruct (Z.eq_dec i b) as [->|Hne].
    + apply sub_splice_same; lia.
    + rewrite sub_splice_before by lia. apply Hs. lia.
  - cbn [bind fst snd] in *. subst at_. rewrite zlen_app, zlen_plane_scales. do 4 f_equal.
    transitivity (blocks nb (block_at plane)); [apply (blocks_eq _ nb 66); [done|lia|done|done]|].
    symmetry. apply (blocks_eq _ nb 66); [done|lia|apply (po_len k plane Hok)|].
    intros i Hi. unfold block_at. f_equal. lia.
Qed.
End rebuild.

(** ** Whole tensors *)

Lemma rebuild_planes_Ok k (Hk : 0 <= k <= u32_max) planes : forall pre post out,
  Forall (plane_ok k) planes -> Forall (fun p => bytes_ok p) planes ->
  zlen (pre ++ concat (plane_scales k <$> planes) ++ post) <= isize_max ->
  for_each (plane_digits k <$> planes)
    (rebuild_plane (pre ++ concat (plane_scales k <$> planes) ++ post) (div_ceil k QK_K)) (out, zlen pre) =
  Ok (out ++ planes, zlen (pre ++ concat (plane_scales k <$> planes))).
Proof.
  induction planes as [|p planes IH]; intros pre post out Hok Hb Hmax.
  - simpl. by rewrite !app_nil_r.
  - apply list.Forall_cons in Hok as [Hp Hok]. apply list.Forall_cons in Hb as [Hbp Hb].
    rewrite !fmap_cons, !concat_cons in *. cbn [for_each]. rewrite <- !app_assoc in *.
    rewrite rebuild_plane_Ok by done. cbn [bind]. rewrite (app_assoc pre) in Hmax |- *.
    rewrite IH by done. by rewrite <- !app_assoc.
Qed.

Lemma planes_of_row t row :
  1 <= t <= 9 -> 0 <= sr_k row -> zlen (sr_planes row) = t ->
  planes_from_symbols (row_symbols row) t = Ok (row_digits row) /\ Forall (fun s => 0 <= s < 3 ^ t) (row_symbols row).
Proof.
  intros Ht Hk Hp. pose proof (row_rectangular t row Hk Hp) as Hr.
  destruct (proj1 (joint_planes_inverse t Ht) (sr_k row) (row_digits row) Hk Hr) as (s & Hs & Hb & Hpl).
  rewrite (joint_symbols_Ok t (sr_k row)) in Hs by done. injection Hs as <-. done.
Qed.

Lemma zlen_row_symbols row : 0 <= sr_k row -> zlen (row_symbols row) = sr_k row.
Proof. intros Hk. unfold row_symbols. rewrite zlen_tabulate. lia. Qed.

Lemma zlen_concat_const {A B} (f : A -> list B) (l : list A) w :
  Forall (fun x => zlen (f x) = w) l -> zlen (concat (f <$> l)) = zlen l * w.
Proof.
  induction 1 as [|x l Hx Hl IH]; [done|]. rewrite fmap_cons. simpl. rewrite zlen_app, zlen_cons, IH, Hx. lia.
Qed.

Lemma rows_split {A} (l : list A) r x : 0 <= r -> l !! Z.to_nat r = Some x ->
  l = take (Z.to_nat r) l ++ x :: drop (Z.to_nat (r + 1)) l.
Proof.
  intros Hr Hx. replace (Z.to_nat (r + 1)) with (S (Z.to_nat r)) by lia. symmetry. by apply take_drop_middle.
Qed.

(** What the type of a row says, at one width. *)
Definition row_wf (k : Z) (row : SaltRow) : Prop :=
  sr_k row = k /\ Forall (fun p => bytes_ok p) (sr_planes row).

Lemma rebuild_rows_Ok t k rows :
  1 <= t <= 9 -> 0 <= k <= u32_max -> zlen rows <= u32_max ->
  Forall (row_ok t) rows -> Forall (row_wf k) rows ->
  zlen (concat (row_scales <$> rows)) <= isize_max ->
  for_range 0 (zlen rows)
    (rebuild_row (concat (row_scales <$> rows)) (concat (row_symbols <$> rows)) t k) ([], 0) =
  Ok (rows, zlen (concat (row_scales <$> rows))).
Proof.
  intros Ht Hk Hn Hok Hwf Hmax. unfold u32_max in *. pose proof (zlen_nonneg rows) as Hn0.
  assert (Hw : forall l, Forall (row_wf k) l -> zlen (concat (row_symbols <$> l)) = zlen l * k).
  { intros l Hl. apply zlen_concat_const. eapply list.Forall_impl; [exact Hl|]. intros row [E _]. rewrite zlen_row_symbols; lia. }
  destruct (for_range_inv (fun r (st : list SaltRow * Z) => st = (take (Z.to_nat r) rows,
      zlen (concat (row_scales <$> take (Z.to_nat r) rows))))
    (rebuild_row (concat (row_scales <$> rows)) (concat (row_symbols <$> rows)) t k) 0 (zlen rows) ([], 0))
    as (st & -> & ->).
  - done.
  - done.
  - intros r st Hr ->. destruct (lookup_Z rows r Hr) as [row Hrow].
    pose proof (Forall_lookup_1 _ _ _ _ Hok Hrow) as [Hpl Hall]. destruct (Forall_lookup_1 _ _ _ _ Hwf Hrow) as [Hkr Hbr].
    pose proof (rows_split rows r row ltac:(lia) Hrow) as Hsp.
    set (pre := take (Z.to_nat r) rows) in *. set (post := drop (Z.to_nat (r + 1)) rows) in *.
    assert (Hzp : zlen pre = r) by (subst pre; unfold zlen in *; rewrite length_take; lia).
    assert (Hwp : Forall (row_wf k) pre) by (by apply Forall_take).
    assert (Hsym : concat (row_symbols <$> rows) = concat (row_symbols <$> pre) ++ row_symbols row ++ concat (row_symbols <$> post))
      by (rewrite Hsp at 1; by rewrite fmap_app, fmap_cons, concat_app).
    assert (Hsc : concat (row_scales <$> rows) = concat (row_scales <$> pre) ++ row_scales row ++ concat (row_scales <$> post))
      by (rewrite Hsp at 1; by rewrite fmap_app, fmap_cons, concat_app).
    unfold rebuild_row. rewrite mul_usize_Ok by (unfold usize_max; nia). cbn [bind].
    pose proof (Hw pre Hwp) as Hwpre. rewrite Hzp in Hwpre.
    rewrite slice_Ok; [|nia|lia|rewrite Hw by done; nia].
    cbn [bind]. rewrite Hsym. rewrite sub_mid by (rewrite ?zlen_row_symbols; lia).
    destruct (planes_of_row t row Ht ltac:(lia) Hpl) as [-> _]. cbn [map_err bind]. unfold row_digits. rewrite Hkr.
    assert (Erow : row_scales row = concat (plane_scales k <$> sr_planes row)) by (unfold row_scales; by rewrite Hkr).
    rewrite Hsc, Erow in Hmax |- *.
    rewrite rebuild_planes_Ok; [|unfold u32_max; lia|by rewrite <- Hkr|done|done].
    cbn [bind]. eexists. split; [done|].
    replace (Z.to_nat (r + 1)) with (S (Z.to_nat r)) by lia. rewrite (take_S_r _ _ row) by done. fold pre.
    rewrite fmap_app, concat_app. cbn [fmap list_fmap]. rewrite concat_cons, Erow, app_nil_r. rewrite <- Hkr.
    by destruct row.
  - unfold zlen at 1 3. by rewrite Nat2Z.id, take_ge by lia.
Qed.

Lemma decode_rows_Ok code t k rows bits :
  1 <= t <= 9 -> 0 <= k <= u32_max -> zlen rows <= u32_max ->
  Forall (row_ok t) rows -> Forall (row_wf k) rows ->
  zlen (concat (row_scales <$> rows)) <= isize_max ->
  decode_run code bits 0 (zlen (concat (row_symbols <$> rows))) = Ok (concat (row_symbols <$> rows)) ->
  decode_rows code t (zlen rows) k (concat (row_scales <$> rows)) bits = Ok rows.
Proof.
  intros Ht Hk Hn Hok Hwf Hmax Hd. pose proof (zlen_nonneg rows) as Hn0.
  assert (Hw : zlen (concat (row_symbols <$> rows)) = zlen rows * k).
  { apply zlen_concat_const. eapply list.Forall_impl; [exact Hwf|]. intros row [E _]. rewrite zlen_row_symbols; lia. }
  unfold decode_rows, checked_mul. unfold u32_max in Hn, Hk. replace (_ <=? _) with true by (unfold usize_max; nia).
  cbn [ok_or bind]. unfold decode. cbn [js_bits js_symbols]. rewrite <- Hw, Hd. cbn [map_err bind].
  by rewrite rebuild_rows_Ok by (done || unfold u32_max; lia).
Qed.
