(* ===== verification/JointBundleFile.v ===== *)
(** * Joint-coded SALT bundles: the container

    The writer's file, field by field, and what the strict reader makes of it. *)

From Stdlib Require Import ZArith Lia Bool String.
From stdpp Require Import base list numbers gmap.
From S2P Require Import Prelude Text Core FormatBase TwoBit TQ2 LeCursor HuffmanCode JointCode JointLengths JointWords JointStream JointBundle JointBundleRows.

#[local] Open Scope Z_scope.

(** ** Counting *)

Lemma map_res_inv {E A B} (f : A -> res E B) l ys : map_res f l = Ok ys -> Forall2 (fun x y => f x = Ok y) l ys.
Proof.
  unfold map_res. assert (H : forall acc ys, for_each l (fun x out => let* y := f x in Ok (out ++ [y])) acc = Ok ys ->
    exists zs, ys = acc ++ zs /\ Forall2 (fun x y => f x = Ok y) l zs); [|intros H0; by apply H in H0 as (zs & -> & ?)].
  clear ys. induction l as [|x l IH]; intros acc ys H; simpl in H.
  - injection H as <-. exists []. by rewrite app_nil_r.
  - bind_inv H. bind_inv Hv. injection Hv as <-. apply IH in H as (zs & -> & Hz).
    eexists (_ :: zs). split; [by rewrite <- app_assoc|]. by constructor.
Qed.

Record counted (l freq freq' : list Z) : Prop := {
  cn_len : zlen freq' = zlen freq;
  cn_nonneg : Forall (fun f => 0 <= f) freq';
  cn_sum : zsum freq' = zsum freq + zlen l;
  cn_mono : forall s, bget freq s <= bget freq' s;
  cn_pos : Forall (fun s => 0 <= s < zlen freq /\ 0 < bget freq' s) l }.

Lemma counted_app l1 l2 f1 f2 f3 : counted l1 f1 f2 -> counted l2 f2 f3 -> counted (l1 ++ l2) f1 f3.
Proof.
  intros [A1 A2 A3 A4 A5] [B1 B2 B3 B4 B5]. split; [lia|done|rewrite zlen_app; lia|intros s; specialize (A4 s); specialize (B4 s); lia|].
  apply Forall_app. split.
  - eapply list.Forall_impl; [exact A5|]. intros s [Hs Hp]. specialize (B4 s). lia.
  - eapply list.Forall_impl; [exact B5|]. intros s [Hs Hp]. lia.
Qed.

Lemma count_symbols_inv l : forall freq freq', Forall (fun f => 0 <= f) freq ->
  count_symbols freq l = Ok freq' -> counted l freq freq'.
Proof.
  unfold count_symbols. induction l as [|s l IH]; intros freq freq' Hf H; simpl in H.
  - injection H as <-. split; [done|done|unfold zlen; simpl; lia|lia|constructor].
  - bind_inv H. bind_inv Hv. apply idx_Ok_inv in Hv0 as [Hr Hl]. bind_inv Hv. apply add_usize_inv in Hv0 as ->.
    apply upd_Ok_inv in Hv as [_ ->]. pose proof (Forall_lookup_1 _ _ _ _ Hf Hl) as Hv. simpl in Hv.
    change (s :: l) with ([s] ++ l). eapply counted_app; [|apply IH; [|exact H]].
    + split.
      * by rewrite zlen_insert.
      * apply Forall_insert; [done|lia].
      * rewrite (zsum_insert _ _ _ _ Hl). unfold zlen. simpl. lia.
      * intros i. unfold bget. destruct (Nat.eq_dec (Z.to_nat s) (Z.to_nat i)) as [E|Hne].
        -- rewrite <- E, Hl, list_lookup_insert_eq by (unfold zlen in Hr; lia). simpl. lia.
        -- rewrite list_lookup_insert_ne by done. lia.
      * constructor; [|constructor]. split; [done|]. unfold bget. rewrite list_lookup_insert_eq by (unfold zlen in Hr; lia). simpl. lia.
    + apply Forall_insert; [done|lia].
Qed.

Lemma count_all_inv exs : forall freq freq', Forall (fun f => 0 <= f) freq ->
  for_each exs (fun e freq => count_symbols freq (ex_symbols e)) freq = Ok freq' ->
  counted (concat (ex_symbols <$> exs)) freq freq'.
Proof.
  induction exs as [|e exs IH]; intros freq freq' Hf H; simpl in H.
  - injection H as <-. split; [done|done|unfold zlen; simpl; lia|lia|constructor].
  - bind_inv H. apply count_symbols_inv in Hv; [|done]. rewrite fmap_cons, concat_cons.
    eapply counted_app; [exact Hv|]. apply IH; [apply (cn_nonneg _ _ _ Hv)|done].
Qed.

(** ** The layout *)

Abbreviation item := ((list Z * list SaltRow) * Extracted * JointStream)%type.
Definition it_name (it : item) : list Z := fst (fst (fst it)).
Definition it_rows (it : item) : list SaltRow := snd (fst (fst it)).
Definition it_k (it : item) : Z := match it_rows it with [] => 0 | r :: _ => sr_k r end.
Definition it_scales (it : item) : list Z := ex_scales (snd (fst it)).
Definition it_bits (it : item) : list Z := js_bits (snd it).
Definition payload (it : item) : list Z := it_scales it ++ it_bits it.

(** The directory of items whose payloads start at [off]. *)
Fixpoint infos (off : Z) (items : list item) : list JointTensorInfo :=
  match items with
  | [] => []
  | it :: items =>
      mkInfo (it_name it) (zlen (it_rows it)) (it_k it) off (zlen (it_scales it)) (zlen (it_bits it))
      :: infos (off + zlen (payload it)) items
  end.

Definition info_bytes (i : JointTensorInfo) : list Z :=
  dir_entry (ji_name i) (ji_rows i) (ji_k i) (ji_payload_offset i) (ji_scale_bytes i) (ji_stream_bytes i).

Lemma zlen_info_bytes i : zlen (info_bytes i) = DIR_FIXED_BYTES + zlen (ji_name i).
Proof. unfold info_bytes, dir_entry. rewrite !zlen_app, !zlen_to_le. unfold DIR_FIXED_BYTES. lia. Qed.

Definition item_ok (it : item) : Prop :=
  zlen (it_name it) <= u16_max /\ Forall (fun r => sr_k r = it_k it) (it_rows it).

Lemma existsb_k k rows : existsb (fun r => negb (sr_k r =? k)) rows = false -> Forall (fun r => sr_k r = k) rows.
Proof.
  induction rows as [|r rows IH]; simpl; [constructor|]. intros [H1 H2]%orb_false_iff. constructor; [lia|by apply IH].
Qed.

Lemma write_entries_inv items : forall out off out' off',
  for_each items write_entry (out, off) = Ok (out', off') ->
  Forall item_ok items /\ out' = out ++ concat (info_bytes <$> infos off items).
Proof.
  induction items as [|it items IH]; intros out off out' off' H.
  - injection H as <- <-. split; [constructor|]. simpl. by rewrite app_nil_r.
  - cbn [for_each] in H. bind_inv H. destruct v as [o1 f1].
    destruct it as [[[name rows] ex] s]. cbn [write_entry] in Hv.
    destruct (Z.ltb_spec u16_max (zlen name)); [done|]. destruct (existsb _ rows) eqn:Hx; [done|].
    bind_inv Hv. apply add_usize_inv in Hv0 as ->. bind_inv Hv. apply add_usize_inv in Hv0 as ->. injection Hv as <- <-.
    apply IH in H as [Hall ->]. split.
    + constructor; [|done]. split; [done|]. by apply existsb_k in Hx.
    + cbn [infos]. rewrite fmap_cons, concat_cons, <- app_assoc. do 3 f_equal.
      unfold payload, it_scales, it_bits. cbn [fst snd]. rewrite zlen_app. done.
Qed.

Lemma for_each_payload (l : list (Extracted * JointStream)) : forall out,
  for_each l (fun es out => Ok (out ++ ex_scales (fst es) ++ js_bits (snd es))) out =
  Ok (E := JointBundleError) (out ++ concat ((fun es => ex_scales (fst es) ++ js_bits (snd es)) <$> l)).
Proof.
  induction l as [|x l IH]; intros out; [simpl; by rewrite app_nil_r|].
  cbn [for_each bind]. by rewrite IH, fmap_cons, concat_cons, <- app_assoc.
Qed.

Definition header_bytes (t : Z) (rotation : option Z) (count : Z) : list Z :=
  SALT_JOINT_BUNDLE_MAGIC ++ to_le 1 SALT_JOINT_BUNDLE_VERSION ++ to_le 1 t ++ to_le 2 (default 0 rotation) ++ to_le 4 count.

Lemma zlen_header t rotation count : zlen (header_bytes t rotation count) = 12.
Proof. unfold header_bytes. rewrite !zlen_app, !zlen_to_le. done. Qed.

(** The file of a joint code and the items under it. *)
Definition file_bytes (t : Z) (rotation : option Z) (code : JointCode) (items : list item) : list Z :=
  let base := 12 + zlen (jc_lengths code) + zsum ((fun it => DIR_FIXED_BYTES + zlen (it_name it)) <$> items) in
  (header_bytes t rotation (zlen items) ++ jc_lengths code ++ concat (info_bytes <$> infos base items)) ++
  concat (payload <$> items).

Lemma zlen_dir off items :
  zlen (concat (info_bytes <$> infos off items)) = zsum ((fun it => DIR_FIXED_BYTES + zlen (it_name it)) <$> items).
Proof.
  revert off. induction items as [|it items IH]; intros off; [done|]. cbn [infos]. rewrite !fmap_cons, concat_cons, zlen_app, IH.
  rewrite zlen_info_bytes. done.
Qed.

Lemma fst_infos off items : ji_name <$> infos off items = it_name <$> items.
Proof. revert off. induction items as [|it items IH]; intros off; [done|]. cbn [infos]. rewrite !fmap_cons. by rewrite IH. Qed.

Lemma length_infos off items : length (infos off items) = length items.
Proof. revert off. induction items as [|it items IH]; intros off; simpl; [done|]. by rewrite IH. Qed.

Lemma infos_lookup off items i it :
  items !! i = Some it ->
  infos off items !! i = Some (mkInfo (it_name it) (zlen (it_rows it)) (it_k it)
    (off + zlen (concat (payload <$> take i items))) (zlen (it_scales it)) (zlen (it_bits it))).
Proof.
  revert off i. induction items as [|x items IH]; intros off [|i] H; [done..| |].
  - injection H as ->. simpl. do 2 f_equal. change (zlen []) with 0. lia.
  - cbn [infos]. simpl (_ !! S i). rewrite (IH _ _ H). cbn [take]. rewrite fmap_cons, concat_cons, zlen_app. do 2 f_equal. lia.
Qed.

(** ** Reading the header and the directory *)

Lemma rd_at pre x rest n : n = zlen x -> rd (lc_at pre (x ++ rest)) n = Ok (x, lc_at (pre ++ x) rest).
Proof.
  intros ->. unfold rd, read_exact, lc_at. cbn [lc_b lc_o]. rewrite !zlen_app.
  pose proof (zlen_nonneg pre). pose proof (zlen_nonneg x). pose proof (zlen_nonneg rest).
  rewrite Z.min_l by lia. replace (_ <=? _) with true by lia. cbn [bind].
  rewrite sub_mid by lia. rewrite <- app_assoc. done.
Qed.

Lemma rd_int_at pre rest (n : nat) v :
  0 <= v < 256 ^ Z.of_nat n ->
  rd_int (Z.of_nat n) (lc_at pre (to_le n v ++ rest)) = Ok (v, lc_at (pre ++ to_le n v) rest).
Proof. intros Hv. unfold rd_int. rewrite rd_at by (by rewrite zlen_to_le). cbn [bind]. by rewrite from_to_le. Qed.

(** The entries the strict reader takes. *)
Record info_wf (planes file_len : Z) (i : JointTensorInfo) : Prop := {
  iw_name : zlen (ji_name i) <= u16_max /\ utf8_valid (ji_name i) = true;
  iw_rows : 0 <= ji_rows i <= u32_max;
  iw_k : 0 <= ji_k i <= u32_max;
  iw_sizes : 0 <= ji_payload_offset i /\ 0 <= ji_scale_bytes i /\ 0 <= ji_stream_bytes i;
  iw_scales : ji_scale_bytes i = ji_rows i * div_ceil (ji_k i) QK_K * (planes * 2);
  iw_end : ji_payload_offset i + ji_scale_bytes i + ji_stream_bytes i <= file_len }.

Lemma read_entry_at planes i pre rest entries by_name j :
  0 <= planes -> zlen (pre ++ info_bytes i ++ rest) <= isize_max ->
  info_wf planes (zlen (pre ++ info_bytes i ++ rest)) i -> by_name !! ji_name i = None ->
  read_entry planes (zlen (pre ++ info_bytes i ++ rest)) j
    (lc_at pre (info_bytes i ++ rest), entries, by_name, zlen pre) =
  Ok (lc_at (pre ++ info_bytes i) rest, entries ++ [i], <[ji_name i := zlen entries]> by_name, zlen (pre ++ info_bytes i)).
Proof.
  intros Hp Hmax [[Hn Hu] Hr Hk Hs Hsc He] Hnone. set (file_len := zlen (pre ++ info_bytes i ++ rest)) in *.
  pose proof (zlen_info_bytes i) as Hib. pose proof (zlen_nonneg (ji_name i)) as Hn0. pose proof (zlen_nonneg rest). pose proof (zlen_nonneg pre).
  assert (Hfl : file_len = zlen pre + (DIR_FIXED_BYTES + zlen (ji_name i) + zlen rest)) by (subst file_len; rewrite !zlen_app; lia).
  unfold isize_max, u16_max, u32_max in *.
  unfold read_entry, info_bytes, dir_entry. rewrite <- !app_assoc. rewrite !Z.mod_small by lia.
  rewrite (rd_int_at _ _ 2) by lia. cbn [bind]. rewrite add_usize_Ok by (unfold usize_max, DIR_FIXED_BYTES in *; lia). cbn [bind].
  replace (file_len <? _) with false by lia. rewrite rd_at by done. cbn [bind]. rewrite Hu. cbn [ensure bind].
  rewrite (rd_int_at _ _ 4) by lia. cbn [bind]. rewrite (rd_int_at _ _ 4) by lia. cbn [bind].
  rewrite (rd_int_at _ _ 8) by lia. cbn [bind]. rewrite (rd_int_at _ _ 8) by lia. cbn [bind].
  rewrite (rd_int_at _ _ 8) by lia. cbn [bind]. destruct (nb_bounds (ji_k i) ltac:(lia)) as [Hnb _].
  assert (Hprod : 0 <= ji_rows i * div_ceil (ji_k i) QK_K) by nia.
  pose proof (div_ceil_bounds (ji_k i) QK_K ltac:(unfold QK_K; lia)) as Hdc. unfold QK_K in Hdc at 1 3.
  unfold checked_mul. replace (ji_rows i * div_ceil (ji_k i) QK_K <=? usize_max) with true by (unfold usize_max; nia).
  cbn [mbind option_bind]. rewrite <- Hsc. replace (_ <=? usize_max) with true by (unfold usize_max; lia). cbn [ok_or bind].
  rewrite Z.eqb_refl. cbn [negb]. unfold checked_add.
  replace (_ <=? usize_max) with true by (unfold usize_max; lia). cbn [mbind option_bind].
  replace (_ <=? usize_max) with true by (unfold usize_max; lia). cbn [ok_or bind].
  replace (file_len <? _) with false by lia. rewrite Hnone, bool_decide_false by (by intros [? ?]).
  rewrite <- !app_assoc. assert (Ei : mkInfo (ji_name i) (ji_rows i) (ji_k i) (ji_payload_offset i) (ji_scale_bytes i)
    (ji_stream_bytes i) = i) by (by destruct i).
  rewrite Ei. do 2 f_equal. unfold DIR_FIXED_BYTES in *. rewrite !zlen_app, !zlen_to_le. lia.
Qed.

Lemma read_dir_at planes whole (l : list JointTensorInfo) : forall pre rest entries by_name lo,
  0 <= planes -> zlen whole <= isize_max -> whole = pre ++ concat (info_bytes <$> l) ++ rest ->
  Forall (info_wf planes (zlen whole)) l -> NoDup (ji_name <$> l) ->
  (forall i, i ∈ l -> by_name !! ji_name i = None) ->
  exists by_name',
    for_n (length l) lo (read_entry planes (zlen whole))
      (lc_at pre (concat (info_bytes <$> l) ++ rest), entries, by_name, zlen pre) =
    Ok (lc_at (pre ++ concat (info_bytes <$> l)) rest, entries ++ l, by_name', zlen (pre ++ concat (info_bytes <$> l))) /\
    (forall n, n ∉ (ji_name <$> l) -> by_name' !! n = by_name !! n) /\
    forall j i, l !! j = Some i -> by_name' !! ji_name i = Some (zlen entries + Z.of_nat j).
Proof.
  induction l as [|i l IH]; intros pre rest entries by_name lo Hp Hmax Hw Hwf Hnd Hno.
  - exists by_name. cbn [length for_n]. simpl concat. rewrite !app_nil_r. split; [done|]. split; [done|]. intros j x Hx. done.
  - apply list.Forall_cons in Hwf as [Hi Hwf]. rewrite fmap_cons in Hnd. apply list.NoDup_cons in Hnd as [Hni Hnd].
    rewrite !fmap_cons, !concat_cons, <- !app_assoc in *. cbn [length for_n].
    rewrite Hw in Hi, Hmax |- *. rewrite read_entry_at; [|done|done|done|apply Hno, list_elem_of_here]. rewrite <- Hw in Hmax |- *. cbn [bind].
    destruct (IH (pre ++ info_bytes i) rest (entries ++ [i]) (<[ji_name i := zlen entries]> by_name) (lo + 1))
      as (by_name' & -> & Hother & Hin).
    + done.
    + done.
    + by rewrite <- app_assoc.
    + done.
    + done.
    + intros x Hx. rewrite lookup_insert_ne; [apply Hno; by apply list_elem_of_further|].
      intros E. apply Hni. rewrite E. by apply list_elem_of_fmap_2.
    + exists by_name'. rewrite <- !app_assoc. split; [done|]. split.
      * intros n Hn. rewrite not_elem_of_cons in Hn. destruct Hn as [Hn1 Hn2]. rewrite Hother by done.
        by rewrite lookup_insert_ne by congruence.
      * intros [|j] x Hx.
        -- injection Hx as <-. rewrite Hother by done. rewrite lookup_insert_eq. f_equal. lia.
        -- rewrite (Hin j x Hx). rewrite zlen_app. change (zlen [i]) with 1. f_equal. lia.
Qed.

Lemma check_tiles_at items : forall off,
  0 <= off -> off + zlen (concat (payload <$> items)) <= isize_max ->
  check_tiles (infos off items) off (off + zlen (concat (payload <$> items))) = Ok tt.
Proof.
  unfold check_tiles. intros off H0 Hmax.
  match goal with |- (let* x := ?m in _) = _ => assert (Hm : m = Ok (off + zlen (concat (payload <$> items)))) end.
  { revert off H0 Hmax. induction items as [|it items IH]; intros off H0 Hmax; [simpl; f_equal; change (zlen []) with 0; lia|].
    cbn [infos for_each]. rewrite fmap_cons, concat_cons, zlen_app in *. cbn [ji_payload_offset ji_scale_bytes ji_stream_bytes].
    rewrite Z.eqb_refl. cbn [negb]. pose proof (zlen_nonneg (concat (payload <$> items))). pose proof (zlen_nonneg (payload it)).
    unfold isize_max in *. unfold payload at 1 in H1. rewrite zlen_app in H1.
    assert (Hpl : zlen (payload it) = zlen (it_scales it) + zlen (it_bits it)) by (unfold payload; apply zlen_app).
    rewrite add_usize_Ok by (unfold usize_max; lia). cbn [bind]. rewrite add_usize_Ok by (unfold usize_max; lia). cbn [bind].
    rewrite <- Hpl. rewrite IH by lia. f_equal. lia. }
  rewrite Hm. cbn [bind]. by rewrite Z.eqb_refl.
Qed.

Lemma pow3 t : 1 <= t <= 9 -> pow_usize (E := JointBundleError) 3 t = Ok (3 ^ t) /\ 3 <= 3 ^ t <= 19683.
Proof.
  intros Ht. assert (H : 3 ^ 1 <= 3 ^ t <= 3 ^ 9) by (split; apply Z.pow_le_mono_r; lia).
  change (3 ^ 1) with 3 in H. change (3 ^ 9) with 19683 in H. split; [|done].
  unfold pow_usize. by replace (_ <=? _) with true by (unfold usize_max; lia).
Qed.

(** The rotation group a file carries: zero stands for none, so a group of zero is lost. *)
Definition read_rotation (rotation : option Z) : option Z :=
  match rotation with Some g => if g =? 0 then None else Some g | None => None end.

(** The strict reader on a file of that layout. *)
Lemma new_strict_at t rotation code items :
  1 <= t <= 9 -> 0 <= default 0 rotation < 65536 -> zlen items <= MAX_TENSORS ->
  zlen (jc_lengths code) = 3 ^ t -> from_lengths (jc_lengths code) t = Ok code ->
  let whole := file_bytes t rotation code items in
  let base := 12 + zlen (jc_lengths code) + zsum ((fun it => DIR_FIXED_BYTES + zlen (it_name it)) <$> items) in
  zlen whole <= isize_max -> Forall (info_wf t (zlen whole)) (infos base items) -> NoDup (it_name <$> items) ->
  exists r, new_strict whole = Ok r /\ lc_b (jr_source r) = whole /\ jr_planes r = t /\ jr_rotation_group r = read_rotation rotation /\
    jr_code r = code /\ jr_entries r = infos base items /\
    forall j it, items !! j = Some it -> jr_by_name r !! it_name it = Some (Z.of_nat j).
Proof.
  intros Ht Hrot Hn Hlen Hfl whole base Hmax Hwf Hnd. destruct (pow3 t Ht) as [Hpow Hb3].
  pose proof (zlen_nonneg items) as Hn0. unfold MAX_TENSORS in Hn.
  set (dir := concat (info_bytes <$> infos base items)). set (tail := concat (payload <$> items)).
  assert (Hwhole : whole = header_bytes t rotation (zlen items) ++ jc_lengths code ++ dir ++ tail)
    by (unfold whole, file_bytes; by rewrite <- !app_assoc).
  destruct (read_dir_at t whole (infos base items) (header_bytes t rotation (zlen items) ++ jc_lengths code) tail [] ∅ 0)
    as (by_name & Hdir & _ & Hin).
  { lia. } { done. } { rewrite Hwhole, <- app_assoc. done. } { done. } { by rewrite fst_infos. } { intros i _. apply lookup_empty. }
  assert (Hpre : zlen (header_bytes t rotation (zlen items) ++ jc_lengths code) = 12 + 3 ^ t) by (rewrite zlen_app, zlen_header; lia).
  rewrite Hpre in Hdir.
  assert (Hbase : zlen ((header_bytes t rotation (zlen items) ++ jc_lengths code) ++ dir) = base)
    by (rewrite zlen_app, Hpre; unfold dir; rewrite zlen_dir; unfold base; lia).
  fold dir in Hdir. rewrite Hbase in Hdir.
  assert (Hfile : zlen whole = base + zlen tail) by (rewrite Hwhole, <- Hbase, !zlen_app; lia).
  pose proof (zlen_nonneg tail). assert (Hb0 : 0 <= base) by (rewrite <- Hbase; apply zlen_nonneg).
  exists (mkReader (lc_at ((header_bytes t rotation (zlen items) ++ jc_lengths code) ++ dir) tail) t (read_rotation rotation) code (infos base items) by_name).
  split; [|split; [cbn [jr_source]; unfold lc_at; cbn [lc_b]; by rewrite Hwhole, <- !app_assoc|]].
  2:{ cbn. repeat split. intros j it Hj. pose proof (infos_lookup base items j it Hj) as Hi. apply Hin in Hi. exact Hi. }
  assert (Hs : lc_new whole = lc_at [] (SALT_JOINT_BUNDLE_MAGIC ++ to_le 1 SALT_JOINT_BUNDLE_VERSION ++ to_le 1 t ++
    to_le 2 (default 0 rotation) ++ to_le 4 (zlen items) ++ jc_lengths code ++ dir ++ tail))
    by (rewrite Hwhole; unfold header_bytes; by rewrite <- !app_assoc).
  clearbody whole. unfold new_strict. rewrite Hs.
  rewrite rd_at by done. cbn [bind]. rewrite bool_decide_true by done. cbn [negb].
  rewrite (rd_int_at _ _ 1) by done. cbn [bind]. rewrite Z.eqb_refl. cbn [negb].
  rewrite (rd_int_at _ _ 1) by (simpl; lia). cbn [bind]. unfold MAX_JOINT_PLANES. replace (_ || _) with false by lia.
  rewrite (rd_int_at _ _ 2) by (simpl; lia). cbn [bind].
  rewrite (rd_int_at _ _ 4) by (simpl; lia). cbn [bind]. unfold MAX_TENSORS. replace (_ <? zlen items) with false by lia.
  rewrite Hpow. cbn [bind]. rewrite rd_at by done. cbn [bind]. rewrite Hfl. cbn [map_err bind].
  unfold HEADER_BYTES. rewrite add_usize_Ok by (unfold usize_max; lia). cbn [bind]. unfold for_range.
  replace (Z.to_nat (zlen items - 0)) with (length (infos base items)) by (rewrite length_infos; unfold zlen; lia).
  replace (((((([] ++ SALT_JOINT_BUNDLE_MAGIC) ++ to_le 1 SALT_JOINT_BUNDLE_VERSION) ++ to_le 1 t) ++ to_le 2 (default 0 rotation)) ++
    to_le 4 (zlen items)) ++ jc_lengths code) with (header_bytes t rotation (zlen items) ++ jc_lengths code)
    by (unfold header_bytes; rewrite app_nil_l, <- !app_assoc; done).
  rewrite Hdir. cbn [bind]. rewrite app_nil_l, Hfile. unfold tail. rewrite check_tiles_at by (fold tail; lia). cbn [bind].
  by destruct rotation as [g|].
Qed.

(** Any tensor of that file, wherever the cursor is. *)
Lemma read_exact_mid (x y z : list Z) : read_exact (mkLeCursor (x ++ y ++ z) (zlen x)) (zlen y) =
  (mkLeCursor (x ++ y ++ z) (zlen x + zlen y), Ok y).
Proof.
  unfold read_exact. cbn [lc_b lc_o]. rewrite !zlen_app. pose proof (zlen_nonneg x). pose proof (zlen_nonneg y). pose proof (zlen_nonneg z).
  rewrite Z.min_l by lia. replace (_ <=? _) with true by lia. by rewrite sub_mid by lia.
Qed.

Lemma read_tensor_at r head items j it rows :
  lc_b (jr_source r) = head ++ concat (payload <$> items) ->
  jr_entries r = infos (zlen head) items -> items !! j = Some it -> jr_by_name r !! it_name it = Some (Z.of_nat j) ->
  decode_rows (jr_code r) (jr_planes r) (zlen (it_rows it)) (it_k it) (it_scales it) (it_bits it) = Ok rows ->
  snd (read_tensor r (it_name it)) = Ok rows.
Proof.
  intros Hb He Hj Hn Hd. unfold read_tensor, tensor_info. rewrite Hn. cbn [mbind option_bind]. rewrite He, Nat2Z.id.
  rewrite (infos_lookup _ _ _ _ Hj). cbn [ji_payload_offset ji_scale_bytes ji_stream_bytes ji_rows ji_k].
  assert (Hsp : concat (payload <$> items) = concat (payload <$> take j items) ++ it_scales it ++ it_bits it ++
    concat (payload <$> drop (S j) items)).
  { rewrite <- (take_drop_middle items j it) at 1 by done. rewrite fmap_app, fmap_cons, concat_app, concat_cons.
    unfold payload at 2. by rewrite <- !app_assoc. }
  rewrite Hb, Hsp. rewrite (app_assoc head). rewrite <- zlen_app. rewrite read_exact_mid.
  rewrite (app_assoc _ (it_scales it)). rewrite <- zlen_app, read_exact_mid. cbn [snd bind]. done.
Qed.

(** ** What the writer wrote *)

(** What the types of the writer's arguments say, with counts that fit the
    directory's 32-bit fields. *)
Definition tensor_wf (x : list Z * list SaltRow) : Prop :=
  utf8_valid (fst x) = true /\ zlen (snd x) <= u32_max /\
  Forall (fun r => 0 <= sr_k r <= u32_max /\ Forall (fun p => bytes_ok p) (sr_planes r)) (snd x).

(** The number of weights. *)
Definition tensor_weights (x : list Z * list SaltRow) : Z := zsum (sr_k <$> snd x).
Definition weights (tensors : list (list Z * list SaltRow)) : Z := zsum (tensor_weights <$> tensors).

Lemma zlen_concat_symbols rows :
  Forall (fun r => 0 <= sr_k r) rows -> zlen (concat (row_symbols <$> rows)) = zsum (sr_k <$> rows).
Proof.
  induction 1 as [|r rows Hr Hrows IH]; [done|]. rewrite !fmap_cons, concat_cons, zlen_app, zlen_row_symbols, IH by done. done.
Qed.

Lemma zlen_concat_scales t k rows : 0 <= t -> 0 <= k -> Forall (row_ok t) rows -> Forall (fun r => sr_k r = k) rows ->
  zlen (concat (row_scales <$> rows)) = zlen rows * div_ceil k QK_K * (t * 2).
Proof.
  intros Ht Hk0 Hok Hk. rewrite <- Z.mul_assoc. apply zlen_concat_const. apply list.Forall_forall. intros r Hr.
  rewrite list.Forall_forall in Hok, Hk. destruct (Hok r Hr) as [Hp Hall]. unfold row_scales. rewrite (Hk r Hr) in *.
  rewrite (zlen_concat_const _ _ (div_ceil k QK_K * 2)); [lia|]. eapply list.Forall_impl; [exact Hall|]. intros p Hpo.
  apply zlen_blocks; [apply nb_bounds; lia|]. intros i Hi.
  pose proof (zlen_block_at p _ i (po_len k p Hpo) Hi). rewrite zlen_sub; lia.
Qed.

(** One tensor through extraction and coding. *)
Record coded_item (t : Z) (code : JointCode) (it : item) : Prop := {
  ci_wf : tensor_wf (fst (fst it));
  ci_rows : Forall (row_ok t) (it_rows it);
  ci_extracted : snd (fst it) = mkExtracted (concat (row_symbols <$> it_rows it)) (concat (row_scales <$> it_rows it));
  ci_decode : decode_run code (it_bits it) 0 (zlen (concat (row_symbols <$> it_rows it))) = Ok (concat (row_symbols <$> it_rows it)) }.

Lemma stream_decodes code freq t symbols s :
  zlen freq = 3 ^ t -> code_ok code -> lengths_for freq (jc_lengths code) ->
  Forall (fun s => 0 <= s < zlen freq /\ 0 < bget freq s) symbols -> zlen symbols <= 2 ^ 50 ->
  encode code symbols (Z.max (zlen symbols) 1) = Ok s ->
  decode_run code (js_bits s) 0 (zlen symbols) = Ok symbols.
Proof.
  intros Hz Hcode L Hsym Hn Henc. change (2 ^ 50) with 1125899906842624 in Hn. pose proof (zlen_nonneg symbols) as Hn0.
  assert (Hall : Forall (coded code) symbols).
  { eapply list.Forall_impl; [exact Hsym|]. intros x [Hr Hfr]. split; [rewrite (lf_len _ _ L); lia|]. apply (lf_live _ _ L); lia. }
  destruct (encode_Ok code Hcode symbols (Z.max (zlen symbols) 1) Hall ltac:(unfold usize_max; lia) ltac:(lia)) as (bits & pad & E & Hbits & Hpad).
  rewrite E in Henc. injection Henc as <-. cbn [js_bits].
  pose proof (words_bound code Hcode symbols Hall) as Hwb. pose proof (length_stream bits) as Hl. rewrite Hbits, length_app in Hl.
  rewrite <- (sub_full symbols) at 2.
  apply (decode_run_Ok code Hcode symbols bits pad Hall ltac:(unfold usize_max; lia) Hbits 0 (zlen symbols)); unfold usize_max; lia.
Qed.

Lemma first_row_rows tensors row : first_row tensors = Some row -> exists x, x ∈ tensors /\ snd x <> [].
Proof.
  unfold first_row. intros H. apply head_Some_elem_of in H. apply list_elem_of_omap in H as (x & Hx & Hh).
  exists x. split; [done|]. by destruct (snd x).
Qed.

Lemma tensor_wf_k x : tensor_wf x -> Forall (fun r => 0 <= sr_k r) (snd x).
Proof. intros (_ & _ & H). eapply list.Forall_impl; [exact H|]. simpl. lia. Qed.

Lemma extract_all_symbols t : 0 <= t -> forall tensors exs, Forall tensor_wf tensors ->
  Forall2 (fun x e => extract (fst x) (snd x) t = Ok e) tensors exs ->
  zlen (concat (ex_symbols <$> exs)) = weights tensors.
Proof.
  intros Ht tensors exs Hwf H. induction H as [|x e tensors exs Hx H IH]; [done|].
  apply list.Forall_cons in Hwf as [Hw Hwf]. apply extract_inv in Hx as (_ & _ & ->); [|done|by apply tensor_wf_k].
  rewrite fmap_cons, concat_cons, zlen_app, IH by done. cbn [ex_symbols]. rewrite zlen_concat_symbols by (by apply tensor_wf_k). done.
Qed.

Lemma coded_items t code freq tensors exs streams :
  0 <= t -> zlen freq = 3 ^ t -> code_ok code -> lengths_for freq (jc_lengths code) -> Forall tensor_wf tensors ->
  Forall2 (fun x e => extract (fst x) (snd x) t = Ok e) tensors exs ->
  Forall2 (fun e s => map_err Code (encode code (ex_symbols e) (Z.max (zlen (ex_symbols e)) 1)) = Ok s) exs streams ->
  Forall (fun s => 0 <= s < zlen freq /\ 0 < bget freq s) (concat (ex_symbols <$> exs)) ->
  zlen (concat (ex_symbols <$> exs)) <= 2 ^ 50 ->
  Forall (coded_item t code) (zip (zip tensors exs) streams) /\
  it_name <$> zip (zip tensors exs) streams = fst <$> tensors /\
  fst <$> (fst <$> zip (zip tensors exs) streams) = tensors /\
  (fun es => ex_scales (fst es) ++ js_bits (snd es)) <$> zip exs streams = payload <$> zip (zip tensors exs) streams.
Proof.
  intros Ht Hz Hcode L Hwf Hex. revert streams. induction Hex as [|x e tensors exs Hx Hex IH]; intros streams Hst Hsym Hn.
  - inversion Hst; subst. done.
  - inversion Hst as [|? s ? streams' Hs Hst']; subst. apply list.Forall_cons in Hwf as [Hw Hwf].
    rewrite fmap_cons, concat_cons in Hsym, Hn. apply Forall_app in Hsym as [Hs1 Hs2]. rewrite zlen_app in Hn.
    pose proof (zlen_nonneg (ex_symbols e)). pose proof (zlen_nonneg (concat (ex_symbols <$> exs))).
    destruct (IH Hwf streams' Hst' Hs2 ltac:(lia)) as (H1 & H2 & H3 & H4). cbn [zip zip_with]. rewrite !fmap_cons.
    unfold zip in *. rewrite H2, H3, H4. apply map_err_Ok_inv in Hs. split; [|done]. constructor; [|done].
    apply extract_inv in Hx as (Hrow & _ & ->); [|done|by apply tensor_wf_k]. split; [done|done|done|].
    unfold it_bits, it_rows. cbn [fst snd ex_symbols] in *. apply (stream_decodes code freq t); try done. lia.
Qed.

Lemma dir_sum tensors : forall acc d,
  for_each (E := JointBundleError) tensors (fun (t : list Z * list SaltRow) acc => let* n := add_usize DIR_FIXED_BYTES (zlen (fst t)) in add_usize acc n) acc = Ok d ->
  d = acc + zsum ((fun n => DIR_FIXED_BYTES + zlen n) <$> (fst <$> tensors)).
Proof.
  induction tensors as [|x tensors IH]; intros acc d H.
  - injection H as <-. simpl. lia.
  - cbn [for_each] in H. bind_inv H. bind_inv Hv. apply add_usize_inv in Hv0 as ->. apply add_usize_inv in Hv as ->.
    apply IH in H as ->. rewrite !fmap_cons. change (zsum (?y :: ?l)) with (y + zsum l). lia.
Qed.

Lemma write_layout tensors rotation bytes :
  write_joint_salt_bundle tensors rotation = Ok bytes -> Forall tensor_wf tensors -> weights tensors <= 2 ^ 50 ->
  exists t code items,
    1 <= t <= 9 /\ zlen items <= MAX_TENSORS /\ zlen (jc_lengths code) = 3 ^ t /\ from_lengths (jc_lengths code) t = Ok code /\
    Forall (coded_item t code) items /\ Forall item_ok items /\ it_name <$> items = fst <$> tensors /\
    fst <$> (fst <$> items) = tensors /\ bytes = file_bytes t rotation code items.
Proof.
  intros H Hwf Hn. unfold write_joint_salt_bundle in H. bind_inv H. rename v into row. apply ok_or_inv in Hv.
  destruct (Z.ltb_spec MAX_TENSORS (zlen tensors)) as [|Hmax]; [done|]. destruct (u32_max <? _); [done|].
  set (t := zlen (sr_planes row)) in *. assert (Ht0 : 0 <= t) by apply zlen_nonneg.
  bind_inv H. rename v into a. bind_inv H. rename v into exs. apply map_res_inv in Hv1.
  assert (Ht : 1 <= t <= 9).
  { apply first_row_rows in Hv as (x & Hx & Hne). apply list_elem_of_lookup in Hx as [i Hi].
    destruct (Forall2_lookup_l _ _ _ _ _ Hv1 Hi) as (e & _ & He). pose proof (Forall_lookup_1 _ _ _ _ Hwf Hi) as Hw.
    apply extract_inv in He as (_ & Hr & _); [by apply Hr|done|by apply tensor_wf_k]. }
  destruct (pow3 t Ht) as [Hp Hb3]. rewrite Hp in Hv0. apply Ok_inj in Hv0 as <-.
  bind_inv H. rename v into freq. apply count_all_inv in Hv0; [|apply Forall_replicate; lia].
  destruct Hv0 as [Hlen Hnn Hsum _ Hpos]. rewrite zlen_vec, Z.max_r in Hlen by lia. rewrite zsum_vec0 in Hsum.
  rewrite (extract_all_symbols t Ht0 tensors exs Hwf Hv1) in Hsum.
  bind_inv H. rename v into code. apply map_err_Ok_inv in Hv0.
  destruct (build_Ok freq t Ht Hlen Hnn ltac:(unfold usize_max; lia)) as (code' & Hbuild & Hfl & Hcode & L).
  rewrite Hbuild in Hv0. injection Hv0 as ->. bind_inv H. rename v into streams. apply map_res_inv in Hv0.
  destruct (coded_items t code freq tensors exs streams Ht0 Hlen Hcode L Hwf Hv1 Hv0) as (Hci & Hnames & Hfst & Hpay).
  { eapply list.Forall_impl; [exact Hpos|]. rewrite zlen_vec, Z.max_r by lia. rewrite Hlen. done. }
  { rewrite (extract_all_symbols t Ht0 tensors exs Hwf Hv1). done. }
  set (items := zip (zip tensors exs) streams) in *.
  bind_inv H. apply dir_sum in Hv2 as ->. bind_inv H. apply add_usize_inv in Hv2 as ->. bind_inv H. apply add_usize_inv in Hv2 as ->.
  bind_inv H. destruct v as [out off]. apply write_entries_inv in Hv2 as [Hok ->]. rewrite for_each_payload in H.
  apply Ok_inj in H. exists t, code, items.
  assert (Hli : zlen items = zlen tensors) by (rewrite <- Hfst, !zlen_fmap; done).
  pose proof (zlen_nonneg tensors). unfold MAX_TENSORS in *.
  split; [done|]. split; [lia|]. split; [by rewrite (lf_len _ _ L)|]. split; [done|]. split; [done|]. split; [done|].
  split; [done|]. split; [done|]. rewrite <- H, Hpay. unfold file_bytes. f_equal. rewrite !Z.mod_small by lia.
  rewrite Hli, (lf_len _ _ L), Hlen, <- Hnames, <- list_fmap_compose. unfold header_bytes.
  change (to_le 1 SALT_JOINT_BUNDLE_VERSION) with [SALT_JOINT_BUNDLE_VERSION].
  assert (Et : to_le 1 t = [t]) by (cbn [to_le]; by rewrite Z.mod_small by lia).
  rewrite Et, Z.add_0_l, <- !app_assoc. done.
Qed.

(** ** The round trip *)

Lemma infos_wf t code whole : 1 <= t <= 9 -> forall items off,
  Forall (coded_item t code) items -> Forall item_ok items -> 0 <= off ->
  off + zlen (concat (payload <$> items)) <= whole -> Forall (info_wf t whole) (infos off items).
Proof.
  intros Ht. induction items as [|it items IH]; intros off Hc Ho H0 Hmax; [constructor|]. cbn [infos].
  apply list.Forall_cons in Hc as [[(Hu & Hrl & Hrows) Hrow Hex _] Hc]. apply list.Forall_cons in Ho as [[Hn Hk] Ho].
  rewrite fmap_cons, concat_cons, zlen_app in Hmax. pose proof (zlen_nonneg (concat (payload <$> items))).
  pose proof (zlen_nonneg (it_scales it)). pose proof (zlen_nonneg (it_bits it)). pose proof (zlen_nonneg (it_rows it)).
  assert (Hpl : zlen (payload it) = zlen (it_scales it) + zlen (it_bits it)) by (unfold payload; apply zlen_app).
  assert (Hk0 : 0 <= it_k it <= u32_max).
  { unfold it_k, it_rows. destruct (snd (fst (fst it))) as [|r rows]; [unfold u32_max; lia|].
    apply list.Forall_cons in Hrows as [[Hr _] _]. done. }
  constructor; [|apply IH; [done|done|lia|lia]]. split; cbn; [done|split; [lia|exact Hrl]|done|lia| |lia].
  unfold it_scales. rewrite Hex. cbn [ex_scales]. apply (zlen_concat_scales t); [lia|lia|done|done].
Qed.

Lemma item_reads t code it :
  1 <= t <= 9 -> coded_item t code it -> item_ok it -> zlen (payload it) <= isize_max ->
  decode_rows code t (zlen (it_rows it)) (it_k it) (it_scales it) (it_bits it) = Ok (it_rows it).
Proof.
  intros Ht [(Hu & Hrl & Hrows) Hrow Hex Hdec] [Hn Hk] Hmax. unfold it_scales in *. rewrite Hex. cbn [ex_scales].
  assert (Hsc : zlen (concat (row_scales <$> it_rows it)) <= isize_max).
  { unfold payload, it_scales in Hmax. rewrite Hex, zlen_app in Hmax. cbn [ex_scales] in Hmax. pose proof (zlen_nonneg (it_bits it)). lia. }
  apply decode_rows_Ok; try done.
  - unfold it_k, it_rows. destruct (snd (fst (fst it))) as [|r rows]; [unfold u32_max; lia|].
    by apply list.Forall_cons in Hrows as [[Hr _] _].
  - apply list.Forall_forall. intros r Hr. rewrite list.Forall_forall in Hk, Hrows. split; [by apply Hk|]. by apply Hrows.
Qed.

Lemma zlen_payload_le items j it : items !! j = Some it -> zlen (payload it) <= zlen (concat (payload <$> items)).
Proof.
  intros Hj. rewrite <- (take_drop_middle items j it Hj). rewrite fmap_app, fmap_cons, concat_app, concat_cons, !zlen_app.
  pose proof (zlen_nonneg (concat (payload <$> take j items))). pose proof (zlen_nonneg (concat (payload <$> drop (S j) items))). lia.
Qed.

(** C18: the container is lossless. Whatever bundle of up to [2^50] weights the writer
    accepts, with names that are distinct, counts that fit the directory's fields and any
    rotation group, the strict reader opens the file it wrote, with the same names in the
    same order, the plane count, and the rotation group, except that a group of zero, which
    the writer accepts, reads back as none; and every tensor reads back, from any cursor
    position and so after any other reads, as rows whose plane bytes are those written. *)
Theorem joint_bundle_roundtrip tensors rotation bytes :
  write_joint_salt_bundle tensors rotation = Ok bytes ->
  Forall tensor_wf tensors -> NoDup (fst <$> tensors) -> weights tensors <= 2 ^ 50 ->
  0 <= default 0 rotation < 65536 -> zlen bytes <= isize_max ->
  exists r, new_strict bytes = Ok r /\ jr_rotation_group r = read_rotation rotation /\
    ji_name <$> jr_entries r = fst <$> tensors /\
    (forall name rows, (name, rows) ∈ tensors -> Forall (fun row => zlen (sr_planes row) = jr_planes r) rows) /\
    forall pos name rows, (name, rows) ∈ tensors ->
      snd (read_tensor (with_source r (mkLeCursor bytes pos)) name) = Ok rows.
Proof.
  intros Hw Hwf Hnd Hn Hrot Hmax.
  destruct (write_layout tensors rotation bytes Hw Hwf Hn) as (t & code & items & Ht & Hit & Hlen & Hfl & Hci & Hio & Hnames & Hfst & ->).
  set (base := 12 + zlen (jc_lengths code) + zsum ((fun it => DIR_FIXED_BYTES + zlen (it_name it)) <$> items)).
  set (head := header_bytes t rotation (zlen items) ++ jc_lengths code ++ concat (info_bytes <$> infos base items)).
  assert (Hfile : file_bytes t rotation code items = head ++ concat (payload <$> items)) by done.
  assert (Hhead : zlen head = base) by (unfold head; rewrite !zlen_app, zlen_header, zlen_dir; unfold base; lia).
  assert (Htot : zlen (file_bytes t rotation code items) = base + zlen (concat (payload <$> items))) by (rewrite Hfile, zlen_app; lia).
  pose proof (zlen_nonneg head). rewrite Hhead in *.
  destruct (new_strict_at t rotation code items Ht Hrot Hit Hlen Hfl Hmax) as (r & Hnew & Hsrc & Hpl & Hrg & Hcode & Hent & Hby).
  { fold base. apply (infos_wf t code); [done|done|done|lia|lia]. } { by rewrite Hnames. }
  fold base in Hent.
  assert (Hfind : forall name rows, (name, rows) ∈ tensors -> exists j it, items !! j = Some it /\ it_name it = name /\ it_rows it = rows).
  { intros name rows Hin. rewrite <- Hfst in Hin. apply list_elem_of_fmap in Hin as (y & Ey & Hin).
    apply list_elem_of_fmap in Hin as (it & -> & Hin). apply list_elem_of_lookup in Hin as [j Hj]. exists j, it.
    unfold it_name, it_rows. by rewrite <- Ey. }
  exists r. split; [done|]. split; [done|]. split; [by rewrite Hent, fst_infos|]. split.
  - intros name rows Hin. destruct (Hfind name rows Hin) as (j & it & Hj & _ & <-). rewrite Hpl.
    pose proof (Forall_lookup_1 _ _ _ _ Hci Hj) as [_ Hrow _ _]. eapply list.Forall_impl; [exact Hrow|]. by intros row [? _].
  - intros pos name rows Hin. destruct (Hfind name rows Hin) as (j & it & Hj & <- & <-).
    apply (read_tensor_at _ head items j it); cbn [with_source jr_source jr_entries jr_by_name jr_code jr_planes lc_b]; [done| |done|by apply Hby|].
    + by rewrite Hent, Hhead.
    + rewrite Hcode, Hpl. apply (item_reads t code it Ht (Forall_lookup_1 _ _ _ _ Hci Hj) (Forall_lookup_1 _ _ _ _ Hio Hj)).
      pose proof (zlen_payload_le items j it Hj). lia.
Qed.

(** Two one-plane tensors. *)
Definition sample_plane (trits : list Trit) (scale : Z) : list Z := tq2_block (trits ++ vec ZERO (256 - zlen trits)) scale.
Definition sample_bundle : list (list Z * list SaltRow) :=
  [([97], [mkSaltRow 3 [sample_plane [POS; NEG; ZERO] 0x3c00]; mkSaltRow 3 [sample_plane [POS; POS; NEG] 0x4000]]);
   ([98], [mkSaltRow 2 [sample_plane [NEG; ZERO] 0x3800]])].

Lemma joint_bundle_roundtrip_witness :
  exists bytes r, write_joint_salt_bundle sample_bundle (Some 64) = Ok bytes /\ new_strict bytes = Ok r /\
    jr_rotation_group r = Some 64 /\ snd (read_tensor (with_source r (mkLeCursor bytes 7)) [98]) =
      Ok [mkSaltRow 2 [sample_plane [NEG; ZERO] 0x3800]].
Proof.
  destruct (write_joint_salt_bundle sample_bundle (Some 64)) as [bytes| | |] eqn:Hw; try (vm_compute in Hw; discriminate Hw).
  assert (Hl : (zlen bytes <=? isize_max) = true)
    by (vm_compute in Hw; injection Hw as <-; vm_compute; reflexivity).
  exists bytes. destruct (joint_bundle_roundtrip sample_bundle (Some 64) bytes Hw) as (r & Hr & Hg & _ & _ & Hread).
  - assert (Hp : forall l s, bytes_ok (sample_plane l s)) by (intros; apply tq2_block_bytes).
    repeat constructor; cbn [fst snd sr_k sr_planes]; try apply Hp; try reflexivity; try (unfold u32_max; lia).
    all: vm_compute; discriminate.
  - simpl. apply list.NoDup_cons. split; [|apply NoDup_singleton]. intros H. apply list_elem_of_singleton in H. discriminate H.
  - vm_compute. discriminate.
  - simpl. lia.
  - lia.
  - exists r. split; [reflexivity|]. split; [exact Hr|]. split; [exact Hg|]. apply Hread. apply list_elem_of_further, list_elem_of_here.
Defined.

(** The writer does not compare tensor names; the reader refuses what it then
    writes. *)
Lemma duplicate_names_unreadable :
  (let* bytes := write_joint_salt_bundle [([97], [mkSaltRow 2 [sample_plane [NEG; ZERO] 0x3800]]); ([97], [])] None in
   new_strict bytes) = Err (Malformed (utf8 "duplicate tensor name")).
Proof. vm_compute. reflexivity. Qed.
