(* ===== verification/JointBundleSafe.v ===== *)
(** * Joint-coded SALT bundles: untrusted files

    What the strict reader guarantees of any file it accepts, and that it and the
    tensor reads return on every file. *)

From Stdlib Require Import ZArith Lia Bool String.
From stdpp Require Import base list numbers gmap.
From S2P Require Import Prelude Outcome Text Core FormatBase TwoBit TQ2 LeCursor HuffmanCode JointCode JointLengths JointWords JointStream JointBundle JointBundleRows.

#[local] Open Scope Z_scope.

(** Files of up to [2^60] bytes: a bit count then fits a [usize]. *)
Definition MAX_FILE : Z := 2 ^ 60.

(** ** Decoding an arbitrary stream *)

(** The lengths in the decoding table are lengths of code words. *)
Definition table_ok (code : JointCode) : Prop := Forall (fun e => 0 <= snd e <= 255) (jc_table code).

Lemma fill_entry_table bits codes l s table table' :
  0 <= l <= 255 -> Forall (fun e : Z * Z => 0 <= snd e <= 255) table -> fill_entry bits codes (l, s) table = Ok table' ->
  Forall (fun e : Z * Z => 0 <= snd e <= 255) table'.
Proof.
  intros Hl Ht H. unfold fill_entry in H. bind_inv H. bind_inv H. unfold for_range in H.
  apply (for_n_Ok_inv (fun _ tb => Forall (fun e : Z * Z => 0 <= snd e <= 255) tb) _ _ _ _ _ H); [done|].
  intros i tb tb' _ Htb Hu. apply upd_Ok_inv in Hu as [_ ->]. by apply Forall_insert.
Qed.

Lemma fill_table codes bits order : forall table table',
  (forall e, e ∈ order -> 0 <= fst e <= 255) -> Forall (fun e : Z * Z => 0 <= snd e <= 255) table ->
  for_each order (fill_entry bits codes) table = Ok table' -> Forall (fun e : Z * Z => 0 <= snd e <= 255) table'.
Proof.
  induction order as [|[l s] order IH]; intros table table' Ho Ht H; simpl in H; [by injection H as <-|].
  bind_inv H. apply fill_entry_table in Hv; [|apply (Ho (l, s)), list_elem_of_here|done].
  apply IH in H; [done|intros e He; by apply Ho, list_elem_of_further|done].
Qed.

Lemma from_lengths_table lengths t code : bytes_ok lengths -> from_lengths lengths t = Ok code -> table_ok code.
Proof.
  intros Hb H. unfold from_lengths in H. bind_inv H. destruct (negb _); [done|]. destruct (_ <? _); [done|].
  bind_inv H. destruct v0; [done|]. bind_inv H. bind_inv H. injection H as <-. unfold table_ok. cbn [jc_table].
  eapply fill_table; [| |exact Hv2].
  - intros [l s] He. apply order_elem in He as (Hs & -> & _). cbn [fst]. pose proof (bget_u8 lengths s Hb). unfold is_u8 in *. lia.
  - unfold vec. apply Forall_replicate. simpl. lia.
Qed.

Lemma decode_run_yields code bits count :
  code_ok code -> table_ok code -> zlen bits <= 2 ^ 60 -> 0 <= count ->
  yields (fun out => zlen out = count) (decode_run code bits 0 count).
Proof.
  intros Hcode Htab Hb Hc. change (2 ^ 60) with 1152921504606846976 in Hb. pose proof (zlen_nonneg bits) as Hb0.
  pose proof (co_bits code Hcode) as Hw. unfold decode_run. rewrite mul_usize_Ok by (unfold usize_max; lia). cbn [bind].
  eapply yields_bind.
  { apply (yields_for_range (fun i (st : Z * list Z) => 0 <= fst st <= zlen bits * 8 /\ zlen (snd st) = i)); [done|cbn [fst snd]; split; [lia|done]|].
    intros i [bit out] Hi [Hbit Hout]. cbn [fst snd] in *. unfold decode_step.
    destruct (peek_Ok bits bit (jc_table_bits code)) as (v & -> & Hv & _); [lia|lia|unfold usize_max; lia|]. cbn [bind].
    destruct (idx_in (E := JointCodeError) (jc_table code) v) as ([sym len] & -> & He); [rewrite (co_table code Hcode); lia|]. cbn [bind].
    pose proof (Forall_lookup_1 _ _ _ _ Htab He) as Hl. cbn [snd] in Hl. yield_if; [done|].
    rewrite add_usize_Ok by (unfold usize_max; lia). cbn [bind]. yield_if; [done|]. cbn [yields fst snd].
    rewrite zlen_app. change (zlen [_]) with 1. lia. }
  intros [bit out] [_ Hout]. exact Hout.
Qed.

Lemma planes_from_symbols_yields t symbols : 1 <= t <= 9 ->
  yields (fun planes => rectangular t (zlen symbols) planes) (planes_from_symbols symbols t).
Proof.
  intros Ht. unfold planes_from_symbols. destruct (alphabet_Ok t Ht) as [-> _]. cbn [bind]. set (n := zlen symbols).
  assert (H : returns (for_enum 0 symbols (fun i sym planes => if 3 ^ t <=? sym then Err (SymbolOutOfRange sym (3 ^ t))
      else unfold_symbol t i sym planes) (vec (vec 0 n) t)) /\ forall planes, for_enum 0 symbols (fun i sym planes =>
      if 3 ^ t <=? sym then Err (SymbolOutOfRange sym (3 ^ t)) else unfold_symbol t i sym planes) (vec (vec 0 n) t) = Ok planes ->
      planes_done t n symbols n 0 planes).
  { assert (H0 : planes_done t n symbols 0 0 (vec (vec 0 n) t)).
    { split; [rewrite zlen_vec; lia|]. intros p Hp. exists (vec 0 n). rewrite lookup_vec by lia. split; [done|].
      split; [rewrite zlen_vec; unfold n, zlen; lia|]. intros j Hj. lia. }
    assert (Hstep : forall i x s, 0 <= i -> symbols !! Z.to_nat (i - 0) = Some x -> planes_done t n symbols i 0 s ->
      returns (if 3 ^ t <=? x then Err (SymbolOutOfRange x (3 ^ t)) else unfold_symbol t i x s) /\
      forall s', (if 3 ^ t <=? x then Err (SymbolOutOfRange x (3 ^ t)) else unfold_symbol t i x s) = Ok s' -> planes_done t n symbols (i + 1) 0 s').
    { intros i x s Hi Hx Hd. rewrite Z.sub_0_r in Hx. destruct (_ <=? _); [done|].
      assert (Ex : x = bget symbols i) by (unfold bget; by rewrite Hx). rewrite Ex. pose proof (lookup_Z_lt _ _ _ Hi Hx).
      destruct (unfold_symbol_Ok t n symbols i s) as (s' & -> & Hd'); [lia|unfold n; lia|done|]. split; [done|]. by intros ? [= <-]. }
    split; [by apply (for_enum_returns (fun i s => planes_done t n symbols i 0 s))|].
    intros planes Hok. pose proof (for_enum_Ok_inv (fun i s => planes_done t n symbols i 0 s) _ _ 0 _ _ Hok H0) as Hd.
    rewrite Z.add_0_l in Hd. apply Hd. intros i x s s' Hi Hx Hs. by apply Hstep. }
  destruct H as [Hr Hok]. destruct (for_enum _ _ _ _) as [planes| | |]; try done. cbn [yields]. specialize (Hok planes eq_refl).
  destruct Hok as [Hz Hd]. split; [done|]. apply list.Forall_forall. intros row Hrow. apply list_elem_of_lookup in Hrow as [p Hp].
  destruct (Hd (Z.of_nat p)) as (row' & Hp' & Hl & Hj); [pose proof (lookup_lt_Some _ _ _ Hp); unfold zlen in Hz; lia|].
  rewrite Nat2Z.id, Hp in Hp'. injection Hp' as <-. split; [done|].
  rewrite <- (tabulate_bget row n) by done. unfold tabulate. apply Forall_fmap, list.Forall_forall. intros j Hj'%elem_of_seqZ. simpl.
  rewrite Hj by lia. apply digit_trit.
Qed.

Section file.
Context (bytes : list Z) (Hbytes : bytes_ok bytes) (Hlen : zlen bytes <= MAX_FILE).

Definition cur_ok (c : LeCursor) : Prop := lc_b c = bytes /\ 0 <= lc_o c.

Lemma read_exact_yields c n : cur_ok c -> 0 <= n ->
  cur_ok (fst (read_exact c n)) /\ yields (fun s => zlen s = n /\ bytes_ok s) (snd (read_exact c n)).
Proof.
  intros [Hb Ho] Hn. unfold read_exact. rewrite Hb. pose proof (zlen_nonneg bytes).
  destruct (Z.leb_spec n (zlen bytes - Z.min (lc_o c) (zlen bytes))); cbn [fst snd]; (split; [split; simpl; [done|lia]|]); [|done].
  cbn. split; [rewrite zlen_sub; lia|by apply bytes_ok_sub].
Qed.

Lemma rd_yields c n : cur_ok c -> 0 <= n ->
  yields (fun r => cur_ok (snd r) /\ zlen (fst r) = n /\ bytes_ok (fst r)) (rd c n).
Proof.
  intros Hc Hn. destruct (read_exact_yields c n Hc Hn) as [H1 H2]. unfold rd. destruct (read_exact c n) as [c' r]. cbn [fst snd] in *.
  eapply yields_bind; [exact H2|]. intros s [Hl Hb]. done.
Qed.

Lemma rd_int_yields c n : cur_ok c -> 0 <= n ->
  yields (fun r => cur_ok (snd r) /\ 0 <= fst r < 256 ^ n) (rd_int n c).
Proof.
  intros Hc Hn. unfold rd_int. eapply yields_bind; [by apply rd_yields|]. intros [s c'] (Hc' & Hl & Hb). cbn [fst snd] in *.
  cbn. split; [done|]. rewrite <- Hl. by apply from_le_bound.
Qed.

(** ** Opening *)

(** An entry whose sizes agree with its shape and lie in the file. *)
Record entry_ok (planes : Z) (e : JointTensorInfo) : Prop := {
  eo_rows : is_u32 (ji_rows e);
  eo_k : is_u32 (ji_k e);
  eo_sizes : 0 <= ji_payload_offset e /\ 0 <= ji_scale_bytes e /\ 0 <= ji_stream_bytes e;
  eo_scales : ji_scale_bytes e = ji_rows e * div_ceil (ji_k e) QK_K * (planes * 2);
  eo_end : ji_payload_offset e + ji_scale_bytes e + ji_stream_bytes e <= zlen bytes }.

Record dir_ok (planes : Z) (entries : list JointTensorInfo) (by_name : gmap (list Z) Z) : Prop := {
  do_entries : Forall (entry_ok planes) entries;
  do_names : NoDup (ji_name <$> entries);
  do_index : forall n i, by_name !! n = Some i <-> 0 <= i /\ exists e, entries !! Z.to_nat i = Some e /\ ji_name e = n }.

Lemma dir_ok_snoc planes entries by_name e :
  dir_ok planes entries by_name -> entry_ok planes e -> by_name !! ji_name e = None ->
  dir_ok planes (entries ++ [e]) (<[ji_name e := zlen entries]> by_name).
Proof.
  intros [H1 H2 H3] He Hnone. split.
  - apply Forall_app. split; [done|by constructor].
  - rewrite fmap_app. apply list.NoDup_app. split; [done|]. split; [|apply NoDup_singleton].
    intros n Hn Hn'. apply list_elem_of_singleton in Hn' as ->. apply list_elem_of_fmap in Hn as (x & Ex & Hx).
    apply list_elem_of_lookup in Hx as [i Hi]. assert (Hs : by_name !! ji_name e = Some (Z.of_nat i)); [|congruence].
    apply H3. split; [lia|]. exists x. by rewrite Nat2Z.id.
  - intros n i. destruct (decide (n = ji_name e)) as [->|Hne].
    + rewrite lookup_insert_eq. split.
      * intros [= <-]. split; [apply zlen_nonneg|]. exists e. split; [|done]. unfold zlen. rewrite Nat2Z.id. by apply list_lookup_middle.
      * intros (Hi & x & Hx & Ex). apply lookup_app_Some in Hx as [Hx|[Hge Hx]].
        -- assert (Hs : by_name !! ji_name e = Some i) by (apply H3; eauto). congruence.
        -- apply list_lookup_singleton_Some in Hx as [Hz _]. f_equal. unfold zlen. lia.
    + rewrite lookup_insert_ne by done. rewrite H3. split; intros (Hi & x & Hx & Ex); (split; [done|]); exists x; (split; [|done]).
      * by apply lookup_app_l_Some.
      * apply lookup_app_Some in Hx as [Hx|[_ Hx]]; [done|]. apply list_lookup_singleton_Some in Hx as [_ <-]. done.
Qed.

Definition dir_state (planes base : Z) (st : LeCursor * list JointTensorInfo * gmap (list Z) Z * Z) : Prop :=
  let '(source, entries, by_name, pos) := st in
  cur_ok source /\ dir_ok planes entries by_name /\ base <= pos <= base + zlen entries * (DIR_FIXED_BYTES + 65535).

Lemma joint_entry_yields planes base j st :
  0 <= planes <= 9 -> 0 <= base -> dir_state planes base st ->
  base + (zlen (snd (fst (fst st))) + 1) * (DIR_FIXED_BYTES + 65535) <= usize_max ->
  yields (fun st' => dir_state planes base st' /\ zlen (snd (fst (fst st'))) = zlen (snd (fst (fst st))) + 1) (read_entry planes (zlen bytes) j st).
Proof.
  destruct st as [[[source entries] by_name] pos]. cbn [fst snd]. intros Hp Hb (Hc & Hd & Hpos) Hsmall. unfold read_entry.
  eapply yields_bind; [by apply rd_int_yields|]. intros [nl c1] [Hc1 Hnl]. cbn [fst snd] in *. change (256 ^ 2) with 65536 in Hnl.
  unfold DIR_FIXED_BYTES in *. rewrite add_usize_Ok by lia. cbn [bind]. yield_if; [done|].
  eapply yields_bind; [apply rd_yields; [done|lia]|]. intros [name c2] (Hc2 & _ & _). cbn [fst snd] in *.
  eapply yields_bind; [apply yields_ensure|]. intros _ _.
  eapply yields_bind; [by apply rd_int_yields|]. intros [rows c3] [Hc3 Hrows]. cbn [fst snd] in *.
  eapply yields_bind; [by apply rd_int_yields|]. intros [k c4] [Hc4 Hk]. cbn [fst snd] in *.
  eapply yields_bind; [by apply rd_int_yields|]. intros [off c5] [Hc5 Hoff]. cbn [fst snd] in *.
  eapply yields_bind; [by apply rd_int_yields|]. intros [sb c6] [Hc6 Hsb]. cbn [fst snd] in *.
  eapply yields_bind; [by apply rd_int_yields|]. intros [tb c7] [Hc7 Htb]. cbn [fst snd] in *.
  eapply yields_bind; [apply yields_ok_or; intros a Ha; exact Ha|]. intros es Hes.
  destruct (checked_mul rows _) as [v|] eqn:Hv; [|done]. apply checked_mul_inv in Hv as [-> _]. cbn [mbind option_bind] in Hes.
  apply checked_mul_inv in Hes as [-> _]. yield_if; [done|]. apply negb_false_iff, Z.eqb_eq in Hif0.
  eapply yields_bind; [apply yields_ok_or; intros a Ha; exact Ha|]. intros en Hen.
  destruct (checked_add off sb) as [v|] eqn:Hv; [|done]. apply checked_add_inv in Hv as [-> _]. cbn [mbind option_bind] in Hen.
  apply checked_add_inv in Hen as [-> _]. yield_if; [done|]. yield_if; [done|].
  cbn [yields dir_state fst snd]. rewrite zlen_app. change (zlen [_]) with 1. unfold DIR_FIXED_BYTES.
  split; [|done]. split; [done|]. split; [|lia].
  apply dir_ok_snoc; [done| |cbn [ji_name]; apply bool_decide_eq_false in Hif2; by apply eq_None_not_Some].
  split; cbn; [exact Hrows|exact Hk|lia|done|lia].
Qed.

(** Payloads laid end to end from [pos] to [fin]. *)
Fixpoint tiles (entries : list JointTensorInfo) (pos fin : Z) : Prop :=
  match entries with
  | [] => pos = fin
  | e :: entries => ji_payload_offset e = pos /\ tiles entries (pos + ji_scale_bytes e + ji_stream_bytes e) fin
  end.

Lemma tile_loop_yields planes entries : Forall (entry_ok planes) entries -> forall pos,
  yields (fun fin => tiles entries pos fin) (for_each entries (fun e expected =>
    if negb (ji_payload_offset e =? expected)
    then Err (Malformed (utf8 "payloads are not contiguous in directory order")) else
    let* size := add_usize (ji_scale_bytes e) (ji_stream_bytes e) in
    add_usize expected size) pos).
Proof.
  induction 1 as [|e entries He Hall IH]; intros pos; cbn [for_each]; [done|].
  destruct He as [_ _ Hs _ Hend]. unfold MAX_FILE in Hlen. change (2 ^ 60) with 1152921504606846976 in Hlen.
  destruct (Z.eqb_spec (ji_payload_offset e) pos) as [<-|]; cbn [negb bind]; [|done].
  rewrite add_usize_Ok by (unfold usize_max; lia). cbn [bind]. rewrite add_usize_Ok by (unfold usize_max; lia). cbn [bind].
  eapply yields_impl; [apply IH|]. intros fin Hf. cbn [tiles]. split; [done|]. by rewrite <- Z.add_assoc.
Qed.

Lemma check_tiles_yields planes entries pos :
  Forall (entry_ok planes) entries -> yields (fun _ => tiles entries pos (zlen bytes)) (check_tiles entries pos (zlen bytes)).
Proof.
  intros He. unfold check_tiles. eapply yields_bind; [by apply (tile_loop_yields planes)|]. intros fin Hf.
  destruct (Z.eqb_spec fin (zlen bytes)) as [->|]; done.
Qed.

(** What an open reader guarantees. *)
Record reader_ok (r : JointSaltBundleReader) : Prop := {
  rk_planes : 1 <= jr_planes r <= 9;
  rk_code : code_ok (jr_code r) /\ table_ok (jr_code r);
  rk_source : cur_ok (jr_source r);
  rk_dir : dir_ok (jr_planes r) (jr_entries r) (jr_by_name r);
  rk_tiles : exists base, HEADER_BYTES + 3 ^ jr_planes r <= base /\ tiles (jr_entries r) base (zlen bytes) }.

Lemma from_lengths_yields lengths t : 1 <= t <= 9 -> zlen lengths = 3 ^ t -> bytes_ok lengths ->
  yields (fun code => code_ok code /\ table_ok code) (from_lengths lengths t).
Proof.
  intros Ht Hz Hb. pose proof (fun code => from_lengths_table lengths t code Hb) as Htab. pose proof (from_lengths_spec lengths t Ht Hz) as H.
  assert (Hp : Forall (fun l => 0 <= l) lengths) by (eapply list.Forall_impl; [exact Hb|]; unfold is_u8; simpl; lia).
  specialize (H Hp). destruct (decide _); [|by rewrite H]. destruct H as (code & E & _ & _ & Hc). rewrite E in *. split; [done|by apply Htab].
Qed.

Lemma yields_map_err {E F A} (f : E -> F) (Q : A -> Prop) (m : res E A) : yields Q m -> yields Q (map_err f m).
Proof. by destruct m. Qed.

Lemma new_strict_yields : yields reader_ok (new_strict bytes).
Proof.
  unfold new_strict. assert (H0 : cur_ok (lc_new bytes)) by (split; [done|simpl; lia]).
  eapply yields_bind; [apply rd_yields; [done|lia]|]. intros [magic c1] (Hc1 & _). cbn [fst snd] in *. yield_if; [done|].
  eapply yields_bind; [by apply rd_int_yields|]. intros [v c2] [Hc2 _]. cbn [fst snd] in *. yield_if; [done|].
  eapply yields_bind; [by apply rd_int_yields|]. intros [t c3] [Hc3 Ht]. cbn [fst snd] in *. yield_if; [done|].
  eapply yields_bind; [by apply rd_int_yields|]. intros [rot c4] [Hc4 _]. cbn [fst snd] in *.
  eapply yields_bind; [by apply rd_int_yields|]. intros [count c5] [Hc5 Hcount]. cbn [fst snd] in *. yield_if; [done|].
  unfold MAX_JOINT_PLANES, MAX_TENSORS in *. assert (Ht9 : 1 <= t <= 9) by lia.
  assert (Hb3 : 3 ^ 1 <= 3 ^ t <= 3 ^ 9) by (split; apply Z.pow_le_mono_r; lia).
  change (3 ^ 1) with 3 in Hb3. change (3 ^ 9) with 19683 in Hb3.
  unfold pow_usize. replace (_ <=? _) with true by (unfold usize_max; lia). cbn [bind].
  eapply yields_bind; [apply rd_yields; [done|lia]|]. intros [lengths c6] (Hc6 & Hl & Hb). cbn [fst snd] in *.
  eapply yields_bind; [apply yields_map_err; by apply from_lengths_yields|]. intros code Hcode.
  unfold HEADER_BYTES at 1. rewrite add_usize_Ok by (unfold usize_max; lia). cbn [bind].
  eapply yields_bind.
  { apply (yields_for_range (fun i st => dir_state t (12 + 3 ^ t) st /\ zlen (snd (fst (fst st))) = i)).
    - lia.
    - cbn [fst snd]. split; [|done]. split; [done|]. split; [|change (zlen []) with 0; lia].
      split; [constructor|constructor|]. intros n i. rewrite lookup_empty. split; [done|]. intros (_ & e & He & _). done.
    - intros i st Hi [Hst Hz]. eapply yields_impl; [apply (joint_entry_yields t (12 + 3 ^ t)); [lia|lia|done|]|].
      + rewrite Hz. unfold DIR_FIXED_BYTES, usize_max. lia.
      + intros st' [Hst' Hz']. split; [done|lia]. }
  intros [[[source entries] by_name] pos] [(Hs & Hd & Hpos) _].
  eapply yields_bind; [apply (check_tiles_yields t); apply (do_entries _ _ _ Hd)|]. intros u Htiles. cbn [yields].
  split; cbn; [done|done|done|done|]. exists pos. unfold HEADER_BYTES. split; [lia|done].
Qed.

(** ** Reading a tensor *)

Lemma rebuild_trits_yields digits start :
  Forall is_trit digits -> 0 <= start -> start + 256 <= usize_max ->
  yields (fun trits => zlen trits = 256) (for_range 0 QK_K (rebuild_trit digits start) (vec ZERO QK_K)).
Proof.
  intros Hd H0 Hs. unfold QK_K. apply (yields_for_range (fun _ trits => zlen trits = 256)); [lia|done|].
  intros i trits Hi Hl. unfold rebuild_trit. rewrite add_usize_Ok by lia. cbn [bind].
  destruct (digits !! _) as [d|] eqn:Hx; [|done]. pose proof (Forall_lookup_1 _ _ _ _ Hd Hx) as Ht.
  destruct (trit_of_in d Ht) as (t & -> & _). cbn [map_err bind]. rewrite upd_Ok by lia. cbn [yields]. by rewrite zlen_insert.
Qed.

Lemma rebuild_plane_yields scales nb digits out at_ :
  Forall is_trit digits -> 0 <= nb -> nb * 256 <= 2 ^ 34 -> 0 <= at_ -> at_ + nb * 2 <= zlen scales -> zlen scales <= isize_max ->
  yields (fun st => zlen (fst st) = zlen out + 1 /\ snd st = at_ + nb * 2) (rebuild_plane scales nb digits (out, at_)).
Proof.
  intros Hd Hnb Hsmall Hat Hsc Hmax. change (2 ^ 34) with 17179869184 in Hsmall. unfold isize_max in Hmax. unfold rebuild_plane.
  change TQ2_0_BLOCK_BYTES with 66. rewrite mul_usize_Ok by (unfold usize_max; lia). cbn [bind].
  eapply yields_bind.
  { apply (yields_for_range (fun b (st : list Z * Z) => zlen (fst st) = nb * 66 /\ snd st = at_ + b * 2)); [done| |].
    - cbn [fst snd]. rewrite zlen_vec. lia.
    - intros b [plane a] Hb [Hl Ha]. cbn [fst snd] in *. subst a. unfold rebuild_block.
      rewrite mul_usize_Ok by (unfold QK_K, usize_max; lia). cbn [bind].
      eapply yields_bind; [apply rebuild_trits_yields; [done|unfold QK_K; lia|unfold QK_K, usize_max; lia]|]. intros trits Ht.
      rewrite !idx_bget by lia. cbn [bind]. rewrite add_usize_Ok by (unfold usize_max; lia). cbn [bind].
      change TQ2_0_BLOCK_BYTES with 66. rewrite mul_usize_Ok by (unfold usize_max; lia). cbn [bind].
      rewrite slice_Ok by lia. cbn [bind].
      rewrite pack_tq2_0_block_spec by (done || (rewrite zlen_sub by lia; change TQ2_0_BLOCK_BYTES with 66; lia)). cbn [map_err bind].
      pose proof (zlen_tq2_block trits (from_le [bget scales (at_ + b * 2); bget scales (at_ + b * 2 + 1)])) as Hz.
      change TQ2_0_BLOCK_BYTES with 66 in Hz.
      rewrite write_slice_Ok by lia. cbn [bind yields fst snd]. rewrite zlen_splice by lia. lia. }
  intros [plane a] [Hl Ha]. cbn [yields fst snd] in *. rewrite zlen_app. change (zlen [_]) with 1. lia.
Qed.

(** Rows of the shape the directory announces. *)
Definition rows_shape (planes rows k : Z) (out : list SaltRow) : Prop :=
  zlen out = rows /\ Forall (fun r => sr_k r = k /\ zlen (sr_planes r) = planes) out.

Lemma decode_rows_yields code planes rows k scales bits :
  code_ok code -> table_ok code -> 1 <= planes <= 9 -> is_u32 rows -> is_u32 k ->
  zlen bits <= 2 ^ 60 -> zlen scales = rows * div_ceil k QK_K * (planes * 2) -> zlen scales <= isize_max ->
  yields (rows_shape planes rows k) (decode_rows code planes rows k scales bits).
Proof.
  intros Hcode Htab Hp Hr Hk Hb Hs Hmax. unfold decode_rows, is_u32 in *.
  eapply yields_bind; [apply yields_ok_or; intros n Hn; apply checked_mul_inv in Hn; exact Hn|]. intros n [-> Hn].
  eapply yields_bind; [apply yields_map_err; unfold decode; cbn [js_bits js_symbols]; apply decode_run_yields; [done|done|done|nia]|].
  intros symbols Hsym. pose proof (div_ceil_bounds k QK_K ltac:(unfold QK_K; lia)) as Hdc.
  destruct (nb_bounds k ltac:(lia)) as [Hnb Hkn].
  assert (Hn34 : div_ceil k QK_K * 256 <= 2 ^ 34) by (change (2 ^ 34) with 17179869184; unfold QK_K in Hdc at 1; unfold QK_K in Hdc at 2; lia).
  eapply yields_bind.
  { apply (yields_for_range (fun r (st : list SaltRow * Z) => rows_shape planes r k (fst st) /\
      snd st = r * div_ceil k QK_K * (planes * 2))); [lia|split; [split; [done|constructor]|done]|].
    intros r [out a] Hri [[Hz Hall] Ha]. cbn [fst snd] in *. subst a. unfold rebuild_row.
    rewrite mul_usize_Ok by nia. cbn [bind]. rewrite slice_Ok by nia. cbn [bind].
    eapply yields_bind; [apply yields_map_err; by apply planes_from_symbols_yields|]. intros digits [Hzd Hrect].
    eapply yields_bind.
    { apply (yields_for_each (fun pre (st : list (list Z) * Z) => zlen (fst st) = zlen pre /\
        snd st = r * div_ceil k QK_K * (planes * 2) + zlen pre * (div_ceil k QK_K * 2))); [cbn [fst snd]; change (zlen []) with 0; split; [done|lia]|].
      intros pre d post [ps a] Hsp [Hzp Ha]. cbn [fst snd] in *. subst a.
      assert (Hd : Forall is_trit d) by (rewrite list.Forall_forall in Hrect; apply Hrect; rewrite Hsp; apply elem_of_app; right; apply list_elem_of_here).
      assert (Hpre : zlen pre + 1 <= planes) by (rewrite <- Hzd, Hsp, zlen_app, zlen_cons; pose proof (zlen_nonneg post); lia).
      pose proof (zlen_nonneg pre).
      assert (HN : (r + 1) * (div_ceil k QK_K * (planes * 2)) <= rows * (div_ceil k QK_K * (planes * 2)))
        by (apply Z.mul_le_mono_nonneg_r; [apply Z.mul_nonneg_nonneg|]; lia).
      assert (HP : 0 <= zlen pre * (div_ceil k QK_K * 2) <= (planes - 1) * (div_ceil k QK_K * 2))
        by (split; [apply Z.mul_nonneg_nonneg|apply Z.mul_le_mono_nonneg_r]; lia).
      assert (HR : 0 <= r * (div_ceil k QK_K * (planes * 2))) by (repeat apply Z.mul_nonneg_nonneg; lia).
      eapply yields_impl; [apply rebuild_plane_yields; [done|done|done|lia|rewrite Hs; lia|done]|].
      intros [ps' a'] [E1 E2]. cbn [fst snd] in *. rewrite zlen_app. change (zlen [d]) with 1. lia. }
    intros [ps a] [E1 E2]. cbn [yields fst snd] in *. rewrite Hzd in *. split; [|rewrite E2; lia].
    split; [rewrite zlen_app; change (zlen [_]) with 1; lia|]. apply Forall_app. split; [done|]. constructor; [done|constructor]. }
  intros [out a] [Ho _]. exact Ho.
Qed.

Lemma read_tensor_yields r name :
  reader_ok r ->
  reader_ok (fst (read_tensor r name)) /\
  yields (fun rows => exists e, e ∈ jr_entries r /\ ji_name e = name /\ rows_shape (jr_planes r) (ji_rows e) (ji_k e) rows)
    (snd (read_tensor r name)).
Proof.
  intros Hr. pose proof Hr as [Hp [Hcode Htab] [Hsb Hso] [Hent Hnd Hidx] Htiles]. unfold read_tensor.
  assert (Hws : forall c, cur_ok c -> reader_ok (with_source r c)) by (intros c Hc; split; done).
  unfold tensor_info. destruct (jr_by_name r !! name) as [i|] eqn:Hn; [|done]. cbn [mbind option_bind].
  apply Hidx in Hn as (Hi & e & He & En). rewrite He. pose proof (Forall_lookup_1 _ _ _ _ Hent He) as [Hrows Hk Hsz Hsc Hend].
  rewrite Hsb. destruct (read_exact_yields (mkLeCursor bytes (ji_payload_offset e)) (ji_scale_bytes e)) as [Hc1 Hs1]; [split; simpl; [done|lia]|lia|].
  destruct (read_exact _ _) as [c1 s1]. cbn [fst snd] in *. destruct s1 as [scales| | |]; try done.
  destruct Hs1 as [Hl1 _]. destruct (read_exact_yields c1 (ji_stream_bytes e) Hc1) as [Hc2 Hs2]; [lia|].
  destruct (read_exact c1 _) as [c2 s2]. cbn [fst snd] in *. split; [by apply Hws|].
  eapply yields_bind; [exact Hs2|]. intros bits [Hl2 _]. unfold MAX_FILE in Hlen.
  assert (Hm : 2 ^ 60 <= isize_max) by (by vm_compute).
  eapply yields_impl; [apply decode_rows_yields; try done; [lia|by rewrite Hl1|lia]|].
  intros rows Hshape. exists e. split; [by apply list_elem_of_lookup_2 in He|]. done.
Qed.
End file.

(** * Properties *)

(** Reading a sequence of names with one reader. *)
Fixpoint read_tensors (r : JointSaltBundleReader) (names : list (list Z)) : list (bres (list SaltRow)) :=
  match names with
  | [] => []
  | name :: names => let '(r, o) := read_tensor r name in o :: read_tensors r names
  end.

(** An outcome without a panic, and the shape the directory announces. *)
Definition read_ok (r : JointSaltBundleReader) (x : list Z * bres (list SaltRow)) : Prop :=
  yields (fun rows => exists e, e ∈ jr_entries r /\ ji_name e = fst x /\ rows_shape (jr_planes r) (ji_rows e) (ji_k e) rows) (snd x).

Lemma read_tensor_keeps r name :
  jr_entries (fst (read_tensor r name)) = jr_entries r /\ jr_planes (fst (read_tensor r name)) = jr_planes r.
Proof.
  unfold read_tensor. destruct (tensor_info r name); [|done]. destruct (read_exact _ _) as [c1 s1].
  destruct s1; try done. by destruct (read_exact _ _).
Qed.

(** C35: untrusted bundles. Opening any byte string of up to [2^60] bytes returns. If it is
    accepted, there are one to nine planes, tensor names are distinct, the payloads
    start past the header and tile the file to its end in directory order, with scale
    sizes that agree with the shapes; and reading any name, in any order, returns
    without a panic, with rows of the announced shape or an error, and leaves a
    reader with the same guarantees. *)
Theorem joint_reader_safe bytes names :
  bytes_ok bytes -> zlen bytes <= MAX_FILE ->
  yields (fun r => reader_ok bytes r /\ Forall (read_ok r) (zip names (read_tensors r names))) (new_strict bytes).
Proof.
  intros Hb Hl. eapply yields_impl; [by apply new_strict_yields|]. intros r Hr. split; [done|].
  assert (Hsame : forall r', reader_ok bytes r' -> jr_entries r' = jr_entries r -> jr_planes r' = jr_planes r ->
    Forall (read_ok r) (zip names (read_tensors r' names))); [|by apply Hsame].
  clear Hr. induction names as [|name names IH]; intros r' Hr' He Hp; [constructor|]. cbn [read_tensors].
  destruct (read_tensor_yields bytes Hb Hl r' name Hr') as [H1 H2]. pose proof (read_tensor_keeps r' name) as [H3 H4].
  destruct (read_tensor r' name) as [r2 o]. cbn [fst snd] in *. cbn [zip zip_with]. constructor; [|apply IH; congruence].
  unfold read_ok. cbn [fst snd]. by rewrite <- He, <- Hp.
Qed.

(** The file of the witness: one tensor of one two-weight row and one plane. *)
Definition small_file : list Z :=
  SALT_JOINT_BUNDLE_MAGIC ++ [1; 1] ++ [0; 0] ++ to_le 4 1 ++ [1; 0; 1] ++
  dir_entry [97] 1 2 50 2 1 ++ [0; 60] ++ [0x40].

Lemma joint_reader_safe_witness :
  yields (fun r => reader_ok small_file r /\ Forall (read_ok r) (zip [[97]; [98]] (read_tensors r [[97]; [98]]))) (new_strict small_file) /\
  match new_strict small_file with Ok r => jr_planes r = 1 | _ => False end.
Proof.
  split; [|vm_compute; reflexivity]. apply joint_reader_safe; [apply bytes_ok_check; vm_compute; reflexivity|vm_compute; discriminate].
Defined.
