(* ===== verification/FloatExact.v ===== *)
(** * Signed sums of binary floating-point numbers, and when they are exact

    The value of a number of either sign as an integer multiple of the least
    positive one, comparison by these values, and that a sum is exact when the exact
    sum is representable. A running sum that starts at [+0.0] never becomes [-0.0],
    so that adding a zero of either sign leaves it unchanged. For binary32, sums of
    integers of at most 24 bits are the integer sums. *)

From S2P Require Import Prelude F32 FloatOrder Plane.
From Stdlib Require Import ZArith Lia Bool Floats.SpecFloat.
From stdpp Require Import base list numbers.

#[local] Open Scope Z_scope.

Lemma sub_is_add prec emax x y : SFsub prec emax x y = SFadd prec emax x (SFopp y).
Proof.
  destruct x as [[]|[]| |s m e], y as [[]|[]| |s' m' e']; try reflexivity.
  cbn [SFsub SFadd SFopp]. f_equal. rewrite <- Z.add_opp_r. f_equal. by destruct s'.
Qed.

Lemma opp_involutive x : SFopp (SFopp x) = x.
Proof. destruct x as [[]|[]| |[] m e]; reflexivity. Qed.

Lemma compare_opp x y : SFcompare (SFopp x) (SFopp y) = SFcompare y x.
Proof.
  destruct x as [[]|[]| |[] m e], y as [[]|[]| |[] m' e']; try done; cbn [SFcompare SFopp negb]; f_equal;
    rewrite (Z.compare_antisym e' e); destruct (e' ?= e); cbn [CompOpp]; try done;
    change (Pos.compare_cont Eq) with Pos.compare; rewrite (Pos.compare_antisym m' m); by destruct (Pos.compare m' m).
Qed.

Section format.
Context (prec emax : Z) (Hprec : 1 < prec) (Hemax : prec < emax).

#[local] Abbreviation emin := (SpecFloat.emin prec emax).

Definition negative (x : spec_float) : bool :=
  match x with S754_zero s | S754_infinity s | S754_finite s _ _ => s | S754_nan => false end.

(** The value of a number of either sign, in units of [2^emin]. *)
Definition signed (x : spec_float) : Z := if negative x then - val prec emax x else val prec emax x.

(** A number of the format: not a NaN. *)
Definition number (x : spec_float) : bool :=
  valid_binary prec emax x && match x with S754_nan => false | _ => true end.

(** What a running sum can be: anything of the format but [-0.0]. *)
Definition settled (x : spec_float) : bool :=
  valid_binary prec emax x && match x with S754_zero s => negb s | _ => true end.

Lemma valid_opp x : valid_binary prec emax (SFopp x) = valid_binary prec emax x.
Proof. by destruct x. Qed.

Lemma signed_opp x : signed (SFopp x) = - signed x.
Proof. destruct x as [[]|[]| |[] m e]; unfold signed; cbn [SFopp negative negb val]; lia. Qed.

Lemma number_opp x : number (SFopp x) = number x.
Proof. by destruct x. Qed.

Lemma number_plain x : number x = true -> negative x = false -> plain prec emax x = true.
Proof. unfold number, plain. by destruct x as [[]|[]| |[] m e]. Qed.

Lemma number_zero s : number (S754_zero s) = true.
Proof. done. Qed.

Lemma signed_zero s : signed (S754_zero s) = 0.
Proof. by destruct s. Qed.

(** Comparison of numbers is comparison of their values. *)
Lemma compare_signed x y :
  number x = true -> number y = true -> SFcompare x y = Some (signed x ?= signed y).
Proof.
  intros Hx Hy.
  assert (Hp : forall x, number x = true -> negative x = true -> plain prec emax (SFopp x) = true /\ signed x = - val prec emax (SFopp x)).
  { intros z Hz Hn. split; [apply number_plain; [by rewrite number_opp|by destruct z as [[]|[]| |[] m e]]|].
    unfold signed. rewrite Hn. by destruct z. }
  assert (Hval : forall x, plain prec emax x = true -> 0 <= val prec emax x) by (intros z Hz; apply (plain_val prec emax Hprec Hemax z Hz)).
  destruct (negative x) eqn:Nx, (negative y) eqn:Ny.
  - destruct (Hp x Hx Nx) as [Px ->]. destruct (Hp y Hy Ny) as [Py ->].
    rewrite <- (opp_involutive x) at 1. rewrite <- (opp_involutive y) at 1. rewrite compare_opp.
    rewrite (plain_compare prec emax Hprec Hemax) by done. f_equal. by rewrite Z.compare_opp.
  - destruct (Hp x Hx Nx) as [Px ->]. assert (Py : plain prec emax y = true) by (by apply number_plain).
    replace (signed y) with (val prec emax y) by (unfold signed; by rewrite Ny).
    pose proof (Hval _ Px) as Vx. pose proof (Hval _ Py) as Vy.
    destruct x as [[]|[]| |[] m e]; try done; destruct y as [[]|[]| |[] m' e']; try done; cbn [SFcompare SFopp negb val] in *; f_equal; symmetry;
      try (apply Z.compare_lt_iff); try (apply Z.compare_eq_iff; lia).
    all: pose proof (fun s m e => finite_lt_inf prec emax Hprec s m e) as Hi.
    all: pose proof (Z.pow_pos_nonneg 2 (emax - emin) ltac:(lia) ltac:(unfold SpecFloat.emin; lia)).
    all: try (specialize (Hi _ _ _ Px) as Fx); try (specialize (Hi _ _ _ Py) as Fy); try lia.
  - assert (Px : plain prec emax x = true) by (by apply number_plain). destruct (Hp y Hy Ny) as [Py ->].
    replace (signed x) with (val prec emax x) by (unfold signed; by rewrite Nx).
    pose proof (Hval _ Px) as Vx. pose proof (Hval _ Py) as Vy.
    destruct x as [[]|[]| |[] m e]; try done; destruct y as [[]|[]| |[] m' e']; try done; cbn [SFcompare SFopp negb val] in *; f_equal; symmetry;
      try (apply Z.compare_gt_iff); try (apply Z.compare_eq_iff; lia).
    all: pose proof (fun s m e => finite_lt_inf prec emax Hprec s m e) as Hi.
    all: pose proof (Z.pow_pos_nonneg 2 (emax - emin) ltac:(lia) ltac:(unfold SpecFloat.emin; lia)).
    all: try (specialize (Hi _ _ _ Px) as Fx); try (specialize (Hi _ _ _ Py) as Fy); try lia.
  - unfold signed. rewrite Nx, Ny. apply (plain_compare prec emax Hprec Hemax); by apply number_plain.
Qed.

(** A value determines its number, up to the sign of zero. *)
Lemma signed_inj x y :
  number x = true -> number y = true -> settled x = true -> settled y = true -> signed x = signed y -> x = y.
Proof.
  intros Hx Hy Sx Sy E. pose proof (compare_signed x y Hx Hy) as Hc. rewrite E, Z.compare_refl in Hc.
  destruct x as [[]|[]| |[] m e]; try done; destruct y as [[]|[]| |[] m' e']; try done;
    cbn [SFcompare] in Hc; injection Hc as Hc;
    destruct (Z.compare_spec e e'); try done; subst; change (Pos.compare_cont Eq) with Pos.compare in Hc;
    destruct (Pos.compare_spec m m'); try done; by subst.
Qed.

(** Rounding an integer multiple of the least positive number. *)
Lemma normalize_signed z e :
  emin <= e -> settled (binary_normalize prec emax z e false) = true /\
  number (binary_normalize prec emax z e false) = true /\
  signed (binary_normalize prec emax z e false) =
    Z.sgn z * Z.min (2 ^ (emax - emin)) (rnd prec (Z.abs z * 2 ^ (e - emin))).
Proof.
  intros He. destruct z as [|m|m]; cbn [binary_normalize].
  { unfold signed. by rewrite Z.mul_0_l. }
  all: destruct (binary_round_val prec emax Hprec Hemax m e He) as [Hp Hv].
  all: assert (Hpos : 0 < val prec emax (binary_round prec emax false m e));
    [rewrite Hv; apply Z.min_glb_lt; [apply Z.pow_pos_nonneg; [lia|unfold SpecFloat.emin; lia]|];
     pose proof (rnd_lower prec Hprec (Z.pos m * 2 ^ (e - emin))) as Hl;
     assert (0 < Z.pos m * 2 ^ (e - emin)) by (apply Z.mul_pos_pos; [lia|apply Z.pow_pos_nonneg; lia]);
     specialize (Hl ltac:(done)); pose proof (dg_pos (Z.pos m * 2 ^ (e - emin)));
     pose proof (Z.pow_pos_nonneg 2 (dg (Z.pos m * 2 ^ (e - emin)) - 1) ltac:(lia) ltac:(lia)); lia|].
  all: rewrite ?binary_round_opp; set (x := binary_round prec emax false m e) in *.
  all: unfold settled, number, signed, plain in *; change (Z.abs (Z.neg m)) with (Z.pos m) || change (Z.abs (Z.pos m)) with (Z.pos m); cbn [Z.sgn]; rewrite ?Z.mul_1_l, <- Hv.
  - destruct x as [[]|[]| |[] m' e']; try done; cbn [val] in *; try lia; rewrite andb_true_r in Hp; by rewrite Hp.
  - rewrite valid_opp. destruct x as [[]|[]| |[] m' e']; cbn [SFopp negb negative val valid_binary] in *; try done; try lia;
      rewrite ?andb_true_r in *; try (by rewrite Hp); (split; [done|split; [done|lia]]).
Qed.

(** A sum of numbers that are not both infinite is the exact sum, rounded. *)
Lemma add_signed x y :
  number x = true -> number y = true -> settled x = true -> is_finite x = true -> is_finite y = true ->
  exists z e, emin <= e /\ z * 2 ^ (e - emin) = signed x + signed y /\
    SFadd prec emax x y = binary_normalize prec emax z e false \/
  (SFadd prec emax x y = x /\ signed y = 0) \/ (SFadd prec emax x y = y /\ signed x = 0 /\ settled y = true).
Proof.
  intros Hx Hy Sx Fx Fy. destruct x as [sx|sx| |sx m e], y as [sy|sy| |sy m' e']; try done.
  - exists 0, 0. right. left. destruct sx; [done|]. destruct sy; by rewrite ?signed_zero.
  - exists 0, 0. right. right. split; [done|]. split; [by rewrite signed_zero|].
    unfold settled, number in *. by rewrite andb_true_r in *.
  - exists 0, 0. right. left. split; [done|by rewrite signed_zero].
  - unfold number in Hx, Hy. rewrite andb_true_r in Hx, Hy.
    apply (valid_finite prec emax Hprec) in Hx as (He & _). apply (valid_finite prec emax Hprec) in Hy as (He' & _).
    destruct (shl_align_value m e (Z.min e e') ltac:(lia)) as [Hm _]. destruct (shl_align_value m' e' (Z.min e e') ltac:(lia)) as [Hm' _].
    eexists _, (Z.min e e'). left. split; [lia|]. split; [|reflexivity].
    rewrite Hm, Hm', Z.mul_add_distr_r. unfold signed. cbn [negative val].
    assert (Hsc : forall a f s, Z.min e e' <= f -> cond_Zopp s (a * 2 ^ (f - Z.min e e')) * 2 ^ (Z.min e e' - emin) =
      (if s then - (a * 2 ^ (f - emin)) else a * 2 ^ (f - emin))).
    { intros a f s Hf. replace (f - emin) with ((f - Z.min e e') + (Z.min e e' - emin)) by lia.
      rewrite Z.pow_add_r by lia. destruct s; cbn [cond_Zopp]; lia. }
    rewrite !Hsc by lia. done.
Qed.

(** A running sum never becomes [-0.0]. *)
Lemma add_settled x y : settled x = true -> valid_binary prec emax y = true -> settled (SFadd prec emax x y) = true.
Proof.
  intros Sx Vy. destruct (is_finite x) eqn:Fx, (is_finite y) eqn:Fy.
  - assert (Hx : number x = true) by (unfold settled, number in *; apply andb_true_iff in Sx as [-> _]; by destruct x).
    assert (Hy : number y = true) by (unfold number; rewrite Vy; by destruct y).
    destruct (add_signed x y Hx Hy Sx Fx Fy) as (z & e & [(He & _ & ->)|[[-> _]|(-> & _ & Hs)]]); [|done|done].
    by apply normalize_signed.
  - destruct x as [[]|[]| |sx m e]; try done; destruct y as [|[]| |]; done.
  - destruct x as [|[]| |]; try done; destruct y as [[]|[]| |]; done.
  - destruct x as [|[]| |]; try done; destruct y as [[]|[]| |]; done.
Qed.

Lemma sub_settled x y : settled x = true -> valid_binary prec emax y = true -> settled (SFsub prec emax x y) = true.
Proof. intros Sx Vy. rewrite sub_is_add. apply add_settled; [done|by rewrite valid_opp]. Qed.

(** Adding a zero of either sign to a running sum changes nothing. *)
Lemma add_zero x s : settled x = true -> SFadd prec emax x (S754_zero s) = x.
Proof. by destruct x as [[]|[]| |[] m e], s. Qed.

Lemma sub_zero x s : settled x = true -> SFsub prec emax x (S754_zero s) = x.
Proof. intros Sx. rewrite sub_is_add. by apply add_zero. Qed.

(** Subtracting is adding the difference from zero. *)
Lemma add_neg x y : settled x = true -> SFadd prec emax x (SFsub prec emax (S754_zero false) y) = SFsub prec emax x y.
Proof.
  intros Sx. destruct y as [s|s| |s m e].
  - rewrite (sub_zero x) by done. destruct s; apply (add_zero _ false Sx).
  - by destruct x as [[]|[]| |[] m e], s.
  - by destruct x.
  - by rewrite (sub_is_add _ _ x).
Qed.
End format.

(** ** Integers in binary32 *)

(** The units of a [f32] in one. *)
Definition f32_unit : Z := 2 ^ 149.

(** [x] is the integer [a]; a zero may have either sign. *)
Definition is_int (x : f32) (a : Z) : Prop :=
  number 24 128 x = true /\ is_finite x = true /\ signed 24 128 x = a * f32_unit.

Lemma f32_of_Z_int a :
  Z.abs a <= 2 ^ 24 -> is_int (f32_of_Z a) a /\ settled 24 128 (f32_of_Z a) = true.
Proof.
  intros Ha. destruct (normalize_signed 24 128 ltac:(lia) ltac:(lia) a 0 ltac:(vm_compute; discriminate)) as (Hs & Hn & Hv).
  fold (f32_of_Z a) in *. change (binary_normalize 24 128 a 0 false) with (f32_of_Z a) in *.
  change (0 - SpecFloat.emin 24 128) with 149 in Hv. change (128 - SpecFloat.emin 24 128) with 277 in Hv.
  assert (Hr : rnd 24 (Z.abs a * 2 ^ 149) = Z.abs a * 2 ^ 149).
  { destruct (Z.eq_dec (Z.abs a) (2 ^ 24)) as [->|]; [reflexivity|]. apply rnd_exact; lia. }
  assert (Hval : signed 24 128 (f32_of_Z a) = a * f32_unit) by (rewrite Hv, Hr; unfold f32_unit; lia).
  split; [|done]. split; [done|]. split; [|done].
  unfold f32_unit in Hval. destruct (f32_of_Z a) as [s|s| |s m e]; try done. exfalso.
  assert (Z.abs (signed 24 128 (S754_infinity s)) = 2 ^ 277) by (destruct s; reflexivity). lia.
Qed.

Lemma is_int_opp x a : is_int x a -> is_int (SFopp x) (- a).
Proof.
  intros (Hn & Hf & Hv). split; [by rewrite number_opp|]. split; [by destruct x|]. rewrite signed_opp, Hv. lia.
Qed.

Lemma is_int_unique x a : is_int x a -> settled 24 128 x = true -> Z.abs a <= 2 ^ 24 -> x = f32_of_Z a.
Proof.
  intros (Hn & Hf & Hv) Hs Ha. destruct (f32_of_Z_int a Ha) as [(Hn' & _ & Hv') Hs'].
  apply (signed_inj 24 128 ltac:(lia) ltac:(lia)); try done. congruence.
Qed.

(** Sums and differences of integers of at most 24 bits are exact. *)
Lemma f32_add_int a x b :
  Z.abs a <= 2 ^ 24 -> is_int x b -> Z.abs (a + b) <= 2 ^ 24 -> f32_add (f32_of_Z a) x = f32_of_Z (a + b).
Proof.
  intros Ha (Hx & Fx & Vx) Hab. destruct (f32_of_Z_int a Ha) as [(Hn & Hf & Hv) Hs]. unfold f32_add, f32_prec, f32_emax.
  destruct (f32_of_Z_int (a + b) Hab) as [(Hn' & _ & Hv') Hs'].
  destruct (add_signed 24 128 ltac:(lia) (f32_of_Z a) x Hn Hx Hs Hf Fx) as (z & e & [(He & Hz & ->)|[[-> H0]|(-> & H0 & Hsx)]]).
  - destruct (normalize_signed 24 128 ltac:(lia) ltac:(lia) z e He) as (Hsz & Hnz & Hvz).
    apply (signed_inj 24 128 ltac:(lia) ltac:(lia)); try done. rewrite Hv'. rewrite Hvz.
    change (128 - SpecFloat.emin 24 128) with 277. rewrite Hv, Vx in Hz. unfold f32_unit in *.
    pose proof (Z.pow_pos_nonneg 2 (e - SpecFloat.emin 24 128) ltac:(lia) ltac:(lia)) as Hp.
    replace (Z.abs z * 2 ^ (e - SpecFloat.emin 24 128)) with (Z.abs (a + b) * 2 ^ 149).
    2: { rewrite <- (Z.abs_eq (2 ^ (e - SpecFloat.emin 24 128))) by lia. rewrite <- Z.abs_mul, Hz, <- Z.mul_add_distr_r, Z.abs_mul. lia. }
    assert (Hsg : Z.sgn z = Z.sgn (a + b)).
    { rewrite <- Z.mul_add_distr_r in Hz. apply (f_equal Z.sgn) in Hz. rewrite !Z.sgn_mul, (Z.sgn_pos (2 ^ (e - _))), (Z.sgn_pos (2 ^ 149)) in Hz by lia. lia. }
    rewrite Hsg. assert (Hr : rnd 24 (Z.abs (a + b) * 2 ^ 149) = Z.abs (a + b) * 2 ^ 149).
    { destruct (Z.eq_dec (Z.abs (a + b)) (2 ^ 24)) as [->|]; [reflexivity|]. apply rnd_exact; lia. }
    rewrite Hr. lia.
  - assert (b = 0) by (unfold f32_unit in *; lia). subst. by rewrite Z.add_0_r.
  - assert (a = 0) by (unfold f32_unit in *; lia). subst. rewrite Z.add_0_l in *. apply is_int_unique; done.
Qed.

Lemma f32_sub_int a x b :
  Z.abs a <= 2 ^ 24 -> is_int x b -> Z.abs (a - b) <= 2 ^ 24 -> f32_sub (f32_of_Z a) x = f32_of_Z (a - b).
Proof.
  intros Ha Hx Hab. unfold f32_sub. rewrite sub_is_add. apply f32_add_int; [done|by apply is_int_opp|lia].
Qed.
