(* ===== verification/Reference.v ===== *)
(** * The reference kernels (crates/tritium-core/src/reference.rs)

    The ternary matrix product and the ternary one-dimensional convolution in their
    add, subtract and skip form, which every backend kernel is measured against. An
    index is computed on [Z]: an overflowing index is out of range, and panics, as the
    overflow itself does. [usize] values cast to [isize] wrap, [isize] sums and
    products that do not fit panic.

    The proofs give the value of every output, and show that the multiply-free form is,
    bit for bit, the one that multiplies by the trits, for the product and for the
    convolution over the zero-padded input. *)

From Stdlib Require Import ZArith Lia Bool Floats.SpecFloat.
From stdpp Require Import base list numbers.
From S2P Require Import Prelude Core F32 FloatOrder Plane FloatExact.

#[local] Open Scope Z_scope.

Abbreviation tres := (res TritError).

Definition check (got expected : Z) : tres unit :=
  if got =? expected then Ok tt else Err (ShapeMismatch expected got).

(** [match w { 1 => acc += a, -1 => acc -= a, _ => {} }]; the activation is only
    read in the first two arms. *)
Definition add_trit {E} (acc : f32) (w : Z) (a : res E f32) : res E f32 :=
  if w =? 1 then let* a := a in Ok (f32_add acc a) else
  if w =? -1 then let* a := a in Ok (f32_sub acc a) else
  Ok acc.

Definition mpgemm_cell (n k : Z) (arow : list f32) (weights : list Trit) (scale_n : list f32) (mi ni : Z)
    (out : list f32) : tres (list f32) :=
  let* wrow := slice weights (ni * k) (ni * k + k) in
  let* acc := for_range 0 k (fun ki acc =>
    let* w := idx wrow ki in add_trit acc (get w) (idx arow ki)) f32_zero in
  let* s := idx scale_n ni in
  upd out (mi * n + ni) (f32_mul acc s).

Definition reference_mpgemm (act : list f32) (weights : list Trit) (scale_n : list f32) (shape : GemmShape)
    (out : list f32) : tres (list f32) :=
  let* mk := mul_usize (gm shape) (gk shape) in
  let* _ := check (zlen act) mk in
  let* nk := mul_usize (gn shape) (gk shape) in
  let* _ := check (zlen weights) nk in
  let* _ := check (zlen scale_n) (gn shape) in
  let* mn := mul_usize (gm shape) (gn shape) in
  let* _ := check (zlen out) mn in
  let '(m, n, k) := (gm shape, gn shape, gk shape) in
  for_range 0 m (fun mi out =>
    let* arow := slice act (mi * k) (mi * k + k) in
    for_range 0 n (mpgemm_cell n k arow weights scale_n mi) out) out.

(** [x as isize], and [isize] arithmetic. *)
Definition as_isize (x : Z) : Z := if x <=? isize_max then x else x - (usize_max + 1).
Definition isize {E} (x : Z) : res E Z := if (- isize_max - 1 <=? x) && (x <=? isize_max) then Ok x else Panic.

Definition conv_tap_at (s : ConvShape) (x : list f32) (wrow : list Trit) (xbase ci_local l kk : Z) (acc : f32) : tres f32 :=
  let* a := isize (as_isize l * as_isize (stride s)) in
  let* b := isize (as_isize kk * as_isize (dilation s)) in
  let* ab := isize (a + b) in
  let* p := isize (ab - as_isize (pad_left s)) in
  if (0 <=? p) && (p <? l_in s) then
    let* xv := idx x (xbase + p) in
    let* w := idx wrow (ci_local * ksize s + kk) in
    add_trit acc (get w) (Ok xv)
  else Ok acc.

Definition conv_cell (s : ConvShape) (x : list f32) (wrow : list Trit) (sc : f32) (lo pg b g co l : Z) (out : list f32)
  : tres (list f32) :=
  let* acc := for_range 0 pg (fun ci_local acc =>
    let ci := g * pg + ci_local in
    let xbase := (b * c_in s + ci) * l_in s in
    for_range 0 (ksize s) (conv_tap_at s x wrow xbase ci_local l) acc) f32_zero in
  upd out ((b * c_out s + co) * lo + l) (f32_mul acc sc).

Definition conv_channel (s : ConvShape) (x : list f32) (weights : list Trit) (scale_n : list f32) (lo pg ng kg b g n : Z)
    (out : list f32) : tres (list f32) :=
  let co := g * ng + n in
  let* wrow := slice weights (co * kg) (co * kg + kg) in
  let* sc := idx scale_n co in
  for_range 0 lo (conv_cell s x wrow sc lo pg b g co) out.

Definition reference_conv1d (x : list f32) (weights : list Trit) (scale_n : list f32) (s : ConvShape) (out : list f32)
  : tres (list f32) :=
  let* lo := l_out s in
  let* fit := conv_buffers_fit s (zlen x) (zlen weights) (zlen scale_n) (zlen out) in
  if negb fit then
    let* bc := mul_usize (batch s) (c_out s) in
    let* expected := mul_usize bc lo in
    Err (ShapeMismatch expected (zlen out))
  else
  let* pg := c_in_pg s in
  let* ng := n_g s in
  let* kg := k_g s in
  for_range 0 (batch s) (fun b out =>
    for_range 0 (groups s) (fun g out =>
      for_range 0 ng (conv_channel s x weights scale_n lo pg ng kg b g) out) out) out.

(** * Values *)

(** One step of the accumulation, and the accumulation over two rows. *)
Definition trit_step (acc : f32) (w : Z) (a : f32) : f32 :=
  if w =? 1 then f32_add acc a else if w =? -1 then f32_sub acc a else acc.
Definition dot_from (acc : f32) (ws : list Z) (xs : list f32) : f32 :=
  foldl (fun acc p => trit_step acc p.1 p.2) acc (zip ws xs).
Abbreviation dot := (dot_from f32_zero).

Lemma add_trit_Ok {E} acc w a x : a = Ok x -> add_trit (E := E) acc w a = Ok (trit_step acc w x).
Proof. intros ->. unfold add_trit, trit_step. destruct (w =? 1); [done|]. by destruct (w =? -1). Qed.

Lemma dot_from_app acc ws ws' xs xs' :
  length ws = length xs -> dot_from acc (ws ++ ws') (xs ++ xs') = dot_from (dot_from acc ws xs) ws' xs'.
Proof. intros Hl. unfold dot_from. by rewrite zip_with_app, foldl_app. Qed.

Lemma sub_snoc {A} (l : list A) a b x : 0 <= a -> a <= b -> l !! Z.to_nat b = Some x -> sub l a (b + 1) = sub l a b ++ [x].
Proof.
  intros Ha Hb Hx. rewrite <- (sub_join l a b (b + 1)) by lia. f_equal.
  unfold sub. replace (b + 1 - b) with 1 by lia. change (Z.to_nat 1) with 1%nat.
  rewrite (drop_S l x) by done. simpl. by rewrite take_0.
Qed.

Lemma sub_all {A} (l : list A) n : zlen l = n -> sub l 0 n = l.
Proof. intros <-. apply sub_full. Qed.

(** A loop of steps over two rows. *)
Lemma trit_loop {E} (ws : list Z) xs lo hi acc (body : Z -> f32 -> res E f32) :
  0 <= lo <= hi -> hi <= zlen ws -> zlen ws = zlen xs ->
  (forall i acc w x, lo <= i < hi -> ws !! Z.to_nat i = Some w -> xs !! Z.to_nat i = Some x -> body i acc = Ok (trit_step acc w x)) ->
  for_range lo hi body acc = Ok (dot_from acc (sub ws lo hi) (sub xs lo hi)).
Proof.
  intros Hlo Hhi Hl Hb.
  destruct (for_range_inv (fun i a => a = dot_from acc (sub ws lo i) (sub xs lo i)) body lo hi acc) as (r & Hr & ->).
  - lia.
  - by rewrite !sub_empty.
  - intros i a Hi ->. destruct (lookup_Z ws i ltac:(lia)) as [w Hw]. destruct (lookup_Z xs i ltac:(lia)) as [x Hx].
    rewrite (Hb i _ w x) by (done || lia). eexists. split; [done|].
    rewrite (sub_snoc ws lo i w), (sub_snoc xs lo i x) by (done || lia).
    rewrite dot_from_app; [done|]. apply Nat2Z.inj. fold (zlen (sub ws lo i)) (zlen (sub xs lo i)). rewrite !zlen_sub by lia. lia.
  - exact Hr.
Qed.

(** Row [i] of a row-major matrix of width [k]. *)
Definition row {A} (l : list A) (k i : Z) : list A := sub l (i * k) (i * k + k).

Lemma zlen_row {A} (l : list A) n k i : 0 <= k -> zlen l = n * k -> 0 <= i < n -> zlen (row l k i) = k.
Proof. intros Hk Hl Hi. unfold row. rewrite zlen_sub; nia. Qed.

Lemma slice_row {E A} (l : list A) n k i :
  0 <= k -> zlen l = n * k -> 0 <= i < n -> slice (E := E) l (i * k) (i * k + k) = Ok (row l k i).
Proof. intros Hk Hl Hi. apply slice_Ok; nia. Qed.

(** The product of row [mi] of the activations with row [ni] of the weights, scaled. *)
Definition cell (act : list f32) (weights : list Trit) (scale_n : list f32) (k mi ni : Z) : f32 :=
  f32_mul (dot (get <$> row weights k ni) (row act k mi)) (nth (Z.to_nat ni) scale_n f32_zero).
Definition product (act : list f32) (weights : list Trit) (scale_n : list f32) (s : GemmShape) : list f32 :=
  tabulate (gm s * gn s) (fun i => cell act weights scale_n (gk s) (i / gn s) (i mod gn s)).

Record gemm_fits (act : list f32) (weights : list Trit) (scale_n : list f32) (s : GemmShape) (out : list f32) : Prop := {
  gf_dims : 0 <= gm s /\ 0 <= gn s /\ 0 <= gk s;
  gf_act : zlen act = gm s * gk s;
  gf_weights : zlen weights = gn s * gk s;
  gf_scales : zlen scale_n = gn s;
  gf_out : zlen out = gm s * gn s;
  gf_bound : zlen act <= usize_max /\ zlen weights <= usize_max /\ zlen out <= usize_max }.

Lemma nth_lookup_Z {A} (l : list A) i d : 0 <= i < zlen l -> l !! Z.to_nat i = Some (nth (Z.to_nat i) l d).
Proof. intros Hi. destruct (lookup_Z l i Hi) as [x Hx]. rewrite Hx. f_equal. symmetry. apply nth_lookup_Some with (d := d) in Hx. done. Qed.

Lemma idx_nth {E A} (l : list A) i d : 0 <= i < zlen l -> idx (E := E) l i = Ok (nth (Z.to_nat i) l d).
Proof. intros Hi. apply idx_Ok; [lia|by apply nth_lookup_Z]. Qed.

Lemma mpgemm_cell_Ok act weights scale_n s mi ni out out0 :
  gemm_fits act weights scale_n s out0 -> 0 <= mi < gm s -> 0 <= ni < gn s ->
  mpgemm_cell (gn s) (gk s) (row act (gk s) mi) weights scale_n mi ni out =
  upd out (mi * gn s + ni) (cell act weights scale_n (gk s) mi ni).
Proof.
  intros [(Hm & Hn & Hk) Ha Hw Hs Ho _] Hmi Hni. unfold mpgemm_cell. rewrite (slice_row _ (gn s)) by (done || lia). cbn [bind].
  pose proof (zlen_row weights (gn s) (gk s) ni Hk Hw Hni) as Lw. pose proof (zlen_row act (gm s) (gk s) mi Hk Ha Hmi) as La.
  rewrite (trit_loop (get <$> row weights (gk s) ni) (row act (gk s) mi)); cycle 1.
  { lia. } { rewrite zlen_fmap. lia. } { rewrite zlen_fmap. lia. }
  { intros i acc w x Hi Hw' Hx. rewrite list_lookup_fmap in Hw'. destruct (row weights (gk s) ni !! Z.to_nat i) as [t|] eqn:Ht; [|done].
    injection Hw' as <-. rewrite (idx_Ok _ _ t) by (done || lia). cbn [bind]. apply add_trit_Ok, idx_Ok; [lia|done]. }
  cbn [bind]. rewrite (idx_nth scale_n ni f32_zero) by lia. cbn [bind]. unfold cell.
  by rewrite !sub_all by (rewrite ?zlen_fmap; done).
Qed.

(** Every loop over output rows and columns that writes the cells writes the product. *)
Lemma product_wrote act weights scale_n s out out' :
  gemm_fits act weights scale_n s out ->
  wrote (interval 0 (gm s * gn s)) (fun i => cell act weights scale_n (gk s) (i / gn s) (i mod gn s)) out out' ->
  out' = product act weights scale_n s.
Proof.
  intros H Hw. apply (wrote_full _ _ _ _ (gm s * gn s) Hw); [apply H|]. intros j Hj. unfold interval. lia.
Qed.

Lemma row_cell n mi ni : 0 < n -> 0 <= ni < n -> (mi * n + ni) / n = mi /\ (mi * n + ni) mod n = ni.
Proof. intros Hn Hni. rewrite (Z.mul_comm mi). by apply div_mod_row. Qed.

(** The reference is the product. *)
Lemma reference_product act weights scale_n s out :
  gemm_fits act weights scale_n s out ->
  reference_mpgemm act weights scale_n s out = Ok (product act weights scale_n s).
Proof.
  intros H. pose proof H as [(Hm & Hn & Hk) Ha Hw Hs Ho Hb]. unfold reference_mpgemm, check.
  rewrite !mul_usize_Ok by lia. cbn [bind]. rewrite Ha, Hw, Hs, Ho, !Z.eqb_refl. cbn [bind].
  match goal with |- for_range 0 _ ?body _ = _ =>
    destruct (for_range_wrote (fun i => cell act weights scale_n (gk s) (i / gn s) (i mod gn s)) body 0 (gm s) 0 (gm s * gn s) (gn s) out)
      as (out' & Hf & Hwr) end; [lia|lia|lia| |rewrite Hf; f_equal; by apply (product_wrote _ _ _ _ out)].
  intros mi l1 Hmi Hl1. rewrite (slice_row _ (gm s)) by (done || lia). cbn [bind].
  apply for_range_wrote_1; [lia|nia|lia|nia|]. intros ni l2 Hni Hl2. rewrite (mpgemm_cell_Ok act weights scale_n s mi ni l2 out H) by lia.
  replace (0 + (mi - 0) * gn s + (ni - 0)) with (mi * gn s + ni) by lia.
  destruct (row_cell (gn s) mi ni) as [-> ->]; [lia|lia|done].
Qed.

(** * The form with multiplications *)

Abbreviation valid32 := (fun x => valid_binary 24 128 x = true).

Lemma valid_all l : forallb (valid_binary 24 128) l = true -> Forall valid32 l.
Proof. induction l as [|x l IH]; [constructor|]. cbn [forallb]. intros [Hx Hl]%andb_true_iff. constructor; [done|by apply IH]. Qed.

Lemma mul_unit s m e b : valid32 (S754_finite s m e) ->
  f32_mul (S754_finite s m e) (S754_finite b 8388608 (-23)) = S754_finite (xorb s b) m e.
Proof.
  intros Hv. unfold f32_mul, f32_prec, f32_emax. cbn [SFmul].
  pose proof (valid_finite 24 128 ltac:(lia) s m e Hv) as (He & Hm & Hc).
  cbn [valid_binary] in Hv. unfold bounded, canonical_mantissa in Hv. rewrite digits2_dg in Hv.
  apply andb_true_iff in Hv as [Hf%Z.eqb_eq _].
  assert (Hd : dg (Z.pos (m * 8388608)) + (e + -23) = dg (Z.pos m) + e).
  { rewrite Pos2Z.inj_mul. change (Z.pos 8388608) with (2 ^ 23). rewrite dg_shift by lia. lia. }
  rewrite (round_aux_pack 24 128 ltac:(lia)); [|lia|rewrite Hd, Hf; lia]. rewrite Hd, Hf.
  replace (e - (e + -23)) with 23 by lia. rewrite Pos2Z.inj_mul. change (Z.pos 8388608) with (2 ^ 23). rewrite rne_multiple by lia.
  unfold pack. change (Z.pos m =? 0) with false. cbv iota. replace (Z.pos m =? 2 ^ 24) with false by lia. by replace (e <=? 128 - 24) with true by lia.
Qed.

Lemma mul_pos_one x : valid32 x -> f32_mul x (f32_of_Z 1) = x.
Proof.
  intros Hx. change (f32_of_Z 1) with (S754_finite false 8388608 (-23)). destruct x as [[]|[]| |s m e]; try reflexivity.
  rewrite mul_unit by done. by rewrite xorb_false_r.
Qed.

Lemma mul_neg_one x : valid32 x -> f32_mul x (f32_of_Z (-1)) = SFopp x.
Proof.
  intros Hx. change (f32_of_Z (-1)) with (S754_finite true 8388608 (-23)). destruct x as [[]|[]| |s m e]; try reflexivity.
  rewrite mul_unit by done. by rewrite xorb_true_r.
Qed.

Lemma mul_pos_zero x : is_finite x = true -> exists s, f32_mul x (f32_of_Z 0) = S754_zero s.
Proof. change (f32_of_Z 0) with (S754_zero false). destruct x as [s|s| |s m e]; try done; intros _; by eexists. Qed.

Lemma trit_step_settled acc w x : settled 24 128 acc = true -> valid32 x -> settled 24 128 (trit_step acc w x) = true.
Proof.
  intros Ha Hx. unfold trit_step, f32_add, f32_sub, f32_prec, f32_emax.
  destruct (w =? 1); [by apply add_settled|]. destruct (w =? -1); [by apply sub_settled|done].
Qed.

Lemma dot_settled acc ws xs :
  settled 24 128 acc = true -> Forall valid32 xs -> settled 24 128 (dot_from acc ws xs) = true.
Proof.
  intros Ha Hx. revert acc ws Ha. induction Hx as [|x xs Hx _ IH]; intros acc [|w ws] Ha; try done.
  cbn [dot_from zip zip_with foldl fst snd]. apply IH. by apply trit_step_settled.
Qed.

(** Adding the product with the trit is adding, subtracting or skipping. *)
Lemma float_step acc t x :
  settled 24 128 acc = true -> valid32 x -> is_finite x = true ->
  f32_add acc (f32_mul x (trit_f32 t)) = trit_step acc (get t) x.
Proof.
  intros Ha Hx Hf. unfold trit_f32, trit_step. destruct t; cbn [get Z.eqb].
  - rewrite mul_neg_one by done. unfold f32_sub. by rewrite sub_is_add.
  - destruct (mul_pos_zero x Hf) as [s ->]. by apply add_zero.
  - by rewrite mul_pos_one.
Qed.

(** The plain floating-point product: every trit is a coefficient. *)
Definition float_dot (ws : list Trit) (xs : list f32) : f32 :=
  foldl (fun acc p => f32_add acc (f32_mul p.2 (trit_f32 p.1))) f32_zero (zip ws xs).
Definition float_product (act : list f32) (weights : list Trit) (scale_n : list f32) (s : GemmShape) : list f32 :=
  tabulate (gm s * gn s) (fun i =>
    f32_mul (float_dot (row weights (gk s) (i mod gn s)) (row act (gk s) (i / gn s)))
            (nth (Z.to_nat (i mod gn s)) scale_n f32_zero)).

Lemma float_dot_is ws xs :
  Forall valid32 xs -> Forall (fun x => is_finite x = true) xs -> float_dot ws xs = dot (get <$> ws) xs.
Proof.
  unfold float_dot, dot_from. intros Hv Hf. assert (Ha : settled 24 128 f32_zero = true) by done. revert Hv Hf Ha.
  generalize f32_zero. revert ws. induction xs as [|x xs IH]; intros [|w ws] acc Hv Hf Ha; try done.
  apply list.Forall_cons in Hv as [Hx Hv]. apply list.Forall_cons in Hf as [Fx Hf].
  cbn [zip zip_with foldl fst snd fmap list_fmap]. rewrite float_step by done. apply IH; try done. by apply trit_step_settled.
Qed.

Lemma Forall_sub {A} (P : A -> Prop) l a b : Forall P l -> Forall P (sub l a b).
Proof. intros H. unfold sub. by apply Forall_take, Forall_drop. Qed.

(** * The convolution as a product *)

(** The input under tap [c] of the output position [l] of group [g], zero in the
    padding: one column of the unrolled input. *)
Definition im2col (s : ConvShape) (pg kg : Z) (x : list f32) (b g l : Z) : list f32 :=
  tabulate kg (fun c =>
    let p := conv_tap s l (c mod ksize s) - pad_left s in
    if (0 <=? p) && (p <? l_in s)
    then nth (Z.to_nat ((b * c_in s + (g * pg + c / ksize s)) * l_in s + p)) x f32_zero
    else f32_zero).

(** The convolution with the geometry [lo] outputs per row, [pg] inputs and [ng]
    outputs per group and [kg] weights per output. *)
Definition conv_product (s : ConvShape) (lo pg ng kg : Z) (x : list f32) (weights : list Trit) (scale_n : list f32) : list f32 :=
  tabulate (batch s * c_out s * lo) (fun i =>
    let co := (i / lo) mod c_out s in
    f32_mul (dot (get <$> row weights kg co) (im2col s pg kg x (i / lo / c_out s) (co / ng) (i mod lo)))
            (nth (Z.to_nat co) scale_n f32_zero)).

Record conv_geometry (s : ConvShape) (lo pg ng kg xs ws ss os : Z) : Prop := {
  cg_dims : 0 <= batch s /\ 0 < groups s /\ 0 < ksize s /\ 0 < stride s <= usize_max /\ 0 < dilation s <= usize_max;
  cg_pads : 0 <= pad_left s /\ 0 <= pad_right s /\ 0 <= l_in s /\ l_in s + pad_left s + pad_right s <= isize_max;
  cg_lo : l_out (E := TritError) s = Ok lo /\ 0 < lo;
  cg_in : c_in s = groups s * pg /\ 0 <= pg;
  cg_out : c_out s = groups s * ng /\ 0 <= ng;
  cg_kg : kg = pg * ksize s;
  cg_x : xs = batch s * c_in s * l_in s;
  cg_w : ws = c_out s * kg;
  cg_s : ss = c_out s;
  cg_o : os = batch s * c_out s * lo }.

Lemma as_isize_mul a b : 0 <= a -> 0 <= b -> a * b <= isize_max -> as_isize a * as_isize b = a * b.
Proof.
  intros Ha Hb H. destruct (Z.eq_dec a 0) as [->|]; [done|]. destruct (Z.eq_dec b 0) as [->|]; [by rewrite !Z.mul_0_r|].
  assert (a <= isize_max) by nia. assert (b <= isize_max) by nia. unfold as_isize.
  by replace (a <=? isize_max) with true by lia; replace (b <=? isize_max) with true by lia.
Qed.

Lemma isize_Ok {E} x : - isize_max - 1 <= x <= isize_max -> isize (E := E) x = Ok x.
Proof. intros H. unfold isize. by replace ((- isize_max - 1 <=? x) && (x <=? isize_max)) with true by lia. Qed.

Section conv.
Context (s : ConvShape) (lo pg ng kg : Z) (x : list f32) (weights : list Trit) (scale_n out0 : list f32).
Context (G : conv_geometry s lo pg ng kg (zlen x) (zlen weights) (zlen scale_n) (zlen out0)).
Context (Hx : Forall valid32 x).

Lemma tap_inside l j : 0 <= l < lo -> 0 <= j < ksize s -> 0 <= conv_tap s l j < l_in s + pad_left s + pad_right s.
Proof.
  intros Hl Hj. destruct G as [(_ & _ & Hk & Hst & Hd) _ [Hlo _] _ _ _ _ _ _ _].
  split; [unfold conv_tap; nia|]. apply (l_out_taps s lo l); try done; lia.
Qed.

Lemma im2col_valid b g l : Forall valid32 (im2col s pg kg x b g l).
Proof.
  apply list.Forall_forall. intros v Hv. apply list_elem_of_fmap in Hv as (c & -> & _). cbn zeta.
  destruct (_ && _); [|done]. destruct (nth_in_or_default (Z.to_nat ((b * c_in s + (g * pg + c / ksize s)) * l_in s + (conv_tap s l (c mod ksize s) - pad_left s))) x f32_zero) as [Hin| ->]; [|done].
  rewrite list.Forall_forall in Hx. by apply Hx, list_elem_of_In.
Qed.

(** One tap is one step over the column. *)
Lemma conv_tap_step b g l wrow ci kk w acc :
  0 <= b < batch s -> 0 <= g < groups s -> 0 <= l < lo -> 0 <= ci < pg -> 0 <= kk < ksize s ->
  wrow !! Z.to_nat (ci * ksize s + kk) = Some w -> settled 24 128 acc = true ->
  conv_tap_at s x wrow ((b * c_in s + (g * pg + ci)) * l_in s) ci l kk acc =
  Ok (trit_step acc (get w) (nth (Z.to_nat (ci * ksize s + kk)) (im2col s pg kg x b g l) f32_zero)).
Proof.
  intros Hb Hg Hl Hci Hkk Hw Ha. destruct G as [(Hbt & Hgr & Hk & Hst & Hd) Hpad [Hlo _] [Hcin Hpg] _ Hkg Hlx _ _ _].
  pose proof (tap_inside l kk Hl Hkk) as Ht. unfold conv_tap in Ht.
  assert (Hls : 0 <= l * stride s) by nia. assert (Hkd : 0 <= kk * dilation s) by nia.
  unfold conv_tap_at. rewrite !as_isize_mul by lia. rewrite isize_Ok by (unfold isize_max in *; lia). cbn [bind].
  rewrite isize_Ok by (unfold isize_max in *; lia). cbn [bind]. rewrite isize_Ok by (unfold isize_max in *; lia). cbn [bind].
  unfold as_isize. replace (pad_left s <=? isize_max) with true by lia. rewrite isize_Ok by (unfold isize_max in *; lia). cbn [bind].
  assert (Hcell : 0 <= ci * ksize s + kk < kg) by nia.
  destruct (row_cell (ksize s) ci kk ltac:(lia) Hkk) as [Hdiv Hmod].
  assert (Hcol : nth (Z.to_nat (ci * ksize s + kk)) (im2col s pg kg x b g l) f32_zero =
    let p := l * stride s + kk * dilation s - pad_left s in
    if (0 <=? p) && (p <? l_in s) then nth (Z.to_nat ((b * c_in s + (g * pg + ci)) * l_in s + p)) x f32_zero else f32_zero).
  { apply nth_lookup_Some with (d := f32_zero). unfold im2col. rewrite lookup_tabulate by lia. rewrite Hdiv, Hmod. done. }
  rewrite Hcol. cbn zeta. set (p := l * stride s + kk * dilation s - pad_left s).
  destruct ((0 <=? p) && (p <? l_in s)) eqn:Hp.
  - rewrite (idx_nth x _ f32_zero); [|assert (0 <= p < l_in s) by lia; rewrite Hlx, Hcin; split; [nia|]].
    2: { assert (Hr : 0 <= g * pg + ci < groups s * pg) by nia. clear - Hr H Hb.
         revert Hr. generalize (g * pg + ci) (groups s * pg). intros r w' Hr. assert (b * w' + r + 1 <= batch s * w') by nia. nia. }
    cbn [bind]. rewrite (idx_Ok _ _ w) by (done || lia). cbn [bind]. by apply add_trit_Ok.
  - f_equal. unfold trit_step. destruct (_ =? 1); [symmetry; by apply add_zero|].
    destruct (_ =? -1); [symmetry; by apply sub_zero|done].
Qed.

Lemma conv_row_dot b g l co :
  0 <= b < batch s -> 0 <= g < groups s -> 0 <= l < lo -> 0 <= co < c_out s ->
  for_range 0 pg (fun ci_local acc =>
    for_range 0 (ksize s) (conv_tap_at s x (row weights kg co) ((b * c_in s + (g * pg + ci_local)) * l_in s) ci_local l) acc) f32_zero =
  Ok (dot (get <$> row weights kg co) (im2col s pg kg x b g l)).
Proof.
  intros Hb Hg Hl Hco. pose proof G as [(Hbt & Hgr & Hk & Hst & Hd) Hpad [Hlo _] [Hcin Hpg] _ Hkg Hlx Hlw _ _].
  assert (Hkg0 : 0 <= kg) by nia.
  pose proof (zlen_row weights (c_out s) kg co Hkg0 Hlw Hco) as Lw.
  set (ws := get <$> row weights kg co). set (col := im2col s pg kg x b g l).
  assert (Lws : zlen ws = kg) by (unfold ws; rewrite zlen_fmap; done).
  assert (Lcol : zlen col = kg) by (unfold col, im2col; rewrite zlen_tabulate; lia).
  pose proof (im2col_valid b g l) as Vcol. fold col in Vcol.
  match goal with |- for_range 0 _ ?body _ = _ =>
    destruct (for_range_inv (fun i a => a = dot (sub ws 0 (i * ksize s)) (sub col 0 (i * ksize s))) body 0 pg f32_zero) as (r & Hr & ->) end.
  - lia.
  - by rewrite !sub_empty.
  - intros ci a Hci ->.
    match goal with |- exists _, for_range 0 _ ?body _ = _ /\ _ =>
      destruct (for_range_inv (fun kk a => a = dot (sub ws 0 (ci * ksize s + kk)) (sub col 0 (ci * ksize s + kk))) body 0 (ksize s)
        (dot (sub ws 0 (ci * ksize s)) (sub col 0 (ci * ksize s)))) as (r & Hr & ->) end.
    + lia.
    + by rewrite Z.add_0_r.
    + intros kk a Hkk ->. assert (Hin : 0 <= ci * ksize s + kk < kg) by nia.
      destruct (lookup_Z (row weights kg co) (ci * ksize s + kk) ltac:(lia)) as [w Hw].
      rewrite (conv_tap_step b g l _ ci kk w) by (done || lia || (apply dot_settled; [done|by apply Forall_sub])).
      eexists. split; [done|]. rewrite Z.add_assoc.
      assert (Hws : ws !! Z.to_nat (ci * ksize s + kk) = Some (get w)) by (unfold ws; by rewrite list_lookup_fmap, Hw).
      pose proof (nth_lookup_Z col (ci * ksize s + kk) f32_zero ltac:(lia)) as Hcl.
      rewrite (sub_snoc ws 0 (ci * ksize s + kk) _ ltac:(lia) ltac:(lia) Hws), (sub_snoc col 0 (ci * ksize s + kk) _ ltac:(lia) ltac:(lia) Hcl).
      rewrite dot_from_app; [done|]. apply Nat2Z.inj. fold (zlen (sub ws 0 (ci * ksize s + kk))) (zlen (sub col 0 (ci * ksize s + kk))).
      rewrite !zlen_sub by lia. lia.
    + rewrite Hr. eexists. split; [done|]. by replace ((ci + 1) * ksize s) with (ci * ksize s + ksize s) by lia.
  - rewrite Hr. f_equal. by rewrite !sub_all by lia.
Qed.
End conv.

Lemma conv_geometry_intro s (x : list f32) (weights : list Trit) (scale_n out : list f32) lo :
  conv_buffers_fit (E := TritError) s (zlen x) (zlen weights) (zlen scale_n) (zlen out) = Ok true ->
  l_out (E := TritError) s = Ok lo ->
  0 <= batch s -> 0 <= c_in s -> 0 <= c_out s -> 0 <= l_in s -> 0 <= ksize s -> 0 <= groups s ->
  is_usize (stride s) -> is_usize (dilation s) -> 0 <= pad_left s -> 0 <= pad_right s ->
  l_in s + pad_left s + pad_right s <= isize_max ->
  exists pg ng kg, c_in_pg (E := TritError) s = Ok pg /\ n_g (E := TritError) s = Ok ng /\ k_g (E := TritError) s = Ok kg /\
    conv_geometry s lo pg ng kg (zlen x) (zlen weights) (zlen scale_n) (zlen out).
Proof.
  intros Hfit Hlo Hb Hci Hco Hli Hk Hg Hst Hdi Hpl Hpr Hp. unfold conv_buffers_fit in Hfit.
  destruct (_ || _ || _) eqn:Hz in Hfit; [done|]. rewrite Hlo in Hfit. cbn [bind] in Hfit.
  rewrite !orb_false_iff, !negb_false_iff, !Z.eqb_neq in Hz. destruct Hz as (((((Hg0 & Hk0) & Hs0) & Hd0) & Hmi) & Hmo).
  unfold is_multiple_of in Hmi, Hmo. replace (groups s =? 0) with false in Hmi, Hmo by lia. apply Z.eqb_eq in Hmi, Hmo.
  destruct (Z.ltb_spec 0 lo) as [Hlo0|]; [|done]. cbn [negb] in Hfit.
  apply bind_Ok_inv in Hfit as (bc & ->%mul_usize_inv & Hfit). apply bind_Ok_inv in Hfit as (xl & ->%mul_usize_inv & Hfit).
  destruct (Z.eqb_spec (zlen x) (batch s * c_in s * l_in s)) as [Hx|]; [|done]. cbn [negb] in Hfit.
  apply bind_Ok_inv in Hfit as (kg & Hkg & Hfit). apply bind_Ok_inv in Hfit as (wl & ->%mul_usize_inv & Hfit).
  destruct (Z.eqb_spec (zlen weights) (c_out s * kg)) as [Hw|]; [|done]. cbn [negb] in Hfit.
  destruct (Z.eqb_spec (zlen scale_n) (c_out s)) as [Hsc|]; [|done]. cbn [negb] in Hfit.
  apply bind_Ok_inv in Hfit as (bo & ->%mul_usize_inv & Hfit). apply bind_Ok_inv in Hfit as (ol & ->%mul_usize_inv & Hfit).
  injection Hfit as Ho. apply Z.eqb_eq in Ho.
  pose proof Hkg as Hkg'. unfold k_g in Hkg'. apply bind_Ok_inv in Hkg' as (pg & Hpg & ->%mul_usize_inv).
  pose proof Hpg as Hpg'. unfold c_in_pg, div_usize in Hpg'. replace (groups s =? 0) with false in Hpg' by lia. injection Hpg' as <-.
  exists (c_in s / groups s), (c_out s / groups s), (c_in s / groups s * ksize s).
  split; [done|]. split; [unfold n_g, div_usize; by replace (groups s =? 0) with false by lia|]. split; [done|].
  split; unfold is_u64, usize_max in *; try done; try lia.
  - split; [apply Z_div_exact_full_2; lia|apply Z.div_pos; lia].
  - split; [apply Z_div_exact_full_2; lia|apply Z.div_pos; lia].
Qed.

(** * Properties *)

(** C38: the multiply-free product is the plain one. For buffers that match the shape and
    finite activations, the reference product returns, bit for bit, what multiplying
    every activation by its trit and summing in the same order gives. *)
Theorem mpgemm_is_float_product act weights scale_n s out :
  gemm_fits act weights scale_n s out -> Forall valid32 act -> Forall (fun x => is_finite x = true) act ->
  reference_mpgemm act weights scale_n s out = Ok (float_product act weights scale_n s).
Proof.
  intros H Hv Hf. rewrite reference_product by done. unfold product, float_product, cell. f_equal. apply tabulate_ext.
  intros i Hi. by rewrite float_dot_is by (by apply Forall_sub).
Qed.

Lemma mpgemm_is_float_product_witness :
  reference_mpgemm [f32_of_Z 10; f32_of_Z 3; f32_of_Z 5] [POS; NEG; POS] [f32_of_Z 2] (mkGemmShape 1 1 3) [f32_zero] =
  Ok [f32_of_Z 24].
Proof.
  rewrite mpgemm_is_float_product; [vm_compute; reflexivity| |by repeat constructor|by repeat constructor].
  split; vm_compute; repeat split; discriminate.
Defined.

(** C37: the convolution is a product over the unrolled input. When the buffers match the
    geometry and the padded length is an [isize], every output is the scaled
    accumulation of its weight row over its column of the zero-padded input, in the
    order channel, then tap: skipping a padding tap is adding its zero. *)
Theorem conv1d_is_im2col x weights scale_n s out lo :
  conv_buffers_fit (E := TritError) s (zlen x) (zlen weights) (zlen scale_n) (zlen out) = Ok true ->
  l_out (E := TritError) s = Ok lo -> Forall valid32 x ->
  0 <= batch s -> 0 <= c_in s -> 0 <= c_out s -> 0 <= l_in s -> 0 <= ksize s -> 0 <= groups s ->
  is_usize (stride s) -> is_usize (dilation s) -> 0 <= pad_left s -> 0 <= pad_right s ->
  l_in s + pad_left s + pad_right s <= isize_max ->
  exists pg ng kg, c_in_pg (E := TritError) s = Ok pg /\ n_g (E := TritError) s = Ok ng /\ k_g (E := TritError) s = Ok kg /\
    reference_conv1d x weights scale_n s out = Ok (conv_product s lo pg ng kg x weights scale_n).
Proof.
  intros Hfit Hlo Hx Hb Hci Hco Hli Hk Hg Hst Hdi Hpl Hpr Hp.
  destruct (conv_geometry_intro s x weights scale_n out lo) as (pg & ng & kg & Hpg & Hng & Hkg & G); try done.
  exists pg, ng, kg. split; [done|]. split; [done|]. split; [done|]. unfold reference_conv1d.
  rewrite Hlo. cbn [bind]. rewrite Hfit. cbn [bind negb]. rewrite Hpg, Hng, Hkg. cbn [bind].
  pose proof G as [(Hbt & Hgr & Hk' & Hst' & Hd') Hpad [_ Hlo0] [Hcin Hpg0] [Hcout Hng0] Hkge Hlx Hlw Hls Ho].
  set (val := fun i => f32_mul (dot (get <$> row weights kg ((i / lo) mod c_out s)) (im2col s pg kg x (i / lo / c_out s) ((i / lo) mod c_out s / ng) (i mod lo)))
            (nth (Z.to_nat ((i / lo) mod c_out s)) scale_n f32_zero)).
  match goal with |- for_range 0 _ ?body _ = _ =>
    destruct (for_range_wrote val body 0 (batch s) 0 (batch s * c_out s * lo) (c_out s * lo) out) as (out' & Hf & Hwr) end; [lia|nia|nia| |].
  2: { rewrite Hf. f_equal. apply (wrote_full _ _ _ _ _ Hwr Ho). intros j Hj. unfold interval. lia. }
  intros b l1 Hbb Hl1.
  match goal with |- exists _, for_range 0 _ ?body _ = _ /\ _ =>
    destruct (for_range_wrote val body 0 (groups s) (b * (c_out s * lo)) ((b + 1) * (c_out s * lo)) (ng * lo) l1) as (out' & Hf & Hwr) end; [lia|nia|rewrite Hcout; lia| |].
  2: { exists out'. split; [exact Hf|]. by replace (0 + (b - 0) * (c_out s * lo)) with (b * (c_out s * lo)) by lia;
       replace (0 + (b - 0 + 1) * (c_out s * lo)) with ((b + 1) * (c_out s * lo)) by lia. }
  intros g l2 Hgg Hl2. apply (for_range_wrote val _ 0 ng _ _ lo); [lia|lia|lia|]. intros n l3 Hn Hl3.
  assert (Hcoin : 0 <= g * ng + n < c_out s) by nia.
  unfold conv_channel. rewrite (slice_row _ (c_out s)) by (nia || lia). cbn [bind]. rewrite (idx_nth scale_n _ f32_zero) by lia. cbn [bind].
  assert (Hrow : (b * c_out s + (g * ng + n) + 1) * lo <= batch s * c_out s * lo).
  { apply Z.mul_le_mono_nonneg_r; [lia|]. nia. }
  replace (b * (c_out s * lo) + (g - 0) * (ng * lo) + (n - 0) * lo) with ((b * c_out s + (g * ng + n)) * lo) by lia.
  replace (b * (c_out s * lo) + (g - 0) * (ng * lo) + (n - 0 + 1) * lo) with ((b * c_out s + (g * ng + n)) * lo + lo) by lia.
  assert (Hpos : 0 <= (b * c_out s + (g * ng + n)) * lo) by (apply Z.mul_nonneg_nonneg; nia).
  apply for_range_wrote_1; [lia|lia|lia|nia|]. intros l l4 Hl Hl4. unfold conv_cell.
  rewrite (conv_row_dot s lo pg ng kg x weights scale_n out G Hx) by (done || lia). cbn [bind]. rewrite Z.sub_0_r. f_equal.
  subst val. cbn beta. destruct (row_cell lo (b * c_out s + (g * ng + n)) l ltac:(lia) Hl) as [-> ->].
  destruct (row_cell (c_out s) b (g * ng + n) ltac:(lia) Hcoin) as [-> ->].
  destruct (row_cell ng g n ltac:(lia) ltac:(lia)) as [-> _]. done.
Qed.

(** Two channels, a kernel of two taps with one zero of padding on the left. *)
Lemma conv1d_is_im2col_witness :
  reference_conv1d (f32_of_Z <$> [1; 2; 3; 4; 5; 6]) [POS; NEG; ZERO; POS] [f32_of_Z 1] (mkConvShape 1 2 1 3 2 1 1 1 0 1) (vec f32_zero 3) =
  Ok (f32_of_Z <$> [3; 4; 5]).
Proof.
  destruct (conv1d_is_im2col (f32_of_Z <$> [1; 2; 3; 4; 5; 6]) [POS; NEG; ZERO; POS] [f32_of_Z 1] (mkConvShape 1 2 1 3 2 1 1 1 0 1) (vec f32_zero 3) 3)
    as (pg & ng & kg & Hpg & Hng & Hkg & ->); try reflexivity; try (vm_compute; discriminate).
  - by repeat constructor.
  - vm_compute. split; [discriminate|reflexivity].
  - vm_compute. split; [discriminate|reflexivity].
  - injection Hpg as <-. injection Hng as <-. injection Hkg as <-. vm_compute. reflexivity.
Defined.
