(* ===== verification/CpuKernels.v ===== *)
(** * The CPU kernels (crates/tritium-cpu/src/kernel.rs, src/simd)

    The ternary matrix product on the host: the AVX2, AVX-512 and NEON kernels over
    [f32] lanes, the two integer kernels for activations that are small integers, the
    lookup-table kernel, and their dispatch over chunks of rows.

    A vector register is the list of its lanes, lowest first: [f32] lanes, or integers
    read as signed unless the intrinsic says otherwise. A mask is a lane of ones or
    zeros, [-1] or [0], or a list of booleans for a mask register. A load outside its
    slice would be undefined behaviour and is [Panic] here. Chunks run on a thread pool
    in any order: the order is an argument. *)

From Stdlib Require Import ZArith Lia Bool Floats.SpecFloat.
From stdpp Require Import base list numbers.
From S2P Require Import Prelude Core F32 FloatOrder Plane FloatExact Spec Reference.

#[local] Open Scope Z_scope.

Abbreviation kres := (res BackendError).

Definition scalar_mpgemm (act : list f32) (weights : list Trit) (scales : list f32) (shape : GemmShape) (out : list f32)
  : kres (list f32) :=
  map_err CoreError (reference_mpgemm act weights scales shape out).

(** The test every kernel repeats: [||] stops at the first difference. *)
Definition lengths_differ (act : list f32) (weights : list Trit) (scales : list f32) (shape : GemmShape) (out : list f32)
  : kres bool :=
  let* mk := mul_usize (gm shape) (gk shape) in
  if negb (zlen act =? mk) then Ok true else
  let* nk := mul_usize (gn shape) (gk shape) in
  if negb (zlen weights =? nk) then Ok true else
  if negb (zlen scales =? gn shape) then Ok true else
  let* mn := mul_usize (gm shape) (gn shape) in
  Ok (negb (zlen out =? mn)).

(** ** Intrinsics on [f32] lanes *)

Definition mm256_setzero_ps : list f32 := vec f32_zero 8.
Definition mm256_sub_ps : list f32 -> list f32 -> list f32 := zip_with f32_sub.
Definition mm_loadl_epi64 (bytes : list Z) : list Z := bytes ++ vec 0 8.
Definition mm256_cvtepi8_epi32 (v : list Z) : list Z := take 8 v.
Definition mm256_set1_epi32 (x : Z) : list Z := vec x 8.
Definition mm256_cmpeq_epi32 : list Z -> list Z -> list Z := zip_with (fun x y => if x =? y then -1 else 0).
(** The bits of a mask, as a float register: only the sign of a lane is used. *)
Definition mm256_castsi256_ps (v : list Z) : list Z := v.
Definition mm256_blendv_ps (a b : list f32) (mask : list Z) : list f32 :=
  zip_with (fun xy m => if m <? 0 then xy.2 else xy.1) (zip a b) mask.

Definition mm_set1_epi8 (x : Z) : list Z := vec x 16.
Definition mm_cmpgt_epi8_mask : list Z -> list Z -> list bool := zip_with (fun x y => y <? x).
Definition mm512_setzero_ps : list f32 := vec f32_zero 16.
Definition mm512_maskz_mov_ps (k : list bool) (a : list f32) : list f32 :=
  zip_with (fun (k : bool) a => if k then a else f32_zero) k a.
Definition mm512_mask_sub_ps (src : list f32) (k : list bool) (a b : list f32) : list f32 :=
  zip_with (fun (sk : f32 * bool) ab => if sk.2 then f32_sub ab.1 ab.2 else sk.1) (zip src k) (zip a b).

Definition vmovl_s8 (v : list Z) : list Z := v.
Definition vget_low_s16 (v : list Z) : list Z := take 4 v.
Definition vmovl_s16 (v : list Z) : list Z := v.
Definition vdupq_n_s32 (x : Z) : list Z := vec x 4.
Definition vcgtq_s32 : list Z -> list Z -> list bool := zip_with (fun x y => y <? x).
Definition vcltq_s32 : list Z -> list Z -> list bool := zip_with (fun x y => x <? y).
Definition vdupq_n_f32 (x : f32) : list f32 := vec x 4.
Definition vnegq_f32 (v : list f32) : list f32 := SFopp <$> v.
Definition vbslq_f32 (mask : list bool) (a b : list f32) : list f32 :=
  zip_with (fun (k : bool) ab => if k then ab.1 else ab.2) mask (zip a b).

(** ** The kernels over [f32] lanes *)

(** The signed contributions of one register of activations [a] and trits [w]. *)
Definition avx2_signed (a : list f32) (w : list Z) : list f32 :=
  let zero := mm256_setzero_ps in
  let t := mm256_cvtepi8_epi32 (mm_loadl_epi64 w) in
  let pos_maskf := mm256_castsi256_ps (mm256_cmpeq_epi32 t (mm256_set1_epi32 1)) in
  let neg_maskf := mm256_castsi256_ps (mm256_cmpeq_epi32 t (mm256_set1_epi32 (-1))) in
  let neg_a := mm256_sub_ps zero a in
  let plus := mm256_blendv_ps zero a pos_maskf in
  mm256_blendv_ps plus neg_a neg_maskf.

Definition avx512_signed (a : list f32) (t : list Z) : list f32 :=
  let zero_i8 := mm_set1_epi8 0 in
  let pos_mask := mm_cmpgt_epi8_mask t zero_i8 in
  let neg_mask := mm_cmpgt_epi8_mask zero_i8 t in
  let plus := mm512_maskz_mov_ps pos_mask a in
  mm512_mask_sub_ps plus neg_mask mm512_setzero_ps a.

Definition neon_signed (a : list f32) (w : list Z) : list f32 :=
  let bytes := splice (vec 0 8) 0 w in
  let t16 := vmovl_s8 bytes in
  let t32 := vmovl_s16 (vget_low_s16 t16) in
  let zero_i32 := vdupq_n_s32 0 in
  let pos_mask := vcgtq_s32 t32 zero_i32 in
  let neg_mask := vcltq_s32 t32 zero_i32 in
  let zero_f := vdupq_n_f32 f32_zero in
  let neg_a := vnegq_f32 a in
  let plus := vbslq_f32 pos_mask a zero_f in
  vbslq_f32 neg_mask neg_a plus.

(** The vector pass: [while ki < k_simd], [ki] in steps of [lanes]. *)
Definition vector_pass (lanes : Z) (signed : list f32 -> list Z -> list f32) (arow : list f32) (wrow : list Z) (k_simd : Z)
    (signed_buf : list f32) : kres (list f32) :=
  for_range 0 (k_simd / lanes) (fun i signed_buf =>
    let ki := i * lanes in
    let* a := slice arow ki (ki + lanes) in
    let* w := slice wrow ki (ki + lanes) in
    write_slice signed_buf ki (signed a w)) signed_buf.

(** One output: the pass, the sequential fold in [k] order, the tail, the scale. The
    buffer of contributions is reused from output to output. *)
Definition simd_cell (lanes : Z) (signed : list f32 -> list Z -> list f32) (n k : Z) (arow : list f32) (weights_i8 : list Z)
    (scales : list f32) (mi ni : Z) (st : list f32 * list f32) : kres (list f32 * list f32) :=
  let '(signed_buf, out) := st in
  let k_simd := k - k mod lanes in
  let* wrow := slice weights_i8 (ni * k) (ni * k + k) in
  let* signed_buf := vector_pass lanes signed arow wrow k_simd signed_buf in
  let acc := foldl f32_add f32_zero signed_buf in
  let* acc := for_range k_simd k (fun kt acc => let* w := idx wrow kt in add_trit acc w (idx arow kt)) acc in
  let* s := idx scales ni in
  let* out := upd out (mi * n + ni) (f32_mul acc s) in
  Ok (signed_buf, out).

Definition simd_mpgemm (lanes : Z) (signed : list f32 -> list Z -> list f32) (act : list f32) (weights : list Trit)
    (scales : list f32) (shape : GemmShape) (out : list f32) : kres (list f32) :=
  let* differ := lengths_differ act weights scales shape out in
  if differ then scalar_mpgemm act weights scales shape out else
  let '(m, n, k) := (gm shape, gn shape, gk shape) in
  let weights_i8 := get <$> weights in
  let* (_, out) := for_range 0 m (fun mi st =>
    let* arow := slice act (mi * k) (mi * k + k) in
    for_range 0 n (simd_cell lanes signed n k arow weights_i8 scales mi) st) (vec f32_zero (k - k mod lanes), out) in
  Ok out.

Definition avx2_mpgemm := simd_mpgemm 8 avx2_signed.
Definition avx512_mpgemm := simd_mpgemm 16 avx512_signed.
Definition neon_mpgemm := simd_mpgemm 4 neon_signed.

(** ** Integer kernels *)

Definition A8_EXACT_K_MAX : Z := 65536.

(** [f32::trunc]. *)
Definition f32_trunc (x : f32) : f32 :=
  match x with
  | S754_finite s m e =>
      if 0 <=? e then x else
      let q := Z.pos m / 2 ^ (- e) in
      if q =? 0 then S754_zero s
      else binary_normalize f32_prec f32_emax (if s then - q else q) 0 s
  | _ => x
  end.

Definition act_is_a8_integer (act : list f32) : bool :=
  forallb (fun v => f32_eqb v (f32_trunc v) && (f32_leb (f32_of_Z (-128)) v && f32_leb v (f32_of_Z 127))) act.

(** [x as i32]: towards zero, saturating, and zero for a NaN. *)
Definition f32_as_i32 (x : f32) : Z :=
  match x with
  | S754_finite s m e =>
      let q := if 0 <=? e then Z.pos m * 2 ^ e else Z.pos m / 2 ^ (- e) in
      Z.max (- 2 ^ 31) (Z.min (2 ^ 31 - 1) (if s then - q else q))
  | S754_infinity s => if s then - 2 ^ 31 else 2 ^ 31 - 1
  | _ => 0
  end.

(** A value in [bits] bits, two's complement; the same bits read as unsigned; a value
    clamped to [bits] bits. *)
Definition wrap (bits x : Z) : Z := (x + 2 ^ (bits - 1)) mod 2 ^ bits - 2 ^ (bits - 1).
Definition as_u8 (x : Z) : Z := x mod 256.
Definition saturate16 (x : Z) : Z := Z.max (-32768) (Z.min 32767 x).

Definition mm256_set1_epi8 (x : Z) : list Z := vec x 32.
Definition mm256_set1_epi16 (x : Z) : list Z := vec x 16.
Definition mm256_setzero_si256 : list Z := vec 0 8.
Definition mm256_add_epi8 : list Z -> list Z -> list Z := zip_with (fun x y => wrap 8 (x + y)).
Definition mm256_add_epi32 : list Z -> list Z -> list Z := zip_with (fun x y => wrap 32 (x + y)).

(** The lanes of the result are made of two neighbouring lanes. *)
Fixpoint pairs2 (f : Z -> Z -> Z) (p : list Z) : list Z :=
  match p with x :: y :: p => f x y :: pairs2 f p | _ => [] end.

(** [u8] times [i8], neighbours added with saturation to 16 bits. *)
Definition mm256_maddubs_epi16 (a b : list Z) : list Z :=
  pairs2 (fun x y => saturate16 (x + y)) (zip_with (fun x y => as_u8 x * y) a b).
Definition mm256_madd_epi16 (a b : list Z) : list Z :=
  pairs2 (fun x y => wrap 32 (x + y)) (zip_with Z.mul a b).

(** [u8] times [i8], four neighbours added to the accumulator. *)
Fixpoint quads (p : list Z) : list Z :=
  match p with x :: y :: z :: t :: p => (x + y + z + t) :: quads p | _ => [] end.
Definition mm256_dpbusd_avx_epi32 (src a b : list Z) : list Z :=
  zip_with (fun s q => wrap 32 (s + q)) src (quads (zip_with (fun x y => as_u8 x * y) a b)).

Definition mm256_extracti128_si256 (imm : Z) (a : list Z) : list Z := sub a (4 * imm) (4 * imm + 4).
Definition mm_add_epi32 : list Z -> list Z -> list Z := zip_with (fun x y => wrap 32 (x + y)).
Definition mm_shuffle_epi32 (imm : Z) (a : list Z) : list Z :=
  tabulate 4 (fun i => nth (Z.to_nat (Z.land (Z.shiftr imm (2 * i)) 3)) a 0).
Definition mm_cvtsi128_si32 (a : list Z) : Z := nth 0 a 0.

(** One register of weights and activations into the accumulator. *)
Definition avx2_a8_step (acc w a : list Z) : list Z :=
  let codes := mm256_add_epi8 w (mm256_set1_epi8 1) in
  let pairs := mm256_maddubs_epi16 codes a in
  mm256_add_epi32 acc (mm256_madd_epi16 pairs (mm256_set1_epi16 1)).
Definition vnni_a8_step (acc w a : list Z) : list Z :=
  let codes := mm256_add_epi8 w (mm256_set1_epi8 1) in
  mm256_dpbusd_avx_epi32 acc codes a.

Definition horizontal_sum (acc : list Z) : Z :=
  let lo := mm256_extracti128_si256 0 acc in
  let hi := mm256_extracti128_si256 1 acc in
  let s128 := mm_add_epi32 lo hi in
  let s64 := mm_add_epi32 s128 (mm_shuffle_epi32 27 s128) in
  let s32 := mm_add_epi32 s64 (mm_shuffle_epi32 78 s64) in
  mm_cvtsi128_si32 s32.

(** [i64] arithmetic. *)
Definition i64 (x : Z) : kres Z := if (- 2 ^ 63 <=? x) && (x <? 2 ^ 63) then Ok x else Panic.

(** The row of activations as [i8], and its sum. *)
Definition quantize_row (q8 : list Z) (arow : list f32) : kres (list Z * Z) :=
  let q8 := zip_update (fun _ v => wrap 8 (f32_as_i32 v)) q8 arow in
  let* row_sum := for_each (take (length arow) q8) (fun q sum => i64 (sum + q)) 0 in
  Ok (q8, row_sum).

Definition a8_cell (step : list Z -> list Z -> list Z -> list Z) (n k : Z) (q8 : list Z) (row_sum : Z) (weights_i8 : list Z)
    (scales : list f32) (mi ni : Z) (out : list f32) : kres (list f32) :=
  let k_simd := k - k mod 32 in
  let* wrow := slice weights_i8 (ni * k) (ni * k + k) in
  let* acc := for_range 0 (k_simd / 32) (fun i acc =>
    let ki := i * 32 in
    let* w := slice wrow ki (ki + 32) in
    let* a := slice q8 ki (ki + 32) in
    Ok (step acc w a)) mm256_setzero_si256 in
  let* total := for_range k_simd k (fun kt total =>
    let* w := idx wrow kt in
    let* q := idx q8 kt in
    let* p := i64 ((w + 1) * q) in
    i64 (total + p)) (horizontal_sum acc) in
  let* signed := i64 (total - row_sum) in
  let* s := idx scales ni in
  upd out (mi * n + ni) (f32_mul (f32_of_Z signed) s).

Definition a8_mpgemm (step : list Z -> list Z -> list Z -> list Z) (act : list f32) (weights : list Trit) (scales : list f32)
    (shape : GemmShape) (out : list f32) : kres (list f32) :=
  let* differ := lengths_differ act weights scales shape out in
  if differ then scalar_mpgemm act weights scales shape out else
  let '(m, n, k) := (gm shape, gn shape, gk shape) in
  let weights_i8 := get <$> weights in
  let* (_, out) := for_range 0 m (fun mi st =>
    let '(q8, out) := st in
    let* arow := slice act (mi * k) (mi * k + k) in
    let* (q8, row_sum) := quantize_row q8 arow in
    let* out := for_range 0 n (a8_cell step n k q8 row_sum weights_i8 scales mi) out in
    Ok (q8, out)) (vec 0 k, out) in
  Ok out.

Definition avx2_mpgemm_a8 := a8_mpgemm avx2_a8_step.
Definition avx2vnni_mpgemm_a8 := a8_mpgemm vnni_a8_step.

(** ** The lookup table *)

Definition LUT_GROUP : Z := 4.

Fixpoint lut_pow3 (g : nat) : Z := match g with O => 1 | S g => lut_pow3 g * 3 end.

Definition group_index (weights : list Trit) : Z :=
  fst (foldl (fun ip w => let '(ix, place) := ip in (ix + (get w + 1) * place, place * 3)) (0, 1) weights).

Definition table_slot (act : list f32) (ix : Z) : f32 :=
  fst (foldl (fun (ar : f32 * Z) a =>
    let '(acc, rem) := ar in
    let digit := rem mod 3 in
    ((if digit =? 0 then f32_sub acc a else if digit =? 2 then f32_add acc a else acc), rem / 3)) (f32_zero, ix) act).

(** [debug_assert_eq!], then the first [3^g] slots. *)
Definition build_group_table (act : list f32) (table : list f32) : kres (list f32) :=
  let n := lut_pow3 (length act) in
  if negb (zlen table =? n) then Panic else
  Ok (imap (fun i slot => if Z.of_nat i <? n then table_slot act (Z.of_nat i) else slot) table).

Definition lut_row_dot (act : list f32) (weights : list Trit) : kres f32 :=
  if negb (zlen act =? zlen weights) then Panic else
  let k := zlen act in
  let g := LUT_GROUP in
  let k_groups := k - k mod g in
  let* (_, acc) := for_range 0 (k_groups / g) (fun i st =>
    let '(table, acc) := st in
    let base := i * g in
    let* act_g := slice act base (base + g) in
    let* w_g := slice weights base (base + g) in
    let* table := build_group_table act_g table in
    let* partial := idx table (group_index w_g) in
    Ok (table, f32_add acc partial)) (vec f32_zero (lut_pow3 4), f32_zero) in
  for_range k_groups k (fun kt acc => let* w := idx weights kt in add_trit acc (get w) (idx act kt)) acc.

Definition lut_mpgemm (act : list f32) (weights : list Trit) (scales : list f32) (shape : GemmShape) (out : list f32)
  : kres (list f32) :=
  let* differ := lengths_differ act weights scales shape out in
  if differ then scalar_mpgemm act weights scales shape out else
  let '(m, n, k) := (gm shape, gn shape, gk shape) in
  for_range 0 m (fun mi out =>
    let* arow := slice act (mi * k) (mi * k + k) in
    for_range 0 n (fun ni out =>
      let* wrow := slice weights (ni * k) (ni * k + k) in
      let* d := lut_row_dot arow wrow in
      let* s := idx scales ni in
      upd out (mi * n + ni) (f32_mul d s)) out) out.

(** ** Dispatch *)

Inductive Arch := X86_64 | AArch64 | OtherArch.

(** What [is_x86_feature_detected!] answers on the host. *)
Record Host := mkHost { arch : Arch; has_avx2 : bool; has_avxvnni : bool; has_avx512f : bool; has_avx512bw : bool; has_avx512vl : bool;
  has_fma : bool }.

Definition run_chunk (host : Host) (act : list f32) (weights : list Trit) (scales : list f32) (shape : GemmShape) (out : list f32)
  : kres (list f32) :=
  match arch host with
  | X86_64 =>
      if has_avx2 host && (gk shape <=? A8_EXACT_K_MAX) && act_is_a8_integer act then
        if has_avxvnni host then avx2vnni_mpgemm_a8 act weights scales shape out
        else avx2_mpgemm_a8 act weights scales shape out
      else if has_avx512f host && has_avx512bw host && has_avx512vl host then avx512_mpgemm act weights scales shape out
      else if has_avx2 host then avx2_mpgemm act weights scales shape out
      else scalar_mpgemm act weights scales shape out
  | AArch64 => neon_mpgemm act weights scales shape out
  | OtherArch => scalar_mpgemm act weights scales shape out
  end.

Definition row_chunk (m n k : Z) : Z :=
  let per_row := Z.max (saturating_mul n k) 1 in
  Z.max 1 (Z.min (65536 / per_row) m).

(** How many pieces of [size] a slice has; a zero size panics. *)
Definition par_chunks {A} (l : list A) (size : Z) : kres Z := if size =? 0 then Panic else Ok (div_ceil (zlen l) size).

Definition chunk_at {A} (l : list A) (size j : Z) : kres (list A) := slice l (j * size) (Z.min (j * size + size) (zlen l)).

(** The task of chunk [j]. *)
Definition chunk_task (host : Host) (act : list f32) (weights : list Trit) (scales : list f32) (n k chunk_rows j : Z) (out : list f32)
  : kres (list f32) :=
  let* out_chunk := chunk_at out (chunk_rows * n) j in
  let* act_chunk := chunk_at act (chunk_rows * k) j in
  let rows := zlen out_chunk / n in
  let* out_chunk := run_chunk host act_chunk weights scales (mkGemmShape rows n k) out_chunk in
  write_slice out (j * (chunk_rows * n)) out_chunk.

(** [order] lists the chunks in the order the thread pool runs them. *)
Definition dispatch_mpgemm (host : Host) (order : Z -> list Z) (act : list f32) (weights : list Trit) (scales : list f32)
    (shape : GemmShape) (out : list f32) : kres (list f32) :=
  let* differ := lengths_differ act weights scales shape out in
  if differ then map_err CoreError (reference_mpgemm act weights scales shape out) else
  let '(m, n, k) := (gm shape, gn shape, gk shape) in
  if (m =? 0) || (n =? 0) then Ok out else
  let chunk_rows := row_chunk m n k in
  let* out_chunks := par_chunks out (chunk_rows * n) in
  let* act_chunks := par_chunks act (chunk_rows * k) in
  for_each (order (Z.min out_chunks act_chunks)) (chunk_task host act weights scales n k chunk_rows) out.
