(* ===== verification/CpuExact.v ===== *)
(** * The CPU kernels compute the reference product

    Each kernel of CpuKernels writes, bit for bit, the product of Reference. The kernels
    over [f32] lanes add the same contributions in the same order: a skipped trit adds
    [+0.0] to a sum that is never [-0.0]. The integer kernels regroup the sum, which is
    exact: every partial sum of at most 65536 products of a trit with an integer of 8
    bits is an integer of at most 24 bits, and no lane wraps or saturates. *)

From Stdlib Require Import ZArith Lia Bool Floats.SpecFloat.
From stdpp Require Import base list numbers.
From S2P Require Import Prelude Core F32 FloatOrder Plane FloatExact Spec Reference CpuKernels.

#[local] Open Scope Z_scope.

(** ** Loops over the outputs, with a scratch buffer *)

Lemma for_range_wrote_st {E A S} (I : S -> Prop) (g : Z -> A) (body : Z -> S * list A -> res E (S * list A)) lo hi a b w st l :
  lo <= hi -> 0 <= w -> b = a + (hi - lo) * w -> I st ->
  (forall i st1 l1, lo <= i < hi -> zlen l1 = zlen l -> I st1 ->
     exists st2 l2, body i (st1, l1) = Ok (st2, l2) /\ I st2 /\
       wrote (interval (a + (i - lo) * w) (a + (i - lo + 1) * w)) g l1 l2) ->
  exists st' l', for_range lo hi body (st, l) = Ok (st', l') /\ I st' /\ wrote (interval a b) g l l'.
Proof.
  intros Hlo Hw -> Hst Hb.
  destruct (for_range_inv (fun i sl => I sl.1 /\ wrote (interval a (a + (i - lo) * w)) g l sl.2) body lo hi (st, l)) as ([st' l'] & Hf & Hi & Hwr).
  - lia.
  - split; [done|]. apply wrote_nothing. intros j Hj. unfold interval. lia.
  - intros i [st1 l1] Hi [HI Hwr]. destruct (Hb i st1 l1 Hi ltac:(apply Hwr) HI) as (st2 & l2 & -> & HI2 & Hwr2).
    eexists. split; [done|]. split; [done|]. apply (wrote_trans _ _ _ _ _ _ _ Hwr Hwr2).
    intros j Hj. unfold interval. nia.
  - exists st', l'. split; [done|]. split; [done|exact Hwr].
Qed.

Lemma wrote_cell {A} (g : Z -> A) l i x : 0 <= i < zlen l -> x = g i -> wrote (interval i (i + 1)) g l (<[Z.to_nat i := x]> l).
Proof. intros Hi ->. by apply wrote_upd. Qed.

Lemma lengths_agree act weights scale_n s out :
  gemm_fits act weights scale_n s out -> lengths_differ act weights scale_n s out = Ok false.
Proof.
  intros [(Hm & Hn & Hk) Ha Hw Hs Ho Hb]. unfold lengths_differ. rewrite !mul_usize_Ok by lia. cbn [bind].
  by rewrite Ha, Hw, Hs, Ho, !Z.eqb_refl.
Qed.

Lemma scalar_exact act weights scale_n s out :
  gemm_fits act weights scale_n s out -> scalar_mpgemm act weights scale_n s out = Ok (product act weights scale_n s).
Proof. intros H. unfold scalar_mpgemm. by rewrite reference_product. Qed.

(** ** The kernels over [f32] lanes *)

Definition is_trit (w : Z) : Prop := -1 <= w <= 1.

Lemma get_trits (l : list Trit) : Forall is_trit (get <$> l).
Proof. apply list.Forall_forall. intros w Hw. apply list_elem_of_fmap in Hw as (t & -> & _). apply get_range. Qed.

(** What the vector pass computes for one lane. *)
Definition contributes (c : Z -> f32 -> f32) : Prop :=
  forall acc w x, settled 24 128 acc = true -> is_trit w -> f32_add acc (c w x) = trit_step acc w x.

Definition sub_contrib (w : Z) (x : f32) : f32 := if w =? -1 then f32_sub f32_zero x else if w =? 1 then x else f32_zero.
Definition opp_contrib (w : Z) (x : f32) : f32 := if w =? -1 then SFopp x else if w =? 1 then x else f32_zero.

Lemma sub_contributes : contributes sub_contrib.
Proof.
  intros acc w x Ha Hw. unfold sub_contrib, trit_step. destruct (Z.eqb_spec w (-1)) as [->|]; cbn [Z.eqb].
  - by apply add_neg.
  - destruct (w =? 1); [done|]. by apply add_zero.
Qed.

Lemma opp_contributes : contributes opp_contrib.
Proof.
  intros acc w x Ha Hw. unfold opp_contrib, trit_step. destruct (Z.eqb_spec w (-1)) as [->|]; cbn [Z.eqb].
  - unfold f32_sub. by rewrite sub_is_add.
  - destruct (w =? 1); [done|]. by apply add_zero.
Qed.

Ltac open_list l := let x := fresh "x" in destruct l as [|x l]; [done|].
Ltac close_list l := destruct l; [|done].

Ltac lanes :=
  change (Z.to_nat 8) with 8%nat; change (Z.to_nat 16) with 16%nat; change (Z.to_nat 4) with 4%nat;
  cbn [replicate zip_with take app fmap list_fmap fst snd].

Lemma avx2_lanes a w : length a = 8%nat -> length w = 8%nat -> Forall is_trit w -> avx2_signed a w = zip_with sub_contrib w a.
Proof.
  intros Ha Hw Ht. do 8 open_list a. close_list a. do 8 open_list w. close_list w.
  repeat match goal with H : Forall _ (_ :: _) |- _ => apply list.Forall_cons in H as [? H] end.
  unfold avx2_signed, mm256_blendv_ps, mm256_castsi256_ps, mm256_cmpeq_epi32, mm256_cvtepi8_epi32, mm_loadl_epi64,
    mm256_set1_epi32, mm256_sub_ps, mm256_setzero_ps, vec. lanes.
  assert (Hl : forall w x, (if (if w =? -1 then -1 else 0) <? 0 then f32_sub f32_zero x else
    if (if w =? 1 then -1 else 0) <? 0 then x else f32_zero) = sub_contrib w x).
  { intros v y. unfold sub_contrib. destruct (v =? -1), (v =? 1); reflexivity. }
  by rewrite !Hl.
Qed.

Lemma avx512_lanes a w : length a = 16%nat -> length w = 16%nat -> Forall is_trit w -> avx512_signed a w = zip_with sub_contrib w a.
Proof.
  intros Ha Hw Ht. do 16 open_list a. close_list a. do 16 open_list w. close_list w.
  repeat match goal with H : Forall _ (_ :: _) |- _ => apply list.Forall_cons in H as [? H] end.
  unfold avx512_signed, mm512_mask_sub_ps, mm512_maskz_mov_ps, mm_cmpgt_epi8_mask, mm_set1_epi8, mm512_setzero_ps, vec. lanes.
  assert (Hl : forall w x, is_trit w -> (if w <? 0 then f32_sub f32_zero x else if 0 <? w then x else f32_zero) = sub_contrib w x).
  { intros v y Hv. unfold sub_contrib, is_trit in *. destruct (Z.ltb_spec v 0), (Z.eqb_spec v (-1)); try lia; [done|].
    destruct (Z.ltb_spec 0 v), (Z.eqb_spec v 1); lia || done. }
  by rewrite !Hl by done.
Qed.

Lemma neon_lanes a w : length a = 4%nat -> length w = 4%nat -> Forall is_trit w -> neon_signed a w = zip_with opp_contrib w a.
Proof.
  intros Ha Hw Ht. do 4 open_list a. close_list a. do 4 open_list w. close_list w.
  repeat match goal with H : Forall _ (_ :: _) |- _ => apply list.Forall_cons in H as [? H] end.
  unfold neon_signed, vbslq_f32, vnegq_f32, vcgtq_s32, vcltq_s32, vdupq_n_f32, vdupq_n_s32, vmovl_s16, vget_low_s16, vmovl_s8.
  change (take 4 (splice (vec 0 8) 0 [x3; x4; x5; x6])) with [x3; x4; x5; x6]. unfold vec. lanes.
  assert (Hl : forall w x, is_trit w -> (if w <? 0 then SFopp x else if 0 <? w then x else f32_zero) = opp_contrib w x).
  { intros v y Hv. unfold opp_contrib, is_trit in *. destruct (Z.ltb_spec v 0), (Z.eqb_spec v (-1)); try lia; [done|].
    destruct (Z.ltb_spec 0 v), (Z.eqb_spec v 1); lia || done. }
  by rewrite !Hl by done.
Qed.

Lemma fold_contrib c ws xs acc :
  contributes c -> settled 24 128 acc = true -> Forall is_trit ws -> Forall valid32 xs -> length ws = length xs ->
  foldl f32_add acc (zip_with c ws xs) = dot_from acc ws xs.
Proof.
  intros Hc Ha Hw Hx. revert acc ws Ha Hw. induction Hx as [|x xs Hx _ IH]; intros acc [|w ws] Ha Hw Hl; try done.
  apply list.Forall_cons in Hw as [Hw Hws]. cbn [zip_with foldl dot_from zip fst snd]. rewrite Hc by done.
  apply IH; [by apply trit_step_settled|done|]. simpl in Hl. lia.
Qed.

(** A kernel body: one contribution per lane. *)
Record lane_kernel (lanes : Z) (signed : list f32 -> list Z -> list f32) (c : Z -> f32 -> f32) : Prop := {
  lk_lanes : 0 < lanes;
  lk_contrib : contributes c;
  lk_signed : forall a w, zlen a = lanes -> zlen w = lanes -> Forall is_trit w -> signed a w = zip_with c w a }.

Lemma avx2_kernel : lane_kernel 8 avx2_signed sub_contrib.
Proof. split; [lia|apply sub_contributes|]. intros a w Ha Hw. apply avx2_lanes; unfold zlen in *; lia. Qed.
Lemma avx512_kernel : lane_kernel 16 avx512_signed sub_contrib.
Proof. split; [lia|apply sub_contributes|]. intros a w Ha Hw. apply avx512_lanes; unfold zlen in *; lia. Qed.
Lemma neon_kernel : lane_kernel 4 neon_signed opp_contrib.
Proof. split; [lia|apply opp_contributes|]. intros a w Ha Hw. apply neon_lanes; unfold zlen in *; lia. Qed.

Section lanes.
Context (lanes : Z) (signed : list f32 -> list Z -> list f32) (c : Z -> f32 -> f32) (K : lane_kernel lanes signed c).

Lemma simd_range k : 0 <= k -> let ks := k - k mod lanes in
  0 <= ks <= k /\ ks = ks / lanes * lanes /\ 0 <= ks / lanes.
Proof.
  intros Hk. pose proof (lk_lanes _ _ _ K) as Hl. cbn zeta. pose proof (Z.mod_pos_bound k lanes Hl). pose proof (Z.mod_le k lanes Hk Hl).
  replace (k - k mod lanes) with (k / lanes * lanes) by (rewrite Z.mod_eq by lia; lia). rewrite Z.div_mul by lia.
  pose proof (Z.div_pos k lanes Hk Hl). rewrite Z.mod_eq in * by lia. nia.
Qed.

Lemma vector_pass_Ok arow wrow k buf :
  0 <= k -> zlen arow = k -> zlen wrow = k -> zlen buf = k - k mod lanes -> Forall is_trit wrow -> Forall valid32 arow ->
  exists buf', vector_pass lanes signed arow wrow (k - k mod lanes) buf = Ok buf' /\ zlen buf' = k - k mod lanes /\
    foldl f32_add f32_zero buf' = dot (sub wrow 0 (k - k mod lanes)) (sub arow 0 (k - k mod lanes)).
Proof.
  intros Hk La Lw Lb Ht Hv. destruct (simd_range k Hk) as (Hks & Hq & Hq0). set (ks := k - k mod lanes) in *. pose proof (lk_lanes _ _ _ K) as Hl.
  unfold vector_pass.
  match goal with |- exists _, for_range 0 _ ?body _ = _ /\ _ =>
    destruct (for_range_inv (fun i b => zlen b = ks /\ foldl f32_add f32_zero (sub b 0 (i * lanes)) = dot (sub wrow 0 (i * lanes)) (sub arow 0 (i * lanes)))
      body 0 (ks / lanes) buf) as (buf' & Hf & Hlen & Hd) end.
  - lia.
  - split; [done|]. by rewrite !sub_empty.
  - intros i b Hi [Hb Hd]. assert (Hki : 0 <= i * lanes /\ i * lanes + lanes <= ks) by nia.
    rewrite !slice_Ok by lia. cbn [bind].
    pose proof (zlen_sub arow (i * lanes) (i * lanes + lanes) ltac:(lia) ltac:(lia) ltac:(lia)) as L1.
    pose proof (zlen_sub wrow (i * lanes) (i * lanes + lanes) ltac:(lia) ltac:(lia) ltac:(lia)) as L2.
    rewrite (lk_signed _ _ _ K) by (lia || by apply Forall_sub).
    set (v := zip_with c _ _). assert (Lv : zlen v = lanes) by (unfold v, zlen in *; rewrite length_zip_with; lia).
    rewrite write_slice_Ok by lia. eexists. split; [done|]. split; [rewrite zlen_splice; lia|].
    replace ((i + 1) * lanes) with (i * lanes + lanes) by lia.
    rewrite <- (sub_join (splice b _ _) 0 (i * lanes)), <- (sub_join wrow 0 (i * lanes)), <- (sub_join arow 0 (i * lanes)) by lia.
    rewrite sub_splice_before, sub_splice_same by lia. rewrite foldl_app, Hd, dot_from_app.
    + apply fold_contrib; [apply K|apply dot_settled; [done|by apply Forall_sub]|by apply Forall_sub|by apply Forall_sub|unfold zlen in *; lia].
    + apply Nat2Z.inj. fold (zlen (sub wrow 0 (i * lanes))) (zlen (sub arow 0 (i * lanes))). rewrite !zlen_sub by lia. lia.
  - exists buf'. split; [done|]. split; [done|]. rewrite <- Hq in Hd. by rewrite sub_all in Hd.
Qed.

Context (act : list f32) (weights : list Trit) (scale_n out0 : list f32) (s : GemmShape).
Context (G : gemm_fits act weights scale_n s out0) (Hact : Forall valid32 act).

Lemma simd_cell_Ok mi ni buf out :
  0 <= mi < gm s -> 0 <= ni < gn s -> zlen out = gm s * gn s -> zlen buf = gk s - gk s mod lanes ->
  exists buf', simd_cell lanes signed (gn s) (gk s) (row act (gk s) mi) (get <$> weights) scale_n mi ni (buf, out) =
    Ok (buf', <[Z.to_nat (mi * gn s + ni) := cell act weights scale_n (gk s) mi ni]> out) /\ zlen buf' = gk s - gk s mod lanes.
Proof.
  intros Hmi Hni Ho Hb. destruct G as [(Hm & Hn & Hk) Ha Hw Hs _ _].
  destruct (simd_range (gk s) Hk) as (Hks & _). unfold simd_cell.
  pose proof (zlen_row act (gm s) (gk s) mi Hk Ha Hmi) as La.
  assert (Hrow : row (get <$> weights) (gk s) ni = get <$> row weights (gk s) ni).
  { unfold row, sub. by rewrite fmap_take, fmap_drop. }
  rewrite (slice_row _ (gn s)) by (rewrite ?zlen_fmap; done || lia). rewrite Hrow. cbn [bind].
  assert (Lw : zlen (get <$> row weights (gk s) ni) = gk s) by (rewrite zlen_fmap; by apply (zlen_row weights (gn s))).
  assert (Hva : Forall valid32 (row act (gk s) mi)) by (by apply Forall_sub).
  destruct (vector_pass_Ok _ _ (gk s) buf Hk La Lw Hb (get_trits _) Hva) as (buf' & -> & Hl' & Hd). cbn [bind].
  rewrite Hd. rewrite (trit_loop (get <$> row weights (gk s) ni) (row act (gk s) mi)); [|lia|lia|lia|].
  2: { intros i acc w x Hi Hw' Hx. rewrite (idx_Ok _ _ w) by (done || lia). cbn [bind]. apply add_trit_Ok, idx_Ok; [lia|done]. }
  cbn [bind]. rewrite <- dot_from_app.
  2: { apply Nat2Z.inj. fold (zlen (sub (get <$> row weights (gk s) ni) 0 (gk s - gk s mod lanes))) (zlen (sub (row act (gk s) mi) 0 (gk s - gk s mod lanes))).
       rewrite !zlen_sub by lia. lia. }
  rewrite !sub_join by lia. rewrite !sub_all by done. rewrite (idx_nth scale_n ni f32_zero) by lia. cbn [bind].
  rewrite upd_Ok by nia. cbn [bind]. by exists buf'.
Qed.

(** A kernel over lanes writes the product. *)
Lemma simd_exact : simd_mpgemm lanes signed act weights scale_n s out0 = Ok (product act weights scale_n s).
Proof.
  unfold simd_mpgemm. rewrite (lengths_agree _ _ _ _ _ G). cbn [bind].
  pose proof G as [(Hm & Hn & Hk) Ha Hw Hs Ho _]. destruct (simd_range (gk s) Hk) as (Hks & _).
  set (g := fun i => cell act weights scale_n (gk s) (i / gn s) (i mod gn s)).
  match goal with |- context [for_range 0 (gm s) ?body ?st] =>
    destruct (for_range_wrote_st (fun buf => zlen buf = gk s - gk s mod lanes) g body 0 (gm s) 0 (gm s * gn s) (gn s)
      (vec f32_zero (gk s - gk s mod lanes)) out0) as (buf & out & Hf & _ & Hwr) end.
  - lia.
  - lia.
  - lia.
  - rewrite zlen_vec. lia.
  - intros mi b1 l1 Hmi Hl1 Hb1. rewrite (slice_row _ (gm s)) by (done || lia). cbn [bind].
    apply (for_range_wrote_st (fun buf => zlen buf = gk s - gk s mod lanes) g _ 0 (gn s) _ _ 1); [lia|lia|lia|done|].
    intros ni b2 l2 Hni Hl2 Hb2. destruct (simd_cell_Ok mi ni b2 l2 Hmi Hni ltac:(lia) Hb2) as (b3 & -> & Hb3).
    eexists _, _. split; [done|]. split; [done|].
    replace (0 + (mi - 0) * gn s + (ni - 0) * 1) with (mi * gn s + ni) by lia.
    replace (0 + (mi - 0) * gn s + (ni - 0 + 1) * 1) with (mi * gn s + ni + 1) by lia.
    apply wrote_cell; [nia|]. unfold g. destruct (row_cell (gn s) mi ni) as [-> ->]; [lia|lia|done].
  - rewrite Hf. cbn [bind]. f_equal. by apply (product_wrote _ _ _ _ out0).
Qed.
End lanes.

(** ** The integer kernels *)

(** An activation the integer kernels accept, with its value. *)
Definition a8 (v : f32) (z : Z) : Prop := -128 <= z <= 127 /\ is_int v z /\ f32_as_i32 v = z.

Lemma leb_signed x y : number 24 128 x = true -> number 24 128 y = true ->
  f32_leb x y = (signed 24 128 x <=? signed 24 128 y).
Proof.
  intros Hx Hy. unfold f32_leb, SFleb. rewrite (compare_signed 24 128 ltac:(lia) ltac:(lia)) by done.
  unfold Z.leb. by destruct (_ ?= _).
Qed.

Lemma eqb_same s m e y : f32_eqb (S754_finite s m e) y = true -> y = S754_finite s m e.
Proof.
  unfold f32_eqb, SFeqb. destruct s, y as [|[]| |[] m' e']; try done; cbn [SFcompare];
    destruct (Z.compare_spec e e'); try done; subst; change (Pos.compare_cont Eq) with Pos.compare;
    destruct (Pos.compare_spec m m'); try done; by subst.
Qed.

(** [z * 2^149] in units. *)
Lemma finite_int s m e : -149 <= e -> 0 <= e \/ Z.pos m mod 2 ^ (- e) = 0 ->
  signed 24 128 (S754_finite s m e) =
  (if s then - (if 0 <=? e then Z.pos m * 2 ^ e else Z.pos m / 2 ^ (- e)) else (if 0 <=? e then Z.pos m * 2 ^ e else Z.pos m / 2 ^ (- e))) * f32_unit.
Proof.
  intros He Hd. unfold signed. cbn [negative val]. change (SpecFloat.emin 24 128) with (-149).
  assert (Hv : Z.pos m * 2 ^ (e - -149) = (if 0 <=? e then Z.pos m * 2 ^ e else Z.pos m / 2 ^ (- e)) * f32_unit).
  { unfold f32_unit. destruct (Z.leb_spec 0 e).
    - replace (e - -149) with (e + 149) by lia. rewrite Z.pow_add_r by lia. lia.
    - destruct Hd as [|Hd]; [lia|]. pose proof (Z.pow_pos_nonneg 2 (- e) ltac:(lia) ltac:(lia)).
      apply (Z.div_exact (Z.pos m) (2 ^ (- e)) ltac:(lia)) in Hd. rewrite Hd at 1.
      replace 149 with ((e - -149) + - e) by lia. rewrite Z.pow_add_r by lia. lia. }
  rewrite Hv. destruct s; lia.
Qed.

Lemma trunc_int s m e : valid32 (S754_finite s m e) ->
  f32_eqb (S754_finite s m e) (f32_trunc (S754_finite s m e)) = true -> 0 <= e \/ Z.pos m mod 2 ^ (- e) = 0.
Proof.
  intros Hv He%eqb_same. cbn [f32_trunc] in He. destruct (Z.leb_spec 0 e); [by left|right].
  set (q := Z.pos m / 2 ^ (- e)) in *. pose proof (Z.pow_pos_nonneg 2 (- e) ltac:(lia) ltac:(lia)) as Hp.
  destruct (Z.eqb_spec q 0); [done|]. assert (Hq : 0 <= q) by (apply Z.div_pos; lia).
  pose proof (valid_finite 24 128 ltac:(lia) s m e Hv) as (He' & Hm & _). change (SpecFloat.emin 24 128) with (-149) in He'.
  assert (Hqm : q <= Z.pos m) by (apply Z.div_le_upper_bound; nia).
  assert (Hsig : signed 24 128 (S754_finite s m e) = (if s then - q else q) * f32_unit).
  { rewrite <- He. assert (Hn : binary_normalize f32_prec f32_emax (if s then - q else q) 0 s = f32_of_Z (if s then - q else q)).
    { unfold f32_of_Z. destruct q as [|p|p]; [done| |lia]. by destruct s. }
    rewrite Hn. apply f32_of_Z_int. destruct s; lia. }
  unfold signed in Hsig. cbn [negative val] in Hsig. change (SpecFloat.emin 24 128) with (-149) in Hsig.
  assert (Hme : Z.pos m * 2 ^ (e - -149) = q * 2 ^ 149) by (unfold f32_unit in Hsig; destruct s; lia).
  assert (Hs : 2 ^ 149 = 2 ^ (e - -149) * 2 ^ (- e)) by (rewrite <- Z.pow_add_r by lia; f_equal; lia). rewrite Hs in Hme.
  pose proof (Z.pow_pos_nonneg 2 (e - -149) ltac:(lia) ltac:(lia)).
  assert (Z.pos m = q * 2 ^ (- e)) as -> by nia. apply Z.mod_mul. lia.
Qed.

Lemma a8_integer v : valid32 v ->
  f32_eqb v (f32_trunc v) && (f32_leb (f32_of_Z (-128)) v && f32_leb v (f32_of_Z 127)) = true -> exists z, a8 v z.
Proof.
  intros Hv H. rewrite !andb_true_iff in H. destruct H as (He & Hlo & Hhi). destruct v as [s|s| |s m e].
  - exists 0. split; [lia|]. split; [|done]. split; [done|]. split; [done|]. by rewrite signed_zero.
  - by destruct s.
  - done.
  - pose proof (trunc_int s m e Hv He) as Hd. pose proof (valid_finite 24 128 ltac:(lia) s m e Hv) as (Hr & _). change (SpecFloat.emin 24 128) with (-149) in Hr.
    pose proof (finite_int s m e ltac:(lia) Hd) as Hs.
    assert (Hn : number 24 128 (S754_finite s m e) = true) by (unfold number; by rewrite Hv).
    rewrite leb_signed in Hlo, Hhi by done. apply Z.leb_le in Hlo, Hhi.
    destruct (f32_of_Z_int (-128) ltac:(lia)) as [(_ & _ & E1) _]. destruct (f32_of_Z_int 127 ltac:(lia)) as [(_ & _ & E2) _].
    rewrite E1, Hs in Hlo. rewrite E2, Hs in Hhi.
    set (z := if s then - _ else _) in *. assert (Hu : 0 < f32_unit) by reflexivity. assert (Hz : -128 <= z <= 127) by nia.
    exists z. split; [done|]. split; [split; [done|split; [done|exact Hs]]|].
    cbn [f32_as_i32]. fold z. change (2 ^ 31) with 2147483648. lia.
Qed.

(** The activations as integers. *)
Lemma a8_values act : Forall valid32 act -> act_is_a8_integer act = true -> exists zs, Forall2 a8 act zs.
Proof.
  unfold act_is_a8_integer. induction 1 as [|v act Hv _ IH]; [by exists []|]. cbn [forallb]. intros [Hb Ha]%andb_true_iff.
  destruct (a8_integer v Hv Hb) as [z Hz]. destruct (IH Ha) as [zs Hzs]. exists (z :: zs). by constructor.
Qed.

Definition wdot (ws zs : list Z) : Z := zsum (zip_with Z.mul ws zs).

Lemma wdot_cons w ws z zs : wdot (w :: ws) (z :: zs) = w * z + wdot ws zs.
Proof. done. Qed.

(** The reference accumulation of integers is the integer sum. *)
Lemma dot_int xs zs ws a :
  Forall2 a8 xs zs -> Forall is_trit ws -> length ws = length xs -> Z.abs a + 128 * zlen xs <= 2 ^ 24 ->
  dot_from (f32_of_Z a) ws xs = f32_of_Z (a + wdot ws zs).
Proof.
  intros H. revert ws a. induction H as [|x z xs zs (Hz & Hx & _) _ IH]; intros [|w ws] a Hw Hl Ha; try done.
  { unfold wdot. simpl. by rewrite Z.add_0_r. }
  apply list.Forall_cons in Hw as [Hw Hws]. rewrite zlen_cons in Ha. pose proof (zlen_nonneg xs).
  rewrite wdot_cons. cbn [dot_from zip zip_with foldl fst snd].
  assert (Hst : trit_step (f32_of_Z a) w x = f32_of_Z (a + w * z)).
  { unfold trit_step, is_trit in *. destruct (Z.eqb_spec w 1) as [->|].
    - rewrite (f32_add_int a x z) by (done || lia). by rewrite Z.mul_1_l.
    - destruct (Z.eqb_spec w (-1)) as [->|].
      + rewrite (f32_sub_int a x z) by (done || lia). by replace (a - z) with (a + -1 * z) by lia.
      + replace w with 0 by lia. by rewrite Z.mul_0_l, Z.add_0_r. }
  rewrite Hst. unfold dot_from in IH. rewrite IH; [|done|simpl in Hl; lia|unfold is_trit in Hw; nia].
  by rewrite Z.add_assoc.
Qed.

(** *** Registers *)

Lemma wrap_id bits x : 0 < bits -> - 2 ^ (bits - 1) <= x < 2 ^ (bits - 1) -> wrap bits x = x.
Proof.
  intros Hb Hx. unfold wrap. assert (2 ^ bits = 2 * 2 ^ (bits - 1)) by (rewrite <- Z.pow_succ_r by lia; f_equal; lia).
  rewrite Z.mod_small by lia. lia.
Qed.

Lemma wrap32_id x : Z.abs x < 2 ^ 31 -> wrap 32 x = x.
Proof. intros Hx. apply wrap_id; [lia|]. change (32 - 1) with 31. lia. Qed.

(** The products of the codes with the activations. *)
Definition code_products (w a : list Z) : list Z := zip_with (fun w a => (w + 1) * a) w a.
Definition is_i8 (z : Z) : Prop := -128 <= z <= 127.

Lemma code_products_bound w a : Forall is_trit w -> Forall is_i8 a -> Forall (fun p => Z.abs p <= 256) (code_products w a).
Proof.
  intros Hw. revert a. induction Hw as [|x w Hx _ IH]; intros a Ha; [constructor|]. destruct Ha as [|y a Hy Ha]; [constructor|].
  constructor; [unfold is_trit, is_i8 in *; nia|by apply IH].
Qed.

Lemma codes_u8 w a : length w = 32%nat -> Forall is_trit w ->
  zip_with (fun x y => as_u8 x * y) (mm256_add_epi8 w (mm256_set1_epi8 1)) a = code_products w a.
Proof.
  intros Hl Hw. unfold mm256_add_epi8, mm256_set1_epi8, vec. rewrite zip_with_replicate_r by (rewrite Hl; done).
  rewrite zip_with_fmap_l. unfold code_products. clear Hl. revert a. induction Hw as [|x w Hx _ IH]; intros [|y a]; try done.
  cbn [zip_with]. rewrite IH. f_equal. f_equal. unfold is_trit in Hx. unfold flip. rewrite wrap_id by (simpl; lia). unfold as_u8. apply Z.mod_small. lia.
Qed.

(** Induction four lanes at a time. *)
Lemma quads_ind (P : list Z -> Prop) :
  P [] -> (forall x y z t l, P l -> P (x :: y :: z :: t :: l)) -> forall l n, length l = (4 * n)%nat -> P l.
Proof.
  intros H0 HS l n. revert l. induction n as [|n IH]; intros l Hl.
  - by destruct l.
  - do 4 (destruct l as [|? l]; [simpl in Hl; lia|]). apply HS, IH. simpl in Hl. lia.
Qed.

Lemma quads_sum l n : length l = (4 * n)%nat -> zsum (quads l) = zsum l.
Proof. revert n. intros n Hl. revert Hl. apply (quads_ind (fun l => zsum (quads l) = zsum l)); [done|]. intros x y z t k IH. simpl in *. lia. Qed.

Lemma quads_length l n : length l = (4 * n)%nat -> length (quads l) = n.
Proof.
  revert l. induction n as [|n IH]; intros l Hl; [by destruct l|].
  do 4 (destruct l as [|? l]; [simpl in Hl; lia|]). simpl in *. f_equal. apply IH. lia.
Qed.

Lemma quads_bound l n : length l = (4 * n)%nat -> Forall (fun p => Z.abs p <= 256) l -> Forall (fun q => Z.abs q <= 1024) (quads l).
Proof.
  intros Hl. revert Hl. apply (quads_ind (fun l => Forall (fun p => Z.abs p <= 256) l -> Forall (fun q => Z.abs q <= 1024) (quads l))); [constructor|].
  intros x y z t k IH H. repeat (apply list.Forall_cons in H as [? H]). simpl. constructor; [lia|by apply IH].
Qed.

(** Two rounds of pairs, with saturation and wrap-around, are the quads. *)
Lemma pairs_quads l n : length l = (4 * n)%nat -> Forall (fun p => Z.abs p <= 256) l ->
  pairs2 (fun x y => wrap 32 (x + y)) ((fun x => x * 1) <$> pairs2 (fun x y => saturate16 (x + y)) l) = quads l.
Proof.
  intros Hl. revert Hl. apply (quads_ind (fun l => Forall (fun p => Z.abs p <= 256) l ->
    pairs2 (fun x y => wrap 32 (x + y)) ((fun x => x * 1) <$> pairs2 (fun x y => saturate16 (x + y)) l) = quads l)); [done|].
  intros x y z t k IH H. repeat (apply list.Forall_cons in H as [? H]). cbn [pairs2 fmap list_fmap quads]. rewrite IH by done. f_equal.
  unfold saturate16. rewrite !Z.min_r, !Z.max_r, !Z.mul_1_r by lia. rewrite wrap32_id by lia. lia.
Qed.

Lemma pairs2_length f l n : length l = (2 * n)%nat -> length (pairs2 f l) = n.
Proof.
  revert l. induction n as [|n IH]; intros l Hl; [by destruct l|].
  do 2 (destruct l as [|? l]; [simpl in Hl; lia|]). simpl in *. f_equal. apply IH. lia.
Qed.

(** What one register adds: the accumulator's lanes grow by the quads. *)
Definition a8_step_spec (step : list Z -> list Z -> list Z -> list Z) : Prop :=
  forall acc w a, length acc = 8%nat -> length w = 32%nat -> length a = 32%nat -> Forall is_trit w -> Forall is_i8 a ->
    step acc w a = zip_with (fun x q => wrap 32 (x + q)) acc (quads (code_products w a)).

Lemma vnni_step_spec : a8_step_spec vnni_a8_step.
Proof. intros acc w a Hacc Hw Ha Ht Hi. unfold vnni_a8_step, mm256_dpbusd_avx_epi32. by rewrite codes_u8. Qed.

Lemma avx2_step_spec : a8_step_spec avx2_a8_step.
Proof.
  intros acc w a Hacc Hw Ha Ht Hi. unfold avx2_a8_step, mm256_add_epi32, mm256_madd_epi16, mm256_maddubs_epi16. rewrite codes_u8 by done.
  assert (Hl : length (code_products w a) = (4 * 8)%nat) by (unfold code_products; rewrite length_zip_with; lia).
  f_equal. unfold mm256_set1_epi16, vec. rewrite zip_with_replicate_r by (rewrite (pairs2_length _ _ 16); [done|lia]).
  rewrite (pairs_quads _ 8); [done|done|by apply code_products_bound].
Qed.

Lemma lane_sums acc qs B :
  length acc = length qs -> Forall (fun x => Z.abs x <= B) acc -> Forall (fun q => Z.abs q <= 1024) qs -> B + 1024 < 2 ^ 31 ->
  let r := zip_with (fun x q => wrap 32 (x + q)) acc qs in
  zsum r = zsum acc + zsum qs /\ Forall (fun x => Z.abs x <= B + 1024) r.
Proof.
  intros Hl Ha Hq HB. cbn zeta. revert qs Hl Hq. induction Ha as [|x acc Hx _ IH]; intros [|q qs] Hl Hq; try done.
  apply list.Forall_cons in Hq as [Hq Hqs]. destruct (IH qs) as [Hs Hf]; [simpl in Hl; lia|done|].
  cbn [zip_with]. rewrite wrap32_id by lia. split; [simpl in *; lia|]. constructor; [lia|done].
Qed.

Lemma horizontal_sum_Ok acc : length acc = 8%nat -> Forall (fun x => Z.abs x <= 2 ^ 28 - 1) acc -> horizontal_sum acc = zsum acc.
Proof.
  intros Hl H. do 8 open_list acc. close_list acc. repeat (apply list.Forall_cons in H as [? H]).
  assert (H27 : forall a b c d, mm_shuffle_epi32 27 [a; b; c; d] = [d; c; b; a]) by reflexivity.
  assert (H78 : forall a b c d, mm_shuffle_epi32 78 [a; b; c; d] = [c; d; a; b]) by reflexivity.
  unfold horizontal_sum, mm_cvtsi128_si32, mm_add_epi32, mm256_extracti128_si256.
  change (sub [x; x0; x1; x2; x3; x4; x5; x6] (4 * 0) (4 * 0 + 4)) with [x; x0; x1; x2].
  change (sub [x; x0; x1; x2; x3; x4; x5; x6] (4 * 1) (4 * 1 + 4)) with [x3; x4; x5; x6].
  cbn [zip_with]. rewrite (wrap32_id (x + x3)), (wrap32_id (x0 + x4)), (wrap32_id (x1 + x5)), (wrap32_id (x2 + x6)) by lia.
  rewrite H27. cbn [zip_with]. rewrite H78. cbn [zip_with nth zsum foldr]. rewrite !wrap32_id by (rewrite ?wrap32_id by lia; lia). lia.
Qed.

(** *** Sums over a row *)

Lemma code_products_app w w' a a' : length w = length a ->
  code_products (w ++ w') (a ++ a') = code_products w a ++ code_products w' a'.
Proof. intros Hl. unfold code_products. by rewrite zip_with_app. Qed.

Lemma code_products_length w a : length w = length a -> length (code_products w a) = length a.
Proof. intros Hl. unfold code_products. rewrite length_zip_with. lia. Qed.

Lemma zsum_abs l B : Forall (fun x => Z.abs x <= B) l -> Z.abs (zsum l) <= B * zlen l.
Proof. induction 1 as [|x l Hx _ IH]; [unfold zlen; simpl; lia|]. rewrite zlen_cons. simpl in *. lia. Qed.

Lemma code_sum w a : length w = length a -> zsum (code_products w a) - zsum a = wdot w a.
Proof.
  revert a. induction w as [|x w IH]; intros [|y a] Hl; try done. specialize (IH a ltac:(simpl in Hl; lia)).
  rewrite wdot_cons. unfold code_products in *. simpl in *. lia.
Qed.

Lemma i64_Ok x : Z.abs x < 2 ^ 62 -> i64 x = Ok x.
Proof. intros Hx. unfold i64. by replace ((- 2 ^ 63 <=? x) && (x <? 2 ^ 63)) with true by lia. Qed.

Lemma quantize_row_Ok q8 arow zs :
  Forall2 a8 arow zs -> length q8 = length arow -> zlen arow <= 65536 -> quantize_row q8 arow = Ok (zs, zsum zs).
Proof.
  intros H Hl Hk. unfold quantize_row.
  assert (Hz : zip_update (fun _ v => wrap 8 (f32_as_i32 v)) q8 arow = zs).
  { clear Hk. revert q8 Hl. induction H as [|v z arow zs (Hz & _ & Hi) _ IH]; intros [|q q8] Hl; try done.
    cbn [zip_update]. rewrite IH by (simpl in Hl; lia). by rewrite Hi, wrap_id by (simpl; lia). }
  rewrite Hz. pose proof (Forall2_length H) as Hlz. rewrite take_ge by lia.
  assert (Hb : Forall (fun z => Z.abs z <= 128) zs) by (clear - H; induction H as [|v z ? ? (Hz & _) ? IH]; constructor; [lia|done]).
  destruct (for_each_inv (E := BackendError) (fun pre s => s = zsum pre) (fun q sum => i64 (sum + q)) zs 0) as (s & -> & ->).
  - done.
  - intros pre x post s -> ->. apply Forall_app in Hb as [Hp Hx]. apply list.Forall_cons in Hx as [Hx _].
    pose proof (zsum_abs pre 128 Hp) as Hs. unfold zlen in *. rewrite length_app in Hlz. simpl in Hlz.
    rewrite i64_Ok by lia. eexists. split; [done|]. rewrite zsum_app. simpl. lia.
  - done.
Qed.

Section a8.
Context (step : list Z -> list Z -> list Z -> list Z) (Hstep : a8_step_spec step).

Lemma a8_cell_Ok act weights scale_n s out0 mi ni out zs :
  gemm_fits act weights scale_n s out0 -> 0 <= mi < gm s -> 0 <= ni < gn s -> zlen out = gm s * gn s -> gk s <= 65536 ->
  Forall2 a8 (row act (gk s) mi) zs ->
  a8_cell step (gn s) (gk s) zs (zsum zs) (get <$> weights) scale_n mi ni out =
  Ok (<[Z.to_nat (mi * gn s + ni) := cell act weights scale_n (gk s) mi ni]> out).
Proof.
  intros [(Hm & Hn & Hk) Ha Hw Hs _ _] Hmi Hni Ho Hk8 Hz. unfold a8_cell.
  assert (Hrow : row (get <$> weights) (gk s) ni = get <$> row weights (gk s) ni).
  { unfold row, sub. by rewrite fmap_take, fmap_drop. }
  rewrite (slice_row _ (gn s)) by (rewrite ?zlen_fmap; done || lia). rewrite Hrow. cbn [bind].
  pose proof (zlen_row act (gm s) (gk s) mi Hk Ha Hmi) as La.
  set (k := gk s) in *. set (ws := get <$> row weights k ni).
  assert (Lw : zlen ws = k) by (unfold ws; rewrite zlen_fmap; by apply (zlen_row weights (gn s))).
  assert (Lz : zlen zs = k) by (unfold zlen in *; rewrite <- (Forall2_length Hz); done).
  assert (Ht : Forall is_trit ws) by apply get_trits.
  assert (Hi8 : Forall is_i8 zs) by (clear - Hz; induction Hz as [|v z ? ? (Hz & _) ? IH]; constructor; done).
  pose proof (Z.mod_pos_bound k 32 ltac:(lia)) as Hmod. pose proof (Z.mod_le k 32 Hk ltac:(lia)) as Hmle.
  assert (Hks : k - k mod 32 = (k - k mod 32) / 32 * 32).
  { replace (k - k mod 32) with (k / 32 * 32) by (rewrite Z.mod_eq by lia; lia). by rewrite Z.div_mul by lia. }
  set (ks := k - k mod 32) in *.
  set (csum := fun i => zsum (code_products (sub ws 0 i) (sub zs 0 i))).
  assert (Hcs : forall a b, 0 <= a <= b -> b <= k -> csum b = csum a + zsum (code_products (sub ws a b) (sub zs a b))).
  { intros a b Hab Hb. unfold csum. rewrite <- (sub_join ws 0 a b), <- (sub_join zs 0 a b) by lia.
    rewrite code_products_app, zsum_app; [done|]. apply Nat2Z.inj. fold (zlen (sub ws 0 a)) (zlen (sub zs 0 a)). rewrite !zlen_sub by lia. lia. }
  assert (Hcb : forall i, 0 <= i <= k -> Z.abs (csum i) <= 256 * i).
  { intros i Hi. unfold csum. etransitivity; [apply (zsum_abs _ 256), code_products_bound; by apply Forall_sub|].
    assert (zlen (code_products (sub ws 0 i) (sub zs 0 i)) = i); [|lia]. unfold code_products, zlen. rewrite length_zip_with.
    pose proof (zlen_sub ws 0 i). pose proof (zlen_sub zs 0 i). unfold zlen in *. lia. }
  assert (Hacc : exists acc, for_range (E := BackendError) 0 (ks / 32) (fun i acc =>
      let* w := slice ws (i * 32) (i * 32 + 32) in let* a := slice zs (i * 32) (i * 32 + 32) in Ok (step acc w a)) mm256_setzero_si256 = Ok acc /\
      horizontal_sum acc = csum ks).
  { match goal with |- context [for_range 0 _ ?body ?st] =>
      destruct (for_range_inv (fun i acc => length acc = 8%nat /\ Forall (fun x => Z.abs x <= 1024 * i) acc /\ zsum acc = csum (i * 32)) body 0 (ks / 32) st)
        as (acc & Hf & Hl & Hb & Hsum) end.
    - lia.
    - split; [done|]. split; [by repeat constructor|]. unfold csum. by rewrite !sub_empty.
    - intros i acc Hi (Hl & Hb & Hsum). assert (Hin : i * 32 + 32 <= ks) by lia. rewrite !slice_Ok by lia. cbn [bind].
      pose proof (zlen_sub ws (i * 32) (i * 32 + 32) ltac:(lia) ltac:(lia) ltac:(lia)) as L1.
      pose proof (zlen_sub zs (i * 32) (i * 32 + 32) ltac:(lia) ltac:(lia) ltac:(lia)) as L2.
      set (w := sub ws (i * 32) (i * 32 + 32)) in *. set (a := sub zs (i * 32) (i * 32 + 32)) in *.
      assert (Hlw : length w = 32%nat) by (unfold zlen in L1; lia). assert (Hla : length a = 32%nat) by (unfold zlen in L2; lia).
      assert (Hwt : Forall is_trit w) by (by apply Forall_sub). assert (Hai : Forall is_i8 a) by (by apply Forall_sub).
      rewrite Hstep by done. pose proof (code_products_length w a ltac:(lia)) as Hlp.
      destruct (lane_sums acc (quads (code_products w a)) (1024 * i)) as [Hs1 Hf1].
      { rewrite (quads_length _ 8); lia. } { done. } { apply (quads_bound _ 8); [lia|by apply code_products_bound]. } { lia. }
      eexists. split; [done|]. split; [rewrite length_zip_with, (quads_length _ 8); lia|]. split; [by replace (1024 * (i + 1)) with (1024 * i + 1024) by lia|].
      rewrite Hs1, Hsum, (quads_sum _ 8) by lia. replace ((i + 1) * 32) with (i * 32 + 32) by lia. symmetry. apply Hcs; lia.
    - exists acc. split; [exact Hf|]. rewrite <- Hks in Hsum. rewrite <- Hsum. apply horizontal_sum_Ok; [done|].
      eapply list.Forall_impl; [exact Hb|]. intros x Hx. simpl in Hx. lia. }
  destruct Hacc as (acc & -> & Hh). cbn [bind]. rewrite Hh.
  match goal with |- context [for_range ks k ?body ?st] =>
    destruct (for_range_inv (fun i t => t = csum i) body ks k st) as (total & -> & ->) end.
  - lia.
  - done.
  - intros i t Hi ->. destruct (lookup_Z ws i ltac:(lia)) as [w Hwi]. destruct (lookup_Z zs i ltac:(lia)) as [z Hzi].
    rewrite (idx_Ok _ _ w), (idx_Ok _ _ z) by (done || lia). cbn [bind].
    pose proof (Forall_lookup_1 _ _ _ _ Ht Hwi) as Hwt. pose proof (Forall_lookup_1 _ _ _ _ Hi8 Hzi) as Hz8. unfold is_trit, is_i8 in Hwt, Hz8.
    pose proof (Hcb i ltac:(lia)). rewrite i64_Ok by nia. cbn [bind]. rewrite i64_Ok by nia. eexists. split; [done|].
    rewrite (Hcs i (i + 1)) by lia. rewrite (sub_snoc ws i i w), (sub_snoc zs i i z) by (done || lia). rewrite !sub_empty. cbn [app].
    unfold code_products. simpl. lia.
  - cbn [bind]. assert (Hfin : csum k - zsum zs = wdot ws zs).
    { unfold csum. rewrite !sub_all by done. apply code_sum. unfold zlen in *. lia. }
    pose proof (Hcb k ltac:(lia)). assert (Z.abs (zsum zs) <= 128 * k).
    { rewrite <- Lz. apply zsum_abs. eapply list.Forall_impl; [exact Hi8|]. unfold is_i8. lia. }
    rewrite i64_Ok by lia. cbn [bind]. rewrite (idx_nth scale_n ni f32_zero) by lia. cbn [bind]. rewrite upd_Ok by nia. cbn [bind].
    do 3 f_equal. unfold cell. f_equal. rewrite Hfin. change f32_zero with (f32_of_Z 0).
    fold ws. rewrite (dot_int _ zs ws 0 Hz Ht); [done|apply Nat2Z.inj; unfold zlen in *; lia|rewrite La; change (2 ^ 24) with 16777216; lia].
Qed.

(** An integer kernel writes the product. *)
Lemma a8_exact act weights scale_n s out :
  gemm_fits act weights scale_n s out -> Forall valid32 act -> act_is_a8_integer act = true -> gk s <= A8_EXACT_K_MAX ->
  a8_mpgemm step act weights scale_n s out = Ok (product act weights scale_n s).
Proof.
  intros G Hv Ha8 Hk8. unfold a8_mpgemm. rewrite (lengths_agree _ _ _ _ _ G). cbn [bind].
  pose proof G as [(Hm & Hn & Hk) Ha Hw Hs Ho _]. destruct (a8_values act Hv Ha8) as [zs Hzs].
  set (g := fun i => cell act weights scale_n (gk s) (i / gn s) (i mod gn s)).
  match goal with |- context [for_range 0 (gm s) ?body ?st] =>
    destruct (for_range_wrote_st (fun q => zlen q = gk s) g body 0 (gm s) 0 (gm s * gn s) (gn s) (vec 0 (gk s)) out) as (q & out' & Hf & _ & Hwr) end.
  - lia.
  - lia.
  - lia.
  - rewrite zlen_vec. lia.
  - intros mi q1 l1 Hmi Hl1 Hq1. rewrite (slice_row _ (gm s)) by (done || lia). cbn [bind].
    assert (Hz : Forall2 a8 (row act (gk s) mi) (row zs (gk s) mi)) by (unfold row, sub; by apply Forall2_take, Forall2_drop).
    pose proof (zlen_row act (gm s) (gk s) mi Hk Ha Hmi) as La. unfold A8_EXACT_K_MAX in Hk8.
    rewrite (quantize_row_Ok q1 _ _ Hz) by (unfold zlen in *; lia). cbn [bind].
    match goal with |- context [for_range 0 (gn s) ?body l1] =>
      destruct (for_range_wrote g body 0 (gn s) (mi * gn s) (mi * gn s + gn s) 1 l1) as (l2 & -> & Hwr) end; [lia|lia|lia| |].
    { intros ni l2 Hni Hl2. rewrite (a8_cell_Ok act weights scale_n s out mi ni l2 _ G Hmi Hni ltac:(lia) Hk8 Hz). eexists. split; [done|].
      replace (mi * gn s + (ni - 0) * 1) with (mi * gn s + ni) by lia. replace (mi * gn s + (ni - 0 + 1) * 1) with (mi * gn s + ni + 1) by lia.
      apply wrote_cell; [nia|]. unfold g. destruct (row_cell (gn s) mi ni) as [-> ->]; [lia|lia|done]. }
    cbn [bind]. eexists _, _. split; [done|]. split.
    + pose proof (Forall2_length Hz). unfold zlen in *. lia.
    + by replace (0 + (mi - 0) * gn s) with (mi * gn s) by lia; replace (0 + (mi - 0 + 1) * gn s) with (mi * gn s + gn s) by lia.
  - rewrite Hf. cbn [bind]. f_equal. by apply (product_wrote _ _ _ _ out).
Qed.
End a8.

(** ** Dispatch *)

Lemma run_chunk_exact host act weights scale_n s out :
  gemm_fits act weights scale_n s out -> Forall valid32 act ->
  run_chunk host act weights scale_n s out = Ok (product act weights scale_n s).
Proof.
  intros G Hv. unfold run_chunk.
  destruct (arch host); [|apply (simd_exact _ _ _ neon_kernel); done|by apply scalar_exact].
  destruct (_ && _ && _) eqn:Ha.
  - rewrite !andb_true_iff in Ha. destruct Ha as ((_ & Hk) & Ha8). apply Z.leb_le in Hk.
    destruct (has_avxvnni host); [apply (a8_exact _ vnni_step_spec)|apply (a8_exact _ avx2_step_spec)]; done.
  - clear Ha. destruct (_ && _ && _); [apply (simd_exact _ _ _ avx512_kernel); done|].
    destruct (has_avx2 host); [apply (simd_exact _ _ _ avx2_kernel); done|by apply scalar_exact].
Qed.

Lemma row_sub {A} (l : list A) k a b i : 0 <= k -> 0 <= a -> 0 <= i -> a + i + 1 <= b -> row (sub l (a * k) (b * k)) k i = row l k (a + i).
Proof. intros Hk Ha Hi Hb. unfold row. rewrite sub_sub by nia. f_equal; lia. Qed.

(** Rows [a] to [b] of the product are the product of those rows. *)
Lemma product_rows act weights scale_n m n k a b i :
  0 <= k -> 0 < n -> 0 <= a <= b -> 0 <= i < (b - a) * n ->
  product (sub act (a * k) (b * k)) weights scale_n (mkGemmShape (b - a) n k) !! Z.to_nat i =
  product act weights scale_n (mkGemmShape m n k) !! Z.to_nat (a * n + i) \/ b > m.
Proof.
  intros Hk Hn Hab Hi. destruct (Z.le_gt_cases b m) as [Hb|]; [left|by right; lia]. unfold product. cbn [gm gn gk].
  rewrite !lookup_tabulate by nia. f_equal. unfold cell. pose proof (Z.mod_pos_bound i n Hn). pose proof (Z.div_pos i n ltac:(lia) Hn).
  assert (i / n < b - a) by (apply Z.div_lt_upper_bound; lia).
  replace ((a * n + i) / n) with (a + i / n) by (by rewrite Z.div_add_l by lia).
  replace ((a * n + i) mod n) with (i mod n) by (by rewrite (Z.add_comm (a * n)), Z.mod_add by lia).
  rewrite row_sub by lia. done.
Qed.

Section dispatch.
Context (host : Host) (act : list f32) (weights : list Trit) (scale_n out0 : list f32) (s : GemmShape).
Context (G : gemm_fits act weights scale_n s out0) (Hact : Forall valid32 act).
Context (Hm : 0 < gm s) (Hn : 0 < gn s) (Hk : 0 < gk s).

Let m := gm s.
Let n := gn s.
Let k := gk s.
Let c := row_chunk m n k.

Lemma row_chunk_pos : 1 <= c.
Proof. unfold c, row_chunk. lia. Qed.

Definition chunk_value (i : Z) : f32 := cell act weights scale_n k (i / n) (i mod n).

Lemma chunk_task_Ok j out :
  0 <= j < div_ceil m c -> zlen out = m * n ->
  exists out', chunk_task host act weights scale_n n k c j out = Ok out' /\
    wrote (interval (j * (c * n)) (Z.min (j * (c * n) + c * n) (m * n))) chunk_value out out'.
Proof.
  intros Hj Ho. pose proof row_chunk_pos as Hc. destruct G as [_ Ha Hw Hs Ho0 (Ba & Bw & Bo)].
  fold m n k in Ha, Hw, Hs, Hm, Hn, Hk, Ho0.
  pose proof (div_ceil_bounds m c ltac:(lia)) as Hd.
  assert (Hjm : j * c < m) by nia. set (b := Z.min (j * c + c) m).
  assert (Hb : j * c < b <= m) by lia.
  unfold chunk_task, chunk_at. rewrite Ho, Ha.
  replace (j * (c * n)) with (j * c * n) by lia. replace (j * (c * k)) with (j * c * k) by lia.
  replace (Z.min (j * c * n + c * n) (m * n)) with (b * n) by (unfold b; rewrite <- Z.mul_add_distr_r, Z.mul_min_distr_nonneg_r; lia).
  replace (Z.min (j * c * k + c * k) (m * k)) with (b * k) by (unfold b; rewrite <- Z.mul_add_distr_r, Z.mul_min_distr_nonneg_r; lia).
  rewrite !slice_Ok by nia. cbn [bind].
  assert (Lo : zlen (sub out (j * c * n) (b * n)) = (b - j * c) * n) by (rewrite zlen_sub by nia; lia).
  rewrite Lo, Z.div_mul by lia.
  rewrite run_chunk_exact; [|split; cbn [gm gn gk]; try done; try lia|by apply Forall_sub].
  2: { rewrite zlen_sub by nia. lia. }
  2: { split; [rewrite zlen_sub by nia; nia|]. split; [done|]. rewrite Lo. assert ((b - j * c) * n <= m * n) by nia. lia. }
  cbn [bind]. assert (Lp : zlen (product (sub act (j * c * k) (b * k)) weights scale_n (mkGemmShape (b - j * c) n k)) = (b - j * c) * n).
  { unfold product. cbn [gm gn]. rewrite zlen_tabulate. nia. }
  rewrite write_slice_Ok by nia. eexists. split; [done|].
  replace (b * n) with (j * c * n + zlen (product (sub act (j * c * k) (b * k)) weights scale_n (mkGemmShape (b - j * c) n k))) by lia.
  apply wrote_splice; [nia|nia|]. intros i Hi. rewrite Lp in Hi.
  destruct (product_rows act weights scale_n m n k (j * c) b i) as [->|]; [lia|lia|nia|lia| |lia].
  unfold product. cbn [gm gn gk]. rewrite lookup_tabulate by nia. done.
Qed.

(** Whatever order the chunks run in, the product is written. *)
Lemma chunks_exact order :
  Permutation order (seqZ 0 (div_ceil m c)) ->
  for_each order (chunk_task host act weights scale_n n k c) out0 = Ok (product act weights scale_n s).
Proof.
  intros Hp. pose proof row_chunk_pos as Hc. pose proof (gf_out _ _ _ _ _ G) as Ho. fold m n in Ho, Hm, Hn.
  pose proof (div_ceil_bounds m c ltac:(lia)) as Hd.
  assert (Hin : forall j, j ∈ order -> 0 <= j < div_ceil m c).
  { intros j Hj. rewrite Hp in Hj. apply elem_of_seqZ in Hj. lia. }
  set (D := fun (l : list Z) i => existsb (fun j => interval (j * (c * n)) (Z.min (j * (c * n) + c * n) (m * n)) i) l).
  destruct (for_each_inv (fun pre out => wrote (D pre) chunk_value out0 out) (chunk_task host act weights scale_n n k c) order out0) as (out & Hf & Hwr).
  - by apply wrote_nothing.
  - intros pre j post out -> Hpre. destruct (chunk_task_Ok j out) as (out' & -> & Hj).
    { apply Hin, elem_of_app. right. apply elem_of_cons. by left. } { by rewrite (proj1 Hpre). }
    exists out'. split; [done|]. apply (wrote_trans _ _ _ _ _ _ _ Hpre Hj). intros i Hi. unfold D. rewrite existsb_app. simpl. by rewrite orb_false_r.
  - rewrite Hf. f_equal. apply (wrote_full _ _ _ _ (m * n) Hwr Ho). intros i Hi. unfold D. apply existsb_exists.
    assert (Hcn : 0 < c * n) by nia. pose proof (Z.div_mod i (c * n) ltac:(lia)) as Hdm. pose proof (Z.mod_pos_bound i (c * n) Hcn).
    exists (i / (c * n)). split; [|unfold interval; nia].
    apply list_elem_of_In. rewrite Hp. apply elem_of_seqZ. split; [apply Z.div_pos; lia|].
    assert (i / (c * n) < div_ceil m c); [|lia]. apply Z.div_lt_upper_bound; [lia|]. nia.
Qed.
End dispatch.

(** The chunks of the two buffers correspond. *)
Lemma chunk_counts act weights scale_n s out :
  gemm_fits act weights scale_n s out -> 0 < gm s -> 0 < gn s -> 0 < gk s ->
  let c := row_chunk (gm s) (gn s) (gk s) in
  par_chunks out (c * gn s) = Ok (div_ceil (gm s) c) /\ par_chunks act (c * gk s) = Ok (div_ceil (gm s) c).
Proof.
  intros [_ Ha _ _ Ho _] Hm Hn Hk. cbn zeta. pose proof (row_chunk_pos s) as Hc. cbn zeta in Hc. set (c := row_chunk _ _ _) in *.
  assert (Hdiv : forall w, 0 < w -> div_ceil (gm s * w) (c * w) = div_ceil (gm s) c).
  { intros w Hw. unfold div_ceil. replace (gm s * w + (c * w - 1)) with ((gm s + (c - 1)) * w + (w - 1)) by lia.
    rewrite (Z.mul_comm c w), <- Z.div_div, Z.div_add_l by lia. by rewrite (Z.div_small (w - 1)), Z.add_0_r by lia. }
  unfold par_chunks. rewrite Ha, Ho, !Hdiv by lia. by replace (c * gn s =? 0) with false by nia; replace (c * gk s =? 0) with false by nia.
Qed.

Lemma product_empty act weights scale_n s out :
  gemm_fits act weights scale_n s out -> gm s = 0 \/ gn s = 0 -> out = product act weights scale_n s.
Proof.
  intros [_ _ _ _ Ho _] H. assert (H0 : gm s * gn s = 0) by nia. unfold product. rewrite H0 in *.
  destruct out; [done|]. rewrite zlen_cons in Ho. pose proof (zlen_nonneg out). lia.
Qed.

(** ** The lookup table *)

Fixpoint base3 (ws : list Trit) : Z := match ws with [] => 0 | w :: ws => get w + 1 + 3 * base3 ws end.

Lemma group_index_base3 ws : group_index ws = base3 ws.
Proof.
  unfold group_index.
  assert (H : forall ix place, fst (foldl (fun ip w => let '(ix, place) := ip in (ix + (get w + 1) * place, place * 3)) (ix, place) ws) = ix + place * base3 ws).
  { induction ws as [|w ws IH]; intros ix place; cbn [foldl base3]; [simpl; lia|]. rewrite IH. lia. }
  rewrite H. lia.
Qed.

Lemma base3_range ws : 0 <= base3 ws < lut_pow3 (length ws).
Proof. induction ws as [|w ws IH]; cbn [base3 length lut_pow3]; [lia|]. pose proof (get_range w). lia. Qed.

(** A slot of the table is the accumulation of its group. *)
Lemma table_slot_dot act ws : length ws = length act -> table_slot act (base3 ws) = dot (get <$> ws) act.
Proof.
  unfold table_slot, dot_from. generalize f32_zero. revert ws. induction act as [|a act IH]; intros [|w ws] acc Hl; try done.
  cbn [foldl fmap list_fmap zip zip_with fst snd base3]. pose proof (get_range w).
  assert (Hm : (get w + 1 + 3 * base3 ws) mod 3 = get w + 1) by (rewrite (Z.mul_comm 3), Z.mod_add, Z.mod_small by lia; done).
  assert (Hd : (get w + 1 + 3 * base3 ws) / 3 = base3 ws) by (rewrite (Z.mul_comm 3), Z.div_add, Z.div_small by lia; lia).
  rewrite Hm, Hd. rewrite IH by (simpl in Hl; lia). do 2 f_equal. by destruct w.
Qed.

Lemma build_group_table_Ok act table :
  zlen table = lut_pow3 (length act) -> build_group_table act table = Ok (tabulate (lut_pow3 (length act)) (table_slot act)).
Proof.
  intros Hl. unfold build_group_table. rewrite Hl, Z.eqb_refl. cbn [negb]. f_equal.
  apply tabulate_lookup; [rewrite <- Hl; apply zlen_nonneg|unfold zlen in *; by rewrite length_imap|].
  intros i Hi. rewrite list_lookup_imap. destruct (lookup_Z table i ltac:(lia)) as [x ->]. cbn [fmap option_fmap option_map].
  rewrite Z2Nat.id by lia. by replace (i <? _) with true by lia.
Qed.

(** The sum over groups of four, each accumulated from zero. *)
Definition group_sum (ws : list Trit) (xs : list f32) (groups : Z) : f32 :=
  foldl f32_add f32_zero (tabulate groups (fun i => dot (get <$> sub ws (i * 4) (i * 4 + 4)) (sub xs (i * 4) (i * 4 + 4)))).

Lemma lut_row_dot_Ok xs ws :
  zlen ws = zlen xs ->
  lut_row_dot xs ws = Ok (dot_from (group_sum ws xs (zlen xs / 4)) (get <$> sub ws (zlen xs / 4 * 4) (zlen xs)) (sub xs (zlen xs / 4 * 4) (zlen xs))).
Proof.
  intros Hl. unfold lut_row_dot. rewrite Hl, Z.eqb_refl. cbn [negb]. unfold LUT_GROUP. pose proof (zlen_nonneg xs) as Hk0. set (k := zlen xs) in *.
  pose proof (Z.mod_pos_bound k 4 ltac:(lia)) as Hmod.
  assert (Hks : k - k mod 4 = k / 4 * 4) by (rewrite Z.mod_eq by lia; lia). rewrite Hks, Z.div_mul by lia.
  assert (Hq : 0 <= k / 4 /\ k / 4 * 4 <= k) by (rewrite Z.mod_eq in Hmod by lia; pose proof (Z.div_pos k 4); lia).
  match goal with |- context [for_range 0 (k / 4) ?body ?st] =>
    destruct (for_range_inv (fun i ta => zlen ta.1 = lut_pow3 4 /\ ta.2 = group_sum ws xs i) body 0 (k / 4) st) as ([table acc] & -> & Ht & Hacc) end.
  - lia.
  - done.
  - intros i [table acc] Hi [Ht Hacc]. cbn [fst snd] in *. rewrite !slice_Ok by lia. cbn [bind].
    assert (Hla : length (sub xs (i * 4) (i * 4 + 4)) = 4%nat).
    { apply Nat2Z.inj. fold (zlen (sub xs (i * 4) (i * 4 + 4))). rewrite zlen_sub by lia. lia. }
    assert (Hlw : length (sub ws (i * 4) (i * 4 + 4)) = 4%nat).
    { apply Nat2Z.inj. fold (zlen (sub ws (i * 4) (i * 4 + 4))). rewrite zlen_sub by lia. lia. }
    rewrite build_group_table_Ok by (by rewrite Hla). cbn [bind]. rewrite group_index_base3.
    pose proof (base3_range (sub ws (i * 4) (i * 4 + 4))) as Hb. rewrite Hlw in Hb. rewrite Hla.
    rewrite (idx_Ok _ _ (table_slot (sub xs (i * 4) (i * 4 + 4)) (base3 (sub ws (i * 4) (i * 4 + 4))))) by (lia || by apply lookup_tabulate).
    cbn [bind]. eexists. split; [done|]. cbn [fst snd]. split; [by rewrite zlen_tabulate|].
    rewrite table_slot_dot by lia. unfold group_sum. rewrite tabulate_S, foldl_app by lia. cbn [foldl]. by rewrite Hacc.
  - cbn [bind fst snd] in *. rewrite Hacc.
    rewrite (trit_loop (get <$> ws) xs); [|lia|rewrite zlen_fmap; lia|rewrite zlen_fmap; lia|].
    + f_equal. f_equal. unfold sub. by rewrite fmap_take, fmap_drop.
    + intros i a w x Hi Hw Hx. rewrite list_lookup_fmap in Hw. destruct (ws !! Z.to_nat i) as [t|] eqn:Et; [|done]. injection Hw as <-.
      rewrite (idx_Ok _ _ t) by (done || lia). cbn [bind]. apply add_trit_Ok, idx_Ok; [lia|done].
Qed.

(** On integers the regrouping is exact. *)
Lemma lut_row_int xs zs ws :
  Forall2 a8 xs zs -> zlen ws = zlen xs -> zlen xs <= 65536 -> lut_row_dot xs ws = Ok (dot (get <$> ws) xs).
Proof.
  intros Hz Hl Hk. rewrite lut_row_dot_Ok by done. f_equal. pose proof (zlen_nonneg xs) as Hk0.
  assert (Lz : zlen zs = zlen xs) by (unfold zlen; by rewrite (Forall2_length Hz)).
  set (k := zlen xs) in *. pose proof (Z.mod_pos_bound k 4 ltac:(lia)) as Hmod. rewrite Z.mod_eq in Hmod by lia.
  pose proof (Z.div_pos k 4 Hk0 ltac:(lia)) as Hq.
  set (V := fun i => wdot (get <$> sub ws 0 i) (sub zs 0 i)).
  assert (Hsub : forall a b, 0 <= a <= b -> b <= k -> Forall2 a8 (sub xs a b) (sub zs a b)) by (intros; unfold sub; by apply Forall2_take, Forall2_drop).
  assert (Hlen : forall A (l : list A) a b, zlen l = k -> 0 <= a <= b -> b <= k -> length (sub l a b) = Z.to_nat (b - a)).
  { intros A l a b Hll Ha Hb. apply Nat2Z.inj. fold (zlen (sub l a b)). rewrite zlen_sub by lia. lia. }
  assert (HV : forall a b, 0 <= a <= b -> b <= k -> V b = V a + wdot (get <$> sub ws a b) (sub zs a b)).
  { intros a b Hab Hb. unfold V. rewrite <- (sub_join ws 0 a b), <- (sub_join zs 0 a b) by lia. rewrite fmap_app. unfold wdot.
    rewrite zip_with_app, zsum_app; [done|]. rewrite length_fmap, !Hlen by (done || lia). done. }
  assert (Hdot : forall a b acc, 0 <= a <= b -> b <= k -> Z.abs acc + 128 * (b - a) <= 2 ^ 24 ->
    dot_from (f32_of_Z acc) (get <$> sub ws a b) (sub xs a b) = f32_of_Z (acc + wdot (get <$> sub ws a b) (sub zs a b))).
  { intros a b acc Hab Hb Hac. apply dot_int; [by apply Hsub|apply get_trits|rewrite length_fmap, !Hlen by (done || lia); done|].
    rewrite zlen_sub by lia. lia. }
  assert (Hwb : forall a b, 0 <= a <= b -> b <= k -> Z.abs (wdot (get <$> sub ws a b) (sub zs a b)) <= 128 * (b - a)).
  { intros a b Hab Hb. unfold wdot. pose proof (zsum_abs (zip_with Z.mul (get <$> sub ws a b) (sub zs a b)) 128) as Ha.
    assert (zlen (zip_with Z.mul (get <$> sub ws a b) (sub zs a b)) = b - a) as <-.
    { unfold zlen. rewrite length_zip_with, length_fmap, !Hlen by (done || lia). lia. }
    apply Ha. pose proof (Hsub a b Hab Hb) as H2. clear - H2. revert H2. generalize (sub ws a b) (sub xs a b) (sub zs a b). intros w x z H2. revert w.
    induction H2 as [|v y x z (Hy & _) _ IH]; intros [|t w]; cbn [fmap list_fmap zip_with]; constructor; [|apply IH].
    pose proof (get_range t). nia. }
  assert (Hg : forall i, 0 <= i <= k / 4 -> group_sum ws xs i = f32_of_Z (V (i * 4))).
  { intros i Hi. unfold group_sum. replace i with (Z.of_nat (Z.to_nat i)) in * by lia. generalize dependent (Z.to_nat i). clear i. intros i.
    induction i as [|i IH]; intros Hi; [done|]. replace (Z.of_nat (S i)) with (Z.of_nat i + 1) in * by lia.
    rewrite tabulate_S, foldl_app by lia. rewrite IH by lia. cbn [foldl]. change f32_zero with (f32_of_Z 0).
    rewrite Hdot by (change (2 ^ 24) with 16777216; lia). rewrite Z.add_0_l.
    pose proof (HV 0 (Z.of_nat i * 4) ltac:(lia) ltac:(lia)) as V0. pose proof (Hwb 0 (Z.of_nat i * 4) ltac:(lia) ltac:(lia)) as B0.
    assert (HV0 : V 0 = 0) by done. pose proof (HV (Z.of_nat i * 4) (Z.of_nat i * 4 + 4) ltac:(lia) ltac:(lia)) as V1.
    pose proof (Hwb (Z.of_nat i * 4) (Z.of_nat i * 4 + 4) ltac:(lia) ltac:(lia)) as B1.
    rewrite (f32_add_int _ _ (wdot (get <$> sub ws (Z.of_nat i * 4) (Z.of_nat i * 4 + 4)) (sub zs (Z.of_nat i * 4) (Z.of_nat i * 4 + 4)))).
    - by replace ((Z.of_nat i + 1) * 4) with (Z.of_nat i * 4 + 4) by lia; rewrite V1.
    - change (2 ^ 24) with 16777216. lia.
    - apply f32_of_Z_int. change (2 ^ 24) with 16777216. lia.
    - change (2 ^ 24) with 16777216. lia. }
  rewrite (Hg (k / 4)) by lia. assert (HV0 : V 0 = 0) by done. pose proof (HV 0 (k / 4 * 4) ltac:(lia) ltac:(lia)) as V0. pose proof (Hwb 0 (k / 4 * 4) ltac:(lia) ltac:(lia)) as B0.
  rewrite Hdot by (change (2 ^ 24) with 16777216; lia). rewrite <- (HV (k / 4 * 4) k) by lia.
  pose proof (Hdot 0 k 0 ltac:(lia) ltac:(lia) ltac:(change (2 ^ 24) with 16777216; lia)) as Hall. change (f32_of_Z 0) with f32_zero in Hall.
  unfold V. rewrite !sub_all in * by done. by rewrite Hall.
Qed.

(** * Properties *)

Definition shape_ok (s : GemmShape) : Prop :=
  0 <= gm s /\ 0 <= gn s /\ 0 <= gk s /\ gm s * gk s <= usize_max /\ gn s * gk s <= usize_max /\ gm s * gn s <= usize_max.

Lemma fits_or_differ act weights scale_n s out :
  shape_ok s -> gemm_fits act weights scale_n s out \/ lengths_differ act weights scale_n s out = Ok true.
Proof.
  intros (Hm & Hn & Hk & H1 & H2 & H3). unfold lengths_differ. rewrite !mul_usize_Ok by done. cbn [bind].
  destruct (Z.eqb_spec (zlen act) (gm s * gk s)) as [Ha|]; [|by right].
  destruct (Z.eqb_spec (zlen weights) (gn s * gk s)) as [Hw|]; [|by right].
  destruct (Z.eqb_spec (zlen scale_n) (gn s)) as [Hs|]; [|by right].
  destruct (Z.eqb_spec (zlen out) (gm s * gn s)) as [Ho|]; [left|by right].
  split; try done; lia.
Qed.

Lemma dispatch_exact host order act weights scale_n s out :
  shape_ok s -> Forall valid32 act -> (forall t, Permutation (order t) (seqZ 0 t)) ->
  (0 < gm s -> 0 < gn s -> 0 < gk s) ->
  dispatch_mpgemm host order act weights scale_n s out = map_err CoreError (reference_mpgemm act weights scale_n s out).
Proof.
  intros Hs Hv Ho Hk. unfold dispatch_mpgemm. destruct (fits_or_differ act weights scale_n s out Hs) as [G| ->]; [|done].
  rewrite (lengths_agree _ _ _ _ _ G), (reference_product _ _ _ _ _ G). cbn [bind map_err].
  destruct Hs as (Hm & Hn & _). destruct (Z.eqb_spec (gm s) 0) as [Hm0|]; cbn [orb].
  { f_equal. apply (product_empty _ _ _ _ _ G). by left. }
  destruct (Z.eqb_spec (gn s) 0) as [Hn0|]; cbn [orb].
  { f_equal. apply (product_empty _ _ _ _ _ G). by right. }
  destruct (chunk_counts _ _ _ _ _ G ltac:(lia) ltac:(lia) (Hk ltac:(lia) ltac:(lia))) as [-> ->]. cbn [bind]. rewrite Z.min_id.
  apply chunks_exact; [done|done|lia|lia|by apply Hk; lia|apply Ho].
Qed.

(** C9: every host computes the reference. Whatever instruction sets are detected, whatever
    order the thread pool runs the chunks in, and whatever the activations, infinities
    and NaNs included, the dispatched product returns what the reference returns, bit
    for bit, typed length errors included; the contraction must not be empty. *)
Theorem dispatch_is_reference host order act weights scale_n s out :
  shape_ok s -> Forall valid32 act -> (forall t, Permutation (order t) (seqZ 0 t)) ->
  (0 < gm s -> 0 < gn s -> 0 < gk s) ->
  dispatch_mpgemm host order act weights scale_n s out = map_err CoreError (reference_mpgemm act weights scale_n s out).
Proof. apply dispatch_exact. Qed.

(** An AVX2 host, three rows of 33 small integers with a fraction in the last: the chunk
    takes the kernel over [f32] lanes. *)
Definition demo_act : list f32 := (f32_of_Z <$> (seqZ (-40) 98)) ++ [S754_finite false 8388608 (-24)].
Definition demo_weights : list Trit := (fun i => if i mod 3 =? 0 then NEG else if i mod 3 =? 1 then ZERO else POS) <$> seqZ 0 66.
Definition demo_shape : GemmShape := mkGemmShape 3 2 33.
Definition avx2_host : Host := mkHost X86_64 true false false false false true.

Lemma dispatch_is_reference_witness :
  dispatch_mpgemm avx2_host (fun t => rev (seqZ 0 t)) demo_act demo_weights [f32_of_Z 1; f32_of_Z 2] demo_shape (vec f32_zero 6) =
  map_err CoreError (reference_mpgemm demo_act demo_weights [f32_of_Z 1; f32_of_Z 2] demo_shape (vec f32_zero 6)).
Proof.
  apply dispatch_is_reference.
  - vm_compute. repeat split; discriminate.
  - apply valid_all. vm_compute. reflexivity.
  - intros t. symmetry. apply Permutation_rev.
  - reflexivity.
Defined.

(** The lookup-table kernel agrees with the reference, bit for bit, on integer
    activations: regrouping by four is exact there. *)
Theorem lut_is_reference act weights scale_n s out :
  gemm_fits act weights scale_n s out -> Forall valid32 act -> act_is_a8_integer act = true -> gk s <= A8_EXACT_K_MAX ->
  lut_mpgemm act weights scale_n s out = map_err CoreError (reference_mpgemm act weights scale_n s out).
Proof.
  intros G Hv Ha8 Hk8. rewrite (reference_product _ _ _ _ _ G). unfold lut_mpgemm. rewrite (lengths_agree _ _ _ _ _ G). cbn [bind map_err].
  pose proof G as [(Hm & Hn & Hk) Ha Hw Hs Ho _]. destruct (a8_values act Hv Ha8) as [zs Hzs].
  match goal with |- for_range 0 _ ?body _ = _ =>
    destruct (for_range_wrote (fun i => cell act weights scale_n (gk s) (i / gn s) (i mod gn s)) body 0 (gm s) 0 (gm s * gn s) (gn s) out)
      as (out' & Hf & Hwr) end; [lia|lia|lia| |rewrite Hf; f_equal; by apply (product_wrote _ _ _ _ out)].
  intros mi l1 Hmi Hl1. rewrite (slice_row _ (gm s)) by (done || lia). cbn [bind].
  assert (Hz : Forall2 a8 (row act (gk s) mi) (row zs (gk s) mi)) by (unfold row, sub; by apply Forall2_take, Forall2_drop).
  pose proof (zlen_row act (gm s) (gk s) mi Hk Ha Hmi) as La. unfold A8_EXACT_K_MAX in Hk8.
  apply for_range_wrote_1; [lia|nia|lia|nia|]. intros ni l2 Hni Hl2. rewrite (slice_row _ (gn s)) by (done || lia). cbn [bind].
  pose proof (zlen_row weights (gn s) (gk s) ni Hk Hw Hni) as Lw.
  rewrite (lut_row_int _ _ _ Hz) by lia. cbn [bind]. rewrite (idx_nth scale_n ni f32_zero) by lia. cbn [bind].
  replace (0 + (mi - 0) * gn s + (ni - 0)) with (mi * gn s + ni) by lia.
  destruct (row_cell (gn s) mi ni) as [-> ->]; [lia|lia|done].
Qed.

Lemma lut_is_reference_witness :
  lut_mpgemm (f32_of_Z <$> [1; -2; 3; 4; 5; -6]) [POS; NEG; ZERO; POS; NEG; POS] [f32_of_Z 1] (mkGemmShape 1 1 6) [f32_zero] = Ok [f32_of_Z (-4)].
Proof.
  rewrite lut_is_reference; [vm_compute; reflexivity|split; vm_compute; repeat split; discriminate|by repeat constructor|reflexivity|vm_compute; discriminate].
Defined.

(** An empty contraction with outputs to write panics on every host, where the reference
    writes zeros. *)
Lemma dispatch_empty host order act weights scale_n s out :
  gemm_fits act weights scale_n s out -> 0 < gm s -> 0 < gn s -> gk s = 0 ->
  dispatch_mpgemm host order act weights scale_n s out = Panic.
Proof.
  intros G Hm Hn Hk. unfold dispatch_mpgemm. rewrite (lengths_agree _ _ _ _ _ G). cbn [bind].
  replace (gm s =? 0) with false by lia. replace (gn s =? 0) with false by lia. cbn [orb]. rewrite Hk, Z.mul_0_r.
  unfold par_chunks. by destruct (_ =? 0).
Qed.

(** An empty contraction: the reference writes zeros, the dispatched product panics. *)
Lemma empty_contraction_panics :
  dispatch_mpgemm avx2_host (seqZ 0) [] [] [f32_of_Z 1] (mkGemmShape 1 1 0) [f32_zero] = Panic /\
  reference_mpgemm [] [] [f32_of_Z 1] (mkGemmShape 1 1 0) [f32_zero] = Ok [f32_zero].
Proof. split; reflexivity. Qed.
