(* ===== verification/CpuBackend.v ===== *)
(** * Packed weights on the CPU (crates/tritium-cpu/src/lib.rs)

    The backend keeps packed TQ2_0 or TQ1_0 rows as they are uploaded and unpacks them
    for each product. Uploading also looks for the first TQ2_0 row with an illegal code,
    eight codes at a time. The proofs compose the row codecs with the kernels: whatever
    matrix was packed, the product of the uploaded buffer is the reference product of
    the matrix. *)

From Stdlib Require Import ZArith Lia Bool String Floats.SpecFloat.
From stdpp Require Import base list numbers.
From S2P Require Import Prelude Core FormatBase TwoBit TQ2 TQ1 Rows F32 FloatOrder Plane FloatExact Spec Reference CpuKernels CpuExact.

#[local] Open Scope Z_scope.

Record CpuBuffer := mkCpuBuffer {
  cb_bytes : list Z; cb_n : Z; cb_k : Z; cb_format : TernaryFormat; cb_tq2_invalid_row : option Z }.

#[global] Instance ternary_format_eq_dec : EqDecision TernaryFormat.
Proof. solve_decision. Defined.

Definition format_tag (f : TernaryFormat) : Z := match f with Tq1_0 => 0 | Tq2_0 => 1 | I2sInt8 => 2 end.

Definition validate_identity (self : CpuBuffer) (shape : GemmShape) (format : TernaryFormat) : kres unit :=
  if negb (cb_n self =? gn shape) || negb (cb_k self =? gk shape) || negb (bool_decide (cb_format self = format))
  then Err (InvalidInput (Formatted "buffer identity" [cb_n self; cb_k self; format_tag (cb_format self); gn shape; gk shape; format_tag format]))
  else Ok tt.

Definition block_bytes (format : TernaryFormat) : kres Z :=
  match format with
  | Tq2_0 => Ok TQ2_0_BLOCK_BYTES
  | Tq1_0 => Ok TQ1_0_BLOCK_BYTES
  | other => Err (UnsupportedFormat other)
  end.

(** The [f16] of value one. *)
Definition F16_ONE : Z := 0x3c00.

Definition unpack_format (format : TernaryFormat) (ni : Z) (row : list Z) (trits_row : list Trit) (scratch : list Z)
  : kres (list Trit * list Z) :=
  let failed (_ : FormatError) := BackendFailure (Formatted "unpack row" [ni]) in
  match format with
  | Tq2_0 => map_err failed (unpack_tq2_0_row row trits_row scratch)
  | Tq1_0 => map_err failed (unpack_tq1_0_row row trits_row scratch)
  | other => Err (UnsupportedFormat other)
  end.

Definition unpack_weights (buf : CpuBuffer) (shape : GemmShape) (format : TernaryFormat) : kres (list Trit) :=
  let* _ := validate_identity buf shape format in
  let '(n, k) := (gn shape, gk shape) in
  let nb := num_blocks k in
  let* bb := block_bytes format in
  let* row_bytes := mul_usize nb bb in
  let* expected := mul_usize n row_bytes in
  if negb (zlen (cb_bytes buf) =? expected) then Err (ShapeMismatch expected (zlen (cb_bytes buf))) else
  let* nk := mul_usize n k in
  let* (trits, _) := for_range 0 n (fun ni st =>
    let '(trits, scratch) := st in
    let* row := slice (cb_bytes buf) (ni * row_bytes) ((ni + 1) * row_bytes) in
    let* trits_row := slice trits (ni * k) (ni * k + k) in
    let* (trits_row, scratch) := unpack_format format ni row trits_row scratch in
    let* trits := write_slice trits (ni * k) trits_row in
    Ok (trits, scratch)) (vec ZERO nk, vec F16_ONE nb) in
  Ok trits.

(** Two bits of a code both set, for any of the four codes of a byte. *)
Definition byte_invalid (byte : Z) : bool := negb (Z.land (Z.land byte (Z.shiftr byte 1)) 0x55 =? 0).
Definition block_invalid (block : list Z) : bool := existsb byte_invalid (sub block 0 (QK_K / 4)).
Definition row_invalid (row : list Z) : bool :=
  existsb (fun b => block_invalid (sub row (b * TQ2_0_BLOCK_BYTES) ((b + 1) * TQ2_0_BLOCK_BYTES)))
    (seqZ 0 (zlen row / TQ2_0_BLOCK_BYTES)).

(** [chunks_exact(row_bytes).position(..)]. *)
Definition first_invalid_row (packed : list Z) (row_bytes : Z) : option Z :=
  find (fun i => row_invalid (sub packed (i * row_bytes) ((i + 1) * row_bytes))) (seqZ 0 (zlen packed / row_bytes)).

Definition upload_weights (packed : list Z) (shape : GemmShape) (format : TernaryFormat) : kres CpuBuffer :=
  let '(n, k) := (gn shape, gk shape) in
  let nb := num_blocks k in
  let* bb := block_bytes format in
  let* row_bytes := ok_or (checked_mul nb bb) (InvalidInput (Text "packed row byte count overflows")) in
  let* expected := ok_or (checked_mul n row_bytes) (InvalidInput (Text "packed weight byte count overflows")) in
  if negb (zlen packed =? expected)
  then Err (InvalidInput (Formatted "packed len" [zlen packed; expected; gm shape; n; k; format_tag format])) else
  let tq2_invalid_row :=
    if bool_decide (format = Tq2_0) && negb (row_bytes =? 0) then first_invalid_row packed row_bytes else None in
  Ok (mkCpuBuffer packed n k format tq2_invalid_row).

(** The buffer is one of this backend's: the downcast succeeded. *)
Definition mpgemm (host : Host) (order : Z -> list Z) (act : list f32) (buf : CpuBuffer) (scales : list f32) (shape : GemmShape)
    (format : TernaryFormat) (out : list f32) : kres (list f32) :=
  let* _ := validate_identity buf shape format in
  let* mk := mul_usize (gm shape) (gk shape) in
  if negb (zlen act =? mk) then Err (ShapeMismatch mk (zlen act)) else
  if negb (zlen scales =? gn shape) then Err (ShapeMismatch (gn shape) (zlen scales)) else
  let* mn := mul_usize (gm shape) (gn shape) in
  if negb (zlen out =? mn) then Err (ShapeMismatch mn (zlen out)) else
  let* trits := unpack_weights buf shape format in
  dispatch_mpgemm host order act trits scales shape out.

(** * Properties *)

(** Row [ni] of the packed bytes is the packing of row [ni] of the weights, with some
    block scales. *)
Definition packs (format : TernaryFormat) (weights : list Trit) (n k row_bytes : Z) (packed : list Z) : Prop :=
  zlen packed = n * row_bytes /\
  forall ni, 0 <= ni < n -> exists scales out,
    Forall is_u16 scales /\ zlen out = row_bytes /\
    match format with
    | Tq2_0 => pack_tq2_0_row (row weights k ni) scales out = Ok (row packed row_bytes ni)
    | Tq1_0 => pack_tq1_0_row (row weights k ni) scales out = Ok (row packed row_bytes ni)
    | I2sInt8 => False
    end.

(** A row that a codec packed unpacks. *)
Lemma unpack_packed (C : BlockCodec) trits scales out packed tbuf sbuf :
  pack_row C trits scales out = Ok packed -> Forall is_u16 scales -> zlen trits <= isize_max ->
  zlen tbuf = zlen trits -> zlen sbuf = div_ceil (zlen trits) bc_elems ->
  unpack_row C packed tbuf sbuf = Ok (trits, scales).
Proof.
  intros Hp Hu Hk Ht Hs. assert (Hc : exists nb, check_row C (zlen trits) scales (zlen out) = Ok nb).
  { unfold pack_row in Hp. apply bind_Ok_inv in Hp as (nb & Hc & _). by exists nb. }
  destruct Hc as [nb Hc]. apply check_row_Ok_inv in Hc as (-> & Hls & Hlo).
  rewrite (pack_row_Ok C trits scales out) in Hp by (done || lia). injection Hp as <-.
  apply unpack_row_Ok; [done|done|done|done|congruence].
Qed.

Lemma unpack_format_Ok format weights n k rb packed ni tbuf scratch :
  packs format weights n k rb packed -> 0 <= ni < n -> 0 <= k -> zlen weights = n * k -> k <= isize_max ->
  zlen tbuf = k -> zlen scratch = num_blocks k ->
  exists scratch', unpack_format format ni (row packed rb ni) tbuf scratch = Ok (row weights k ni, scratch') /\ zlen scratch' = num_blocks k.
Proof.
  intros [_ Hp] Hni Hk Hw Hmax Ht Hs. destruct (Hp ni Hni) as (scales & out & Hu & Ho & Hpk).
  pose proof (zlen_row weights n k ni Hk Hw Hni) as Lr.
  destruct format; [| |done]; cbn [unpack_format].
  - exists scales. unfold unpack_tq1_0_row. rewrite (unpack_packed TQ1_codec _ scales out _ _ _ Hpk Hu); [|lia|lia|by rewrite Lr].
    split; [done|]. unfold pack_tq1_0_row, pack_row in Hpk. apply bind_Ok_inv in Hpk as (nb & Hc & _).
    apply check_row_Ok_inv in Hc as (-> & -> & _). by rewrite Lr.
  - exists scales. unfold unpack_tq2_0_row. rewrite (unpack_packed TQ2_codec _ scales out _ _ _ Hpk Hu); [|lia|lia|by rewrite Lr].
    split; [done|]. unfold pack_tq2_0_row, pack_row in Hpk. apply bind_Ok_inv in Hpk as (nb & Hc & _).
    apply check_row_Ok_inv in Hc as (-> & -> & _). by rewrite Lr.
Qed.

Definition packed_block (format : TernaryFormat) : Z :=
  match format with Tq2_0 => TQ2_0_BLOCK_BYTES | Tq1_0 => TQ1_0_BLOCK_BYTES | I2sInt8 => 0 end.

Lemma block_bytes_Ok format : format <> I2sInt8 -> block_bytes format = Ok (packed_block format) /\ 0 < packed_block format <= 66.
Proof. by destruct format. Qed.

Lemma validate_identity_Ok buf shape format :
  cb_n buf = gn shape -> cb_k buf = gk shape -> cb_format buf = format -> validate_identity buf shape format = Ok tt.
Proof. intros H1 H2 H3. unfold validate_identity. by rewrite H1, H2, H3, !Z.eqb_refl, bool_decide_true. Qed.

Section exact.
Context (format : TernaryFormat) (weights : list Trit) (s : GemmShape) (packed : list Z).
Let n := gn s.
Let k := gk s.
Let rb := num_blocks k * packed_block format.
Context (Hf : format <> I2sInt8) (Hn : 0 <= n) (Hk : 0 <= k <= isize_max) (Hw : zlen weights = n * k) (Hwm : n * k <= isize_max).
Context (Hp : packs format weights n k rb packed) (Hb : zlen packed <= isize_max).

Lemma unpack_weights_Ok inv :
  unpack_weights (mkCpuBuffer packed n k format inv) s format = Ok weights.
Proof.
  destruct Hp as [Hl _]. destruct (block_bytes_Ok format Hf) as [Hbb Hbr].
  unfold unpack_weights. rewrite validate_identity_Ok by done. cbn [bind]. rewrite Hbb. cbn [bind cb_bytes]. fold n k.
  pose proof (div_ceil_nonneg k QK_K ltac:(lia) ltac:(unfold QK_K; lia)) as Hnb. fold (num_blocks k) in Hnb.
  assert (Hrb : 0 <= rb <= usize_max).
  { unfold rb. split; [nia|]. pose proof (div_ceil_bounds k QK_K ltac:(unfold QK_K; lia)) as Hd. fold (num_blocks k) in Hd. unfold QK_K, isize_max, usize_max in *. nia. }
  rewrite mul_usize_Ok by (fold rb; lia). cbn [bind]. fold rb. unfold isize_max, usize_max in *. rewrite mul_usize_Ok by (unfold usize_max; lia). cbn [bind].
  rewrite Hl, Z.eqb_refl. cbn [negb]. rewrite mul_usize_Ok by (unfold usize_max; lia). cbn [bind].
  match goal with |- context [for_range 0 n ?body ?st] =>
    destruct (for_range_inv (fun ni ts => zlen ts.1 = n * k /\ zlen ts.2 = num_blocks k /\ sub ts.1 0 (ni * k) = sub weights 0 (ni * k)) body 0 n st)
      as ([trits scratch] & -> & Ht & _ & Hs) end.
  - lia.
  - cbn [fst snd]. rewrite !zlen_vec. split; [lia|]. split; [lia|]. by rewrite !sub_empty.
  - intros ni [trits scratch] Hni (Ht & Hsc & Hs). cbn [fst snd] in *. replace ((ni + 1) * rb) with (ni * rb + rb) by lia.
    rewrite (slice_row _ n rb ni) by (done || lia). cbn [bind]. rewrite (slice_row _ n k ni) by (done || lia). cbn [bind].
    destruct (unpack_format_Ok format weights n k rb packed ni (row trits k ni) scratch) as (sc' & -> & Hsc'); try done; try (unfold isize_max; lia).
    { apply (zlen_row trits n); [lia|done|lia]. }
    cbn [bind]. pose proof (zlen_row weights n k ni ltac:(lia) Hw Hni) as Lr. rewrite write_slice_Ok by nia. cbn [bind].
    eexists. split; [done|]. cbn [fst snd]. split; [rewrite zlen_splice; nia|]. split; [done|].
    replace ((ni + 1) * k) with (ni * k + k) by lia. rewrite <- (sub_join _ 0 (ni * k)), <- (sub_join weights 0 (ni * k)) by nia.
    rewrite sub_splice_before, sub_splice_same by nia. by rewrite Hs.
  - cbn [bind fst snd] in *. f_equal. rewrite !sub_all in Hs by done. done.
Qed.

Lemma upload_weights_Ok : exists inv, upload_weights packed s format = Ok (mkCpuBuffer packed n k format inv).
Proof.
  destruct Hp as [Hl _]. destruct (block_bytes_Ok format Hf) as [Hbb Hbr]. unfold upload_weights. rewrite Hbb. cbn [bind]. fold n k.
  pose proof (div_ceil_bounds k QK_K ltac:(unfold QK_K; lia)) as Hd. fold (num_blocks k) in Hd.
  assert (Hrb : rb <= usize_max) by (unfold rb, QK_K, isize_max, usize_max in *; nia).
  unfold checked_mul. fold rb. replace (rb <=? usize_max) with true by lia. cbn [bind ok_or].
  unfold isize_max, usize_max in *. replace (n * rb <=? _) with true by lia. cbn [bind ok_or].
  rewrite Hl, Z.eqb_refl. cbn [negb]. by eexists.
Qed.
End exact.

(** C7: packed products are exact. For every matrix of trits packed row by row as TQ2_0 or
    TQ1_0, with any block scales, and buffers that match the shape, the upload accepts the
    bytes, and the product of the buffer is, bit for bit, on every host and in every order
    of the parallel chunks, the reference product of the matrix; only an empty contraction
    with outputs to write (k = 0 with rows and columns) panics, where the reference writes
    zeros. *)
Theorem packed_mpgemm_exact host order format weights s packed act scales out :
  format <> I2sInt8 -> gemm_fits act weights scales s out -> Forall valid32 act ->
  zlen weights <= isize_max -> gk s <= isize_max -> zlen packed <= isize_max ->
  packs format weights (gn s) (gk s) (num_blocks (gk s) * packed_block format) packed ->
  (forall t, Permutation (order t) (seqZ 0 t)) ->
  exists buf, upload_weights packed s format = Ok buf /\
    mpgemm host order act buf scales s format out =
      if (0 <? gm s) && (0 <? gn s) && (gk s =? 0) then Panic
      else map_err CoreError (reference_mpgemm act weights scales s out).
Proof.
  intros Hf G Hv Hwm Hkm Hbm Hp Ho. pose proof G as [(Hm & Hn & Hk) Ha Hw Hs Hout (B1 & B2 & B3)].
  destruct (upload_weights_Ok format weights s packed Hf Hn ltac:(lia) ltac:(lia) Hp Hbm) as [inv Hup].
  eexists. split; [exact Hup|]. unfold mpgemm. rewrite validate_identity_Ok by done. cbn [bind].
  rewrite !mul_usize_Ok by lia. cbn [bind]. rewrite Ha, Hs, Hout, !Z.eqb_refl. cbn [negb].
  rewrite (unpack_weights_Ok format weights s packed) by (done || lia). cbn [bind].
  destruct ((0 <? gm s) && (0 <? gn s) && (gk s =? 0)) eqn:Hempty; [apply dispatch_empty; done || lia|].
  apply dispatch_exact; try done; [|lia]. split; [done|]. split; [done|]. split; [done|]. lia.
Qed.

Definition small_weights : list Trit := [POS; NEG; ZERO; POS; POS; NEG].
Definition small_packed : list Z := tq2_block ([POS; NEG; ZERO] ++ vec ZERO 253) F16_ONE ++ tq2_block ([POS; POS; NEG] ++ vec ZERO 253) F16_ONE.

Lemma packed_mpgemm_exact_witness :
  exists buf, upload_weights small_packed (mkGemmShape 1 2 3) Tq2_0 = Ok buf /\
    mpgemm avx2_host (seqZ 0) [f32_of_Z 2; f32_of_Z 3; f32_of_Z 5] buf [f32_of_Z 1; f32_of_Z 1] (mkGemmShape 1 2 3) Tq2_0 (vec f32_zero 2) =
    Ok [f32_of_Z (-1); f32_of_Z 0].
Proof.
  destruct (packed_mpgemm_exact avx2_host (seqZ 0) Tq2_0 small_weights (mkGemmShape 1 2 3) small_packed
    [f32_of_Z 2; f32_of_Z 3; f32_of_Z 5] [f32_of_Z 1; f32_of_Z 1] (vec f32_zero 2)) as (buf & Hu & Hm).
  - discriminate.
  - split; vm_compute; repeat split; discriminate.
  - by repeat constructor.
  - vm_compute. discriminate.
  - vm_compute. discriminate.
  - vm_compute. discriminate.
  - split; [reflexivity|]. intros ni Hni. exists [F16_ONE], (vec 0 66). split; [repeat constructor; unfold F16_ONE; lia|]. split; [reflexivity|].
    assert (ni = 0 \/ ni = 1) as [-> | ->] by (simpl in Hni; lia); vm_compute; reflexivity.
  - reflexivity.
  - exists buf. split; [exact Hu|]. rewrite Hm. vm_compute. reflexivity.
Defined.

(** ** The search for illegal codes *)

Lemma byte_invalid_spec b : is_u8 b -> byte_invalid b = existsb (fun j => pair2 b j =? 3) (seqZ 0 4).
Proof.
  intros Hb. assert (H : forallb (fun b => Bool.eqb (byte_invalid b) (existsb (fun j => pair2 b j =? 3) (seqZ 0 4))) (seqZ 0 256) = true) by (vm_compute; reflexivity).
  rewrite forallb_seqZ in H. unfold is_u8 in Hb. specialize (H b ltac:(lia)). cbn beta in H. by apply eqb_prop in H.
Qed.

(** Every code of a block is one of the four codes of one of its first 64 bytes, and
    conversely. *)
Lemma tq2_cells j : 0 <= j < 256 -> 0 <= tq2_pos j < 64 /\ 0 <= tq2_slot j < 4.
Proof.
  intros Hj. assert (H : forallb (fun j => (0 <=? tq2_pos j) && (tq2_pos j <? 64) && (0 <=? tq2_slot j) && (tq2_slot j <? 4)) (seqZ 0 256) = true) by (vm_compute; reflexivity).
  rewrite forallb_seqZ in H. specialize (H j ltac:(lia)). lia.
Qed.

Lemma tq2_cell_of p i : 0 <= p < 64 -> 0 <= i < 4 -> exists j, 0 <= j < 256 /\ tq2_pos j = p /\ tq2_slot j = i.
Proof.
  intros Hp Hi. assert (H : forallb (fun p => forallb (fun i => existsb (fun j => (tq2_pos j =? p) && (tq2_slot j =? i)) (seqZ 0 256)) (seqZ 0 4)) (seqZ 0 64) = true)
    by (vm_compute; reflexivity).
  rewrite forallb_seqZ in H. specialize (H p ltac:(lia)). rewrite forallb_seqZ in H. specialize (H i ltac:(lia)).
  apply existsb_seqZ in H as (j & Hj & H). exists j. lia.
Qed.

Lemma block_invalid_spec block : zlen block = TQ2_0_BLOCK_BYTES -> bytes_ok block -> block_invalid block = negb (tq2_valid block).
Proof.
  intros Hl Hu. change TQ2_0_BLOCK_BYTES with 66 in Hl. apply eq_true_iff_eq. rewrite negb_true_iff. unfold block_invalid. change (QK_K / 4) with 64. rewrite existsb_exists. split.
  - intros (b & Hb & Hi). apply list_elem_of_In, list_elem_of_lookup in Hb as [p Hp].
    assert (Hpl : (p < 64)%nat) by (apply lookup_lt_Some in Hp; unfold sub in Hp; rewrite length_take in Hp; lia).
    assert (Hb' : block !! p = Some b). { unfold sub in Hp. rewrite lookup_take_lt in Hp by lia. by rewrite lookup_drop in Hp. }
    rewrite byte_invalid_spec in Hi by (by apply (Forall_lookup_1 _ _ _ _ Hu Hb')). apply existsb_seqZ in Hi as (i & Hi & H3).
    destruct (tq2_cell_of (Z.of_nat p) i ltac:(lia) ltac:(lia)) as (j & Hj & Ej & Ei).
    destruct (tq2_valid block) eqn:Hv; [|done]. unfold tq2_valid in Hv. rewrite forallb_seqZ in Hv. specialize (Hv j ltac:(lia)).
    unfold tq2_pair in Hv. rewrite Ej, Ei in Hv. unfold bget in Hv. rewrite Nat2Z.id, Hb' in Hv. cbn in Hv. lia.
  - intros Hv. apply forallb_seqZ_false in Hv as (j & Hj & Hp). destruct (tq2_cells j ltac:(lia)) as [Hpos Hsl].
    destruct (lookup_Z block (tq2_pos j) ltac:(lia)) as [b Hb]. exists b. split.
    + apply list_elem_of_In, list_elem_of_lookup. exists (Z.to_nat (tq2_pos j)). rewrite lookup_sub by lia. by rewrite Z.add_0_l.
    + rewrite byte_invalid_spec by (by apply (Forall_lookup_1 _ _ _ _ Hu Hb)). apply existsb_seqZ. exists (tq2_slot j). split; [lia|].
      unfold tq2_pair, bget in Hp. rewrite Hb in Hp. cbn in Hp. by destruct (Z.eqb_spec (pair2 b (tq2_slot j)) 3).
Qed.

(** The row decoder accepts exactly the rows without an illegal code. *)
Lemma unpack_row_iff row tbuf sbuf :
  let nb := num_blocks (zlen tbuf) in
  zlen tbuf <= isize_max -> zlen sbuf = nb -> zlen row = nb * TQ2_0_BLOCK_BYTES -> bytes_ok row ->
  returns (unpack_tq2_0_row row tbuf sbuf) /\ ((exists r, unpack_tq2_0_row row tbuf sbuf = Ok r) <-> row_invalid row = false).
Proof.
  intros nb Hk Hs Hl Hu. destruct (unpack_row_inv TQ2_codec row tbuf sbuf Hk Hs Hl) as [Hret Hdec]. split; [done|].
  assert (Hblk : forall b, 0 <= b < nb -> let block := sub row (b * 66) ((b + 1) * 66) in zlen block = 66 /\ bytes_ok block).
  { intros b Hb. cbn zeta. change TQ2_0_BLOCK_BYTES with 66 in Hl. split; [rewrite zlen_sub; lia|by apply bytes_ok_sub]. }
  assert (Hinv : row_invalid row = false <-> forall b, 0 <= b < nb -> tq2_valid (sub row (b * 66) ((b + 1) * 66)) = true).
  { unfold row_invalid. rewrite Hl. change TQ2_0_BLOCK_BYTES with 66. rewrite Z.div_mul by lia. rewrite <- not_true_iff_false, existsb_seqZ. split.
    - intros Hn b Hb. destruct (tq2_valid _) eqn:Hv; [done|]. destruct Hn. exists b. split; [lia|].
      destruct (Hblk b Hb) as [L U]. rewrite block_invalid_spec by done. by rewrite Hv.
    - intros Hall (b & Hb & Hi). destruct (Hblk b ltac:(lia)) as [L U]. rewrite block_invalid_spec, Hall in Hi by (done || lia). done. }
  rewrite Hinv. split.
  - intros [[ts ss] Hr] b Hb. destruct (Hdec ts ss Hr) as (_ & _ & Hrow). destruct (Hrow b Hb) as (blk & buf & Lb & Hun & _).
    destruct (Hblk b Hb) as [L U]. by destruct (tq2_unpack_cases _ buf L Lb) as [_ Hc]; destruct (Hc _ _ Hun) as (_ & ? & _).
  - intros Hall. unfold unpack_tq2_0_row, unpack_row. pose proof (zlen_nonneg tbuf) as Hk0.
    rewrite (check_row_Ok TQ2_codec) by (done || lia || (rewrite Hs; done)). cbn [bind].
    match goal with |- context [for_range 0 _ ?body ?st] =>
      destruct (for_range_inv (fun _ ts => zlen ts.1.1 = QK_K /\ zlen ts.1.2 = zlen tbuf /\ zlen ts.2 = nb) body 0 (zlen sbuf) st) as ([[blk ts] ss] & -> & _) end.
    + apply zlen_nonneg.
    + done.
    + intros i [[blk ts] ss] Hi (L1 & L2 & L3). cbn [fst snd] in *. destruct (Hblk i ltac:(lia)) as [L U].
      pose proof (unpack_tq2_0_block_spec (sub row (i * 66) ((i + 1) * 66)) blk L L1) as Hun. rewrite Hall in Hun by lia.
      rewrite (unpack_row_step_Ok TQ2_codec row (zlen tbuf) i blk ts ss nb (tabulate 256 (tq2_trit (sub row (i * 66) ((i + 1) * 66)))) _ Hk0 eq_refl ltac:(lia) Hl L2 L3 ltac:(by rewrite zlen_tabulate) Hun).
      eexists. split; [done|]. cbn [fst snd]. split; [by rewrite zlen_tabulate|]. split; [|by rewrite zlen_insert].
      destruct (row_bounds TQ2_codec (zlen tbuf) i nb Hk0 eq_refl ltac:(lia)) as [Hr1 Hr2]. rewrite zlen_splice; [done|lia|].
      rewrite zlen_sub; [|lia|lia|rewrite zlen_tabulate]; unfold bc_elems in *; simpl in *; unfold QK_K in *; lia.
    + by eexists.
Qed.

Lemma find_seqZ (p : Z -> bool) n :
  match find p (seqZ 0 n) with
  | Some i => 0 <= i < n /\ p i = true /\ forall j, 0 <= j < i -> p j = false
  | None => forall j, 0 <= j < n -> p j = false
  end.
Proof.
  assert (H : forall lo m, 0 <= lo -> match find p (seqZ lo (Z.of_nat m)) with
    | Some i => lo <= i < lo + Z.of_nat m /\ p i = true /\ forall j, lo <= j < i -> p j = false
    | None => forall j, lo <= j < lo + Z.of_nat m -> p j = false end).
  { intros lo m. revert lo. induction m as [|m IH]; intros lo Hlo; [simpl; lia|].
    rewrite seqZ_cons by lia. cbn [find]. destruct (p lo) eqn:Hp; [split; [lia|]; split; [done|lia]|].
    replace (Z.pred (Z.of_nat (S m))) with (Z.of_nat m) by lia. specialize (IH (Z.succ lo) ltac:(lia)).
    destruct (find p _) as [i|].
    - destruct IH as (Hi & Hpi & Hj). split; [lia|]. split; [done|]. intros j Hjj. destruct (Z.eq_dec j lo) as [->|]; [done|apply Hj; lia].
    - intros j Hj. destruct (Z.eq_dec j lo) as [->|]; [done|apply IH; lia]. }
  destruct (Z.le_gt_cases n 0) as [Hn|Hn]; [rewrite seqZ_nil by lia; simpl; lia|].
  specialize (H 0 (Z.to_nat n) ltac:(lia)). by rewrite Z2Nat.id in H by lia.
Qed.

Lemma upload_invalid_row packed s buf :
  let rb := num_blocks (gk s) * TQ2_0_BLOCK_BYTES in
  upload_weights packed s Tq2_0 = Ok buf ->
  zlen packed = gn s * rb /\ cb_tq2_invalid_row buf = if rb =? 0 then None else first_invalid_row packed rb.
Proof.
  intros rb Hup. unfold upload_weights in Hup. cbn [block_bytes bind] in Hup. fold rb in Hup.
  unfold checked_mul in Hup. fold rb in Hup. destruct (rb <=? usize_max); cbn [ok_or bind] in Hup; [|done].
  destruct (gn s * rb <=? usize_max); cbn [ok_or bind] in Hup; [|done].
  destruct (Z.eqb_spec (zlen packed) (gn s * rb)) as [Hl|]; [|done]. cbn [negb] in Hup. injection Hup as <-. cbn [cb_tq2_invalid_row].
  split; [done|]. by destruct (rb =? 0).
Qed.

(** C39: the upload's scan for illegal codes, four codes per byte at once, finds the first
    row the row decoder refuses: a TQ2_0 buffer records no row exactly when every row
    decodes, and otherwise the least row that does not. *)
Theorem invalid_row_exact packed s buf tbuf sbuf :
  upload_weights packed s Tq2_0 = Ok buf -> bytes_ok packed -> 0 <= gn s -> 0 < gk s <= isize_max ->
  zlen tbuf = gk s -> zlen sbuf = num_blocks (gk s) ->
  let decodes i := exists r, unpack_tq2_0_row (row packed (num_blocks (gk s) * TQ2_0_BLOCK_BYTES) i) tbuf sbuf = Ok r in
  match cb_tq2_invalid_row buf with
  | Some i => 0 <= i < gn s /\ ~ decodes i /\ forall j, 0 <= j < i -> decodes j
  | None => forall i, 0 <= i < gn s -> decodes i
  end.
Proof.
  intros Hup Hu Hn Hk Ht Hs decodes. destruct (upload_invalid_row packed s buf Hup) as [Hl ->]. set (rb := num_blocks (gk s) * TQ2_0_BLOCK_BYTES) in *.
  pose proof (div_ceil_bounds (gk s) QK_K ltac:(unfold QK_K; lia)) as Hd. fold (num_blocks (gk s)) in Hd.
  assert (Hrb : 0 < rb) by (unfold rb, QK_K in *; change TQ2_0_BLOCK_BYTES with 66; lia).
  replace (rb =? 0) with false by lia.
  assert (Hiff : forall i, 0 <= i < gn s -> decodes i <-> row_invalid (sub packed (i * rb) ((i + 1) * rb)) = false).
  { intros i Hi. unfold decodes, row. replace (i * rb + rb) with ((i + 1) * rb) by lia.
    apply unpack_row_iff; [lia|by rewrite Ht|rewrite zlen_sub by nia; rewrite Ht; fold rb; lia|by apply bytes_ok_sub]. }
  unfold first_invalid_row. rewrite Hl, Z.div_mul by lia.
  pose proof (find_seqZ (fun i => row_invalid (sub packed (i * rb) ((i + 1) * rb))) (gn s)) as Hf. destruct (find _ _) as [i|].
  - destruct Hf as (Hi & Hp & Hj). split; [done|]. split; [rewrite Hiff by done; by rewrite Hp|]. intros j Hjj. apply Hiff; [lia|by apply Hj].
  - intros i Hi. apply Hiff; [done|by apply Hf].
Qed.

(** A row with the illegal code three in its first byte, after a legal one. *)
Lemma invalid_row_exact_witness :
  let packed := vec 0 66 ++ [3] ++ vec 0 65 in
  exists buf, upload_weights packed (mkGemmShape 1 2 3) Tq2_0 = Ok buf /\ cb_tq2_invalid_row buf = Some 1 /\
    ~ exists r, unpack_tq2_0_row (row packed (num_blocks 3 * TQ2_0_BLOCK_BYTES) 1) (vec ZERO 3) [0] = Ok r.
Proof.
  intros packed. assert (Hu : exists buf, upload_weights packed (mkGemmShape 1 2 3) Tq2_0 = Ok buf /\ cb_tq2_invalid_row buf = Some 1).
  { eexists. split; [vm_compute; reflexivity|reflexivity]. }
  destruct Hu as (buf & Hu & Hi). exists buf. split; [exact Hu|]. split; [exact Hi|].
  pose proof (invalid_row_exact packed (mkGemmShape 1 2 3) buf (vec ZERO 3) [0] Hu) as H. rewrite Hi in H. apply H.
  - apply bytes_ok_check. vm_compute. reflexivity.
  - vm_compute. discriminate.
  - vm_compute. split; [reflexivity|discriminate].
  - reflexivity.
  - reflexivity.
Defined.
