(* ===== verification/CpuGrad.v ===== *)
(** * Gradients of the packed product (crates/tritium-cpu/src/kernel.rs, src/lib.rs)

    The vector-Jacobian products of [Y = A (scale * trit)^T] on the host: one pair of
    kernels over decoded trits, one that reads TQ2_0 bytes in place, each in plain and in
    fused (AVX2 + FMA) form, and the backend operation that chooses between them.

    Registers are as in CpuKernels; a byte register is a list of bytes, lowest first. The
    rows of a result are tasks of a thread pool: the three parallel loops of one call
    run their tasks in the orders [order 0], [order 1] and [order 2]. *)

From Stdlib Require Import ZArith Lia Bool String Floats.SpecFloat.
From stdpp Require Import base list numbers.
From S2P Require Import Prelude Core FormatBase TwoBit TQ2 Rows F32 FloatOrder Plane FloatExact Spec Reference CpuKernels CpuExact CpuBackend.

#[local] Open Scope Z_scope.

(** ** Intrinsics *)

(** [a * b + c] with one rounding. *)
Definition f32_fma (a b c : f32) : f32 :=
  match a, b, c with
  | S754_nan, _, _ | _, S754_nan, _ | _, _, S754_nan => S754_nan
  | S754_infinity _, S754_zero _, _ | S754_zero _, S754_infinity _, _ => S754_nan
  | S754_infinity sa, (S754_infinity sb | S754_finite sb _ _), S754_infinity sc
  | S754_finite sa _ _, S754_infinity sb, S754_infinity sc =>
      if Bool.eqb (xorb sa sb) sc then c else S754_nan
  | S754_infinity sa, (S754_infinity sb | S754_finite sb _ _), _
  | S754_finite sa _ _, S754_infinity sb, _ => S754_infinity (xorb sa sb)
  | _, _, S754_infinity _ => c
  | S754_zero sa, (S754_zero sb | S754_finite sb _ _), S754_zero sc
  | S754_finite sa _ _, S754_zero sb, S754_zero sc =>
      S754_zero (if Bool.eqb (xorb sa sb) sc then sc else false)
  | S754_zero _, _, S754_finite _ _ _ | S754_finite _ _ _, S754_zero _, S754_finite _ _ _ => c
  | S754_finite sa ma ea, S754_finite sb mb eb, S754_zero _ =>
      binary_normalize f32_prec f32_emax (cond_Zopp (xorb sa sb) (Z.pos (ma * mb))) (ea + eb) false
  | S754_finite sa ma ea, S754_finite sb mb eb, S754_finite sc mc ec =>
      let e := Z.min (ea + eb) ec in
      let p := cond_Zopp (xorb sa sb) (Z.shiftl (Z.pos (ma * mb)) (ea + eb - e)) in
      let q := cond_Zopp sc (Z.shiftl (Z.pos mc) (ec - e)) in
      binary_normalize f32_prec f32_emax (p + q) e false
  end.

Definition mm256_set1_ps (x : f32) : list f32 := vec x 8.
Definition mm256_cvtepi32_ps (v : list Z) : list f32 := f32_of_Z <$> v.
Definition mm256_mul_ps : list f32 -> list f32 -> list f32 := zip_with f32_mul.
Definition mm256_fmadd_ps (a b c : list f32) : list f32 := zip_with (fun ab c => f32_fma ab.1 ab.2 c) (zip a b) c.
Definition mm_and_si128 : list Z -> list Z -> list Z := zip_with Z.land.
Definition mm_sub_epi8 : list Z -> list Z -> list Z := zip_with (fun x y => wrap 8 (x - y)).

(** The bytes of the 16-bit lanes, each shifted right by [imm]. *)
Fixpoint mm_srli_epi16 (imm : Z) (v : list Z) : list Z :=
  match v with
  | lo :: hi :: v =>
      let w := Z.shiftr (lo + 256 * hi) imm in
      w mod 256 :: w / 256 :: mm_srli_epi16 imm v
  | _ => []
  end.

(** ** Rows of the gradient *)

(** [for (g, x) in l.iter_mut().zip(xs)]. *)
Fixpoint zip_mut {A B} (f : A -> B -> kres A) (l : list A) (xs : list B) : kres (list A) :=
  match l, xs with
  | g :: l, x :: xs =>
      let* g := f g x in
      let* l := zip_mut f l xs in
      Ok (g :: l)
  | l, _ => Ok l
  end.

(** Load eight values at [at_], add the products, store them. *)
Definition fmadd_at (grad_row : list f32) (at_ : Z) (upstream_vector projected : list f32) : kres (list f32) :=
  let* prior := slice grad_row at_ (at_ + 8) in
  write_slice grad_row at_ (mm256_fmadd_ps upstream_vector projected prior).

Definition add_at (grad_row : list f32) (ki : Z) (v : f32) : kres (list f32) :=
  let* g := idx grad_row ki in
  upd grad_row ki (f32_add g v).

Definition decode_tq2_trit (row : list Z) (ki : Z) : kres f32 :=
  let block := ki / QK_K in
  let element := ki mod QK_K in
  let chunk := Z.shiftr element 7 in
  let lane := Z.shiftr (Z.land element 127) 5 in
  let byte := Z.land element 31 in
  let* packed := idx row (block * TQ2_0_BLOCK_BYTES + chunk * 32 + byte) in
  Ok (f32_sub (f32_of_Z (Z.land (Z.shiftr packed (2 * lane)) 3)) (f32_of_Z 1)).

Definition grad_act_row (weights : list Trit) (scales grad_output : list f32) (n k mi : Z) (grad_row : list f32) : kres (list f32) :=
  for_range 0 n (fun ni grad_row =>
    let* upstream := idx grad_output (mi * n + ni) in
    let* weight_row := slice weights (ni * k) ((ni + 1) * k) in
    zip_mut (fun grad_value trit =>
      let* s := idx scales ni in
      let projected := f32_mul (trit_f32 trit) s in
      Ok (f32_add grad_value (f32_mul upstream projected))) grad_row weight_row) grad_row.

Definition tq2_grad_act_row (packed_weights : list Z) (scales grad_output : list f32) (n row_bytes mi : Z) (grad_row : list f32)
  : kres (list f32) :=
  for_range 0 n (fun ni grad_row =>
    let* upstream := idx grad_output (mi * n + ni) in
    let* row := slice packed_weights (ni * row_bytes) ((ni + 1) * row_bytes) in
    for_range 0 (zlen grad_row) (fun ki grad_row =>
      let* trit := decode_tq2_trit row ki in
      let* s := idx scales ni in
      add_at grad_row ki (f32_mul upstream (f32_mul trit s))) grad_row) grad_row.

Definition grad_weight_row (act grad_output : list f32) (m n k ni : Z) (grad_row : list f32) : kres (list f32) :=
  for_range 0 m (fun mi grad_row =>
    let* upstream := idx grad_output (mi * n + ni) in
    let* act_row := slice act (mi * k) ((mi + 1) * k) in
    zip_mut (fun grad_value act_value => Ok (f32_add grad_value (f32_mul upstream act_value))) grad_row act_row) grad_row.

Definition avx2_grad_act_row (grad_row : list f32) (weights : list Trit) (scales upstream : list f32) (n k : Z) : kres (list f32) :=
  let simd_k := k - k mod 8 in
  for_range 0 n (fun ni grad_row =>
    let* u := idx upstream ni in
    let upstream_vector := mm256_set1_ps u in
    let* s := idx scales ni in
    let scale_vector := mm256_set1_ps s in
    let* weight_row := slice weights (ni * k) ((ni + 1) * k) in
    let* grad_row := for_range 0 (simd_k / 8) (fun i grad_row =>
      let ki := i * 8 in
      let* bytes := slice (get <$> weight_row) ki (ki + 8) in
      let trits := mm_loadl_epi64 bytes in
      let trits := mm256_cvtepi32_ps (mm256_cvtepi8_epi32 trits) in
      let projected := mm256_mul_ps trits scale_vector in
      fmadd_at grad_row ki upstream_vector projected) grad_row in
    for_range simd_k k (fun ki grad_row =>
      let* u := idx upstream ni in
      let* w := idx weight_row ki in
      let* s := idx scales ni in
      add_at grad_row ki (f32_mul u (f32_mul (trit_f32 w) s))) grad_row) grad_row.

(** The trits of eight bytes, from the bit pair of [lane]. *)
Definition tq2_vector (lane : Z) (bytes : list Z) : list f32 :=
  let bytes := mm_loadl_epi64 bytes in
  let shifted := if lane =? 0 then bytes else mm_srli_epi16 (2 * lane) bytes in
  let codes := mm_and_si128 shifted (mm_set1_epi8 3) in
  let trits := mm_sub_epi8 codes (mm_set1_epi8 1) in
  mm256_cvtepi32_ps (mm256_cvtepi8_epi32 trits).

(** The elements of one lane of one chunk of a block: [group_k ..] clipped to [k]. *)
Definition tq2_group (row : list Z) (scales upstream : list f32) (upstream_vector scale_vector : list f32) (k ni block_index chunk lane : Z)
    (grad_row : list f32) : kres (list f32) :=
  let block_offset := block_index * TQ2_0_BLOCK_BYTES in
  let block_k := block_index * QK_K in
  let group_k := block_k + chunk * 128 + lane * 32 in
  if k <=? group_k then Ok grad_row else
  let group_len := Z.min (k - group_k) 32 in
  let simd_len := group_len - group_len mod 8 in
  let* grad_row := for_range 0 (simd_len / 8) (fun i grad_row =>
    let byte_index := i * 8 in
    let packed_offset := block_offset + chunk * 32 + byte_index in
    let* bytes := slice row packed_offset (packed_offset + 8) in
    let projected := mm256_mul_ps (tq2_vector lane bytes) scale_vector in
    fmadd_at grad_row (group_k + byte_index) upstream_vector projected) grad_row in
  for_range simd_len group_len (fun tail grad_row =>
    let ki := group_k + tail in
    let* trit := decode_tq2_trit row ki in
    let* u := idx upstream ni in
    let* s := idx scales ni in
    add_at grad_row ki (f32_mul u (f32_mul trit s))) grad_row.

Definition avx2_tq2_grad_act_row (grad_row : list f32) (packed_weights : list Z) (scales upstream : list f32) (n k row_bytes : Z)
  : kres (list f32) :=
  for_range 0 n (fun ni grad_row =>
    let* u := idx upstream ni in
    let upstream_vector := mm256_set1_ps u in
    let* s := idx scales ni in
    let scale_vector := mm256_set1_ps s in
    let* row := slice packed_weights (ni * row_bytes) ((ni + 1) * row_bytes) in
    for_range 0 (div_ceil k QK_K) (fun block_index =>
      for_range 0 2 (fun chunk =>
        for_range 0 4 (tq2_group row scales upstream upstream_vector scale_vector k ni block_index chunk))) grad_row) grad_row.

Definition avx2_grad_projected_weight_row (grad_row act grad_output : list f32) (ni m n k : Z) : kres (list f32) :=
  let simd_k := k - k mod 8 in
  for_range 0 m (fun mi grad_row =>
    let* upstream := idx grad_output (mi * n + ni) in
    let upstream_vector := mm256_set1_ps upstream in
    let* act_row := slice act (mi * k) ((mi + 1) * k) in
    let* grad_row := for_range 0 (simd_k / 8) (fun i grad_row =>
      let ki := i * 8 in
      let* activation := slice act_row ki (ki + 8) in
      fmadd_at grad_row ki upstream_vector activation) grad_row in
    for_range simd_k k (fun ki grad_row =>
      let* a := idx act_row ki in
      add_at grad_row ki (f32_mul upstream a)) grad_row) grad_row.

(** ** Parallel loops and dispatch *)

(** [l.par_chunks_mut(size).enumerate().for_each(task)]. *)
Definition par_rows (order : Z -> list Z) (l : list f32) (size : Z) (task : Z -> list f32 -> kres (list f32)) : kres (list f32) :=
  let* chunks := par_chunks l size in
  for_each (order chunks) (fun j l =>
    let* c := chunk_at l size j in
    let* c := task j c in
    write_slice l (j * size) c) l.

(** [values.par_iter_mut().enumerate()] with the sums of the upstream columns. *)
Definition bias_sums (order : Z -> list Z) (grad_output : list f32) (m n : Z) (values : list f32) : kres (list f32) :=
  for_each (order (zlen values)) (fun ni values =>
    let* acc := for_range 0 m (fun mi acc => let* g := idx grad_output (mi * n + ni) in Ok (f32_add acc g)) f32_zero in
    upd values ni acc) values.

Definition avx2_projected_vjp (order : Z -> Z -> list Z) (act : list f32) (weights : list Trit) (scales grad_output : list f32)
    (shape : GemmShape) (grad_act grad_projected_weight : list f32) : kres (list f32 * list f32) :=
  let '(m, n, k) := (gm shape, gn shape, gk shape) in
  let* grad_act := par_rows (order 0) grad_act k (fun mi grad_row =>
    let* upstream := slice grad_output (mi * n) ((mi + 1) * n) in
    avx2_grad_act_row grad_row weights scales upstream n k) in
  let* grad_projected_weight := par_rows (order 1) grad_projected_weight k (fun ni grad_row =>
    avx2_grad_projected_weight_row grad_row act grad_output ni m n k) in
  Ok (grad_act, grad_projected_weight).

Definition avx2_tq2_projected_vjp (order : Z -> Z -> list Z) (act : list f32) (packed_weights : list Z) (scales grad_output : list f32)
    (shape : GemmShape) (row_bytes : Z) (grad_act grad_projected_weight : list f32) : kres (list f32 * list f32) :=
  let '(m, n, k) := (gm shape, gn shape, gk shape) in
  let* grad_act := par_rows (order 0) grad_act k (fun mi grad_row =>
    let* upstream := slice grad_output (mi * n) ((mi + 1) * n) in
    avx2_tq2_grad_act_row grad_row packed_weights scales upstream n k row_bytes) in
  let* grad_projected_weight := par_rows (order 1) grad_projected_weight k (fun ni grad_row =>
    avx2_grad_projected_weight_row grad_row act grad_output ni m n k) in
  Ok (grad_act, grad_projected_weight).

(** [is_x86_feature_detected!("avx2") && is_x86_feature_detected!("fma")]. *)
Definition used_simd (host : Host) : bool :=
  match arch host with X86_64 => has_avx2 host && has_fma host | _ => false end.

(** The first pair of a length and what it should be that differ. *)
Definition check_lengths (lengths : list (Z * Z)) (grad_bias : option (list f32)) (n : Z) : kres unit :=
  match find (fun p => negb (p.1 =? p.2)) lengths with
  | Some (got, expected) => Err (ShapeMismatch expected got)
  | None =>
      match grad_bias with
      | Some values => if negb (zlen values =? n) then Err (ShapeMismatch n (zlen values)) else Ok tt
      | None => Ok tt
      end
  end.

(** [values.fill(0.0)]. *)
Definition zeros (l : list f32) : list f32 := vec f32_zero (zlen l).

Definition dispatch_mpgemm_projected_vjp (host : Host) (order : Z -> Z -> list Z) (act : list f32) (weights : list Trit)
    (scales grad_output : list f32) (shape : GemmShape) (grad_act grad_projected_weight : list f32) (grad_bias : option (list f32))
  : kres (list f32 * list f32 * option (list f32)) :=
  let '(m, n, k) := (gm shape, gn shape, gk shape) in
  let* mk := ok_or (checked_mul m k) (InvalidInput (Text "M*K element count overflows")) in
  let* nk := ok_or (checked_mul n k) (InvalidInput (Text "N*K element count overflows")) in
  let* mn := ok_or (checked_mul m n) (InvalidInput (Text "M*N element count overflows")) in
  let* _ := check_lengths [(zlen act, mk); (zlen weights, nk); (zlen scales, n); (zlen grad_output, mn); (zlen grad_act, mk);
    (zlen grad_projected_weight, nk)] grad_bias n in
  let grad_act := zeros grad_act in
  let grad_projected_weight := zeros grad_projected_weight in
  if (m =? 0) || (n =? 0) then Ok (grad_act, grad_projected_weight, zeros <$> grad_bias) else
  let* (grad_act, grad_projected_weight) :=
    if 0 <? k then
      if used_simd host then avx2_projected_vjp order act weights scales grad_output shape grad_act grad_projected_weight else
      let* grad_act := par_rows (order 0) grad_act k (grad_act_row weights scales grad_output n k) in
      let* grad_projected_weight := par_rows (order 1) grad_projected_weight k (grad_weight_row act grad_output m n k) in
      Ok (grad_act, grad_projected_weight)
    else Ok (grad_act, grad_projected_weight) in
  match grad_bias with
  | Some values =>
      let* values := bias_sums (order 2) grad_output m n values in
      Ok (grad_act, grad_projected_weight, Some values)
  | None => Ok (grad_act, grad_projected_weight, None)
  end.

Definition dispatch_tq2_projected_vjp (host : Host) (order : Z -> Z -> list Z) (act : list f32) (packed_weights : list Z)
    (scales grad_output : list f32) (shape : GemmShape) (grad_act grad_projected_weight : list f32) (grad_bias : option (list f32))
  : kres (list f32 * list f32 * option (list f32)) :=
  let '(m, n, k) := (gm shape, gn shape, gk shape) in
  let blocks := div_ceil k QK_K in
  let* row_bytes := ok_or (checked_mul blocks TQ2_0_BLOCK_BYTES) (InvalidInput (Text "TQ2_0 packed row byte count overflows")) in
  let* packed_len := ok_or (checked_mul n row_bytes) (InvalidInput (Text "TQ2_0 packed weight byte count overflows")) in
  if negb (zlen packed_weights =? packed_len) then Err (ShapeMismatch packed_len (zlen packed_weights)) else
  let* mk := ok_or (checked_mul m k) (InvalidInput (Text "M*K element count overflows")) in
  let* nk := ok_or (checked_mul n k) (InvalidInput (Text "N*K element count overflows")) in
  let* mn := ok_or (checked_mul m n) (InvalidInput (Text "M*N element count overflows")) in
  let* _ := check_lengths [(zlen act, mk); (zlen scales, n); (zlen grad_output, mn); (zlen grad_act, mk);
    (zlen grad_projected_weight, nk)] grad_bias n in
  let grad_act := zeros grad_act in
  let grad_projected_weight := zeros grad_projected_weight in
  if (m =? 0) || (n =? 0) then Ok (grad_act, grad_projected_weight, zeros <$> grad_bias) else
  let* (grad_act, grad_projected_weight) :=
    if 0 <? k then
      if used_simd host
      then avx2_tq2_projected_vjp order act packed_weights scales grad_output shape row_bytes grad_act grad_projected_weight else
      let* grad_act := par_rows (order 0) grad_act k (tq2_grad_act_row packed_weights scales grad_output n row_bytes) in
      let* grad_projected_weight := par_rows (order 1) grad_projected_weight k (grad_weight_row act grad_output m n k) in
      Ok (grad_act, grad_projected_weight)
    else Ok (grad_act, grad_projected_weight) in
  match grad_bias with
  | Some values =>
      let* values := bias_sums (order 2) grad_output m n values in
      Ok (grad_act, grad_projected_weight, Some values)
  | None => Ok (grad_act, grad_projected_weight, None)
  end.

Definition mpgemm_projected_vjp (host : Host) (order : Z -> Z -> list Z) (act : list f32) (buffer : CpuBuffer) (scales grad_output : list f32)
    (shape : GemmShape) (format : TernaryFormat) (grad_act grad_projected_weight : list f32) (grad_bias : option (list f32))
  : kres (list f32 * list f32 * option (list f32)) :=
  let* _ := validate_identity buffer shape format in
  match format with
  | Tq2_0 =>
      match cb_tq2_invalid_row buffer with
      | Some ni => Err (BackendFailure (Formatted "unpack row" [ni]))
      | None => dispatch_tq2_projected_vjp host order act (cb_bytes buffer) scales grad_output shape grad_act grad_projected_weight grad_bias
      end
  | Tq1_0 =>
      let* trits := unpack_weights buffer shape format in
      dispatch_mpgemm_projected_vjp host order act trits scales grad_output shape grad_act grad_projected_weight grad_bias
  | other => Err (UnsupportedFormat other)
  end.

(** The fused form keeps what the rounded product loses: with [x = 1 + 2^-23], the sum
    [x * x - (1 + 2^-22)] is [2^-46] fused and zero otherwise. *)
Lemma fma_rounds_once :
  let x := S754_finite false 8388609 (-23) in
  let y := S754_finite true 8388610 (-23) in
  f32_fma x x y = S754_finite false 8388608 (-69) /\ f32_add y (f32_mul x x) = f32_zero.
Proof. vm_compute. split; reflexivity. Qed.
