(* ===== verification/CpuGradExact.v ===== *)
(** * Exactness of the gradients

    What the gradient kernels of CpuGrad compute, value by value: each entry is a sum in a
    fixed order, fused where the host fuses. The kernels that read packed bytes compute
    the same floats as those over decoded trits, whatever order the tasks run in. *)

From Stdlib Require Import ZArith Lia Bool String Floats.SpecFloat.
From stdpp Require Import base list numbers.
From S2P Require Import Prelude Core FormatBase TwoBit TQ2 Rows F32 FloatOrder Plane FloatExact Spec Reference CpuKernels CpuExact CpuBackend CpuGrad.

#[local] Open Scope Z_scope.

Abbreviation fget l i := (nth (Z.to_nat i) l f32_zero).

(** ** The entries *)

Definition madd (fused : bool) (u p acc : f32) : f32 := if fused then f32_fma u p acc else f32_add acc (f32_mul u p).

(** Entries below the last multiple of eight are fused on hosts with AVX2 and FMA. *)
Definition fused (simd : bool) (k ki : Z) : bool := simd && (ki <? k - k mod 8).

(** The term of output [ni] in the gradient of an activation, and of row [mi] in that of a
    weight. *)
Definition act_term (simd : bool) (weights : list Trit) (scales grad_output : list f32) (n k mi ni ki : Z) (acc : f32) : f32 :=
  madd (fused simd k ki) (fget grad_output (mi * n + ni)) (f32_mul (trit_f32 (tget weights (ni * k + ki))) (fget scales ni)) acc.
Definition weight_term (simd : bool) (act grad_output : list f32) (n k ni mi ki : Z) (acc : f32) : f32 :=
  madd (fused simd k ki) (fget grad_output (mi * n + ni)) (fget act (mi * k + ki)) acc.

Definition grad_act_cell (simd : bool) (weights : list Trit) (scales grad_output : list f32) (n k mi ki : Z) : f32 :=
  foldl (fun acc ni => act_term simd weights scales grad_output n k mi ni ki acc) f32_zero (seqZ 0 n).
Definition grad_weight_cell (simd : bool) (act grad_output : list f32) (m n k ni ki : Z) : f32 :=
  foldl (fun acc mi => weight_term simd act grad_output n k ni mi ki acc) f32_zero (seqZ 0 m).
Definition bias_cell (grad_output : list f32) (m n ni : Z) : f32 :=
  foldl (fun acc mi => f32_add acc (fget grad_output (mi * n + ni))) f32_zero (seqZ 0 m).

(** The three results. *)
Definition gradients (simd : bool) (act : list f32) (weights : list Trit) (scales grad_output : list f32) (s : GemmShape)
    (grad_bias : option (list f32)) : list f32 * list f32 * option (list f32) :=
  let '(m, n, k) := (gm s, gn s, gk s) in
  (tabulate (m * k) (fun i => grad_act_cell simd weights scales grad_output n k (i / k) (i mod k)),
   tabulate (n * k) (fun i => grad_weight_cell simd act grad_output m n k (i / k) (i mod k)),
   (fun _ => tabulate n (bias_cell grad_output m n)) <$> grad_bias).

(** ** Rows *)

Lemma seqZ_snoc n : 0 <= n -> seqZ 0 (n + 1) = seqZ 0 n ++ [n].
Proof. intros Hn. rewrite seqZ_app by lia. by rewrite Z.add_0_l, (seqZ_cons n 1), (seqZ_nil (Z.succ n)) by lia. Qed.

Lemma fget_tabulate n (f : Z -> f32) i : 0 <= i < n -> fget (tabulate n f) i = f i.
Proof. intros Hi. apply nth_lookup_Some. by apply lookup_tabulate. Qed.

Lemma fget_sub l a b i : 0 <= a -> 0 <= i < b - a -> b <= zlen l -> fget (sub l a b) i = fget l (a + i).
Proof.
  intros Ha Hi Hb. destruct (lookup_Z l (a + i) ltac:(lia)) as [x Hx]. rewrite (nth_lookup_Some l _ _ x Hx).
  apply nth_lookup_Some. by rewrite lookup_sub by lia.
Qed.

(** A loop whose body adds a term to every entry of a row sums the terms. *)
Lemma adds_fold (k n : Z) (body : Z -> list f32 -> kres (list f32)) (step : Z -> Z -> f32 -> f32) row :
  0 <= k -> 0 <= n ->
  (forall ni row, 0 <= ni < n -> zlen row = k -> body ni row = Ok (tabulate k (fun ki => step ni ki (fget row ki)))) ->
  zlen row = k ->
  for_range 0 n body row = Ok (tabulate k (fun ki => foldl (fun acc ni => step ni ki acc) (fget row ki) (seqZ 0 n))).
Proof.
  intros Hk Hn Hb Hl.
  destruct (for_range_inv (fun ni r => r = tabulate k (fun ki => foldl (fun acc ni => step ni ki acc) (fget row ki) (seqZ 0 ni))) body 0 n row)
    as (r & Hr & ->); [lia| | |exact Hr].
  - apply tabulate_lookup; [lia|done|]. intros i Hi. rewrite seqZ_nil by lia. apply nth_lookup_Z. lia.
  - intros ni r Hni ->. rewrite Hb by (rewrite ?zlen_tabulate; lia). eexists. split; [done|].
    apply tabulate_ext. intros ki Hki. rewrite fget_tabulate by lia. rewrite seqZ_snoc by lia. by rewrite foldl_app.
Qed.

(** The row written up to [p], from left to right. *)
Section left_to_right.
Context (row0 : list f32) (g : Z -> f32).

Lemma unwritten p row i : wrote (interval 0 p) g row0 row -> p <= i < zlen row0 -> 0 <= i -> row !! Z.to_nat i = row0 !! Z.to_nat i.
Proof. intros [_ H] Hi H0. rewrite H by lia. unfold interval. by replace (_ && _) with false by lia. Qed.

Lemma add_at_Ok p row v :
  wrote (interval 0 p) g row0 row -> 0 <= p < zlen row0 -> g p = f32_add (fget row0 p) v ->
  exists row', add_at row p v = Ok row' /\ wrote (interval 0 (p + 1)) g row0 row'.
Proof.
  intros Hw Hp Hg. pose proof (proj1 Hw) as Hl. unfold add_at.
  rewrite (idx_Ok row p (fget row0 p)); [|lia|rewrite (unwritten p) by (done || lia); by apply nth_lookup_Z].
  cbn [bind]. rewrite upd_Ok, <- Hg by lia. eexists. split; [done|].
  apply (wrote_trans _ _ _ _ _ _ _ Hw (wrote_upd g row p ltac:(lia))). intros j Hj. unfold interval. lia.
Qed.

Lemma fmadd_at_Ok p row us ps :
  wrote (interval 0 p) g row0 row -> 0 <= p -> p + 8 <= zlen row0 -> zlen us = 8 -> zlen ps = 8 ->
  (forall i, 0 <= i < 8 -> g (p + i) = f32_fma (fget us i) (fget ps i) (fget row0 (p + i))) ->
  exists row', fmadd_at row p us ps = Ok row' /\ wrote (interval 0 (p + 8)) g row0 row'.
Proof.
  intros Hw Hp Hp8 Hu Hps Hg. pose proof (proj1 Hw) as Hl. unfold fmadd_at. rewrite slice_Ok by lia. cbn [bind].
  assert (Lf : zlen (mm256_fmadd_ps us ps (sub row p (p + 8))) = 8).
  { unfold mm256_fmadd_ps, zlen in *. rewrite !length_zip_with. pose proof (zlen_sub row p (p + 8) Hp ltac:(lia) ltac:(unfold zlen; lia)) as Hs.
    unfold zlen in Hs. lia. }
  rewrite write_slice_Ok by lia. eexists. split; [done|].
  refine (wrote_trans _ _ _ _ _ _ _ Hw (wrote_splice g row _ p Hp _ _) _); [lia| |intros j Hj; rewrite Lf; unfold interval; lia].
  rewrite Lf. intros i Hi. unfold mm256_fmadd_ps. rewrite !lookup_zip_with.
  rewrite (nth_lookup_Z us i f32_zero), (nth_lookup_Z ps i f32_zero) by lia. cbn.
  rewrite lookup_sub, (unwritten p), (nth_lookup_Z row0 (p + i) f32_zero) by (done || lia). cbn. by rewrite Hg.
Qed.

(** Registers of eight, then the rest one by one. *)
Lemma row_pass (base len : Z) (vbody tbody : Z -> list f32 -> kres (list f32)) row :
  0 <= len ->
  wrote (interval 0 base) g row0 row ->
  (forall i row, 0 <= i -> i * 8 + 8 <= len -> wrote (interval 0 (base + i * 8)) g row0 row ->
     exists row', vbody i row = Ok row' /\ wrote (interval 0 (base + i * 8 + 8)) g row0 row') ->
  (forall t row, len - len mod 8 <= t < len -> wrote (interval 0 (base + t)) g row0 row ->
     exists row', tbody t row = Ok row' /\ wrote (interval 0 (base + t + 1)) g row0 row') ->
  exists row', (let* row := for_range 0 ((len - len mod 8) / 8) vbody row in for_range (len - len mod 8) len tbody row) = Ok row' /\
    wrote (interval 0 (base + len)) g row0 row'.
Proof.
  intros Hlen Hw Hv Ht. pose proof (Z.mod_pos_bound len 8 ltac:(lia)) as Hm. pose proof (Z.div_mod len 8 ltac:(lia)) as Hd.
  assert (Hq : (len - len mod 8) / 8 = len / 8) by (rewrite Hd at 1; replace (8 * (len / 8) + len mod 8 - len mod 8) with (len / 8 * 8) by lia; apply Z.div_mul; lia).
  rewrite Hq. pose proof (Z.div_pos len 8 ltac:(lia) ltac:(lia)).
  destruct (for_range_inv (fun i r => wrote (interval 0 (base + i * 8)) g row0 r) vbody 0 (len / 8) row) as (r1 & -> & H1).
  - lia.
  - by replace (base + 0 * 8) with base by lia.
  - intros i r Hi Hr. destruct (Hv i r) as (r' & -> & Hr'); [lia|nia|done|]. exists r'. split; [done|].
    by replace (base + (i + 1) * 8) with (base + i * 8 + 8) by lia.
  - cbn [bind]. destruct (for_range_inv (fun t r => wrote (interval 0 (base + t)) g row0 r) tbody (len - len mod 8) len r1) as (r2 & -> & H2).
    + lia.
    + by replace (base + (len - len mod 8)) with (base + len / 8 * 8) by lia.
    + intros t r Hi Hr. destruct (Ht t r) as (r' & -> & Hr'); [lia|done|]. exists r'. split; [done|].
      by replace (base + (t + 1)) with (base + t + 1) by lia.
    + by exists r2.
Qed.
End left_to_right.

Lemma wrote_row (row0 : list f32) g row k : wrote (interval 0 k) g row0 row -> zlen row0 = k -> row = tabulate k g.
Proof. intros Hw Hl. apply (wrote_full _ _ _ _ k Hw Hl). intros j Hj. unfold interval. lia. Qed.

Lemma zip_mut_Ok {A B} (f : A -> B -> kres A) (h : A -> B -> A) l xs :
  length l = length xs -> (forall a b, b ∈ xs -> f a b = Ok (h a b)) -> zip_mut f l xs = Ok (zip_with h l xs).
Proof.
  revert xs. induction l as [|a l IH]; intros [|b xs] Hl Hf; try done. cbn [zip_mut zip_with].
  rewrite Hf by (apply elem_of_cons; by left). cbn [bind]. rewrite IH; [done|by injection Hl|]. intros a' b' Hb. apply Hf, elem_of_cons. by right.
Qed.

(** ** Tasks *)

Lemma par_rows_Ok order l k c task (v : Z -> Z -> f32) :
  0 < k -> 0 <= c -> zlen l = c * k -> Permutation (order c) (seqZ 0 c) ->
  (forall j, 0 <= j < c -> task j (row l k j) = Ok (tabulate k (v j))) ->
  par_rows order l k task = Ok (tabulate (c * k) (fun i => v (i / k) (i mod k))).
Proof.
  intros Hk Hc Hl Hp Ht. unfold par_rows, par_chunks. replace (k =? 0) with false by lia. cbn [bind].
  assert (Hd : div_ceil (zlen l) k = c).
  { rewrite Hl. unfold div_ceil. rewrite Z.div_add_l, Z.div_small by lia. lia. }
  rewrite Hd. set (D := fun (js : list Z) i => existsb (fun j => interval (j * k) (j * k + k) i) js).
  assert (Hnd : NoDup (order c)) by (rewrite Hp; apply NoDup_seqZ).
  assert (Hin : forall j, j ∈ order c -> 0 <= j < c) by (intros j Hj; rewrite Hp in Hj; apply elem_of_seqZ in Hj; lia).
  match goal with |- for_each _ ?body _ = _ =>
    destruct (for_each_inv (fun pre r => wrote (D pre) (fun i => v (i / k) (i mod k)) l r) body (order c) l) as (r & Hr & Hw) end.
  - by apply wrote_nothing.
  - intros pre j post r Ho Hw. assert (Hj : 0 <= j < c) by (apply Hin; rewrite Ho; apply elem_of_app; right; apply elem_of_cons; by left).
    assert (Hjp : j ∉ pre). { rewrite Ho in Hnd. apply list.NoDup_app in Hnd as (_ & Hdis & _). intros Hj'. apply (Hdis j Hj'), elem_of_cons. by left. }
    assert (Hrow : row r k j = row l k j).
    { apply list_eq_Z; [rewrite !(zlen_row _ c); try done; try lia; by rewrite (proj1 Hw)|].
      rewrite (zlen_row _ c) by (rewrite ?(proj1 Hw); done || lia). intros i Hi. unfold row. rewrite !lookup_sub by nia.
      rewrite (proj2 Hw) by nia. replace (D pre (j * k + i)) with false; [done|]. symmetry. apply not_true_iff_false. unfold D. rewrite existsb_exists.
      intros (j' & Hj' & Hint). apply Hjp. apply list_elem_of_In in Hj'. unfold interval in Hint.
      assert (j' = j) as -> by nia. done. }
    unfold chunk_at. rewrite (proj1 Hw), Hl. replace (Z.min (j * k + k) (c * k)) with (j * k + k) by nia.
    rewrite (slice_row _ c) by (rewrite ?(proj1 Hw); done || lia). cbn [bind]. rewrite Hrow, Ht by done. cbn [bind].
    rewrite write_slice_Ok by (rewrite ?zlen_tabulate, ?(proj1 Hw); nia). eexists. split; [done|].
    refine (wrote_trans _ _ _ _ _ _ _ Hw (wrote_splice _ _ _ _ _ _ _) _); [nia|rewrite zlen_tabulate, (proj1 Hw); nia| |].
    + rewrite zlen_tabulate. intros i Hi. rewrite lookup_tabulate by lia. destruct (row_cell k j i) as [-> ->]; [lia|lia|done].
    + intros i Hi. unfold D. rewrite existsb_app, zlen_tabulate. cbn [existsb]. rewrite orb_false_r. by replace (Z.max 0 k) with k by lia.
  - rewrite Hr. f_equal. apply (wrote_full _ _ _ _ (c * k) Hw Hl). intros i Hi. unfold D. apply existsb_exists.
    pose proof (Z.div_mod i k ltac:(lia)). pose proof (Z.mod_pos_bound i k Hk). exists (i / k). split; [|unfold interval; nia].
    apply list_elem_of_In. rewrite Hp. apply elem_of_seqZ. split; [apply Z.div_pos; lia|]. apply Z.div_lt_upper_bound; lia.
Qed.

Lemma bias_sums_Ok order grad_output m n values :
  0 <= m -> 0 <= n -> zlen grad_output = m * n -> zlen values = n -> Permutation (order n) (seqZ 0 n) ->
  bias_sums order grad_output m n values = Ok (tabulate n (bias_cell grad_output m n)).
Proof.
  intros Hm Hn Hg Hv Hp. unfold bias_sums. rewrite Hv.
  match goal with |- for_each _ ?body _ = _ =>
    destruct (for_each_inv (fun pre r => wrote (fun i => existsb (Z.eqb i) pre) (bias_cell grad_output m n) values r) body (order n) values) as (r & Hr & Hw) end.
  - by apply wrote_nothing.
  - intros pre ni post r Ho Hw. assert (Hni : 0 <= ni < n).
    { assert (H : ni ∈ order n) by (rewrite Ho; apply elem_of_app; right; apply elem_of_cons; by left). rewrite Hp in H. apply elem_of_seqZ in H. lia. }
    match goal with |- context [for_range 0 m ?body ?a0] =>
      destruct (for_range_inv (fun mi a => a = foldl (fun acc mi => f32_add acc (fget grad_output (mi * n + ni))) f32_zero (seqZ 0 mi)) body 0 m a0) as (a & -> & ->) end.
    + lia.
    + by rewrite seqZ_nil by lia.
    + intros mi a Hmi ->. rewrite (idx_nth grad_output (mi * n + ni) f32_zero) by nia. cbn [bind]. eexists. split; [done|].
      by rewrite seqZ_snoc, foldl_app by lia.
    + cbn [bind]. rewrite upd_Ok by (rewrite (proj1 Hw); lia). eexists. split; [done|].
      refine (wrote_trans _ _ _ _ _ _ _ Hw (wrote_upd (bias_cell grad_output m n) r ni _) _); [rewrite (proj1 Hw); lia|].
      intros i Hi. rewrite existsb_app. cbn [existsb]. rewrite orb_false_r. unfold interval. f_equal. lia.
  - rewrite Hr. f_equal. apply (wrote_full _ _ _ _ n Hw Hv). intros i Hi. apply existsb_exists. exists i. split; [|lia].
    apply list_elem_of_In. rewrite Hp. apply elem_of_seqZ. lia.
Qed.

(** ** The kernels over decoded trits *)

Lemma tget_row weights n k ni ki :
  0 <= k -> zlen weights = n * k -> 0 <= ni < n -> 0 <= ki < k -> row weights k ni !! Z.to_nat ki = Some (tget weights (ni * k + ki)).
Proof.
  intros Hk Hw Hn Hki. unfold row, tget. rewrite lookup_sub by nia. destruct (lookup_Z weights (ni * k + ki) ltac:(nia)) as [t Ht]. by rewrite Ht.
Qed.

Lemma fget_row l n k i j : 0 <= k -> zlen l = n * k -> 0 <= i < n -> 0 <= j < k -> fget (row l k i) j = fget l (i * k + j).
Proof. intros Hk Hl Hi Hj. unfold row. apply fget_sub; nia. Qed.

Lemma fget_set1 (x : f32) i : 0 <= i < 8 -> fget (mm256_set1_ps x) i = x.
Proof. intros Hi. apply nth_lookup_Some. by apply lookup_vec. Qed.

(** Eight trits, widened and scaled. *)
Lemma widened (zs : list Z) s i z :
  zlen zs = 8 -> 0 <= i < 8 -> zs !! Z.to_nat i = Some z ->
  fget (mm256_mul_ps (f32_of_Z <$> zs) (mm256_set1_ps s)) i = f32_mul (f32_of_Z z) s.
Proof.
  intros Hl Hi Hz. apply nth_lookup_Some. unfold mm256_mul_ps, mm256_set1_ps. rewrite lookup_zip_with, list_lookup_fmap, Hz. cbn.
  by rewrite lookup_vec by lia.
Qed.

Lemma zlen_widened zs s : zlen zs = 8 -> zlen (mm256_mul_ps (f32_of_Z <$> zs) (mm256_set1_ps s)) = 8.
Proof. intros Hl. unfold mm256_mul_ps, mm256_set1_ps, zlen in *. rewrite length_zip_with, length_fmap. unfold vec. rewrite length_replicate. lia. Qed.

Lemma load_trits (bytes : list Z) : zlen bytes = 8 -> mm256_cvtepi8_epi32 (mm_loadl_epi64 bytes) = bytes.
Proof. intros Hl. unfold mm256_cvtepi8_epi32, mm_loadl_epi64. apply take_app_length'. unfold zlen in Hl. lia. Qed.

Lemma fused_vector k i j : 0 <= i -> i * 8 + 8 <= k -> 0 <= j < 8 -> fused true k (i * 8 + j) = true.
Proof. intros Hi Hk Hj. unfold fused. cbn [andb]. pose proof (Z.div_mod k 8 ltac:(lia)). pose proof (Z.mod_pos_bound k 8 ltac:(lia)). assert (i + 1 <= k / 8) by (apply Z.div_le_lower_bound; lia). lia. Qed.

Lemma fused_tail simd k ki : k - k mod 8 <= ki -> fused simd k ki = false.
Proof. intros H. unfold fused. replace (ki <? k - k mod 8) with false by lia. apply andb_false_r. Qed.

Section rows.
Context (act : list f32) (weights : list Trit) (scales grad_output : list f32) (m n k : Z).
Context (Hm : 0 <= m) (Hn : 0 <= n) (Hk : 0 <= k).
Context (Ha : zlen act = m * k) (Hw : zlen weights = n * k) (Hs : zlen scales = n) (Hg : zlen grad_output = m * n).

Abbreviation act_sum simd mi row0 :=
  (tabulate k (fun ki => foldl (fun acc ni => act_term simd weights scales grad_output n k mi ni ki acc) (fget row0 ki) (seqZ 0 n))).
Abbreviation weight_sum simd ni row0 :=
  (tabulate k (fun ki => foldl (fun acc mi => weight_term simd act grad_output n k ni mi ki acc) (fget row0 ki) (seqZ 0 m))).

Lemma grad_act_row_Ok mi row0 : 0 <= mi < m -> zlen row0 = k ->
  grad_act_row weights scales grad_output n k mi row0 = Ok (act_sum false mi row0).
Proof.
  intros Hmi Hr. apply adds_fold; [done|done| |done]. intros ni r Hni Hl. rewrite (idx_nth grad_output _ f32_zero) by nia. cbn [bind].
  replace ((ni + 1) * k) with (ni * k + k) by lia. rewrite (slice_row _ n) by (done || lia). cbn [bind].
  rewrite (zip_mut_Ok _ (fun g t => f32_add g (f32_mul (fget grad_output (mi * n + ni)) (f32_mul (trit_f32 t) (fget scales ni))))).
  - f_equal. pose proof (zlen_row weights n k ni Hk Hw Hni) as Lr. apply tabulate_lookup; [done|unfold zlen in *; rewrite length_zip_with; lia|].
    intros i Hi. rewrite lookup_zip_with, (nth_lookup_Z r i f32_zero) by lia. cbn. by rewrite (tget_row _ n) by (done || lia).
  - pose proof (zlen_row weights n k ni Hk Hw Hni). unfold zlen in *. lia.
  - intros g t _. by rewrite (idx_nth scales _ f32_zero) by lia.
Qed.

Lemma grad_weight_row_Ok ni row0 : 0 <= ni < n -> zlen row0 = k ->
  grad_weight_row act grad_output m n k ni row0 = Ok (weight_sum false ni row0).
Proof.
  intros Hni Hr. apply adds_fold; [done|done| |done]. intros mi r Hmi Hl. rewrite (idx_nth grad_output _ f32_zero) by nia. cbn [bind].
  replace ((mi + 1) * k) with (mi * k + k) by lia. rewrite (slice_row _ m) by (done || lia). cbn [bind].
  pose proof (zlen_row act m k mi Hk Ha Hmi) as Lr.
  rewrite (zip_mut_Ok _ (fun g a => f32_add g (f32_mul (fget grad_output (mi * n + ni)) a))); [|unfold zlen in *; lia|done].
  f_equal. apply tabulate_lookup; [done|unfold zlen in *; rewrite length_zip_with; lia|].
  intros i Hi. rewrite lookup_zip_with, (nth_lookup_Z r i f32_zero), (nth_lookup_Z (row act k mi) i f32_zero) by lia. cbn.
  by rewrite (fget_row _ m) by (done || lia).
Qed.

Lemma avx2_grad_act_row_Ok mi row0 : 0 <= mi < m -> zlen row0 = k ->
  avx2_grad_act_row row0 weights scales (row grad_output n mi) n k = Ok (act_sum true mi row0).
Proof.
  intros Hmi Hr. unfold avx2_grad_act_row. apply adds_fold; [done|done| |done]. intros ni r Hni Hl.
  pose proof (zlen_row grad_output m n mi Hn Hg Hmi) as Lg.
  rewrite (idx_nth (row grad_output n mi) ni f32_zero), (fget_row _ m) by (done || lia). cbn [bind].
  rewrite (idx_nth scales ni f32_zero) by lia. cbn [bind].
  replace ((ni + 1) * k) with (ni * k + k) by lia. rewrite (slice_row _ n) by (done || lia). cbn [bind].
  pose proof (zlen_row weights n k ni Hk Hw Hni) as Lw. set (g := fun ki => act_term true weights scales grad_output n k mi ni ki (fget r ki)).
  match goal with |- bind (for_range 0 _ ?vb _) (fun x => for_range _ _ ?tb x) = _ =>
    destruct (row_pass r g 0 k vb tb r) as (r' & -> & Hw') end; [done| | | |f_equal; by apply (wrote_row r)].
  - apply wrote_nothing. intros j Hj. unfold interval. lia.
  - intros i r1 Hi0 Hi Hw1. rewrite slice_Ok by (rewrite ?zlen_fmap; lia). cbn [bind]. set (bytes := sub (get <$> _) _ _).
    assert (Lb : zlen bytes = 8) by (unfold bytes; rewrite zlen_sub; rewrite ?zlen_fmap; lia).
    rewrite load_trits by done. unfold mm256_cvtepi32_ps. rewrite Z.add_0_l in *. apply (fmadd_at_Ok r g); [done|lia|lia|done|by apply zlen_widened|].
    intros j Hj. rewrite fget_set1 by lia. rewrite (widened bytes _ j (get (tget weights (ni * k + (i * 8 + j))))) by
      (done || (unfold bytes; rewrite lookup_sub, list_lookup_fmap, (tget_row _ n) by (done || lia); done)).
    unfold g, act_term. by rewrite fused_vector.
  - intros t r1 Ht Hw1. pose proof (Z.mod_le k 8 Hk ltac:(lia)). rewrite (idx_Ok _ t _ ltac:(lia) (tget_row weights n k ni t Hk Hw Hni ltac:(lia))). cbn [bind].
    rewrite Z.add_0_l in *. apply (add_at_Ok r g); [done|lia|].
    unfold g, act_term. by rewrite fused_tail by lia.
Qed.

Lemma avx2_grad_weight_row_Ok ni row0 : 0 <= ni < n -> zlen row0 = k ->
  avx2_grad_projected_weight_row row0 act grad_output ni m n k = Ok (weight_sum true ni row0).
Proof.
  intros Hni Hr. unfold avx2_grad_projected_weight_row. apply adds_fold; [done|done| |done]. intros mi r Hmi Hl.
  rewrite (idx_nth grad_output _ f32_zero) by nia. cbn [bind].
  replace ((mi + 1) * k) with (mi * k + k) by lia. rewrite (slice_row _ m) by (done || lia). cbn [bind].
  pose proof (zlen_row act m k mi Hk Ha Hmi) as La. set (g := fun ki => weight_term true act grad_output n k ni mi ki (fget r ki)).
  match goal with |- bind (for_range 0 _ ?vb _) (fun x => for_range _ _ ?tb x) = _ =>
    destruct (row_pass r g 0 k vb tb r) as (r' & -> & Hw') end; [done| | | |f_equal; by apply (wrote_row r)].
  - apply wrote_nothing. intros j Hj. unfold interval. lia.
  - intros i r1 Hi0 Hi Hw1. rewrite slice_Ok by lia. cbn [bind]. rewrite Z.add_0_l in *.
    apply (fmadd_at_Ok r g); [done|lia|lia|done|rewrite zlen_sub; lia|].
    intros j Hj. rewrite fget_set1, fget_sub, (fget_row _ m) by (done || lia). unfold g, weight_term. by rewrite fused_vector.
  - intros t r1 Ht Hw1. pose proof (Z.mod_le k 8 Hk ltac:(lia)). rewrite (idx_nth _ t f32_zero), (fget_row _ m) by (done || lia). cbn [bind].
    rewrite Z.add_0_l in *. apply (add_at_Ok r g); [done|lia|]. unfold g, weight_term. by rewrite fused_tail by lia.
Qed.
End rows.

(** ** The kernels over packed bytes *)

(** The bytes of a row of [k] trits: the code of each is its bit pair. *)
Record tq2_row (bytes : list Z) (ws : list Trit) (k : Z) : Prop := {
  tr_len : zlen bytes = div_ceil k QK_K * TQ2_0_BLOCK_BYTES;
  tr_bytes : bytes_ok bytes;
  tr_code ki : 0 <= ki < k ->
    pair2 (bget bytes (ki / QK_K * TQ2_0_BLOCK_BYTES + tq2_pos (ki mod QK_K))) (tq2_slot (ki mod QK_K)) = code (tget ws ki) }.

Lemma code_trit t : f32_sub (f32_of_Z (code t)) (f32_of_Z 1) = trit_f32 t.
Proof. destruct t; vm_compute; reflexivity. Qed.

(** Shifting 16-bit lanes moves bits between bytes only above the pair that is kept. *)
Lemma srli_low lo hi lane : 0 < lane < 4 -> Z.land (Z.shiftr (lo + 256 * hi) (2 * lane) mod 256) 3 = pair2 lo lane.
Proof.
  intros Hl. unfold pair2. change 3 with (Z.ones 2). rewrite !Z.land_ones by lia. rewrite !Z.shiftr_div_pow2 by lia.
  assert (lane = 1 \/ lane = 2 \/ lane = 3) as [->|[->| ->]] by lia; change (2 ^ (2 * 1)) with 4; change (2 ^ (2 * 2)) with 16; change (2 ^ (2 * 3)) with 64;
    change (2 ^ 2) with 4; Z.div_mod_to_equations; lia.
Qed.

Lemma srli_high lo hi lane : 0 < lane < 4 -> is_u8 lo -> Z.land (Z.shiftr (lo + 256 * hi) (2 * lane) / 256) 3 = pair2 hi lane.
Proof.
  intros Hl Hu. unfold is_u8 in Hu. unfold pair2. change 3 with (Z.ones 2). rewrite !Z.land_ones by lia. rewrite !Z.shiftr_div_pow2 by lia.
  assert (lane = 1 \/ lane = 2 \/ lane = 3) as [->|[->| ->]] by lia; change (2 ^ (2 * 1)) with 4; change (2 ^ (2 * 2)) with 16; change (2 ^ (2 * 3)) with 64;
    change (2 ^ 2) with 4; Z.div_mod_to_equations; lia.
Qed.

Lemma wrap_pair b lane : wrap 8 (pair2 b lane - 1) = pair2 b lane - 1.
Proof. pose proof (pair2_range b lane). unfold wrap. change (2 ^ (8 - 1)) with 128. change (2 ^ 8) with 256. rewrite Z.mod_small; lia. Qed.

Lemma tq2_vector_Ok lane bytes : 0 <= lane < 4 -> zlen bytes = 8 -> bytes_ok bytes ->
  tq2_vector lane bytes = f32_of_Z <$> ((fun b => pair2 b lane - 1) <$> bytes).
Proof.
  intros Hl Hz Hu. destruct bytes as [|b0 [|b1 [|b2 [|b3 [|b4 [|b5 [|b6 [|b7 [|]]]]]]]]]; try (unfold zlen in Hz; simpl in Hz; lia).
  repeat match goal with H : bytes_ok (_ :: _) |- _ => apply list.Forall_cons in H as [? H] end.
  unfold tq2_vector, mm256_cvtepi32_ps. f_equal. unfold mm256_cvtepi8_epi32, mm_loadl_epi64, mm_set1_epi8, mm_and_si128, mm_sub_epi8.
  change (vec 3 16) with [3; 3; 3; 3; 3; 3; 3; 3; 3; 3; 3; 3; 3; 3; 3; 3]. change (vec 1 16) with [1; 1; 1; 1; 1; 1; 1; 1; 1; 1; 1; 1; 1; 1; 1; 1].
  change (vec 0 8) with [0; 0; 0; 0; 0; 0; 0; 0]. destruct (Z.eqb_spec lane 0) as [->|Hne].
  - cbn [app zip_with take fmap list_fmap]. assert (Hp0 : forall b, Z.land b 3 = pair2 b 0) by (intros b; unfold pair2; by rewrite Z.shiftr_0_r).
    by rewrite !Hp0, !wrap_pair.
  - cbn [app mm_srli_epi16 zip_with take fmap list_fmap]. rewrite !srli_low by lia. rewrite !srli_high by (done || lia). by rewrite !wrap_pair.
Qed.

Section packed.
Context (bytes : list Z) (ws : list Trit) (k : Z) (T : tq2_row bytes ws k) (Hk : 0 <= k).

Lemma byte_at ki : 0 <= ki < k -> 0 <= ki / QK_K * TQ2_0_BLOCK_BYTES + tq2_pos (ki mod QK_K) < zlen bytes.
Proof.
  intros Hki. rewrite (tr_len _ _ _ T). pose proof (Z.mod_pos_bound ki QK_K ltac:(unfold QK_K; lia)) as Hm. destruct (tq2_cells (ki mod QK_K) Hm) as [Hp _].
  pose proof (Z.div_pos ki QK_K ltac:(lia) ltac:(unfold QK_K; lia)). pose proof (div_ceil_bounds k QK_K ltac:(unfold QK_K; lia)) as Hd.
  pose proof (Z.div_mod ki QK_K ltac:(unfold QK_K; lia)) as Hdm. change TQ2_0_BLOCK_BYTES with 66. unfold QK_K in *. nia.
Qed.

Lemma decode_tq2_trit_Ok ki : 0 <= ki < k -> decode_tq2_trit bytes ki = Ok (trit_f32 (tget ws ki)).
Proof.
  intros Hki. pose proof (byte_at ki Hki) as Hb. pose proof (tr_code _ _ _ T ki Hki) as Hc. unfold decode_tq2_trit.
  pose proof (Z.mod_pos_bound ki QK_K ltac:(unfold QK_K; lia)) as Hm. set (e := ki mod QK_K) in *.
  assert (Hpos : Z.shiftr e 7 * 32 + Z.land e 31 = tq2_pos e).
  { unfold tq2_pos. rewrite Z.shiftr_div_pow2 by lia. change 31 with (Z.ones 5). by rewrite Z.land_ones by lia. }
  assert (Hslot : Z.shiftr (Z.land e 127) 5 = tq2_slot e).
  { unfold tq2_slot. rewrite Z.shiftr_div_pow2 by lia. change 127 with (Z.ones 7). by rewrite Z.land_ones by lia. }
  rewrite <- Z.add_assoc, Hpos, Hslot. rewrite (idx_Ok _ _ (bget bytes (ki / QK_K * TQ2_0_BLOCK_BYTES + tq2_pos e))); [|lia|].
  - cbn [bind]. unfold pair2 in Hc. by rewrite Hc, code_trit.
  - unfold bget. destruct (lookup_Z bytes _ Hb) as [b ->]. done.
Qed.

(** One group of the fused kernel. *)
Lemma tq2_group_Ok scales upstream u s ni block_index chunk lane row0 row g :
  0 <= block_index < div_ceil k QK_K -> 0 <= chunk < 2 -> 0 <= lane < 4 -> zlen row0 = k ->
  0 <= ni -> upstream !! Z.to_nat ni = Some u -> scales !! Z.to_nat ni = Some s ->
  (forall ki, 0 <= ki < k -> g ki = madd (fused true k ki) u (f32_mul (trit_f32 (tget ws ki)) s) (fget row0 ki)) ->
  let gk := block_index * QK_K + chunk * 128 + lane * 32 in
  wrote (interval 0 (Z.min k gk)) g row0 row ->
  exists row', tq2_group bytes scales upstream (mm256_set1_ps u) (mm256_set1_ps s) k ni block_index chunk lane row = Ok row' /\
    wrote (interval 0 (Z.min k (gk + 32))) g row0 row'.
Proof.
  intros Hbi Hc Hla Hr Hni Hu Hs Hg gk Hw. unfold tq2_group. fold gk. unfold QK_K in *.
  destruct (Z.leb_spec k gk) as [Hge|Hlt]; [exists row; split; [done|]; by replace (Z.min k (gk + 32)) with (Z.min k gk) by lia|].
  set (len := Z.min (k - gk) 32). assert (Hlen : 0 < len <= 32) by lia. replace (Z.min k gk) with gk in Hw by lia.
  replace (Z.min k (gk + 32)) with (gk + len) by lia.
  assert (Hfv : forall i, 0 <= i < len - len mod 8 -> fused true k (gk + i) = true).
  { intros i Hi. unfold fused. cbn [andb]. unfold gk, len in *. Z.div_mod_to_equations. lia. }
  assert (Hft : forall i, len - len mod 8 <= i < len -> fused true k (gk + i) = false).
  { intros i Hi. unfold fused. cbn [andb]. unfold gk, len in *. Z.div_mod_to_equations. lia. }
  pose proof (Z.mod_le len 8 ltac:(lia) ltac:(lia)) as Hml. apply row_pass; [lia|done| |].
  - intros i r Hi0 Hi Hw1. change TQ2_0_BLOCK_BYTES with 66. pose proof (tr_len _ _ _ T) as Hl. change TQ2_0_BLOCK_BYTES with 66 in Hl. unfold QK_K in Hl.
    set (off := block_index * 66 + chunk * 32 + i * 8). assert (Hoff : off + 8 <= zlen bytes) by (unfold off; lia).
    assert (Lb : zlen (sub bytes off (off + 8)) = 8) by (rewrite zlen_sub; unfold off; lia).
    rewrite slice_Ok by (unfold off in *; lia). cbn [bind]. rewrite tq2_vector_Ok by (done || by apply bytes_ok_sub, (tr_bytes _ _ _ T)).
    apply (fmadd_at_Ok row0 g); [done|lia|lia|done|by apply zlen_widened; rewrite zlen_fmap|].
    intros j Hj. rewrite fget_set1 by done. rewrite <- Z.add_assoc, Hg by lia. rewrite Hfv by (pose proof (Z.mod_pos_bound len 8); Z.div_mod_to_equations; lia).
    rewrite (widened _ _ j (get (tget ws (gk + (i * 8 + j))))); [done|by rewrite zlen_fmap|done|].
    destruct (tq2_index chunk lane (i * 8 + j)) as [Ep Es]; [lia|lia|lia|].
    pose proof (tr_code _ _ _ T (gk + (i * 8 + j)) ltac:(lia)) as Hcode. unfold QK_K in Hcode.
    replace ((gk + (i * 8 + j)) / 256) with block_index in Hcode by (unfold gk; Z.div_mod_to_equations; lia).
    replace ((gk + (i * 8 + j)) mod 256) with (chunk * 128 + lane * 32 + (i * 8 + j)) in Hcode by (unfold gk; Z.div_mod_to_equations; lia).
    rewrite Ep, Es in Hcode. change TQ2_0_BLOCK_BYTES with 66 in Hcode. rewrite list_lookup_fmap, lookup_sub by (unfold off; lia).
    replace (off + j) with (block_index * 66 + (chunk * 32 + (i * 8 + j))) by (unfold off; lia). unfold bget in Hcode.
    destruct (lookup_Z bytes (block_index * 66 + (chunk * 32 + (i * 8 + j))) ltac:(unfold off in *; lia)) as [b Hb]. rewrite Hb in Hcode |- *. cbn in Hcode |- *.
    rewrite Hcode. unfold code. f_equal. lia.
  - intros t r Ht Hw1. rewrite decode_tq2_trit_Ok by lia. cbn [bind]. rewrite (idx_Ok upstream ni u), (idx_Ok scales ni s) by done. cbn [bind].
    apply (add_at_Ok row0 g); [done|lia|]. rewrite Hg by lia. by rewrite Hft by lia.
Qed.

(** All groups of a row. *)
Lemma tq2_groups_Ok scales upstream u s ni row0 g :
  zlen row0 = k -> 0 <= ni -> upstream !! Z.to_nat ni = Some u -> scales !! Z.to_nat ni = Some s ->
  (forall ki, 0 <= ki < k -> g ki = madd (fused true k ki) u (f32_mul (trit_f32 (tget ws ki)) s) (fget row0 ki)) ->
  for_range 0 (div_ceil k QK_K) (fun block_index => for_range 0 2 (fun chunk => for_range 0 4
    (tq2_group bytes scales upstream (mm256_set1_ps u) (mm256_set1_ps s) k ni block_index chunk))) row0 = Ok (tabulate k g).
Proof.
  intros Hr Hni Hu Hs Hg. pose proof (div_ceil_bounds k QK_K ltac:(unfold QK_K; lia)) as Hd.
  pose proof (div_ceil_nonneg k QK_K Hk ltac:(unfold QK_K; lia)) as Hd0.
  match goal with |- for_range 0 _ ?body _ = _ =>
    destruct (for_range_inv (fun b r => wrote (interval 0 (Z.min k (b * QK_K))) g row0 r) body 0 (div_ceil k QK_K) row0) as (r & -> & Hw) end; [done| | |].
  - apply wrote_nothing. intros j Hj. unfold interval, QK_K. lia.
  - intros b r Hb Hw.
    destruct (for_range_inv (fun c r => wrote (interval 0 (Z.min k (b * QK_K + c * 128))) g row0 r)
      (fun chunk => for_range 0 4 (tq2_group bytes scales upstream (mm256_set1_ps u) (mm256_set1_ps s) k ni b chunk)) 0 2 r) as (r1 & -> & Hw1); [lia| | |].
    + by replace (b * QK_K + 0 * 128) with (b * QK_K) by lia.
    + intros c r2 Hc Hw2.
      destruct (for_range_inv (fun l r => wrote (interval 0 (Z.min k (b * QK_K + c * 128 + l * 32))) g row0 r)
        (tq2_group bytes scales upstream (mm256_set1_ps u) (mm256_set1_ps s) k ni b c) 0 4 r2) as (r3 & -> & Hw3); [lia| | |].
      * by replace (b * QK_K + c * 128 + 0 * 32) with (b * QK_K + c * 128) by lia.
      * intros l r3 Hl Hw3. destruct (tq2_group_Ok scales upstream u s ni b c l row0 r3 g) as (r4 & -> & Hw4); try done. exists r4. split; [done|].
        by replace (b * QK_K + c * 128 + (l + 1) * 32) with (b * QK_K + c * 128 + l * 32 + 32) by lia.
      * exists r3. split; [done|]. by replace (b * QK_K + (c + 1) * 128) with (b * QK_K + c * 128 + 4 * 32) by lia.
    + exists r1. split; [done|]. by replace ((b + 1) * QK_K) with (b * QK_K + 2 * 128) by (unfold QK_K; lia).
  - f_equal. apply (wrote_row row0); [|done]. by replace (Z.min k (div_ceil k QK_K * QK_K)) with k in Hw by (unfold QK_K in *; lia).
Qed.
End packed.

Section packed_rows.
Context (packed : list Z) (rb : Z) (weights : list Trit) (scales grad_output : list f32) (m n k : Z).
Context (Hm : 0 <= m) (Hn : 0 <= n) (Hk : 0 <= k) (Hrb : 0 <= rb).
Context (Hp : zlen packed = n * rb) (Hw : zlen weights = n * k) (Hs : zlen scales = n) (Hg : zlen grad_output = m * n).
Context (T : forall ni, 0 <= ni < n -> tq2_row (row packed rb ni) (row weights k ni) k).

Abbreviation act_sum simd mi row0 :=
  (tabulate k (fun ki => foldl (fun acc ni => act_term simd weights scales grad_output n k mi ni ki acc) (fget row0 ki) (seqZ 0 n))).

Lemma tget_of_row ni ki : 0 <= ni < n -> 0 <= ki < k -> tget (row weights k ni) ki = tget weights (ni * k + ki).
Proof. intros Hni Hki. unfold tget at 1. by rewrite (tget_row _ n) by (done || lia). Qed.

Lemma tq2_grad_act_row_Ok mi row0 : 0 <= mi < m -> zlen row0 = k ->
  tq2_grad_act_row packed scales grad_output n rb mi row0 = Ok (act_sum false mi row0).
Proof.
  intros Hmi Hr. apply adds_fold; [done|done| |done]. intros ni r Hni Hl. rewrite (idx_nth grad_output _ f32_zero) by nia. cbn [bind].
  replace ((ni + 1) * rb) with (ni * rb + rb) by lia. rewrite (slice_row _ n) by (done || lia). cbn [bind]. rewrite Hl.
  set (g := fun ki => act_term false weights scales grad_output n k mi ni ki (fget r ki)).
  match goal with |- for_range 0 k ?body r = _ =>
    destruct (for_range_inv (fun p x => wrote (interval 0 p) g r x) body 0 k r) as (r' & -> & Hw') end; [done| | |f_equal; by apply (wrote_row r)].
  - apply wrote_nothing. intros j Hj. unfold interval. lia.
  - intros ki x Hki Hwx. rewrite (decode_tq2_trit_Ok _ _ k (T ni Hni)) by lia. cbn [bind]. rewrite (idx_nth scales _ f32_zero) by lia. cbn [bind].
    apply (add_at_Ok r g); [done|lia|]. by rewrite tget_of_row.
Qed.

Lemma avx2_tq2_grad_act_row_Ok mi row0 : 0 <= mi < m -> zlen row0 = k ->
  avx2_tq2_grad_act_row row0 packed scales (row grad_output n mi) n k rb = Ok (act_sum true mi row0).
Proof.
  intros Hmi Hr. unfold avx2_tq2_grad_act_row. apply adds_fold; [done|done| |done]. intros ni r Hni Hl.
  pose proof (zlen_row grad_output m n mi Hn Hg Hmi) as Lg.
  rewrite (idx_nth (row grad_output n mi) ni f32_zero) by lia. cbn [bind]. rewrite (idx_nth scales ni f32_zero) by lia. cbn [bind].
  replace ((ni + 1) * rb) with (ni * rb + rb) by lia. rewrite (slice_row _ n) by (done || lia). cbn [bind].
  apply (tq2_groups_Ok _ _ k (T ni Hni) Hk); [done|lia|apply nth_lookup_Z; lia|apply nth_lookup_Z; lia|].
  intros ki Hki. rewrite tget_of_row by done. by rewrite (fget_row _ m) by (done || lia).
Qed.
End packed_rows.

(** ** Dispatch *)

Record vjp_fits (act scales grad_output : list f32) (s : GemmShape) (grad_act grad_weight : list f32) (grad_bias : option (list f32)) : Prop := {
  vf_dims : 0 <= gm s /\ 0 <= gn s /\ 0 <= gk s;
  vf_act : zlen act = gm s * gk s;
  vf_scales : zlen scales = gn s;
  vf_out : zlen grad_output = gm s * gn s;
  vf_grad_act : zlen grad_act = gm s * gk s;
  vf_grad_weight : zlen grad_weight = gn s * gk s;
  vf_bias : forall values, grad_bias = Some values -> zlen values = gn s;
  vf_bound : zlen act <= usize_max /\ zlen grad_weight <= usize_max /\ zlen grad_output <= usize_max }.

Lemma check_lengths_Ok lengths grad_bias n :
  Forall (fun p => p.1 = p.2) lengths -> (forall values, grad_bias = Some values -> zlen values = n) ->
  check_lengths lengths grad_bias n = Ok tt.
Proof.
  intros Hl Hb. unfold check_lengths. replace (find _ lengths) with (@None (Z * Z)).
  - destruct grad_bias as [v|]; [|done]. by rewrite (Hb v), Z.eqb_refl.
  - symmetry. induction Hl as [|[a b] l Hab _ IH]; [done|]. cbn [find fst snd] in *. by rewrite Hab, Z.eqb_refl.
Qed.

Lemma zeros_row l c k j : 0 <= k -> zlen l = c * k -> 0 <= j < c -> zlen (row (zeros l) k j) = k /\ forall i, 0 <= i < k -> fget (row (zeros l) k j) i = f32_zero.
Proof.
  intros Hk Hl Hj. assert (Lz : zlen (zeros l) = c * k) by (unfold zeros; rewrite zlen_vec; nia). split; [by apply (zlen_row _ c)|].
  intros i Hi. rewrite (fget_row _ c) by (done || lia). apply nth_lookup_Some. unfold zeros. apply lookup_vec. nia.
Qed.

(** With no rows or no columns every sum is empty. *)
Lemma zeros_tabulate l c (f : Z -> f32) : zlen l = c -> (forall i, 0 <= i < c -> f i = f32_zero) -> zeros l = tabulate c f.
Proof.
  intros Hl Hf. unfold zeros. rewrite Hl. pose proof (zlen_nonneg l). apply tabulate_lookup; [lia|rewrite zlen_vec; lia|].
  intros i Hi. rewrite lookup_vec by lia. by rewrite Hf.
Qed.

(** The rows of one result, from tasks that sum their terms. *)
Lemma summed_rows order l k c task (n : Z) (step : Z -> Z -> Z -> f32 -> f32) :
  0 < k -> 0 <= c -> zlen l = c * k -> Permutation (order c) (seqZ 0 c) ->
  (forall j r, 0 <= j < c -> zlen r = k -> task j r = Ok (tabulate k (fun ki => foldl (fun acc ni => step j ni ki acc) (fget r ki) (seqZ 0 n)))) ->
  par_rows order (zeros l) k task = Ok (tabulate (c * k) (fun i => foldl (fun acc ni => step (i / k) ni (i mod k) acc) f32_zero (seqZ 0 n))).
Proof.
  intros Hk Hc Hl Hp Ht. apply (par_rows_Ok _ _ _ _ _ (fun j ki => foldl (fun acc ni => step j ni ki acc) f32_zero (seqZ 0 n))); try done.
  - unfold zeros. rewrite zlen_vec. nia.
  - intros j Hj. destruct (zeros_row l c k j) as [Lr Hz]; [lia|done|done|]. rewrite Ht by done. f_equal. apply tabulate_ext. intros i Hi. by rewrite Hz.
Qed.

Section gradients.
Context (host : Host) (order : Z -> Z -> list Z) (act : list f32) (weights : list Trit) (scales grad_output : list f32) (s : GemmShape).
Context (grad_act grad_weight : list f32) (grad_bias : option (list f32)).
Context (V : vjp_fits act scales grad_output s grad_act grad_weight grad_bias) (Hw : zlen weights = gn s * gk s).
Context (Ho : forall stage t, Permutation (order stage t) (seqZ 0 t)).

Abbreviation result := (gradients (used_simd host) act weights scales grad_output s grad_bias).

(** The end of both dispatchers. *)
Lemma finish_vjp (rows : kres (list f32 * list f32)) :
  (0 < gm s -> 0 < gn s -> 0 < gk s -> rows = Ok (result.1.1, result.1.2)) ->
  (if (gm s =? 0) || (gn s =? 0) then Ok (zeros grad_act, zeros grad_weight, zeros <$> grad_bias) else
   let* (grad_act, grad_weight) := if 0 <? gk s then rows else Ok (zeros grad_act, zeros grad_weight) in
   match grad_bias with
   | Some values => let* values := bias_sums (order 2) grad_output (gm s) (gn s) values in Ok (grad_act, grad_weight, Some values)
   | None => Ok (grad_act, grad_weight, None)
   end) = Ok result.
Proof.
  intros Hrows. destruct V as [(Hm & Hn & Hk) La Ls Lo Lga Lgw Lb _]. unfold gradients.
  destruct (Z.eqb_spec (gm s) 0) as [Em|Em]; [|destruct (Z.eqb_spec (gn s) 0) as [En|En]]; cbn [orb].
  - f_equal. f_equal; [f_equal|].
    + apply zeros_tabulate; [done|]. rewrite Em. lia.
    + apply zeros_tabulate; [done|]. intros i _. unfold grad_weight_cell. by rewrite Em.
    + destruct grad_bias as [v|] eqn:Eb; [|done]. cbn. f_equal. apply zeros_tabulate; [by apply Lb|]. intros i _. unfold bias_cell. by rewrite Em.
  - f_equal. f_equal; [f_equal|].
    + apply zeros_tabulate; [done|]. intros i _. unfold grad_act_cell. by rewrite En.
    + apply zeros_tabulate; [done|]. rewrite En. lia.
    + destruct grad_bias as [v|] eqn:Eb; [|done]. cbn. f_equal. apply zeros_tabulate; [by apply Lb|]. rewrite En. lia.
  - replace (if 0 <? gk s then rows else Ok (zeros grad_act, zeros grad_weight)) with (Ok (E := BackendError) (result.1.1, result.1.2)).
    + cbn [bind]. destruct grad_bias as [v|] eqn:Eb; [|done]. by rewrite bias_sums_Ok by (done || lia || by apply Lb).
    + destruct (Z.ltb_spec 0 (gk s)) as [Hk0|Hk0]; [symmetry; apply Hrows; lia|].
      f_equal. f_equal; cbn; symmetry; (apply zeros_tabulate; [done|]); intros i Hi; nia.
Qed.

Lemma dense_vjp : dispatch_mpgemm_projected_vjp host order act weights scales grad_output s grad_act grad_weight grad_bias = Ok result.
Proof.
  pose proof V as [(Hm & Hn & Hk) La Ls Lo Lga Lgw Lb (B1 & B2 & B3)]. unfold dispatch_mpgemm_projected_vjp, checked_mul.
  replace (gm s * gk s <=? usize_max) with true by lia. replace (gn s * gk s <=? usize_max) with true by lia. replace (gm s * gn s <=? usize_max) with true by lia.
  cbn [ok_or bind]. rewrite check_lengths_Ok by first [done | by repeat constructor]. cbn [bind]. apply finish_vjp. intros Hm0 Hn0 Hk0.
  destruct (used_simd host) eqn:Eu; unfold avx2_projected_vjp.
  - rewrite (summed_rows _ _ _ (gm s) _ (gn s) (fun j => act_term true weights scales grad_output (gn s) (gk s) j)); try done; try lia.
    2: { intros j r Hj Hr. replace ((j + 1) * gn s) with (j * gn s + gn s) by lia. rewrite (slice_row _ (gm s)) by (done || lia). cbn [bind].
         by apply (avx2_grad_act_row_Ok weights scales grad_output (gm s)). }
    cbn [bind]. rewrite (summed_rows _ _ _ (gn s) _ (gm s) (fun j => weight_term true act grad_output (gn s) (gk s) j)); try done; try lia.
    intros j r Hj Hr. by apply (avx2_grad_weight_row_Ok act grad_output).
  - rewrite (summed_rows _ _ _ (gm s) _ (gn s) (fun j => act_term false weights scales grad_output (gn s) (gk s) j)); try done; try lia.
    2: { intros j r Hj Hr. by apply (grad_act_row_Ok act weights scales grad_output (gm s)). }
    cbn [bind]. rewrite (summed_rows _ _ _ (gn s) _ (gm s) (fun j => weight_term false act grad_output (gn s) (gk s) j)); try done; try lia.
    intros j r Hj Hr. by apply (grad_weight_row_Ok act weights scales grad_output).
Qed.

Lemma tq2_vjp packed :
  let rb := div_ceil (gk s) QK_K * TQ2_0_BLOCK_BYTES in
  zlen packed = gn s * rb -> rb <= usize_max -> gn s * rb <= usize_max ->
  (forall ni, 0 <= ni < gn s -> tq2_row (row packed rb ni) (row weights (gk s) ni) (gk s)) ->
  dispatch_tq2_projected_vjp host order act packed scales grad_output s grad_act grad_weight grad_bias = Ok result.
Proof.
  intros rb Lp Hrb Hnrb T. pose proof V as [(Hm & Hn & Hk) La Ls Lo Lga Lgw Lb (B1 & B2 & B3)]. unfold dispatch_tq2_projected_vjp, checked_mul. fold rb.
  pose proof (div_ceil_nonneg (gk s) QK_K Hk ltac:(unfold QK_K; lia)) as Hd0. assert (Hrb0 : 0 <= rb) by (unfold rb; change TQ2_0_BLOCK_BYTES with 66; lia).
  replace (rb <=? usize_max) with true by lia. cbn [ok_or bind]. replace (gn s * rb <=? usize_max) with true by lia. cbn [ok_or bind].
  rewrite Lp, Z.eqb_refl. cbn [negb].
  replace (gm s * gk s <=? usize_max) with true by lia. replace (gn s * gk s <=? usize_max) with true by lia. replace (gm s * gn s <=? usize_max) with true by lia.
  cbn [ok_or bind]. rewrite check_lengths_Ok by first [done | by repeat constructor]. cbn [bind]. apply finish_vjp. intros Hm0 Hn0 Hk0.
  destruct (used_simd host) eqn:Eu; unfold avx2_tq2_projected_vjp.
  - rewrite (summed_rows _ _ _ (gm s) _ (gn s) (fun j => act_term true weights scales grad_output (gn s) (gk s) j)); try done; try lia.
    2: { intros j r Hj Hr. replace ((j + 1) * gn s) with (j * gn s + gn s) by lia. rewrite (slice_row _ (gm s)) by (done || lia). cbn [bind].
         by apply (avx2_tq2_grad_act_row_Ok packed rb weights scales grad_output (gm s)). }
    cbn [bind]. rewrite (summed_rows _ _ _ (gn s) _ (gm s) (fun j => weight_term true act grad_output (gn s) (gk s) j)); try done; try lia.
    intros j r Hj Hr. by apply (avx2_grad_weight_row_Ok act grad_output).
  - rewrite (summed_rows _ _ _ (gm s) _ (gn s) (fun j => act_term false weights scales grad_output (gn s) (gk s) j)); try done; try lia.
    2: { intros j r Hj Hr. by apply (tq2_grad_act_row_Ok packed rb weights scales grad_output (gm s)). }
    cbn [bind]. rewrite (summed_rows _ _ _ (gn s) _ (gm s) (fun j => weight_term false act grad_output (gn s) (gk s) j)); try done; try lia.
    intros j r Hj Hr. by apply (grad_weight_row_Ok act weights scales grad_output).
Qed.
End gradients.

(** ** The backend *)

Lemma code_of_pair b l : pair2 b l <> 3 -> code (trit_of_code (pair2 b l)) = pair2 b l.
Proof.
  pose proof (pair2_range b l) as Hb. set (q := pair2 b l) in *. intros Hq.
  assert (q = 0 \/ q = 1 \/ q = 2) as [->|[->| ->]] by lia; reflexivity.
Qed.

(** What packing wrote is what the kernels read. *)
Lemma decoded_tq2_row bytes ws sc tbuf sbuf :
  let k := zlen ws in
  unpack_tq2_0_row bytes tbuf sbuf = Ok (ws, sc) -> bytes_ok bytes -> k <= isize_max -> zlen tbuf = k -> zlen sbuf = num_blocks k ->
  zlen bytes = num_blocks k * TQ2_0_BLOCK_BYTES -> tq2_row bytes ws k.
Proof.
  intros k Hun Hu Hk Ht Hs Hl. unfold num_blocks in *. split; [done|done|]. intros ki Hki.
  destruct (unpack_row_inv TQ2_codec bytes tbuf sbuf) as [_ Hd]; [lia|by rewrite Ht|by rewrite Ht|]. destruct (Hd ws sc Hun) as (_ & _ & Hrow). rewrite Ht in Hrow.
  pose proof (Z.div_mod ki QK_K ltac:(unfold QK_K; lia)) as Hdm. pose proof (Z.mod_pos_bound ki QK_K ltac:(unfold QK_K; lia)) as Hm.
  pose proof (Z.div_pos ki QK_K ltac:(lia) ltac:(unfold QK_K; lia)) as Hq. pose proof (div_ceil_bounds k QK_K ltac:(unfold QK_K; lia)) as Hc.
  set (r := ki / QK_K) in *. set (j := ki mod QK_K) in *. assert (Hr : 0 <= r < div_ceil k QK_K) by (unfold QK_K in *; nia).
  destruct (Hrow r Hr) as (blk & buf & Lb & Hub & Hget).
  change TQ2_0_BLOCK_BYTES with 66 in *. assert (Lblk : zlen (sub bytes (r * 66) ((r + 1) * 66)) = 66) by (rewrite zlen_sub; nia).
  change (unpack_tq2_0_block (sub bytes (r * 66) ((r + 1) * 66)) buf = Ok (blk, bget sc r)) in Hub.
  rewrite unpack_tq2_0_block_spec in Hub by done. destruct (tq2_valid _) eqn:Hv; [|done]. injection Hub as <- _.
  specialize (Hget j Hm). change (@bc_elems TQ2_codec) with QK_K in Hget. replace (r * QK_K + j) with ki in Hget by lia. rewrite Hget by lia.
  unfold tget. unfold QK_K in Hm. rewrite lookup_tabulate by lia. cbn [default].
  unfold tq2_valid in Hv. rewrite forallb_seqZ in Hv. specialize (Hv j ltac:(lia)). unfold tq2_trit, tq2_pair in *.
  destruct (tq2_cells j Hm) as [Hpos _]. assert (Hb : bget (sub bytes (r * 66) ((r + 1) * 66)) (tq2_pos j) = bget bytes (r * 66 + tq2_pos j)).
  { unfold bget. by rewrite lookup_sub by lia. }
  rewrite Hb in Hv |- *. symmetry. apply code_of_pair. lia.
Qed.

Section packed_matrix.
Context (weights : list Trit) (packed : list Z) (n k : Z).
Let rb := num_blocks k * TQ2_0_BLOCK_BYTES.
Context (Hp : packs Tq2_0 weights n k rb packed) (Hu : bytes_ok packed) (Hn : 0 <= n) (Hk : 0 <= k <= isize_max) (Hw : zlen weights = n * k).

Lemma packed_row_facts ni : 0 <= ni < n ->
  zlen (row packed rb ni) = rb /\ bytes_ok (row packed rb ni) /\
  exists sc, unpack_tq2_0_row (row packed rb ni) (vec ZERO k) (vec 0 (num_blocks k)) = Ok (row weights k ni, sc).
Proof.
  intros Hni. destruct Hp as [Lp Hrows]. pose proof (div_ceil_nonneg k QK_K ltac:(lia) ltac:(unfold QK_K; lia)) as Hnb. fold (num_blocks k) in Hnb.
  split; [apply (zlen_row _ n); [unfold rb; change TQ2_0_BLOCK_BYTES with 66; lia|done|done]|]. split; [by apply bytes_ok_sub|].
  destruct (Hrows ni Hni) as (sc & out & Hsc & Lo & Hpk). pose proof (zlen_row weights n k ni ltac:(lia) Hw Hni) as Lr.
  exists sc. apply (unpack_packed TQ2_codec _ sc out); [done|done|lia|rewrite zlen_vec; lia|]. rewrite Lr. unfold num_blocks in *. rewrite zlen_vec. change (@bc_elems TQ2_codec) with QK_K. lia.
Qed.

Lemma packed_tq2_row ni : 0 <= ni < n -> tq2_row (row packed rb ni) (row weights k ni) k.
Proof.
  intros Hni. destruct (packed_row_facts ni Hni) as (Lr & Hb & sc & Hun). pose proof (zlen_row weights n k ni ltac:(lia) Hw Hni) as Lw.
  pose proof (div_ceil_nonneg k QK_K ltac:(lia) ltac:(unfold QK_K; lia)) as Hnb. fold (num_blocks k) in Hnb.
  rewrite <- Lw at 2. apply (decoded_tq2_row _ _ sc _ _ Hun Hb); rewrite ?Lw, ?zlen_vec; lia || done.
Qed.

Lemma packed_no_invalid s buf : gn s = n -> gk s = k -> upload_weights packed s Tq2_0 = Ok buf -> cb_tq2_invalid_row buf = None.
Proof.
  intros En Ek Hup. destruct (upload_invalid_row packed s buf Hup) as [Hl ->]. rewrite En, Ek in *. fold rb in Hl |- *.
  pose proof (div_ceil_nonneg k QK_K ltac:(lia) ltac:(unfold QK_K; lia)) as Hnb. fold (num_blocks k) in Hnb.
  destruct (Z.eqb_spec rb 0) as [|Hne]; [done|]. assert (Hrb : 0 < rb) by (unfold rb in *; change TQ2_0_BLOCK_BYTES with 66 in *; lia).
  unfold first_invalid_row. rewrite Hl, Z.div_mul by lia.
  pose proof (find_seqZ (fun i => row_invalid (sub packed (i * rb) ((i + 1) * rb))) n) as Hf. destruct (find _ _) as [i|]; [|done].
  destruct Hf as (Hi & Hinv & _). replace ((i + 1) * rb) with (i * rb + rb) in Hinv by lia. fold (row packed rb i) in Hinv.
  destruct (packed_row_facts i Hi) as (Lr & Hb & sc & Hun).
  destruct (unpack_row_iff (row packed rb i) (vec ZERO k) (vec 0 (num_blocks k))) as [_ Hiff]; rewrite ?zlen_vec, ?Z.max_r by lia; try done; try lia.
  rewrite (proj1 Hiff) in Hinv; [done|]. by eexists.
Qed.
End packed_matrix.

(** C8: gradients of packed weights are exact. For every matrix packed row by row as TQ2_0
    or TQ1_0, every host and every order of the parallel tasks, the backend returns for
    the uploaded bytes the gradients of the matrix, each entry a sum in a fixed order:
    reading TQ2_0 bytes in place, eight at a time and past the clipped last group,
    changes no bit. Old contents of the result buffers do not matter. *)
Theorem packed_vjp_exact host order format weights s packed act scales grad_output grad_act grad_weight grad_bias :
  format <> I2sInt8 -> vjp_fits act scales grad_output s grad_act grad_weight grad_bias ->
  zlen weights = gn s * gk s -> zlen weights <= isize_max -> gk s <= isize_max -> zlen packed <= isize_max -> bytes_ok packed ->
  packs format weights (gn s) (gk s) (num_blocks (gk s) * packed_block format) packed ->
  (forall stage t, Permutation (order stage t) (seqZ 0 t)) ->
  exists buf, upload_weights packed s format = Ok buf /\
    mpgemm_projected_vjp host order act buf scales grad_output s format grad_act grad_weight grad_bias =
      Ok (gradients (used_simd host) act weights scales grad_output s grad_bias).
Proof.
  intros Hf V Hw Hwm Hkm Hpm Hu Hp Ho. pose proof V as [(Hm & Hn & Hk) _ _ _ _ _ _ _].
  destruct (upload_weights_Ok format weights s packed Hf Hn ltac:(lia) ltac:(lia) Hp Hpm) as [inv Hup].
  eexists. split; [exact Hup|]. unfold mpgemm_projected_vjp. rewrite validate_identity_Ok by done. cbn [bind].
  destruct format; [| |done]; cbn [packed_block] in Hp.
  - rewrite (unpack_weights_Ok Tq1_0 weights s packed) by (done || lia). cbn [bind]. by apply dense_vjp.
  - rewrite (packed_no_invalid weights packed (gn s) (gk s) Hp Hu ltac:(lia) Hw s _ eq_refl eq_refl Hup). cbn [cb_bytes].
    pose proof (proj1 Hp) as Lp. pose proof (div_ceil_bounds (gk s) QK_K ltac:(unfold QK_K; lia)) as Hd. unfold num_blocks in *.
    apply (tq2_vjp host order act weights); try done.
    + change TQ2_0_BLOCK_BYTES with 66. unfold QK_K, isize_max, usize_max in *. lia.
    + unfold isize_max, usize_max in *. lia.
    + intros ni Hni. by apply (packed_tq2_row weights packed (gn s) (gk s)).
Qed.

(** Two rows of eleven weights: a register of eight and a tail of three. *)
Definition grad_weights : list Trit := (fun i => if i mod 3 =? 0 then NEG else if i mod 3 =? 1 then ZERO else POS) <$> seqZ 0 22.
Definition grad_packed : list Z :=
  tq2_block (row grad_weights 11 0 ++ vec ZERO 245) F16_ONE ++ tq2_block (row grad_weights 11 1 ++ vec ZERO 245) F16_ONE.

Lemma packed_vjp_exact_witness : exists buf,
  upload_weights grad_packed (mkGemmShape 1 2 11) Tq2_0 = Ok buf /\
  mpgemm_projected_vjp avx2_host (fun _ => seqZ 0) (f32_of_Z <$> seqZ (-5) 11) buf [f32_of_Z 3; f32_of_Z 5] [f32_of_Z 7; f32_of_Z (-2)] (mkGemmShape 1 2 11) Tq2_0
    (vec S754_nan 11) (vec S754_nan 22) (Some [S754_nan; S754_nan]) =
  Ok (gradients true (f32_of_Z <$> seqZ (-5) 11) grad_weights [f32_of_Z 3; f32_of_Z 5] [f32_of_Z 7; f32_of_Z (-2)] (mkGemmShape 1 2 11) (Some [S754_nan; S754_nan])) /\
  take 3 (gradients true (f32_of_Z <$> seqZ (-5) 11) grad_weights [f32_of_Z 3; f32_of_Z 5] [f32_of_Z 7; f32_of_Z (-2)] (mkGemmShape 1 2 11) None).1.1 =
    f32_of_Z <$> [-31; 10; 21].
Proof.
  destruct (packed_vjp_exact avx2_host (fun _ => seqZ 0) Tq2_0 grad_weights (mkGemmShape 1 2 11) grad_packed (f32_of_Z <$> seqZ (-5) 11)
    [f32_of_Z 3; f32_of_Z 5] [f32_of_Z 7; f32_of_Z (-2)] (vec S754_nan 11) (vec S754_nan 22) (Some [S754_nan; S754_nan])) as (buf & Hup & Hv).
  - discriminate.
  - split; try reflexivity; try (vm_compute; repeat split; discriminate). intros values [= <-]. reflexivity.
  - reflexivity.
  - vm_compute. discriminate.
  - vm_compute. discriminate.
  - vm_compute. discriminate.
  - apply bytes_ok_check. vm_compute. reflexivity.
  - split; [reflexivity|]. intros ni Hni. exists [F16_ONE], (vec 0 66). split; [repeat constructor; unfold F16_ONE; lia|]. split; [reflexivity|].
    assert (ni = 0 \/ ni = 1) as [-> | ->] by (simpl in Hni; lia); vm_compute; reflexivity.
  - reflexivity.
  - exists buf. split; [exact Hup|]. split; [exact Hv|]. vm_compute. reflexivity.
Defined.
